(* ===== verification/_CoqProject ===== *)
-Q . S2P
Prelude.v
Sorting.v
Protocol.v
StorageModels.v
Storage.v
Sqlite.v
SqliteFacts.v
SqliteRefines.v
SqliteMigrations.v
CoreErrors.v
Time.v
Env.v
Queue.v
Cursor.v
StateMachine.v
StateMachineFacts.v
ServerDb.v
ServerSpec.v
ServerDbFacts.v
ServerFeed.v
ServerTables.v
ServerSamples.v
Text.v
ServerAuth.v
ServerAuthFacts.v
ServerAuthInv.v
ServerAuthLogin.v
ServerAuthSamples.v
Diff3.v
Crypto.v
Note.v
Vault.v
VaultFacts.v
Search.v
Session.v
Merge.v
NoteSamples.v
Conflict.v
Adapter.v
Files.v
CliSession.v
VaultFiles.v
VaultFilesFacts.v
EditBuffer.v
CliNotes.v
CliNotesFacts.v
Tui.v
TuiFacts.v
WebAuthn.v
Json.v
Routes.v
RoutesAuth.v
App.v
AppFacts.v
AppLogin.v
ServerStart.v
HttpAdapter.v
HttpEndToEnd.v
HttpSamples.v
Push.v
Pull.v
Orchestrator.v
SyncLive.v
SyncSamples.v
Attachment.v
AttachmentStream.v
AttachmentSamples.v
Wasm.v
WasmFacts.v
CliAuth.v
CliAuthFacts.v
CliLink.v
CliLinkFacts.v
CliEditor.v
CliCommands.v
CliMain.v
CliSamples.v
CliAccountSamples.v
CliMainSamples.v
WasmSamples.v
