(* ===== verification/Prelude.v ===== *)
(** * Zero-Knowledge Notes: a verification library

    The program is an end-to-end encrypted note application: a client keeps
    encrypted objects in a local store, queues its edits and synchronises them
    with a server that never sees a key; notes, attachments and keys are
    encrypted on the client, which is a command line, a terminal interface or a
    browser.  This library models it as executable functions and proves what
    makes it correct.

    ** Parts and files

    Shared:
    - [Prelude]: results, the state and error monad [M] with its weakest
      precondition rules, machine integers, strings as UTF-8 bytes, lists with
      keys; [Sorting]: stable sorting; [Text]: characters, big-endian and
      hexadecimal encodings.

    Data and storage (crates zk-protocol, zk-storage):
    - [Protocol], [StorageModels]: the wire and storage records.
    - [Storage]: the five storage traits as classes ([traits.rs]), the backend of
      [memory.rs], and the contract [StorageSpec] that every client is proved
      against: an operation does what the maps of [MemoryStorage] do, or fails
      and changes nothing.  A fault-injecting backend is an instance.
    - [Sqlite], [SqliteFacts], [SqliteRefines]: [sqlite.rs], each operation as its
      statements over tables where any call may fail, proved to be an instance of
      the contract; so everything proved of the clients holds over SQLite.
      [SqliteMigrations]: the schema migrations of the local cache.

    Client synchronisation (crate zk-sync):
    - [Env]: clock, fresh identifiers and random bytes, and the proof rules for
      storage calls.
    - [Queue] ([queue.rs]); [Cursor] ([cursor.rs]); [StateMachine],
      [StateMachineFacts] ([state_machine.rs]).
    - [Diff3] ([diff3.rs]); [Merge] ([merge.rs]); [Conflict] ([conflict.rs]).
    - [Adapter] ([adapter.rs], the server as the client sees it, and the in-memory
      one), [Push] ([push.rs]), [Pull] ([pull.rs]), [Orchestrator]
      ([orchestrator.rs], and the variants that keep the search index of an open
      session), [SyncLive] (a cycle delivers).

    Keys, notes and attachments (crates zk-crypto, zk-core):
    - [CoreErrors], [Time] ([error.rs], [time.rs]).
    - [Crypto] ([object.rs], [keys.rs]), [Note] ([note.rs]).
    - [Vault], [VaultFacts] ([kdf.rs], [vault.rs], [recovery.rs],
      [vault_identity.rs]); [Search] ([search.rs]); [Session] (the unlocked session
      of [vault.rs]).
    - [Attachment], [AttachmentStream] (the three [attachment.rs],
      [object_validation.rs]).

    Server (apps/server, crate zk-server-auth):
    - [ServerDb] with [ServerSpec], [ServerDbFacts], [ServerFeed], [ServerTables]:
      [db/store.rs], the tables as finite maps.
    - [ServerAuth] with [ServerAuthFacts], [ServerAuthInv], [ServerAuthLogin]:
      sessions, devices and passkeys of [db/store.rs], [db/ssh.rs], the SSH proofs
      of zk-server-auth and the middleware of [auth.rs].
    - [WebAuthn] ([webauthn.rs]: registration and assertion checks over an abstract
      CBOR decoder and ECDSA).
    - [Json] (values, the scan for forbidden keys of [routes/sync.rs], the
      configuration, requests, responses and the state the handlers share),
      [Routes] (synchronization, blobs, vault, SSH, health), [RoutesAuth]
      ([routes/auth.rs]), [App] ([app.rs], [logging.rs]: which endpoints are
      protected, the layers around a handler, one function [handle] from a request
      to a response); [AppFacts], [AppLogin]: what a request can do.
    - [ServerStart]: the configuration ([config.rs]), the server's migrations and the
      verification of its schema ([db/migrations.rs], [db/schema.rs]), opening the
      database, and the operator's commands ([main.rs]).
    - [HttpAdapter], [HttpEndToEnd]: the HTTP adapter of the client
      ([NativeHttpSyncAdapter] of [adapter.rs]) as an instance of the adapter class,
      and composed with [handle].

    Command line and terminal interface (apps/cli):
    - [Files]: a file system in which any call may fail and the process may stop
      between two calls.
    - [CliSession] ([error.rs], [session.rs]: the session file and its auto-lock);
      [VaultFiles], [VaultFilesFacts] ([client/vault_files.rs]: the journal that
      makes replacing a vault survive a crash); [EditBuffer] ([edit.rs]: the
      editor's text); [CliEditor] (the temporary file and [client/editor.rs]).
    - [CliNotes], [CliNotesFacts] ([client/notes.rs], [client/conflicts.rs],
      [client/vault.rs]); [CliAuth], [CliAuthFacts] ([auth.rs], [ssh.rs],
      [client/auth.rs]: signing in with the SSH agent and signing out); [CliLink],
      [CliLinkFacts] ([client/vault_link.rs], [client/sync.rs]: linking a vault to
      an account, guarded sync, restoring through a staging directory).
    - [CliCommands] ([commands.rs]), [CliMain] ([main.rs]: every subcommand and
      the dispatch).
    - [Tui], [TuiFacts] ([tui/app.rs] and its neighbours: the state, every key and
      action, the background tasks and the event loop).

    Browser (crate zk-wasm):
    - [Wasm], [WasmFacts] ([lib.rs]: the session that JavaScript holds, creating and
      unlocking vaults, the standalone functions and the wrapped state machine).

    The files named [..Samples] evaluate the definitions on small inputs, give
    concrete instances of the library classes, and apply the theorems there.

    ** How the code is modelled

    A method with interior mutability is a function in [M S E A]: it returns a
    result and the state, on the error path too, so what was written before an
    early return stays written.  Integers are [N] or [Z] with the wrap-around or
    the failing conversion written out where the code has one.  A storage backend
    is any instance of the contract, so every theorem about a client holds when
    any storage call fails.  A server is any instance of the adapter class.  The
    services of the command line run on a world of a disk, the network and the
    SSH agent; the terminal interface runs over any implementation of the
    services.  A panic is a result of its own.  Library code (serde_json, base64,
    the AEAD, Argon2, the hashes, UUID parsing, ssh_key, Unicode tables, reqwest,
    the editor process) is a class of functions; what the code relies on is a
    class of laws, which the samples show to be satisfiable.  In particular a law
    of the AEAD says that decryption accepts what encryption made under the same
    key, nonce and associated data and nothing under other associated data; no
    theorem assumes secrecy.

    Loops that are not structural take fuel: the pull and push loops, paging
    through the feed, reading a stream, and the dispatch of commands that sync.
    The theorems about them either hold for every fuel (a run that stops early is
    a run with a page limit) or state the fuel that is enough: one page more than
    the changes left for a pull, one step per queued mutation for a push, one read
    per byte for a stream.

    ** What the theorems show

    - Server: the versions of an object form one line under compare-and-swap, they
      are exactly the accepted pushes, a push implements an append-only log, a
      retry is recognised, paging yields every change once, accounts do not
      interfere, quotas hold.
    - Authentication: who holds a session proved a key; what is revoked stays so.
    - HTTP: a request reads and writes only the account its bearer token names, a
      passkey session is issued only for a verified assertion, bodies with secrets
      are refused before the database by the five endpoints that scan them, blobs
      come back as they were sent, and a push through the HTTP adapter is the push
      of the database.
    - Client: no edit is lost by queue, push, pull, conflict resolution or a whole
      cycle, whatever fails, except what the Guarded last-write-wins policy drops
      when it settles a conflict; the cursor never skips a change; a pull stores
      exactly the last change of every object; a cycle against the in-memory
      server delivers; the state machine agrees with the cursor.
    - Storage: SQLite implements the contract; interrupted migrations, of the
      client and of the server, resume.
    - Startup: a configuration that loads can be served, and provisioning a key
      happens completely or not at all.
    - Merge: three-way merging loses no line, does not depend on the side and
      converges.
    - Keys: passphrase, recovery code and a new passphrase all give back the vault
      key; notes and attachments decrypt to what was encrypted, and decryption
      against a manifest accepts nothing else; a locked session holds nothing.
    - Search: exactly the matching notes, ranked, from an index that follows the
      store.
    - Command line: offline edits of a note form a chain of revisions; replacing a
      vault, changing its passphrase and signing in happen completely or not at
      all, wherever a call fails; an idle session locks; an edit in an
      external editor leaves no temporary file when no call fails, and never touches
      another file; the agent signs only for the server asked; a sync starts only when
      session, link, local and remote vault agree; a restored vault is checked
      before it is installed.
    - Terminal interface: no reachable state holds decrypted text without the key,
      and the turn that locks empties every buffer.
    - Browser: a locked session stays empty and refuses, whatever a script calls;
      notes and vaults pass between the browser and the native clients.

    ** Not modelled

    Emitting log lines, the sockets and signals of the server; pragmas and WAL
    handling of SQLite; the attachment functions that write a file directly; file
    permissions; zeroising memory and redacted printing; parsing of arguments
    (clap) and the sentences a command always prints; drawing, raw mode and escape
    sequences; what [wasm_bindgen] generates; the harness of the cross-runtime
    tests; and the Cloudflare worker, whose compare-and-swap is written in SQL
    triggers of a hosted database. *)

From stdpp Require Export base gmap strings list fin_maps sorting pretty.
From stdpp Require Import options.
From Stdlib Require Export ZArith NArith Lia Ascii.

(** ** Rust's [Result] *)

Inductive result (E A : Type) : Type :=
| Ok (a : A)
| Err (e : E).
Arguments Ok {E A} a.
Arguments Err {E A} e.

(** Rust's argument order. *)
Abbreviation Result A E := (result E A).

Definition is_ok {A E} (r : Result A E) : bool :=
  match r with Ok _ => true | Err _ => false end.

(** [Result::ok] *)
Definition ok {A E} (r : Result A E) : option A :=
  match r with Ok a => Some a | Err _ => None end.

#[export] Instance Result_ret E : MRet (result E) := fun A a => Ok a.
#[export] Instance Result_bind E : MBind (result E) :=
  fun A B f r => match r with Ok a => f a | Err e => Err e end.

#[export] Instance Result_eq_dec {A E} `{EqDecision A, EqDecision E} :
  EqDecision (Result A E).
Proof. solve_decision. Defined.

(** ** A state and error monad

    A stateful, fallible Rust method [fn f(&self, ..) -> Result<A, E>] whose
    receiver has interior mutability is a function from the state to a result
    and the state afterwards.  The state is returned on the error path too:
    what was written before an early return stays written. *)

Definition M (S E A : Type) : Type := S -> result E A * S.

#[export] Instance M_ret S E : MRet (M S E) := fun A a s => (Ok a, s).
#[export] Instance M_bind S E : MBind (M S E) :=
  fun A B f m s =>
    match m s with
    | (Ok a, s') => f a s'
    | (Err e, s') => (Err e, s')
    end.

(** [return Err(e)] *)
Definition throw {S E A} (e : E) : M S E A := fun s => (Err e, s).

(** [r?] on a result computed without touching the state. *)
Definition lift_result {S E A} (r : Result A E) : M S E A := fun s => (r, s).

(** [.map_err(f)], and the [From] conversion that [?] inserts. *)
Definition map_err {S E E' A} (f : E -> E') (m : M S E A) : M S E' A :=
  fun s =>
    match m s with
    | (Ok a, s') => (Ok a, s')
    | (Err e, s') => (Err (f e), s')
    end.

Definition result_map_err {E E' A} (f : E -> E') (r : Result A E) : Result A E' :=
  match r with Ok a => Ok a | Err e => Err (f e) end.

Lemma result_map_err_ok {E E' A} (f : E -> E') (r : Result A E) a :
  result_map_err f r = Ok a -> r = Ok a.
Proof. destruct r; cbn; congruence. Qed.

(** [let _ = m;]: run for the effect, drop the result. *)
Definition ignore {S E E' A} (m : M S E A) : M S E' unit :=
  fun s => (Ok tt, (m s).2).

(** [m] inspected as a value: [match m { Ok(a) => .., Err(e) => .. }]. *)
Definition attempt {S E E' A} (m : M S E A) : M S E' (Result A E) :=
  fun s => let '(r, s') := m s in (Ok r, s').

(** [.ok_or_else(|| e)?] *)
Definition ok_or {S E A} (e : E) (o : option A) : M S E A :=
  match o with Some a => mret a | None => throw e end.

(** [for x in l { f(x)?; }] *)
Fixpoint for_each {S E A} (f : A -> M S E unit) (l : list A) : M S E unit :=
  match l with
  | [] => mret tt
  | x :: l' => f x ≫= (fun _ => for_each f l')
  end.

(** Running a computation on a component of the state. *)
Definition zoom {S T E A} (get : T -> S) (set : S -> T -> T) (m : M S E A) : M T E A :=
  fun t => let '(r, s') := m (get t) in (r, set s' t).

(** *** Inversion of monadic runs *)

Lemma bind_ok_inv {S E A B} (m : M S E A) (f : A -> M S E B) s b s'' :
  (m ≫= f) s = (Ok b, s'') ->
  exists a s', m s = (Ok a, s') /\ f a s' = (Ok b, s'').
Proof.
  unfold mbind, M_bind. destruct (m s) as [[a|e] s'] eqn:Hm; [eauto | congruence].
Qed.

Lemma bind_err_inv {S E A B} (m : M S E A) (f : A -> M S E B) s e s'' :
  (m ≫= f) s = (Err e, s'') ->
  m s = (Err e, s'') \/ exists a s', m s = (Ok a, s') /\ f a s' = (Err e, s'').
Proof.
  unfold mbind, M_bind. destruct (m s) as [[a|e'] s'] eqn:Hm; [eauto | ].
  intros [= -> ->]. by left.
Qed.

Lemma run_bind_ok {S E A B} (m : M S E A) (f : A -> M S E B) s a s' :
  m s = (Ok a, s') -> (m ≫= f) s = f a s'.
Proof. unfold mbind, M_bind. by intros ->. Qed.

Lemma run_bind_err {S E A B} (m : M S E A) (f : A -> M S E B) s e s' :
  m s = (Err e, s') -> (m ≫= f) s = (Err e, s').
Proof. unfold mbind, M_bind. by intros ->. Qed.

Lemma map_err_ok_inv {S E E' A} (g : E -> E') (m : M S E A) s a s' :
  map_err g m s = (Ok a, s') -> m s = (Ok a, s').
Proof. unfold map_err. destruct (m s) as [[]]; congruence. Qed.

Lemma map_err_err_inv {S E E' A} (g : E -> E') (m : M S E A) s e s' :
  map_err g m s = (Err e, s') -> exists e0, m s = (Err e0, s') /\ e = g e0.
Proof. unfold map_err. destruct (m s) as [[]]; intros [= <- <-]; eauto. Qed.

(** [inv_run]: split every monadic run in the hypotheses that is known to
    have returned [Ok]. *)
Ltac inv_run_step :=
  match goal with
  | H : (_ ≫= _) _ = (Ok _, _) |- _ =>
      let a := fresh "a" in let s := fresh "s" in
      let H1 := fresh "Hrun" in let H2 := fresh "Hrun" in
      apply bind_ok_inv in H as (a & s & H1 & H2)
  | H : map_err _ _ _ = (Ok _, _) |- _ => apply map_err_ok_inv in H
  | H : (mret _) _ = (Ok _, _) |- _ => unfold mret, M_ret in H; injection H as ? ?; subst
  | H : throw _ _ = (Ok _, _) |- _ => discriminate H
  | H : lift_result _ _ = (Ok _, _) |- _ => unfold lift_result in H; injection H as ? ?; subst
  | H : ok_or _ ?o _ = (Ok _, _) |- _ => destruct o eqn:?; [|discriminate H]; cbn [ok_or] in H
  end.
Ltac inv_run := repeat (inv_run_step; cbn beta in * ).

(** *** Weakest preconditions

    [wp m Q s]: running [m] from [s] ends with a result and a state that
    satisfy [Q].  Runs always end (loops are structural or carry fuel), so
    this is total correctness. *)
Definition wp {S E A} (m : M S E A) (Q : result E A -> S -> Prop) (s : S) : Prop :=
  Q (m s).1 (m s).2.

Section wp.
Context {S E A : Type}.
Implicit Types (m : M S E A) (Q : result E A -> S -> Prop).

Lemma wp_run m Q s r s' : wp m Q s -> m s = (r, s') -> Q r s'.
Proof. unfold wp. intros H Hm. by rewrite Hm in H. Qed.

Lemma wp_elim m Q s : wp m Q s -> forall r s', m s = (r, s') -> Q r s'.
Proof. intros ? r s'. by apply wp_run. Qed.

Lemma wp_intro m Q s : (forall r s', m s = (r, s') -> Q r s') -> wp m Q s.
Proof. unfold wp. destruct (m s) as [r s']. auto. Qed.

Lemma wp_mono m Q Q' s :
  wp m Q s -> (forall r s', Q r s' -> Q' r s') -> wp m Q' s.
Proof. unfold wp. auto. Qed.

Lemma wp_and m Q Q' s : wp m Q s -> wp m Q' s -> wp m (fun r s' => Q r s' /\ Q' r s') s.
Proof. by split. Qed.

Lemma wp_ret (a : A) (Q : result E A -> S -> Prop) s : Q (Ok a) s -> wp (mret a) Q s.
Proof. done. Qed.

Lemma wp_throw e (Q : result E A -> S -> Prop) s : Q (Err e) s -> wp (throw e) Q s.
Proof. done. Qed.

Lemma wp_lift r (Q : result E A -> S -> Prop) s : Q r s -> wp (lift_result r) Q s.
Proof. done. Qed.

Lemma wp_bind {B} m (f : A -> M S E B) (Q : result E B -> S -> Prop) s :
  wp m (fun r s' => match r with Ok a => wp (f a) Q s' | Err e => Q (Err e) s' end) s ->
  wp (m ≫= f) Q s.
Proof. unfold wp, mbind, M_bind. by destruct (m s) as [[a|e] s']. Qed.

Lemma wp_map_err {E'} (g : E -> E') m (Q : result E' A -> S -> Prop) s :
  wp m (fun r s' => Q (result_map_err g r) s') s -> wp (map_err g m) Q s.
Proof. unfold wp, map_err. by destruct (m s) as [[a|e] s']. Qed.

Lemma wp_ignore {E'} m (Q : result E' unit -> S -> Prop) s :
  wp m (fun _ s' => Q (Ok tt) s') s -> wp (ignore m) Q s.
Proof. done. Qed.

Lemma wp_attempt {E'} m (Q : result E' (Result A E) -> S -> Prop) s :
  wp m (fun r s' => Q (Ok r) s') s -> wp (attempt m) Q s.
Proof. unfold wp, attempt. by destruct (m s). Qed.

Lemma wp_ok_or e (o : option A) (Q : result E A -> S -> Prop) s :
  (forall a, o = Some a -> Q (Ok a) s) -> (o = None -> Q (Err e) s) -> wp (ok_or e o) Q s.
Proof. destruct o; cbn; intros H1 H2; [by apply H1 | by apply H2]. Qed.

Lemma wp_zoom {T} (get : T -> S) (set : S -> T -> T) m (Q : result E A -> T -> Prop) t :
  wp m (fun r s' => Q r (set s' t)) (get t) -> wp (zoom get set m) Q t.
Proof. unfold wp, zoom. by destruct (m (get t)). Qed.
End wp.

(** From a statement about the outcome of a run to a precondition. *)
Ltac as_wp :=
  match goal with |- _ _ = (?r, ?s) -> _ => revert r s; apply wp_elim end.

(** A decidable proposition about closed terms, by evaluation. *)
Ltac decide_it := apply (bool_decide_unpack _); vm_compute; exact I.

(** An invariant of the loop body, indexed by what has been processed. *)
Lemma wp_for_each {S E A} (f : A -> M S E unit) (I : list A -> S -> Prop)
    (Q : result E unit -> S -> Prop) l s :
  I [] s ->
  (forall done x rest s, l = done ++ x :: rest -> I done s ->
     wp (f x) (fun r s' => match r with Ok _ => I (done ++ [x]) s' | Err e => Q (Err e) s' end) s) ->
  (forall s, I l s -> Q (Ok tt) s) ->
  wp (for_each f l) Q s.
Proof.
  intros H0 Hstep Hend.
  assert (forall rest done s, l = done ++ rest -> I done s -> wp (for_each f rest) Q s) as H; [|by eapply (H l [])].
  induction rest as [|x rest IH]; intros done s' Hl HI; cbn.
  - apply wp_ret, Hend. by rewrite app_nil_r in Hl; subst.
  - apply wp_bind. eapply wp_mono; [by eapply Hstep|]. intros [[]|e] s1; [|done].
    intros HI'. eapply IH; [|exact HI']. by rewrite <- app_assoc.
Qed.

(** ** Machine integers

    [u16], [u32], [u64] values are [N]; [usize] lengths of in-memory
    collections are [nat]; the [i64] columns of the databases are [Z]. *)

Definition u16_max : N := 65535.
Definition u32_max : N := 4294967295.
Definition u64_max : N := 18446744073709551615.
Definition i64_max : Z := 9223372036854775807.

(** [saturating_add] on [u32]; [+] on [u32] and [u64] (the release profile
    has no overflow checks, so the sum wraps); [saturating_sub] is [N.sub]. *)
Definition u32_saturating_add (a b : N) : N := N.min (a + b) u32_max.
Definition u32_add (a b : N) : N := (a + b) mod 4294967296.
Definition u64_add (a b : N) : N := (a + b) mod 18446744073709551616.

(** [x as i64] for a [u64], [z as u64] for an [i64]. *)
Definition as_i64 (n : N) : Z :=
  let z := (Z.of_N n mod 18446744073709551616)%Z in
  if (z <? 9223372036854775808)%Z then z else (z - 18446744073709551616)%Z.
Definition as_u64 (z : Z) : N := Z.to_N (z mod 18446744073709551616)%Z.

Lemma u64_add_small a b : (a + b <= u64_max)%N -> u64_add a b = (a + b)%N.
Proof. unfold u64_add, u64_max. intros. apply N.mod_small. lia. Qed.

Lemma u32_add_small a b : (a + b <= u32_max)%N -> u32_add a b = (a + b)%N.
Proof. unfold u32_add, u32_max. intros. apply N.mod_small. lia. Qed.

Lemma as_i64_small n : (Z.of_N n <= i64_max)%Z -> as_i64 n = Z.of_N n.
Proof.
  unfold as_i64, i64_max. intros.
  rewrite Z.mod_small by lia. by destruct (Z.ltb_spec (Z.of_N n) 9223372036854775808); [|lia].
Qed.

Lemma as_u64_of_N n : (n <= u64_max)%N -> as_u64 (Z.of_N n) = n.
Proof. unfold as_u64, u64_max. intros. rewrite Z.mod_small by lia. lia. Qed.

Lemma as_u64_as_i64 n : (n <= u64_max)%N -> as_u64 (as_i64 n) = n.
Proof.
  unfold as_u64, as_i64, u64_max. intros.
  rewrite (Z.mod_small (Z.of_N n)) by lia.
  destruct (Z.ltb_spec (Z.of_N n) 9223372036854775808).
  - rewrite Z.mod_small by lia. lia.
  - rewrite <- (Z.mod_add _ 1) by lia. rewrite Z.mod_small by lia. lia.
Qed.

(** ** Byte strings

    A Rust [String] is its UTF-8 bytes; [==] and [<] on strings compare
    bytes, which is what [String.string] equality and [String.ltb] do. *)

Definition str_lt (a b : string) : bool := String.ltb a b.
Definition str_gt (a b : string) : bool := String.ltb b a.

Fixpoint str_starts_with (p s : string) : bool :=
  match p, s with
  | EmptyString, _ => true
  | String a p', String b s' => bool_decide (a = b) && str_starts_with p' s'
  | _, _ => false
  end.

Fixpoint str_drop (n : nat) (s : string) : string :=
  match n, s with
  | O, _ => s
  | S n', String _ s' => str_drop n' s'
  | S _, EmptyString => EmptyString
  end.

Fixpoint str_forallb (f : ascii -> bool) (s : string) : bool :=
  match s with
  | EmptyString => true
  | String c s' => f c && str_forallb f s'
  end.

(** [Vec::join] on strings. *)
Fixpoint str_join (sep : string) (l : list string) : string :=
  match l with
  | [] => ""
  | [x] => x
  | x :: l' => x +:+ sep +:+ str_join sep l'
  end.

(** [u8::to_ascii_lowercase], [str::to_ascii_lowercase]. *)
Definition ascii_lower (c : ascii) : ascii :=
  let n := N_of_ascii c in
  if (65 <=? n)%N && (n <=? 90)%N then ascii_of_N (n + 32) else c.

Fixpoint to_ascii_lowercase (s : string) : string :=
  match s with
  | EmptyString => EmptyString
  | String c s' => String (ascii_lower c) (to_ascii_lowercase s')
  end.

Definition is_ascii_digit (c : ascii) : bool :=
  let n := N_of_ascii c in (48 <=? n)%N && (n <=? 57)%N.

(** [format!("{n}")] *)
Definition show_N (n : N) : string := pretty n.
Definition show_nat (n : nat) : string := pretty (N.of_nat n).

(** *** Concatenation and comparison *)

Lemma str_app_cons x a b : String x a +:+ b = String x (a +:+ b).
Proof. done. Qed.
Lemma str_app_nil_l b : "" +:+ b = b.
Proof. done. Qed.
Lemma str_app_assoc a b c : (a +:+ b) +:+ c = a +:+ (b +:+ c).
Proof. induction a as [|x a IH]; [done|]. by rewrite !str_app_cons, IH. Qed.
Lemma str_app_nil_r a : a +:+ "" = a.
Proof. induction a as [|x a IH]; [done|]. by rewrite str_app_cons, IH. Qed.
Lemma str_length_app a b : String.length (a +:+ b) = String.length a + String.length b.
Proof. induction a as [|x a IH]; [done|]. rewrite str_app_cons. cbn. by rewrite IH. Qed.
Lemma str_forallb_app f a b : str_forallb f (a +:+ b) = str_forallb f a && str_forallb f b.
Proof.
  induction a as [|x a IH]; [done|]. rewrite str_app_cons. cbn. by rewrite IH, andb_assoc.
Qed.
Lemma str_compare_refl s : String.compare s s = Eq.
Proof. induction s as [|c s IH]; [done|]. cbn. unfold Ascii.compare. by rewrite N.compare_refl. Qed.

Definition then_cmp (c d : comparison) : comparison := match c with Eq => d | _ => c end.
Lemma str_compare_app a b x y :
  String.length a = String.length b ->
  String.compare (a +:+ x) (b +:+ y) = then_cmp (String.compare a b) (String.compare x y).
Proof.
  revert b. induction a as [|c a IH]; intros [|d b] [=]; [done|].
  rewrite !str_app_cons. cbn. destruct (Ascii.compare c d); [|done|done]. by apply IH.
Qed.

Lemma str_forallb_impl (f g : ascii -> bool) s :
  (forall c, f c = true -> g c = true) -> str_forallb f s = true -> str_forallb g s = true.
Proof.
  intros Himp. induction s as [|c s IH]; [done|]. cbn. rewrite !andb_true_iff.
  intros [??]. auto.
Qed.
(** Big-endian encodings. *)
(** [uN::to_be_bytes] *)
Fixpoint be_bytes (w : nat) (n : N) : string :=
  match w with
  | O => ""
  | S w' => be_bytes w' (n / 256) +:+ String (ascii_of_N (n mod 256)) ""
  end.

Lemma str_app_inj_len a b x y :
  a +:+ x = b +:+ y -> String.length a = String.length b -> a = b /\ x = y.
Proof.
  revert b. induction a as [|c a IH]; intros [|d b] Heq Hlen; cbn in *; try done.
  rewrite !str_app_cons in Heq. injection Heq as -> Heq. destruct (IH b Heq) as [-> ->]; [lia|done].
Qed.

Lemma length_be_bytes w n : String.length (be_bytes w n) = w.
Proof. revert n. induction w as [|w IH]; intros n; [done|]. cbn. rewrite str_length_app, IH. cbn. lia. Qed.

Lemma be_bytes_inj w n m :
  (n < 256 ^ N.of_nat w)%N -> (m < 256 ^ N.of_nat w)%N -> be_bytes w n = be_bytes w m -> n = m.
Proof.
  revert n m. induction w as [|w IH]; intros n m Hn Hm Heq.
  - change (256 ^ N.of_nat 0)%N with 1%N in *. lia.
  - cbn [be_bytes] in Heq. rewrite Nat2N.inj_succ, N.pow_succ_r' in Hn, Hm.
    apply str_app_inj_len in Heq as [Hhi Hlo]; [|by rewrite !length_be_bytes].
    injection Hlo as Hlo. apply IH in Hhi; [|apply N.Div0.div_lt_upper_bound; lia..].
    assert (n mod 256 = m mod 256)%N as Hmod.
    { rewrite <- (N_ascii_embedding (n mod 256)), <- (N_ascii_embedding (m mod 256)), Hlo;
        [done|by apply N.mod_lt..]. }
    rewrite (N.div_mod n 256), (N.div_mod m 256) by done. congruence.
Qed.

Lemma then_cmp_assoc a b c : then_cmp (then_cmp a b) c = then_cmp a (then_cmp b c).
Proof. by destruct a. Qed.

(** ** Association by first match

    [iter().find(p)], [iter().position(p)] followed by [remove], and
    [iter_mut().find(p)] followed by an assignment, on a [Vec]. *)

Section first_match.
Context {A : Type} (p : A -> bool).
Implicit Types l : list A.

Fixpoint find_first (l : list A) : option A :=
  match l with
  | [] => None
  | x :: l' => if p x then Some x else find_first l'
  end.

Fixpoint remove_first (l : list A) : list A :=
  match l with
  | [] => []
  | x :: l' => if p x then l' else x :: remove_first l'
  end.

Fixpoint update_first (f : A -> A) (l : list A) : list A :=
  match l with
  | [] => []
  | x :: l' => if p x then f x :: l' else x :: update_first f l'
  end.

Lemma find_first_Some l x : find_first l = Some x -> x ∈ l /\ p x = true.
Proof.
  induction l as [|y l IH]; cbn; [done|].
  destruct (p y) eqn:Hp.
  - intros [= ->]. split; [left|done].
  - intros [??]%IH. split; [by right|done].
Qed.

Lemma find_first_None l : find_first l = None <-> Forall (fun x => p x = false) l.
Proof.
  induction l as [|y l IH]; cbn; [by split|].
  rewrite Forall_cons. destruct (p y) eqn:Hp; [split; [done | intros [? _]; congruence]|].
  rewrite IH. naive_solver.
Qed.

Lemma find_first_app l l' :
  find_first (l ++ l') = match find_first l with Some x => Some x | None => find_first l' end.
Proof. induction l as [|y l IH]; cbn; [done|]. by destruct (p y). Qed.

Lemma existsb_find_first l : existsb p l = bool_decide (is_Some (find_first l)).
Proof.
  induction l as [|y l IH]; cbn; [done|].
  destruct (p y); [|done]. symmetry. apply bool_decide_eq_true_2. eauto.
Qed.

Lemma elem_of_remove_first l x : x ∈ remove_first l -> x ∈ l.
Proof.
  induction l as [|y l IH]; cbn; [done|].
  destruct (p y); [by right|]. inversion 1; subst; [left|right; auto].
Qed.

Lemma elem_of_remove_first_2 l x : x ∈ l -> p x = false -> x ∈ remove_first l.
Proof.
  intros Hin Hp. induction l as [|y l IH]; cbn; [by inversion Hin|].
  apply elem_of_cons in Hin as [->|Hin].
  - rewrite Hp. left.
  - destruct (p y); [done|]. right; auto.
Qed.

Lemma remove_first_sublist l : sublist (remove_first l) l.
Proof.
  induction l as [|y l IH]; cbn; [constructor|].
  destruct (p y); constructor; [done|done].
Qed.

Lemma length_remove_first l x :
  find_first l = Some x -> length l = S (length (remove_first l)).
Proof.
  induction l as [|y l IH]; cbn; [done|].
  destruct (p y); [done|]. intros ->%IH. done.
Qed.

Lemma remove_first_None l : find_first l = None -> remove_first l = l.
Proof.
  induction l as [|y l IH]; cbn; [done|].
  destruct (p y); [done|]. by intros ->%IH.
Qed.

Lemma elem_of_update_first f l x :
  x ∈ l -> x ∈ update_first f l \/ f x ∈ update_first f l.
Proof.
  induction l as [|y l IH]; cbn; intros Hin; [by inversion Hin|].
  apply elem_of_cons in Hin as [->|Hin].
  - destruct (p y); [right; left | left; left].
  - destruct (p y); [left; by right|]. destruct (IH Hin); [left|right]; by right.
Qed.

Lemma length_update_first f l : length (update_first f l) = length l.
Proof. induction l as [|y l IH]; cbn; [done|]. destruct (p y); cbn; auto. Qed.

Lemma fmap_update_first {B} (g : A -> B) f l :
  (forall x, g (f x) = g x) -> g <$> update_first f l = g <$> l.
Proof.
  intros Hg. induction l as [|y l IH]; cbn; [done|].
  destruct (p y); cbn; [by rewrite Hg | by rewrite IH].
Qed.
End first_match.

(** Unique keys: [find_first] on the key is membership. *)
Section keyed.
Context {A K : Type} `{EqDecision K} (key : A -> K).

Definition has_key (k : K) (x : A) : bool := bool_decide (key x = k).

Lemma has_key_true k x : has_key k x = true <-> key x = k.
Proof. apply bool_decide_eq_true. Qed.

Lemma has_key_false k x : has_key k x = false <-> key x <> k.
Proof. apply bool_decide_eq_false. Qed.

Lemma find_first_key l k x :
  find_first (has_key k) l = Some x -> x ∈ l /\ key x = k.
Proof. intros [? ?%has_key_true]%find_first_Some. done. Qed.

Lemma find_first_key_unique l x :
  NoDup (key <$> l) -> x ∈ l -> find_first (has_key (key x)) l = Some x.
Proof.
  induction l as [|y l IH]; cbn; intros Hnd Hin; [by inversion Hin|].
  apply NoDup_cons in Hnd as [Hy Hnd]. apply elem_of_cons in Hin as [->|Hin].
  - unfold has_key. by rewrite bool_decide_eq_true_2.
  - unfold has_key at 1. rewrite bool_decide_eq_false_2; [auto|].
    intros Heq. apply Hy. rewrite Heq. by apply list_elem_of_fmap_2.
Qed.

Lemma find_first_key_None l k :
  find_first (has_key k) l = None <-> k ∉ key <$> l.
Proof.
  rewrite find_first_None, Forall_forall. setoid_rewrite has_key_false.
  rewrite list_elem_of_fmap. naive_solver.
Qed.

Lemma find_first_remove_first_ne l k k' :
  k <> k' -> find_first (has_key k') (remove_first (has_key k) l) = find_first (has_key k') l.
Proof.
  intros Hne. induction l as [|y l IH]; cbn; [done|].
  destruct (has_key k y) eqn:Hk; cbn.
  - apply has_key_true in Hk. unfold has_key at 2.
    rewrite bool_decide_eq_false_2 by congruence. done.
  - by rewrite IH.
Qed.

Lemma find_first_remove_first l k :
  NoDup (key <$> l) -> find_first (has_key k) (remove_first (has_key k) l) = None.
Proof.
  induction l as [|y l IH]; cbn; intros Hnd; [done|].
  apply NoDup_cons in Hnd as [Hy Hnd].
  destruct (has_key k y) eqn:Hk; cbn.
  - apply has_key_true in Hk as <-. by apply find_first_key_None.
  - rewrite Hk. auto.
Qed.

Lemma update_first_key (f : A -> A) l1 x l2 :
  key x ∉ key <$> l1 ->
  update_first (has_key (key x)) f (l1 ++ x :: l2) = l1 ++ f x :: l2.
Proof.
  induction l1 as [|y l1 IH]; cbn; intros Hnin.
  - unfold has_key. by rewrite bool_decide_eq_true_2.
  - apply not_elem_of_cons in Hnin as [Hne Hnin].
    unfold has_key at 1. rewrite bool_decide_eq_false_2 by congruence. by rewrite IH.
Qed.

Lemma existsb_has_key k l : existsb (has_key k) l = bool_decide (k ∈ key <$> l).
Proof.
  induction l as [|y l IH]; cbn; [done|]. rewrite IH. unfold has_key.
  apply eq_true_iff_eq. rewrite orb_true_iff, !bool_decide_eq_true, elem_of_cons.
  naive_solver.
Qed.

Lemma NoDup_remove_first (p : A -> bool) l :
  NoDup (key <$> l) -> NoDup (key <$> remove_first p l).
Proof.
  intros Hnd. eapply sublist_NoDup; [done|]. apply fmap_sublist, remove_first_sublist.
Qed.
End keyed.

(** ** Lists: partial maps and sorting *)

Lemma NoDup_omap_inj {A B} (f : A -> option B) l :
  (forall x y z, f x = Some z -> f y = Some z -> x = y) -> NoDup l -> NoDup (omap f l).
Proof.
  intros Hinj. induction 1 as [|x l Hx Hnd IH]; cbn; [constructor|].
  destruct (f x) as [y|] eqn:Hf; [|done]. constructor; [|done].
  rewrite list_elem_of_omap. intros (x' & Hin & Hf'). by rewrite (Hinj _ _ _ Hf Hf') in Hx.
Qed.

(** Sorted by a key that determines the element: strictly increasing. *)
Lemma StronglySorted_strict {A} (key : A -> Z) l :
  StronglySorted (fun a b => (key a <= key b)%Z) l -> NoDup l ->
  (forall a b, a ∈ l -> b ∈ l -> key a = key b -> a = b) ->
  StronglySorted (fun a b => (key a < key b)%Z) l.
Proof.
  induction 1 as [|x l Hs IH Hx]; intros Hnd Hinj; [constructor|].
  apply NoDup_cons in Hnd as [Hnin Hnd]. rewrite Forall_forall in Hx. constructor.
  - apply IH; [done|]. intros a b Ha Hb. apply Hinj; by right.
  - apply Forall_forall. intros y Hy. specialize (Hx y Hy).
    destruct (decide (key x = key y)) as [Heq|]; [|lia].
    by rewrite (Hinj x y (list_elem_of_here _ _) (list_elem_of_further _ _ _ Hy) Heq) in Hnin.
Qed.

(** The successes of a partial function that always succeeds. *)
Lemma omap_ok {A B E} (f : A -> Result B E) l :
  Forall (fun x => exists y, f x = Ok y) l ->
  Forall2 (fun x y => f x = Ok y) l (omap (fun x => ok (f x)) l).
Proof.
  induction 1 as [|x l [y Hy] Hl IH]; cbn; [constructor|]. rewrite Hy. cbn. by constructor.
Qed.

(** ** Automation shared by the components *)

Create HintDb zk.
#[export] Hint Resolve elem_of_remove_first elem_of_remove_first_2 NoDup_remove_first : zk.
#[export] Hint Resolve u64_add_small u32_add_small as_i64_small as_u64_of_N as_u64_as_i64 : zk.

(** Case analysis on the innermost scrutinee of the goal, discarding the
    impossible branches. *)
Ltac destruct_scrut :=
  match goal with
  | |- context [match ?x with _ => _ end] =>
      lazymatch x with
      | context [match _ with _ => _ end] => fail
      | _ => destruct x eqn:?
      end
  end.
Ltac crush_scrut := repeat (destruct_scrut; cbn in *; try done; try congruence).
