(* ===== verification/Sorting.v ===== *)
(** * Stable sorting

    Rust's [sort_by] and SQLite's [ORDER BY] are modelled by one stable
    insertion sort on a comparison function. *)

From stdpp Require Import options.
From S2P Require Import Prelude.

(** [sort_by], which is stable: insertion after the elements that are not
    greater. *)
Section sort.
Context {A : Type} (cmp : A -> A -> comparison).

Fixpoint sort_insert (x : A) (l : list A) : list A :=
  match l with
  | [] => [x]
  | y :: l' => match cmp x y with Gt => y :: sort_insert x l' | _ => x :: l end
  end.

Fixpoint sort_by (l : list A) : list A :=
  match l with
  | [] => []
  | x :: l' => sort_insert x (sort_by l')
  end.

Definition not_gt (x y : A) : Prop := cmp x y <> Gt.
Context `{!Transitive not_gt} (Htotal : forall x y, cmp x y = Gt -> not_gt y x).

Lemma sort_insert_perm x l : sort_insert x l ≡ₚ x :: l.
Proof using Type.
  induction l as [|y l IH]; cbn; [done|]. destruct (cmp x y); [done..|]. rewrite IH. constructor.
Qed.

Lemma sort_by_perm l : sort_by l ≡ₚ l.
Proof using Type. induction l as [|x l IH]; cbn; [done|]. by rewrite sort_insert_perm, IH. Qed.

Lemma sort_insert_sorted x l : StronglySorted not_gt l -> StronglySorted not_gt (sort_insert x l).
Proof using Type*.
  induction 1 as [|y l Hl IH Hy]; cbn; [repeat constructor|].
  destruct (cmp x y) eqn:Hc.
  1,2: constructor; [by constructor|]; constructor; [unfold not_gt; congruence|];
    eapply Forall_impl; [exact Hy|]; intros z Hz; transitivity y; [unfold not_gt; congruence|done].
  constructor; [done|]. rewrite sort_insert_perm. constructor; [by apply Htotal|done].
Qed.

Lemma sort_by_sorted l : StronglySorted not_gt (sort_by l).
Proof using Type*. induction l as [|x l IH]; cbn; [constructor|]. by apply sort_insert_sorted. Qed.

(** Selecting commutes with sorting: equal elements keep their order. *)
Lemma filter_sort_insert (p : A -> bool) x l :
  StronglySorted not_gt l ->
  List.filter p (sort_insert x l)
  = if p x then sort_insert x (List.filter p l) else List.filter p l.
Proof using Type*.
  induction 1 as [|y l Hl IH Hy]; [cbn; by destruct (p x)|].
  assert (not_gt x y -> sort_insert x (List.filter p (y :: l)) = x :: List.filter p (y :: l)) as Hhead.
  { intros Hxy. assert (Forall (not_gt x) (List.filter p (y :: l))) as Hall.
    { apply Forall_forall. intros z Hz%list_elem_of_In%filter_In%proj1. apply list_elem_of_In in Hz.
      apply elem_of_cons in Hz as [->|Hz]; [done|]. rewrite Forall_forall in Hy. transitivity y; auto. }
    destruct Hall as [|z ? Hz _]; cbn; [done|]. unfold not_gt in Hz. by destruct (cmp x z). }
  cbn [sort_insert]. unfold not_gt in Hhead. destruct (cmp x y) eqn:Hc.
  3: { cbn. rewrite IH. destruct (p x), (p y); cbn; by rewrite ?Hc. }
  all: cbn [List.filter]; cbn [List.filter] in Hhead; rewrite Hhead by congruence; by destruct (p x).
Qed.

Lemma filter_sort_by (p : A -> bool) l : List.filter p (sort_by l) = sort_by (List.filter p l).
Proof using Type*.
  induction l as [|x l IH]; cbn; [done|]. rewrite filter_sort_insert by (by apply sort_by_sorted).
  rewrite IH. by destruct (p x).
Qed.

(** A new last element goes after everything that is not greater. *)
Fixpoint append_position (x : A) (l : list A) : nat :=
  match l with
  | [] => 0
  | y :: l' => match cmp y x with Gt => 0 | _ => S (append_position x l') end
  end.
Definition sort_append (x : A) (l : list A) : list A :=
  take (append_position x l) l ++ x :: drop (append_position x l) l.

Lemma sort_append_cons x y l :
  sort_append x (y :: l) = match cmp y x with Gt => x :: y :: l | _ => y :: sort_append x l end.
Proof using Type. unfold sort_append. cbn. by destruct (cmp y x). Qed.

Lemma gt_trans x y z : cmp x y = Gt -> cmp y z = Gt -> cmp x z = Gt.
Proof using Type*.
  intros Hxy Hyz. destruct (cmp x z) eqn:Hxz; [exfalso..|done].
  all: assert (not_gt x y) as Hn by (transitivity z; [unfold not_gt; congruence|by apply Htotal]).
  all: by apply Hn.
Qed.

Lemma sort_insert_append x y l : sort_insert y (sort_append x l) = sort_append x (sort_insert y l).
Proof using Type*.
  induction l as [|z l IH]; [cbn; unfold sort_append; cbn; by destruct (cmp y x)|].
  rewrite sort_append_cons. cbn [sort_insert].
  destruct (cmp z x) eqn:Hzx; destruct (cmp y z) eqn:Hyz; cbn [sort_insert]; rewrite ?sort_append_cons, ?Hzx, ?Hyz, ?IH.
  all: try done.
  all: try (assert (not_gt y x) as Hn
         by (transitivity z; unfold not_gt; congruence); unfold not_gt in Hn;
       destruct (cmp y x) eqn:Hyx; try done; by rewrite ?sort_append_cons, ?Hzx).
  all: try (rewrite (gt_trans y z x) by done; done).
  all: destruct (cmp y x); by rewrite ?sort_append_cons, ?Hzx.
Qed.

Lemma sort_by_snoc x l : sort_by (l ++ [x]) = sort_append x (sort_by l).
Proof using Type*.
  induction l as [|y l IH]; [done|]. cbn. by rewrite IH, sort_insert_append.
Qed.
End sort.

(** Sorting by a key commutes with functions that keep the order. *)
Lemma fmap_sort_by {A B} (ca : A -> A -> comparison) (cb : B -> B -> comparison) (f : A -> B) l :
  (forall x y, cb (f x) (f y) = ca x y) -> f <$> sort_by ca l = sort_by cb (f <$> l).
Proof.
  intros Hf. induction l as [|x l IH]; [done|]. cbn. rewrite <- IH. generalize (sort_by ca l) as s.
  induction s as [|y s IHs]; [done|]. cbn. rewrite Hf. destruct (ca x y); cbn; by rewrite ?IHs.
Qed.

(** ** By a string *)

Lemma str_compare_not_gt a b : String.compare a b <> Gt <-> String.le a b.
Proof. unfold String.le, String.leb. by destruct (String.compare a b). Qed.

Definition compare_by {A} (key : A -> string) (a b : A) : comparison := String.compare (key a) (key b).

#[export] Instance compare_by_trans {A} (key : A -> string) : Transitive (not_gt (compare_by key)).
Proof. intros a b c. unfold not_gt, compare_by. rewrite !str_compare_not_gt. apply transitivity. Qed.

Lemma compare_by_total {A} (key : A -> string) a b :
  compare_by key a b = Gt -> not_gt (compare_by key) b a.
Proof. unfold not_gt, compare_by. rewrite (String.compare_antisym (key a)). by destruct (String.compare _ _). Qed.
