(* ===== verification/Protocol.v ===== *)
(** * Wire protocol models ([crates/zk-protocol])

    The protocol constants, the encrypted envelope and its object kinds, the
    vault bootstrap record and the push/pull/conflict messages, field for
    field.  Every record has decidable equality, as every Rust type derives
    [PartialEq]. *)

From stdpp Require Import options.
From S2P Require Import Prelude.

(** ** constants.rs *)

Definition PROTOCOL_VERSION_V1 : N := 1.
Definition ENVELOPE_VERSION_V1 : N := 1.
Definition INITIAL_SYNC_CURSOR : N := 0.
Definition OBJECT_KIND_NOTE : N := 1.
Definition OBJECT_KIND_NOTEBOOK : N := 2.
Definition OBJECT_KIND_USER_SETTINGS : N := 3.
Definition OBJECT_KIND_ATTACHMENT_MANIFEST : N := 4.
Definition OBJECT_KIND_RESERVED : N := 5.
Definition ERROR_REVISION_CONFLICT : string := "REVISION_CONFLICT".
Definition ERROR_MUTATION_REPLAY_MISMATCH : string := "MUTATION_REPLAY_MISMATCH".
Definition ERROR_SYNC_CURSOR_INVALID : string := "SYNC_CURSOR_INVALID".

(** ** kind.rs *)

Inductive ObjectKind : Type :=
| Note | Notebook | UserSettings | AttachmentManifest | Reserved.

Definition ObjectKind_as_u16 (k : ObjectKind) : N :=
  match k with
  | Note => OBJECT_KIND_NOTE
  | Notebook => OBJECT_KIND_NOTEBOOK
  | UserSettings => OBJECT_KIND_USER_SETTINGS
  | AttachmentManifest => OBJECT_KIND_ATTACHMENT_MANIFEST
  | Reserved => OBJECT_KIND_RESERVED
  end.

(** [ObjectKind::try_from]; the error is [UnknownObjectKind(value)]. *)
Definition ObjectKind_try_from (value : N) : Result ObjectKind N :=
  if (value =? OBJECT_KIND_NOTE)%N then Ok Note
  else if (value =? OBJECT_KIND_NOTEBOOK)%N then Ok Notebook
  else if (value =? OBJECT_KIND_USER_SETTINGS)%N then Ok UserSettings
  else if (value =? OBJECT_KIND_ATTACHMENT_MANIFEST)%N then Ok AttachmentManifest
  else if (value =? OBJECT_KIND_RESERVED)%N then Ok Reserved
  else Err value.

(** ** envelope.rs *)

Record EncryptedKeyContainer : Type := mkKeyContainer {
  key_nonce : string;
  key_ciphertext : string
}.

Record EncryptedPayloadContainer : Type := mkPayloadContainer {
  payload_nonce : string;
  payload_ciphertext : string
}.

Record EncryptedEnvelope : Type := mkEnvelope {
  envelope_version : N;
  env_object_id : string;
  env_object_kind : N;
  wrapped_key : EncryptedKeyContainer;
  payload : EncryptedPayloadContainer
}.

(** [EncryptedEnvelope::kind] *)
Definition envelope_kind (e : EncryptedEnvelope) : Result ObjectKind N :=
  ObjectKind_try_from (env_object_kind e).

#[export] Instance EncryptedKeyContainer_eq_dec : EqDecision EncryptedKeyContainer.
Proof. solve_decision. Defined.
#[export] Instance EncryptedPayloadContainer_eq_dec : EqDecision EncryptedPayloadContainer.
Proof. solve_decision. Defined.
#[export] Instance EncryptedEnvelope_eq_dec : EqDecision EncryptedEnvelope.
Proof. solve_decision. Defined.

(** ** vault.rs *)

Record KdfParams : Type := mkKdfParams {
  kdf_algorithm : string;
  kdf_salt : string;
  memory_kib : N;
  iterations : N;
  parallelism : N
}.

Record WrappedVaultKey : Type := mkWrappedVaultKey {
  cipher_suite : string;
  wvk_nonce : string;
  wvk_ciphertext : string
}.

Record VaultBootstrap : Type := mkVaultBootstrap {
  crypto_version : N;
  kdf : KdfParams;
  wrapped_vault_key : WrappedVaultKey;
  recovery_wrapped_vault_key : WrappedVaultKey
}.

#[export] Instance KdfParams_eq_dec : EqDecision KdfParams.
Proof. solve_decision. Defined.
#[export] Instance WrappedVaultKey_eq_dec : EqDecision WrappedVaultKey.
Proof. solve_decision. Defined.
#[export] Instance VaultBootstrap_eq_dec : EqDecision VaultBootstrap.
Proof. solve_decision. Defined.

(** ** sync.rs *)

Record PushRequest : Type := mkPushRequest {
  req_mutation_id : string;
  req_object_id : string;
  req_expected_revision : N;
  req_object_kind : N;
  req_envelope : EncryptedEnvelope;
  req_is_deleted : bool
}.

Record PushResponse : Type := mkPushResponse {
  resp_object_id : string;
  resp_revision : N;
  resp_server_seq : N
}.

Record ConflictResponse : Type := mkConflictResponse {
  conf_error : string;
  conf_object_id : string;
  conf_expected_revision : N;
  conf_current_revision : N;
  conf_current_server_seq : N;
  conf_current_envelope : EncryptedEnvelope;
  conf_is_deleted : bool
}.

Record ObjectChange : Type := mkObjectChange {
  ch_server_seq : N;
  ch_object_id : string;
  ch_revision : N;
  ch_object_kind : N;
  ch_is_deleted : bool;
  ch_envelope : EncryptedEnvelope
}.

Record PullChangesResponse : Type := mkPullChangesResponse {
  pr_changes : list ObjectChange;
  pr_next_cursor : N;
  pr_has_more : bool
}.

#[export] Instance PushRequest_eq_dec : EqDecision PushRequest.
Proof. solve_decision. Defined.
#[export] Instance PushResponse_eq_dec : EqDecision PushResponse.
Proof. solve_decision. Defined.
#[export] Instance ConflictResponse_eq_dec : EqDecision ConflictResponse.
Proof. solve_decision. Defined.
#[export] Instance ObjectChange_eq_dec : EqDecision ObjectChange.
Proof. solve_decision. Defined.

(** ** Properties *)

(** The discriminants are injective, so decoding inverts encoding and every
    accepted discriminant is one of the five durable kinds. *)
Lemma ObjectKind_roundtrip k : ObjectKind_try_from (ObjectKind_as_u16 k) = Ok k.
Proof. by destruct k. Qed.

Lemma ObjectKind_try_from_ok v k :
  ObjectKind_try_from v = Ok k -> v = ObjectKind_as_u16 k.
Proof.
  unfold ObjectKind_try_from. repeat case_match; intros [= <-]; by apply N.eqb_eq.
Qed.
