(* ===== verification/StorageModels.v ===== *)
(** * Storage models and errors ([crates/zk-storage/src/models.rs], [error.rs])

    The records kept by the local store: encrypted objects, queued mutations,
    conflict records and the synchronization cursor. *)

From stdpp Require Import options.
From S2P Require Import Prelude Protocol.

(** ** models.rs *)

Record StoredEncryptedObject : Type := mkStoredObject {
  obj_object_id : string;
  obj_object_kind : N;
  obj_revision : N;
  obj_server_seq : N;
  obj_is_deleted : bool;
  obj_envelope : EncryptedEnvelope;
  obj_updated_at : string
}.

Record ObjectFilter : Type := mkObjectFilter {
  filter_kind : option N;
  filter_include_deleted : bool
}.

Definition ObjectFilter_active_only : ObjectFilter := mkObjectFilter None false.
Definition ObjectFilter_for_kind (kind : N) : ObjectFilter := mkObjectFilter (Some kind) false.
Definition ObjectFilter_all : ObjectFilter := mkObjectFilter None true.

Inductive MutationType : Type := Upsert | Delete.
Inductive MutationStatus : Type := Pending | InFlight | Failed.

Record PendingMutation : Type := mkPendingMutation {
  mut_mutation_id : string;
  mut_object_id : string;
  mut_expected_revision : N;
  mut_object_kind : N;
  mut_mutation_type : MutationType;
  mut_envelope : EncryptedEnvelope;
  mut_created_at : string;
  mut_retry_count : N;
  mut_status : MutationStatus
}.

Record SyncState : Type := mkSyncState {
  sync_cursor : N;
  last_sync_at : option string;
  device_id : option string
}.

(** [impl Default for SyncState] *)
Definition SyncState_default : SyncState := mkSyncState INITIAL_SYNC_CURSOR None None.

Record ConflictRecord : Type := mkConflictRecord {
  cr_conflict_id : string;
  cr_object_id : string;
  cr_object_kind : N;
  cr_base_revision : N;
  cr_remote_revision : N;
  cr_base_envelope : option EncryptedEnvelope;
  cr_local_envelope : EncryptedEnvelope;
  cr_remote_envelope : EncryptedEnvelope;
  cr_candidate_envelope : option EncryptedEnvelope;
  cr_resolved : bool;
  cr_remote_is_deleted : bool;
  cr_local_is_deleted : bool;
  cr_created_at : string;
  cr_resolved_at : option string
}.

(** [ConflictRecord::new] *)
Definition ConflictRecord_new (conflict_id object_id : string) (object_kind base_revision
    remote_revision : N) (base_envelope : option EncryptedEnvelope)
    (local_envelope remote_envelope : EncryptedEnvelope)
    (candidate_envelope : option EncryptedEnvelope) (created_at : string) : ConflictRecord :=
  mkConflictRecord conflict_id object_id object_kind base_revision remote_revision
    base_envelope local_envelope remote_envelope candidate_envelope
    false false false created_at None.

(** [ConflictRecord::with_deletion_flags] *)
Definition with_deletion_flags (c : ConflictRecord) (local_is_deleted remote_is_deleted : bool)
    : ConflictRecord :=
  mkConflictRecord (cr_conflict_id c) (cr_object_id c) (cr_object_kind c) (cr_base_revision c)
    (cr_remote_revision c) (cr_base_envelope c) (cr_local_envelope c) (cr_remote_envelope c)
    (cr_candidate_envelope c) (cr_resolved c) remote_is_deleted local_is_deleted
    (cr_created_at c) (cr_resolved_at c).

(** [record.resolved = true; record.resolved_at = Some(at)], and the
    replacement of the candidate when one is supplied. *)
Definition mark_resolved (c : ConflictRecord) (resolved_envelope : option EncryptedEnvelope)
    (resolved_at : string) : ConflictRecord :=
  mkConflictRecord (cr_conflict_id c) (cr_object_id c) (cr_object_kind c) (cr_base_revision c)
    (cr_remote_revision c) (cr_base_envelope c) (cr_local_envelope c) (cr_remote_envelope c)
    (match resolved_envelope with Some _ => resolved_envelope | None => cr_candidate_envelope c end)
    true (cr_remote_is_deleted c) (cr_local_is_deleted c) (cr_created_at c) (Some resolved_at).

Definition is_deletion_conflict (c : ConflictRecord) : bool :=
  cr_remote_is_deleted c || cr_local_is_deleted c.
Definition is_delete_vs_edit (c : ConflictRecord) : bool :=
  cr_remote_is_deleted c && negb (cr_local_is_deleted c).
Definition is_edit_vs_delete (c : ConflictRecord) : bool :=
  cr_local_is_deleted c && negb (cr_remote_is_deleted c).

Definition conflict_type_str (c : ConflictRecord) : string :=
  if cr_remote_is_deleted c && negb (cr_local_is_deleted c) then "Delete-vs-Edit"
  else if cr_local_is_deleted c && negb (cr_remote_is_deleted c) then "Edit-vs-Delete"
  else if cr_local_is_deleted c && cr_remote_is_deleted c then "Delete-vs-Delete"
  else "Edit-vs-Edit".

#[export] Instance StoredEncryptedObject_eq_dec : EqDecision StoredEncryptedObject.
Proof. solve_decision. Defined.
#[export] Instance MutationType_eq_dec : EqDecision MutationType.
Proof. solve_decision. Defined.
#[export] Instance MutationStatus_eq_dec : EqDecision MutationStatus.
Proof. solve_decision. Defined.
#[export] Instance PendingMutation_eq_dec : EqDecision PendingMutation.
Proof. solve_decision. Defined.
#[export] Instance SyncState_eq_dec : EqDecision SyncState.
Proof. solve_decision. Defined.
#[export] Instance ConflictRecord_eq_dec : EqDecision ConflictRecord.
Proof. solve_decision. Defined.

(** ** error.rs *)

Inductive StorageError : Type :=
| SE_NotFound (entity id : string)
| SE_AlreadyExists (entity id : string)
| SE_RevisionConflict (object_id : string) (expected actual : N)
| SE_Backend (msg : string)
| SE_Serialization (msg : string)
| SE_InvalidInput (msg : string).

#[export] Instance StorageError_eq_dec : EqDecision StorageError.
Proof. solve_decision. Defined.

(** [impl fmt::Display for StorageError] *)
Definition StorageError_display (e : StorageError) : string :=
  match e with
  | SE_NotFound entity id => entity +:+ " not found: " +:+ id
  | SE_AlreadyExists entity id => entity +:+ " already exists with id: " +:+ id
  | SE_RevisionConflict object_id expected actual =>
      "revision conflict on object " +:+ object_id +:+ ": expected revision "
        +:+ show_N expected +:+ ", current is " +:+ show_N actual
  | SE_Backend msg => "storage backend error: " +:+ msg
  | SE_Serialization msg => "storage serialization error: " +:+ msg
  | SE_InvalidInput msg => "invalid storage input: " +:+ msg
  end.

(** ** Facts *)

(** The four labels partition the deletion flags: the label is one of the two
    mixed ones exactly when one side deleted. *)
Lemma conflict_type_str_mixed c :
  conflict_type_str c = "Delete-vs-Edit" <-> is_delete_vs_edit c = true.
Proof.
  unfold conflict_type_str, is_delete_vs_edit.
  destruct (cr_remote_is_deleted c), (cr_local_is_deleted c); cbn; naive_solver.
Qed.

Lemma mark_resolved_resolved c env at_ : cr_resolved (mark_resolved c env at_) = true.
Proof. done. Qed.
