(* ===== verification/Storage.v ===== *)
(** * Local storage: traits, laws and the in-memory backend
      ([crates/zk-storage/src/traits.rs], [memory.rs])

    The five storage traits are type classes of operations over an abstract
    backend state [S].  [MemoryStorage] is the backend of [memory.rs]; it is
    also the specification of the others: [StorageSpec S] says that every
    operation of [S] either does what [MemoryStorage] does on the abstracted
    state, or fails and leaves the abstracted state as it was.  The clients
    (queue, cursor, conflicts, push, pull) are written against the traits and
    proved against [StorageSpec]. *)

From stdpp Require Import options.
From S2P Require Import Prelude Protocol StorageModels.

(** ** traits.rs *)

Class ObjectStore (S : Type) : Type := {
  get_object : string -> M S StorageError (option StoredEncryptedObject);
  put_object : StoredEncryptedObject -> M S StorageError unit;
  list_objects : ObjectFilter -> M S StorageError (list StoredEncryptedObject);
  mark_deleted : string -> N -> EncryptedEnvelope -> string -> M S StorageError unit;
  purge_object : string -> M S StorageError bool
}.

Class MutationStore (S : Type) : Type := {
  enqueue_mutation : PendingMutation -> M S StorageError unit;
  get_mutation : string -> M S StorageError (option PendingMutation);
  list_pending_mutations : M S StorageError (list PendingMutation);
  list_mutations_for_object : string -> M S StorageError (list PendingMutation);
  remove_mutation : string -> M S StorageError bool;
  update_mutation_status : string -> MutationStatus -> N -> M S StorageError unit;
  pending_mutation_count : M S StorageError nat
}.

Class BaseVersionStore (S : Type) : Type := {
  get_base_version : string -> N -> M S StorageError (option EncryptedEnvelope);
  put_base_version : string -> N -> EncryptedEnvelope -> M S StorageError unit;
  prune_base_versions : string -> N -> M S StorageError nat;
  clear_base_versions : string -> M S StorageError nat;
  list_base_versions : string -> M S StorageError (list (N * EncryptedEnvelope))
}.

Class SyncStateStore (S : Type) : Type := {
  get_sync_state : M S StorageError SyncState;
  set_sync_cursor : N -> M S StorageError unit;
  set_sync_state : SyncState -> M S StorageError unit
}.

Class ConflictStore (S : Type) : Type := {
  put_conflict : ConflictRecord -> M S StorageError unit;
  get_conflict : string -> M S StorageError (option ConflictRecord);
  get_active_conflict_for_object : string -> M S StorageError (option ConflictRecord);
  list_conflicts : option bool -> M S StorageError (list ConflictRecord);
  resolve_conflict_record : string -> option EncryptedEnvelope -> string -> M S StorageError bool;
  delete_conflict : string -> M S StorageError bool
}.

(** The supertrait [LocalStorage]. *)
Class LocalStorage (S : Type) : Type := {
  ls_object_store :: ObjectStore S;
  ls_mutation_store :: MutationStore S;
  ls_base_version_store :: BaseVersionStore S;
  ls_sync_state_store :: SyncStateStore S;
  ls_conflict_store :: ConflictStore S
}.

(** ** memory.rs *)

(** The five shared maps, behind [Arc<RwLock<_>>].  A lock is poisoned only
    when a thread panicked while holding it, which none of these operations
    does; so acquiring the lock succeeds. *)
Record MemoryStorage : Type := mkMemoryStorage {
  mem_objects : gmap string StoredEncryptedObject;
  mem_mutations : list PendingMutation;
  mem_base_versions : gmap (string * N) EncryptedEnvelope;
  mem_sync_state : SyncState;
  mem_conflicts : gmap string ConflictRecord
}.

(** [MemoryStorage::new] *)
Definition MemoryStorage_new : MemoryStorage :=
  mkMemoryStorage ∅ [] ∅ SyncState_default ∅.

Definition with_objects (f : gmap string StoredEncryptedObject -> gmap string StoredEncryptedObject)
    (s : MemoryStorage) : MemoryStorage :=
  mkMemoryStorage (f (mem_objects s)) (mem_mutations s) (mem_base_versions s)
    (mem_sync_state s) (mem_conflicts s).
Definition with_mutations (f : list PendingMutation -> list PendingMutation)
    (s : MemoryStorage) : MemoryStorage :=
  mkMemoryStorage (mem_objects s) (f (mem_mutations s)) (mem_base_versions s)
    (mem_sync_state s) (mem_conflicts s).
Definition with_base_versions
    (f : gmap (string * N) EncryptedEnvelope -> gmap (string * N) EncryptedEnvelope)
    (s : MemoryStorage) : MemoryStorage :=
  mkMemoryStorage (mem_objects s) (mem_mutations s) (f (mem_base_versions s))
    (mem_sync_state s) (mem_conflicts s).
Definition with_sync_state (f : SyncState -> SyncState) (s : MemoryStorage) : MemoryStorage :=
  mkMemoryStorage (mem_objects s) (mem_mutations s) (mem_base_versions s)
    (f (mem_sync_state s)) (mem_conflicts s).
Definition with_conflicts (f : gmap string ConflictRecord -> gmap string ConflictRecord)
    (s : MemoryStorage) : MemoryStorage :=
  mkMemoryStorage (mem_objects s) (mem_mutations s) (mem_base_versions s)
    (mem_sync_state s) (f (mem_conflicts s)).

Module Memory.
Abbreviation Mem A := (M MemoryStorage StorageError A).

Definition get_object (object_id : string) : Mem (option StoredEncryptedObject) :=
  fun s => (Ok (mem_objects s !! object_id), s).

Definition put_object (object : StoredEncryptedObject) : Mem unit :=
  fun s => (Ok tt, with_objects <[obj_object_id object := object]> s).

(** The loop body of [list_objects]: which objects pass the filter. *)
Definition passes_filter (f : ObjectFilter) (obj : StoredEncryptedObject) : bool :=
  if negb (filter_include_deleted f) && obj_is_deleted obj then false
  else match filter_kind f with
       | Some kind => (obj_object_kind obj =? kind)%N
       | None => true
       end.

Definition object_id_le (a b : StoredEncryptedObject) : Prop :=
  String.le (obj_object_id a) (obj_object_id b).

Definition list_objects (f : ObjectFilter) : Mem (list StoredEncryptedObject) :=
  fun s =>
    let results := List.filter (passes_filter f) (map_to_list (mem_objects s)).*2 in
    (Ok (merge_sort object_id_le results), s).

Definition mark_deleted (object_id : string) (revision : N) (envelope : EncryptedEnvelope)
    (updated_at : string) : Mem unit :=
  fun s =>
    match mem_objects s !! object_id with
    | Some existing =>
        (Ok tt, with_objects <[object_id :=
           mkStoredObject (obj_object_id existing) (obj_object_kind existing) revision
             (obj_server_seq existing) true envelope updated_at]> s)
    | None => (Err (SE_NotFound "object" object_id), s)
    end.

Definition purge_object (object_id : string) : Mem bool :=
  fun s => (Ok (bool_decide (is_Some (mem_objects s !! object_id))),
            with_objects (delete object_id) s).

Definition by_mutation_id (id : string) : PendingMutation -> bool :=
  has_key mut_mutation_id id.

Definition enqueue_mutation (mutation : PendingMutation) : Mem unit :=
  fun s =>
    if existsb (by_mutation_id (mut_mutation_id mutation)) (mem_mutations s)
    then (Err (SE_AlreadyExists "pending_mutation" (mut_mutation_id mutation)), s)
    else (Ok tt, with_mutations (fun l => l ++ [mutation]) s).

Definition get_mutation (mutation_id : string) : Mem (option PendingMutation) :=
  fun s => (Ok (find_first (by_mutation_id mutation_id) (mem_mutations s)), s).

Definition list_pending_mutations : Mem (list PendingMutation) :=
  fun s => (Ok (mem_mutations s), s).

Definition targets (object_id : string) : PendingMutation -> bool :=
  has_key mut_object_id object_id.

Definition list_mutations_for_object (object_id : string) : Mem (list PendingMutation) :=
  fun s => (Ok (List.filter (targets object_id) (mem_mutations s)), s).

Definition remove_mutation (mutation_id : string) : Mem bool :=
  fun s =>
    match find_first (by_mutation_id mutation_id) (mem_mutations s) with
    | Some _ => (Ok true, with_mutations (remove_first (by_mutation_id mutation_id)) s)
    | None => (Ok false, s)
    end.

Definition set_status (status : MutationStatus) (retry_count : N) (m : PendingMutation)
    : PendingMutation :=
  mkPendingMutation (mut_mutation_id m) (mut_object_id m) (mut_expected_revision m)
    (mut_object_kind m) (mut_mutation_type m) (mut_envelope m) (mut_created_at m)
    retry_count status.

Definition update_mutation_status (mutation_id : string) (status : MutationStatus)
    (retry_count : N) : Mem unit :=
  fun s =>
    match find_first (by_mutation_id mutation_id) (mem_mutations s) with
    | Some _ =>
        (Ok tt, with_mutations
           (update_first (by_mutation_id mutation_id) (set_status status retry_count)) s)
    | None => (Err (SE_NotFound "pending_mutation" mutation_id), s)
    end.

Definition pending_mutation_count : Mem nat :=
  fun s => (Ok (length (mem_mutations s)), s).

Definition get_base_version (object_id : string) (revision : N)
    : Mem (option EncryptedEnvelope) :=
  fun s => (Ok (mem_base_versions s !! (object_id, revision)), s).

Definition put_base_version (object_id : string) (revision : N) (envelope : EncryptedEnvelope)
    : Mem unit :=
  fun s => (Ok tt, with_base_versions <[(object_id, revision) := envelope]> s).

(** The [retain] predicate of [prune_base_versions]. *)
Definition keeps (object_id : string) (older_than : N) (k : string * N) : bool :=
  negb (bool_decide (k.1 = object_id) && (k.2 <? older_than)%N).

Definition prune_base_versions (object_id : string) (older_than : N) : Mem nat :=
  fun s =>
    let m' := base.filter (fun kv => keeps object_id older_than kv.1 = true)
                (mem_base_versions s) in
    (Ok (size (mem_base_versions s) - size m'), with_base_versions (fun _ => m') s).

Definition clear_base_versions (object_id : string) : Mem nat :=
  fun s =>
    let m' := base.filter (fun kv => kv.1.1 <> object_id) (mem_base_versions s) in
    (Ok (size (mem_base_versions s) - size m'), with_base_versions (fun _ => m') s).

Definition rev_le (a b : N * EncryptedEnvelope) : Prop := (a.1 <= b.1)%N.
#[export] Instance rev_le_dec : RelDecision rev_le.
Proof. intros a b. unfold rev_le. apply _. Defined.

Definition list_base_versions (object_id : string) : Mem (list (N * EncryptedEnvelope)) :=
  fun s =>
    let l := base.filter (fun kv : string * N * EncryptedEnvelope => kv.1.1 = object_id)
               (map_to_list (mem_base_versions s)) in
    (Ok (merge_sort rev_le ((fun kv => (kv.1.2, kv.2)) <$> l)), s).

Definition get_sync_state : Mem SyncState := fun s => (Ok (mem_sync_state s), s).

Definition set_sync_cursor (cursor : N) : Mem unit :=
  fun s => (Ok tt, with_sync_state
    (fun st => mkSyncState cursor (last_sync_at st) (device_id st)) s).

Definition set_sync_state (state : SyncState) : Mem unit :=
  fun s => (Ok tt, with_sync_state (fun _ => state) s).

Definition put_conflict (conflict : ConflictRecord) : Mem unit :=
  fun s => (Ok tt, with_conflicts <[cr_conflict_id conflict := conflict]> s).

Definition get_conflict (conflict_id : string) : Mem (option ConflictRecord) :=
  fun s => (Ok (mem_conflicts s !! conflict_id), s).

(** [HashMap::values] has no fixed order; the order of [map_to_list] is one
    of the orders it may have. *)
Definition is_active_for (object_id : string) (c : ConflictRecord) : bool :=
  bool_decide (cr_object_id c = object_id) && negb (cr_resolved c).

Definition get_active_conflict_for_object (object_id : string) : Mem (option ConflictRecord) :=
  fun s => (Ok (find_first (is_active_for object_id) (map_to_list (mem_conflicts s)).*2), s).

Definition created_at_le (a b : ConflictRecord) : Prop :=
  String.le (cr_created_at a) (cr_created_at b).

Definition matches_resolution (resolved : option bool) (c : ConflictRecord) : bool :=
  match resolved with Some r => Bool.eqb (cr_resolved c) r | None => true end.

Definition list_conflicts (resolved : option bool) : Mem (list ConflictRecord) :=
  fun s => (Ok (merge_sort created_at_le
                  (List.filter (matches_resolution resolved) (map_to_list (mem_conflicts s)).*2)), s).

Definition resolve_conflict (conflict_id : string)
    (resolved_envelope : option EncryptedEnvelope) (resolved_at : string) : Mem bool :=
  fun s =>
    match mem_conflicts s !! conflict_id with
    | Some record =>
        (Ok true, with_conflicts
           <[conflict_id := mark_resolved record resolved_envelope resolved_at]> s)
    | None => (Ok false, s)
    end.

Definition delete_conflict (conflict_id : string) : Mem bool :=
  fun s => (Ok (bool_decide (is_Some (mem_conflicts s !! conflict_id))),
            with_conflicts (delete conflict_id) s).
End Memory.

#[export] Instance Memory_ObjectStore : ObjectStore MemoryStorage := {
  get_object := Memory.get_object; put_object := Memory.put_object;
  list_objects := Memory.list_objects; mark_deleted := Memory.mark_deleted;
  purge_object := Memory.purge_object }.
#[export] Instance Memory_MutationStore : MutationStore MemoryStorage := {
  enqueue_mutation := Memory.enqueue_mutation; get_mutation := Memory.get_mutation;
  list_pending_mutations := Memory.list_pending_mutations;
  list_mutations_for_object := Memory.list_mutations_for_object;
  remove_mutation := Memory.remove_mutation;
  update_mutation_status := Memory.update_mutation_status;
  pending_mutation_count := Memory.pending_mutation_count }.
#[export] Instance Memory_BaseVersionStore : BaseVersionStore MemoryStorage := {
  get_base_version := Memory.get_base_version; put_base_version := Memory.put_base_version;
  prune_base_versions := Memory.prune_base_versions;
  clear_base_versions := Memory.clear_base_versions;
  list_base_versions := Memory.list_base_versions }.
#[export] Instance Memory_SyncStateStore : SyncStateStore MemoryStorage := {
  get_sync_state := Memory.get_sync_state; set_sync_cursor := Memory.set_sync_cursor;
  set_sync_state := Memory.set_sync_state }.
#[export] Instance Memory_ConflictStore : ConflictStore MemoryStorage := {
  put_conflict := Memory.put_conflict; get_conflict := Memory.get_conflict;
  get_active_conflict_for_object := Memory.get_active_conflict_for_object;
  list_conflicts := Memory.list_conflicts;
  resolve_conflict_record := Memory.resolve_conflict;
  delete_conflict := Memory.delete_conflict }.
#[export] Instance Memory_LocalStorage : LocalStorage MemoryStorage := {}.

(** ** The contract of a backend *)

(** [impl] refines [spec] through [view]: on success it did on the abstracted
    state what [spec] does, with the same answer; on failure the abstracted
    state is untouched. *)
Record Refines {S A} (view : S -> MemoryStorage) (impl : M S StorageError A)
    (spec : M MemoryStorage StorageError A) : Prop := {
  refines_ok : forall s a s', impl s = (Ok a, s') -> spec (view s) = (Ok a, view s');
  refines_err : forall s e s', impl s = (Err e, s') -> view s' = view s
}.

(** A read may choose among several answers: on success the answer is one of
    those that [post] admits, and the abstracted state stays as it was in any
    case. *)
Record Reads {S A} (view : S -> MemoryStorage) (impl : M S StorageError A)
    (post : MemoryStorage -> A -> Prop) : Prop := {
  reads_ok : forall s a s', impl s = (Ok a, s') -> post (view s) a /\ view s' = view s;
  reads_err : forall s e s', impl s = (Err e, s') -> view s' = view s
}.

(** The queue is listed in the order in which it is pushed.  Where a new entry
    goes is up to the backend: at the end ([memory.rs]), or by its creation
    time ([sqlite.rs]). *)
Definition enqueue_at (position : list PendingMutation -> nat) (mutation : PendingMutation)
    : M MemoryStorage StorageError unit :=
  fun s =>
    if existsb (Memory.by_mutation_id (mut_mutation_id mutation)) (mem_mutations s)
    then (Err (SE_AlreadyExists "pending_mutation" (mut_mutation_id mutation)), s)
    else (Ok tt, with_mutations
            (fun l => take (position l) l ++ mutation :: drop (position l) l) s).

Lemma insert_at_perm {A} (n : nat) (x : A) l : take n l ++ x :: drop n l ≡ₚ x :: l.
Proof. by rewrite <- Permutation_middle, take_drop. Qed.

(** A queued entry is still there, and the new one. *)
Lemma elem_of_insert_at {A} (n : nat) (x y : A) l : y ∈ take n l ++ x :: drop n l <-> y = x \/ y ∈ l.
Proof. by rewrite insert_at_perm, elem_of_cons. Qed.

(** Any unresolved conflict of the object may be returned, and one is if there
    is one. *)
Definition active_conflict (object_id : string) (v : MemoryStorage) (r : option ConflictRecord) : Prop :=
  match r with
  | Some c => (exists id, mem_conflicts v !! id = Some c) /\ Memory.is_active_for object_id c = true
  | None => map_Forall (fun _ c => Memory.is_active_for object_id c = false) (mem_conflicts v)
  end.

(** The matching conflicts, by creation time; ties in any order. *)
Definition listed_conflicts (resolved : option bool) (v : MemoryStorage) (l : list ConflictRecord) : Prop :=
  StronglySorted Memory.created_at_le l
  /\ l ≡ₚ List.filter (Memory.matches_resolution resolved) (map_to_list (mem_conflicts v)).*2.

Class StorageSpec (S : Type) `{LocalStorage S} : Type := {
  view : S -> MemoryStorage;
  enqueue_position : PendingMutation -> list PendingMutation -> nat;
  spec_get_object id : Refines view (get_object id) (Memory.get_object id);
  spec_put_object o : Refines view (put_object o) (Memory.put_object o);
  spec_list_objects f : Refines view (list_objects f) (Memory.list_objects f);
  spec_mark_deleted id r e t :
    Refines view (mark_deleted id r e t) (Memory.mark_deleted id r e t);
  spec_purge_object id : Refines view (purge_object id) (Memory.purge_object id);
  spec_enqueue_mutation m :
    Refines view (enqueue_mutation m) (enqueue_at (enqueue_position m) m);
  spec_get_mutation id : Refines view (get_mutation id) (Memory.get_mutation id);
  spec_list_pending_mutations :
    Refines view list_pending_mutations Memory.list_pending_mutations;
  spec_list_mutations_for_object id :
    Refines view (list_mutations_for_object id) (Memory.list_mutations_for_object id);
  spec_remove_mutation id : Refines view (remove_mutation id) (Memory.remove_mutation id);
  spec_update_mutation_status id st n :
    Refines view (update_mutation_status id st n) (Memory.update_mutation_status id st n);
  spec_pending_mutation_count :
    Refines view pending_mutation_count Memory.pending_mutation_count;
  spec_get_base_version id r :
    Refines view (get_base_version id r) (Memory.get_base_version id r);
  spec_put_base_version id r e :
    Refines view (put_base_version id r e) (Memory.put_base_version id r e);
  spec_prune_base_versions id r :
    Refines view (prune_base_versions id r) (Memory.prune_base_versions id r);
  spec_clear_base_versions id :
    Refines view (clear_base_versions id) (Memory.clear_base_versions id);
  spec_list_base_versions id :
    Refines view (list_base_versions id) (Memory.list_base_versions id);
  spec_get_sync_state : Refines view get_sync_state Memory.get_sync_state;
  spec_set_sync_cursor c : Refines view (set_sync_cursor c) (Memory.set_sync_cursor c);
  spec_set_sync_state st : Refines view (set_sync_state st) (Memory.set_sync_state st);
  spec_put_conflict c : Refines view (put_conflict c) (Memory.put_conflict c);
  spec_get_conflict id : Refines view (get_conflict id) (Memory.get_conflict id);
  spec_get_active_conflict_for_object id :
    Reads view (get_active_conflict_for_object id) (active_conflict id);
  spec_list_conflicts r : Reads view (list_conflicts r) (listed_conflicts r);
  spec_resolve_conflict_record id e t :
    Refines view (resolve_conflict_record id e t) (Memory.resolve_conflict id e t);
  spec_delete_conflict id : Refines view (delete_conflict id) (Memory.delete_conflict id)
}.

(** The operations of [memory.rs] change nothing when they return an error. *)
Lemma Memory_refines_self {A} (op : M MemoryStorage StorageError A) :
  (forall s e s', op s = (Err e, s') -> s' = s) -> Refines (fun s => s) op op.
Proof. intros Herr. by split; [|apply Herr]. Qed.

(** Every operation of [memory.rs] refines itself: unfold it and look at
    its error branches. *)
Ltac memory_refines_self :=
  apply Memory_refines_self; intros ? ? ?;
  cbv [Memory.get_object Memory.put_object Memory.list_objects Memory.mark_deleted
     Memory.purge_object Memory.enqueue_mutation Memory.get_mutation
     Memory.list_pending_mutations Memory.list_mutations_for_object Memory.remove_mutation
     Memory.update_mutation_status Memory.pending_mutation_count Memory.get_base_version
     Memory.put_base_version Memory.prune_base_versions Memory.clear_base_versions
     Memory.list_base_versions Memory.get_sync_state Memory.set_sync_cursor
     Memory.set_sync_state Memory.put_conflict Memory.get_conflict
     Memory.get_active_conflict_for_object Memory.list_conflicts Memory.resolve_conflict
     Memory.delete_conflict]; repeat case_match; intros [=]; done.

Lemma Memory_enqueue_last m : Refines (fun s => s) (Memory.enqueue_mutation m) (enqueue_at length m).
Proof.
  split; unfold Memory.enqueue_mutation, enqueue_at; intros s a s'.
  - destruct (existsb _ _); [done|]. intros [= <- <-]. unfold with_mutations.
    by rewrite firstn_all, drop_all.
  - destruct (existsb _ _); [by intros [= _ <-]|done].
Qed.

Lemma elem_of_map_values {A} (m : gmap string A) x : x ∈ (map_to_list m).*2 <-> exists k, m !! k = Some x.
Proof.
  rewrite list_elem_of_fmap. split.
  - intros ([k y] & -> & Hk). exists k. by apply elem_of_map_to_list.
  - intros [k Hk]. exists (k, x). split; [done|]. by apply elem_of_map_to_list.
Qed.

Lemma Memory_active_conflict id :
  Reads (fun s => s) (Memory.get_active_conflict_for_object id) (active_conflict id).
Proof.
  split; unfold Memory.get_active_conflict_for_object; intros s a s'; [|done].
  intros [= <- <-]. split; [|done]. unfold active_conflict.
  destruct (find_first _ _) as [c|] eqn:Hf.
  - apply find_first_Some in Hf as [Hin Hact]. by rewrite elem_of_map_values in Hin.
  - intros k c Hk. rewrite find_first_None, Forall_forall in Hf. apply Hf. rewrite elem_of_map_values. eauto.
Qed.

#[export] Instance created_at_le_trans : Transitive Memory.created_at_le.
Proof. intros a b c. unfold Memory.created_at_le. apply transitivity. Qed.
#[export] Instance created_at_le_total : Total Memory.created_at_le.
Proof. intros a b. unfold Memory.created_at_le. apply total, _. Qed.

Lemma Memory_list_conflicts r : Reads (fun s => s) (Memory.list_conflicts r) (listed_conflicts r).
Proof.
  split; unfold Memory.list_conflicts; intros s a s'; [|done].
  intros [= <- <-]. split; [|done]. split; [|apply merge_sort_Permutation].
  apply StronglySorted_merge_sort; apply _.
Qed.

#[export] Program Instance Memory_StorageSpec : StorageSpec MemoryStorage := {
  view s := s;
  enqueue_position _ := length;
  spec_enqueue_mutation := Memory_enqueue_last;
  spec_get_active_conflict_for_object := Memory_active_conflict;
  spec_list_conflicts := Memory_list_conflicts
}.
Solve Obligations with (cbn; intros; memory_refines_self).

(** *** A backend that fails on command

    The fault-injecting wrapper of the crate's tests, generalized: a script
    says for every operation in turn whether the backend fails. *)
Record FaultInjectableStorage : Type := mkFaulty {
  fi_inner : MemoryStorage;
  fi_script : list bool
}.

Definition faulty {A} (op : M MemoryStorage StorageError A)
    : M FaultInjectableStorage StorageError A :=
  fun s =>
    match fi_script s with
    | true :: rest => (Err (SE_Backend "simulated disk failure"), mkFaulty (fi_inner s) rest)
    | script =>
        let '(r, inner') := op (fi_inner s) in (r, mkFaulty inner' (tail script))
    end.

#[export] Instance Faulty_ObjectStore : ObjectStore FaultInjectableStorage := {
  get_object id := faulty (Memory.get_object id); put_object o := faulty (Memory.put_object o);
  list_objects f := faulty (Memory.list_objects f);
  mark_deleted id r e t := faulty (Memory.mark_deleted id r e t);
  purge_object id := faulty (Memory.purge_object id) }.
#[export] Instance Faulty_MutationStore : MutationStore FaultInjectableStorage := {
  enqueue_mutation m := faulty (Memory.enqueue_mutation m);
  get_mutation id := faulty (Memory.get_mutation id);
  list_pending_mutations := faulty Memory.list_pending_mutations;
  list_mutations_for_object id := faulty (Memory.list_mutations_for_object id);
  remove_mutation id := faulty (Memory.remove_mutation id);
  update_mutation_status id st n := faulty (Memory.update_mutation_status id st n);
  pending_mutation_count := faulty Memory.pending_mutation_count }.
#[export] Instance Faulty_BaseVersionStore : BaseVersionStore FaultInjectableStorage := {
  get_base_version id r := faulty (Memory.get_base_version id r);
  put_base_version id r e := faulty (Memory.put_base_version id r e);
  prune_base_versions id r := faulty (Memory.prune_base_versions id r);
  clear_base_versions id := faulty (Memory.clear_base_versions id);
  list_base_versions id := faulty (Memory.list_base_versions id) }.
#[export] Instance Faulty_SyncStateStore : SyncStateStore FaultInjectableStorage := {
  get_sync_state := faulty Memory.get_sync_state;
  set_sync_cursor c := faulty (Memory.set_sync_cursor c);
  set_sync_state st := faulty (Memory.set_sync_state st) }.
#[export] Instance Faulty_ConflictStore : ConflictStore FaultInjectableStorage := {
  put_conflict c := faulty (Memory.put_conflict c);
  get_conflict id := faulty (Memory.get_conflict id);
  get_active_conflict_for_object id := faulty (Memory.get_active_conflict_for_object id);
  list_conflicts r := faulty (Memory.list_conflicts r);
  resolve_conflict_record id e t := faulty (Memory.resolve_conflict id e t);
  delete_conflict id := faulty (Memory.delete_conflict id) }.
#[export] Instance Faulty_LocalStorage : LocalStorage FaultInjectableStorage := {}.

Lemma faulty_refines {A} (op spec : M MemoryStorage StorageError A) :
  Refines (fun s => s) op spec -> Refines fi_inner (faulty op) spec.
Proof.
  intros [Hok Herr]. split; intros s a s'; unfold faulty.
  - destruct (op (fi_inner s)) as [r inner'] eqn:Hop.
    destruct (fi_script s) as [|[] ?]; intros ?; simplify_eq; cbn; eauto.
  - destruct (op (fi_inner s)) as [r inner'] eqn:Hop.
    destruct (fi_script s) as [|[] ?]; intros ?; simplify_eq; cbn; eauto.
Qed.

Lemma faulty_reads {A} (op : M MemoryStorage StorageError A) post :
  Reads (fun s => s) op post -> Reads fi_inner (faulty op) post.
Proof.
  intros [Hok Herr]. split; intros s a s'; unfold faulty.
  all: destruct (op (fi_inner s)) as [r inner'] eqn:Hop.
  all: destruct (fi_script s) as [|[] ?]; intros ?; simplify_eq; cbn; eauto.
Qed.

#[export] Program Instance Faulty_StorageSpec : StorageSpec FaultInjectableStorage := {
  view := fi_inner;
  enqueue_position _ := length;
  spec_enqueue_mutation m := faulty_refines _ _ (Memory_enqueue_last m);
  spec_get_active_conflict_for_object id := faulty_reads _ _ (Memory_active_conflict id);
  spec_list_conflicts r := faulty_reads _ _ (Memory_list_conflicts r)
}.
Solve Obligations with (cbn; intros; apply faulty_refines; memory_refines_self).
