(* ===== verification/Sqlite.v ===== *)
(** * The SQLite backend ([crates/zk-storage/src/sqlite.rs])

    The five tables of the local cache, and every operation of the storage
    traits as the statements it executes on them.  A table with a primary key
    is a finite map on it; [pending_mutations], which is read in an order, is
    the list of its rows by rowid.  [stored_at] is never read and left out.

    Every call into SQLite may fail for reasons of its own (a full disk, a
    busy database): [t_faults] says for each call in turn whether it does, and
    with which message.  A statement that fails changes nothing.  Rows of equal
    [created_at] are returned by rowid, as the index on [created_at] has them.

    Envelopes are stored as JSON text; [serde_json] is the class
    [EnvelopeJson]. *)

From stdpp Require Import options.
From S2P Require Import Prelude Sorting Protocol StorageModels Storage.

(** [serde_json::to_string] and [from_str] on envelopes. *)
Class EnvelopeJson : Type := {
  env_to_string : EncryptedEnvelope -> Result string string;
  env_from_str : string -> Result EncryptedEnvelope string
}.

Class EnvelopeJsonLaws `{EnvelopeJson} : Prop := {
  env_json_total e : exists j, env_to_string e = Ok j;
  env_json_roundtrip e j : env_to_string e = Ok j -> env_from_str j = Ok e
}.

(** ** Tables *)

Record ObjectCols : Type := mkObjectCols {
  oc_object_kind : Z;
  oc_revision : Z;
  oc_server_seq : Z;
  oc_is_deleted : Z;
  oc_envelope : string;
  oc_updated_at : string
}.

Record MutationCols : Type := mkMutationCols {
  mc_mutation_id : string;
  mc_object_id : string;
  mc_expected_revision : Z;
  mc_object_kind : Z;
  mc_mutation_type : string;
  mc_envelope : string;
  mc_created_at : string;
  mc_retry_count : Z;
  mc_status : string
}.

Record SyncCols : Type := mkSyncCols {
  yc_sync_cursor : Z;
  yc_last_sync_at : option string;
  yc_device_id : option string
}.

Record ConflictCols : Type := mkConflictCols {
  cc_object_id : string;
  cc_object_kind : Z;
  cc_base_revision : Z;
  cc_remote_revision : Z;
  cc_base_envelope : option string;
  cc_local_envelope : string;
  cc_remote_envelope : string;
  cc_candidate_envelope : option string;
  cc_resolved : Z;
  cc_remote_is_deleted : Z;
  cc_local_is_deleted : Z;
  cc_created_at : string;
  cc_resolved_at : option string
}.

(** A revision is stored through [to_sql_u64], so the revisions of
    [encrypted_base_versions] are never negative. *)
Record Tables : Type := mkTables {
  t_objects : gmap string ObjectCols;
  t_mutations : list MutationCols;
  t_bases : gmap (string * N) string;
  t_sync : option SyncCols;
  t_conflicts : gmap string ConflictCols;
  t_faults : list (option string)
}.

Definition set_objects (f : gmap string ObjectCols -> gmap string ObjectCols) (t : Tables) : Tables :=
  mkTables (f (t_objects t)) (t_mutations t) (t_bases t) (t_sync t) (t_conflicts t) (t_faults t).
Definition set_mutations (f : list MutationCols -> list MutationCols) (t : Tables) : Tables :=
  mkTables (t_objects t) (f (t_mutations t)) (t_bases t) (t_sync t) (t_conflicts t) (t_faults t).
Definition set_bases (f : gmap (string * N) string -> gmap (string * N) string) (t : Tables) : Tables :=
  mkTables (t_objects t) (t_mutations t) (f (t_bases t)) (t_sync t) (t_conflicts t) (t_faults t).
Definition set_sync (f : option SyncCols -> option SyncCols) (t : Tables) : Tables :=
  mkTables (t_objects t) (t_mutations t) (t_bases t) (f (t_sync t)) (t_conflicts t) (t_faults t).
Definition set_conflict_rows (f : gmap string ConflictCols -> gmap string ConflictCols) (t : Tables) : Tables :=
  mkTables (t_objects t) (t_mutations t) (t_bases t) (t_sync t) (f (t_conflicts t)) (t_faults t).
Definition set_faults (l : list (option string)) (t : Tables) : Tables :=
  mkTables (t_objects t) (t_mutations t) (t_bases t) (t_sync t) (t_conflicts t) l.

(** The tables after the migrations: empty, with the one row of [sync_state]. *)
Definition Tables_new : Tables := mkTables ∅ [] ∅ (Some (mkSyncCols 0 None None)) ∅ [].

(** ** Columns ([rusqlite]'s [ToSql] and [FromSql]) *)

Definition to_sql (max : Z) (n : N) : Result Z string :=
  if (Z.of_N n <=? max)%Z then Ok (Z.of_N n) else Err "out of range integral type conversion attempted".
(** [u64] has values that no column holds.  All values of [u16] and [u32] are
    in range. *)
Definition to_sql_u64 : N -> Result Z string := to_sql i64_max.
Definition to_sql_u32 : N -> Result Z string := to_sql 4294967295.
Definition to_sql_u16 : N -> Result Z string := to_sql 65535.

Definition from_sql (max : Z) (col : nat) (z : Z) : Result N string :=
  if (0 <=? z)%Z && (z <=? max)%Z then Ok (Z.to_N z)
  else Err ("Integer " +:+ pretty z +:+ " out of range at index " +:+ pretty col).
Definition get_u64 : nat -> Z -> Result N string := from_sql i64_max.
Definition get_u32 : nat -> Z -> Result N string := from_sql 4294967295.
Definition get_u16 : nat -> Z -> Result N string := from_sql 65535.

Definition bool_col (b : bool) : Z := if b then 1%Z else 0%Z.
Definition col_bool (z : Z) : bool := negb (z =? 0)%Z.

Definition mutation_type_str (ty : MutationType) : string :=
  match ty with Upsert => "Upsert" | Delete => "Delete" end.
Definition status_str (st : MutationStatus) : string :=
  match st with Pending => "Pending" | InFlight => "InFlight" | Failed => "Failed" end.

Definition parse_mutation_type (s : string) : Result MutationType StorageError :=
  if bool_decide (s = "Upsert") then Ok Upsert
  else if bool_decide (s = "Delete") then Ok Delete
  else Err (SE_Serialization ("unknown mutation_type: " +:+ s)).
Definition parse_status (s : string) : Result MutationStatus StorageError :=
  if bool_decide (s = "Pending") then Ok Pending
  else if bool_decide (s = "InFlight") then Ok InFlight
  else if bool_decide (s = "Failed") then Ok Failed
  else Err (SE_Serialization ("unknown mutation status: " +:+ s)).

Module Sqlite.
Section ops.
Context `{EnvelopeJson}.
Abbreviation Sql A := (M Tables StorageError A).

(** ** Statements *)

(** One call into SQLite. *)
Definition sqlite : M Tables string unit :=
  fun t =>
    match t_faults t with
    | Some e :: rest => (Err e, set_faults rest t)
    | None :: rest => (Ok tt, set_faults rest t)
    | [] => (Ok tt, t)
    end.

(** [.map_err(|e| StorageError::Backend(format!("{what}: {e}")))] *)
Definition backend {A} (what : string) (m : M Tables string A) : Sql A :=
  map_err (fun e => SE_Backend (what +:+ ": " +:+ e)) m.

Definition prepare (what : string) : Sql unit := backend what sqlite.

Definition rows_of {A} (q : Tables -> Result A string) : M Tables string A := fun t => (q t, t).
Definition query {A} (q : Tables -> Result A string) : M Tables string A := _ ← sqlite; rows_of q.

(** A statement that writes: its parameters are converted, then it runs. *)
Definition effect {A} (run : Tables -> A * Tables) : M Tables string A :=
  fun t => let '(a, t') := run t in (Ok a, t').
Definition execute {P A} (params : Result P string) (run : P -> Tables -> A * Tables) : M Tables string A :=
  p ← lift_result params; _ ← sqlite; effect (run p).

Definition serialize (what : string) (e : EncryptedEnvelope) : Result string StorageError :=
  result_map_err (fun m => SE_Serialization (what +:+ ": " +:+ m)) (env_to_string e).
Definition deserialize (what : string) (j : string) : Result EncryptedEnvelope StorageError :=
  result_map_err (fun m => SE_Serialization (what +:+ ": " +:+ m)) (env_from_str j).

(** ** Objects *)

(** The closure that reads a row of [local_objects]. *)
Definition object_row (id : string) (r : ObjectCols) : Result (string * N * N * N * bool * string * string) string :=
  object_kind ← get_u16 1 (oc_object_kind r);
  revision ← get_u64 2 (oc_revision r);
  server_seq ← get_u64 3 (oc_server_seq r);
  Ok (id, object_kind, revision, server_seq, col_bool (oc_is_deleted r), oc_envelope r, oc_updated_at r).

Definition build_object (raw : string * N * N * N * bool * string * string)
    : Result StoredEncryptedObject StorageError :=
  let '(object_id, object_kind, revision, server_seq, is_deleted, envelope_json, updated_at) := raw in
  envelope ← deserialize "deserialize envelope" envelope_json;
  Ok (mkStoredObject object_id object_kind revision server_seq is_deleted envelope updated_at).

Definition get_object (object_id : string) : Sql (option StoredEncryptedObject) :=
  _ ← prepare "prepare get_object failed";
  row ← backend "get_object query failed" (query (fun t =>
    match t_objects t !! object_id with
    | Some r => raw ← object_row object_id r; Ok (Some raw)
    | None => Ok None
    end));
  match row with
  | Some raw => o ← lift_result (build_object raw); mret (Some o)
  | None => mret None
  end.

Definition object_params (o : StoredEncryptedObject) (envelope_json : string) : Result ObjectCols string :=
  kind ← to_sql_u16 (obj_object_kind o);
  revision ← to_sql_u64 (obj_revision o);
  server_seq ← to_sql_u64 (obj_server_seq o);
  Ok (mkObjectCols kind revision server_seq (bool_col (obj_is_deleted o)) envelope_json (obj_updated_at o)).

(** [INSERT .. ON CONFLICT(object_id) DO UPDATE SET ..] sets every column. *)
Definition put_object (object : StoredEncryptedObject) : Sql unit :=
  envelope_json ← lift_result (serialize "serialize envelope" (obj_envelope object));
  _ ← prepare "prepare put_object failed";
  backend "put_object execute failed" (execute (object_params object envelope_json)
    (fun row t => (tt, set_objects <[obj_object_id object := row]> t))).

(** The [WHERE] clause that [list_objects] puts together. *)
Definition object_selected (filter : ObjectFilter) (kv : string * ObjectCols) : bool :=
  (filter_include_deleted filter || (oc_is_deleted kv.2 =? 0)%Z)
  && match filter_kind filter with Some kind => (oc_object_kind kv.2 =? Z.of_N kind)%Z | None => true end.

Definition key_le {A} (a b : string * A) : Prop := String.le a.1 b.1.
#[global] Instance key_le_dec {A} : RelDecision (@key_le A).
Proof. intros a b. unfold key_le. apply _. Defined.

(** Reading the rows of a result one after the other; the first that cannot be
    read ends it. *)
Definition read_row {R A B} (read : R -> Result A string) (build : A -> Result B StorageError) (row : R)
    : Result B StorageError :=
  raw ← result_map_err (fun e => SE_Backend ("row mapping error: " +:+ e)) (read row); build raw.
Definition read_rows {R A B} (read : R -> Result A string) (build : A -> Result B StorageError) (rows : list R)
    : Sql (list B) :=
  _ ← backend "row mapping error" sqlite;
  lift_result (mapM (read_row read build) rows).

Definition list_objects (filter : ObjectFilter) : Sql (list StoredEncryptedObject) :=
  _ ← prepare "prepare list_objects failed";
  rows ← backend "list_objects query failed" (query (fun t =>
    Ok (merge_sort key_le (List.filter (object_selected filter) (map_to_list (t_objects t))))));
  read_rows (fun kv => object_row kv.1 kv.2) build_object rows.

Definition mark_deleted (object_id : string) (revision : N) (envelope : EncryptedEnvelope)
    (updated_at : string) : Sql unit :=
  envelope_json ← lift_result (serialize "serialize envelope" envelope);
  _ ← prepare "prepare mark_deleted failed";
  rows_affected ← backend "mark_deleted execute failed" (execute (to_sql_u64 revision) (fun revision t =>
    match t_objects t !! object_id with
    | Some r => (1, set_objects <[object_id := mkObjectCols (oc_object_kind r) revision (oc_server_seq r) 1
                       envelope_json updated_at]> t)
    | None => (0, t)
    end));
  if bool_decide (rows_affected = 0) then throw (SE_NotFound "object" object_id) else mret tt.

Definition purge_object (object_id : string) : Sql bool :=
  _ ← prepare "prepare purge_object failed";
  rows ← backend "purge_object execute failed" (execute (Ok tt) (fun _ t =>
    (if t_objects t !! object_id then 1 else 0, set_objects (delete object_id) t)));
  mret (bool_decide (0 < rows)).

(** ** Mutations *)

Definition RawMutationRow : Type :=
  string * string * N * N * string * string * string * N * string.

Definition parse_mutation_row (r : MutationCols) : Result RawMutationRow string :=
  expected_revision ← get_u64 2 (mc_expected_revision r);
  object_kind ← get_u16 3 (mc_object_kind r);
  retry_count ← get_u32 7 (mc_retry_count r);
  Ok (mc_mutation_id r, mc_object_id r, expected_revision, object_kind, mc_mutation_type r, mc_envelope r,
      mc_created_at r, retry_count, mc_status r).

Definition build_mutation (raw : RawMutationRow) : Result PendingMutation StorageError :=
  let '(mutation_id, object_id, expected_revision, object_kind, mutation_type, envelope_json, created_at,
        retry_count, status) := raw in
  mutation_type ← parse_mutation_type mutation_type;
  status ← parse_status status;
  envelope ← deserialize "deserialize envelope" envelope_json;
  Ok (mkPendingMutation mutation_id object_id expected_revision object_kind mutation_type envelope created_at
        retry_count status).

Definition by_id (mutation_id : string) : MutationCols -> bool := has_key mc_mutation_id mutation_id.

Definition mutation_params (m : PendingMutation) (envelope_json : string) : Result MutationCols string :=
  expected_revision ← to_sql_u64 (mut_expected_revision m);
  kind ← to_sql_u16 (mut_object_kind m);
  retry_count ← to_sql_u32 (mut_retry_count m);
  Ok (mkMutationCols (mut_mutation_id m) (mut_object_id m) expected_revision kind
        (mutation_type_str (mut_mutation_type m)) envelope_json (mut_created_at m) retry_count
        (status_str (mut_status m))).

(** The [INSERT] fails with a constraint violation when the identifier is
    taken, and otherwise appends a row. *)
Definition enqueue_mutation (mutation : PendingMutation) : Sql unit :=
  envelope_json ← lift_result (serialize "serialize envelope" (mut_envelope mutation));
  _ ← prepare "prepare enqueue_mutation failed";
  inserted ← backend "enqueue_mutation failed" (execute (mutation_params mutation envelope_json) (fun row t =>
    if existsb (by_id (mut_mutation_id mutation)) (t_mutations t) then (false, t)
    else (true, set_mutations (fun l => l ++ [row]) t)));
  if inserted : bool then mret tt else throw (SE_AlreadyExists "pending_mutation" (mut_mutation_id mutation)).

Definition get_mutation (mutation_id : string) : Sql (option PendingMutation) :=
  _ ← prepare "prepare get_mutation failed";
  row ← backend "get_mutation query failed" (query (fun t =>
    match find_first (by_id mutation_id) (t_mutations t) with
    | Some r => raw ← parse_mutation_row r; Ok (Some raw)
    | None => Ok None
    end));
  match row with
  | Some raw => m ← lift_result (build_mutation raw); mret (Some m)
  | None => mret None
  end.

(** [ORDER BY created_at ASC] *)
Definition created_cmp : MutationCols -> MutationCols -> comparison := compare_by mc_created_at.

Definition list_pending_mutations : Sql (list PendingMutation) :=
  _ ← prepare "prepare list_pending_mutations failed";
  rows ← backend "list_pending_mutations query failed" (query (fun t =>
    Ok (sort_by created_cmp (t_mutations t))));
  read_rows parse_mutation_row build_mutation rows.

Definition list_mutations_for_object (object_id : string) : Sql (list PendingMutation) :=
  _ ← prepare "prepare list_mutations_for_object failed";
  rows ← backend "list_mutations_for_object query failed" (query (fun t =>
    Ok (sort_by created_cmp (List.filter (has_key mc_object_id object_id) (t_mutations t)))));
  read_rows parse_mutation_row build_mutation rows.

Definition remove_mutation (mutation_id : string) : Sql bool :=
  _ ← prepare "prepare remove_mutation failed";
  rows ← backend "remove_mutation execute failed" (execute (Ok tt) (fun _ t =>
    (length (List.filter (by_id mutation_id) (t_mutations t)),
     set_mutations (List.filter (fun r => negb (by_id mutation_id r))) t)));
  mret (bool_decide (0 < rows)).

Definition set_row_status (status : string) (retry_count : Z) (r : MutationCols) : MutationCols :=
  mkMutationCols (mc_mutation_id r) (mc_object_id r) (mc_expected_revision r) (mc_object_kind r)
    (mc_mutation_type r) (mc_envelope r) (mc_created_at r) retry_count status.

Definition update_mutation_status (mutation_id : string) (status : MutationStatus) (retry_count : N) : Sql unit :=
  _ ← prepare "prepare update_mutation_status failed";
  rows ← backend "update_mutation_status execute failed" (execute (to_sql_u32 retry_count) (fun retry_count t =>
    (length (List.filter (by_id mutation_id) (t_mutations t)),
     set_mutations (fmap (fun r => if by_id mutation_id r then set_row_status (status_str status) retry_count r
                                   else r)) t)));
  if bool_decide (rows = 0) then throw (SE_NotFound "pending_mutation" mutation_id) else mret tt.

Definition pending_mutation_count : Sql nat :=
  backend "pending_mutation_count query failed" (query (fun t => Ok (length (t_mutations t)))).

(** ** Base versions *)

Definition get_base_version (object_id : string) (revision : N) : Sql (option EncryptedEnvelope) :=
  _ ← prepare "prepare get_base_version failed";
  envelope_json ← backend "get_base_version query failed"
    (_ ← lift_result (to_sql_u64 revision); query (fun t => Ok (t_bases t !! (object_id, revision))));
  match envelope_json with
  | Some json => e ← lift_result (deserialize "deserialize base envelope" json); mret (Some e)
  | None => mret None
  end.

Definition put_base_version (object_id : string) (revision : N) (envelope : EncryptedEnvelope) : Sql unit :=
  envelope_json ← lift_result (serialize "serialize base envelope" envelope);
  _ ← prepare "prepare put_base_version failed";
  backend "put_base_version execute failed" (execute (to_sql_u64 revision) (fun _ t =>
    (tt, set_bases <[(object_id, revision) := envelope_json]> t))).

(** [DELETE .. WHERE p]: the rows that go, and the number of them. *)
Definition delete_bases (p : string * N -> bool) (t : Tables) : nat * Tables :=
  let kept := base.filter (fun kv => p kv.1 = false) (t_bases t) in
  (length (List.filter (fun kv => p kv.1) (map_to_list (t_bases t))), set_bases (fun _ => kept) t).

Definition prune_base_versions (object_id : string) (older_than_revision : N) : Sql nat :=
  _ ← prepare "prepare prune_base_versions failed";
  backend "prune_base_versions execute failed" (execute (to_sql_u64 older_than_revision) (fun _ =>
    delete_bases (fun k => bool_decide (k.1 = object_id) && (k.2 <? older_than_revision)%N))).

Definition clear_base_versions (object_id : string) : Sql nat :=
  _ ← prepare "prepare clear_base_versions failed";
  backend "clear_base_versions execute failed" (execute (Ok tt) (fun _ =>
    delete_bases (fun k => bool_decide (k.1 = object_id)))).

Definition base_le (a b : N * string) : Prop := (a.1 <= b.1)%N.
#[global] Instance base_le_dec : RelDecision base_le.
Proof. intros a b. unfold base_le. apply _. Defined.

Definition list_base_versions (object_id : string) : Sql (list (N * EncryptedEnvelope)) :=
  _ ← prepare "prepare list_base_versions failed";
  rows ← backend "list_base_versions query failed" (query (fun t =>
    let l := base.filter (fun kv : string * N * string => kv.1.1 = object_id) (map_to_list (t_bases t)) in
    Ok (merge_sort base_le ((fun kv => (kv.1.2, kv.2)) <$> l))));
  read_rows Ok (fun kv => e ← deserialize "deserialize base envelope" kv.2; Ok (kv.1, e)) rows.

(** ** Sync state *)

Definition get_sync_state : Sql SyncState :=
  _ ← prepare "prepare get_sync_state failed";
  backend "get_sync_state query failed" (query (fun t =>
    match t_sync t with
    | Some r => cursor ← get_u64 0 (yc_sync_cursor r); Ok (mkSyncState cursor (yc_last_sync_at r) (yc_device_id r))
    | None => Err "Query returned no rows"
    end)).

Definition set_sync_cursor (cursor : N) : Sql unit :=
  _ ← prepare "prepare set_sync_cursor failed";
  backend "set_sync_cursor execute failed" (execute (to_sql_u64 cursor) (fun cursor t =>
    (tt, set_sync (fmap (fun r => mkSyncCols cursor (yc_last_sync_at r) (yc_device_id r))) t))).

Definition set_sync_state (state : SyncState) : Sql unit :=
  _ ← prepare "prepare set_sync_state failed";
  backend "set_sync_state execute failed" (execute (to_sql_u64 (sync_cursor state)) (fun cursor t =>
    (tt, set_sync (fmap (fun _ => mkSyncCols cursor (last_sync_at state) (device_id state))) t))).

(** ** Conflicts *)

(** [.as_ref().map(serde_json::to_string).transpose()] *)
Definition serialize_opt (what : string) (e : option EncryptedEnvelope) : Result (option string) StorageError :=
  match e with
  | Some e => j ← serialize what e; Ok (Some j)
  | None => Ok None
  end.

Definition conflict_params (c : ConflictRecord) (base : option string) (local remote : string)
    (candidate : option string) : Result ConflictCols string :=
  kind ← to_sql_u16 (cr_object_kind c);
  base_revision ← to_sql_u64 (cr_base_revision c);
  remote_revision ← to_sql_u64 (cr_remote_revision c);
  Ok (mkConflictCols (cr_object_id c) kind base_revision remote_revision base local remote candidate
        (bool_col (cr_resolved c)) (bool_col (cr_remote_is_deleted c)) (bool_col (cr_local_is_deleted c))
        (cr_created_at c) (cr_resolved_at c)).

Definition put_conflict (conflict : ConflictRecord) : Sql unit :=
  base ← lift_result (serialize_opt "failed to serialize base envelope" (cr_base_envelope conflict));
  local ← lift_result (serialize "failed to serialize local envelope" (cr_local_envelope conflict));
  remote ← lift_result (serialize "failed to serialize remote envelope" (cr_remote_envelope conflict));
  candidate ← lift_result (serialize_opt "failed to serialize candidate envelope" (cr_candidate_envelope conflict));
  _ ← prepare "prepare put_conflict failed";
  backend "execute put_conflict failed" (execute (conflict_params conflict base local remote candidate)
    (fun row t => (tt, set_conflict_rows <[cr_conflict_id conflict := row]> t))).

Definition conflict_envelope (col : nat) (j : string) : Result EncryptedEnvelope string :=
  result_map_err (fun e => "Conversion error from type Text at index: " +:+ pretty col +:+ ", " +:+ e)
    (env_from_str j).
Definition conflict_envelope_opt (col : nat) (j : option string) : Result (option EncryptedEnvelope) string :=
  match j with
  | Some j => e ← conflict_envelope col j; Ok (Some e)
  | None => Ok None
  end.

Definition row_to_conflict_record (kv : string * ConflictCols) : Result ConflictRecord string :=
  let '(conflict_id, r) := kv in
  object_kind ← get_u16 2 (cc_object_kind r);
  base_revision ← get_u64 3 (cc_base_revision r);
  remote_revision ← get_u64 4 (cc_remote_revision r);
  base_envelope ← conflict_envelope_opt 5 (cc_base_envelope r);
  local_envelope ← conflict_envelope 6 (cc_local_envelope r);
  remote_envelope ← conflict_envelope 7 (cc_remote_envelope r);
  candidate_envelope ← conflict_envelope_opt 8 (cc_candidate_envelope r);
  Ok (mkConflictRecord conflict_id (cc_object_id r) object_kind base_revision remote_revision base_envelope
        local_envelope remote_envelope candidate_envelope (col_bool (cc_resolved r))
        (col_bool (cc_remote_is_deleted r)) (col_bool (cc_local_is_deleted r)) (cc_created_at r)
        (cc_resolved_at r)).

(** [query_row(..).optional()] on the first row of a result. *)
Definition first_conflict (rows : list (string * ConflictCols)) : Result (option ConflictRecord) string :=
  match rows with
  | kv :: _ => c ← row_to_conflict_record kv; Ok (Some c)
  | [] => Ok None
  end.

Definition get_conflict (conflict_id : string) : Sql (option ConflictRecord) :=
  _ ← prepare "prepare get_conflict failed";
  backend "execute get_conflict failed" (query (fun t =>
    first_conflict (match t_conflicts t !! conflict_id with Some r => [(conflict_id, r)] | None => [] end))).

Definition older : string * ConflictCols -> string * ConflictCols -> comparison :=
  compare_by (fun kv => cc_created_at kv.2).
Definition newer (a b : string * ConflictCols) : comparison := older b a.

Definition active_row (object_id : string) (kv : string * ConflictCols) : bool :=
  bool_decide (cc_object_id kv.2 = object_id) && (cc_resolved kv.2 =? 0)%Z.

(** [ORDER BY created_at DESC LIMIT 1] *)
Definition get_active_conflict_for_object (object_id : string) : Sql (option ConflictRecord) :=
  _ ← prepare "prepare get_active_conflict_for_object failed";
  backend "execute get_active_conflict_for_object failed" (query (fun t =>
    first_conflict (sort_by newer (List.filter (active_row object_id) (map_to_list (t_conflicts t)))))).

Definition conflict_selected (resolved : option bool) (kv : string * ConflictCols) : bool :=
  match resolved with
  | None => true
  | Some true => (cc_resolved kv.2 =? 1)%Z
  | Some false => (cc_resolved kv.2 =? 0)%Z
  end.

Definition list_conflicts (resolved : option bool) : Sql (list ConflictRecord) :=
  _ ← prepare "prepare list_conflicts failed";
  rows ← backend "query list_conflicts failed" (query (fun t =>
    Ok (sort_by older (List.filter (conflict_selected resolved) (map_to_list (t_conflicts t))))));
  backend "row mapping failed" (query (fun _ => mapM row_to_conflict_record rows)).

Definition resolved_row (resolved_at : string) (candidate : option string) (r : ConflictCols) : ConflictCols :=
  mkConflictCols (cc_object_id r) (cc_object_kind r) (cc_base_revision r) (cc_remote_revision r)
    (cc_base_envelope r) (cc_local_envelope r) (cc_remote_envelope r)
    (match candidate with Some _ => candidate | None => cc_candidate_envelope r end)
    1 (cc_remote_is_deleted r) (cc_local_is_deleted r) (cc_created_at r) (Some resolved_at).

(** The two statements differ in whether they set the candidate. *)
Definition resolve_conflict (conflict_id : string) (resolved_envelope : option EncryptedEnvelope)
    (resolved_at : string) : Sql bool :=
  candidate_json ← lift_result (serialize_opt "failed to serialize resolved envelope" resolved_envelope);
  _ ← prepare "prepare resolve_conflict failed";
  updated ← backend "execute resolve_conflict failed" (execute (Ok tt) (fun _ t =>
    (if t_conflicts t !! conflict_id then 1 else 0,
     set_conflict_rows (alter (resolved_row resolved_at candidate_json) conflict_id) t)));
  mret (bool_decide (0 < updated)).

Definition delete_conflict (conflict_id : string) : Sql bool :=
  _ ← prepare "prepare delete_conflict failed";
  count ← backend "execute delete_conflict failed" (execute (Ok tt) (fun _ t =>
    (if t_conflicts t !! conflict_id then 1 else 0, set_conflict_rows (delete conflict_id) t)));
  mret (bool_decide (0 < count)).
End ops.
End Sqlite.
