(* ===== verification/SqliteFacts.v ===== *)
(** * The SQLite backend implements the storage contract

    What a database of the client holds, abstracted to the maps of
    [MemoryStorage], and that every operation of [Sqlite] does on it what the
    contract [StorageSpec] asks.  The rows the operations write are readable
    ([wf]); a database in that state, with its proof, is the backend
    [SqliteStorage] that the clients run on. *)

From stdpp Require Import options.
From S2P Require Import Prelude Sorting Protocol StorageModels Storage Sqlite.

(** ** Lists *)

Lemma mapM_ok {A B E} (f : A -> Result B E) (g : A -> B) l :
  Forall (fun x => f x = Ok (g x)) l -> mapM f l = Ok (g <$> l).
Proof. induction 1 as [|x l Hx _ IH]; cbn; [done|]. rewrite Hx. cbn. by rewrite IH. Qed.

Lemma map_to_list_imap {A B} (g : string -> A -> B) (m : gmap string A) :
  map_to_list (map_imap (fun k x => Some (g k x)) m) ≡ₚ (fun kv => (kv.1, g kv.1 kv.2)) <$> map_to_list m.
Proof.
  induction m as [|k x m Hk IH] using map_ind; [by rewrite map_imap_empty, !map_to_list_empty|].
  rewrite (map_imap_insert_Some _ _ _ _ (g k x)) by done.
  rewrite !map_to_list_insert; [|done|by rewrite map_lookup_imap, Hk]. cbn. by rewrite IH.
Qed.

Lemma filter_fmap {A B} (f : A -> B) (p : B -> bool) l :
  List.filter p (f <$> l) = f <$> List.filter (fun x => p (f x)) l.
Proof. induction l as [|x l IH]; cbn; [done|]. rewrite IH. by destruct (p (f x)). Qed.

Lemma filter_ext_In {A} (p q : A -> bool) l :
  Forall (fun x => p x = q x) l -> List.filter p l = List.filter q l.
Proof. induction 1 as [|x l Hx _ IH]; cbn; [done|]. by rewrite Hx, IH. Qed.

Lemma Permutation_filter_bool {A} (p : A -> bool) l l' : l ≡ₚ l' -> List.filter p l ≡ₚ List.filter p l'.
Proof.
  induction 1 as [|x l l' _ IH|x y l|l l' l'' _ IH1 _ IH2]; cbn.
  - done.
  - destruct (p x); by rewrite IH.
  - destruct (p x), (p y); try done. constructor.
  - by rewrite IH1.
Qed.

Lemma StronglySorted_fmap {A B} (f : A -> B) (R : relation A) (R' : relation B) l :
  (forall x y, R x y -> R' (f x) (f y)) -> StronglySorted R l -> StronglySorted R' (f <$> l).
Proof.
  intros Hf. induction 1 as [|x l Hl IH Hx]; cbn; constructor; [done|].
  apply Forall_fmap. eapply Forall_impl; [exact Hx|]. cbn. auto.
Qed.

(** An entry with a given key is the only one. *)
Lemma other_keys {A} (key : A -> string) k x l :
  NoDup (key <$> x :: l) -> has_key key k x = true -> Forall (fun y => has_key key k y = false) l.
Proof.
  cbn. intros [Hnin _]%NoDup_cons Hx. apply (has_key_true key) in Hx. apply Forall_forall. intros y Hy.
  apply has_key_false. intros Heq. apply Hnin. rewrite Hx, <- Heq. by apply list_elem_of_fmap_2.
Qed.

(** Removing the one entry of a key is removing the first. *)
Lemma filter_remove_first {A} (key : A -> string) k l :
  NoDup (key <$> l) -> List.filter (fun x => negb (has_key key k x)) l = remove_first (has_key key k) l.
Proof.
  induction l as [|x l IH]; cbn; [done|]. intros Hnd. destruct (has_key key k x) eqn:Hx; cbn.
  - pose proof (other_keys _ _ _ _ Hnd Hx) as Hl. clear IH Hnd.
    induction Hl as [|y l Hy _ IH]; cbn; [done|]. rewrite Hy. cbn. by f_equal.
  - rewrite IH; [done|]. by apply NoDup_cons in Hnd as [_ ?].
Qed.

Lemma fmap_update_key {A} (key : A -> string) (f : A -> A) k l :
  NoDup (key <$> l) -> (fun x => if has_key key k x then f x else x) <$> l = update_first (has_key key k) f l.
Proof.
  induction l as [|x l IH]; cbn; [done|]. intros Hnd. destruct (has_key key k x) eqn:Hx; cbn.
  - pose proof (other_keys _ _ _ _ Hnd Hx) as Hl. clear IH Hnd. f_equal.
    induction Hl as [|y l Hy _ IH]; cbn; [done|]. rewrite Hy. by f_equal.
  - by rewrite IH by (by apply NoDup_cons in Hnd as [_ ?]).
Qed.

Lemma filter_key_length {A} (key : A -> string) k l :
  length (List.filter (has_key key k) l) = 0 <-> find_first (has_key key k) l = None.
Proof.
  induction l as [|x l IH]; cbn; [done|]. destruct (has_key key k x); cbn; [done|exact IH].
Qed.

(** ** What a database holds *)

Section facts.
Context `{EnvelopeJson}.

Definition no_envelope : EncryptedEnvelope := mkEnvelope 0 "" 0 (mkKeyContainer "" "") (mkPayloadContainer "" "").
Definition env_of (j : string) : EncryptedEnvelope := default no_envelope (ok (env_from_str j)).
Definition readable (j : string) : Prop := is_Some (ok (env_from_str j)).
Definition readable_opt (j : option string) : Prop := from_option readable True j.

Definition object_of (id : string) (r : ObjectCols) : StoredEncryptedObject :=
  mkStoredObject id (Z.to_N (oc_object_kind r)) (Z.to_N (oc_revision r)) (Z.to_N (oc_server_seq r))
    (col_bool (oc_is_deleted r)) (env_of (oc_envelope r)) (oc_updated_at r).
Definition mutation_of (r : MutationCols) : PendingMutation :=
  mkPendingMutation (mc_mutation_id r) (mc_object_id r) (Z.to_N (mc_expected_revision r))
    (Z.to_N (mc_object_kind r)) (default Upsert (ok (parse_mutation_type (mc_mutation_type r))))
    (env_of (mc_envelope r)) (mc_created_at r) (Z.to_N (mc_retry_count r))
    (default Pending (ok (parse_status (mc_status r)))).
Definition sync_of (r : option SyncCols) : SyncState :=
  match r with
  | Some r => mkSyncState (Z.to_N (yc_sync_cursor r)) (yc_last_sync_at r) (yc_device_id r)
  | None => SyncState_default
  end.
Definition conflict_of_row (id : string) (r : ConflictCols) : ConflictRecord :=
  mkConflictRecord id (cc_object_id r) (Z.to_N (cc_object_kind r)) (Z.to_N (cc_base_revision r))
    (Z.to_N (cc_remote_revision r)) (env_of <$> cc_base_envelope r) (env_of (cc_local_envelope r))
    (env_of (cc_remote_envelope r)) (env_of <$> cc_candidate_envelope r) (col_bool (cc_resolved r))
    (col_bool (cc_remote_is_deleted r)) (col_bool (cc_local_is_deleted r)) (cc_created_at r) (cc_resolved_at r).

(** The queue is read by creation time. *)
Definition mutation_cmp : PendingMutation -> PendingMutation -> comparison := compare_by mut_created_at.

Definition contents (t : Tables) : MemoryStorage :=
  mkMemoryStorage (map_imap (fun id r => Some (object_of id r)) (t_objects t))
    (mutation_of <$> sort_by Sqlite.created_cmp (t_mutations t))
    (env_of <$> t_bases t) (sync_of (t_sync t))
    (map_imap (fun id r => Some (conflict_of_row id r)) (t_conflicts t)).

(** *** Readable rows *)

Definition in_range (max z : Z) : Prop := (0 <= z <= max)%Z.

Record object_ok (r : ObjectCols) : Prop := {
  ok_kind : in_range 65535 (oc_object_kind r);
  ok_revision : in_range i64_max (oc_revision r);
  ok_seq : in_range i64_max (oc_server_seq r);
  ok_envelope : readable (oc_envelope r)
}.
Record mutation_ok (r : MutationCols) : Prop := {
  mo_revision : in_range i64_max (mc_expected_revision r);
  mo_kind : in_range 65535 (mc_object_kind r);
  mo_retry : in_range 4294967295 (mc_retry_count r);
  mo_type : is_Some (ok (parse_mutation_type (mc_mutation_type r)));
  mo_status : is_Some (ok (parse_status (mc_status r)));
  mo_envelope : readable (mc_envelope r)
}.
Record conflict_ok (r : ConflictCols) : Prop := {
  co_kind : in_range 65535 (cc_object_kind r);
  co_base : in_range i64_max (cc_base_revision r);
  co_remote : in_range i64_max (cc_remote_revision r);
  co_base_env : readable_opt (cc_base_envelope r);
  co_local_env : readable (cc_local_envelope r);
  co_remote_env : readable (cc_remote_envelope r);
  co_candidate_env : readable_opt (cc_candidate_envelope r);
  co_resolved : cc_resolved r = 0%Z \/ cc_resolved r = 1%Z
}.

Record wf (t : Tables) : Prop := {
  wf_objects : map_Forall (fun _ => object_ok) (t_objects t);
  wf_mutations : Forall mutation_ok (t_mutations t);
  wf_unique : NoDup (mc_mutation_id <$> t_mutations t);
  wf_bases : map_Forall (fun _ => readable) (t_bases t);
  wf_sync : exists r, t_sync t = Some r /\ in_range i64_max (yc_sync_cursor r);
  wf_conflicts : map_Forall (fun _ => conflict_ok) (t_conflicts t)
}.

Lemma wf_new : wf Tables_new.
Proof. split; cbn; try apply map_Forall_empty; try constructor. eexists. split; [done|]. cbn. unfold in_range, i64_max. lia. Qed.

Lemma wf_set_faults l t : wf t -> wf (set_faults l t).
Proof. intros []. by split. Qed.

(** *** Reading and writing columns *)

Lemma from_sql_ok max col z : in_range max z -> from_sql max col z = Ok (Z.to_N z).
Proof. intros [? ?]. unfold from_sql. by rewrite (proj2 (Z.leb_le 0 z)), (proj2 (Z.leb_le z max)). Qed.

Lemma to_sql_inv max n z : to_sql max n = Ok z -> z = Z.of_N n /\ in_range max z.
Proof.
  unfold to_sql. destruct (Z.leb_spec (Z.of_N n) max); [|done]. intros [= <-]. unfold in_range. lia.
Qed.

Definition fits (max : Z) (n : N) : Prop := (Z.of_N n <= max)%Z.
Definition fits_u64 : N -> Prop := fits i64_max.

Lemma to_sql_ok max n : fits max n -> to_sql max n = Ok (Z.of_N n).
Proof. unfold fits, to_sql. intros Hn. by rewrite (proj2 (Z.leb_le _ _)). Qed.

(** The values that the columns hold. *)
Definition object_fits (o : StoredEncryptedObject) : Prop :=
  fits 65535 (obj_object_kind o) /\ fits_u64 (obj_revision o) /\ fits_u64 (obj_server_seq o).
Definition mutation_fits (m : PendingMutation) : Prop :=
  fits_u64 (mut_expected_revision m) /\ fits 65535 (mut_object_kind m) /\ fits 4294967295 (mut_retry_count m).
Definition conflict_fits (c : ConflictRecord) : Prop :=
  fits 65535 (cr_object_kind c) /\ fits_u64 (cr_base_revision c) /\ fits_u64 (cr_remote_revision c).

Lemma deserialize_ok what j : readable j -> Sqlite.deserialize what j = Ok (env_of j).
Proof. unfold readable, Sqlite.deserialize, env_of. destruct (env_from_str j); cbn; [done|by intros []]. Qed.

Lemma col_bool_col b : col_bool (bool_col b) = b.
Proof. by destruct b. Qed.

Definition object_raw (id : string) (r : ObjectCols) : string * N * N * N * bool * string * string :=
  (id, Z.to_N (oc_object_kind r), Z.to_N (oc_revision r), Z.to_N (oc_server_seq r), col_bool (oc_is_deleted r),
   oc_envelope r, oc_updated_at r).

Lemma object_row_ok id r : object_ok r -> Sqlite.object_row id r = Ok (object_raw id r).
Proof.
  intros []. unfold Sqlite.object_row, get_u16, get_u64. by rewrite !from_sql_ok.
Qed.

Lemma build_object_ok id r : object_ok r -> Sqlite.build_object (object_raw id r) = Ok (object_of id r).
Proof. intros []. unfold Sqlite.build_object, object_raw. by rewrite deserialize_ok. Qed.

Definition raw_of (r : MutationCols) : Sqlite.RawMutationRow :=
  (mc_mutation_id r, mc_object_id r, Z.to_N (mc_expected_revision r), Z.to_N (mc_object_kind r),
   mc_mutation_type r, mc_envelope r, mc_created_at r, Z.to_N (mc_retry_count r), mc_status r).

Lemma parse_mutation_row_ok r : mutation_ok r -> Sqlite.parse_mutation_row r = Ok (raw_of r).
Proof. intros []. unfold Sqlite.parse_mutation_row, get_u16, get_u32, get_u64. by rewrite !from_sql_ok. Qed.

Lemma build_mutation_ok r : mutation_ok r -> Sqlite.build_mutation (raw_of r) = Ok (mutation_of r).
Proof.
  intros [_ _ _ [ty Hty] [st Hst] Henv]. unfold Sqlite.build_mutation, raw_of, mutation_of.
  destruct (parse_mutation_type (mc_mutation_type r)) as [ty'|], (parse_status (mc_status r)) as [st'|]; try done.
  cbn. by rewrite deserialize_ok.
Qed.

Lemma conflict_envelope_ok col j : readable j -> Sqlite.conflict_envelope col j = Ok (env_of j).
Proof. unfold readable, Sqlite.conflict_envelope, env_of. destruct (env_from_str j); cbn; [done|by intros []]. Qed.

Lemma conflict_envelope_opt_ok col j :
  readable_opt j -> Sqlite.conflict_envelope_opt col j = Ok (env_of <$> j).
Proof. destruct j as [j|]; cbn; [|done]. intros Hj. by rewrite conflict_envelope_ok. Qed.

Lemma row_to_conflict_ok id r : conflict_ok r ->
  Sqlite.row_to_conflict_record (id, r) = Ok (conflict_of_row id r).
Proof.
  intros []. unfold Sqlite.row_to_conflict_record, get_u16, get_u64.
  rewrite !from_sql_ok by done. cbn. rewrite !conflict_envelope_opt_ok, !conflict_envelope_ok by done. done.
Qed.

Lemma parse_type_str ty : parse_mutation_type (mutation_type_str ty) = Ok ty.
Proof. by destruct ty. Qed.
Lemma parse_status_str st : parse_status (status_str st) = Ok st.
Proof. by destruct st. Qed.

(** Case analysis on the conversions of the parameters, of which none failed. *)
Ltac sql_params :=
  repeat match goal with
  | |- context [to_sql ?max ?n] =>
      let Hz := fresh "Hz" in
      destruct (to_sql max n) eqn:Hz; cbn; [apply to_sql_inv in Hz as [-> ?]|discriminate]
  end.

Section written.
Context `{!EnvelopeJsonLaws}.

Lemma written_env what e j : Sqlite.serialize what e = Ok j -> readable j /\ env_of j = e.
Proof using Type*.
  unfold Sqlite.serialize. destruct (env_to_string e) as [j'|] eqn:Hj; cbn; [|done]. intros [= <-].
  unfold readable, env_of. by rewrite (env_json_roundtrip _ _ Hj).
Qed.

Lemma written_env_opt what e j :
  Sqlite.serialize_opt what e = Ok j -> readable_opt j /\ env_of <$> j = e.
Proof using Type*.
  destruct e as [e|]; cbn; [|by intros [= <-]].
  destruct (Sqlite.serialize what e) as [j'|] eqn:Hj; cbn; [|done]. intros [= <-]. cbn.
  by destruct (written_env _ _ _ Hj) as [? ->].
Qed.

Lemma serialize_total what e : exists j, Sqlite.serialize what e = Ok j.
Proof using Type*. unfold Sqlite.serialize. destruct (env_json_total e) as [j ->]. by exists j. Qed.

Lemma serialize_opt_total what e : exists j, Sqlite.serialize_opt what e = Ok j.
Proof using Type*.
  destruct e as [e|]; [|by exists None]. cbn. destruct (serialize_total what e) as [j ->]. by exists (Some j).
Qed.

Lemma object_params_inv what o j row :
  Sqlite.serialize what (obj_envelope o) = Ok j -> Sqlite.object_params o j = Ok row ->
  object_ok row /\ object_of (obj_object_id o) row = o.
Proof using Type*.
  intros [Hr He]%written_env. unfold Sqlite.object_params, to_sql_u16, to_sql_u64.
  sql_params. intros [= <-]. split; [by split|].
  unfold object_of. cbn. rewrite !N2Z.id, col_bool_col, He. by destruct o.
Qed.

Lemma mutation_params_inv what m j row :
  Sqlite.serialize what (mut_envelope m) = Ok j -> Sqlite.mutation_params m j = Ok row ->
  mutation_ok row /\ mutation_of row = m.
Proof using Type*.
  intros [Hr He]%written_env. unfold Sqlite.mutation_params, to_sql_u16, to_sql_u32, to_sql_u64.
  sql_params. intros [= <-].
  split; [split; cbn; rewrite ?parse_type_str, ?parse_status_str; done|].
  unfold mutation_of. cbn. rewrite !N2Z.id, parse_type_str, parse_status_str, He. by destruct m.
Qed.

Lemma conflict_params_inv w1 w2 w3 w4 c jb jl jr jc row :
  Sqlite.serialize_opt w1 (cr_base_envelope c) = Ok jb -> Sqlite.serialize w2 (cr_local_envelope c) = Ok jl ->
  Sqlite.serialize w3 (cr_remote_envelope c) = Ok jr -> Sqlite.serialize_opt w4 (cr_candidate_envelope c) = Ok jc ->
  Sqlite.conflict_params c jb jl jr jc = Ok row ->
  conflict_ok row /\ conflict_of_row (cr_conflict_id c) row = c.
Proof using Type*.
  intros [? Eb]%written_env_opt [? El]%written_env [? Er]%written_env [? Ec]%written_env_opt.
  unfold Sqlite.conflict_params, to_sql_u16, to_sql_u64.
  sql_params. intros [= <-].
  split; [split; cbn; try done; destruct (cr_resolved c); auto|].
  unfold conflict_of_row. cbn. rewrite !N2Z.id, !col_bool_col, Eb, El, Er, Ec. by destruct c.
Qed.
End written.
End facts.
