(* ===== verification/SqliteRefines.v ===== *)
(** * Every SQLite operation refines the contract

    One simulation lemma per operation of [Sqlite], and the backend
    [SqliteStorage] with its [StorageSpec] instance. *)

From stdpp Require Import options.
From S2P Require Import Prelude Sorting Protocol StorageModels Storage Sqlite SqliteFacts.

(** ** Proof rules of the statements *)

Section rules.
Context `{EnvelopeJson}.

(** A call fails only if the next fault says so. *)
Lemma wp_sqlite Q t :
  (forall l, (t_faults t = [] -> l = []) -> Q (Ok tt) (set_faults l t)) ->
  (forall e l, t_faults t <> [] -> Q (Err e) (set_faults l t)) -> wp Sqlite.sqlite Q t.
Proof using Type.
  intros HQ HE. unfold wp, Sqlite.sqlite. destruct (t_faults t) as [|[e|] rest] eqn:Hf; cbn; [|by apply HE|by apply HQ].
  specialize (HQ [] (fun _ => eq_refl)). unfold set_faults in HQ. rewrite <- Hf in HQ. by destruct t.
Qed.

Lemma set_faults_id t : set_faults (t_faults t) t = t.
Proof using Type. by destruct t. Qed.

Lemma wp_prepare what Q t :
  (forall l, (t_faults t = [] -> l = []) -> Q (Ok tt) (set_faults l t)) ->
  (forall e l, t_faults t <> [] -> Q (Err e) (set_faults l t)) ->
  wp (Sqlite.prepare what) Q t.
Proof using Type. intros HQ HE. apply wp_map_err, wp_sqlite; cbn; auto. Qed.

Lemma wp_query {A} what (q : Tables -> Result A string) Q t :
  (forall l a, (t_faults t = [] -> l = []) -> q (set_faults l t) = Ok a -> Q (Ok a) (set_faults l t)) ->
  (forall e l, t_faults t <> [] -> Q (Err e) (set_faults l t)) ->
  (forall e l, q (set_faults l t) = Err e -> Q (Err (SE_Backend (what +:+ ": " +:+ e))) (set_faults l t)) ->
  wp (Sqlite.backend what (Sqlite.query q)) Q t.
Proof using Type.
  intros HQ HE HF. apply wp_map_err, wp_bind, wp_sqlite; [|intros; by apply HE].
  intros l Hl. unfold wp, Sqlite.rows_of. cbn.
  destruct (q (set_faults l t)) as [a|e] eqn:Hq; cbn; [by apply HQ|by apply HF].
Qed.

Lemma wp_execute {P A} what (params : Result P string) (run : P -> Tables -> A * Tables) Q t :
  (forall l p a t', (t_faults t = [] -> l = []) -> params = Ok p -> run p (set_faults l t) = (a, t') -> Q (Ok a) t') ->
  (forall e l, t_faults t <> [] -> Q (Err e) (set_faults l t)) ->
  (forall e, params = Err e -> Q (Err (SE_Backend (what +:+ ": " +:+ e))) (set_faults (t_faults t) t)) ->
  wp (Sqlite.backend what (Sqlite.execute params run)) Q t.
Proof using Type.
  intros HQ HE HF. apply wp_map_err, wp_bind, wp_lift. destruct params as [p|e]; cbn.
  2: { specialize (HF e eq_refl). by rewrite set_faults_id in HF. }
  apply wp_bind, wp_sqlite; [|intros; by apply HE]. intros l Hl. unfold wp, Sqlite.effect. cbn.
  destruct (run p (set_faults l t)) as [a t'] eqn:Hrun; cbn. by eapply HQ.
Qed.

(** A query with a parameter. *)
Lemma wp_query_params {P A} what (params : Result P string) (q : Tables -> Result A string) Q t :
  (forall l p a, (t_faults t = [] -> l = []) -> params = Ok p -> q (set_faults l t) = Ok a -> Q (Ok a) (set_faults l t)) ->
  (forall e l, t_faults t <> [] -> Q (Err e) (set_faults l t)) ->
  (forall e l, q (set_faults l t) = Err e -> Q (Err (SE_Backend (what +:+ ": " +:+ e))) (set_faults l t)) ->
  (forall e, params = Err e -> Q (Err (SE_Backend (what +:+ ": " +:+ e))) (set_faults (t_faults t) t)) ->
  wp (Sqlite.backend what (_ ← lift_result params; Sqlite.query q)) Q t.
Proof using Type.
  intros HQ HE HF HP. destruct params as [p|e].
  - apply (wp_query what q); [|done..]. intros l a Hl Hq. by eapply HQ.
  - specialize (HP e eq_refl). by rewrite set_faults_id in HP.
Qed.

Lemma wp_read_rows {R A B} (read : R -> Result A string) (build : A -> Result B StorageError) (rd : R -> A)
    (g : R -> B) rows Q t :
  Forall (fun x => read x = Ok (rd x) /\ build (rd x) = Ok (g x)) rows ->
  (forall l, Q (Ok (g <$> rows)) (set_faults l t)) ->
  (forall e l, t_faults t <> [] -> Q (Err e) (set_faults l t)) ->
  wp (Sqlite.read_rows read build rows) Q t.
Proof using Type.
  intros Hrows HQ HE. apply wp_bind, wp_map_err, wp_sqlite; cbn; [|auto]. intros l _. apply wp_lift.
  rewrite (mapM_ok _ g); [apply HQ|]. eapply Forall_impl; [exact Hrows|]. intros x [Hx Hb].
  unfold Sqlite.read_row. rewrite Hx. cbn. exact Hb.
Qed.
End rules.

(** What an operation may leave.  It fails for a reason: because the
    specification does, because SQLite did, or because a value does not fit its
    column ([F] says that they all do). *)
Definition sim_post `{EnvelopeJson} {A} (F : Prop) (spec : M MemoryStorage StorageError A) (t : Tables)
    (r : Result A StorageError) (t' : Tables) : Prop :=
  match r with
  | Ok a => spec (contents t) = (Ok a, contents t')
  | Err e => contents t' = contents t /\ (spec (contents t) = (Err e, contents t) \/ t_faults t <> [] \/ ~ F)
  end /\ wf t'.

Definition Sim `{EnvelopeJson} {A} (F : Prop) (op : M Tables StorageError A) (spec : M MemoryStorage StorageError A)
    : Prop :=
  forall t, wf t -> wp op (sim_post F spec t) t.

Lemma sim_post_err `{EnvelopeJson} {A} F (spec : M MemoryStorage StorageError A) t e l :
  wf t -> spec (contents t) = (Err e, contents t) \/ t_faults t <> [] \/ ~ F -> sim_post F spec t (Err e) (set_faults l t).
Proof. intros Hwf Hwhy. split; [done|by apply wf_set_faults]. Qed.

(** Run the statements of an operation; what fails is closed, what is left is
    the path on which every statement succeeded. *)
Ltac norm_faults :=
  repeat match goal with
  | |- context [set_faults ?a (set_faults ?b ?t)] => change (set_faults a (set_faults b t)) with (set_faults a t)
  end.
(** The reason is a fault, or a parameter that does not fit. *)
Ltac sim_fault :=
  right; left; let E := fresh in intros E;
  match goal with Hf : t_faults _ <> [] |- _ => apply Hf; cbn; auto 10 end.
Ltac sim_unfit :=
  right; right; let HF := fresh in intros HF; try unfold object_fits, mutation_fits, conflict_fits in HF;
  repeat match goal with HF : _ /\ _ |- _ => destruct HF end;
  match goal with
  | Hp : _ = Err _ |- _ =>
      unfold Sqlite.object_params, Sqlite.mutation_params, Sqlite.conflict_params, to_sql_u16, to_sql_u32,
        to_sql_u64 in Hp;
      repeat (rewrite to_sql_ok in Hp by assumption; cbn in Hp); discriminate Hp
  end.
Ltac sim_err := norm_faults; apply sim_post_err; [assumption|]; solve [sim_fault|sim_unfit|by left].
Ltac sim_total lem :=
  let j := fresh "j" in let Hser := fresh "Hser" in destruct lem as [j Hser]; rewrite Hser; apply wp_lift.
Ltac sim_step :=
  lazymatch goal with
  | |- wp (_ ≫= _) _ _ => apply wp_bind
  | |- wp (mret _) _ _ => apply wp_ret
  | |- wp (throw _) _ _ => apply wp_throw
  | |- wp (Sqlite.prepare _) _ _ => apply wp_prepare; [intros ? ?|intros ? ? ?; cbn beta iota; try sim_err]
  | |- wp (Sqlite.backend _ (Sqlite.query _)) _ _ =>
      let Hq := fresh "Hq" in
      apply wp_query; [intros ? ? ? Hq|intros ? ? ?; cbn beta iota; try sim_err|intros ? ? Hq; cbn beta iota; try discriminate Hq]
  | |- wp (Sqlite.backend _ (Sqlite.execute _ _)) _ _ =>
      let Hp := fresh "Hp" in let Hrun := fresh "Hrun" in
      apply wp_execute; [intros ? ? ? ? ? Hp Hrun; cbn in Hrun|intros ? ? ?; cbn beta iota; try sim_err
        |intros ? Hp; cbn beta iota; try discriminate Hp; try sim_err]
  | |- wp (if bool_decide _ then _ else _) _ _ => case_bool_decide; try lia
  | |- wp (if ?b then _ else _) _ _ => destruct b
  | |- wp (lift_result (Ok _)) _ _ => apply wp_lift
  | |- wp (lift_result (Sqlite.serialize ?w ?e)) _ _ => sim_total (serialize_total w e)
  | |- wp (lift_result (Sqlite.serialize_opt ?w ?e)) _ _ => sim_total (serialize_opt_total w e)
  end.
Ltac sim_steps := repeat (sim_step; cbn beta iota; norm_faults).
Ltac sim_start := intros t Hwf; pose proof Hwf as [Wo Wm Wu Wb Wy Wc].

Section sims.
Context `{EnvelopeJson} `{!EnvelopeJsonLaws}.

(** *** Objects *)

Lemma contents_object t id : mem_objects (contents t) !! id = object_of id <$> t_objects t !! id.
Proof using Type. cbn. rewrite map_lookup_imap. by destruct (t_objects t !! id). Qed.

Lemma sim_get_object id : Sim True (Sqlite.get_object id) (Memory.get_object id).
Proof using Type*.
  sim_start. unfold Sqlite.get_object. sim_steps; cbn in Hq.
  2: { destruct (t_objects t !! id) as [r|] eqn:Hr; [|done]. rewrite object_row_ok in Hq by (by eapply Wo). done. }
  assert (forall o t', contents t' = contents t -> wf t' -> o = object_of id <$> t_objects t !! id ->
    sim_post True (Memory.get_object id) t (Ok o) t') as Hpost.
  { intros o t' Hc Hw ->. split; [|done]. unfold Memory.get_object. by rewrite contents_object, Hc. }
  destruct (t_objects t !! id) as [r|] eqn:Hr; cbn in Hq; [|injection Hq as <-; sim_steps; apply Hpost; auto using wf_set_faults].
  pose proof (Wo _ _ Hr) as Hok. rewrite object_row_ok in Hq by done. injection Hq as <-.
  rewrite build_object_ok by done. sim_steps. apply Hpost; auto using wf_set_faults.
Qed.

Lemma sim_put_object o : Sim (object_fits o) (Sqlite.put_object o) (Memory.put_object o).
Proof using Type*.
  sim_start. unfold Sqlite.put_object. sim_steps. simplify_eq.
  destruct (object_params_inv _ _ _ _ Hser Hp) as [Hok Ho].
  split; [|split; cbn; try done; by apply map_Forall_insert_2].
  unfold Memory.put_object, with_objects, contents. cbn. by rewrite (map_imap_insert_Some _ _ _ _ o) by (by rewrite Ho).
Qed.

Lemma sim_mark_deleted id rev env at_ :
  Sim (fits_u64 rev) (Sqlite.mark_deleted id rev env at_) (Memory.mark_deleted id rev env at_).
Proof using Type*.
  sim_start. unfold Sqlite.mark_deleted. sim_steps.
  all: destruct (written_env _ _ _ Hser) as [Hread Henv].
  all: destruct (t_objects t !! id) as [r|] eqn:Hr; simplify_eq.
  1: { norm_faults. apply sim_post_err; [done|]. left. unfold Memory.mark_deleted. by rewrite contents_object, Hr. }
  destruct (Wo _ _ Hr) as [? ? ? ?]. apply to_sql_inv in Hp as [-> Hrange].
  split; [|split; cbn; try done; apply map_Forall_insert_2; [by split|done]].
  unfold Memory.mark_deleted. rewrite contents_object, Hr. cbn. unfold with_objects, contents. cbn.
  erewrite map_imap_insert_Some; [done|]. unfold object_of. cbn. by rewrite N2Z.id.
Qed.

Lemma sim_purge_object id : Sim True (Sqlite.purge_object id) (Memory.purge_object id).
Proof using Type*.
  sim_start. unfold Sqlite.purge_object. sim_steps. simplify_eq.
  split; [|split; cbn; try done; by apply map_Forall_delete].
  unfold Memory.purge_object. rewrite contents_object. unfold with_objects, contents. cbn. rewrite map_imap_delete.
  by destruct (t_objects t !! id).
Qed.

#[local] Instance object_id_le_trans : Transitive Memory.object_id_le.
Proof using Type. intros a b c. unfold Memory.object_id_le. apply transitivity. Qed.
#[local] Instance object_id_le_total : Total Memory.object_id_le.
Proof using Type. intros a b. unfold Memory.object_id_le. apply total, _. Qed.
#[local] Instance key_le_trans A : Transitive (@Sqlite.key_le A).
Proof using Type. intros a b c. unfold Sqlite.key_le. apply transitivity. Qed.
#[local] Instance key_le_total A : Total (@Sqlite.key_le A).
Proof using Type. intros a b. unfold Sqlite.key_le. apply total, _. Qed.

(** The selected rows are the objects that pass the filter. *)
Lemma object_selected_passes f kv :
  object_ok kv.2 -> Sqlite.object_selected f kv = Memory.passes_filter f (object_of kv.1 kv.2).
Proof using Type.
  intros [[? ?] _ _ _]. unfold Sqlite.object_selected, Memory.passes_filter, object_of, col_bool. cbn.
  destruct (filter_include_deleted f), (oc_is_deleted kv.2 =? 0)%Z; cbn; try done.
  all: destruct (filter_kind f) as [k|]; [|done].
  all: destruct (Z.eqb_spec (oc_object_kind kv.2) (Z.of_N k)), (N.eqb_spec (Z.to_N (oc_object_kind kv.2)) k); lia.
Qed.

Lemma listed_objects_perm f t : wf t ->
  (fun kv => object_of kv.1 kv.2) <$> List.filter (Sqlite.object_selected f) (map_to_list (t_objects t))
  ≡ₚ List.filter (Memory.passes_filter f) (map_to_list (mem_objects (contents t))).*2.
Proof using Type.
  intros Hwf. unfold contents. cbn [mem_objects]. rewrite (Permutation_filter_bool _ _ _ (fmap_Permutation snd _ _ (map_to_list_imap object_of (t_objects t)))).
  rewrite <- list_fmap_compose, filter_fmap. cbn. erewrite filter_ext_In; [done|].
  apply Forall_forall. intros kv Hkv. apply object_selected_passes. destruct kv as [k r].
  apply elem_of_map_to_list in Hkv. by eapply (wf_objects _ Hwf).
Qed.

Lemma listed_objects f t : wf t ->
  (fun kv => object_of kv.1 kv.2)
    <$> merge_sort Sqlite.key_le (List.filter (Sqlite.object_selected f) (map_to_list (t_objects t)))
  = merge_sort Memory.object_id_le
      (List.filter (Memory.passes_filter f) (map_to_list (mem_objects (contents t))).*2).
Proof using Type.
  intros Hwf. eapply (StronglySorted_unique_strong Memory.object_id_le).
  - intros o1 o2 Ho1 Ho2 H12 H21. assert (obj_object_id o1 = obj_object_id o2) as Heq by by apply (anti_symm String.le).
    assert (forall o, o ∈ List.filter (Memory.passes_filter f) (map_to_list (mem_objects (contents t))).*2 ->
      mem_objects (contents t) !! obj_object_id o = Some o) as Hkey.
    { intros o Ho%list_elem_of_In%filter_In%proj1. apply list_elem_of_In, elem_of_map_values in Ho as [k Hk].
      pose proof Hk as Hk'. rewrite contents_object in Hk'. destruct (t_objects t !! k); [|done]. cbn in Hk'.
      by injection Hk' as <-. }
    rewrite merge_sort_Permutation, listed_objects_perm in Ho1 by done. rewrite merge_sort_Permutation in Ho2.
    apply Hkey in Ho1, Ho2. rewrite Heq in Ho1. congruence.
  - eapply StronglySorted_fmap; [|apply StronglySorted_merge_sort; apply _]. by intros [? ?] [? ?] Hle.
  - apply StronglySorted_merge_sort; apply _.
  - rewrite !merge_sort_Permutation. by apply listed_objects_perm.
Qed.

Lemma sim_list_objects f : Sim True (Sqlite.list_objects f) (Memory.list_objects f).
Proof using Type*.
  sim_start. unfold Sqlite.list_objects. sim_steps. injection Hq as <-.
  apply (wp_read_rows _ _ (fun kv => object_raw kv.1 kv.2) (fun kv => object_of kv.1 kv.2));
    [|intros l2|intros; sim_err].
  - apply Forall_forall. intros [k r]. rewrite merge_sort_Permutation. intros Hin%list_elem_of_In%filter_In%proj1.
    apply list_elem_of_In, elem_of_map_to_list in Hin. pose proof (Wo _ _ Hin) as Hok.
    cbn [fst snd]. by rewrite object_row_ok, build_object_ok.
  - split; [|by apply wf_set_faults]. unfold Memory.list_objects. rewrite listed_objects by done. done.
Qed.

(** *** Mutations *)

Abbreviation queue t := (sort_by Sqlite.created_cmp (t_mutations t)).

Lemma queue_ok t : wf t -> Forall mutation_ok (queue t) /\ NoDup (mc_mutation_id <$> queue t).
Proof using Type. intros [_ Wm Wu _ _ _]. by rewrite sort_by_perm. Qed.

Lemma queue_rows (l : list MutationCols) t Q :
  Forall mutation_ok l ->
  (forall f, Q (Ok (mutation_of <$> l)) (set_faults f t)) ->
  (forall e f, t_faults t <> [] -> Q (Err e) (set_faults f t)) ->
  wp (Sqlite.read_rows Sqlite.parse_mutation_row Sqlite.build_mutation l) Q t.
Proof using Type.
  intros Hl. apply (wp_read_rows _ _ raw_of). eapply Forall_impl; [exact Hl|].
  intros r Hr. by rewrite parse_mutation_row_ok, build_mutation_ok.
Qed.

Lemma sim_list_pending_mutations : Sim True Sqlite.list_pending_mutations Memory.list_pending_mutations.
Proof using Type*.
  sim_start. unfold Sqlite.list_pending_mutations. sim_steps. injection Hq as <-.
  apply queue_rows; [by apply queue_ok| |intros; sim_err]. intros f. split; [done|by apply wf_set_faults].
Qed.

Lemma has_key_mutation (k : string) r : has_key mut_object_id k (mutation_of r) = has_key mc_object_id k r.
Proof using Type. done. Qed.

Lemma sim_list_mutations_for_object id :
  Sim True (Sqlite.list_mutations_for_object id) (Memory.list_mutations_for_object id).
Proof using Type*.
  sim_start. unfold Sqlite.list_mutations_for_object. sim_steps. injection Hq as <-. cbn.
  rewrite <- filter_sort_by by (apply _ || apply compare_by_total).
  apply queue_rows; [|intros f|intros; sim_err].
  - apply Forall_forall. intros r Hr%list_elem_of_In%filter_In%proj1. apply list_elem_of_In in Hr.
    destruct (queue_ok t Hwf) as [Hok _]. rewrite Forall_forall in Hok. by apply Hok.
  - split; [|by apply wf_set_faults]. unfold Memory.list_mutations_for_object. cbn. by rewrite filter_fmap.
Qed.

Lemma find_first_perm {A} (key : A -> string) k (l l' : list A) :
  NoDup (key <$> l) -> l ≡ₚ l' -> find_first (has_key key k) l = find_first (has_key key k) l'.
Proof using Type.
  intros Hnd Hp. assert (NoDup (key <$> l')) as Hnd' by by rewrite <- Hp.
  destruct (find_first (has_key key k) l) as [x|] eqn:Hf.
  - apply find_first_key in Hf as [Hin <-]. symmetry. apply find_first_key_unique; [done|]. by rewrite <- Hp.
  - symmetry. rewrite find_first_None in Hf |- *. by rewrite <- Hp.
Qed.

Section mapped.
Context {A B : Type} (f : A -> B) (p : A -> bool) (q : B -> bool) (Hpq : forall x, q (f x) = p x).

Lemma find_first_fmap l : find_first q (f <$> l) = f <$> find_first p l.
Proof using Hpq. induction l as [|x l IH]; cbn; [done|]. rewrite Hpq. by destruct (p x). Qed.
Lemma remove_first_fmap l : remove_first q (f <$> l) = f <$> remove_first p l.
Proof using Hpq. induction l as [|x l IH]; cbn; [done|]. rewrite Hpq, IH. by destruct (p x). Qed.
Lemma update_first_fmap (g : A -> A) (h : B -> B) l :
  (forall x, h (f x) = f (g x)) -> update_first q h (f <$> l) = f <$> update_first p g l.
Proof using Hpq. intros Hgh. induction l as [|x l IH]; cbn; [done|]. rewrite Hpq, IH. destruct (p x); cbn; by rewrite ?Hgh. Qed.
Lemma existsb_fmap l : existsb q (f <$> l) = existsb p l.
Proof using Hpq. induction l as [|x l IH]; cbn; [done|]. by rewrite Hpq, IH. Qed.
End mapped.

Lemma contents_mutation t id : wf t ->
  find_first (Memory.by_mutation_id id) (mem_mutations (contents t))
  = mutation_of <$> find_first (Sqlite.by_id id) (t_mutations t).
Proof using Type.
  intros Hwf. cbn. rewrite (find_first_fmap _ (Sqlite.by_id id)) by done. f_equal.
  apply find_first_perm; [by apply queue_ok|apply sort_by_perm].
Qed.

Lemma sim_get_mutation id : Sim True (Sqlite.get_mutation id) (Memory.get_mutation id).
Proof using Type*.
  sim_start. unfold Sqlite.get_mutation.
  assert (forall r, find_first (Sqlite.by_id id) (t_mutations t) = Some r -> mutation_ok r) as Hrow.
  { intros r [Hin _]%find_first_Some. rewrite Forall_forall in Wm. by apply Wm. }
  sim_steps; cbn in Hq.
  2: { destruct (find_first _ _) as [r|] eqn:Hr; [|done]. rewrite parse_mutation_row_ok in Hq by auto. done. }
  assert (forall o t', contents t' = contents t -> wf t' -> o = mutation_of <$> find_first (Sqlite.by_id id) (t_mutations t) ->
    sim_post True (Memory.get_mutation id) t (Ok o) t') as Hpost.
  { intros o t' Hc Hw ->. split; [|done]. unfold Memory.get_mutation. by rewrite contents_mutation, Hc. }
  destruct (find_first _ _) as [r|] eqn:Hr; cbn in Hq;
    [|injection Hq as <-; sim_steps; apply Hpost; auto using wf_set_faults].
  rewrite parse_mutation_row_ok in Hq by auto. injection Hq as <-.
  rewrite build_mutation_ok by auto. sim_steps. apply Hpost; auto using wf_set_faults.
Qed.

Lemma append_position_fmap m row s :
  mutation_of row = m ->
  append_position Sqlite.created_cmp row s = append_position mutation_cmp m (mutation_of <$> s).
Proof using Type.
  intros <-. induction s as [|r s IH]; cbn; [done|]. unfold Sqlite.created_cmp, mutation_cmp, compare_by. cbn.
  destruct (String.compare _ _); [f_equal; exact IH..|done].
Qed.

Lemma contents_exists t id : wf t ->
  existsb (Memory.by_mutation_id id) (mem_mutations (contents t)) = existsb (Sqlite.by_id id) (t_mutations t).
Proof using Type.
  intros Hwf. cbn. rewrite (existsb_fmap _ (Sqlite.by_id id)) by done. unfold Sqlite.by_id. rewrite !existsb_has_key.
  apply bool_decide_ext. by rewrite sort_by_perm.
Qed.

Lemma sim_enqueue_mutation m :
  Sim (mutation_fits m) (Sqlite.enqueue_mutation m) (enqueue_at (append_position mutation_cmp m) m).
Proof using Type*.
  sim_start. unfold Sqlite.enqueue_mutation. sim_steps.
  all: destruct (existsb _ _) eqn:Hex; simplify_eq.
  2: { norm_faults. apply sim_post_err; [done|]. left. unfold enqueue_at. by rewrite contents_exists, Hex by done. }
  destruct (mutation_params_inv _ _ _ _ Hser Hp) as [Hok Hm].
  assert (mc_mutation_id p = mut_mutation_id m) as Hid by by rewrite <- Hm.
  split; [|split; cbn; try done].
  - unfold enqueue_at. rewrite contents_exists, Hex by done. unfold with_mutations, contents. cbn. do 2 f_equal.
    rewrite sort_by_snoc by (apply _ || apply compare_by_total). unfold sort_append.
    by rewrite fmap_app, fmap_cons, fmap_take, fmap_drop, Hm, (append_position_fmap m).
  - apply Forall_app_2; [done|by apply Forall_singleton].
  - rewrite fmap_app. cbn. rewrite <- Permutation_cons_append. constructor; [|done].
    unfold Sqlite.by_id in Hex. rewrite existsb_has_key in Hex. apply bool_decide_eq_false in Hex. by rewrite Hid.
Qed.

Lemma filter_nonempty (id : string) l :
  bool_decide (0 < length (List.filter (Sqlite.by_id id) l))
  = match find_first (Sqlite.by_id id) l with Some _ => true | None => false end.
Proof using Type.
  pose proof (filter_key_length mc_mutation_id id l) as Hl. unfold Sqlite.by_id.
  destruct (find_first _ l) as [m|]; case_bool_decide as Hpos; try done.
  - exfalso. assert (Some m = None) as [=]. apply Hl. lia.
  - rewrite (proj2 Hl eq_refl) in Hpos. lia.
Qed.

Lemma sim_remove_mutation id : Sim True (Sqlite.remove_mutation id) (Memory.remove_mutation id).
Proof using Type*.
  sim_start. unfold Sqlite.remove_mutation. sim_steps. simplify_eq. destruct (queue_ok t Hwf) as [Qok Qnd].
  assert (contents (set_mutations (List.filter (fun r => negb (Sqlite.by_id id r))) t)
    = with_mutations (remove_first (Memory.by_mutation_id id)) (contents t)) as Hc.
  { unfold contents, with_mutations. cbn. f_equal. rewrite <- filter_sort_by by (apply _ || apply compare_by_total).
    unfold Sqlite.by_id. rewrite filter_remove_first by done. by rewrite (remove_first_fmap _ (has_key mc_mutation_id id)). }
  split; [|split; cbn; try done].
  - unfold Memory.remove_mutation. rewrite contents_mutation, filter_nonempty by done.
    norm_faults. change (contents (set_mutations ?f (set_faults l0 t))) with (contents (set_mutations f t)).
    rewrite Hc. destruct (find_first _ _) as [r|] eqn:Hf; [done|]. cbn [fmap option_fmap option_map].
    f_equal. unfold with_mutations. rewrite remove_first_None; [done|]. by rewrite contents_mutation, Hf.
  - apply Forall_forall. intros r Hr%list_elem_of_In%filter_In%proj1. rewrite Forall_forall in Wm.
    by apply Wm, list_elem_of_In.
  - unfold Sqlite.by_id. rewrite filter_remove_first by done. by apply NoDup_remove_first.
Qed.

Lemma sim_pending_mutation_count : Sim True Sqlite.pending_mutation_count Memory.pending_mutation_count.
Proof using Type*.
  sim_start. unfold Sqlite.pending_mutation_count. sim_steps. injection Hq as <-.
  split; [|by apply wf_set_faults]. unfold Memory.pending_mutation_count. cbn. by rewrite length_fmap, sort_by_perm.
Qed.

Lemma set_row_status_ok st n r :
  mutation_ok r -> in_range 4294967295 n -> mutation_ok (Sqlite.set_row_status (status_str st) n r).
Proof using Type. intros [] ?. split; cbn; try done. by rewrite parse_status_str. Qed.

Definition update_row (id : string) (st : MutationStatus) (n : N) (r : MutationCols) : MutationCols :=
  if Sqlite.by_id id r then Sqlite.set_row_status (status_str st) (Z.of_N n) r else r.

Lemma update_rows_wf id st n t :
  wf t -> in_range 4294967295 (Z.of_N n) -> wf (set_mutations (fmap (update_row id st n)) t).
Proof using Type.
  intros [Wo Wm Wu Wb Wy Wc] Hn. split; cbn; try done.
  - apply Forall_fmap. eapply Forall_impl; [exact Wm|]. intros r Hr. unfold update_row. cbn.
    destruct (Sqlite.by_id id r); [by apply set_row_status_ok|done].
  - rewrite <- list_fmap_compose. erewrite list_fmap_ext; [exact Wu|]. intros ? r _. unfold update_row. cbn.
    by destruct (Sqlite.by_id id r).
Qed.

Lemma update_rows_contents id st n t : wf t ->
  contents (set_mutations (fmap (update_row id st n)) t)
  = with_mutations (update_first (Memory.by_mutation_id id) (Memory.set_status st n)) (contents t).
Proof using Type.
  intros Hwf. destruct (queue_ok t Hwf) as [_ Qnd]. unfold contents, with_mutations. cbn. f_equal.
  rewrite <- (fmap_sort_by Sqlite.created_cmp) by (intros x y; unfold update_row, Sqlite.created_cmp, compare_by;
    by destruct (Sqlite.by_id id x), (Sqlite.by_id id y)).
  unfold update_row, Sqlite.by_id. rewrite fmap_update_key by done. symmetry.
  apply (update_first_fmap _ (has_key mc_mutation_id id)); [done|].
  intros r. unfold Memory.set_status, mutation_of. cbn. by rewrite N2Z.id, parse_status_str.
Qed.

Lemma update_first_None {A} (p : A -> bool) f l : find_first p l = None -> update_first p f l = l.
Proof using Type. induction l as [|x l IH]; cbn; [done|]. destruct (p x); [done|]. by intros ->%IH. Qed.

Lemma sim_update_mutation_status id st n :
  Sim (fits 4294967295 n) (Sqlite.update_mutation_status id st n) (Memory.update_mutation_status id st n).
Proof using Type*.
  sim_start. unfold Sqlite.update_mutation_status. sim_steps; simplify_eq.
  all: apply to_sql_inv in Hp as [-> Hrange].
  all: change (fmap _) with (fmap (M:=list) (update_row id st n)).
  all: split; [|by apply (update_rows_wf id st n (set_faults l0 t)); [apply wf_set_faults|]].
  all: norm_faults; change (contents (set_mutations ?f (set_faults l0 t))) with (contents (set_mutations f t)).
  all: rewrite update_rows_contents by done.
  all: pose proof (filter_key_length mc_mutation_id id (t_mutations t)) as Hlen.
  all: pose proof (contents_mutation t id Hwf) as Hm; unfold Sqlite.by_id in *.
  - rewrite (proj1 Hlen) in Hm by done. split; [unfold with_mutations; by rewrite update_first_None|].
    left. unfold Memory.update_mutation_status. by rewrite Hm.
  - unfold Memory.update_mutation_status. rewrite Hm.
    destruct (find_first _ (t_mutations t)) as [r|]; [done|]. by rewrite (proj2 Hlen) in *.
Qed.

(** *** Base versions *)

Lemma sim_get_base_version id rev : Sim (fits_u64 rev) (Sqlite.get_base_version id rev) (Memory.get_base_version id rev).
Proof using Type*.
  sim_start. unfold Sqlite.get_base_version. do 2 sim_step. cbn beta iota. apply wp_bind.
  apply wp_query_params; [|intros; sim_err|done|intros; sim_err]. intros l0 p a _ _ [= <-]. cbn beta iota. norm_faults.
  assert (forall o t', contents t' = contents t -> wf t' -> o = env_of <$> t_bases t !! (id, rev) ->
    sim_post (fits_u64 rev) (Memory.get_base_version id rev) t (Ok o) t') as Hpost.
  { intros o t' Hc Hw ->. split; [|done]. unfold Memory.get_base_version. rewrite Hc. cbn. by rewrite lookup_fmap. }
  cbn [t_bases set_faults]. destruct (t_bases t !! (id, rev)) as [j|] eqn:Hj;
    [|sim_steps; apply Hpost; auto using wf_set_faults].
  rewrite deserialize_ok by (by eapply Wb). sim_steps. apply Hpost; auto using wf_set_faults.
Qed.

Lemma sim_put_base_version id rev e : Sim (fits_u64 rev) (Sqlite.put_base_version id rev e) (Memory.put_base_version id rev e).
Proof using Type*.
  sim_start. unfold Sqlite.put_base_version. sim_steps. simplify_eq.
  destruct (written_env _ _ _ Hser) as [Hread Henv].
  split; [|split; cbn; try done; by apply map_Forall_insert_2].
  unfold Memory.put_base_version, with_base_versions, contents. cbn. by rewrite fmap_insert, Henv.
Qed.

Lemma deleted_count {A} (p : string * N -> bool) (m : gmap (string * N) A) :
  length (List.filter (fun kv => p kv.1) (map_to_list m)) + size (base.filter (fun kv => p kv.1 = false) m) = size m.
Proof using Type.
  induction m as [|k x m Hk IH] using map_ind; [done|].
  rewrite (Permutation_filter_bool _ _ _ (map_to_list_insert m k x Hk)), map_size_insert_None by done. cbn.
  destruct (p k) eqn:Hp; cbn.
  - rewrite map_filter_insert_False by (cbn; by rewrite Hp). rewrite delete_id by done. lia.
  - rewrite map_filter_insert_True by done. rewrite map_size_insert_None; [lia|].
    apply map_lookup_filter_None_2. by left.
Qed.

Lemma delete_bases_sim p t n t' (keep : string * N -> bool) :
  wf t -> (forall k, keep k = negb (p k)) -> Sqlite.delete_bases p t = (n, t') ->
  wf t' /\ contents t' = with_base_versions (base.filter (fun kv => keep kv.1 = true)) (contents t)
  /\ n = size (mem_base_versions (contents t))
          - size (base.filter (fun kv => keep kv.1 = true) (mem_base_versions (contents t))).
Proof using Type.
  intros [Wo Wm Wu Wb Wy Wc] Hkeep [= <- <-].
  assert (base.filter (fun kv : string * N * EncryptedEnvelope => keep kv.1 = true) (env_of <$> t_bases t)
    = env_of <$> base.filter (fun kv : string * N * string => p kv.1 = false) (t_bases t)) as Hf.
  { rewrite map_filter_fmap. f_equal. apply map_filter_ext. intros k x _. cbn. rewrite Hkeep. by destruct (p k). }
  split_and!.
  - split; cbn; try done. intros k x [? _]%map_lookup_filter_Some. by eapply Wb.
  - unfold contents, with_base_versions. cbn. by rewrite Hf.
  - cbn. rewrite Hf, !map_size_fmap. pose proof (deleted_count p (t_bases t)). lia.
Qed.

Lemma sim_prune_base_versions id rev : Sim (fits_u64 rev) (Sqlite.prune_base_versions id rev) (Memory.prune_base_versions id rev).
Proof using Type*.
  sim_start. unfold Sqlite.prune_base_versions. sim_steps.
  eapply (delete_bases_sim _ _ _ _ (Memory.keeps id rev)) in Hrun as (Hwf' & Hc & ->); [|by apply wf_set_faults|done].
  split; [|done]. unfold Memory.prune_base_versions. by rewrite Hc.
Qed.

Lemma sim_clear_base_versions id : Sim True (Sqlite.clear_base_versions id) (Memory.clear_base_versions id).
Proof using Type*.
  sim_start. unfold Sqlite.clear_base_versions. sim_steps.
  eapply (delete_bases_sim _ _ _ _ (fun k => negb (bool_decide (k.1 = id)))) in Hrun as (Hwf' & Hc & ->);
    [|by apply wf_set_faults|done].
  split; [|done]. unfold Memory.clear_base_versions. rewrite Hc.
  assert (forall m : gmap (string * N) EncryptedEnvelope,
    base.filter (fun kv => negb (bool_decide (kv.1.1 = id)) = true) m = base.filter (fun kv => kv.1.1 <> id) m) as Hf.
  { intros m. apply map_filter_ext. intros k x _. cbn. by rewrite negb_true_iff, bool_decide_eq_false. }
  unfold with_base_versions. by rewrite !Hf.
Qed.

#[local] Existing Instance Memory.rev_le_dec.
#[local] Instance rev_le_trans : Transitive Memory.rev_le.
Proof using Type. intros a b c. unfold Memory.rev_le. apply N.le_trans. Qed.
#[local] Instance rev_le_total : Total Memory.rev_le.
Proof using Type. intros a b. unfold Memory.rev_le. lia. Qed.
#[local] Instance base_le_trans : Transitive Sqlite.base_le.
Proof using Type. intros a b c. unfold Sqlite.base_le. apply N.le_trans. Qed.
#[local] Instance base_le_total : Total Sqlite.base_le.
Proof using Type. intros a b. unfold Sqlite.base_le. lia. Qed.

Definition versions {A} (id : string) (m : gmap (string * N) A) : list (N * A) :=
  (fun kv => (kv.1.2, kv.2)) <$> base.filter (fun kv : string * N * A => kv.1.1 = id) (map_to_list m).

Lemma versions_fmap (id : string) (m : gmap (string * N) string) :
  versions id (env_of <$> m) = (fun kv => (kv.1, env_of kv.2)) <$> versions id m.
Proof using Type.
  unfold versions. rewrite map_to_list_fmap. induction (map_to_list m) as [|[[k r] j] l IH]; [done|].
  cbn. case_decide; cbn; by f_equal.
Qed.

Lemma elem_of_base_versions {A} (id : string) (m : gmap (string * N) A) r x : (r, x) ∈ versions id m <-> m !! (id, r) = Some x.
Proof using Type.
  unfold versions. rewrite list_elem_of_fmap. split.
  - intros ([[k r'] y] & [= -> ->] & [Hk Hin]%list_elem_of_filter). cbn in Hk. subst. by apply elem_of_map_to_list.
  - intros Hl. exists (id, r, x). split; [done|]. apply list_elem_of_filter. split; [done|]. by apply elem_of_map_to_list.
Qed.

Lemma listed_versions (id : string) t :
  (fun kv => (kv.1, env_of kv.2)) <$> merge_sort Sqlite.base_le (versions id (t_bases t))
  = merge_sort Memory.rev_le (versions id (mem_base_versions (contents t))).
Proof using Type.
  cbn [mem_base_versions contents].
  assert ((fun kv => (kv.1, env_of kv.2)) <$> merge_sort Sqlite.base_le (versions id (t_bases t))
    ≡ₚ versions id (env_of <$> t_bases t)) as Hperm by by rewrite merge_sort_Permutation, versions_fmap.
  eapply (StronglySorted_unique_strong Memory.rev_le).
  - intros [r1 e1] [r2 e2]. rewrite Hperm, merge_sort_Permutation, !elem_of_base_versions. unfold Memory.rev_le. cbn.
    intros H1 H2 ? ?. assert (r1 = r2) as -> by lia. congruence.
  - eapply StronglySorted_fmap; [|apply StronglySorted_merge_sort; apply _]. by intros [? ?] [? ?] Hle.
  - apply StronglySorted_merge_sort; apply _.
  - by rewrite Hperm, merge_sort_Permutation.
Qed.

Lemma sim_list_base_versions id : Sim True (Sqlite.list_base_versions id) (Memory.list_base_versions id).
Proof using Type*.
  sim_start. unfold Sqlite.list_base_versions. sim_steps. injection Hq as <-.
  change (_ <$> base.filter _ (map_to_list (t_bases _))) with (versions id (t_bases t)).
  apply (wp_read_rows _ _ (fun kv => kv) (fun kv => (kv.1, env_of kv.2))); [|intros l2|intros; sim_err].
  - apply Forall_forall. intros [r j]. rewrite merge_sort_Permutation, elem_of_base_versions. intros Hj.
    split; [done|]. cbn. by rewrite deserialize_ok by (by eapply Wb).
  - split; [|by apply wf_set_faults]. unfold Memory.list_base_versions. by rewrite listed_versions.
Qed.

(** *** Sync state *)

Lemma sim_get_sync_state : Sim True Sqlite.get_sync_state Memory.get_sync_state.
Proof using Type*.
  sim_start. destruct Wy as (r & Hr & Hrange). unfold Sqlite.get_sync_state. sim_steps; cbn in Hq; rewrite Hr in Hq.
  all: cbn in Hq; unfold get_u64 in Hq; rewrite from_sql_ok in Hq by done; try done. injection Hq as <-.
  split; [|by apply wf_set_faults]. unfold Memory.get_sync_state. cbn. by rewrite Hr.
Qed.

Lemma set_sync_wf f t z : wf t -> in_range i64_max z ->
  (forall r, yc_sync_cursor (f r) = z) -> wf (set_sync (fmap f) t).
Proof using Type.
  intros [Wo Wm Wu Wb (r & Hr & _) Wc] Hz Hf. split; cbn; try done. rewrite Hr. exists (f r). by rewrite Hf.
Qed.

Lemma sim_set_sync_cursor c : Sim (fits_u64 c) (Sqlite.set_sync_cursor c) (Memory.set_sync_cursor c).
Proof using Type*.
  sim_start. unfold Sqlite.set_sync_cursor. sim_steps. simplify_eq. apply to_sql_inv in Hp as [-> Hrange].
  split; [|eapply (set_sync_wf _ (set_faults _ _)); [by apply wf_set_faults|exact Hrange|done]].
  destruct Wy as (r & Hr & _). unfold Memory.set_sync_cursor, with_sync_state, contents. cbn. rewrite Hr. cbn.
  by rewrite N2Z.id.
Qed.

Lemma sim_set_sync_state st : Sim (fits_u64 (sync_cursor st)) (Sqlite.set_sync_state st) (Memory.set_sync_state st).
Proof using Type*.
  sim_start. unfold Sqlite.set_sync_state. sim_steps. simplify_eq. apply to_sql_inv in Hp as [-> Hrange].
  split; [|eapply (set_sync_wf _ (set_faults _ _)); [by apply wf_set_faults|exact Hrange|done]].
  destruct Wy as (r & Hr & _). unfold Memory.set_sync_state, with_sync_state, contents. cbn. rewrite Hr. cbn.
  rewrite N2Z.id. by destruct st.
Qed.

(** *** Conflicts *)

Lemma contents_conflict t id : mem_conflicts (contents t) !! id = conflict_of_row id <$> t_conflicts t !! id.
Proof using Type. cbn. rewrite map_lookup_imap. by destruct (t_conflicts t !! id). Qed.

Lemma sim_put_conflict c : Sim (conflict_fits c) (Sqlite.put_conflict c) (Memory.put_conflict c).
Proof using Type*.
  sim_start. unfold Sqlite.put_conflict. sim_steps. simplify_eq.
  destruct (conflict_params_inv _ _ _ _ _ _ _ _ _ _ Hser Hser0 Hser1 Hser2 Hp) as [Hok Hc].
  split; [|split; cbn; try done; by apply map_Forall_insert_2].
  unfold Memory.put_conflict, with_conflicts, contents. cbn. by rewrite (map_imap_insert_Some _ _ _ _ c) by (by rewrite Hc).
Qed.

Lemma sim_get_conflict id : Sim True (Sqlite.get_conflict id) (Memory.get_conflict id).
Proof using Type*.
  sim_start. unfold Sqlite.get_conflict. sim_steps; cbn [t_conflicts set_faults] in Hq.
  2: { destruct (t_conflicts t !! id) as [r|] eqn:Hr; [|done]. cbn [Sqlite.first_conflict] in Hq.
       rewrite row_to_conflict_ok in Hq by (by eapply Wc). done. }
  split; [|by apply wf_set_faults].
  unfold Memory.get_conflict. rewrite contents_conflict. destruct (t_conflicts t !! id) as [r|] eqn:Hr.
  - cbn [Sqlite.first_conflict] in Hq. rewrite row_to_conflict_ok in Hq by (by eapply Wc). by injection Hq as <-.
  - by injection Hq as <-.
Qed.

Lemma resolved_row_ok what at_ e j r :
  conflict_ok r -> Sqlite.serialize_opt what e = Ok j -> conflict_ok (Sqlite.resolved_row at_ j r).
Proof using Type*.
  intros [] [Hj _]%written_env_opt. split; cbn; try done; [|by right]. by destruct j.
Qed.

Lemma resolved_row_of what id at_ e j r :
  Sqlite.serialize_opt what e = Ok j ->
  conflict_of_row id (Sqlite.resolved_row at_ j r) = mark_resolved (conflict_of_row id r) e at_.
Proof using Type*.
  intros [_ He]%written_env_opt. unfold conflict_of_row, mark_resolved. cbn. rewrite <- He. by destruct j.
Qed.

Lemma sim_resolve_conflict id e at_ : Sim True (Sqlite.resolve_conflict id e at_) (Memory.resolve_conflict id e at_).
Proof using Type*.
  sim_start. unfold Sqlite.resolve_conflict. sim_steps. simplify_eq. split.
  - unfold Memory.resolve_conflict. rewrite contents_conflict. unfold with_conflicts, contents. cbn.
    destruct (t_conflicts t !! id) as [r|] eqn:Hr; cbn.
    + do 2 f_equal. apply map_eq. intros k. rewrite map_lookup_imap. destruct (decide (k = id)) as [->|Hne].
      * rewrite lookup_alter_eq, Hr, lookup_insert_eq. cbn. by rewrite (resolved_row_of _ _ _ _ _ _ Hser).
      * by rewrite lookup_alter_ne, lookup_insert_ne, map_lookup_imap by done.
    + do 2 f_equal. f_equal. apply map_eq. intros k. rewrite lookup_alter. case_decide; subst; by rewrite ?Hr.
  - split; cbn; try done. intros k r. rewrite lookup_alter. case_decide; [|by apply Wc]. subst.
    intros (r' & Hr' & ->)%fmap_Some. eapply resolved_row_ok; [by eapply Wc|done].
Qed.

Lemma sim_delete_conflict id : Sim True (Sqlite.delete_conflict id) (Memory.delete_conflict id).
Proof using Type*.
  sim_start. unfold Sqlite.delete_conflict. sim_steps. simplify_eq.
  split; [|split; cbn; try done; by apply map_Forall_delete].
  unfold Memory.delete_conflict. rewrite contents_conflict. unfold with_conflicts, contents. cbn. rewrite map_imap_delete.
  by destruct (t_conflicts t !! id).
Qed.

Definition SimReads {A} (op : M Tables StorageError A) (post : MemoryStorage -> A -> Prop) : Prop :=
  forall t, wf t -> wp op (fun r t' =>
    match r with Ok a => post (contents t) a | Err _ => t_faults t <> [] end /\ contents t' = contents t /\ wf t') t.

Ltac reads_err :=
  norm_faults; split; [|split; [done|by apply wf_set_faults]];
  let E := fresh in intros E; match goal with Hf : t_faults _ <> [] |- _ => apply Hf; cbn; auto 10 end.

(** The newest unresolved row of the object. *)
Lemma active_rows t id : wf t ->
  exists c, Sqlite.first_conflict (sort_by Sqlite.newer (List.filter (Sqlite.active_row id) (map_to_list (t_conflicts t))))
              = Ok c
    /\ active_conflict id (contents t) c.
Proof using Type.
  intros Hwf.
  assert (forall k row, Sqlite.active_row id (k, row) = Memory.is_active_for id (conflict_of_row k row)) as Hact.
  { intros k row. unfold Memory.is_active_for, Sqlite.active_row, conflict_of_row, col_bool. cbn. by rewrite negb_involutive. }
  pose proof (sort_by_perm Sqlite.newer (List.filter (Sqlite.active_row id) (map_to_list (t_conflicts t)))) as Hp.
  destruct (sort_by _ _) as [|[k row] rows].
  - exists None. split; [done|]. intros k c Hk. rewrite contents_conflict in Hk.
    apply fmap_Some in Hk as (row & Hrow & ->). rewrite <- Hact.
    destruct (Sqlite.active_row _ _) eqn:Ha; [|done]. apply Permutation_nil_l in Hp.
    assert (In (k, row) (List.filter (Sqlite.active_row id) (map_to_list (t_conflicts t)))) as Hin; [|by rewrite <- Hp in Hin].
    apply filter_In. split; [by apply list_elem_of_In, elem_of_map_to_list|done].
  - assert (In (k, row) (List.filter (Sqlite.active_row id) (map_to_list (t_conflicts t)))) as [Hin Ha]%filter_In
      by (apply list_elem_of_In; rewrite <- Hp; left).
    apply list_elem_of_In, elem_of_map_to_list in Hin. exists (Some (conflict_of_row k row)). cbn [Sqlite.first_conflict].
    rewrite row_to_conflict_ok by (by eapply (wf_conflicts _ Hwf)). split; [done|]. unfold active_conflict.
    rewrite <- Hact. split; [|done]. exists k. by rewrite contents_conflict, Hin.
Qed.

Lemma sim_get_active_conflict id : SimReads (Sqlite.get_active_conflict_for_object id) (active_conflict id).
Proof using Type*.
  intros t Hwf. destruct (active_rows t id Hwf) as (c & Hc & Hpost).
  unfold Sqlite.get_active_conflict_for_object. apply wp_bind, wp_prepare; [intros l Hl|intros; reads_err].
  cbn beta iota. apply wp_query; [|intros; reads_err|]; cbn [t_conflicts set_faults]; rewrite Hc; [|done].
  intros l0 r _ [= <-]. norm_faults. split; [done|]. split; [done|by apply wf_set_faults].
Qed.

Lemma conflict_selected_matches resolved kv :
  conflict_ok kv.2 ->
  Sqlite.conflict_selected resolved kv = Memory.matches_resolution resolved (conflict_of_row kv.1 kv.2).
Proof using Type.
  intros [_ _ _ _ _ _ _ Hr]. unfold Sqlite.conflict_selected, Memory.matches_resolution, conflict_of_row, col_bool. cbn.
  destruct Hr as [-> | ->], resolved as [[]|]; done.
Qed.

Lemma listed_conflicts_perm resolved t : wf t ->
  (fun kv => conflict_of_row kv.1 kv.2) <$> List.filter (Sqlite.conflict_selected resolved) (map_to_list (t_conflicts t))
  ≡ₚ List.filter (Memory.matches_resolution resolved) (map_to_list (mem_conflicts (contents t))).*2.
Proof using Type.
  intros Hwf. unfold contents. cbn [mem_conflicts].
  rewrite (Permutation_filter_bool _ _ _ (fmap_Permutation snd _ _ (map_to_list_imap conflict_of_row (t_conflicts t)))).
  rewrite <- list_fmap_compose, filter_fmap. cbn. erewrite filter_ext_In; [done|].
  apply Forall_forall. intros [k r] Hkv. apply conflict_selected_matches.
  apply elem_of_map_to_list in Hkv. by eapply (wf_conflicts _ Hwf).
Qed.

Lemma sim_list_conflicts resolved : SimReads (Sqlite.list_conflicts resolved) (listed_conflicts resolved).
Proof using Type*.
  sim_start. unfold Sqlite.list_conflicts. apply wp_bind, wp_prepare; [intros l Hl|intros; reads_err].
  cbn beta iota. apply wp_bind, wp_query; [intros l0 rows Hl0 [= <-]|intros; reads_err|done]. norm_faults.
  cbn [t_conflicts set_faults] in *.
  assert (mapM Sqlite.row_to_conflict_record
      (sort_by Sqlite.older (List.filter (Sqlite.conflict_selected resolved) (map_to_list (t_conflicts t))))
    = Ok ((fun kv => conflict_of_row kv.1 kv.2)
      <$> sort_by Sqlite.older (List.filter (Sqlite.conflict_selected resolved) (map_to_list (t_conflicts t))))) as Hmap.
  { apply mapM_ok, Forall_forall. intros [k r]. rewrite sort_by_perm. intros Hin%list_elem_of_In%filter_In%proj1.
    apply list_elem_of_In, elem_of_map_to_list in Hin. apply row_to_conflict_ok. by eapply Wc. }
  apply wp_query; [|intros; reads_err|]; rewrite Hmap; [|done]. intros l1 out Hl1 [= <-]. norm_faults.
  split; [|split; [done|by apply wf_set_faults]]. split.
  - eapply (StronglySorted_fmap _ (not_gt Sqlite.older)); [|apply sort_by_sorted; [apply _|apply compare_by_total]].
    intros [k1 r1] [k2 r2]. unfold not_gt, Sqlite.older, compare_by. by rewrite str_compare_not_gt.
  - rewrite sort_by_perm. by apply listed_conflicts_perm.
Qed.

(** *** Well-formedness is kept *)

Lemma Sim_wf {A} F (op : M Tables StorageError A) spec : Sim F op spec -> forall t, wf t -> wf (op t).2.
Proof using Type. intros Hsim t Hwf. specialize (Hsim t Hwf). unfold wp in Hsim. by destruct Hsim. Qed.
Lemma SimReads_wf {A} (op : M Tables StorageError A) post : SimReads op post -> forall t, wf t -> wf (op t).2.
Proof using Type. intros Hsim t Hwf. specialize (Hsim t Hwf). unfold wp in Hsim. by destruct Hsim as (_ & _ & ?). Qed.
End sims.

(** ** The backend *)

(** A database whose rows are readable. *)
Record SqliteStorage `{EnvelopeJson} : Type := mkSqlite {
  sq_tables : Tables;
  sq_wf : wf sq_tables
}.
Arguments mkSqlite {_} _ _.

Section backend.
Context `{EnvelopeJson} `{!EnvelopeJsonLaws}.

Definition on_tables {A} (op : M Tables StorageError A) (Hop : forall t, wf t -> wf (op t).2)
    : M SqliteStorage StorageError A :=
  fun s => ((op (sq_tables s)).1, mkSqlite _ (Hop _ (sq_wf s))).

#[export] Instance Sqlite_ObjectStore : ObjectStore SqliteStorage := {
  get_object id := on_tables _ (Sim_wf _ _ _ (sim_get_object id));
  put_object o := on_tables _ (Sim_wf _ _ _ (sim_put_object o));
  list_objects f := on_tables _ (Sim_wf _ _ _ (sim_list_objects f));
  mark_deleted id r e t := on_tables _ (Sim_wf _ _ _ (sim_mark_deleted id r e t));
  purge_object id := on_tables _ (Sim_wf _ _ _ (sim_purge_object id)) }.
#[export] Instance Sqlite_MutationStore : MutationStore SqliteStorage := {
  enqueue_mutation m := on_tables _ (Sim_wf _ _ _ (sim_enqueue_mutation m));
  get_mutation id := on_tables _ (Sim_wf _ _ _ (sim_get_mutation id));
  list_pending_mutations := on_tables _ (Sim_wf _ _ _ sim_list_pending_mutations);
  list_mutations_for_object id := on_tables _ (Sim_wf _ _ _ (sim_list_mutations_for_object id));
  remove_mutation id := on_tables _ (Sim_wf _ _ _ (sim_remove_mutation id));
  update_mutation_status id st n := on_tables _ (Sim_wf _ _ _ (sim_update_mutation_status id st n));
  pending_mutation_count := on_tables _ (Sim_wf _ _ _ sim_pending_mutation_count) }.
#[export] Instance Sqlite_BaseVersionStore : BaseVersionStore SqliteStorage := {
  get_base_version id r := on_tables _ (Sim_wf _ _ _ (sim_get_base_version id r));
  put_base_version id r e := on_tables _ (Sim_wf _ _ _ (sim_put_base_version id r e));
  prune_base_versions id r := on_tables _ (Sim_wf _ _ _ (sim_prune_base_versions id r));
  clear_base_versions id := on_tables _ (Sim_wf _ _ _ (sim_clear_base_versions id));
  list_base_versions id := on_tables _ (Sim_wf _ _ _ (sim_list_base_versions id)) }.
#[export] Instance Sqlite_SyncStateStore : SyncStateStore SqliteStorage := {
  get_sync_state := on_tables _ (Sim_wf _ _ _ sim_get_sync_state);
  set_sync_cursor c := on_tables _ (Sim_wf _ _ _ (sim_set_sync_cursor c));
  set_sync_state st := on_tables _ (Sim_wf _ _ _ (sim_set_sync_state st)) }.
#[export] Instance Sqlite_ConflictStore : ConflictStore SqliteStorage := {
  put_conflict c := on_tables _ (Sim_wf _ _ _ (sim_put_conflict c));
  get_conflict id := on_tables _ (Sim_wf _ _ _ (sim_get_conflict id));
  get_active_conflict_for_object id := on_tables _ (SimReads_wf _ _ (sim_get_active_conflict id));
  list_conflicts r := on_tables _ (SimReads_wf _ _ (sim_list_conflicts r));
  resolve_conflict_record id e t := on_tables _ (Sim_wf _ _ _ (sim_resolve_conflict id e t));
  delete_conflict id := on_tables _ (Sim_wf _ _ _ (sim_delete_conflict id)) }.
#[export] Instance Sqlite_LocalStorage : LocalStorage SqliteStorage := {}.

Definition sq_contents (s : SqliteStorage) : MemoryStorage := contents (sq_tables s).

Lemma Sim_refines {A} F (op : M Tables StorageError A) spec (Hsim : Sim F op spec) :
  Refines sq_contents (on_tables op (Sim_wf _ _ _ Hsim)) spec.
Proof using Type.
  split; unfold on_tables, sq_contents; intros s a s' [= Hres Hs']; pose proof (Hsim _ (sq_wf s)) as Hpost; unfold wp in Hpost.
  all: rewrite <- Hs'; cbn [sq_tables]; rewrite Hres in Hpost; by destruct Hpost as [? ?]; destruct_and?.
Qed.

Lemma SimReads_reads {A} (op : M Tables StorageError A) post (Hsim : SimReads op post) :
  Reads sq_contents (on_tables op (SimReads_wf _ _ Hsim)) post.
Proof using Type.
  split; unfold on_tables, sq_contents; intros s a s' [= Hres Hs']; pose proof (Hsim _ (sq_wf s)) as Hpost; unfold wp in Hpost.
  all: rewrite <- Hs'; cbn [sq_tables]; rewrite Hres in Hpost; by destruct Hpost as (? & ? & ?).
Qed.

#[export] Program Instance Sqlite_StorageSpec : StorageSpec SqliteStorage := {
  view := sq_contents;
  enqueue_position m := append_position mutation_cmp m
}.
Solve Obligations with (cbn; intros; apply Sim_refines || apply SimReads_reads).
End backend.

(** ** The SQLite backend, operation by operation

    The operations of the storage traits as data, so that one theorem speaks
    of all of them, and the order in which SQLite lists the queue. *)

(** The operations whose answer is determined by what is stored. *)
Inductive store_call : Type -> Type :=
| CGetObject (object_id : string) : store_call (option StoredEncryptedObject)
| CPutObject (object : StoredEncryptedObject) : store_call unit
| CListObjects (filter : ObjectFilter) : store_call (list StoredEncryptedObject)
| CMarkDeleted (object_id : string) (revision : N) (envelope : EncryptedEnvelope) (updated_at : string) : store_call unit
| CPurgeObject (object_id : string) : store_call bool
| CEnqueue (mutation : PendingMutation) : store_call unit
| CGetMutation (mutation_id : string) : store_call (option PendingMutation)
| CListPending : store_call (list PendingMutation)
| CListForObject (object_id : string) : store_call (list PendingMutation)
| CRemoveMutation (mutation_id : string) : store_call bool
| CUpdateStatus (mutation_id : string) (status : MutationStatus) (retry_count : N) : store_call unit
| CPendingCount : store_call nat
| CGetBase (object_id : string) (revision : N) : store_call (option EncryptedEnvelope)
| CPutBase (object_id : string) (revision : N) (envelope : EncryptedEnvelope) : store_call unit
| CPruneBases (object_id : string) (older_than : N) : store_call nat
| CClearBases (object_id : string) : store_call nat
| CListBases (object_id : string) : store_call (list (N * EncryptedEnvelope))
| CGetSyncState : store_call SyncState
| CSetCursor (cursor : N) : store_call unit
| CSetSyncState (state : SyncState) : store_call unit
| CPutConflict (conflict : ConflictRecord) : store_call unit
| CGetConflict (conflict_id : string) : store_call (option ConflictRecord)
| CResolveConflict (conflict_id : string) (resolved : option EncryptedEnvelope) (resolved_at : string) : store_call bool
| CDeleteConflict (conflict_id : string) : store_call bool.

(** What each does to the maps. *)
Definition spec_call {A} (c : store_call A) : M MemoryStorage StorageError A :=
  match c with
  | CGetObject id => Memory.get_object id
  | CPutObject o => Memory.put_object o
  | CListObjects f => Memory.list_objects f
  | CMarkDeleted id r e t => Memory.mark_deleted id r e t
  | CPurgeObject id => Memory.purge_object id
  | CEnqueue m => enqueue_at (append_position mutation_cmp m) m
  | CGetMutation id => Memory.get_mutation id
  | CListPending => Memory.list_pending_mutations
  | CListForObject id => Memory.list_mutations_for_object id
  | CRemoveMutation id => Memory.remove_mutation id
  | CUpdateStatus id st n => Memory.update_mutation_status id st n
  | CPendingCount => Memory.pending_mutation_count
  | CGetBase id r => Memory.get_base_version id r
  | CPutBase id r e => Memory.put_base_version id r e
  | CPruneBases id r => Memory.prune_base_versions id r
  | CClearBases id => Memory.clear_base_versions id
  | CListBases id => Memory.list_base_versions id
  | CGetSyncState => Memory.get_sync_state
  | CSetCursor c => Memory.set_sync_cursor c
  | CSetSyncState st => Memory.set_sync_state st
  | CPutConflict c => Memory.put_conflict c
  | CGetConflict id => Memory.get_conflict id
  | CResolveConflict id e t => Memory.resolve_conflict id e t
  | CDeleteConflict id => Memory.delete_conflict id
  end.

(** The integers of the call fit the columns they go to. *)
Definition call_fits {A} (c : store_call A) : Prop :=
  match c with
  | CPutObject o => object_fits o
  | CMarkDeleted _ r _ _ | CGetBase _ r | CPutBase _ r _ | CPruneBases _ r | CSetCursor r => fits_u64 r
  | CEnqueue m => mutation_fits m
  | CUpdateStatus _ _ n => fits 4294967295 n
  | CSetSyncState st => fits_u64 (sync_cursor st)
  | CPutConflict c => conflict_fits c
  | _ => True
  end.

Section calls.
Context `{EnvelopeJson}.

Definition sqlite_call {A} (c : store_call A) : M Tables StorageError A :=
  match c with
  | CGetObject id => Sqlite.get_object id
  | CPutObject o => Sqlite.put_object o
  | CListObjects f => Sqlite.list_objects f
  | CMarkDeleted id r e t => Sqlite.mark_deleted id r e t
  | CPurgeObject id => Sqlite.purge_object id
  | CEnqueue m => Sqlite.enqueue_mutation m
  | CGetMutation id => Sqlite.get_mutation id
  | CListPending => Sqlite.list_pending_mutations
  | CListForObject id => Sqlite.list_mutations_for_object id
  | CRemoveMutation id => Sqlite.remove_mutation id
  | CUpdateStatus id st n => Sqlite.update_mutation_status id st n
  | CPendingCount => Sqlite.pending_mutation_count
  | CGetBase id r => Sqlite.get_base_version id r
  | CPutBase id r e => Sqlite.put_base_version id r e
  | CPruneBases id r => Sqlite.prune_base_versions id r
  | CClearBases id => Sqlite.clear_base_versions id
  | CListBases id => Sqlite.list_base_versions id
  | CGetSyncState => Sqlite.get_sync_state
  | CSetCursor c => Sqlite.set_sync_cursor c
  | CSetSyncState st => Sqlite.set_sync_state st
  | CPutConflict c => Sqlite.put_conflict c
  | CGetConflict id => Sqlite.get_conflict id
  | CResolveConflict id e t => Sqlite.resolve_conflict id e t
  | CDeleteConflict id => Sqlite.delete_conflict id
  end.

Context `{!EnvelopeJsonLaws}.

Lemma sim_call {A} (c : store_call A) : Sim (call_fits c) (sqlite_call c) (spec_call c).
Proof using Type*.
  destruct c; cbn [call_fits sqlite_call spec_call].
  - apply sim_get_object.
  - apply sim_put_object.
  - apply sim_list_objects.
  - apply sim_mark_deleted.
  - apply sim_purge_object.
  - apply sim_enqueue_mutation.
  - apply sim_get_mutation.
  - apply sim_list_pending_mutations.
  - apply sim_list_mutations_for_object.
  - apply sim_remove_mutation.
  - apply sim_update_mutation_status.
  - apply sim_pending_mutation_count.
  - apply sim_get_base_version.
  - apply sim_put_base_version.
  - apply sim_prune_base_versions.
  - apply sim_clear_base_versions.
  - apply sim_list_base_versions.
  - apply sim_get_sync_state.
  - apply sim_set_sync_cursor.
  - apply sim_set_sync_state.
  - apply sim_put_conflict.
  - apply sim_get_conflict.
  - apply sim_resolve_conflict.
  - apply sim_delete_conflict.
Qed.

(** C9. The SQLite backend implements the storage contract.  Every operation, on a
    database with readable rows, leaves readable rows.  If it succeeds it did to
    the stored objects, queue, base versions, cursor and conflicts what the
    contract says, with the answer of the contract.  If it fails, nothing that is
    stored changed, and there is a reason: the contract asks for this very error,
    or SQLite itself failed, or an integer does not fit its column.  So over a
    working database every call with values in range behaves as the contract. *)
Theorem sqlite_implements_storage {A} (c : store_call A) t r t' :
  wf t -> sqlite_call c t = (r, t') ->
  wf t' /\
  match r with
  | Ok a => spec_call c (contents t) = (Ok a, contents t')
  | Err e => contents t' = contents t
      /\ (spec_call c (contents t) = (Err e, contents t) \/ t_faults t <> [] \/ ~ call_fits c)
  end.
Proof using Type*.
  intros Hwf Hrun. destruct (wp_run _ _ _ _ _ (sim_call c t Hwf) Hrun) as [Hpost Hwf']. by split.
Qed.

(** A new edit is listed last when the clock did not go back: then the queue is
    first in, first out, as the in-memory backend's. *)
Lemma append_position_last m l :
  Forall (fun m' => String.le (mut_created_at m') (mut_created_at m)) l ->
  append_position mutation_cmp m l = length l.
Proof using Type.
  induction 1 as [|m' l Hm' _ IH]; cbn; [done|]. apply str_compare_not_gt in Hm'.
  unfold mutation_cmp at 1, compare_by. destruct (String.compare _ _); [by f_equal..|done].
Qed.

Lemma sqlite_queue_fifo m v :
  Forall (fun m' => String.le (mut_created_at m') (mut_created_at m)) (mem_mutations v) ->
  enqueue_at (append_position mutation_cmp m) m v = Memory.enqueue_mutation m v.
Proof using Type.
  intros Hle. unfold enqueue_at, Memory.enqueue_mutation, with_mutations.
  by rewrite append_position_last, firstn_all, drop_all.
Qed.
End calls.
