(* ===== verification/SqliteMigrations.v ===== *)
(** * Schema migrations of the local cache
      ([run_migrations] in [crates/zk-storage/src/sqlite.rs], [migrations/001], [005], [006])

    A schema is the tables with their columns, the versions recorded in
    [_schema_migrations] and whether [sync_state] has its row.  Every statement
    may fail at any moment; what a transaction did is then undone.  The scripts
    are the statements of the SQL files in their order; an index is only
    required to find its columns.  The server's migrations ([ServerStart]) run on
    the same schemas. *)

From stdpp Require Import options.
From S2P Require Import Prelude StorageModels.

Record Schema : Type := mkSchema {
  sc_tables : gmap string (list string);
  sc_indexes : gset string;
  sc_versions : list Z;
  sc_sync_row : bool;
  sc_faults : list (option string)
}.

#[export] Instance Schema_eq_dec : EqDecision Schema.
Proof. solve_decision. Defined.

Definition Schema_new : Schema := mkSchema ∅ ∅ [] false [].

Inductive ddl : Type :=
| CreateTable (name : string) (columns : list string)
| CreateIndex (table column : string)
| AddColumn (table column : string)
| SeedSyncState
| RecordVersion (version : Z)
(** The server's: named indexes, [CREATE] without [IF NOT EXISTS], rows seeded from
    another table, and its own table of versions. *)
| NamedIndex (if_not_exists : bool) (name table : string) (columns : list string)
| NewTable (name : string) (columns : list string)
| SeedRows (into from : string)
| RecordServerVersion (version : Z).

Definition MIGRATIONS_TABLE : ddl := CreateTable "_schema_migrations" ["version"; "applied_at"].

Definition MIGRATION_001 : list ddl :=
  [CreateTable "local_objects"
     ["object_id"; "object_kind"; "revision"; "server_seq"; "is_deleted"; "envelope"; "updated_at"];
   CreateIndex "local_objects" "object_kind"; CreateIndex "local_objects" "is_deleted";
   CreateTable "pending_mutations"
     ["mutation_id"; "object_id"; "expected_revision"; "object_kind"; "mutation_type"; "envelope"; "created_at";
      "retry_count"; "status"];
   CreateIndex "pending_mutations" "object_id"; CreateIndex "pending_mutations" "created_at";
   CreateTable "encrypted_base_versions" ["object_id"; "revision"; "envelope"; "stored_at"];
   CreateTable "sync_state" ["id"; "sync_cursor"; "last_sync_at"; "device_id"];
   SeedSyncState; MIGRATIONS_TABLE; RecordVersion 1].

Definition MIGRATION_005 : list ddl :=
  [CreateTable "conflict_records"
     ["conflict_id"; "object_id"; "object_kind"; "base_revision"; "remote_revision"; "base_envelope";
      "local_envelope"; "remote_envelope"; "candidate_envelope"; "resolved"; "created_at"; "resolved_at"];
   CreateIndex "conflict_records" "object_id"; CreateIndex "conflict_records" "resolved"; RecordVersion 2].

Definition MIGRATION_006 : list ddl :=
  [AddColumn "conflict_records" "remote_is_deleted"; AddColumn "conflict_records" "local_is_deleted";
   RecordVersion 3].

Definition with_tables (f : gmap string (list string) -> gmap string (list string)) (s : Schema) : Schema :=
  mkSchema (f (sc_tables s)) (sc_indexes s) (sc_versions s) (sc_sync_row s) (sc_faults s).
Definition with_faults (l : list (option string)) (s : Schema) : Schema :=
  mkSchema (sc_tables s) (sc_indexes s) (sc_versions s) (sc_sync_row s) l.

(** [INSERT OR IGNORE], [INSERT .. ON CONFLICT (version) DO NOTHING] *)
Definition record_version (v : Z) (s : Schema) : Schema :=
  if bool_decide (v ∈ sc_versions s) then s
  else mkSchema (sc_tables s) (sc_indexes s) (sc_versions s ++ [v]) (sc_sync_row s) (sc_faults s).

Module Migrations.
Abbreviation K A := (M Schema string A).

Definition call : K unit :=
  fun s =>
    match sc_faults s with
    | Some e :: rest => (Err e, with_faults rest s)
    | None :: rest => (Ok tt, with_faults rest s)
    | [] => (Ok tt, s)
    end.

(** One statement.  [ALTER TABLE .. ADD COLUMN] fails on a column that is
    there; [CREATE .. IF NOT EXISTS] and [INSERT OR IGNORE] do nothing then. *)
Definition effect (d : ddl) : K unit :=
  fun s =>
    match d with
    | CreateTable name columns =>
        (Ok tt, match sc_tables s !! name with Some _ => s | None => with_tables <[name := columns]> s end)
    | CreateIndex table column =>
        match sc_tables s !! table with
        | None => (Err ("no such table: " +:+ table), s)
        | Some columns =>
            if bool_decide (column ∈ columns) then (Ok tt, s)
            else (Err ("table " +:+ table +:+ " has no column named " +:+ column), s)
        end
    | AddColumn table column =>
        match sc_tables s !! table with
        | None => (Err ("no such table: " +:+ table), s)
        | Some columns =>
            if bool_decide (column ∈ columns) then (Err ("duplicate column name: " +:+ column), s)
            else (Ok tt, with_tables <[table := columns ++ [column]]> s)
        end
    | SeedSyncState =>
        match sc_tables s !! "sync_state" with
        | None => (Err "no such table: sync_state", s)
        | Some _ => (Ok tt, mkSchema (sc_tables s) (sc_indexes s) (sc_versions s) true (sc_faults s))
        end
    | RecordVersion v =>
        match sc_tables s !! "_schema_migrations" with
        | None => (Err "no such table: _schema_migrations", s)
        | Some _ =>
            (Ok tt, record_version v s)
        end
    | NamedIndex if_not_exists name table columns =>
        if bool_decide (name ∈ sc_indexes s)
        then (if if_not_exists then Ok tt else Err ("index " +:+ name +:+ " already exists"), s)
        else
          match sc_tables s !! table with
          | None => (Err ("no such table: " +:+ table), s)
          | Some present =>
              if forallb (fun c => bool_decide (c ∈ present)) columns
              then (Ok tt, mkSchema (sc_tables s) ({[name]} ∪ sc_indexes s) (sc_versions s) (sc_sync_row s) (sc_faults s))
              else (Err ("table " +:+ table +:+ " has no such column"), s)
          end
    | NewTable name columns =>
        match sc_tables s !! name with
        | Some _ => (Err ("table " +:+ name +:+ " already exists"), s)
        | None => (Ok tt, with_tables <[name := columns]> s)
        end
    | SeedRows into from =>
        if bool_decide (is_Some (sc_tables s !! into)) && bool_decide (is_Some (sc_tables s !! from)) then (Ok tt, s)
        else (Err ("no such table: " +:+ from), s)
    | RecordServerVersion v =>
        match sc_tables s !! "schema_migrations" with
        | None => (Err "no such table: schema_migrations", s)
        | Some _ => (Ok tt, record_version v s)
        end
    end.

Definition execute (d : ddl) : K unit := _ ← call; effect d.
Definition execute_batch (batch : list ddl) : K unit := for_each execute batch.

(** A transaction that is dropped before its commit is rolled back. *)
Definition in_transaction {E A} (m : M Schema E A) : M Schema E A :=
  fun s => match m s with
           | (Ok a, s') => (Ok a, s')
           | (Err e, s') => (Err e, with_faults (sc_faults s') s)
           end.

Definition backend {A} (what : string) (m : K A) : M Schema StorageError A :=
  map_err (fun e => SE_Backend (what +:+ ": " +:+ e)) m.

Definition migrate (name : string) (script : list ddl) : M Schema StorageError unit :=
  _ ← backend "failed to begin migration transaction" call;
  in_transaction (
    _ ← backend ("failed to execute migration " +:+ name) (execute_batch script);
    backend ("failed to commit migration " +:+ name) call).

(** [SELECT MAX(version)]: [NULL] on an empty table. *)
Definition max_version (s : Schema) : option Z :=
  match sc_versions s with [] => None | v :: l => Some (fold_left Z.max l v) end.
Definition select_version : K (option Z) :=
  fun s => match sc_tables s !! "_schema_migrations" with
           | Some _ => (Ok (max_version s), s)
           | None => (Err "no such table: _schema_migrations", s)
           end.
Definition read_version : K (option Z) := _ ← call; select_version.

Definition run_migrations : M Schema StorageError unit :=
  _ ← backend "failed to initialize migrations table" (execute_batch [MIGRATIONS_TABLE]);
  current_version ← backend "failed to query schema version" read_version;
  let version := default 0%Z current_version in
  _ ← (if (version <? 1)%Z then migrate "001" MIGRATION_001 else mret tt);
  _ ← (if (version <? 2)%Z then migrate "005" MIGRATION_005 else mret tt);
  if (version <? 3)%Z then migrate "006" MIGRATION_006 else mret tt.

(** Opening the database again and again, with what fails each time. *)
Definition attempt (s : Schema) (faults : list (option string)) : Schema := (run_migrations (with_faults faults s)).2.
Definition attempts (s : Schema) (runs : list (list (option string))) : Schema := fold_left attempt runs s.
End Migrations.

(** ** An interrupted migration is taken up again *)

Definition after (b : list ddl) (s : Schema) : Schema := (Migrations.execute_batch b s).2.

(** The schema after each step. *)
Definition stages : list Schema :=
  let s0 := Schema_new in
  let s1 := after [MIGRATIONS_TABLE] s0 in
  let s2 := after MIGRATION_001 s1 in
  let s3 := after MIGRATION_005 s2 in
  [s0; s1; s2; s3; after MIGRATION_006 s3].
Definition complete : Schema := after MIGRATION_006 (after MIGRATION_005 (after MIGRATION_001 (after [MIGRATIONS_TABLE] Schema_new))).

(** What the last step must have put in place for the operations of the cache. *)
Example complete_tables :
  sc_versions complete = [1; 2; 3]%Z /\ sc_sync_row complete = true
  /\ sc_tables complete !! "conflict_records"
     = Some ["conflict_id"; "object_id"; "object_kind"; "base_revision"; "remote_revision"; "base_envelope";
             "local_envelope"; "remote_envelope"; "candidate_envelope"; "resolved"; "created_at"; "resolved_at";
             "remote_is_deleted"; "local_is_deleted"].
Proof. by vm_compute. Qed.

Section proofs.
Import Migrations.

Lemma with_faults_eta s : with_faults (sc_faults s) s = s.
Proof. by destruct s. Qed.

Lemma wp_call Q s :
  (forall l, (sc_faults s = [] -> l = []) -> Q (Ok tt) (with_faults l s)) ->
  (forall e l, sc_faults s <> [] -> Q (Err e) (with_faults l s)) -> wp call Q s.
Proof.
  intros HQ HE. unfold wp, call. destruct (sc_faults s) as [|[e|] rest] eqn:Hf; cbn; [|by apply HE|by apply HQ].
  specialize (HQ [] (fun _ => eq_refl)). unfold with_faults in HQ. rewrite <- Hf in HQ. by destruct s.
Qed.

Lemma effect_faults d l s : effect d (with_faults l s) = ((effect d s).1, with_faults l (effect d s).2).
Proof.
  destruct d; cbn; unfold record_version; cbn;
    repeat match goal with
    | |- context [sc_tables s !! ?t] => destruct (sc_tables s !! t); cbn
    | |- context [bool_decide ?P] => destruct (bool_decide P); cbn
    | |- context [forallb ?f ?l] => destruct (forallb f l); cbn
    end; done.
Qed.

(** A script that runs through on a working database runs through, or fails. *)
Lemma wp_batch b s s1 l (Q : Result unit string -> Schema -> Prop) :
  execute_batch b (with_faults [] s) = (Ok tt, s1) ->
  (forall l', (l = [] -> l' = []) -> Q (Ok tt) (with_faults l' s1)) ->
  (forall e s', l <> [] -> Q (Err e) s') ->
  wp (execute_batch b) Q (with_faults l s).
Proof.
  revert s l. induction b as [|d b IH]; intros s l Hrun HQ HE.
  - injection Hrun as <-. cbn. unfold wp. cbn. by apply (HQ l).
  - cbn in Hrun |- *. apply wp_bind, wp_bind, wp_call; [|intros e l' Hl; by apply HE].
    intros l' Hl'. cbn in Hl'. change (with_faults l' (with_faults l s)) with (with_faults l' s).
    unfold wp. rewrite effect_faults. unfold execute, call, mbind, M_bind in Hrun. cbn in Hrun.
    rewrite effect_faults in Hrun. destruct (effect d s) as [[[]|e] s'] eqn:Hd; cbn in Hrun |- *; [|done].
    apply IH; [done| |intros; apply HE; auto]. intros l2 Hl2. apply HQ. auto.
Qed.

Lemma wp_in_transaction {E A} (m : M Schema E A) Q s :
  wp m (fun r s' => match r with Ok a => Q (Ok a) s' | Err e => Q (Err e) (with_faults (sc_faults s') s) end) s ->
  wp (in_transaction m) Q s.
Proof. unfold wp, in_transaction. by destruct (m s) as [[a|e] s']. Qed.

(** One migration: the next stage, or, after a failure, the same as before. *)
Lemma wp_migrate name script s s1 l Q :
  execute_batch script (with_faults [] s) = (Ok tt, s1) ->
  (forall l', (l = [] -> l' = []) -> Q (Ok tt) (with_faults l' s1)) ->
  (forall e l', l <> [] -> Q (Err e) (with_faults l' s)) ->
  wp (migrate name script) Q (with_faults l s).
Proof.
  intros Hrun HQ HE. unfold migrate. apply wp_bind, wp_map_err, wp_call; cbn; [|intros e l' Hl; by apply HE].
  intros l' Hl'. change (with_faults l' (with_faults l s)) with (with_faults l' s).
  apply wp_in_transaction, wp_bind, wp_map_err. apply (wp_batch _ _ s1); [done|intros l2 Hl2|]; cbn.
  - apply wp_map_err, wp_call; cbn; [intros l3 Hl3; apply HQ; auto|]. intros e l3 Hl3. apply HE. auto.
  - intros e s' Hl2. apply HE. auto.
Qed.

(** A single statement needs no transaction. *)
Lemma wp_single d s s1 l (Q : Result unit StorageError -> Schema -> Prop) what :
  execute_batch [d] (with_faults [] s) = (Ok tt, s1) ->
  (forall l', (l = [] -> l' = []) -> Q (Ok tt) (with_faults l' s1)) ->
  (forall e l', l <> [] -> Q (Err e) (with_faults l' s)) ->
  wp (backend what (execute_batch [d])) Q (with_faults l s).
Proof.
  intros Hrun HQ HE. apply wp_map_err, wp_bind, wp_bind, wp_call; cbn; [|intros e l' Hl; by apply HE].
  intros l' Hl'. change (with_faults l' (with_faults l s)) with (with_faults l' s).
  unfold wp. rewrite effect_faults. unfold execute_batch, for_each, execute, call, mbind, M_bind in Hrun. cbn in Hrun.
  rewrite effect_faults in Hrun. destruct (effect d s) as [[[]|e] s'] eqn:Hd; cbn in Hrun |- *; [|done].
  injection Hrun as <-. by apply HQ.
Qed.

Lemma wp_version s l v (Q : Result (option Z) StorageError -> Schema -> Prop) what :
  select_version s = (Ok v, s) ->
  (forall l', (l = [] -> l' = []) -> Q (Ok v) (with_faults l' s)) ->
  (forall e l', l <> [] -> Q (Err e) (with_faults l' s)) ->
  wp (backend what read_version) Q (with_faults l s).
Proof.
  intros Hv HQ HE. apply wp_map_err, wp_bind, wp_call; cbn; [|intros e l' Hl; by apply HE].
  intros l' Hl'. change (with_faults l' (with_faults l s)) with (with_faults l' s).
  unfold wp, select_version in *. cbn. destruct (sc_tables s !! "_schema_migrations"); [|done].
  cbn. injection Hv as Hv. unfold max_version in *. cbn. rewrite Hv. by apply HQ.
Qed.

(** A run leaves a stage that is not before the one it found; without a fault it
    completes. *)
Definition run_post (k : nat) (l : list (option string)) (r : Result unit StorageError) (s' : Schema) : Prop :=
  match r with
  | Ok _ => exists l', s' = with_faults l' complete
  | Err _ => l <> [] /\ exists k' st l', k <= k' /\ stages !! k' = Some st /\ s' = with_faults l' st
  end.

Lemma run_post_err k l e k' st l' : l <> [] -> k <= k' -> stages !! k' = Some st ->
  run_post k l (Err e) (with_faults l' st).
Proof. intros. split; [done|]. by exists k', st, l'. Qed.

Ltac next_stage := decide_it.

(** The three migrations from each stage on. *)
Lemma wp_006 k l l2 : k <= 3 -> (l = [] -> l2 = []) ->
  wp (migrate "006" MIGRATION_006) (run_post k l) (with_faults l2 (default Schema_new (stages !! 3))).
Proof.
  intros Hk Hl. apply (wp_migrate _ _ _ complete); [next_stage|intros l' _; by exists l'|].
  intros e l' Hne. apply (run_post_err _ _ _ 3); [auto|done|next_stage].
Qed.

Lemma wp_005 k l l2 : k <= 2 -> (l = [] -> l2 = []) ->
  wp (_ ← migrate "005" MIGRATION_005; migrate "006" MIGRATION_006) (run_post k l)
    (with_faults l2 (default Schema_new (stages !! 2))).
Proof.
  intros Hk Hl. apply wp_bind, (wp_migrate _ _ _ (default Schema_new (stages !! 3))); [next_stage|intros l' Hl'|].
  - apply wp_006; [lia|auto].
  - intros e l' Hne. apply (run_post_err _ _ _ 2); [auto|done|next_stage].
Qed.

Lemma wp_001 k l l2 : k <= 1 -> (l = [] -> l2 = []) ->
  wp (_ ← migrate "001" MIGRATION_001; _ ← migrate "005" MIGRATION_005; migrate "006" MIGRATION_006) (run_post k l)
    (with_faults l2 (default Schema_new (stages !! 1))).
Proof.
  intros Hk Hl. apply wp_bind, (wp_migrate _ _ _ (default Schema_new (stages !! 2))); [next_stage|intros l' Hl'|].
  - apply wp_005; [lia|auto].
  - intros e l' Hne. apply (run_post_err _ _ _ 1); [auto|done|next_stage].
Qed.

Abbreviation stage k := (default Schema_new (stages !! k)).

Lemma stage_lookup k st : stages !! k = Some st -> k <= 4 /\ st = stage k.
Proof. intros Hk. split; [|by rewrite Hk]. apply lookup_lt_Some in Hk. cbn in Hk. lia. Qed.

Lemma wp_run_migrations k l : k <= 4 -> wp run_migrations (run_post k l) (with_faults l (stage k)).
Proof.
  intros Hk. unfold run_migrations. apply wp_bind.
  apply (wp_single _ _ (if decide (k = 0) then stage 1 else stage k)).
  { do 5 (destruct k as [|k]; [next_stage|]). lia. }
  2: { intros e l' Hne. apply (run_post_err _ _ _ k); [done|done|]. do 5 (destruct k as [|k]; [next_stage|]). lia. }
  intros l1 Hl1. cbn beta iota. apply wp_bind.
  apply (wp_version _ _ (max_version (stage k))).
  { do 5 (destruct k as [|k]; [next_stage|]). lia. }
  2: { intros e l' Hne. apply (run_post_err _ _ _ (Nat.max k 1)); [auto|lia|].
       do 5 (destruct k as [|k]; [next_stage|]). lia. }
  intros l2 Hl2. cbn beta iota.
  destruct k as [|[|[|[|[|k]]]]]; [..|lia].
  - apply wp_001; [lia|auto].
  - apply wp_001; [lia|auto].
  - apply wp_bind, wp_ret, wp_005; [lia|auto].
  - apply wp_bind, wp_ret, wp_bind, wp_ret, wp_006; [lia|auto].
  - apply wp_bind, wp_ret, wp_bind, wp_ret, wp_ret. by exists l2.
Qed.

Lemma attempts_stage runs k l : k <= 4 ->
  exists k' l', k <= k' <= 4 /\ attempts (with_faults l (stage k)) runs = with_faults l' (stage k').
Proof.
  revert k l. induction runs as [|faults runs IH]; intros k l Hk; [by exists k, l|].
  assert (exists k' l', k <= k' <= 4 /\ attempt (with_faults l (stage k)) faults = with_faults l' (stage k'))
    as (k1 & l1 & Hk1 & Heq).
  { pose proof (wp_run_migrations k faults Hk) as Hrun. unfold wp in Hrun. unfold attempt.
    change (with_faults faults (with_faults l (stage k))) with (with_faults faults (stage k)).
    destruct (run_migrations _) as [[[]|e] s']; cbn in Hrun |- *.
    - destruct Hrun as [l' ->]. exists 4, l'. by split.
    - destruct Hrun as (_ & k' & st & l' & Hle & [Hk' ->]%stage_lookup & ->). by exists k', l'. }
  unfold attempts in IH |- *. cbn [fold_left]. rewrite Heq. destruct (IH k1 l1) as (k2 & l2 & Hk2 & ->); [lia|].
  exists k2, l2. split; [lia|done].
Qed.

(** An interrupted migration is taken up again.  However often opening a new
    database failed, and at whatever statement, the next opening without a fault
    succeeds and the schema is complete, as if it had never been interrupted;
    opening a complete database changes nothing. *)
Lemma migrations_resume runs :
  let s := attempts Schema_new runs in
  run_migrations (with_faults [] s) = (Ok tt, complete)
  /\ forall faults, with_faults [] (attempt complete faults) = complete.
Proof.
  split.
  - destruct (attempts_stage runs 0 []) as (k & l & Hk & Heq); [lia|].
    change (attempts (with_faults [] (stage 0)) runs) with (attempts Schema_new runs) in Heq. rewrite Heq.
    change (with_faults [] (with_faults l ?st)) with (with_faults [] st).
    destruct k as [|[|[|[|[|k]]]]]; [next_stage..|lia].
  - intros faults. destruct (attempts_stage [faults] 4 []) as (k & l & Hk & Heq); [lia|].
    assert (k = 4) as -> by lia. change (attempts (with_faults [] (stage 4)) [faults]) with (attempt complete faults) in Heq.
    by rewrite Heq.
Qed.
End proofs.
