(* ===== verification/CoreErrors.v ===== *)
(** * Error taxonomy of the core and crypto crates
      ([crates/zk-core/src/error.rs], [crates/zk-crypto/src/error.rs])

    The error enums with their [Display] texts, which later components embed
    in their own messages. *)

From stdpp Require Import options.
From S2P Require Import Prelude.

(** ** zk-crypto *)

Inductive CryptoError : Type :=
| InvalidKeyLength (expected actual : nat)
| RngFailure (msg : string)
| InvalidEncoding (msg : string)
| UnsupportedAlgorithm (alg : string)
| KdfFailure (msg : string)
| DecryptionFailed
| AeadFailure (msg : string)
| InvalidChecksum
| UnsupportedVersion (v : N).

#[export] Instance CryptoError_eq_dec : EqDecision CryptoError.
Proof. solve_decision. Defined.

Definition CryptoError_display (e : CryptoError) : string :=
  match e with
  | InvalidKeyLength expected actual =>
      "invalid key length: expected " +:+ show_nat expected +:+ " bytes, got "
        +:+ show_nat actual +:+ " bytes"
  | RngFailure msg => "cryptographic RNG failure: " +:+ msg
  | InvalidEncoding msg => "invalid encoding: " +:+ msg
  | UnsupportedAlgorithm alg => "unsupported cryptographic algorithm: " +:+ alg
  | KdfFailure msg => "key derivation failed: " +:+ msg
  | DecryptionFailed => "cryptographic authentication or decryption failed"
  | AeadFailure msg => "AEAD operation failed: " +:+ msg
  | InvalidChecksum => "checksum verification failed (typo detected)"
  | UnsupportedVersion v => "unsupported cryptographic envelope version: " +:+ show_N v
  end.

(** ** zk-core *)

Inductive NoteValidationError : Type :=
| UnsupportedSchemaVersion (v : N)
| TitleTooLong (max actual : N)
| BodyTooLarge (max actual : N)
| TooManyTags (max actual : N)
| EmptyTag
| TagTooLong (max actual : N)
| InvalidTag (tag : string)
| TooManyAttachments (max actual : N)
| EmptyAttachmentId
| AttachmentIdTooLong (max actual : N)
| InvalidAttachmentId (id : string)
| InvalidTimestamp (field value details : string)
| SerializationError (msg : string).

#[export] Instance NoteValidationError_eq_dec : EqDecision NoteValidationError.
Proof. solve_decision. Defined.

Definition exceeds (what : string) (actual max : N) (tail : string) : string :=
  what +:+ " (" +:+ show_N actual +:+ " > " +:+ show_N max +:+ tail.

Definition NoteValidationError_display (debug : string -> string) (e : NoteValidationError)
    : string :=
  match e with
  | UnsupportedSchemaVersion v =>
      "unsupported note schema version: " +:+ show_N v +:+ " (expected 1)"
  | TitleTooLong max actual => exceeds "note title exceeds maximum length" actual max " bytes)"
  | BodyTooLarge max actual => exceeds "note body exceeds maximum size" actual max " bytes)"
  | TooManyTags max actual => exceeds "note contains too many tags" actual max ")"
  | EmptyTag => "tag cannot be empty"
  | TagTooLong max actual => exceeds "tag exceeds maximum length" actual max " bytes)"
  | InvalidTag tag => "tag contains invalid characters: " +:+ tag
  | TooManyAttachments max actual => exceeds "note contains too many attachments" actual max ")"
  | EmptyAttachmentId => "attachment ID cannot be empty"
  | AttachmentIdTooLong max actual =>
      exceeds "attachment ID exceeds maximum length" actual max " bytes)"
  | InvalidAttachmentId id => "attachment ID contains invalid characters: " +:+ id
  | InvalidTimestamp field value details =>
      "invalid RFC 3339 timestamp for '" +:+ field +:+ "' (" +:+ debug value +:+ "): " +:+ details
  | SerializationError msg => "note serialization error: " +:+ msg
  end.

Inductive AttachmentError : Type :=
| FileTooLarge (max actual : N)
| ChunkOutOfOrder (expected actual : N)
| ChunkCountMismatch (expected actual : N)
| SizeMismatch (expected actual : N)
| HashMismatch (expected actual : string)
| AttachmentIdMismatch (expected actual : string)
| Io (msg : string).

#[export] Instance AttachmentError_eq_dec : EqDecision AttachmentError.
Proof. solve_decision. Defined.

Definition AttachmentError_display (e : AttachmentError) : string :=
  match e with
  | FileTooLarge max actual => exceeds "attachment exceeds maximum size" actual max " bytes)"
  | ChunkOutOfOrder expected actual =>
      "attachment chunk out of order (expected chunk " +:+ show_N expected +:+ ", got "
        +:+ show_N actual +:+ ")"
  | ChunkCountMismatch expected actual =>
      "attachment chunk count mismatch (expected " +:+ show_N expected +:+ " chunks, got "
        +:+ show_N actual +:+ ")"
  | SizeMismatch expected actual =>
      "attachment size mismatch (expected " +:+ show_N expected +:+ " bytes, decrypted "
        +:+ show_N actual +:+ " bytes)"
  | HashMismatch expected actual =>
      "attachment content hash mismatch (expected " +:+ expected +:+ ", computed "
        +:+ actual +:+ ")"
  | AttachmentIdMismatch expected actual =>
      "attachment ID mismatch (expected " +:+ expected +:+ ", got " +:+ actual +:+ ")"
  | Io msg => "attachment I/O failure: " +:+ msg
  end.

Inductive CoreError : Type :=
| CE_Validation (e : NoteValidationError)
| CE_Crypto (e : CryptoError)
| CE_Attachment (e : AttachmentError)
| CE_VaultLocked
| CE_VaultUninitialized
| CE_InvalidRecoveryKey (msg : string).

#[export] Instance CoreError_eq_dec : EqDecision CoreError.
Proof. solve_decision. Defined.

(** [debug] is [impl Debug for str], which the timestamp message uses. *)
Definition CoreError_display (debug : string -> string) (e : CoreError) : string :=
  match e with
  | CE_Validation e => "note validation error: " +:+ NoteValidationError_display debug e
  | CE_Crypto e => "crypto error: " +:+ CryptoError_display e
  | CE_Attachment e => "attachment error: " +:+ AttachmentError_display e
  | CE_VaultLocked => "vault is locked (unlock required)"
  | CE_VaultUninitialized => "vault is uninitialized (init required)"
  | CE_InvalidRecoveryKey msg => "invalid recovery key: " +:+ msg
  end.
