(* ===== verification/Time.v ===== *)
(** * RFC 3339 timestamps ([crates/zk-core/src/time.rs])

    The calendar conversion, the formatter behind [now_utc_rfc3339] and the
    validator.  Theorems: the conversion is the proleptic Gregorian calendar
    (it inverts day counting and yields a valid date), formatted timestamps
    pass validation, and they compare as byte strings in chronological
    order, which is what last-write-wins relies on. *)

From stdpp Require Import options.
From S2P Require Import Prelude CoreErrors.

Local Open Scope Z_scope.

(** ** Calendar *)

Definition is_leap_year (year : Z) : bool :=
  ((Z.rem year 4 =? 0) && negb (Z.rem year 100 =? 0)) || (Z.rem year 400 =? 0).

Definition days_in_month (year month : Z) : Z :=
  match month with
  | 1 | 3 | 5 | 7 | 8 | 10 | 12 => 31
  | 4 | 6 | 9 | 11 => 30
  | 2 => if is_leap_year year then 29 else 28
  | _ => 0
  end.

(** Hinnant's conversion.  Division of [i64] truncates ([Z.quot]); from [doe]
    on the values are [u32], non-negative and small ([days_to_ymd_ranges]). *)
Definition days_to_ymd (days : Z) : Z * Z * Z :=
  let z := days + 719468 in
  let era := Z.quot (if 0 <=? z then z else z - 146096) 146097 in
  let doe := z - era * 146097 in
  let yoe := (doe - doe / 1460 + doe / 36524 - doe / 146096) / 365 in
  let y := yoe + era * 400 in
  let doy := doe - (365 * yoe + yoe / 4 - yoe / 100) in
  let mp := (5 * doy + 2) / 153 in
  let d := doy - (153 * mp + 2) / 5 + 1 in
  let m := if mp <? 10 then mp + 3 else mp - 9 in
  let y := if m <=? 2 then y + 1 else y in
  (y, m, d).

(** ** Formatting *)

(** [{n:0w}] for a non-negative [n]. *)
Fixpoint zeros (n : nat) : string :=
  match n with O => "" | S n' => String "0"%char (zeros n') end.
Definition fmt_pad (w : nat) (n : Z) : string :=
  let s := pretty (Z.to_N n) in zeros (w - String.length s) +:+ s.

Definition format_rfc3339_parts (total_secs millis : Z) : string :=
  let days := total_secs / 86400 in
  let day_secs := total_secs mod 86400 in
  let '(year, month, day) := days_to_ymd days in
  let hour := day_secs / 3600 in
  let min := (day_secs mod 3600) / 60 in
  let sec := day_secs mod 60 in
  fmt_pad 4 year +:+ "-" +:+ fmt_pad 2 month +:+ "-" +:+ fmt_pad 2 day +:+ "T"
    +:+ fmt_pad 2 hour +:+ ":" +:+ fmt_pad 2 min +:+ ":" +:+ fmt_pad 2 sec
    +:+ "." +:+ fmt_pad 3 millis +:+ "Z".

(** [SystemTime::now()] since the epoch is an input: seconds and
    milliseconds, zero when the clock is before the epoch. *)
Definition now_utc_rfc3339 (clock : Z * Z) : string :=
  format_rfc3339_parts clock.1 clock.2.

(** ** Validation *)

(** [s.find(p)] and [s.rfind(p)] for an ASCII character class, and the two
    sides of the cut. *)
Fixpoint find_char (p : ascii -> bool) (s : string) : option (string * string) :=
  match s with
  | EmptyString => None
  | String c s' =>
      if p c then Some ("", s')
      else match find_char p s' with
           | Some (before, after) => Some (String c before, after)
           | None => None
           end
  end.

(** The tail keeps the matched character, as [&s[idx..]]. *)
Fixpoint rfind_char (p : ascii -> bool) (s : string) : option (string * string) :=
  match s with
  | EmptyString => None
  | String c s' =>
      match rfind_char p s' with
      | Some (before, after) => Some (String c before, after)
      | None => if p c then Some ("", String c s') else None
      end
  end.

(** [s.split(c)]: always at least one piece. *)
Fixpoint str_split (c : ascii) (s : string) : list string :=
  match s with
  | EmptyString => [""]
  | String a s' =>
      if bool_decide (a = c) then "" :: str_split c s'
      else match str_split c s' with
           | piece :: rest => String a piece :: rest
           | [] => [String a ""]
           end
  end.

(** [s.ends_with(['Z', 'z'])] and the string without its last character. *)
Fixpoint strip_zulu (s : string) : option string :=
  match s with
  | EmptyString => None
  | String c EmptyString =>
      if bool_decide (c = "Z"%char) || bool_decide (c = "z"%char) then Some "" else None
  | String c s' => match strip_zulu s' with Some r => Some (String c r) | None => None end
  end.

Definition digit_val (c : ascii) : Z := Z.of_N (N_of_ascii c) - 48.

(** [parse] of a string of ASCII digits (the only strings it is applied to). *)
Fixpoint parse_acc (acc : Z) (s : string) : Z :=
  match s with
  | EmptyString => acc
  | String c s' => parse_acc (10 * acc + digit_val c) s'
  end.
Definition parse_digits (s : string) : Z := parse_acc 0 s.

Definition all_digits (s : string) : bool := str_forallb is_ascii_digit s.
Definition n_digits (n : nat) (s : string) : bool :=
  bool_decide (String.length s = n) && all_digits s.

Definition is_T (c : ascii) : bool := bool_decide (c = "T"%char) || bool_decide (c = "t"%char).
Definition is_sign (c : ascii) : bool := bool_decide (c = "+"%char) || bool_decide (c = "-"%char).
Definition is_dot (c : ascii) : bool := bool_decide (c = "."%char).

Section validate.
Context (field s : string).

Definition ts_err {A} (msg : string) : Result A NoteValidationError :=
  Err (InvalidTimestamp field s msg).

(** [YYYY-MM-DD] *)
Definition validate_date (date_str : string) : Result unit NoteValidationError :=
  match str_split "-" date_str with
  | [ys; ms; ds] =>
      if negb (n_digits 4 ys) then ts_err "year must be 4 digits"
      else let year := parse_digits ys in
      if year <? 1 then ts_err "year must be positive"
      else if negb (n_digits 2 ms) then ts_err "month must be 2 digits"
      else let month := parse_digits ms in
      if negb ((1 <=? month) && (month <=? 12)) then ts_err "month must be between 01 and 12"
      else if negb (n_digits 2 ds) then ts_err "day must be 2 digits"
      else let day := parse_digits ds in
      let max_days := days_in_month year month in
      if (day <? 1) || (max_days <? day) then
        ts_err ("day " +:+ pretty day +:+ " invalid for month " +:+ pretty month
                  +:+ " in year " +:+ pretty year +:+ " (max " +:+ pretty max_days +:+ ")")
      else Ok tt
  | _ => ts_err "date must follow YYYY-MM-DD format"
  end.

(** [(+|-)HH:MM] *)
Definition validate_offset (offset_str : string) : Result unit NoteValidationError :=
  if negb (bool_decide (String.length offset_str = 6%nat)) then
    ts_err "timezone offset must follow (+|-)HH:MM format"
  else if negb (bool_decide (String.get 3 offset_str = Some ":"%char)) then
    ts_err "timezone offset must contain ':' separator"
  else
    let off_h_str := String.substring 1 2 offset_str in
    let off_m_str := String.substring 4 2 offset_str in
    if negb (all_digits off_h_str) || negb (all_digits off_m_str) then
      ts_err "timezone offset hours and minutes must be digits"
    else if (23 <? parse_digits off_h_str) || (59 <? parse_digits off_m_str) then
      ts_err "timezone offset out of range (max 23:59)"
    else Ok tt.

(** [HH:MM:SS[.frac]] *)
Definition validate_time (time_str : string) : Result unit NoteValidationError :=
  let '(hms_str, frac_str) :=
    match find_char is_dot time_str with
    | Some (hms, frac) => (hms, Some frac)
    | None => (time_str, None)
    end in
  match str_split ":" hms_str with
  | [hs; mins; ss] =>
      if negb (n_digits 2 hs) then ts_err "hour must be 2 digits"
      else if negb (n_digits 2 mins) then ts_err "minute must be 2 digits"
      else if negb (n_digits 2 ss) then ts_err "second must be 2 digits"
      else if 23 <? parse_digits hs then ts_err "hour must be between 00 and 23"
      else if 59 <? parse_digits mins then ts_err "minute must be between 00 and 59"
      else if 60 <? parse_digits ss then ts_err "second must be between 00 and 60"
      else match frac_str with
           | Some frac =>
               if bool_decide (frac = "") || negb (all_digits frac) then
                 ts_err "fractional seconds must consist of digits"
               else Ok tt
           | None => Ok tt
           end
  | _ => ts_err "time must follow HH:MM:SS format"
  end.

Definition validate_rfc3339 : Result unit NoteValidationError :=
  if (String.length s <? 20)%nat then ts_err "timestamp string too short"
  else match find_char is_T s with
  | None => ts_err "missing 'T' separator between date and time"
  | Some (date_str, time_zone_str) =>
      _ ← validate_date date_str;
      match strip_zulu time_zone_str with
      | Some time_str => validate_time time_str
      | None =>
          match rfind_char is_sign time_zone_str with
          | None => ts_err "missing timezone specifier ('Z' or offset)"
          | Some (time_str, offset_str) =>
              _ ← validate_offset offset_str;
              validate_time time_str
          end
      end
  end.
End validate.

Example format_epoch : format_rfc3339_parts 0 7 = "1970-01-01T00:00:00.007Z".
Proof. reflexivity. Qed.
Example format_leap_day : format_rfc3339_parts 1709164800 0 = "2024-02-29T00:00:00.000Z".
Proof. reflexivity. Qed.
Example validate_offset_ok :
  validate_rfc3339 "created_at" "2024-02-29T23:59:60.5+05:30" = Ok tt.
Proof. reflexivity. Qed.
Example validate_bad_day :
  validate_rfc3339 "created_at" "2023-02-29T00:00:00Z"
  = Err (InvalidTimestamp "created_at" "2023-02-29T00:00:00Z"
           "day 29 invalid for month 2 in year 2023 (max 28)").
Proof. reflexivity. Qed.

(** ** Calendar and timestamp theorems ([crates/zk-core/src/time.rs])

    About the definitions of [Time]: Hinnant's conversion is the bijection
    between day numbers and proleptic Gregorian dates; the text that
    [format_rfc3339_parts] prints passes [validate_rfc3339]; and printed
    timestamps compare as byte strings exactly as the instants compare, the
    fact last-write-wins resolution rests on.  Formatting is bounded to
    years 1970 to 9999, where the year has four digits. *)

Local Open Scope Z_scope.

(** ** Counting days

    The reference definition: days of whole years, of whole months, and of
    the month, relative to 1970-01-01. *)

Fixpoint days_before_month (year : Z) (months : nat) : Z :=
  match months with
  | O => 0
  | S k => days_before_month year k + days_in_month year (Z.of_nat (S k))
  end.
Definition leaps (y : Z) : Z := y / 4 - y / 100 + y / 400.
Definition ymd_to_days (y m d : Z) : Z :=
  365 * (y - 1) + leaps (y - 1)
  + days_before_month y (Z.to_nat (m - 1)) + (d - 1) - 719162.

Lemma rem_zero_mod a n : 0 < n -> (Z.rem a n =? 0) = (a mod n =? 0).
Proof.
  intros Hn. apply eq_true_iff_eq. rewrite !Z.eqb_eq.
  by rewrite Z.rem_divide, Z.mod_divide by lia.
Qed.

Lemma is_leap_year_mod y :
  is_leap_year y = ((y mod 4 =? 0) && negb (y mod 100 =? 0)) || (y mod 400 =? 0).
Proof. unfold is_leap_year. by rewrite !rem_zero_mod by lia. Qed.

Definition leap (y : Z) : Z := if is_leap_year y then 1 else 0.

Lemma days_in_month_feb y : days_in_month y 2 = 28 + leap y.
Proof. cbn. unfold leap. by destruct (is_leap_year y). Qed.

Lemma leaps_era yoe era :
  0 <= yoe <= 399 -> leaps (yoe + era * 400) = era * 97 + yoe / 4 - yoe / 100.
Proof. unfold leaps. intros. Z.div_mod_to_equations; lia. Qed.

Lemma leap_spec y : leap y = leaps y - leaps (y - 1).
Proof.
  unfold leap, leaps. rewrite is_leap_year_mod.
  destruct (Z.eqb_spec (y mod 4) 0), (Z.eqb_spec (y mod 100) 0), (Z.eqb_spec (y mod 400) 0);
  cbn; Z.div_mod_to_equations; lia.
Qed.

Lemma era_floor z : Z.quot (if 0 <=? z then z else z - 146096) 146097 = z / 146097.
Proof.
  destruct (Z.leb_spec 0 z).
  - apply Z.quot_div_nonneg; lia.
  - rewrite <-(Z.opp_involutive (z - 146096)), Z.quot_opp_l by lia.
    rewrite Z.quot_div_nonneg by lia. Z.div_mod_to_equations. lia.
Qed.

Lemma days_to_ymd_era days :
  let z := days + 719468 in
  let era := z / 146097 in
  exists yoe doy, 
    0 <= yoe <= 399 /\ 0 <= doy <= 364 + leap (yoe + era * 400 + 1) /\
    z = era * 146097 + 365 * yoe + yoe / 4 - yoe / 100 + doy /\
    days_to_ymd days =
      (let mp := (5 * doy + 2) / 153 in
       let d := doy - (153 * mp + 2) / 5 + 1 in
       let m := if mp <? 10 then mp + 3 else mp - 9 in
       (if m <=? 2 then yoe + era * 400 + 1 else yoe + era * 400, m, d)).
Proof.
  intros z era. unfold days_to_ymd. fold z. rewrite era_floor. fold era.
  set (doe := z - era * 146097).
  assert (0 <= doe <= 146096) as Hdoe by (subst doe era; Z.div_mod_to_equations; lia).
  set (yoe := (doe - doe / 1460 + doe / 36524 - doe / 146096) / 365).
  set (doy := doe - (365 * yoe + yoe / 4 - yoe / 100)).
  exists yoe, doy. split_and!; [..|reflexivity].
  1-3,5: subst doy yoe; Z.div_mod_to_equations; lia.
  rewrite leap_spec. unfold leaps. subst doy yoe. Z.div_mod_to_equations; lia.
Qed.


Ltac is_pos_literal p :=
  lazymatch p with xH => idtac | xO ?q => is_pos_literal q | xI ?q => is_pos_literal q end.
Ltac is_literal t :=
  lazymatch t with Z0 => idtac | Zpos ?p => is_pos_literal p | Zneg ?p => is_pos_literal p end.
Ltac eval_ground e := let v := eval vm_compute in e in change e with v.
Ltac eval_closed :=
  repeat match goal with
  | |- context [?a <=? ?b] => is_literal a; is_literal b; eval_ground (a <=? b)
  | |- context [?a + ?b] => is_literal a; is_literal b; eval_ground (a + b)
  | |- context [?a - ?b] => is_literal a; is_literal b; eval_ground (a - b)
  | |- context [?a / ?b] => is_literal a; is_literal b; eval_ground (a / b)
  | |- context [?a * ?b] => is_literal a; is_literal b; eval_ground (a * b)
  | |- context [Z.ltb ?a ?b] => is_literal a; is_literal b; eval_ground (a <? b)
  | |- context [Z.to_nat ?a] => is_literal a; eval_ground (Z.to_nat a)
  end; cbv iota.

Lemma days_before_month_S y k :
  days_before_month y (S k) = days_before_month y k + days_in_month y (Z.of_nat (S k)).
Proof. done. Qed.

Lemma days_before_month_table y :
  (days_before_month y <$> seq 0 12) =
  [0; 31; 59 + leap y; 90 + leap y; 120 + leap y; 151 + leap y; 181 + leap y; 212 + leap y;
   243 + leap y; 273 + leap y; 304 + leap y; 334 + leap y].
Proof.
  unfold fmap, list_fmap. cbn [seq list_fmap days_before_month].
  change (days_in_month y (Z.of_nat 2)) with (days_in_month y 2). rewrite days_in_month_feb.
  cbv [Z.of_nat Pos.of_succ_nat Pos.succ days_in_month].
  repeat (apply (f_equal2 cons); [lia|]). done.
Qed.

Lemma days_before_month_nth y k v :
  (days_before_month y <$> seq 0 12) !! k = Some v -> days_before_month y k = v.
Proof.
  rewrite list_lookup_fmap. destruct (seq 0 12 !! k) eqn:Hk; [|done].
  apply lookup_seq in Hk as [-> _]. by intros [= <-].
Qed.


Lemma month_split doy :
  0 <= doy <= 365 ->
  let mp := (5 * doy + 2) / 153 in
  0 <= mp <= 11 /\ (153 * mp + 2) / 5 <= doy < (153 * (mp + 1) + 2) / 5.
Proof. cbv zeta. intros. Z.div_mod_to_equations; lia. Qed.

Lemma days_to_ymd_inverts days :
  let '(y, m, d) := days_to_ymd days in
  1 <= m <= 12 /\ 1 <= d <= days_in_month y m /\ ymd_to_days y m d = days.
Proof.
  destruct (days_to_ymd_era days) as (yoe & doy & Hyoe & Hdoy & Hz & ->).
  set (era := (days + 719468) / 146097) in *. clearbody era.
  pose proof (leaps_era yoe era Hyoe) as HL.
  remember (yoe + era * 400) as y eqn:Hy.
  pose proof (leap_spec y) as Hl. 
  assert (0 <= leap (y+1) <= 1) by (unfold leap; case_match; lia).
  assert (0 <= doy <= 365) as Hr by lia.
  apply month_split in Hr. cbv zeta in Hr |- *.
  set (mp := (5 * doy + 2) / 153) in *. clearbody mp. destruct Hr as [Hr Hd].
  set (q4 := yoe / 4) in *. set (q100 := yoe / 100) in *. clearbody q4 q100.
  assert (mp = 0 \/ mp = 1 \/ mp = 2 \/ mp = 3 \/ mp = 4 \/ mp = 5 \/ mp = 6 \/ mp = 7 \/ mp = 8
    \/ mp = 9 \/ mp = 10 \/ mp = 11) as Hcases by lia.
  unfold ymd_to_days. replace (y + 1 - 1) with y by lia.
  revert Hd.
  destruct_or! Hcases; subst mp; repeat (progress eval_closed); intros Hd;
    (erewrite days_before_month_nth; [|rewrite days_before_month_table; reflexivity]);
    try rewrite days_in_month_feb; cbv [days_in_month];
    replace (y + 1 - 1) with y by lia; split_and!; lia.
Qed.

Definition dig (n : Z) : ascii := pretty_N_char (Z.to_N n).
Fixpoint digs (w : nat) (n : Z) : string :=
  match w with
  | O => ""
  | S w' => digs w' (n / 10) +:+ String (dig (n mod 10)) ""
  end.

Lemma pretty_N_go_app x s : pretty_N_go x s = pretty_N_go x "" +:+ s.
Proof.
  revert s. induction (N.lt_wf_0 x) as [x _ IH]; intros s.
  destruct (decide (x = 0%N)) as [->|Hx]; [done|].
  assert (0 < x)%N as Hp by lia. assert (x `div` 10 < x)%N as Hlt by (by apply N.div_lt).
  rewrite (pretty_N_go_step x s), (pretty_N_go_step x "") by done.
  rewrite (IH _ Hlt (String _ s)), (IH _ Hlt (String _ "")).
  by rewrite str_app_assoc.
Qed.

(** A property of the ten digits, checked by computation. *)
Lemma ten_digits (P : Z -> Prop) : Forall P (seqZ 0 10) -> forall n, 0 <= n < 10 -> P n.
Proof. rewrite Forall_forall. intros HP n Hn. apply HP, elem_of_seqZ. lia. Qed.

Lemma pretty_small n : 0 <= n < 10 -> pretty (Z.to_N n) = String (dig n) "".
Proof. revert n. apply (ten_digits (fun n => pretty (Z.to_N n) = String (dig n) "")). by repeat constructor. Qed.
Lemma pretty_step n : 10 <= n ->
  pretty (Z.to_N n) = pretty (Z.to_N (n / 10)) +:+ String (dig (n mod 10)) "".
Proof.
  intros H. unfold pretty, pretty_N.
  rewrite !decide_False by (Z.div_mod_to_equations; lia).
  rewrite pretty_N_go_step by lia. rewrite pretty_N_go_app. unfold dig.
  by rewrite Z2N.inj_div, Z2N.inj_mod by lia.
Qed.

Lemma zeros_snoc n s : zeros n +:+ String "0" s = String "0" (zeros n +:+ s).
Proof. induction n as [|n IH]; [done|]. cbn [zeros]. rewrite !str_app_cons. by rewrite IH. Qed.

Lemma digs_small w n : 0 <= n < 10 -> digs (S w) n = zeros w +:+ String (dig n) "".
Proof.
  revert n. induction w as [|w IH]; intros n H.
  - cbn. by rewrite Z.mod_small.
  - cbn [digs] in *. rewrite (Z.div_small n) by lia. rewrite IH by lia.
    rewrite (Z.mod_small n) by lia. rewrite str_app_assoc, str_app_cons, str_app_nil_l.
    apply (zeros_snoc w (String (dig n) "")).
Qed.

Lemma str_length_pretty w n : 0 <= n < 10 ^ Z.of_nat (S w) -> (String.length (pretty (Z.to_N n)) <= S w)%nat.
Proof.
  revert n. induction w as [|w IH]; intros n H.
  - rewrite pretty_small by lia. done.
  - destruct (decide (n < 10)) as [Hs|Hs]; [rewrite pretty_small by lia; cbn; lia|].
    rewrite pretty_step, str_length_app by lia. cbn [String.length].
    specialize (IH (n / 10)). rewrite (Nat2Z.inj_succ (S w)), Z.pow_succ_r in H by lia.
    ospecialize (IH _); [|lia]. split; [Z.div_mod_to_equations; lia|].
    apply Z.div_lt_upper_bound; lia.
Qed.

Lemma fmt_pad_digs w n : 0 <= n < 10 ^ Z.of_nat (S w) -> fmt_pad (S w) n = digs (S w) n.
Proof.
  revert n. induction w as [|w IH]; intros n H.
  - unfold fmt_pad. rewrite pretty_small by lia. cbn. by rewrite Z.mod_small by lia.
  - destruct (decide (n < 10)) as [Hs|Hs].
    { unfold fmt_pad. rewrite pretty_small, digs_small by lia. cbn [String.length]. done. }
    assert (0 <= n / 10 < 10 ^ Z.of_nat (S w)) as Hd.
    { rewrite (Nat2Z.inj_succ (S w)), Z.pow_succ_r in H by lia.
      split; [Z.div_mod_to_equations; lia|]. apply Z.div_lt_upper_bound; lia. }
    change (digs (S (S w)) n) with (digs (S w) (n / 10) +:+ String (dig (n mod 10)) "").
    rewrite <-IH by done. unfold fmt_pad. rewrite pretty_step, str_length_app by lia.
    rewrite <-str_app_assoc. cbn [String.length].
    by replace (S (S w) - (String.length (pretty (Z.to_N (n / 10))) + 1))%nat
      with (S w - String.length (pretty (Z.to_N (n / 10))))%nat by lia.
Qed.

Lemma length_digs w n : String.length (digs w n) = w.
Proof. revert n. induction w as [|w IH]; intros n; [done|]. cbn. rewrite str_length_app, IH. cbn. lia. Qed.

Lemma dig_cases (P : Z -> Prop) : Forall P (seqZ 0 10) -> forall n, P (n mod 10).
Proof. intros HP n. apply ten_digits; [done|]. apply Z.mod_pos_bound. lia. Qed.

Lemma dig_digit n : is_ascii_digit (dig (n mod 10)) = true.
Proof. apply (dig_cases (fun d => is_ascii_digit (dig d) = true)). by repeat constructor. Qed.
Lemma dig_val n : digit_val (dig (n mod 10)) = n mod 10.
Proof. apply (dig_cases (fun d => digit_val (dig d) = d)). by repeat constructor. Qed.

Lemma all_digits_digs w n : all_digits (digs w n) = true.
Proof.
  unfold all_digits. revert n. induction w as [|w IH]; intros n; [done|]. cbn.
  rewrite str_forallb_app, IH. cbn. by rewrite dig_digit.
Qed.

Lemma parse_acc_app acc a b : parse_acc acc (a +:+ b) = parse_acc (parse_acc acc a) b.
Proof. revert acc. induction a as [|c a IH]; intros acc; [done|]. rewrite str_app_cons. apply IH. Qed.

Lemma parse_digs w n : 0 <= n < 10 ^ Z.of_nat w -> parse_digits (digs w n) = n.
Proof.
  unfold parse_digits. revert n. induction w as [|w IH]; intros n H; [cbn in *; lia|].
  cbn [digs]. rewrite parse_acc_app. cbn [parse_acc]. rewrite IH, dig_val.
  - Z.div_mod_to_equations; lia.
  - rewrite Nat2Z.inj_succ, Z.pow_succ_r in H by lia.
    split; [Z.div_mod_to_equations; lia|]. apply Z.div_lt_upper_bound; lia.
Qed.

Lemma dig_compare n m : Ascii.compare (dig (n mod 10)) (dig (m mod 10)) = (n mod 10 ?= m mod 10).
Proof.
  apply (dig_cases (fun d => Ascii.compare (dig d) (dig (m mod 10)) = (d ?= m mod 10))).
  repeat constructor;
    apply (dig_cases (fun d => Ascii.compare (dig _) (dig d) = (_ ?= d))); by repeat constructor.
Qed.

Lemma compare_digs w n m :
  0 <= n < 10 ^ Z.of_nat w -> 0 <= m < 10 ^ Z.of_nat w ->
  String.compare (digs w n) (digs w m) = (n ?= m).
Proof.
  revert n m. induction w as [|w IH]; intros n m Hn Hm.
  { cbn in *. symmetry. apply Z.compare_eq_iff. lia. }
  cbn [digs]. rewrite str_compare_app by (by rewrite !length_digs).
  rewrite Nat2Z.inj_succ, Z.pow_succ_r in Hn, Hm by lia.
  rewrite IH by (split; [Z.div_mod_to_equations; lia|apply Z.div_lt_upper_bound; lia]).
  cbn [String.compare]. rewrite dig_compare.
  destruct (Z.compare_spec (n / 10) (m / 10)); cbn;
    destruct (Z.compare_spec n m); destruct (Z.compare_spec (n mod 10) (m mod 10)); try done;
    Z.div_mod_to_equations; lia.
Qed.

Definition year_start (y : Z) : Z := 365 * (y - 1) + leaps (y - 1) - 719162.

Lemma year_start_mono y y' : y <= y' -> year_start y <= year_start y'.
Proof. unfold year_start, leaps. intros. Z.div_mod_to_equations. lia. Qed.

Lemma days_in_month_nonneg y m : 0 <= days_in_month y m.
Proof. unfold days_in_month. repeat case_match; lia. Qed.

Lemma days_before_month_mono y (a b : nat) :
  (a <= b)%nat -> days_before_month y a <= days_before_month y b.
Proof.
  induction 1 as [|b _ IH]; [lia|]. rewrite days_before_month_S.
  pose proof (days_in_month_nonneg y (Z.of_nat (S b))). lia.
Qed.

Lemma days_before_month_12 y : days_before_month y 12 = 365 + leap y.
Proof.
  rewrite days_before_month_S.
  rewrite (days_before_month_nth y 11 (334 + leap y)) by (by rewrite days_before_month_table).
  change (days_in_month y (Z.of_nat 12)) with 31. lia.
Qed.

(** A valid date lies inside its year and its month. *)
Lemma ymd_to_days_bounds y m d :
  1 <= m <= 12 -> 1 <= d <= days_in_month y m ->
  let month_start k := year_start y + days_before_month y k in
  year_start y <= month_start (Z.to_nat (m - 1)) <= ymd_to_days y m d
  /\ ymd_to_days y m d < month_start (Z.to_nat m) <= year_start (y + 1)
  /\ ymd_to_days y m d = month_start (Z.to_nat (m - 1)) + d - 1.
Proof.
  cbv beta zeta. intros Hm Hd.
  assert (days_before_month y (Z.to_nat m)
    = days_before_month y (Z.to_nat (m - 1)) + days_in_month y m) as Heq.
  { replace (Z.to_nat m) with (S (Z.to_nat (m - 1))) by lia.
    rewrite days_before_month_S. do 2 f_equal. lia. }
  pose proof (days_before_month_mono y 0 (Z.to_nat (m - 1)) ltac:(lia)) as H0.
  pose proof (days_before_month_mono y (Z.to_nat m) 12 ltac:(lia)) as H12.
  rewrite days_before_month_12, leap_spec in H12. cbn [days_before_month] in H0.
  unfold ymd_to_days, year_start in *. replace (y + 1 - 1) with y by lia. lia.
Qed.

Definition ymd_cmp (a b : Z * Z * Z) : comparison :=
  then_cmp (a.1.1 ?= b.1.1) (then_cmp (a.1.2 ?= b.1.2) (a.2 ?= b.2)).

Lemma ymd_cmp_days y m d y' m' d' :
  1 <= m <= 12 -> 1 <= d <= days_in_month y m ->
  1 <= m' <= 12 -> 1 <= d' <= days_in_month y' m' ->
  ymd_cmp (y, m, d) (y', m', d') = (ymd_to_days y m d ?= ymd_to_days y' m' d').
Proof.
  intros Hm Hd Hm' Hd'. symmetry.
  pose proof (ymd_to_days_bounds y m d Hm Hd) as B.
  pose proof (ymd_to_days_bounds y' m' d' Hm' Hd') as B'. cbv beta zeta in B, B'.
  unfold ymd_cmp; cbn [fst snd].
  destruct (Z.compare_spec y y') as [<-|Hy|Hy]; cbn.
  - destruct (Z.compare_spec m m') as [<-|Hmm|Hmm]; cbn.
    + destruct (Z.compare_spec d d'); first [apply Z.compare_eq_iff | apply Z.compare_lt_iff | apply Z.compare_gt_iff]; lia.
    + apply Z.compare_lt_iff.
      pose proof (days_before_month_mono y (Z.to_nat m) (Z.to_nat (m' - 1)) ltac:(lia)). lia.
    + apply Z.compare_gt_iff.
      pose proof (days_before_month_mono y (Z.to_nat m') (Z.to_nat (m - 1)) ltac:(lia)). lia.
  - apply Z.compare_lt_iff. pose proof (year_start_mono (y + 1) y' ltac:(lia)). lia.
  - apply Z.compare_gt_iff. pose proof (year_start_mono (y' + 1) y ltac:(lia)). lia.
Qed.

(** 9999-12-31T23:59:59 is second [max_secs - 1]. *)
Definition max_secs : Z := 253402300800.

Lemma days_to_ymd_year days y m d :
  days_to_ymd days = (y, m, d) -> 0 <= days < max_secs / 86400 -> 1970 <= y <= 9999.
Proof.
  intros Heq Hd. pose proof (days_to_ymd_inverts days) as Hc. rewrite Heq in Hc.
  destruct Hc as (Hm & Hday & Hdays).
  pose proof (ymd_to_days_bounds y m d Hm Hday) as B. cbv beta zeta in B.
  change (max_secs / 86400) with (year_start 10000) in Hd.
  assert (0 = year_start 1970) as H0 by reflexivity.
  split; apply Z.nlt_ge; intros Hlt.
  - pose proof (year_start_mono (y + 1) 1970 ltac:(lia)). lia.
  - pose proof (year_start_mono 10000 y ltac:(lia)). lia.
Qed.

Definition time_in_range (t : Z * Z) : Prop := 0 <= t.1 < max_secs /\ 0 <= t.2 < 1000.

(** The formatted text, digit group by digit group. *)
Lemma format_rfc3339_digs secs ms y m d :
  time_in_range (secs, ms) -> days_to_ymd (secs / 86400) = (y, m, d) ->
  1970 <= y <= 9999 /\ 1 <= m <= 12 /\ 1 <= d <= days_in_month y m /\ d <= 31
  /\ format_rfc3339_parts secs ms =
     digs 4 y +:+ "-" +:+ digs 2 m +:+ "-" +:+ digs 2 d +:+ "T"
       +:+ digs 2 (secs mod 86400 / 3600) +:+ ":" +:+ digs 2 (secs mod 86400 mod 3600 / 60)
       +:+ ":" +:+ digs 2 (secs mod 86400 mod 60) +:+ "." +:+ digs 3 ms +:+ "Z".
Proof.
  intros [Hs Hms] Heq. cbn [fst snd] in *.
  assert (1970 <= y <= 9999) as Hy.
  { eapply days_to_ymd_year; [done|]. unfold max_secs in *. change (253402300800 / 86400) with 2932897.
    split; [apply Z.div_pos; lia|apply Z.div_lt_upper_bound; lia]. }
  pose proof (days_to_ymd_inverts (secs / 86400)) as Hc. rewrite Heq in Hc.
  destruct Hc as (Hm & Hd & _).
  assert (d <= 31) as Hd31 by (unfold days_in_month in Hd; repeat case_match; lia).
  split_and!; try done; try lia.
  unfold format_rfc3339_parts. rewrite Heq.
  rewrite !fmt_pad_digs; [done| lia | ..];
    change (10 ^ Z.of_nat 2) with 100; Z.div_mod_to_equations; lia.
Qed.

Lemma find_char_app p a c b :
  str_forallb (fun x => negb (p x)) a = true -> p c = true ->
  find_char p (a +:+ String c b) = Some (a, b).
Proof.
  intros Ha Hc. induction a as [|x a IH]; cbn in *.
  - by rewrite str_app_nil_l; cbn; rewrite Hc.
  - apply andb_true_iff in Ha as [Hx Ha]. apply negb_true_iff in Hx.
    rewrite str_app_cons. cbn. by rewrite Hx, IH.
Qed.

Lemma str_split_app c a b :
  str_forallb (fun x => negb (bool_decide (x = c))) a = true ->
  str_split c (a +:+ String c b) = a :: str_split c b.
Proof.
  intros Ha. induction a as [|x a IH]; cbn in *.
  - rewrite str_app_nil_l. cbn. by rewrite bool_decide_eq_true_2.
  - apply andb_true_iff in Ha as [Hx Ha]. apply negb_true_iff in Hx.
    rewrite str_app_cons. cbn. by rewrite Hx, IH.
Qed.

Lemma str_split_none c a :
  str_forallb (fun x => negb (bool_decide (x = c))) a = true -> str_split c a = [a].
Proof.
  intros Ha. induction a as [|x a IH]; cbn in *; [done|].
  apply andb_true_iff in Ha as [Hx Ha]. apply negb_true_iff in Hx. by rewrite Hx, IH.
Qed.

Lemma strip_zulu_app a : strip_zulu (a +:+ "Z") = Some a.
Proof.
  induction a as [|c a IH]; [done|]. rewrite str_app_cons. cbn. rewrite IH.
  by destruct a.
Qed.

Lemma digit_ne c d : is_ascii_digit c = true -> is_ascii_digit d = false -> bool_decide (c = d) = false.
Proof. intros Hc Hd. apply bool_decide_eq_false_2. intros ->. congruence. Qed.

(** A digit is none of the separators. *)
Ltac digits_only :=
  cbn [str_forallb]; repeat rewrite str_forallb_app; cbn [str_forallb]; rewrite ?andb_true_iff;
  repeat match goal with |- _ /\ _ => split end; try reflexivity;
  (eapply str_forallb_impl; [|apply all_digits_digs]);
  intros ? ?; unfold is_T, is_dot, is_sign; by rewrite ?digit_ne.

#[local] Opaque digs.

Lemma n_digits_digs w n : n_digits w (digs w n) = true.
Proof. unfold n_digits. rewrite all_digits_digs, length_digs. by rewrite bool_decide_eq_true_2. Qed.

Lemma validate_date_digs field s y m d :
  1 <= y <= 9999 -> 1 <= m <= 12 -> 1 <= d <= days_in_month y m -> d <= 31 ->
  validate_date field s (digs 4 y +:+ "-" +:+ digs 2 m +:+ "-" +:+ digs 2 d) = Ok tt.
Proof.
  intros Hy Hm Hd Hd31. unfold validate_date.
  change ("-" +:+ digs 2 d) with (String "-" (digs 2 d)).
  change ("-" +:+ digs 2 m +:+ String "-" (digs 2 d)) with (String "-" (digs 2 m +:+ String "-" (digs 2 d))).
  rewrite str_split_app, str_split_app, str_split_none by digits_only.
  rewrite !n_digits_digs. cbn [negb].
  rewrite !parse_digs by (cbn; lia).
  destruct (Z.ltb_spec y 1), (Z.leb_spec 1 m), (Z.leb_spec m 12), (Z.ltb_spec d 1),
    (Z.ltb_spec (days_in_month y m) d); try lia; done.
Qed.

Lemma validate_time_digs field s h mi sec ms :
  0 <= h <= 23 -> 0 <= mi <= 59 -> 0 <= sec <= 60 -> 
  validate_time field s (digs 2 h +:+ ":" +:+ digs 2 mi +:+ ":" +:+ digs 2 sec +:+ "." +:+ digs 3 ms) = Ok tt.
Proof.
  intros Hh Hmi Hsec. unfold validate_time.
  set (hms := digs 2 h +:+ ":" +:+ digs 2 mi +:+ ":" +:+ digs 2 sec).
  replace (digs 2 h +:+ ":" +:+ digs 2 mi +:+ ":" +:+ digs 2 sec +:+ "." +:+ digs 3 ms)
    with (hms +:+ String "." (digs 3 ms)) by (subst hms; by rewrite !str_app_assoc).
  rewrite find_char_app; [|subst hms; digits_only|done].
  subst hms. change (":" +:+ digs 2 sec) with (String ":" (digs 2 sec)).
  change (":" +:+ digs 2 mi +:+ String ":" (digs 2 sec)) with (String ":" (digs 2 mi +:+ String ":" (digs 2 sec))).
  rewrite str_split_app, str_split_app, str_split_none by digits_only.
  rewrite !n_digits_digs, all_digits_digs. cbn [negb].
  rewrite !parse_digs by (cbn; lia).
  destruct (Z.ltb_spec 23 h), (Z.ltb_spec 59 mi), (Z.ltb_spec 60 sec); try lia.
  rewrite bool_decide_eq_false_2; [done|]. intros Heq%(f_equal String.length).
  by rewrite length_digs in Heq.
Qed.

(** Every timestamp the client prints (for an instant of the years 1970
    to 9999) is accepted by the validator the note model applies to
    [created_at] and [updated_at]. *)
Lemma format_rfc3339_validates field secs ms :
  time_in_range (secs, ms) -> validate_rfc3339 field (format_rfc3339_parts secs ms) = Ok tt.
Proof.
  intros Hr. destruct (days_to_ymd (secs / 86400)) as [[y m] d] eqn:Heq.
  destruct (format_rfc3339_digs secs ms y m d Hr Heq) as (Hy & Hm & Hd & Hd31 & ->).
  set (date := digs 4 y +:+ "-" +:+ digs 2 m +:+ "-" +:+ digs 2 d).
  set (time := digs 2 (secs mod 86400 / 3600) +:+ ":" +:+ digs 2 (secs mod 86400 mod 3600 / 60)
     +:+ ":" +:+ digs 2 (secs mod 86400 mod 60) +:+ "." +:+ digs 3 ms).
  match goal with |- validate_rfc3339 _ ?t = _ =>
    replace t with (date +:+ String "T" (time +:+ "Z")) by (subst date time; by rewrite !str_app_assoc)
  end.
  unfold validate_rfc3339.
  rewrite str_length_app. cbn [String.length]. rewrite str_length_app.
  replace (String.length date) with 10%nat
    by (subst date; rewrite !str_length_app, !length_digs; done).
  replace (String.length time) with 12%nat
    by (subst time; rewrite !str_length_app, !length_digs; done).
  cbn [String.length Nat.ltb Nat.leb Nat.add].
  rewrite find_char_app; [|subst date; digits_only|done].
  rewrite strip_zulu_app.
  subst date time. rewrite validate_date_digs by lia. cbn [mbind Result_bind].
  apply validate_time_digs; Z.div_mod_to_equations; lia.
Qed.

Definition time_cmp (a b : Z * Z) : comparison := then_cmp (a.1 ?= b.1) (a.2 ?= b.2).

Lemma div_mod_compare k a b :
  0 < k -> (a ?= b) = then_cmp (a / k ?= b / k) (a mod k ?= b mod k).
Proof.
  intros Hk. pose proof (Z.div_mod a k ltac:(lia)). pose proof (Z.div_mod b k ltac:(lia)).
  pose proof (Z.mod_pos_bound a k Hk). pose proof (Z.mod_pos_bound b k Hk).
  destruct (Z.compare_spec (a / k) (b / k)) as [Hq| |], (Z.compare_spec (a mod k) (b mod k)) as [Hr| |]; cbn;
    first [apply Z.compare_eq_iff | apply Z.compare_lt_iff | apply Z.compare_gt_iff]; nia.
Qed.

Lemma secs_compare s1 s2 :
  (s1 ?= s2) = then_cmp (s1 / 86400 ?= s2 / 86400)
    (then_cmp (s1 mod 86400 / 3600 ?= s2 mod 86400 / 3600)
      (then_cmp (s1 mod 86400 mod 3600 / 60 ?= s2 mod 86400 mod 3600 / 60)
         (s1 mod 86400 mod 60 ?= s2 mod 86400 mod 60))).
Proof.
  rewrite (div_mod_compare 86400 s1 s2), (div_mod_compare 3600 (s1 mod 86400)),
    (div_mod_compare 60 (s1 mod 86400 mod 3600)) by lia.
  replace (s1 mod 86400 mod 60) with (s1 mod 86400 mod 3600 mod 60) by (Z.div_mod_to_equations; lia).
  replace (s2 mod 86400 mod 60) with (s2 mod 86400 mod 3600 mod 60) by (Z.div_mod_to_equations; lia).
  done.
Qed.

(** Byte-string comparison of two printed timestamps is comparison of
    the instants: last-write-wins, which compares [updated_at] strings,
    compares times. *)
Lemma timestamps_chronological t1 t2 :
  time_in_range t1 -> time_in_range t2 ->
  String.compare (now_utc_rfc3339 t1) (now_utc_rfc3339 t2) = time_cmp t1 t2.
Proof.
  destruct t1 as [s1 ms1], t2 as [s2 ms2]. intros H1 H2. unfold now_utc_rfc3339; cbn [fst snd].
  destruct (days_to_ymd (s1 / 86400)) as [[y1 mo1] d1] eqn:Heq1.
  destruct (days_to_ymd (s2 / 86400)) as [[y2 mo2] d2] eqn:Heq2.
  destruct (format_rfc3339_digs s1 ms1 _ _ _ H1 Heq1) as (Hy1 & Hm1 & Hd1 & Hd1' & ->).
  destruct (format_rfc3339_digs s2 ms2 _ _ _ H2 Heq2) as (Hy2 & Hm2 & Hd2 & Hd2' & ->).
  destruct H1 as [H1 Hms1], H2 as [H2 Hms2]. cbn [fst snd] in *.
  pose proof (days_to_ymd_inverts (s1 / 86400)) as C1. rewrite Heq1 in C1. destruct C1 as (_ & _ & C1).
  pose proof (days_to_ymd_inverts (s2 / 86400)) as C2. rewrite Heq2 in C2. destruct C2 as (_ & _ & C2).
  pose proof (ymd_cmp_days _ _ _ _ _ _ Hm1 Hd1 Hm2 Hd2) as Hcmp. rewrite C1, C2 in Hcmp.
  repeat (rewrite str_compare_app by (rewrite ?length_digs; reflexivity)).
  rewrite !compare_digs by (cbn; Z.div_mod_to_equations; lia).
  rewrite !str_compare_refl. cbn [then_cmp].
  unfold ymd_cmp in Hcmp. cbn [fst snd] in Hcmp. unfold time_cmp; cbn [fst snd].
  rewrite (secs_compare s1 s2), <- Hcmp, !then_cmp_assoc. repeat f_equal.
  by destruct (ms1 ?= ms2).
Qed.

Lemma format_rfc3339_validates_witness :
  validate_rfc3339 "updated_at" (format_rfc3339_parts 1709164800 250) = Ok tt.
Proof. apply format_rfc3339_validates. unfold time_in_range, max_secs; cbn; lia. Defined.

Lemma timestamps_chronological_witness :
  String.compare (now_utc_rfc3339 (1709164799, 999)) (now_utc_rfc3339 (1709164800, 0)) = Lt.
Proof.
  rewrite (timestamps_chronological (1709164799, 999) (1709164800, 0));
    [reflexivity | unfold time_in_range, max_secs; cbn; lia ..].
Defined.

(** [days_to_ymd] is the Gregorian calendar: it yields an existing date
    (month 1 to 12, day within the month, leap years included) whose day
    count is the input, and it is the only conversion that does, every
    existing date being the conversion of its day count. *)
Lemma days_to_ymd_bijection :
  (forall days, let '(y, m, d) := days_to_ymd days in
     1 <= m <= 12 /\ 1 <= d <= days_in_month y m /\ ymd_to_days y m d = days)
  /\ (forall y m d, 1 <= m <= 12 -> 1 <= d <= days_in_month y m ->
       days_to_ymd (ymd_to_days y m d) = (y, m, d)).
Proof.
  split; [exact days_to_ymd_inverts|]. intros y m d Hm Hd.
  pose proof (days_to_ymd_inverts (ymd_to_days y m d)) as Hc.
  destruct (days_to_ymd _) as [[y' m'] d'] eqn:Heq. destruct Hc as (Hm' & Hd' & He).
  apply Z.compare_eq_iff in He. rewrite <- ymd_cmp_days in He by done.
  unfold ymd_cmp in He; cbn [fst snd] in He.
  destruct (Z.compare_spec y' y), (Z.compare_spec m' m), (Z.compare_spec d' d);
    cbn in He; try discriminate; congruence.
Qed.
