(* ===== verification/Env.v ===== *)
(** * The local client: a storage backend and the ambient effects

    The sync crate reads three things from its environment: fresh UUIDs
    ([Uuid::new_v4]), the clock ([SystemTime::now], through
    [now_utc_rfc3339]) and random bytes.  They are functions of how often
    they have been asked, given by the class [Env]; the state of a client is
    its storage backend and the three counters.  [on_store] runs a storage
    operation; [wp_on_store] is its proof rule, through the contract
    [StorageSpec]. *)

From stdpp Require Import options.
From S2P Require Import Prelude Protocol StorageModels Storage CoreErrors Time.

Class Env : Type := {
  uuid_v4 : nat -> string;
  system_time : nat -> Z * Z;
  random_bytes : nat -> nat -> string
}.

Record Local (S : Type) : Type := mkLocal {
  l_store : S;
  l_uuids : nat;
  l_clock : nat;
  l_rng : nat
}.
Arguments mkLocal {S}.
Arguments l_store {S}.
Arguments l_uuids {S}.
Arguments l_clock {S}.
Arguments l_rng {S}.

Definition set_store {S} (st : S) (l : Local S) : Local S :=
  mkLocal st (l_uuids l) (l_clock l) (l_rng l).

Section effects.
Context {S : Type} {E : Type} `{!Env}.

(** [self.storage.op(..)?], with the [From<StorageError>] conversion. *)
Definition on_store {A} (conv : StorageError -> E) (op : M S StorageError A)
    : M (Local S) E A :=
  map_err conv (zoom l_store set_store op).

(** [Uuid::new_v4().to_string()] *)
Definition new_uuid : M (Local S) E string :=
  fun l => (Ok (uuid_v4 (l_uuids l)),
            mkLocal (l_store l) (1 + l_uuids l) (l_clock l) (l_rng l)).

(** [now_utc_rfc3339()] *)
Definition now : M (Local S) E string :=
  fun l => (Ok (now_utc_rfc3339 (system_time (l_clock l))),
            mkLocal (l_store l) (l_uuids l) (1 + l_clock l) (l_rng l)).
End effects.

(** ** Proof rules *)

Section rules.
Context {S : Type} `{StorageSpec S} {E : Type} `{!Env}.
Implicit Types l : Local S.

(** What the store holds, abstracted. *)
Definition l_view (l : Local S) : MemoryStorage := view (l_store l).

Lemma wp_on_store {A} (conv : StorageError -> E) (op : M S StorageError A) spec Q l :
  Refines view op spec ->
  (forall a m' l', spec (l_view l) = (Ok a, m') -> l_view l' = m' ->
     l_uuids l' = l_uuids l -> l_clock l' = l_clock l -> l_rng l' = l_rng l -> Q (Ok a) l') ->
  (forall e l', l_view l' = l_view l ->
     l_uuids l' = l_uuids l -> l_clock l' = l_clock l -> l_rng l' = l_rng l ->
     Q (Err (conv e)) l') ->
  wp (on_store conv op) Q l.
Proof.
  intros [Hok Herr] Q1 Q2. unfold on_store. apply wp_map_err, wp_zoom, wp_intro.
  intros [a|e] st' Hop; cbn.
  - eapply Q1; [by apply Hok|done..].
  - apply Q2; [by apply (Herr _ _ _ Hop)|done..].
Qed.

Lemma wp_new_uuid Q l :
  (forall l', l_view l' = l_view l -> l_uuids l' = Datatypes.S (l_uuids l) ->
     l_clock l' = l_clock l -> l_rng l' = l_rng l -> Q (Ok (uuid_v4 (l_uuids l))) l') ->
  wp (new_uuid (E:=E)) Q l.
Proof. intros HQ. unfold wp, new_uuid; cbn. by apply HQ. Qed.

Lemma wp_now Q l :
  (forall t l', t = now_utc_rfc3339 (system_time (l_clock l)) ->
     l_view l' = l_view l -> l_uuids l' = l_uuids l ->
     l_clock l' = Datatypes.S (l_clock l) -> l_rng l' = l_rng l -> Q (Ok t) l') ->
  wp (now (E:=E)) Q l.
Proof. intros HQ. unfold wp, now; cbn [fst snd]. by apply HQ. Qed.
End rules.

(** The contracts of the storage operations, for the proof rule. *)
Create HintDb storage_spec.
#[export] Hint Resolve spec_get_object spec_put_object spec_list_objects spec_mark_deleted
  spec_purge_object spec_enqueue_mutation spec_get_mutation spec_list_pending_mutations
  spec_list_mutations_for_object spec_remove_mutation spec_update_mutation_status
  spec_pending_mutation_count spec_get_base_version spec_put_base_version
  spec_prune_base_versions spec_clear_base_versions spec_list_base_versions
  spec_get_sync_state spec_set_sync_cursor spec_set_sync_state spec_put_conflict
  spec_get_conflict
  spec_resolve_conflict_record spec_delete_conflict : storage_spec.

(** One step of symbolic execution.  A storage call leaves two goals: it
    succeeded (its specification on the abstract state is evaluated) or it
    failed (the abstract state is the one before). *)
Ltac wp_eval_spec H :=
  cbv [Memory.get_object Memory.put_object Memory.list_objects Memory.mark_deleted
     Memory.purge_object enqueue_at Memory.get_mutation
     Memory.list_pending_mutations Memory.list_mutations_for_object Memory.remove_mutation
     Memory.update_mutation_status Memory.pending_mutation_count Memory.get_base_version
     Memory.put_base_version Memory.prune_base_versions Memory.clear_base_versions
     Memory.list_base_versions Memory.get_sync_state Memory.set_sync_cursor
     Memory.set_sync_state Memory.put_conflict Memory.get_conflict
     Memory.resolve_conflict Memory.delete_conflict] in H.
(** Express a view equation through the oldest state it depends on. *)
Ltac norm_view V :=
  repeat match type of V with
  | _ = ?rhs =>
      match rhs with
      | context [l_view ?l] =>
          match goal with W : l_view l = _ |- _ => rewrite W in V end
      end
  end.
Ltac norm_spec H :=
  repeat match type of H with
  | context [l_view ?l] => match goal with W : l_view l = _ |- _ => rewrite W in H end
  end.
Ltac wp_store :=
  eapply wp_on_store; [solve [eauto with storage_spec]
    | let a := fresh "a" in let m := fresh "m" in let l := fresh "l" in
      let H := fresh "Hop" in let V := fresh "Hview" in
      intros a m l H V ? ? ?; norm_spec H; wp_eval_spec H;
      cbn [mem_objects mem_mutations mem_base_versions mem_sync_state mem_conflicts
           with_objects with_mutations with_base_versions with_sync_state with_conflicts] in H;
      repeat match type of H with
      | (match ?x with _ => _ end) = _ => destruct x eqn:?; try discriminate H
      end;
      try (injection H as ? ?; subst a m)
    | let e := fresh "e" in let l := fresh "l" in let V := fresh "Hview" in
      intros e l V ? ? ?; norm_view V ].
Ltac wp_step :=
  lazymatch goal with
  | |- wp (_ ≫= _) _ _ => apply wp_bind
  | |- wp (mret _) _ _ => apply wp_ret
  | |- wp (throw _) _ _ => apply wp_throw
  | |- wp (map_err _ _) _ _ => apply wp_map_err
  | |- wp (ignore _) _ _ => apply wp_ignore
  | |- wp (attempt _) _ _ => apply wp_attempt
  | |- wp (lift_result _) _ _ => apply wp_lift
  | |- wp (ok_or _ _) _ _ => apply wp_ok_or; [intros ? ? | intros ?]
  | |- wp new_uuid _ _ =>
      let V := fresh "Hview" in apply wp_new_uuid; intros ? V ? ? ?; norm_view V
  | |- wp now _ _ =>
      let V := fresh "Hview" in
      apply wp_now; let t := fresh "t" in intros t ? ? V ? ? ?; norm_view V
  | |- wp (on_store _ _) _ _ => wp_store
  | |- wp (match ?x with _ => _ end) _ _ => destruct x eqn:?
  | |- match (match ?x with _ => _ end) with _ => _ end => destruct x eqn:?
  end.
Ltac wp_steps := repeat (wp_step; cbn beta iota zeta in * ).

(** Rewrite the abstract states of the goal, and compute their components. *)
Ltac mem_simpl :=
  cbn [mem_objects mem_mutations mem_base_versions mem_sync_state mem_conflicts
       with_objects with_mutations with_base_versions with_sync_state with_conflicts] in *.
Ltac view_simpl :=
  repeat match goal with V : l_view ?l = _ |- context [l_view ?l] => rewrite V end; mem_simpl.

(** ** Concrete inputs

    Small envelopes, mutations and stores, and one environment, on which the
    executable definitions are evaluated. *)

Definition sample_env : Env := {|
  uuid_v4 n := "uuid-" +:+ show_nat n;
  system_time n := ((1700000000 + Z.of_nat n)%Z, 0%Z);
  random_bytes n len := Time.zeros len
|}.

(** An envelope of object [oid] whose ciphertexts carry the tag [c]. *)
Definition sample_envelope (oid c : string) : EncryptedEnvelope :=
  mkEnvelope 1 oid OBJECT_KIND_NOTE (mkKeyContainer "n1" ("k" +:+ c))
    (mkPayloadContainer "n2" ("p" +:+ c)).

Definition sample_mutation (id oid : string) (rev : N) (st : MutationStatus) : PendingMutation :=
  mkPendingMutation id oid rev OBJECT_KIND_NOTE Upsert (sample_envelope oid id)
    "2024-01-01T00:00:00.000Z" 0 st.

Definition sample_object (oid : string) (rev seq : N) : StoredEncryptedObject :=
  mkStoredObject oid OBJECT_KIND_NOTE rev seq false (sample_envelope oid "base")
    "2024-01-01T00:00:00.000Z".

(** Two queued edits, one of them in flight, over one stored object. *)
Definition sample_store : MemoryStorage :=
  mkMemoryStorage {["a" := sample_object "a" 1 4]}
    [sample_mutation "m1" "a" 1 InFlight; sample_mutation "m2" "b" 0 Pending]
    {[("a", 1%N) := sample_envelope "a" "base"]} (mkSyncState 4 None None) ∅.

Definition sample_local : Local MemoryStorage := mkLocal sample_store 0 0 0.

(** The same store on a disk that fails as the script says. *)
Definition faulty_local (script : list bool) : Local FaultInjectableStorage :=
  mkLocal (mkFaulty sample_store script) 0 0 0.
