(* ===== verification/Queue.v ===== *)
(** * Durable queue of pending mutations ([crates/zk-sync/src/queue.rs])

    Every operation of [PendingMutationQueue], over any storage backend.  The
    theorems hold for every backend that meets [StorageSpec], which may fail
    at any operation: an acknowledged mutation leaves the queue only after
    the accepted object is stored; along any sequence of queue operations a
    mutation leaves the queue only that way or by an explicit removal; a
    restart turns every in-flight mutation back to pending. *)

From stdpp Require Import options.
From S2P Require Import Prelude Protocol StorageModels Storage CoreErrors Time Env.

Inductive QueueError : Type :=
| QE_Storage (e : StorageError)
| QE_NotFound (msg : string)
| QE_InvalidState (msg : string)
| QE_Validation (msg : string).

#[export] Instance QueueError_eq_dec : EqDecision QueueError.
Proof. solve_decision. Defined.

Definition QueueError_display (e : QueueError) : string :=
  match e with
  | QE_Storage err => "queue storage error: " +:+ StorageError_display err
  | QE_NotFound msg => "queue entity not found: " +:+ msg
  | QE_InvalidState msg => "invalid queue state: " +:+ msg
  | QE_Validation msg => "queue validation error: " +:+ msg
  end.

Module Queue.
Section ops.
Context {S : Type} `{LocalStorage S} `{!Env}.
Abbreviation Q A := (M (Local S) QueueError A).
Abbreviation store op := (on_store QE_Storage op).

Definition mismatch_error (envelope : EncryptedEnvelope) (object_id : string) : QueueError :=
  QE_Validation ("envelope object_id '" +:+ env_object_id envelope
    +:+ "' does not match target object_id '" +:+ object_id +:+ "'").

Definition not_found_error (mutation_id : string) : QueueError :=
  QE_NotFound ("mutation '" +:+ mutation_id +:+ "' not found").

Definition enqueue_upsert (object_id : string) (object_kind expected_revision : N)
    (envelope : EncryptedEnvelope) : Q PendingMutation :=
  if bool_decide (env_object_id envelope <> object_id) then
    throw (mismatch_error envelope object_id)
  else
    current ← store (get_object object_id);
    _ ← match current with
        | Some current_obj =>
            if (obj_revision current_obj =? expected_revision)%N
            then store (put_base_version object_id expected_revision (obj_envelope current_obj))
            else mret tt
        | None => mret tt
        end;
    mutation_id ← new_uuid;
    now ← now;
    let mutation := mkPendingMutation mutation_id object_id expected_revision object_kind
                      Upsert envelope now 0 Pending in
    _ ← store (enqueue_mutation mutation);
    mret mutation.

Definition enqueue_delete (object_id : string) (object_kind expected_revision : N)
    (envelope : EncryptedEnvelope) : Q PendingMutation :=
  if bool_decide (env_object_id envelope <> object_id) then
    throw (mismatch_error envelope object_id)
  else
    current ← store (get_object object_id);
    _ ← match current with
        | Some current_obj =>
            if (obj_revision current_obj =? expected_revision)%N
            then store (put_base_version object_id expected_revision (obj_envelope current_obj))
            else mret tt
        | None => mret tt
        end;
    mutation_id ← new_uuid;
    now ← now;
    let mutation := mkPendingMutation mutation_id object_id expected_revision object_kind
                      Delete envelope now 0 Pending in
    _ ← store (enqueue_mutation mutation);
    mret mutation.

Definition enqueue_local_note_upsert (object_id : string) (envelope : EncryptedEnvelope)
    : Q PendingMutation :=
  current ← store (get_object object_id);
  expected_revision ←
    match current with
    | Some obj =>
        _ ← store (put_base_version object_id (obj_revision obj) (obj_envelope obj));
        mret (obj_revision obj)
    | None => mret 0%N
    end;
  enqueue_upsert object_id OBJECT_KIND_NOTE expected_revision envelope.

Definition enqueue_local_note_delete (object_id : string)
    (tombstone_envelope : EncryptedEnvelope) : Q PendingMutation :=
  current ← store (get_object object_id);
  expected_revision ←
    match current with
    | Some obj =>
        _ ← store (put_base_version object_id (obj_revision obj) (obj_envelope obj));
        mret (obj_revision obj)
    | None =>
        throw (QE_NotFound ("cannot delete non-existent object '" +:+ object_id +:+ "'"))
    end;
  enqueue_delete object_id OBJECT_KIND_NOTE expected_revision tombstone_envelope.

Definition get_base_version (object_id : string) (revision : N)
    : Q (option EncryptedEnvelope) :=
  store (Storage.get_base_version object_id revision).

Definition get_base_version_for_mutation (mutation : PendingMutation)
    : Q (option EncryptedEnvelope) :=
  if (mut_expected_revision mutation =? 0)%N then mret None
  else get_base_version (mut_object_id mutation) (mut_expected_revision mutation).

Definition store_base_version (object_id : string) (revision : N)
    (envelope : EncryptedEnvelope) : Q unit :=
  store (put_base_version object_id revision envelope).

Definition get_mutation (mutation_id : string) : Q (option PendingMutation) :=
  store (Storage.get_mutation mutation_id).

Definition list_pending : Q (list PendingMutation) := store list_pending_mutations.

Definition peek_next : Q (option PendingMutation) :=
  list ← list_pending; mret (head list).

Definition pending_count : Q nat := store pending_mutation_count.

Definition list_for_object (object_id : string) : Q (list PendingMutation) :=
  store (list_mutations_for_object object_id).

(** [get_mutation(id)?.ok_or_else(..)?], the opening of the marking
    operations and of [acknowledge_accepted]. *)
Definition find_mutation (mutation_id : string) : Q PendingMutation :=
  found ← store (Storage.get_mutation mutation_id);
  ok_or (not_found_error mutation_id) found.

Definition mark_in_flight (mutation_id : string) : Q unit :=
  mutation ← find_mutation mutation_id;
  store (update_mutation_status mutation_id InFlight
           (u32_saturating_add (mut_retry_count mutation) 1)).

Definition mark_pending (mutation_id : string) : Q unit :=
  mutation ← find_mutation mutation_id;
  store (update_mutation_status mutation_id Pending (mut_retry_count mutation)).

Definition mark_failed (mutation_id : string) : Q unit :=
  mutation ← find_mutation mutation_id;
  store (update_mutation_status mutation_id Failed (mut_retry_count mutation)).

Definition is_in_flight (m : PendingMutation) : bool := bool_decide (mut_status m = InFlight).

(** The loop of [reset_in_flight], with its counter. *)
Fixpoint reset_loop (mutations : list PendingMutation) (reset_count : nat) : Q nat :=
  match mutations with
  | [] => mret reset_count
  | m :: rest =>
      if is_in_flight m then
        _ ← store (update_mutation_status (mut_mutation_id m) Pending (mut_retry_count m));
        reset_loop rest (reset_count + 1)
      else reset_loop rest reset_count
  end.

Definition reset_in_flight : Q nat :=
  mutations ← store list_pending_mutations;
  reset_loop mutations 0.

Definition accepted_object (mutation : PendingMutation) (accepted_revision server_seq : N)
    (now : string) : StoredEncryptedObject :=
  mkStoredObject (mut_object_id mutation) (mut_object_kind mutation) accepted_revision
    server_seq (bool_decide (mut_mutation_type mutation = Delete)) (mut_envelope mutation) now.

Definition acknowledge_accepted (mutation_id : string) (accepted_revision server_seq : N)
    : Q StoredEncryptedObject :=
  mutation ← find_mutation mutation_id;
  now ← now;
  let stored_obj := accepted_object mutation accepted_revision server_seq now in
  _ ← store (put_object stored_obj);
  _ ← store (Storage.remove_mutation mutation_id);
  _ ← ignore (store (prune_base_versions (mut_object_id mutation) accepted_revision));
  mret stored_obj.

Definition remove_mutation (mutation_id : string) : Q bool :=
  store (Storage.remove_mutation mutation_id).
End ops.
End Queue.

(** ** Theorems about the pending mutation queue

    The specifications of the operations of [Queue] over any [StorageSpec]
    backend, and what holds along every sequence of operations. *)

(** A queue entry with the parts that identify the edit: everything but its
    status and its retry count. *)
Definition same_edit (m m' : PendingMutation) : Prop :=
  exists st n, m' = mkPendingMutation (mut_mutation_id m) (mut_object_id m) (mut_expected_revision m)
    (mut_object_kind m) (mut_mutation_type m) (mut_envelope m) (mut_created_at m) n st.

Lemma same_edit_refl m : same_edit m m.
Proof. exists (mut_status m), (mut_retry_count m). by destruct m. Qed.

Lemma same_edit_trans m1 m2 m3 : same_edit m1 m2 -> same_edit m2 m3 -> same_edit m1 m3.
Proof. intros (st & n & ->) (st' & n' & ->). by exists st', n'. Qed.

Lemma same_edit_id m m' : same_edit m m' -> mut_mutation_id m' = mut_mutation_id m.
Proof. by intros (? & ? & ->). Qed.

#[export] Hint Resolve same_edit_refl same_edit_trans : zk.

Abbreviation queue_ids l := (mut_mutation_id <$> mem_mutations l).

(** Reading operations change nothing; these relations say what the writing
    ones may change. *)

(** The accepted object is stored and the mutation gone; base versions are
    at most pruned; the rest is untouched. *)
Record acked (v : MemoryStorage) (id : string) (obj : StoredEncryptedObject)
    (v' : MemoryStorage) : Prop := {
  acked_objects : mem_objects v' = <[obj_object_id obj := obj]> (mem_objects v);
  acked_mutations :
    mem_mutations v' = remove_first (Memory.by_mutation_id id) (mem_mutations v);
  acked_bases : mem_base_versions v' ⊆ mem_base_versions v;
  acked_sync : mem_sync_state v' = mem_sync_state v;
  acked_conflicts : mem_conflicts v' = mem_conflicts v
}.

(** A new entry in the queue, the others in their order; at most base versions of its object
    are recorded. *)
Record enqueued (v : MemoryStorage) (m : PendingMutation) (v' : MemoryStorage) : Prop := {
  enqueued_objects : mem_objects v' = mem_objects v;
  enqueued_mutations :
    exists pre post, mem_mutations v = pre ++ post /\ mem_mutations v' = pre ++ m :: post;
  enqueued_sync : mem_sync_state v' = mem_sync_state v;
  enqueued_conflicts : mem_conflicts v' = mem_conflicts v
}.

Lemma enqueued_elem v m v' x :
  enqueued v m v' -> x ∈ mem_mutations v' <-> x = m \/ x ∈ mem_mutations v.
Proof.
  intros [_ (pre & post & -> & ->) _ _]. by rewrite <- Permutation_middle, elem_of_cons.
Qed.

(** Only base versions differ. *)
Record only_bases (v v' : MemoryStorage) : Prop := {
  ob_objects : mem_objects v' = mem_objects v;
  ob_mutations : mem_mutations v' = mem_mutations v;
  ob_sync : mem_sync_state v' = mem_sync_state v;
  ob_conflicts : mem_conflicts v' = mem_conflicts v
}.

(** The base of a three-way merge for an edit at [revision] is the stored
    envelope at that revision. *)
Definition base_recorded (v : MemoryStorage) (object_id : string) (revision : N)
    (v' : MemoryStorage) : Prop :=
  forall obj, mem_objects v !! object_id = Some obj -> obj_revision obj = revision ->
    mem_base_versions v' !! (object_id, revision) = Some (obj_envelope obj).

Lemma only_bases_refl v v' : v' = v -> only_bases v v'.
Proof. by intros ->. Qed.

#[export] Hint Resolve only_bases_refl : zk.

Section facts.
Context {S : Type} `{StorageSpec S} `{!Env}.
Implicit Types l : Local S.

Lemma wp_find_mutation id Q l :
  (forall m l', find_first (Memory.by_mutation_id id) (mem_mutations (l_view l)) = Some m ->
     l_view l' = l_view l -> l_uuids l' = l_uuids l -> Q (Ok m) l') ->
  (forall e l', l_view l' = l_view l -> Q (Err e) l') ->
  wp (Queue.find_mutation id) Q l.
Proof.
  intros HQ HE. unfold Queue.find_mutation. wp_steps; eauto.
Qed.

Lemma wp_acknowledge_accepted id rev seq Q l :
  (forall m t l',
     find_first (Memory.by_mutation_id id) (mem_mutations (l_view l)) = Some m ->
     acked (l_view l) id (Queue.accepted_object m rev seq t) (l_view l') ->
     Q (Ok (Queue.accepted_object m rev seq t)) l') ->
  (forall e l',
     l_view l' = l_view l
     \/ (exists m t, find_first (Memory.by_mutation_id id) (mem_mutations (l_view l)) = Some m
           /\ l_view l' = with_objects
                <[mut_object_id m := Queue.accepted_object m rev seq t]> (l_view l)) ->
     Q (Err e) l') ->
  wp (Queue.acknowledge_accepted id rev seq) Q l.
Proof.
  intros HQ HE. unfold Queue.acknowledge_accepted.
  wp_step. apply wp_find_mutation; [intros m l1 Hm Hv1 Hu1 | intros e l1 Hv1; eauto].
  wp_steps.
  all: try (apply HE; auto; fail).
  all: try (apply HE; right; eauto; fail).
  all: try congruence.
  all: apply HQ; [done|]; split; view_simpl; try done.
  apply map_filter_subseteq.
Qed.

(** The two enqueue operations differ in the mutation type only. *)
Definition enqueue_with (ty : MutationType) (object_id : string) (kind expected_revision : N)
    (envelope : EncryptedEnvelope) : M (Local S) QueueError PendingMutation :=
  match ty with
  | Upsert => Queue.enqueue_upsert object_id kind expected_revision envelope
  | Delete => Queue.enqueue_delete object_id kind expected_revision envelope
  end.

Lemma wp_enqueue_with ty oid kind rev env Q l :
  (forall t l', let m := mkPendingMutation (uuid_v4 (l_uuids l)) oid rev kind ty env t 0 Pending in
     env_object_id env = oid -> uuid_v4 (l_uuids l) ∉ queue_ids (l_view l) ->
     enqueued (l_view l) m (l_view l') -> base_recorded (l_view l) oid rev (l_view l') ->
     l_uuids l' = Datatypes.S (l_uuids l) -> Q (Ok m) l') ->
  (forall e l', only_bases (l_view l) (l_view l') -> Q (Err e) l') ->
  wp (enqueue_with ty oid kind rev env) Q l.
Proof.
  intros HQ HE. unfold enqueue_with, Queue.enqueue_upsert, Queue.enqueue_delete.
  destruct ty; wp_steps.
  all: try (apply HE; split; view_simpl; done).
  all: repeat match goal with H : bool_decide _ = false |- _ => apply bool_decide_eq_false in H end.
  all: match goal with
    | H : existsb _ _ = false |- _ =>
        cbn [mut_mutation_id] in H; unfold Memory.by_mutation_id in H;
        rewrite existsb_has_key in H; apply bool_decide_eq_false in H
    end.
  all: repeat match goal with H : l_uuids ?l1 = _ |- _ => rewrite H in *; clear H end.
  all: apply HQ; [by apply dec_stable|done|split; view_simpl; try done| |done].
  all: try (eexists _, _; split; [symmetry; apply take_drop|done]).
  all: intros obj Hobj Hrev; view_simpl; simplify_eq.
  all: first [by rewrite lookup_insert_eq | by rewrite N.eqb_refl in * ].
Qed.

Lemma wp_enqueue_upsert oid kind rev env Q l :
  wp (enqueue_with Upsert oid kind rev env) Q l -> wp (Queue.enqueue_upsert oid kind rev env) Q l.
Proof. done. Qed.
Lemma wp_enqueue_delete oid kind rev env Q l :
  wp (enqueue_with Delete oid kind rev env) Q l -> wp (Queue.enqueue_delete oid kind rev env) Q l.
Proof. done. Qed.

(** The marking operations update the first entry with the identifier. *)
Lemma wp_mark_with id (upd : PendingMutation -> M S StorageError unit) Q l :
  (forall m, exists st n, upd m = update_mutation_status id st n) ->
  (forall st n l', l_view l' = with_mutations
      (update_first (Memory.by_mutation_id id) (Memory.set_status st n)) (l_view l) ->
      Q (Ok tt) l') ->
  (forall e l', l_view l' = l_view l -> Q (Err e) l') ->
  wp (m ← Queue.find_mutation id; on_store QE_Storage (upd m)) Q l.
Proof.
  intros Hupd HQ HE. wp_step. apply wp_find_mutation; [|intros; by apply HE].
  intros m l1 Hm Hv1 _. destruct (Hupd m) as (st & n & ->).
  wp_steps; [| by apply HE]. by eapply HQ.
Qed.

(** A crash-restart turns an in-flight entry back to pending. *)
Definition reset_entry (m : PendingMutation) : PendingMutation :=
  if Queue.is_in_flight m then Memory.set_status Pending (mut_retry_count m) m else m.

Lemma reset_entry_id (q : list PendingMutation) : mut_mutation_id <$> (reset_entry <$> q) = mut_mutation_id <$> q.
Proof.
  rewrite <- list_fmap_compose. apply list_fmap_ext. intros i m _.
  unfold reset_entry; cbn. by destruct (Queue.is_in_flight m).
Qed.

Lemma wp_reset_loop (rest : list PendingMutation) : forall (done : list PendingMutation) n Q l,
  NoDup (mut_mutation_id <$> (done ++ rest)) ->
  mem_mutations (l_view l) = (reset_entry <$> done) ++ rest ->
  (forall l', l_view l' = with_mutations (fun _ => reset_entry <$> (done ++ rest)) (l_view l) ->
     Q (Ok (n + length (List.filter Queue.is_in_flight rest))%nat) l') ->
  (forall e l' done' rest', done ++ rest = done' ++ rest' ->
     l_view l' = with_mutations (fun _ => (reset_entry <$> done') ++ rest') (l_view l) ->
     Q (Err e) l') ->
  wp (Queue.reset_loop rest n) Q l.
Proof.
  induction rest as [|m rest IH]; intros done n Q l Hnd Hq HQ HE; cbn [Queue.reset_loop].
  - apply wp_ret. rewrite app_nil_r in *. specialize (HQ l). cbn in HQ.
    rewrite Nat.add_0_r in HQ. apply HQ. rewrite <- Hq. by destruct (l_view l).
  - assert (done ++ m :: rest = (done ++ [m]) ++ rest) as Happ by (by rewrite <- app_assoc).
    destruct (Queue.is_in_flight m) eqn:Hif.
    + wp_step. wp_store.
      * unfold Memory.by_mutation_id in Hview.
        eapply (IH (done ++ [m])).
        { by rewrite <- Happ. }
        { view_simpl. rewrite Hq, update_first_key.
          - rewrite fmap_app, <- app_assoc. change (reset_entry <$> [m]) with [reset_entry m].
            unfold reset_entry at 3. by rewrite Hif.
          - rewrite reset_entry_id. rewrite fmap_app in Hnd.
            apply NoDup_app in Hnd as (_ & Hd & _). intros Hin. apply (Hd _ Hin).
            cbn. left. }
        { intros l' Hv. rewrite Hview, <- Happ in Hv. cbn [List.filter] in HQ.
          rewrite Hif in HQ. rewrite <- Nat.add_assoc. by apply HQ. }
        { intros e l' d r Hd Hv. eapply HE; [by rewrite Happ|]. by rewrite Hv, Hview. }
      * eapply (HE _ _ done (m :: rest)); [done|]. rewrite <- Hq. rewrite Hview. by destruct (l_view l).
    + eapply (IH (done ++ [m])).
      { by rewrite <- Happ. }
      { rewrite Hq, fmap_app, <- app_assoc. change (reset_entry <$> [m]) with [reset_entry m].
            unfold reset_entry at 3. by rewrite Hif. }
      { intros l' Hv. rewrite <- Happ in Hv. cbn [List.filter] in HQ. rewrite Hif in HQ. by apply HQ. }
      { intros e l' d r Hd Hv. eapply HE; [by rewrite Happ|done]. }
Qed.
End facts.

(** ** Sequences of operations *)

Inductive QueueOp : Type :=
| OpUpsert (object_id : string) (kind expected_revision : N) (envelope : EncryptedEnvelope)
| OpDelete (object_id : string) (kind expected_revision : N) (envelope : EncryptedEnvelope)
| OpNoteUpsert (object_id : string) (envelope : EncryptedEnvelope)
| OpNoteDelete (object_id : string) (envelope : EncryptedEnvelope)
| OpStoreBase (object_id : string) (revision : N) (envelope : EncryptedEnvelope)
| OpInFlight (mutation_id : string)
| OpPending (mutation_id : string)
| OpFailed (mutation_id : string)
| OpReset
| OpAck (mutation_id : string) (accepted_revision server_seq : N)
| OpRemove (mutation_id : string).

Section trace.
Context {S : Type} `{StorageSpec S} `{!Env}.
Implicit Types l : Local S.

(** The state after one operation has run to its end, successful or not. *)
Definition exec (op : QueueOp) (l : Local S) : Local S :=
  match op with
  | OpUpsert oid kind rev env => (Queue.enqueue_upsert oid kind rev env l).2
  | OpDelete oid kind rev env => (Queue.enqueue_delete oid kind rev env l).2
  | OpNoteUpsert oid env => (Queue.enqueue_local_note_upsert oid env l).2
  | OpNoteDelete oid env => (Queue.enqueue_local_note_delete oid env l).2
  | OpStoreBase oid rev env => (Queue.store_base_version oid rev env l).2
  | OpInFlight id => (Queue.mark_in_flight id l).2
  | OpPending id => (Queue.mark_pending id l).2
  | OpFailed id => (Queue.mark_failed id l).2
  | OpReset => (Queue.reset_in_flight l).2
  | OpAck id rev seq => (Queue.acknowledge_accepted id rev seq l).2
  | OpRemove id => (Queue.remove_mutation id l).2
  end.

Definition exec_all (ops : list QueueOp) (l : Local S) : Local S :=
  fold_left (fun l op => exec op l) ops l.

(** What one operation may do to the queue. *)
Record queue_step (op : QueueOp) (v v' : MemoryStorage) : Prop := {
  qs_unique : NoDup (queue_ids v) -> NoDup (queue_ids v');
  qs_kept : forall m, NoDup (queue_ids v) -> m ∈ mem_mutations v ->
    (exists m', same_edit m m' /\ m' ∈ mem_mutations v')
    \/ op = OpRemove (mut_mutation_id m)
    \/ (exists rev seq t, op = OpAck (mut_mutation_id m) rev seq
          /\ mem_objects v' !! mut_object_id m = Some (Queue.accepted_object m rev seq t))
}.

Lemma queue_step_same op v v' :
  mem_mutations v' = mem_mutations v -> queue_step op v v'.
Proof. intros Heq. split; rewrite Heq; [done|]. eauto with zk. Qed.

Lemma queue_step_enqueued op v m v' pre post :
  mem_mutations v = pre ++ post -> mem_mutations v' = pre ++ m :: post -> mut_mutation_id m ∉ queue_ids v ->
  queue_step op v v'.
Proof.
  intros Hv Heq Hnin. rewrite Hv in Hnin. split; rewrite Heq, Hv.
  - rewrite <- Permutation_middle. cbn. by constructor.
  - intros m' _ Hin. left. exists m'. split; [auto with zk|]. rewrite <- Permutation_middle. by right.
Qed.

Lemma queue_step_update op v st n id v' :
  v' = with_mutations (update_first (Memory.by_mutation_id id) (Memory.set_status st n)) v ->
  queue_step op v v'.
Proof.
  intros ->. split; mem_simpl.
  - by rewrite fmap_update_first.
  - intros m _ Hin. left.
    destruct (elem_of_update_first (Memory.by_mutation_id id) (Memory.set_status st n) _ m Hin).
    + eauto with zk.
    + eexists; split; [|done]. by exists st, n.
Qed.

Lemma queue_step_reset op v pre rest v' :
  mem_mutations v = pre ++ rest ->
  v' = with_mutations (fun _ => (reset_entry <$> pre) ++ rest) v ->
  queue_step op v v'.
Proof.
  intros Hq ->. split; mem_simpl; rewrite Hq.
  - by rewrite !fmap_app, reset_entry_id.
  - intros m _ [Hin|Hin]%elem_of_app; left.
    + exists (reset_entry m). split; [|apply elem_of_app; left; by apply list_elem_of_fmap_2].
      unfold reset_entry. destruct (Queue.is_in_flight m); [|auto with zk].
      by eexists _, _.
    + exists m. split; [auto with zk|]. apply elem_of_app; auto.
Qed.

Lemma elem_of_remove_first_key m id q :
  NoDup (mut_mutation_id <$> q) -> m ∈ q ->
  m ∈ remove_first (Memory.by_mutation_id id) q \/
  (mut_mutation_id m = id /\ find_first (Memory.by_mutation_id id) q = Some m).
Proof.
  intros Hnd Hin. destruct (decide (mut_mutation_id m = id)) as [<-|Hne].
  - right. split; [done|]. by apply find_first_key_unique.
  - left. apply elem_of_remove_first_2; [done|]. by apply has_key_false.
Qed.

Lemma queue_step_removed v id v' :
  mem_mutations v' = remove_first (Memory.by_mutation_id id) (mem_mutations v) ->
  queue_step (OpRemove id) v v'.
Proof.
  intros Hq. split; rewrite Hq; [by apply NoDup_remove_first|].
  intros m Hnd Hin. destruct (elem_of_remove_first_key m id _ Hnd Hin) as [?|[<- _]]; eauto with zk.
Qed.

Lemma queue_step_acked v id rev seq m t v' :
  find_first (Memory.by_mutation_id id) (mem_mutations v) = Some m ->
  acked v id (Queue.accepted_object m rev seq t) v' ->
  queue_step (OpAck id rev seq) v v'.
Proof.
  intros Hm [Hobj Hq _ _ _]. split; rewrite Hq; [by apply NoDup_remove_first|].
  intros m' Hnd Hin. destruct (elem_of_remove_first_key m' id _ Hnd Hin) as [?|[<- Hf]]; [eauto with zk|].
  right; right. exists rev, seq, t. split; [done|].
  rewrite Hobj. simplify_eq. cbn. by rewrite lookup_insert_eq.
Qed.

Lemma wp_enqueue_step op ty oid kind rev env l (v : MemoryStorage) :
  mem_mutations (l_view l) = mem_mutations v ->
  wp (enqueue_with ty oid kind rev env) (fun _ l' => queue_step op v (l_view l')) l.
Proof.
  intros Hv. apply wp_enqueue_with.
  - intros t l' m _ Hfresh [_ (pre & post & Hpre & Hq) _ _] _ _.
    eapply queue_step_enqueued; [by rewrite <- Hv|exact Hq|by rewrite <- Hv].
  - intros e l' [_ Hq _ _]. apply queue_step_same. by rewrite Hq.
Qed.

Lemma wp_reset_in_flight Q l :
  NoDup (queue_ids (l_view l)) ->
  (forall l', l_view l' = with_mutations (fmap reset_entry) (l_view l) ->
     Q (Ok (length (List.filter Queue.is_in_flight (mem_mutations (l_view l))))) l') ->
  (forall e l' pre rest, mem_mutations (l_view l) = pre ++ rest ->
     l_view l' = with_mutations (fun _ => (reset_entry <$> pre) ++ rest) (l_view l) ->
     Q (Err e) l') ->
  wp Queue.reset_in_flight Q l.
Proof.
  intros Hnd HQ HE. unfold Queue.reset_in_flight. wp_step. wp_store.
  - eapply (wp_reset_loop _ []); [done|by rewrite Hview| |].
    + intros l' Hv. apply HQ. by rewrite Hv, Hview.
    + intros e l' pre rest Hpre Hv. eapply HE; [done|]. by rewrite Hv, Hview.
  - apply (HE _ _ [] (mem_mutations (l_view l))); [done|]. rewrite Hview. by destruct (l_view l).
Qed.

Abbreviation steps op l := (fun _ l' => queue_step op (l_view l) (l_view l')).

Lemma wp_note_step op ty oid env (rev : option StoredEncryptedObject -> M (Local S) QueueError N) l :
  (forall o l1, l_view l1 = l_view l ->
     wp (rev o) (fun _ l' => mem_mutations (l_view l') = mem_mutations (l_view l)) l1) ->
  wp (o ← on_store QE_Storage (get_object oid);
      n ← rev o; enqueue_with ty oid OBJECT_KIND_NOTE n env) (steps op l) l.
Proof.
  intros Hrev. wp_step. wp_store; cbn beta iota.
  - wp_step. eapply wp_mono; [by apply Hrev|]. intros [n|e] l' Hq; [by apply wp_enqueue_step|].
    by apply queue_step_same.
  - apply queue_step_same. by rewrite Hview.
Qed.

Lemma wp_mark_step op id (upd : PendingMutation -> M S StorageError unit) l :
  (forall m, exists st n, upd m = update_mutation_status id st n) ->
  wp (m ← Queue.find_mutation id; on_store QE_Storage (upd m)) (steps op l) l.
Proof.
  intros Hupd. apply wp_mark_with; [done| |].
  - intros st n l' Hv. by eapply queue_step_update.
  - intros e l' Hv. apply queue_step_same. by rewrite Hv.
Qed.

Lemma wp_remove_step id l : wp (Queue.remove_mutation id) (steps (OpRemove id) l) l.
Proof.
  unfold Queue.remove_mutation. wp_store.
  - apply queue_step_removed. by view_simpl.
  - apply queue_step_removed. rewrite remove_first_None by done. by rewrite Hview.
  - apply queue_step_same. by rewrite Hview.
Qed.

(** Every operation, whether the backend fails in it or not, is a step. *)
Lemma exec_step op l :
  NoDup (queue_ids (l_view l)) -> queue_step op (l_view l) (l_view (exec op l)).
Proof.
  intros Hnd. destruct op; cbn [exec].
  - by apply (wp_enqueue_step _ Upsert).
  - by apply (wp_enqueue_step _ Delete).
  - apply (wp_note_step _ Upsert). intros o l1 Hl1. wp_steps; by view_simpl.
  - apply (wp_note_step _ Delete). intros o l1 Hl1. wp_steps; by view_simpl.
  - assert (wp (Queue.store_base_version object_id revision envelope)
      (steps (OpStoreBase object_id revision envelope) l) l); [|done].
    unfold Queue.store_base_version. wp_store; apply queue_step_same; by view_simpl.
  - apply (wp_mark_step _ _ (fun m => update_mutation_status _ InFlight _)). eauto.
  - apply (wp_mark_step _ _ (fun m => update_mutation_status _ Pending _)). eauto.
  - apply (wp_mark_step _ _ (fun m => update_mutation_status _ Failed _)). eauto.
  - apply (wp_reset_in_flight (steps OpReset l)); [done| |].
    + intros l' Hv. eapply (queue_step_reset _ _ (mem_mutations (l_view l)) []); [by rewrite app_nil_r|].
      by rewrite Hv, app_nil_r.
    + intros. by eapply queue_step_reset.
  - apply (wp_acknowledge_accepted _ _ _ (steps (OpAck mutation_id accepted_revision server_seq) l)).
    + intros. by eapply queue_step_acked.
    + intros e l' [Hv|(m & t & _ & Hv)]; apply queue_step_same; by rewrite Hv.
  - apply wp_remove_step.
Qed.

Lemma exec_all_unique ops l :
  NoDup (queue_ids (l_view l)) -> NoDup (queue_ids (l_view (exec_all ops l))).
Proof.
  revert l. induction ops as [|op ops IH]; intros l Hnd; [done|].
  apply IH. by apply (qs_unique _ _ _ (exec_step op l Hnd)).
Qed.

Lemma accepted_object_same_edit m m' rev seq t :
  same_edit m m' -> Queue.accepted_object m' rev seq t = Queue.accepted_object m rev seq t.
Proof. by intros (? & ? & ->). Qed.

(** C3. Along any sequence of queue operations, over a backend that may
    fail at any storage call, mutation identifiers stay unique and a queued
    edit is never lost: it is still queued with the same object, base
    revision and envelope, or it was removed on request, or it was
    acknowledged, and at that point its envelope was in the object store. *)
Theorem queue_no_silent_loss ops l m :
  NoDup (queue_ids (l_view l)) -> m ∈ mem_mutations (l_view l) ->
  NoDup (queue_ids (l_view (exec_all ops l))) /\
  ((exists m', same_edit m m' /\ m' ∈ mem_mutations (l_view (exec_all ops l)))
   \/ OpRemove (mut_mutation_id m) ∈ ops
   \/ (exists pre post rev seq t, ops = pre ++ OpAck (mut_mutation_id m) rev seq :: post
        /\ mem_objects (l_view (exec_all (pre ++ [OpAck (mut_mutation_id m) rev seq]) l))
             !! mut_object_id m = Some (Queue.accepted_object m rev seq t))).
Proof.
  intros Hnd Hin. split; [by apply exec_all_unique|].
  revert l m Hnd Hin. induction ops as [|op ops IH]; intros l m Hnd Hin; [eauto with zk|].
  destruct (exec_step op l Hnd) as [Hnd' Hkept]. specialize (Hnd' Hnd).
  destruct (Hkept m Hnd Hin) as [(m' & Hm' & Hin')|[->|(rev & seq & t & -> & Hobj)]].
  - pose proof (same_edit_id _ _ Hm') as Hid.
    destruct (IH _ m' Hnd' Hin') as [(m2 & ? & ?)|[Hrem|(pre & post & rev & seq & t & -> & Hobj)]].
    + left. exists m2. split; [by eapply same_edit_trans|done].
    + right; left. rewrite <- Hid. by right.
    + right; right. exists (op :: pre), post, rev, seq, t. rewrite <- Hid. split; [done|].
      rewrite <- (accepted_object_same_edit m m') by done.
      by destruct Hm' as (? & ? & ->).
  - right; left. left.
  - right; right. by exists [], ops, rev, seq, t.
Qed.

(** Acknowledging an accepted mutation, over a backend that may fail at
    any call: on success the accepted object (the queued envelope at the
    server's revision and sequence) is stored and exactly this mutation
    leaves the queue; on failure the queue is as before, so the push is
    retried.  Sync state and conflict records are untouched. *)
Lemma acknowledge_accepted_durable id rev seq l r l' :
  Queue.acknowledge_accepted id rev seq l = (r, l') ->
  match r with
  | Ok obj => exists m t,
      find_first (Memory.by_mutation_id id) (mem_mutations (l_view l)) = Some m
      /\ obj = Queue.accepted_object m rev seq t
      /\ acked (l_view l) id obj (l_view l')
  | Err _ => mem_mutations (l_view l') = mem_mutations (l_view l)
             /\ mem_base_versions (l_view l') = mem_base_versions (l_view l)
             /\ mem_sync_state (l_view l') = mem_sync_state (l_view l)
             /\ mem_conflicts (l_view l') = mem_conflicts (l_view l)
  end.
Proof.
  as_wp. apply wp_acknowledge_accepted; [eauto 10|].
  intros e l1 [->|(m & t & _ & ->)]; done.
Qed.

(** After a restart, [reset_in_flight] leaves no mutation in flight: it
    turns each of them back to pending with its identifier, envelope and
    retry count (so the retry replays the same mutation), reports how many,
    and keeps the other entries and the order.  If the backend fails on the
    way, a prefix of the queue has been reset and nothing is lost. *)
Lemma reset_in_flight_restores l r l' :
  NoDup (queue_ids (l_view l)) ->
  Queue.reset_in_flight l = (r, l') ->
  match r with
  | Ok n => l_view l' = with_mutations (fmap reset_entry) (l_view l)
            /\ n = length (List.filter Queue.is_in_flight (mem_mutations (l_view l)))
            /\ Forall (fun m => mut_status m <> InFlight) (mem_mutations (l_view l'))
  | Err _ => exists pre rest, mem_mutations (l_view l) = pre ++ rest
            /\ l_view l' = with_mutations (fun _ => (reset_entry <$> pre) ++ rest) (l_view l)
  end.
Proof.
  intros Hnd. as_wp. apply wp_reset_in_flight; [done| |eauto].
  intros l1 ->. split_and!; [done..|]. mem_simpl. apply Forall_fmap, Forall_true.
  intros m. cbn. unfold reset_entry, Queue.is_in_flight. case_bool_decide; done.
Qed.

(** Queuing an edit or a deletion: on success one pending entry with a
    fresh identifier, the given object, base revision and envelope is
    added, the others keep their order, identifiers stay unique, and if the object is stored at that
    base revision its envelope is recorded as the base of a later
    three-way merge; on failure the queue is as before. *)
Lemma enqueue_adds ty oid kind rev env l r l' :
  NoDup (queue_ids (l_view l)) ->
  enqueue_with ty oid kind rev env l = (r, l') ->
  NoDup (queue_ids (l_view l')) /\
  match r with
  | Ok m => (exists pre post, mem_mutations (l_view l) = pre ++ post
               /\ mem_mutations (l_view l') = pre ++ m :: post)
            /\ mut_object_id m = oid /\ env_object_id (mut_envelope m) = oid
            /\ mut_expected_revision m = rev /\ mut_envelope m = env
            /\ mut_mutation_type m = ty /\ mut_status m = Pending
            /\ base_recorded (l_view l) oid rev (l_view l')
  | Err _ => only_bases (l_view l) (l_view l')
  end.
Proof.
  intros Hnd. as_wp. apply wp_enqueue_with.
  - intros t l1 m Henv Hfresh [_ (pre & post & Hpre & Hq) _ _] Hb _. split; [|split_and!; eauto].
    rewrite Hq, <- Permutation_middle, <- Hpre. by constructor.
  - intros e l1 Hob. split; [|done]. by rewrite (ob_mutations _ _ Hob).
Qed.
End trace.

(** ** Evaluations *)

#[local] Existing Instance sample_env.

(** Two failing acknowledgements (the object write, then the removal), a
    restart and a successful acknowledgement. *)
Lemma queue_no_silent_loss_witness :
  let ops := [OpAck "m1" 2 5; OpAck "m1" 2 5; OpReset; OpAck "m1" 2 5] in
  let l := faulty_local [false; true; false; false; true] in
  NoDup (queue_ids (l_view (exec_all ops l)))
  /\ mem_mutations (l_view (exec_all (take 2 ops) l)) = mem_mutations sample_store
  /\ mem_mutations (l_view (exec_all ops l)) = [sample_mutation "m2" "b" 0 Pending].
Proof.
  split; [|by vm_compute].
  apply (queue_no_silent_loss (S := FaultInjectableStorage)
    [OpAck "m1" 2 5; OpAck "m1" 2 5; OpReset; OpAck "m1" 2 5]
    (faulty_local [false; true; false; false; true]) (sample_mutation "m1" "a" 1 InFlight)).
  - apply (bool_decide_unpack _). by vm_compute.
  - apply (bool_decide_unpack _). by vm_compute.
Defined.

(** The removal fails after the object write: the mutation stays queued. *)
Lemma acknowledge_accepted_durable_witness :
  let '(r, l') := Queue.acknowledge_accepted "m1" 2 5 (faulty_local [false; false; true]) in
  is_ok r = false /\ mem_mutations (l_view l') = mem_mutations sample_store.
Proof.
  pose proof (acknowledge_accepted_durable "m1" 2 5 (faulty_local [false; false; true])
    _ _ (surjective_pairing _)) as H.
  split; [by vm_compute|]. apply H.
Defined.

Lemma reset_in_flight_restores_witness :
  let '(r, l') := Queue.reset_in_flight sample_local in
  r = Ok 1 /\ Forall (fun m => mut_status m <> InFlight) (mem_mutations (l_view l')).
Proof.
  assert (NoDup (queue_ids (l_view sample_local))) as Hnd
    by (apply (bool_decide_unpack _); by vm_compute).
  pose proof (reset_in_flight_restores sample_local _ _ Hnd (surjective_pairing _)) as H.
  split; [by vm_compute|]. apply H.
Defined.

Lemma enqueue_adds_witness :
  let '(r, l') := enqueue_with Delete "a" 1 1 (sample_envelope "a" "gone") sample_local in
  is_ok r = true /\ NoDup (queue_ids (l_view l')).
Proof.
  assert (NoDup (queue_ids (l_view sample_local))) as Hnd
    by (apply (bool_decide_unpack _); by vm_compute).
  pose proof (enqueue_adds Delete "a" 1 1 (sample_envelope "a" "gone") sample_local
    _ _ Hnd (surjective_pairing _)) as [H _].
  split; [by vm_compute|]. apply H.
Defined.
