(* ===== verification/Cursor.v ===== *)
(** * Durable synchronization cursor ([crates/zk-sync/src/cursor.rs])

    [DurableSyncCursor] over any backend: advancing, applying remote changes
    one by one, the device identifier.  Theorems: the cursor never regresses
    except by an explicit reset, and it never passes a change that is not in
    the object store, whatever storage call fails. *)

From stdpp Require Import options.
From S2P Require Import Prelude Protocol StorageModels Storage CoreErrors Time Env.

Inductive CursorError : Type :=
| CuE_Storage (e : StorageError)
| CuE_Regression (current attempted : N)
| CuE_NonMonotonicSequence (current incoming : N)
| CuE_InvalidInput (msg : string).

#[export] Instance CursorError_eq_dec : EqDecision CursorError.
Proof. solve_decision. Defined.

Definition CursorError_display (e : CursorError) : string :=
  match e with
  | CuE_Storage err => "sync cursor storage error: " +:+ StorageError_display err
  | CuE_Regression current attempted =>
      "cursor regression rejected: current is " +:+ show_N current
        +:+ ", attempted " +:+ show_N attempted
  | CuE_NonMonotonicSequence current incoming =>
      "non-monotonic sequence in changes: expected > " +:+ show_N current
        +:+ ", got " +:+ show_N incoming
  | CuE_InvalidInput msg => "invalid cursor operation: " +:+ msg
  end.

(** The row stored for a remote change. *)
Definition stored_of_change (change : ObjectChange) (now : string) : StoredEncryptedObject :=
  mkStoredObject (ch_object_id change) (ch_object_kind change) (ch_revision change)
    (ch_server_seq change) (ch_is_deleted change) (ch_envelope change) now.

Module Cursor.
Section ops.
Context {S : Type} `{LocalStorage S} `{!Env}.
Abbreviation C A := (M (Local S) CursorError A).
Abbreviation store op := (on_store CuE_Storage op).

Definition current_cursor : C N :=
  state ← store get_sync_state; mret (sync_cursor state).

Definition get_sync_state : C SyncState := store Storage.get_sync_state.

Definition advance_to (new_cursor : N) : C N :=
  current ← current_cursor;
  if (new_cursor <? current)%N then throw (CuE_Regression current new_cursor)
  else if (new_cursor =? current)%N then mret current
  else _ ← store (set_sync_cursor new_cursor); mret new_cursor.

(** The object store of [apply_change] is the client's backend. *)
Definition apply_change (change : ObjectChange) : C N :=
  current ← current_cursor;
  if (ch_server_seq change <=? current)%N then mret current
  else
    now ← now;
    _ ← store (put_object (stored_of_change change now));
    _ ← store (set_sync_cursor (ch_server_seq change));
    mret (ch_server_seq change).

(** The loop of [apply_changes_sequential]. *)
Fixpoint apply_loop (changes : list ObjectChange) (last_seq : N) : C N :=
  match changes with
  | [] => mret last_seq
  | change :: rest =>
      if (ch_server_seq change <=? last_seq)%N && (0 <? last_seq)%N then
        if (ch_server_seq change <? last_seq)%N
        then throw (CuE_NonMonotonicSequence last_seq (ch_server_seq change))
        else apply_loop rest last_seq
      else
        last_seq ← apply_change change;
        apply_loop rest last_seq
  end.

Definition apply_changes_sequential (changes : list ObjectChange) : C N :=
  last_seq ← current_cursor;
  apply_loop changes last_seq.

Definition record_sync_success : C unit :=
  state ← store Storage.get_sync_state;
  now ← now;
  store (set_sync_state (mkSyncState (sync_cursor state) (Some now) (device_id state))).

Definition get_or_create_device_id : C string :=
  state ← store Storage.get_sync_state;
  match device_id state with
  | Some dev_id =>
      if negb (bool_decide (dev_id = "")) then mret dev_id
      else
        new_id ← new_uuid;
        _ ← store (set_sync_state
                     (mkSyncState (sync_cursor state) (last_sync_at state) (Some new_id)));
        mret new_id
  | None =>
      new_id ← new_uuid;
      _ ← store (set_sync_state
                   (mkSyncState (sync_cursor state) (last_sync_at state) (Some new_id)));
      mret new_id
  end.

Definition reset_cursor_for_resync : C unit := store (set_sync_cursor 0).
End ops.
End Cursor.

(** ** Facts *)

Definition cursor_of (v : MemoryStorage) : N := sync_cursor (mem_sync_state v).

(** The change is in the object store, or a later one of the same object. *)
Definition applied (v : MemoryStorage) (c : ObjectChange) : Prop :=
  exists obj, mem_objects v !! ch_object_id c = Some obj
    /\ (ch_server_seq c <= obj_server_seq obj)%N.

(** Changes in the order of the feed: sequence numbers strictly increase. *)
Definition ascending (l : list ObjectChange) : Prop :=
  StronglySorted (fun a b => (ch_server_seq a < ch_server_seq b)%N) l.

(** What was applied stays applied, as long as what is written is newer. *)
Lemma applied_put v c c' t f :
  (ch_server_seq c' <= ch_server_seq c)%N -> applied v c' ->
  applied (with_sync_state f (with_objects <[ch_object_id c := stored_of_change c t]> v)) c'.
Proof.
  intros Hle (obj & Hobj & Hseq). unfold applied. mem_simpl.
  destruct (decide (ch_object_id c = ch_object_id c')) as [->|Hne].
  - rewrite lookup_insert_eq. eexists; split; [done|]. done.
  - rewrite lookup_insert_ne by done. eauto.
Qed.

Lemma applied_put_self v c t f :
  applied (with_sync_state f (with_objects <[ch_object_id c := stored_of_change c t]> v)) c.
Proof. unfold applied. mem_simpl. rewrite lookup_insert_eq. eexists; split; [done|]. done. Qed.

(** From [v] to [v'] the changes [pre] were applied. *)
Record progress (v : MemoryStorage) (pre : list ObjectChange) (v' : MemoryStorage) : Prop := {
  pg_cursor : (cursor_of v <= cursor_of v')%N;
  pg_reached : cursor_of v' = cursor_of v \/ exists c, c ∈ pre /\ cursor_of v' = ch_server_seq c;
  pg_bound : Forall (fun c => (ch_server_seq c <= cursor_of v')%N) pre;
  pg_applied : Forall (applied v') pre;
  pg_kept : forall c, (ch_server_seq c <= cursor_of v)%N -> applied v c -> applied v' c
}.

Lemma progress_refl v : progress v [] v.
Proof. split; auto with lia. Qed.

(** The write of a change newer than the cursor keeps the progress made. *)
Lemma progress_put v pre v1 c t :
  progress v pre v1 -> (cursor_of v1 < ch_server_seq c)%N ->
  progress v pre (with_objects <[ch_object_id c := stored_of_change c t]> v1).
Proof.
  intros [Hc Hr Hb Ha Hk] Hlt. split; try done.
  - rewrite Forall_forall in *. intros c' Hin.
    apply (applied_put v1 c c' t (fun st => st)); [|by apply Ha].
    specialize (Hb _ Hin). lia.
  - intros c' Hle Happ. apply (applied_put v1 c c' t (fun st => st)); [lia|auto].
Qed.

Lemma progress_advance v pre v1 c t f :
  progress v pre v1 -> (cursor_of v1 < ch_server_seq c)%N ->
  (forall st, sync_cursor (f st) = ch_server_seq c) ->
  progress v (pre ++ [c])
    (with_sync_state f (with_objects <[ch_object_id c := stored_of_change c t]> v1)).
Proof.
  intros [Hc Hr Hb Ha Hk] Hlt Hf.
  assert (cursor_of (with_sync_state f (with_objects <[ch_object_id c := stored_of_change c t]> v1))
          = ch_server_seq c) as Hcur by (unfold cursor_of; mem_simpl; apply Hf).
  rewrite Forall_forall in *. split; rewrite ?Hcur.
  - lia.
  - right. exists c. split; [|done]. apply elem_of_app; right; left.
  - apply Forall_app. split; [|by constructor]. apply Forall_forall. intros c' Hin.
    specialize (Hb _ Hin). lia.
  - apply Forall_app. split; [|constructor; [apply applied_put_self|done]].
    apply Forall_forall. intros c' Hin. specialize (Hb _ Hin). apply applied_put; [lia|auto].
  - intros c' Hle Happ. apply applied_put; [lia|auto].
Qed.

(** ** What the store holds after a list of changes *)

Definition of_id (id : string) (c : ObjectChange) : bool := bool_decide (ch_object_id c = id).

(** The last change of an object in a list. *)
Definition last_change (id : string) (l : list ObjectChange) : option ObjectChange :=
  last (List.filter (of_id id) l).

(** The stored object is the version the change carries, whenever it was stored. *)
Definition is_version (o : StoredEncryptedObject) (c : ObjectChange) : Prop :=
  obj_object_id o = ch_object_id c /\ obj_object_kind o = ch_object_kind c /\ obj_revision o = ch_revision c
  /\ obj_server_seq o = ch_server_seq c /\ obj_is_deleted o = ch_is_deleted c /\ obj_envelope o = ch_envelope c.

(** [pre] applied to [v] gives the objects of [v']: of every object with a change
    in [pre] exactly the last one (kind, revision, sequence, deletion flag and
    envelope); the others are as they were. *)
Definition stored_exactly (v : MemoryStorage) (pre : list ObjectChange) (v' : MemoryStorage) : Prop :=
  forall id, match last_change id pre with
             | Some c => exists o, mem_objects v' !! id = Some o /\ is_version o c
             | None => mem_objects v' !! id = mem_objects v !! id
             end.

Lemma stored_exactly_nil v v' : mem_objects v' = mem_objects v -> stored_exactly v [] v'.
Proof. intros Ho id. cbn. by rewrite Ho. Qed.

Lemma stored_exactly_one v c t f :
  stored_exactly v [c] (with_sync_state f (with_objects <[ch_object_id c := stored_of_change c t]> v)).
Proof.
  intros id. unfold last_change, of_id. cbn. case_bool_decide as Hid; mem_simpl.
  - subst id. eexists. by rewrite lookup_insert_eq.
  - by rewrite lookup_insert_ne.
Qed.

Lemma stored_exactly_app v pre v1 pre' v2 :
  stored_exactly v pre v1 -> stored_exactly v1 pre' v2 -> stored_exactly v (pre ++ pre') v2.
Proof.
  intros H1 H2 id. specialize (H1 id). specialize (H2 id). unfold last_change in *.
  rewrite List.filter_app, last_app. destruct (last (List.filter _ pre')); [done|]. by rewrite H2.
Qed.

Lemma stored_exactly_same v pre v1 v2 :
  stored_exactly v pre v1 -> mem_objects v2 = mem_objects v1 -> stored_exactly v pre v2.
Proof. intros H1 Ho id. specialize (H1 id). by rewrite Ho. Qed.

(** The store holds the change itself. *)
Definition holds_change (v : MemoryStorage) (c : ObjectChange) : Prop :=
  exists o, mem_objects v !! ch_object_id c = Some o /\ is_version o c.

(** When an object has at most one change in the list, that change is stored. *)
Lemma stored_exactly_in v pre v' c :
  stored_exactly v pre v' -> c ∈ pre -> (forall c', c' ∈ pre -> ch_object_id c' = ch_object_id c -> c' = c) ->
  holds_change v' c.
Proof.
  intros H Hin Huniq. specialize (H (ch_object_id c)). unfold last_change in H.
  destruct (last (List.filter _ pre)) as [d|] eqn:Hd.
  - apply last_Some_elem_of, list_elem_of_In, filter_In in Hd as [Hd Hid].
    unfold of_id in Hid. apply bool_decide_eq_true in Hid. apply list_elem_of_In in Hd.
    by rewrite <- (Huniq d Hd Hid) in H |- *.
  - exfalso. apply last_None in Hd. apply list_elem_of_In in Hin.
    assert (In c (List.filter (of_id (ch_object_id c)) pre)) as Hf
      by (apply filter_In; split; [done|by apply bool_decide_eq_true_2]).
    by rewrite Hd in Hf.
Qed.

Lemma stored_exactly_out v pre v' id :
  stored_exactly v pre v' -> (forall c, c ∈ pre -> ch_object_id c <> id) ->
  mem_objects v' !! id = mem_objects v !! id.
Proof.
  intros H Hout. specialize (H id). unfold last_change in H.
  destruct (last (List.filter _ pre)) as [d|] eqn:Hd; [exfalso|done].
  apply last_Some_elem_of, list_elem_of_In, filter_In in Hd as [Hd Hid].
  apply (Hout d); [by apply list_elem_of_In|]. unfold of_id in Hid. by apply bool_decide_eq_true in Hid.
Qed.

Section facts.
Context {S : Type} `{StorageSpec S} `{!Env}.
Implicit Types l : Local S.

Lemma wp_current_cursor Q l :
  (forall l', l_view l' = l_view l -> Q (Ok (cursor_of (l_view l))) l') ->
  (forall e l', l_view l' = l_view l -> Q (Err (CuE_Storage e)) l') ->
  wp Cursor.current_cursor Q l.
Proof. intros HQ HE. unfold Cursor.current_cursor. wp_steps; auto. Qed.

(** On success the change is stored at its sequence and the cursor is
    there, or it was old; on failure the cursor has not moved and at most
    the object was written. *)
Lemma wp_apply_change c Q l :
  (forall l', (cursor_of (l_view l) < ch_server_seq c)%N ->
     (exists t, l_view l' = with_sync_state
        (fun st => mkSyncState (ch_server_seq c) (last_sync_at st) (device_id st))
        (with_objects <[ch_object_id c := stored_of_change c t]> (l_view l))) ->
     Q (Ok (ch_server_seq c)) l') ->
  (forall l', (ch_server_seq c <= cursor_of (l_view l))%N -> l_view l' = l_view l ->
     Q (Ok (cursor_of (l_view l))) l') ->
  (forall e l', l_view l' = l_view l
     \/ ((cursor_of (l_view l) < ch_server_seq c)%N /\ exists t, l_view l' =
           with_objects <[ch_object_id c := stored_of_change c t]> (l_view l)) ->
     Q (Err e) l') ->
  wp (Cursor.apply_change c) Q l.
Proof.
  intros HQ Hold HE. unfold Cursor.apply_change. wp_step.
  apply wp_current_cursor; [intros l1 Hv1 | intros e l1 Hv1; auto].
  destruct (N.leb_spec (ch_server_seq c) (cursor_of (l_view l))) as [Hle|Hlt].
  - apply wp_ret. auto.
  - wp_steps.
    + apply HQ; [done|]. eexists. exact Hview1.
    + apply HE. right. eauto.
    + apply HE. auto.
Qed.

Lemma wp_apply_loop (rest : list ObjectChange) : forall pre v Q l,
  progress v pre (l_view l) -> ascending rest ->
  Forall (fun c => (cursor_of (l_view l) < ch_server_seq c)%N) rest ->
  (forall l', progress v (pre ++ rest) (l_view l') -> Q (Ok (cursor_of (l_view l'))) l') ->
  (forall e l' pre' rest', rest = pre' ++ rest' -> progress v (pre ++ pre') (l_view l') ->
     Q (Err e) l') ->
  wp (Cursor.apply_loop rest (cursor_of (l_view l))) Q l.
Proof.
  induction rest as [|c rest IH]; intros pre v Q l Hpg Hasc Hnew HQ HE; cbn [Cursor.apply_loop].
  { apply wp_ret, HQ. by rewrite app_nil_r. }
  apply Forall_cons in Hnew as [Hlt _]. apply StronglySorted_inv in Hasc as [Hasc Hrest].
  rewrite (proj2 (N.leb_gt _ _) Hlt). cbn [andb]. wp_step. apply wp_apply_change.
  - intros l' _ (t & Hv).
    assert (cursor_of (l_view l') = ch_server_seq c) as Hcur by (by rewrite Hv).
    rewrite <- Hcur. eapply (IH (pre ++ [c])); [|done|by rewrite Hcur| |].
    + rewrite Hv. by apply progress_advance.
    + intros l2. rewrite <- app_assoc. apply HQ.
    + intros e l2 pre' rest' Heq. rewrite <- app_assoc. apply (HE _ _ (c :: pre') rest').
      by rewrite Heq.
  - intros l' Hle. lia.
  - intros e l' Hl'. apply (HE _ _ [] (c :: rest)); [done|]. rewrite app_nil_r.
    destruct Hl' as [->|[_ (t & ->)]]; [done|]. by apply progress_put.
Qed.

Lemma wp_apply_changes_sequential changes Q l :
  ascending changes ->
  Forall (fun c => (cursor_of (l_view l) < ch_server_seq c)%N) changes ->
  (forall l', progress (l_view l) changes (l_view l') -> Q (Ok (cursor_of (l_view l'))) l') ->
  (forall e l' pre rest, changes = pre ++ rest -> progress (l_view l) pre (l_view l') ->
     Q (Err e) l') ->
  wp (Cursor.apply_changes_sequential changes) Q l.
Proof.
  intros Hasc Hnew HQ HE. unfold Cursor.apply_changes_sequential. wp_step.
  apply wp_current_cursor.
  - intros l1 Hv1. rewrite <- Hv1. eapply (wp_apply_loop changes [] (l_view l));
      [rewrite Hv1; apply progress_refl|done|by rewrite Hv1|done|].
    intros e l' pre rest. apply HE.
  - intros e l1 Hv1. apply (HE _ _ [] changes); [done|]. rewrite Hv1. apply progress_refl.
Qed.

(** *** Pull rounds against one feed *)

(** What the server returns after a cursor: the changes of the feed beyond it. *)
Definition feed_after (feed : list ObjectChange) (cursor : N) : list ObjectChange :=
  List.filter (fun c => (cursor <? ch_server_seq c)%N) feed.

(** Rounds of applying a page of at most [n] changes; a round may fail
    anywhere (a crash), and the next one starts from the stored cursor. *)
Fixpoint rounds (feed : list ObjectChange) (pages : list nat) (l : Local S) : Local S :=
  match pages with
  | [] => l
  | n :: pages' =>
      let page := take n (feed_after feed (cursor_of (l_view l))) in
      rounds feed pages' (Cursor.apply_changes_sequential page l).2
  end.
End facts.

Lemma feed_after_ascending feed cursor : ascending feed -> ascending (feed_after feed cursor).
Proof.
  unfold feed_after. induction 1 as [|c feed Hasc IH Hlt]; cbn; [constructor|].
  destruct (cursor <? ch_server_seq c)%N; [|done]. constructor; [done|].
  rewrite Forall_forall in *. intros c' Hin. apply Hlt.
  by apply list_elem_of_In, filter_In, proj1, list_elem_of_In in Hin.
Qed.

Lemma elem_of_feed_after feed cursor c :
  c ∈ feed_after feed cursor <-> c ∈ feed /\ (cursor < ch_server_seq c)%N.
Proof. unfold feed_after. by rewrite !list_elem_of_In, filter_In, N.ltb_lt. Qed.

(** In an ascending feed, a member up to one of a prefix is in the prefix. *)
Lemma ascending_prefix (pre rest : list ObjectChange) c c' :
  ascending (pre ++ rest) -> c ∈ pre ++ rest -> c' ∈ pre ->
  (ch_server_seq c <= ch_server_seq c')%N -> c ∈ pre.
Proof.
  intros Hasc [Hin|Hin]%elem_of_app Hc' Hle; [done|]. exfalso.
  induction pre as [|x pre IH]; [by inversion Hc'|].
  apply StronglySorted_inv in Hasc as [Hasc Hx]. rewrite Forall_forall in Hx.
  apply elem_of_cons in Hc' as [->|Hc']; [|by apply IH].
  specialize (Hx c). rewrite elem_of_app in Hx. specialize (Hx (or_intror Hin)). lia.
Qed.

Section claims.
Context {S : Type} `{StorageSpec S} `{!Env}.
Implicit Types l : Local S.

Lemma ascending_take n feed : ascending feed -> ascending (take n feed).
Proof. intros Hasc. rewrite <- (take_drop n feed) in Hasc. by eapply StronglySorted_app_1_l. Qed.

(** One round: the cursor advances, and every change of the feed it has
    passed is applied. *)
Lemma round_progress feed n l c0 :
  ascending feed ->
  let l' := (Cursor.apply_changes_sequential
               (take n (feed_after feed (cursor_of (l_view l)))) l).2 in
  (c0 <= cursor_of (l_view l))%N ->
  (forall c, c ∈ feed -> (c0 < ch_server_seq c <= cursor_of (l_view l))%N -> applied (l_view l) c) ->
  (cursor_of (l_view l) <= cursor_of (l_view l'))%N /\
  (forall c, c ∈ feed -> (c0 < ch_server_seq c <= cursor_of (l_view l'))%N -> applied (l_view l') c).
Proof.
  intros Hasc l' Hc0 Hinv.
  pose proof (feed_after_ascending feed (cursor_of (l_view l)) Hasc) as Hpasc.
  set (page := take n (feed_after feed (cursor_of (l_view l)))) in *.
  assert (exists pre rest, page = pre ++ rest /\ progress (l_view l) pre (l_view l'))
    as (pre & rest & Hpage & Hpg).
  { apply (wp_apply_changes_sequential page (fun _ l' => exists pre rest, page = pre ++ rest
       /\ progress (l_view l) pre (l_view l'))).
    - by apply ascending_take.
    - apply Forall_take, Forall_forall. by intros c [_ Hlt]%elem_of_feed_after.
    - intros l1 Hp. exists page, []. by rewrite app_nil_r.
    - eauto. }
  destruct Hpg as [Hcur Hreach _ Happ Hkept]. split; [done|].
  intros c Hin [Hlo Hhi].
  destruct (decide (ch_server_seq c <= cursor_of (l_view l))%N) as [Hle|Hgt]; [auto|].
  destruct Hreach as [Heq|(c' & Hc' & Heq)]; [lia|].
  rewrite Forall_forall in Happ. apply Happ.
  apply (ascending_prefix pre (rest ++ drop n (feed_after feed (cursor_of (l_view l)))) c c');
    try done; [..|lia].
  - rewrite app_assoc, <- Hpage. subst page. by rewrite take_drop.
  - rewrite app_assoc, <- Hpage. subst page. rewrite take_drop. apply elem_of_feed_after.
    split; [done|lia].
Qed.

Lemma rounds_inv feed pages : forall l c0,
  ascending feed -> (c0 <= cursor_of (l_view l))%N ->
  (forall c, c ∈ feed -> (c0 < ch_server_seq c <= cursor_of (l_view l))%N -> applied (l_view l) c) ->
  (cursor_of (l_view l) <= cursor_of (l_view (rounds feed pages l)))%N /\
  (forall c, c ∈ feed -> (c0 < ch_server_seq c <= cursor_of (l_view (rounds feed pages l)))%N ->
     applied (l_view (rounds feed pages l)) c).
Proof.
  induction pages as [|n pages IH]; intros l c0 Hasc Hc0 Hinv; cbn [rounds]; [by split|].
  destruct (round_progress feed n l c0 Hasc Hc0 Hinv) as [Hcur Hinv'].
  edestruct IH as [Hcur' ?]; [done| |exact Hinv'|]; [lia|]. split; [lia|done].
Qed.

(** Scenario E: through any number of pull rounds of any page sizes,
    each of which may be cut short by a storage failure at any point, the
    cursor never regresses and never passes a change of the server's feed
    that is not in the object store (at that change or a later one of the
    same object). *)
Lemma cursor_never_skips feed pages l :
  ascending feed ->
  (cursor_of (l_view l) <= cursor_of (l_view (rounds feed pages l)))%N /\
  (forall c, c ∈ feed ->
     (cursor_of (l_view l) < ch_server_seq c <= cursor_of (l_view (rounds feed pages l)))%N ->
     applied (l_view (rounds feed pages l)) c).
Proof. intros Hasc. apply rounds_inv; [done|lia|]. intros c _ ?. lia. Qed.

(** [advance_to] is monotone: a lower cursor is refused with the
    current and the attempted value and nothing is written; otherwise, if
    the backend does not fail, the stored cursor is the requested one. *)
Lemma advance_to_monotone n l r l' :
  Cursor.advance_to n l = (r, l') ->
  (cursor_of (l_view l) <= cursor_of (l_view l'))%N /\
  match r with
  | Ok c => c = n /\ cursor_of (l_view l') = n /\ mem_objects (l_view l') = mem_objects (l_view l)
  | Err (CuE_Regression cur att) => cur = cursor_of (l_view l) /\ att = n /\ (n < cur)%N
                                    /\ l_view l' = l_view l
  | Err _ => l_view l' = l_view l
  end.
Proof.
  as_wp. unfold Cursor.advance_to. wp_step.
  apply wp_current_cursor; [intros l1 Hv1 | intros e l1 Hv1].
  - destruct (N.ltb_spec n (cursor_of (l_view l))) as [Hlt|Hge].
    { apply wp_throw. rewrite Hv1. by split_and!; try lia. }
    destruct (N.eqb_spec n (cursor_of (l_view l))) as [Heq|Hne].
    { apply wp_ret. cbn beta iota. rewrite Hv1, <- Heq. by split_and!; try lia. }
    wp_steps.
    + unfold cursor_of in *; view_simpl. by split_and!.
    + rewrite Hview. by split; [lia|].
  - rewrite Hv1. by split; [lia|].
Qed.
End claims.

(** ** The in-memory backend does not fail *)

Section memory.
Context `{!Env}.
Implicit Types l : Local MemoryStorage.

Lemma apply_change_memory c l :
  (cursor_of (l_view l) < ch_server_seq c)%N ->
  exists l', Cursor.apply_change c l = (Ok (ch_server_seq c), l')
    /\ cursor_of (l_view l') = ch_server_seq c.
Proof.
  intros Hlt. unfold Cursor.apply_change. erewrite run_bind_ok by reflexivity.
  change (sync_cursor _) with (cursor_of (l_view l)). rewrite (proj2 (N.leb_gt _ _) Hlt).
  repeat (erewrite run_bind_ok by reflexivity). by eexists.
Qed.

Lemma apply_loop_memory changes : forall l,
  ascending changes -> Forall (fun c => (cursor_of (l_view l) < ch_server_seq c)%N) changes ->
  exists n l', Cursor.apply_loop changes (cursor_of (l_view l)) l = (Ok n, l').
Proof.
  induction changes as [|c changes IH]; intros l Hasc Hnew; cbn [Cursor.apply_loop]; [by eexists _, _|].
  apply Forall_cons in Hnew as [Hlt _]. apply StronglySorted_inv in Hasc as [Hasc Hrest].
  rewrite (proj2 (N.leb_gt _ _) Hlt). cbn [andb].
  destruct (apply_change_memory c l Hlt) as (l' & Hrun & Hcur).
  rewrite (run_bind_ok _ _ _ _ _ Hrun), <- Hcur. apply IH; [done|by rewrite Hcur].
Qed.

(** Applying a page to a working store returns: for changes in feed
    order beyond the cursor, [apply_changes_sequential] succeeds, every
    change is applied and the returned cursor is the stored one, which is
    the sequence of the last change (or unchanged for an empty page). *)
Lemma apply_changes_complete changes l :
  ascending changes -> Forall (fun c => (cursor_of (l_view l) < ch_server_seq c)%N) changes ->
  exists l', Cursor.apply_changes_sequential changes l = (Ok (cursor_of (l_view l')), l')
    /\ Forall (applied (l_view l')) changes
    /\ cursor_of (l_view l') = default (cursor_of (l_view l)) (ch_server_seq <$> last changes).
Proof.
  intros Hasc Hnew. destruct (apply_loop_memory changes l Hasc Hnew) as (n & l' & Hrun).
  assert (Cursor.apply_changes_sequential changes l = (Ok n, l')) as Hseq
    by (rewrite <- Hrun; clear; by destruct l).
  pose proof (wp_apply_changes_sequential changes
    (fun r l' => forall n, r = Ok n -> n = cursor_of (l_view l') /\ progress (l_view l) changes (l_view l'))
    l Hasc Hnew ltac:(naive_solver) ltac:(done)) as Hwp.
  destruct (wp_run _ _ _ _ _ Hwp Hseq n eq_refl) as [-> [Hcur Hreach Hb Ha _]].
  exists l'. split_and!; [done..|].
  destruct (last changes) as [c|] eqn:Hlast; cbn.
  - apply last_Some in Hlast as [pre ->]. rewrite Forall_app, Forall_singleton in Hb, Hnew.
    destruct Hb as [_ Hb], Hnew as [_ Hnew].
    destruct Hreach as [Heq|(c' & Hc' & Heq)]; [lia|].
    apply elem_of_app in Hc' as [Hc'|Hc']; [|by apply list_elem_of_singleton in Hc' as ->].
    apply StronglySorted_app in Hasc as (Hlt & _). specialize (Hlt c' c Hc' ltac:(left)). lia.
  - apply last_None in Hlast as ->. destruct Hreach as [|(c & Hc & _)]; [done|by inversion Hc].
Qed.
End memory.

(** ** Evaluations *)

#[local] Existing Instance sample_env.

Definition sample_change (oid : string) (rev seq : N) : ObjectChange :=
  mkObjectChange seq oid rev OBJECT_KIND_NOTE false (sample_envelope oid "remote").

(** Page of three; the disk fails at the second object write, then works. *)
Lemma cursor_never_skips_witness :
  let feed := [sample_change "a" 2 5; sample_change "b" 1 6; sample_change "a" 3 7] in
  let l := faulty_local [false; false; false; false; false; true] in
  cursor_of (l_view (rounds feed [3] l)) = 5%N
  /\ cursor_of (l_view (rounds feed [3; 3] l)) = 7%N
  /\ applied (l_view (rounds feed [3; 3] l)) (sample_change "b" 1 6).
Proof.
  split; [by vm_compute|]. split; [by vm_compute|].
  apply (cursor_never_skips (S := FaultInjectableStorage)
    [sample_change "a" 2 5; sample_change "b" 1 6; sample_change "a" 3 7] [3; 3]
    (faulty_local [false; false; false; false; false; true])).
  - repeat constructor.
  - apply (bool_decide_unpack _). by vm_compute.
  - split; by vm_compute.
Defined.

Lemma advance_to_monotone_witness :
  let '(r, l') := Cursor.advance_to 3 sample_local in
  r = Err (CuE_Regression 4 3) /\ cursor_of (l_view l') = 4%N.
Proof.
  pose proof (advance_to_monotone 3 sample_local _ _ (surjective_pairing _)) as [H _].
  split; [by vm_compute|]. apply N.le_antisymm; [by vm_compute|exact H].
Defined.

Lemma apply_changes_complete_witness :
  exists l', Cursor.apply_changes_sequential [sample_change "a" 2 5; sample_change "b" 1 6]
               sample_local = (Ok 6%N, l').
Proof.
  destruct (apply_changes_complete [sample_change "a" 2 5; sample_change "b" 1 6] sample_local)
    as (l' & Hrun & _ & Hcur).
  - repeat constructor.
  - repeat constructor.
  - exists l'. rewrite Hrun, Hcur. by vm_compute.
Defined.
