(* ===== verification/StateMachine.v ===== *)
(** * Synchronization state machine ([crates/zk-sync/src/state_machine.rs])

    [SyncStateMachine] emits the actions a platform driver executes.  Each
    handler is a function from the machine to the emitted actions and the
    machine afterwards; [now i] is the [i]-th reading of the clock in the
    call.  [run] feeds a sequence of driver events to the machine. *)

From stdpp Require Import options.
From S2P Require Import Prelude Protocol StorageModels.

Inductive SyncPhase : Type :=
| Initial | PullingInitial | Pushing | PullingFollowup | Complete | PhaseFailed.

#[export] Instance SyncPhase_eq_dec : EqDecision SyncPhase.
Proof. solve_decision. Defined.

Inductive SyncAction : Type :=
| FetchPull (after limit : N)
| StoreObject (object : StoredEncryptedObject)
| AdvanceCursor (cursor : N)
| ResetInFlightMutations
| MarkMutationInFlight (mutation_id : string) (retry_count : N)
| SendPush (request : PushRequest)
| AcknowledgeAccepted (object : StoredEncryptedObject) (mutation_id : string)
| RecordConflict (conflict_record : ConflictRecord) (mutation_id : string)
| ResetMutationToPending (mutation_id : string)
| MarkMutationFailed (mutation_id : string)
| UpdateSyncState (cursor : N) (last_sync_at : string).

#[export] Instance SyncAction_eq_dec : EqDecision SyncAction.
Proof. solve_decision. Defined.

Record SyncStateMachineOptions : Type := mkOptions {
  opt_page_limit : N;
  opt_stop_on_conflict : bool;
  opt_always_followup_pull : bool
}.

(** [impl Default for SyncStateMachineOptions] *)
Definition SyncStateMachineOptions_default : SyncStateMachineOptions := mkOptions 50 false false.

Record PullSummary : Type := mkPullSummary {
  ps_pages_fetched : nat;
  ps_total_changes : nat;
  ps_applied_changes : nat;
  ps_initial_cursor : N;
  ps_final_cursor : N
}.

Record PushSummary : Type := mkPushSummary {
  pu_total_attempted : nat;
  pu_accepted : list PushResponse;
  pu_conflicts : list ConflictRecord;
  pu_transient_failures : nat
}.

Record StateMachineReport : Type := mkReport {
  rep_initial_pull : PullSummary;
  rep_push : PushSummary;
  rep_followup_pull : option PullSummary;
  rep_initial_cursor : N;
  rep_final_cursor : N;
  rep_mutations_accepted : nat;
  rep_mutations_conflicted : nat;
  rep_mutations_remaining : nat
}.

Record SyncStateMachine : Type := mkMachine {
  sm_phase : SyncPhase;
  sm_initial_cursor : N;
  sm_current_cursor : N;
  sm_pending_mutations : list PendingMutation;
  sm_mutation_index : nat;
  sm_conflicted_objects : gset string;
  sm_page_limit : N;
  sm_stop_on_conflict : bool;
  sm_always_followup_pull : bool;
  sm_initial_pull : PullSummary;
  sm_followup_pull : option PullSummary;
  sm_push : PushSummary;
  sm_completed : bool
}.

(** [u32::clamp] *)
Definition clamp (lo hi n : N) : N := N.max lo (N.min hi n).

Definition PushSummary_default : PushSummary := mkPushSummary 0 [] [] 0.

(** [SyncStateMachine::new] *)
Definition SyncStateMachine_new (initial_cursor : N) (pending_mutations : list PendingMutation)
    (options : SyncStateMachineOptions) : SyncStateMachine :=
  mkMachine Initial initial_cursor initial_cursor pending_mutations 0 ∅
    (clamp 1 500 (opt_page_limit options)) (opt_stop_on_conflict options)
    (opt_always_followup_pull options)
    (mkPullSummary 0 0 0 initial_cursor initial_cursor) None PushSummary_default false.

(** ** Assignments to one field *)

Definition set_phase (p : SyncPhase) (sm : SyncStateMachine) : SyncStateMachine :=
  mkMachine p (sm_initial_cursor sm) (sm_current_cursor sm) (sm_pending_mutations sm)
    (sm_mutation_index sm) (sm_conflicted_objects sm) (sm_page_limit sm) (sm_stop_on_conflict sm)
    (sm_always_followup_pull sm) (sm_initial_pull sm) (sm_followup_pull sm) (sm_push sm)
    (sm_completed sm).
Definition set_cursor (c : N) (sm : SyncStateMachine) : SyncStateMachine :=
  mkMachine (sm_phase sm) (sm_initial_cursor sm) c (sm_pending_mutations sm)
    (sm_mutation_index sm) (sm_conflicted_objects sm) (sm_page_limit sm) (sm_stop_on_conflict sm)
    (sm_always_followup_pull sm) (sm_initial_pull sm) (sm_followup_pull sm) (sm_push sm)
    (sm_completed sm).
Definition set_index (i : nat) (sm : SyncStateMachine) : SyncStateMachine :=
  mkMachine (sm_phase sm) (sm_initial_cursor sm) (sm_current_cursor sm) (sm_pending_mutations sm)
    i (sm_conflicted_objects sm) (sm_page_limit sm) (sm_stop_on_conflict sm)
    (sm_always_followup_pull sm) (sm_initial_pull sm) (sm_followup_pull sm) (sm_push sm)
    (sm_completed sm).
Definition set_conflicted (s : gset string) (sm : SyncStateMachine) : SyncStateMachine :=
  mkMachine (sm_phase sm) (sm_initial_cursor sm) (sm_current_cursor sm) (sm_pending_mutations sm)
    (sm_mutation_index sm) s (sm_page_limit sm) (sm_stop_on_conflict sm)
    (sm_always_followup_pull sm) (sm_initial_pull sm) (sm_followup_pull sm) (sm_push sm)
    (sm_completed sm).
Definition set_push (p : PushSummary) (sm : SyncStateMachine) : SyncStateMachine :=
  mkMachine (sm_phase sm) (sm_initial_cursor sm) (sm_current_cursor sm) (sm_pending_mutations sm)
    (sm_mutation_index sm) (sm_conflicted_objects sm) (sm_page_limit sm) (sm_stop_on_conflict sm)
    (sm_always_followup_pull sm) (sm_initial_pull sm) (sm_followup_pull sm) p (sm_completed sm).
(** [summary] of [handle_pull_response] points into one of two fields. *)
Definition set_summary (is_initial : bool) (s : PullSummary) (sm : SyncStateMachine)
    : SyncStateMachine :=
  mkMachine (sm_phase sm) (sm_initial_cursor sm) (sm_current_cursor sm) (sm_pending_mutations sm)
    (sm_mutation_index sm) (sm_conflicted_objects sm) (sm_page_limit sm) (sm_stop_on_conflict sm)
    (sm_always_followup_pull sm)
    (if is_initial then s else sm_initial_pull sm)
    (if is_initial then sm_followup_pull sm else Some s) (sm_push sm) (sm_completed sm).
Definition set_completed (sm : SyncStateMachine) : SyncStateMachine :=
  mkMachine (sm_phase sm) (sm_initial_cursor sm) (sm_current_cursor sm) (sm_pending_mutations sm)
    (sm_mutation_index sm) (sm_conflicted_objects sm) (sm_page_limit sm) (sm_stop_on_conflict sm)
    (sm_always_followup_pull sm) (sm_initial_pull sm) (sm_followup_pull sm) (sm_push sm) true.

(** ** Handlers *)

Module Machine.
Section handlers.
Context (now : nat -> string).

(** [SyncStateMachine::start] *)
Definition start (sm : SyncStateMachine) : list SyncAction * SyncStateMachine :=
  ([ResetInFlightMutations; FetchPull (sm_current_cursor sm) (sm_page_limit sm)],
   set_phase PullingInitial sm).

(** The request of [step_push]. *)
Definition push_request (m : PendingMutation) : PushRequest :=
  mkPushRequest (mut_mutation_id m) (mut_object_id m) (mut_expected_revision m)
    (mut_object_kind m) (mut_envelope m) (bool_decide (mut_mutation_type m = Delete)).

(** The guards of the loop of [step_push]: which mutations it skips. *)
Definition skips (sm : SyncStateMachine) (m : PendingMutation) : bool :=
  (bool_decide (mut_status m <> Pending) && bool_decide (mut_status m <> InFlight))
  || bool_decide (mut_object_id m ∈ sm_conflicted_objects sm).

(** How far the loop runs: the first mutation from the index on that it does
    not skip, with its index. *)
Fixpoint next_push (skip : PendingMutation -> bool) (i : nat) (rest : list PendingMutation)
    : nat * option PendingMutation :=
  match rest with
  | [] => (i, None)
  | m :: rest' => if skip m then next_push skip (S i) rest' else (i, Some m)
  end.

(** What follows when the cycle has nothing left to push. *)
Definition finish_push (t : nat) (sm : SyncStateMachine) : list SyncAction * SyncStateMachine :=
  if negb (bool_decide (pu_accepted (sm_push sm) = [])) || sm_always_followup_pull sm then
    ([FetchPull (sm_current_cursor sm) (sm_page_limit sm)], set_phase PullingFollowup sm)
  else
    ([UpdateSyncState (sm_current_cursor sm) (now t)], set_completed (set_phase Complete sm)).

(** [SyncStateMachine::step_push]; [t] clock readings have been taken in the
    call before it. *)
Definition step_push (t : nat) (sm : SyncStateMachine) : list SyncAction * SyncStateMachine :=
  let '(i, next) :=
    next_push (skips sm) (sm_mutation_index sm)
      (drop (sm_mutation_index sm) (sm_pending_mutations sm)) in
  let sm := set_index i sm in
  match next with
  | Some m =>
      let p := sm_push sm in
      ([MarkMutationInFlight (mut_mutation_id m) (u32_add (mut_retry_count m) 1);
        SendPush (push_request m)],
       set_push (mkPushSummary (pu_total_attempted p + 1) (pu_accepted p) (pu_conflicts p)
                   (pu_transient_failures p)) sm)
  | None =>
      if (0 <? pu_transient_failures (sm_push sm))%nat then ([], set_phase PhaseFailed sm)
      else finish_push t sm
  end.

(** The loop over the changes of a page; [t] counts clock readings. *)
Fixpoint pull_loop (changes : list ObjectChange) (t : nat)
    (summary : PullSummary) (sm : SyncStateMachine)
    : list SyncAction * nat * PullSummary * SyncStateMachine :=
  match changes with
  | [] => ([], t, summary, sm)
  | change :: rest =>
      if (ch_server_seq change <=? sm_current_cursor sm)%N && (0 <? sm_current_cursor sm)%N
      then pull_loop rest t summary sm
      else
        let stored_obj := mkStoredObject (ch_object_id change) (ch_object_kind change)
          (ch_revision change) (ch_server_seq change) (ch_is_deleted change)
          (ch_envelope change) (now t) in
        let sm := set_cursor (ch_server_seq change) sm in
        let summary := mkPullSummary (ps_pages_fetched summary) (ps_total_changes summary)
          (ps_applied_changes summary + 1) (ps_initial_cursor summary) (sm_current_cursor sm) in
        let '(actions, t, summary, sm) := pull_loop rest (S t) summary sm in
        (StoreObject stored_obj :: AdvanceCursor (ch_server_seq change) :: actions, t, summary, sm)
  end.

(** [SyncStateMachine::handle_pull_response] *)
Definition handle_pull_response (resp : PullChangesResponse) (sm : SyncStateMachine)
    : list SyncAction * SyncStateMachine :=
  let is_initial := bool_decide (sm_phase sm = PullingInitial) in
  let summary :=
    if is_initial then sm_initial_pull sm
    else default (mkPullSummary 0 0 0 (sm_current_cursor sm) (sm_current_cursor sm))
           (sm_followup_pull sm) in
  let summary := mkPullSummary (ps_pages_fetched summary + 1)
    (ps_total_changes summary + length (pr_changes resp)) (ps_applied_changes summary)
    (ps_initial_cursor summary) (ps_final_cursor summary) in
  let '(actions, t, summary, sm) := pull_loop (pr_changes resp) 0 summary sm in
  let sm := set_summary is_initial summary sm in
  if pr_has_more resp then
    (actions ++ [FetchPull (sm_current_cursor sm) (sm_page_limit sm)], sm)
  else if is_initial then
    let '(more, sm) := step_push t (set_phase Pushing sm) in (actions ++ more, sm)
  else
    (actions ++ [UpdateSyncState (sm_current_cursor sm) (now t)],
     set_completed (set_phase Complete sm)).

(** The opening guard of the push handlers. *)
Definition in_flight (mutation_id : string) (sm : SyncStateMachine)
    : Result PendingMutation string :=
  match sm_pending_mutations sm !! sm_mutation_index sm with
  | None => Err "no mutation currently in flight"
  | Some m =>
      if bool_decide (mut_mutation_id m <> mutation_id) then
        Err ("mutation ID mismatch: expected '" +:+ mut_mutation_id m +:+ "', got '"
               +:+ mutation_id +:+ "'")
      else Ok m
  end.

(** [SyncStateMachine::handle_push_success] *)
Definition handle_push_success (mutation_id : string) (resp : PushResponse)
    (sm : SyncStateMachine) : Result (list SyncAction * SyncStateMachine) string :=
  m ← in_flight mutation_id sm;
  let stored_obj := mkStoredObject (resp_object_id resp) (mut_object_kind m)
    (resp_revision resp) (resp_server_seq resp) (bool_decide (mut_mutation_type m = Delete))
    (mut_envelope m) (now 0) in
  let p := sm_push sm in
  let sm := set_push (mkPushSummary (pu_total_attempted p) (pu_accepted p ++ [resp])
                        (pu_conflicts p) (pu_transient_failures p)) sm in
  let sm := set_index (sm_mutation_index sm + 1) sm in
  let '(more, sm) := step_push 1 sm in
  Ok (AcknowledgeAccepted stored_obj mutation_id :: more, sm).

(** [SyncStateMachine::handle_push_conflict] *)
Definition handle_push_conflict (mutation_id : string) (conflict_record : ConflictRecord)
    (sm : SyncStateMachine) : Result (list SyncAction * SyncStateMachine) string :=
  _ ← in_flight mutation_id sm;
  let sm := set_conflicted ({[cr_object_id conflict_record]} ∪ sm_conflicted_objects sm) sm in
  let p := sm_push sm in
  let sm := set_push (mkPushSummary (pu_total_attempted p) (pu_accepted p)
                        (pu_conflicts p ++ [conflict_record]) (pu_transient_failures p)) sm in
  let actions := [RecordConflict conflict_record mutation_id; ResetMutationToPending mutation_id] in
  let sm := set_index (sm_mutation_index sm + 1) sm in
  let '(more, sm) := if sm_stop_on_conflict sm then finish_push 0 sm else step_push 0 sm in
  Ok (actions ++ more, sm).

(** [SyncStateMachine::handle_push_transient_error] *)
Definition handle_push_transient_error (mutation_id : string) (sm : SyncStateMachine)
    : Result (list SyncAction * SyncStateMachine) string :=
  _ ← in_flight mutation_id sm;
  let p := sm_push sm in
  let sm := set_push (mkPushSummary (pu_total_attempted p) (pu_accepted p) (pu_conflicts p)
                        (pu_transient_failures p + 1)) sm in
  let sm := set_index (sm_mutation_index sm + 1) sm in
  Ok ([ResetMutationToPending mutation_id], set_phase PhaseFailed sm).

(** [SyncStateMachine::handle_push_fatal_error] *)
Definition handle_push_fatal_error (mutation_id error : string) (sm : SyncStateMachine)
    : Result (list SyncAction * SyncStateMachine) string :=
  Ok ([MarkMutationFailed mutation_id], set_phase PhaseFailed sm).
End handlers.

(** The count of [get_report]. *)
Definition mutations_remaining (sm : SyncStateMachine) : nat :=
  let accepted := pu_accepted (sm_push sm) in
  length (List.filter (fun m =>
    negb (existsb (fun a => bool_decide (resp_object_id a = mut_object_id m)
                            && negb (bool_decide (mut_mutation_id m = ""))) accepted))
    (sm_pending_mutations sm)) - length accepted.

(** [SyncStateMachine::get_report] *)
Definition get_report (sm : SyncStateMachine) : StateMachineReport :=
  mkReport (sm_initial_pull sm) (sm_push sm) (sm_followup_pull sm) (sm_initial_cursor sm)
    (sm_current_cursor sm) (length (pu_accepted (sm_push sm)))
    (length (pu_conflicts (sm_push sm))) (mutations_remaining sm).
End Machine.
