(* ===== verification/StateMachineFacts.v ===== *)
(** * Theorems about the synchronization state machine

    Runs of the machine under a driver's events: cursor discipline, conflict
    gating, at most one push per queued mutation, and that a completed cycle
    accounts for every mutation.  [pull_actions_match_cursor] relates the
    actions of a pulled page to the direct implementation in [Cursor]. *)

From stdpp Require Import options.
From S2P Require Import Prelude Protocol StorageModels Storage CoreErrors Time Env.
From S2P Require Import Cursor StateMachine.

(** ** Runs *)

Inductive Event : Type :=
| EvStart
| EvPull (resp : PullChangesResponse)
| EvSuccess (mutation_id : string) (resp : PushResponse)
| EvConflict (mutation_id : string) (record : ConflictRecord)
| EvTransient (mutation_id : string)
| EvFatal (mutation_id error : string).

Section runs.
Context (now : nat -> string).

(** A handler that returns an error emits nothing and, in every handler,
    has not touched the machine. *)
Definition or_same (r : Result (list SyncAction * SyncStateMachine) string)
    (sm : SyncStateMachine) : list SyncAction * SyncStateMachine :=
  match r with Ok x => x | Err _ => ([], sm) end.

Definition step (ev : Event) (sm : SyncStateMachine) : list SyncAction * SyncStateMachine :=
  match ev with
  | EvStart => Machine.start sm
  | EvPull resp => Machine.handle_pull_response now resp sm
  | EvSuccess id resp => or_same (Machine.handle_push_success now id resp sm) sm
  | EvConflict id record => or_same (Machine.handle_push_conflict now id record sm) sm
  | EvTransient id => or_same (Machine.handle_push_transient_error id sm) sm
  | EvFatal id error => or_same (Machine.handle_push_fatal_error id error sm) sm
  end.

Fixpoint run (evs : list Event) (sm : SyncStateMachine) : list SyncAction * SyncStateMachine :=
  match evs with
  | [] => ([], sm)
  | ev :: evs' =>
      let '(acts, sm1) := step ev sm in
      let '(acts', sm2) := run evs' sm1 in (acts ++ acts', sm2)
  end.

(** The driver answers what the machine asked for: a start first, pages
    while it pulls, an answer about the mutation in flight while it pushes
    (a conflict record being about that mutation's object). *)
Definition conforms (sm : SyncStateMachine) (ev : Event) : Prop :=
  match ev with
  | EvStart => sm_phase sm = Initial
  | EvPull _ => sm_phase sm = PullingInitial \/ sm_phase sm = PullingFollowup
  | EvConflict id record => sm_phase sm = Pushing
      /\ forall m, sm_pending_mutations sm !! sm_mutation_index sm = Some m ->
           cr_object_id record = mut_object_id m
  | _ => sm_phase sm = Pushing
  end.

Fixpoint conforming (evs : list Event) (sm : SyncStateMachine) : Prop :=
  match evs with
  | [] => True
  | ev :: evs' => conforms sm ev /\ conforming evs' (step ev sm).2
  end.

(** *** Basic facts of the pieces *)

Lemma run_cons ev evs sm :
  run (ev :: evs) sm = ((step ev sm).1 ++ (run evs (step ev sm).2).1, (run evs (step ev sm).2).2).
Proof. cbn. destruct (step ev sm) as [a sm1]; cbn. by destruct (run evs sm1). Qed.

Lemma run_app evs1 evs2 sm :
  run (evs1 ++ evs2) sm
  = ((run evs1 sm).1 ++ (run evs2 (run evs1 sm).2).1, (run evs2 (run evs1 sm).2).2).
Proof.
  revert sm. induction evs1 as [|ev evs1 IH]; intros sm.
  - cbn. by destruct (run evs2 sm).
  - rewrite <- app_comm_cons, !run_cons. cbn [fst snd]. rewrite IH. cbn [fst snd].
    by rewrite app_assoc.
Qed.

(** The loop of [step_push] skips a block and stops at the end or at the
    first mutation it does not skip. *)
Lemma next_push_spec skip i rest :
  exists k, Forall (fun m => skip m = true) (take k rest) /\ k <= length rest /\
    Machine.next_push skip i rest = (i + k, rest !! k) /\
    match rest !! k with Some m => skip m = false | None => k = length rest end.
Proof.
  revert i. induction rest as [|m rest IH]; intros i; cbn.
  - exists 0. by rewrite Nat.add_0_r.
  - destruct (skip m) eqn:Hs.
    + destruct (IH (S i)) as (k & Hall & Hle & Heq & Hstop). exists (S k). cbn.
      split_and!; [by constructor|lia|by rewrite Heq, Nat.add_succ_r|].
      destruct (rest !! k); [done|by rewrite Hstop].
    + exists 0. rewrite Nat.add_0_r. split_and!; [constructor|lia|done..].
Qed.

(** The two ways [step_push] ends. *)
Inductive pushed (t : nat) (sm : SyncStateMachine) : list SyncAction -> SyncStateMachine -> Prop :=
| pushed_next k m p :
    Forall (fun m => Machine.skips sm m = true)
      (take k (drop (sm_mutation_index sm) (sm_pending_mutations sm))) ->
    sm_pending_mutations sm !! (sm_mutation_index sm + k) = Some m ->
    Machine.skips sm m = false ->
    pu_accepted p = pu_accepted (sm_push sm) ->
    pushed t sm
      [MarkMutationInFlight (mut_mutation_id m) (u32_add (mut_retry_count m) 1);
       SendPush (Machine.push_request m)]
      (set_push p (set_index (sm_mutation_index sm + k) sm))
| pushed_end k acts sm' :
    Forall (fun m => Machine.skips sm m = true)
      (drop (sm_mutation_index sm) (sm_pending_mutations sm)) ->
    length (sm_pending_mutations sm) <= sm_mutation_index sm + k ->
    (if (0 <? pu_transient_failures (sm_push sm))%nat
     then ([], set_phase PhaseFailed (set_index (sm_mutation_index sm + k) sm))
     else Machine.finish_push now t (set_index (sm_mutation_index sm + k) sm)) = (acts, sm') ->
    pushed t sm acts sm'.

Lemma step_push_pushed t sm : pushed t sm (Machine.step_push now t sm).1 (Machine.step_push now t sm).2.
Proof.
  unfold Machine.step_push.
  destruct (next_push_spec (Machine.skips sm) (sm_mutation_index sm)
    (drop (sm_mutation_index sm) (sm_pending_mutations sm))) as (k & Hall & Hle & Heq & Hstop).
  rewrite Heq. rewrite lookup_drop in *.
  destruct (sm_pending_mutations sm !! (sm_mutation_index sm + k)) as [m|] eqn:Hm; cbn [fst snd].
  - by apply pushed_next.
  - apply (pushed_end _ _ k).
    + by rewrite take_ge in Hall by lia.
    + rewrite length_drop in Hstop. lia.
    + apply surjective_pairing.
Qed.
End runs.

(** ** Cursor discipline *)

(** From cursor [c] to [c'] along the emitted actions: an object is stored
    first and the cursor advanced to its sequence right after; the cursor
    never goes back; pages are fetched after it and the final sync state
    records it. *)
Inductive cursor_ok : N -> list SyncAction -> N -> Prop :=
| co_nil c : cursor_ok c [] c
| co_apply c obj n acts c' :
    obj_server_seq obj = n -> (c < n \/ c = 0)%N -> cursor_ok n acts c' ->
    cursor_ok c (StoreObject obj :: AdvanceCursor n :: acts) c'
| co_fetch c limit acts c' : cursor_ok c acts c' -> cursor_ok c (FetchPull c limit :: acts) c'
| co_update c t acts c' : cursor_ok c acts c' -> cursor_ok c (UpdateSyncState c t :: acts) c'
| co_queue c a acts c' :
    (match a with
     | FetchPull _ _ | StoreObject _ | AdvanceCursor _ | UpdateSyncState _ _ => False
     | _ => True
     end) -> cursor_ok c acts c' -> cursor_ok c (a :: acts) c'.

Create HintDb cursor.
#[local] Hint Constructors cursor_ok : cursor.

Lemma cursor_ok_app c a c' b c'' : cursor_ok c a c' -> cursor_ok c' b c'' -> cursor_ok c (a ++ b) c''.
Proof. induction 1; cbn; eauto with cursor. Qed.

Section cursor.
Context (now : nat -> string).

Lemma finish_push_cursor t sm acts sm' :
  Machine.finish_push now t sm = (acts, sm') ->
  cursor_ok (sm_current_cursor sm) acts (sm_current_cursor sm').
Proof. unfold Machine.finish_push. case_match; intros [= <- <-]; cbn; eauto with cursor. Qed.

Lemma step_push_cursor t sm :
  cursor_ok (sm_current_cursor sm) (Machine.step_push now t sm).1
    (sm_current_cursor (Machine.step_push now t sm).2).
Proof.
  destruct (step_push_pushed now t sm) as [|k acts sm' _ _ Heq]; [by repeat constructor|].
  destruct (0 <? _); [simplify_eq; constructor|].
  change (sm_current_cursor sm) with (sm_current_cursor (set_index (sm_mutation_index sm + k) sm)).
  by eapply finish_push_cursor.
Qed.

Lemma pull_loop_cursor changes : forall t summary sm acts t' summary' sm',
  Machine.pull_loop now changes t summary sm = (acts, t', summary', sm') ->
  cursor_ok (sm_current_cursor sm) acts (sm_current_cursor sm').
Proof.
  induction changes as [|c changes IH]; intros t summary sm acts t' summary' sm'; cbn [Machine.pull_loop].
  - intros [= <- _ _ <-]. constructor.
  - destruct (_ && _) eqn:Hskip; [apply IH|].
    destruct (Machine.pull_loop _ _ _ _ _) as [[[acts1 t1] summary1] sm1] eqn:Hrec.
    intros [= <- _ _ <-]. constructor; [done| |by apply IH in Hrec].
    apply andb_false_iff in Hskip as [?%N.leb_gt|?%N.ltb_ge]; [by left|right; lia].
Qed.

Lemma in_flight_ok id sm m :
  Machine.in_flight id sm = Ok m ->
  sm_pending_mutations sm !! sm_mutation_index sm = Some m /\ mut_mutation_id m = id.
Proof.
  unfold Machine.in_flight. destruct (_ !! _) as [m'|]; [|done].
  destruct (bool_decide _) eqn:Hid; [done|]. apply bool_decide_eq_false in Hid.
  intros [= ->]. split; [done|]. by apply dec_stable.
Qed.

Lemma step_cursor ev sm :
  cursor_ok (sm_current_cursor sm) (step now ev sm).1 (sm_current_cursor (step now ev sm).2).
Proof.
  destruct ev as [|resp|id resp|id record|id|id error]; cbn [step].
  - cbn. repeat constructor.
  - unfold Machine.handle_pull_response.
    destruct (Machine.pull_loop _ _ _ _ _) as [[[acts t] summary] sm1] eqn:Hloop.
    apply pull_loop_cursor in Hloop. destruct (pr_has_more resp); cbn [fst snd].
    { eapply cursor_ok_app; [done|]. cbn. repeat constructor. }
    case_match; cbn [fst snd].
    + pose proof (step_push_cursor t (set_phase Pushing (set_summary true summary sm1))) as Hp.
      destruct (Machine.step_push _ _ _) as [more sm2]. by eapply cursor_ok_app.
    + eapply cursor_ok_app; [done|]. cbn. repeat constructor.
  - unfold Machine.handle_push_success. destruct (Machine.in_flight id sm) as [m|e]; cbn -[Machine.step_push]; [|constructor].
    match goal with |- context [Machine.step_push now 1 ?s] =>
      pose proof (step_push_cursor 1 s) as Hp; destruct (Machine.step_push now 1 s) end.
    by constructor.
  - unfold Machine.handle_push_conflict. destruct (Machine.in_flight id sm) as [m|e]; cbn -[Machine.step_push Machine.finish_push]; [|constructor].
    destruct (sm_stop_on_conflict sm).
    + match goal with |- context [Machine.finish_push now 0 ?s] =>
        destruct (Machine.finish_push now 0 s) eqn:Hp; apply finish_push_cursor in Hp end.
      by repeat constructor.
    + match goal with |- context [Machine.step_push now 0 ?s] =>
        pose proof (step_push_cursor 0 s) as Hp; destruct (Machine.step_push now 0 s) end.
      by repeat constructor.
  - unfold Machine.handle_push_transient_error. destruct (Machine.in_flight id sm) as [m|e]; cbn; repeat constructor.
  - cbn. repeat constructor.
Qed.

(** Whatever the driver's events, every [AdvanceCursor] the machine emits
    directly follows the [StoreObject] of the change with that sequence, the
    cursor never goes back, every page is fetched after the cursor reached,
    the final sync state records it, and the machine's cursor is the last
    one emitted. *)
Lemma machine_cursor_discipline evs sm acts sm' :
  run now evs sm = (acts, sm') ->
  cursor_ok (sm_current_cursor sm) acts (sm_current_cursor sm').
Proof.
  revert sm acts sm'. induction evs as [|ev evs IH]; intros sm acts sm'.
  - intros [= <- <-]. constructor.
  - rewrite run_cons. intros [= <- <-]. eapply cursor_ok_app; [apply step_cursor|].
    apply IH. apply surjective_pairing.
Qed.
End cursor.

(** ** The queue side of a step *)

(** Actions that concern neither a push nor the queue. *)
Definition is_pull_action (a : SyncAction) : bool :=
  match a with
  | FetchPull _ _ | StoreObject _ | AdvanceCursor _ | UpdateSyncState _ _
  | ResetInFlightMutations => true
  | _ => false
  end.

Definition queue_part (sm : SyncStateMachine) :=
  (sm_pending_mutations sm, sm_mutation_index sm, sm_conflicted_objects sm, sm_push sm,
   sm_stop_on_conflict sm).

(** The object an accepted mutation is stored as. *)
Definition accepted_as (m : PendingMutation) (resp : PushResponse) (obj : StoredEncryptedObject)
    : Prop :=
  obj_envelope obj = mut_envelope m /\ obj_object_id obj = resp_object_id resp
  /\ obj_revision obj = resp_revision resp /\ obj_server_seq obj = resp_server_seq resp
  /\ obj_is_deleted obj = bool_decide (mut_mutation_type m = Delete).

Section steps.
Context (now : nat -> string).

(** The machine after an answer about the mutation at the index. *)
Definition answered (sm : SyncStateMachine) (cs : gset string) (p : PushSummary) : SyncStateMachine :=
  set_index (sm_mutation_index sm + 1) (set_push p (set_conflicted cs sm)).

Inductive step_rel : Event -> SyncStateMachine -> list SyncAction -> SyncStateMachine -> Prop :=
| sr_start sm acts : Forall (fun a => is_pull_action a = true) acts ->
    step_rel EvStart sm acts (set_phase PullingInitial sm)
| sr_page resp sm acts sm' :
    Forall (fun a => is_pull_action a = true) acts -> queue_part sm' = queue_part sm ->
    sm_phase sm' = sm_phase sm -> step_rel (EvPull resp) sm acts sm'
| sr_push resp sm acts sm1 t more sm' :
    sm_phase sm = PullingInitial -> Forall (fun a => is_pull_action a = true) acts ->
    queue_part sm1 = queue_part sm -> sm_phase sm1 = Pushing -> pushed now t sm1 more sm' ->
    step_rel (EvPull resp) sm (acts ++ more) sm'
| sr_done resp sm acts sm' :
    sm_phase sm <> PullingInitial -> Forall (fun a => is_pull_action a = true) acts ->
    queue_part sm' = queue_part sm -> sm_phase sm' = Complete ->
    step_rel (EvPull resp) sm acts sm'
| sr_success id resp sm m obj p more sm' :
    Machine.in_flight id sm = Ok m -> accepted_as m resp obj ->
    pu_accepted p = pu_accepted (sm_push sm) ++ [resp] ->
    pu_transient_failures p = pu_transient_failures (sm_push sm) ->
    pushed now 1 (answered sm (sm_conflicted_objects sm) p) more sm' ->
    step_rel (EvSuccess id resp) sm (AcknowledgeAccepted obj id :: more) sm'
| sr_conflict id record sm m p more sm' :
    Machine.in_flight id sm = Ok m -> sm_stop_on_conflict sm = false ->
    pu_accepted p = pu_accepted (sm_push sm) ->
    pu_transient_failures p = pu_transient_failures (sm_push sm) ->
    pushed now 0 (answered sm ({[cr_object_id record]} ∪ sm_conflicted_objects sm) p) more sm' ->
    step_rel (EvConflict id record) sm
      (RecordConflict record id :: ResetMutationToPending id :: more) sm'
| sr_conflict_stop id record sm m p more sm' :
    Machine.in_flight id sm = Ok m -> sm_stop_on_conflict sm = true ->
    pu_accepted p = pu_accepted (sm_push sm) ->
    Machine.finish_push now 0
      (answered sm ({[cr_object_id record]} ∪ sm_conflicted_objects sm) p) = (more, sm') ->
    step_rel (EvConflict id record) sm
      (RecordConflict record id :: ResetMutationToPending id :: more) sm'
| sr_transient id sm m p :
    Machine.in_flight id sm = Ok m -> pu_accepted p = pu_accepted (sm_push sm) ->
    step_rel (EvTransient id) sm [ResetMutationToPending id]
      (set_phase PhaseFailed (answered sm (sm_conflicted_objects sm) p))
| sr_fatal id error sm :
    step_rel (EvFatal id error) sm [MarkMutationFailed id] (set_phase PhaseFailed sm)
| sr_refused ev sm : step_rel ev sm [] sm.

Lemma pull_loop_queue changes : forall t summary sm acts t' summary' sm',
  Machine.pull_loop now changes t summary sm = (acts, t', summary', sm') ->
  Forall (fun a => is_pull_action a = true) acts /\ queue_part sm' = queue_part sm
  /\ sm_phase sm' = sm_phase sm.
Proof.
  induction changes as [|c changes IH]; intros t summary sm acts t' summary' sm'; cbn [Machine.pull_loop].
  - intros [= <- _ _ <-]. split_and!; [constructor|done..].
  - destruct (_ && _); [apply IH|].
    destruct (Machine.pull_loop _ _ _ _ _) as [[[acts1 t1] summary1] sm1] eqn:Hrec.
    intros [= <- _ _ <-]. apply IH in Hrec as (? & ? & ?). split_and!; [by repeat constructor|done..].
Qed.

Lemma pull_step_rel resp sm :
  step_rel (EvPull resp) sm (step now (EvPull resp) sm).1 (step now (EvPull resp) sm).2.
Proof.
  cbn [step]. unfold Machine.handle_pull_response.
  destruct (Machine.pull_loop _ _ _ _ _) as [[[acts t] summary] sm1] eqn:Hloop.
  apply pull_loop_queue in Hloop as (Hacts & Hq & Hph).
  assert (forall a, is_pull_action a = true ->
    Forall (fun a => is_pull_action a = true) (acts ++ [a])) as Hsnoc
    by (intros a Ha; apply Forall_app; split; [done|by apply Forall_singleton]).
  destruct (pr_has_more resp); [by apply sr_page; [apply Hsnoc|..]|].
  destruct (bool_decide _) eqn:Hi.
  - apply bool_decide_eq_true in Hi.
    pose proof (step_push_pushed now t (set_phase Pushing (set_summary true summary sm1))) as Hp.
    destruct (Machine.step_push _ _ _) as [more sm2]. by eapply sr_push; [..|exact Hp].
  - apply bool_decide_eq_false in Hi.
    by apply sr_done; [|apply Hsnoc|..].
Qed.

Lemma step_step_rel ev sm : step_rel ev sm (step now ev sm).1 (step now ev sm).2.
Proof.
  destruct ev as [|resp|id resp|id record|id|id error].
  - cbn. apply sr_start. repeat constructor.
  - apply pull_step_rel.
  - cbn [step]. unfold Machine.handle_push_success.
    destruct (Machine.in_flight id sm) as [m|e] eqn:Hm; cbn -[Machine.step_push]; [|constructor].
    match goal with |- context [Machine.step_push now 1 ?s] =>
      pose proof (step_push_pushed now 1 s) as Hp; destruct (Machine.step_push now 1 s) end.
    eapply sr_success; [done| |..|exact Hp]; [|done..]. by repeat split.
  - cbn [step]. unfold Machine.handle_push_conflict.
    destruct (Machine.in_flight id sm) as [m|e] eqn:Hm; cbn -[Machine.step_push Machine.finish_push]; [|constructor].
    destruct (sm_stop_on_conflict sm) eqn:Hstop.
    + match goal with |- context [Machine.finish_push now 0 ?s] =>
        destruct (Machine.finish_push now 0 s) eqn:Hp end.
      by eapply sr_conflict_stop; [..|exact Hp].
    + match goal with |- context [Machine.step_push now 0 ?s] =>
        pose proof (step_push_pushed now 0 s) as Hp; destruct (Machine.step_push now 0 s) end.
      by eapply sr_conflict; [..|exact Hp].
  - cbn [step]. unfold Machine.handle_push_transient_error.
    destruct (Machine.in_flight id sm) as [m|e] eqn:Hm; cbn; [|constructor].
    by eapply (sr_transient _ _ _ (mkPushSummary _ _ _ _)).
  - constructor.
Qed.
End steps.

(** ** Conflict gating *)

(** The objects with a recorded conflict after the actions. *)
Fixpoint conflicts (G : gset string) (acts : list SyncAction) : gset string :=
  match acts with
  | [] => G
  | RecordConflict r _ :: rest => conflicts ({[cr_object_id r]} ∪ G) rest
  | _ :: rest => conflicts G rest
  end.

(** No push of an object with a conflict recorded before it. *)
Fixpoint gated (G : gset string) (acts : list SyncAction) : Prop :=
  match acts with
  | [] => True
  | RecordConflict r _ :: rest => gated ({[cr_object_id r]} ∪ G) rest
  | SendPush req :: rest => req_object_id req ∉ G /\ gated G rest
  | _ :: rest => gated G rest
  end.

Lemma conflicts_app G a b : conflicts G (a ++ b) = conflicts (conflicts G a) b.
Proof. revert G. induction a as [|[] a IH]; intros G; cbn; auto. Qed.

Lemma gated_app G a b : gated G (a ++ b) <-> gated G a /\ gated (conflicts G a) b.
Proof. revert G. induction a as [|[] a IH]; intros G; cbn; rewrite ?IH; naive_solver. Qed.

Lemma conflicts_pull G acts : Forall (fun a => is_pull_action a = true) acts -> conflicts G acts = G.
Proof. induction 1 as [|[]]; cbn in *; done. Qed.

Lemma gated_pull G acts : Forall (fun a => is_pull_action a = true) acts -> gated G acts.
Proof. induction 1 as [|[]]; cbn in *; done. Qed.

Lemma conflicts_mono G acts : G ⊆ conflicts G acts.
Proof.
  revert G. induction acts as [|[] acts IH]; intros G; cbn; auto.
  etrans; [|apply IH]. set_solver.
Qed.

Lemma elem_of_conflicts o G acts :
  o ∈ conflicts G acts -> o ∈ G \/ exists r id, RecordConflict r id ∈ acts /\ cr_object_id r = o.
Proof.
  revert G. induction acts as [|a acts IH]; intros G Ho; [by left|].
  assert (forall G', o ∈ conflicts G' acts ->
    o ∈ G' \/ exists r id, RecordConflict r id ∈ a :: acts /\ cr_object_id r = o) as Hrest.
  { intros G' [?|(r & id & ? & ?)]%IH; [by left|]. right. exists r, id. split; [by right|done]. }
  destruct a; cbn in Ho; apply Hrest in Ho; auto.
  destruct Ho as [Ho|?]; [|by right]. apply elem_of_union in Ho as [->%elem_of_singleton|?]; [|by left].
  right. eexists _, _. split; [left|done].
Qed.

Lemma gated_later G acts1 r id acts2 req :
  gated G (acts1 ++ RecordConflict r id :: acts2) -> SendPush req ∈ acts2 ->
  req_object_id req <> cr_object_id r.
Proof.
  rewrite gated_app. cbn. intros [_ Hg] Hin Heq.
  apply list_elem_of_split in Hin as (b1 & b2 & ->). rewrite gated_app in Hg. cbn in Hg.
  destruct Hg as (_ & Hreq & _). apply Hreq. rewrite Heq.
  apply conflicts_mono. set_solver.
Qed.

Section gating.
Context (now : nat -> string).

Lemma finish_push_pull t sm acts sm' :
  Machine.finish_push now t sm = (acts, sm') ->
  Forall (fun a => is_pull_action a = true) acts /\ queue_part sm' = queue_part sm
  /\ (sm_phase sm' = PullingFollowup \/ sm_phase sm' = Complete).
Proof.
  unfold Machine.finish_push. case_match; intros [= <- <-].
  all: split_and!; [by repeat constructor|done|auto].
Qed.

Lemma pushed_gated t sm acts sm' :
  pushed now t sm acts sm' ->
  gated (sm_conflicted_objects sm) acts /\ conflicts (sm_conflicted_objects sm) acts = sm_conflicted_objects sm'
  /\ sm_conflicted_objects sm' = sm_conflicted_objects sm.
Proof.
  destruct 1 as [k m p _ _ Hskip _|k acts sm' _ _ Heq].
  - cbn. split_and!; try done. unfold Machine.skips in Hskip.
    apply orb_false_iff in Hskip as [_ Hskip]. by apply bool_decide_eq_false in Hskip.
  - destruct (0 <? _); [by simplify_eq|].
    apply finish_push_pull in Heq as (Hp & Hq & _). injection Hq as _ _ Hc _ _.
    rewrite conflicts_pull, Hc by done. split_and!; [by apply gated_pull|done..].
Qed.

Lemma step_gated ev sm acts sm' :
  step_rel now ev sm acts sm' ->
  gated (sm_conflicted_objects sm) acts
  /\ conflicts (sm_conflicted_objects sm) acts = sm_conflicted_objects sm'.
Proof.
  destruct 1 as [sm acts Hp|resp sm acts sm' Hp Hq _|resp sm acts sm1 t more sm' _ Hp Hq _ Hpush
    |resp sm acts sm' _ Hp Hq _|id resp sm m obj p more sm' _ _ _ _ Hpush
    |id record sm m p more sm' _ _ _ _ Hpush|id record sm m p more sm' _ _ _ Hfin| | |].
  all: try (injection Hq as _ _ Hc _ _; rewrite <- Hc).
  - split; [by apply gated_pull|by rewrite conflicts_pull].
  - rewrite Hc. split; [by apply gated_pull|by rewrite conflicts_pull].
  - apply pushed_gated in Hpush as (? & ? & ?).
    rewrite gated_app, conflicts_app, conflicts_pull by done. split_and!; [by apply gated_pull|done..].
  - split; [by apply gated_pull|by rewrite conflicts_pull].
  - apply pushed_gated in Hpush as (? & ? & ?). done.
  - apply pushed_gated in Hpush as (? & ? & ?). done.
  - apply finish_push_pull in Hfin as (Hp & Hq & _). injection Hq as _ _ Hc _ _.
    cbn. rewrite conflicts_pull by done. split; [by apply gated_pull|done].
  - done.
  - done.
  - done.
Qed.

Lemma run_gated evs sm :
  gated (sm_conflicted_objects sm) (run now evs sm).1
  /\ conflicts (sm_conflicted_objects sm) (run now evs sm).1 = sm_conflicted_objects (run now evs sm).2.
Proof.
  revert sm. induction evs as [|ev evs IH]; intros sm; [done|]. rewrite run_cons. cbn [fst snd].
  destruct (step_gated _ _ _ _ (step_step_rel now ev sm)) as [Hg Hc].
  destruct (IH (step now ev sm).2) as [Hg' Hc'].
  by rewrite gated_app, conflicts_app, Hc.
Qed.

(** C13. SEC-006: once a conflict is recorded for an object, no later push of
    that cycle is for the same object, whatever events the driver feeds. *)
Theorem no_push_after_conflict evs sm acts1 r id acts2 sm' req :
  run now evs sm = (acts1 ++ RecordConflict r id :: acts2, sm') ->
  SendPush req ∈ acts2 -> req_object_id req <> cr_object_id r.
Proof.
  intros Hrun. destruct (run_gated evs sm) as [Hg _]. rewrite Hrun in Hg.
  by eapply gated_later.
Qed.
End gating.

(** ** Every mutation is pushed at most once, in queue order *)

Definition sent (acts : list SyncAction) : list PushRequest :=
  omap (fun a => match a with SendPush r => Some r | _ => None end) acts.

Lemma sent_app a b : sent (a ++ b) = sent a ++ sent b.
Proof. apply omap_app. Qed.

Lemma sent_pull acts : Forall (fun a => is_pull_action a = true) acts -> sent acts = [].
Proof. induction 1 as [|[]]; cbn in *; done. Qed.

Lemma sublist_take_mono {A} (ms l : list A) i j :
  sublist ms (take i l) -> i <= j -> sublist ms (take j l).
Proof.
  intros Hs Hij. etrans; [done|].
  replace (take i l) with (take i (take j l)) by (rewrite take_take; f_equal; lia).
  apply sublist_take.
Qed.

Lemma sublist_take_snoc {A} (ms l : list A) i j m :
  sublist ms (take i l) -> i <= j -> l !! j = Some m -> sublist (ms ++ [m]) (take (S j) l).
Proof.
  intros Hs Hij Hm. rewrite (take_S_r _ _ _ Hm). apply sublist_app; [|done].
  by eapply sublist_take_mono.
Qed.

Section order.
Context (now : nat -> string).

(** What has been sent lies in the queue up to the current mutation. *)
Definition sent_in_order (sm : SyncStateMachine) (reqs : list PushRequest) : Prop :=
  exists ms, reqs = Machine.push_request <$> ms /\
    match sm_phase sm with
    | Initial | PullingInitial => ms = []
    | _ => sublist ms (take (S (sm_mutation_index sm)) (sm_pending_mutations sm))
    end.

Lemma sent_in_order_push t sm ms acts sm' i :
  pushed now t sm acts sm' -> sublist ms (take i (sm_pending_mutations sm)) ->
  i <= sm_mutation_index sm -> sm_phase sm <> Initial -> sm_phase sm <> PullingInitial ->
  sent_in_order sm' ((Machine.push_request <$> ms) ++ sent acts).
Proof.
  intros Hp Hs Hi Hp1 Hp2. destruct Hp as [k m p _ Hm _ _|k acts sm' _ _ Heq].
  - exists (ms ++ [m]). rewrite fmap_app. split; [done|]. cbn [sm_phase set_push set_index].
    assert (sublist (ms ++ [m]) (take (S (sm_mutation_index sm + k)) (sm_pending_mutations sm))).
    { by eapply sublist_take_snoc; [| |]; [done|lia|]. }
    by destruct (sm_phase sm).
  - assert (sublist ms (take (S (sm_mutation_index sm + k)) (sm_pending_mutations sm))) as Hs'.
    { eapply sublist_take_mono; [done|lia]. }
    exists ms. destruct (0 <? _).
    + simplify_eq. by rewrite app_nil_r.
    + apply finish_push_pull in Heq as (Hpull & Hq & Hph). injection Hq as Hpend Hidx _ _ _.
      rewrite sent_pull, app_nil_r by done. split; [done|]. rewrite Hpend, Hidx.
      by destruct Hph as [-> | ->].
Qed.

Lemma step_in_order ev sm acts sm' reqs :
  conforms sm ev -> step_rel now ev sm acts sm' -> sent_in_order sm reqs ->
  sent_in_order sm' (reqs ++ sent acts).
Proof.
  intros Hconf Hstep (ms & -> & Hms).
  destruct Hstep as [sm acts Hp|resp sm acts sm' Hp Hq Hph|resp sm acts sm1 t more sm' Hph Hp Hq Hph1 Hpush
    |resp sm acts sm' _ Hp Hq Hph|id resp sm m obj p more sm' Hm _ _ _ Hpush
    |id record sm m p more sm' Hm _ _ _ Hpush|id record sm m p more sm' Hm _ _ Hfin|id sm m p Hm| |];
    cbn in Hconf; try match type of Hconf with _ /\ _ => destruct Hconf as [Hconf _] end;
    try rewrite Hconf in Hms.
  - exists ms. rewrite sent_pull, app_nil_r by done. by split.
  - exists ms. rewrite sent_pull, app_nil_r, Hph by done. split; [done|].
    by injection Hq as -> -> _ _ _.
  - rewrite Hph in Hms. subst ms. rewrite sent_app, sent_pull by done.
    eapply (sent_in_order_push _ _ [] _ _ 0 Hpush); [apply sublist_nil_l|lia|by rewrite Hph1..].
  - exists ms. rewrite sent_pull, app_nil_r, Hph by done. split; [done|].
    injection Hq as -> -> _ _ _. destruct Hconf as [Hc|Hc]; rewrite Hc in Hms; subst; auto using sublist_nil_l.
  - eapply (sent_in_order_push _ _ ms _ _ _ Hpush); [done|cbn; lia|cbn; by rewrite Hconf..].
  - eapply (sent_in_order_push _ _ ms _ _ _ Hpush); [done|cbn; lia|cbn; by rewrite Hconf..].
  - apply finish_push_pull in Hfin as (Hp & Hq & Hph). injection Hq as Hpend Hidx _ _ _.
    exists ms. cbn. rewrite sent_pull, app_nil_r by done. split; [done|]. rewrite Hpend, Hidx. cbn.
    destruct Hph as [-> | ->]; (eapply sublist_take_mono; [done|lia]).
  - exists ms. cbn. rewrite app_nil_r. split; [done|]. eapply sublist_take_mono; [done|lia].
  - exists ms. cbn. rewrite app_nil_r. by split.
  - exists ms. cbn. rewrite app_nil_r. split; [done|]. destruct (sm_phase sm); done.
Qed.

Lemma run_in_order evs : forall sm reqs,
  conforming now evs sm -> sent_in_order sm reqs ->
  sent_in_order (run now evs sm).2 (reqs ++ sent (run now evs sm).1).
Proof.
  induction evs as [|ev evs IH]; intros sm reqs Hc Hin; cbn [conforming] in Hc.
  - cbn. by rewrite app_nil_r.
  - destruct Hc as [Hc Hcs]. rewrite run_cons. cbn [fst snd]. rewrite sent_app, app_assoc.
    apply IH; [done|]. eapply step_in_order; [done|apply step_step_rel|done].
Qed.

(** The queue snapshot and the options never change. *)
Lemma step_static ev sm :
  sm_pending_mutations (step now ev sm).2 = sm_pending_mutations sm
  /\ sm_stop_on_conflict (step now ev sm).2 = sm_stop_on_conflict sm.
Proof.
  assert (forall sm1 sm2, queue_part sm1 = queue_part sm2 ->
    sm_pending_mutations sm1 = sm_pending_mutations sm2
    /\ sm_stop_on_conflict sm1 = sm_stop_on_conflict sm2) as Hpart
    by (intros ? ? [= ? _ _ _ ?]; done).
  assert (forall t sm acts sm', pushed now t sm acts sm' ->
    sm_pending_mutations sm' = sm_pending_mutations sm
    /\ sm_stop_on_conflict sm' = sm_stop_on_conflict sm) as Hpushed.
  { destruct 1 as [|k acts sm' _ _ Heq]; [done|]. destruct (0 <? _); [by simplify_eq|].
    apply finish_push_pull in Heq as (_ & Hq & _). by apply Hpart in Hq. }
  destruct (step_step_rel now ev sm) as [|? ? ? ? ? Hq|? ? ? ? ? ? ? ? ? Hq ? Hp|? ? ? ? ? ? Hq|
    ? ? ? ? ? ? ? ? ? ? ? ? Hp|? ? ? ? ? ? ? ? ? ? ? Hp|? ? ? ? ? ? ? ? ? ? Hf| | |]; try done.
  all: try (by apply Hpart in Hq); try (by apply Hpushed in Hp).
  - apply Hpart in Hq as [<- <-]. by apply Hpushed in Hp.
  - apply finish_push_pull in Hf as (_ & Hq & _). by apply Hpart in Hq.
Qed.

Lemma run_pending evs sm : sm_pending_mutations (run now evs sm).2 = sm_pending_mutations sm.
Proof.
  revert sm. induction evs as [|ev evs IH]; intros sm; [done|].
  rewrite run_cons. cbn [snd]. rewrite IH. apply step_static.
Qed.

(** Under a driver that answers what it is asked, a cycle pushes each
    queued mutation at most once and in queue order, each with its own
    mutation identifier, base revision and envelope: the requests are those
    of a sublist of the queue. *)
Lemma pushes_follow_queue cursor pending options evs acts sm' :
  run now evs (SyncStateMachine_new cursor pending options) = (acts, sm') ->
  conforming now evs (SyncStateMachine_new cursor pending options) ->
  exists ms, sent acts = Machine.push_request <$> ms /\ sublist ms pending.
Proof.
  intros Hrun Hc.
  assert (sent_in_order (SyncStateMachine_new cursor pending options) []) as H0 by (by exists []).
  apply (run_in_order _ _ _ Hc) in H0.
  pose proof (run_pending evs (SyncStateMachine_new cursor pending options)) as Hpend.
  rewrite Hrun in H0, Hpend. cbn [fst snd] in *. destruct H0 as (ms & Heq & Hms).
  exists ms. split; [done|]. rewrite Hpend in Hms.
  destruct (sm_phase sm'); subst; try apply sublist_nil_l; (etrans; [exact Hms|apply sublist_take]).
Qed.
End order.

(** ** A completed cycle accounts for every mutation *)

Section accounting.
Context (now : nat -> string).

Definition acknowledged (acts : list SyncAction) (m : PendingMutation) : Prop :=
  exists obj, AcknowledgeAccepted obj (mut_mutation_id m) ∈ acts
    /\ obj_envelope obj = mut_envelope m.

Definition accounted (acts : list SyncAction) (sm : SyncStateMachine) (m : PendingMutation) : Prop :=
  mut_status m = Failed \/ acknowledged acts m \/ mut_object_id m ∈ sm_conflicted_objects sm.

(** Everything before position [i] is accounted for. *)
Definition accounted_to (acts : list SyncAction) (sm : SyncStateMachine) (i : nat) : Prop :=
  Forall (accounted acts sm) (take i (sm_pending_mutations sm)).

Record acc_inv (acts : list SyncAction) (sm : SyncStateMachine) : Prop := {
  ai_done : accounted_to acts sm (sm_mutation_index sm);
  ai_zero : sm_phase sm = Initial \/ sm_phase sm = PullingInitial -> sm_mutation_index sm = 0;
  ai_end : sm_phase sm = PullingFollowup \/ sm_phase sm = Complete ->
    length (sm_pending_mutations sm) <= sm_mutation_index sm
}.

(** The phase is known, and is none of those assumed. *)
Ltac other_phase := let H := fresh in intros [H|H]; exfalso; destruct_or?; congruence.

Lemma accounted_mono acts acts' sm sm' m :
  acts ⊆ acts' -> sm_conflicted_objects sm ⊆ sm_conflicted_objects sm' ->
  accounted acts sm m -> accounted acts' sm' m.
Proof.
  intros Ha Hc [?|[(obj & ? & ?)|?]]; [by left|right; left; exists obj; set_solver|right; right; set_solver].
Qed.

Lemma skips_accounted acts sm m : Machine.skips sm m = true -> accounted acts sm m.
Proof.
  unfold Machine.skips. rewrite orb_true_iff, andb_true_iff, !bool_decide_eq_true.
  intros [[H1 H2]|?]; [left|by right; right]. by destruct (mut_status m).
Qed.

Lemma accounted_to_mono acts acts' sm sm' i :
  acts ⊆ acts' -> sm_conflicted_objects sm ⊆ sm_conflicted_objects sm' ->
  sm_pending_mutations sm' = sm_pending_mutations sm ->
  accounted_to acts sm i -> accounted_to acts' sm' i.
Proof.
  intros Ha Hc Hp. unfold accounted_to. rewrite Hp. intros Hall.
  eapply Forall_impl; [done|]. intros m. by apply accounted_mono.
Qed.

Lemma pushed_acc t sm acts more sm' :
  pushed now t sm more sm' -> accounted_to acts sm (sm_mutation_index sm) ->
  sm_phase sm = Pushing -> sm_phase sm' = PhaseFailed \/ acc_inv acts sm'.
Proof.
  intros Hp Hacc Hph.
  assert (forall b, Forall (fun m => Machine.skips sm m = true) b -> Forall (accounted acts sm) b) as Hskip.
  { intros b Hb. eapply Forall_impl; [exact Hb|]. intros m. apply skips_accounted. }
  destruct Hp as [k m p Hall Hm _ _|k more sm' Hall Hlen Heq].
  - right. split; cbn; rewrite ?Hph; [|other_phase|other_phase].
    unfold accounted_to in *; cbn. rewrite <- (take_take_drop _ (sm_mutation_index sm) k).
    apply Forall_app. split; [exact Hacc|by apply Hskip].
  - destruct (0 <? _); [left; by simplify_eq|right].
    apply finish_push_pull in Heq as (_ & Hq & Hfin). injection Hq as Hpend Hidx Hcon _ _.
    cbn in Hpend, Hidx, Hcon. split; rewrite ?Hidx, ?Hpend; [|other_phase|done].
    eapply (accounted_to_mono acts acts sm); [done|by rewrite Hcon|done|].
    unfold accounted_to. rewrite take_ge by lia.
    rewrite <- (take_drop (sm_mutation_index sm) (sm_pending_mutations sm)).
    apply Forall_app. split; [exact Hacc|by apply Hskip].
Qed.

(** The current mutation is answered. *)
Lemma answered_acc acts acts' sm m cs p :
  accounted_to acts sm (sm_mutation_index sm) -> acts ⊆ acts' ->
  sm_pending_mutations sm !! sm_mutation_index sm = Some m ->
  sm_conflicted_objects sm ⊆ cs -> acknowledged acts' m \/ mut_object_id m ∈ cs ->
  accounted_to acts' (answered sm cs p) (sm_mutation_index (answered sm cs p)).
Proof.
  intros Hacc Hsub Hm Hcs Hans. unfold accounted_to. cbn [sm_mutation_index answered set_index].
  rewrite Nat.add_1_r. cbn [sm_pending_mutations answered set_index set_push set_conflicted].
  rewrite (take_S_r _ _ _ Hm). apply Forall_app. split.
  - by eapply (accounted_to_mono acts acts' sm (answered sm cs p) (sm_mutation_index sm)).
  - apply Forall_singleton. right. destruct Hans; [by left|by right].
Qed.

Lemma step_acc ev sm acts new sm' :
  conforms sm ev -> sm_stop_on_conflict sm = false -> step_rel now ev sm new sm' ->
  acc_inv acts sm -> sm_phase sm' = PhaseFailed \/ acc_inv (acts ++ new) sm'.
Proof.
  intros Hconf Hstop Hstep [Hdone Hzero Hend].
  assert (acts ⊆ acts ++ new) as Hsub by set_solver.
  destruct Hstep as [sm new Hp|resp sm new sm' Hp Hq Hph|resp sm new sm1 t more sm' Hph Hp Hq Hph1 Hpush
    |resp sm new sm' Hnp Hp Hq Hph|id resp sm m obj p more sm' Hm Hobj _ _ Hpush
    |id record sm m p more sm' Hm _ _ _ Hpush|id record sm m p more sm' Hm Hst _ Hfin|id sm m p Hm|id err sm|ev sm].
  - right. split; cbn; [by eapply (accounted_to_mono acts)|auto|other_phase].
  - right. injection Hq as Hpend Hidx Hcon _ _. split; rewrite ?Hph, ?Hidx, ?Hpend; auto.
    eapply (accounted_to_mono acts _ sm); [set_solver|by rewrite Hcon|done|exact Hdone].
  - injection Hq as Hpend Hidx Hcon _ _. eapply pushed_acc; [done| |done].
    rewrite Hidx. eapply (accounted_to_mono acts _ sm); [set_solver|by rewrite Hcon|done|exact Hdone].
  - right. injection Hq as Hpend Hidx Hcon _ _. cbn in Hconf.
    destruct Hconf as [?|Hfu]; [congruence|].
    split; rewrite ?Hph, ?Hidx, ?Hpend; [|other_phase|auto].
    eapply (accounted_to_mono acts _ sm); [set_solver|by rewrite Hcon|done|exact Hdone].
  - apply in_flight_ok in Hm as [Hm <-]. cbn in Hconf. eapply pushed_acc; [done| |done].
    eapply answered_acc; [done..|]. left. exists obj. destruct Hobj as [? _]. split; [set_solver|done].
  - apply in_flight_ok in Hm as [Hm <-]. destruct Hconf as [Hconf Hrec].
    eapply pushed_acc; [done| |done]. eapply answered_acc; [done..| |]; [set_solver|].
    right. rewrite (Hrec _ Hm). set_solver.
  - congruence.
  - by left.
  - by left.
  - right. rewrite app_nil_r. by split.
Qed.

Lemma run_acc evs : forall sm acts,
  conforming now evs sm -> sm_stop_on_conflict sm = false -> acc_inv acts sm ->
  sm_phase (run now evs sm).2 = PhaseFailed \/ acc_inv (acts ++ (run now evs sm).1) (run now evs sm).2.
Proof.
  induction evs as [|ev evs IH]; intros sm acts Hc Hstop Hinv; cbn [conforming] in Hc.
  - right. cbn. by rewrite app_nil_r.
  - destruct Hc as [Hc Hcs]. rewrite run_cons. cbn [fst snd]. rewrite app_assoc.
    destruct (step_acc _ _ _ _ _ Hc Hstop (step_step_rel now ev sm) Hinv) as [Hf|Hinv'].
    + left. destruct evs as [|ev' evs]; [done|]. cbn [conforming] in Hcs. destruct Hcs as [Hbad _].
      exfalso. destruct ev'; cbn in Hbad; destruct_and?; destruct_or?; congruence.
    + apply IH; [done|by rewrite (proj2 (step_static now ev sm))|done].
Qed.

(** No mutation is dropped: when a cycle that does not stop at conflicts
    completes, every queued mutation was marked failed earlier, or was
    accepted (and its removal was only emitted together with its envelope as
    the object to store), or its object has a recorded conflict and the
    mutation stays queued. *)
Lemma complete_cycle_accounts cursor pending limit followup evs acts sm' m :
  let sm := SyncStateMachine_new cursor pending (mkOptions limit false followup) in
  run now evs sm = (acts, sm') -> conforming now evs sm -> sm_phase sm' = Complete ->
  m ∈ pending ->
  mut_status m = Failed \/ acknowledged acts m
  \/ (exists r id, RecordConflict r id ∈ acts /\ cr_object_id r = mut_object_id m).
Proof.
  intros sm Hrun Hc Hph Hm.
  assert (acc_inv [] sm) as H0 by (split; cbn; [constructor|done|other_phase]).
  destruct (run_acc evs sm [] Hc eq_refl H0) as [Hf|[Hdone _ Hend]].
  { rewrite Hrun in Hf. cbn in Hf. congruence. }
  pose proof (run_pending now evs sm) as Hpend. destruct (run_gated now evs sm) as [_ Hcon].
  rewrite Hrun in *. cbn [fst snd app] in *. specialize (Hend (or_intror Hph)).
  unfold accounted_to in Hdone. rewrite take_ge in Hdone by done. rewrite Hpend in Hdone.
  rewrite Forall_forall in Hdone. destruct (Hdone m Hm) as [?|[?|Ho]]; [by left|by right; left|].
  right; right. rewrite <- Hcon in Ho. apply elem_of_conflicts in Ho as [Ho|?]; [|done].
  exfalso. cbn in Ho. set_solver.
Qed.
End accounting.

(** ** Agreement with the direct implementation *)

(** What a driver does with the storage actions of a page. *)
Definition exec_storage_action (v : MemoryStorage) (a : SyncAction) : MemoryStorage :=
  match a with
  | StoreObject object => (Memory.put_object object v).2
  | AdvanceCursor cursor => (Memory.set_sync_cursor cursor v).2
  | _ => v
  end.
Abbreviation exec_storage_actions v acts := (fold_left exec_storage_action acts v).

Section agreement.
Context `{!Env}.

Lemma pull_loop_agrees changes : forall (l : Local MemoryStorage) now t summary sm,
  ascending changes -> Forall (fun c => (sm_current_cursor sm < ch_server_seq c)%N) changes ->
  cursor_of (l_view l) = sm_current_cursor sm ->
  (forall i, now (t + i) = now_utc_rfc3339 (system_time (l_clock l + i))) ->
  let '(acts, _, _, sm') := Machine.pull_loop now changes t summary sm in
  exists l', Cursor.apply_loop changes (sm_current_cursor sm) l = (Ok (sm_current_cursor sm'), l')
    /\ exec_storage_actions (l_view l) acts = l_view l'.
Proof.
  induction changes as [|c changes IH]; intros l now t summary sm Hasc Hnew Hcur Hnow;
    cbn [Machine.pull_loop Cursor.apply_loop]; [by exists l|].
  apply Forall_cons in Hnew as [Hlt _]. apply StronglySorted_inv in Hasc as [Hasc Hrest].
  rewrite (proj2 (N.leb_gt _ _) Hlt). cbn [andb].
  set (sm1 := set_cursor (ch_server_seq c) sm).
  set (summary1 := mkPullSummary _ _ _ _ _).
  assert (exists l1, Cursor.apply_change c l = (Ok (ch_server_seq c), l1)
    /\ l_view l1 = exec_storage_actions (l_view l)
         [StoreObject (stored_of_change c (now t)); AdvanceCursor (ch_server_seq c)]
    /\ l_clock l1 = S (l_clock l)) as (l1 & Hrun & Hv1 & Hclk).
  { unfold Cursor.apply_change. erewrite run_bind_ok by reflexivity.
    change (sync_cursor _) with (cursor_of (l_view l)). rewrite Hcur, (proj2 (N.leb_gt _ _) Hlt).
    repeat (erewrite run_bind_ok by reflexivity). eexists. split_and!; [reflexivity| |reflexivity].
    specialize (Hnow 0). rewrite !Nat.add_0_r in Hnow. rewrite Hnow. reflexivity. }
  specialize (IH l1 now (S t) summary1 sm1 Hasc Hrest).
  destruct (Machine.pull_loop now changes (S t) summary1 sm1) as [[[acts t'] s'] sm'].
  destruct IH as (l' & Hloop & Hexec).
  { by rewrite Hv1. }
  { intros i. rewrite Hclk. specialize (Hnow (S i)). rewrite <- plus_n_Sm in Hnow.
    rewrite <- plus_n_Sm in Hnow. exact Hnow. }
  exists l'. rewrite (run_bind_ok _ _ _ _ _ Hrun). split; [exact Hloop|].
  rewrite <- Hexec, Hv1. reflexivity.
Qed.

(** The state machine and the direct cursor implementation agree: for a
    page in feed order beyond the cursor, executing the emitted storage
    actions one after the other leaves the store exactly as
    [apply_changes_sequential] does, and the machine's cursor is the one it
    returns. *)
Lemma pull_actions_match_cursor changes (l : Local MemoryStorage) summary sm :
  ascending changes -> Forall (fun c => (sm_current_cursor sm < ch_server_seq c)%N) changes ->
  cursor_of (l_view l) = sm_current_cursor sm ->
  let now i := now_utc_rfc3339 (system_time (l_clock l + i)) in
  let '(acts, _, _, sm') := Machine.pull_loop now changes 0 summary sm in
  exists l', Cursor.apply_changes_sequential changes l = (Ok (sm_current_cursor sm'), l')
    /\ exec_storage_actions (l_view l) acts = l_view l'.
Proof.
  intros Hasc Hnew Hcur now.
  pose proof (pull_loop_agrees changes l now 0 summary sm Hasc Hnew Hcur (fun _ => eq_refl)) as Hagree.
  destruct (Machine.pull_loop _ _ _ _ _) as [[[acts t'] s'] sm'].
  destruct Hagree as (l' & Hloop & Hexec). exists l'. split; [|done].
  unfold Cursor.apply_changes_sequential. rewrite <- Hloop, <- Hcur. by destruct l.
Qed.
End agreement.

(** ** The report *)

(** The report under-counts: [get_report] leaves out every mutation of
    an accepted object and then subtracts the number of acceptances once
    more.  In a cycle over two queued edits of two objects, one accepted and
    one in conflict, the conflicted edit stays queued (it is never
    acknowledged) and the report says that none remains. *)
Lemma get_report_undercounts :
  let pending := [sample_mutation "m1" "a" 1 Pending; sample_mutation "m2" "b" 1 Pending] in
  let sm := SyncStateMachine_new 4 pending SyncStateMachineOptions_default in
  let record := ConflictRecord_new "c1" "b" 1 1 2 None (sample_envelope "b" "local")
                  (sample_envelope "b" "remote") None "t" in
  let evs := [EvStart; EvPull (mkPullChangesResponse [] 4 false);
              EvSuccess "m1" (mkPushResponse "a" 2 5); EvConflict "m2" record;
              EvPull (mkPullChangesResponse [] 4 false)] in
  let '(acts, sm') := run (fun _ => "t") evs sm in
  sm_phase sm' = Complete
  /\ Forall (fun a => match a with AcknowledgeAccepted _ id => id <> "m2" | _ => True end) acts
  /\ rep_mutations_remaining (Machine.get_report sm') = 0.
Proof.
  vm_compute. split_and!; [done| |done]. repeat (constructor; try done).
Qed.

(** ** Evaluations *)

Definition sample_conflict : ConflictRecord :=
  ConflictRecord_new "c1" "a" 1 1 2 None (sample_envelope "a" "local")
    (sample_envelope "a" "remote") None "t".

(** Two edits of [a] and one of [b]: the first conflicts. *)
Definition sample_machine : SyncStateMachine :=
  SyncStateMachine_new 4 [sample_mutation "m1" "a" 1 Pending; sample_mutation "m2" "a" 2 Pending;
    sample_mutation "m3" "b" 0 Pending] SyncStateMachineOptions_default.
Definition sample_events : list Event :=
  [EvStart; EvPull (mkPullChangesResponse [sample_change "z" 1 5] 5 false);
   EvConflict "m1" sample_conflict; EvSuccess "m3" (mkPushResponse "b" 1 6);
   EvPull (mkPullChangesResponse [sample_change "b" 1 6] 6 false)].
Abbreviation sample_run := (run (fun _ => "t") sample_events sample_machine).

Lemma sample_conforming : conforming (fun _ => "t") sample_events sample_machine.
Proof.
  repeat split; try (vm_compute; auto; fail).
  intros m Hm. vm_compute in Hm. by simplify_eq.
Qed.

Lemma machine_cursor_discipline_witness : cursor_ok 4 sample_run.1 6.
Proof.
  change 4%N with (sm_current_cursor sample_machine).
  replace 6%N with (sm_current_cursor sample_run.2) by (by vm_compute).
  apply (machine_cursor_discipline (fun _ => "t") sample_events sample_machine).
  apply surjective_pairing.
Defined.

Lemma no_push_after_conflict_witness :
  exists acts1 acts2 sm', sample_run = (acts1 ++ RecordConflict sample_conflict "m1" :: acts2, sm')
    /\ exists req, SendPush req ∈ acts2 /\ req_object_id req <> "a".
Proof.
  exists (take 6 sample_run.1), (drop 7 sample_run.1), sample_run.2.
  assert (sample_run = (take 6 sample_run.1 ++ RecordConflict sample_conflict "m1"
            :: drop 7 sample_run.1, sample_run.2)) as Heq by (by vm_compute).
  split; [exact Heq|]. exists (Machine.push_request (sample_mutation "m3" "b" 0 Pending)).
  assert (SendPush (Machine.push_request (sample_mutation "m3" "b" 0 Pending)) ∈ drop 7 sample_run.1)
    as Hin by (apply (bool_decide_unpack _); by vm_compute).
  split; [exact Hin|].
  exact (no_push_after_conflict (fun _ => "t") sample_events sample_machine _ sample_conflict "m1"
    _ _ _ Heq Hin).
Defined.

Lemma pushes_follow_queue_witness :
  exists ms, sent sample_run.1 = Machine.push_request <$> ms
    /\ sublist ms (sm_pending_mutations sample_machine).
Proof.
  eapply (pushes_follow_queue (fun _ => "t") 4 (sm_pending_mutations sample_machine)
    SyncStateMachineOptions_default sample_events); [apply surjective_pairing|exact sample_conforming].
Defined.

Lemma complete_cycle_accounts_witness :
  exists r id, RecordConflict r id ∈ sample_run.1 /\ cr_object_id r = "a".
Proof.
  destruct (complete_cycle_accounts (fun _ => "t") 4 (sm_pending_mutations sample_machine) 50 false
    sample_events sample_run.1 sample_run.2 (sample_mutation "m2" "a" 2 Pending)) as [Hf|[Ha|Hc]].
  - apply surjective_pairing.
  - exact sample_conforming.
  - by vm_compute.
  - apply (bool_decide_unpack _). by vm_compute.
  - discriminate Hf.
  - destruct Ha as (obj & Hin & _). exfalso.
    assert (Forall (fun a => match a with AcknowledgeAccepted _ id => id <> "m2" | _ => True end)
      sample_run.1) as Hall by (vm_compute; repeat (constructor; try done)).
    rewrite Forall_forall in Hall. by apply (Hall _ Hin).
  - exact Hc.
Defined.

Lemma pull_actions_match_cursor_witness :
  let '(acts, _, _, sm') :=
    Machine.pull_loop (fun i => now_utc_rfc3339 (@system_time sample_env i)) [sample_change "z" 1 5] 0
      (sm_initial_pull sample_machine) sample_machine in
  exists l', @Cursor.apply_changes_sequential _ _ sample_env [sample_change "z" 1 5] sample_local
               = (Ok 5%N, l')
    /\ exec_storage_actions sample_store acts = l_view l'.
Proof.
  apply (@pull_actions_match_cursor sample_env [sample_change "z" 1 5] sample_local
    (sm_initial_pull sample_machine) sample_machine); [repeat constructor..|reflexivity].
Defined.
