(* ===== verification/ServerDb.v ===== *)
(** * Server database: compare-and-swap push, change feed, vaults and blobs
      ([apps/server/src/db/store.rs])

    The SQLite tables the store reads and writes are finite maps keyed by
    their primary keys; [CURRENT_TIMESTAMP] columns, which no modelled query
    reads back, are left out.  A statement that violates a key or a unique
    index fails, and a transaction that is not committed leaves the database
    as it was.  The store holds its connection behind a mutex, so a run of
    the server is a sequence of these operations.

    JSON, base64, UUID parsing and BLAKE2s are library code: parameters of
    the class [ServerLib], with what the store relies on in [ServerLibLaws]. *)

From stdpp Require Import options.
From S2P Require Import Prelude Protocol.

(** ** Library code *)

Record StoredKdfParams : Type := mkStoredKdfParams {
  skp_memory_kib : N;
  skp_iterations : N;
  skp_parallelism : N
}.

Class ServerLib : Type := {
  (** [Uuid::parse_str(s)] followed by [to_string()]: the canonical text. *)
  uuid_parse_str : string -> Result string string;
  (** [serde_json::to_vec] and [from_slice] on the stored values. *)
  key_to_vec : EncryptedKeyContainer -> string;
  key_from_slice : string -> Result EncryptedKeyContainer string;
  payload_to_vec : EncryptedPayloadContainer -> string;
  payload_from_slice : string -> Result EncryptedPayloadContainer string;
  resp_to_string : PushResponse -> string;
  resp_from_str : string -> Result PushResponse string;
  wvk_to_vec : WrappedVaultKey -> string;
  wvk_from_slice : string -> Result WrappedVaultKey string;
  kdfp_to_string : StoredKdfParams -> string;
  kdfp_from_str : string -> Result StoredKdfParams string;
  (** [Base64::decode_vec], [Base64::encode_string] *)
  base64_decode_vec : string -> Result string string;
  base64_encode_string : string -> string;
  (** [Blake2s256] over the concatenation of the updates. *)
  blake2s256 : string -> string
}.

Class ServerLibLaws `{ServerLib} : Prop := {
  uuid_canonical s u : uuid_parse_str s = Ok u -> uuid_parse_str u = Ok u;
  key_roundtrip k : key_from_slice (key_to_vec k) = Ok k;
  payload_roundtrip p : payload_from_slice (payload_to_vec p) = Ok p;
  resp_roundtrip r : resp_from_str (resp_to_string r) = Ok r;
  wvk_roundtrip w : wvk_from_slice (wvk_to_vec w) = Ok w;
  kdfp_roundtrip k : kdfp_from_str (kdfp_to_string k) = Ok k;
  (** standard base64 with padding is canonical *)
  base64_roundtrip s b : base64_decode_vec s = Ok b -> base64_encode_string b = s
}.

(** ** Integer casts of the columns *)

Definition as_i16 (n : N) : Z :=
  let z := (Z.of_N n mod 65536)%Z in if (z <? 32768)%Z then z else (z - 65536)%Z.
Definition as_u16 (z : Z) : N := Z.to_N (z mod 65536)%Z.
Definition as_i32 (n : N) : Z :=
  let z := (Z.of_N n mod 4294967296)%Z in
  if (z <? 2147483648)%Z then z else (z - 4294967296)%Z.
Definition as_u32 (z : Z) : N := Z.to_N (z mod 4294967296)%Z.

(** [to_le_bytes] of a [w]-byte integer. *)
Fixpoint le_bytes (w : nat) (n : N) : string :=
  match w with
  | O => ""
  | S w' => String (ascii_of_N (n mod 256)) (le_bytes w' (n / 256))
  end.

(** ** Errors and outcomes *)

Inductive DbError : Type :=
| DbE_Sqlite (msg : string)
| DbE_MigrationFailed (version : N) (message : string)
| DbE_SchemaVerificationFailed (msg : string)
| DbE_VaultAlreadyExists (account_id : string)
| DbE_Serialization (msg : string)
| DbE_InvalidBase64 (msg : string)
| DbE_InvalidUuid (msg : string)
| DbE_SshAuthFailed
| DbE_SshAccountNotFound
| DbE_SshCredentialAlreadyExists
| DbE_ChallengeNotFound
| DbE_ChallengeExpired
| DbE_CredentialNotFound
| DbE_CredentialAlreadyExists
| DbE_BlobSizeExceeded (max actual : N)
| DbE_AccountQuotaExceeded (quota requested : N).

#[export] Instance DbError_eq_dec : EqDecision DbError.
Proof. solve_decision. Defined.

Definition DbError_display (e : DbError) : string :=
  match e with
  | DbE_Sqlite e => "database failure: " +:+ e
  | DbE_MigrationFailed version message =>
      "migration " +:+ show_N version +:+ " failed: " +:+ message
  | DbE_SchemaVerificationFailed msg => "schema verification failed: " +:+ msg
  | DbE_VaultAlreadyExists id => "vault already exists for account '" +:+ id +:+ "'"
  | DbE_Serialization e => "serialization failure: " +:+ e
  | DbE_InvalidBase64 msg => "invalid base64 encoding: " +:+ msg
  | DbE_InvalidUuid msg => "invalid UUID format: " +:+ msg
  | DbE_SshAccountNotFound => "Unknown or inactive account"
  | DbE_SshCredentialAlreadyExists => "SSH public credential is already registered"
  | DbE_SshAuthFailed => "SSH authentication failed"
  | DbE_ChallengeNotFound => "webauthn challenge not found or already used"
  | DbE_ChallengeExpired => "webauthn challenge has expired"
  | DbE_CredentialNotFound => "webauthn credential not found"
  | DbE_CredentialAlreadyExists => "webauthn credential already registered"
  | DbE_BlobSizeExceeded max actual =>
      "blob size " +:+ show_N actual +:+ " bytes exceeds limit of " +:+ show_N max +:+ " bytes"
  | DbE_AccountQuotaExceeded quota requested =>
      "storage requested " +:+ show_N requested +:+ " bytes exceeds quota of "
      +:+ show_N quota +:+ " bytes"
  end.

Inductive PushOutcome : Type :=
| Success (resp : PushResponse)
| Conflict (conflict : ConflictResponse)
| ObjectNotFound (msg : string)
| ReplayMismatch (msg : string).

#[export] Instance PushOutcome_eq_dec : EqDecision PushOutcome.
Proof. solve_decision. Defined.

(** ** Tables *)

Record ObjectRow : Type := mkObjectRow {
  or_object_kind : Z;
  or_revision : Z;
  or_server_seq : Z;
  or_envelope_version : Z;
  or_wrapped_key : string;
  or_payload : string;
  or_is_deleted : bool
}.

Record HistoryRow : Type := mkHistoryRow {
  hr_server_seq : Z;
  hr_envelope_version : Z;
  hr_wrapped_key : string;
  hr_payload : string;
  hr_is_deleted : bool
}.

Record ProcessedRow : Type := mkProcessedRow {
  pm_object_id : string;
  pm_resulting_revision : Z;
  pm_resulting_server_seq : Z;
  pm_response_body : string;
  pm_request_hash : option string
}.

Record VaultRow : Type := mkVaultRow {
  vr_crypto_version : Z;
  vr_kdf_algorithm : string;
  vr_kdf_params : string;
  vr_kdf_salt : string;
  vr_wrapped_vault_key : string;
  vr_recovery_wrapped_vault_key : string
}.

Record BlobRow : Type := mkBlobRow {
  br_size : Z;
  br_data : string
}.

Record Db : Type := mkDb {
  db_accounts : gset string;
  db_vaults : gmap string VaultRow;
  db_sequences : gmap string Z;
  db_objects : gmap (string * string) ObjectRow;
  db_history : gmap (string * string * Z) HistoryRow;
  db_processed : gmap (string * string) ProcessedRow;
  db_blobs : gmap (string * string) BlobRow
}.

Definition Db_empty : Db := mkDb ∅ ∅ ∅ ∅ ∅ ∅ ∅.

Definition set_accounts (x : gset string) (db : Db) : Db :=
  mkDb x (db_vaults db) (db_sequences db) (db_objects db) (db_history db) (db_processed db) (db_blobs db).
Definition set_vaults (x : gmap string VaultRow) (db : Db) : Db :=
  mkDb (db_accounts db) x (db_sequences db) (db_objects db) (db_history db) (db_processed db) (db_blobs db).
Definition set_sequences (x : gmap string Z) (db : Db) : Db :=
  mkDb (db_accounts db) (db_vaults db) x (db_objects db) (db_history db) (db_processed db) (db_blobs db).
Definition set_objects (x : gmap (string * string) ObjectRow) (db : Db) : Db :=
  mkDb (db_accounts db) (db_vaults db) (db_sequences db) x (db_history db) (db_processed db) (db_blobs db).
Definition set_history (x : gmap (string * string * Z) HistoryRow) (db : Db) : Db :=
  mkDb (db_accounts db) (db_vaults db) (db_sequences db) (db_objects db) x (db_processed db) (db_blobs db).
Definition set_processed (x : gmap (string * string) ProcessedRow) (db : Db) : Db :=
  mkDb (db_accounts db) (db_vaults db) (db_sequences db) (db_objects db) (db_history db) x (db_blobs db).
Definition set_blobs (x : gmap (string * string) BlobRow) (db : Db) : Db :=
  mkDb (db_accounts db) (db_vaults db) (db_sequences db) (db_objects db) (db_history db) (db_processed db) x.

(** ** SQL statements *)

Module Sql.
Abbreviation Tx A := (M Db DbError A).

(** A statement on the database as it is. *)
Definition stmt {A} (f : Db -> Result A DbError * Db) : Tx A := f.

(** [SELECT .. WHERE] a primary key. *)
Definition select {K V} `{Countable K} (table : Db -> gmap K V) (k : K) : Tx (option V) :=
  fun db => (Ok (table db !! k), db).

(** [INSERT INTO]: fails when the primary key is taken. *)
Definition insert {K V} `{Countable K} (table : Db -> gmap K V) (set : gmap K V -> Db -> Db)
    (k : K) (v : V) : Tx unit :=
  fun db =>
    match table db !! k with
    | Some _ => (Err (DbE_Sqlite "UNIQUE constraint failed"), db)
    | None => (Ok tt, set (<[k := v]> (table db)) db)
    end.

(** The unique index [(account_id, server_seq)] of [encrypted_objects]:
    whether a row other than [k] has the sequence. *)
Definition seq_taken (db : Db) (k : string * string) (seq : Z) : bool :=
  existsb (fun kv => bool_decide (kv.1.1 = k.1) && negb (bool_decide (kv.1 = k))
                     && (or_server_seq kv.2 =? seq)%Z)
    (map_to_list (db_objects db)).

(** [INSERT INTO encrypted_objects] *)
Definition insert_object (k : string * string) (row : ObjectRow) : Tx unit :=
  fun db =>
    if seq_taken db k (or_server_seq row)
    then (Err (DbE_Sqlite "UNIQUE constraint failed"), db)
    else insert db_objects set_objects k row db.

(** [UPDATE encrypted_objects .. WHERE] the key: no row, no effect. *)
Definition update_object (k : string * string) (row : ObjectRow) : Tx unit :=
  fun db =>
    match db_objects db !! k with
    | None => (Ok tt, db)
    | Some _ =>
        if seq_taken db k (or_server_seq row)
        then (Err (DbE_Sqlite "UNIQUE constraint failed"), db)
        else (Ok tt, set_objects (<[k := row]> (db_objects db)) db)
    end.
End Sql.

(** ** ServerDb *)

Section store.
Context `{ServerLib}.
Abbreviation Tx A := (M Db DbError A).

(** [ensure_account]: [INSERT .. ON CONFLICT DO NOTHING]. *)
Definition ensure_account (account_id : string) : Tx unit :=
  fun db => (Ok tt, set_accounts ({[account_id]} ∪ db_accounts db) db).

Definition compute_mutation_request_hash (request : PushRequest) : string :=
  let e := req_envelope request in
  blake2s256
    (req_object_id request
     +:+ le_bytes 8 (req_expected_revision request)
     +:+ le_bytes 2 (req_object_kind request)
     +:+ le_bytes 1 (if req_is_deleted request then 1 else 0)
     +:+ le_bytes 4 (envelope_version e)
     +:+ env_object_id e
     +:+ le_bytes 2 (env_object_kind e)
     +:+ key_nonce (wrapped_key e)
     +:+ key_ciphertext (wrapped_key e)
     +:+ payload_nonce (payload e)
     +:+ payload_ciphertext (payload e)).

(** SQLite computes [current_seq + 1] past the largest [i64] as a REAL, which
    reading the column as an [i64] refuses. *)
Definition allocate_sequence_in_tx (account_id : string) : Tx N :=
  _ ← ensure_account account_id;
  Sql.stmt (fun db =>
    let next_seq := match db_sequences db !! account_id with
                    | None => 1%Z
                    | Some current_seq => (current_seq + 1)%Z
                    end in
    if (i64_max <? next_seq)%Z then (Err (DbE_Sqlite "invalid column type Real"), db)
    else (Ok (as_u64 next_seq),
          set_sequences (<[account_id := next_seq]> (db_sequences db)) db)).

(** [conn.transaction()], the body, and [commit] when asked to; a
    transaction that is dropped is rolled back. *)
Definition transaction {A} (commits : A -> bool) (body : Tx A) : Tx A :=
  fun db =>
    match body db with
    | (Ok a, db') => (Ok a, if commits a then db' else db)
    | (Err e, _) => (Err e, db)
    end.

Definition allocate_next_sequence (account_id : string) : Tx N :=
  transaction (fun _ => true) (allocate_sequence_in_tx account_id).

Definition current_sequence (account_id : string) : Tx N :=
  seq ← Sql.select db_sequences account_id;
  mret (match seq with Some s => as_u64 s | None => 0%N end).

Definition serde {A} (r : Result A string) : Tx A :=
  lift_result (result_map_err DbE_Serialization r).

(** [Uuid::parse_str(..).map_err(..)?] *)
Definition parse_uuid (what s : string) : Tx string :=
  lift_result (result_map_err (fun e => DbE_InvalidUuid ("invalid " +:+ what +:+ ": " +:+ e))
                 (uuid_parse_str s)).

(** Steps 1 and 2: the answer for a processed mutation. *)
Definition replay (request : PushRequest) (obj_str req_hash : string) (row : ProcessedRow)
    : Tx PushOutcome :=
  if bool_decide (pm_object_id row <> obj_str) then
    mret (ReplayMismatch ("mutation_id '" +:+ req_mutation_id request
      +:+ "' was previously processed for object '" +:+ pm_object_id row +:+ "', not '"
      +:+ obj_str +:+ "'"))
  else if match pm_request_hash row with
          | Some hash => bool_decide (hash <> req_hash)
          | None => false
          end then
    mret (ReplayMismatch ("mutation_id '" +:+ req_mutation_id request
      +:+ "' was previously processed with an incompatible payload"))
  else
    push_resp ← serde (resp_from_str (pm_response_body row));
    mret (Success push_resp).

(** Steps 4 and 5: the conflict answer carries the current ciphertext. *)
Definition conflict_outcome (request : PushRequest) (cur : ObjectRow) : Tx PushOutcome :=
  wrapped_key ← serde (key_from_slice (or_wrapped_key cur));
  payload ← serde (payload_from_slice (or_payload cur));
  let current_envelope := mkEnvelope (as_u32 (or_envelope_version cur)) (req_object_id request)
    (as_u16 (or_object_kind cur)) wrapped_key payload in
  mret (Conflict (mkConflictResponse ERROR_REVISION_CONFLICT (req_object_id request)
    (req_expected_revision request) (as_u64 (or_revision cur)) (as_u64 (or_server_seq cur))
    current_envelope (or_is_deleted cur))).

(** The row written for a request. *)
Definition new_row (request : PushRequest) (new_revision next_seq : N) : ObjectRow :=
  mkObjectRow (as_i16 (req_object_kind request)) (as_i64 new_revision) (as_i64 next_seq)
    (as_i32 (envelope_version (req_envelope request)))
    (key_to_vec (wrapped_key (req_envelope request)))
    (payload_to_vec (payload (req_envelope request))) (req_is_deleted request).

(** Step 10. *)
Definition persist_processed (acc_str mut_str obj_str req_hash : string) (request : PushRequest)
    (new_revision next_seq : N) : Tx PushOutcome :=
  let push_resp := mkPushResponse (req_object_id request) new_revision next_seq in
  _ ← Sql.insert db_processed set_processed (acc_str, mut_str)
        (mkProcessedRow obj_str (as_i64 new_revision) (as_i64 next_seq)
           (resp_to_string push_resp) (Some req_hash));
  mret (Success push_resp).

Definition history_of (cur : ObjectRow) : HistoryRow :=
  mkHistoryRow (or_server_seq cur) (or_envelope_version cur) (or_wrapped_key cur)
    (or_payload cur) (or_is_deleted cur).

Definition push_mutation_in_tx (acc_str : string) (request : PushRequest) : Tx PushOutcome :=
  obj_str ← parse_uuid "object_id" (req_object_id request);
  mut_str ← parse_uuid "mutation_id" (req_mutation_id request);
  let req_hash := compute_mutation_request_hash request in
  processed ← Sql.select db_processed (acc_str, mut_str);
  match processed with
  | Some row => replay request obj_str req_hash row
  | None =>
      existing_obj ← Sql.select db_objects (acc_str, obj_str);
      match existing_obj with
      | Some cur =>
          let cur_rev_u64 := as_u64 (or_revision cur) in
          if negb (req_expected_revision request =? cur_rev_u64)%N then
            conflict_outcome request cur
          else
            _ ← Sql.insert db_history set_history (acc_str, obj_str, or_revision cur)
                  (history_of cur);
            next_seq ← allocate_sequence_in_tx acc_str;
            let new_revision := u64_add cur_rev_u64 1 in
            _ ← Sql.update_object (acc_str, obj_str) (new_row request new_revision next_seq);
            persist_processed acc_str mut_str obj_str req_hash request new_revision next_seq
      | None =>
          if negb (req_expected_revision request =? 0)%N then
            mret (ObjectNotFound ("object '" +:+ req_object_id request
              +:+ "' not found, expected revision " +:+ show_N (req_expected_revision request)))
          else
            next_seq ← allocate_sequence_in_tx acc_str;
            _ ← Sql.insert_object (acc_str, obj_str) (new_row request 1 next_seq);
            persist_processed acc_str mut_str obj_str req_hash request 1 next_seq
      end
  end.

Definition is_success (o : PushOutcome) : bool :=
  match o with Success _ => true | _ => false end.

Definition push_mutation (account_id : string) (request : PushRequest) : Tx PushOutcome :=
  _ ← ensure_account account_id;
  transaction is_success (push_mutation_in_tx account_id request).

Definition get_encrypted_object (account_id object_id : string) : Tx (option ObjectRow) :=
  Sql.select db_objects (account_id, object_id).

Definition history_le (a b : Z * HistoryRow) : Prop := (a.1 <= b.1)%Z.
#[global] Instance history_le_dec : RelDecision history_le.
Proof. intros a b. apply Z_le_dec. Defined.

(** [ORDER BY revision ASC] *)
Definition get_object_history (account_id object_id : string) : Tx (list (Z * HistoryRow)) :=
  fun db =>
    let rows := omap (fun kv => if bool_decide (kv.1.1 = (account_id, object_id))
                                then Some (kv.1.2, kv.2) else None)
                  (map_to_list (db_history db)) in
    (Ok (merge_sort history_le rows), db).

(** *** Change feed *)

Definition row_le (a b : string * ObjectRow) : Prop := (or_server_seq a.2 <= or_server_seq b.2)%Z.
#[global] Instance row_le_dec : RelDecision row_le.
Proof. intros a b. apply Z_le_dec. Defined.

(** [WHERE account_id = ?1 AND server_seq > ?2 ORDER BY server_seq ASC]; the
    object identifier of each row with the row. *)
Definition rows_after (db : Db) (acc_str : string) (after : Z) : list (string * ObjectRow) :=
  merge_sort row_le
    (omap (fun kv => if bool_decide (kv.1.1 = acc_str) && (after <? or_server_seq kv.2)%Z
                     then Some (kv.1.2, kv.2) else None)
       (map_to_list (db_objects db))).

(** [LIMIT n]: a negative limit is none. *)
Definition sql_limit {A} (n : Z) (l : list A) : list A :=
  if (n <? 0)%Z then l else take (Z.to_nat n) l.

Definition change_of_row (obj_id_str : string) (row : ObjectRow) : Result ObjectChange DbError :=
  wrapped_key ← result_map_err DbE_Serialization (key_from_slice (or_wrapped_key row));
  payload ← result_map_err DbE_Serialization (payload_from_slice (or_payload row));
  let envelope := mkEnvelope (as_u32 (or_envelope_version row)) obj_id_str
    (as_u16 (or_object_kind row)) wrapped_key payload in
  Ok (mkObjectChange (as_u64 (or_server_seq row)) obj_id_str (as_u64 (or_revision row))
        (as_u16 (or_object_kind row)) (or_is_deleted row) envelope).

(** The loop over the fetched rows: at most [room] more items. *)
Fixpoint collect (room : nat) (rows : list (string * ObjectRow))
    : Result (list ObjectChange * bool) DbError :=
  match rows with
  | [] => Ok ([], false)
  | (obj_id_str, row) :: rest =>
      match room with
      | O => Ok ([], true)
      | S room' =>
          change ← change_of_row obj_id_str row;
          tail ← collect room' rest;
          Ok (change :: tail.1, tail.2)
      end
  end.

Definition pull_changes (account_id : string) (after : N) (limit : nat)
    : Tx PullChangesResponse :=
  _ ← ensure_account account_id;
  Sql.stmt (fun db =>
    let fetch_limit := as_i64 (N.min (N.of_nat limit + 1) u64_max) in
    let rows := sql_limit fetch_limit (rows_after db account_id (as_i64 after)) in
    (items ← collect limit rows;
     let next_cursor := match last items.1 with Some c => ch_server_seq c | None => after end in
     Ok (mkPullChangesResponse items.1 next_cursor items.2), db)).

(** *** Vault bootstrap *)

Definition create_vault_bootstrap (account_id : string) (bootstrap : VaultBootstrap) : Tx unit :=
  _ ← ensure_account account_id;
  existing ← Sql.select db_vaults account_id;
  match existing with
  | Some _ => throw (DbE_VaultAlreadyExists account_id)
  | None =>
      let kdf_params := mkStoredKdfParams (memory_kib (kdf bootstrap)) (iterations (kdf bootstrap))
        (parallelism (kdf bootstrap)) in
      kdf_salt_bytes ← lift_result
        (result_map_err (fun e => DbE_InvalidBase64 ("invalid KDF salt base64: " +:+ e))
           (base64_decode_vec (kdf_salt (kdf bootstrap))));
      Sql.insert db_vaults set_vaults account_id
        (mkVaultRow (Z.of_N (crypto_version bootstrap)) (kdf_algorithm (kdf bootstrap))
           (kdfp_to_string kdf_params) kdf_salt_bytes
           (wvk_to_vec (wrapped_vault_key bootstrap))
           (wvk_to_vec (recovery_wrapped_vault_key bootstrap)))
  end.

Definition get_vault_bootstrap (account_id : string) : Tx (option VaultBootstrap) :=
  found ← Sql.select db_vaults account_id;
  match found with
  | None => mret None
  | Some row =>
      kdf_params ← serde (kdfp_from_str (vr_kdf_params row));
      wvk ← serde (wvk_from_slice (vr_wrapped_vault_key row));
      recovery ← serde (wvk_from_slice (vr_recovery_wrapped_vault_key row));
      mret (Some (mkVaultBootstrap (as_u32 (vr_crypto_version row))
        (mkKdfParams (vr_kdf_algorithm row) (base64_encode_string (vr_kdf_salt row))
           (skp_memory_kib kdf_params) (skp_iterations kdf_params) (skp_parallelism kdf_params))
        wvk recovery))
  end.

(** *** Blobs *)

(** [SELECT COALESCE(SUM(size), 0) FROM blobs WHERE account_id = ?1] *)
Definition blob_usage (db : Db) (account_id : string) : Z :=
  map_fold (fun k row acc => if bool_decide (k.1 = account_id) then (br_size row + acc)%Z else acc)
    0%Z (db_blobs db).

(** Reading a byte count, which is negative only in a corrupt database. *)
Definition clamp_u64 (z : Z) : N := if (z <? 0)%Z then 0%N else as_u64 z.

Definition put_blob (account_id blob_id data : string) (account_blob_quota : N)
    (max_blob_size : nat) : Tx N :=
  if (max_blob_size <? String.length data)%nat then
    throw (DbE_BlobSizeExceeded (N.of_nat max_blob_size) (N.of_nat (String.length data)))
  else
    _ ← ensure_account account_id;
    Sql.stmt (fun db =>
      let existing_size := match db_blobs db !! (account_id, blob_id) with
                           | Some row => br_size row
                           | None => 0%Z
                           end in
      let current_usage := blob_usage db account_id in
      let new_size := N.of_nat (String.length data) in
      let projected_usage :=
        u64_add (clamp_u64 current_usage - clamp_u64 existing_size) new_size in
      if (account_blob_quota <? projected_usage)%N then
        (Err (DbE_AccountQuotaExceeded account_blob_quota projected_usage), db)
      else
        (Ok new_size,
         set_blobs (<[(account_id, blob_id) := mkBlobRow (as_i64 new_size) data]> (db_blobs db)) db)).

Definition get_blob (account_id blob_id : string) : Tx (option string) :=
  row ← Sql.select db_blobs (account_id, blob_id);
  mret (br_data <$> row).

Definition delete_blob (account_id blob_id : string) : Tx bool :=
  fun db => (Ok (bool_decide (is_Some (db_blobs db !! (account_id, blob_id)))),
             set_blobs (delete (account_id, blob_id) (db_blobs db)) db).

Definition get_account_blob_usage (account_id : string) : Tx N :=
  fun db => (Ok (clamp_u64 (blob_usage db account_id)), db).
End store.
