(* ===== verification/ServerSpec.v ===== *)
(** * What the sync server promises: a log of accepted mutations

    The abstract server is an append-only log.  A push is answered from the
    log: a known mutation identifier is replayed, a base revision that is
    not the object's latest is a conflict, otherwise the mutation is
    appended with the next revision of its object and the next sequence of
    its account.  [ServerDbFacts] proves that the SQL implementation of
    [ServerDb] refines it; this file proves what the log guarantees. *)

From stdpp Require Import options.
From S2P Require Import Prelude Protocol ServerDb.

Record Entry : Type := mkEntry {
  e_account : string;
  e_mutation : string;
  e_object : string;
  e_request : PushRequest;
  e_revision : N;
  e_seq : N
}.

Record Log : Type := mkLog {
  entries : list Entry;
  (** the sequence counter of each account *)
  counter : gmap string N
}.

Definition Log_empty : Log := mkLog [] ∅.

Definition account_seq (log : Log) (a : string) : N := default 0%N (counter log !! a).

Definition of_object (a o : string) (e : Entry) : bool :=
  bool_decide (e_account e = a) && bool_decide (e_object e = o).
Definition of_mutation (a m : string) (e : Entry) : bool :=
  bool_decide (e_account e = a) && bool_decide (e_mutation e = m).

(** The versions of an object, oldest first. *)
Definition versions (log : Log) (a o : string) : list Entry :=
  List.filter (of_object a o) (entries log).

Definition response_of (e : Entry) : PushResponse :=
  mkPushResponse (req_object_id (e_request e)) (e_revision e) (e_seq e).

Definition append (log : Log) (a m o : string) (request : PushRequest) (revision : N)
    : PushOutcome * Log :=
  let seq := (account_seq log a + 1)%N in
  let e := mkEntry a m o request revision seq in
  (Success (response_of e), mkLog (entries log ++ [e]) (<[a := seq]> (counter log))).

Section spec.
Context `{ServerLib}.

Definition conflict_of (request : PushRequest) (e : Entry) : ConflictResponse :=
  let cur := e_request e in
  mkConflictResponse ERROR_REVISION_CONFLICT (req_object_id request)
    (req_expected_revision request) (e_revision e) (e_seq e)
    (mkEnvelope (envelope_version (req_envelope cur)) (req_object_id request)
       (req_object_kind cur) (wrapped_key (req_envelope cur)) (payload (req_envelope cur)))
    (req_is_deleted cur).

(** The answer to account [a] for the request with canonical object and
    mutation identifiers [o] and [m]. *)
Definition spec_push (a o m : string) (request : PushRequest) (log : Log) : PushOutcome * Log :=
  match find_first (of_mutation a m) (entries log) with
  | Some e =>
      if bool_decide (e_object e <> o) then
        (ReplayMismatch ("mutation_id '" +:+ req_mutation_id request
           +:+ "' was previously processed for object '" +:+ e_object e +:+ "', not '"
           +:+ o +:+ "'"), log)
      else if bool_decide (compute_mutation_request_hash (e_request e)
                           <> compute_mutation_request_hash request) then
        (ReplayMismatch ("mutation_id '" +:+ req_mutation_id request
           +:+ "' was previously processed with an incompatible payload"), log)
      else (Success (response_of e), log)
  | None =>
      match last (versions log a o) with
      | Some cur =>
          if negb (req_expected_revision request =? e_revision cur)%N
          then (Conflict (conflict_of request cur), log)
          else append log a m o request (e_revision cur + 1)
      | None =>
          if negb (req_expected_revision request =? 0)%N then
            (ObjectNotFound ("object '" +:+ req_object_id request
               +:+ "' not found, expected revision " +:+ show_N (req_expected_revision request)), log)
          else append log a m o request 1
      end
  end.
End spec.

(** ** Well-formed logs *)

(** What the types of the request's fields bound. *)
Record request_bounds (r : PushRequest) : Prop := {
  rb_kind : (req_object_kind r < 65536)%N;
  rb_version : (envelope_version (req_envelope r) < 4294967296)%N
}.

Record log_wf (log : Log) : Prop := {
  wf_revisions a o i e : versions log a o !! i = Some e -> e_revision e = N.of_nat (S i);
  wf_seq e : e ∈ entries log -> (1 <= e_revision e <= e_seq e /\ e_seq e <= account_seq log (e_account e))%N;
  wf_ascending : StronglySorted (fun e e' => e_account e = e_account e' -> (e_seq e < e_seq e')%N)
                   (entries log);
  wf_mutations : NoDup ((fun e => (e_account e, e_mutation e)) <$> entries log);
  wf_bounds e : e ∈ entries log -> request_bounds (e_request e);
  wf_base e : e ∈ entries log -> e_revision e = (req_expected_revision (e_request e) + 1)%N
}.

Lemma elem_of_versions log a o e :
  e ∈ versions log a o <-> e ∈ entries log /\ e_account e = a /\ e_object e = o.
Proof.
  unfold versions. rewrite !list_elem_of_In, filter_In. unfold of_object.
  by rewrite andb_true_iff, !bool_decide_eq_true.
Qed.

Lemma of_object_true a o e : of_object a o e = true <-> e_account e = a /\ e_object e = o.
Proof. unfold of_object. by rewrite andb_true_iff, !bool_decide_eq_true. Qed.

Lemma of_mutation_true a m e : of_mutation a m e = true <-> e_account e = a /\ e_mutation e = m.
Proof. unfold of_mutation. by rewrite andb_true_iff, !bool_decide_eq_true. Qed.

Lemma versions_append log e c a o :
  versions (mkLog (entries log ++ [e]) c) a o
  = versions log a o ++ (if of_object a o e then [e] else []).
Proof. unfold versions. cbn. rewrite List.filter_app. cbn. by destruct (of_object a o e). Qed.

Lemma last_version_revision log a o e :
  log_wf log -> last (versions log a o) = Some e -> e_revision e = N.of_nat (length (versions log a o)).
Proof.
  intros Hwf Hlast. rewrite last_lookup in Hlast.
  pose proof (wf_revisions log Hwf _ _ _ _ Hlast) as ->. destruct (versions log a o); done.
Qed.

Lemma log_wf_append log a m o request :
  log_wf log -> find_first (of_mutation a m) (entries log) = None -> request_bounds request ->
  let seq := (account_seq log a + 1)%N in
  let rev := N.of_nat (S (length (versions log a o))) in
  (rev <= seq)%N -> rev = (req_expected_revision request + 1)%N ->
  log_wf (mkLog (entries log ++ [mkEntry a m o request rev seq]) (<[a := seq]> (counter log))).
Proof.
  intros [Hrev Hseq Hasc Hmut Hb Hbase] Hnew Hrb seq rev Hle Hexp. split; cbn [entries].
  - intros a' o' i e. rewrite versions_append. intros [Hi|[Hi He]]%lookup_app_Some; [eauto|].
    destruct (of_object a' o' _) eqn:Ho; [|done].
    apply list_lookup_singleton_Some in He as [Hi0 <-]. apply of_object_true in Ho as [Ha Ho].
    cbn in Ha, Ho. subst a' o'. cbn. subst rev. lia.
  - intros e [Hin|Hin]%elem_of_app.
    + destruct (Hseq e Hin) as [? Hle']. split; [done|]. unfold account_seq in *. cbn.
      destruct (decide (e_account e = a)) as [<-|Hne].
      * rewrite lookup_insert_eq. cbn. subst seq. lia.
      * by rewrite lookup_insert_ne.
    + apply list_elem_of_singleton in Hin as ->. cbn. unfold account_seq. cbn.
      rewrite lookup_insert_eq. cbn. subst rev. lia.
  - apply StronglySorted_app. split_and!; [|done|repeat constructor].
    intros e e' Hin ->%list_elem_of_singleton. cbn. intros Ha.
    destruct (Hseq e Hin) as [_ ?]. rewrite Ha in *. subst seq. lia.
  - rewrite fmap_app. apply NoDup_app. split_and!; [done| |apply NoDup_singleton].
    intros x Hx ->%list_elem_of_singleton. apply list_elem_of_fmap in Hx as (e & He & Hin).
    cbn in He. rewrite find_first_None, Forall_forall in Hnew. specialize (Hnew e Hin).
    assert (of_mutation a m e = true) by (apply of_mutation_true; naive_solver). congruence.
  - intros e [Hin| ->%list_elem_of_singleton]%elem_of_app; [auto|done].
  - intros e [Hin| ->%list_elem_of_singleton]%elem_of_app; [auto|done].
Qed.

(** ** The log only grows *)

(** What an accepted push finds in the log: an entry of its account, object and
    mutation identifiers with the response it got, and with its own content or
    that of the request it repeats. *)
Definition recorded `{ServerLib} (log : Log) (a : string) (r : PushRequest) (resp : PushResponse) : Prop :=
  exists e, e ∈ entries log /\ e_account e = a
    /\ uuid_parse_str (req_object_id r) = Ok (e_object e)
    /\ uuid_parse_str (req_mutation_id r) = Ok (e_mutation e)
    /\ response_of e = resp
    /\ compute_mutation_request_hash (e_request e) = compute_mutation_request_hash r.

Definition log_extends (log log' : Log) : Prop :=
  exists es, entries log' = entries log ++ es /\ length es <= 1.

Lemma log_extends_refl log : log_extends log log.
Proof. exists []. by rewrite app_nil_r; split; [|cbn; lia]. Qed.

Section extends.
Context `{ServerLib}.

(** What a push appends is the push itself, answered with the entry's response. *)
Lemma spec_push_appends a o m request log :
  exists es, entries (spec_push a o m request log).2 = entries log ++ es /\ length es <= 1
    /\ Forall (fun e => e_account e = a /\ e_object e = o /\ e_mutation e = m /\ e_request e = request
         /\ (spec_push a o m request log).1 = Success (response_of e)) es.
Proof.
  unfold spec_push, append. repeat case_match; cbn.
  all: first [exists []; rewrite app_nil_r; by split_and!; [|cbn; lia|]|eexists [_]; split_and!; [done..|by repeat constructor]].
Qed.

(** An accepted push is in the log afterwards, with the response. *)
Lemma spec_push_recorded a o m request log resp :
  (spec_push a o m request log).1 = Success resp ->
  exists e, find_first (of_mutation a m) (entries (spec_push a o m request log).2) = Some e
    /\ e_object e = o /\ response_of e = resp
    /\ compute_mutation_request_hash (e_request e) = compute_mutation_request_hash request.
Proof.
  unfold spec_push. destruct (find_first _ _) as [e|] eqn:Hf.
  - do 2 (case_bool_decide; cbn [fst snd]; [by intros|]). intros [= <-]. exists e.
    rewrite Hf. split_and!; first [done|by apply dec_stable].
  - assert (forall rev, exists e, find_first (of_mutation a m)
        (entries (append log a m o request rev).2) = Some e
        /\ e_object e = o /\ Success (response_of e) = (append log a m o request rev).1
        /\ e_request e = request) as Happ.
    { intros rev. eexists. unfold append; cbn. rewrite find_first_app, Hf. cbn. unfold of_mutation; cbn.
      rewrite !bool_decide_eq_true_2 by done. done. }
    destruct (last _) as [cur|].
    + destruct (negb _); cbn [fst snd]; [by intros|]. intros Hs.
      destruct (Happ (e_revision cur + 1)%N) as (e & ? & ? & Hresp & Hreq).
      rewrite Hs in Hresp. injection Hresp as Hresp. exists e. by rewrite Hreq.
    + destruct (negb _); cbn [fst snd]; [by intros|]. intros Hs. destruct (Happ 1%N) as (e & ? & ? & Hresp & Hreq).
      rewrite Hs in Hresp. injection Hresp as Hresp. exists e. by rewrite Hreq.
Qed.
End extends.

Lemma extends_find log log' a m e :
  log_extends log log' -> find_first (of_mutation a m) (entries log) = Some e ->
  find_first (of_mutation a m) (entries log') = Some e.
Proof. intros (es & -> & _) Hf. by rewrite find_first_app, Hf. Qed.
