(* ===== verification/ServerDbFacts.v ===== *)
(** * The server database refines the log of accepted mutations

    [db_log] relates the tables to the abstract log; [push_refines_log] is
    the refinement of [push_mutation].  The rest are consequences for the
    implementation: idempotent replay, no lost update, isolation of
    accounts, and completeness of the change feed. *)

From stdpp Require Import options.
From S2P Require Import Prelude Protocol ServerDb ServerSpec Env.

(** ** Casts *)

Lemma as_u16_as_i16 n : (n < 65536)%N -> as_u16 (as_i16 n) = n.
Proof.
  intros Hn. unfold as_u16, as_i16. rewrite (Z.mod_small (Z.of_N n)) by lia.
  destruct (Z.ltb_spec (Z.of_N n) 32768).
  - rewrite Z.mod_small by lia. lia.
  - rewrite <- (Z.mod_add _ 1), Z.mod_small by lia. lia.
Qed.

Lemma as_u32_as_i32 n : (n < 4294967296)%N -> as_u32 (as_i32 n) = n.
Proof.
  intros Hn. unfold as_u32, as_i32. rewrite (Z.mod_small (Z.of_N n)) by lia.
  destruct (Z.ltb_spec (Z.of_N n) 2147483648).
  - rewrite Z.mod_small by lia. lia.
  - rewrite <- (Z.mod_add _ 1), Z.mod_small by lia. lia.
Qed.

(** ** The abstraction relation *)

Section relation.
Context `{ServerLib}.

Definition row_of (e : Entry) : ObjectRow :=
  let env := req_envelope (e_request e) in
  mkObjectRow (as_i16 (req_object_kind (e_request e))) (as_i64 (e_revision e)) (as_i64 (e_seq e))
    (as_i32 (envelope_version env)) (key_to_vec (wrapped_key env)) (payload_to_vec (payload env))
    (req_is_deleted (e_request e)).

Definition processed_of (e : Entry) : ProcessedRow :=
  mkProcessedRow (e_object e) (as_i64 (e_revision e)) (as_i64 (e_seq e))
    (resp_to_string (response_of e)) (Some (compute_mutation_request_hash (e_request e))).

(** All versions but the latest are in the history table. *)
Definition history_at (vs : list Entry) (revision : Z) : option HistoryRow :=
  if bool_decide (1 <= revision < Z.of_nat (length vs))%Z
  then (fun e => let r := row_of e in
          mkHistoryRow (or_server_seq r) (or_envelope_version r) (or_wrapped_key r) (or_payload r)
            (or_is_deleted r)) <$> vs !! Z.to_nat (revision - 1)
  else None.

Record db_log (db : Db) (log : Log) : Prop := {
  dl_seq a : default 0%Z (db_sequences db !! a) = Z.of_N (account_seq log a);
  dl_objects a o : db_objects db !! (a, o) = row_of <$> last (versions log a o);
  dl_history a o z : db_history db !! (a, o, z) = history_at (versions log a o) z;
  dl_processed a m : db_processed db !! (a, m) = processed_of <$> find_first (of_mutation a m) (entries log);
  dl_wf : log_wf log;
  dl_bound a : (Z.of_N (account_seq log a) <= i64_max)%Z
}.

Lemma db_log_empty : db_log Db_empty Log_empty.
Proof.
  split; try done.
  - intros a o z. unfold history_at. cbn. case_bool_decide; [|done]. cbn in *. lia.
  - split; cbn [entries Log_empty].
    + intros a o i e Hi. change (versions Log_empty a o) with (@nil Entry) in Hi.
      by rewrite lookup_nil in Hi.
    + intros e Hin. by inversion Hin.
    + constructor.
    + constructor.
    + intros e Hin. by inversion Hin.
    + intros e Hin. by inversion Hin.
Qed.

(** Only the tables of the relation matter. *)
Lemma db_log_accounts db log x : db_log db log -> db_log (set_accounts x db) log.
Proof. intros [? ? ? ? ? ?]. by split. Qed.

(** Sequences and revisions of entries fit the columns. *)
Lemma entry_fits db log e :
  db_log db log -> e ∈ entries log ->
  (Z.of_N (e_seq e) <= i64_max)%Z /\ (Z.of_N (e_revision e) <= i64_max)%Z.
Proof.
  intros Hdl Hin. destruct (wf_seq log (dl_wf _ _ Hdl) e Hin) as [[? ?] ?].
  pose proof (dl_bound _ _ Hdl (e_account e)). lia.
Qed.

Lemma last_version_in log a o e :
  last (versions log a o) = Some e -> e ∈ entries log /\ e_account e = a /\ e_object e = o.
Proof. intros Hl. apply elem_of_versions. apply last_Some_elem_of in Hl. done. Qed.

(** The history table after a version is superseded. *)
Lemma history_append db log a o z e :
  (forall a o z, db_history db !! (a, o, z) = history_at (versions log a o) z) -> log_wf log ->
  (match last (versions log a o) with
   | Some cur => <[(a, o, Z.of_N (e_revision cur)) := history_of (row_of cur)]> (db_history db)
   | None => db_history db
   end) !! (a, o, z) = history_at (versions log a o ++ [e]) z.
Proof.
  intros Hhist Hwf. unfold history_at. rewrite length_app. cbn [length].
  destruct (last (versions log a o)) as [cur|] eqn:Hl.
  - pose proof (last_version_revision _ _ _ _ Hwf Hl) as Hrev.
    apply last_Some in Hl as [vs Hvs].
    destruct (decide (z = Z.of_N (e_revision cur))) as [->|Hne].
    + rewrite lookup_insert_eq. rewrite Hvs in *. rewrite length_app in *. cbn [length] in *.
      rewrite bool_decide_eq_true_2 by lia.
      rewrite <- app_assoc, (list_lookup_middle vs [e] cur); [done|lia].
    + rewrite lookup_insert_ne by congruence. rewrite Hhist. unfold history_at.
      destruct (decide (1 <= z < Z.of_nat (length (versions log a o)))%Z) as [Hin|Hout].
      * rewrite !bool_decide_eq_true_2 by lia. rewrite lookup_app_l by lia. done.
      * rewrite !bool_decide_eq_false_2 by lia. done.
  - apply last_None in Hl. rewrite Hhist. unfold history_at. rewrite Hl. cbn [length].
    rewrite !bool_decide_eq_false_2 by lia. done.
Qed.

(** An entry appended to the log, table by table. *)
Lemma db_log_append db log a m o request :
  db_log db log -> request_bounds request ->
  find_first (of_mutation a m) (entries log) = None ->
  (Z.of_N (account_seq log a) < i64_max)%Z ->
  let seq := (account_seq log a + 1)%N in
  let rev := N.of_nat (S (length (versions log a o))) in
  let e := mkEntry a m o request rev seq in
  rev = (req_expected_revision request + 1)%N ->
  db_log
    (mkDb (db_accounts db) (db_vaults db) (<[a := Z.of_N seq]> (db_sequences db))
       (<[(a, o) := row_of e]> (db_objects db))
       (match last (versions log a o) with
        | Some cur => <[(a, o, Z.of_N (e_revision cur)) := history_of (row_of cur)]> (db_history db)
        | None => db_history db
        end)
       (<[(a, m) := processed_of e]> (db_processed db)) (db_blobs db))
    (mkLog (entries log ++ [e]) (<[a := seq]> (counter log))).
Proof.
  intros [Hseq Hobj Hhist Hproc Hwf Hb] Hrb Hnew Hlt seq rev e Hexp.
  assert (rev <= seq)%N as Hle.
  { subst rev seq. destruct (last (versions log a o)) as [cur|] eqn:Hl.
    - pose proof (last_version_revision _ _ _ _ Hwf Hl). apply last_version_in in Hl as (Hin & <- & _).
      destruct (wf_seq log Hwf cur Hin). lia.
    - apply last_None in Hl. rewrite Hl. cbn. lia. }
  split; cbn [db_sequences db_objects db_history db_processed entries counter].
  - intros a'. unfold account_seq. cbn. destruct (decide (a' = a)) as [->|Hne].
    + by rewrite !lookup_insert_eq.
    + rewrite !lookup_insert_ne by done. apply Hseq.
  - intros a' o'. rewrite versions_append. destruct (of_object a' o' e) eqn:Ho.
    + apply of_object_true in Ho as [Ha Ho]. cbn in Ha, Ho. subst a' o'.
      by rewrite lookup_insert_eq, last_snoc.
    + rewrite app_nil_r, lookup_insert_ne; [apply Hobj|]. intros [= <- <-].
      assert (of_object a o e = true) by (by apply of_object_true; split). congruence.
  - intros a' o' z. rewrite versions_append. destruct (of_object a' o' e) eqn:Ho.
    + apply of_object_true in Ho as [Ha Ho]. cbn in Ha, Ho. subst a' o'.
      apply (history_append db log a o z e); auto.
    + rewrite app_nil_r. rewrite <- Hhist. destruct (last (versions log a o)); [|done].
      rewrite lookup_insert_ne; [done|]. intros [= <- <- _].
      assert (of_object a o e = true) by (by apply of_object_true; split). congruence.
  - intros a' m'. rewrite find_first_app. destruct (of_mutation a' m' e) eqn:Hm.
    + apply of_mutation_true in Hm as [Ha Hm]. cbn in Ha, Hm. subst a' m'.
      rewrite lookup_insert_eq, Hnew. cbn. unfold of_mutation. cbn.
      by rewrite !bool_decide_eq_true_2.
    + rewrite lookup_insert_ne.
      * rewrite Hproc. cbn [find_first]. rewrite Hm. by destruct (find_first (of_mutation a' m') (entries log)).
      * intros [= <- <-]. assert (of_mutation a m e = true) by (by apply of_mutation_true; split). congruence.
  - by apply log_wf_append.
  - intros a'. unfold account_seq. cbn. destruct (decide (a' = a)) as [->|Hne].
    + rewrite lookup_insert_eq. cbn. subst seq. lia.
    + rewrite lookup_insert_ne by done. apply Hb.
Qed.
End relation.

(** ** Running the statements *)

Section runs.
Context `{ServerLib} `{!ServerLibLaws}.

Lemma allocate_run db log a :
  db_log db log -> (Z.of_N (account_seq log a) < i64_max)%Z ->
  forall db', db_sequences db' = db_sequences db ->
  allocate_sequence_in_tx a db'
  = (Ok (account_seq log a + 1)%N,
     set_sequences (<[a := Z.of_N (account_seq log a + 1)]> (db_sequences db))
       (set_accounts ({[a]} ∪ db_accounts db') db')).
Proof.
  intros Hdl Hlt db' Hs. unfold allocate_sequence_in_tx. erewrite run_bind_ok by reflexivity.
  unfold Sql.stmt. cbn [db_sequences set_accounts]. rewrite Hs.
  pose proof (dl_seq _ _ Hdl a) as Hseq.
  assert (match db_sequences db !! a with None => 1%Z | Some c => (c + 1)%Z end
          = Z.of_N (account_seq log a + 1)) as ->.
  { destruct (db_sequences db !! a); cbn in Hseq; lia. }
  destruct (Z.ltb_spec i64_max (Z.of_N (account_seq log a + 1))); [lia|].
  rewrite as_u64_of_N by (unfold i64_max, u64_max in *; lia). done.
Qed.

Lemma seq_not_taken db log k a :
  db_log db log -> k.1 = a ->
  forall db', db_objects db' = db_objects db ->
  Sql.seq_taken db' k (Z.of_N (account_seq log a + 1)) = false.
Proof.
  intros Hdl Hk db' Ho. unfold Sql.seq_taken. rewrite Ho.
  apply not_true_iff_false. intros Hex. apply existsb_exists in Hex as ([[a' o'] row] & Hin & Hc).
  apply list_elem_of_In, elem_of_map_to_list in Hin.
  rewrite !andb_true_iff, !bool_decide_eq_true in Hc. destruct Hc as [[Ha _] Hs].
  cbn in Ha, Hs. subst a'. apply Z.eqb_eq in Hs.
  rewrite (dl_objects _ _ Hdl) in Hin. destruct (last _) as [e|] eqn:Hl; [|done].
  injection Hin as <-. apply last_version_in in Hl as (Hin & Hacc & _).
  destruct (entry_fits _ _ _ Hdl Hin) as [Hf _].
  destruct (wf_seq log (dl_wf _ _ Hdl) e Hin) as [_ Hle].
  cbn in Hs. rewrite as_i64_small in Hs by done. subst. rewrite Hacc in Hle. lia.
Qed.

Lemma parse_uuid_run what s u (db : Db) : uuid_parse_str s = Ok u -> parse_uuid what s db = (Ok u, db).
Proof. unfold parse_uuid, lift_result. by intros ->. Qed.

Lemma replay_run request o e db :
  replay request o (compute_mutation_request_hash request) (processed_of e) db
  = (Ok (if bool_decide (e_object e <> o) then
           ReplayMismatch ("mutation_id '" +:+ req_mutation_id request
             +:+ "' was previously processed for object '" +:+ e_object e +:+ "', not '" +:+ o +:+ "'")
         else if bool_decide (compute_mutation_request_hash (e_request e)
                              <> compute_mutation_request_hash request) then
           ReplayMismatch ("mutation_id '" +:+ req_mutation_id request
             +:+ "' was previously processed with an incompatible payload")
         else Success (response_of e)), db).
Proof using Type*.
  unfold replay. cbn [pm_object_id pm_request_hash pm_response_body processed_of].
  destruct (bool_decide (e_object e <> o)); [done|].
  destruct (bool_decide (_ <> _)); [done|]. unfold serde, lift_result, mbind, M_bind.
  by rewrite resp_roundtrip.
Qed.

Lemma conflict_run db log request e db' :
  db_log db log -> e ∈ entries log ->
  conflict_outcome request (row_of e) db' = (Ok (Conflict (conflict_of request e)), db').
Proof using Type*.
  intros Hdl Hin. destruct (entry_fits _ _ _ Hdl Hin) as [Hs Hr].
  destruct (wf_bounds _ (dl_wf _ _ Hdl) e Hin) as [Hk Hv].
  unfold conflict_outcome, serde, lift_result, mbind, M_bind. cbn.
  rewrite key_roundtrip. cbn. rewrite payload_roundtrip. cbn.
  unfold conflict_of. rewrite as_u32_as_i32, as_u16_as_i16, !as_u64_as_i64; [done|..];
    unfold i64_max, u64_max in *; try done; lia.
Qed.

Lemma persist_run a m o request rev seq db :
  db_processed db !! (a, m) = None ->
  persist_processed a m o (compute_mutation_request_hash request) request rev seq db
  = (Ok (Success (mkPushResponse (req_object_id request) rev seq)),
     set_processed (<[(a, m) := processed_of (mkEntry a m o request rev seq)]> (db_processed db)) db).
Proof.
  intros Hn. unfold persist_processed, Sql.insert, mbind, M_bind. by rewrite Hn.
Qed.

(** The branch for an object with a current version. *)
Lemma push_existing db log a request o m cur :
  db_log db log -> request_bounds request -> last (versions log a o) = Some cur ->
  find_first (of_mutation a m) (entries log) = None ->
  (Z.of_N (account_seq log a) < i64_max)%Z ->
  exists db',
    match
      (if negb (req_expected_revision request =? as_u64 (or_revision (row_of cur)))%N
       then conflict_outcome request (row_of cur)
       else
         _ ← Sql.insert db_history set_history (a, o, or_revision (row_of cur)) (history_of (row_of cur));
         next_seq ← allocate_sequence_in_tx a;
         _ ← Sql.update_object (a, o)
               (new_row request (u64_add (as_u64 (or_revision (row_of cur))) 1) next_seq);
         persist_processed a m o (compute_mutation_request_hash request) request
           (u64_add (as_u64 (or_revision (row_of cur))) 1) next_seq) db
    with
    | (Ok x, db') => (Ok x, if is_success x then db' else db)
    | (Err e, _) => (Err e, db)
    end
    = (Ok (if negb (req_expected_revision request =? e_revision cur)%N
           then (Conflict (conflict_of request cur), log)
           else append log a m o request (e_revision cur + 1)).1, db')
    /\ db_log db' (if negb (req_expected_revision request =? e_revision cur)%N
           then (Conflict (conflict_of request cur), log)
           else append log a m o request (e_revision cur + 1)).2.
Proof using Type*.
  intros Hdl Hrb Hl Hf Hlt. pose proof (last_version_in _ _ _ _ Hl) as (Hin & Hacc & _).
  destruct (entry_fits _ _ _ Hdl Hin) as [Hs Hr].
  pose proof (last_version_revision _ _ _ _ (dl_wf _ _ Hdl) Hl) as Hrev.
  assert (as_u64 (or_revision (row_of cur)) = e_revision cur) as ->.
  { cbn. apply as_u64_as_i64. unfold i64_max, u64_max in *. lia. }
  destruct (N.eqb_spec (req_expected_revision request) (e_revision cur)) as [Hexp|]; cbn [negb];
    [|rewrite (conflict_run db log) by done; by eexists].
  assert (or_revision (row_of cur) = Z.of_N (e_revision cur)) as -> by (by apply as_i64_small).
  assert (db_history db !! (a, o, Z.of_N (e_revision cur)) = None) as Hnone.
  { rewrite (dl_history _ _ Hdl). unfold history_at. rewrite bool_decide_eq_false_2; [done|lia]. }
  unfold Sql.insert at 1. unfold mbind at 1, M_bind at 1. rewrite Hnone.
  rewrite (run_bind_ok _ _ _ _ _ (allocate_run db log a Hdl Hlt (set_history _ db) eq_refl)).
  rewrite u64_add_small by (unfold i64_max, u64_max in *; lia).
  unfold Sql.update_object. unfold mbind at 1, M_bind at 1.
  cbn [db_objects set_sequences set_accounts set_history]. rewrite (dl_objects _ _ Hdl), Hl.
  cbn [fmap option_fmap option_map or_server_seq new_row].
  rewrite (as_i64_small (account_seq log a + 1)) by lia.
  rewrite (seq_not_taken db log (a, o) a Hdl) by done.
  rewrite persist_run by (cbn; rewrite (dl_processed _ _ Hdl), Hf; done).
  cbn [is_success]. eexists. split; [reflexivity|].
  pose proof (db_log_append db log a m o request Hdl Hrb Hf Hlt) as Happ. cbv beta zeta in Happ.
  rewrite Hl in Happ.
  replace (N.of_nat (S (length (versions log a o)))) with (e_revision cur + 1)%N in Happ by lia.
  specialize (Happ ltac:(lia)). apply (db_log_accounts _ _ ({[a]} ∪ db_accounts db)) in Happ. exact Happ.
Qed.

(** The branch for a new object. *)
Lemma push_fresh db log a request o m :
  db_log db log -> request_bounds request -> last (versions log a o) = None ->
  find_first (of_mutation a m) (entries log) = None ->
  (Z.of_N (account_seq log a) < i64_max)%Z ->
  exists db',
    match
      (if negb (req_expected_revision request =? 0)%N
       then mret (ObjectNotFound ("object '" +:+ req_object_id request
              +:+ "' not found, expected revision " +:+ show_N (req_expected_revision request)))
       else
         next_seq ← allocate_sequence_in_tx a;
         _ ← Sql.insert_object (a, o) (new_row request 1 next_seq);
         persist_processed a m o (compute_mutation_request_hash request) request 1 next_seq) db
    with
    | (Ok x, db') => (Ok x, if is_success x then db' else db)
    | (Err e, _) => (Err e, db)
    end
    = (Ok (if negb (req_expected_revision request =? 0)%N
           then (ObjectNotFound ("object '" +:+ req_object_id request
              +:+ "' not found, expected revision " +:+ show_N (req_expected_revision request)), log)
           else append log a m o request 1).1, db')
    /\ db_log db' (if negb (req_expected_revision request =? 0)%N
           then (ObjectNotFound ("object '" +:+ req_object_id request
              +:+ "' not found, expected revision " +:+ show_N (req_expected_revision request)), log)
           else append log a m o request 1).2.
Proof using Type*.
  intros Hdl Hrb Hl Hf Hlt.
  destruct (N.eqb_spec (req_expected_revision request) 0) as [Hexp|]; cbn [negb]; [|by eexists].
  rewrite (run_bind_ok _ _ _ _ _ (allocate_run db log a Hdl Hlt _ eq_refl)).
  unfold Sql.insert_object. unfold mbind at 1, M_bind at 1. cbn [or_server_seq new_row].
  rewrite (as_i64_small (account_seq log a + 1)) by lia.
  rewrite (seq_not_taken db log (a, o) a Hdl) by done. unfold Sql.insert.
  cbn [db_objects set_sequences set_accounts]. rewrite (dl_objects _ _ Hdl), Hl. cbn [fmap option_fmap option_map].
  rewrite persist_run by (cbn; rewrite (dl_processed _ _ Hdl), Hf; done).
  cbn [is_success]. eexists. split; [reflexivity|].
  pose proof (db_log_append db log a m o request Hdl Hrb Hf Hlt) as Happ. cbv beta zeta in Happ.
  rewrite Hl in Happ. apply last_None in Hl. rewrite Hl in Happ. cbn [length] in Happ.
  specialize (Happ ltac:(cbn; lia)). apply (db_log_accounts _ _ ({[a]} ∪ db_accounts db)) in Happ. exact Happ.
Qed.

Lemma push_refines_log_run db log a request o m :
  db_log db log -> request_bounds request ->
  uuid_parse_str (req_object_id request) = Ok o ->
  uuid_parse_str (req_mutation_id request) = Ok m ->
  (Z.of_N (account_seq log a) < i64_max)%Z ->
  exists db', push_mutation a request db = (Ok (spec_push a o m request log).1, db')
    /\ db_log db' (spec_push a o m request log).2.
Proof using Type*.
  intros Hdl Hrb Ho Hm Hlt. unfold push_mutation. erewrite run_bind_ok by reflexivity.
  set (db1 := set_accounts _ db). assert (db_log db1 log) as Hdl1 by (by apply db_log_accounts).
  unfold transaction, push_mutation_in_tx.
  rewrite (run_bind_ok _ _ _ _ _ (parse_uuid_run _ _ _ _ Ho)).
  rewrite (run_bind_ok _ _ _ _ _ (parse_uuid_run _ _ _ _ Hm)).
  erewrite run_bind_ok by reflexivity. rewrite (dl_processed _ _ Hdl1).
  unfold spec_push. destruct (find_first (of_mutation a m) (entries log)) as [e|] eqn:Hf.
  { cbn [fmap option_fmap option_map]. rewrite replay_run.
    repeat case_bool_decide; cbn; eexists; split; done. }
  cbn [fmap option_fmap option_map]. erewrite run_bind_ok by reflexivity.
  rewrite (dl_objects _ _ Hdl1).
  destruct (last (versions log a o)) as [cur|] eqn:Hl; cbn [fmap option_fmap option_map].
  - apply (push_existing db1 log a request o m cur); auto.
  - apply (push_fresh db1 log a request o m); auto.
Qed.
End runs.

(** ** Sequences of pushes *)

Section sequences.
Context `{ServerLib} `{!ServerLibLaws}.

Definition pushes (ops : list (string * PushRequest)) (db : Db) : Db :=
  fold_left (fun db op => (push_mutation op.1 op.2 db).2) ops db.

(** The pushes with their answers. *)
Fixpoint push_trace (ops : list (string * PushRequest)) (db : Db)
    : list (string * PushRequest * Result PushOutcome DbError) :=
  match ops with
  | [] => []
  | (a, request) :: ops =>
      let '(answer, db) := push_mutation a request db in (a, request, answer) :: push_trace ops db
  end.

Lemma transaction_err {A} commits (body : M Db DbError A) db e db' :
  body db = (Err e, db') -> transaction commits body db = (Err e, db).
Proof. unfold transaction. by intros ->. Qed.

(** A processed mutation is answered without touching the tables. *)
Lemma push_replay_run db log a request o m e :
  db_log db log -> uuid_parse_str (req_object_id request) = Ok o ->
  uuid_parse_str (req_mutation_id request) = Ok m ->
  find_first (of_mutation a m) (entries log) = Some e ->
  e_object e = o -> compute_mutation_request_hash (e_request e) = compute_mutation_request_hash request ->
  push_mutation a request db
  = (Ok (Success (response_of e)), set_accounts ({[a]} ∪ db_accounts db) db).
Proof using Type*.
  intros Hdl Ho Hm Hf Heo Hh. unfold push_mutation. erewrite run_bind_ok by reflexivity.
  unfold transaction, push_mutation_in_tx.
  rewrite (run_bind_ok _ _ _ _ _ (parse_uuid_run _ _ _ _ Ho)).
  rewrite (run_bind_ok _ _ _ _ _ (parse_uuid_run _ _ _ _ Hm)).
  erewrite run_bind_ok by reflexivity. cbn [db_processed set_accounts].
  rewrite (dl_processed _ _ Hdl), Hf. cbn [fmap option_fmap option_map]. rewrite replay_run.
  by rewrite !bool_decide_eq_false_2 by (by intros []).
Qed.

(** At the largest sequence the allocation fails. *)
Lemma allocate_full db log a :
  db_log db log -> (i64_max <= Z.of_N (account_seq log a))%Z ->
  forall db' n db'', db_sequences db' = db_sequences db ->
  allocate_sequence_in_tx a db' <> (Ok n, db'').
Proof.
  intros Hdl Hge db' n db'' Hs. unfold allocate_sequence_in_tx. erewrite run_bind_ok by reflexivity.
  unfold Sql.stmt. cbn [db_sequences set_accounts]. rewrite Hs.
  pose proof (dl_seq _ _ Hdl a) as Hseq.
  destruct (db_sequences db !! a) as [c|]; cbn in Hseq.
  - destruct (Z.ltb_spec i64_max (c + 1)); [done|lia].
  - unfold i64_max in *. lia.
Qed.

Lemma find_recorded log a o m request e :
  uuid_parse_str (req_object_id request) = Ok o -> uuid_parse_str (req_mutation_id request) = Ok m ->
  find_first (of_mutation a m) (entries log) = Some e -> e_object e = o ->
  compute_mutation_request_hash (e_request e) = compute_mutation_request_hash request ->
  recorded log a request (response_of e).
Proof.
  intros Ho Hm Hf <- Hh. apply find_first_Some in Hf as [Hin Hof]. apply of_mutation_true in Hof as [Ha <-].
  by exists e.
Qed.

(** A push at the largest sequence leaves the log as it is, and is accepted only
    as a repetition. *)
Lemma push_rejected db log a request :
  db_log db log -> (i64_max <= Z.of_N (account_seq log a))%Z ->
  db_log (push_mutation a request db).2 log
  /\ forall resp, (push_mutation a request db).1 = Ok (Success resp) -> recorded log a request resp.
Proof using Type*.
  intros Hdl Hge. unfold push_mutation. erewrite run_bind_ok by reflexivity.
  set (db1 := set_accounts _ db). assert (db_log db1 log) as Hdl1 by (by apply db_log_accounts).
  unfold transaction.
  destruct (push_mutation_in_tx a request db1) as [[out|e] db'] eqn:Hrun; [|done].
  destruct (is_success out) eqn:Hs; [|split; [done|]; cbn; intros resp [= ->]; done].
  unfold push_mutation_in_tx in Hrun.
  apply bind_ok_inv in Hrun as (o & s1 & H1 & Hrun). apply bind_ok_inv in Hrun as (m & s2 & H2 & Hrun).
  unfold parse_uuid, lift_result in H1, H2. injection H1 as H1 <-. injection H2 as H2 <-.
  apply bind_ok_inv in Hrun as (p & s3 & [= <- <-] & Hrun).
  rewrite (dl_processed _ _ Hdl1) in Hrun.
  destruct (find_first _ _) as [e|] eqn:Hf; cbn [fmap option_fmap option_map] in Hrun.
  { rewrite replay_run in Hrun. injection Hrun as <- <-. split; [done|]. cbn [fst]. intros resp.
    do 2 (case_bool_decide; [done|]). intros [= <-].
    apply result_map_err_ok in H1, H2. by eapply find_recorded. }
  apply bind_ok_inv in Hrun as (p & s3 & Hsel & Hrun). injection Hsel as _ <-.
  exfalso. destruct p as [cur|]; cbn beta iota zeta in Hrun; destruct (negb _).
  - unfold conflict_outcome in Hrun. apply bind_ok_inv in Hrun as (k & s4 & _ & Hrun).
    apply bind_ok_inv in Hrun as (p & s5 & _ & Hrun). by injection Hrun as <- _.
  - apply bind_ok_inv in Hrun as ([] & s4 & Hins & Hrun). apply bind_ok_inv in Hrun as (n & s5 & Hal & _).
    unfold Sql.insert in Hins. destruct (db_history db1 !! _); [done|]. injection Hins as <-.
    by apply (allocate_full db1 log a Hdl1 Hge) in Hal.
  - injection Hrun as <- <-. done.
  - apply bind_ok_inv in Hrun as (n & s5 & Hal & _). by apply (allocate_full db1 log a Hdl1 Hge) in Hal.
Qed.

(** A push that answers an error changes no row but the account's. *)
Lemma push_err_keeps db log a request e db' :
  db_log db log -> push_mutation a request db = (Err e, db') -> db_log db' log.
Proof.
  intros Hdl. unfold push_mutation. erewrite run_bind_ok by reflexivity. unfold transaction.
  destruct (push_mutation_in_tx _ _ _) as [[]]; intros [=]; subst. by apply db_log_accounts.
Qed.

(** An answer that is not an error was given for identifiers that are UUIDs. *)
Lemma push_ok_uuids db a request out db' :
  push_mutation a request db = (Ok out, db') ->
  exists o m, uuid_parse_str (req_object_id request) = Ok o
    /\ uuid_parse_str (req_mutation_id request) = Ok m.
Proof.
  unfold push_mutation. erewrite run_bind_ok by reflexivity.
  unfold transaction, push_mutation_in_tx, parse_uuid, lift_result, mbind, M_bind.
  destruct (uuid_parse_str (req_object_id request)) as [o|]; [|done].
  destruct (uuid_parse_str (req_mutation_id request)) as [m|]; [|done]. eauto.
Qed.

(** Account [a] was answered [answer] for [request], and [e] is the entry of it. *)
Definition entered (a : string) (request : PushRequest) (answer : Result PushOutcome DbError)
    (e : Entry) : Prop :=
  e_account e = a /\ e_request e = request
  /\ uuid_parse_str (req_object_id request) = Ok (e_object e)
  /\ uuid_parse_str (req_mutation_id request) = Ok (e_mutation e)
  /\ answer = Ok (Success (response_of e)).

(** Every push appends at most one entry, its own; and whatever was accepted is
    in the log. *)
Lemma push_step db log a request :
  db_log db log -> request_bounds request ->
  let answer := (push_mutation a request db).1 in
  exists log' es, db_log (push_mutation a request db).2 log'
    /\ entries log' = entries log ++ es /\ length es <= 1
    /\ Forall (entered a request answer) es
    /\ forall resp, answer = Ok (Success resp) -> recorded log' a request resp.
Proof using Type*.
  intros Hdl Hrb answer. subst answer.
  destruct (decide (i64_max <= Z.of_N (account_seq log a))%Z) as [Hge|Hlt].
  { destruct (push_rejected db log a request Hdl Hge) as [Hdl' Hrec]. exists log, [].
    rewrite app_nil_r. by split_and!; [..|cbn; lia| |]. }
  destruct (push_mutation a request db) as [[out|e] db'] eqn:Hrun; cbn [fst snd]; last first.
  { exists log, []. rewrite app_nil_r. by split_and!; [by eapply push_err_keeps|..|cbn; lia| |]. }
  destruct (push_ok_uuids _ _ _ _ _ Hrun) as (o & m & Ho & Hm).
  destruct (push_refines_log_run db log a request o m) as (db2 & Hrun2 & Hdl'); [done..|lia|].
  rewrite Hrun in Hrun2. injection Hrun2 as -> <-.
  destruct (spec_push_appends a o m request log) as (es & Hes & Hl & Hall).
  exists (spec_push a o m request log).2, es. split_and!; [done..| |].
  - eapply Forall_impl; [exact Hall|]. intros e (? & <- & <- & ? & ->). by repeat split.
  - intros resp [= Hs]. destruct (spec_push_recorded _ _ _ _ _ _ Hs) as (e & Hf & Heo & <- & Hh).
    by eapply find_recorded.
Qed.
End sequences.

(** Sequences order the entries of an account. *)
Lemma ascending_unique l e e' :
  StronglySorted (fun e e' => e_account e = e_account e' -> (e_seq e < e_seq e')%N) l ->
  e ∈ l -> e' ∈ l -> e_account e = e_account e' -> e_seq e = e_seq e' -> e = e'.
Proof.
  induction 1 as [|x l Hs IH Hx]; intros Hin Hin' Ha Hseq; [by inversion Hin|].
  rewrite Forall_forall in Hx.
  apply elem_of_cons in Hin as [->|Hin]; apply elem_of_cons in Hin' as [->|Hin']; auto.
  - specialize (Hx _ Hin' Ha). lia.
  - specialize (Hx _ Hin (eq_sym Ha)). lia.
Qed.

Lemma versions_ascending log a o :
  StronglySorted (fun e e' => e_account e = e_account e' -> (e_seq e < e_seq e')%N) (entries log) ->
  StronglySorted (fun e e' => (e_seq e < e_seq e')%N) (versions log a o).
Proof.
  unfold versions. induction 1 as [|x l Hs IH Hx]; cbn; [constructor|].
  destruct (of_object a o x) eqn:Ho; [|done]. constructor; [done|].
  rewrite Forall_forall in *. intros e He. apply of_object_true in Ho as [Ho _].
  apply list_elem_of_In, filter_In in He as [Hin He]. apply of_object_true in He as [He _].
  apply Hx; [by apply list_elem_of_In|congruence].
Qed.

Section claims.
Context `{ServerLib} `{!ServerLibLaws}.

(** C2. The store refines the log: for a request whose identifiers are UUIDs,
    as long as the account's sequence counter is below the largest [i64],
    [push_mutation] returns the answer the log gives (accepted with the next
    revision and sequence, conflict with the current ciphertext, not found,
    replayed, replay mismatch), and the tables represent the log afterwards:
    current rows, history of every superseded version, processed mutations
    and sequence counters. *)
Theorem push_refines_log db log a request o m :
  db_log db log -> request_bounds request ->
  uuid_parse_str (req_object_id request) = Ok o ->
  uuid_parse_str (req_mutation_id request) = Ok m ->
  (Z.of_N (account_seq log a) < i64_max)%Z ->
  exists db', push_mutation a request db = (Ok (spec_push a o m request log).1, db')
    /\ db_log db' (spec_push a o m request log).2.
Proof using Type*. apply push_refines_log_run. Qed.

(** Along any sequence of pushes: the log grows by entries of the trace, and what
    the trace shows as accepted is in it. *)
Lemma pushes_log ops db log :
  db_log db log -> Forall (fun op => request_bounds op.2) ops ->
  exists log' es, db_log (pushes ops db) log' /\ entries log' = entries log ++ es
    /\ Forall (fun e => exists a r answer, (a, r, answer) ∈ push_trace ops db /\ entered a r answer e) es
    /\ forall a r resp, (a, r, Ok (Success resp)) ∈ push_trace ops db -> recorded log' a r resp.
Proof using Type*.
  revert db log. induction ops as [|[a r] ops IH]; intros db log Hdl Hb.
  { exists log, []. rewrite app_nil_r. split_and!; [done..|]. intros a r resp Hin. by apply elem_of_nil in Hin. }
  apply Forall_cons in Hb as [Hr Hb].
  destruct (push_step db log a r Hdl Hr) as (log1 & es1 & Hdl1 & He1 & _ & Hes1 & Hrec1).
  cbn [push_trace pushes fold_left fst snd]. destruct (push_mutation a r db) as [answer db1]. cbn [fst snd] in *.
  destruct (IH _ _ Hdl1 Hb) as (log2 & es2 & Hdl2 & He2 & Hes2 & Hrec2).
  exists log2, (es1 ++ es2). rewrite He2, He1, app_assoc. split_and!; [exact Hdl2|done| |].
  - apply Forall_app. split; [eapply Forall_impl; [exact Hes1|]; intros e He|
      eapply Forall_impl; [exact Hes2|]; intros e (a' & r' & ans & Hin & He)].
    + exists a, r, answer. split; [left|done].
    + exists a', r', ans. split; [by right|done].
  - intros a' r' resp [Heq|Hin]%elem_of_cons; [|by apply Hrec2].
    simplify_eq. destruct (Hrec1 resp eq_refl) as (e & Hin & He). exists e. split; [|done].
    rewrite He2. apply elem_of_app. by left.
Qed.

(** C12. SEC-007: once a push was accepted, sending the same request again,
    after any further pushes of any accounts, returns the original response
    and changes no row: no second revision, no second sequence. *)
Theorem push_replay_idempotent db log a request resp db1 ops :
  db_log db log -> request_bounds request -> (Z.of_N (account_seq log a) < i64_max)%Z ->
  push_mutation a request db = (Ok (Success resp), db1) ->
  Forall (fun op => request_bounds op.2) ops ->
  let db2 := pushes ops db1 in
  push_mutation a request db2
  = (Ok (Success resp), set_accounts ({[a]} ∪ db_accounts db2) db2).
Proof using Type*.
  intros Hdl Hrb Hlt Hpush Hops db2.
  destruct (push_ok_uuids _ _ _ _ _ Hpush) as (o & m & Ho & Hm).
  destruct (push_refines_log_run db log a request o m Hdl Hrb Ho Hm Hlt) as (db' & Hrun & Hdl1).
  rewrite Hpush in Hrun. injection Hrun as Hs <-. symmetry in Hs.
  destruct (spec_push_recorded _ _ _ _ _ _ Hs) as (e & He & Heo & Hresp & Hhash).
  destruct (pushes_log ops _ _ Hdl1 Hops) as (log2 & es & Hdl2 & Hext & _).
  rewrite <- Hresp. eapply push_replay_run; [exact Hdl2|done|done| |done..].
  by rewrite Hext, find_first_app, He.
Qed.

(** C1. No lost update: after any sequence of pushes by any accounts, the
    versions of every object form one line, made of the accepted pushes.
    Version [i+1] was accepted against base revision [i]; the latest one is
    the current row, every earlier one is in the history; sequences increase
    along the line and are never shared between versions of one account.
    Every version is a push of the sequence, for that account and object, whose
    answer was the version's response.  And nothing accepted is lost: a push
    that was answered with success is a version of its object, with the
    revision and sequence of the answer and with its content, or (for a
    repeated request) that of the request with the same mutation identifier
    and hash it repeats. *)
Theorem reachable_linear_history ops :
  Forall (fun op => request_bounds op.2) ops ->
  let db := pushes ops Db_empty in
  exists vs : string -> string -> list Entry,
    (forall a o,
       db_objects db !! (a, o) = row_of <$> last (vs a o)
       /\ (forall z, db_history db !! (a, o, z) = history_at (vs a o) z)
       /\ (forall i e, vs a o !! i = Some e ->
            e_revision e = N.of_nat (S i) /\ req_expected_revision (e_request e) = N.of_nat i)
       /\ StronglySorted (fun e e' => (e_seq e < e_seq e')%N) (vs a o))
    /\ (forall a o o' e e', e ∈ vs a o -> e' ∈ vs a o' -> e_seq e = e_seq e' -> e = e')
    /\ (forall a o e, e ∈ vs a o ->
          uuid_parse_str (req_object_id (e_request e)) = Ok o
          /\ (a, e_request e, Ok (Success (response_of e))) ∈ push_trace ops Db_empty)
    /\ (forall a r resp, (a, r, Ok (Success resp)) ∈ push_trace ops Db_empty ->
          exists o e, uuid_parse_str (req_object_id r) = Ok o /\ e ∈ vs a o
            /\ response_of e = resp
            /\ uuid_parse_str (req_mutation_id (e_request e)) = uuid_parse_str (req_mutation_id r)
            /\ compute_mutation_request_hash (e_request e) = compute_mutation_request_hash r).
Proof using Type*.
  intros Hops db. destruct (pushes_log ops Db_empty Log_empty db_log_empty Hops) as (log & es & Hdl & Hent & Hes & Hrec).
  cbn [entries Log_empty app] in Hent. subst es. rewrite Forall_forall in Hes.
  pose proof (dl_wf _ _ Hdl) as Hwf. exists (versions log). split_and!.
  - intros a o. split_and!; [apply (dl_objects _ _ Hdl)|apply (dl_history _ _ Hdl)| |].
    + intros i e Hi. pose proof (wf_revisions log Hwf _ _ _ _ Hi) as Hr. split; [done|].
      apply list_elem_of_lookup_2, elem_of_versions in Hi as [Hin _].
      pose proof (wf_base log Hwf e Hin). lia.
    + apply versions_ascending. apply Hwf.
  - intros a o o' e e' (Hin & Ha & _)%elem_of_versions (Hin' & Ha' & _)%elem_of_versions Hs.
    by eapply (ascending_unique (entries log)); [apply (wf_ascending log Hwf)| | |rewrite Ha, Ha'|].
  - intros a o e (Hin & Ha & <-)%elem_of_versions.
    destruct (Hes e Hin) as (a' & r & ans & Htr & Hacc & <- & Ho & _ & ->). by simplify_eq.
  - intros a r resp Hin. destruct (Hrec a r resp Hin) as (e & He & Ha & Ho & Hm & Hresp & Hh).
    exists (e_object e), e. split_and!; [done|by apply elem_of_versions|done| |done].
    destruct (Hes e He) as (? & ? & ? & _ & _ & <- & _ & Hm' & _). by rewrite Hm', Hm.
Qed.
End claims.
