(* ===== verification/ServerFeed.v ===== *)
(** * The change feed of the server

    Theorems about the reading side of [ServerDb]: a page of the feed holds
    exactly the next changes, and following the cursor from page to page
    yields every current version once. *)

From stdpp Require Import options.
From S2P Require Import Prelude Protocol StorageModels Storage CoreErrors Time Env Cursor.
From S2P Require Import ServerDb ServerSpec ServerDbFacts.

(** ** Pages *)

Section feed.
Context `{ServerLib} `{!ServerLibLaws}.

(** The change a current version is reported as. *)
Definition change_of (o : string) (e : Entry) : ObjectChange :=
  let r := e_request e in
  mkObjectChange (e_seq e) o (e_revision e) (req_object_kind r) (req_is_deleted r)
    (mkEnvelope (envelope_version (req_envelope r)) o (req_object_kind r)
       (wrapped_key (req_envelope r)) (payload (req_envelope r))).

(** The feed of an account after a cursor: the current version of every
    object with a later sequence, in sequence order. *)
Definition is_feed (log : Log) (a : string) (after : N) (F : list ObjectChange) : Prop :=
  ascending F /\
  forall c, c ∈ F <-> exists o e, last (versions log a o) = Some e
                        /\ (after < e_seq e)%N /\ c = change_of o e.

Lemma change_of_row_run db log a o e :
  db_log db log -> last (versions log a o) = Some e ->
  change_of_row o (row_of e) = Ok (change_of o e).
Proof using Type*.
  intros Hdl Hl. apply last_version_in in Hl as (Hin & _ & _).
  destruct (entry_fits _ _ _ Hdl Hin) as [Hs Hr].
  destruct (wf_bounds _ (dl_wf _ _ Hdl) e Hin) as [Hk Hv].
  unfold change_of_row, mbind, Result_bind. cbn. rewrite key_roundtrip. cbn.
  rewrite payload_roundtrip. cbn. unfold change_of.
  rewrite as_u32_as_i32, as_u16_as_i16, !as_u64_as_i64; [done|..];
    unfold i64_max, u64_max in *; try done; lia.
Qed.

#[local] Instance row_le_total : Total row_le.
Proof. intros x y. unfold row_le. lia. Qed.
#[local] Instance row_le_trans : Transitive row_le.
Proof. intros x y z. unfold row_le. lia. Qed.

Lemma elem_of_rows_after db a z o row :
  (o, row) ∈ rows_after db a z <-> db_objects db !! (a, o) = Some row /\ (z < or_server_seq row)%Z.
Proof.
  unfold rows_after. rewrite merge_sort_Permutation, list_elem_of_omap. split.
  - intros ([[a' o'] row'] & Hin & Heq). apply elem_of_map_to_list in Hin. cbn in Heq.
    destruct (bool_decide (a' = a)) eqn:Ha, (Z.ltb_spec z (or_server_seq row')); cbn in Heq; try done.
    apply bool_decide_eq_true in Ha. by simplify_eq.
  - intros [Hobj Hlt]. exists ((a, o), row). split; [by apply elem_of_map_to_list|]. cbn.
    rewrite bool_decide_eq_true_2 by done. by destruct (Z.ltb_spec z (or_server_seq row)); [|lia].
Qed.

Lemma row_seq db log a o row :
  db_log db log -> db_objects db !! (a, o) = Some row ->
  exists e, last (versions log a o) = Some e /\ row = row_of e /\ or_server_seq row = Z.of_N (e_seq e).
Proof.
  intros Hdl Hobj. rewrite (dl_objects _ _ Hdl) in Hobj.
  destruct (last _) as [e|] eqn:Hl; [|done]. injection Hobj as <-. exists e. split_and!; [done..|].
  apply last_version_in in Hl as (Hin & _ & _). destruct (entry_fits _ _ _ Hdl Hin).
  cbn. by apply as_i64_small.
Qed.

(** The rows come in strictly increasing sequence order. *)
Lemma rows_after_strict db log a z :
  db_log db log ->
  StronglySorted (fun r r' => (or_server_seq r.2 < or_server_seq r'.2)%Z) (rows_after db a z).
Proof.
  intros Hdl. apply (StronglySorted_strict (fun r : string * ObjectRow => or_server_seq r.2)).
  - apply (StronglySorted_merge_sort row_le).
  - unfold rows_after. rewrite merge_sort_Permutation.
    apply NoDup_omap_inj; [|apply NoDup_map_to_list].
    intros [[a1 o1] r1] [[a2 o2] r2] [o r]. cbn.
    destruct (bool_decide (a1 = a)) eqn:H1, (bool_decide (a2 = a)) eqn:H2; cbn; try done;
      repeat case_match; try done. apply bool_decide_eq_true in H1, H2. by intros; simplify_eq.
  - intros [o r] [o' r'] [Ho _]%elem_of_rows_after [Ho' _]%elem_of_rows_after Heq. cbn in Heq.
    destruct (row_seq _ _ _ _ _ Hdl Ho) as (e & Hl & -> & Hs).
    destruct (row_seq _ _ _ _ _ Hdl Ho') as (e' & Hl' & -> & Hs').
    apply last_version_in in Hl as (Hin & Ha & <-). apply last_version_in in Hl' as (Hin' & Ha' & <-).
    assert (e = e') as ->; [|done].
    eapply ascending_unique; [apply (wf_ascending _ (dl_wf _ _ Hdl))|done|done|congruence|lia].
Qed.

(** Decoding keeps the order. *)
Lemma sorted_decode (rows : list (string * ObjectRow)) F :
  (forall r, r ∈ rows -> exists c, change_of_row r.1 r.2 = Ok c
     /\ Z.of_N (ch_server_seq c) = or_server_seq r.2) ->
  Forall2 (fun r c => change_of_row r.1 r.2 = Ok c) rows F ->
  StronglySorted (fun r r' => (or_server_seq r.2 < or_server_seq r'.2)%Z) rows -> ascending F.
Proof.
  intros Hdec HF. revert Hdec. induction HF as [|r c rows F Hc HF IH]; intros Hdec Hs; [constructor|].
  apply StronglySorted_inv in Hs as [Hs Hr]. constructor.
  - apply IH; [|done]. intros r' Hr'. apply Hdec. by right.
  - destruct (Hdec r) as (c0 & Hc0 & Hseq); [left|]. assert (c0 = c) as -> by congruence.
    rewrite Forall_forall in Hr. apply Forall_forall. intros c' Hc'.
    apply list_elem_of_lookup in Hc' as [i Hi].
    destruct (Forall2_lookup_r _ _ _ _ _ HF Hi) as (r' & Hr' & Hdec').
    apply list_elem_of_lookup_2 in Hr'. specialize (Hr r' Hr').
    destruct (Hdec r') as (c1 & Hc1 & Hseq'); [by right|].
    assert (c1 = c') as -> by congruence. lia.
Qed.

(** The rows, decoded, are the feed. *)
Lemma rows_feed db log a after :
  db_log db log -> (Z.of_N after <= i64_max)%Z ->
  exists F, Forall2 (fun r c => change_of_row r.1 r.2 = Ok c) (rows_after db a (as_i64 after)) F
    /\ is_feed log a after F.
Proof using Type*.
  intros Hdl Ha. rewrite as_i64_small by done.
  set (rows := rows_after db a (Z.of_N after)).
  assert (forall o row, (o, row) ∈ rows <-> exists e, last (versions log a o) = Some e
     /\ row = row_of e /\ (after < e_seq e)%N) as Hrows.
  { intros o row. subst rows. rewrite elem_of_rows_after. split.
    - intros [Hobj Hlt]. destruct (row_seq _ _ _ _ _ Hdl Hobj) as (e & Hl & -> & Hs).
      exists e. split_and!; [done..|lia].
    - intros (e & Hl & -> & Hlt). assert (db_objects db !! (a, o) = Some (row_of e)) as Hobj
        by (by rewrite (dl_objects _ _ Hdl), Hl). split; [done|].
      destruct (row_seq _ _ _ _ _ Hdl Hobj) as (e' & Hl' & _ & ->). simplify_eq. lia. }
  exists (omap (fun r => ok (change_of_row r.1 r.2)) rows).
  assert (Forall2 (fun r c => change_of_row r.1 r.2 = Ok c) rows
    (omap (fun r => ok (change_of_row r.1 r.2)) rows)) as HF.
  { apply (omap_ok (fun r => change_of_row r.1 r.2)), Forall_forall.
    intros [o row] (e & Hl & -> & _)%Hrows. eexists. by eapply change_of_row_run. }
  split; [exact HF|]. split.
  - apply (sorted_decode rows); [|exact HF|by eapply rows_after_strict].
    intros [o row] (e & Hl & -> & Hlt)%Hrows. cbn [fst snd].
    exists (change_of o e). split; [by eapply change_of_row_run|]. cbn.
    apply last_version_in in Hl as (Hin & _). destruct (entry_fits _ _ _ Hdl Hin).
    by rewrite as_i64_small.
  - intros c. rewrite list_elem_of_omap. split.
    + intros ([o row] & Hin & Hc). apply Hrows in Hin as (e & Hl & -> & Hlt).
      cbn [fst snd] in Hc. rewrite (change_of_row_run _ _ _ _ _ Hdl Hl) in Hc.
      injection Hc as <-. by exists o, e.
    + intros (o & e & Hl & Hlt & ->). exists (o, row_of e). split; [apply Hrows; eauto|].
      cbn [fst snd]. by rewrite (change_of_row_run _ _ _ _ _ Hdl Hl).
Qed.

(** The loop over the fetched rows. *)
Lemma collect_run rows F room :
  Forall2 (fun r c => change_of_row r.1 r.2 = Ok c) rows F ->
  collect room rows = Ok (take room F, (room <? length F)%nat).
Proof.
  intros HF. revert room. induction HF as [|[o row] c rows F Hc HF IH]; intros room; cbn [collect].
  { by destruct room. }
  destruct room as [|room]; [done|]. cbn [fst snd] in Hc. cbn [collect]. unfold mbind, Result_bind. rewrite Hc.
  by rewrite IH.
Qed.

Definition page_of (F : list ObjectChange) (after : N) (limit : nat) : PullChangesResponse :=
  let items := take limit F in
  mkPullChangesResponse items
    (match last items with Some c => ch_server_seq c | None => after end)
    (limit <? length F)%nat.

Lemma pull_run db log a after limit :
  db_log db log -> (Z.of_N after <= i64_max)%Z -> (Z.of_nat limit < i64_max)%Z ->
  exists F, is_feed log a after F
    /\ pull_changes a after limit db
       = (Ok (page_of F after limit), set_accounts ({[a]} ∪ db_accounts db) db).
Proof using Type*.
  intros Hdl Ha Hl. destruct (rows_feed _ _ a after (db_log_accounts _ _ ({[a]} ∪ db_accounts db) Hdl) Ha)
    as (F & HF & Hfeed).
  exists F. split; [done|]. unfold pull_changes. erewrite run_bind_ok by reflexivity.
  unfold Sql.stmt.
  assert (as_i64 (N.min (N.of_nat limit + 1) u64_max) = Z.of_nat (S limit)) as ->.
  { rewrite N.min_l by (unfold u64_max, i64_max in *; lia). rewrite as_i64_small; lia. }
  unfold sql_limit. destruct (Z.ltb_spec (Z.of_nat (S limit)) 0); [lia|]. rewrite Nat2Z.id.
  rewrite (collect_run _ (take (S limit) F)) by (by apply Forall2_take).
  unfold mbind, Result_bind. cbn [fst snd]. rewrite take_take, length_take.
  rewrite Nat.min_l by lia. unfold page_of.
  assert ((limit <? S limit `min` length F) = (limit <? length F)) as ->; [|done].
  apply eq_true_iff_eq. rewrite !Nat.ltb_lt. lia.
Qed.

(** Two ascending lists with the same elements are equal. *)
Lemma ascending_ext F G :
  ascending F -> ascending G -> (forall c, c ∈ F <-> c ∈ G) -> F = G.
Proof.
  intros HF. revert G. induction HF as [|c F HF IH Hc]; intros G HG Heq.
  - destruct G as [|g G]; [done|]. exfalso. assert (g ∈ []) as Hin by (apply Heq; left). by inversion Hin.
  - destruct HG as [|g G HG Hg].
    { exfalso. assert (c ∈ []) as Hin by (apply Heq; left). by inversion Hin. }
    rewrite Forall_forall in Hc, Hg.
    assert (c = g) as ->.
    { assert (c ∈ g :: G) as Hin by (apply Heq; left). assert (g ∈ c :: F) as Hin' by (apply Heq; left).
      apply elem_of_cons in Hin as [|Hin]; [done|]. apply elem_of_cons in Hin' as [|Hin']; [done|].
      specialize (Hc _ Hin'). specialize (Hg _ Hin). lia. }
    f_equal. apply IH; [done|]. intros c. specialize (Heq c). rewrite !elem_of_cons in Heq.
    split; intros Hin.
    + destruct (proj1 Heq (or_intror Hin)) as [->|]; [|done]. specialize (Hc _ Hin). lia.
    + destruct (proj2 Heq (or_intror Hin)) as [->|]; [|done]. specialize (Hg _ Hin). lia.
Qed.

Lemma is_feed_unique log a after F G : is_feed log a after F -> is_feed log a after G -> F = G.
Proof. intros [HF EF] [HG EG]. apply ascending_ext; [done..|]. intros c. by rewrite EF, EG. Qed.

(** What remains after a page is the feed after its cursor. *)
Lemma is_feed_drop log a after F limit c :
  is_feed log a after F -> last (take limit F) = Some c ->
  is_feed log a (ch_server_seq c) (drop limit F).
Proof.
  intros [HF EF] Hlast. rewrite <- (take_drop limit F) in HF. apply last_Some in Hlast as [pre Hpre].
  apply StronglySorted_app in HF as (Hlt & Hpre' & Hd). split; [done|].
  assert (c ∈ take limit F) as Hc by (rewrite Hpre; apply elem_of_app; right; left).
  intros c'. split.
  - intros Hin. specialize (Hlt c c' Hc Hin).
    assert (c' ∈ F) as HinF by (rewrite <- (take_drop limit F); apply elem_of_app; by right).
    apply EF in HinF as (o & e & Hl & Ha & ->). exists o, e. split_and!; [done|exact Hlt|done].
  - intros (o & e & Hl & Ha & ->).
    assert (change_of o e ∈ F) as HinF.
    { apply EF. exists o, e. split_and!; [done| |done].
      assert (c ∈ F) as HcF by (rewrite <- (take_drop limit F); apply elem_of_app; by left).
      apply EF in HcF as (? & ? & _ & ? & ->). cbn in *. lia. }
    rewrite <- (take_drop limit F) in HinF. apply elem_of_app in HinF as [Hin|]; [|done].
    exfalso. rewrite Hpre in Hin, Hpre'. apply elem_of_app in Hin as [Hin|Hin].
    + apply StronglySorted_app in Hpre' as (Hlt' & _). specialize (Hlt' _ c Hin ltac:(left)). cbn in *. lia.
    + apply list_elem_of_singleton in Hin. subst c. cbn in Ha. lia.
Qed.

(** A client that pages with [next_cursor] until [has_more] is false. *)
Fixpoint pull_all (fuel : nat) (a : string) (after : N) (limit : nat) (db : Db)
    : option (list ObjectChange) :=
  match fuel with
  | O => None
  | S fuel' =>
      match pull_changes a after limit db with
      | (Ok resp, db') =>
          if pr_has_more resp then
            rest ← pull_all fuel' a (pr_next_cursor resp) limit db';
            Some (pr_changes resp ++ rest)
          else Some (pr_changes resp)
      | (Err _, _) => None
      end
  end.

Lemma pull_all_run log a limit : forall F fuel after db,
  db_log db log -> (Z.of_N after <= i64_max)%Z -> (0 < limit)%nat -> (Z.of_nat limit < i64_max)%Z ->
  is_feed log a after F -> length F < fuel -> pull_all fuel a after limit db = Some F.
Proof using Type*.
  intros F fuel. revert F. induction fuel as [|fuel IH]; intros F after db Hdl Ha Hl0 Hl HF Hlen; [lia|].
  cbn [pull_all]. destruct (pull_run db log a after limit Hdl Ha Hl) as (G & HG & ->).
  rewrite (is_feed_unique _ _ _ _ _ HG HF). unfold page_of. cbn [pr_has_more pr_next_cursor pr_changes].
  destruct (Nat.ltb_spec limit (length F)) as [Hmore|Hdone]; [|by rewrite take_ge].
  destruct (last (take limit F)) as [c|] eqn:Hlast.
  2: { apply last_None in Hlast. apply (f_equal length) in Hlast. rewrite length_take in Hlast. cbn in *. lia. }
  assert (c ∈ F) as Hc.
  { apply last_Some_elem_of in Hlast. rewrite <- (take_drop limit F). apply elem_of_app; by left. }
  apply (proj2 HF) in Hc as (o & e & Hle & _ & ->). pose proof Hle as Hin.
  apply last_version_in in Hin as (Hin & _). destruct (entry_fits _ _ _ Hdl Hin) as [Hs _].
  rewrite (IH (drop limit F)); [cbn; by rewrite take_drop|by apply db_log_accounts|done..| |].
  - by eapply is_feed_drop in HF.
  - rewrite length_drop. lia.
Qed.

(** A page of the feed is exact: for a cursor and limit within the
    column range, [pull_changes] returns the first [limit] current versions
    with a later sequence, ascending, tombstones included; [next_cursor] is
    the last returned sequence (or the given cursor), and [has_more] says
    exactly whether more remain.  Every change the page leaves out is beyond
    [next_cursor], so a cursor at [next_cursor] skips nothing. *)
Lemma pull_page_exact db log a after limit :
  db_log db log -> (Z.of_N after <= i64_max)%Z -> (0 < limit)%nat -> (Z.of_nat limit < i64_max)%Z ->
  exists F resp db', is_feed log a after F /\ pull_changes a after limit db = (Ok resp, db')
    /\ pr_changes resp = take limit F
    /\ pr_has_more resp = (limit <? length F)%nat
    /\ (pr_has_more resp = false -> pr_changes resp = F)
    /\ Forall (fun c => (pr_next_cursor resp < ch_server_seq c)%N) (drop limit F).
Proof using Type*.
  intros Hdl Ha Hl0 Hl. destruct (pull_run db log a after limit Hdl Ha Hl) as (F & HF & Hrun).
  exists F, (page_of F after limit). eexists. split_and!; [done|exact Hrun|done|done| |].
  - cbn. intros Hm. apply Nat.ltb_ge in Hm. by rewrite take_ge.
  - cbn. apply Forall_forall. intros c Hc.
    destruct (last (take limit F)) as [c0|] eqn:Hlast.
    + apply (is_feed_drop _ _ _ _ _ _ HF) in Hlast as [_ Hd].
      destruct (proj1 (Hd c) Hc) as (o & e & _ & Hlt & Heq). by rewrite Heq.
    + assert (c ∈ F) as HcF by (rewrite <- (take_drop limit F); apply elem_of_app; by right).
      destruct (proj1 (proj2 HF c) HcF) as (o & e & _ & Hlt & Heq). by rewrite Heq.
Qed.

(** Paging is complete and terminates: following [next_cursor] until
    [has_more] is false takes at most one request more than there are
    changes, and the concatenated pages are exactly the current versions of
    the account's objects beyond the cursor, in sequence order. *)
Lemma pull_all_complete db log a after limit :
  db_log db log -> (Z.of_N after <= i64_max)%Z -> (0 < limit)%nat -> (Z.of_nat limit < i64_max)%Z ->
  exists F, is_feed log a after F
    /\ forall fuel, (length F < fuel)%nat -> pull_all fuel a after limit db = Some F.
Proof using Type*.
  intros Hdl Ha Hl0 Hl. destruct (pull_run db log a after limit Hdl Ha Hl) as (F & HF & _).
  exists F. split; [done|]. intros fuel Hf. by eapply pull_all_run.
Qed.
End feed.
