(* ===== verification/ServerTables.v ===== *)
(** * Isolation, vaults and blobs

    An account's operations leave every other account's rows alone; a vault
    bootstrap is write-once and reads back as written; an accepted blob keeps
    the account within its quota. *)

From stdpp Require Import options.
From S2P Require Import Prelude Protocol ServerDb ServerSpec ServerDbFacts Env.

(** ** Isolation *)

(** All rows of the account are the same. *)
Record agree (a : string) (db db' : Db) : Prop := {
  ag_account : a ∈ db_accounts db' <-> a ∈ db_accounts db;
  ag_vault : db_vaults db' !! a = db_vaults db !! a;
  ag_seq : db_sequences db' !! a = db_sequences db !! a;
  ag_objects o : db_objects db' !! (a, o) = db_objects db !! (a, o);
  ag_history o z : db_history db' !! (a, o, z) = db_history db !! (a, o, z);
  ag_processed m : db_processed db' !! (a, m) = db_processed db !! (a, m);
  ag_blobs b : db_blobs db' !! (a, b) = db_blobs db !! (a, b)
}.

#[export] Instance agree_refl a : Reflexive (agree a).
Proof. by intros db. Qed.
#[export] Instance agree_trans a : Transitive (agree a).
Proof. intros x y z [] []. split; intros; etrans; eauto. Qed.
#[export] Instance agree_sym a : Symmetric (agree a).
Proof. intros x y []. split; intros; symmetry; eauto. Qed.

(** A computation that changes rows of one account only. *)
Definition touches {A} (a : string) (m : M Db DbError A) : Prop :=
  forall a' db, a' <> a -> agree a' db (m db).2.

Create HintDb isolation.

Section touches.
Context {A B : Type} (a : string).

Lemma touches_bind (m : M Db DbError A) (f : A -> M Db DbError B) :
  touches a m -> (forall x, touches a (f x)) -> touches a (m ≫= f).
Proof.
  intros Hm Hf a' db Ha. unfold mbind, M_bind. specialize (Hm a' db Ha).
  destruct (m db) as [[x|e] db']; [|done]. etrans; [exact Hm|]. by apply Hf.
Qed.

Lemma touches_pure (m : M Db DbError A) : (forall db, (m db).2 = db) -> touches a m.
Proof. intros Hm a' db _. by rewrite Hm. Qed.

Lemma touches_transaction c (m : M Db DbError A) : touches a m -> touches a (transaction c m).
Proof.
  intros Hm a' db Ha. unfold transaction. specialize (Hm a' db Ha).
  destruct (m db) as [[x|e] db']; cbn; [|done]. by destruct (c x).
Qed.
End touches.

(** A write of one row: only the row's key matters. *)
Ltac one_row :=
  let a' := fresh "a" in let db := fresh "db" in let Hne := fresh "Hne" in
  intros a' db Hne; split; intros; cbn;
  try (rewrite lookup_insert_ne by congruence); try (rewrite lookup_delete_ne by congruence);
  first [done | set_solver].

Section ops.
Context `{ServerLib} (a : string).

Lemma touches_ensure : touches a (ensure_account a).
Proof. one_row. Qed.

Lemma touches_insert_history o z row : touches a (Sql.insert db_history set_history (a, o, z) row).
Proof. intros a' db Hne. unfold Sql.insert. destruct (_ !! _); [done|]. revert a' db Hne. one_row. Qed.
Lemma touches_insert_processed m row : touches a (Sql.insert db_processed set_processed (a, m) row).
Proof. intros a' db Hne. unfold Sql.insert. destruct (_ !! _); [done|]. revert a' db Hne. one_row. Qed.
Lemma touches_insert_vault row : touches a (Sql.insert db_vaults set_vaults a row).
Proof. intros a' db Hne. unfold Sql.insert. destruct (_ !! _); [done|]. revert a' db Hne. one_row. Qed.

Lemma touches_insert_object o row : touches a (Sql.insert_object (a, o) row).
Proof.
  intros a' db Hne. unfold Sql.insert_object, Sql.insert. destruct (Sql.seq_taken _ _ _); [done|].
  destruct (_ !! _); [done|]. revert a' db Hne. one_row.
Qed.

Lemma touches_update_object o row : touches a (Sql.update_object (a, o) row).
Proof.
  intros a' db Hne. unfold Sql.update_object. destruct (_ !! _); [|done].
  destruct (Sql.seq_taken _ _ _); [done|]. revert a' db Hne. one_row.
Qed.

Lemma touches_allocate : touches a (allocate_sequence_in_tx a).
Proof.
  unfold allocate_sequence_in_tx. apply touches_bind; [apply touches_ensure|]. intros [].
  unfold Sql.stmt. intros a' db Hne. destruct (Z.ltb _ _); [done|]. revert a' db Hne. one_row.
Qed.
End ops.

#[export] Hint Resolve touches_ensure touches_insert_history touches_insert_processed
  touches_insert_vault touches_insert_object touches_update_object touches_allocate : isolation.

Ltac isolate :=
  repeat match goal with
  | |- touches _ (_ ≫= _) => apply touches_bind; [|intros ?]
  | |- touches _ (transaction _ _) => apply touches_transaction
  | |- touches _ (match ?x with _ => _ end) => destruct x
  | |- touches _ _ => first [solve [eauto with isolation] | apply touches_pure; done]
  end.

Section operations.
Context `{ServerLib} (a : string).

Lemma touches_push request : touches a (push_mutation a request).
Proof.
  unfold push_mutation, push_mutation_in_tx, parse_uuid, replay, conflict_outcome,
    persist_processed, serde, Sql.select. isolate.
Qed.
Lemma touches_pull after limit : touches a (pull_changes a after limit).
Proof. unfold pull_changes, Sql.stmt. isolate. Qed.
Lemma touches_allocate_next : touches a (allocate_next_sequence a).
Proof. unfold allocate_next_sequence. isolate. Qed.
Lemma touches_create_vault bootstrap : touches a (create_vault_bootstrap a bootstrap).
Proof. unfold create_vault_bootstrap, Sql.select. isolate. Qed.
Lemma touches_get_vault : touches a (get_vault_bootstrap a).
Proof. unfold get_vault_bootstrap, serde, Sql.select. isolate. Qed.
Lemma touches_put_blob blob_id data quota max_size : touches a (put_blob a blob_id data quota max_size).
Proof.
  unfold put_blob, Sql.stmt. isolate.
  intros a' db' Hne. destruct (N.ltb _ _); [done|]. revert a' db' Hne. one_row.
Qed.
Lemma touches_get_blob blob_id : touches a (get_blob a blob_id).
Proof. unfold get_blob, Sql.select. isolate. Qed.
Lemma touches_delete_blob blob_id : touches a (delete_blob a blob_id).
Proof. unfold delete_blob. one_row. Qed.
End operations.
#[export] Hint Resolve touches_push touches_pull touches_allocate_next touches_create_vault
  touches_get_vault touches_put_blob touches_get_blob touches_delete_blob : isolation.

(** The operations the routes run on behalf of an account. *)
Inductive AccountOp : Type :=
| AoPush (request : PushRequest)
| AoPull (after : N) (limit : nat)
| AoAllocate
| AoCreateVault (bootstrap : VaultBootstrap)
| AoPutBlob (blob_id data : string) (quota : N) (max_blob_size : nat)
| AoDeleteBlob (blob_id : string).

Section claims.
Context `{ServerLib}.

Definition account_op (a : string) (op : AccountOp) (db : Db) : Db :=
  match op with
  | AoPush request => (push_mutation a request db).2
  | AoPull after limit => (pull_changes a after limit db).2
  | AoAllocate => (allocate_next_sequence a db).2
  | AoCreateVault bootstrap => (create_vault_bootstrap a bootstrap db).2
  | AoPutBlob blob_id data quota max_size => (put_blob a blob_id data quota max_size db).2
  | AoDeleteBlob blob_id => (delete_blob a blob_id db).2
  end.

(** Account isolation: whatever operations other accounts run, in any
    order and with any outcome, every row of an account (vault, sequence
    counter, objects, history, processed mutations, blobs) stays as it is. *)
Lemma account_isolation ops db a :
  Forall (fun op => op.1 <> a) ops ->
  agree a db (fold_left (fun db op => account_op op.1 op.2 db) ops db).
Proof.
  revert db. induction ops as [|[b op] ops IH]; intros db Hall; [done|].
  apply Forall_cons in Hall as [Hne Hall]. cbn [fold_left]. etrans; [|by apply IH].
  cbn [fst snd] in *. apply not_eq_sym in Hne.
  destruct op; cbn [account_op]; revert Hne; generalize db; generalize a;
    match goal with |- forall a db, a <> b -> agree a db (?m db).2 => enough (touches b m) by auto end;
    eauto with isolation.
Qed.
End claims.

(** ** Vault bootstrap *)

Section vault.
Context `{ServerLib} `{!ServerLibLaws}.

(** A vault bootstrap is write-once and reads back as written: creating
    it for an account without one succeeds exactly when the salt is base64,
    and then reading returns the same record (crypto version as a 32-bit
    number); with one present, creating is refused and the stored record is
    unchanged. *)
Lemma vault_bootstrap_roundtrip a b db :
  (crypto_version b < 4294967296)%N ->
  match db_vaults db !! a with
  | Some row => exists db', create_vault_bootstrap a b db = (Err (DbE_VaultAlreadyExists a), db')
                  /\ db_vaults db' = db_vaults db
  | None =>
      match base64_decode_vec (kdf_salt (kdf b)) with
      | Ok _ => exists db', create_vault_bootstrap a b db = (Ok tt, db')
                  /\ get_vault_bootstrap a db' = (Ok (Some b), db')
                  /\ forall b2, (create_vault_bootstrap a b2 db').1 = Err (DbE_VaultAlreadyExists a)
      | Err _ => exists e db', create_vault_bootstrap a b db = (Err (DbE_InvalidBase64 e), db')
                  /\ db_vaults db' = db_vaults db
      end
  end.
Proof using Type*.
  intros Hv. unfold create_vault_bootstrap.
  destruct (db_vaults db !! a) as [row|] eqn:Hrow.
  { erewrite run_bind_ok by reflexivity. erewrite run_bind_ok by reflexivity.
    cbn [db_vaults set_accounts]. rewrite Hrow. by eexists. }
  erewrite run_bind_ok by reflexivity. erewrite run_bind_ok by reflexivity.
  cbn [db_vaults set_accounts]. rewrite Hrow.
  destruct (base64_decode_vec (kdf_salt (kdf b))) as [salt|e] eqn:Hsalt.
  2: { unfold mbind, M_bind, lift_result. cbn. by eexists _, _. }
  unfold mbind at 1, M_bind at 1, lift_result. cbn [result_map_err].
  unfold Sql.insert at 1. cbn [db_vaults set_accounts]. rewrite Hrow. eexists. split; [reflexivity|].
  split.
  - unfold get_vault_bootstrap. erewrite run_bind_ok by reflexivity. cbn [db_vaults set_vaults].
    rewrite lookup_insert_eq. unfold serde, lift_result, mbind, M_bind. cbn.
    rewrite kdfp_roundtrip. cbn. rewrite wvk_roundtrip. cbn. rewrite wvk_roundtrip. cbn.
    rewrite (base64_roundtrip _ _ Hsalt). unfold as_u32. rewrite Z.mod_small by lia. rewrite N2Z.id.
    by destruct b as [v [] w r].
  - intros b2. erewrite run_bind_ok by reflexivity. erewrite run_bind_ok by reflexivity.
    cbn [db_vaults set_accounts set_vaults]. by rewrite lookup_insert_eq.
Qed.
End vault.

(** ** Blobs *)

(** The size column is the length of the data. *)
Definition blobs_wf (db : Db) : Prop :=
  map_Forall (fun _ row => br_size row = Z.of_nat (String.length (br_data row))) (db_blobs db).

Definition usage_of (a : string) (m : gmap (string * string) BlobRow) : Z :=
  map_fold (fun k row acc => if bool_decide (k.1 = a) then (br_size row + acc)%Z else acc) 0%Z m.

Lemma usage_delete a m k row :
  m !! k = Some row ->
  usage_of a m = ((if bool_decide (k.1 = a) then br_size row else 0) + usage_of a (delete k m))%Z.
Proof.
  intros Hk. unfold usage_of.
  rewrite (map_fold_delete_L _ _ k row m) by (intros; repeat case_bool_decide; lia || done).
  by case_bool_decide.
Qed.

Lemma usage_insert a m k row :
  usage_of a (<[k := row]> m)
  = ((if bool_decide (k.1 = a) then br_size row else 0) + usage_of a (delete k m))%Z.
Proof.
  rewrite (usage_delete a (<[k := row]> m) k row) by apply lookup_insert_eq.
  by rewrite delete_insert_eq.
Qed.

Lemma usage_nonneg a m :
  map_Forall (fun _ row => br_size row = Z.of_nat (String.length (br_data row))) m ->
  (0 <= usage_of a m)%Z.
Proof.
  unfold usage_of. apply (map_fold_weak_ind (fun r m => map_Forall _ m -> (0 <= r)%Z)); [done|].
  intros k row m' r Hk IH Hall. apply map_Forall_insert in Hall as [Hrow Hall]; [|done].
  specialize (IH Hall). case_bool_decide; lia.
Qed.

Section blobs.
Context `{ServerLib}.

(** C40. Blob quota: a put is refused when the blob exceeds the single-blob
    limit or when the account's total after replacing the blob would exceed
    the quota, and then no blob changes; otherwise the blob reads back as
    written, the account's usage is within the quota, and every other blob
    is untouched. *)
Theorem put_blob_quota a blob_id data quota max_size db r db' :
  blobs_wf db -> (blob_usage db a <= i64_max)%Z -> (Z.of_N quota <= i64_max)%Z ->
  (Z.of_nat (String.length data) <= i64_max)%Z ->
  put_blob a blob_id data quota max_size db = (r, db') ->
  blobs_wf db' /\
  match r with
  | Ok n => n = N.of_nat (String.length data) /\ (String.length data <= max_size)%nat
      /\ (blob_usage db' a <= Z.of_N quota)%Z
      /\ get_blob a blob_id db' = (Ok (Some data), db')
      /\ (forall k, k <> (a, blob_id) -> db_blobs db' !! k = db_blobs db !! k)
  | Err (DbE_BlobSizeExceeded m actual) =>
      db' = db /\ (max_size < String.length data)%nat
  | Err (DbE_AccountQuotaExceeded q requested) =>
      db_blobs db' = db_blobs db /\ (quota < requested)%N
      /\ (blob_usage (set_blobs (<[(a, blob_id) := mkBlobRow (Z.of_nat (String.length data)) data]>
             (db_blobs db)) db) a = Z.of_N requested)%Z
  | Err _ => False
  end.
Proof.
  intros Hwf Husage Hq Hlen. unfold put_blob.
  destruct (Nat.ltb_spec max_size (String.length data)) as [Hbig|Hsmall].
  { intros [= <- <-]. done. }
  erewrite run_bind_ok by reflexivity. unfold Sql.stmt. cbn [db_blobs set_accounts].
  set (old := match db_blobs db !! (a, blob_id) with Some row => br_size row | None => 0%Z end).
  change (blob_usage (set_accounts _ db) a) with (usage_of a (db_blobs db)).
  change (blob_usage db a) with (usage_of a (db_blobs db)) in Husage.
  set (rest := usage_of a (delete (a, blob_id) (db_blobs db))).
  assert (0 <= rest)%Z as Hrest.
  { apply usage_nonneg. intros k row Hk. apply lookup_delete_Some in Hk as [_ Hk]. by apply (Hwf k). }
  assert (usage_of a (db_blobs db) = old + rest /\ 0 <= old)%Z as [Htot Hold].
  { subst old rest. destruct (db_blobs db !! (a, blob_id)) as [row|] eqn:Hrow.
    - rewrite (usage_delete _ _ _ _ Hrow), bool_decide_eq_true_2 by done.
      pose proof (Hwf _ _ Hrow) as Hs. cbn in Hs. lia.
    - rewrite delete_id by done. lia. }
  assert (clamp_u64 (usage_of a (db_blobs db)) - clamp_u64 old = Z.to_N rest)%N as ->.
  { unfold clamp_u64. destruct (Z.ltb_spec (usage_of a (db_blobs db)) 0), (Z.ltb_spec old 0); try lia.
    unfold as_u64. unfold i64_max in *. rewrite !Z.mod_small by lia. lia. }
  rewrite u64_add_small by (unfold u64_max, i64_max in *; lia).
  set (row := mkBlobRow _ data).
  assert (br_size row = Z.of_nat (String.length data)) as Hsize.
  { cbn. rewrite as_i64_small by lia. lia. }
  destruct (N.ltb_spec quota (Z.to_N rest + N.of_nat (String.length data))) as [Hover|Hfit];
    intros [= <- <-].
  - split; [done|]. split_and!; [done|lia|]. unfold blob_usage. cbn [db_blobs set_blobs].
    fold (usage_of a (<[(a, blob_id) := mkBlobRow (Z.of_nat (String.length data)) data]> (db_blobs db))).
    rewrite usage_insert, bool_decide_eq_true_2 by done. fold rest. cbn [br_size]. lia.
  - split.
    { unfold blobs_wf. cbn [db_blobs set_blobs]. by apply map_Forall_insert_2. }
    split_and!; [done|done| | |].
    + unfold blob_usage. cbn [db_blobs set_blobs].
      fold (usage_of a (<[(a, blob_id) := row]> (db_blobs db))).
      rewrite usage_insert, bool_decide_eq_true_2 by done. fold rest. rewrite Hsize. lia.
    + unfold get_blob. erewrite run_bind_ok by reflexivity. cbn [db_blobs set_blobs].
      by rewrite lookup_insert_eq.
    + intros k Hk. cbn. by rewrite lookup_insert_ne.
Qed.
End blobs.
