(* ===== verification/ServerSamples.v ===== *)
(** * The server on concrete requests

    An instance of the library code of [ServerLib] with its laws (values are
    stored as the bits of their encoding as a number, identifiers and salts
    as they are), and the server's theorems applied to small runs. *)

From stdpp Require Import options.
From stdpp Require Import countable.
From S2P Require Import Prelude Sorting Protocol StorageModels Storage Sqlite SqliteFacts SqliteRefines CoreErrors Time Env.
From S2P Require Import Cursor ServerDb ServerSpec ServerDbFacts ServerFeed ServerTables.

(** ** A concrete library *)

Fixpoint pos_bits (p : positive) : string :=
  match p with
  | xH => ""
  | xO p' => String "0"%char (pos_bits p')
  | xI p' => String "1"%char (pos_bits p')
  end.
Fixpoint bits_pos (s : string) : positive :=
  match s with
  | EmptyString => xH
  | String c s' => if bool_decide (c = "1"%char) then xI (bits_pos s') else xO (bits_pos s')
  end.

Lemma bits_pos_bits p : bits_pos (pos_bits p) = p.
Proof. induction p as [p IH|p IH|]; cbn; rewrite ?IH; done. Qed.

Definition to_bits {A} `{Countable A} (x : A) : string := pos_bits (encode x).
Definition of_bits {A} `{Countable A} (s : string) : Result A string :=
  match decode (bits_pos s) with Some x => Ok x | None => Err "invalid encoding" end.

Lemma of_to_bits {A} `{Countable A} (x : A) : of_bits (to_bits x) = Ok x.
Proof. unfold of_bits, to_bits. by rewrite bits_pos_bits, decode_encode. Qed.

#[local] Instance key_countable : Countable EncryptedKeyContainer.
Proof.
  apply (inj_countable' (fun k => (key_nonce k, key_ciphertext k)) (fun p => mkKeyContainer p.1 p.2)).
  by intros [].
Defined.
#[local] Instance payload_countable : Countable EncryptedPayloadContainer.
Proof.
  apply (inj_countable' (fun k => (payload_nonce k, payload_ciphertext k))
    (fun p => mkPayloadContainer p.1 p.2)). by intros [].
Defined.
#[local] Instance resp_countable : Countable PushResponse.
Proof.
  apply (inj_countable' (fun r => (resp_object_id r, resp_revision r, resp_server_seq r))
    (fun p => mkPushResponse p.1.1 p.1.2 p.2)). by intros [].
Defined.
#[local] Instance wvk_countable : Countable WrappedVaultKey.
Proof.
  apply (inj_countable' (fun k => (cipher_suite k, wvk_nonce k, wvk_ciphertext k))
    (fun p => mkWrappedVaultKey p.1.1 p.1.2 p.2)). by intros [].
Defined.
#[local] Instance skp_eq_dec : EqDecision StoredKdfParams.
Proof. solve_decision. Defined.
#[local] Instance skp_countable : Countable StoredKdfParams.
Proof.
  apply (inj_countable' (fun k => (skp_memory_kib k, skp_iterations k, skp_parallelism k))
    (fun p => mkStoredKdfParams p.1.1 p.1.2 p.2)). by intros [].
Defined.

#[export] Instance sample_lib : ServerLib := {|
  uuid_parse_str s := if bool_decide (s = "") then Err "empty" else Ok s;
  key_to_vec := to_bits; key_from_slice := of_bits;
  payload_to_vec := to_bits; payload_from_slice := of_bits;
  resp_to_string := to_bits; resp_from_str := of_bits;
  wvk_to_vec := to_bits; wvk_from_slice := of_bits;
  kdfp_to_string := to_bits; kdfp_from_str := of_bits;
  base64_decode_vec s := Ok s; base64_encode_string b := b;
  blake2s256 s := s
|}.

#[export] Instance sample_lib_laws : ServerLibLaws.
Proof.
  split; cbn; intros; try apply of_to_bits; [|by simplify_eq].
  by repeat case_bool_decide; simplify_eq.
Qed.

(** ** Requests *)

Definition sample_request (mid oid : string) (expected : N) (text : string) : PushRequest :=
  mkPushRequest mid oid expected OBJECT_KIND_NOTE (sample_envelope oid text) false.

Lemma sample_request_bounds mid oid n text : request_bounds (sample_request mid oid n text).
Proof. split; by vm_compute. Qed.

(** Two versions of [o1], one of [o2], and a stale push. *)
Definition sample_ops : list (string * PushRequest) :=
  [("acc", sample_request "m1" "o1" 0 "v1"); ("acc", sample_request "m2" "o2" 0 "w1");
   ("acc", sample_request "m3" "o1" 1 "v2"); ("acc", sample_request "m4" "o1" 1 "stale")].

Lemma sample_ops_bounds : Forall (fun op => request_bounds op.2) sample_ops.
Proof. repeat constructor; by vm_compute. Qed.

Definition sample_db : Db := pushes sample_ops Db_empty.

(** The stale push is answered with the current version. *)
Example sample_conflict_answer :
  (push_mutation "acc" (sample_request "m4" "o1" 1 "stale") sample_db).1
  = Ok (Conflict (mkConflictResponse ERROR_REVISION_CONFLICT "o1" 1 2 3
          (sample_envelope "o1" "v2") false)).
Proof. vm_compute. reflexivity. Qed.

Example sample_page :
  (pull_changes "acc" 0 1 sample_db).1
  = Ok (mkPullChangesResponse
          [mkObjectChange 2 "o2" 1 OBJECT_KIND_NOTE false (sample_envelope "o2" "w1")] 2 true).
Proof. vm_compute. reflexivity. Qed.

Lemma push_refines_log_witness :
  exists db', push_mutation "acc" (sample_request "m1" "o1" 0 "v1") Db_empty
              = (Ok (Success (mkPushResponse "o1" 1 1)), db')
    /\ db_log db' (spec_push "acc" "o1" "m1" (sample_request "m1" "o1" 0 "v1") Log_empty).2.
Proof.
  destruct (push_refines_log Db_empty Log_empty "acc" (sample_request "m1" "o1" 0 "v1") "o1" "m1")
    as (db' & Hrun & Hlog).
  - apply db_log_empty.
  - apply sample_request_bounds.
  - reflexivity.
  - reflexivity.
  - reflexivity.
  - exists db'. split; [exact Hrun|exact Hlog].
Defined.

(** A computation whose result is known has that result and its end state. *)
Lemma run_split {X E A} (m : M X E A) (s : X) r : (m s).1 = r -> m s = (r, (m s).2).
Proof. intros <-. apply surjective_pairing. Qed.

Definition sample_first : PushRequest := sample_request "m1" "o1" 0 "v1".
Definition sample_db1 : Db := (push_mutation "acc" sample_first Db_empty).2.

Lemma sample_db1_run :
  push_mutation "acc" sample_first Db_empty = (Ok (Success (mkPushResponse "o1" 1 1)), sample_db1).
Proof. apply run_split. vm_compute. reflexivity. Qed.

Lemma push_replay_idempotent_witness :
  push_mutation "acc" sample_first (pushes (tail sample_ops) sample_db1)
  = (Ok (Success (mkPushResponse "o1" 1 1)),
     set_accounts ({["acc"]} ∪ db_accounts (pushes (tail sample_ops) sample_db1))
       (pushes (tail sample_ops) sample_db1)).
Proof.
  apply (push_replay_idempotent Db_empty Log_empty "acc" sample_first
    (mkPushResponse "o1" 1 1) sample_db1 (tail sample_ops)).
  - apply db_log_empty.
  - apply sample_request_bounds.
  - reflexivity.
  - apply sample_db1_run.
  - apply Forall_tail, sample_ops_bounds.
Defined.

Lemma reachable_linear_history_witness :
  exists vs : string -> string -> list Entry,
    db_objects sample_db !! ("acc", "o1") = row_of <$> last (vs "acc" "o1")
    /\ is_Some (last (vs "acc" "o1"))
    /\ exists e, e ∈ vs "acc" "o1" /\ response_of e = mkPushResponse "o1" 1 1.
Proof.
  destruct (reachable_linear_history sample_ops sample_ops_bounds) as (vs & Hvs & _ & _ & Hacc).
  exists vs. destruct (Hvs "acc" "o1") as (Hobj & _). fold sample_db in Hobj. split; [exact Hobj|]. split.
  - apply (fmap_is_Some row_of). rewrite <- Hobj.
    assert (bool_decide (db_objects sample_db !! ("acc", "o1") <> None) = true) as Hsome
      by (vm_compute; reflexivity).
    apply bool_decide_eq_true_1, not_eq_None_Some in Hsome. exact Hsome.
  - destruct (Hacc "acc" sample_first (mkPushResponse "o1" 1 1)) as (o & e & Ho & He & Hresp & _).
    + cbn [push_trace sample_ops]. fold sample_first. rewrite sample_db1_run. left.
    + exists e. split; [|exact Hresp]. vm_compute in Ho. injection Ho as <-. exact He.
Defined.

(** The database after the sample pushes and the log it implements. *)
Lemma sample_db_log : exists log, db_log sample_db log.
Proof.
  destruct (pushes_log sample_ops Db_empty Log_empty db_log_empty sample_ops_bounds)
    as (log & es & Hlog & _). by exists log.
Qed.

Lemma pull_page_exact_witness :
  exists log F resp db', db_log sample_db log /\ is_feed log "acc" 0 F
    /\ pull_changes "acc" 0 1 sample_db = (Ok resp, db') /\ pr_changes resp = take 1 F.
Proof.
  destruct sample_db_log as [log Hlog].
  destruct (pull_page_exact sample_db log "acc" 0 1) as (F & resp & db' & HF & Hrun & Hch & _).
  - exact Hlog.
  - unfold i64_max. lia.
  - lia.
  - unfold i64_max. lia.
  - exists log, F, resp, db'. exact (conj Hlog (conj HF (conj Hrun Hch))).
Defined.

Lemma pull_all_complete_witness :
  exists log F, db_log sample_db log /\ is_feed log "acc" 0 F
    /\ pull_all (S (length F)) "acc" 0 1 sample_db = Some F.
Proof.
  destruct sample_db_log as [log Hlog].
  destruct (pull_all_complete sample_db log "acc" 0 1) as (F & HF & Hall).
  - exact Hlog.
  - unfold i64_max. lia.
  - lia.
  - unfold i64_max. lia.
  - exists log, F. exact (conj Hlog (conj HF (Hall _ (Nat.lt_succ_diag_r _)))).
Defined.

Lemma account_isolation_witness :
  agree "eve" sample_db
    (fold_left (fun db op => account_op op.1 op.2 db)
       [("acc", AoPush (sample_request "m5" "o1" 2 "v3")); ("acc", AoPutBlob "b" "xyz" 10 5);
        ("acc", AoDeleteBlob "b")] sample_db).
Proof. apply account_isolation. repeat constructor; discriminate. Defined.

Definition sample_bootstrap : VaultBootstrap :=
  mkVaultBootstrap 1 (mkKdfParams "argon2id" "c2FsdA==" 65536 3 1)
    (mkWrappedVaultKey "xchacha20poly1305" "n1" "k1") (mkWrappedVaultKey "xchacha20poly1305" "n2" "k2").

Lemma vault_bootstrap_roundtrip_witness :
  exists db', create_vault_bootstrap "acc" sample_bootstrap Db_empty = (Ok tt, db')
    /\ get_vault_bootstrap "acc" db' = (Ok (Some sample_bootstrap), db')
    /\ forall b2, (create_vault_bootstrap "acc" b2 db').1 = Err (DbE_VaultAlreadyExists "acc").
Proof.
  pose proof (vault_bootstrap_roundtrip "acc" sample_bootstrap Db_empty eq_refl) as Hrt.
  cbn [db_vaults Db_empty] in Hrt. rewrite lookup_empty in Hrt. exact Hrt.
Defined.

Definition sample_blob_db : Db := (put_blob "acc" "b1" "hello" 10 8 Db_empty).2.

Lemma put_blob_quota_witness :
  blobs_wf sample_blob_db /\ (blob_usage sample_blob_db "acc" <= 10)%Z
  /\ get_blob "acc" "b1" sample_blob_db = (Ok (Some "hello"), sample_blob_db).
Proof.
  destruct (put_blob_quota "acc" "b1" "hello" 10 8 Db_empty (Ok 5%N) sample_blob_db)
    as (Hwf & _ & _ & Hu & Hget & _).
  - apply map_Forall_empty.
  - vm_compute. discriminate.
  - vm_compute. discriminate.
  - vm_compute. discriminate.
  - apply run_split. vm_compute. reflexivity.
  - exact (conj Hwf (conj Hu Hget)).
Defined.

(** ** Two observations *)

(** Moving the byte boundary between the nonce and the ciphertext of the
    payload. *)
Definition split_request (nonce ciphertext : string) : PushRequest :=
  mkPushRequest "m1" "o1" 0 OBJECT_KIND_NOTE
    (mkEnvelope 1 "o1" OBJECT_KIND_NOTE (mkKeyContainer "kn" "kc")
       (mkPayloadContainer nonce ciphertext)) false.

(** The request digest concatenates its fields without framing, so two
    different requests have the same digest whatever the hash function is,
    and the store answers the second as a replay of the first although its
    payload was never stored.  Both requests below pass the Base64 check of
    the push route. *)
Lemma request_hash_unframed :
  (forall `{ServerLib}, compute_mutation_request_hash (split_request "QUJDREVG" "R0hJ")
                        = compute_mutation_request_hash (split_request "QUJD" "REVGR0hJ"))
  /\ split_request "QUJDREVG" "R0hJ" <> split_request "QUJD" "REVGR0hJ"
  /\ (push_mutation "acc" (split_request "QUJD" "REVGR0hJ")
        (push_mutation "acc" (split_request "QUJDREVG" "R0hJ") Db_empty).2).1
     = Ok (Success (mkPushResponse "o1" 1 1)).
Proof.
  split_and!; [by intros|discriminate|vm_compute; reflexivity].
Qed.

(** A pull cursor beyond [i64::MAX] is cast to a negative number: the
    page starts over from the oldest change, and the cursor it returns is
    behind the one that was asked for. *)
Lemma pull_cursor_wraps :
  exists resp, (pull_changes "acc" 9223372036854775808 10 sample_db).1 = Ok resp
    /\ (pr_next_cursor resp < 9223372036854775808)%N
    /\ map ch_server_seq (pr_changes resp) = [2; 3]%N.
Proof. eexists. split; [vm_compute; reflexivity|]. split; vm_compute; reflexivity. Qed.

(** ** The SQLite backend on concrete rows

    Envelopes stored as the bits of their encoding, a database with an object
    and two queued edits, and the backend's theorem applied to a statement that
    fails and to one that succeeds. *)

#[local] Instance envelope_countable : Countable EncryptedEnvelope.
Proof.
  apply (inj_countable' (fun e => (envelope_version e, env_object_id e, env_object_kind e,
      key_nonce (wrapped_key e), key_ciphertext (wrapped_key e), payload_nonce (payload e),
      payload_ciphertext (payload e)))
    (fun '(v, i, k, kn, kc, pn, pc) => mkEnvelope v i k (mkKeyContainer kn kc) (mkPayloadContainer pn pc))).
  by intros [? ? ? [] []].
Defined.

#[export] Instance sample_json : EnvelopeJson := {| env_to_string e := Ok (to_bits e); env_from_str := of_bits |}.
#[export] Instance sample_json_laws : EnvelopeJsonLaws.
Proof. split; cbn; [by eexists|]. intros e j [= <-]. apply of_to_bits. Qed.

(** An edit queued at 10:00 and one queued later, when the clock showed 09:00. *)
Definition early_edit : PendingMutation :=
  mkPendingMutation "m1" "a" 1 OBJECT_KIND_NOTE Upsert (sample_envelope "a" "m1") "2024-01-01T10:00:00Z" 0 Pending.
Definition late_edit : PendingMutation :=
  mkPendingMutation "m2" "a" 1 OBJECT_KIND_NOTE Upsert (sample_envelope "a" "m2") "2024-01-01T09:00:00Z" 0 Pending.

Definition sample_tables : Tables :=
  (sqlite_call (CEnqueue late_edit) (sqlite_call (CEnqueue early_edit)
    (sqlite_call (CPutObject (sample_object "a" 1 4)) Tables_new).2).2).2.

Lemma sample_tables_wf : wf sample_tables.
Proof. unfold sample_tables. do 3 (eapply Sim_wf; [apply sim_call|]). apply wf_new. Qed.

(** The queue is listed by the creation times, not as it was filled. *)
Example sample_queue_order : mut_mutation_id <$> mem_mutations (contents sample_tables) = ["m2"; "m1"].
Proof. by vm_compute. Qed.

Lemma sqlite_implements_storage_witness :
  wf sample_tables
  /\ contents (sqlite_call (CSetCursor 7) (set_faults [None; Some "disk full"] sample_tables)).2 = contents sample_tables
  /\ sync_cursor (mem_sync_state (contents (sqlite_call (CSetCursor 7) sample_tables).2)) = 7%N.
Proof.
  split; [apply sample_tables_wf|]. split.
  - destruct (sqlite_implements_storage (CSetCursor 7) (set_faults [None; Some "disk full"] sample_tables)
      (Err (SE_Backend "set_sync_cursor execute failed: disk full")) (set_faults [] sample_tables)
      (wf_set_faults _ _ sample_tables_wf) eq_refl) as (_ & Hc & _). exact Hc.
  - destruct (sqlite_implements_storage (CSetCursor 7) sample_tables (Ok tt) (sqlite_call (CSetCursor 7) sample_tables).2
      sample_tables_wf eq_refl) as (_ & Hc).
    apply (f_equal (fun p => sync_cursor (mem_sync_state (snd p)))) in Hc. cbn [snd] in Hc. by rewrite <- Hc.
Defined.
