(* ===== verification/Text.v ===== *)
(** * UTF-8 text

    Rust's [str] is a valid UTF-8 byte string.  [chars] splits one into its
    characters (code point and bytes); [is_whitespace] and [is_control] are
    the Unicode [White_Space] property and the general category Cc, as
    [char::is_whitespace] and [char::is_control] use them; [str_trim] is
    [str::trim].  Then byte encodings: big-endian numbers and hexadecimal. *)

From stdpp Require Import options.
From S2P Require Import Prelude.

(** A character: its code point and its bytes. *)
Record Char : Type := mkChar {
  code_point : N;
  char_bytes : string
}.

Definition byte (c : ascii) : N := N_of_ascii c.

(** The continuation bits of a byte. *)
Definition cont (c : ascii) : N := byte c mod 64.

(** [str::chars].  On bytes that are not valid UTF-8, which no [str] holds,
    a byte stands for itself. *)
Fixpoint chars (s : string) : list Char :=
  match s with
  | EmptyString => []
  | String a rest =>
      let n := byte a in
      match rest with
      | String b rest1 =>
          if ((192 <=? n) && (n <? 224))%N then
            mkChar (n mod 32 * 64 + cont b) (String a (String b "")) :: chars rest1
          else match rest1 with
          | String c rest2 =>
              if ((224 <=? n) && (n <? 240))%N then
                mkChar ((n mod 16 * 64 + cont b) * 64 + cont c)
                  (String a (String b (String c ""))) :: chars rest2
              else match rest2 with
              | String d rest3 =>
                  if (240 <=? n)%N then
                    mkChar (((n mod 8 * 64 + cont b) * 64 + cont c) * 64 + cont d)
                      (String a (String b (String c (String d "")))) :: chars rest3
                  else mkChar n (String a "") :: chars rest
              | EmptyString => mkChar n (String a "") :: chars rest
              end
          | EmptyString => mkChar n (String a "") :: chars rest
          end
      | EmptyString => [mkChar n (String a "")]
      end
  end.

(** [collect::<String>()] *)
Fixpoint of_chars (l : list Char) : string :=
  match l with
  | [] => ""
  | c :: l' => char_bytes c +:+ of_chars l'
  end.

(** [char::is_whitespace] *)
Definition is_whitespace (c : Char) : bool :=
  let n := code_point c in
  ((9 <=? n) && (n <=? 13) || (n =? 32) || (n =? 133) || (n =? 160) || (n =? 5760)
   || ((8192 <=? n) && (n <=? 8202)) || (n =? 8232) || (n =? 8233) || (n =? 8239)
   || (n =? 8287) || (n =? 12288))%N.

(** [char::is_control] *)
Definition is_control (c : Char) : bool :=
  let n := code_point c in ((n <? 32) || ((127 <=? n) && (n <? 160)))%N.

Fixpoint drop_while {A} (p : A -> bool) (l : list A) : list A :=
  match l with
  | [] => []
  | x :: l' => if p x then drop_while p l' else l
  end.

(** [str::trim] *)
Definition str_trim (s : string) : string :=
  of_chars (rev (drop_while is_whitespace (rev (drop_while is_whitespace (chars s))))).

Lemma str_rev_ind (P : string -> Prop) :
  (forall s, (forall s', String.length s' < String.length s -> P s') -> P s) -> forall s, P s.
Proof.
  intros H s. remember (String.length s) as n eqn:Hn. revert s Hn.
  induction n as [n IH] using lt_wf_ind. intros s ->. apply H. intros s' Hlt. by eapply IH.
Qed.

(** Splitting into characters loses nothing. *)
Lemma of_chars_chars s : of_chars (chars s) = s.
Proof.
  induction s as [s IH] using str_rev_ind.
  destruct s as [|a [|b [|c [|d r]]]]; cbn [chars]; repeat case_match;
    cbn [of_chars char_bytes]; rewrite ?str_app_cons, ?str_app_nil_l; try done;
    repeat f_equal; apply IH; cbn; lia.
Qed.

Lemma of_chars_app l1 l2 : of_chars (l1 ++ l2) = of_chars l1 +:+ of_chars l2.
Proof. induction l1 as [|c l1 IH]; cbn; [done|]. by rewrite IH, str_app_assoc. Qed.

Lemma drop_while_suffix {A} (p : A -> bool) l : exists k, l = k ++ drop_while p l.
Proof.
  induction l as [|x l IH]; [by exists []|]. cbn. destruct (p x); [|by exists []].
  destruct IH as [k Hk]. exists (x :: k). cbn. by rewrite <- Hk.
Qed.

(** Trimming only removes a prefix and a suffix. *)
Lemma str_trim_infix s : exists pre post, s = pre +:+ str_trim s +:+ post.
Proof.
  unfold str_trim. set (l := chars s).
  destruct (drop_while_suffix is_whitespace l) as [k1 H1]. set (m := drop_while is_whitespace l) in *.
  destruct (drop_while_suffix is_whitespace (rev m)) as [k2 H2].
  set (r := drop_while is_whitespace (rev m)) in *.
  exists (of_chars k1), (of_chars (rev k2)).
  rewrite <- of_chars_app, <- of_chars_app, <- rev_app_distr, <- H2, rev_involutive, <- H1.
  symmetry. apply of_chars_chars.
Qed.

Example trim_example : str_trim "  a b	 " = "a b".
Proof. reflexivity. Qed.

(** ** Validity *)

Definition in_range (lo hi : N) (c : ascii) : bool := ((lo <=? byte c) && (byte c <=? hi))%N.
Definition is_cont (c : ascii) : bool := in_range 128 191 c.

(** [std::str::from_utf8(bytes).is_ok()] *)
Fixpoint utf8_valid (s : string) : bool :=
  match s with
  | EmptyString => true
  | String a s1 =>
      if in_range 0 127 a then utf8_valid s1
      else match s1 with
      | EmptyString => false
      | String b s2 =>
          if in_range 194 223 a then is_cont b && utf8_valid s2
          else match s2 with
          | EmptyString => false
          | String c s3 =>
              if in_range 224 239 a then
                (if (byte a =? 224)%N then in_range 160 191 b
                 else if (byte a =? 237)%N then in_range 128 159 b else is_cont b)
                && is_cont c && utf8_valid s3
              else match s3 with
              | EmptyString => false
              | String d s4 =>
                  in_range 240 244 a
                  && (if (byte a =? 240)%N then in_range 144 191 b
                      else if (byte a =? 244)%N then in_range 128 143 b else is_cont b)
                  && is_cont c && is_cont d && utf8_valid s4
              end
          end
      end
  end.

(** [s.starts_with('\u{feff}')] and [trim_start_matches('\u{feff}')] *)
Definition bom : string := String "239" (String "187" (String "191" "")).
Fixpoint trim_bom (s : string) : string :=
  match s with
  | String a (String b (String c rest)) =>
      if bool_decide (String a (String b (String c "")) = bom) then trim_bom rest else s
  | _ => s
  end.

(** ** Unsigned integers in text: [str::parse::<uN>] *)

Fixpoint dec_digits (max acc : N) (s : string) : Result N string :=
  match s with
  | EmptyString => Ok acc
  | String c s' =>
      if is_ascii_digit c then
        let acc := (acc * 10 + (N_of_ascii c - 48))%N in
        if (acc <=? max)%N then dec_digits max acc s' else Err "number too large to fit in target type"
      else Err "invalid digit found in string"
  end.

Definition parse_uint (max : N) (s : string) : Result N string :=
  match s with
  | EmptyString => Err "cannot parse integer from empty string"
  | String "+"%char EmptyString => Err "invalid digit found in string"
  | String "+"%char rest => dec_digits max 0 rest
  | _ => dec_digits max 0 s
  end.

(** [str::strip_prefix], [str::strip_suffix], [Option::is_some_and] *)
Definition strip_prefix (pre s : string) : option string :=
  if str_starts_with pre s then Some (str_drop (String.length pre) s) else None.

Lemma strip_prefix_app p s : strip_prefix p (p +:+ s) = Some s.
Proof.
  unfold strip_prefix. induction p as [|c p IH]; [by destruct s|].
  rewrite str_app_cons. cbn. rewrite bool_decide_eq_true_2 by done. cbn.
  destruct (str_starts_with p (p +:+ s)); [exact IH|done].
Qed.

Definition strip_suffix (suf s : string) : option string :=
  let k := String.length s - String.length suf in
  if (String.length suf <=? String.length s)%nat && bool_decide (str_drop k s = suf)
  then Some (String.substring 0 k s) else None.
Definition is_some_and {A} (f : A -> bool) (o : option A) : bool :=
  match o with Some a => f a | None => false end.

(** [str::trim_start] *)
Definition str_trim_start (s : string) : string := of_chars (drop_while is_whitespace (chars s)).

(** [str::trim_matches] of an ASCII character *)
Fixpoint trim_start_char (c : ascii) (s : string) : string :=
  match s with
  | String a s' => if bool_decide (a = c) then trim_start_char c s' else s
  | EmptyString => ""
  end.
Fixpoint trim_end_char (c : ascii) (s : string) : string :=
  match s with
  | EmptyString => ""
  | String a s' =>
      match trim_end_char c s' with
      | EmptyString => if bool_decide (a = c) then "" else String a ""
      | r => String a r
      end
  end.
Definition trim_char (c : ascii) (s : string) : string := trim_end_char c (trim_start_char c s).

(** ** Byte buffers and hexadecimal

    Slices, [slice::chunks], [uN::from_be_bytes], hexadecimal printing
    ([format!("{:02x}")]) and [u8::from_str_radix(_, 16)], with the round
    trips the codecs rely on. *)

(** [&s[..n]] *)
Fixpoint str_take (n : nat) (s : string) : string :=
  match n, s with
  | S n', String c s' => String c (str_take n' s')
  | _, _ => ""
  end.

(** [slice::chunks(n)], [n > 0]; the recursion is on the number of chunks. *)
Fixpoint chunks_fuel (fuel n : nat) (s : string) : list string :=
  match fuel, s with
  | S fuel', String _ _ => str_take n s :: chunks_fuel fuel' n (str_drop n s)
  | _, _ => []
  end.
Definition str_chunks (n : nat) (s : string) : list string := chunks_fuel (String.length s) n s.

(** [uN::from_be_bytes] *)
Definition be_value (s : string) : N :=
  (fix go (acc : N) (s : string) : N :=
     match s with
     | EmptyString => acc
     | String c s' => go (acc * 256 + byte c)%N s'
     end) 0%N s.

Definition hex_digit (upper : bool) (n : N) : ascii :=
  ascii_of_N (if (n <? 10)%N then 48 + n else (if upper then 55 else 87) + n).

(** [format!("{:02X}")] and [format!("{:02x}")] *)
Definition hex_byte (upper : bool) (c : ascii) : string :=
  String (hex_digit upper (byte c / 16)) (String (hex_digit upper (byte c mod 16)) "").

Fixpoint hex (upper : bool) (s : string) : string :=
  match s with
  | EmptyString => ""
  | String c s' => hex_byte upper c +:+ hex upper s'
  end.

Definition hex_value (c : ascii) : option N :=
  let n := byte c in
  if ((48 <=? n) && (n <=? 57))%N then Some (n - 48)%N
  else if ((97 <=? n) && (n <=? 102))%N then Some (n - 87)%N
  else if ((65 <=? n) && (n <=? 70))%N then Some (n - 55)%N
  else None.

Fixpoint hex_digits (acc : N) (s : string) : Result N string :=
  match s with
  | EmptyString => Ok acc
  | String c s' =>
      match hex_value c with
      | Some d =>
          let acc := (acc * 16 + d)%N in
          if (acc <=? 255)%N then hex_digits acc s' else Err "number too large to fit in target type"
      | None => Err "invalid digit found in string"
      end
  end.

(** [u8::from_str_radix(s, 16)]: a plus sign may precede the digits. *)
Definition from_str_radix_16 (s : string) : Result N string :=
  match s with
  | EmptyString => Err "cannot parse integer from empty string"
  | String "+"%char EmptyString => Err "invalid digit found in string"
  | String "+"%char rest => hex_digits 0 rest
  | _ => hex_digits 0 s
  end.

(** ** Slices *)

Lemma str_take_drop n s : str_take n s +:+ str_drop n s = s.
Proof. revert s. induction n as [|n IH]; intros [|c s]; [done..|]. cbn. rewrite str_app_cons. by rewrite IH. Qed.

Lemma str_take_app n a b : String.length a = n -> str_take n (a +:+ b) = a.
Proof. intros <-. induction a as [|c a IH]; [by destruct b|]. rewrite str_app_cons. cbn. by rewrite IH. Qed.

Lemma str_drop_app n a b : String.length a = n -> str_drop n (a +:+ b) = b.
Proof. intros <-. induction a as [|c a IH]; [by destruct b|]. rewrite str_app_cons. cbn. by rewrite IH. Qed.

Lemma length_str_take n s : String.length (str_take n s) = Nat.min n (String.length s).
Proof. revert s. induction n as [|n IH]; intros [|c s]; [done..|]. cbn. by rewrite IH. Qed.

Lemma length_str_drop n s : String.length (str_drop n s) = String.length s - n.
Proof. revert s. induction n as [|n IH]; intros [|c s]; [done..|]. cbn. by rewrite IH. Qed.

Fixpoint str_concat (l : list string) : string :=
  match l with
  | [] => ""
  | x :: l' => x +:+ str_concat l'
  end.

Lemma str_concat_app l1 l2 : str_concat (l1 ++ l2) = str_concat l1 +:+ str_concat l2.
Proof. induction l1 as [|x l1 IH]; [done|]. cbn. by rewrite IH, str_app_assoc. Qed.

Lemma chunks_fuel_concat fuel n s :
  0 < n -> String.length s <= fuel -> str_concat (chunks_fuel fuel n s) = s.
Proof.
  intros Hn. revert s. induction fuel as [|fuel IH]; intros [|c s] Hle; cbn in Hle; [done|lia|done|].
  cbn [chunks_fuel str_concat]. rewrite IH; [apply str_take_drop|]. rewrite length_str_drop. cbn. lia.
Qed.

Lemma str_chunks_concat n s : 0 < n -> str_concat (str_chunks n s) = s.
Proof. intros Hn. by apply chunks_fuel_concat. Qed.

(** Chunking a text made of blocks of the size. *)
Lemma chunks_fuel_blocks n l fuel :
  0 < n -> Forall (fun b => String.length b = n) l -> length l <= fuel ->
  chunks_fuel fuel n (str_concat l) = l.
Proof.
  intros Hn Hl. revert fuel. induction Hl as [|b l Hb Hl IH]; intros fuel Hf; [by destruct fuel|].
  cbn [length] in Hf. destruct fuel as [|fuel]; [lia|].
  assert (chunks_fuel (S fuel) n (str_concat (b :: l))
    = str_take n (b +:+ str_concat l) :: chunks_fuel fuel n (str_drop n (b +:+ str_concat l))) as ->.
  { destruct b; [cbn in Hb; lia|done]. }
  rewrite str_take_app, str_drop_app, IH by (done || lia). done.
Qed.

Lemma length_concat_blocks n l :
  Forall (fun b => String.length b = n) l -> String.length (str_concat l) = length l * n.
Proof. induction 1 as [|b l Hb _ IH]; [done|]. cbn. rewrite str_length_app. lia. Qed.

Lemma str_chunks_blocks n l :
  0 < n -> Forall (fun b => String.length b = n) l -> str_chunks n (str_concat l) = l.
Proof.
  intros Hn Hl. apply chunks_fuel_blocks; [done..|]. rewrite (length_concat_blocks n) by done. nia.
Qed.

(** ** Big-endian numbers *)

Lemma be_value_snoc s c : be_value (s +:+ String c "") = (be_value s * 256 + byte c)%N.
Proof.
  unfold be_value. generalize 0%N. induction s as [|d s IH]; intros acc; [done|].
  rewrite str_app_cons. apply IH.
Qed.

Lemma be_value_bytes w n : (n < 256 ^ N.of_nat w)%N -> be_value (be_bytes w n) = n.
Proof.
  revert n. induction w as [|w IH]; intros n Hn.
  - change (256 ^ N.of_nat 0)%N with 1%N in Hn. assert (n = 0%N) as -> by lia. done.
  - rewrite Nat2N.inj_succ, N.pow_succ_r' in Hn. cbn [be_bytes].
    rewrite be_value_snoc, IH by (apply N.Div0.div_lt_upper_bound; lia).
    unfold byte. rewrite N_ascii_embedding by (by apply N.mod_lt). rewrite (N.div_mod n 256) at 3 by done. lia.
Qed.

Lemma byte_lt c : (byte c < 256)%N.
Proof. apply N_ascii_bounded. Qed.

Lemma be_bytes_value s : be_bytes (String.length s) (be_value s) = s.
Proof.
  induction s as [s IH] using str_rev_ind.
  assert (s = "" \/ exists s' c, s = s' +:+ String c "") as [->|(s' & c & ->)]; [|done|].
  { clear IH. induction s as [|c s IH]; [by left|right]. destruct IH as [->|(s' & d & ->)]; [by exists "", c|].
    by exists (String c s'), d. }
  rewrite str_length_app, Nat.add_comm, be_value_snoc. cbn [String.length Nat.add be_bytes].
  pose proof (byte_lt c). rewrite N.div_add_l, N.div_small, N.add_0_r by done.
  rewrite IH by (rewrite str_length_app; cbn; lia). do 2 f_equal.
  rewrite N.add_comm, N.Div0.mod_add, N.mod_small by done. apply ascii_N_embedding.
Qed.

Lemma be_value_lt s : (be_value s < 256 ^ N.of_nat (String.length s))%N.
Proof.
  rewrite <- (be_bytes_value s) at 1.
  assert (forall w n, be_value (be_bytes w n) < 256 ^ N.of_nat w)%N as H; [|apply H].
  induction w as [|w IH]; intros n; [done|]. cbn [be_bytes]. rewrite be_value_snoc, Nat2N.inj_succ, N.pow_succ_r'.
  specialize (IH (n / 256)%N). pose proof (byte_lt (ascii_of_N (n mod 256))). lia.
Qed.

(** ** Hexadecimal *)

Lemma length_hex u s : String.length (hex u s) = 2 * String.length s.
Proof. induction s as [|c s IH]; [done|]. cbn [hex]. rewrite str_length_app, IH. cbn. lia. Qed.

Lemma hex_app u a b : hex u (a +:+ b) = hex u a +:+ hex u b.
Proof. induction a as [|c a IH]; [done|]. rewrite str_app_cons. cbn [hex]. by rewrite IH, str_app_assoc. Qed.

Lemma from_hex_byte u c : from_str_radix_16 (hex_byte u c) = Ok (byte c).
Proof. by destruct u, c as [[] [] [] [] [] [] [] []]. Qed.

Lemma hex_inj u a b : hex u a = hex u b -> a = b.
Proof.
  revert b. induction a as [|c a IH]; intros [|d b] Heq; [done|cbn in Heq; done..|].
  cbn [hex] in Heq. apply str_app_inj_len in Heq as [Hcd Hab]; [|done].
  f_equal; [|by apply IH]. apply (f_equal from_str_radix_16) in Hcd. rewrite !from_hex_byte in Hcd.
  injection Hcd as Hcd. unfold byte in Hcd. by rewrite <- (ascii_N_embedding c), Hcd, ascii_N_embedding.
Qed.

(** Hexadecimal digits are ASCII letters and digits. *)
Definition is_hex (c : ascii) : bool := match hex_value c with Some _ => true | None => false end.

Lemma hex_is_hex u s : str_forallb is_hex (hex u s) = true.
Proof.
  induction s as [|c s IH]; [done|]. cbn [hex]. rewrite str_forallb_app, IH, andb_true_r.
  by destruct u, c as [[] [] [] [] [] [] [] []].
Qed.

Lemma hex_lower s : to_ascii_lowercase (hex true s) = hex false s.
Proof.
  induction s as [|c s IH]; [done|]. cbn [hex]. unfold hex_byte. rewrite !str_app_cons, !str_app_nil_l.
  cbn [to_ascii_lowercase]. rewrite IH. by destruct c as [[] [] [] [] [] [] [] []].
Qed.

(** ** ASCII text *)

Definition is_ascii (c : ascii) : bool := (byte c <? 128)%N.

Lemma chars_cons_ascii c s : is_ascii c = true -> chars (String c s) = mkChar (byte c) (String c "") :: chars s.
Proof.
  unfold is_ascii. intros Hc%N.ltb_lt. cbn [chars].
  rewrite (proj2 (N.leb_gt 192 (byte c))), (proj2 (N.leb_gt 224 (byte c))), (proj2 (N.leb_gt 240 (byte c))) by lia.
  cbn [andb]. by repeat case_match.
Qed.

Lemma is_hex_ascii c : is_hex c = true -> is_ascii c = true.
Proof. by destruct c as [[] [] [] [] [] [] [] []]. Qed.
