(* ===== verification/ServerAuth.v ===== *)
(** * Server sessions, devices, passkey challenges and SSH login
      ([apps/server/src/db/store.rs], [db/ssh.rs], [auth.rs];
      [zk-protocol/src/ssh.rs]; [zk-server-auth/src/ssh.rs])

    The authentication tables of the server's database, keyed by their
    primary keys, and the operations on them.  Timestamps are the second they
    denote: [CURRENT_TIMESTAMP] and [SystemTime::now] read one host clock,
    and an operation reads it once.  A transaction that is not committed
    restores the tables, not the clock or the random source. *)

From stdpp Require Import options.
From S2P Require Import Prelude Text Protocol ServerDb.

(** ** Wire records *)

Record SshStartRequest : Type := mkSshStartRequest {
  sr_version : N;
  sr_fingerprint : string;
  sr_audience : string;
  sr_account_id : option string;
  sr_device_id : string
}.

Record SshChallenge : Type := mkSshChallenge {
  sch_request : SshStartRequest;
  sch_challenge_id : string;
  sch_nonce : string;
  sch_expires_at : N
}.

Record SshFinishRequest : Type := mkSshFinishRequest {
  sf_challenge : SshChallenge;
  sf_signature : string
}.

Record SshCredential : Type := mkSshCredential {
  sk_credential_id : string;
  sk_fingerprint : string;
  sk_label : option string;
  sk_device_id : option string;
  sk_revoked : bool
}.

Record AuthenticatedSession : Type := mkAuthenticatedSession {
  as_session_id : string;
  as_account_id : string;
  as_device_id : option string;
  as_display_name : option string;
  as_created_at : Z;
  as_expires_at : option Z;
  as_is_revoked : bool
}.

Record SessionResponse : Type := mkSessionResponse {
  sp_token : string;
  sp_session_id : string;
  sp_account_id : string;
  sp_device_id : option string;
  sp_expires_at : option Z
}.

#[export] Instance SshStartRequest_eq_dec : EqDecision SshStartRequest.
Proof. solve_decision. Defined.
#[export] Instance SshChallenge_eq_dec : EqDecision SshChallenge.
Proof. solve_decision. Defined.

Definition SSH_AUTH_DOMAIN : string := "zk-note-ssh-auth-v1".
Definition SSH_AUTH_VERSION : N := 1.

(** ** Library code *)

Class AuthLib : Type := {
  (** [Uuid::new_v4], and [Uuid::as_bytes] of a canonical text *)
  auth_uuid : nat -> string;
  uuid_bytes : string -> string;
  (** [OsRng.try_fill_bytes] of a buffer of the given size *)
  try_fill_bytes : nat -> nat -> option string;
  base64url_encode : string -> string;
  base64url_decode : string -> option string;
  base64_unpadded_encode : string -> string;
  base64_unpadded_decode : string -> option string;
  (** SQLite's [datetime('now', '<n> seconds')]: NULL outside its range *)
  datetime_now : Z -> Z -> option Z;
  challenge_to_string : SshChallenge -> string;
  challenge_from_str : string -> Result SshChallenge string;
  (** [parse::<ssh_key::Fingerprint>().is_ok()] *)
  fingerprint_parses : string -> bool;
  (** the [ssh_key] crate *)
  PublicKey : Type;
  from_openssh : string -> option PublicKey;
  key_is_ed25519 : PublicKey -> bool;
  set_comment : string -> PublicKey -> PublicKey;
  to_openssh : PublicKey -> option string;
  key_fingerprint : PublicKey -> string;
  Signature : Type;
  signature_try_from : string -> option Signature;
  signature_is_ed25519 : Signature -> bool;
  verify : PublicKey -> string -> Signature -> bool
}.

(** ** Tables *)

Record DeviceRow : Type := mkDeviceRow {
  dv_display_name : option string;
  dv_created_at : Z;
  dv_last_seen : option Z;
  dv_last_ack_server_seq : Z;
  dv_revoked_at : option Z
}.

Record SessionRow : Type := mkSessionRow {
  ss_account_id : string;
  ss_device_id : option string;
  ss_token_hash : string;
  ss_display_name : option string;
  ss_created_at : Z;
  ss_expires_at : option Z;
  ss_revoked_at : option Z;
  ss_ssh_credential_id : option string
}.

Record WebAuthnChallengeRow : Type := mkChallengeRow {
  wc_challenge : string;
  wc_account_id : option string;
  wc_purpose : string;
  wc_created_at : Z;
  wc_expires_at : Z
}.

Record WebAuthnCredentialRow : Type := mkCredentialRow {
  cr_account_id : string;
  cr_public_key : string;
  cr_sign_count : Z;
  cr_device_id : option string;
  cr_display_name : option string;
  cr_created_at : Z;
  cr_last_used_at : option Z
}.

Record SshCredentialRow : Type := mkSshCredentialRow {
  sc_account_id : string;
  sc_fingerprint : string;
  sc_public_key : string;
  sc_label : option string;
  sc_device_id : option string;
  sc_revoked_at : option Z
}.

Record SshChallengeRow : Type := mkSshChallengeRow {
  sh_purpose : string;
  sh_challenge_json : string;
  sh_expires_at : Z;
  sh_credential_id : option string
}.

Record AuthDb : Type := mkAuthDb {
  ad_accounts : gmap string string;
  ad_devices : gmap (string * string) DeviceRow;
  ad_sessions : gmap string SessionRow;
  ad_challenges : gmap string WebAuthnChallengeRow;
  ad_credentials : gmap string WebAuthnCredentialRow;
  ad_ssh_credentials : gmap string SshCredentialRow;
  ad_ssh_challenges : gmap string SshChallengeRow
}.

(** The tables, the clock, and how often the two random sources were read. *)
Record Auth : Type := mkAuth {
  au_db : AuthDb;
  au_now : Z;
  au_uuids : nat;
  au_rng : nat
}.

Definition AuthDb_empty : AuthDb := mkAuthDb ∅ ∅ ∅ ∅ ∅ ∅ ∅.
Definition Auth_start (t : Z) : Auth := mkAuth AuthDb_empty t 0 0.

Definition set_db (db : AuthDb) (s : Auth) : Auth := mkAuth db (au_now s) (au_uuids s) (au_rng s).
Definition up_accounts f (db : AuthDb) : AuthDb :=
  mkAuthDb (f (ad_accounts db)) (ad_devices db) (ad_sessions db) (ad_challenges db)
    (ad_credentials db) (ad_ssh_credentials db) (ad_ssh_challenges db).
Definition up_devices f (db : AuthDb) : AuthDb :=
  mkAuthDb (ad_accounts db) (f (ad_devices db)) (ad_sessions db) (ad_challenges db)
    (ad_credentials db) (ad_ssh_credentials db) (ad_ssh_challenges db).
Definition up_sessions f (db : AuthDb) : AuthDb :=
  mkAuthDb (ad_accounts db) (ad_devices db) (f (ad_sessions db)) (ad_challenges db)
    (ad_credentials db) (ad_ssh_credentials db) (ad_ssh_challenges db).
Definition up_challenges f (db : AuthDb) : AuthDb :=
  mkAuthDb (ad_accounts db) (ad_devices db) (ad_sessions db) (f (ad_challenges db))
    (ad_credentials db) (ad_ssh_credentials db) (ad_ssh_challenges db).
Definition up_credentials f (db : AuthDb) : AuthDb :=
  mkAuthDb (ad_accounts db) (ad_devices db) (ad_sessions db) (ad_challenges db)
    (f (ad_credentials db)) (ad_ssh_credentials db) (ad_ssh_challenges db).
Definition up_ssh_credentials f (db : AuthDb) : AuthDb :=
  mkAuthDb (ad_accounts db) (ad_devices db) (ad_sessions db) (ad_challenges db)
    (ad_credentials db) (f (ad_ssh_credentials db)) (ad_ssh_challenges db).
Definition up_ssh_challenges f (db : AuthDb) : AuthDb :=
  mkAuthDb (ad_accounts db) (ad_devices db) (ad_sessions db) (ad_challenges db)
    (ad_credentials db) (ad_ssh_credentials db) (f (ad_ssh_challenges db)).

(** ** Statements *)

(** [UPDATE .. SET .. WHERE], on a table. *)
Definition update_where {K V} `{Countable K} (p : K -> V -> bool) (f : V -> V) (m : gmap K V)
    : gmap K V :=
  map_imap (fun k v => Some (if p k v then f v else v)) m.
Definition count_where {K V} `{Countable K} (p : K -> V -> bool) (m : gmap K V) : nat :=
  length (List.filter (fun kv => p kv.1 kv.2) (map_to_list m)).

#[global] Arguments update_where : simpl never.
#[global] Arguments count_where : simpl never.

Abbreviation Auth_op A := (M Auth DbError A).

Definition query {A} (f : AuthDb -> A) : Auth_op A := fun s => (Ok (f (au_db s)), s).
Definition execute (f : AuthDb -> AuthDb) : Auth_op unit :=
  fun s => (Ok tt, set_db (f (au_db s)) s).
Definition clock : Auth_op Z := fun s => (Ok (au_now s), s).

(** [conn.transaction()] with [commit] at the end of the body. *)
Definition in_tx {A} (body : Auth_op A) : Auth_op A :=
  fun s => match body s with
           | (Ok a, s') => (Ok a, s')
           | (Err e, s') => (Err e, set_db (au_db s) s')
           end.

Definition opt_eqb (o : option string) (x : string) : bool := bool_decide (o = Some x).

Definition revoke_at (t : Z) (r : SessionRow) : SessionRow :=
  mkSessionRow (ss_account_id r) (ss_device_id r) (ss_token_hash r) (ss_display_name r)
    (ss_created_at r) (ss_expires_at r) (Some t) (ss_ssh_credential_id r).
Definition with_credential (c : option string) (r : SessionRow) : SessionRow :=
  mkSessionRow (ss_account_id r) (ss_device_id r) (ss_token_hash r) (ss_display_name r)
    (ss_created_at r) (ss_expires_at r) (ss_revoked_at r) c.
Definition revoke_device_at (t : Z) (r : DeviceRow) : DeviceRow :=
  mkDeviceRow (dv_display_name r) (dv_created_at r) (dv_last_seen r) (dv_last_ack_server_seq r)
    (Some t).
Definition live (r : SessionRow) : bool := bool_decide (ss_revoked_at r = None).

(** [COALESCE(revoked_at, CURRENT_TIMESTAMP)] *)
Definition coalesce (o : option Z) (t : Z) : Z := match o with Some x => x | None => t end.

(** ** Sessions and devices *)

Inductive SessionValidationResult : Type :=
| Valid (account_id : string) (device_id : option string) (session_id : string)
| Expired
| Revoked
| DeviceRevoked.

Section sessions.
Context `{ServerLib} `{AuthLib}.

Definition new_uuid_v4 : Auth_op string :=
  fun s => (Ok (auth_uuid (au_uuids s)), mkAuth (au_db s) (au_now s) (1 + au_uuids s) (au_rng s)).

Definition fill_bytes (e : DbError) (n : nat) : Auth_op string :=
  fun s => (match try_fill_bytes (au_rng s) n with Some b => Ok b | None => Err e end,
            mkAuth (au_db s) (au_now s) (au_uuids s) (1 + au_rng s)).

Definition ensure_auth_account (account_id : string) : Auth_op unit :=
  execute (up_accounts (fun m => match m !! account_id with
                                 | Some _ => m
                                 | None => <[account_id := "active"]> m
                                 end)).

Definition register_device_on (account_id device_id : string) (display_name : option string)
    : Auth_op DeviceRow :=
  t ← clock;
  _ ← execute (up_devices (fun m =>
        <[(account_id, device_id) :=
            match m !! (account_id, device_id) with
            | None => mkDeviceRow display_name t (Some t) 0 None
            | Some r => mkDeviceRow (match display_name with Some n => Some n | None => dv_display_name r end)
                          (dv_created_at r) (Some t) (dv_last_ack_server_seq r) (dv_revoked_at r)
            end]> m));
  row ← query (fun db => ad_devices db !! (account_id, device_id));
  ok_or (DbE_Sqlite "Query returned no rows") row.

Definition register_device (account_id device_id : string) (display_name : option string)
    : Auth_op DeviceRow :=
  _ ← ensure_auth_account account_id;
  register_device_on account_id device_id display_name.

Definition device_revoked (db : AuthDb) (account_id device_id : string) : option bool :=
  (fun r => bool_decide (dv_revoked_at r <> None)) <$> ad_devices db !! (account_id, device_id).

Definition is_device_revoked (account_id device_id : string) : Auth_op bool :=
  query (fun db => default false (device_revoked db account_id device_id)).

(** [INSERT INTO sessions]: the primary key and the unique [token_hash]. *)
Definition insert_session (session_id : string) (row : SessionRow) : Auth_op unit :=
  fun s =>
    let m := ad_sessions (au_db s) in
    if bool_decide (is_Some (m !! session_id))
       || existsb (fun kv => bool_decide (ss_token_hash kv.2 = ss_token_hash row)) (map_to_list m)
    then (Err (DbE_Sqlite "UNIQUE constraint failed"), s)
    else execute (up_sessions <[session_id := row]>) s.

(** The device of a new session is registered and must not be revoked. *)
Definition session_device (account_id : string) (device_id display_name : option string)
    : Auth_op unit :=
  match device_id with
  | Some dev_id =>
      _ ← register_device_on account_id dev_id display_name;
      row ← query (fun db => device_revoked db account_id dev_id);
      revoked ← ok_or (DbE_Sqlite "Query returned no rows") row;
      if (revoked : bool) then
        throw (DbE_SchemaVerificationFailed "cannot create session for a revoked device")
      else mret tt
  | None => mret tt
  end.

Definition create_session_on (account_id : string) (device_id : option string)
    (display_name : option string) (expires_in_secs : option Z)
    : Auth_op (AuthenticatedSession * string) :=
  _ ← session_device account_id device_id display_name;
  session_id ← new_uuid_v4;
  entropy ← fill_bytes DbE_SshAuthFailed 32;
  let raw_token := "zk_sess_" +:+ base64url_encode entropy in
  let token_hash := blake2s256 raw_token in
  t ← clock;
  let expires_at := match expires_in_secs with Some secs => datetime_now t secs | None => None end in
  _ ← insert_session session_id
        (mkSessionRow account_id device_id token_hash display_name t expires_at None None);
  mret (mkAuthenticatedSession session_id account_id device_id display_name t expires_at false,
        raw_token).

Definition create_session (account_id : string) (device_id : option string)
    (display_name : option string) (expires_in_secs : option Z)
    : Auth_op (AuthenticatedSession * string) :=
  _ ← ensure_auth_account account_id;
  in_tx (create_session_on account_id device_id display_name expires_in_secs).

Definition parse_stored_uuid (s : string) : Auth_op string :=
  lift_result (result_map_err DbE_InvalidUuid (uuid_parse_str s)).

(** [SELECT .. FROM sessions WHERE token_hash = ?1] *)
Definition session_by_hash (db : AuthDb) (h : string) : option (string * SessionRow) :=
  find_first (fun kv => bool_decide (ss_token_hash kv.2 = h)) (map_to_list (ad_sessions db)).

(** [expires_at IS NOT NULL AND expires_at <= CURRENT_TIMESTAMP] *)
Definition is_expired (t : Z) (r : SessionRow) : bool :=
  match ss_expires_at r with Some e => (e <=? t)%Z | None => false end.

Definition validate_session_token (raw_token : string)
    : Auth_op (option SessionValidationResult) :=
  let token_hash := blake2s256 raw_token in
  t ← clock;
  found ← query (fun db => session_by_hash db token_hash);
  match found with
  | None => mret None
  | Some (session_id, row) =>
      session_id ← parse_stored_uuid session_id;
      account_id ← parse_stored_uuid (ss_account_id row);
      device_id ← match ss_device_id row with
                  | Some d => d' ← parse_stored_uuid d; mret (Some d')
                  | None => mret None
                  end;
      dev_revoked ← match device_id with
                    | Some dev_id => is_device_revoked account_id dev_id
                    | None => mret false
                    end;
      if dev_revoked : bool then mret (Some DeviceRevoked)
      else if negb (live row) then mret (Some Revoked)
      else if is_expired t row then mret (Some Expired)
      else mret (Some (Valid account_id device_id session_id))
  end.

(** [UPDATE sessions SET revoked_at = CURRENT_TIMESTAMP WHERE ..]; the number
    of rows changed. *)
Definition revoke_sessions_where (p : string -> SessionRow -> bool) : Auth_op nat :=
  t ← clock;
  n ← query (fun db => count_where p (ad_sessions db));
  _ ← execute (up_sessions (update_where p (revoke_at t)));
  mret n.

Definition revoke_session (account_id session_id : string) : Auth_op bool :=
  changed ← revoke_sessions_where (fun k r =>
    bool_decide (ss_account_id r = account_id) && bool_decide (k = session_id) && live r);
  mret (0 <? changed)%nat.

Definition revoke_all_sessions_for_account (account_id : string) : Auth_op nat :=
  revoke_sessions_where (fun k r => bool_decide (ss_account_id r = account_id) && live r).

Definition device_session (account_id device_id : string) (k : string) (r : SessionRow) : bool :=
  bool_decide (ss_account_id r = account_id) && opt_eqb (ss_device_id r) device_id && live r.

Definition revoke_device_sessions (account_id device_id : string) : Auth_op nat :=
  revoke_sessions_where (device_session account_id device_id).

Definition revoke_device (account_id device_id : string) : Auth_op unit :=
  t ← clock;
  _ ← execute (up_devices (update_where
        (fun k _ => bool_decide (k = (account_id, device_id))) (revoke_device_at t)));
  _ ← revoke_sessions_where (device_session account_id device_id);
  mret tt.

Definition created_le (a b : string * DeviceRow) : Prop := (dv_created_at a.2 <= dv_created_at b.2)%Z.
#[global] Instance created_le_dec : RelDecision created_le.
Proof. intros a b. apply Z_le_dec. Defined.

(** [ORDER BY created_at ASC]; each row with its device identifier. *)
Definition list_devices (account_id : string) : Auth_op (list (string * DeviceRow)) :=
  query (fun db => merge_sort created_le
    (omap (fun kv => if bool_decide (kv.1.1 = account_id) then Some (kv.1.2, kv.2) else None)
       (map_to_list (ad_devices db)))).

Definition created_ge (a b : string * SessionRow) : Prop := (ss_created_at b.2 <= ss_created_at a.2)%Z.
#[global] Instance created_ge_dec : RelDecision created_ge.
Proof. intros a b. apply Z_le_dec. Defined.

(** [ORDER BY created_at DESC] *)
Definition list_sessions (account_id : string) : Auth_op (list (string * SessionRow)) :=
  query (fun db => merge_sort created_ge
    (List.filter (fun kv => bool_decide (ss_account_id kv.2 = account_id))
       (map_to_list (ad_sessions db)))).

(** ** Passkey challenges and credentials *)

Definition create_webauthn_challenge (challenge_id challenge : string) (account_id : option string)
    (purpose : string) (ttl_seconds : Z) : Auth_op unit :=
  t ← clock;
  match datetime_now t ttl_seconds with
  | None => throw (DbE_Sqlite "NOT NULL constraint failed")
  | Some expires_at =>
      taken ← query (fun db => bool_decide (is_Some (ad_challenges db !! challenge_id)));
      if (taken : bool) then throw (DbE_Sqlite "UNIQUE constraint failed")
      else execute (up_challenges
        <[challenge_id := mkChallengeRow challenge account_id purpose t expires_at]>)
  end.

(** [DELETE .. WHERE challenge_id = ?1 AND purpose = ?2 RETURNING ..] *)
Definition take_challenge (challenge_id expected_purpose : string)
    : Auth_op (option WebAuthnChallengeRow) :=
  fun s =>
    match ad_challenges (au_db s) !! challenge_id with
    | Some row =>
        if bool_decide (wc_purpose row = expected_purpose)
        then (Ok (Some row), set_db (up_challenges (delete challenge_id) (au_db s)) s)
        else (Ok None, s)
    | None => (Ok None, s)
    end.

Definition consume_webauthn_challenge (challenge_id expected_purpose : string)
    : Auth_op WebAuthnChallengeRow :=
  t ← clock;
  taken ← take_challenge challenge_id expected_purpose;
  match taken with
  | None => throw DbE_ChallengeNotFound
  | Some row =>
      if (wc_expires_at row <=? t)%Z then throw DbE_ChallengeExpired
      else if bool_decide (wc_purpose row <> expected_purpose) then throw DbE_ChallengeNotFound
      else
        account_id ← match wc_account_id row with
                     | Some a => a' ← parse_stored_uuid a; mret (Some a')
                     | None => mret None
                     end;
        mret (mkChallengeRow (wc_challenge row) account_id (wc_purpose row) (wc_created_at row)
                (wc_expires_at row))
  end.

Definition register_webauthn_credential (credential_id account_id public_key : string)
    (device_id display_name : option string) : Auth_op unit :=
  _ ← ensure_auth_account account_id;
  t ← clock;
  taken ← query (fun db => bool_decide (is_Some (ad_credentials db !! credential_id)));
  if (taken : bool) then throw DbE_CredentialAlreadyExists
  else execute (up_credentials
    <[credential_id := mkCredentialRow account_id public_key 0 device_id display_name t None]>).

Definition get_webauthn_credential (credential_id : string)
    : Auth_op (option WebAuthnCredentialRow) :=
  found ← query (fun db => ad_credentials db !! credential_id);
  match found with
  | None => mret None
  | Some row =>
      account_id ← parse_stored_uuid (cr_account_id row);
      device_id ← match cr_device_id row with
                  | Some d => d' ← parse_stored_uuid d; mret (Some d')
                  | None => mret None
                  end;
      mret (Some (mkCredentialRow account_id (cr_public_key row)
                    (Z.of_N (as_u64 (cr_sign_count row))) device_id
                    (cr_display_name row) (cr_created_at row) (cr_last_used_at row)))
  end.

Definition used_at (t : Z) (n : Z) (r : WebAuthnCredentialRow) : WebAuthnCredentialRow :=
  mkCredentialRow (cr_account_id r) (cr_public_key r) n (cr_device_id r) (cr_display_name r)
    (cr_created_at r) (Some t).

(** A [u64] parameter beyond [i64::MAX] is refused by the driver. *)
Definition advance_webauthn_counter (credential_id : string) (old new : N) : Auth_op bool :=
  if (i64_max <? Z.of_N old)%Z then throw (DbE_Sqlite "out of range integral type conversion")
  else
    t ← clock;
    let p k r := bool_decide (k = credential_id) && (cr_sign_count r =? Z.of_N old)%Z in
    n ← query (fun db => count_where p (ad_credentials db));
    _ ← execute (up_credentials (update_where p (used_at t (Z.of_N new))));
    mret (n =? 1)%nat.

Definition update_webauthn_credential_usage (credential_id : string) (new_sign_count : N)
    : Auth_op unit :=
  t ← clock;
  let p k (_ : WebAuthnCredentialRow) := bool_decide (k = credential_id) in
  n ← query (fun db => count_where p (ad_credentials db));
  _ ← execute (up_credentials (update_where p (used_at t (as_i64 new_sign_count))));
  if (n =? 0)%nat then throw DbE_CredentialNotFound else mret tt.
End sessions.

(** ** SSH login *)

Section ssh.
Context `{ServerLib} `{AuthLib}.

Fixpoint nil_bytes (n : nat) : string :=
  match n with O => "" | S n' => String (ascii_of_N 0) (nil_bytes n') end.

Definition uuid_is_nil (u : string) : bool := bool_decide (uuid_bytes u = nil_bytes 16).

Definition append_string (value : string) : string :=
  be_bytes 4 (N.of_nat (String.length value) mod 4294967296) +:+ value.

(** Not ASCII, a control character, or ASCII white space (the blank aside,
    white space is made of control characters). *)
Definition bad_audience_byte (c : ascii) : bool :=
  let n := N_of_ascii c in ((128 <=? n) || (n <? 32) || (n =? 127) || (n =? 32))%N.

(** The conditions of [signing_bytes], with the fingerprint after its prefix,
    its digest and the raw nonce. *)
Definition challenge_fields_ok (c : SshChallenge) (fingerprint digest nonce : string) : bool :=
  let r := sch_request c in
  (sr_version r =? SSH_AUTH_VERSION)%N
  && negb (uuid_is_nil (sr_device_id r))
  && negb (uuid_is_nil (sch_challenge_id c))
  && negb (match sr_account_id r with Some id => uuid_is_nil id | None => false end)
  && negb (sch_expires_at c =? 0)%N
  && (String.length nonce =? 32)%nat
  && (String.length digest =? 32)%nat
  && bool_decide (base64_unpadded_encode digest = fingerprint)
  && bool_decide (base64url_encode nonce = sch_nonce c)
  && (String.length (sr_audience r) <=? 2048)%nat
  && str_forallb (fun b => negb (bad_audience_byte b)) (sr_audience r)
  && (str_starts_with "https://" (sr_audience r) || str_starts_with "http://" (sr_audience r)).

(** [signing_bytes]; [None] is [InvalidSshChallenge]. *)
Definition signing_bytes (c : SshChallenge) : option string :=
  let r := sch_request c in
  if negb (String.length (sr_fingerprint r) =? 50)%nat || negb (String.length (sch_nonce c) =? 43)%nat
  then None
  else if negb (str_starts_with "SHA256:" (sr_fingerprint r)) then None
  else
    let fingerprint := str_drop 7 (sr_fingerprint r) in
    digest ← base64_unpadded_decode fingerprint;
    nonce ← base64url_decode (sch_nonce c);
    if negb (challenge_fields_ok c fingerprint digest nonce) then None
    else Some (append_string SSH_AUTH_DOMAIN
               +:+ be_bytes 4 (sr_version r)
               +:+ append_string (sr_audience r)
               +:+ append_string (sr_fingerprint r)
               +:+ match sr_account_id r with
                   | Some id => String (ascii_of_N 1) (uuid_bytes id)
                   | None => String (ascii_of_N 0) ""
                   end
               +:+ uuid_bytes (sr_device_id r)
               +:+ uuid_bytes (sch_challenge_id c)
               +:+ nonce
               +:+ be_bytes 8 (sch_expires_at c)).

(** [zk_server_auth::ssh::parse_public_key]: the key, its canonical text and
    its fingerprint. *)
Definition parse_public_key (input : string) : option (PublicKey * string * string) :=
  if (4096 <? String.length input)%nat then None
  else
    let input := str_trim input in
    if existsb is_control (chars input) then None
    else
      key ← from_openssh input;
      if negb (key_is_ed25519 key) then None
      else
        let key := set_comment "" key in
        canonical ← to_openssh key;
        Some (key, canonical, key_fingerprint key).

(** [zk_server_auth::ssh::verify_signature] *)
Definition verify_signature (public_key message encoded_signature : string) : bool :=
  match parse_public_key public_key with
  | None => false
  | Some (key, _, _) =>
      if (1024 <? String.length encoded_signature)%nat then false
      else match bytes ← base64url_decode encoded_signature; signature_try_from bytes with
           | None => false
           | Some signature => signature_is_ed25519 signature && verify key message signature
           end
  end.

(** [SELECT status = 'active' FROM accounts WHERE id = ?1] *)
Definition account_active (db : AuthDb) (account : string) : option bool :=
  (fun st => bool_decide (st = "active")) <$> ad_accounts db !! account.

(** [INSERT INTO ssh_credentials], on the primary key. *)
Definition insert_ssh_credential (id : string) (row : SshCredentialRow) : Auth_op unit :=
  fun s =>
    match ad_ssh_credentials (au_db s) !! id with
    | Some _ => (Err (DbE_Sqlite "UNIQUE constraint failed"), s)
    | None => execute (up_ssh_credentials <[id := row]>) s
    end.

Definition add_ssh_key (account public_key : string) (label : option string)
    (create_account : bool) : Auth_op SshCredential :=
  key ← ok_or DbE_SshAuthFailed (parse_public_key public_key);
  let canonical := key.1.2 in
  let fingerprint := key.2 in
  if match label with
     | Some s => (128 <? String.length s)%nat || existsb is_control (chars s)
     | None => false
     end then throw DbE_SshAuthFailed
  else
    id ← new_uuid_v4;
    in_tx (
      _ ← (if create_account then
             taken ← query (fun db => bool_decide (is_Some (ad_accounts db !! account)));
             if (taken : bool) then throw (DbE_Sqlite "UNIQUE constraint failed")
             else execute (up_accounts <[account := "active"]>)
           else mret tt);
      active ← query (fun db => account_active db account);
      if bool_decide (active <> Some true) then throw DbE_SshAccountNotFound
      else
        duplicate ← query (fun db => existsb (fun kv =>
          bool_decide (sc_fingerprint kv.2 = fingerprint) || bool_decide (sc_public_key kv.2 = canonical))
          (map_to_list (ad_ssh_credentials db)));
        if (duplicate : bool) then throw DbE_SshCredentialAlreadyExists
        else
          _ ← insert_ssh_credential id
                (mkSshCredentialRow account fingerprint canonical label None None);
          mret (mkSshCredential id fingerprint label None false)).

Definition fingerprint_le (a b : string * SshCredentialRow) : Prop :=
  String.leb (sc_fingerprint a.2) (sc_fingerprint b.2) = true.
#[global] Instance fingerprint_le_dec : RelDecision fingerprint_le.
Proof. intros a b. unfold fingerprint_le. apply _. Defined.

Definition credential_of_row (kv : string * SshCredentialRow) : Result SshCredential DbError :=
  id ← result_map_err (fun _ => DbE_SshAuthFailed) (uuid_parse_str kv.1);
  device ← match sc_device_id kv.2 with
           | None => Ok None
           | Some d => d' ← result_map_err (fun _ => DbE_SshAuthFailed) (uuid_parse_str d); Ok (Some d')
           end;
  Ok (mkSshCredential id (sc_fingerprint kv.2) (sc_label kv.2) device
        (bool_decide (sc_revoked_at kv.2 <> None))).

Fixpoint collect_keys (rows : list (string * SshCredentialRow))
    : Result (list SshCredential) DbError :=
  match rows with
  | [] => Ok []
  | kv :: rest => c ← credential_of_row kv; cs ← collect_keys rest; Ok (c :: cs)
  end.

(** [ORDER BY fingerprint] *)
Definition list_ssh_keys (account : string) : Auth_op (list SshCredential) :=
  rows ← query (fun db => merge_sort fingerprint_le
    (List.filter (fun kv => bool_decide (sc_account_id kv.2 = account))
       (map_to_list (ad_ssh_credentials db))));
  lift_result (collect_keys rows).

Definition revoke_credential_at (t : Z) (r : SshCredentialRow) : SshCredentialRow :=
  mkSshCredentialRow (sc_account_id r) (sc_fingerprint r) (sc_public_key r) (sc_label r)
    (sc_device_id r) (Some (coalesce (sc_revoked_at r) t)).
Definition bind_device (d : string) (r : SshCredentialRow) : SshCredentialRow :=
  mkSshCredentialRow (sc_account_id r) (sc_fingerprint r) (sc_public_key r) (sc_label r)
    (Some d) (sc_revoked_at r).

(** [(SELECT device_id FROM ssh_credentials WHERE account_id = ?1 AND credential_id = ?2)] *)
Definition bound_device (db : AuthDb) (account credential : string) : option string :=
  r ← ad_ssh_credentials db !! credential;
  if bool_decide (sc_account_id r = account) then sc_device_id r else None.

Definition revoke_ssh_key (account credential : string) : Auth_op bool :=
  in_tx (
    t ← clock;
    let p k r := bool_decide (sc_account_id r = account) && bool_decide (k = credential) in
    n ← query (fun db => count_where p (ad_ssh_credentials db));
    _ ← execute (up_ssh_credentials (update_where p (revoke_credential_at t)));
    dev ← query (fun db => bound_device db account credential);
    _ ← execute (up_devices (update_where
          (fun k _ => bool_decide (k.1 = account) && opt_eqb dev k.2)
          (fun r => revoke_device_at (coalesce (dv_revoked_at r) t) r)));
    _ ← execute (up_sessions (update_where
          (fun _ r => bool_decide (ss_account_id r = account)
                      && match dev with Some d => opt_eqb (ss_device_id r) d | None => false end)
          (fun r => revoke_at (coalesce (ss_revoked_at r) t) r)));
    _ ← execute (up_sessions (update_where
          (fun _ r => bool_decide (ss_account_id r = account)
                      && opt_eqb (ss_ssh_credential_id r) credential)
          (fun r => revoke_at (coalesce (ss_revoked_at r) t) r)));
    mret (n =? 1)%nat).

(** The source session of [inherit_ssh_credential]: its credential column, if
    it is live and unexpired. *)
Definition source_credential (db : AuthDb) (t : Z) (account source : string)
    : option (option string) :=
  r ← ad_sessions db !! source;
  if bool_decide (ss_account_id r = account) && live r && negb (is_expired t r)
  then Some (ss_ssh_credential_id r) else None.

Definition inherit_ssh_credential (account source target : string) : Auth_op unit :=
  valid ← in_tx (
    t ← clock;
    let p k r := bool_decide (ss_account_id r = account) && bool_decide (k = target) in
    credential ← query (fun db => source_credential db t account source);
    valid ← match credential with
            | Some credential_id =>
                _ ← execute (up_sessions (update_where p (with_credential credential_id)));
                match credential_id with
                | Some id => query (fun db => match ad_ssh_credentials db !! id with
                                              | Some r => bool_decide (sc_revoked_at r = None)
                                              | None => false
                                              end)
                | None => mret true
                end
            | None => mret false
            end;
    _ ← (if (valid : bool) then mret tt
         else execute (up_sessions (update_where p (revoke_at t))));
    mret valid);
  if (valid : bool) then mret tt else throw DbE_SshAuthFailed.

(** [now()]: the clock in seconds since the epoch. *)
Definition ssh_now : Auth_op N :=
  t ← clock;
  if (t <? 0)%Z then throw DbE_ChallengeExpired else mret (Z.to_N t).

(** The active credential with the fingerprint and an active account. *)
Definition active_credential (db : AuthDb) (fingerprint : string)
    : option (string * SshCredentialRow) :=
  find_first (fun kv => bool_decide (sc_fingerprint kv.2 = fingerprint)
                        && bool_decide (sc_revoked_at kv.2 = None)
                        && bool_decide (account_active db (sc_account_id kv.2) = Some true))
    (map_to_list (ad_ssh_credentials db)).

Definition start_ssh_login (request : SshStartRequest) (audience : string) : Auth_op SshChallenge :=
  if negb (sr_version request =? SSH_AUTH_VERSION)%N
     || bool_decide (sr_audience request <> audience)
     || uuid_is_nil (sr_device_id request)
     || (100 <? String.length (sr_fingerprint request))%nat
     || negb (fingerprint_parses (sr_fingerprint request))
  then throw DbE_SshAuthFailed
  else
    timestamp ← ssh_now;
    nonce ← fill_bytes DbE_ChallengeNotFound 32;
    challenge_id ← new_uuid_v4;
    let challenge := mkSshChallenge request challenge_id (base64url_encode nonce)
                       (u64_add timestamp 120) in
    _ ← ok_or DbE_SshAuthFailed (signing_bytes challenge);
    credential ← query (fun db => fst <$> active_credential db (sr_fingerprint request));
    _ ← execute (up_ssh_challenges
          (filter (fun kv => (Z.of_N timestamp < sh_expires_at kv.2)%Z)));
    taken ← query (fun db => bool_decide (is_Some (ad_ssh_challenges db !! challenge_id)));
    if (taken : bool) then throw (DbE_Sqlite "UNIQUE constraint failed")
    else
      _ ← execute (up_ssh_challenges
            <[challenge_id := mkSshChallengeRow "login-v1" (challenge_to_string challenge)
                                (Z.of_N (sch_expires_at challenge)) credential]>);
      mret challenge.

(** [DELETE FROM ssh_challenges WHERE challenge_id = ?1 RETURNING ..] *)
Definition take_ssh_challenge (challenge_id : string) : Auth_op (option SshChallengeRow) :=
  fun s => (Ok (ad_ssh_challenges (au_db s) !! challenge_id),
            set_db (up_ssh_challenges (delete challenge_id) (au_db s)) s).

(** The credential a challenge was issued for, if it is still active. *)
Definition proof_credential (db : AuthDb) (fingerprint : string) (credential : option string)
    : option (string * SshCredentialRow) :=
  credential_id ← credential;
  r ← ad_ssh_credentials db !! credential_id;
  if bool_decide (sc_fingerprint r = fingerprint) && bool_decide (sc_revoked_at r = None)
     && bool_decide (account_active db (sc_account_id r) = Some true)
  then Some (credential_id, r) else None.

(** The second transaction of [finish_ssh_login]. *)
Definition issue_ssh_session (challenge : SshChallenge) (credential : option string)
    (signature : string) : Auth_op SessionResponse :=
  let request := sch_request challenge in
  record ← query (fun db => proof_credential db (sr_fingerprint request) credential);
  record ← ok_or DbE_SshAuthFailed record;
  let credential_id := record.1 in
  account_id ← lift_result (result_map_err (fun _ => DbE_SshAuthFailed)
                              (uuid_parse_str (sc_account_id record.2)));
  let device_str := sr_device_id request in
  if match sr_account_id request with Some a => bool_decide (a <> account_id) | None => false end
     || match sc_device_id record.2 with Some d => bool_decide (d <> device_str) | None => false end
  then throw DbE_SshAuthFailed
  else
    revoked ← query (fun db => device_revoked db (sc_account_id record.2) device_str);
    if bool_decide (revoked = Some true) then throw DbE_SshAuthFailed
    else
      message ← ok_or DbE_SshAuthFailed (signing_bytes challenge);
      if negb (verify_signature (sc_public_key record.2) message signature)
      then throw DbE_SshAuthFailed
      else
        session ← create_session_on account_id (Some device_str) (Some "SSH native client")
                    (Some 3600%Z);
        _ ← execute (up_ssh_credentials (update_where
              (fun k _ => bool_decide (k = credential_id)) (bind_device device_str)));
        _ ← execute (up_sessions (update_where
              (fun k _ => bool_decide (k = as_session_id session.1))
              (with_credential (Some credential_id))));
        mret (mkSessionResponse session.2 (as_session_id session.1) account_id (Some device_str)
                (as_expires_at session.1)).

Definition finish_ssh_login (req : SshFinishRequest) (audience : string)
    : Auth_op SessionResponse :=
  stored ← take_ssh_challenge (sch_challenge_id (sf_challenge req));
  row ← ok_or DbE_ChallengeNotFound stored;
  if bool_decide (sh_purpose row <> "login-v1") then throw DbE_SshAuthFailed
  else
    challenge ← lift_result (result_map_err DbE_Serialization
                               (challenge_from_str (sh_challenge_json row)));
    if bool_decide (challenge <> sf_challenge req) then throw DbE_ChallengeNotFound
    else
      t ← ssh_now;
      if (sch_expires_at challenge <=? t)%N
         || bool_decide (sr_audience (sch_request challenge) <> audience)
         || negb (sr_version (sch_request challenge) =? SSH_AUTH_VERSION)%N
      then throw DbE_ChallengeNotFound
      else in_tx (issue_ssh_session challenge (sh_credential_id row) (sf_signature req)).
End ssh.

(** ** Bearer tokens ([auth.rs]) *)

Record AuthenticatedAccount : Type := mkAuthenticatedAccount {
  aa_account_id : string;
  aa_device_id : option string;
  aa_session_id : option string
}.

Inductive AuthError : Type :=
| MissingHeader
| InvalidScheme
| InvalidToken
| ExpiredToken
| RevokedToken
| DeviceRevokedToken
| ForbiddenAccountAccess.

(** [into_response]: the status and the error code of the body. *)
Definition AuthError_response (e : AuthError) : N * string :=
  match e with
  | MissingHeader | InvalidScheme | InvalidToken => (401%N, "AUTH_REQUIRED")
  | ExpiredToken => (401%N, "AUTH_EXPIRED")
  | RevokedToken => (401%N, "AUTH_REVOKED")
  | DeviceRevokedToken => (401%N, "DEVICE_REVOKED")
  | ForbiddenAccountAccess => (403%N, "AUTH_FORBIDDEN")
  end.

(** A header's value; [None] where [to_str] fails. *)
Abbreviation HeaderValue := (option string).

Section bearer.
Context `{ServerLib} `{AuthLib}.

Definition authenticate_bearer_token (token : string) : M Auth AuthError AuthenticatedAccount :=
  fun s =>
    match validate_session_token token s with
    | (Ok (Some (Valid account_id device_id session_id)), s') =>
        (Ok (mkAuthenticatedAccount account_id device_id (Some session_id)), s')
    | (Ok (Some Expired), s') => (Err ExpiredToken, s')
    | (Ok (Some Revoked), s') => (Err RevokedToken, s')
    | (Ok (Some DeviceRevoked), s') => (Err DeviceRevokedToken, s')
    | (Ok None, s') => (Err InvalidToken, s')
    | (Err _, s') => (Err InvalidToken, s')
    end.

Definition strip_prefix (p s : string) : option string :=
  if str_starts_with p s then Some (str_drop (String.length p) s) else None.

(** A target header that parses as a UUID. *)
Definition header_uuid (h : option HeaderValue) : option string :=
  v ← h;
  s ← v;
  match uuid_parse_str (str_trim s) with Ok u => Some u | Err _ => None end.

(** [auth_middleware]: the identity it injects, or the error it answers. *)
Definition auth_middleware (authorization x_account_id x_device_id : option HeaderValue)
    : M Auth AuthError AuthenticatedAccount :=
  auth_header ← match authorization with
                | None => throw MissingHeader
                | Some None => throw InvalidToken
                | Some (Some s) => mret s
                end;
  token ← ok_or InvalidScheme
            (match strip_prefix "Bearer " auth_header with
             | Some t => Some t
             | None => strip_prefix "bearer " auth_header
             end);
  let token := str_trim token in
  if bool_decide (token = "") then throw InvalidToken
  else
    authenticated ← authenticate_bearer_token token;
    if match header_uuid x_account_id with
       | Some target_acc_id => bool_decide (target_acc_id <> aa_account_id authenticated)
       | None => false
       end then throw ForbiddenAccountAccess
    else if match header_uuid x_device_id, aa_device_id authenticated with
            | Some target_dev_id, Some auth_dev_id => bool_decide (target_dev_id <> auth_dev_id)
            | _, _ => false
            end then throw ForbiddenAccountAccess
    else mret authenticated.
End bearer.
