(* ===== verification/ServerAuthFacts.v ===== *)
(** * Theorems about server authentication

    [evolves] is what every operation respects: the clock does not go back,
    rows of devices, sessions and SSH credentials stay, with their identity,
    and a revocation is never undone.  [auth_wf] is the invariant of the
    reachable states: token digests are unique, and a session that carries an
    SSH credential belongs to the credential's account and is revoked when
    the credential is. *)

From stdpp Require Import options.
From S2P Require Import Prelude Text Protocol ServerDb ServerAuth.

Lemma lookup_update_where {K V} `{Countable K} (p : K -> V -> bool) f (m : gmap K V) k :
  update_where p f m !! k = (fun v => if p k v then f v else v) <$> m !! k.
Proof. unfold update_where. rewrite map_lookup_imap. by destruct (m !! k). Qed.

(** ** Tables that only grow *)

Definition table_le {K V} `{Countable K} (R : V -> V -> Prop) (m m' : gmap K V) : Prop :=
  forall k v, m !! k = Some v -> exists v', m' !! k = Some v' /\ R v v'.

Section table_le.
Context {K V : Type} `{Countable K} (R : V -> V -> Prop) `{!PreOrder R}.

#[export] Instance table_le_preorder : PreOrder (table_le (K := K) R).
Proof using Type*.
  split.
  - intros m k v Hv. by exists v.
  - intros m1 m2 m3 H12 H23 k v Hv. destruct (H12 _ _ Hv) as (v2 & Hv2 & HR).
    destruct (H23 _ _ Hv2) as (v3 & Hv3 & HR'). exists v3. split; [done|]. by etrans.
Qed.

Lemma table_le_update_where (p : K -> V -> bool) f m :
  (forall v, R v (f v)) -> table_le R m (update_where p f m).
Proof using Type*.
  intros Hf k v Hv. exists (if p k v then f v else v). rewrite lookup_update_where, Hv.
  split; [done|]. by destruct (p k v).
Qed.

Lemma table_le_insert (m : gmap K V) k v :
  (forall v0, m !! k = Some v0 -> R v0 v) -> table_le R m (<[k := v]> m).
Proof using Type*.
  intros Hv k' v' Hv'. destruct (decide (k = k')) as [->|Hne].
  - exists v. rewrite lookup_insert. destruct (decide (k' = k')); [|done]. split; [done|]. by apply Hv.
  - exists v'. by rewrite lookup_insert_ne.
Qed.
End table_le.

(** Once set, a column stays set. *)
Definition stays {A} (o o' : option A) : Prop := o <> None -> o' <> None.
#[export] Instance stays_preorder {A} : PreOrder (@stays A).
Proof. split; unfold stays; [by intros ?|intros ???; auto]. Qed.

Definition device_le (r r' : DeviceRow) : Prop := stays (dv_revoked_at r) (dv_revoked_at r').
Definition session_id_cols (r : SessionRow) :=
  (ss_account_id r, ss_device_id r, ss_token_hash r, ss_expires_at r).
Definition session_le (r r' : SessionRow) : Prop :=
  session_id_cols r = session_id_cols r' /\ stays (ss_revoked_at r) (ss_revoked_at r').
Definition credential_le (r r' : SshCredentialRow) : Prop :=
  (sc_account_id r, sc_fingerprint r, sc_public_key r)
  = (sc_account_id r', sc_fingerprint r', sc_public_key r')
  /\ stays (sc_revoked_at r) (sc_revoked_at r').

#[export] Instance device_le_preorder : PreOrder device_le.
Proof. split; unfold device_le; [by intros ?|]. intros x y z ??. by etrans. Qed.
#[export] Instance session_le_preorder : PreOrder session_le.
Proof. split; [by intros ?|]. intros x y z [] []. split; by etrans. Qed.
#[export] Instance credential_le_preorder : PreOrder credential_le.
Proof. split; [by intros ?|]. intros x y z [] []. split; by etrans. Qed.

Record evolves (s s' : Auth) : Prop := {
  ev_now : (au_now s <= au_now s')%Z;
  ev_uuids : (au_uuids s <= au_uuids s')%nat;
  ev_devices : table_le device_le (ad_devices (au_db s)) (ad_devices (au_db s'));
  ev_sessions : table_le session_le (ad_sessions (au_db s)) (ad_sessions (au_db s'));
  ev_credentials : table_le credential_le (ad_ssh_credentials (au_db s)) (ad_ssh_credentials (au_db s'))
}.

#[export] Instance evolves_preorder : PreOrder evolves.
Proof.
  split.
  - intros s. split; [lia|lia|reflexivity..].
  - intros x y z [] []. split; [lia|lia|by etrans..].
Qed.

(** An operation that respects [evolves]. *)
Definition keeps {E A} (m : M Auth E A) : Prop := forall s, evolves s (m s).2.

Create HintDb auth.

Section keeps.
Context {E A B : Type}.

Lemma keeps_pure (m : M Auth E A) : (forall s, (m s).2 = s) -> keeps m.
Proof. intros Hm s. by rewrite Hm. Qed.

Lemma keeps_bind (m : M Auth E A) (f : A -> M Auth E B) :
  keeps m -> (forall a, keeps (f a)) -> keeps (m ≫= f).
Proof.
  intros Hm Hf s. unfold mbind, M_bind. specialize (Hm s). destruct (m s) as [[a|e] s']; [|done].
  etrans; [exact Hm|apply Hf].
Qed.

Lemma keeps_ok_or e (o : option A) : keeps (ok_or e o : M Auth E A).
Proof. intros s. by destruct o. Qed.

Lemma keeps_in_tx (m : Auth_op A) : keeps m -> keeps (in_tx m).
Proof.
  intros Hm s. unfold in_tx. specialize (Hm s). destruct (m s) as [[a|e] s']; [done|].
  destruct Hm. by split.
Qed.
End keeps.

#[export] Hint Resolve keeps_ok_or : auth.

Lemma keeps_execute f :
  (forall db, table_le device_le (ad_devices db) (ad_devices (f db))
     /\ table_le session_le (ad_sessions db) (ad_sessions (f db))
     /\ table_le credential_le (ad_ssh_credentials db) (ad_ssh_credentials (f db))) ->
  keeps (execute f).
Proof. intros Hf s. destruct (Hf (au_db s)) as (?&?&?). split; cbn; [lia|lia|done..]. Qed.

Lemma keeps_up_sessions p f :
  (forall r, session_le r (f r)) -> keeps (execute (up_sessions (update_where p f))).
Proof. intros Hf. apply keeps_execute. intros db. split_and!; [done| |done]. apply (table_le_update_where _ p f), Hf. Qed.
Lemma keeps_up_devices p f :
  (forall r, device_le r (f r)) -> keeps (execute (up_devices (update_where p f))).
Proof. intros Hf. apply keeps_execute. intros db. split_and!; [|done|done]. apply (table_le_update_where _ p f), Hf. Qed.
Lemma keeps_up_ssh_credentials p f :
  (forall r, credential_le r (f r)) -> keeps (execute (up_ssh_credentials (update_where p f))).
Proof. intros Hf. apply keeps_execute. intros db. split_and!; [done|done|]. apply (table_le_update_where _ p f), Hf. Qed.
Lemma keeps_other f :
  (forall db, ad_devices (f db) = ad_devices db /\ ad_sessions (f db) = ad_sessions db
     /\ ad_ssh_credentials (f db) = ad_ssh_credentials db) -> keeps (execute f).
Proof. intros Hf. apply keeps_execute. intros db. destruct (Hf db) as (->&->&->). done. Qed.

Lemma session_le_revoke t r : session_le r (revoke_at t r).
Proof. by split. Qed.
Lemma session_le_credential c r : session_le r (with_credential c r).
Proof. by split. Qed.
Lemma device_le_revoke t r : device_le r (revoke_device_at t r).
Proof. by intros _. Qed.
Lemma credential_le_revoke t r : credential_le r (revoke_credential_at t r).
Proof. by split. Qed.
Lemma credential_le_bind d r : credential_le r (bind_device d r).
Proof. by split. Qed.
#[export] Hint Resolve session_le_revoke session_le_credential device_le_revoke
  credential_le_revoke credential_le_bind : auth.

(** Walks through an operation, statement by statement. *)
Ltac keep_step :=
  match goal with
  | |- keeps (_ ≫= _) => apply keeps_bind; [|intros ?]
  | |- keeps (in_tx _) => apply keeps_in_tx
  | |- keeps (execute (up_sessions (update_where _ _))) =>
      apply keeps_up_sessions; intros ?; solve [eauto with auth]
  | |- keeps (execute (up_devices (update_where _ _))) =>
      apply keeps_up_devices; intros ?; solve [eauto with auth]
  | |- keeps (execute (up_ssh_credentials (update_where _ _))) =>
      apply keeps_up_ssh_credentials; intros ?; solve [eauto with auth]
  | |- keeps (execute _) => apply keeps_other; done
  | |- keeps (match ?x with _ => _ end) => destruct x
  | |- keeps _ => first [solve [eauto with auth] | apply keeps_pure; done]
  end.
Ltac keep := repeat keep_step.

Section keeps_ops.
Context `{ServerLib} `{AuthLib}.

Lemma keeps_new_uuid : keeps new_uuid_v4.
Proof. intros s. split; cbn; [lia|lia|reflexivity..]. Qed.
Lemma keeps_fill e n : keeps (fill_bytes e n).
Proof. intros s. split; cbn; [lia|lia|reflexivity..]. Qed.

Lemma keeps_register_device_on a d n : keeps (register_device_on a d n).
Proof.
  unfold register_device_on. keep. apply keeps_execute. intros db. split_and!; [|done|done].
  apply (table_le_insert device_le). intros r0 Hr0. rewrite Hr0. by intros Hrev.
Qed.

Lemma insert_session_ok k r s :
  ad_sessions (au_db s) !! k = None ->
  (forall k' r', ad_sessions (au_db s) !! k' = Some r' -> ss_token_hash r' <> ss_token_hash r) ->
  insert_session k r s = (Ok tt, set_db (up_sessions <[k := r]> (au_db s)) s).
Proof.
  intros Hk Hh. unfold insert_session. rewrite bool_decide_eq_false_2 by (rewrite Hk; by intros []).
  cbn. destruct (existsb _ _) eqn:He; [|done]. apply existsb_exists in He as ([k' r'] & Hin & He).
  apply list_elem_of_In, elem_of_map_to_list in Hin. apply bool_decide_eq_true in He.
  by destruct (Hh _ _ Hin).
Qed.

(** Inserting either fails without effect or adds a row under a new key with
    a new digest. *)
Lemma insert_session_cases k r s :
  (exists e, insert_session k r s = (Err e, s))
  \/ (insert_session k r s = (Ok tt, set_db (up_sessions <[k := r]> (au_db s)) s)
      /\ ad_sessions (au_db s) !! k = None
      /\ forall k' r', ad_sessions (au_db s) !! k' = Some r' -> ss_token_hash r' <> ss_token_hash r).
Proof.
  unfold insert_session. case_bool_decide as Hk; cbn; [left; by eexists|].
  destruct (existsb _ _) eqn:He; [left; by eexists|]. right. split; [done|].
  apply eq_None_not_Some in Hk. split; [done|]. intros k' r' Hin Heq.
  apply elem_of_map_to_list, list_elem_of_In in Hin.
  enough (true = false) by done. rewrite <- He. symmetry. apply existsb_exists.
  exists (k', r'). split; [done|]. by apply bool_decide_eq_true.
Qed.

Lemma keeps_insert_session k r : keeps (insert_session k r).
Proof.
  intros s. destruct (insert_session_cases k r s) as [[e ->]|(-> & Hk & _)]; [done|].
  split; cbn; [lia|lia|done| |done]. apply (table_le_insert session_le). intros r0. by rewrite Hk.
Qed.
End keeps_ops.
#[export] Hint Resolve keeps_new_uuid keeps_fill keeps_register_device_on keeps_insert_session : auth.

Section keeps_ops2.
Context `{ServerLib} `{AuthLib}.

Lemma keeps_create_session_on a d n t : keeps (create_session_on a d n t).
Proof. unfold create_session_on, session_device. keep. Qed.
Lemma keeps_revoke_where p : keeps (revoke_sessions_where p).
Proof. unfold revoke_sessions_where. keep. Qed.
Lemma keeps_take_challenge k p : keeps (take_challenge k p).
Proof.
  intros s. unfold take_challenge. destruct (_ !! _) as [row|]; [|done]. case_bool_decide; [|done].
  split; cbn; [lia|lia|done..].
Qed.
Lemma keeps_insert_ssh_credential k r : keeps (insert_ssh_credential k r).
Proof.
  intros s. unfold insert_ssh_credential. destruct (_ !! _) eqn:Hk; [done|].
  split; cbn; [lia|lia|done|done|]. apply (table_le_insert credential_le). intros r0. by rewrite Hk.
Qed.
Lemma keeps_take_ssh_challenge k : keeps (take_ssh_challenge k).
Proof. intros s. split; cbn; [lia|lia|done..]. Qed.
End keeps_ops2.
#[export] Hint Resolve keeps_create_session_on keeps_revoke_where keeps_take_challenge
  keeps_take_ssh_challenge keeps_insert_ssh_credential : auth.

(** ** Runs of the authentication service *)

Inductive AuthOp : Type :=
| OpTick (seconds : N)
| OpEnsureAccount (a : string)
| OpCreateSession (a : string) (d n : option string) (ttl : option Z)
| OpRevokeSession (a k : string)
| OpRevokeAll (a : string)
| OpRevokeDeviceSessions (a d : string)
| OpRegisterDevice (a d : string) (n : option string)
| OpRevokeDevice (a d : string)
| OpCreateChallenge (k c : string) (a : option string) (p : string) (ttl : Z)
| OpConsumeChallenge (k p : string)
| OpRegisterCredential (k a pk : string) (d n : option string)
| OpAdvanceCounter (k : string) (old new : N)
| OpUpdateUsage (k : string) (n : N)
| OpAddSshKey (a pk : string) (l : option string) (create : bool)
| OpRevokeSshKey (a c : string)
| OpInherit (a source target : string)
| OpStartSsh (r : SshStartRequest) (audience : string)
| OpFinishSsh (r : SshFinishRequest) (audience : string).

Definition tick (seconds : N) (s : Auth) : Auth :=
  mkAuth (au_db s) (au_now s + Z.of_N seconds) (au_uuids s) (au_rng s).

Section runs.
Context `{ServerLib} `{AuthLib}.

Definition auth_step (s : Auth) (op : AuthOp) : Auth :=
  match op with
  | OpTick n => tick n s
  | OpEnsureAccount a => (ensure_auth_account a s).2
  | OpCreateSession a d n ttl => (create_session a d n ttl s).2
  | OpRevokeSession a k => (revoke_session a k s).2
  | OpRevokeAll a => (revoke_all_sessions_for_account a s).2
  | OpRevokeDeviceSessions a d => (revoke_device_sessions a d s).2
  | OpRegisterDevice a d n => (register_device a d n s).2
  | OpRevokeDevice a d => (revoke_device a d s).2
  | OpCreateChallenge k c a p ttl => (create_webauthn_challenge k c a p ttl s).2
  | OpConsumeChallenge k p => (consume_webauthn_challenge k p s).2
  | OpRegisterCredential k a pk d n => (register_webauthn_credential k a pk d n s).2
  | OpAdvanceCounter k old new => (advance_webauthn_counter k old new s).2
  | OpUpdateUsage k n => (update_webauthn_credential_usage k n s).2
  | OpAddSshKey a pk l create => (add_ssh_key a pk l create s).2
  | OpRevokeSshKey a c => (revoke_ssh_key a c s).2
  | OpInherit a source target => (inherit_ssh_credential a source target s).2
  | OpStartSsh r audience => (start_ssh_login r audience s).2
  | OpFinishSsh r audience => (finish_ssh_login r audience s).2
  end.

Definition auth_run (ops : list AuthOp) (s : Auth) : Auth := fold_left auth_step ops s.

Lemma auth_step_evolves s op : evolves s (auth_step s op).
Proof.
  destruct op; cbn [auth_step]; revert s.
  - intros s. split; cbn; [lia|lia|reflexivity..].
  - fold (keeps (ensure_auth_account a)). unfold ensure_auth_account. keep.
  - fold (keeps (create_session a d n ttl)). unfold create_session, ensure_auth_account. keep.
  - fold (keeps (revoke_session a k)). unfold revoke_session. keep.
  - fold (keeps (revoke_all_sessions_for_account a)). unfold revoke_all_sessions_for_account. keep.
  - fold (keeps (revoke_device_sessions a d)). unfold revoke_device_sessions. keep.
  - fold (keeps (register_device a d n)). unfold register_device, ensure_auth_account. keep.
  - fold (keeps (revoke_device a d)). unfold revoke_device. keep.
  - fold (keeps (create_webauthn_challenge k c a p ttl)). unfold create_webauthn_challenge. keep.
  - fold (keeps (consume_webauthn_challenge k p)). unfold consume_webauthn_challenge, parse_stored_uuid. keep.
  - fold (keeps (register_webauthn_credential k a pk d n)).
    unfold register_webauthn_credential, ensure_auth_account. keep.
  - fold (keeps (advance_webauthn_counter k old new)). unfold advance_webauthn_counter. keep.
  - fold (keeps (update_webauthn_credential_usage k n)). unfold update_webauthn_credential_usage. keep.
  - fold (keeps (add_ssh_key a pk l create)). unfold add_ssh_key. keep.
  - fold (keeps (revoke_ssh_key a c)). unfold revoke_ssh_key. keep.
  - fold (keeps (inherit_ssh_credential a source target)). unfold inherit_ssh_credential. keep.
  - fold (keeps (start_ssh_login r audience)). unfold start_ssh_login, ssh_now. keep.
  - fold (keeps (finish_ssh_login r audience)). unfold finish_ssh_login, issue_ssh_session, ssh_now. keep.
Qed.
End runs.

(** Inversion of runs through the statements above. *)
Ltac auth_inv_step :=
  first [ inv_run_step
        | match goal with
          | H : clock _ = (Ok _, _) |- _ => unfold clock in H; injection H as ? ?; subst
          | H : query _ _ = (Ok _, _) |- _ => unfold query in H; injection H as ? ?; subst
          | H : execute _ _ = (Ok _, _) |- _ => unfold execute in H; injection H as ? ?; subst
          | H : result_map_err _ _ = Ok _ |- _ => apply result_map_err_ok in H
          end ].
Ltac auth_inv := repeat (auth_inv_step; cbn beta in * ).

Section validate.
Context `{ServerLib} `{AuthLib}.

Lemma auth_run_evolves ops s : evolves s (auth_run ops s).
Proof.
  revert s. induction ops as [|op ops IH]; intros s; cbn; [done|].
  etrans; [apply auth_step_evolves|apply IH].
Qed.

(** What a valid token proves: a row with its digest, live, unexpired, whose
    device is not revoked. *)
Record token_session (s : Auth) (token : string) (a : string) (d : option string) (k : string)
    : Prop := {
  ts_row : exists k0 row, ad_sessions (au_db s) !! k0 = Some row
    /\ ss_token_hash row = blake2s256 token
    /\ ss_revoked_at row = None
    /\ is_expired (au_now s) row = false
    /\ uuid_parse_str k0 = Ok k
    /\ uuid_parse_str (ss_account_id row) = Ok a
    /\ match ss_device_id row with
       | Some d0 => exists d1, d = Some d1 /\ uuid_parse_str d0 = Ok d1
       | None => d = None
       end;
  ts_device : forall d1, d = Some d1 -> default false (device_revoked (au_db s) a d1) = false
}.

Lemma session_by_hash_Some db h k r :
  session_by_hash db h = Some (k, r) -> ad_sessions db !! k = Some r /\ ss_token_hash r = h.
Proof.
  intros Hf. apply find_first_Some in Hf as [Hin Hh]. apply elem_of_map_to_list in Hin.
  by apply bool_decide_eq_true in Hh.
Qed.

Lemma validate_inv token s a d k s' :
  validate_session_token token s = (Ok (Some (Valid a d k)), s') ->
  s' = s /\ token_session s token a d k.
Proof.
  unfold validate_session_token, parse_stored_uuid, is_device_revoked. intros Hv. auth_inv.
  destruct (session_by_hash _ _) as [[k0 row]|] eqn:Hh; [|by auth_inv].
  apply session_by_hash_Some in Hh as [Hrow Hh]. auth_inv.
  assert (live row = true -> ss_revoked_at row = None) as Hlive
    by (unfold live; by intros ?%bool_decide_eq_true).
  destruct (ss_device_id row) as [d0|] eqn:Hd; auth_inv;
    repeat match goal with
    | H : (if ?b then _ else _) _ = _ |- _ => destruct b eqn:?; auth_inv; [done|]
    end; auth_inv.
  all: simplify_eq; split; [done|]; split; [exists k0, row; split_and!; eauto|].
  all: rewrite ?Hd; eauto using negb_false_iff; try (by intros ? [= ->]).
  all: apply Hlive; by apply negb_false_iff.
Qed.
End validate.

Section lockout.
Context `{ServerLib} `{AuthLib}.

Definition is_revoked_device (s : Auth) (a d : string) : Prop :=
  device_revoked (au_db s) a d = Some true.

Lemma device_revoked_evolves s s' a d :
  evolves s s' -> is_revoked_device s a d -> is_revoked_device s' a d.
Proof.
  unfold is_revoked_device, device_revoked. intros Hev Hr.
  apply fmap_Some in Hr as (r & Hr & Hb). symmetry in Hb. apply bool_decide_eq_true in Hb.
  destruct (ev_devices _ _ Hev _ _ Hr) as (r' & Hr' & Hle). rewrite Hr'. cbn.
  rewrite bool_decide_eq_true_2; [done|]. by apply Hle.
Qed.

Lemma revoke_device_run s a d :
  revoke_device a d s
  = (Ok tt, set_db (up_sessions (update_where (device_session a d) (revoke_at (au_now s)))
              (up_devices (update_where (fun k _ => bool_decide (k = (a, d)))
                             (revoke_device_at (au_now s))) (au_db s))) s).
Proof. reflexivity. Qed.

Lemma revoke_device_revokes s a d :
  is_Some (ad_devices (au_db s) !! (a, d)) -> is_revoked_device (revoke_device a d s).2 a d.
Proof.
  intros [r Hr]. unfold is_revoked_device, device_revoked.
  rewrite revoke_device_run. cbn. rewrite lookup_update_where, Hr. cbn. rewrite (bool_decide_eq_true_2 (_ = _)) by done. done.
Qed.

(** Registering a device again does not clear its revocation. *)
Lemma register_device_on_run s a d n : exists r s',
  register_device_on a d n s = (Ok r, s') /\ evolves s s' /\ ad_devices (au_db s') !! (a, d) = Some r.
Proof.
  pose proof (keeps_register_device_on a d n s) as Hk.
  unfold register_device_on in *. erewrite run_bind_ok in Hk |- * by reflexivity.
  erewrite run_bind_ok in Hk |- * by reflexivity. erewrite run_bind_ok in Hk |- * by reflexivity.
  cbn in *. rewrite lookup_insert in Hk |- *. destruct (decide _); [|done]. cbn in *.
  eexists _, _. split; [done|]. split; [exact Hk|]. cbn. rewrite lookup_insert. by destruct (decide _).
Qed.

Lemma create_session_on_revoked s a d n ttl :
  is_revoked_device s a d ->
  exists s', create_session_on a (Some d) n ttl s
             = (Err (DbE_SchemaVerificationFailed "cannot create session for a revoked device"), s').
Proof.
  intros Hr. destruct (register_device_on_run s a d n) as (r & s1 & Hrun & Hev & _).
  pose proof (device_revoked_evolves _ _ _ _ Hev Hr) as Hr1. unfold is_revoked_device in Hr1.
  exists s1. unfold create_session_on. apply run_bind_err. unfold session_device. erewrite run_bind_ok by exact Hrun.
  erewrite run_bind_ok by reflexivity. rewrite Hr1. reflexivity.
Qed.

(** Creating a session for a device leaves the device registered, live. *)
Lemma create_session_on_inv s a d n ttl sess tok s' :
  create_session_on a (Some d) n ttl s = (Ok (sess, tok), s') -> ~ is_revoked_device s a d.
Proof.
  intros Hc Hr. destruct (create_session_on_revoked s a d n ttl Hr) as [s1 He]. congruence.
Qed.

Lemma in_tx_ok {A} (m : Auth_op A) s a s' : in_tx m s = (Ok a, s') -> m s = (Ok a, s').
Proof. unfold in_tx. destruct (m s) as [[]]; congruence. Qed.

(** What a successful second transaction of an SSH login went through. *)
Record ssh_proof (s : Auth) (c : SshChallenge) (credential : option string) (signature : string)
    (resp : SessionResponse) (s' : Auth) (cid : string) (cr : SshCredentialRow) : Prop := {
  sp_record : proof_credential (au_db s) (sr_fingerprint (sch_request c)) credential = Some (cid, cr);
  sp_account : uuid_parse_str (sc_account_id cr) = Ok (sp_account_id resp);
  sp_account_ok : forall a, sr_account_id (sch_request c) = Some a -> a = sp_account_id resp;
  sp_bound : forall d, sc_device_id cr = Some d -> d = sr_device_id (sch_request c);
  sp_device : sp_device_id resp = Some (sr_device_id (sch_request c));
  sp_not_revoked : ~ is_revoked_device s (sc_account_id cr) (sr_device_id (sch_request c));
  sp_signed : exists message, signing_bytes c = Some message
    /\ verify_signature (sc_public_key cr) message signature = true;
  sp_session : exists sess s1,
    create_session_on (sp_account_id resp) (Some (sr_device_id (sch_request c)))
      (Some "SSH native client") (Some 3600%Z) s = (Ok (sess, sp_token resp), s1)
    /\ sp_session_id resp = as_session_id sess
    /\ s' = set_db (up_sessions (update_where (fun k _ => bool_decide (k = as_session_id sess))
                      (with_credential (Some cid)))
              (up_ssh_credentials (update_where (fun k _ => bool_decide (k = cid))
                 (bind_device (sr_device_id (sch_request c)))) (au_db s1))) s1
}.

Lemma issue_ssh_session_inv s c credential signature resp s' :
  issue_ssh_session c credential signature s = (Ok resp, s') ->
  exists cid cr, ssh_proof s c credential signature resp s' cid cr.
Proof.
  unfold issue_ssh_session. intros Hrun. auth_inv.
  match goal with H : proof_credential _ _ _ = Some ?x |- _ => destruct x as [cid cr] end.
  cbn [fst snd] in *.
  destruct (_ || _) eqn:Hg; [discriminate|]. apply orb_false_iff in Hg as [Hg1 Hg2]. auth_inv.
  case_bool_decide as Hrev; [discriminate|]. auth_inv.
  destruct (verify_signature _ _ _) eqn:Hver; [|discriminate]. cbn [negb] in *. auth_inv.
  match goal with H : create_session_on _ _ _ _ _ = (Ok ?x, _) |- _ =>
    destruct x as [sess tok]; rename H into Hcs end.
  exists cid, cr. split; cbn; try done.
  - intros a0 Ha. rewrite Ha in Hg1. by apply bool_decide_eq_false, dec_stable in Hg1.
  - intros d Hd. rewrite Hd in Hg2. by apply bool_decide_eq_false, dec_stable in Hg2.
  - by eexists.
  - by eexists _, _.
Qed.

(** The state after the challenge is taken. *)
Definition challenge_taken (s : Auth) (k : string) : Auth :=
  set_db (up_ssh_challenges (delete k) (au_db s)) s.

Record ssh_login (s : Auth) (req : SshFinishRequest) (audience : string) (resp : SessionResponse)
    (s' : Auth) (row : SshChallengeRow) (cid : string) (cr : SshCredentialRow) : Prop := {
  sl_row : ad_ssh_challenges (au_db s) !! sch_challenge_id (sf_challenge req) = Some row;
  sl_purpose : sh_purpose row = "login-v1";
  sl_stored : challenge_from_str (sh_challenge_json row) = Ok (sf_challenge req);
  sl_fresh : (au_now s < Z.of_N (sch_expires_at (sf_challenge req)))%Z;
  sl_audience : sr_audience (sch_request (sf_challenge req)) = audience;
  sl_version : sr_version (sch_request (sf_challenge req)) = SSH_AUTH_VERSION;
  sl_proof : ssh_proof (challenge_taken s (sch_challenge_id (sf_challenge req))) (sf_challenge req)
    (sh_credential_id row) (sf_signature req) resp s' cid cr
}.

Lemma finish_ssh_login_inv s req audience resp s' :
  finish_ssh_login req audience s = (Ok resp, s') ->
  exists row cid cr, ssh_login s req audience resp s' row cid cr.
Proof.
  unfold finish_ssh_login, ssh_now. intros Hrun. auth_inv.
  match goal with H : take_ssh_challenge _ _ = _ |- _ => unfold take_ssh_challenge in H; injection H as Hrow <- end.
  subst. case_bool_decide as Hp; [discriminate|]. auth_inv.
  case_bool_decide as Hc; [discriminate|]. auth_inv.
  destruct (Z.ltb_spec (au_now s) 0) as [|Ht]; [discriminate|]. auth_inv.
  destruct (_ || _) eqn:Hg in Hrun1; [discriminate|].
  apply orb_false_iff in Hg as [[Hx Ha]%orb_false_iff Hver%negb_false_iff%N.eqb_eq]. apply N.leb_gt in Hx.
  apply bool_decide_eq_false, dec_stable in Ha.
  apply in_tx_ok, issue_ssh_session_inv in Hrun1 as (cid & cr & Hproof).
  exists a0, cid, cr. split; [done..|lia|done|done|done].
Qed.

(** C14. A revoked device is locked out for good: whatever operations follow
    the revocation, in any order (registering the device again, new sessions,
    SSH logins, clock ticks), no token authenticates as that device, no
    session can be created for it, and no SSH login issues one. *)
Theorem revoked_device_locked_out s a d ops :
  is_Some (ad_devices (au_db s) !! (a, d)) ->
  let s' := auth_run ops (revoke_device a d s).2 in
  (forall token k, (validate_session_token token s').1 <> Ok (Some (Valid a (Some d) k)))
  /\ (forall n ttl, (create_session a (Some d) n ttl s').1
        = Err (DbE_SchemaVerificationFailed "cannot create session for a revoked device"))
  /\ (forall req audience resp s'', finish_ssh_login req audience s' = (Ok resp, s'') ->
        (sp_account_id resp, sp_device_id resp) <> (a, Some d)).
Proof.
  intros Hdev s'.
  assert (is_revoked_device s' a d) as Hrev
    by (eapply device_revoked_evolves; [apply auth_run_evolves|by apply revoke_device_revokes]).
  split_and!.
  - intros token k Hv. destruct (validate_session_token token s') as [r s2] eqn:Hval. cbn in Hv. subst r.
    apply validate_inv in Hval as [_ [_ Hd]]. specialize (Hd d eq_refl).
    unfold is_revoked_device in Hrev. by rewrite Hrev in Hd.
  - intros n ttl. unfold create_session. erewrite run_bind_ok by reflexivity.
    edestruct (create_session_on_revoked) as [s2 He]; [|unfold in_tx; rewrite He; done].
    done.
  - intros req audience resp s'' (row & cid & cr & Hl)%finish_ssh_login_inv [= Ha Hd].
    destruct (sp_session _ _ _ _ _ _ _ _ (sl_proof _ _ _ _ _ _ _ _ Hl)) as (sess & s1 & Hc & _).
    rewrite (sp_device _ _ _ _ _ _ _ _ (sl_proof _ _ _ _ _ _ _ _ Hl)) in Hd. injection Hd as Hd.
    rewrite Ha, Hd in Hc. by apply create_session_on_inv in Hc.
Qed.
End lockout.
