(* ===== verification/ServerAuthInv.v ===== *)
(** * Invariant of the authentication tables

    Token digests are unique, credentials have canonical account texts, and
    a session that carries an SSH credential belongs to the credential's
    account and is revoked when the credential is.  Every operation keeps
    this; with it, revocations of sessions and of SSH keys are final, and a
    fresh session validates until it expires. *)

From stdpp Require Import options.
From S2P Require Import Prelude Text Protocol ServerDb ServerAuth ServerAuthFacts.

(** ** Parts of the state an operation leaves alone *)

Definition frames {E A T} (get : AuthDb -> T) (m : M Auth E A) : Prop :=
  forall s, get (au_db (m s).2) = get (au_db s).

Section frames.
Context {T : Type} (get : AuthDb -> T).

Lemma frames_pure {E A} (m : M Auth E A) : (forall s, (m s).2 = s) -> frames get m.
Proof. intros Hm s. by rewrite Hm. Qed.
Lemma frames_bind {E A B} (m : M Auth E A) (f : A -> M Auth E B) :
  frames get m -> (forall a, frames get (f a)) -> frames get (m ≫= f).
Proof.
  intros Hm Hf s. unfold mbind, M_bind. specialize (Hm s). destruct (m s) as [[a|e] s']; [|done].
  etrans; [apply Hf|exact Hm].
Qed.
Lemma frames_in_tx {A} (m : Auth_op A) : frames get m -> frames get (in_tx m).
Proof. intros Hm s. unfold in_tx. specialize (Hm s). by destruct (m s) as [[a|e] s']. Qed.
Lemma frames_execute f : (forall db, get (f db) = get db) -> frames get (execute f).
Proof. intros Hf s. apply Hf. Qed.
Lemma frames_ok_or {E A} (e : E) (o : option A) : frames get (ok_or e o : M Auth E A).
Proof. intros s. by destruct o. Qed.
Context `{ServerLib} `{AuthLib}.
Lemma frames_new_uuid : frames get new_uuid_v4.
Proof. done. Qed.
Lemma frames_fill e n : frames get (fill_bytes e n).
Proof. done. Qed.
Lemma frames_insert_session k r :
  (forall f db, get (up_sessions f db) = get db) -> frames get (insert_session k r).
Proof. intros Hf s. destruct (insert_session_cases k r s) as [[e ->]|[-> _]]; [done|apply Hf]. Qed.
Lemma frames_insert_ssh_credential k r :
  (forall f db, get (up_ssh_credentials f db) = get db) -> frames get (insert_ssh_credential k r).
Proof. intros Hf s. unfold insert_ssh_credential. destruct (_ !! _); [done|apply Hf]. Qed.
Lemma frames_take_challenge k p :
  (forall f db, get (up_challenges f db) = get db) -> frames get (take_challenge k p).
Proof. intros Hf s. unfold take_challenge. destruct (_ !! _); [|done]. case_bool_decide; [apply Hf|done]. Qed.
Lemma frames_take_ssh_challenge k :
  (forall f db, get (up_ssh_challenges f db) = get db) -> frames get (take_ssh_challenge k).
Proof. intros Hf s. apply Hf. Qed.
End frames.
#[export] Hint Resolve frames_ok_or frames_new_uuid frames_fill : auth.

Ltac frame_step :=
  match goal with
  | |- frames _ (_ ≫= _) => apply frames_bind; [|intros ?]
  | |- frames _ (in_tx _) => apply frames_in_tx
  | |- frames _ (execute _) => apply frames_execute; intros ?; done
  | |- frames _ (insert_session _ _) => apply frames_insert_session; intros ? ?; done
  | |- frames _ (insert_ssh_credential _ _) => apply frames_insert_ssh_credential; intros ? ?; done
  | |- frames _ (take_challenge _ _) => apply frames_take_challenge; intros ? ?; done
  | |- frames _ (take_ssh_challenge _) => apply frames_take_ssh_challenge; intros ? ?; done
  | |- frames _ (match ?x with _ => _ end) => destruct x
  | |- frames _ _ => first [solve [eauto with auth] | apply frames_pure; done]
  end.
Ltac frame := repeat frame_step.

(** ** Creating a session *)

Section created.
Context `{ServerLib} `{AuthLib}.

Definition session_row (s : Auth) (a : string) (d n : option string) (ttl : option Z) (tok : string)
    : SessionRow :=
  mkSessionRow a d (blake2s256 tok) n (au_now s)
    (match ttl with Some secs => datetime_now (au_now s) secs | None => None end) None None.

Lemma run_frame {E A T} (get : AuthDb -> T) (m : M Auth E A) s r s' :
  frames get m -> m s = (r, s') -> get (au_db s') = get (au_db s).
Proof. intros Hf Hr. by rewrite <- (Hf s), Hr. Qed.

Lemma session_device_sessions a d n : frames ad_sessions (session_device a d n).
Proof. unfold session_device, register_device_on. frame. Qed.
Lemma create_session_on_creds a d n ttl : frames ad_ssh_credentials (create_session_on a d n ttl).
Proof. unfold create_session_on, session_device, register_device_on. frame. Qed.

Lemma session_device_run s a d n r s' :
  session_device a d n s = (Ok r, s') ->
  au_now s' = au_now s /\ au_uuids s' = au_uuids s /\ au_rng s' = au_rng s
  /\ (forall d0, d = Some d0 -> device_revoked (au_db s') a d0 = Some false).
Proof.
  unfold session_device. destruct d as [d|]; [|intros; by auth_inv]. intros Hrun.
  destruct (register_device_on_run s a d n) as (row & s1 & Hreg & _ & Hrow).
  erewrite run_bind_ok in Hrun by exact Hreg. erewrite run_bind_ok in Hrun by reflexivity.
  unfold device_revoked in Hrun. rewrite Hrow in Hrun. cbn in Hrun.
  destruct (bool_decide _) eqn:Hb; [discriminate|]. injection Hrun as _ <-.
  assert (au_now s1 = au_now s /\ au_uuids s1 = au_uuids s /\ au_rng s1 = au_rng s) as (?&?&?)
    by (unfold register_device_on in Hreg; by auth_inv).
  split_and!; try done. intros d0 [= <-]. unfold device_revoked. rewrite Hrow. cbn. by rewrite Hb.
Qed.

(** A session that was created: one new row, under a new key and digest. *)
Lemma create_session_on_ok s a d n ttl sess tok s' :
  create_session_on a d n ttl s = (Ok (sess, tok), s') ->
  let row := session_row s a d n ttl tok in
  ad_sessions (au_db s') = <[as_session_id sess := row]> (ad_sessions (au_db s))
  /\ ad_sessions (au_db s) !! as_session_id sess = None
  /\ (forall k r, ad_sessions (au_db s) !! k = Some r -> ss_token_hash r <> ss_token_hash row)
  /\ au_now s' = au_now s
  /\ (forall d0, d = Some d0 -> device_revoked (au_db s') a d0 = Some false)
  /\ as_session_id sess = auth_uuid (au_uuids s)
  /\ as_expires_at sess = ss_expires_at row.
Proof.
  unfold create_session_on. intros Hrun. apply bind_ok_inv in Hrun as ([] & s1 & Hdev & Hrun).
  pose proof (run_frame _ _ _ _ _ (session_device_sessions a d n) Hdev) as Hsess.
  apply session_device_run in Hdev as (Hnow & Huu & Hrng & Hdev).
  erewrite run_bind_ok in Hrun by reflexivity.
  apply bind_ok_inv in Hrun as (ent & s2 & Hf & Hrun). unfold fill_bytes in Hf. injection Hf as Hf <-.
  erewrite run_bind_ok in Hrun by reflexivity. cbn [au_now] in Hrun.
  apply bind_ok_inv in Hrun as ([] & s3 & Hins & Hrun). auth_inv.
  match type of Hins with insert_session ?k ?r ?s0 = _ =>
    destruct (insert_session_cases k r s0) as [[e He]|(He & Hk & Hh)]; [congruence|] end.
  rewrite He in Hins. injection Hins as <-. cbn in *. unfold session_row. rewrite <- Hsess, <- Hnow, <- Huu.
  done.
Qed.
End created.

(** ** The invariant *)

Section inv.
Context `{ServerLib} `{AuthLib}.

(** A [Uuid] argument, as its canonical text. *)
Definition is_uuid (u : string) : Prop := uuid_parse_str u = Ok u.

Record auth_wf (db : AuthDb) : Prop := {
  wf_hash k1 k2 r1 r2 :
    ad_sessions db !! k1 = Some r1 -> ad_sessions db !! k2 = Some r2 ->
    ss_token_hash r1 = ss_token_hash r2 -> k1 = k2;
  wf_ssh k r c :
    ad_sessions db !! k = Some r -> ss_ssh_credential_id r = Some c ->
    exists cr, ad_ssh_credentials db !! c = Some cr /\ sc_account_id cr = ss_account_id r
      /\ stays (sc_revoked_at cr) (ss_revoked_at r);
  wf_canonical c cr : ad_ssh_credentials db !! c = Some cr -> is_uuid (sc_account_id cr)
}.

Definition invs {E A} (m : M Auth E A) : Prop :=
  forall s, auth_wf (au_db s) -> auth_wf (au_db (m s).2).

Lemma invs_run {E A} (m : M Auth E A) s r s' :
  invs m -> auth_wf (au_db s) -> m s = (r, s') -> auth_wf (au_db s').
Proof. intros Hm Hs Hr. specialize (Hm s Hs). by rewrite Hr in Hm. Qed.
Lemma invs_bind {E A B} (m : M Auth E A) (f : A -> M Auth E B) :
  invs m -> (forall a, invs (f a)) -> invs (m ≫= f).
Proof.
  intros Hm Hf s Hs. unfold mbind, M_bind. specialize (Hm s Hs).
  destruct (m s) as [[a|e] s']; [|done]. by apply Hf.
Qed.
Lemma invs_in_tx {A} (m : Auth_op A) :
  (forall s a s', auth_wf (au_db s) -> m s = (Ok a, s') -> auth_wf (au_db s')) -> invs (in_tx m).
Proof.
  intros Hm s Hs. unfold in_tx. destruct (m s) as [[a|e] s'] eqn:Hr; [by eapply Hm|done].
Qed.
Lemma invs_tx {A} (m : Auth_op A) : invs m -> invs (in_tx m).
Proof. intros Hm. apply invs_in_tx. intros s a s' Hs Hr. specialize (Hm s Hs). by rewrite Hr in Hm. Qed.

(** An operation that touches neither sessions nor credentials. *)
Lemma invs_frame {E A} (m : M Auth E A) :
  frames ad_sessions m -> frames ad_ssh_credentials m -> invs m.
Proof.
  intros Hs Hc s [Hh Hw Hu]. split.
  - intros k1 k2 r1 r2. rewrite Hs. apply Hh.
  - intros k r c. rewrite Hs, Hc. apply Hw.
  - intros c cr. rewrite Hc. apply Hu.
Qed.

(** An update of sessions that may only revoke. *)
Lemma invs_up_sessions p f :
  (forall r, session_le r (f r) /\ ss_ssh_credential_id (f r) = ss_ssh_credential_id r) ->
  invs (execute (up_sessions (update_where p f))).
Proof.
  intros Hf s [Hh Hw Hu]. split; cbn; [| |done].
  - intros k1 k2 r1 r2. rewrite !lookup_update_where.
    intros (v1 & Hk1 & ->)%fmap_Some (v2 & Hk2 & ->)%fmap_Some Heq. apply (Hh _ _ _ _ Hk1 Hk2).
    destruct (Hf v1) as [[[= _ _ E1 _] _] _], (Hf v2) as [[[= _ _ E2 _] _] _].
    destruct (p k1 v1), (p k2 v2); congruence.
  - intros k r c. rewrite lookup_update_where. intros (v & Hk & ->)%fmap_Some Hc.
    destruct (Hf v) as [[[= E1 _ _ _] Hst] E2].
    assert (ss_ssh_credential_id v = Some c) as Hc' by (destruct (p k v); congruence).
    destruct (Hw _ _ _ Hk Hc') as (cr & Hcr & Ha & Hr). exists cr. split; [done|].
    destruct (p k v); split; [congruence|by etrans|done|done].
Qed.

Lemma invs_insert_session k r : ss_ssh_credential_id r = None -> invs (insert_session k r).
Proof.
  intros Hn s [Hh Hw Hu]. destruct (insert_session_cases k r s) as [[e ->]|(-> & Hk & Hfresh)]; [done|].
  split; cbn; [| |done].
  - intros k1 k2 r1 r2 [[<- <-]|[Hne1 H1]]%lookup_insert_Some [[<- <-]|[Hne2 H2]]%lookup_insert_Some Heq;
      [done| | |eauto].
    + by destruct (Hfresh _ _ H2).
    + by destruct (Hfresh _ _ H1).
  - intros k1 r1 c [[<- <-]|[Hne1 H1]]%lookup_insert_Some Hc; [congruence|eauto].
Qed.

Lemma invs_insert_ssh_credential k r : is_uuid (sc_account_id r) -> invs (insert_ssh_credential k r).
Proof.
  intros Hr s [Hh Hw Hu]. unfold insert_ssh_credential. destruct (_ !! k) eqn:Hk; [done|].
  split; cbn; [done| |].
  - intros k1 r1 c H1 Hc. destruct (Hw _ _ _ H1 Hc) as (cr & Hcr & ?). exists cr. split; [|done].
    rewrite lookup_insert_ne; [done|]. congruence.
  - intros c cr [[<- <-]|[_ Hc]]%lookup_insert_Some; eauto.
Qed.
End inv.

Ltac inv_step :=
  match goal with
  | |- invs (_ ≫= _) => apply invs_bind; [|intros ?]
  | |- invs (in_tx _) => apply invs_tx
  | |- invs (execute (up_sessions (update_where _ _))) => apply invs_up_sessions; intros ?; done
  | |- invs (insert_session _ _) => apply invs_insert_session; done
  | |- invs (match ?x with _ => _ end) => destruct x
  | |- invs _ => first [solve [eauto with auth] | apply invs_frame; solve [frame]]
  end.
Ltac inv_auth := repeat inv_step.

Section inv_ops.
Context `{ServerLib} `{AuthLib}.

Lemma invs_create_session_on a d n ttl : invs (create_session_on a d n ttl).
Proof. unfold create_session_on, session_device, register_device_on. inv_auth. Qed.
Lemma invs_revoke_where p : invs (revoke_sessions_where p).
Proof. unfold revoke_sessions_where. inv_auth. Qed.

(** Giving a session the credential of its own account, live unless the
    session is revoked, and binding credentials to devices. *)
Lemma auth_wf_give db k0 c0 cr0 d p :
  auth_wf db -> ad_ssh_credentials db !! c0 = Some cr0 ->
  (forall r, ad_sessions db !! k0 = Some r -> p k0 r = true ->
     sc_account_id cr0 = ss_account_id r /\ sc_revoked_at cr0 = None) ->
  (forall k r, p k r = true -> k = k0) ->
  auth_wf (up_sessions (update_where p (with_credential (Some c0)))
             (up_ssh_credentials (update_where (fun k _ => bool_decide (k = c0)) (bind_device d)) db))
  /\ auth_wf (up_sessions (update_where p (with_credential (Some c0))) db).
Proof.
  intros [Hh Hw Hu] Hc0 Hp Hk0.
  assert (forall creds, (forall c cr, ad_ssh_credentials db !! c = Some cr ->
            exists cr', creds !! c = Some cr' /\ sc_account_id cr' = sc_account_id cr
              /\ sc_revoked_at cr' = sc_revoked_at cr) ->
          (forall c cr', creds !! c = Some cr' -> exists cr, ad_ssh_credentials db !! c = Some cr
              /\ sc_account_id cr' = sc_account_id cr) ->
          auth_wf (up_sessions (update_where p (with_credential (Some c0)))
                     (up_ssh_credentials (fun _ => creds) db))) as Hgen.
  { intros creds Hto Hfrom. split; cbn.
    - intros k1 k2 r1 r2. rewrite !lookup_update_where.
      intros (v1 & Hk1 & ->)%fmap_Some (v2 & Hk2 & ->)%fmap_Some Heq. apply (Hh _ _ _ _ Hk1 Hk2).
      by destruct (p k1 v1), (p k2 v2).
    - intros k r c. rewrite lookup_update_where. intros (v & Hk & ->)%fmap_Some Hc.
      destruct (p k v) eqn:Hpk.
      + injection Hc as <-. destruct (Hto _ _ Hc0) as (cr' & Hcr' & Ha' & Hr').
        pose proof (Hk0 _ _ Hpk) as ->. destruct (Hp _ Hk Hpk) as [Ha Hr].
        exists cr'. split; [done|]. split; [cbn; congruence|]. intros Hbad. congruence.
      + destruct (Hw _ _ _ Hk Hc) as (cr & Hcr & Ha & Hr). destruct (Hto _ _ Hcr) as (cr' & ? & ? & E).
        exists cr'. split; [done|]. split; [congruence|]. by rewrite E.
    - intros c cr' Hc. destruct (Hfrom _ _ Hc) as (cr & Hcr & ->). eauto. }
  split.
  - apply Hgen.
    + intros c cr Hc. rewrite lookup_update_where, Hc. cbn. eexists. split; [done|].
      by case_bool_decide.
    + intros c cr'. rewrite lookup_update_where. intros (cr & Hc & ->)%fmap_Some. exists cr.
      split; [done|]. by case_bool_decide.
  - specialize (Hgen (ad_ssh_credentials db)). destruct db. apply Hgen; eauto.
Qed.

Lemma proof_credential_Some db fp o cid cr :
  proof_credential db fp o = Some (cid, cr) ->
  o = Some cid /\ ad_ssh_credentials db !! cid = Some cr /\ sc_fingerprint cr = fp
  /\ sc_revoked_at cr = None /\ account_active db (sc_account_id cr) = Some true.
Proof.
  unfold proof_credential. destruct o as [c|]; [|done]. cbn.
  destruct (_ !! c) as [r|] eqn:Hr; [|done]. cbn. destruct (_ && _) eqn:Hb; [|done].
  intros [= <- <-]. apply andb_true_iff in Hb as [[Hb1 Hb2]%andb_true_iff Hb3].
  by apply bool_decide_eq_true in Hb1, Hb2, Hb3.
Qed.

Lemma invs_issue c credential signature : invs (in_tx (issue_ssh_session c credential signature)).
Proof.
  apply invs_in_tx. intros s resp s' Hwf (cid & cr & Hp)%issue_ssh_session_inv.
  destruct (sp_session _ _ _ _ _ _ _ _ Hp) as (sess & s1 & Hc & _ & ->).
  destruct (proof_credential_Some _ _ _ _ _ (sp_record _ _ _ _ _ _ _ _ Hp)) as (_ & Hcr & _ & Hlive & _).
  pose proof (run_frame _ _ _ _ _ (create_session_on_creds _ _ _ _) Hc) as Hcreds.
  pose proof (invs_run _ _ _ _ (invs_create_session_on _ _ _ _) Hwf Hc) as Hwf1.
  apply create_session_on_ok in Hc as (Hsess & _). cbn [au_db set_db].
  assert (sp_account_id resp = sc_account_id cr) as Hacc.
  { pose proof (wf_canonical _ Hwf _ _ Hcr) as Hu. pose proof (sp_account _ _ _ _ _ _ _ _ Hp) as Ha.
    unfold is_uuid in Hu. congruence. }
  eapply (auth_wf_give (au_db s1) (as_session_id sess) cid cr); [done|by rewrite Hcreds| |].
  - intros r. rewrite Hsess, lookup_insert. destruct (decide _); [|done]. by intros [= <-].
  - intros k r Hk. by apply bool_decide_eq_true in Hk.
Qed.

(** A conditional revocation keeps a row's identity and credential. *)
Definition revoke_if (q : SessionRow -> bool) (t : Z) (r : SessionRow) : SessionRow :=
  if q r then revoke_at (coalesce (ss_revoked_at r) t) r else r.

Lemma revoke_if_le q t r :
  session_le r (revoke_if q t r)
  /\ ss_ssh_credential_id (revoke_if q t r) = ss_ssh_credential_id r.
Proof. unfold revoke_if. by destruct (q r). Qed.

(** The sessions after an SSH key is revoked. *)
Lemma revoke_ssh_key_run s a c : exists dev n,
  let t := au_now s in
  let q1 r := bool_decide (ss_account_id r = a)
              && match dev with Some d => opt_eqb (ss_device_id r) d | None => false end in
  let q2 r := bool_decide (ss_account_id r = a) && opt_eqb (ss_ssh_credential_id r) c in
  (revoke_ssh_key a c s).1 = Ok n
  /\ (forall k, ad_sessions (au_db (revoke_ssh_key a c s).2) !! k
        = (fun r => revoke_if q2 t (revoke_if q1 t r)) <$> ad_sessions (au_db s) !! k)
  /\ (forall k, ad_ssh_credentials (au_db (revoke_ssh_key a c s).2) !! k
        = (fun r => if bool_decide (sc_account_id r = a) && bool_decide (k = c)
                    then revoke_credential_at t r else r) <$> ad_ssh_credentials (au_db s) !! k)
  /\ (forall k, ad_devices (au_db (revoke_ssh_key a c s).2) !! k
        = (fun r => if bool_decide (k.1 = a) && opt_eqb dev k.2
                    then revoke_device_at (coalesce (dv_revoked_at r) t) r else r)
          <$> ad_devices (au_db s) !! k)
  /\ dev = bound_device (au_db s) a c.
Proof.
  unfold revoke_ssh_key, in_tx. do 6 (erewrite run_bind_ok by reflexivity).
  erewrite run_bind_ok by reflexivity. cbn [fst snd mret M_ret]. eexists _, _. cbv zeta.
  split_and!; [reflexivity|..].
  - intros k. cbn. rewrite !lookup_update_where. by rewrite <- option_fmap_compose.
  - intros k. cbn. by rewrite !lookup_update_where.
  - intros k. cbn. by rewrite !lookup_update_where.
  - unfold bound_device. cbn. rewrite lookup_update_where. destruct (_ !! c) as [r|]; [|done]. cbn.
    by destruct (_ && _).
Qed.

Lemma revoke_session_run s a k :
  (revoke_session a k s).2
  = set_db (up_sessions (update_where (fun k0 r => bool_decide (ss_account_id r = a)
              && bool_decide (k0 = k) && live r) (revoke_at (au_now s))) (au_db s)) s.
Proof. reflexivity. Qed.

Lemma invs_revoke_ssh_key a c : invs (revoke_ssh_key a c).
Proof.
  intros s [Hh Hw Hu]. destruct (revoke_ssh_key_run s a c) as (dev & n & _ & Hs & Hc & _). cbv zeta in Hs, Hc.
  set (q1 := fun r : SessionRow => _ && match dev with Some d => _ | None => false end) in Hs.
  set (q2 := fun r : SessionRow => _ && opt_eqb (ss_ssh_credential_id r) c) in Hs.
  set (t := au_now s) in *.
  assert (forall v, session_le v (revoke_if q2 t (revoke_if q1 t v))
            /\ ss_ssh_credential_id (revoke_if q2 t (revoke_if q1 t v)) = ss_ssh_credential_id v) as Hg.
  { intros v. destruct (revoke_if_le q1 t v), (revoke_if_le q2 t (revoke_if q1 t v)).
    split; [by etrans|congruence]. }
  split.
  - intros k1 k2 r1 r2. rewrite !Hs.
    intros (v1 & Hk1 & ->)%fmap_Some (v2 & Hk2 & ->)%fmap_Some Heq. apply (Hh _ _ _ _ Hk1 Hk2).
    destruct (Hg v1) as [[[= _ _ E1 _] _] _], (Hg v2) as [[[= _ _ E2 _] _] _]. congruence.
  - intros k r c'. rewrite Hs. intros (v & Hk & ->)%fmap_Some Hc'. destruct (Hg v) as [[[= E1 E3 _ _] Hst] E2].
    rewrite E2 in Hc'. destruct (Hw _ _ _ Hk Hc') as (cr & Hcr & Ha & Hcst).
    rewrite Hc, Hcr. eexists. split; [reflexivity|].
    destruct (_ && _) eqn:Hp; [|split; [congruence|by etrans]].
    apply andb_true_iff in Hp as [Hp1%bool_decide_eq_true Hp2%bool_decide_eq_true].
    split; [cbn; congruence|]. intros _. destruct (revoke_if_le q1 t v) as [[[= E4 _ _ _] _] E5].
    unfold revoke_if at 1. replace (q2 (revoke_if q1 t v)) with true; [done|].
    symmetry. apply andb_true_iff. unfold opt_eqb. split; apply bool_decide_eq_true; congruence.
  - intros c' cr. rewrite Hc. intros (cr0 & Hcr0 & ->)%fmap_Some.
    destruct (_ && _); cbn; eauto.
Qed.

(** Clearing credentials. *)
Lemma invs_clear p : invs (execute (up_sessions (update_where p (with_credential None)))).
Proof.
  intros s [Hh Hw Hu]. split; cbn; [| |done].
  - intros k1 k2 r1 r2. rewrite !lookup_update_where.
    intros (v1 & Hk1 & ->)%fmap_Some (v2 & Hk2 & ->)%fmap_Some Heq. apply (Hh _ _ _ _ Hk1 Hk2).
    by destruct (p k1 v1), (p k2 v2).
  - intros k r c. rewrite lookup_update_where. intros (v & Hk & ->)%fmap_Some Hc.
    destruct (p k v); [done|eauto].
Qed.

Lemma source_credential_Some db t a source o :
  source_credential db t a source = Some o ->
  exists r, ad_sessions db !! source = Some r /\ ss_account_id r = a /\ ss_revoked_at r = None
    /\ ss_ssh_credential_id r = o.
Proof.
  unfold source_credential. destruct (_ !! source) as [r|] eqn:Hr; [|done]. cbn.
  destruct (_ && _) eqn:Hb; [|done]. intros [= <-]. exists r.
  apply andb_true_iff in Hb as [[Hb1%bool_decide_eq_true Hb2%bool_decide_eq_true]%andb_true_iff _].
  done.
Qed.

Lemma invs_inherit a source target : invs (inherit_ssh_credential a source target).
Proof.
  unfold inherit_ssh_credential. apply invs_bind; [|by intros []; inv_auth].
  apply invs_tx. apply invs_bind; [inv_auth|]. intros t.
  set (p := fun k (r : SessionRow) => _ && bool_decide (k = target)).
  assert (forall b : bool, invs (_ ← (if b then mret tt else execute (up_sessions (update_where p (revoke_at t))));
            mret b : Auth_op bool)) as Hend by (intros []; inv_auth).
  intros s Hwf. erewrite run_bind_ok by reflexivity.
  destruct (source_credential (au_db s) t a source) as [o|] eqn:Hsrc; [|by apply Hend].
  apply source_credential_Some in Hsrc as (r & Hr & Ha & Hlive & Ho).
  destruct o as [id|].
  - destruct (wf_ssh _ Hwf _ _ _ Hr Ho) as (cr & Hcr & Hca & Hst).
    assert (sc_revoked_at cr = None) as Hcl.
    { destruct (sc_revoked_at cr) eqn:E; [|done]. by destruct Hst. }
    erewrite run_bind_ok; [|erewrite run_bind_ok by reflexivity; reflexivity].
    apply Hend. refine (proj2 (auth_wf_give (au_db s) target id cr "" p Hwf Hcr _ _)).
    + intros r0 _ Hp. apply andb_true_iff in Hp as [Hp%bool_decide_eq_true _]. split; congruence.
    + intros k r0 Hp. by apply andb_true_iff in Hp as [_ Hp%bool_decide_eq_true].
  - erewrite run_bind_ok; [|erewrite run_bind_ok by reflexivity; reflexivity].
    apply Hend. by apply (invs_clear p s).
Qed.

Definition op_ok (op : AuthOp) : Prop :=
  match op with OpAddSshKey a _ _ _ => is_uuid a | _ => True end.

Lemma auth_step_wf s op : op_ok op -> auth_wf (au_db s) -> auth_wf (au_db (auth_step s op)).
Proof.
  intros Hok. destruct op; cbn [auth_step]; revert s.
  - done.
  - fold (invs (ensure_auth_account a)). unfold ensure_auth_account. inv_auth.
  - fold (invs (create_session a d n ttl)). unfold create_session, ensure_auth_account.
    inv_auth. apply invs_create_session_on.
  - fold (invs (revoke_session a k)). unfold revoke_session. inv_auth. apply invs_revoke_where.
  - apply invs_revoke_where.
  - apply invs_revoke_where.
  - fold (invs (register_device a d n)). unfold register_device, ensure_auth_account, register_device_on. inv_auth.
  - fold (invs (revoke_device a d)). unfold revoke_device, revoke_sessions_where. inv_auth.
  - fold (invs (create_webauthn_challenge k c a p ttl)). unfold create_webauthn_challenge. inv_auth.
  - fold (invs (consume_webauthn_challenge k p)). unfold consume_webauthn_challenge, parse_stored_uuid. inv_auth.
  - fold (invs (register_webauthn_credential k a pk d n)).
    unfold register_webauthn_credential, ensure_auth_account. inv_auth.
  - fold (invs (advance_webauthn_counter k old new)). unfold advance_webauthn_counter. inv_auth.
  - fold (invs (update_webauthn_credential_usage k n)). unfold update_webauthn_credential_usage. inv_auth.
  - fold (invs (add_ssh_key a pk l create)). unfold add_ssh_key. inv_auth.
    by apply invs_insert_ssh_credential.
  - apply invs_revoke_ssh_key.
  - apply invs_inherit.
  - fold (invs (start_ssh_login r audience)). unfold start_ssh_login, ssh_now. inv_auth.
  - fold (invs (finish_ssh_login r audience)). unfold finish_ssh_login, ssh_now.
    repeat first [apply invs_issue | inv_step].
Qed.

Lemma auth_run_wf ops s : Forall op_ok ops -> auth_wf (au_db s) -> auth_wf (au_db (auth_run ops s)).
Proof.
  intros Hops. revert s. induction Hops as [|op ops Hop _ IH]; intros s Hs; [done|].
  cbn. apply IH. by apply auth_step_wf.
Qed.

Lemma auth_wf_start t : auth_wf (au_db (Auth_start t)).
Proof. split; cbn; intros *; by rewrite lookup_empty. Qed.
End inv_ops.

(** ** Revocation is final *)

Section final.
Context `{ServerLib} `{AuthLib}.

(** A digest whose session is revoked does not validate. *)
Lemma revoked_not_valid s token k row a d k' :
  auth_wf (au_db s) -> ad_sessions (au_db s) !! k = Some row ->
  ss_token_hash row = blake2s256 token -> ss_revoked_at row <> None ->
  (validate_session_token token s).1 <> Ok (Some (Valid a d k')).
Proof.
  intros Hwf Hrow Hh Hrev Hv. destruct (validate_session_token token s) as [r s2] eqn:Hval.
  cbn in Hv. subst r. apply validate_inv in Hval as [_ [(k0 & row0 & Hrow0 & Hh0 & Hlive & _) _]].
  assert (k0 = k) as -> by (eapply (wf_hash _ Hwf); [done|done|congruence]). congruence.
Qed.

(** A revoked session is dead for good: after [revoke_session], whatever
    operations follow, the session's token never authenticates again. *)
Lemma revoked_session_final s a k row ops token :
  auth_wf (au_db s) -> ad_sessions (au_db s) !! k = Some row -> ss_account_id row = a ->
  ss_token_hash row = blake2s256 token -> Forall op_ok ops ->
  forall a' d' k', (validate_session_token token (auth_run ops (revoke_session a k s).2)).1
                   <> Ok (Some (Valid a' d' k')).
Proof.
  intros Hwf Hrow Ha Hh Hops a' d' k'.
  pose proof (auth_step_wf s (OpRevokeSession a k) I Hwf) as Hwf1. cbn [auth_step] in Hwf1.
  assert (exists row1, ad_sessions (au_db (revoke_session a k s).2) !! k = Some row1
            /\ ss_token_hash row1 = ss_token_hash row /\ ss_revoked_at row1 <> None)
    as (row1 & Hrow1 & Hh1 & Hrev1).
  { rewrite revoke_session_run. cbn. rewrite lookup_update_where, Hrow. cbn.
    rewrite (bool_decide_eq_true_2 (ss_account_id row = a)), (bool_decide_eq_true_2 (k = k)) by done. cbn.
    eexists. split; [done|]. unfold live. by case_bool_decide. }
  destruct (ev_sessions _ _ (auth_run_evolves ops (revoke_session a k s).2) _ _ Hrow1)
    as (row2 & Hrow2 & [[= _ _ Hh2 _] Hst]).
  apply (revoked_not_valid _ _ k row2); [by apply auth_run_wf|done|congruence|by apply Hst].
Qed.

(** C16. Revoking an SSH key revokes everything it issued, now and later:
    whatever operations follow, every session that carries the credential is
    revoked, so no token of such a session authenticates, and the device the
    key was bound to is locked. *)
Theorem revoked_ssh_key_final s a c cr ops :
  auth_wf (au_db s) -> ad_ssh_credentials (au_db s) !! c = Some cr -> sc_account_id cr = a ->
  Forall op_ok ops ->
  let s' := auth_run ops (revoke_ssh_key a c s).2 in
  (forall k r token a' d' k', ad_sessions (au_db s') !! k = Some r -> ss_ssh_credential_id r = Some c ->
     ss_token_hash r = blake2s256 token ->
     (validate_session_token token s').1 <> Ok (Some (Valid a' d' k')))
  /\ (forall d, sc_device_id cr = Some d -> is_Some (ad_devices (au_db s) !! (a, d)) ->
        is_revoked_device s' a d).
Proof.
  intros Hwf Hcr Ha Hops s'.
  pose proof (auth_step_wf s (OpRevokeSshKey a c) I Hwf) as Hwf1. cbn [auth_step] in Hwf1.
  destruct (revoke_ssh_key_run s a c) as (dev & n & _ & _ & Hcreds & Hdevs & ->). cbv zeta in *.
  assert (exists cr1, ad_ssh_credentials (au_db (revoke_ssh_key a c s).2) !! c = Some cr1
            /\ sc_revoked_at cr1 <> None) as (cr1 & Hcr1 & Hrev1).
  { rewrite Hcreds, Hcr. cbn. rewrite (bool_decide_eq_true_2 (_ = a)), (bool_decide_eq_true_2 (c = c)) by done.
    by eexists. }
  split.
  - intros k r token a' d' k' Hr Hc Hh.
    destruct (ev_credentials _ _ (auth_run_evolves ops (revoke_ssh_key a c s).2) _ _ Hcr1)
      as (cr2 & Hcr2 & [_ Hst]). specialize (Hst Hrev1).
    pose proof (auth_run_wf ops _ Hops Hwf1) as Hwf2.
    destruct (wf_ssh _ Hwf2 _ _ _ Hr Hc) as (cr3 & Hcr3 & _ & Hst3).
    apply (revoked_not_valid _ _ k r); [done..|]. apply Hst3. fold s' in Hcr3, Hcr2. congruence.
  - intros d Hd Hdev. eapply device_revoked_evolves; [apply auth_run_evolves|].
    destruct Hdev as [r Hr]. unfold is_revoked_device, device_revoked. rewrite Hdevs, Hr. cbn.
    assert (bound_device (au_db s) a c = Some d) as ->.
    { unfold bound_device. rewrite Hcr. cbn. by rewrite bool_decide_eq_true_2. }
    unfold opt_eqb. by rewrite (bool_decide_eq_true_2 (a = a)), (bool_decide_eq_true_2 (Some d = Some d)).
Qed.
End final.
