(* ===== verification/ServerAuthLogin.v ===== *)
(** * Issuing and proving identity

    A fresh session validates until it expires; challenges are single use; an
    SSH login went through every check and its session carries the
    credential; and the bytes that are signed determine the challenge. *)

From stdpp Require Import options.
From S2P Require Import Prelude Text Protocol ServerDb ServerAuth ServerAuthFacts ServerAuthInv.

Section roundtrip.
Context `{ServerLib} `{AuthLib}.

Lemma session_by_hash_unique db k r :
  auth_wf db -> ad_sessions db !! k = Some r -> session_by_hash db (ss_token_hash r) = Some (k, r).
Proof.
  intros Hwf Hr. unfold session_by_hash.
  destruct (find_first _ _) as [[k' r']|] eqn:Hf.
  - apply session_by_hash_Some in Hf as [Hr' Hh].
    assert (k' = k) as -> by (by eapply (wf_hash _ Hwf)). congruence.
  - apply find_first_None in Hf. rewrite Forall_forall in Hf.
    specialize (Hf (k, r) (proj2 (elem_of_map_to_list _ _ _) Hr)). cbn in Hf.
    by apply bool_decide_eq_false in Hf.
Qed.

(** A session just created validates as its account and device, at every
    later second until its expiry, and is reported expired from then on. *)
Lemma fresh_session_validates s a d n ttl sess tok s' dt :
  auth_wf (au_db s) -> is_uuid a -> is_uuid (auth_uuid (au_uuids s)) ->
  (forall d0, d = Some d0 -> is_uuid d0) ->
  create_session a d n ttl s = (Ok (sess, tok), s') ->
  validate_session_token tok (tick dt s')
  = (Ok (Some (if match as_expires_at sess with
                  | Some e => (e <=? au_now s + Z.of_N dt)%Z
                  | None => false
                  end
               then Expired else Valid a d (as_session_id sess))), tick dt s').
Proof.
  intros Hwf Ha Hu Hd Hrun. pose proof (auth_step_wf s (OpCreateSession a d n ttl) I Hwf) as Hwf'.
  cbn [auth_step] in Hwf'. rewrite Hrun in Hwf'. cbn [snd] in Hwf'.
  unfold create_session in Hrun. erewrite run_bind_ok in Hrun by reflexivity.
  apply in_tx_ok, create_session_on_ok in Hrun as (Hs & _ & _ & Hnow & Hdev & Hid & Hexp).
  set (row := session_row _ _ _ _ _ _) in *.
  change (au_uuids _) with (au_uuids s) in Hid. change (au_now (set_db _ _)) with (au_now s) in Hnow.
  assert (ad_sessions (au_db s') !! as_session_id sess = Some row) as Hrow
    by (rewrite Hs, lookup_insert; by destruct (decide _)).
  pose proof (session_by_hash_unique _ _ _ Hwf' Hrow) as Hfind.
  unfold validate_session_token, parse_stored_uuid. erewrite run_bind_ok by reflexivity.
  erewrite run_bind_ok by reflexivity. cbn [au_db tick]. change (blake2s256 tok) with (ss_token_hash row).
  rewrite Hfind. unfold is_uuid in *. rewrite <- Hid in Hu.
  erewrite run_bind_ok by (unfold lift_result; rewrite Hu; reflexivity).
  erewrite run_bind_ok by (unfold lift_result; cbn [ss_account_id row session_row]; rewrite Ha; reflexivity).
  cbn [ss_device_id row session_row].
  destruct d as [d0|].
  - erewrite run_bind_ok
      by (erewrite run_bind_ok by (unfold lift_result; rewrite (Hd d0 eq_refl); reflexivity); reflexivity).
    erewrite run_bind_ok by reflexivity. cbn [au_db tick]. rewrite (Hdev d0 eq_refl). cbn [default].
    cbn. rewrite Hexp. unfold is_expired. cbn. rewrite Hnow. by destruct (match _ with Some e => _ | None => _ end).
  - erewrite run_bind_ok by reflexivity. erewrite run_bind_ok by reflexivity.
    cbn. rewrite Hexp. unfold is_expired. cbn. rewrite Hnow. by destruct (match _ with Some e => _ | None => _ end).
Qed.
End roundtrip.

(** ** Challenges are single use *)

(** An operation after which an absent row is still absent. *)
Definition leaves_absent {E A V} (get : AuthDb -> gmap string V) (k : string) (m : M Auth E A) : Prop :=
  forall s, get (au_db s) !! k = None -> get (au_db (m s).2) !! k = None.

Lemma leaves_absent_frames {E A V} (get : AuthDb -> gmap string V) k (m : M Auth E A) :
  frames get m -> leaves_absent get k m.
Proof. intros Hf s Hk. by rewrite (Hf s). Qed.

Lemma leaves_absent_bind {E A B V} (get : AuthDb -> gmap string V) k (m : M Auth E A) (f : A -> M Auth E B) :
  leaves_absent get k m -> (forall a, leaves_absent get k (f a)) -> leaves_absent get k (m ≫= f).
Proof.
  intros Hm Hf s Hk. unfold mbind, M_bind. specialize (Hm s Hk).
  destruct (m s) as [[a|e] s']; [|done]. by apply Hf.
Qed.

(** Walks through an operation that does not touch a table. *)
Ltac as_leaves_absent :=
  lazymatch goal with
  | |- forall s : Auth, _ -> ?get (au_db (?m s).2) !! ?k = None => change (leaves_absent get k m)
  | _ => idtac
  end.
Ltac by_frames :=
  as_leaves_absent; apply leaves_absent_frames;
  unfold create_session, register_device, revoke_session, revoke_all_sessions_for_account,
    revoke_device_sessions, revoke_device, create_webauthn_challenge, consume_webauthn_challenge,
    register_webauthn_credential, advance_webauthn_counter, update_webauthn_credential_usage,
    add_ssh_key, revoke_ssh_key, inherit_ssh_credential, start_ssh_login, finish_ssh_login,
    issue_ssh_session, create_session_on, session_device, register_device_on,
    revoke_sessions_where, parse_stored_uuid, ensure_auth_account, ssh_now;
  frame.

Section single_use.
Context `{ServerLib} `{AuthLib}.

Definition creates_challenge (k : string) (op : AuthOp) : bool :=
  match op with OpCreateChallenge k' _ _ _ _ => bool_decide (k' = k) | _ => false end.

Lemma leaves_absent_create k k' c a p ttl :
  k' <> k -> leaves_absent ad_challenges k (create_webauthn_challenge k' c a p ttl).
Proof.
  intros Hne s Hk. unfold create_webauthn_challenge. erewrite run_bind_ok by reflexivity.
  destruct (datetime_now _ _); [|done]. erewrite run_bind_ok by reflexivity.
  case_bool_decide; [done|]. cbn. by rewrite lookup_insert_ne.
Qed.

Lemma leaves_absent_take k k' p : leaves_absent ad_challenges k (take_challenge k' p).
Proof.
  intros s Hk. unfold take_challenge. destruct (_ !! k') eqn:Hk'; [|done].
  case_bool_decide; [|done]. cbn. rewrite lookup_delete_ne; congruence.
Qed.

Lemma challenge_stays_absent s op k :
  creates_challenge k op = false -> ad_challenges (au_db s) !! k = None ->
  ad_challenges (au_db (auth_step s op)) !! k = None.
Proof.
  intros Hop. destruct op; cbn [auth_step]; revert s; try (solve [by_frames]).
  - done.
  - apply leaves_absent_create. cbn in Hop. by apply bool_decide_eq_false in Hop.
  - fold (leaves_absent ad_challenges k (consume_webauthn_challenge k0 p)).
    unfold consume_webauthn_challenge, parse_stored_uuid.
    apply leaves_absent_bind; [by_frames|intros t]. apply leaves_absent_bind; [apply leaves_absent_take|].
    intros taken. by_frames.
Qed.

(** A passkey challenge is consumed at most once.  Consuming it succeeds
    only for the purpose it was created for and before its expiry; after
    that, until a challenge is created under the same identifier again, every
    attempt for any purpose is answered [ChallengeNotFound]. *)
Lemma webauthn_challenge_single_use s k p row s1 ops :
  consume_webauthn_challenge k p s = (Ok row, s1) ->
  Forall (fun op => creates_challenge k op = false) ops ->
  wc_purpose row = p /\ (au_now s < wc_expires_at row)%Z
  /\ forall p', (consume_webauthn_challenge k p' (auth_run ops s1)).1 = Err DbE_ChallengeNotFound.
Proof.
  intros Hc Hops.
  assert (ad_challenges (au_db s1) !! k = None /\ wc_purpose row = p
          /\ (au_now s < wc_expires_at row)%Z) as (Hk & Hp & Hx).
  { unfold consume_webauthn_challenge, take_challenge, parse_stored_uuid in Hc. auth_inv.
    destruct (ad_challenges _ !! k) as [r|] eqn:Hr; [|by simplify_eq].
    case_bool_decide as Hp; simplify_eq; try discriminate.
    destruct (Z.leb _ _) eqn:Hle; [discriminate|].
    apply Z.leb_gt in Hle.
    rewrite (bool_decide_eq_false_2 (_ <> _)) in * by auto.
    destruct (wc_account_id r); auth_inv; cbn; rewrite lookup_delete_eq; done. }
  split; [done|]. split; [done|]. intros p'.
  assert (ad_challenges (au_db (auth_run ops s1)) !! k = None) as Hk'.
  { clear -Hk Hops. revert s1 Hk. induction Hops as [|op ops Hop _ IH]; intros s1 Hk; [done|].
    cbn. apply IH. by apply challenge_stays_absent. }
  unfold consume_webauthn_challenge. erewrite run_bind_ok by reflexivity.
  unfold take_challenge, mbind, M_bind. by rewrite Hk'.
Qed.

(** ** SSH challenges *)

Lemma leaves_absent_take_ssh k k' : leaves_absent ad_ssh_challenges k (take_ssh_challenge k').
Proof. intros s Hk. cbn. by rewrite lookup_delete_None; right. Qed.

(** No UUID drawn from now on is [k]. *)
Definition not_redrawn (s : Auth) (k : string) : Prop :=
  forall n, (au_uuids s <= n)%nat -> auth_uuid n <> k.

Lemma not_redrawn_evolves s s' k : evolves s s' -> not_redrawn s k -> not_redrawn s' k.
Proof. intros Hev Hk n Hn. apply Hk. pose proof (ev_uuids _ _ Hev). lia. Qed.

Lemma start_ssh_absent s r audience k :
  not_redrawn s k ->
  ad_ssh_challenges (au_db s) !! k = None ->
  ad_ssh_challenges (au_db (start_ssh_login r audience s).2) !! k = None.
Proof.
  intros Hnew Hk. unfold start_ssh_login, ssh_now.
  destruct (_ || _); [done|]. unfold mbind at 1, M_bind at 1.
  erewrite run_bind_ok by reflexivity. destruct (Z.ltb _ _); [done|]. cbn [mret M_ret].
  unfold mbind at 1, M_bind at 1. unfold fill_bytes. destruct (try_fill_bytes _ _); [|done].
  erewrite run_bind_ok by reflexivity. unfold mbind at 1, M_bind at 1.
  destruct (signing_bytes _); [|done]. cbn [ok_or mret M_ret].
  erewrite run_bind_ok by reflexivity. erewrite run_bind_ok by reflexivity.
  erewrite run_bind_ok by reflexivity.
  assert (filter (fun kv : string * SshChallengeRow => (Z.of_N (Z.to_N (au_now s)) < sh_expires_at kv.2)%Z)
            (ad_ssh_challenges (au_db s)) !! k = None) as Hf
    by (apply map_lookup_filter_None; by left).
  case_bool_decide; [exact Hf|]. erewrite run_bind_ok by reflexivity.
  cbn [snd mret M_ret au_db set_db up_ssh_challenges ad_ssh_challenges].
  rewrite lookup_insert_ne; [exact Hf|]. cbn. by apply Hnew.
Qed.

Lemma ssh_challenge_stays_absent s op k :
  not_redrawn s k ->
  ad_ssh_challenges (au_db s) !! k = None ->
  ad_ssh_challenges (au_db (auth_step s op)) !! k = None.
Proof.
  intros Hiss. destruct op; cbn [auth_step];
    try (clear Hiss; revert s; solve [by_frames]).
  - done.
  - by apply start_ssh_absent.
  - clear Hiss. revert s. as_leaves_absent. unfold finish_ssh_login.
    apply leaves_absent_bind; [apply leaves_absent_take_ssh|]. intros st. by_frames.
Qed.

Lemma ssh_absent_run ops s k :
  not_redrawn s k ->
  ad_ssh_challenges (au_db s) !! k = None ->
  ad_ssh_challenges (au_db (auth_run ops s)) !! k = None.
Proof.
  revert s. induction ops as [|op ops IH]; intros s Hiss Hk; [done|].
  cbn. apply IH; [|by apply ssh_challenge_stays_absent].
  eapply not_redrawn_evolves; [apply auth_step_evolves|done].
Qed.

(** Finishing a login, whatever the outcome, takes the challenge. *)
Lemma finish_ssh_takes s req audience :
  ad_ssh_challenges (au_db (finish_ssh_login req audience s).2) !! sch_challenge_id (sf_challenge req) = None.
Proof.
  set (k := sch_challenge_id (sf_challenge req)). unfold finish_ssh_login. erewrite run_bind_ok by reflexivity.
  match goal with |- ad_ssh_challenges (au_db (?m ?s0).2) !! _ = None =>
    enough (leaves_absent ad_ssh_challenges k m) as Hl by (apply Hl; cbn; apply lookup_delete_eq) end.
  by_frames.
Qed.

(** A proof cannot be retried or replayed: whatever the outcome of
    finishing an SSH login (a session, or any error, a bad signature
    included), the challenge is gone, and every later attempt
    with it, after any further operations, is answered [ChallengeNotFound].
    (No later random UUID is assumed to repeat the challenge's.) *)
Lemma ssh_challenge_single_use s req audience ops req2 audience2 :
  not_redrawn s (sch_challenge_id (sf_challenge req)) ->
  sch_challenge_id (sf_challenge req2) = sch_challenge_id (sf_challenge req) ->
  (finish_ssh_login req2 audience2 (auth_run ops (finish_ssh_login req audience s).2)).1
  = Err DbE_ChallengeNotFound.
Proof.
  intros Hiss Heq. pose proof (finish_ssh_takes s req audience) as Hk.
  set (k := sch_challenge_id (sf_challenge req)) in *. set (s1 := (finish_ssh_login req audience s).2) in *.
  assert (not_redrawn s1 k) as Hiss1
    by (eapply not_redrawn_evolves; [apply (auth_step_evolves s (OpFinishSsh req audience))|done]).
  pose proof (ssh_absent_run ops s1 k Hiss1 Hk) as Hk'.
  unfold finish_ssh_login, take_ssh_challenge, mbind, M_bind. by rewrite Heq, Hk'.
Qed.

(** C15. An SSH login is sound.  It issues a session only for a stored,
    unexpired login challenge of the current version for this server that equals
    the one presented, signed by the public key of the credential it was issued
    for, which is live and whose account is active, on a device that is not revoked
    and is the one the key is bound to; the account the challenge names, if it
    names one, is the credential's.  The session is for that account: the response
    names the credential's account and the device of the challenge, and the stored
    session has this account and device, the hash of the returned token, the
    credential, and one hour to live.  The credential is bound to the device from
    then on, and the challenge is gone. *)
Theorem ssh_login_sound s req audience resp s' :
  finish_ssh_login req audience s = (Ok resp, s') ->
  exists row cid cr message,
    let c := sf_challenge req in
    ad_ssh_challenges (au_db s) !! sch_challenge_id c = Some row
    /\ sh_purpose row = "login-v1"
    /\ challenge_from_str (sh_challenge_json row) = Ok c
    /\ (au_now s < Z.of_N (sch_expires_at c))%Z /\ sr_audience (sch_request c) = audience
    /\ sr_version (sch_request c) = SSH_AUTH_VERSION
    /\ sh_credential_id row = Some cid
    /\ ad_ssh_credentials (au_db s) !! cid = Some cr
    /\ sc_fingerprint cr = sr_fingerprint (sch_request c) /\ sc_revoked_at cr = None
    /\ account_active (au_db s) (sc_account_id cr) = Some true
    /\ signing_bytes c = Some message
    /\ verify_signature (sc_public_key cr) message (sf_signature req) = true
    /\ ~ is_revoked_device s (sc_account_id cr) (sr_device_id (sch_request c))
    /\ (forall d, sc_device_id cr = Some d -> d = sr_device_id (sch_request c))
    /\ uuid_parse_str (sc_account_id cr) = Ok (sp_account_id resp)
    /\ (forall a, sr_account_id (sch_request c) = Some a -> a = sp_account_id resp)
    /\ sp_device_id resp = Some (sr_device_id (sch_request c))
    /\ ad_sessions (au_db s') !! sp_session_id resp
       = Some (mkSessionRow (sp_account_id resp) (sp_device_id resp) (blake2s256 (sp_token resp))
                 (Some "SSH native client") (au_now s) (datetime_now (au_now s) 3600) None (Some cid))
    /\ (exists cr', ad_ssh_credentials (au_db s') !! cid = Some cr'
          /\ sc_device_id cr' = Some (sr_device_id (sch_request c)))
    /\ ad_ssh_challenges (au_db s') !! sch_challenge_id c = None.
Proof.
  intros Hrun. pose proof (finish_ssh_takes s req audience) as Hgone. rewrite Hrun in Hgone.
  apply finish_ssh_login_inv in Hrun as (row & cid & cr & Hl). pose proof (sl_proof _ _ _ _ _ _ _ _ Hl) as Hp.
  destruct (sp_signed _ _ _ _ _ _ _ _ Hp) as (message & Hm & Hv).
  destruct (proof_credential_Some _ _ _ _ _ (sp_record _ _ _ _ _ _ _ _ Hp)) as (Hid & Hcr & Hfp & Hlive & Hact).
  destruct (sp_session _ _ _ _ _ _ _ _ Hp) as (sess & s1 & Hc & Hsid & Hs').
  pose proof (run_frame _ _ _ _ _ (create_session_on_creds _ _ _ _) Hc) as Hcreds.
  apply create_session_on_ok in Hc as (Hs & _).
  exists row, cid, cr, message. cbv zeta.
  split_and!; try done; try apply Hl; try apply Hp.
  - rewrite Hs', Hsid, (sp_device _ _ _ _ _ _ _ _ Hp). cbn. rewrite lookup_update_where, Hs, lookup_insert.
    destruct (decide _); [|done]. cbn. by rewrite bool_decide_eq_true_2 by done.
  - rewrite Hs'. cbn. rewrite lookup_update_where, Hcreds. cbn. cbn in Hcr. rewrite Hcr. cbn.
    rewrite bool_decide_eq_true_2 by done. by eexists.
Qed.
End single_use.

(** ** The signed bytes *)

Lemma append_string_inj v1 v2 x y :
  (String.length v1 <= 2048)%nat -> (String.length v2 <= 2048)%nat ->
  append_string v1 +:+ x = append_string v2 +:+ y -> v1 = v2 /\ x = y.
Proof.
  intros H1 H2. unfold append_string. rewrite !str_app_assoc. intros Heq.
  apply str_app_inj_len in Heq as [Hlen Heq]; [|by rewrite !length_be_bytes].
  rewrite !N.mod_small in Hlen by lia.
  apply be_bytes_inj in Hlen; [|change (256 ^ N.of_nat 4)%N with 4294967296%N; lia..].
  apply str_app_inj_len in Heq; [done|lia].
Qed.

Section signing.
Context `{ServerLib} `{AuthLib}.

(** [Uuid::as_bytes]: sixteen bytes, which determine the identifier. *)
Hypothesis uuid_bytes_length : forall u, is_uuid u -> String.length (uuid_bytes u) = 16.
Hypothesis uuid_bytes_inj : forall u v, is_uuid u -> is_uuid v -> uuid_bytes u = uuid_bytes v -> u = v.

(** The Rust types of the fields: UUIDs and a [u64]. *)
Record challenge_typed (c : SshChallenge) : Prop := {
  ct_device : is_uuid (sr_device_id (sch_request c));
  ct_account a : sr_account_id (sch_request c) = Some a -> is_uuid a;
  ct_id : is_uuid (sch_challenge_id c);
  ct_expires : (sch_expires_at c <= u64_max)%N
}.

Lemma signing_bytes_Some c b :
  signing_bytes c = Some b ->
  exists nonce,
    b = append_string SSH_AUTH_DOMAIN +:+ be_bytes 4 SSH_AUTH_VERSION
        +:+ append_string (sr_audience (sch_request c))
        +:+ append_string (sr_fingerprint (sch_request c))
        +:+ match sr_account_id (sch_request c) with
            | Some id => String (ascii_of_N 1) (uuid_bytes id)
            | None => String (ascii_of_N 0) ""
            end
        +:+ uuid_bytes (sr_device_id (sch_request c))
        +:+ uuid_bytes (sch_challenge_id c) +:+ nonce +:+ be_bytes 8 (sch_expires_at c)
    /\ sr_version (sch_request c) = SSH_AUTH_VERSION
    /\ String.length nonce = 32 /\ base64url_encode nonce = sch_nonce c
    /\ (String.length (sr_audience (sch_request c)) <= 2048)%nat
    /\ String.length (sr_fingerprint (sch_request c)) = 50.
Proof.
  unfold signing_bytes. destruct (_ || _) eqn:H1; [done|].
  apply orb_false_iff in H1 as [H1%negb_false_iff%Nat.eqb_eq _].
  destruct (negb (str_starts_with _ _)); [done|].
  destruct (base64_unpadded_decode _) as [digest|]; [|done]. cbn [mbind option_bind].
  destruct (base64url_decode _) as [nonce|]; [|done]. cbn [mbind option_bind].
  destruct (challenge_fields_ok _ _ _ _) eqn:Hok; [|done]. cbn [negb]. intros [= <-].
  unfold challenge_fields_ok in Hok. repeat apply andb_true_iff in Hok as [Hok ?].
  repeat match goal with
  | H : (_ =? _)%N = true |- _ => apply N.eqb_eq in H
  | H : (_ =? _)%nat = true |- _ => apply Nat.eqb_eq in H
  | H : (_ <=? _)%nat = true |- _ => apply Nat.leb_le in H
  | H : bool_decide _ = true |- _ => apply bool_decide_eq_true in H
  end.
  exists nonce. rewrite Hok. done.
Qed.

(** The signed message binds the challenge: two challenges with the same
    signing bytes are equal in every field, so a signature for one challenge,
    server, key, account, device or expiry is not one for another. *)
Lemma signing_bytes_binding c1 c2 b :
  challenge_typed c1 -> challenge_typed c2 ->
  signing_bytes c1 = Some b -> signing_bytes c2 = Some b -> c1 = c2.
Proof using uuid_bytes_length uuid_bytes_inj.
  intros T1 T2 (n1 & -> & V1 & L1 & E1 & A1 & F1)%signing_bytes_Some
    (n2 & Heq & V2 & L2 & E2 & A2 & F2)%signing_bytes_Some.
  apply append_string_inj in Heq as [_ Heq]; [|vm_compute; lia..].
  apply str_app_inj_len in Heq as [_ Heq]; [|by rewrite !length_be_bytes].
  apply append_string_inj in Heq as [Haud Heq]; [|done..].
  apply append_string_inj in Heq as [Hfp Heq]; [|lia..].
  pose proof (uuid_bytes_length _ (ct_device _ T1)) as D1. pose proof (uuid_bytes_length _ (ct_device _ T2)) as D2.
  pose proof (uuid_bytes_length _ (ct_id _ T1)) as I1. pose proof (uuid_bytes_length _ (ct_id _ T2)) as I2.
  pose proof (ct_account _ T1) as U1. pose proof (ct_account _ T2) as U2.
  assert (sr_account_id (sch_request c1) = sr_account_id (sch_request c2)
    /\ uuid_bytes (sr_device_id (sch_request c1)) +:+ uuid_bytes (sch_challenge_id c1) +:+ n1 +:+ be_bytes 8 (sch_expires_at c1)
     = uuid_bytes (sr_device_id (sch_request c2)) +:+ uuid_bytes (sch_challenge_id c2) +:+ n2 +:+ be_bytes 8 (sch_expires_at c2))
    as [Hacc Heq'].
  { destruct (sr_account_id (sch_request c1)) as [a1|], (sr_account_id (sch_request c2)) as [a2|];
      rewrite ?str_app_cons in Heq; try discriminate Heq.
    - injection Heq as Heq. pose proof (U1 _ eq_refl) as Ha1. pose proof (U2 _ eq_refl) as Ha2.
      apply str_app_inj_len in Heq as [Hb Heq]; [|by rewrite !uuid_bytes_length].
      by rewrite (uuid_bytes_inj _ _ Ha1 Ha2 Hb).
    - injection Heq as Heq. by rewrite !str_app_nil_l in Heq. }
  apply str_app_inj_len in Heq' as [Hd Heq']; [|congruence].
  apply str_app_inj_len in Heq' as [Hi Heq']; [|congruence].
  apply str_app_inj_len in Heq' as [-> Hx]; [|congruence].
  apply uuid_bytes_inj in Hd; [|apply (ct_device _ T1)|apply (ct_device _ T2)].
  apply uuid_bytes_inj in Hi; [|apply (ct_id _ T1)|apply (ct_id _ T2)].
  apply be_bytes_inj in Hx;
    [|pose proof (ct_expires _ T1); unfold u64_max in *; change (256 ^ N.of_nat 8)%N with 18446744073709551616%N; lia
     |pose proof (ct_expires _ T2); unfold u64_max in *; change (256 ^ N.of_nat 8)%N with 18446744073709551616%N; lia].
  destruct c1 as [[] ? ? ?], c2 as [[] ? ? ?]. cbn in *. congruence.
Qed.
End signing.

(** ** The middleware *)

Section middleware.
Context `{ServerLib} `{AuthLib}.

(** The middleware lets a request through only under the identity of its
    bearer token: the token belongs to a live, unexpired session whose device
    is not revoked, the injected account and device are the session's, and
    explicit target headers, when they parse, agree with them. *)
Lemma auth_middleware_sound s authorization x_account x_device ident s' :
  auth_middleware authorization x_account x_device s = (Ok ident, s') ->
  s' = s /\ exists header token k,
    authorization = Some (Some header)
    /\ (str_starts_with "Bearer " header || str_starts_with "bearer " header = true)
    /\ token = str_trim (str_drop 7 header) /\ token <> ""
    /\ aa_session_id ident = Some k
    /\ token_session s token (aa_account_id ident) (aa_device_id ident) k
    /\ (forall u, header_uuid x_account = Some u -> u = aa_account_id ident)
    /\ (forall u d, header_uuid x_device = Some u -> aa_device_id ident = Some d -> u = d).
Proof.
  unfold auth_middleware. intros Hrun. apply bind_ok_inv in Hrun as (h & s0 & Hh & Hrun).
  destruct authorization as [[h0|]|]; try discriminate. injection Hh as <- <-.
  apply bind_ok_inv in Hrun as (tok & s1 & Htok & Hrun).
  assert (s1 = s /\ tok = str_drop 7 h0
          /\ str_starts_with "Bearer " h0 || str_starts_with "bearer " h0 = true) as (-> & -> & Hpre).
  { unfold strip_prefix in Htok. destruct (str_starts_with "Bearer " h0); [by injection Htok as <- <-|].
    destruct (str_starts_with "bearer " h0); [by injection Htok as <- <-|discriminate]. }
  case_bool_decide as Hne; [discriminate|]. apply bind_ok_inv in Hrun as (aa & s2 & Haa & Hrun).
  unfold authenticate_bearer_token in Haa.
  destruct (validate_session_token _ s) as [[[[a d k| | |]|]|e] s3] eqn:Hv; try discriminate.
  injection Haa as <- <-. apply validate_inv in Hv as [-> Hts]. cbn [aa_account_id aa_device_id] in *.
  destruct (match header_uuid x_account with Some _ => _ | None => _ end) eqn:Hxa; [discriminate|].
  destruct (match header_uuid x_device with Some _ => _ | None => _ end) eqn:Hxd; [discriminate|].
  injection Hrun as <- <-. split; [done|]. exists h0, (str_trim (str_drop 7 h0)), k. cbn.
  split_and!; try done.
  - intros u Hu. rewrite Hu in Hxa. by apply bool_decide_eq_false, dec_stable in Hxa.
  - intros u d0 Hu ->. rewrite Hu in Hxd. by apply bool_decide_eq_false, dec_stable in Hxd.
Qed.
End middleware.
