(* ===== verification/ServerAuthSamples.v ===== *)
(** * Authentication on concrete requests

    An instance of the library code (identifiers of sixteen characters, a toy
    signature scheme), a run that enrols an SSH key, logs in, revokes, and the
    authentication theorems applied to it. *)

From stdpp Require Import options.
From stdpp Require Import countable.
From S2P Require Import Prelude Text Protocol StorageModels Storage CoreErrors Time Env Cursor.
From S2P Require Import ServerDb ServerSpec ServerDbFacts ServerFeed ServerTables ServerSamples.
From S2P Require Import ServerAuth ServerAuthFacts ServerAuthInv ServerAuthLogin.

Definition pad (n : nat) (s : string) : string :=
  String.substring 0 n (s +:+ "--------------------------------").

(** Sixteen characters stand for a canonical UUID. *)
#[local] Instance auth_server_lib : ServerLib := {|
  uuid_parse_str s := if (String.length s =? 16)%nat then Ok s else Err "invalid length";
  key_to_vec := @key_to_vec sample_lib; key_from_slice := @key_from_slice sample_lib;
  payload_to_vec := @payload_to_vec sample_lib; payload_from_slice := @payload_from_slice sample_lib;
  resp_to_string := @resp_to_string sample_lib; resp_from_str := @resp_from_str sample_lib;
  wvk_to_vec := @wvk_to_vec sample_lib; wvk_from_slice := @wvk_from_slice sample_lib;
  kdfp_to_string := @kdfp_to_string sample_lib; kdfp_from_str := @kdfp_from_str sample_lib;
  base64_decode_vec s := Ok s; base64_encode_string b := b;
  blake2s256 s := s
|}.

#[local] Instance ssh_challenge_countable : Countable SshChallenge.
Proof.
  apply (inj_countable'
    (fun c => (sr_version (sch_request c), sr_fingerprint (sch_request c), sr_audience (sch_request c),
               sr_account_id (sch_request c), sr_device_id (sch_request c), sch_challenge_id c,
               sch_nonce c, sch_expires_at c))
    (fun '(v, f, a, i, d, k, n, x) => mkSshChallenge (mkSshStartRequest v f a i d) k n x)).
  by intros [[]].
Defined.

(** Forty-three characters for thirty-two bytes. *)
Definition toy_encode (s : string) : string := s +:+ "0123456789A".
Definition toy_decode (s : string) : option string :=
  if (11 <=? String.length s)%nat then Some (String.substring 0 (String.length s - 11) s) else None.

#[local] Instance sample_auth_lib : AuthLib := {|
  auth_uuid n := List.nth n (map (pad 16) ["uuid0"; "uuid1"; "uuid2"; "uuid3"]) (pad 16 "uuid-later");
  uuid_bytes u := u;
  try_fill_bytes k n := Some (pad n ("rnd" +:+ show_nat k));
  base64url_encode := toy_encode; base64url_decode := toy_decode;
  base64_unpadded_encode := toy_encode; base64_unpadded_decode := toy_decode;
  datetime_now t n := Some (t + n)%Z;
  challenge_to_string := to_bits; challenge_from_str := of_bits;
  fingerprint_parses _ := true;
  PublicKey := string; from_openssh s := Some s; key_is_ed25519 _ := true;
  set_comment _ k := k; to_openssh k := Some k;
  key_fingerprint k := "SHA256:" +:+ toy_encode (pad 32 k);
  Signature := string; signature_try_from s := Some s; signature_is_ed25519 _ := true;
  verify k m sig := bool_decide (sig = k +:+ m)
|}.

Definition acc : string := "account-00000001".
Definition dev : string := "device-000000001".
Definition origin : string := "https://notes.example".
Definition sample_login : SshStartRequest :=
  mkSshStartRequest 1 ("SHA256:" +:+ toy_encode (pad 32 "key1")) origin (Some acc) dev.

(** An enrolled key, and a started login. *)
Definition enrolled : Auth := auth_step (Auth_start 1000) (OpAddSshKey acc "key1" None true).
Definition started : Auth := auth_step enrolled (OpStartSsh sample_login origin).
Definition sample_challenge : SshChallenge :=
  mkSshChallenge sample_login (pad 16 "uuid1") (toy_encode (pad 32 "rnd0")) 1120.
Definition sample_finish : SshFinishRequest :=
  mkSshFinishRequest sample_challenge
    (match signing_bytes sample_challenge with Some m => toy_encode ("key1" +:+ m) | None => "" end).
Definition sample_session : SessionResponse :=
  mkSessionResponse ("zk_sess_" +:+ toy_encode (pad 32 "rnd1")) (pad 16 "uuid2") acc (Some dev)
    (Some 4600%Z).
Definition logged_in : Auth := auth_step started (OpFinishSsh sample_finish origin).

Example start_run : (start_ssh_login sample_login origin enrolled).1 = Ok sample_challenge.
Proof. vm_compute. reflexivity. Qed.
Lemma finish_run : finish_ssh_login sample_finish origin started = (Ok sample_session, logged_in).
Proof.
  assert ((finish_ssh_login sample_finish origin started).1 = Ok sample_session) as Hr
    by (vm_compute; reflexivity).
  unfold logged_in. cbn [auth_step]. exact (run_split (finish_ssh_login sample_finish origin) started _ Hr).
Qed.

(** ** The theorems on this run *)

Lemma enrolled_wf : auth_wf (au_db enrolled).
Proof.
  unfold enrolled. apply auth_step_wf; [reflexivity|]. apply auth_wf_start.
Qed.

Lemma logged_in_wf : auth_wf (au_db logged_in).
Proof.
  unfold logged_in. apply auth_step_wf; [exact I|].
  unfold started. apply auth_step_wf; [exact I|]. apply enrolled_wf.
Qed.

Definition later_ops : list AuthOp :=
  [OpRegisterDevice acc dev None; OpCreateSession acc (Some dev) None (Some 60%Z); OpTick 5;
   OpFinishSsh sample_finish origin].

Lemma later_ops_ok : Forall op_ok later_ops.
Proof. repeat constructor. Qed.

Definition sample_device : DeviceRow :=
  mkDeviceRow (Some "SSH native client") 1000 (Some 1000%Z) 0 None.

Lemma logged_in_device : is_Some (ad_devices (au_db logged_in) !! (acc, dev)).
Proof.
  assert (ad_devices (au_db logged_in) !! (acc, dev) = Some sample_device) as H
    by (vm_compute; reflexivity).
  rewrite H. by eexists.
Qed.

Lemma revoked_device_locked_out_witness :
  (validate_session_token (sp_token sample_session)
    (auth_run later_ops (revoke_device acc dev logged_in).2)).1
  <> Ok (Some (Valid acc (Some dev) (sp_session_id sample_session))).
Proof.
  refine (proj1 (revoked_device_locked_out logged_in acc dev later_ops _) _ _).
  apply logged_in_device.
Defined.

Definition sample_row : SessionRow :=
  mkSessionRow acc (Some dev) (sp_token sample_session) (Some "SSH native client") 1000
    (Some 4600%Z) None (Some (pad 16 "uuid0")).

Lemma sample_row_stored : ad_sessions (au_db logged_in) !! sp_session_id sample_session = Some sample_row.
Proof. vm_compute. reflexivity. Qed.

Lemma revoked_session_final_witness :
  (validate_session_token (sp_token sample_session)
    (auth_run later_ops (revoke_session acc (sp_session_id sample_session) logged_in).2)).1
  <> Ok (Some (Valid acc (Some dev) (sp_session_id sample_session))).
Proof.
  apply (revoked_session_final logged_in acc (sp_session_id sample_session) sample_row later_ops).
  - apply logged_in_wf.
  - apply sample_row_stored.
  - reflexivity.
  - reflexivity.
  - apply later_ops_ok.
Defined.

Definition sample_credential : SshCredentialRow :=
  mkSshCredentialRow acc ("SHA256:" +:+ toy_encode (pad 32 "key1")) "key1" None (Some dev) None.

Lemma revoked_ssh_key_final_witness :
  is_revoked_device (auth_run later_ops (revoke_ssh_key acc (pad 16 "uuid0") logged_in).2) acc dev.
Proof.
  refine (proj2 (revoked_ssh_key_final logged_in acc (pad 16 "uuid0") sample_credential later_ops _ _ _ _)
    dev eq_refl _).
  - apply logged_in_wf.
  - vm_compute. reflexivity.
  - reflexivity.
  - apply later_ops_ok.
  - apply logged_in_device.
Defined.

Definition sample_created : Auth := (create_session acc (Some dev) None (Some 60%Z) (Auth_start 0)).2.
Definition sample_issued : AuthenticatedSession :=
  mkAuthenticatedSession (pad 16 "uuid0") acc (Some dev) None 0 (Some 60%Z) false.

Lemma fresh_session_validates_witness :
  validate_session_token ("zk_sess_" +:+ toy_encode (pad 32 "rnd0")) (tick 10 sample_created)
  = (Ok (Some (Valid acc (Some dev) (pad 16 "uuid0"))), tick 10 sample_created).
Proof.
  apply (fresh_session_validates (Auth_start 0) acc (Some dev) None (Some 60%Z) sample_issued
    ("zk_sess_" +:+ toy_encode (pad 32 "rnd0")) sample_created 10).
  - apply auth_wf_start.
  - reflexivity.
  - reflexivity.
  - intros d0 [= <-]. reflexivity.
  - vm_compute. reflexivity.
Defined.

Definition challenged : Auth :=
  (create_webauthn_challenge "c1" "bytes" None "login" 60 (Auth_start 0)).2.
Definition sample_challenge_row : WebAuthnChallengeRow := mkChallengeRow "bytes" None "login" 0 60.
Definition consumed : Auth := (consume_webauthn_challenge "c1" "login" challenged).2.

Lemma webauthn_challenge_single_use_witness :
  (consume_webauthn_challenge "c1" "login" (auth_run later_ops consumed)).1
  = Err DbE_ChallengeNotFound.
Proof.
  apply (webauthn_challenge_single_use challenged "c1" "login" sample_challenge_row consumed later_ops).
  - vm_compute. reflexivity.
  - repeat constructor.
Defined.

Lemma ssh_challenge_single_use_witness :
  (finish_ssh_login sample_finish origin (auth_run [OpTick 1] (finish_ssh_login sample_finish origin started).2)).1
  = Err DbE_ChallengeNotFound.
Proof.
  apply (ssh_challenge_single_use started sample_finish origin [OpTick 1] sample_finish origin).
  - intros n Hn. change (au_uuids started) with 2 in Hn.
    destruct n as [|[|[|[|[|n]]]]]; [lia|lia|discriminate..].
  - reflexivity.
Defined.

Lemma ssh_login_sound_witness :
  exists row, ad_ssh_challenges (au_db started) !! sch_challenge_id sample_challenge = Some row
    /\ challenge_from_str (sh_challenge_json row) = Ok sample_challenge.
Proof.
  destruct (ssh_login_sound started sample_finish origin sample_session logged_in finish_run)
    as (row & cid & cr & message & Hrow & _ & Hc & _).
  exists row. exact (conj Hrow Hc).
Defined.

(** The same challenge for another server. *)
Definition other_challenge : SshChallenge :=
  mkSshChallenge (mkSshStartRequest 1 (sr_fingerprint sample_login) "https://other.example" (Some acc) dev)
    (sch_challenge_id sample_challenge) (sch_nonce sample_challenge) 1120.

Lemma sample_typed : challenge_typed sample_challenge.
Proof. split; [reflexivity|by intros a [= <-]|reflexivity|vm_compute; discriminate]. Qed.
Lemma other_typed : challenge_typed other_challenge.
Proof. split; [reflexivity|by intros a [= <-]|reflexivity|vm_compute; discriminate]. Qed.

Lemma signing_bytes_binding_witness :
  is_Some (signing_bytes sample_challenge)
  /\ signing_bytes other_challenge <> signing_bytes sample_challenge.
Proof.
  destruct (signing_bytes sample_challenge) as [m|] eqn:Hm; [|vm_compute in Hm; discriminate].
  split; [by eexists|]. intros Heq. enough (other_challenge = sample_challenge) by discriminate.
  apply (signing_bytes_binding) with (b := m); [| |apply other_typed|apply sample_typed|exact Heq|exact Hm].
  - intros u Hu. unfold is_uuid in Hu. cbn in Hu.
    destruct (Nat.eqb_spec (String.length u) 16); [done|discriminate].
  - intros u v _ _ Huv. exact Huv.
Defined.

Lemma auth_middleware_sound_witness :
  exists k, token_session logged_in (sp_token sample_session) acc (Some dev) k.
Proof.
  destruct (auth_middleware_sound logged_in (Some (Some ("Bearer " +:+ sp_token sample_session)))
    (Some (Some acc)) None (mkAuthenticatedAccount acc (Some dev) (Some (sp_session_id sample_session)))
    logged_in) as (_ & h & tok & k & Hh & _ & Htok & _ & _ & Hts & _).
  - vm_compute. reflexivity.
  - exists k. injection Hh as <-. subst tok. exact Hts.
Defined.
