(* ===== verification/Diff3.v ===== *)
(** * Line-based three-way merge ([zk-sync/src/diff3.rs])

    [lcs_matched_pairs] and [diff3_merge].  Slices and indexing panic out of
    range in Rust; here they are [option]s, and a merge that panics is
    [None]. *)

From stdpp Require Import options.
From S2P Require Import Prelude.

(** ** Text *)

Definition newline : ascii := "010"%char.
Definition carriage_return : ascii := "013"%char.

(** [s.replace("\r\n", "\n")] *)
Fixpoint replace_crlf (s : string) : string :=
  match s with
  | EmptyString => ""
  | String c rest =>
      match rest with
      | String d rest' =>
          if bool_decide (c = carriage_return) && bool_decide (d = newline)
          then String newline (replace_crlf rest')
          else String c (replace_crlf rest)
      | EmptyString => String c ""
      end
  end.

(** [s.replace('\r', "\n")] *)
Fixpoint replace_cr (s : string) : string :=
  match s with
  | EmptyString => ""
  | String c rest => String (if bool_decide (c = carriage_return) then newline else c) (replace_cr rest)
  end.

Definition normalize (s : string) : string := replace_cr (replace_crlf s).

(** [s.split('\n').collect()] *)
Fixpoint split_lines (s : string) : list string :=
  match s with
  | EmptyString => [""]
  | String c rest =>
      if bool_decide (c = newline) then "" :: split_lines rest
      else match split_lines rest with
           | line :: more => String c line :: more
           | [] => [String c ""]
           end
  end.

(** The lines of a normalised text: none for the empty text. *)
Definition lines_of (s : string) : list string :=
  let norm := normalize s in
  if bool_decide (norm = "") then [] else split_lines norm.

(** [lines.join("\n")] *)
Definition join_lines (l : list string) : string := str_join (String newline "") l.

(** ** Longest common subsequence *)

Section lcs.
Context {A : Type} `{EqDecision A}.

(** The length of the common prefix. *)
Fixpoint prefix_len (a b : list A) : nat :=
  match a, b with
  | x :: a', y :: b' => if decide (x = y) then S (prefix_len a' b') else 0
  | _, _ => 0
  end.

(** The length of the common suffix of what follows the common prefix. *)
Definition suffix_len (a b : list A) (p : nat) : nat :=
  prefix_len (rev (drop p a)) (rev (drop p b)).

(** Row [i] of the table from row [i + 1], right to left. *)
Fixpoint dp_row (x : A) (bs : list A) (below : list nat) : list nat :=
  match bs with
  | [] => [0]
  | y :: bs' =>
      let right := dp_row x bs' (tail below) in
      (if decide (x = y) then 1 + hd 0 (tail below) else hd 0 below `max` hd 0 right) :: right
  end.

(** [dp], with its last row of zeros. *)
Fixpoint dp_table (a bs : list A) : list (list nat) :=
  match a with
  | [] => [replicate (length bs + 1) 0]
  | x :: a' => let t := dp_table a' bs in dp_row x bs (hd [] t) :: t
  end.

Definition dp_at (dp : list (list nat)) (i j : nat) : nat :=
  default 0 (row ← dp !! i; row !! j).

(** The walk through the table from [(i, j)]; [n + m] steps suffice. *)
Fixpoint walk (fuel : nat) (a_mid b_mid : list A) (dp : list (list nat)) (p i j : nat)
    : list (nat * nat) :=
  match fuel with
  | O => []
  | S fuel' =>
      match a_mid !! i, b_mid !! j with
      | Some x, Some y =>
          if decide (x = y) then (p + i, p + j) :: walk fuel' a_mid b_mid dp p (S i) (S j)
          else if (dp_at dp i (S j) <=? dp_at dp (S i) j)%nat
          then walk fuel' a_mid b_mid dp p (S i) j
          else walk fuel' a_mid b_mid dp p i (S j)
      | _, _ => []
      end
  end.

Definition mid_pairs (a_mid b_mid : list A) (p : nat) : list (nat * nat) :=
  if bool_decide (a_mid = []) || bool_decide (b_mid = []) then []
  else if (N.of_nat (length a_mid) * N.of_nat (length b_mid) <=? 4000000)%N
  then walk (length a_mid + length b_mid) a_mid b_mid (dp_table a_mid b_mid) p 0 0
  else [].

Definition lcs_matched_pairs (a b : list A) : list (nat * nat) :=
  if bool_decide (a = []) || bool_decide (b = []) then []
  else
    let p := prefix_len a b in
    let q := suffix_len a b p in
    let a_mid := take (length a - q - p) (drop p a) in
    let b_mid := take (length b - q - p) (drop p b) in
    map (fun k => (k, k)) (seq 0 p)
    ++ mid_pairs a_mid b_mid p
    ++ map (fun k => (length a - q + k, length b - q + k)) (seq 0 q).
End lcs.

(** ** Merge *)

Record BodyConflict : Type := mkBodyConflict {
  bc_base_line_start : nat;
  bc_base_lines : list string;
  bc_local_lines : list string;
  bc_remote_lines : list string
}.

#[export] Instance BodyConflict_eq_dec : EqDecision BodyConflict.
Proof. solve_decision. Defined.

Record Diff3Result : Type := mkDiff3Result {
  d3_merged_text : string;
  d3_is_clean : bool;
  d3_conflicts : list BodyConflict
}.

(** [&l[s..e]] *)
Definition slice {A} (l : list A) (s e : nat) : option (list A) :=
  if (s <=? e)%nat && (e <=? length l)%nat then Some (take (e - s) (drop s l)) else None.

Definition conflict_lines (b l r : list string) : list string :=
  "<<<<<<< LOCAL" :: l ++ "||||||| BASE" :: b ++ "=======" :: r ++ [">>>>>>> REMOTE"].

(** [process_chunk] on the three slices: the lines and conflicts it adds. *)
Definition merge_chunk (b_start : nat) (b l r : list string) : list string * list BodyConflict :=
  match bool_decide (l <> b), bool_decide (r <> b) with
  | false, false => (b, [])
  | true, false => (l, [])
  | false, true => (r, [])
  | true, true =>
      if bool_decide (l = r) then (l, [])
      else (conflict_lines b l r, [mkBodyConflict (b_start + 1) b l r])
  end.

Section merge.
Context (base_lines local_lines remote_lines : list string).

Definition process_chunk (b_start b_end l_start l_end r_start r_end : nat)
    : option (list string * list BodyConflict) :=
  chunk_base ← slice base_lines b_start b_end;
  chunk_local ← slice local_lines l_start l_end;
  chunk_remote ← slice remote_lines r_start r_end;
  Some (merge_chunk b_start chunk_base chunk_local chunk_remote).

(** [pairs_br.into_iter().collect::<HashMap<_, _>>()] *)
Definition pairs_map (pairs : list (nat * nat)) : gmap nat nat :=
  fold_left (fun m kv => <[kv.1 := kv.2]> m) pairs ∅.

Definition common_anchors (pairs_bl pairs_br : list (nat * nat)) : list (nat * nat * nat) :=
  let br_map := pairs_map pairs_br in
  omap (fun bl => r ← br_map !! bl.1; Some (bl.1, bl.2, r)) pairs_bl.

(** The loop over the anchors, and the region after the last one. *)
Fixpoint merge_regions (anchors : list (nat * nat * nat)) (prev_b prev_l prev_r : nat)
    : option (list string * list BodyConflict) :=
  match anchors with
  | [] => process_chunk prev_b (length base_lines) prev_l (length local_lines)
            prev_r (length remote_lines)
  | (b, l, r) :: rest =>
      chunk ← process_chunk prev_b b prev_l l prev_r r;
      line ← base_lines !! b;
      more ← merge_regions rest (b + 1) (l + 1) (r + 1);
      Some (chunk.1 ++ line :: more.1, chunk.2 ++ more.2)
  end.
End merge.

Definition diff3_merge (base local remote : string) : option Diff3Result :=
  if bool_decide (local = remote) then Some (mkDiff3Result local true [])
  else if bool_decide (remote = base) then Some (mkDiff3Result local true [])
  else if bool_decide (local = base) then Some (mkDiff3Result remote true [])
  else
    let base_lines := lines_of base in
    let local_lines := lines_of local in
    let remote_lines := lines_of remote in
    let pairs_bl := lcs_matched_pairs base_lines local_lines in
    let pairs_br := lcs_matched_pairs base_lines remote_lines in
    regions ← merge_regions base_lines local_lines remote_lines
                (common_anchors pairs_bl pairs_br) 0 0 0;
    Some (mkDiff3Result (join_lines regions.1) (bool_decide (regions.2 = [])) regions.2).

(** ** Theorems about the three-way merge

    The matched pairs are a common subsequence, and a longest one when the
    table is computed; a merge never panics, splits the three texts into
    regions that lose nothing, and does not depend on which side is local. *)

(** ** Common subsequences *)

Section pairs.
Context {A : Type} (a b : list A).

(** [ps] matches equal elements of [a] and [b], at increasing positions from
    [i] and [j] on. *)
Fixpoint matches (i j : nat) (ps : list (nat * nat)) : Prop :=
  match ps with
  | [] => True
  | (x, y) :: ps' =>
      i <= x /\ j <= y /\ (exists v, a !! x = Some v /\ b !! y = Some v) /\ matches (S x) (S y) ps'
  end.

Lemma matches_weaken i j i' j' ps : i' <= i -> j' <= j -> matches i j ps -> matches i' j' ps.
Proof. intros Hi Hj. destruct ps as [|[x y] ps]; cbn; [done|]. intros (?&?&?). split; [lia|]. split; [lia|done]. Qed.

(** All positions are below [n] and [m]. *)
Definition below (n m : nat) (ps : list (nat * nat)) : Prop := Forall (fun p => p.1 < n /\ p.2 < m) ps.

Lemma matches_app i j n m ps qs :
  matches i j ps -> below n m ps -> i <= n -> j <= m -> matches n m qs -> matches i j (ps ++ qs).
Proof.
  revert i j. induction ps as [|[x y] ps IH]; intros i j Hps Hb Hi Hj Hq; cbn in *.
  - by eapply matches_weaken.
  - apply Forall_cons in Hb as [[Hx Hy] Hb]. destruct Hps as (?&?&?&?).
    split_and!; [done..|]. apply IH; [done|done|cbn in *; lia|cbn in *; lia|done].
Qed.

(** A run of [n] matches along a diagonal. *)
Lemma matches_diagonal x y k n ps :
  (forall d, k <= d < k + n -> exists v, a !! (x + d) = Some v /\ b !! (y + d) = Some v) ->
  matches (x + k + n) (y + k + n) ps ->
  matches (x + k) (y + k) (map (fun d => (x + d, y + d)) (seq k n) ++ ps).
Proof.
  revert k. induction n as [|n IH]; intros k Hd Hps; cbn.
  - by rewrite !Nat.add_0_r in Hps.
  - split_and!; [done|done|apply Hd; lia|]. replace (S (x + k)) with (x + S k) by lia.
    replace (S (y + k)) with (y + S k) by lia. apply IH; [intros d Hlt; apply Hd; lia|].
    by replace (x + S k + n) with (x + k + S n) by lia; replace (y + S k + n) with (y + k + S n) by lia.
Qed.

Lemma matches_elem i j ps x y : matches i j ps -> (x, y) ∈ ps -> i <= x /\ j <= y.
Proof.
  revert i j. induction ps as [|[u v] ps IH]; intros i j Hps Hin; [by apply not_elem_of_nil in Hin|].
  destruct Hps as (?&?&?&Hps). apply elem_of_cons in Hin as [[= -> ->]|Hin]; [done|].
  destruct (IH _ _ Hps Hin). lia.
Qed.
End pairs.

(** ** The length of a longest common subsequence *)

Section lcs_len.
Context {A : Type} `{EqDecision A}.
Implicit Types a b : list A.

Fixpoint lcs_len a b : nat :=
  match a with
  | [] => 0
  | x :: a' =>
      (fix go b := match b with
       | [] => 0
       | y :: b' => if decide (x = y) then S (lcs_len a' b') else lcs_len a' b `max` go b'
       end) b
  end.

Lemma lcs_len_cons x a y b :
  lcs_len (x :: a) (y :: b)
  = if decide (x = y) then S (lcs_len a b) else lcs_len a (y :: b) `max` lcs_len (x :: a) b.
Proof. reflexivity. Qed.
Lemma lcs_len_nil_r a : lcs_len a [] = 0.
Proof. by destruct a. Qed.

Lemma lcs_len_sym a b : lcs_len a b = lcs_len b a.
Proof.
  revert b. induction a as [|x a IHa]; intros b; [by rewrite lcs_len_nil_r|].
  induction b as [|y b IHb]; [done|]. rewrite !lcs_len_cons.
  destruct (decide (x = y)) as [->|Hne].
  - rewrite decide_True by done. by rewrite IHa.
  - rewrite decide_False by done. rewrite IHb, (IHa (y :: b)). lia.
Qed.

(** Dropping one element on either side loses at most one match. *)
Lemma lcs_len_steps a :
  (forall b y, lcs_len a b <= lcs_len a (y :: b)) /\ (forall b x, lcs_len (x :: a) b <= S (lcs_len a b)).
Proof.
  induction a as [|x0 a [IH2 IH3]].
  - split; [done|]. intros b x. induction b as [|y b IHb]; [cbn; lia|]. rewrite lcs_len_cons.
    destruct (decide (x = y)); cbn in *; lia.
  - assert (forall b y, lcs_len (x0 :: a) b <= lcs_len (x0 :: a) (y :: b)) as H2.
    { intros b y. rewrite lcs_len_cons. destruct (decide (x0 = y)); [apply IH3|lia]. }
    split; [done|]. intros b x. induction b as [|y b IHb]; [rewrite lcs_len_nil_r; lia|].
    rewrite lcs_len_cons. specialize (H2 b y). destruct (decide (x = y)); lia.
Qed.

Lemma lcs_len_drop a b i j : lcs_len (drop i a) (drop j b) <= lcs_len a b.
Proof.
  transitivity (lcs_len (drop i a) b).
  - clear. revert j. induction b as [|y b IH]; intros [|j]; cbn [drop]; try done.
    etrans; [apply IH|]. apply lcs_len_steps.
  - revert i. induction a as [|x a IH]; intros [|i]; cbn [drop]; try done.
    etrans; [apply IH|]. rewrite (lcs_len_sym a), (lcs_len_sym (x :: a)). apply lcs_len_steps.
Qed.

(** No matching is longer. *)
Lemma matches_length a b i j ps : matches a b i j ps -> length ps <= lcs_len (drop i a) (drop j b).
Proof.
  revert i j. induction ps as [|[x y] ps IH]; intros i j; cbn; [lia|].
  intros (Hi & Hj & (v & Ha & Hb) & Hps). specialize (IH _ _ Hps).
  transitivity (lcs_len (drop x a) (drop y b)).
  - rewrite (drop_S _ _ _ Ha), (drop_S _ _ _ Hb), lcs_len_cons, decide_True by done. lia.
  - replace x with (i + (x - i)) by lia. replace y with (j + (y - j)) by lia.
    rewrite <- !drop_drop. apply lcs_len_drop.
Qed.

Lemma lcs_len_snoc u v x : lcs_len (u ++ [x]) (v ++ [x]) = S (lcs_len u v).
Proof.
  revert v. induction u as [|a u IHu]; intros v.
  - induction v as [|y v IHv]; cbn; [by rewrite decide_True|].
    cbn in IHv. destruct (decide (x = y)); [by destruct v|]. by rewrite IHv.
  - induction v as [|y v IHv]; cbn [app].
    + rewrite lcs_len_cons. destruct (decide (a = x)); [by rewrite !lcs_len_nil_r|].
      rewrite (lcs_len_nil_r (a :: u)). specialize (IHu []). cbn in IHu.
      rewrite IHu, !lcs_len_nil_r. lia.
    + rewrite !lcs_len_cons. destruct (decide (a = y)); [by rewrite IHu|].
      cbn [app] in *. rewrite IHv. specialize (IHu (y :: v)). cbn [app] in IHu. rewrite IHu. lia.
Qed.

Lemma lcs_len_suffix u v s : lcs_len (u ++ s) (v ++ s) = lcs_len u v + length s.
Proof.
  induction s as [|x s IH] using rev_ind; [rewrite !app_nil_r; cbn; lia|].
  rewrite !app_assoc, lcs_len_snoc, IH, length_app. cbn. lia.
Qed.

Lemma lcs_len_prefix p u v : lcs_len (p ++ u) (p ++ v) = length p + lcs_len u v.
Proof. induction p as [|x p IH]; [done|]. cbn [app]. rewrite lcs_len_cons, decide_True by done. cbn. lia. Qed.
End lcs_len.

(** ** The table *)

Section table.
Context {A : Type} `{EqDecision A}.
Implicit Types a b : list A.

(** [row] is the row of the table for the suffix [a]. *)
Definition row_of (a b : list A) (row : list nat) : Prop :=
  length row = S (length b) /\ forall j, j <= length b -> row !! j = Some (lcs_len a (drop j b)).

Lemma row_of_cons a y b d row :
  row_of a (y :: b) (d :: row) <-> d = lcs_len a (y :: b) /\ row_of a b row.
Proof.
  split.
  - intros [Hl Hr]. split; [by specialize (Hr 0 ltac:(lia)) as [= ->]|].
    split; [cbn in Hl; lia|]. intros j Hj. by specialize (Hr (S j) ltac:(cbn; lia)).
  - intros [-> [Hl Hr]]. split; [cbn; lia|]. intros [|j] Hj; [done|]. cbn in *. apply Hr. lia.
Qed.

Lemma row_of_hd a b row : row_of a b row -> hd 0 row = lcs_len a b.
Proof.
  intros [Hl Hr]. specialize (Hr 0 ltac:(lia)). destruct row; [discriminate|].
  injection Hr as ->. by rewrite drop_0.
Qed.

Lemma dp_row_ok x a b below : row_of a b below -> row_of (x :: a) b (dp_row x b below).
Proof.
  revert below. induction b as [|y b IH]; intros below Hrow.
  - split; [done|]. intros [|j] Hj; [done|cbn in Hj; lia].
  - destruct below as [|d below]; [by destruct Hrow|]. apply row_of_cons in Hrow as [-> Hrow].
    cbn [dp_row tail hd]. pose proof (IH _ Hrow) as IHr. apply row_of_cons. split; [|done].
    rewrite lcs_len_cons, (row_of_hd _ _ _ Hrow), (row_of_hd _ _ _ IHr). done.
Qed.

Lemma dp_table_ok a b i j :
  i <= length a -> j <= length b -> dp_at (dp_table a b) i j = lcs_len (drop i a) (drop j b).
Proof.
  intros Hi Hj.
  assert (forall i, i <= length a -> exists row, dp_table a b !! i = Some row /\ row_of (drop i a) b row) as Ht.
  { clear. induction a as [|x a IH]; intros i Hi.
    - destruct i as [|i]; [|cbn in Hi; lia]. exists (replicate (length b + 1) 0). split; [done|].
      split; [rewrite length_replicate; lia|]. intros j Hj. rewrite lookup_replicate_2 by lia. done.
    - destruct i as [|i]; cbn [dp_table drop lookup].
      + destruct (IH 0 ltac:(lia)) as (row & Hrow & Hr). eexists. split; [done|].
        destruct (dp_table a b) as [|r0 t]; [done|]. injection Hrow as ->. by apply dp_row_ok.
      + apply IH. cbn in Hi. lia. }
  destruct (Ht i Hi) as (row & Hrow & [_ Hr]). unfold dp_at. rewrite Hrow. cbn. by rewrite Hr.
Qed.

(** The walk matches equal elements, in order, inside the two lists. *)
Lemma walk_matches fuel a b p am bm dp i j :
  (forall k v, am !! k = Some v -> a !! (p + k) = Some v) ->
  (forall k v, bm !! k = Some v -> b !! (p + k) = Some v) ->
  matches a b (p + i) (p + j) (walk fuel am bm dp p i j)
  /\ below (p + length am) (p + length bm) (walk fuel am bm dp p i j).
Proof.
  intros Ha Hb. revert i j. induction fuel as [|fuel IH]; intros i j; cbn; [by split; [|constructor]|].
  destruct (am !! i) as [x|] eqn:Hx; [|by split; [|constructor]]. destruct (bm !! j) as [y|] eqn:Hy; [|by split; [|constructor]].
  pose proof (lookup_lt_Some _ _ _ Hx). pose proof (lookup_lt_Some _ _ _ Hy).
  destruct (decide (x = y)) as [->|_].
  - destruct (IH (S i) (S j)) as [IHm IHb]. rewrite !Nat.add_succ_r in IHm. split.
    + cbn. split_and!; [done|done|eauto|done].
    + constructor; [cbn; lia|done].
  - destruct (_ <=? _)%nat.
    + destruct (IH (S i) j) as [IHm IHb]. split; [|done]. eapply matches_weaken; [| |exact IHm]; lia.
    + destruct (IH i (S j)) as [IHm IHb]. split; [|done]. eapply matches_weaken; [| |exact IHm]; lia.
Qed.

(** With the table it is as long as a longest common subsequence. *)
Lemma walk_length fuel a b p i j :
  (length a - i) + (length b - j) <= fuel ->
  length (walk fuel a b (dp_table a b) p i j) = lcs_len (drop i a) (drop j b).
Proof.
  revert i j. induction fuel as [|fuel IH]; intros i j Hf; cbn [walk].
  - rewrite (drop_ge a) by lia. done.
  - destruct (a !! i) as [x|] eqn:Hx; [|apply lookup_ge_None in Hx; by rewrite (drop_ge a) by lia].
    destruct (b !! j) as [y|] eqn:Hy;
      [|apply lookup_ge_None in Hy; rewrite (drop_ge b) by lia; by rewrite lcs_len_nil_r].
    pose proof (lookup_lt_Some _ _ _ Hx). pose proof (lookup_lt_Some _ _ _ Hy).
    rewrite (drop_S _ _ _ Hx), (drop_S _ _ _ Hy), lcs_len_cons.
    destruct (decide (x = y)); [cbn; f_equal; apply IH; lia|].
    rewrite !dp_table_ok, <- (drop_S _ _ _ Hx), <- (drop_S _ _ _ Hy) by lia.
    destruct (Nat.leb_spec (lcs_len (drop i a) (drop (S j) b)) (lcs_len (drop (S i) a) (drop j b)));
      rewrite IH by lia; lia.
Qed.

(** ** Common prefix and suffix *)

Lemma prefix_len_ok a b :
  take (prefix_len a b) a = take (prefix_len a b) b
  /\ prefix_len a b <= length a /\ prefix_len a b <= length b.
Proof.
  revert b. induction a as [|x a IH]; intros [|y b]; cbn; try (split; [done|lia]).
  destruct (decide (x = y)) as [->|]; cbn; [|split; [done|lia]].
  destruct (IH b) as (-> & ? & ?). split; [done|lia].
Qed.

(** The two lists share a prefix, then a middle part, then a suffix. *)
Lemma trim_ok a b :
  let p := prefix_len a b in
  let q := suffix_len a b p in
  exists pre suf,
    a = pre ++ take (length a - q - p) (drop p a) ++ suf
    /\ b = pre ++ take (length b - q - p) (drop p b) ++ suf
    /\ length pre = p /\ length suf = q /\ p + q <= length a /\ p + q <= length b.
Proof.
  intros p q. destruct (prefix_len_ok a b) as (Hpre & Ha & Hb). fold p in Hpre, Ha, Hb.
  destruct (prefix_len_ok (rev (drop p a)) (rev (drop p b))) as (Hsuf & Ha' & Hb').
  fold (suffix_len a b p) in Hsuf, Ha', Hb'. fold q in Hsuf, Ha', Hb'.
  rewrite !length_rev, !length_drop in Ha', Hb'.
  assert (forall l : list A, q <= length l - p ->
    rev (take q (rev (drop p l))) = drop (length l - q - p) (drop p l)) as Hrev.
  { intros l Hq. rewrite firstn_rev, rev_involutive, length_drop. f_equal. lia. }
  exists (take p a), (drop (length a - q - p) (drop p a)).
  split_and!; try lia.
  - by rewrite !take_drop.
  - rewrite Hpre, <- (Hrev a) by lia. rewrite Hsuf, (Hrev b) by lia. by rewrite !take_drop.
  - rewrite length_take. lia.
  - rewrite !length_drop. lia.
Qed.

Lemma lookup_mid (pre mid suf : list A) k v :
  mid !! k = Some v -> (pre ++ mid ++ suf) !! (length pre + k) = Some v.
Proof. intros Hk. rewrite lookup_app_r by lia. replace (length pre + k - length pre) with k by lia. by apply lookup_app_l_Some. Qed.

Lemma matches_mid (pre am bm suf : list A) :
  let ps := mid_pairs am bm (length pre) in
  matches (pre ++ am ++ suf) (pre ++ bm ++ suf) (length pre) (length pre) ps
  /\ below (length pre + length am) (length pre + length bm) ps
  /\ ((N.of_nat (length am) * N.of_nat (length bm) <= 4000000)%N -> length ps = lcs_len am bm).
Proof.
  cbv zeta. unfold mid_pairs. destruct (_ || _) eqn:Hempty.
  - split_and!; [done|constructor|]. intros _. apply orb_true_iff in Hempty as [E|E]; apply bool_decide_eq_true in E as ->;
      by rewrite ?lcs_len_nil_r.
  - destruct (N.leb_spec (N.of_nat (length am) * N.of_nat (length bm)) 4000000).
    + destruct (walk_matches (length am + length bm) (pre ++ am ++ suf) (pre ++ bm ++ suf) (length pre)
        am bm (dp_table am bm) 0 0) as [Hm Hb]; [intros; by apply lookup_mid..|].
      rewrite Nat.add_0_r in Hm. split_and!; [done|done|]. intros _. rewrite walk_length by lia. done.
    + split_and!; [done|constructor|lia].
Qed.

Lemma lcs_matched_pairs_ok a b :
  matches a b 0 0 (lcs_matched_pairs a b)
  /\ ((N.of_nat (length a) * N.of_nat (length b) <= 4000000)%N ->
      forall ps, matches a b 0 0 ps -> length ps <= length (lcs_matched_pairs a b)).
Proof.
  unfold lcs_matched_pairs. destruct (_ || _) eqn:Hempty.
  { split; [done|]. intros _ ps Hps%matches_length. rewrite !drop_0 in Hps.
    apply orb_true_iff in Hempty as [E|E]; apply bool_decide_eq_true in E as ->;
      rewrite ?lcs_len_nil_r in Hps; cbn in *; lia. }
  pose proof (trim_ok a b) as Htrim. cbv zeta in Htrim |- *.
  set (p := prefix_len a b) in *. set (q := suffix_len a b p) in *.
  destruct Htrim as (pre & suf & Ha & Hb & Hp & Hq & Hla & Hlb).
  set (am := take _ (drop p a)) in *. set (bm := take _ (drop p b)) in *.
  destruct (matches_mid pre am bm suf) as (Hm & Hbel & Hlen). rewrite Hp in *. rewrite <- Ha, <- Hb in Hm.
  assert (length a = p + length am + q) as La by (rewrite Ha, !length_app; lia).
  assert (length b = p + length bm + q) as Lb by (rewrite Hb, !length_app; lia).
  split.
  - apply (matches_diagonal a b 0 0 0 p).
    { intros d Hd. cbn. destruct (lookup_lt_is_Some_2 pre d) as [v Hv]; [lia|].
      exists v. rewrite Ha, Hb. split; by apply lookup_app_l_Some. }
    apply (matches_app a b p p (p + length am) (p + length bm)); [done|done|lia|lia|].
    pose proof (matches_diagonal a b (length a - q) (length b - q) 0 q []) as Hd.
    rewrite app_nil_r, !Nat.add_0_r in Hd.
    replace (p + length am) with (length a - q) by lia. replace (p + length bm) with (length b - q) by lia.
    apply Hd; [|done]. intros d Hd'. destruct (lookup_lt_is_Some_2 suf d) as [v Hv]; [lia|]. exists v.
    split.
    + rewrite Ha at 2. rewrite app_assoc, lookup_app_r by (rewrite length_app; lia).
      rewrite length_app. by replace (length a - q + d - (length pre + length am)) with d by lia.
    + rewrite Hb at 2. rewrite app_assoc, lookup_app_r by (rewrite length_app; lia).
      rewrite length_app. by replace (length b - q + d - (length pre + length bm)) with d by lia.
  - intros Hsmall ps Hps%matches_length. rewrite !drop_0 in Hps. etrans; [exact Hps|].
    rewrite !length_app, !length_map, !length_seq, Hlen by nia.
    rewrite Ha, Hb, lcs_len_prefix, lcs_len_suffix. lia.
Qed.

(** The matched line pairs are a common subsequence of the two texts: at
    strictly increasing positions, of equal lines; and when the table is
    small enough to be computed, no common subsequence is longer. *)
Lemma lcs_matched_pairs_longest a b :
  matches a b 0 0 (lcs_matched_pairs a b)
  /\ ((N.of_nat (length a) * N.of_nat (length b) <= 4000000)%N ->
      forall ps, matches a b 0 0 ps -> length ps <= length (lcs_matched_pairs a b)).
Proof. apply lcs_matched_pairs_ok. Qed.
End table.

(** ** Anchors *)

Lemma elem_of_matches {A} (a b : list A) i j ps x y :
  matches a b i j ps -> (x, y) ∈ ps -> exists v, a !! x = Some v /\ b !! y = Some v.
Proof.
  revert i j. induction ps as [|[u v] ps IH]; intros i j Hps Hin; [by apply not_elem_of_nil in Hin|].
  destruct Hps as (_&_&Hv&Hps). apply elem_of_cons in Hin as [[= -> ->]|Hin]; eauto.
Qed.

Lemma matches_sorted {A} (a b : list A) i j ps :
  matches a b i j ps -> StronglySorted (fun p q => p.1 < q.1 /\ p.2 < q.2) ps.
Proof.
  revert i j. induction ps as [|[x y] ps IH]; intros i j; [constructor|]. intros (_&_&_&Hps).
  constructor; [by eapply IH|]. apply Forall_forall. intros [u v] Hin. cbn.
  destruct (matches_elem _ _ _ _ _ _ _ Hps Hin). lia.
Qed.

Lemma sorted_pairs_mono ps x y x' y' :
  StronglySorted (fun p q : nat * nat => p.1 < q.1 /\ p.2 < q.2) ps ->
  (x, y) ∈ ps -> (x', y') ∈ ps -> (x < x' -> y < y') /\ (x = x' -> y = y').
Proof.
  induction 1 as [|[u v] ps Hs IH Hall]; intros Hin Hin'; [by apply not_elem_of_nil in Hin|].
  rewrite Forall_forall in Hall.
  apply elem_of_cons in Hin as [[= -> ->]|Hin]; apply elem_of_cons in Hin' as [[= -> ->]|Hin'].
  - lia.
  - specialize (Hall _ Hin'). cbn in Hall. lia.
  - specialize (Hall _ Hin). cbn in Hall. lia.
  - by apply IH.
Qed.

Lemma pairs_map_Some ps b r :
  StronglySorted (fun p q : nat * nat => p.1 < q.1 /\ p.2 < q.2) ps ->
  pairs_map ps !! b = Some r <-> (b, r) ∈ ps.
Proof.
  intros Hs. unfold pairs_map.
  enough (forall m : gmap nat nat, (forall k v v', m !! k = Some v -> (k, v') ∈ ps -> False) ->
    fold_left (fun m kv => <[kv.1 := kv.2]> m) ps m !! b = Some r <-> m !! b = Some r \/ (b, r) ∈ ps) as Hgen.
  { rewrite Hgen by (intros k v v'; by rewrite lookup_empty). rewrite lookup_empty. naive_solver. }
  induction Hs as [|[x y] ps Hs IH Hall]; intros m Hm; cbn [fold_left].
  - split; [by left|]. by intros [?|?%not_elem_of_nil].
  - rewrite Forall_forall in Hall. rewrite IH.
    + cbn [fst snd]. destruct (decide (x = b)) as [->|Hne].
      * rewrite lookup_insert_eq, elem_of_cons. split.
        { intros [[= ->]|Hin]; [by right; left|by right; right]. }
        { intros [Hb|[[= ->]|Hin]]; [|by left|by right]. destruct (Hm _ _ y Hb). by left. }
      * rewrite lookup_insert_ne, elem_of_cons by done. split; [tauto|].
        intros [?|[[= -> ->]|?]]; [by left|done|by right].
    + intros k v v' Hk Hin. cbn [fst snd] in Hk. apply lookup_insert_Some in Hk as [[<- _]|[_ Hk]].
      * specialize (Hall _ Hin). cbn in Hall. lia.
      * apply (Hm _ _ v' Hk). by right.
Qed.

Section anchors.
Context (base local remote : list string).

(** Lines of the base kept by both sides, in order. *)
Fixpoint anchored (i j k : nat) (l : list (nat * nat * nat)) : Prop :=
  match l with
  | [] => True
  | (x, y, z) :: l' =>
      i <= x /\ j <= y /\ k <= z
      /\ (exists v, base !! x = Some v /\ local !! y = Some v /\ remote !! z = Some v)
      /\ anchored (S x) (S y) (S z) l'
  end.

Lemma common_anchors_from bl br i j k :
  matches base local i j bl -> matches base remote 0 0 br ->
  (forall b r, pairs_map br !! b = Some r -> i <= b -> k <= r) ->
  anchored i j k (common_anchors bl br).
Proof.
  intros Hbl Hbr. pose proof (matches_sorted _ _ _ _ _ Hbr) as Hs. unfold common_anchors.
  revert i j k Hbl. induction bl as [|[b l] bl IH]; intros i j k Hbl Hk; [done|].
  destruct Hbl as (Hi & Hj & (v & Hvb & Hvl) & Hbl). cbn [omap list_omap fst snd].
  destruct (pairs_map br !! b) as [r|] eqn:Hr; cbn [mbind option_bind].
  - split; [done|]. split; [done|]. split; [by eapply Hk|]. pose proof Hr as Hin.
    apply pairs_map_Some in Hin; [|done]. split.
    + destruct (elem_of_matches _ _ _ _ _ _ _ Hbr Hin) as (v' & Hb' & Hr'). exists v.
      split_and!; [done|done|congruence].
    + apply IH; [done|]. intros b' r' Hb' Hlt. apply pairs_map_Some in Hb'; [|done].
      destruct (sorted_pairs_mono _ _ _ _ _ Hs Hin Hb') as [Hmono _]. apply Hmono. lia.
  - assert (anchored (S b) (S l) k (omap (fun bl0 => r ← pairs_map br !! bl0.1; Some (bl0.1, bl0.2, r)) bl))
      as Hrest by (apply IH; [done|]; intros b' r' Hb' Hlt; eapply Hk; [done|lia]).
    revert Hrest. destruct (omap _ bl) as [|[[x y] z] rest]; [done|].
    cbn. intros (?&?&?&?). split; [lia|]. split; [lia|done].
Qed.

Lemma common_anchors_ok bl br :
  matches base local 0 0 bl -> matches base remote 0 0 br -> anchored 0 0 0 (common_anchors bl br).
Proof. intros Hbl Hbr. apply common_anchors_from; [done|done|lia]. Qed.
End anchors.

(** ** Regions *)

(** A merge as a sequence of regions: a line all three share, or a chunk of
    each side. *)
Inductive Region : Type :=
| Anchor (line : string)
| Chunk (b l r : list string).

Definition base_part (g : Region) : list string := match g with Anchor x => [x] | Chunk b _ _ => b end.
Definition local_part (g : Region) : list string := match g with Anchor x => [x] | Chunk _ l _ => l end.
Definition remote_part (g : Region) : list string := match g with Anchor x => [x] | Chunk _ _ r => r end.

(** The three-way rule: a side that did not change yields to the other, equal
    changes are taken once, and diverging ones are all kept, marked. *)
Definition merged_part (g : Region) : list string :=
  match g with
  | Anchor x => [x]
  | Chunk b l r =>
      if bool_decide (l = b) then r
      else if bool_decide (r = b) then l
      else if bool_decide (l = r) then l
      else conflict_lines b l r
  end.

Definition diverges (g : Region) : bool :=
  match g with
  | Anchor _ => false
  | Chunk b l r => bool_decide (l <> b) && bool_decide (r <> b) && bool_decide (l <> r)
  end.

Fixpoint conflicts_from (start : nat) (gs : list Region) : list BodyConflict :=
  match gs with
  | [] => []
  | g :: gs' =>
      (if diverges g then [mkBodyConflict (start + 1) (base_part g) (local_part g) (remote_part g)] else [])
      ++ conflicts_from (start + length (base_part g)) gs'
  end.

Lemma merge_chunk_region start b l r :
  merge_chunk start b l r
  = (merged_part (Chunk b l r), conflicts_from start [Chunk b l r]).
Proof.
  unfold merge_chunk. cbn [merged_part conflicts_from diverges base_part local_part remote_part].
  repeat case_bool_decide; subst; cbn; try done; rewrite ?app_nil_r; try done; congruence.
Qed.

Lemma slice_ok {A} (l : list A) s e : s <= e -> e <= length l -> slice l s e = Some (take (e - s) (drop s l)).
Proof. intros Hs He. unfold slice. by rewrite (proj2 (Nat.leb_le _ _) Hs), (proj2 (Nat.leb_le _ _) He). Qed.

Lemma drop_split {A} (l : list A) s e x :
  s <= e -> l !! e = Some x -> drop s l = take (e - s) (drop s l) ++ x :: drop (S e) l.
Proof.
  intros Hs He. rewrite <- (take_drop (e - s) (drop s l)) at 1. f_equal.
  rewrite drop_drop. replace (s + (e - s)) with e by lia. by apply drop_S.
Qed.

Section regions.
Context (base local remote : list string).

(** Never out of range, and the regions cover the rest of the three texts. *)
Lemma merge_regions_ok anchors i j k :
  anchored base local remote i j k anchors ->
  i <= length base -> j <= length local -> k <= length remote ->
  exists gs,
    merge_regions base local remote anchors i j k = Some (concat (map merged_part gs), conflicts_from i gs)
    /\ drop i base = concat (map base_part gs)
    /\ drop j local = concat (map local_part gs)
    /\ drop k remote = concat (map remote_part gs).
Proof.
  revert i j k. induction anchors as [|[[x y] z] rest IH]; intros i j k Han Hi Hj Hk; cbn [merge_regions].
  - unfold process_chunk. rewrite !slice_ok by lia. cbn [mbind option_bind].
    rewrite !take_ge by (rewrite length_drop; lia).
    exists [Chunk (drop i base) (drop j local) (drop k remote)]. rewrite merge_chunk_region.
    cbn [map concat base_part local_part remote_part]. by rewrite !app_nil_r.
  - destruct Han as (Hx & Hy & Hz & (v & Hvx & Hvy & Hvz) & Han).
    pose proof (lookup_lt_Some _ _ _ Hvx). pose proof (lookup_lt_Some _ _ _ Hvy).
    pose proof (lookup_lt_Some _ _ _ Hvz).
    destruct (IH (S x) (S y) (S z) Han) as (gs & Hrun & Hb & Hl & Hr); [lia..|].
    unfold process_chunk. rewrite !slice_ok by lia. cbn [mbind option_bind]. rewrite Hvx. cbn [mbind option_bind].
    rewrite !Nat.add_1_r, Hrun. cbn [mbind option_bind]. rewrite merge_chunk_region.
    set (cb := take (x - i) (drop i base)). set (cl := take (y - j) (drop j local)).
    set (cr := take (z - k) (drop k remote)).
    exists (Chunk cb cl cr :: Anchor v :: gs). split_and!.
    + cbn [fst snd map concat]. f_equal. f_equal.
      cbn [conflicts_from base_part]. rewrite app_nil_r. f_equal. cbn [diverges app length].
      replace (i + length cb + 1) with (S x); [done|]. unfold cb. rewrite length_take, length_drop. lia.
    + cbn [map concat base_part app]. rewrite <- Hb. by apply drop_split.
    + cbn [map concat local_part app]. rewrite <- Hl. by apply drop_split.
    + cbn [map concat remote_part app]. rewrite <- Hr. by apply drop_split.
Qed.
End regions.

(** C32. The merge loses nothing.  On texts that differ pairwise it returns (no
    slice or index is out of range), and there is a split of the three texts
    into regions, shared lines and chunks, whose parts put together are
    exactly the lines of the base, of the local and of the remote text, such
    that the merged text is the regions merged by the three-way rule, and the
    conflicts are exactly the regions where both sides changed differently,
    each with its three versions and its line in the base; the merge is clean
    when there is none. *)
Theorem diff3_loses_nothing base local remote :
  local <> remote -> remote <> base -> local <> base ->
  exists gs res, diff3_merge base local remote = Some res
    /\ lines_of base = concat (map base_part gs)
    /\ lines_of local = concat (map local_part gs)
    /\ lines_of remote = concat (map remote_part gs)
    /\ d3_merged_text res = join_lines (concat (map merged_part gs))
    /\ d3_conflicts res = conflicts_from 0 gs
    /\ (d3_is_clean res = true <-> Forall (fun g => diverges g = false) gs).
Proof.
  intros H1 H2 H3. unfold diff3_merge. rewrite !bool_decide_eq_false_2 by done. cbv zeta.
  destruct (lcs_matched_pairs_ok (lines_of base) (lines_of local)) as [Hbl _].
  destruct (lcs_matched_pairs_ok (lines_of base) (lines_of remote)) as [Hbr _].
  destruct (merge_regions_ok _ _ _ _ 0 0 0 (common_anchors_ok _ _ _ _ _ Hbl Hbr)) as (gs & -> & Hb & Hl & Hr);
    [lia..|].
  rewrite !drop_0 in *. eexists gs, _. split_and!; [reflexivity|done|done|done|done|done|]. cbn.
  rewrite bool_decide_eq_true. clear. generalize 0. induction gs as [|g gs IH]; intros n; [by split|].
  cbn [conflicts_from]. rewrite Forall_cons. destruct (diverges g); cbn [app].
  - split; [done|]. by intros [? _].
  - rewrite IH. naive_solver.
Qed.

(** ** Swapping the sides *)

Definition swap3 (t : nat * nat * nat) : nat * nat * nat := (t.1.1, t.2, t.1.2).
Definition swap_conflict (c : BodyConflict) : BodyConflict :=
  mkBodyConflict (bc_base_line_start c) (bc_base_lines c) (bc_remote_lines c) (bc_local_lines c).

Lemma elem_of_common_anchors {A} (base local remote : list A) bl br b l r :
  matches base local 0 0 bl -> matches base remote 0 0 br ->
  (b, l, r) ∈ common_anchors bl br <-> (b, l) ∈ bl /\ (b, r) ∈ br.
Proof.
  intros Hbl Hbr. unfold common_anchors. rewrite list_elem_of_omap.
  pose proof (matches_sorted _ _ _ _ _ Hbr) as Hs. split.
  - intros ([b' l'] & Hin & Heq). cbn in Heq. destruct (pairs_map br !! b') as [r'|] eqn:Hr; [|done].
    injection Heq as -> -> ->. split; [done|]. by apply pairs_map_Some.
  - intros [Hin Hr]. exists (b, l). split; [done|]. cbn. apply pairs_map_Some in Hr; [|done]. by rewrite Hr.
Qed.

Lemma anchored_sorted base local remote i j k l :
  anchored base local remote i j k l ->
  StronglySorted (fun s t : nat * nat * nat => s.1.1 < t.1.1) l
  /\ Forall (fun t => i <= t.1.1) l.
Proof.
  revert i j k. induction l as [|[[x y] z] l IH]; intros i j k; [split; constructor|].
  intros (Hi & _ & _ & _ & Hl). destruct (IH _ _ _ Hl) as [Hs Hf]. split; constructor; try done.
  all: eapply Forall_impl; [exact Hf|]; cbn; lia.
Qed.

Lemma common_anchors_swap (base local remote : list string) bl br :
  matches base local 0 0 bl -> matches base remote 0 0 br ->
  common_anchors br bl = map swap3 (common_anchors bl br).
Proof.
  intros Hbl Hbr.
  destruct (anchored_sorted _ _ _ _ _ _ _ (common_anchors_ok _ _ _ _ _ Hbl Hbr)) as [Hs1 _].
  destruct (anchored_sorted _ _ _ _ _ _ _ (common_anchors_ok _ _ _ _ _ Hbr Hbl)) as [Hs2 _].
  assert (StronglySorted (fun s t : nat * nat * nat => s.1.1 < t.1.1) (map swap3 (common_anchors bl br))) as Hs3.
  { clear -Hs1. induction Hs1 as [|t l Hl IH Hf]; cbn; [constructor|]. constructor; [done|].
    apply Forall_map. eapply Forall_impl; [exact Hf|]. by intros [[] ]. }
  assert (forall l, StronglySorted (fun s t : nat * nat * nat => s.1.1 < t.1.1) l -> NoDup l) as Hnd.
  { induction 1 as [|t l Hl IH Hf]; constructor; [|done]. intros Hin.
    rewrite Forall_forall in Hf. specialize (Hf _ Hin). lia. }
  eapply StronglySorted_unique_strong; [|exact Hs2|exact Hs3|].
  - intros x1 x2 _ _ Hlt Hgt. cbn in *. lia.
  - apply NoDup_Permutation; [by apply Hnd|by apply Hnd|]. intros [[b r] l].
    rewrite (elem_of_common_anchors _ _ _ _ _ _ _ _ Hbr Hbl), list_elem_of_fmap. split.
    + intros [Hr Hl]. exists (b, l, r). split; [done|].
      by apply (elem_of_common_anchors _ _ _ _ _ _ _ _ Hbl Hbr).
    + intros ([[b' l'] r'] & Heq & Hin). injection Heq as -> -> ->.
      apply (elem_of_common_anchors _ _ _ _ _ _ _ _ Hbl Hbr) in Hin. tauto.
Qed.

(** Merging a swapped chunk: the same lines unless it is a conflict. *)
Definition swap_merge (m m' : list string * list BodyConflict) : Prop :=
  m'.2 = map swap_conflict m.2 /\ (m.2 = [] -> m'.1 = m.1).

Lemma merge_chunk_swap start b l r :
  swap_merge (merge_chunk start b l r) (merge_chunk start b r l).
Proof. unfold merge_chunk, swap_merge. repeat case_bool_decide; subst; cbn; try done; naive_solver. Qed.

Lemma merge_regions_swap base local remote anchors i j k :
  option_Forall2 swap_merge (merge_regions base local remote anchors i j k)
    (merge_regions base remote local (map swap3 anchors) i k j).
Proof.
  revert i j k. induction anchors as [|[[x y] z] rest IH]; intros i j k; cbn [map swap3 merge_regions].
  - unfold process_chunk. destruct (slice base _ _); [|constructor]. cbn [mbind option_bind].
    destruct (slice local _ _), (slice remote _ _); cbn [mbind option_bind]; constructor.
    apply merge_chunk_swap.
  - cbn [fst snd]. unfold process_chunk. destruct (slice base _ _); [|constructor]. cbn [mbind option_bind].
    destruct (slice local _ _), (slice remote _ _); cbn [mbind option_bind]; try constructor.
    destruct (base !! x); cbn [mbind option_bind]; [|constructor].
    specialize (IH (x + 1) (y + 1) (z + 1)). destruct IH as [m m' [Hc Hl]|]; cbn [mbind option_bind]; constructor.
    destruct (merge_chunk_swap i l l0 l1) as [Hc1 Hl1]. split; cbn [fst snd].
    + by rewrite Hc, Hc1, map_app.
    + intros [E1 E2]%app_eq_nil. by rewrite (Hl E2), (Hl1 E1).
Qed.

(** The merge does not depend on which client is local: with the sides
    swapped it is clean exactly when it was, its conflicts are the same with
    their sides swapped, and a clean merge yields the same text, so two
    clients that merge each other's edits converge. *)
Lemma diff3_symmetric base local remote :
  exists res res', diff3_merge base local remote = Some res
    /\ diff3_merge base remote local = Some res'
    /\ d3_is_clean res' = d3_is_clean res
    /\ d3_conflicts res' = map swap_conflict (d3_conflicts res)
    /\ (d3_is_clean res = true -> d3_merged_text res' = d3_merged_text res).
Proof.
  unfold diff3_merge. rewrite (bool_decide_ext (remote = local) (local = remote)) by (by split).
  case_bool_decide as E1; [subst; by eexists _, _|].
  case_bool_decide as E2; [subst; rewrite bool_decide_eq_false_2 by congruence; by eexists _, _|].
  case_bool_decide as E3; [by eexists _, _|]. cbv zeta.
  destruct (lcs_matched_pairs_ok (lines_of base) (lines_of local)) as [Hbl _].
  destruct (lcs_matched_pairs_ok (lines_of base) (lines_of remote)) as [Hbr _].
  destruct (merge_regions_ok _ _ _ _ 0 0 0 (common_anchors_ok _ _ _ _ _ Hbl Hbr)) as (gs & Hrun & _);
    [lia..|].
  rewrite (common_anchors_swap _ _ _ _ _ Hbl Hbr).
  pose proof (merge_regions_swap (lines_of base) (lines_of local) (lines_of remote)
    (common_anchors (lcs_matched_pairs (lines_of base) (lines_of local))
       (lcs_matched_pairs (lines_of base) (lines_of remote))) 0 0 0) as Hswap.
  rewrite Hrun in *. inversion Hswap as [m m' [Hc Hl] E E'|]; subst. cbn [mbind option_bind].
  eexists _, _. split_and!; [done|done| |done|]; cbn in *.
  - rewrite Hc. apply bool_decide_ext. destruct (conflicts_from 0 gs); done.
  - intros Hcl%bool_decide_eq_true. by rewrite (Hl Hcl).
Qed.

(** ** Examples *)

Definition sample_base : string := join_lines ["a"; "b"; "c"; "d"].
Definition sample_left : string := join_lines ["a"; "B"; "c"; "d"].
Definition sample_right : string := join_lines ["a"; "b"; "c"; "d"; "e"].

Example clean_merge_example :
  diff3_merge sample_base sample_left sample_right
  = Some (mkDiff3Result (join_lines ["a"; "B"; "c"; "d"; "e"]) true []).
Proof. vm_compute. reflexivity. Qed.

Example conflict_example :
  (fun r => (d3_is_clean r, d3_conflicts r)) <$> diff3_merge sample_base sample_left (join_lines ["a"; "X"; "c"; "d"])
  = Some (false, [mkBodyConflict 2 ["b"] ["B"] ["X"]]).
Proof. vm_compute. reflexivity. Qed.

Lemma diff3_loses_nothing_witness :
  exists gs res, diff3_merge sample_base sample_left sample_right = Some res
    /\ lines_of sample_left = concat (map local_part gs)
    /\ d3_merged_text res = join_lines (concat (map merged_part gs)).
Proof.
  destruct (diff3_loses_nothing sample_base sample_left sample_right)
    as (gs & res & Hrun & _ & Hl & _ & Hm & _); [discriminate..|].
  exists gs, res. exact (conj Hrun (conj Hl Hm)).
Defined.
