(* ===== verification/Crypto.v ===== *)
(** * Encrypted envelopes ([zk-crypto/src/object.rs], [keys.rs])

    Object keys are wrapped under the vault key, payloads encrypted under the
    object key, both with the envelope's metadata as associated data.  The
    AEAD, base64 and the CSPRNG are library code: the class [CryptoLib], with
    what the code relies on in [CryptoLaws].  A computation counts how often
    it drew random bytes. *)

From stdpp Require Import options.
From S2P Require Import Prelude Protocol StorageModels Storage CoreErrors Time Env.

Definition KEY_LEN : nat := 32.
Definition NONCE_LEN : nat := 24.
Definition TAG_LEN : nat := 16.

(** [XChaCha20Poly1305] with a key, nonce and associated data; errors carry
    their text. *)
Class CryptoLib : Type := {
  aead_encrypt : string -> string -> string -> string -> Result string string;
  aead_decrypt : string -> string -> string -> string -> option string;
  b64_encode : string -> string;
  b64_decode : string -> Result string string
}.

(** A length [XChaCha20Poly1305] takes (its own bound is 64 times this). *)
Definition AEAD_MAX_LEN : N := 4294967296.

Class CryptoLaws `{CryptoLib} `{Env} : Prop := {
  aead_total k n ad m : String.length k = KEY_LEN -> String.length n = NONCE_LEN ->
    (N.of_nat (String.length m) <= AEAD_MAX_LEN)%N -> exists c, aead_encrypt k n ad m = Ok c;
  aead_roundtrip k n ad m c : aead_encrypt k n ad m = Ok c -> aead_decrypt k n ad c = Some m;
  aead_length k n ad m c : aead_encrypt k n ad m = Ok c -> String.length c = String.length m + TAG_LEN;
  b64_roundtrip s : b64_decode (b64_encode s) = Ok s;
  random_bytes_length i n : String.length (random_bytes i n) = n
}.

Section object.
Context `{CryptoLib} `{Env}.
Abbreviation R A := (M nat CryptoError A).

(** [rng.fill_bytes(&mut [0u8; n])] *)
Definition fill_random (n : nat) : R string := fun i => (Ok (random_bytes i n), S i).

(** [ObjectKey::from_slice] *)
Definition key_from_bytes (bytes : string) : Result string CryptoError :=
  if (String.length bytes =? KEY_LEN)%nat then Ok bytes
  else Err (InvalidKeyLength KEY_LEN (String.length bytes)).

Definition build_aad (envelope_version : N) (object_id : string) (object_kind : N) : string :=
  "zk-envelope-aad:" +:+ be_bytes 4 envelope_version +:+ ":" +:+ object_id +:+ ":"
  +:+ be_bytes 2 object_kind.

(** [wrap_object_key_with_rng] and [encrypt_object_payload_with_rng]: a fresh
    nonce, then the ciphertext, both in base64. *)
Definition seal (key msg : string) (envelope_version : N) (object_id : string) (object_kind : N)
    : R (string * string) :=
  nonce_bytes ← fill_random NONCE_LEN;
  let aad := build_aad envelope_version object_id object_kind in
  ciphertext ← lift_result (result_map_err AeadFailure (aead_encrypt key nonce_bytes aad msg));
  mret (b64_encode nonce_bytes, b64_encode ciphertext).

(** [unwrap_object_key] up to the key, and [decrypt_object_payload]. *)
Definition open (nonce ciphertext key : string) (envelope_version : N) (object_id : string)
    (object_kind : N) : Result string CryptoError :=
  nonce_bytes ← result_map_err (fun e => InvalidEncoding ("invalid nonce base64: " +:+ e))
                  (b64_decode nonce);
  if negb (String.length nonce_bytes =? NONCE_LEN)%nat
  then Err (InvalidKeyLength NONCE_LEN (String.length nonce_bytes))
  else
    ciphertext ← result_map_err (fun e => InvalidEncoding ("invalid ciphertext base64: " +:+ e))
                   (b64_decode ciphertext);
    match aead_decrypt key nonce_bytes (build_aad envelope_version object_id object_kind) ciphertext with
    | Some plaintext => Ok plaintext
    | None => Err DecryptionFailed
    end.

Definition wrap_object_key (object_key vault_key : string) (envelope_version : N)
    (object_id : string) (object_kind : N) : R EncryptedKeyContainer :=
  p ← seal vault_key object_key envelope_version object_id object_kind;
  mret (mkKeyContainer p.1 p.2).

Definition unwrap_object_key (container : EncryptedKeyContainer) (vault_key : string)
    (envelope_version : N) (object_id : string) (object_kind : N) : Result string CryptoError :=
  plaintext ← open (key_nonce container) (key_ciphertext container) vault_key envelope_version
                object_id object_kind;
  key_from_bytes plaintext.

Definition encrypt_object_payload (plaintext object_key : string) (envelope_version : N)
    (object_id : string) (object_kind : N) : R EncryptedPayloadContainer :=
  p ← seal object_key plaintext envelope_version object_id object_kind;
  mret (mkPayloadContainer p.1 p.2).

Definition decrypt_object_payload (container : EncryptedPayloadContainer) (object_key : string)
    (envelope_version : N) (object_id : string) (object_kind : N) : Result string CryptoError :=
  open (payload_nonce container) (payload_ciphertext container) object_key envelope_version
    object_id object_kind.

Definition encrypt_envelope (plaintext vault_key object_id : string) (object_kind : N)
    : R EncryptedEnvelope :=
  object_key ← fill_random KEY_LEN;
  wrapped_key ← wrap_object_key object_key vault_key ENVELOPE_VERSION_V1 object_id object_kind;
  payload ← encrypt_object_payload plaintext object_key ENVELOPE_VERSION_V1 object_id object_kind;
  mret (mkEnvelope ENVELOPE_VERSION_V1 object_id object_kind wrapped_key payload).

Definition decrypt_envelope (envelope : EncryptedEnvelope) (vault_key : string)
    : Result string CryptoError :=
  if negb (envelope_version envelope =? ENVELOPE_VERSION_V1)%N
  then Err (UnsupportedVersion (envelope_version envelope))
  else
    object_key ← unwrap_object_key (wrapped_key envelope) vault_key (envelope_version envelope)
                   (env_object_id envelope) (env_object_kind envelope);
    decrypt_object_payload (payload envelope) object_key (envelope_version envelope)
      (env_object_id envelope) (env_object_kind envelope).
End object.

(** ** Theorems *)

Section envelope.
Context `{CryptoLib} `{Env} `{!CryptoLaws}.

Lemma seal_open key msg v oid kind i nc i' :
  seal key msg v oid kind i = (Ok nc, i') -> open nc.1 nc.2 key v oid kind = Ok msg.
Proof using Type*.
  unfold seal. intros Hrun. apply bind_ok_inv in Hrun as (nonce & j & Hn & Hrun). injection Hn as <- <-.
  apply bind_ok_inv in Hrun as (c & j & Hc & Hrun). unfold lift_result in Hc. injection Hc as Hc <-.
  injection Hrun as <- <-. cbn [fst snd]. unfold open. rewrite !b64_roundtrip. cbn.
  destruct (aead_encrypt _ _ _ msg) as [c'|] eqn:He; [|done]. injection Hc as ->.
  rewrite random_bytes_length. cbn. by rewrite (aead_roundtrip _ _ _ _ _ He).
Qed.

Lemma seal_run key msg v oid kind i :
  String.length key = KEY_LEN -> (N.of_nat (String.length msg) <= AEAD_MAX_LEN)%N ->
  exists nc, seal key msg v oid kind i = (Ok nc, S i).
Proof using Type*.
  intros Hk Hm.
  destruct (aead_total key (random_bytes i NONCE_LEN) (build_aad v oid kind) msg) as [c Hc];
    [done|apply random_bytes_length|done|].
  unfold seal. cbv zeta. rewrite (run_bind_ok _ _ _ _ _ (eq_refl : fill_random _ _ = (Ok _, S i))).
  unfold lift_result. rewrite Hc. by eexists.
Qed.

(** Encryption under a key of the right length succeeds, with three draws. *)
Lemma envelope_run pt vk oid kind i :
  String.length vk = KEY_LEN -> (N.of_nat (String.length pt) <= AEAD_MAX_LEN)%N ->
  exists env, encrypt_envelope pt vk oid kind i = (Ok env, 3 + i).
Proof using Type*.
  intros Hk Hm. unfold encrypt_envelope.
  rewrite (run_bind_ok _ _ _ _ _ (eq_refl : fill_random _ _ = (Ok _, S i))).
  destruct (seal_run vk (random_bytes i KEY_LEN) ENVELOPE_VERSION_V1 oid kind (S i)) as [p1 Hp1];
    [done|rewrite random_bytes_length; done|].
  destruct (seal_run (random_bytes i KEY_LEN) pt ENVELOPE_VERSION_V1 oid kind (S (S i))) as [p2 Hp2];
    [apply random_bytes_length|done|].
  unfold wrap_object_key, encrypt_object_payload.
  erewrite run_bind_ok by (by erewrite run_bind_ok).
  erewrite run_bind_ok by (by erewrite run_bind_ok). by eexists.
Qed.

Lemma envelope_open pt vk oid kind i env i' :
  encrypt_envelope pt vk oid kind i = (Ok env, i') ->
  decrypt_envelope env vk = Ok pt /\ env_object_id env = oid /\ env_object_kind env = kind
  /\ envelope_version env = ENVELOPE_VERSION_V1.
Proof using Type*.
  unfold encrypt_envelope, wrap_object_key, encrypt_object_payload. intros Hrun. inv_run.
  match goal with H : fill_random _ _ = _ |- _ => injection H as <- <- end.
  repeat match goal with H : seal _ _ _ _ _ _ = (Ok _, _) |- _ => apply seal_open in H end.
  unfold decrypt_envelope, unwrap_object_key, decrypt_object_payload, key_from_bytes.
  cbn [envelope_version env_object_id env_object_kind wrapped_key payload key_nonce key_ciphertext
       payload_nonce payload_ciphertext]. cbn.
  split; [|done].
  match goal with H : open ?n ?c vk _ _ _ = Ok _ |- _ => rewrite H end. cbn.
  rewrite random_bytes_length. done.
Qed.
End envelope.

(** Associated data determines the metadata: two envelopes have the same
    associated data only if version, object and kind are the same, although
    the object identifier is not length-prefixed. *)
Lemma build_aad_binding v1 o1 k1 v2 o2 k2 :
  (v1 <= u32_max)%N -> (v2 <= u32_max)%N -> (k1 <= u16_max)%N -> (k2 <= u16_max)%N ->
  build_aad v1 o1 k1 = build_aad v2 o2 k2 -> v1 = v2 /\ o1 = o2 /\ k1 = k2.
Proof.
  intros Hv1 Hv2 Hk1 Hk2 Heq. unfold build_aad, u32_max, u16_max in *.
  apply str_app_inj_len in Heq as [_ Heq]; [|done].
  apply str_app_inj_len in Heq as [Hv Heq]; [|by rewrite !length_be_bytes].
  apply str_app_inj_len in Heq as [_ Heq]; [|done].
  assert (String.length o1 = String.length o2) as Hlen.
  { apply (f_equal String.length) in Heq. rewrite !str_length_app, !length_be_bytes in Heq. lia. }
  apply str_app_inj_len in Heq as [-> Heq]; [|done].
  apply str_app_inj_len in Heq as [_ Hk]; [|done].
  apply be_bytes_inj in Hv; [|change (256 ^ N.of_nat 4)%N with 4294967296%N; lia..].
  apply be_bytes_inj in Hk; [|change (256 ^ N.of_nat 2)%N with 65536%N; lia..].
  done.
Qed.

Lemma build_aad_binding_witness :
  build_aad 1 "a:" 1 <> build_aad 1 "a" 1.
Proof.
  intros Heq. destruct (build_aad_binding 1 "a:" 1 1 "a" 1) as (_ & Ho & _);
    [vm_compute; discriminate..|exact Heq|discriminate Ho].
Defined.
