(* ===== verification/Note.v ===== *)
(** * Notes ([zk-core/src/note.rs])

    Canonicalisation, validation, canonical JSON and encryption of notes.
    JSON and the Unicode lower-case tables are library code: the class
    [NoteLib], with what the code relies on in [NoteLaws]. *)

From stdpp Require Import options.
From stdpp Require Import sorting.
From S2P Require Import Prelude Protocol StorageModels Storage CoreErrors Time Env Text Diff3 Crypto.

Definition NOTE_SCHEMA_VERSION_V1 : N := 1.
Definition MAX_TITLE_LEN : N := 1024.
Definition MAX_BODY_LEN : N := 10485760.
Definition MAX_TAGS_COUNT : N := 100.
Definition MAX_TAG_LEN : N := 128.
Definition MAX_ATTACHMENTS_COUNT : N := 100.
Definition MAX_ATTACHMENT_ID_LEN : N := 128.

Record PlaintextNote : Type := mkNote {
  n_schema_version : N;
  n_title : string;
  n_body : string;
  n_tags : list string;
  n_created_at : string;
  n_updated_at : string;
  n_attachments : list string
}.

#[export] Instance PlaintextNote_eq_dec : EqDecision PlaintextNote.
Proof. solve_decision. Defined.

Class NoteLib : Type := {
  to_lowercase : string -> string;
  note_to_json : PlaintextNote -> Result string string;
  note_from_json : string -> Result PlaintextNote string;
  utf8_error : string -> string;
  str_debug : string -> string
}.

Class NoteLaws `{NoteLib} : Prop := {
  note_json_roundtrip n s : note_to_json n = Ok s -> note_from_json s = Ok n;
  note_json_utf8 n s : note_to_json n = Ok s -> utf8_valid s = true
}.

(** ** Sorted lists of strings *)

(** [Vec::dedup] *)
Fixpoint dedup (l : list string) : list string :=
  match l with
  | [] => []
  | x :: l' =>
      match l' with
      | y :: _ => if bool_decide (x = y) then dedup l' else x :: dedup l'
      | [] => [x]
      end
  end.

(** [BTreeSet::into_iter().collect()] *)
Definition btree_elements (s : gset string) : list string := merge_sort String.le (elements s).

Definition str_len (s : string) : N := N.of_nat (String.length s).

Definition str_contains (c : ascii) (s : string) : bool :=
  negb (str_forallb (fun d => negb (bool_decide (d = c))) s).

Section note.
Context `{NoteLib}.

(** [PlaintextNote::new], at the time [now]. *)
Definition PlaintextNote_new (now title body : string) : PlaintextNote :=
  mkNote NOTE_SCHEMA_VERSION_V1 title body [] now now [].

Definition canonical_tag (tag : string) : string := to_lowercase (str_trim tag).

Definition canonical_tags (tags : list string) : list string :=
  dedup (merge_sort String.le (List.filter (fun t => negb (bool_decide (t = ""))) (map canonical_tag tags))).

Definition canonicalize (n : PlaintextNote) : PlaintextNote :=
  let title := if str_starts_with bom (n_title n) then trim_bom (n_title n) else n_title n in
  let body := if str_starts_with bom (n_body n) then trim_bom (n_body n) else n_body n in
  let body := if str_contains carriage_return body then normalize body else body in
  mkNote (n_schema_version n) title body (canonical_tags (n_tags n)) (n_created_at n)
    (n_updated_at n) (n_attachments n).

Abbreviation V A := (Result A NoteValidationError).

(** [if c { return Err(e) }] *)
Definition refuse (c : bool) (e : NoteValidationError) : V unit := if c then Err e else Ok tt.

Fixpoint validate_all (check : string -> V unit) (l : list string) : V unit :=
  match l with
  | [] => Ok tt
  | x :: l' => _ ← check x; validate_all check l'
  end.

Definition validate_tag (tag : string) : V unit :=
  _ ← refuse (bool_decide (tag = "")) EmptyTag;
  _ ← refuse (MAX_TAG_LEN <? str_len tag)%N (TagTooLong MAX_TAG_LEN (str_len tag));
  refuse (existsb is_control (chars tag)) (InvalidTag tag).

Definition validate_attachment_id (att : string) : V unit :=
  _ ← refuse (bool_decide (att = "")) EmptyAttachmentId;
  _ ← refuse (MAX_ATTACHMENT_ID_LEN <? str_len att)%N
        (AttachmentIdTooLong MAX_ATTACHMENT_ID_LEN (str_len att));
  refuse (existsb is_control (chars att)) (InvalidAttachmentId att).

Definition validate (n : PlaintextNote) : V unit :=
  _ ← refuse (negb (n_schema_version n =? NOTE_SCHEMA_VERSION_V1)%N)
        (UnsupportedSchemaVersion (n_schema_version n));
  _ ← refuse (MAX_TITLE_LEN <? str_len (n_title n))%N
        (TitleTooLong MAX_TITLE_LEN (str_len (n_title n)));
  _ ← refuse (MAX_BODY_LEN <? str_len (n_body n))%N
        (BodyTooLarge MAX_BODY_LEN (str_len (n_body n)));
  _ ← refuse (MAX_TAGS_COUNT <? N.of_nat (length (n_tags n)))%N
        (TooManyTags MAX_TAGS_COUNT (N.of_nat (length (n_tags n))));
  _ ← validate_all validate_tag (n_tags n);
  _ ← refuse (MAX_ATTACHMENTS_COUNT <? N.of_nat (length (n_attachments n)))%N
        (TooManyAttachments MAX_ATTACHMENTS_COUNT (N.of_nat (length (n_attachments n))));
  _ ← validate_all validate_attachment_id (n_attachments n);
  _ ← validate_rfc3339 "created_at" (n_created_at n);
  validate_rfc3339 "updated_at" (n_updated_at n).

Definition to_canonical_json (n : PlaintextNote) : V string :=
  let note := canonicalize n in
  _ ← validate note;
  result_map_err SerializationError (note_to_json note).

(** The bytes of the JSON text. *)
Definition to_canonical_bytes (n : PlaintextNote) : V string := to_canonical_json n.

Definition from_json (json_str : string) : V PlaintextNote :=
  note ← result_map_err SerializationError (note_from_json json_str);
  _ ← validate note;
  Ok note.

Definition from_bytes (bytes : string) : V PlaintextNote :=
  if utf8_valid bytes then from_json bytes
  else Err (SerializationError ("invalid UTF-8: " +:+ utf8_error bytes)).

Context `{CryptoLib} `{Env}.

Definition encrypt (n : PlaintextNote) (vault_key object_id : string)
    : M nat CoreError EncryptedEnvelope :=
  plaintext_bytes ← lift_result (result_map_err CE_Validation (to_canonical_bytes n));
  map_err CE_Crypto (encrypt_envelope plaintext_bytes vault_key object_id OBJECT_KIND_NOTE).

Definition decrypt (envelope : EncryptedEnvelope) (vault_key : string)
    : Result PlaintextNote CoreError :=
  if negb (envelope_version envelope =? ENVELOPE_VERSION_V1)%N
  then Err (CE_Crypto (UnsupportedVersion (envelope_version envelope)))
  else if negb (env_object_kind envelope =? OBJECT_KIND_NOTE)%N
  then Err (CE_Validation (SerializationError ("expected object kind NOTE ("
         +:+ show_N OBJECT_KIND_NOTE +:+ "), got " +:+ show_N (env_object_kind envelope))))
  else
    decrypted_bytes ← result_map_err CE_Crypto (decrypt_envelope envelope vault_key);
    result_map_err CE_Validation (from_bytes decrypted_bytes).
End note.

(** [NoteBuilder], as the record of what was set. *)
Record NoteBuilder : Type := mkNoteBuilder {
  nb_schema_version : option N;
  nb_title : string;
  nb_body : string;
  nb_tags : list string;
  nb_created_at : option string;
  nb_updated_at : option string;
  nb_attachments : list string
}.

Definition NoteBuilder_build `{NoteLib} (now : string) (b : NoteBuilder)
    : Result PlaintextNote NoteValidationError :=
  let note := canonicalize (mkNote (default NOTE_SCHEMA_VERSION_V1 (nb_schema_version b))
    (nb_title b) (nb_body b) (nb_tags b) (default now (nb_created_at b))
    (default now (nb_updated_at b)) (nb_attachments b)) in
  _ ← validate note;
  Ok note.

(** ** Theorems *)

Section sorted_sets.
Implicit Types l : list string.

Lemma dedup_cons y z l :
  dedup (y :: z :: l) = if bool_decide (y = z) then dedup (z :: l) else y :: dedup (z :: l).
Proof. done. Qed.

Lemma elem_of_dedup x l : x ∈ dedup l <-> x ∈ l.
Proof.
  induction l as [|y [|z l] IH]; [done|done|]. rewrite dedup_cons.
  case_bool_decide as E; [subst; rewrite IH | rewrite elem_of_cons, IH]; set_solver.
Qed.

Lemma dedup_sorted l : StronglySorted String.le l -> StronglySorted String.le (dedup l) /\ NoDup (dedup l).
Proof.
  induction 1 as [|y l Hl [IH1 IH2] Hy]; [by repeat constructor|].
  destruct l as [|z l]; [by repeat constructor; try apply not_elem_of_nil|].
  rewrite dedup_cons. case_bool_decide as E; [done|].
  split; constructor; [done| | |done].
  - rewrite Forall_forall in *. intros x Hx. apply Hy, elem_of_dedup, Hx.
  - rewrite elem_of_dedup. intros Hin. apply E. apply (anti_symm String.le).
    + rewrite Forall_forall in Hy. apply Hy. left.
    + apply elem_of_cons in Hin as [->|Hin]; [done|].
      apply StronglySorted_inv in Hl as [_ Hz]. rewrite Forall_forall in Hz. by apply Hz.
Qed.

(** A strictly sorted list is determined by its set. *)
Lemma sorted_set_unique l1 l2 :
  StronglySorted String.le l1 -> StronglySorted String.le l2 -> NoDup l1 -> NoDup l2 ->
  (forall x, x ∈ l1 <-> x ∈ l2) -> l1 = l2.
Proof.
  intros. eapply (StronglySorted_unique String.le); [done..|]. by apply NoDup_Permutation.
Qed.

Lemma btree_elements_sorted s :
  StronglySorted String.le (btree_elements s) /\ NoDup (btree_elements s).
Proof.
  split; [apply StronglySorted_merge_sort; apply _|].
  unfold btree_elements. rewrite merge_sort_Permutation. apply NoDup_elements.
Qed.

Lemma elem_of_btree_elements x s : x ∈ btree_elements s <-> x ∈ s.
Proof. unfold btree_elements. rewrite merge_sort_Permutation. apply elem_of_elements. Qed.
End sorted_sets.

Section canonical.
Context `{NoteLib}.

Lemma elem_of_canonical_tags t tags :
  t ∈ canonical_tags tags <-> t <> "" /\ t ∈ map canonical_tag tags.
Proof.
  unfold canonical_tags. rewrite elem_of_dedup, merge_sort_Permutation.
  rewrite !list_elem_of_In, filter_In, negb_true_iff, bool_decide_eq_false. tauto.
Qed.

Lemma canonical_tags_sorted tags :
  StronglySorted String.le (canonical_tags tags) /\ NoDup (canonical_tags tags).
Proof. apply dedup_sorted, StronglySorted_merge_sort; apply _. Qed.
End canonical.

(** Canonical tags are a normal form: strictly sorted, no tag empty, and two
    tag lists have the same canonical form exactly when they hold the same tags
    up to surrounding white space, case, order and repetition. *)
Lemma canonical_tags_normal `{NoteLib} tags tags' :
  StronglySorted String.le (canonical_tags tags) /\ NoDup (canonical_tags tags)
  /\ ~ "" ∈ canonical_tags tags
  /\ (canonical_tags tags = canonical_tags tags' <->
      (forall t, t <> "" -> (t ∈ map canonical_tag tags <-> t ∈ map canonical_tag tags'))).
Proof.
  destruct (canonical_tags_sorted tags) as [Hs Hn], (canonical_tags_sorted tags') as [Hs' Hn'].
  split_and!; [done|done|by intros [? _]%elem_of_canonical_tags|].
  split.
  - intros Heq t Ht. pose proof (elem_of_canonical_tags t tags) as Helem. rewrite Heq in Helem.
    pose proof (elem_of_canonical_tags t tags'). tauto.
  - intros Hiff. apply sorted_set_unique; [done..|]. intros t. rewrite !elem_of_canonical_tags. naive_solver.
Qed.

Lemma encrypt_decrypt `{NoteLib} `{!NoteLaws} `{CryptoLib} `{Env} `{!CryptoLaws} n vk oid i env j :
  encrypt n vk oid i = (Ok env, j) -> decrypt env vk = Ok (canonicalize n) /\ env_object_id env = oid.
Proof.
  unfold encrypt, to_canonical_bytes, to_canonical_json. intros Hrun.
  apply bind_ok_inv in Hrun as (s & j' & Hs & Hrun). unfold lift_result in Hs. injection Hs as Hs <-.
  destruct (validate (canonicalize n)) as [[]|e] eqn:Hval; [|done].
  destruct (note_to_json (canonicalize n)) as [s'|] eqn:Hjson; [|done]. injection Hs as ->.
  apply map_err_ok_inv in Hrun.
  destruct (envelope_open _ _ _ _ _ _ _ Hrun) as (Hopen & Hoid & Hkind & Hver). split; [|done].
  unfold decrypt. rewrite Hver, Hkind, Hopen. cbn. unfold from_bytes, from_json.
  rewrite (note_json_utf8 _ _ Hjson), (note_json_roundtrip _ _ Hjson). cbn. by rewrite Hval.
Qed.

(** A canonical note that passes validation is encrypted, and decrypts to itself. *)
Lemma encrypt_run `{NoteLib} `{!NoteLaws} `{CryptoLib} `{Env} `{!CryptoLaws} n vk oid i s :
  String.length vk = KEY_LEN -> validate (canonicalize n) = Ok tt ->
  note_to_json (canonicalize n) = Ok s -> (str_len s <= AEAD_MAX_LEN)%N ->
  exists env, encrypt n vk oid i = (Ok env, 3 + i) /\ env_object_id env = oid /\ decrypt env vk = Ok (canonicalize n).
Proof.
  intros Hvk Hval Hjson Hlen.
  destruct (envelope_run s vk oid OBJECT_KIND_NOTE i Hvk Hlen) as [env Hrun].
  assert (encrypt n vk oid i = (Ok env, 3 + i)) as Henc.
  { unfold encrypt, to_canonical_bytes, to_canonical_json. rewrite Hval.
    unfold mbind at 2, Result_bind. rewrite Hjson. erewrite run_bind_ok by done.
    unfold map_err. by rewrite Hrun. }
  exists env. by destruct (encrypt_decrypt _ _ _ _ _ _ Henc).
Qed.

(** C34. Encrypting a note and decrypting it gives back its canonical form.  For
    every note whose canonical form passes validation, [encrypt] returns an
    envelope of the object, having drawn random bytes three times, and
    [decrypt] under the same vault key returns the canonical note; a note that
    does not pass is refused with its validation error, and nothing is drawn. *)
Theorem note_encrypt_roundtrip `{NoteLib} `{!NoteLaws} `{CryptoLib} `{Env} `{!CryptoLaws} n vk oid i s :
  String.length vk = KEY_LEN ->
  note_to_json (canonicalize n) = Ok s -> (str_len s <= AEAD_MAX_LEN)%N ->
  match validate (canonicalize n) with
  | Ok _ => exists env, encrypt n vk oid i = (Ok env, 3 + i) /\ env_object_id env = oid
              /\ decrypt env vk = Ok (canonicalize n)
  | Err e => encrypt n vk oid i = (Err (CE_Validation e), i)
  end.
Proof.
  intros Hvk Hjson Hlen.
  destruct (validate (canonicalize n)) as [[]|e] eqn:Hval; [by apply (encrypt_run _ _ _ _ s)|].
  unfold encrypt, to_canonical_bytes, to_canonical_json. by rewrite Hval.
Qed.
