(* ===== verification/Vault.v ===== *)
(** * The vault key: derivation, wrapping, recovery ([zk-crypto/src/kdf.rs],
      [vault.rs], [recovery.rs], [zk-core/src/vault.rs], [vault_identity.rs])

    The vault key is wrapped twice: under a key derived from the passphrase
    and under a recovery key that the user keeps as a checksummed code.
    Argon2 and BLAKE2 are library code: the class [KdfLib], with what the code
    relies on in [KdfLaws]. *)

From stdpp Require Import options.
From S2P Require Import Prelude Protocol StorageModels Storage CoreErrors Time Env Text Crypto Note.

Definition ARGON2ID_ALGORITHM : string := "argon2id".
Definition XCHACHA20_POLY1305_CIPHER_SUITE : string := "xchacha20poly1305".
Definition SALT_LEN : nat := 16.
Definition PROD_MEMORY_KIB : N := 65536.
Definition PROD_ITERATIONS : N := 3.
Definition PROD_PARALLELISM : N := 1.
Definition TEST_MEMORY_KIB : N := 1024.
Definition TEST_ITERATIONS : N := 1.
Definition TEST_PARALLELISM : N := 1.
Definition CHECKSUM_LEN : nat := 4.
Definition FORMATTED_RAW_LEN : nat := KEY_LEN + CHECKSUM_LEN.

(** [Params::new] (its error, if any), [hash_password_into] and the digests;
    errors carry their text. *)
Class KdfLib : Type := {
  argon2_params : N -> N -> N -> option string;
  argon2_hash : N -> N -> N -> string -> string -> Result string string;
  blake2b512 : string -> string;
  blake2s256 : string -> string
}.

Class KdfLaws `{KdfLib} : Prop := {
  argon2_params_ok m t p : (1 <= p <= 16777215)%N -> (8 * p <= m <= u32_max)%N -> (1 <= t <= u32_max)%N ->
    argon2_params m t p = None;
  argon2_total m t p pass salt : argon2_params m t p = None ->
    (N.of_nat (String.length pass) <= u32_max)%N -> (8 <= N.of_nat (String.length salt) <= u32_max)%N ->
    exists k, argon2_hash m t p pass salt = Ok k;
  argon2_length m t p pass salt k : argon2_hash m t p pass salt = Ok k -> String.length k = KEY_LEN;
  blake2b512_length s : String.length (blake2b512 s) = 64;
  blake2s256_length s : String.length (blake2s256 s) = 32
}.

Section ops.
Context `{CryptoLib} `{Env} `{NoteLib} `{KdfLib}.
Abbreviation R A := (M nat CryptoError A).

(** ** kdf.rs *)

Definition new_production : R KdfParams :=
  salt_bytes ← fill_random SALT_LEN;
  mret (mkKdfParams ARGON2ID_ALGORITHM (b64_encode salt_bytes) PROD_MEMORY_KIB PROD_ITERATIONS PROD_PARALLELISM).

Definition new_test : R KdfParams :=
  salt_bytes ← fill_random SALT_LEN;
  mret (mkKdfParams ARGON2ID_ALGORITHM (b64_encode salt_bytes) TEST_MEMORY_KIB TEST_ITERATIONS TEST_PARALLELISM).

(** [KdfParams::custom] *)
Definition custom (memory_kib iterations parallelism : N) (salt : string) : Result KdfParams CryptoError :=
  if (String.length salt <? 8)%nat then Err (InvalidKeyLength SALT_LEN (String.length salt))
  else Ok (mkKdfParams ARGON2ID_ALGORITHM (b64_encode salt) memory_kib iterations parallelism).

Definition raw_salt (params : KdfParams) : Result string CryptoError :=
  result_map_err (fun e => InvalidEncoding ("invalid base64 salt: " +:+ e)) (b64_decode (kdf_salt params)).

Definition derive_kek (passphrase : string) (params : KdfParams) : Result string CryptoError :=
  if negb (bool_decide (kdf_algorithm params = ARGON2ID_ALGORITHM))
  then Err (UnsupportedAlgorithm (kdf_algorithm params))
  else
    salt_bytes ← raw_salt params;
    if (String.length salt_bytes <? 8)%nat then Err (InvalidKeyLength SALT_LEN (String.length salt_bytes))
    else
      match argon2_params (memory_kib params) (iterations params) (parallelism params) with
      | Some e => Err (KdfFailure e)
      | None => result_map_err KdfFailure
          (argon2_hash (memory_kib params) (iterations params) (parallelism params) passphrase salt_bytes)
      end.

(** ** vault.rs *)

Definition wrap_key_bytes (key_to_wrap wrapping_key : string) : R WrappedVaultKey :=
  nonce_bytes ← fill_random NONCE_LEN;
  ciphertext ← lift_result (result_map_err AeadFailure (aead_encrypt wrapping_key nonce_bytes "" key_to_wrap));
  mret (mkWrappedVaultKey XCHACHA20_POLY1305_CIPHER_SUITE (b64_encode nonce_bytes) (b64_encode ciphertext)).

Definition unwrap_key_bytes (wrapped : WrappedVaultKey) (wrapping_key : string) : Result string CryptoError :=
  if negb (bool_decide (cipher_suite wrapped = XCHACHA20_POLY1305_CIPHER_SUITE))
  then Err (UnsupportedAlgorithm (cipher_suite wrapped))
  else
    nonce_bytes ← result_map_err (fun e => InvalidEncoding ("invalid nonce base64: " +:+ e))
                    (b64_decode (wvk_nonce wrapped));
    if negb (String.length nonce_bytes =? NONCE_LEN)%nat
    then Err (InvalidKeyLength NONCE_LEN (String.length nonce_bytes))
    else
      ciphertext_bytes ← result_map_err (fun e => InvalidEncoding ("invalid ciphertext base64: " +:+ e))
                           (b64_decode (wvk_ciphertext wrapped));
      match aead_decrypt wrapping_key nonce_bytes "" ciphertext_bytes with
      | Some plaintext => Ok plaintext
      | None => Err DecryptionFailed
      end.

Definition wrap_vault_key (vault_key kek : string) : R WrappedVaultKey := wrap_key_bytes vault_key kek.
Definition unwrap_vault_key (wrapped : WrappedVaultKey) (kek : string) : Result string CryptoError :=
  plaintext_bytes ← unwrap_key_bytes wrapped kek; key_from_bytes plaintext_bytes.
Definition wrap_vault_key_recovery (vault_key recovery_key : string) : R WrappedVaultKey :=
  wrap_key_bytes vault_key recovery_key.
Definition unwrap_vault_key_recovery (wrapped : WrappedVaultKey) (recovery_key : string)
    : Result string CryptoError :=
  plaintext_bytes ← unwrap_key_bytes wrapped recovery_key; key_from_bytes plaintext_bytes.

Definition rewrap_vault_key (old_passphrase : string) (old_params : KdfParams)
    (wrapped_vault_key : WrappedVaultKey) (new_passphrase : string) (new_params : KdfParams)
    : R (KdfParams * WrappedVaultKey * string) :=
  old_kek ← lift_result (derive_kek old_passphrase old_params);
  vault_key ← lift_result (unwrap_vault_key wrapped_vault_key old_kek);
  new_kek ← lift_result (derive_kek new_passphrase new_params);
  new_wrapped_key ← wrap_vault_key vault_key new_kek;
  mret (new_params, new_wrapped_key, vault_key).

(** ** recovery.rs *)

Definition compute_checksum (key : string) : string :=
  str_take CHECKSUM_LEN (blake2b512 ("zk-notes-recovery-checksum-v1" +:+ key)).

Definition format_recovery_key (recovery_key : string) : string :=
  str_join "-" (hex true <$> str_chunks 4 (recovery_key +:+ compute_checksum recovery_key)).

Definition separator (c : Char) : bool := is_whitespace c || (code_point c =? 45)%N.

Definition clean (input : string) : string :=
  of_chars (List.filter (fun c => negb (separator c)) (chars input)).

Definition hex_chunk (chunk : string) : Result N CryptoError :=
  if negb (utf8_valid chunk) then Err (InvalidEncoding ("invalid utf8: " +:+ utf8_error chunk))
  else result_map_err (fun e => InvalidEncoding ("invalid hex digit: " +:+ e)) (from_str_radix_16 chunk).

Fixpoint hex_chunks (chunks : list string) : Result string CryptoError :=
  match chunks with
  | [] => Ok ""
  | chunk :: rest =>
      b ← hex_chunk chunk;
      bytes ← hex_chunks rest;
      Ok (String (ascii_of_N b) bytes)
  end.

Definition parse_recovery_key (input : string) : Result string CryptoError :=
  let cleaned := clean input in
  if negb (String.length cleaned =? FORMATTED_RAW_LEN * 2)%nat
  then Err (InvalidKeyLength (FORMATTED_RAW_LEN * 2) (String.length cleaned))
  else
    raw_bytes ← hex_chunks (str_chunks 2 cleaned);
    let key_bytes := str_take KEY_LEN raw_bytes in
    let expected_checksum := str_drop KEY_LEN raw_bytes in
    if bool_decide (expected_checksum = compute_checksum key_bytes) then Ok key_bytes
    else Err InvalidChecksum.

(** ** The vault's life cycle ([VaultManager]) *)

Abbreviation C A := (M nat CoreError A).
Abbreviation crypto m := (map_err CE_Crypto m).

Definition init_vault (passphrase : string) (kdf_params : KdfParams) : C (VaultBootstrap * string * string) :=
  kek ← crypto (lift_result (derive_kek passphrase kdf_params));
  vault_key ← crypto (fill_random KEY_LEN);
  recovery_key ← crypto (fill_random KEY_LEN);
  wrapped_key ← crypto (wrap_vault_key vault_key kek);
  recovery_wrapped_key ← crypto (wrap_vault_key_recovery vault_key recovery_key);
  mret (mkVaultBootstrap PROTOCOL_VERSION_V1 kdf_params wrapped_key recovery_wrapped_key,
        format_recovery_key recovery_key, vault_key).

Definition unlock_with_passphrase (bootstrap : VaultBootstrap) (passphrase : string) : Result string CoreError :=
  kek ← result_map_err CE_Crypto (derive_kek passphrase (kdf bootstrap));
  result_map_err CE_Crypto (unwrap_vault_key (wrapped_vault_key bootstrap) kek).

Definition unlock_with_recovery_key (bootstrap : VaultBootstrap) (recovery_key_str : string)
    : Result string CoreError :=
  recovery_key ← result_map_err (fun e => CE_InvalidRecoveryKey (CryptoError_display e))
                   (parse_recovery_key recovery_key_str);
  result_map_err CE_Crypto (unwrap_vault_key_recovery (recovery_wrapped_vault_key bootstrap) recovery_key).

Definition set_new_passphrase (bootstrap : VaultBootstrap) (vault_key new_passphrase : string)
    (new_kdf_params : KdfParams) : C VaultBootstrap :=
  new_kek ← crypto (lift_result (derive_kek new_passphrase new_kdf_params));
  new_wrapped ← crypto (wrap_vault_key vault_key new_kek);
  mret (mkVaultBootstrap (crypto_version bootstrap) new_kdf_params new_wrapped
          (recovery_wrapped_vault_key bootstrap)).

(** ** vault_identity.rs *)

Inductive InvalidBootstrap : Type := mkInvalidBootstrap.

Definition kdf_in_bounds (b : VaultBootstrap) : bool :=
  let k := kdf b in
  negb (negb (crypto_version b =? 1)%N
    || negb (bool_decide (kdf_algorithm k = "argon2id"))
    || (parallelism k =? 0)%N || (16 <? parallelism k)%N
    || (memory_kib k <? 8 * parallelism k)%N || (262144 <? memory_kib k)%N
    || (iterations k =? 0)%N || (16 <? iterations k)%N).

(** [Base64::decode_vec(..).map_err(|_| InvalidBootstrap)?] *)
Definition decoded (s : string) : Result string InvalidBootstrap :=
  result_map_err (fun _ => mkInvalidBootstrap) (b64_decode s).

Definition validate_wrapper (w : WrappedVaultKey) : Result unit InvalidBootstrap :=
  if negb (bool_decide (cipher_suite w = "xchacha20poly1305")) then Err mkInvalidBootstrap
  else
    nonce ← decoded (wvk_nonce w);
    if negb (String.length nonce =? 24)%nat then Err mkInvalidBootstrap
    else
      ciphertext ← decoded (wvk_ciphertext w);
      if negb (String.length ciphertext =? 48)%nat then Err mkInvalidBootstrap else Ok tt.

Definition validate_bootstrap (b : VaultBootstrap) : Result unit InvalidBootstrap :=
  if negb (kdf_in_bounds b) then Err mkInvalidBootstrap
  else
    salt ← decoded (kdf_salt (kdf b));
    if negb ((8 <=? String.length salt)%nat && (String.length salt <=? 64)%nat) then Err mkInvalidBootstrap
    else
      _ ← validate_wrapper (wrapped_vault_key b);
      validate_wrapper (recovery_wrapped_vault_key b).

(** A field with its length, as the hasher is fed. *)
Definition framed (field : string) : string :=
  be_bytes 4 (N.of_nat (String.length field) mod 4294967296) +:+ field.

Definition fingerprint_input (crypto_version : N) (cipher_suite nonce ciphertext : string) : string :=
  "zk-note-vault-id-v1" +:+ be_bytes 4 crypto_version +:+ framed cipher_suite +:+ framed nonce
  +:+ framed ciphertext.

Definition vault_fingerprint (b : VaultBootstrap) : Result string InvalidBootstrap :=
  _ ← validate_bootstrap b;
  let w := recovery_wrapped_vault_key b in
  nonce ← decoded (wvk_nonce w);
  ciphertext ← decoded (wvk_ciphertext w);
  Ok ("blake2s-v1:" +:+ hex false (blake2s256 (fingerprint_input (crypto_version b) (cipher_suite w) nonce ciphertext))).
End ops.
