(* ===== verification/VaultFacts.v ===== *)
(** * The vault key comes back

    Wrapping and unwrapping, the recovery code, the life cycle of the vault
    and its fingerprint. *)

From stdpp Require Import options.
From S2P Require Import Prelude Protocol StorageModels Storage CoreErrors Time Env Text Crypto Note Vault.

(** ** The recovery code *)

Lemma chunks_fuel_more n s fuel :
  0 < n -> String.length s <= fuel -> chunks_fuel fuel n s = str_chunks n s.
Proof.
  intros Hn. unfold str_chunks. revert fuel. induction s as [s IH] using str_rev_ind. intros fuel Hf.
  destruct s as [|c s]; [by destruct fuel|]. destruct fuel as [|fuel]; [cbn in Hf; lia|].
  cbn [String.length chunks_fuel]. f_equal.
  assert (String.length (str_drop n (String c s)) < String.length (String c s)) as Hlt
    by (rewrite length_str_drop; cbn; lia).
  rewrite (IH _ Hlt fuel), (IH _ Hlt (String.length s)); [done|cbn in *; lia..].
Qed.

Lemma str_chunks_2 x y t : str_chunks 2 (String x (String y t)) = String x (String y "") :: str_chunks 2 t.
Proof.
  change (str_chunks 2 (String x (String y t))) with (String x (String y "") :: chunks_fuel (S (String.length t)) 2 t).
  f_equal. apply chunks_fuel_more; lia.
Qed.

Lemma clean_cons c s :
  is_ascii c = true -> clean (String c s)
  = if separator (mkChar (byte c) (String c "")) then clean s else String c (clean s).
Proof.
  intros Hc. unfold clean. rewrite chars_cons_ascii by done. cbn [List.filter].
  by destruct (separator _).
Qed.

Lemma hex_not_separator c : is_hex c = true -> separator (mkChar (byte c) (String c "")) = false.
Proof. by destruct c as [[] [] [] [] [] [] [] []]. Qed.

Lemma clean_hex s t : str_forallb is_hex s = true -> clean (s +:+ t) = s +:+ clean t.
Proof.
  induction s as [|c s IH]; [done|]. cbn [str_forallb]. intros [Hc Hs]%andb_true_iff.
  rewrite !str_app_cons, clean_cons, hex_not_separator by auto using is_hex_ascii. by rewrite IH.
Qed.

Lemma clean_blocks (l : list string) : clean (str_join "-" (hex true <$> l)) = hex true (str_concat l).
Proof.
  induction l as [|b l IH]; [done|]. destruct l as [|b' l].
  - cbn [fmap list_fmap str_join str_concat]. rewrite str_app_nil_r, <- (str_app_nil_r (hex true b)).
    by rewrite clean_hex by apply hex_is_hex.
  - change (str_join "-" (hex true <$> b :: b' :: l))
      with (hex true b +:+ String "-" (str_join "-" (hex true <$> b' :: l))).
    rewrite clean_hex by apply hex_is_hex. rewrite clean_cons by done.
    change (separator (mkChar (byte "-") "-")) with true. cbv iota. rewrite IH. symmetry. apply hex_app.
Qed.

Lemma utf8_ascii_cons c s : is_ascii c = true -> utf8_valid (String c s) = utf8_valid s.
Proof.
  unfold is_ascii. intros Hc%N.ltb_lt. cbn [utf8_valid]. unfold in_range at 1.
  by rewrite (proj2 (N.leb_le 0 (byte c))), (proj2 (N.leb_le (byte c) 127)) by lia.
Qed.

Lemma hex_value_lower c : hex_value (ascii_lower c) = hex_value c.
Proof. by destruct c as [[] [] [] [] [] [] [] []]. Qed.

Lemma hex_digit_value n : (n < 16)%N -> hex_value (hex_digit false n) = Some n.
Proof. intros Hn. destruct n as [|p]; [done|]. do 4 (destruct p as [p|p|]; try done; try lia). Qed.

(** Two digits, in either case, give the byte. *)
Lemma hex_chunk_digits `{NoteLib} x y c :
  ascii_lower x = hex_digit false (byte c / 16) -> ascii_lower y = hex_digit false (byte c mod 16) ->
  hex_chunk (String x (String y "")) = Ok (byte c).
Proof.
  intros Hx Hy. pose proof (byte_lt c) as Hc.
  assert (hex_value x = Some (byte c / 16)%N) as Vx
    by (rewrite <- hex_value_lower, Hx; apply hex_digit_value, N.Div0.div_lt_upper_bound; lia).
  assert (hex_value y = Some (byte c mod 16)%N) as Vy
    by (rewrite <- hex_value_lower, Hy; by apply hex_digit_value, N.mod_lt).
  unfold hex_chunk.
  rewrite !utf8_ascii_cons by (apply is_hex_ascii; unfold is_hex; by rewrite ?Vx, ?Vy). cbn [utf8_valid negb].
  assert (from_str_radix_16 (String x (String y "")) = hex_digits 0 (String x (String y ""))) as ->.
  { destruct (decide (x = "+"%char)) as [->|Hne]; [done|]. unfold from_str_radix_16.
    by destruct x as [[] [] [] [] [] [] [] []]. }
  cbn [hex_digits]. rewrite Vx. cbv zeta. rewrite N.add_0_l.
  assert (byte c / 16 < 16)%N by (apply N.Div0.div_lt_upper_bound; lia).
  rewrite (proj2 (N.leb_le (byte c / 16) 255)) by lia. rewrite Vy.
  replace (byte c / 16 * 16 + byte c mod 16)%N with (byte c) by (rewrite (N.div_mod (byte c) 16) at 1 by done; lia).
  by rewrite (proj2 (N.leb_le (byte c) 255)) by lia.
Qed.

Lemma hex_chunks_digits `{NoteLib} b : forall t,
  to_ascii_lowercase t = hex false b -> hex_chunks (str_chunks 2 t) = Ok b.
Proof.
  induction b as [|c b IH]; intros t Ht; [by destruct t|].
  cbn [hex] in Ht. unfold hex_byte in Ht. rewrite !str_app_cons, str_app_nil_l in Ht.
  destruct t as [|x [|y t]]; [done..|]. cbn [to_ascii_lowercase] in Ht. injection Ht as Hx Hy Ht.
  rewrite str_chunks_2. cbn [hex_chunks]. rewrite (hex_chunk_digits x y c Hx Hy). cbn.
  rewrite (IH t Ht). cbn. by rewrite (ascii_N_embedding c : ascii_of_N (byte c) = c).
Qed.

Definition not_plus (c : ascii) : bool := negb (bool_decide (c = "+"%char)).

Lemma hex_value_inv c n : hex_value c = Some n -> (n < 16)%N /\ ascii_lower c = hex_digit false n.
Proof.
  intros Hc. assert (match hex_value c with
    | Some m => (m < 16)%N /\ ascii_lower c = hex_digit false m | None => True end) as Hall
    by (by destruct c as [[] [] [] [] [] [] [] []]).
  by rewrite Hc in Hall.
Qed.

Lemma hex_chunk_inv `{NoteLib} x y n :
  not_plus x = true -> hex_chunk (String x (String y "")) = Ok n ->
  exists c, n = byte c /\ ascii_lower x = hex_digit false (byte c / 16)
    /\ ascii_lower y = hex_digit false (byte c mod 16).
Proof.
  unfold not_plus, hex_chunk. intros Hx%negb_true_iff%bool_decide_eq_false Hrun.
  destruct (negb (utf8_valid _)); [done|].
  assert (from_str_radix_16 (String x (String y "")) = hex_digits 0 (String x (String y ""))) as Hr
    by (by destruct x as [[] [] [] [] [] [] [] []]).
  rewrite Hr in Hrun. cbn [hex_digits] in Hrun.
  destruct (hex_value x) as [a|] eqn:Vx; [|done]. apply hex_value_inv in Vx as [Ha Hx'].
  cbv zeta in Hrun. rewrite N.add_0_l in Hrun. rewrite (proj2 (N.leb_le a 255)) in Hrun by lia.
  destruct (hex_value y) as [b|] eqn:Vy; [|done]. apply hex_value_inv in Vy as [Hb Hy'].
  rewrite (proj2 (N.leb_le (a * 16 + b) 255)) in Hrun by lia. injection Hrun as <-.
  exists (ascii_of_N (a * 16 + b)). unfold byte. rewrite N_ascii_embedding by lia.
  rewrite N.div_add_l, N.div_small, N.add_0_r by (done || lia).
  by rewrite N.add_comm, N.Div0.mod_add, N.mod_small by lia.
Qed.

Lemma hex_chunks_inv `{NoteLib} n : forall t b,
  str_forallb not_plus t = true -> String.length t = 2 * n -> hex_chunks (str_chunks 2 t) = Ok b ->
  to_ascii_lowercase t = hex false b /\ String.length b = n.
Proof.
  induction n as [|n IH]; intros t b Hp Hlen Hrun.
  { destruct t; [|cbn in Hlen; lia]. by injection Hrun as <-. }
  destruct t as [|x [|y t]]; [cbn in Hlen; lia..|]. cbn [str_forallb] in Hp.
  apply andb_true_iff in Hp as [Hx [_ Hp]%andb_true_iff].
  rewrite str_chunks_2 in Hrun. cbn [hex_chunks] in Hrun.
  destruct (hex_chunk (String x (String y ""))) as [m|] eqn:Hm; [|done].
  apply hex_chunk_inv in Hm as (c & -> & Hx' & Hy'); [|done]. cbn in Hrun.
  destruct (hex_chunks (str_chunks 2 t)) as [b'|] eqn:Hb; [|done]. cbn in Hrun. injection Hrun as <-.
  destruct (IH t b' Hp ltac:(cbn in Hlen; lia) Hb) as [Ht Hn]. cbn [to_ascii_lowercase hex String.length].
  rewrite (ascii_N_embedding c : ascii_of_N (byte c) = c). unfold hex_byte.
  rewrite !str_app_cons, str_app_nil_l, Ht, Hx', Hy'. split; [done|lia].
Qed.

Section recovery.
Context `{CryptoLib} `{Env} `{NoteLib} `{KdfLib} `{!KdfLaws}.

Lemma length_checksum k : String.length (compute_checksum k) = CHECKSUM_LEN.
Proof using Type*. unfold compute_checksum. by rewrite length_str_take, blake2b512_length. Qed.

(** The digits of a key's code, in either case. *)
Definition spells (s k : string) : Prop :=
  to_ascii_lowercase (clean s) = hex false (k +:+ compute_checksum k).

Lemma spells_format k : spells (format_recovery_key k) k.
Proof using Type*.
  unfold spells, format_recovery_key. rewrite clean_blocks, str_chunks_concat by lia. apply hex_lower.
Qed.

Lemma length_lowercase s : String.length (to_ascii_lowercase s) = String.length s.
Proof using Type. induction s as [|c s IH]; [done|]. cbn. by rewrite IH. Qed.

Lemma parse_spelled s k : String.length k = KEY_LEN -> spells s k -> parse_recovery_key s = Ok k.
Proof using Type*.
  intros Hk Hs. unfold parse_recovery_key.
  assert (String.length (clean s) = FORMATTED_RAW_LEN * 2) as Hlen.
  { rewrite <- length_lowercase, Hs, length_hex, str_length_app, length_checksum, Hk. done. }
  rewrite Hlen, Nat.eqb_refl. cbn [negb]. rewrite (hex_chunks_digits _ _ Hs). cbn -[str_take str_drop].
  rewrite str_take_app, str_drop_app by done. by rewrite bool_decide_eq_true_2.
Qed.
Lemma parse_spells s k :
  str_forallb not_plus (clean s) = true -> parse_recovery_key s = Ok k ->
  String.length k = KEY_LEN /\ spells s k.
Proof using Type*.
  intros Hp. unfold parse_recovery_key.
  destruct (Nat.eqb_spec (String.length (clean s)) (FORMATTED_RAW_LEN * 2)) as [Hlen|]; [|done]. cbn [negb].
  destruct (hex_chunks _) as [b|] eqn:Hb; [|done]. cbn -[str_take str_drop].
  apply (hex_chunks_inv FORMATTED_RAW_LEN) in Hb as [Ht Hbl]; [|done|rewrite Hlen; lia].
  destruct (bool_decide_reflect (str_drop KEY_LEN b = compute_checksum (str_take KEY_LEN b))) as [Hcs|]; [|done].
  intros Hk. assert (k = str_take KEY_LEN b) as -> by congruence. split; [rewrite length_str_take, Hbl; done|].
  unfold spells. by rewrite Ht, <- Hcs, str_take_drop.
Qed.

(** Recovery codes.  The printed code of a recovery key is accepted and gives
    the key back.  A string without plus signs is accepted exactly when its
    hexadecimal digits, in either case and with hyphens and whitespace
    anywhere, are those of a 32-byte key followed by the key's checksum: a
    mistyped digit is accepted only if the checksum of the other key happens to
    match. *)
Lemma recovery_code_roundtrip k :
  String.length k = KEY_LEN ->
  parse_recovery_key (format_recovery_key k) = Ok k
  /\ forall s k', str_forallb not_plus (clean s) = true ->
       parse_recovery_key s = Ok k' <-> String.length k' = KEY_LEN /\ spells s k'.
Proof using Type*.
  intros Hk. split; [by apply parse_spelled, spells_format|]. intros s k' Hp.
  split; [by apply parse_spells|]. intros [Hk' Hs]. by apply parse_spelled.
Qed.

(** A plus sign passes for a zero: a code whose first byte is below 16 is
    accepted with its first digit replaced by a plus sign. *)
Lemma recovery_code_accepts_plus c k :
  String.length (String c k) = KEY_LEN -> (byte c < 16)%N ->
  parse_recovery_key (String "+" (str_drop 1 (format_recovery_key (String c k)))) = Ok (String c k).
Proof using Type*.
  intros Hk Hc. pose proof (spells_format (String c k)) as Hs. unfold spells in Hs.
  assert (exists d t, format_recovery_key (String c k) = String "0" (String d t)
    /\ is_hex d = true /\ hex_value d = Some (byte c)) as (d & t & Hf & Hd & Vd).
  { unfold format_recovery_key.
    assert (exists b bs, str_chunks 4 (String c k +:+ compute_checksum (String c k)) = String c b :: bs) as (b & bs & ->)
      by (rewrite str_app_cons; by eexists _, _).
    assert (forall c, (byte c < 16)%N -> hex_byte true c = String "0" (String (hex_digit true (byte c)) "")
      /\ is_hex (hex_digit true (byte c)) = true /\ hex_value (hex_digit true (byte c)) = Some (byte c)) as Hall.
    { clear. intros c Hc. by destruct c as [[] [] [] [] [] [] [] []]; try (by vm_compute in Hc). }
    destruct (Hall c Hc) as (Hb & Hh & Hv). exists (hex_digit true (byte c)).
    cbn [fmap list_fmap hex]. rewrite Hb. destruct bs; cbn [list_fmap str_join]; rewrite ?str_app_cons, ?str_app_nil_l; eauto. }
  rewrite Hf in Hs |- *. cbn [str_drop].
  rewrite !clean_cons in Hs by (done || by apply is_hex_ascii). rewrite (hex_not_separator d Hd) in Hs.
  change (separator (mkChar (byte "0") "0")) with false in Hs. cbv iota in Hs.
  cbn [to_ascii_lowercase] in Hs. rewrite str_app_cons in Hs. cbn [hex] in Hs. unfold hex_byte in Hs.
  rewrite !str_app_cons, str_app_nil_l in Hs. injection Hs as H1' H2' Hs.
  assert (clean (String "+" (String d t)) = String "+" (String d (clean t))) as Hclean.
  { rewrite !clean_cons by (done || by apply is_hex_ascii). by rewrite (hex_not_separator d Hd). }
  unfold parse_recovery_key. rewrite Hclean.
  assert (String.length (clean t) = FORMATTED_RAW_LEN * 2 - 2) as Hlen.
  { rewrite <- length_lowercase, Hs, length_hex, str_length_app, length_checksum. cbn in Hk. injection Hk as ->. done. }
  cbn [String.length]. rewrite Hlen. cbn [Nat.sub Nat.mul Nat.add Nat.eqb FORMATTED_RAW_LEN KEY_LEN CHECKSUM_LEN negb].
  rewrite str_chunks_2. cbn [hex_chunks].
  assert (hex_chunk (String "+" (String d "")) = Ok (byte c)) as ->.
  { unfold hex_chunk. rewrite !utf8_ascii_cons by (done || by apply is_hex_ascii). cbn [utf8_valid negb].
    cbn [from_str_radix_16 hex_digits]. rewrite Vd. cbv zeta. rewrite N.add_0_l.
    by rewrite (proj2 (N.leb_le (byte c) 255)) by lia. }
  cbn -[str_take str_drop]. rewrite (hex_chunks_digits _ _ Hs). cbn -[str_take str_drop].
  rewrite (ascii_N_embedding c : ascii_of_N (byte c) = c).
  change (String c (k +:+ compute_checksum (String c k))) with (String c k +:+ compute_checksum (String c k)).
  rewrite str_take_app, str_drop_app by done. by rewrite bool_decide_eq_true_2.
Qed.
End recovery.

(** ** The life cycle *)

Section vault.
Context `{CryptoLib} `{Env} `{NoteLib} `{KdfLib} `{!CryptoLaws} `{!KdfLaws}.

(** Parameters the client accepts: Argon2id in the bounds of
    [validate_bootstrap], and a salt of 8 to 64 bytes. *)
Record kdf_usable (p : KdfParams) : Prop := {
  ku_algorithm : kdf_algorithm p = ARGON2ID_ALGORITHM;
  ku_parallelism : (1 <= parallelism p <= 16)%N;
  ku_memory : (8 * parallelism p <= memory_kib p <= 262144)%N;
  ku_iterations : (1 <= iterations p <= 16)%N;
  ku_salt : exists salt, b64_decode (kdf_salt p) = Ok salt /\ (8 <= String.length salt <= 64)%nat
}.

Definition typable (pass : string) : Prop := (N.of_nat (String.length pass) <= u32_max)%N.

Lemma derive_kek_run pass p :
  kdf_usable p -> typable pass -> exists kek, derive_kek pass p = Ok kek /\ String.length kek = KEY_LEN.
Proof using Type*.
  intros [Ha Hp Hm Ht (salt & Hs & Hlen)] Hpass. unfold u32_max in *.
  assert (argon2_params (memory_kib p) (iterations p) (parallelism p) = None) as Hpar
    by (apply argon2_params_ok; unfold u32_max; lia).
  destruct (argon2_total _ _ _ pass salt Hpar) as [kek Hk]; [done|unfold u32_max; lia|].
  exists kek. split; [|by eapply argon2_length]. unfold derive_kek, raw_salt. rewrite Ha, Hs.
  rewrite bool_decide_eq_true_2 by done. cbn -[Nat.ltb].
  rewrite (proj2 (Nat.ltb_ge (String.length salt) 8)) by lia. by rewrite Hpar, Hk.
Qed.

(** Wrapping a key of 32 bytes under another. *)
Lemma wrap_run key wk i :
  String.length key = KEY_LEN -> String.length wk = KEY_LEN ->
  exists w, wrap_key_bytes key wk i = (Ok w, S i) /\ unwrap_key_bytes w wk = Ok key
    /\ validate_wrapper w = Ok tt.
Proof using Type*.
  intros Hk Hw. destruct (aead_total wk (random_bytes i NONCE_LEN) "" key) as [c Hc];
    [done|apply random_bytes_length|by rewrite Hk|].
  unfold wrap_key_bytes. rewrite (run_bind_ok _ _ _ _ _ (eq_refl : fill_random _ _ = (Ok _, S i))).
  unfold lift_result. rewrite Hc. eexists. split; [done|].
  unfold unwrap_key_bytes, validate_wrapper, decoded. cbn [cipher_suite wvk_nonce wvk_ciphertext].
  rewrite !bool_decide_eq_true_2 by done. rewrite !b64_roundtrip. cbn -[Nat.eqb].
  rewrite random_bytes_length, !Nat.eqb_refl. cbn -[Nat.eqb].
  rewrite (aead_roundtrip _ _ _ _ _ Hc), (aead_length _ _ _ _ _ Hc), Hk. done.
Qed.

Lemma unwrap_key w wk key :
  String.length key = KEY_LEN -> unwrap_key_bytes w wk = Ok key -> unwrap_vault_key w wk = Ok key.
Proof using Type. intros Hk Hu. unfold unwrap_vault_key. rewrite Hu. cbn. unfold key_from_bytes. by rewrite Hk. Qed.

Lemma unlock_passphrase_wrapped pass p w b kek key :
  String.length key = KEY_LEN -> derive_kek pass p = Ok kek -> unwrap_key_bytes w kek = Ok key ->
  kdf b = p -> wrapped_vault_key b = w -> unlock_with_passphrase b pass = Ok key.
Proof using Type.
  intros Hk Hd Hu <- <-. unfold unlock_with_passphrase. rewrite Hd. cbn. by rewrite (unwrap_key _ _ _ Hk Hu).
Qed.

Lemma validate_usable b :
  kdf_usable (kdf b) -> crypto_version b = 1%N ->
  validate_wrapper (wrapped_vault_key b) = Ok tt -> validate_wrapper (recovery_wrapped_vault_key b) = Ok tt ->
  validate_bootstrap b = Ok tt.
Proof using Type.
  intros [Ha Hp Hm Ht (salt & Hs & Hlen)] Hv Hw Hr. unfold validate_bootstrap, kdf_in_bounds.
  rewrite Hv, Ha, bool_decide_eq_true_2 by done.
  rewrite (proj2 (N.eqb_neq (parallelism (kdf b)) 0)), (proj2 (N.ltb_ge 16 (parallelism (kdf b)))),
    (proj2 (N.ltb_ge (memory_kib (kdf b)) _)), (proj2 (N.ltb_ge 262144 (memory_kib (kdf b)))),
    (proj2 (N.eqb_neq (iterations (kdf b)) 0)), (proj2 (N.ltb_ge 16 (iterations (kdf b)))) by lia.
  unfold decoded. rewrite Hs. cbn -[Nat.leb].
  rewrite (proj2 (Nat.leb_le 8 _)), (proj2 (Nat.leb_le _ 64)) by lia. cbn. by rewrite Hw.
Qed.

(** What the recovery code gives depends on the recovery wrapper only. *)
Lemma unlock_recovery_same b b' code :
  recovery_wrapped_vault_key b' = recovery_wrapped_vault_key b ->
  unlock_with_recovery_key b' code = unlock_with_recovery_key b code.
Proof using Type. unfold unlock_with_recovery_key. by intros ->. Qed.

Lemma fingerprint_same b b' :
  recovery_wrapped_vault_key b' = recovery_wrapped_vault_key b -> crypto_version b' = crypto_version b ->
  validate_bootstrap b = Ok tt -> validate_bootstrap b' = Ok tt -> vault_fingerprint b' = vault_fingerprint b.
Proof using Type. unfold vault_fingerprint. by intros -> -> -> ->. Qed.

Lemma validate_bootstrap_inv b :
  validate_bootstrap b = Ok tt ->
  crypto_version b = 1%N /\ validate_wrapper (recovery_wrapped_vault_key b) = Ok tt.
Proof using Type.
  unfold validate_bootstrap, kdf_in_bounds. destruct (N.eqb_spec (crypto_version b) 1) as [Hv|]; [|done].
  cbn [negb orb]. destruct (_ || _ : bool); [done|]. cbn [negb].
  destruct (decoded _); [|done]. cbn -[Nat.leb]. destruct (negb _); [done|].
  destruct (validate_wrapper (wrapped_vault_key b)) as [[]|]; [|done]. done.
Qed.

(** The vault key survives.  With usable parameters a new vault is created; its
    bootstrap validates, and the passphrase and the printed recovery code each
    give back the same vault key.  Setting a new passphrase on any valid
    bootstrap that a recovery code opens gives one that the new passphrase
    opens to the same key, and that the code still opens, with the same
    fingerprint. *)
Lemma vault_key_survives pass p i :
  kdf_usable p -> typable pass ->
  (exists b code vk, init_vault pass p i = (Ok (b, code, vk), 4 + i)
     /\ String.length vk = KEY_LEN /\ validate_bootstrap b = Ok tt
     /\ unlock_with_passphrase b pass = Ok vk /\ unlock_with_recovery_key b code = Ok vk)
  /\ forall b code vk, validate_bootstrap b = Ok tt -> String.length vk = KEY_LEN ->
       unlock_with_recovery_key b code = Ok vk ->
       exists b', set_new_passphrase b vk pass p i = (Ok b', S i) /\ validate_bootstrap b' = Ok tt
         /\ unlock_with_passphrase b' pass = Ok vk /\ unlock_with_recovery_key b' code = Ok vk
         /\ vault_fingerprint b' = vault_fingerprint b.
Proof using Type*.
  intros Hp Hpass. destruct (derive_kek_run pass p Hp Hpass) as (kek & Hd & Hkek). split.
  - set (vk := random_bytes i KEY_LEN). set (rk := random_bytes (S i) KEY_LEN).
    assert (String.length vk = KEY_LEN) as Hvk by apply random_bytes_length.
    assert (String.length rk = KEY_LEN) as Hrk by apply random_bytes_length.
    destruct (wrap_run vk kek (S (S i))) as (w & Hw & Hu & Hv); [done..|].
    destruct (wrap_run vk rk (S (S (S i)))) as (w' & Hw' & Hu' & Hv'); [done..|].
    exists (mkVaultBootstrap PROTOCOL_VERSION_V1 p w w'), (format_recovery_key rk), vk. split_and!; [|done|..].
    + unfold init_vault, wrap_vault_key, wrap_vault_key_recovery, map_err, lift_result. rewrite Hd.
      unfold mbind, M_bind at 1. unfold mbind, M_bind at 1, fill_random. fold vk.
      unfold mbind, M_bind at 1. fold rk. unfold mbind, M_bind. rewrite Hw. by rewrite Hw'.
    + by apply validate_usable.
    + by eapply unlock_passphrase_wrapped.
    + unfold unlock_with_recovery_key. rewrite (parse_spelled _ rk) by (done || apply spells_format). cbn.
      unfold unwrap_vault_key_recovery. fold (unwrap_vault_key w' rk). by rewrite (unwrap_key _ _ _ Hvk Hu').
  - intros b code vk Hb Hvk Hcode. destruct (wrap_run vk kek i) as (w & Hw & Hu & Hv); [done..|].
    destruct (validate_bootstrap_inv b Hb) as [Hver Hrec].
    exists (mkVaultBootstrap (crypto_version b) p w (recovery_wrapped_vault_key b)).
    assert (validate_bootstrap (mkVaultBootstrap (crypto_version b) p w (recovery_wrapped_vault_key b)) = Ok tt) as Hb'
      by (by apply validate_usable).
    split_and!; [|done|by eapply unlock_passphrase_wrapped|by rewrite (unlock_recovery_same b)|by apply fingerprint_same].
    unfold set_new_passphrase, wrap_vault_key, map_err, lift_result. rewrite Hd. unfold mbind, M_bind. by rewrite Hw.
Qed.

(** A passphrase change outside a session: the same key, under the new
    passphrase. *)
Lemma rewrap_preserves old old_p w new new_p i kek vk :
  String.length vk = KEY_LEN -> kdf_usable new_p -> typable new ->
  derive_kek old old_p = Ok kek -> unwrap_vault_key w kek = Ok vk ->
  exists w' kek', rewrap_vault_key old old_p w new new_p i = (Ok (new_p, w', vk), S i)
    /\ derive_kek new new_p = Ok kek' /\ unwrap_vault_key w' kek' = Ok vk.
Proof using Type*.
  intros Hvk Hp Hnew Hd Hu. destruct (derive_kek_run new new_p Hp Hnew) as (kek' & Hd' & Hkek').
  destruct (wrap_run vk kek' i Hvk Hkek') as (w' & Hw' & Hu' & _). exists w', kek'.
  split_and!; [|done|by apply unwrap_key].
  unfold rewrap_vault_key, wrap_vault_key, lift_result, mbind, M_bind. rewrite Hd, Hu, Hd'. by rewrite Hw'.
Qed.

Lemma framed_inj a b x y :
  (N.of_nat (String.length a) <= u32_max)%N -> (N.of_nat (String.length b) <= u32_max)%N ->
  framed a +:+ x = framed b +:+ y -> a = b /\ x = y.
Proof using Type.
  unfold framed, u32_max. intros Ha Hb. rewrite !str_app_assoc. intros Heq.
  apply str_app_inj_len in Heq as [Hl Heq]; [|by rewrite !length_be_bytes].
  rewrite !N.mod_small in Hl by lia.
  apply be_bytes_inj in Hl; [|change (256 ^ N.of_nat 4)%N with 4294967296%N; lia..].
  apply str_app_inj_len in Heq as [-> ->]; [done|lia].
Qed.

Lemma validate_wrapper_inv w :
  validate_wrapper w = Ok tt -> cipher_suite w = "xchacha20poly1305" /\
  exists n c, decoded (wvk_nonce w) = Ok n /\ decoded (wvk_ciphertext w) = Ok c
    /\ String.length n = 24 /\ String.length c = 48.
Proof using Type.
  unfold validate_wrapper. destruct (bool_decide_reflect (cipher_suite w = "xchacha20poly1305")) as [Hs|]; [|done].
  cbn [negb]. destruct (decoded (wvk_nonce w)) as [n|]; [|done]. cbn -[Nat.eqb].
  destruct (Nat.eqb_spec (String.length n) 24) as [Hn|]; [|done]. cbn -[Nat.eqb].
  destruct (decoded (wvk_ciphertext w)) as [c|]; [|done]. cbn -[Nat.eqb].
  destruct (Nat.eqb_spec (String.length c) 48) as [Hc|]; [|done]. eauto 8.
Qed.

(** A fingerprint identifies the recovery wrapper: if two bootstraps have the
    same fingerprint, their recovery wrappers hold the same nonce and the same
    ciphertext, or the two inputs of BLAKE2s are a collision. *)
Lemma fingerprint_binding b1 b2 f :
  vault_fingerprint b1 = Ok f -> vault_fingerprint b2 = Ok f ->
  let w1 := recovery_wrapped_vault_key b1 in let w2 := recovery_wrapped_vault_key b2 in
  (crypto_version b1 = crypto_version b2 /\ cipher_suite w1 = cipher_suite w2
     /\ decoded (wvk_nonce w1) = decoded (wvk_nonce w2)
     /\ decoded (wvk_ciphertext w1) = decoded (wvk_ciphertext w2))
  \/ exists x y, x <> y /\ blake2s256 x = blake2s256 y.
Proof using Type.
  unfold vault_fingerprint.
  destruct (validate_bootstrap b1) as [[]|] eqn:Hb1; [|done].
  destruct (validate_bootstrap b2) as [[]|] eqn:Hb2; [|done]. cbn -[fingerprint_input hex].
  apply validate_bootstrap_inv in Hb1 as [Hv1 (Hs1 & n1 & c1 & -> & -> & Hn1 & Hc1)%validate_wrapper_inv].
  apply validate_bootstrap_inv in Hb2 as [Hv2 (Hs2 & n2 & c2 & -> & -> & Hn2 & Hc2)%validate_wrapper_inv].
  rewrite Hv1, Hv2, Hs1, Hs2. cbn -[fingerprint_input hex].
  intros F1 F2. assert (blake2s256 (fingerprint_input 1 "xchacha20poly1305" n1 c1)
    = blake2s256 (fingerprint_input 1 "xchacha20poly1305" n2 c2)) as Heq.
  { rewrite <- F2 in F1. injection F1 as F1. by apply hex_inj in F1. }
  destruct (decide (fingerprint_input 1 "xchacha20poly1305" n1 c1 = fingerprint_input 1 "xchacha20poly1305" n2 c2))
    as [Hin|Hne]; [left|right; eauto].
  unfold fingerprint_input in Hin. do 2 (apply str_app_inj_len in Hin as [_ Hin]; [|done]).
  apply framed_inj in Hin as [_ Hin]; [|done..].
  apply framed_inj in Hin as [-> Hin]; [|rewrite ?Hn1, ?Hn2; done..].
  rewrite <- (str_app_nil_r (framed c1)), <- (str_app_nil_r (framed c2)) in Hin.
  apply framed_inj in Hin as [-> _]; [done|rewrite ?Hc1, ?Hc2; done..].
Qed.
End vault.
