(* ===== verification/Search.v ===== *)
(** * The in-memory search index ([zk-core/src/search.rs])

    Entries in insertion order, one per note.  [to_lowercase] is [NoteLib]'s;
    the Unicode table of [char::is_alphanumeric] is the class [SearchLib].
    Byte positions and pattern matching work on the UTF-8 bytes, as [str]'s
    do. *)

From stdpp Require Import options.
From S2P Require Import Prelude Sorting Protocol StorageModels Storage CoreErrors Time Env Text Crypto Note.

Class SearchLib : Type := { is_alphanumeric : Char -> bool }.

Record IndexedNote : Type := mkIndexed {
  ix_id : string;
  ix_title : string;
  ix_tags : list string;
  ix_body : string;
  ix_updated_at : string
}.

Record SearchResult : Type := mkSearchResult {
  sr_id : string;
  sr_title : string;
  sr_tags : list string;
  sr_snippet : string;
  sr_updated_at : string;
  sr_score : N
}.

#[export] Instance IndexedNote_eq_dec : EqDecision IndexedNote.
Proof. solve_decision. Defined.
#[export] Instance SearchResult_eq_dec : EqDecision SearchResult.
Proof. solve_decision. Defined.

(** [InMemorySearchIndex]: its [entries]. *)
Definition InMemorySearchIndex : Type := list IndexedNote.

Record SearchTerm : Type := mkTerm {
  term_text : string;
  tag_only : bool
}.

(** ** Matching on strings *)

(** [str::find] *)
Fixpoint str_find (p s : string) : option nat :=
  if str_starts_with p s then Some 0
  else match s with
       | EmptyString => None
       | String _ s' => option_map S (str_find p s')
       end.

(** [str::contains] *)
Definition str_contains (p s : string) : bool :=
  match str_find p s with Some _ => true | None => false end.

(** [str::matches(p).count()]: occurrences that do not overlap; the empty
    pattern matches around every character. *)
Fixpoint count_fuel (fuel : nat) (p s : string) : nat :=
  match fuel with
  | O => 0
  | S fuel' =>
      match str_find p s with
      | Some i => S (count_fuel fuel' p (str_drop (i + String.length p) s))
      | None => 0
      end
  end.
Definition count_matches (p s : string) : nat :=
  match p with
  | EmptyString => S (length (chars s))
  | _ => count_fuel (String.length s) p s
  end.

(** [str::split] with a predicate on characters. *)
Fixpoint split_where (p : Char -> bool) (l : list Char) : list (list Char) :=
  match l with
  | [] => [[]]
  | c :: l' =>
      match split_where p l' with
      | w :: ws => if p c then [] :: w :: ws else (c :: w) :: ws
      | [] => [[]]
      end
  end.

Definition split_whitespace (s : string) : list string :=
  of_chars <$> List.filter (fun w => negb (bool_decide (w = []))) (split_where is_whitespace (chars s)).

Definition u32_mul (a b : N) : N := (a * b) mod 4294967296.

Module Index.
Section ops.
Context `{NoteLib} `{SearchLib}.
Implicit Types idx : InMemorySearchIndex.

Abbreviation by_id id := (has_key ix_id id).

Definition remove (id : string) (idx : InMemorySearchIndex) : InMemorySearchIndex :=
  remove_first (by_id id) idx.

Definition insert_raw (id title : string) (tags : list string) (body updated_at : string)
    (idx : InMemorySearchIndex) : InMemorySearchIndex :=
  remove id idx ++ [mkIndexed id title tags body updated_at].

Definition insert (id : string) (note : PlaintextNote) (idx : InMemorySearchIndex) : InMemorySearchIndex :=
  remove id idx ++ [mkIndexed id (n_title note) (n_tags note) (n_body note) (n_updated_at note)].

Definition clear (idx : InMemorySearchIndex) : InMemorySearchIndex := [].

Definition get (id : string) (idx : InMemorySearchIndex) : option IndexedNote := find_first (by_id id) idx.

(** ** Scoring *)

Definition in_tags (lower_tags : list string) (t : string) : bool :=
  existsb (fun tag => bool_decide (tag = t) || str_contains t tag) lower_tags.

Definition term_matches (lower_title lower_body : string) (lower_tags : list string) (term : SearchTerm) : bool :=
  if tag_only term then in_tags lower_tags (term_text term)
  else str_contains (term_text term) lower_title || str_contains (term_text term) lower_body
       || in_tags lower_tags (term_text term).

Definition title_score (lower_title t : string) : N :=
  if bool_decide (lower_title = t) then 60
  else if existsb (fun w => bool_decide (of_chars w = t))
            (split_where (fun c => negb (is_alphanumeric c)) (chars lower_title)) then 40
  else if str_contains t lower_title then 20 else 0.

Definition tag_score (t : string) (score : N) (tag : string) : N :=
  if bool_decide (tag = t) then u32_add score 50
  else if str_contains t tag then u32_add score 25 else score.

Definition body_score (lower_body : string) (term : SearchTerm) (score : N) : N :=
  if tag_only term then score
  else
    let count := count_matches (term_text term) lower_body in
    if (0 <? count)%nat then
      u32_add score (u32_add 10 (N.min (u32_mul (N.of_nat count mod 4294967296) 2) 20))
    else score.

Definition term_score (lower_title lower_body : string) (lower_tags : list string) (score : N)
    (term : SearchTerm) : N :=
  let score := u32_add score (title_score lower_title (term_text term)) in
  let score := fold_left (tag_score (term_text term)) lower_tags score in
  body_score lower_body term score.

Definition score_note (note : IndexedNote) (full_query : string) (terms : list SearchTerm) : option N :=
  let lower_title := to_lowercase (ix_title note) in
  let lower_body := to_lowercase (ix_body note) in
  let lower_tags := to_lowercase <$> ix_tags note in
  if negb (forallb (term_matches lower_title lower_body lower_tags) terms) then None
  else
    let score := 10%N in
    let score := if bool_decide (lower_title = full_query) then u32_add score 200
                 else if str_contains full_query lower_title then u32_add score 100 else score in
    let score := if str_contains full_query lower_body then u32_add score 40 else score in
    Some (fold_left (term_score lower_title lower_body lower_tags) terms score).

(** ** Snippets *)

Definition earlier (lower_body : string) (earliest_pos : option nat) (term : string) : option nat :=
  if bool_decide (term = "") then earliest_pos
  else match str_find term lower_body, earliest_pos with
       | Some pos, Some p => if (pos <? p)%nat then Some pos else earliest_pos
       | Some pos, None => Some pos
       | None, _ => earliest_pos
       end.

(** [body.char_indices().position(|(b, _)| b >= byte_pos)], from byte [at]
    and character [i] on. *)
Fixpoint char_position (byte_pos at_ i : nat) (l : list Char) : option nat :=
  match l with
  | [] => None
  | c :: l' => if (byte_pos <=? at_)%nat then Some i
               else char_position byte_pos (at_ + String.length (char_bytes c)) (S i) l'
  end.

Definition flatten_newline (c : Char) : Char :=
  if ((code_point c =? 10) || (code_point c =? 13))%N then mkChar 32 " " else c.

(** The characters of the snippet: from, to. *)
Definition snippet_range (body : string) (terms : list string) : nat * nat :=
  let lower_body := to_lowercase body in
  let n := length (chars body) in
  match fold_left (earlier lower_body) terms None with
  | Some byte_pos =>
      let match_char_idx := default 0 (char_position byte_pos 0 0 (chars body)) in
      (match_char_idx - 20, Nat.min n (match_char_idx + 40))
  | None => (0, Nat.min n 60)
  end.

Definition extract_snippet (body : string) (terms : list string) : string :=
  match body with
  | EmptyString => ""
  | _ =>
      let '(char_start, char_end) := snippet_range body terms in
      let snippet_str := of_chars (flatten_newline <$>
        take (char_end - char_start) (drop char_start (chars body))) in
      (if (0 <? char_start)%nat then "..." else "") +:+ str_trim snippet_str
      +:+ (if (char_end <? length (chars body))%nat then "..." else "")
  end.

(** ** Searching *)

Definition term_of (t : string) : SearchTerm :=
  match t with
  | String "#"%char stripped => mkTerm (to_lowercase stripped) true
  | _ => mkTerm (to_lowercase t) false
  end.

Definition search_terms (query : string) : list SearchTerm := term_of <$> split_whitespace (str_trim query).

(** Best first: score descending, then [updated_at] descending. *)
Definition rank (a b : SearchResult) : comparison :=
  then_cmp (N.compare (sr_score b) (sr_score a)) (String.compare (sr_updated_at b) (sr_updated_at a)).

Definition result_of (note : IndexedNote) (full_query_lower : string) (terms : list SearchTerm) : option SearchResult :=
  score ← score_note note full_query_lower terms;
  Some (mkSearchResult (ix_id note) (ix_title note) (ix_tags note)
          (extract_snippet (ix_body note) (term_text <$> terms)) (ix_updated_at note) score).

Definition search (query : string) (idx : InMemorySearchIndex) : list SearchResult :=
  let trimmed_query := str_trim query in
  if bool_decide (trimmed_query = "") then []
  else
    let terms := search_terms query in
    if bool_decide (length terms = 0) then []
    else sort_by rank (omap (fun note => result_of note (to_lowercase trimmed_query) terms) idx).
End ops.
End Index.

(** ** What a search returns

    The index is a finite map from note identifiers; a search returns exactly
    the entries that contain every term, best first. *)

(** ** Matching *)

Definition substring (p s : string) : Prop := exists a b, s = a +:+ p +:+ b.

Lemma starts_with_app p s : str_starts_with p s = true <-> exists b, s = p +:+ b.
Proof.
  revert s. induction p as [|c p IH]; intros s; cbn.
  { split; [intros _; by exists s|by destruct s]. }
  destruct s as [|d s]; [split; [done|by intros [b Hb]]|].
  rewrite andb_true_iff, bool_decide_eq_true, IH. setoid_rewrite str_app_cons. split.
  - intros [-> [b ->]]. by exists b.
  - intros [b [= -> ->]]. eauto.
Qed.

(** The first occurrence. *)
Lemma str_find_Some p s i :
  str_find p s = Some i ->
  (exists a b, s = a +:+ p +:+ b /\ String.length a = i)
  /\ forall a b, s = a +:+ p +:+ b -> i <= String.length a.
Proof.
  revert i. induction s as [|c s IH]; intros i Hf; cbn [str_find] in Hf.
  - destruct (str_starts_with p "") eqn:Hs; [|done]. injection Hf as <-. apply starts_with_app in Hs as [b Hb].
    split; [by exists "", b|lia].
  - destruct (str_starts_with p (String c s)) eqn:Hs.
    + injection Hf as <-. apply starts_with_app in Hs as [b Hb]. split; [by exists "", b|lia].
    + destruct (str_find p s) as [j|]; [|done]. injection Hf as <-. destruct (IH j eq_refl) as [(a & b & -> & Hl) Hmin].
      split; [exists (String c a), b; cbn; by rewrite Hl|].
      intros a' b' Heq. destruct a' as [|c' a']; [|].
      * exfalso. rewrite (proj2 (starts_with_app p _)) in Hs; [done|]. by exists b'.
      * rewrite str_app_cons in Heq. injection Heq as -> Heq. cbn. specialize (Hmin _ _ Heq). lia.
Qed.

Lemma str_find_None p s : str_find p s = None -> ~ substring p s.
Proof.
  induction s as [|c s IH]; cbn [str_find]; intros Hf (a & b & Heq).
  - destruct (str_starts_with p "") eqn:Hs; [done|]. destruct a; [|done].
    rewrite (proj2 (starts_with_app p _)) in Hs; [done|]. by exists b.
  - destruct (str_starts_with p (String c s)) eqn:Hs; [done|]. destruct a as [|c' a].
    + rewrite (proj2 (starts_with_app p _)) in Hs; [done|]. by exists b.
    + rewrite str_app_cons in Heq. injection Heq as -> Heq. destruct (str_find p s); [done|].
      apply (IH eq_refl). by exists a, b.
Qed.

Lemma str_contains_iff p s : str_contains p s = true <-> substring p s.
Proof.
  unfold str_contains. destruct (str_find p s) as [i|] eqn:Hf.
  - split; [|done]. intros _. apply str_find_Some in Hf as [(a & b & Heq & _) _]. by exists a, b.
  - split; [done|]. by apply str_find_None in Hf.
Qed.

#[export] Instance rank_trans : Transitive (not_gt Index.rank).
Proof.
  intros x y z. unfold not_gt, Index.rank, then_cmp.
  destruct (N.compare_spec (sr_score y) (sr_score x)) as [E1|L1|L1],
    (N.compare_spec (sr_score z) (sr_score y)) as [E2|L2|L2]; try done;
    destruct (N.compare_spec (sr_score z) (sr_score x)) as [E3|L3|L3]; try done; try lia.
  rewrite !str_compare_not_gt. intros Hxy Hyz. by etrans.
Qed.

Lemma rank_total x y : Index.rank x y = Gt -> not_gt Index.rank y x.
Proof.
  unfold not_gt, Index.rank, then_cmp. rewrite (N.compare_antisym (sr_score y)), (String.compare_antisym (sr_updated_at y)).
  by destruct (_ ?= _)%N, (String.compare _ _).
Qed.

(** ** The index as a map *)

Section index.
Context `{NoteLib} `{SearchLib}.
Implicit Types idx : InMemorySearchIndex.

Definition index_map idx : gmap string IndexedNote := list_to_map ((fun e => (ix_id e, e)) <$> idx).
Definition index_ids idx : list string := ix_id <$> idx.

Lemma get_lookup id idx : Index.get id idx = index_map idx !! id.
Proof using Type.
  unfold Index.get, index_map. induction idx as [|e idx IH]; [done|]. cbn. unfold has_key at 1.
  case_bool_decide as Hid; [by rewrite Hid, lookup_insert_eq|by rewrite lookup_insert_ne].
Qed.

Lemma remove_ids id idx : NoDup (index_ids idx) -> NoDup (index_ids (Index.remove id idx)).
Proof using Type. apply NoDup_remove_first. Qed.

Lemma remove_map id idx :
  NoDup (index_ids idx) -> index_map (Index.remove id idx) = delete id (index_map idx).
Proof using Type.
  intros Hnd. apply map_eq. intros k. rewrite <- get_lookup. destruct (decide (k = id)) as [->|Hne].
  - rewrite lookup_delete_eq. by apply find_first_remove_first.
  - rewrite lookup_delete_ne, <- get_lookup by done. by apply find_first_remove_first_ne.
Qed.

Lemma append_map e idx :
  ix_id e ∉ index_ids idx -> index_map (idx ++ [e]) = <[ix_id e := e]> (index_map idx).
Proof using Type.
  intros Hnin. apply map_eq. intros k. rewrite <- get_lookup. unfold Index.get. rewrite find_first_app.
  fold (Index.get k idx). rewrite get_lookup. cbn. unfold has_key. destruct (decide (k = ix_id e)) as [->|Hne].
  - rewrite lookup_insert_eq, <- get_lookup. unfold Index.get.
    rewrite (proj2 (find_first_key_None _ _ _) Hnin). by rewrite bool_decide_eq_true_2.
  - rewrite lookup_insert_ne by done. rewrite bool_decide_eq_false_2 by done. by destruct (_ !! k).
Qed.

Lemma insert_raw_ok id title tags body t idx :
  NoDup (index_ids idx) ->
  NoDup (index_ids (Index.insert_raw id title tags body t idx))
  /\ index_map (Index.insert_raw id title tags body t idx)
     = <[id := mkIndexed id title tags body t]> (index_map idx).
Proof using Type.
  intros Hnd. unfold Index.insert_raw.
  assert (id ∉ index_ids (Index.remove id idx)) as Hnin
    by (by apply (find_first_key_None ix_id), find_first_remove_first).
  split.
  - unfold index_ids. rewrite fmap_app. apply NoDup_app. split_and!; [by apply remove_ids| |apply NoDup_singleton].
    intros k Hk Hin. cbn in Hin. apply list_elem_of_singleton in Hin as ->. done.
  - rewrite (append_map (mkIndexed id title tags body t)) by done. cbn. by rewrite remove_map, insert_delete_eq.
Qed.

(** The index is a finite map.  Whatever was indexed and removed before,
    looking a note up reads the map, inserting overwrites the entry of that
    note, removing deletes it and no other, and clearing empties it; entries
    stay unique. *)
Lemma index_refines_map idx :
  NoDup (index_ids idx) ->
  (forall id, Index.get id idx = index_map idx !! id)
  /\ (forall id note, let idx' := Index.insert id note idx in NoDup (index_ids idx')
        /\ index_map idx' = <[id := mkIndexed id (n_title note) (n_tags note) (n_body note) (n_updated_at note)]> (index_map idx))
  /\ (forall id title tags body t, let idx' := Index.insert_raw id title tags body t idx in NoDup (index_ids idx')
        /\ index_map idx' = <[id := mkIndexed id title tags body t]> (index_map idx))
  /\ (forall id, let idx' := Index.remove id idx in NoDup (index_ids idx') /\ index_map idx' = delete id (index_map idx))
  /\ index_map (Index.clear idx) = ∅ /\ length idx = size (index_map idx).
Proof using Type.
  intros Hnd. split_and!.
  - intros id. apply get_lookup.
  - intros id note. by apply insert_raw_ok.
  - intros. by apply insert_raw_ok.
  - intros id. split; [by apply remove_ids|by apply remove_map].
  - done.
  - unfold index_map. induction idx as [|e idx IH]; [done|]. apply NoDup_cons in Hnd as [Hnin Hnd]. cbn.
    rewrite map_size_insert_None; [by rewrite <- IH|].
    change (index_map idx !! ix_id e = None). rewrite <- get_lookup. by apply find_first_key_None.
Qed.

(** ** Searching *)

(** The term is in the text of the note it applies to, ignoring case. *)
Definition note_matches (e : IndexedNote) (t : SearchTerm) : Prop :=
  (exists tag, tag ∈ ix_tags e /\ substring (term_text t) (to_lowercase tag))
  \/ tag_only t = false /\ (substring (term_text t) (to_lowercase (ix_title e))
                            \/ substring (term_text t) (to_lowercase (ix_body e))).

Lemma in_tags_iff tags t :
  Index.in_tags (to_lowercase <$> tags) t = true <-> exists tag, tag ∈ tags /\ substring t (to_lowercase tag).
Proof using Type.
  unfold Index.in_tags. rewrite existsb_exists. setoid_rewrite <- list_elem_of_In. split.
  - intros (x & Hin & Hx). apply list_elem_of_fmap in Hin as (tag & -> & Hin). exists tag. split; [done|].
    apply orb_true_iff in Hx as [->%bool_decide_eq_true|Hx%str_contains_iff]; [|done].
    exists "", "". by rewrite str_app_nil_l, str_app_nil_r.
  - intros (tag & Hin & Hs). exists (to_lowercase tag). split; [by apply list_elem_of_fmap_2|].
    apply orb_true_iff. right. by apply str_contains_iff.
Qed.

Lemma term_matches_iff e t :
  Index.term_matches (to_lowercase (ix_title e)) (to_lowercase (ix_body e)) (to_lowercase <$> ix_tags e) t = true
  <-> note_matches e t.
Proof using Type.
  unfold Index.term_matches, note_matches. destruct (tag_only t).
  - rewrite in_tags_iff. naive_solver.
  - rewrite !orb_true_iff, in_tags_iff, !str_contains_iff. naive_solver.
Qed.

Lemma result_of_iff e q terms :
  (exists r, Index.result_of e q terms = Some r) <-> Forall (note_matches e) terms.
Proof using Type.
  unfold Index.result_of, Index.score_note. cbv zeta. destruct (forallb _ terms) eqn:Hm; cbn [negb].
  - split; [|by intros; eexists]. intros _. rewrite forallb_forall in Hm. apply Forall_forall. intros t Ht.
    by apply term_matches_iff, Hm, list_elem_of_In.
  - split; [by intros (r & Hr)|]. intros Hall. apply not_true_iff_false in Hm. destruct Hm.
    apply forallb_forall. intros t Ht%list_elem_of_In. apply term_matches_iff. by rewrite Forall_forall in Hall; apply Hall.
Qed.

Lemma result_of_fields e q terms r :
  Index.result_of e q terms = Some r ->
  sr_id r = ix_id e /\ sr_title r = ix_title e /\ sr_tags r = ix_tags e /\ sr_updated_at r = ix_updated_at e.
Proof using Type. unfold Index.result_of. destruct (Index.score_note _ _ _); [|done]. by intros [= <-]. Qed.

(** C38. A search returns what it should.  A query without a word finds nothing.
    Otherwise the results are, with their identifier, title, tags and time,
    exactly the entries in which every term occurs, ignoring case: a [#] term in
    a tag, another term in the title, the body or a tag; and they are ordered
    by score and then by time, highest and latest first. *)
Theorem search_exact query idx :
  let terms := Index.search_terms query in let results := Index.search query idx in
  (terms = [] -> results = [])
  /\ (terms <> [] ->
       (forall r, r ∈ results -> exists e, e ∈ idx /\ Forall (note_matches e) terms
          /\ sr_id r = ix_id e /\ sr_title r = ix_title e /\ sr_tags r = ix_tags e /\ sr_updated_at r = ix_updated_at e)
       /\ (forall e, e ∈ idx -> Forall (note_matches e) terms -> exists r, r ∈ results /\ sr_id r = ix_id e)
       /\ length results <= length idx)
  /\ StronglySorted (not_gt Index.rank) results.
Proof using Type.
  intros terms results. unfold results, Index.search. fold terms.
  assert (str_trim query = "" -> terms = []) as Hblank by (unfold terms, Index.search_terms; by intros ->).
  set (f := fun note => Index.result_of note (to_lowercase (str_trim query)) terms).
  split_and!.
  - intros ->. by case_bool_decide.
  - intros Hne. rewrite !bool_decide_eq_false_2 by (intros Heq; apply Hne; first [by apply Hblank|by apply nil_length_inv]). split_and!.
    + intros r. rewrite sort_by_perm, list_elem_of_omap. intros (e & He & Hr).
      exists e. split; [done|]. split; [apply (result_of_iff e (to_lowercase (str_trim query))); by exists r|].
      by apply result_of_fields in Hr.
    + intros e He Hall. destruct (proj2 (result_of_iff e (to_lowercase (str_trim query)) terms) Hall) as (r & Hr).
      exists r. rewrite sort_by_perm, list_elem_of_omap. split; [by exists e|]. by eapply result_of_fields.
    + rewrite sort_by_perm. clear. induction idx as [|e idx IH]; [done|]. cbn. destruct (f e); cbn; lia.
  - repeat case_bool_decide; [constructor..|]. apply sort_by_sorted; [apply _|apply rank_total].
Qed.
End index.
