(* ===== verification/Session.v ===== *)
(** * Vault sessions ([VaultSession] of [zk-core/src/vault.rs])

    The unlocked key and the volatile index, with the idle timeout.  An
    operation that reads the clock takes the reading, in seconds. *)

From stdpp Require Import options.
From S2P Require Import Prelude Protocol StorageModels Storage CoreErrors Time Env Text Crypto Note Search.

Record VaultSession : Type := mkSession {
  vs_active_key : option string;
  vs_search_index : option InMemorySearchIndex;
  vs_last_active_secs : N;
  vs_idle_timeout_secs : option N
}.

Module Session.

(** [timeout_secs.filter(|&s| s > 0)] *)
Definition positive (timeout_secs : option N) : option N :=
  s ← timeout_secs; if (0 <? s)%N then Some s else None.

Definition new (now : N) : VaultSession := mkSession None None now None.
Definition from_key (key : string) (now : N) : VaultSession := mkSession (Some key) (Some []) now None.
Definition with_idle_timeout (key : string) (timeout_secs : option N) (now : N) : VaultSession :=
  mkSession (Some key) (Some []) now (positive timeout_secs).

Definition set_idle_timeout (timeout_secs : option N) (s : VaultSession) : VaultSession :=
  mkSession (vs_active_key s) (vs_search_index s) (vs_last_active_secs s) (positive timeout_secs).

Definition touch (now : N) (s : VaultSession) : VaultSession :=
  mkSession (vs_active_key s) (vs_search_index s) now (vs_idle_timeout_secs s).

Definition unlock (key : string) (now : N) (s : VaultSession) : VaultSession :=
  mkSession (Some key) (Some []) now (vs_idle_timeout_secs s).

Definition lock (s : VaultSession) : VaultSession :=
  mkSession None None (vs_last_active_secs s) (vs_idle_timeout_secs s).

Definition is_unlocked (s : VaultSession) : bool := bool_decide (is_Some (vs_active_key s)).

Definition check_idle_timeout (now : N) (s : VaultSession) : bool * VaultSession :=
  if negb (is_unlocked s) then (false, s)
  else match vs_idle_timeout_secs s with
       | Some timeout =>
           if (timeout <=? now - vs_last_active_secs s)%N then (true, lock s) else (false, s)
       | None => (false, s)
       end.

Definition active_key (s : VaultSession) : Result string CoreError :=
  match vs_active_key s with Some key => Ok key | None => Err CE_VaultLocked end.

Definition search_index (s : VaultSession) : Result InMemorySearchIndex CoreError :=
  match vs_search_index s with Some idx => Ok idx | None => Err CE_VaultLocked end.

(** What a caller does through [search_index_mut], if it gets the index. *)
Definition update_index (f : InMemorySearchIndex -> InMemorySearchIndex) (s : VaultSession) : VaultSession :=
  mkSession (vs_active_key s) (f <$> vs_search_index s) (vs_last_active_secs s) (vs_idle_timeout_secs s).
End Session.

(** ** Sequences of operations *)

Inductive session_op : Type :=
| SoTouch (now : N)
| SoCheck (now : N)
| SoUnlock (key : string) (now : N)
| SoLock
| SoTimeout (timeout_secs : option N)
| SoInsert (id : string) (note : PlaintextNote)
| SoRemove (id : string).

Definition session_step (s : VaultSession) (op : session_op) : VaultSession :=
  match op with
  | SoTouch now => Session.touch now s
  | SoCheck now => (Session.check_idle_timeout now s).2
  | SoUnlock key now => Session.unlock key now s
  | SoLock => Session.lock s
  | SoTimeout t => Session.set_idle_timeout t s
  | SoInsert id note => Session.update_index (Index.insert id note) s
  | SoRemove id => Session.update_index (Index.remove id) s
  end.

Definition session_run (s : VaultSession) (ops : list session_op) : VaultSession := fold_left session_step ops s.

(** There is an index exactly while there is a key; no timeout is zero. *)
Record session_wf (s : VaultSession) : Prop := {
  sw_index : is_Some (vs_search_index s) <-> is_Some (vs_active_key s);
  sw_timeout : vs_idle_timeout_secs s <> Some 0%N;
  sw_unique idx : vs_search_index s = Some idx -> NoDup (index_ids idx)
}.

Lemma positive_ne t : Session.positive t <> Some 0%N.
Proof. destruct t as [n|]; [|done]. cbn. destruct (N.ltb_spec 0 n); [|done]. intros [=]. lia. Qed.

Lemma lock_wf s : session_wf s -> session_wf (Session.lock s).
Proof. intros [_ Ht _]. split; [|done|done]. cbn. split; by intros []. Qed.

Lemma fresh_wf key now t : t <> Some 0%N -> session_wf (mkSession (Some key) (Some []) now t).
Proof. intros Ht. split; [done|done|]. cbn. intros idx [= <-]. constructor. Qed.

Lemma update_wf f s :
  (forall idx, NoDup (index_ids idx) -> NoDup (index_ids (f idx))) ->
  session_wf s -> session_wf (Session.update_index f s).
Proof.
  intros Hf [Hi Ht Hu]. split; cbn; [by rewrite fmap_is_Some|done|].
  intros idx (idx0 & Heq & ->)%fmap_Some. apply Hf, Hu. done.
Qed.

Lemma session_step_wf s op : session_wf s -> session_wf (session_step s op).
Proof.
  intros Hwf. pose proof Hwf as [Hi Ht Hu]. destruct op; cbn [session_step].
  - by split.
  - unfold Session.check_idle_timeout. destruct (negb _); [done|].
    destruct (vs_idle_timeout_secs s) as [t|]; [|done]. destruct (t <=? _)%N; [by apply lock_wf|done].
  - by apply fresh_wf.
  - by apply lock_wf.
  - split; [done|apply positive_ne|done].
  - apply update_wf; [|done]. intros idx Hnd. by apply insert_raw_ok.
  - apply update_wf; [|done]. intros idx Hnd. by apply remove_ids.
Qed.

Lemma session_run_wf ops : forall s, session_wf s -> session_wf (session_run s ops).
Proof.
  induction ops as [|op ops IH]; intros s Hs; [done|]. cbn. apply IH, session_step_wf, Hs.
Qed.

Definition is_unlock (op : session_op) : bool := match op with SoUnlock _ _ => true | _ => false end.

(** Nothing is left: no key and no index. *)
Definition session_empty (s : VaultSession) : Prop := vs_active_key s = None /\ vs_search_index s = None.

Lemma session_stays_empty ops : forall s,
  session_empty s -> existsb is_unlock ops = false -> session_empty (session_run s ops).
Proof.
  induction ops as [|op ops IH]; intros s Hs Hno; [done|]. cbn in *. apply orb_false_iff in Hno as [Hop Hno].
  apply IH; [|done]. destruct Hs as [Hk Hi]. destruct op; cbn in *; try done; split; cbn; rewrite ?Hi; try done;
    unfold Session.check_idle_timeout, Session.is_unlocked; by rewrite bool_decide_eq_false_2 by (by rewrite Hk; intros []).
Qed.

(** C39. A session keeps plaintext only while it is unlocked.  Through any sequence
    of operations on a new session, the decrypted index exists exactly while
    the key does, with one entry per note.  Once locked, or checked after its
    idle timeout, the session holds neither key nor index, whatever is done to
    it, until it is unlocked again. *)
Theorem session_holds_nothing_locked now0 ops :
  let s := session_run (Session.new now0) ops in
  session_wf s
  /\ (forall rest, existsb is_unlock rest = false -> session_empty (session_run (Session.lock s) rest))
  /\ forall now timeout rest,
       vs_idle_timeout_secs s = Some timeout -> (timeout <= now - vs_last_active_secs s)%N ->
       existsb is_unlock rest = false ->
       session_empty (session_run (Session.check_idle_timeout now s).2 rest)
       /\ (Session.check_idle_timeout now s).1 = Session.is_unlocked s.
Proof.
  intros s. assert (session_wf s) as Hwf
    by (apply session_run_wf; split; [cbn; split; by intros []|done|done]).
  split_and!; [done|intros rest Hno; by apply session_stays_empty|].
  intros now timeout rest Ht Hle Hno. unfold Session.check_idle_timeout.
  destruct (Session.is_unlocked s) eqn:Hu; cbn [negb].
  - rewrite Ht, (proj2 (N.leb_le _ _) Hle). split; [by apply session_stays_empty|done].
  - split; [|done]. apply session_stays_empty; [|done]. unfold Session.is_unlocked in Hu.
    apply bool_decide_eq_false in Hu. destruct Hwf as [Hi _ _].
    split; apply eq_None_not_Some; [done|by rewrite Hi].
Qed.

(** An expired session still counts as unlocked: until [check_idle_timeout] is
    called, a session idle for longer than its timeout answers [is_unlocked]
    with true and hands out its key. *)
Lemma expired_session_unlocked key timeout now later :
  (0 < timeout)%N -> (now + timeout <= later)%N ->
  let s := Session.with_idle_timeout key (Some timeout) now in
  Session.is_unlocked s = true /\ Session.active_key s = Ok key
  /\ Session.check_idle_timeout later s = (true, Session.lock s).
Proof.
  intros Hpos Hlate. cbn. split_and!; [done..|].
  unfold Session.check_idle_timeout, Session.with_idle_timeout, Session.is_unlocked, Session.positive. cbn.
  rewrite (proj2 (N.ltb_lt 0 timeout) Hpos). cbn. rewrite (proj2 (N.leb_le timeout (later - now))) by lia. done.
Qed.
