(* ===== verification/Merge.v ===== *)
(** * Three-way merge of notes ([zk-sync/src/merge.rs])

    Titles by the scalar rule, bodies by [diff3_merge], tags and attachments
    as sets.  A [BTreeSet] is a [gset]; its iterator is the sorted list of its
    elements.  The candidate's timestamp is the argument [now]; a merge that
    panics in [diff3_merge] is [None] ([merge_total]: there is none). *)

From stdpp Require Import options.
From stdpp Require Import sorting.
From S2P Require Import Prelude Protocol StorageModels Storage CoreErrors Time Env Text Diff3 Crypto Note.

Inductive FieldMergeStatus (T : Type) : Type :=
| Unchanged (t : T)
| LocalOnly (t : T)
| RemoteOnly (t : T)
| Identical (t : T)
| Merged (t : T)
| FieldDiverged (base local remote : T).
Arguments Unchanged {T}.
Arguments LocalOnly {T}.
Arguments RemoteOnly {T}.
Arguments Identical {T}.
Arguments Merged {T}.
Arguments FieldDiverged {T}.

Inductive FieldConflict : Type :=
| FC_Title (base local remote : string)
| FC_Body (base local remote : string)
| FC_Attachments (base local remote : list string).

Record NoteMergeOutcome : Type := mkMergeOutcome {
  mo_candidate : PlaintextNote;
  mo_conflicts : list FieldConflict;
  mo_title_status : FieldMergeStatus string;
  mo_body_status : FieldMergeStatus string;
  mo_body_diff : option Diff3Result
}.

(** [NoteMergeOutcome::is_clean] *)
Definition mo_is_clean (o : NoteMergeOutcome) : bool :=
  match mo_conflicts o with [] => true | _ => false end.

Definition merge_scalar_field {T} `{EqDecision T} (base local remote : T) : FieldMergeStatus T :=
  match bool_decide (local <> base), bool_decide (remote <> base) with
  | false, false => Unchanged base
  | true, false => LocalOnly local
  | false, true => RemoteOnly remote
  | true, true =>
      if bool_decide (local = remote) then Identical local
      else FieldDiverged base local remote
  end.

(** The loop over all elements, in order. *)
Definition merge_sets (skip : string -> bool) (base_set local_set remote_set : gset string) : gset string :=
  fold_left (fun merged x =>
    if skip x then merged
    else if bool_decide (x ∈ base_set) then
      (if bool_decide (x ∈ local_set) && bool_decide (x ∈ remote_set) then {[x]} ∪ merged else merged)
    else if bool_decide (x ∈ local_set) || bool_decide (x ∈ remote_set) then {[x]} ∪ merged else merged)
    (btree_elements (base_set ∪ local_set ∪ remote_set)) ∅.

Definition merge_attachments (base local remote : list string) : list string :=
  btree_elements (merge_sets (fun _ => false) (list_to_set base) (list_to_set local) (list_to_set remote)).

Section merge.
Context `{NoteLib}.

Definition merge_tags (base local remote : list string) : list string :=
  btree_elements (merge_sets (fun tag => bool_decide (tag = ""))
    (list_to_set (map canonical_tag base)) (list_to_set (map canonical_tag local))
    (list_to_set (map canonical_tag remote))).

(** The title, and the conflict pushed for it. *)
Definition final_title (status : FieldMergeStatus string) : string * list FieldConflict :=
  match status with
  | Unchanged t | LocalOnly t | RemoteOnly t | Identical t | Merged t => (t, [])
  | FieldDiverged b l r => (l, [FC_Title b l r])
  end.

Definition final_body (base local remote : string) (body_diff : Diff3Result)
    : string * FieldMergeStatus string * list FieldConflict :=
  if bool_decide (base = local) && bool_decide (base = remote) then (base, Unchanged base, [])
  else if bool_decide (base <> local) && bool_decide (base = remote) then (local, LocalOnly local, [])
  else if bool_decide (base = local) && bool_decide (base <> remote) then (remote, RemoteOnly remote, [])
  else if bool_decide (local = remote) then (local, Identical local, [])
  else if d3_is_clean body_diff then (d3_merged_text body_diff, Merged (d3_merged_text body_diff), [])
  else (d3_merged_text body_diff, FieldDiverged base local remote, [FC_Body base local remote]).

Definition three_way_merge_note (now : string) (base local remote : PlaintextNote)
    : option NoteMergeOutcome :=
  let title_status := merge_scalar_field (n_title base) (n_title local) (n_title remote) in
  let '(title, title_conflicts) := final_title title_status in
  body_diff ← diff3_merge (n_body base) (n_body local) (n_body remote);
  let '(body, body_status, body_conflicts) :=
    final_body (n_body base) (n_body local) (n_body remote) body_diff in
  let tags := merge_tags (n_tags base) (n_tags local) (n_tags remote) in
  let attachments := merge_attachments (n_attachments base) (n_attachments local) (n_attachments remote) in
  let candidate := PlaintextNote_new now title body in
  let candidate := mkNote (n_schema_version candidate) (n_title candidate) (n_body candidate) tags
    (n_created_at base) (n_updated_at candidate) attachments in
  Some (mkMergeOutcome (canonicalize candidate) (title_conflicts ++ body_conflicts) title_status
    body_status (Some body_diff)).
End merge.

(** ** Theorems *)

(** What the set merge keeps: of the base, what neither side removed; of the
    rest, what either side added. *)
Definition kept {A} (b l r : A -> Prop) (x : A) : Prop := (b x /\ l x /\ r x) \/ (~ b x /\ (l x \/ r x)).

Lemma elem_of_collect (f : gset string -> string -> gset string) (K : string -> Prop) xs acc x :
  (forall m y z, z ∈ f m y <-> z ∈ m \/ (z = y /\ K y)) ->
  x ∈ fold_left f xs acc <-> x ∈ acc \/ (x ∈ xs /\ K x).
Proof.
  intros Hf. revert acc. induction xs as [|y xs IH]; intros acc; cbn [fold_left].
  - split; [by left|]. intros [Hx|[Hx _]]; [done|by apply elem_of_nil in Hx].
  - rewrite IH, Hf, elem_of_cons. naive_solver.
Qed.

Lemma elem_of_merge_sets skip (b l r : gset string) x :
  x ∈ merge_sets skip b l r <-> skip x = false /\ kept (.∈ b) (.∈ l) (.∈ r) x.
Proof.
  unfold merge_sets. rewrite (elem_of_collect _ (fun y => skip y = false /\ kept (.∈ b) (.∈ l) (.∈ r) y)).
  - rewrite elem_of_btree_elements, elem_of_empty, !elem_of_union. unfold kept. naive_solver.
  - clear x. intros m y x. unfold kept.
    destruct (skip y); [naive_solver|].
    repeat case_bool_decide; cbn [andb orb]; rewrite ?elem_of_union, ?elem_of_singleton; naive_solver.
Qed.

Lemma merge_attachments_ok b l r :
  StronglySorted String.le (merge_attachments b l r) /\ NoDup (merge_attachments b l r)
  /\ forall x, x ∈ merge_attachments b l r <-> kept (.∈ b) (.∈ l) (.∈ r) x.
Proof.
  unfold merge_attachments. destruct (btree_elements_sorted (merge_sets (fun _ => false)
    (list_to_set b) (list_to_set l) (list_to_set r))) as [Hs Hn].
  split_and!; [done|done|]. intros x. rewrite elem_of_btree_elements, elem_of_merge_sets.
  unfold kept. rewrite !elem_of_list_to_set. naive_solver.
Qed.

Lemma kept_swap {A} (b l r : A -> Prop) x : kept b l r x <-> kept b r l x.
Proof. unfold kept. tauto. Qed.

Lemma merge_attachments_swap b l r : merge_attachments b r l = merge_attachments b l r.
Proof.
  destruct (merge_attachments_ok b l r) as (Hs & Hn & He), (merge_attachments_ok b r l) as (Hs' & Hn' & He').
  apply sorted_set_unique; [done..|]. intros x. rewrite He, He'. apply kept_swap.
Qed.

Section facts.
Context `{NoteLib}.

Lemma merge_tags_ok b l r :
  StronglySorted String.le (merge_tags b l r) /\ NoDup (merge_tags b l r)
  /\ forall t, t ∈ merge_tags b l r <->
       t <> "" /\ kept (.∈ canonical_tags b) (.∈ canonical_tags l) (.∈ canonical_tags r) t.
Proof.
  unfold merge_tags. destruct (btree_elements_sorted (merge_sets (fun tag => bool_decide (tag = ""))
    (list_to_set (map canonical_tag b)) (list_to_set (map canonical_tag l))
    (list_to_set (map canonical_tag r)))) as [Hs Hn].
  split_and!; [done|done|]. intros t. rewrite elem_of_btree_elements, elem_of_merge_sets, bool_decide_eq_false.
  unfold kept. rewrite !elem_of_list_to_set, !elem_of_canonical_tags. tauto.
Qed.

Lemma merge_tags_swap b l r : merge_tags b r l = merge_tags b l r.
Proof.
  destruct (merge_tags_ok b l r) as (Hs & Hn & He), (merge_tags_ok b r l) as (Hs' & Hn' & He').
  apply sorted_set_unique; [done..|]. intros x. rewrite He, He', kept_swap. done.
Qed.

Lemma merge_total now base local remote : exists o, three_way_merge_note now base local remote = Some o.
Proof.
  unfold three_way_merge_note.
  destruct (diff3_symmetric (n_body base) (n_body local) (n_body remote)) as (d & _ & Hd & _).
  rewrite Hd. destruct (final_title _). cbn. destruct (final_body _ _ _ _) as [[? ?] ?]. eauto.
Qed.
End facts.

(** C33. Merging does not depend on which client is local: with the sides swapped
    (and at the same time) the merge is clean exactly when it was, the tags and
    attachments are the same, and a clean merge gives the same note, so two
    clients that merge each other's edits over the same base converge. *)
Theorem merge_converges `{NoteLib} now base local remote :
  exists o o', three_way_merge_note now base local remote = Some o
    /\ three_way_merge_note now base remote local = Some o'
    /\ mo_is_clean o' = mo_is_clean o
    /\ n_tags (mo_candidate o') = n_tags (mo_candidate o)
    /\ n_attachments (mo_candidate o') = n_attachments (mo_candidate o)
    /\ (mo_is_clean o = true -> mo_candidate o' = mo_candidate o).
Proof.
  destruct (diff3_symmetric (n_body base) (n_body local) (n_body remote)) as (d & d' & Hd & Hd' & Hclean & _ & Htext).
  unfold three_way_merge_note. rewrite Hd, Hd', merge_tags_swap, merge_attachments_swap.
  unfold merge_scalar_field, final_body. cbn [mbind option_bind].
  repeat case_bool_decide; subst; cbn [andb final_title]; try done;
    rewrite ?Hclean; try (destruct (d3_is_clean d) eqn:Hc; [rewrite (Htext eq_refl)|]);
    eexists _, _; split_and!; try done; intros _; cbn -[canonicalize]; congruence.
Qed.

(** Tags and attachments merge as sets: what the base has survives when
    neither side removed it, what the base has not is added when either side
    added it, and nothing else; tags are compared and stored in canonical form,
    none is empty, and the results are strictly sorted. *)
Lemma merge_sets_three_way `{NoteLib} b l r :
  StronglySorted String.le (merge_tags b l r) /\ NoDup (merge_tags b l r)
  /\ (forall t, t ∈ merge_tags b l r <->
       t <> "" /\ kept (.∈ canonical_tags b) (.∈ canonical_tags l) (.∈ canonical_tags r) t)
  /\ StronglySorted String.le (merge_attachments b l r) /\ NoDup (merge_attachments b l r)
  /\ (forall x, x ∈ merge_attachments b l r <-> kept (.∈ b) (.∈ l) (.∈ r) x).
Proof.
  destruct (merge_tags_ok b l r) as (? & ? & ?), (merge_attachments_ok b l r) as (? & ? & ?). done.
Qed.

Lemma merge_tags_one_sided `{NoteLib} b l r :
  canonical_tags r = canonical_tags b -> merge_tags b l r = canonical_tags l.
Proof.
  intros Hr. destruct (merge_tags_ok b l r) as (Hs & Hn & He), (canonical_tags_sorted l) as [Hs' Hn'].
  apply sorted_set_unique; [done..|]. intros t. rewrite He, Hr.
  pose proof (elem_of_canonical_tags t l) as Hl. unfold kept.
  destruct (decide (t ∈ canonical_tags b)); tauto.
Qed.

Lemma merge_attachments_one_sided b l r :
  (forall x, x ∈ r <-> x ∈ b) -> merge_attachments b l r = btree_elements (list_to_set l).
Proof.
  intros Hr. destruct (merge_attachments_ok b l r) as (Hs & Hn & He),
    (btree_elements_sorted (list_to_set l)) as [Hs' Hn'].
  apply sorted_set_unique; [done..|]. intros x.
  rewrite He, elem_of_btree_elements, elem_of_list_to_set. unfold kept. rewrite Hr.
  destruct (decide (x ∈ b)); tauto.
Qed.

Lemma final_title_one_sided b l : final_title (merge_scalar_field b l b) = (l, []).
Proof.
  unfold merge_scalar_field. rewrite (bool_decide_eq_false_2 (b <> b)) by tauto.
  case_bool_decide as E; [done|]. by rewrite E.
Qed.

Lemma final_body_one_sided b l d : exists st, final_body b l b d = (l, st, []).
Proof.
  unfold final_body. rewrite (bool_decide_eq_true_2 (b = b)) by done.
  case_bool_decide as E; cbn; [subst; eauto|]. rewrite bool_decide_eq_true_2 by done. cbn. eauto.
Qed.

(** A note only one client changed merges cleanly to that client's version:
    when the remote note has the base's title, body, tags and attachments, the
    candidate is the local note in canonical form, created when the base was
    and updated at the time of the merge. *)
Lemma merge_one_sided `{NoteLib} now base local remote :
  n_title remote = n_title base -> n_body remote = n_body base ->
  canonical_tags (n_tags remote) = canonical_tags (n_tags base) ->
  (forall x, x ∈ n_attachments remote <-> x ∈ n_attachments base) ->
  exists o, three_way_merge_note now base local remote = Some o /\ mo_is_clean o = true
    /\ mo_candidate o = canonicalize (mkNote NOTE_SCHEMA_VERSION_V1 (n_title local) (n_body local)
         (canonical_tags (n_tags local)) (n_created_at base) now
         (btree_elements (list_to_set (n_attachments local)))).
Proof.
  intros Ht Hb Htags Hatt. unfold three_way_merge_note.
  destruct (diff3_symmetric (n_body base) (n_body local) (n_body remote)) as (d & _ & Hd & _).
  rewrite Hd, (merge_tags_one_sided _ _ _ Htags), (merge_attachments_one_sided _ _ _ Hatt), Ht, Hb.
  rewrite final_title_one_sided. cbn [mbind option_bind].
  destruct (final_body_one_sided (n_body base) (n_body local) d) as [st ->].
  by eexists.
Qed.
