(* ===== verification/NoteSamples.v ===== *)
(** * A cipher and a note codec to run on

    Instances of [CryptoLib] and [NoteLib] that satisfy their laws: a cipher
    that authenticates key, nonce and associated data by a checksum, and a
    codec for notes that have only a title.  They show the laws can hold and
    let the note operations be evaluated. *)

From stdpp Require Import options.
From S2P Require Import Prelude Protocol StorageModels Storage CoreErrors Time Env Text Diff3 Crypto Note Merge.

#[export] Existing Instance sample_env.

(** A sixteen-byte checksum. *)
Definition sample_tag (s : string) : string :=
  be_bytes TAG_LEN ((fix go (acc : N) (s : string) : N :=
    match s with
    | EmptyString => acc
    | String c s' => go ((acc * 257 + N_of_ascii c + 1) mod 340282366920938463463374607431768211456)%N s'
    end) 0%N s).

Lemma length_sample_tag s : String.length (sample_tag s) = TAG_LEN.
Proof. apply length_be_bytes. Qed.

#[export] Instance sample_crypto : CryptoLib := {
  aead_encrypt k n ad m := Ok (sample_tag (k +:+ n +:+ ad) +:+ m);
  aead_decrypt k n ad c := strip_prefix (sample_tag (k +:+ n +:+ ad)) c;
  b64_encode s := s;
  b64_decode s := Ok s
}.

Lemma length_zeros n : String.length (Time.zeros n) = n.
Proof. induction n as [|n IH]; [done|]. cbn. by rewrite IH. Qed.

#[export] Instance sample_crypto_laws : CryptoLaws.
Proof.
  constructor; cbn [aead_encrypt aead_decrypt b64_encode b64_decode sample_crypto].
  - eauto.
  - intros k n ad m c [= <-]. apply strip_prefix_app.
  - intros k n ad m c [= <-]. rewrite str_length_app, length_sample_tag. lia.
  - done.
  - intros i n. apply length_zeros.
Qed.

(** A note with only a title, of 2024. *)
Definition titled (title : string) : PlaintextNote :=
  mkNote NOTE_SCHEMA_VERSION_V1 title "" [] "2024-01-01T00:00:00.000Z" "2024-01-01T00:00:00.000Z" [].

#[export] Instance sample_notes : NoteLib := {
  to_lowercase s := s;
  note_to_json n :=
    if bool_decide (n = titled (n_title n)) && utf8_valid (n_title n) then Ok (n_title n)
    else Err "unsupported note";
  note_from_json s := Ok (titled s);
  utf8_error s := "invalid utf-8 sequence";
  str_debug s := s
}.

#[export] Instance sample_note_laws : NoteLaws.
Proof.
  constructor; cbn; intros n s; destruct (andb _ _) eqn:E; [|done| |done]; intros [= <-];
    apply andb_true_iff in E as [E%bool_decide_eq_true ?]; [by rewrite <- E|done].
Qed.

Definition sample_vault_key : string := Time.zeros KEY_LEN.

Lemma note_encrypt_roundtrip_witness :
  exists env, encrypt (titled "plan") sample_vault_key "a" 0 = (Ok env, 3)
    /\ env_object_id env = "a" /\ decrypt env sample_vault_key = Ok (titled "plan").
Proof.
  exact (note_encrypt_roundtrip (titled "plan") sample_vault_key "a" 0 "plan"
    ltac:(vm_compute; reflexivity) ltac:(vm_compute; reflexivity) ltac:(vm_compute; discriminate)).
Defined.

(** ** A merge *)

Definition tagged (title body : string) (tags : list string) : PlaintextNote :=
  mkNote NOTE_SCHEMA_VERSION_V1 title body tags "2024-01-01T00:00:00.000Z" "2024-01-01T00:00:00.000Z" [].

Example merge_example :
  (fun o => (mo_is_clean o, mo_candidate o)) <$>
    three_way_merge_note "2024-01-02T00:00:00.000Z"
      (tagged "t" sample_base ["x"; "y"]) (tagged "t" sample_left ["x"; "y"; "z"])
      (tagged "u" sample_right ["y"])
  = Some (true, mkNote 1 "u" (join_lines ["a"; "B"; "c"; "d"; "e"]) ["y"; "z"]
      "2024-01-01T00:00:00.000Z" "2024-01-02T00:00:00.000Z" []).
Proof. vm_compute. reflexivity. Qed.

Lemma merge_one_sided_witness :
  exists o, three_way_merge_note "2024-01-02T00:00:00.000Z" (tagged "t" "a" ["x"]) (tagged "u" "b" [" y"])
      (tagged "t" "a" ["x "; "x"]) = Some o
    /\ mo_is_clean o = true
    /\ mo_candidate o = mkNote 1 "u" "b" ["y"] "2024-01-01T00:00:00.000Z" "2024-01-02T00:00:00.000Z" [].
Proof.
  destruct (merge_one_sided "2024-01-02T00:00:00.000Z" (tagged "t" "a" ["x"]) (tagged "u" "b" [" y"])
    (tagged "t" "a" ["x "; "x"])) as (o & Hrun & Hclean & Hcand);
    [reflexivity|reflexivity|vm_compute; reflexivity|intros x; split; intros Hx; exact Hx|].
  exists o. split; [exact Hrun|]. split; [exact Hclean|]. rewrite Hcand. vm_compute. reflexivity.
Defined.
