(* ===== verification/Conflict.v ===== *)
(** * Conflicts: recording, resolution, Guarded last-write-wins
      ([zk-sync/src/conflict.rs])

    [generate_merge_candidate], [record_conflict], [resolve_conflict] and
    [evaluate_guarded_lww] over any storage backend, which may fail at any
    operation.  Where the code ignores an error ([let _ =]) so does the
    model. *)

From stdpp Require Import options.
From S2P Require Import Prelude Protocol StorageModels Storage CoreErrors Time Env Queue Text Diff3 Crypto Note.
From S2P Require Import Merge.

Inductive ConflictPolicy : Type := Manual | GuardedLww.
Inductive LwwWinner : Type := WinLocal | WinRemote.

#[export] Instance ConflictPolicy_eq_dec : EqDecision ConflictPolicy.
Proof. solve_decision. Defined.
#[export] Instance LwwWinner_eq_dec : EqDecision LwwWinner.
Proof. solve_decision. Defined.

Record GuardedLwwOutcome : Type := mkLwwOutcome {
  lww_conflict_id : string;
  lww_object_id : string;
  lww_winner : LwwWinner;
  lww_winning_revision : N;
  lww_losing_revision : N;
  lww_retry_mutation : option PendingMutation
}.

Inductive ConflictResolutionStrategy : Type :=
| KeepLocal
| KeepRemote
| MergeWith (merged : PlaintextNote)
| DuplicateAsSeparate (new_object_id : string) (new_title : option string)
| RestoreResurrect.

Record ConflictResolutionResult : Type := mkResolution {
  res_conflict_id : string;
  res_object_id : string;
  res_retry_mutation : option PendingMutation;
  res_duplicated_object_id : option string
}.

(** [PushItemConflict] of [push.rs]. *)
Record PushItemConflict : Type := mkPushConflict {
  pc_mutation : PendingMutation;
  pc_conflict : ConflictResponse
}.

Definition is_delete (m : PendingMutation) : bool := bool_decide (mut_mutation_type m = Delete).

Definition set_rng {S} (n : nat) (l : Local S) : Local S := mkLocal (l_store l) (l_uuids l) (l_clock l) n.

(** A computation that draws random bytes, from the client's generator. *)
Definition on_rng {S E E' A} (conv : E -> E') (m : M nat E A) : M (Local S) E' A :=
  map_err conv (zoom l_rng set_rng m).

Module Conflict.
Section ops.
Context {S : Type} `{LocalStorage S} `{!Env} `{CryptoLib} `{NoteLib}.

(** [StorageError::Backend(format!("{what}: {e}"))] *)
Definition backend (what : string) (e : CoreError) : StorageError :=
  SE_Backend (what +:+ ": " +:+ CoreError_display str_debug e).

(** The panic of an index out of range; [merge_total] excludes it. *)
Definition merge_panic : StorageError := SE_Backend "panic".

Definition generate_merge_candidate (base_envelope : option EncryptedEnvelope)
    (local_envelope remote_envelope : EncryptedEnvelope) (vault_key : string)
    : M (Local S) StorageError (NoteMergeOutcome * EncryptedEnvelope) :=
  local_note ← lift_result (result_map_err (backend "failed to decrypt local note")
                 (decrypt local_envelope vault_key));
  remote_note ← lift_result (result_map_err (backend "failed to decrypt remote note")
                  (decrypt remote_envelope vault_key));
  base_note ← match base_envelope with
              | Some env => lift_result (result_map_err (backend "failed to decrypt base note")
                              (decrypt env vault_key))
              | None => t ← now; mret (PlaintextNote_new t "" "")
              end;
  t ← now;
  outcome ← ok_or merge_panic (three_way_merge_note t base_note local_note remote_note);
  candidate_envelope ← on_rng (backend "failed to encrypt merge candidate")
    (encrypt (mo_candidate outcome) vault_key (env_object_id local_envelope));
  mret (outcome, candidate_envelope).

Definition record_conflict (push_conflict : PushItemConflict) (vault_key : option string)
    : M (Local S) StorageError (ConflictRecord * option NoteMergeOutcome) :=
  let mutation := pc_mutation push_conflict in
  let conflict := pc_conflict push_conflict in
  base_envelope ← on_store (fun e => e)
    (get_base_version (mut_object_id mutation) (mut_expected_revision mutation));
  let local_is_deleted := is_delete mutation in
  let remote_is_deleted := conf_is_deleted conflict in
  merged ←
    (if local_is_deleted || remote_is_deleted then mret (None, None)
     else match vault_key with
          | Some key =>
              p ← generate_merge_candidate base_envelope (mut_envelope mutation)
                    (conf_current_envelope conflict) key;
              mret (Some p.1, Some p.2)
          | None => mret (None, None)
          end);
  conflict_id ← new_uuid;
  created_at ← now;
  let record := with_deletion_flags
    (ConflictRecord_new conflict_id (mut_object_id mutation) (mut_object_kind mutation)
       (mut_expected_revision mutation) (conf_current_revision conflict) base_envelope
       (mut_envelope mutation) (conf_current_envelope conflict) merged.2 created_at)
    local_is_deleted remote_is_deleted in
  _ ← on_store (fun e => e) (put_conflict record);
  mret (record, merged.1).

Abbreviation Q A := (M (Local S) QueueError A).
Abbreviation store op := (on_store QE_Storage op).

(** [for m in storage.list_mutations_for_object(id)? { let _ = storage.remove_mutation(..); }] *)
Definition remove_stale (object_id : string) : Q unit :=
  existing ← store (list_mutations_for_object object_id);
  for_each (fun m => ignore (store (remove_mutation (mut_mutation_id m)))) existing.

Definition conflict_object (conflict : ConflictRecord) (is_deleted : bool)
    (envelope : EncryptedEnvelope) (resolved_at : string) : StoredEncryptedObject :=
  mkStoredObject (cr_object_id conflict) (cr_object_kind conflict) (cr_remote_revision conflict) 0
    is_deleted envelope resolved_at.

(** Put [envelope] on top of the remote revision: the object, the retry
    mutation and the resolution, as [KeepLocal] and [Merge] do. *)
Definition resolve_with (conflict : ConflictRecord) (conflict_id : string) (mut_type : MutationType)
    (envelope : EncryptedEnvelope) (resolved_at : string) : Q ConflictResolutionResult :=
  _ ← remove_stale (cr_object_id conflict);
  _ ← store (put_object (conflict_object conflict (bool_decide (mut_type = Delete)) envelope resolved_at));
  mutation_id ← new_uuid;
  let retry_mutation := mkPendingMutation mutation_id (cr_object_id conflict)
    (cr_remote_revision conflict) (cr_object_kind conflict) mut_type envelope resolved_at 0 Pending in
  _ ← store (enqueue_mutation retry_mutation);
  _ ← store (resolve_conflict_record conflict_id (Some envelope) resolved_at);
  mret (mkResolution conflict_id (cr_object_id conflict) (Some retry_mutation) None).

(** Accept the remote version, the opening of [KeepRemote] and
    [DuplicateAsSeparate]. *)
Definition accept_remote (conflict : ConflictRecord) (resolved_at : string) : Q unit :=
  _ ← remove_stale (cr_object_id conflict);
  store (put_object (conflict_object conflict (cr_remote_is_deleted conflict)
                       (cr_remote_envelope conflict) resolved_at)).

Definition merge_refused : QueueError :=
  QE_InvalidState "cannot merge a delete-vs-edit conflict; use KeepLocal/RestoreResurrect to restore, KeepRemote to accept deletion, or DuplicateAsSeparate to restore as a new note".

Definition set_title (n : PlaintextNote) (title : string) : PlaintextNote :=
  mkNote (n_schema_version n) title (n_body n) (n_tags n) (n_created_at n) (n_updated_at n)
    (n_attachments n).

Definition resolve_conflict (vault_key conflict_id : string) (strategy : ConflictResolutionStrategy)
    : Q ConflictResolutionResult :=
  found ← store (get_conflict conflict_id);
  conflict ← ok_or (QE_NotFound ("conflict record " +:+ conflict_id +:+ " not found")) found;
  if cr_resolved conflict then
    throw (QE_InvalidState ("conflict record " +:+ conflict_id +:+ " has already been resolved"))
  else
    resolved_at ← now;
    match strategy with
    | KeepLocal | RestoreResurrect =>
        resolve_with conflict conflict_id (if cr_local_is_deleted conflict then Delete else Upsert)
          (cr_local_envelope conflict) resolved_at
    | KeepRemote =>
        _ ← accept_remote conflict resolved_at;
        _ ← store (resolve_conflict_record conflict_id (Some (cr_remote_envelope conflict)) resolved_at);
        mret (mkResolution conflict_id (cr_object_id conflict) None None)
    | MergeWith merged_note =>
        if cr_remote_is_deleted conflict || cr_local_is_deleted conflict then throw merge_refused
        else
          merged_envelope ← on_rng (fun e => QE_Storage (backend "failed to encrypt merged note" e))
            (encrypt merged_note vault_key (cr_object_id conflict));
          resolve_with conflict conflict_id Upsert merged_envelope resolved_at
    | DuplicateAsSeparate new_object_id new_title =>
        _ ← accept_remote conflict resolved_at;
        local_note ← lift_result (result_map_err
          (fun e => QE_Storage (backend "failed to decrypt local note for duplicate" e))
          (decrypt (cr_local_envelope conflict) vault_key));
        let local_note := match new_title with Some title => set_title local_note title
                          | None => local_note end in
        dup_envelope ← on_rng (fun e => QE_Storage (backend "failed to encrypt duplicated note" e))
          (encrypt local_note vault_key new_object_id);
        dup_mutation ← Queue.enqueue_upsert new_object_id (cr_object_kind conflict) 0 dup_envelope;
        _ ← store (put_object (mkStoredObject new_object_id (cr_object_kind conflict) 1 0 false
                                 dup_envelope resolved_at));
        _ ← store (resolve_conflict_record conflict_id (Some (cr_remote_envelope conflict)) resolved_at);
        mret (mkResolution conflict_id (cr_object_id conflict) (Some dup_mutation) (Some new_object_id))
    end.

(** ** Guarded last-write-wins *)

Definition lww_refused : QueueError :=
  QE_InvalidState "delete-vs-edit conflict cannot be resolved automatically by Guarded LWW; explicit user resolution required (SEC-008)".

(** The timestamps of both notes, when both decrypt. *)
Definition lww_timestamps (mutation : PendingMutation) (conflict : ConflictResponse)
    (vault_key : option string) : option (string * string) :=
  match vault_key with
  | Some key =>
      match decrypt (mut_envelope mutation) key, decrypt (conf_current_envelope conflict) key with
      | Ok l, Ok r => Some (n_updated_at l, n_updated_at r)
      | _, _ => None
      end
  | None => None
  end.

Definition ciphertext_wins (mutation : PendingMutation) (conflict : ConflictResponse) : bool :=
  str_gt (payload_ciphertext (payload (mut_envelope mutation)))
         (payload_ciphertext (payload (conf_current_envelope conflict))).

(** [.ok().flatten()] of a lookup. *)
Definition lookup_or_none {A} (op : M S StorageError (option A)) : Q (option A) :=
  r ← attempt (E := StorageError) (on_store (fun e => e) op);
  mret (default None (ok r)).

Definition lww_local_wins (mutation : PendingMutation) (conflict : ConflictResponse)
    (vault_key : option string) : Q bool :=
  match lww_timestamps mutation conflict vault_key with
  | Some (l, r) =>
      mret (if bool_decide (l <> r) then str_gt l r else ciphertext_wins mutation conflict)
  | None =>
      obj ← lookup_or_none (get_object (mut_object_id mutation));
      let remote_stored_ts :=
        o ← obj; if (obj_revision o =? conf_current_revision conflict)%N then Some (obj_updated_at o)
                 else None in
      mret match remote_stored_ts with
           | Some r =>
               if bool_decide (mut_created_at mutation <> r) then str_gt (mut_created_at mutation) r
               else ciphertext_wins mutation conflict
           | None => ciphertext_wins mutation conflict
           end
  end.

Definition lww_object (mutation : PendingMutation) (conflict : ConflictResponse)
    (envelope : EncryptedEnvelope) (resolved_at : string) : StoredEncryptedObject :=
  mkStoredObject (mut_object_id mutation) (mut_object_kind mutation) (conf_current_revision conflict)
    0 false envelope resolved_at.

(** The audit record, resolved with [winner]. *)
Definition lww_record (conflict_id : string) (mutation : PendingMutation) (conflict : ConflictResponse)
    (base_envelope : option EncryptedEnvelope) (winner : EncryptedEnvelope) (resolved_at : string)
    : ConflictRecord :=
  mark_resolved (ConflictRecord_new conflict_id (mut_object_id mutation) (mut_object_kind mutation)
    (mut_expected_revision mutation) (conf_current_revision conflict) base_envelope
    (mut_envelope mutation) (conf_current_envelope conflict) (Some winner) resolved_at)
    None resolved_at.

Definition evaluate_guarded_lww (mutation : PendingMutation) (conflict : ConflictResponse)
    (vault_key : option string) : Q GuardedLwwOutcome :=
  if conf_is_deleted conflict || is_delete mutation then throw lww_refused
  else
    resolved_at ← now;
    conflict_id ← new_uuid;
    local_wins ← lww_local_wins mutation conflict vault_key;
    base_envelope ← lookup_or_none (get_base_version (mut_object_id mutation) (mut_expected_revision mutation));
    if (local_wins : bool) then
      _ ← store (put_base_version (mut_object_id mutation) (conf_current_revision conflict)
                   (conf_current_envelope conflict));
      _ ← store (put_object (lww_object mutation conflict (mut_envelope mutation) resolved_at));
      _ ← remove_stale (mut_object_id mutation);
      mutation_id ← new_uuid;
      let retry_mutation := mkPendingMutation mutation_id (mut_object_id mutation)
        (conf_current_revision conflict) (mut_object_kind mutation) Upsert (mut_envelope mutation)
        resolved_at 0 Pending in
      _ ← store (enqueue_mutation retry_mutation);
      _ ← store (put_conflict (lww_record conflict_id mutation conflict base_envelope
                   (mut_envelope mutation) resolved_at));
      mret (mkLwwOutcome conflict_id (mut_object_id mutation) WinLocal (conf_current_revision conflict)
              (conf_current_revision conflict) (Some retry_mutation))
    else
      _ ← store (put_base_version (mut_object_id mutation) (mut_expected_revision mutation)
                   (mut_envelope mutation));
      _ ← store (put_object (lww_object mutation conflict (conf_current_envelope conflict) resolved_at));
      _ ← remove_stale (mut_object_id mutation);
      _ ← store (put_conflict (lww_record conflict_id mutation conflict base_envelope
                   (conf_current_envelope conflict) resolved_at));
      mret (mkLwwOutcome conflict_id (mut_object_id mutation) WinRemote (conf_current_revision conflict)
              (mut_expected_revision mutation) None).
End ops.
End Conflict.

(** ** Conflicts: nothing is lost

    Recording a conflict keeps both sides and their base; resolving one either
    completes, with the chosen version on top of the remote revision, or
    leaves the record unresolved with its envelopes; Guarded last-write-wins
    archives the losing version of the conflict.  All for every backend that
    meets [StorageSpec], which may fail at any operation. *)

(** [q'] is [q] less some mutations of the object. *)
Record stale_removed (oid : string) (q q' : list PendingMutation) : Prop := {
  sr_sub : sublist q' q;
  sr_others m : m ∈ q -> mut_object_id m <> oid -> m ∈ q'
}.

Lemma stale_removed_refl oid q : stale_removed oid q q.
Proof. by split. Qed.

Lemma stale_removed_step oid q q1 x :
  stale_removed oid q q1 -> NoDup (mut_mutation_id <$> q) -> x ∈ q -> mut_object_id x = oid ->
  stale_removed oid q (remove_first (Memory.by_mutation_id (mut_mutation_id x)) q1).
Proof.
  intros [Hsub Hoth] Hnd Hx Hoid. split.
  - etrans; [apply remove_first_sublist|done].
  - intros m Hm Hne. apply elem_of_remove_first_2; [by apply Hoth|].
    apply has_key_false. intros Hid. apply Hne. rewrite <- Hoid. f_equal.
    pose proof (find_first_key_unique mut_mutation_id _ _ Hnd Hm) as H1.
    pose proof (find_first_key_unique mut_mutation_id _ _ Hnd Hx) as H2. congruence.
Qed.

Section facts.
Context {S : Type} `{StorageSpec S} `{!Env} `{CryptoLib} `{NoteLib}.
Implicit Types l : Local S.

Lemma wp_on_rng {E E' A} (conv : E -> E') (m : M nat E A) (Q : result E' A -> Local S -> Prop) l :
  (forall a n l', m (l_rng l) = (Ok a, n) -> l_view l' = l_view l -> l_uuids l' = l_uuids l ->
     Q (Ok a) l') ->
  (forall e l', l_view l' = l_view l -> l_uuids l' = l_uuids l -> Q (Err (conv e)) l') ->
  wp (on_rng conv m) Q l.
Proof.
  intros HQ HE. unfold on_rng. apply wp_map_err, wp_zoom, wp_intro.
  intros [a|e] n Hm; cbn; [by eapply HQ|by apply HE].
Qed.

Lemma wp_remove_stale oid Q l :
  NoDup (queue_ids (l_view l)) ->
  (forall q l', l_view l' = with_mutations (fun _ => q) (l_view l) ->
     stale_removed oid (mem_mutations (l_view l)) q -> l_uuids l' = l_uuids l -> Q (Ok tt) l') ->
  (forall e l', l_view l' = l_view l -> Q (Err e) l') ->
  wp (Conflict.remove_stale oid) Q l.
Proof.
  intros Hnd HQ HE. unfold Conflict.remove_stale. wp_step. wp_store; [|by apply HE].
  eapply wp_for_each with (I := fun _ s => l_uuids s = l_uuids l
    /\ exists q, l_view s = with_mutations (fun _ => q) (l_view l)
               /\ stale_removed oid (mem_mutations (l_view l)) q).
  - split; [congruence|]. exists (mem_mutations (l_view l)). rewrite Hview.
    split; [by destruct (l_view l)|apply stale_removed_refl].
  - intros done x rest l1 Hl (Hu & q & Hv1 & Hsr).
    assert (x ∈ mem_mutations (l_view l) /\ mut_object_id x = oid) as [Hx Hoid].
    { assert (In x (List.filter (Memory.targets oid) (mem_mutations (l_view l)))) as Hin
        by (rewrite Hl; apply in_elt).
      apply filter_In in Hin as [Hin Ht]. unfold Memory.targets, has_key in Ht.
      apply bool_decide_eq_true in Ht. apply list_elem_of_In in Hin. by split. }
    wp_step. wp_store; cbn; (split; [congruence|]).
    + eexists. split; [rewrite Hview0; reflexivity|]. by apply stale_removed_step.
    + exists q. by rewrite Hview0.
    + exists q. by rewrite Hview0.
  - intros l1 (Hu & q & Hv1 & Hsr). by eapply HQ.
Qed.

(** The retry mutation is queued, the object put on the remote revision and
    the conflict resolved with [env]; mutations of other objects are kept. *)
Record resolved_with (v : MemoryStorage) (cid : string) (c : ConflictRecord) (env : EncryptedEnvelope)
    (t : string) (v' : MemoryStorage) : Prop := {
  rw_conflicts : mem_conflicts v' = <[cid := mark_resolved c (Some env) t]> (mem_conflicts v);
  rw_others m : m ∈ mem_mutations v -> mut_object_id m <> cr_object_id c -> m ∈ mem_mutations v';
  rw_objects oid : oid <> cr_object_id c -> mem_objects v' !! oid = mem_objects v !! oid;
  rw_sync : mem_sync_state v' = mem_sync_state v
}.

(** The conflict is as before, so it can be resolved again; mutations of
    other objects are kept. *)
Record still_open (v : MemoryStorage) (c : ConflictRecord) (v' : MemoryStorage) : Prop := {
  so_conflicts : mem_conflicts v' = mem_conflicts v;
  so_others m : m ∈ mem_mutations v -> mut_object_id m <> cr_object_id c -> m ∈ mem_mutations v';
  so_sync : mem_sync_state v' = mem_sync_state v
}.

Lemma wp_resolve_with c cid ty env t Q l :
  NoDup (queue_ids (l_view l)) -> mem_conflicts (l_view l) !! cid = Some c ->
  (forall m l', resolved_with (l_view l) cid c env t (l_view l') ->
     m = mkPendingMutation (mut_mutation_id m) (cr_object_id c) (cr_remote_revision c) (cr_object_kind c)
           ty env t 0 Pending ->
     m ∈ mem_mutations (l_view l') ->
     mem_objects (l_view l') !! cr_object_id c
       = Some (Conflict.conflict_object c (bool_decide (ty = Delete)) env t) ->
     Q (Ok (mkResolution cid (cr_object_id c) (Some m) None)) l') ->
  (forall e l', still_open (l_view l) c (l_view l') -> Q (Err e) l') ->
  wp (Conflict.resolve_with c cid ty env t) Q l.
Proof.
  intros Hnd Hc HQ HE. unfold Conflict.resolve_with. wp_step.
  apply wp_remove_stale; [done| |intros e l1 Hv1; apply HE; split; by rewrite Hv1].
  intros q l1 Hv1 [Hsub Hoth] Hu1. wp_steps.
  all: try (apply HE; split; view_simpl; intros; rewrite ?elem_of_insert_at; auto; fail).
  all: simplify_eq.
  apply HQ; [split; view_simpl; [done| |by intros; rewrite lookup_insert_ne|done]|done| |]; view_simpl.
  - intros m Hm Hne. rewrite elem_of_insert_at. auto.
  - rewrite elem_of_insert_at. auto.
  - by rewrite lookup_insert_eq.
Qed.

Lemma wp_accept_remote c t Q l :
  NoDup (queue_ids (l_view l)) ->
  (forall q l', l_view l' = with_objects
       <[cr_object_id c := Conflict.conflict_object c (cr_remote_is_deleted c) (cr_remote_envelope c) t]>
       (with_mutations (fun _ => q) (l_view l)) ->
     stale_removed (cr_object_id c) (mem_mutations (l_view l)) q -> l_uuids l' = l_uuids l ->
     Q (Ok tt) l') ->
  (forall e l', still_open (l_view l) c (l_view l') -> Q (Err e) l') ->
  wp (Conflict.accept_remote c t) Q l.
Proof.
  intros Hnd HQ HE. unfold Conflict.accept_remote. wp_step.
  apply wp_remove_stale; [done| |intros e l1 Hv1; apply HE; split; by rewrite Hv1].
  intros q l1 Hv1 Hsr Hu1. wp_steps.
  - eapply HQ; [done|done|congruence].
  - apply HE. destruct Hsr. by split; view_simpl.
Qed.

(** What a completed resolution guarantees of the chosen version. *)
Definition resolution_ok (vault_key : string) (c : ConflictRecord) (strategy : ConflictResolutionStrategy)
    (res : ConflictResolutionResult) (v' : MemoryStorage) : Prop :=
  let retried ty env (m : PendingMutation) :=
    m ∈ mem_mutations v' /\ mut_object_id m = cr_object_id c
    /\ mut_expected_revision m = cr_remote_revision c /\ mut_mutation_type m = ty
    /\ mut_envelope m = env /\ mut_status m = Pending in
  exists obj, mem_objects v' !! cr_object_id c = Some obj /\ obj_revision obj = cr_remote_revision c
  /\ match strategy with
     | KeepLocal | RestoreResurrect =>
         obj_envelope obj = cr_local_envelope c /\ obj_is_deleted obj = cr_local_is_deleted c
         /\ exists m, res_retry_mutation res = Some m
              /\ retried (if cr_local_is_deleted c then Delete else Upsert) (cr_local_envelope c) m
     | KeepRemote =>
         obj_envelope obj = cr_remote_envelope c /\ obj_is_deleted obj = cr_remote_is_deleted c
         /\ res_retry_mutation res = None
     | MergeWith note =>
         obj_is_deleted obj = false /\ decrypt (obj_envelope obj) vault_key = Ok (canonicalize note)
         /\ exists m, res_retry_mutation res = Some m /\ retried Upsert (obj_envelope obj) m
     | DuplicateAsSeparate new_id new_title =>
         exists note m dup, decrypt (cr_local_envelope c) vault_key = Ok note
         /\ res_retry_mutation res = Some m /\ m ∈ mem_mutations v' /\ mut_object_id m = new_id
         /\ mut_expected_revision m = 0%N /\ mem_objects v' !! new_id = Some dup
         /\ obj_envelope dup = mut_envelope m
         /\ decrypt (mut_envelope m) vault_key
            = Ok (canonicalize (default note (Conflict.set_title note <$> new_title)))
         /\ (new_id <> cr_object_id c -> obj_envelope obj = cr_remote_envelope c)
     end.

Context `{!CryptoLaws} `{!NoteLaws}.

(** The duplicate gets an identifier of its own. *)
Definition fresh_duplicate (strategy : ConflictResolutionStrategy) (c : ConflictRecord) : Prop :=
  match strategy with DuplicateAsSeparate new_id _ => new_id <> cr_object_id c | _ => True end.

(** What [resolve_conflict] leaves. *)
Definition resolve_post (vault_key cid : string) (strategy : ConflictResolutionStrategy)
    (v : MemoryStorage) (r : Result ConflictResolutionResult QueueError) (v' : MemoryStorage) : Prop :=
  match r with
  | Ok res => exists c env t, mem_conflicts v !! cid = Some c /\ cr_resolved c = false
      /\ mem_conflicts v' = <[cid := mark_resolved c (Some env) t]> (mem_conflicts v)
      /\ (forall m, m ∈ mem_mutations v -> mut_object_id m <> cr_object_id c -> m ∈ mem_mutations v')
      /\ resolution_ok vault_key c strategy res v'
  | Err _ => mem_conflicts v' = mem_conflicts v
      /\ (forall m c, mem_conflicts v !! cid = Some c -> m ∈ mem_mutations v ->
            mut_object_id m <> cr_object_id c -> m ∈ mem_mutations v')
  end.

Lemma resolve_post_err vk cid strategy c v e v' :
  mem_conflicts v !! cid = Some c -> still_open v c v' -> resolve_post vk cid strategy v (Err e) v'.
Proof using Type. intros Hc [H1' H2' _]. split; [done|]. intros m c' Hc'. simplify_eq. auto. Qed.

Lemma wp_keep_local vk cid strategy c t l :
  strategy = KeepLocal \/ strategy = RestoreResurrect ->
  NoDup (queue_ids (l_view l)) -> mem_conflicts (l_view l) !! cid = Some c -> cr_resolved c = false ->
  wp (Conflict.resolve_with c cid (if cr_local_is_deleted c then Delete else Upsert)
        (cr_local_envelope c) t) (fun r s => resolve_post vk cid strategy (l_view l) r (l_view s)) l.
Proof using Type.
  intros Hst Hnd Hc Hres. apply wp_resolve_with; [done|done| |eauto using resolve_post_err].
  intros m l1 [Hconf Hoth _ _] Hm Hin Hobj. exists c, (cr_local_envelope c), t. split_and!; [done..|].
  eexists. split; [exact Hobj|]. split; [done|].
  assert (bool_decide ((if cr_local_is_deleted c then Delete else Upsert) = Delete) = cr_local_is_deleted c)
    as Hdel by (by destruct (cr_local_is_deleted c)).
  destruct Hst as [-> | ->]; (split; [done|]; split; [exact Hdel|]; exists m; split; [done|];
    rewrite Hm in Hin |- *; by split_and!).
Qed.

Lemma wp_merge_with vk cid note c t l :
  NoDup (queue_ids (l_view l)) -> mem_conflicts (l_view l) !! cid = Some c -> cr_resolved c = false ->
  wp (merged_envelope ← on_rng (fun e => QE_Storage (Conflict.backend "failed to encrypt merged note" e))
        (encrypt note vk (cr_object_id c));
      Conflict.resolve_with c cid Upsert merged_envelope t)
    (fun r s => resolve_post vk cid (MergeWith note) (l_view l) r (l_view s)) l.
Proof using Type*.
  intros Hnd Hc Hres. wp_step. apply wp_on_rng; [|intros e l1 Hv1 _; by rewrite Hv1].
  intros env n l1 Henc Hv1 _. destruct (encrypt_decrypt _ _ _ _ _ _ Henc) as [Hdec _].
  rewrite <- Hv1 in *. apply wp_resolve_with; [done|done| |eauto using resolve_post_err].
  intros m l2 [Hconf Hoth _ _] Hm Hin Hobj. exists c, env, t. split_and!; [done..|].
  eexists. split; [exact Hobj|]. split; [done|]. split; [done|]. split; [done|].
  exists m. split; [done|]. rewrite Hm in Hin |- *. by split_and!.
Qed.

Lemma wp_keep_remote vk cid c t l :
  NoDup (queue_ids (l_view l)) -> mem_conflicts (l_view l) !! cid = Some c -> cr_resolved c = false ->
  wp (_ ← Conflict.accept_remote c t;
      _ ← on_store QE_Storage (resolve_conflict_record cid (Some (cr_remote_envelope c)) t);
      mret (mkResolution cid (cr_object_id c) None None))
    (fun r s => resolve_post vk cid KeepRemote (l_view l) r (l_view s)) l.
Proof using Type.
  intros Hnd Hc Hres. wp_step. apply wp_accept_remote; [done| |eauto using resolve_post_err].
  intros q l1 Hv1 [Hsub Hoth] _. wp_steps; simplify_eq.
  - exists c, (cr_remote_envelope c), t. view_simpl. split_and!; [done..|].
    eexists. mem_simpl. split; [by rewrite lookup_insert_eq|]. done.
  - eapply resolve_post_err; [done|]. split; by view_simpl.
Qed.
Lemma wp_duplicate vk cid c new_id new_title t l :
  NoDup (queue_ids (l_view l)) -> mem_conflicts (l_view l) !! cid = Some c -> cr_resolved c = false ->
  new_id <> cr_object_id c ->
  wp (_ ← Conflict.accept_remote c t;
      local_note ← lift_result (result_map_err
        (fun e => QE_Storage (Conflict.backend "failed to decrypt local note for duplicate" e))
        (decrypt (cr_local_envelope c) vk));
      let local_note := match new_title with Some title => Conflict.set_title local_note title
                        | None => local_note end in
      dup_envelope ← on_rng (fun e => QE_Storage (Conflict.backend "failed to encrypt duplicated note" e))
        (encrypt local_note vk new_id);
      dup_mutation ← Queue.enqueue_upsert new_id (cr_object_kind c) 0 dup_envelope;
      _ ← on_store QE_Storage (put_object (mkStoredObject new_id (cr_object_kind c) 1 0 false
                               dup_envelope t));
      _ ← on_store QE_Storage (resolve_conflict_record cid (Some (cr_remote_envelope c)) t);
      mret (mkResolution cid (cr_object_id c) (Some dup_mutation) (Some new_id)))
    (fun r s => resolve_post vk cid (DuplicateAsSeparate new_id new_title) (l_view l) r (l_view s)) l.
Proof using Type*.
  intros Hnd Hc Hres Hne. wp_step. apply wp_accept_remote; [done| |eauto using resolve_post_err].
  intros q l1 Hv1 [Hsub Hoth] _.
  assert (forall e l2, mem_conflicts (l_view l2) = mem_conflicts (l_view l1) ->
    (forall m, m ∈ q -> m ∈ mem_mutations (l_view l2)) ->
    resolve_post vk cid (DuplicateAsSeparate new_id new_title) (l_view l) (Err e) (l_view l2)) as Herr.
  { intros e l2 Hco Hmu. split; [by rewrite Hco, Hv1|]. intros m c' Hc'. simplify_eq. auto. }
  cbn beta iota zeta. wp_step. wp_step.
  destruct (decrypt (cr_local_envelope c) vk) as [note|e] eqn:Hdec; cbn -[decrypt encrypt resolve_post];
    [|apply Herr; [done|intros m; by rewrite Hv1]].
  wp_step. apply wp_on_rng; [|intros e l2 Hv2 _; apply Herr; [by rewrite Hv2|intros m; by rewrite Hv2, Hv1]].
  intros env n l2 Henc Hv2 _. destruct (encrypt_decrypt _ _ _ _ _ _ Henc) as [Hdup _].
  cbn beta iota. wp_step. apply wp_enqueue_upsert, wp_enqueue_with;
    [|intros e l3 [Ho Hm Hs Hco]; apply Herr; rewrite ?Hco, ?Hm, Hv2; [done|intros m; by rewrite Hv1]].
  intros t' l3 m _ _ Hen _ _. pose proof (fun x => enqueued_elem _ _ _ x Hen) as Hm.
  destruct Hen as [Ho _ Hs Hco]. rewrite Hv2, Hv1 in *. mem_simpl. cbn beta iota. wp_steps.
  all: try (apply Herr; view_simpl; rewrite ?Hco; [done|intros m' ?; rewrite Hm; auto]; fail).
  all: rewrite Hco in *; simplify_eq.
  exists c, (cr_remote_envelope c), t. view_simpl. rewrite Hco.
  split_and!; [done..|intros m' ? ?; rewrite Hm; auto|].
  eexists. mem_simpl. rewrite Ho, lookup_insert_ne by done. rewrite lookup_insert_eq.
  split; [done|]. split; [done|]. exists note, m. eexists. split; [done|]. split; [done|].
  split_and!; [rewrite Hm; auto|done|done|by rewrite lookup_insert_eq|done| |done].
  destruct new_title; exact Hdup.
Qed.

(** C8. Resolving a conflict loses nothing.  If it returns a result, the record
    was there and unresolved, it is now resolved and still holds the base, the
    local and the remote version, the object is at the remote revision with
    the chosen version (for a merge, one that decrypts to the merged note), and
    the retry mutation is queued on the remote revision, or the local edit
    under its new identifier; mutations of other objects are untouched.  If it
    fails, at whatever storage operation, the conflict records are as before,
    so the resolution can be repeated. *)
Theorem resolve_conflict_safe vault_key cid strategy l r l' :
  NoDup (queue_ids (l_view l)) ->
  (forall c, mem_conflicts (l_view l) !! cid = Some c -> fresh_duplicate strategy c) ->
  Conflict.resolve_conflict vault_key cid strategy l = (r, l') ->
  match r with
  | Ok res => exists c env t, mem_conflicts (l_view l) !! cid = Some c /\ cr_resolved c = false
      /\ mem_conflicts (l_view l') = <[cid := mark_resolved c (Some env) t]> (mem_conflicts (l_view l))
      /\ (forall m, m ∈ mem_mutations (l_view l) -> mut_object_id m <> cr_object_id c ->
            m ∈ mem_mutations (l_view l'))
      /\ resolution_ok vault_key c strategy res (l_view l')
  | Err _ => mem_conflicts (l_view l') = mem_conflicts (l_view l)
      /\ (forall m c, mem_conflicts (l_view l) !! cid = Some c -> m ∈ mem_mutations (l_view l) ->
            mut_object_id m <> cr_object_id c -> m ∈ mem_mutations (l_view l'))
  end.
Proof using Type*.
  intros Hnd Hfresh. as_wp.
  change (wp (Conflict.resolve_conflict vault_key cid strategy)
    (fun r s => resolve_post vault_key cid strategy (l_view l) r (l_view s)) l).
  unfold Conflict.resolve_conflict. wp_step. wp_store; [|by rewrite Hview].
  wp_step. wp_step; [|by rewrite Hview].
  match goal with H : _ = Some ?x |- _ => rename x into c, H into Hc end. cbn beta iota.
  destruct (cr_resolved c) eqn:Hres; [wp_step; by rewrite Hview|].
  wp_step. wp_step. cbn beta iota. rewrite <- Hview0 in *.
  destruct strategy as [| |note|new_id new_title|].
  - apply wp_keep_local; auto.
  - by apply wp_keep_remote.
  - destruct (_ || _); [by wp_step|]. by apply wp_merge_with.
  - apply wp_duplicate; [done..|]. by apply Hfresh.
  - apply wp_keep_local; auto.
Qed.

(** The merge candidate of a recorded conflict. *)
Definition candidate_ok (pc : PushItemConflict) (base : option EncryptedEnvelope) (key : option string)
    (candidate : option EncryptedEnvelope) (outcome : option NoteMergeOutcome) : Prop :=
  match key with
  | Some k =>
      if is_delete (pc_mutation pc) || conf_is_deleted (pc_conflict pc)
      then candidate = None /\ outcome = None
      else exists t base_note local_note remote_note o env,
        decrypt (mut_envelope (pc_mutation pc)) k = Ok local_note
        /\ decrypt (conf_current_envelope (pc_conflict pc)) k = Ok remote_note
        /\ match base with Some e => decrypt e k = Ok base_note
            | None => exists t0, base_note = PlaintextNote_new t0 "" "" end
        /\ three_way_merge_note t base_note local_note remote_note = Some o
        /\ outcome = Some o /\ candidate = Some env /\ decrypt env k = Ok (canonicalize (mo_candidate o))
  | None => candidate = None /\ outcome = None
  end.

Lemma wp_generate base lenv renv k Q l :
  (forall t base_note local_note remote_note o env l',
     decrypt lenv k = Ok local_note -> decrypt renv k = Ok remote_note ->
     match base with Some e => decrypt e k = Ok base_note
       | None => exists t0, base_note = PlaintextNote_new t0 "" "" end ->
     three_way_merge_note t base_note local_note remote_note = Some o ->
     decrypt env k = Ok (canonicalize (mo_candidate o)) -> l_view l' = l_view l ->
     l_uuids l' = l_uuids l -> Q (Ok (o, env)) l') ->
  (forall e l', l_view l' = l_view l -> l_uuids l' = l_uuids l -> Q (Err e) l') ->
  wp (Conflict.generate_merge_candidate base lenv renv k) Q l.
Proof using Type*.
  intros HQ HE. unfold Conflict.generate_merge_candidate.
  wp_step. wp_step. destruct (decrypt lenv k) as [ln|] eqn:Hl; cbn -[decrypt encrypt]; [|by apply HE].
  wp_step. wp_step. destruct (decrypt renv k) as [rn|] eqn:Hr; cbn -[decrypt encrypt]; [|by apply HE].
  wp_step. apply (wp_mono _ (fun r s => (l_view s = l_view l /\ l_uuids s = l_uuids l) /\ match r with
    | Ok bn => match base with Some e => decrypt e k = Ok bn
                 | None => exists t0, bn = PlaintextNote_new t0 "" "" end
    | Err _ => True end)).
  { destruct base as [be|]; [wp_step; by destruct (decrypt be k)|wp_steps; eauto]. }
  intros [bn|e] l1 [[Hv1 Hu1] Hb]; [|by apply HE]. wp_step. wp_step. cbn beta iota. wp_step.
  match goal with |- wp (ok_or _ ?o) _ _ => destruct o as [o'|] eqn:Ho end; cbn [ok_or];
    [|apply wp_throw, HE; congruence].
  apply wp_ret. wp_step. apply wp_on_rng; [|intros e l3 Hv3 Hu3; apply HE; congruence].
  intros env n l3 Henc Hv3 Hu3. destruct (encrypt_decrypt _ _ _ _ _ _ Henc) as [Hdec _].
  apply wp_ret. eapply HQ; [done..|congruence|congruence].
Qed.

(** The record holds the conflict. *)
Definition recorded (pc : PushItemConflict) (key : option string) (v : MemoryStorage)
    (rec : ConflictRecord) (outcome : option NoteMergeOutcome) (v' : MemoryStorage) : Prop :=
  let m := pc_mutation pc in
  v' = with_conflicts <[cr_conflict_id rec := rec]> v
  /\ cr_object_id rec = mut_object_id m /\ cr_base_revision rec = mut_expected_revision m
  /\ cr_remote_revision rec = conf_current_revision (pc_conflict pc)
  /\ cr_base_envelope rec = mem_base_versions v !! (mut_object_id m, mut_expected_revision m)
  /\ cr_local_envelope rec = mut_envelope m
  /\ cr_remote_envelope rec = conf_current_envelope (pc_conflict pc)
  /\ cr_local_is_deleted rec = is_delete m
  /\ cr_remote_is_deleted rec = conf_is_deleted (pc_conflict pc) /\ cr_resolved rec = false
  /\ candidate_ok pc (cr_base_envelope rec) key (cr_candidate_envelope rec) outcome.

Lemma wp_record_conflict pc key Q l :
  (forall rec outcome l', recorded pc key (l_view l) rec outcome (l_view l') ->
     cr_conflict_id rec = uuid_v4 (l_uuids l) -> l_uuids l' = Datatypes.S (l_uuids l) ->
     Q (Ok (rec, outcome)) l') ->
  (forall e l', l_view l' = l_view l -> l_uuids l <= l_uuids l' -> Q (Err e) l') ->
  wp (Conflict.record_conflict pc key) Q l.
Proof using Type*.
  intros HQ HE. unfold Conflict.record_conflict. cbv zeta. wp_step. wp_store; [|apply HE; [done|lia]].
  cbn beta iota. wp_step. set (base := mem_base_versions (l_view l) !! _).
  apply (wp_mono _ (fun r s => (l_view s = l_view l /\ l_uuids s = l_uuids l) /\ match r with
    | Ok p => candidate_ok pc base key p.2 p.1 | Err _ => True end)).
  { unfold candidate_ok. destruct (is_delete _ || _); [wp_step; destruct key; by rewrite Hview|].
    destruct key as [k|]; [|wp_step; by rewrite Hview].
    wp_step. apply wp_generate; [|intros; split; [split; congruence|done]].
    intros t bn ln rn o env l1 ? ? ? ? ? ? ?. wp_step. split; [split; congruence|].
    by exists t, bn, ln, rn, o, env. }
  intros [[outcome candidate]|e] l1 [[Hv1 Hu1] Hcand]; [|apply HE; [done|lia]]. wp_steps.
  - apply HQ; [split_and!; view_simpl; done|cbn; congruence|congruence].
  - apply HE; [congruence|lia].
Qed.

(** Recording a conflict keeps everything that is needed to resolve it.  If
    it succeeds, one unresolved record was added, with the local version, the
    remote version at its revision, the base version if one is stored, and the
    deletion flags; with a key and no deletion its candidate decrypts to the
    three-way merge of the three notes.  If it fails nothing has changed. The
    queue and the objects are untouched either way. *)
Lemma record_conflict_preserves pc key l r l' :
  Conflict.record_conflict pc key l = (r, l') ->
  match r with
  | Ok (rec, outcome) => recorded pc key (l_view l) rec outcome (l_view l')
  | Err _ => l_view l' = l_view l
  end.
Proof using Type*. as_wp. by apply wp_record_conflict. Qed.
End facts.

(** ** Guarded last-write-wins *)

Section lww.
Context {S : Type} `{StorageSpec S} `{!Env} `{CryptoLib} `{NoteLib}.
Implicit Types l : Local S.

Lemma wp_lookup_or_none {A} (op : M S StorageError (option A)) spec Q l :
  Refines view op spec -> (forall s, (spec s).2 = s) ->
  (forall o l', l_view l' = l_view l -> l_uuids l' = l_uuids l -> Q (Ok o) l') ->
  wp (Conflict.lookup_or_none op) Q l.
Proof using Type.
  intros Hop Hspec HQ. unfold Conflict.lookup_or_none. wp_step. wp_step. eapply wp_on_store; [exact Hop|..].
  - intros a m' l1 Hrun Hv Hu _ _. cbn beta iota. wp_step. apply HQ; [|done].
    rewrite Hv. specialize (Hspec (l_view l)). by rewrite Hrun in Hspec.
  - intros e l1 Hv Hu _ _. cbn beta iota. wp_step. by apply HQ.
Qed.

(** The winner when both notes can be read and their times differ. *)
Definition lww_by_time (m : PendingMutation) (conf : ConflictResponse) (key : option string)
    (winner : LwwWinner) : Prop :=
  forall a b, Conflict.lww_timestamps m conf key = Some (a, b) -> a <> b ->
    winner = if str_gt a b then WinLocal else WinRemote.

Lemma wp_lww_local_wins m conf key Q l :
  (forall w l', l_view l' = l_view l -> l_uuids l' = l_uuids l ->
     lww_by_time m conf key (if w : bool then WinLocal else WinRemote) -> Q (Ok w) l') ->
  wp (Conflict.lww_local_wins m conf key) Q l.
Proof using Type.
  intros HQ. unfold Conflict.lww_local_wins, lww_by_time in *.
  destruct (Conflict.lww_timestamps m conf key) as [[a b]|].
  - wp_step. apply HQ; [done..|]. intros a' b' [= <- <-] Hne. by rewrite bool_decide_eq_true_2.
  - wp_step. eapply wp_lookup_or_none; [apply spec_get_object|done|]. intros o l1 Hv Hu. wp_step.
    by apply HQ.
Qed.

(** The losing version is archived and the winning one is the object. *)
Definition lww_applied (m : PendingMutation) (conf : ConflictResponse) (out : GuardedLwwOutcome)
    (v v' : MemoryStorage) : Prop :=
  let oid := mut_object_id m in
  match lww_winner out with
  | WinLocal =>
      (exists obj, mem_objects v' !! oid = Some obj /\ obj_envelope obj = mut_envelope m
         /\ obj_revision obj = conf_current_revision conf)
      /\ mem_base_versions v' !! (oid, conf_current_revision conf) = Some (conf_current_envelope conf)
      /\ exists r, lww_retry_mutation out = Some r /\ r ∈ mem_mutations v' /\ mut_object_id r = oid
           /\ mut_expected_revision r = conf_current_revision conf /\ mut_envelope r = mut_envelope m
  | WinRemote =>
      (exists obj, mem_objects v' !! oid = Some obj /\ obj_envelope obj = conf_current_envelope conf
         /\ obj_revision obj = conf_current_revision conf)
      /\ mem_base_versions v' !! (oid, mut_expected_revision m) = Some (mut_envelope m)
      /\ lww_retry_mutation out = None
  end.

(** The local edit is still in the store: queued, or the object, or archived. *)
Definition edit_held (m : PendingMutation) (v v' : MemoryStorage) : Prop :=
  mem_mutations v' = mem_mutations v
  \/ (exists obj, mem_objects v' !! mut_object_id m = Some obj /\ obj_envelope obj = mut_envelope m)
  \/ mem_base_versions v' !! (mut_object_id m, mut_expected_revision m) = Some (mut_envelope m).

(** What the policy leaves. *)
Definition lww_post (m : PendingMutation) (conf : ConflictResponse) (key : option string)
    (v : MemoryStorage) (r : Result GuardedLwwOutcome QueueError) (v' : MemoryStorage) : Prop :=
  (forall m', m' ∈ mem_mutations v -> mut_object_id m' <> mut_object_id m -> m' ∈ mem_mutations v')
  /\ match r with
     | Ok out => conf_is_deleted conf = false /\ is_delete m = false
         /\ lww_by_time m conf key (lww_winner out) /\ lww_applied m conf out v v'
         /\ exists rec, mem_conflicts v' = <[lww_conflict_id out := rec]> (mem_conflicts v)
              /\ cr_resolved rec = true /\ cr_local_envelope rec = mut_envelope m
              /\ cr_remote_envelope rec = conf_current_envelope conf
     | Err _ => mem_conflicts v' = mem_conflicts v /\ edit_held m v v'
         /\ (conf_is_deleted conf || is_delete m = true -> v' = v)
     end.

Section branches.
Context (m : PendingMutation) (conf : ConflictResponse) (key : option string).
Context (Hd1 : conf_is_deleted conf = false) (Hd2 : is_delete m = false).
Abbreviation post l r s := (lww_post m conf key (l_view l) r (l_view s)).

Lemma lww_post_err v e v' :
  mem_conflicts v' = mem_conflicts v -> edit_held m v v' ->
  (forall m', m' ∈ mem_mutations v -> mut_object_id m' <> mut_object_id m -> m' ∈ mem_mutations v') ->
  lww_post m conf key v (Err e) v'.
Proof using Hd1 Hd2. intros. split_and!; [done..|]. by rewrite Hd1, Hd2. Qed.

Lemma wp_lww_local cid base t l :
  NoDup (queue_ids (l_view l)) -> lww_by_time m conf key WinLocal ->
  wp (_ ← on_store QE_Storage (put_base_version (mut_object_id m) (conf_current_revision conf)
                 (conf_current_envelope conf));
      _ ← on_store QE_Storage (put_object (Conflict.lww_object m conf (mut_envelope m) t));
      _ ← Conflict.remove_stale (mut_object_id m);
      mutation_id ← new_uuid;
      let retry_mutation := mkPendingMutation mutation_id (mut_object_id m)
        (conf_current_revision conf) (mut_object_kind m) Upsert (mut_envelope m) t 0 Pending in
      _ ← on_store QE_Storage (enqueue_mutation retry_mutation);
      _ ← on_store QE_Storage (put_conflict (Conflict.lww_record cid m conf base (mut_envelope m) t));
      mret (mkLwwOutcome cid (mut_object_id m) WinLocal (conf_current_revision conf)
              (conf_current_revision conf) (Some retry_mutation)))
    (fun r s => post l r s) l.
Proof using All.
  intros Hnd Hw. wp_step. wp_store; [|by apply lww_post_err; [..|left|]; rewrite Hview]. cbn beta iota.
  wp_step. wp_store; [|by apply lww_post_err; [..|left|]; rewrite Hview0]. cbn beta iota.
  wp_step. apply wp_remove_stale; [by rewrite Hview0|..].
  - intros q l3 Hv3 [Hsub Hoth] _. rewrite Hview0 in *. mem_simpl. cbn beta iota. wp_steps.
    + split_and!; view_simpl; [intros m' ? ?; rewrite elem_of_insert_at; auto|done|done|done| |by eexists].
      split_and!; mem_simpl; [by eexists; rewrite lookup_insert_eq|by rewrite lookup_insert_eq|].
      eexists. split; [done|]. rewrite elem_of_insert_at. auto 10.
    + apply lww_post_err; view_simpl; [done| |intros m' ? ?; rewrite elem_of_insert_at; auto].
      right; left. mem_simpl. by eexists; rewrite lookup_insert_eq.
    + apply lww_post_err; view_simpl; [done| |done].
      right; left. mem_simpl. by eexists; rewrite lookup_insert_eq.
  - intros e l3 Hv3. rewrite Hview0 in Hv3. by apply lww_post_err; [..|left|]; rewrite Hv3.
Qed.

Lemma wp_lww_remote cid base t l :
  NoDup (queue_ids (l_view l)) -> lww_by_time m conf key WinRemote ->
  wp (_ ← on_store QE_Storage (put_base_version (mut_object_id m) (mut_expected_revision m) (mut_envelope m));
      _ ← on_store QE_Storage (put_object (Conflict.lww_object m conf (conf_current_envelope conf) t));
      _ ← Conflict.remove_stale (mut_object_id m);
      _ ← on_store QE_Storage (put_conflict (Conflict.lww_record cid m conf base
                   (conf_current_envelope conf) t));
      mret (mkLwwOutcome cid (mut_object_id m) WinRemote (conf_current_revision conf)
              (mut_expected_revision m) None))
    (fun r s => post l r s) l.
Proof using All.
  intros Hnd Hw. wp_step. wp_store; [|by apply lww_post_err; [..|left|]; rewrite Hview]. cbn beta iota.
  wp_step. wp_store; [|by apply lww_post_err; [..|left|]; rewrite Hview0]. cbn beta iota.
  wp_step. apply wp_remove_stale; [by rewrite Hview0|..].
  - intros q l3 Hv3 [Hsub Hoth] _. rewrite Hview0 in *. mem_simpl. cbn beta iota. wp_steps.
    + split_and!; view_simpl; [done..| |by eexists].
      split_and!; mem_simpl; [by eexists; rewrite lookup_insert_eq|by rewrite lookup_insert_eq|done].
    + apply lww_post_err; view_simpl; [done| |done].
      right; right. mem_simpl. by rewrite lookup_insert_eq.
  - intros e l3 Hv3. rewrite Hview0 in Hv3. by apply lww_post_err; [..|left|]; rewrite Hv3.
Qed.
End branches.

(** Guarded last-write-wins keeps both versions of the conflict.  It refuses
    deletions without changing anything.  If it succeeds, the later version
    (when both notes can be read and their times differ) is the object, the
    other one is archived as a base version, a winning local edit is queued
    again on the remote revision, and a resolved record holds both.  If it
    fails, at whatever storage operation, the local edit is still queued,
    stored or archived.  Queued edits of other objects are kept. *)
Lemma guarded_lww_keeps_both m conf key l r l' :
  NoDup (queue_ids (l_view l)) ->
  Conflict.evaluate_guarded_lww m conf key l = (r, l') ->
  (forall m', m' ∈ mem_mutations (l_view l) -> mut_object_id m' <> mut_object_id m ->
     m' ∈ mem_mutations (l_view l'))
  /\ match r with
     | Ok out => conf_is_deleted conf = false /\ is_delete m = false
         /\ lww_by_time m conf key (lww_winner out) /\ lww_applied m conf out (l_view l) (l_view l')
         /\ exists rec, mem_conflicts (l_view l') = <[lww_conflict_id out := rec]> (mem_conflicts (l_view l))
              /\ cr_resolved rec = true /\ cr_local_envelope rec = mut_envelope m
              /\ cr_remote_envelope rec = conf_current_envelope conf
     | Err _ => mem_conflicts (l_view l') = mem_conflicts (l_view l) /\ edit_held m (l_view l) (l_view l')
         /\ (conf_is_deleted conf || is_delete m = true -> l_view l' = l_view l)
     end.
Proof using Type.
  intros Hnd. as_wp.
  change (wp (Conflict.evaluate_guarded_lww m conf key)
    (fun r s => lww_post m conf key (l_view l) r (l_view s)) l).
  unfold Conflict.evaluate_guarded_lww.
  destruct (conf_is_deleted conf || is_delete m) eqn:Hdel; [wp_step; repeat split; auto; by left|].
  apply orb_false_iff in Hdel as [Hd1 Hd2].
  wp_step. wp_step. wp_step. wp_step. wp_step. apply wp_lww_local_wins. intros w l2 Hv2 _ Hw. cbn beta iota.
  wp_step. eapply wp_lookup_or_none; [apply spec_get_base_version|done|]. intros base l3 Hv3 _.
  cbn beta iota. rewrite Hv2, Hview0 in Hv3. rewrite <- Hv3 in *.
  destruct w; [by apply wp_lww_local|by apply wp_lww_remote].
Qed.

(** What the policy leaves of the queue, the sync state and the records, for the
    loop that calls it; [u] numbers the next identifier at the start. *)
Record lww_frame (m : PendingMutation) (conf : ConflictResponse) (u : nat) (v : MemoryStorage)
    (r : Result GuardedLwwOutcome QueueError) l' : Prop := {
  lf_unique : NoDup (queue_ids (l_view l'));
  lf_others m' : m' ∈ mem_mutations v -> mut_object_id m' <> mut_object_id m -> m' ∈ mem_mutations (l_view l');
  lf_sync : mem_sync_state (l_view l') = mem_sync_state v;
  lf_record : match r with
    | Ok _ => u < l_uuids l' /\ exists rec,
        mem_conflicts (l_view l') = <[uuid_v4 u := rec]> (mem_conflicts v)
        /\ cr_resolved rec = true /\ cr_object_id rec = mut_object_id m
        /\ cr_local_envelope rec = mut_envelope m /\ cr_remote_envelope rec = conf_current_envelope conf
        /\ cr_remote_revision rec = conf_current_revision conf
    | Err _ => True
    end
}.

(** The queue less the object's mutations, with at most one more. *)
Lemma NoDup_requeued oid q q' n x :
  stale_removed oid q q' -> NoDup (mut_mutation_id <$> q) ->
  existsb (Memory.by_mutation_id (mut_mutation_id x)) q' = false ->
  NoDup (mut_mutation_id <$> take n q' ++ x :: drop n q').
Proof using Type.
  intros [Hsub _] Hnd Hx. rewrite insert_at_perm, fmap_cons, NoDup_cons. split.
  - unfold Memory.by_mutation_id in Hx. rewrite existsb_has_key in Hx. by apply bool_decide_eq_false in Hx.
  - eapply sublist_NoDup; [exact Hnd|by apply fmap_sublist].
Qed.

Lemma lww_frame_err m conf u v e l' :
  NoDup (queue_ids v) -> mem_mutations (l_view l') = mem_mutations v ->
  mem_sync_state (l_view l') = mem_sync_state v -> lww_frame m conf u v (Err e) l'.
Proof using Type. intros Hnd Hq Hy. split; rewrite ?Hq; done. Qed.

Lemma wp_guarded_lww m conf key l :
  NoDup (queue_ids (l_view l)) ->
  wp (Conflict.evaluate_guarded_lww m conf key) (lww_frame m conf (l_uuids l) (l_view l)) l.
Proof using Type.
  intros Hnd. unfold Conflict.evaluate_guarded_lww.
  destruct (conf_is_deleted conf || is_delete m); [by wp_step; apply lww_frame_err|].
  wp_step. wp_step. wp_step. wp_step. wp_step. apply wp_lww_local_wins. intros w l2 Hv2 Hu2 _. cbn beta iota.
  wp_step. eapply wp_lookup_or_none; [apply spec_get_base_version|done|]. intros base l3 Hv3 Hu3. cbn beta iota.
  assert (l_view l3 = l_view l) as Hv by congruence.
  assert (l_uuids l < l_uuids l3) as Hlt by lia. rewrite H5 in *.
  rewrite <- Hv in *. clear - Hnd Hlt H0.
  assert (forall q, stale_removed (mut_object_id m) (mem_mutations (l_view l3)) q -> NoDup (mut_mutation_id <$> q)) as Hnq.
  { intros q [Hsub _]. eapply sublist_NoDup; [exact Hnd|by apply fmap_sublist]. }
  destruct w.
  - wp_step. wp_store; [|by apply lww_frame_err; rewrite ?Hview]. cbn beta iota.
    wp_step. wp_store; [|by apply lww_frame_err; rewrite ?Hview0]. cbn beta iota.
    wp_step. apply wp_remove_stale; [by rewrite Hview0|..].
    + intros q l4 Hv4 Hsr Hu4. rewrite Hview0 in *. mem_simpl. cbn beta iota. wp_steps; split; view_simpl.
      all: first [by eapply NoDup_requeued|by apply Hnq|done|split; [lia|by eexists]|idtac].
      all: intros m' Hm' Hne; apply (sr_others _ _ _ Hsr) in Hm'; [|done]; rewrite ?elem_of_insert_at; auto.
    + intros e l4 Hv4. apply lww_frame_err; by rewrite ?Hv4, ?Hview0.
  - wp_step. wp_store; [|by apply lww_frame_err; rewrite ?Hview]. cbn beta iota.
    wp_step. wp_store; [|by apply lww_frame_err; rewrite ?Hview0]. cbn beta iota.
    wp_step. apply wp_remove_stale; [by rewrite Hview0|..].
    + intros q l4 Hv4 Hsr Hu4. rewrite Hview0 in *. mem_simpl. cbn beta iota. wp_steps; split; view_simpl.
      all: first [by apply Hnq|apply Hsr|done|split; [lia|by eexists]].
    + intros e l4 Hv4. apply lww_frame_err; by rewrite ?Hv4, ?Hview0.
Qed.
End lww.
