(* ===== verification/Adapter.v ===== *)
(** * The server as the client sees it ([zk-sync/src/adapter.rs], [error.rs])

    [SyncServerAdapter] is a type class over the state of the network and the
    servers behind it; [MockSyncAdapter] is the in-memory server of the crate.
    [Logged] wraps any adapter and records the pushes and their answers, so
    that theorems can speak about what was sent. *)

From stdpp Require Import options.
From stdpp Require Import sorting.
From S2P Require Import Prelude Protocol StorageModels Storage CoreErrors Time Env.

Inductive SyncNetworkError : Type :=
| NE_Unauthorized (msg : string)
| NE_Forbidden (msg : string)
| NE_NotFound (msg : string)
| NE_Conflict (conflict : ConflictResponse)
| NE_ReplayMismatch (msg : string)
| NE_InvalidCursor (msg : string)
| NE_InvalidPayload (msg : string)
| NE_ServerError (status : N) (message : string)
| NE_ConnectionFailed (msg : string)
| NE_Serialization (msg : string)
| NE_ForbiddenPlaintext (msg : string).

#[export] Instance SyncNetworkError_eq_dec : EqDecision SyncNetworkError.
Proof. solve_decision. Defined.

Definition SyncNetworkError_display (e : SyncNetworkError) : string :=
  match e with
  | NE_Unauthorized msg => "authentication required: " +:+ msg
  | NE_Forbidden msg => "access forbidden: " +:+ msg
  | NE_NotFound msg => "resource not found: " +:+ msg
  | NE_Conflict conflict =>
      "revision conflict on object '" +:+ conf_object_id conflict +:+ "': expected "
        +:+ show_N (conf_expected_revision conflict) +:+ ", current is "
        +:+ show_N (conf_current_revision conflict)
  | NE_ReplayMismatch msg => "mutation replay mismatch: " +:+ msg
  | NE_InvalidCursor msg => "invalid sync cursor: " +:+ msg
  | NE_InvalidPayload msg => "invalid request payload: " +:+ msg
  | NE_ServerError status message => "server error (" +:+ show_N status +:+ "): " +:+ message
  | NE_ConnectionFailed msg => "connection failed: " +:+ msg
  | NE_Serialization msg => "serialization error: " +:+ msg
  | NE_ForbiddenPlaintext msg => "security invariant violation: plaintext transmitted: " +:+ msg
  end.

Definition is_retryable (e : SyncNetworkError) : bool :=
  match e with
  | NE_ConnectionFailed _ => true
  | NE_ServerError status _ => (500 <=? status)%N || (status =? 429)%N
  | _ => false
  end.

Class SyncServerAdapter (Net : Type) : Type := {
  ad_get_vault_bootstrap : M Net SyncNetworkError (option VaultBootstrap);
  ad_post_vault_bootstrap : VaultBootstrap -> M Net SyncNetworkError unit;
  ad_push_mutation : PushRequest -> M Net SyncNetworkError PushResponse;
  ad_pull_changes : N -> option N -> M Net SyncNetworkError PullChangesResponse
}.

(** The client and everything it talks to. *)
Record World (Net S : Type) : Type := mkWorld {
  w_net : Net;
  w_local : Local S
}.
Arguments mkWorld {Net S}.
Arguments w_net {Net S}.
Arguments w_local {Net S}.

Definition set_net {Net S} (n : Net) (w : World Net S) : World Net S := mkWorld n (w_local w).
Definition set_local {Net S} (l : Local S) (w : World Net S) : World Net S := mkWorld (w_net w) l.

(** A call of the adapter, and a computation of the client. *)
Definition on_net {Net S E A} (conv : SyncNetworkError -> E) (m : M Net SyncNetworkError A)
    : M (World Net S) E A := map_err conv (zoom w_net set_net m).
Definition on_local {Net S E E' A} (conv : E -> E') (m : M (Local S) E A)
    : M (World Net S) E' A := map_err conv (zoom w_local set_local m).

(** ** The in-memory server *)

Record MockSyncAdapter : Type := mkMock {
  mk_bootstrap : option VaultBootstrap;
  mk_objects : gmap string ObjectChange;
  mk_sequence_counter : N;
  mk_fail_next : option SyncNetworkError;
  mk_processed : gmap string (PushRequest * PushResponse)
}.

Module Mock.
Abbreviation K A := (M MockSyncAdapter SyncNetworkError A).

Definition set_fail_next (error : option SyncNetworkError) (s : MockSyncAdapter) : MockSyncAdapter :=
  mkMock (mk_bootstrap s) (mk_objects s) (mk_sequence_counter s) error (mk_processed s).

(** A critical section. *)
Definition locked {A} (f : MockSyncAdapter -> Result A SyncNetworkError * MockSyncAdapter) : K A := f.

Definition check_failure : K unit :=
  fun s => match mk_fail_next s with
           | Some err => (Err err, set_fail_next None s)
           | None => (Ok tt, s)
           end.

Definition get_vault_bootstrap : K (option VaultBootstrap) :=
  _ ← check_failure; locked (fun s => (Ok (mk_bootstrap s), s)).

Definition post_vault_bootstrap (bootstrap : VaultBootstrap) : K unit :=
  _ ← check_failure;
  locked (fun s => (Ok tt, mkMock (Some bootstrap) (mk_objects s) (mk_sequence_counter s)
                             (mk_fail_next s) (mk_processed s))).

Definition same_request (prev_req request : PushRequest) : bool :=
  bool_decide (req_object_id prev_req = req_object_id request)
  && (req_expected_revision prev_req =? req_expected_revision request)%N
  && Bool.eqb (req_is_deleted prev_req) (req_is_deleted request)
  && bool_decide (req_envelope prev_req = req_envelope request).

Definition empty_envelope (request : PushRequest) : EncryptedEnvelope :=
  mkEnvelope ENVELOPE_VERSION_V1 (req_object_id request) (req_object_kind request)
    (mkKeyContainer "" "") (mkPayloadContainer "" "").

Definition conflict_of (request : PushRequest) (existing : option ObjectChange) : ConflictResponse :=
  mkConflictResponse "REVISION_CONFLICT" (req_object_id request) (req_expected_revision request)
    (from_option ch_revision 0%N existing) (from_option ch_server_seq 0%N existing)
    (from_option ch_envelope (empty_envelope request) existing)
    (from_option ch_is_deleted false existing).

Definition push_mutation (request : PushRequest) : K PushResponse :=
  _ ← check_failure;
  locked (fun s =>
    match mk_processed s !! req_mutation_id request with
    | Some (prev_req, prev_resp) =>
        if same_request prev_req request then (Ok prev_resp, s)
        else (Err (NE_ReplayMismatch "mutation_id reused with different payload"), s)
    | None =>
        let existing := mk_objects s !! req_object_id request in
        let cur_rev := from_option ch_revision 0%N existing in
        if negb (req_expected_revision request =? cur_rev)%N
        then (Err (NE_Conflict (conflict_of request existing)), s)
        else
          let new_seq := u64_add (mk_sequence_counter s) 1 in
          let new_rev := u64_add cur_rev 1 in
          let change := mkObjectChange new_seq (req_object_id request) new_rev (req_object_kind request)
                          (req_is_deleted request) (req_envelope request) in
          let response := mkPushResponse (req_object_id request) new_rev new_seq in
          (Ok response, mkMock (mk_bootstrap s) (<[req_object_id request := change]> (mk_objects s))
             new_seq (mk_fail_next s) (<[req_mutation_id request := (request, response)]> (mk_processed s)))
    end).

Definition seq_le (a b : ObjectChange) : Prop := (ch_server_seq a <= ch_server_seq b)%N.
#[export] Instance seq_le_dec : RelDecision seq_le.
Proof. intros a b. unfold seq_le. apply _. Defined.

Definition matching (after : N) (s : MockSyncAdapter) : list ObjectChange :=
  merge_sort seq_le (List.filter (fun c => after <? ch_server_seq c)%N (map_to_list (mk_objects s)).*2).

Definition pull_changes (after : N) (limit : option N) : K PullChangesResponse :=
  _ ← check_failure;
  locked (fun s =>
    let matching := matching after s in
    let lim := N.to_nat (default 50%N limit) in
    let changes := take lim matching in
    (Ok (mkPullChangesResponse changes (from_option ch_server_seq after (last changes))
           (lim <? length matching)%nat), s)).
End Mock.

#[export] Instance Mock_SyncServerAdapter : SyncServerAdapter MockSyncAdapter := {
  ad_get_vault_bootstrap := Mock.get_vault_bootstrap;
  ad_post_vault_bootstrap := Mock.post_vault_bootstrap;
  ad_push_mutation := Mock.push_mutation;
  ad_pull_changes := Mock.pull_changes
}.

(** ** Recording the pushes *)

Record Logged (Net : Type) : Type := mkLogged {
  lg_net : Net;
  lg_pushes : list (PushRequest * Result PushResponse SyncNetworkError)
}.
Arguments mkLogged {Net}.
Arguments lg_net {Net}.
Arguments lg_pushes {Net}.

Definition unlogged {Net A} (m : M Net SyncNetworkError A) : M (Logged Net) SyncNetworkError A :=
  zoom lg_net (fun n lg => mkLogged n (lg_pushes lg)) m.

Definition logged_push {Net} `{SyncServerAdapter Net} (request : PushRequest)
    : M (Logged Net) SyncNetworkError PushResponse :=
  fun lg => let '(r, n) := ad_push_mutation request (lg_net lg) in
            (r, mkLogged n (lg_pushes lg ++ [(request, r)])).

#[export] Instance Logged_SyncServerAdapter {Net} `{SyncServerAdapter Net}
    : SyncServerAdapter (Logged Net) := {
  ad_get_vault_bootstrap := unlogged ad_get_vault_bootstrap;
  ad_post_vault_bootstrap b := unlogged (ad_post_vault_bootstrap b);
  ad_push_mutation := logged_push;
  ad_pull_changes after limit := unlogged (ad_pull_changes after limit)
}.
