(* ===== verification/Files.v ===== *)
(** * The file system below the client

    What the client services use of [std::fs], on the data directory and the
    directories below it.  A disk maps paths to contents and holds a set of
    directories; a database file holds an abstract value.  Every call can fail:
    the list [verdicts] says which do, and what a failing write had already
    written.  A process can also die between two calls, so the state keeps every
    disk it has passed through; what survives a crash is one of them.  (A crash
    of the machine can also undo operations after the last [sync_all]: with
    metadata written in order that leaves an earlier disk of the same list.)

    Queries of the form [path.exists()] are taken to answer correctly. *)

From stdpp Require Import options.
From stdpp Require Import gmap list.
From S2P Require Import Prelude StorageModels Storage CoreErrors Time Env Queue.

(** ** Errors of the client ([apps/cli/src/error.rs], and [LinkError] of
    [client/vault_link.rs])

    The error enum of every client service, its texts and the conversions the [?]
    operator applies. *)

Inductive LinkError : Type :=
| MissingLink
| CorruptLink
| WrongAccount
| WrongServer
| LocalVaultMismatch
| RemoteVaultMissing
| RemoteVaultMismatch
| LE_InvalidBootstrap
| ConfirmationRequired.

#[export] Instance LinkError_eq_dec : EqDecision LinkError.
Proof. solve_decision. Defined.

Definition LinkError_display (e : LinkError) : string :=
  match e with
  | MissingLink => "local vault is unlinked; explicitly link or restore before sync"
  | CorruptLink => "corrupt vault link; sync disabled"
  | WrongAccount => "vault linked to another account; sync disabled"
  | WrongServer => "vault linked to another server; sync disabled"
  | LocalVaultMismatch => "local vault identity differs from its link; sync disabled"
  | RemoteVaultMissing => "remote vault bootstrap is missing; sync disabled"
  | RemoteVaultMismatch => "remote vault identity differs; explicit local replacement required"
  | LE_InvalidBootstrap => "invalid or unsupported vault bootstrap"
  | ConfirmationRequired =>
      "replacement requires explicit confirmation to discard local changes"
  end.

Inductive CliError : Type :=
| VaultLink_ (e : LinkError)
| VaultLocked
| VaultUninitialized
| VaultAlreadyInitialized
| PassphraseMismatch
| AuthenticationFailed
| InvalidRecoveryKey (msg : string)
| CorruptedSession (msg : string)
| NoteNotFound (id : string)
| NoteAlreadyDeleted (id : string)
| RevisionNotFound (note_id : string) (revision : N)
| ConflictNotFound (id : string)
| ConflictAlreadyResolved (id : string)
| Cli_Core (e : CoreError)
| Cli_Storage (e : StorageError)
| Io (msg : string)
| NotLoggedIn
| AuthError (msg : string)
| SessionRevoked
| SessionExpired
| Network (msg : string).

#[export] Instance CliError_eq_dec : EqDecision CliError.
Proof. solve_decision. Defined.

Definition CliError_display (debug : string -> string) (e : CliError) : string :=
  match e with
  | VaultLink_ e => LinkError_display e
  | VaultLocked => "vault is locked; run 'zk-note unlock' first"
  | VaultUninitialized => "vault is uninitialized; run 'zk-note init' first"
  | VaultAlreadyInitialized => "vault is already initialized in this directory"
  | PassphraseMismatch => "passphrase confirmation does not match"
  | AuthenticationFailed => "authentication failed: incorrect passphrase or corrupted vault"
  | InvalidRecoveryKey msg => "invalid recovery key: " +:+ msg
  | CorruptedSession msg => "corrupted session: " +:+ msg
  | NoteNotFound id => "note not found: " +:+ id
  | NoteAlreadyDeleted id => "note has been deleted: " +:+ id
  | RevisionNotFound note_id revision =>
      "revision " +:+ show_N revision +:+ " not found for note: " +:+ note_id
  | ConflictNotFound id => "conflict record not found: " +:+ id
  | ConflictAlreadyResolved id => "conflict record already resolved: " +:+ id
  | Cli_Core e => CoreError_display debug e
  | Cli_Storage e => StorageError_display e
  | Io msg => "I/O error: " +:+ msg
  | NotLoggedIn => "not logged in to any server; run 'zk-note login' first"
  | AuthError msg => "authentication error: " +:+ msg
  | SessionRevoked => "session or device has been revoked on the server; please re-authenticate"
  | SessionExpired => "session has expired on the server; please re-authenticate"
  | Network msg => "network error: " +:+ msg
  end.

(** [impl From<CoreError> for CliError] *)
Definition cli_of_core (e : CoreError) : CliError :=
  match e with
  | CE_VaultLocked => VaultLocked
  | CE_VaultUninitialized => VaultUninitialized
  | CE_Crypto DecryptionFailed => AuthenticationFailed
  | CE_InvalidRecoveryKey msg => InvalidRecoveryKey msg
  | other => Cli_Core other
  end.

(** [impl From<NoteValidationError> for CliError] *)
Definition cli_of_validation (e : NoteValidationError) : CliError :=
  Cli_Core (CE_Validation e).

(** [impl From<QueueError> for CliError] *)
Definition cli_of_queue (e : QueueError) : CliError :=
  match e with
  | QE_NotFound msg => ConflictNotFound msg
  | QE_InvalidState msg => ConflictAlreadyResolved msg
  | QE_Storage se => Cli_Storage se
  | other => Io (QueueError_display other)
  end.

(** ** The disk *)

(** A path below the data directory, as its components. *)
Abbreviation path := (list string).

Inductive content (DB : Type) : Type :=
| Bytes (b : string)
| Database (d : DB).
Arguments Bytes {DB}.
Arguments Database {DB}.

Record Disk (DB : Type) : Type := mkDisk {
  files : gmap path (content DB);
  dirs : gset path
}.
Arguments mkDisk {DB}.
Arguments files {DB}.
Arguments dirs {DB}.

(** [Breaks msg partial]: the call fails with the system's text [msg]; a write
    leaves [partial] in the file. *)
Inductive verdict : Type :=
| Works
| Breaks (msg partial : string).

Record World (DB : Type) : Type := mkWorld {
  disk : Disk DB;
  past : list (Disk DB);
  verdicts : list verdict
}.
Arguments mkWorld {DB}.
Arguments disk {DB}.
Arguments past {DB}.
Arguments verdicts {DB}.

(** [std::io::Error], with the kinds the code distinguishes. *)
Inductive IoError : Type :=
| IoNotFound
| IoAlreadyExists
| IoOther (msg : string).

Definition IoError_display (e : IoError) : string :=
  match e with
  | IoNotFound => "No such file or directory (os error 2)"
  | IoAlreadyExists => "File exists (os error 17)"
  | IoOther msg => msg
  end.

(** [impl From<std::io::Error> for CliError] *)
Definition cli_of_io (e : IoError) : CliError := Io (IoError_display e).

Section fs.
Context {DB : Type}.
Implicit Types (d : Disk DB) (w : World DB) (p : path) (c : content DB).

Abbreviation Fs A := (M (World DB) IoError A).

(** Replace the disk, remembering the one before. *)
Definition now_disk d w : World DB := mkWorld d (disk w :: past w) (verdicts w).

(** One system call: [ok] when it works, [broken] when it fails. *)
Definition call {A} (broken : string -> Disk DB -> Disk DB)
    (ok : Disk DB -> Result A IoError * Disk DB) : Fs A :=
  fun w =>
    match verdicts w with
    | Breaks msg partial :: vs =>
        (Err (IoOther msg), now_disk (broken partial (disk w)) (mkWorld (disk w) (past w) vs))
    | vs =>
        let '(r, d) := ok (disk w) in (r, now_disk d (mkWorld (disk w) (past w) (tail vs)))
    end.

(** Calls that change nothing when they fail. *)
Definition plain {A} (ok : Disk DB -> Result A IoError * Disk DB) : Fs A :=
  call (fun _ d => d) ok.

Definition exists_on d p : bool :=
  bool_decide (is_Some (files d !! p)) || bool_decide (p ∈ dirs d).
Definition fs_exists p : Fs bool := fun w => (Ok (exists_on (disk w) p), w).

(** The directory that holds a path. *)
Definition parent_of p : path := removelast p.

Definition put_file p c d : Disk DB := mkDisk (<[p := c]> (files d)) (dirs d).
Definition drop_file p d : Disk DB := mkDisk (delete p (files d)) (dirs d).

(** [fs::read] *)
Definition fs_read p : Fs (content DB) :=
  plain (fun d => (match files d !! p with Some c => Ok c | None => Err IoNotFound end, d)).

(** [File::open(path)?.sync_all()?], on a file or a directory *)
Definition fs_sync p : Fs unit :=
  plain (fun d => (if exists_on d p then Ok tt else Err IoNotFound, d)).

(** [OpenOptions::new().write(true).create_new(true).open(path)] *)
Definition fs_create_new p : Fs unit :=
  plain (fun d =>
    if exists_on d p then (Err IoAlreadyExists, d)
    else if bool_decide (parent_of p ∈ dirs d) then (Ok tt, put_file p (Bytes "") d)
    else (Err IoNotFound, d)).

(** [OpenOptions::new().write(true).create(true).truncate(true).open(path)] *)
Definition fs_create p : Fs unit :=
  plain (fun d =>
    if bool_decide (p ∈ dirs d) then (Err (IoOther "Is a directory (os error 21)"), d)
    else if bool_decide (parent_of p ∈ dirs d) then (Ok tt, put_file p (Bytes "") d)
    else (Err IoNotFound, d)).

(** [file.write_all(bytes)] on a file just opened at its start; the handle stays
    valid only as long as the file does, which it does here. *)
Definition fs_write_all p c : Fs unit :=
  call (fun partial d => put_file p (Bytes partial) d) (fun d => (Ok tt, put_file p c d)).

(** [fs::rename] of a file *)
Definition fs_rename p q : Fs unit :=
  plain (fun d =>
    match files d !! p with
    | None => (Err IoNotFound, d)
    | Some c =>
        if bool_decide (q ∈ dirs d) then (Err (IoOther "Is a directory (os error 21)"), d)
        else if bool_decide (parent_of q ∈ dirs d) then (Ok tt, put_file q c (drop_file p d))
        else (Err IoNotFound, d)
    end).

(** [fs::remove_file] *)
Definition fs_remove_file p : Fs unit :=
  plain (fun d =>
    match files d !! p with
    | Some _ => (Ok tt, drop_file p d)
    | None => (Err IoNotFound, d)
    end).

(** [fs::create_dir] *)
Definition fs_create_dir p : Fs unit :=
  plain (fun d =>
    if exists_on d p then (Err IoAlreadyExists, d)
    else if bool_decide (parent_of p ∈ dirs d) then (Ok tt, mkDisk (files d) ({[p]} ∪ dirs d))
    else (Err IoNotFound, d)).

(** [fs::read_dir] of a directory that holds files only, and [rmdir] *)
Definition files_in p d : list path :=
  List.filter (fun q => bool_decide (parent_of q = p)) (map_to_list (files d)).*1.
Definition fs_remove_dir p : Fs unit :=
  plain (fun d =>
    if negb (bool_decide (p ∈ dirs d)) then (Err IoNotFound, d)
    else if bool_decide (files_in p d = []) then (Ok tt, mkDisk (files d) (dirs d ∖ {[p]}))
    else (Err (IoOther "Directory not empty (os error 39)"), d)).
Definition fs_read_dir p : Fs (list path) :=
  plain (fun d => (if bool_decide (p ∈ dirs d) then Ok (files_in p d) else Err IoNotFound, d)).
End fs.

(** ** The client: a disk, a clock and fresh identifiers *)

Section client.
Context {DB : Type} `{!Env}.

Abbreviation Cli A := (M (Local (World DB)) CliError A).

(** An [io::Result] with its own error text, and one under [?]. *)
Definition io_as {A} (text : IoError -> CliError) (m : M (World DB) IoError A) : Cli A :=
  map_err text (zoom l_store set_store m).
Definition io {A} (m : M (World DB) IoError A) : Cli A := io_as cli_of_io m.

(** An [io::Result] the code matches on. *)
Definition io_result {A} (m : M (World DB) IoError A) : Cli (Result A IoError) :=
  zoom l_store set_store (attempt m).

Definition exists_path (p : path) : Cli bool := io (fs_exists p).

(** [fs::remove_dir_all] of a directory that holds files only: the files one by
    one, then the directory. *)
Definition remove_dir_all (p : path) : Cli unit :=
  entries ← io (fs_read_dir p);
  _ ← for_each (fun q => io (fs_remove_file q)) entries;
  io (fs_remove_dir p).
End client.

(** ** Proof rules *)

Section rules.
Context {DB : Type}.
Implicit Types (d : Disk DB) (w : World DB) (l : Local (World DB)) (p q : path) (c : content DB).

(** Every disk a process has left satisfies [I]. *)
Definition Kept (I : Disk DB -> Prop) w : Prop := Forall I (disk w :: past w).

Definition l_disk l : Disk DB := disk (l_store l).

(** No call fails. *)
Definition calm l : Prop := verdicts (l_store l) = [].

(** A system call reads no clock, draws no identifier, and brings no failures. *)
Definition same_counters l l' : Prop :=
  l_uuids l' = l_uuids l /\ l_clock l' = l_clock l /\ l_rng l' = l_rng l /\ (calm l -> calm l').

#[export] Instance same_counters_preorder : PreOrder same_counters.
Proof.
  split; [by intros ?|]. intros ? ? ? (? & ? & ? & ?) (? & ? & ? & ?). unfold same_counters.
  split_and!; [congruence..|auto].
Qed.

(** What a system call of the client does: it fails and leaves what a failed one
    leaves, or it answers. *)
Lemma wp_io_call {A} (text : IoError -> CliError) broken (ok : Disk DB -> Result A IoError * Disk DB)
    (I : Disk DB -> Prop) (Q : result CliError A -> Local (World DB) -> Prop) l :
  Kept I (l_store l) ->
  (forall partial, I (broken partial (l_disk l))) ->
  I (ok (l_disk l)).2 ->
  (forall e partial l', l_disk l' = broken partial (l_disk l) -> Kept I (l_store l') ->
     same_counters l l' -> ~ calm l -> Q (Err e) l') ->
  (forall l', l_disk l' = (ok (l_disk l)).2 -> Kept I (l_store l') -> same_counters l l' ->
     Q (result_map_err text (ok (l_disk l)).1) l') ->
  wp (io_as text (call broken ok)) Q l.
Proof.
  unfold l_disk. intros Hk Hbroken Hok Q1 Q2. unfold io_as. apply wp_map_err, wp_zoom. unfold wp, call.
  destruct (ok (disk (l_store l))) as [r d'] eqn:Hrun. cbn in *.
  destruct (verdicts (l_store l)) as [|[|msg partial] vs] eqn:Hv; cbn.
  - refine (_ (Q2 (set_store _ l) _ _ _)); [by destruct r|done|by constructor|done].
  - refine (_ (Q2 (set_store _ l) _ _ _)); [by destruct r|done|by constructor|].
    split_and!; [done..|]. unfold calm. by rewrite Hv.
  - apply (Q1 _ partial); [done| |by split_and!; [..|unfold calm; rewrite Hv]|].
    + constructor; [apply Hbroken|done].
    + unfold calm. by rewrite Hv.
Qed.

Lemma wp_io_plain {A} (text : IoError -> CliError) (ok : Disk DB -> Result A IoError * Disk DB)
    (I : Disk DB -> Prop) (Q : result CliError A -> Local (World DB) -> Prop) l :
  Kept I (l_store l) ->
  I (ok (l_disk l)).2 ->
  (forall e l', l_disk l' = l_disk l -> Kept I (l_store l') -> same_counters l l' -> ~ calm l ->
     Q (Err e) l') ->
  (forall l', l_disk l' = (ok (l_disk l)).2 -> Kept I (l_store l') -> same_counters l l' ->
     Q (result_map_err text (ok (l_disk l)).1) l') ->
  wp (io_as text (plain ok)) Q l.
Proof.
  intros Hk Hok Q1 Q2. unfold plain. apply (wp_io_call _ _ _ I); [done| |done| |done].
  - intros _. by inversion Hk.
  - intros e _ l'. apply Q1.
Qed.

Lemma wp_io_result {A} (ok : Disk DB -> Result A IoError * Disk DB)
    (I : Disk DB -> Prop) (Q : result CliError (Result A IoError) -> Local (World DB) -> Prop) l :
  Kept I (l_store l) -> I (ok (l_disk l)).2 ->
  (forall msg l', l_disk l' = l_disk l -> Kept I (l_store l') -> same_counters l l' -> ~ calm l ->
     Q (Ok (Err (IoOther msg))) l') ->
  (forall l', l_disk l' = (ok (l_disk l)).2 -> Kept I (l_store l') -> same_counters l l' ->
     Q (Ok (ok (l_disk l)).1) l') ->
  wp (io_result (plain ok)) Q l.
Proof.
  unfold l_disk. intros Hk Hok Q1 Q2. unfold io_result. apply wp_zoom, wp_attempt. unfold wp, plain, call.
  destruct (ok (disk (l_store l))) as [r d'] eqn:Hrun. cbn in *.
  destruct (verdicts (l_store l)) as [|[|msg partial] vs] eqn:Hv; cbn.
  1,2: apply (Q2 (set_store _ l)); [done|by constructor|].
  1,2: split_and!; [done..|]; unfold calm; by rewrite Hv.
  apply (Q1 msg); [done| |by split_and!; [..|unfold calm; rewrite Hv]|].
  - constructor; [by inversion Hk|done].
  - unfold calm. by rewrite Hv.
Qed.

Lemma wp_exists p (Q : result CliError bool -> Local (World DB) -> Prop) l :
  Q (Ok (exists_on (l_disk l) p)) l -> wp (exists_path p) Q l.
Proof. unfold wp, exists_path, io, io_as, map_err, zoom, fs_exists; cbn. by destruct l. Qed.

(** Without failures a system call is its effect. *)
Lemma wp_io_calm {A} (text : IoError -> CliError) broken
    (ok : Disk DB -> Result A IoError * Disk DB) (Q : result CliError A -> Local (World DB) -> Prop) l :
  calm l ->
  (forall l', l_disk l' = (ok (l_disk l)).2 -> calm l' -> same_counters l l' ->
     Q (result_map_err text (ok (l_disk l)).1) l') ->
  wp (io_as text (call broken ok)) Q l.
Proof.
  unfold calm, l_disk. intros Hc HQ. unfold io_as. apply wp_map_err, wp_zoom. unfold wp, call.
  rewrite Hc. destruct (ok (disk (l_store l))) as [r d'] eqn:Hrun. cbn in *.
  refine (_ (HQ (set_store _ l) _ _ _)); [by destruct r|done..].
Qed.

Lemma exists_on_file d p c : files d !! p = Some c -> exists_on d p = true.
Proof. intros Hf. unfold exists_on. by rewrite bool_decide_eq_true_2 by (rewrite Hf; eauto). Qed.
End rules.
