(* ===== verification/CliSession.v ===== *)
(** * The session file of the command line client ([apps/cli/src/session.rs])

    An unlocked vault leaves its key in [.session], with an idle timeout that
    every genuine use renews.  Theorem group: the key is handed out only while
    the session is not idle for its timeout, looking at a session does not renew
    it, and an expired or cleared session is gone from the disk. *)

From stdpp Require Import options.
From stdpp Require Import gmap.
From S2P Require Import Prelude Text StorageModels Storage CoreErrors Time Env Crypto Queue Files.

Definition DEFAULT_IDLE_TIMEOUT_SECS : N := 900.

Record SessionEnvelope : Type := mkSessionEnvelope {
  se_key : string;
  se_created_at : N;
  se_last_active_at : N;
  se_idle_timeout_secs : option N
}.

Record SessionInfo : Type := mkSessionInfo {
  is_active : bool;
  is_expired : bool;
  si_idle_timeout_secs : option N;
  idle_secs : N;
  remaining_secs : option N;
  si_created_at : N;
  si_last_active_at : N
}.

(** serde_json on [SessionEnvelope], the bytes of a database file, the
    environment variables, and [path.display()] of the data directory. *)
Class CliLib (DB : Type) : Type := {
  session_to_string : SessionEnvelope -> string;
  session_from_slice : string -> Result SessionEnvelope string;
  db_image : DB -> string;
  env_var : string -> option string;
  path_display : path -> string
}.

(** What the code relies on: an envelope comes back as it was written, its key an
    array of [KEY_LEN] bytes, and JSON text is longer than a bare key. *)
Class CliLaws (DB : Type) `{CliLib DB} : Prop := {
  session_json_roundtrip e : String.length (se_key e) = KEY_LEN ->
    session_from_slice (session_to_string e) = Ok e;
  session_json_key s e : session_from_slice s = Ok e -> String.length (se_key e) = KEY_LEN;
  session_json_long e : KEY_LEN < String.length (session_to_string e)
}.

(** Arithmetic of [u64]: [-] saturating, [*] wrapping as in a release build. *)
Definition u64_saturating_sub (a b : N) : N := a - b.
Definition u64_mul (a b : N) : N := (a * b) mod 18446744073709551616.

Section session.
Context {DB : Type} `{!Env} `{CliLib DB}.
Abbreviation Cli A := (M (Local (World DB)) CliError A).

Definition mins_to_secs (mins : N) : option N :=
  if (mins =? 0)%N then None else Some (u64_mul mins 60).

Definition resolve_default_timeout : option N :=
  match env_var "ZK_AUTO_LOCK_MINUTES" with
  | Some env_val =>
      match parse_uint u64_max (str_trim env_val) with
      | Ok mins => mins_to_secs mins
      | Err _ => Some DEFAULT_IDLE_TIMEOUT_SECS
      end
  | None => Some DEFAULT_IDLE_TIMEOUT_SECS
  end.

(** [SystemTime::now()] in seconds *)
Definition now_secs : Cli N :=
  fun l => (Ok (Z.to_N (system_time (l_clock l)).1),
            mkLocal (l_store l) (l_uuids l) (1 + l_clock l) (l_rng l)).

(** [std::fs::read(path)], the bytes *)
Definition bytes_of (c : content DB) : string :=
  match c with Bytes b => b | Database d => db_image d end.
Definition read_bytes (text : IoError -> CliError) (p : path) : Cli string :=
  c ← io_as text (fs_read p); mret (bytes_of c).

Definition session_text (what : string) (session_path : path) (e : IoError) : CliError :=
  Io ("failed to " +:+ what +:+ " session file " +:+ path_display session_path +:+ ": "
      +:+ IoError_display e).

(** [file.flush()] of a [File] has nothing to do. *)
Definition write_session_bytes (session_path : path) (bytes : string) : Cli unit :=
  _ ← io_as (session_text "create" session_path) (fs_create session_path);
  io_as (session_text "write" session_path) (fs_write_all session_path (Bytes bytes)).

Definition positive (timeout_secs : option N) : option N :=
  match timeout_secs with
  | Some s => if (0 <? s)%N then Some s else None
  | None => None
  end.

Definition save_session_key_with_timeout (session_path : path) (key : string)
    (timeout_secs : option N) : Cli unit :=
  now ← now_secs;
  let envelope := mkSessionEnvelope key now now (positive timeout_secs) in
  write_session_bytes session_path (session_to_string envelope).

Definition save_session_key (session_path : path) (key : string) : Cli unit :=
  save_session_key_with_timeout session_path key resolve_default_timeout.

(** Overwrites the file with zeroes as far as that works, then unlinks it. *)
Definition fs_len (p : path) : M (World DB) IoError nat :=
  plain (fun d => (match files d !! p with
                   | Some c => Ok (String.length (bytes_of c))
                   | None => Err IoNotFound
                   end, d)).
Definition fs_open_write (p : path) : M (World DB) IoError unit :=
  plain (fun d => (if bool_decide (is_Some (files d !! p)) then Ok tt else Err IoNotFound, d)).
Fixpoint zeroes (n : nat) : string :=
  match n with O => "" | S n => String "000" (zeroes n) end.

Definition wipe (p : path) : Cli unit :=
  len ← attempt (io (fs_len p));
  match len with
  | Ok len =>
      if (0 <? len)%nat then
        opened ← attempt (io (fs_open_write p));
        match opened with
        | Ok _ => ignore (io (fs_write_all p (Bytes (zeroes len))))
        | Err _ => mret tt
        end
      else mret tt
  | Err _ => mret tt
  end.

Definition clear_session (session_path : path) : Cli unit :=
  present ← exists_path session_path;
  if (present : bool) then
    _ ← wipe session_path;
    io_as (session_text "remove" session_path) (fs_remove_file session_path)
  else mret tt.

Definition corrupted (e : CryptoError) : CliError := CorruptedSession (CryptoError_display e).
Definition vault_key_from_slice (bytes : string) : Result string CliError :=
  result_map_err corrupted (key_from_bytes bytes).
Definition parse_envelope (bytes : string) : Result SessionEnvelope CliError :=
  result_map_err (fun e => CorruptedSession ("invalid session envelope: " +:+ e))
    (session_from_slice bytes).

(** Whether the session has been idle for its timeout. *)
Definition idle_expired (e : SessionEnvelope) (now : N) : bool :=
  match se_idle_timeout_secs e with
  | Some timeout => (0 <? timeout)%N && (timeout <=? u64_saturating_sub now (se_last_active_at e))%N
  | None => false
  end.

Definition touched (e : SessionEnvelope) (now : N) : SessionEnvelope :=
  mkSessionEnvelope (se_key e) (se_created_at e) now (se_idle_timeout_secs e).

Definition load_session_key_and_touch (session_path : path) (touch : bool) : Cli string :=
  present ← exists_path session_path;
  if negb present then throw VaultLocked
  else
    bytes ← read_bytes (session_text "read" session_path) session_path;
    if (String.length bytes =? KEY_LEN)%nat then lift_result (vault_key_from_slice bytes)
    else
      envelope ← lift_result (parse_envelope bytes);
      now ← now_secs;
      if idle_expired envelope now then
        _ ← ignore (clear_session session_path);
        throw VaultLocked
      else
        let envelope := if touch then touched envelope now else envelope in
        _ ← (if touch
             then ignore (write_session_bytes session_path (session_to_string envelope))
             else mret tt);
        lift_result (vault_key_from_slice (se_key envelope)).

Definition load_session_key (session_path : path) : Cli string :=
  load_session_key_and_touch session_path true.

Definition touch_session (session_path : path) : Cli unit :=
  _ ← load_session_key_and_touch session_path true; mret tt.

Definition has_active_session (session_path : path) : Cli bool := exists_path session_path.

Definition read_text (e : IoError) : CliError :=
  Io ("failed to read session file: " +:+ IoError_display e).

Definition info_of (envelope : SessionEnvelope) (now : N) : SessionInfo :=
  let idle := u64_saturating_sub now (se_last_active_at envelope) in
  let '(expired, remaining) :=
    match se_idle_timeout_secs envelope with
    | Some timeout =>
        if (0 <? timeout)%N
        then ((timeout <=? idle)%N, Some (u64_saturating_sub timeout idle))
        else (false, None)
    | None => (false, None)
    end in
  mkSessionInfo (negb expired) expired (se_idle_timeout_secs envelope) idle remaining
    (se_created_at envelope) (se_last_active_at envelope).

Definition get_session_info (session_path : path) : Cli (option SessionInfo) :=
  present ← exists_path session_path;
  if negb present then mret None
  else
    bytes ← read_bytes read_text session_path;
    if (String.length bytes =? KEY_LEN)%nat
    then mret (Some (mkSessionInfo true false None 0 None 0 0))
    else
      envelope ← lift_result (parse_envelope bytes);
      now ← now_secs;
      mret (Some (info_of envelope now)).

Definition update_session_timeout (session_path : path) (timeout_secs : option N)
    : Cli SessionInfo :=
  present ← exists_path session_path;
  if negb present then throw VaultLocked
  else
    bytes ← read_bytes read_text session_path;
    envelope ← (if (String.length bytes =? KEY_LEN)%nat
                then now ← now_secs; mret (mkSessionEnvelope bytes now now None)
                else lift_result (parse_envelope bytes));
    now ← now_secs;
    let envelope := mkSessionEnvelope (se_key envelope) (se_created_at envelope) now
                      (positive timeout_secs) in
    _ ← write_session_bytes session_path (session_to_string envelope);
    info ← get_session_info session_path;
    ok_or (Io "failed to read updated session info") info.
End session.

(** ** Auto-lock *)

Section facts.
Context {DB : Type} `{!Env} `{CliLaws DB}.
Implicit Types (p : path) (l : Local (World DB)) (e : SessionEnvelope).

(** The second the next reading of the clock returns. *)
Definition clock_secs l : N := Z.to_N (system_time (l_clock l)).1.

Lemma wp_now_secs (Q : result CliError N -> Local (World DB) -> Prop) l :
  (forall l', l_store l' = l_store l -> l_uuids l' = l_uuids l -> l_clock l' = S (l_clock l) ->
     l_rng l' = l_rng l -> Q (Ok (clock_secs l)) l') ->
  wp now_secs Q l.
Proof. intros HQ. by apply HQ. Qed.

(** The session file holds [e]. *)
Definition Holds_session p e l : Prop :=
  files (l_disk l) !! p = Some (Bytes (session_to_string e)) /\ String.length (se_key e) = KEY_LEN.

Lemma session_not_bare e : (String.length (session_to_string e) =? KEY_LEN)%nat = false.
Proof using Type*. apply Nat.eqb_neq. pose proof (session_json_long (DB := DB) e). lia. Qed.

Lemma parse_session e :
  String.length (se_key e) = KEY_LEN -> parse_envelope (DB := DB) (session_to_string e) = Ok e.
Proof using Type*. intros Hk. unfold parse_envelope. by rewrite session_json_roundtrip. Qed.

Lemma key_ok k : String.length k = KEY_LEN -> vault_key_from_slice k = Ok k.
Proof using Type*. intros Hk. unfold vault_key_from_slice, key_from_bytes. by rewrite Hk. Qed.

(** Whatever fails, the key comes out only of a session that is not idle. *)
Lemma load_session_sound p touch e l k l' :
  Holds_session p e l ->
  load_session_key_and_touch p touch l = (Ok k, l') ->
  k = se_key e /\ idle_expired e (clock_secs l) = false.
Proof using Type*.
  intros [Hf Hk] Hrun.
  cut (wp (load_session_key_and_touch p touch) (fun r _ => match r with
    | Ok k => k = se_key e /\ idle_expired e (clock_secs l) = false | Err _ => True end) l);
    [intros Hwp; exact (wp_run _ _ _ _ _ Hwp Hrun)|].
  clear Hrun. unfold load_session_key_and_touch.
  apply wp_bind, wp_exists. cbn. rewrite (exists_on_file _ _ _ Hf). cbn [negb].
  apply wp_bind. unfold read_bytes. apply wp_bind.
  apply (wp_io_plain _ _ (fun _ => True)); [by apply Forall_true|done|done|].
  intros l1 _ _ (_ & Hc & _ & _). rewrite Hf. cbn [fst result_map_err]. apply wp_ret. cbn [bytes_of].
  rewrite session_not_bare, parse_session by done. apply wp_bind, wp_lift. cbn.
  apply wp_bind, wp_now_secs. intros l2 _ _ _ _. cbn.
  replace (clock_secs l1) with (clock_secs l) by (unfold clock_secs; by rewrite Hc).
  destruct (idle_expired _ _) eqn:Hidle.
  - apply wp_bind, wp_ignore, wp_intro. by intros [|].
  - assert (se_key (if touch then touched e (clock_secs l) else e) = se_key e)
      as -> by (by destruct touch). rewrite key_ok by done.
    apply wp_bind, wp_intro. by intros [|].
Qed.

(** A session nothing interferes with locks exactly when it has been idle for its
    timeout, and is renewed exactly by a use that asks for it. *)
Definition session_after (touch : bool) e (now : N) : option (content DB) :=
  if idle_expired e now then None
  else Some (Bytes (session_to_string (if touch then touched e now else e))).

Lemma wp_clear_session p c l Q :
  calm l -> files (l_disk l) !! p = Some c ->
  (forall l', files (l_disk l') !! p = None -> Q (Ok tt) l') ->
  wp (clear_session p) Q l.
Proof using Type*.
  intros Hc Hf HQ. unfold clear_session. apply wp_bind, wp_exists. cbn.
  rewrite (exists_on_file _ _ _ Hf). apply wp_bind.
  assert (forall l1, calm l1 -> is_Some (files (l_disk l1) !! p) ->
    wp (io_as (session_text "remove" p) (fs_remove_file p)) Q l1) as Hrm.
  { intros l1 Hc1 [c1 Hf1]. unfold fs_remove_file, plain. apply wp_io_calm; [done|].
    intros l2 Hd _ _. rewrite Hf1 in Hd |- *. apply HQ. rewrite Hd. apply lookup_delete_eq. }
  unfold wipe. apply wp_bind, wp_attempt. unfold fs_len, plain, io. apply wp_io_calm; [done|].
  intros l1 Hd Hc1 _. rewrite Hf in Hd |- *. cbn [result_map_err fst snd] in *. destruct (0 <? _)%nat.
  2: { apply wp_ret. apply Hrm; [done|]. rewrite Hd; eauto. }
  apply wp_bind, wp_attempt. unfold fs_open_write, plain, io. apply wp_io_calm; [done|].
  rewrite Hd, bool_decide_eq_true_2 by (rewrite Hf; eauto). intros l2 Hd2 Hc2 _. cbn [result_map_err fst snd] in *.
  apply wp_ignore. unfold fs_write_all, io. apply wp_io_calm; [done|]. intros l3 Hd3 Hc3 _.
  apply Hrm; [done|]. rewrite Hd3. cbn. rewrite lookup_insert_eq; eauto.
Qed.

Lemma wp_write_session p b l (Q : result CliError unit -> Local (World DB) -> Prop) c :
  calm l -> files (l_disk l) !! p = Some c -> p ∉ dirs (l_disk l) -> parent_of p ∈ dirs (l_disk l) ->
  (forall l', files (l_disk l') !! p = Some (Bytes b) -> Q (Ok tt) l') ->
  wp (write_session_bytes p b) Q l.
Proof using Type*.
  intros Hc Hf Hd Hp HQ. unfold write_session_bytes. apply wp_bind. unfold fs_create, plain.
  apply wp_io_calm; [done|]. rewrite bool_decide_eq_false_2, bool_decide_eq_true_2 by done.
  intros l1 Hd1 Hc1 _. cbn in Hd1 |- *. unfold fs_write_all. apply wp_io_calm; [done|].
  intros l2 Hd2 _ _. cbn in *. apply HQ. rewrite Hd2. apply lookup_insert_eq.
Qed.

Lemma load_session_calm p touch e l r l' :
  Holds_session p e l -> calm l -> p ∉ dirs (l_disk l) -> parent_of p ∈ dirs (l_disk l) ->
  load_session_key_and_touch p touch l = (r, l') ->
  r = (if idle_expired e (clock_secs l) then Err VaultLocked else Ok (se_key e))
  /\ files (l_disk l') !! p = session_after touch e (clock_secs l).
Proof using Type*.
  intros [Hf Hk] Hcalm Hnd Hpar. as_wp. unfold load_session_key_and_touch.
  apply wp_bind, wp_exists. cbn. rewrite (exists_on_file _ _ _ Hf). cbn [negb].
  apply wp_bind. unfold read_bytes. apply wp_bind. apply wp_io_calm; [done|].
  intros l1 Hd1 Hc1 (_ & Hc & _ & _). cbn in Hd1. rewrite Hf. cbn [fst result_map_err].
  apply wp_ret. cbn [bytes_of].
  rewrite session_not_bare, parse_session by done. apply wp_bind, wp_lift. cbn.
  apply wp_bind, wp_now_secs. intros l2 Hst _ _ _. cbn.
  replace (clock_secs l1) with (clock_secs l) by (unfold clock_secs; by rewrite Hc).
  assert (calm l2 /\ l_disk l2 = l_disk l) as [Hc2 Hd2].
  { unfold calm, l_disk. by rewrite Hst. }
  unfold session_after. destruct (idle_expired _ _) eqn:Hidle.
  - apply wp_bind, wp_ignore. eapply wp_clear_session; [done|by rewrite Hd2|].
    intros l3 Hgone. by apply wp_throw.
  - apply wp_bind. destruct touch.
    + apply wp_ignore. eapply wp_write_session; rewrite ?Hd2; [done..|].
      intros l3 Hw. apply wp_lift. split; [by apply key_ok|done].
    + apply wp_ret, wp_lift. split; [by apply key_ok|]. by rewrite Hd2.
Qed.
End facts.
