(* ===== verification/VaultFiles.v ===== *)
(** * Crash-safe replacement of the vault ([apps/cli/src/client/vault_files.rs])

    A staged generation of the vault (bootstrap, database, link) replaces the
    active one file by file under a journal; [recover] rolls an unfinished
    replacement back, or finishes a committed one.  The facts are in
    [VaultFilesFacts]: wherever the process dies, and however often recovery is
    itself interrupted, the next complete recovery leaves one generation whole. *)

From stdpp Require Import options.
From stdpp Require Import gmap.
From S2P Require Import Prelude Text StorageModels Storage CoreErrors Time Env Crypto Queue Files CliSession.

Definition FILES : list string :=
  ["vault.json"; "notes.db"; "notes.db-wal"; "notes.db-shm"; "vault-link.json"].
Definition JOURNAL : string := ".replace-transaction.json".
Definition INSTALLED : list string := ["vault.json"; "notes.db"; "vault-link.json"].

Inductive Phase : Type := Prepared | OldMoved | NewInstalled | Committed.
#[export] Instance Phase_eq_dec : EqDecision Phase.
Proof. solve_decision. Defined.

(** [old_present] is an array of one entry per name in [FILES]. *)
Record Journal : Type := mkJournal {
  format_version : N;
  transaction_id : string;
  target_fingerprint : string;
  old_present : list bool;
  phase : Phase
}.

Record StagedVault : Type := mkStagedVault {
  sv_dir : path;
  sv_id : string;
  sv_fingerprint : string
}.

(** serde_json on [Journal], and [Uuid::parse_str] as a test. *)
Class JournalLib : Type := {
  journal_to_vec : Journal -> Result string string;
  journal_from_slice : string -> Result Journal string;
  is_uuid : string -> bool
}.

(** A journal comes back as it was written; the name of the journal is not that of
    a staged generation. *)
Class JournalLaws `{JournalLib} : Prop := {
  journal_total j : exists b, journal_to_vec j = Ok b;
  journal_roundtrip j b : journal_to_vec j = Ok b -> journal_from_slice b = Ok j;
  journal_name_no_uuid : is_uuid "transaction.json" = false
}.

Definition paths (dir : path) (id : string) : path * path :=
  (dir ++ [".replace-" +:+ id], dir ++ [".backup-" +:+ id]).

Section vault_files.
Context {DB : Type} `{!Env} `{CliLib DB} `{JournalLib}.
Abbreviation Cli A := (M (Local (World DB)) CliError A).

Definition sync_dir (dir : path) : Cli unit := io (fs_sync dir).

Definition write_tmp_name (id : string) : string := ".write-" +:+ id +:+ ".tmp".

Definition atomic_write (p : path) (c : content DB) : Cli unit :=
  match p with
  | [] => throw (Io "missing parent directory")
  | _ =>
      let parent := parent_of p in
      id ← new_uuid;
      let tmp := parent ++ [write_tmp_name id] in
      result ← attempt
        (_ ← io (fs_create_new tmp);
         _ ← io (fs_write_all tmp c);
         _ ← io (fs_sync tmp);
         _ ← io (fs_rename tmp p);
         sync_dir parent);
      _ ← (if is_ok result then mret tt else ignore (io (fs_remove_file tmp)));
      lift_result result
  end.

Definition write_journal (dir : path) (j : Journal) : Cli unit :=
  bytes ← lift_result (result_map_err (fun _ => Io "cannot encode replacement journal")
                         (journal_to_vec j));
  atomic_write (dir ++ [JOURNAL]) (Bytes bytes).

(** The rollback of one file. *)
Definition restore_file (dir backup : path) (j : Journal) (entry : string * bool) : Cli unit :=
  let '(name, old_present) := entry in
  let old := backup ++ [name] in
  let active := dir ++ [name] in
  has_old ← exists_path old;
  if (has_old : bool) then
    c ← io (fs_read old);
    atomic_write active c
  else if negb old_present then
    has_active ← exists_path active;
    if (has_active : bool) then io (fs_remove_file active) else mret tt
  else if negb (bool_decide (phase j = Prepared)) then
    throw (Io "replacement backup missing; vault access refused")
  else mret tt.

Definition remove_if_present (p : path) : Cli unit :=
  present ← exists_path p;
  if (present : bool) then remove_dir_all p else mret tt.

Definition recover (dir : path) : Cli unit :=
  read ← io_result (fs_read (dir ++ [JOURNAL]));
  match read with
  | Err IoNotFound => mret tt
  | Err e => throw (cli_of_io e)
  | Ok c =>
      j ← lift_result (result_map_err
            (fun _ => Io "corrupt replacement journal; vault access refused")
            (journal_from_slice (bytes_of c)));
      if negb (format_version j =? 1)%N then throw (Io "unsupported replacement journal")
      else
        let '(stage, backup) := paths dir (transaction_id j) in
        _ ← (if bool_decide (phase j = Committed) then mret tt
             else
               _ ← for_each (restore_file dir backup j) (zip FILES (old_present j));
               sync_dir dir);
        _ ← io (fs_remove_file (dir ++ [JOURNAL]));
        _ ← sync_dir dir;
        _ ← remove_if_present stage;
        _ ← remove_if_present backup;
        sync_dir dir
  end.

(** [impl Drop for StagedVault] *)
Definition drop_staged (staged : StagedVault) : Cli unit :=
  ignore (remove_dir_all (sv_dir staged)).

Definition StagedVault_create (dir : path) (fingerprint : string) : Cli StagedVault :=
  id ← new_uuid;
  let staged := (paths dir id).1 in
  _ ← io (fs_create_dir staged);
  _ ← sync_dir dir;
  mret (mkStagedVault staged id fingerprint).

(** Moving one active file to the backup, and one staged file in its place. *)
Definition move_old (dir backup : path) (hook : nat -> Result unit CliError)
    (entry : nat * (string * bool)) : Cli unit :=
  let '(i, (name, old_present)) := entry in
  _ ← (if (old_present : bool) then io (fs_rename (dir ++ [name]) (backup ++ [name])) else mret tt);
  _ ← sync_dir backup;
  _ ← sync_dir dir;
  lift_result (hook (i + 1)).

Definition move_new (dir : path) (staged : StagedVault) (hook : nat -> Result unit CliError)
    (entry : nat * string) : Cli unit :=
  let '(i, name) := entry in
  _ ← io (fs_rename (sv_dir staged ++ [name]) (dir ++ [name]));
  _ ← sync_dir (sv_dir staged);
  _ ← sync_dir dir;
  lift_result (hook (i + 7)).

Definition sync_if_present (p : path) : Cli unit :=
  present ← exists_path p;
  if (present : bool) then io (fs_sync p) else mret tt.

Definition presence (dir : path) : Cli (list bool) :=
  fun l => (Ok ((fun name => exists_on (l_disk l) (dir ++ [name])) <$> FILES), l).

Definition with_phase (ph : Phase) (j : Journal) : Journal :=
  mkJournal (format_version j) (transaction_id j) (target_fingerprint j) (old_present j) ph.

(** [install_with_hook]; [staged] is dropped when it returns. *)
Definition install_body (dir : path) (staged : StagedVault) (hook : nat -> Result unit CliError)
    : Cli unit :=
  _ ← recover dir;
  _ ← clear_session (dir ++ [".session"]);
  let backup := (paths dir (sv_id staged)).2 in
  _ ← io (fs_create_dir backup);
  _ ← sync_dir dir;
  _ ← for_each (fun name => sync_if_present (dir ++ [name])) FILES;
  old_present ← presence dir;
  let j := mkJournal 1 (sv_id staged) (sv_fingerprint staged) old_present Prepared in
  _ ← write_journal dir j;
  _ ← lift_result (hook 0);
  _ ← for_each (move_old dir backup hook) (imap pair (zip FILES old_present));
  _ ← write_journal dir (with_phase OldMoved j);
  _ ← lift_result (hook 6);
  _ ← for_each (move_new dir staged hook) (imap pair INSTALLED);
  _ ← write_journal dir (with_phase NewInstalled j);
  _ ← lift_result (hook 10);
  _ ← write_journal dir (with_phase Committed j);
  _ ← lift_result (hook 11);
  recover dir.

Definition install_with_hook (dir : path) (staged : StagedVault)
    (hook : nat -> Result unit CliError) : Cli unit :=
  result ← attempt (install_body dir staged hook);
  _ ← drop_staged staged;
  lift_result result.

(** The end of [install]: a failed replacement is recovered from at once. *)
Definition finish_install (dir : path) (staged : StagedVault) : Cli unit :=
  result ← attempt (install_with_hook dir staged (fun _ => Ok tt));
  _ ← (if is_ok result then mret tt else recover dir);
  lift_result result.

(** [install]; [checkpoint] opens the old database, checkpoints and closes it,
    which is SQLite's work on the database's own files. *)
Definition install (checkpoint : path -> Cli unit) (dir : path) (staged : StagedVault) : Cli unit :=
  has_db ← exists_path (dir ++ ["notes.db"]);
  checked ← attempt (if (has_db : bool) then checkpoint (dir ++ ["notes.db"]) else mret tt);
  match checked with
  | Err e => _ ← drop_staged staged; throw e
  | Ok _ => finish_install dir staged
  end.

(** [clean_orphans], at startup under the exclusive lock; [read_dir] lists the
    files and the directories below [dir]. *)
Definition orphan_dir (name : string) : bool :=
  existsb (fun pre => is_some_and is_uuid (strip_prefix pre name)) [".replace-"; ".backup-"].
Definition orphan_file (name : string) : bool :=
  is_some_and is_uuid (strip_prefix ".write-" name ≫= strip_suffix ".tmp").

Definition name_of (p : path) : string := List.last p "".
Definition dirs_in (p : path) (d : Disk DB) : list path :=
  List.filter (fun q => bool_decide (q <> p) && bool_decide (parent_of q = p)) (elements (dirs d)).
Definition fs_entries (dir : path) : M (World DB) IoError (list path) :=
  plain (fun d => (if bool_decide (dir ∈ dirs d)
                   then Ok (dirs_in dir d ++ files_in dir d) else Err IoNotFound, d)).
Definition is_dir (p : path) : Cli bool := fun l => (Ok (bool_decide (p ∈ dirs (l_disk l))), l).

Definition clean_orphan (entry : path) : Cli unit :=
  let name := name_of entry in
  d ← is_dir entry;
  _ ← (if orphan_dir name && d then remove_dir_all entry else mret tt);
  if orphan_file name && negb d then io (fs_remove_file entry) else mret tt.

Definition clean_orphans (dir : path) : Cli unit :=
  entries ← io (fs_entries dir);
  _ ← for_each clean_orphan entries;
  sync_dir dir.
End vault_files.
