(* ===== verification/VaultFilesFacts.v ===== *)
(** * Replacing the vault survives crashes

    Facts about [VaultFiles].  A disk is [Good g] when a complete recovery of it
    ends with the generation [g]: every step of [recover] keeps that, and every
    step of [install] keeps it for the old generation or the new one. *)

From stdpp Require Import options.
From stdpp Require Import gmap.
From S2P Require Import Prelude Text StorageModels Storage CoreErrors Time Env Crypto Queue Files CliSession VaultFiles.

(** ** Names *)

Definition own (n : string) : Prop := n ∈ FILES \/ n = JOURNAL \/ n = ".session".

Lemma own_inv n : own n -> n ∈ FILES ++ [JOURNAL; ".session"].
Proof. unfold own. set_solver. Qed.

Lemma own_not_tmp n id : own n -> n <> write_tmp_name id.
Proof. intros Hn%own_inv. set_unfold in Hn. destruct_or! Hn; by subst. Qed.

Lemma own_no_backup n id : own n -> n <> ".backup-" +:+ id.
Proof. intros Hn%own_inv. set_unfold in Hn. destruct_or! Hn; by subst. Qed.

Lemma file_not_journal n : n ∈ FILES -> n <> JOURNAL.
Proof. intros Hn ->. by vm_compute in Hn; set_unfold in Hn; destruct_or! Hn. Qed.

Lemma elem_zip_l {A B} (x : A) (y : B) l k : (x, y) ∈ zip l k -> x ∈ l.
Proof. revert k. induction l as [|a l IH]; intros [|b k]; cbn; set_solver. Qed.

Lemma zip_files_unique n (b b' : bool) k : (n, b) ∈ zip FILES k -> (n, b') ∈ zip FILES k -> b = b'.
Proof.
  assert (NoDup FILES) as Hnd by (by apply (bool_decide_unpack _)).
  revert Hnd. generalize FILES as l. intros l. revert k.
  induction l as [|a l IH]; intros [|x k]; cbn; [set_solver..|].
  intros [Ha Hnd]%NoDup_cons [Heq|Hin]%elem_of_cons [Heq'|Hin']%elem_of_cons.
  - congruence.
  - injection Heq as -> ->. by destruct Ha; eapply elem_zip_l.
  - injection Heq' as -> ->. by destruct Ha; eapply elem_zip_l.
  - by eapply IH.
Qed.

Lemma installed_files n : n ∈ INSTALLED -> n ∈ FILES.
Proof. unfold INSTALLED, FILES. set_solver. Qed.

Lemma imap_pair_snd {A} (l : list A) : (imap pair l).*2 = l.
Proof. rewrite fmap_imap. apply list_eq. intros i. rewrite list_lookup_imap. by destruct (l !! i). Qed.

Lemma NoDup_FILES : NoDup FILES.
Proof. by apply (bool_decide_unpack _). Qed.

(** Files that have left a place, and files that have arrived at one. *)
Definition upd {B} (n : string) (v : option B) (A : string -> option B) : string -> option B :=
  fun m => if decide (m = n) then v else A m.
Definition moved {B} (names : list string) (A : string -> option B) : string -> option B :=
  fun m => if decide (m ∈ names) then None else A m.
Definition arrived {B} (names : list string) (A : string -> option B) : string -> option B :=
  fun m => if decide (m ∈ names) then A m else None.

Lemma upd_moved {B} (names : list string) n (A : string -> option B) m : upd n None (moved names A) m = moved (names ++ [n]) A m.
Proof.
  unfold upd, moved. case_decide as H1'; [subst; by rewrite decide_True by set_solver|].
  case_decide as H2'; [by rewrite decide_True by set_solver|by rewrite decide_False by set_solver].
Qed.
Lemma upd_arrived {B} (names : list string) n (A : string -> option B) m : upd n (A n) (arrived names A) m = arrived (names ++ [n]) A m.
Proof.
  unfold upd, arrived. case_decide as H1'; [subst; by rewrite decide_True by set_solver|].
  case_decide as H2'; [by rewrite decide_True by set_solver|by rewrite decide_False by set_solver].
Qed.

Section facts.
Context {DB : Type} `{!Env} `{CliLaws DB} `{JournalLaws}.
Variable dir : path.
Implicit Types (d : Disk DB) (l : Local (World DB)) (p q : path) (c : content DB)
  (I : Disk DB -> Prop) (g : string -> option (content DB)).

(** ** Disks up to temporary files *)

Definition tmp_path (id : string) : path := dir ++ [write_tmp_name id].

Definition disk_equiv d d' : Prop :=
  dirs d = dirs d' /\ forall q, (forall id, q <> tmp_path id) -> files d !! q = files d' !! q.
Local Infix "≈" := disk_equiv (at level 70).

#[local] Instance disk_equiv_equivalence : Equivalence disk_equiv.
Proof.
  split.
  - done.
  - intros d d' [Hd Hf]. split; [done|]. intros q Hq. by rewrite Hf.
  - intros d d' d'' [Hd Hf] [Hd' Hf']. split; [congruence|]. intros q Hq. by rewrite Hf, Hf'.
Qed.

(** A property that does not look at temporary files. *)
Abbreviation Stable I := (Proper (disk_equiv ==> iff) I).

Lemma put_tmp d id c : put_file (tmp_path id) c d ≈ d.
Proof. split; [done|]. intros q Hq. cbn. by rewrite lookup_insert_ne. Qed.
Lemma drop_tmp d id : drop_file (tmp_path id) d ≈ d.
Proof. split; [done|]. intros q Hq. cbn. by rewrite lookup_delete_ne. Qed.

#[local] Instance put_file_proper p c : Proper (disk_equiv ==> disk_equiv) (put_file p c).
Proof.
  intros d d' [Hd Hf]. split; [done|]. intros q Hq. cbn.
  destruct (decide (p = q)) as [<-|]; [by rewrite !lookup_insert_eq|].
  by rewrite !lookup_insert_ne, Hf.
Qed.

(** No temporary name that can be drawn is taken. *)
Definition fresh d : Prop := forall k, files d !! tmp_path (uuid_v4 k) = None.
(** Nothing stands in the way of the calls to come. *)
Definition ideal l : Prop := calm l /\ fresh (l_disk l).

Lemma parent_of_name n : parent_of (dir ++ [n]) = dir.
Proof. unfold parent_of. apply removelast_last. Qed.

Lemma parent_of_tmp id : parent_of (tmp_path id) = dir.
Proof. apply parent_of_name. Qed.

Definition not_tmp p : Prop := forall id, p <> tmp_path id.

Lemma fresh_put p c d : not_tmp p -> fresh d -> fresh (put_file p c d).
Proof. intros Hp Hf k. cbn. by rewrite lookup_insert_ne. Qed.
Lemma fresh_drop p d : fresh d -> fresh (drop_file p d).
Proof.
  intros Hf k. cbn. destruct (decide (p = tmp_path (uuid_v4 k))) as [->|];
    [apply lookup_delete_eq|by rewrite lookup_delete_ne].
Qed.
Lemma fresh_drop_put id d d' :
  (forall q, q <> tmp_path id -> files d' !! q = files d !! q) ->
  fresh d -> fresh (drop_file (tmp_path id) d').
Proof.
  intros Hd Hf k. cbn. destruct (decide (tmp_path id = tmp_path (uuid_v4 k))) as [->|];
    [apply lookup_delete_eq|by rewrite lookup_delete_ne, Hd].
Qed.

Lemma ideal_step l l' d :
  same_counters l l' -> l_disk l' = d -> (fresh (l_disk l) -> fresh d) -> ideal l -> ideal l'.
Proof. intros (_ & _ & _ & Hc) <- Hf [? ?]. split; auto. Qed.

(** The temporary file is made, written, synced and renamed. *)
Lemma wp_swap_in I n c id Q l :
  Stable I -> not_tmp (dir ++ [n]) -> dir ++ [n] ∉ dirs (l_disk l) -> dir ∈ dirs (l_disk l) ->
  (tmp_path id) ∉ dirs (l_disk l) -> (ideal l -> files (l_disk l) !! (tmp_path id) = None) ->
  Kept I (l_store l) -> I (put_file (dir ++ [n]) c (l_disk l)) ->
  (forall l', l_disk l' ≈ put_file (dir ++ [n]) c (l_disk l) -> Kept I (l_store l') ->
     (ideal l -> ideal l') -> Q (Ok tt) l') ->
  (forall e l', l_disk l' ≈ l_disk l \/ l_disk l' ≈ put_file (dir ++ [n]) c (l_disk l) ->
     Kept I (l_store l') -> ~ ideal l -> Q (Err e) l') ->
  wp (_ ← io (fs_create_new (tmp_path id)); _ ← io (fs_write_all (tmp_path id) c); _ ← io (fs_sync (tmp_path id));
      _ ← io (fs_rename (tmp_path id) (dir ++ [n])); sync_dir dir) Q l.
Proof using Type*.
  intros HI Hp Hnd Hdir Htmpd Htmp Hk Hput Q1 Q2.
  assert (I (l_disk l)) as HId by (by inversion Hk).
  assert (forall c', I (put_file (tmp_path id) c' (l_disk l))) as HIt by (intros c'; by rewrite put_tmp).
  (* create *)
  apply wp_bind. unfold io, fs_create_new. rewrite parent_of_tmp.
  apply (wp_io_plain _ _ I); [done| | |].
  1: destruct (exists_on _ _); [done|]; case_bool_decide; [apply HIt|done].
  { intros e l' Hd Hk' _ Hc. apply Q2; [by left; rewrite Hd|done|]. by intros [? ?]. }
  rewrite (bool_decide_eq_true_2 (dir ∈ _)) by done.
  intros l1 Hd1 Hk1 Hs1. destruct (exists_on (l_disk l) (tmp_path id)) eqn:Hex.
  { apply Q2; [by left; rewrite Hd1|done|]. intros Hid. revert Hex. unfold exists_on.
    rewrite (bool_decide_eq_false_2 ((tmp_path id) ∈ _)) by done. rewrite bool_decide_eq_false_2; [done|].
    rewrite Htmp by done. by intros [? ?]. }
  cbn [fst snd result_map_err] in *.
  (* write *)
  apply wp_bind. unfold fs_write_all. apply (wp_io_call _ _ _ I); [done|..].
  1,2: rewrite ?Hd1; intros; cbn; by rewrite !put_tmp.
  { intros e partial l' Hd Hk' _ Hc. apply Q2; [left; by rewrite Hd, Hd1, !put_tmp|done|].
    intros [Hcl _]. by apply Hc, Hs1. }
  intros l2 Hd2 Hk2 Hs2. cbn [fst snd result_map_err] in *.
  (* sync *)
  assert (files (l_disk l2) !! (tmp_path id) = Some c) as Hf2 by (rewrite Hd2; apply lookup_insert_eq).
  assert (l_disk l2 ≈ l_disk l) as He2 by (by rewrite Hd2, Hd1, !put_tmp).
  apply wp_bind. unfold fs_sync. apply (wp_io_plain _ _ I); [done|by inversion Hk2| |].
  { intros e l' Hd Hk' _ Hc. apply Q2; [left; by rewrite Hd|done|].
    intros [Hcl _]. apply Hc, Hs2, Hs1, Hcl. }
  rewrite (exists_on_file _ _ _ Hf2). intros l3 Hd3 Hk3 Hs3. cbn [fst snd result_map_err] in *.
  (* rename *)
  rewrite <- Hd3 in Hf2, He2. destruct (He2) as [Hdirs3 _].
  assert (put_file (dir ++ [n]) c (drop_file (tmp_path id) (l_disk l3)) ≈ put_file (dir ++ [n]) c (l_disk l))
    as Hren by (by rewrite drop_tmp, He2).
  apply wp_bind. unfold fs_rename.
  apply (wp_io_plain _ _ I); [done| | |]; cbn beta; rewrite ?parent_of_name, ?Hf2, ?Hdirs3.
  1: rewrite bool_decide_eq_false_2, bool_decide_eq_true_2 by done; cbn; by rewrite Hren.
  { intros e l' Hd Hk' _ Hc. apply Q2; [left; by rewrite Hd|done|].
    intros [Hcl _]. apply Hc, Hs3, Hs2, Hs1, Hcl. }
  rewrite bool_decide_eq_false_2, bool_decide_eq_true_2 by done.
  intros l4 Hd4 Hk4 Hs4. cbn [fst snd result_map_err] in *.
  (* sync the directory *)
  assert (dir ∈ dirs (l_disk l4)) as Hdir4 by (rewrite Hd4; cbn; by rewrite Hdirs3).
  unfold sync_dir, io, fs_sync. apply (wp_io_plain _ _ I); [done|by inversion Hk4| |].
  { intros e l' Hd Hk' _ Hc. apply Q2; [right; by rewrite Hd, Hd4|done|].
    intros [Hcl _]. apply Hc, Hs4, Hs3, Hs2, Hs1, Hcl. }
  intros l5 Hd5 Hk5 Hs5. cbn [fst snd] in *. unfold exists_on.
  rewrite (bool_decide_eq_true_2 (dir ∈ _)), orb_true_r by done. cbn.
  apply Q1; [by rewrite Hd5, Hd4|done|]. intros [Hcl Hfr]. split; [apply Hs5, Hs4, Hs3, Hs2, Hs1, Hcl|].
  rewrite Hd5, Hd4, Hd3, Hd2, Hd1. apply fresh_put; [done|].
  apply (fresh_drop_put _ (l_disk l)); [|done]. intros q Hq. cbn. by rewrite !lookup_insert_ne.
Qed.

(** What [atomic_write] does to a file of the data directory: it fails before or
    after replacing it, or replaces it; at no point is it anything else. *)
Lemma wp_atomic_write I n c Q l :
  Stable I -> not_tmp (dir ++ [n]) -> dir ++ [n] ∉ dirs (l_disk l) -> dir ∈ dirs (l_disk l) ->
  (forall id, tmp_path id ∉ dirs (l_disk l)) ->
  Kept I (l_store l) -> I (put_file (dir ++ [n]) c (l_disk l)) ->
  (forall l', l_disk l' ≈ put_file (dir ++ [n]) c (l_disk l) -> Kept I (l_store l') ->
     (ideal l -> ideal l') -> Q (Ok tt) l') ->
  (forall e l', l_disk l' ≈ l_disk l \/ l_disk l' ≈ put_file (dir ++ [n]) c (l_disk l) ->
     Kept I (l_store l') -> ~ ideal l -> Q (Err e) l') ->
  wp (atomic_write (dir ++ [n]) c) Q l.
Proof using Type*.
  intros HI Hp Hnd Hdir Htd Hk Hput Q1 Q2. unfold atomic_write. rewrite parent_of_name.
  assert (dir ++ [n] <> []) as Hne by (by destruct dir).
  destruct (dir ++ [n]) as [|x xs] eqn:Hpn; [done|]. rewrite <- Hpn in *. clear x xs Hpn Hne.
  apply wp_bind. eapply wp_intro. unfold new_uuid. intros r l0 [= <- <-].
  set (id := uuid_v4 (l_uuids l)). set (l0 := mkLocal _ _ _ _).
  change (dir ++ [write_tmp_name id]) with (tmp_path id).
  assert (Kept I (l_store l0)) as Hk0 by done.
  apply wp_bind, wp_attempt. eapply wp_swap_in; [done..|apply Htd| |done|done| |].
  - intros [_ Hf]. apply Hf.
  - intros l' Hd' Hk' Hid. apply wp_bind. cbn [is_ok]. apply wp_ret, wp_lift. by apply Q1.
  - intros e l' Hd' Hk' Hid. apply wp_bind. cbn [is_ok]. apply wp_ignore.
    assert (I (l_disk l')) as HId by (by inversion Hk').
    unfold io, fs_remove_file. apply (wp_io_plain _ _ I); [done|..].
    + case_match; cbn; [by rewrite drop_tmp|done].
    + intros e' l'' Hd'' Hk'' _ _. cbn. apply wp_lift. apply Q2; [by rewrite Hd''|done..].
    + intros l'' Hd'' Hk'' _. assert (l_disk l'' ≈ l_disk l') as He.
      { rewrite Hd''. case_match; cbn; [apply drop_tmp|done]. }
      destruct (files (l_disk l') !! _); cbn; apply wp_lift; (apply Q2; [by rewrite He|done..]).
Qed.

Lemma own_no_stage n id : own n -> is_uuid id = true -> n <> ".replace-" +:+ id.
Proof using Type*.
  intros Hn%own_inv. set_unfold in Hn. destruct_or! Hn; subst; try done.
  intros Hid Heq. unfold JOURNAL in Heq. rewrite !str_app_cons, str_app_nil_l in Heq.
  injection Heq as <-.
  pose proof journal_name_no_uuid. congruence.
Qed.

Lemma dir_inj (x y : path) : dir ++ x = dir ++ y -> x = y.
Proof. apply app_inv_head. Qed.

Lemma own_not_tmp_path n : own n -> not_tmp (dir ++ [n]).
Proof. intros Hn id Heq%dir_inj. injection Heq as ->. by eapply own_not_tmp. Qed.

(** ** What every disk of a replacement looks like *)

Record Shape d : Prop := {
  sh_dir : dir ∈ dirs d;
  sh_sub n : dir ++ [n] ∈ dirs d -> ~ own n /\ forall id, n <> write_tmp_name id;
  sh_deep n m : dir ++ [n; m] ∉ dirs d;
  sh_parent p c : not_tmp p -> files d !! p = Some c -> parent_of p ∈ dirs d;
  sh_ids id : is_uuid id = true ->
    files d !! (paths dir id).1 = None /\ files d !! (paths dir id).2 = None
}.

(** The files a replacement has no business with. *)
Definition other (n : string) : Prop := ~ own n /\ forall id, n <> write_tmp_name id.
Definition Frame (f : string -> option (content DB)) d : Prop :=
  forall n, other n -> files d !! (dir ++ [n]) = f n.

Definition active d (n : string) : option (content DB) := files d !! (dir ++ [n]).
Definition saved j d (n : string) : option (content DB) :=
  files d !! ((paths dir (transaction_id j)).2 ++ [n]).
Definition generation g d : Prop := forall n, n ∈ FILES -> active d n = g n.

Definition journal_at d j : Prop :=
  exists b, active d JOURNAL = Some (Bytes b) /\ journal_from_slice b = Ok j
    /\ format_version j = 1%N /\ is_uuid (transaction_id j) = true.

(** What rolling back gives for a file, and that the backup is there when the
    journal says it must be. *)
Definition rolled j d (n : string) (present : bool) : option (content DB) :=
  match saved j d n with
  | Some c => Some c
  | None => if present then active d n else None
  end.
Definition Undo g j d : Prop :=
  length (old_present j) = length FILES
  /\ forall n present, (n, present) ∈ zip FILES (old_present j) ->
       rolled j d n present = g n
       /\ (present = true -> phase j <> Prepared -> is_Some (saved j d n)).

(** A complete recovery of the disk leaves the generation [g]. *)
Definition Good g d : Prop :=
  (active d JOURNAL = None /\ generation g d)
  \/ exists j, journal_at d j
       /\ (if decide (phase j = Committed) then generation g d else Undo g j d).

Definition settled g d : Prop := active d JOURNAL = None /\ generation g d.

(** Disks that agree on the names in use. *)
Definition same_names d d' : Prop :=
  (forall n, n ∈ FILES \/ n = JOURNAL -> active d' n = active d n)
  /\ forall id n, n ∈ FILES -> files d' !! ((paths dir id).2 ++ [n]) = files d !! ((paths dir id).2 ++ [n]).

Lemma generation_same g d d' : same_names d d' -> generation g d -> generation g d'.
Proof. intros [Hn _] Hg n Hin. rewrite Hn by auto. by apply Hg. Qed.

Lemma journal_same j d d' : same_names d d' -> journal_at d j -> journal_at d' j.
Proof. intros [Hn _] (b & Hb & ?). exists b. by rewrite Hn by auto. Qed.

Lemma Undo_same g j d d' : same_names d d' -> Undo g j d -> Undo g j d'.
Proof.
  intros [Hn Hs] [Hlen Hu]. split; [done|]. intros n present Hin.
  assert (n ∈ FILES) as Hf by (by eapply elem_zip_l).
  destruct (Hu n present Hin) as [Hr Hb]. unfold rolled, saved in *. rewrite Hs, Hn by auto. done.
Qed.

Lemma Good_same g d d' : same_names d d' -> Good g d -> Good g d'.
Proof.
  intros Hs [[Hj Hg]|(j & Hj & Hrest)].
  - left. split; [by rewrite (proj1 Hs) by auto|by eapply generation_same].
  - right. exists j. split; [by eapply journal_same|]. destruct (decide _);
      [by eapply generation_same|by eapply Undo_same].
Qed.

Lemma not_tmp_deep n m : not_tmp (dir ++ [n; m]).
Proof. intros id Heq%dir_inj. discriminate. Qed.

Lemma backup_path id n : (paths dir id).2 ++ [n] = dir ++ [".backup-" +:+ id; n].
Proof. cbn. by rewrite <- app_assoc. Qed.

Lemma equiv_same_names d d' : d ≈ d' -> same_names d d'.
Proof.
  intros [_ Hf]. split.
  - intros n Hn. symmetry. apply Hf. apply own_not_tmp_path. unfold own. tauto.
  - intros id n _. rewrite backup_path. symmetry. apply Hf, not_tmp_deep.
Qed.

Lemma Shape_equiv d d' : d ≈ d' -> Shape d -> Shape d'.
Proof using Type*.
  intros [Hd Hf] [S1 S2 S3 S4 S5]. split; rewrite <- ?Hd; [done..| |].
  - intros p c Hp Hc. apply (S4 p c Hp). by rewrite Hf.
  - intros id Hid. destruct (S5 id Hid) as [? ?]. rewrite <- !Hf; [done| |];
      (intros id' Heq%dir_inj; discriminate).
Qed.

(** *** How calls change a disk *)

Lemma name_ne (a b : string) : a <> b -> dir ++ [a] <> dir ++ [b].
Proof. intros Hne Heq%dir_inj. congruence. Qed.
Lemma deep_ne (a b c : string) : dir ++ [a] <> dir ++ [b; c].
Proof. intros Heq%dir_inj. discriminate. Qed.

Lemma Shape_put n c d : own n -> Shape d -> Shape (put_file (dir ++ [n]) c d).
Proof using Type*.
  intros Hn [S1 S2 S3 S4 S5]. split; [done..| |].
  - intros p c' Hp. cbn. destruct (decide (dir ++ [n] = p)) as [<-|].
    + intros _. by rewrite parent_of_name.
    + rewrite lookup_insert_ne by done. by apply S4.
  - intros id Hid. destruct (S5 id Hid) as [? ?]. cbn. rewrite !lookup_insert_ne; [done|..].
    + by apply name_ne, own_no_backup.
    + by apply name_ne, own_no_stage.
Qed.

Lemma Shape_put_deep b n c d : dir ++ [b] ∈ dirs d -> Shape d -> Shape (put_file (dir ++ [b; n]) c d).
Proof using Type*.
  intros Hn [S1 S2 S3 S4 S5]. split; [done..| |].
  - intros p c' Hp. cbn. destruct (decide (dir ++ [b; n] = p)) as [<-|].
    + intros _. replace (dir ++ [b; n]) with ((dir ++ [b]) ++ [n]) by (by rewrite <- app_assoc).
      unfold parent_of. by rewrite removelast_last.
    + rewrite lookup_insert_ne by done. by apply S4.
  - intros id Hid. destruct (S5 id Hid) as [? ?]. cbn.
    rewrite !lookup_insert_ne; [done|..]; apply not_eq_sym, deep_ne.
Qed.

Lemma Shape_drop p d : Shape d -> Shape (drop_file p d).
Proof using Type*.
  intros [S1 S2 S3 S4 S5]. split; [done..| |].
  - intros q c Hq Hc. cbn in Hc. apply lookup_delete_Some in Hc as [_ Hc]. by eapply S4.
  - intros id Hid. destruct (S5 id Hid) as [? ?]. cbn. rewrite !lookup_delete_None. auto.
Qed.

Lemma own_absent_dirs n d : own n -> Shape d -> dir ++ [n] ∉ dirs d.
Proof. intros Hn HS Hin. by destruct (sh_sub _ HS _ Hin). Qed.
Lemma tmp_absent_dirs id d : Shape d -> tmp_path id ∉ dirs d.
Proof. intros HS Hin. destruct (sh_sub _ HS _ Hin) as [_ Hn]. by apply (Hn id). Qed.

Lemma exists_on_own n d : own n -> Shape d -> exists_on d (dir ++ [n]) = bool_decide (is_Some (active d n)).
Proof using Type*.
  intros Hn HS. unfold exists_on, active.
  rewrite (bool_decide_eq_false_2 (_ ∈ _)) by (by apply own_absent_dirs). by rewrite orb_false_r.
Qed.
Lemma exists_on_saved j n d :
  Shape d -> exists_on d ((paths dir (transaction_id j)).2 ++ [n]) = bool_decide (is_Some (saved j d n)).
Proof using Type*.
  intros HS. unfold exists_on, saved. rewrite backup_path.
  rewrite (bool_decide_eq_false_2 (_ ∈ _)) by (apply (sh_deep _ HS)). by rewrite orb_false_r.
Qed.

Lemma Frame_drop f n d : own n -> Frame f d -> Frame f (drop_file (dir ++ [n]) d).
Proof.
  intros Hn Hf m Hm. cbn. rewrite lookup_delete_ne; [by apply Hf|]. apply name_ne.
  intros <-. by destruct Hm.
Qed.
Lemma Frame_put f n c d : own n -> Frame f d -> Frame f (put_file (dir ++ [n]) c d).
Proof.
  intros Hn Hf m Hm. cbn. rewrite lookup_insert_ne; [by apply Hf|]. apply name_ne.
  intros <-. by destruct Hm.
Qed.

Lemma exists_on_dir p d : p ∈ dirs d -> exists_on d p = true.
Proof. intros Hp. unfold exists_on. by rewrite (bool_decide_eq_true_2 (p ∈ _)), orb_true_r. Qed.

Lemma elem_of_files_in p q d : q ∈ files_in p d <-> is_Some (files d !! q) /\ parent_of q = p.
Proof.
  unfold files_in. rewrite list_elem_of_In, filter_In, <- list_elem_of_In, list_elem_of_fmap,
    bool_decide_eq_true. split.
  - intros [([q' c] & -> & Hin%elem_of_map_to_list) ?]. split; [by exists c|done].
  - intros [[c Hc] ?]. split; [|done]. exists (q, c). split; [done|by apply elem_of_map_to_list].
Qed.

Lemma NoDup_files_in p d : NoDup (files_in p d).
Proof.
  unfold files_in. apply NoDup_ListNoDup, List.NoDup_filter, NoDup_ListNoDup, NoDup_fst_map_to_list.
Qed.

Lemma Shape_rmdir id d :
  Shape d -> files_in (dir ++ [id]) d = [] -> Shape (mkDisk (files d) (dirs d ∖ {[dir ++ [id]]})).
Proof using Type*.
  intros [S1 S2 S3 S4 S5] Hempty.
  split; cbn; [|..|done].
  - apply elem_of_difference. split; [done|]. intros Heq%elem_of_singleton.
    assert (length dir = length (dir ++ [id])) as Hl by (by rewrite <- Heq).
    rewrite length_app in Hl. cbn in Hl. lia.
  - intros n [Hn _]%elem_of_difference. by apply S2.
  - intros n m [Hn _]%elem_of_difference. by apply (S3 n m).
  - intros p c Hp Hc. apply elem_of_difference. split; [by eapply S4|].
    intros Heq%elem_of_singleton. assert (p ∈ files_in (dir ++ [id]) d) as Hin.
    { apply elem_of_files_in. split; [by exists c|done]. }
    rewrite Hempty in Hin. by apply elem_of_nil in Hin.
Qed.

(** *** Calls that succeed unless something stands in the way *)

Section steps.
Variable J : Disk DB -> Prop.

Lemma wp_ok_call {A} (ok : Disk DB -> Result A IoError * Disk DB) (a : A) d' Q l :
  ok (l_disk l) = (Ok a, d') -> Kept J (l_store l) -> J d' -> (fresh (l_disk l) -> fresh d') ->
  (forall l', l_disk l' = d' -> Kept J (l_store l') -> (ideal l -> ideal l') -> Q (Ok a) l') ->
  (forall e l', l_disk l' = l_disk l -> Kept J (l_store l') -> ~ ideal l -> Q (Err e) l') ->
  wp (io (plain ok)) Q l.
Proof using Type*.
  intros Hrun Hk HJ Hfr Q1 Q2. unfold io. apply (wp_io_plain _ _ J); [done|by rewrite Hrun|..].
  - intros e l' Hd Hk' _ Hc. apply Q2; [done..|]. by intros [? _].
  - intros l' Hd Hk' Hs. rewrite Hrun in *. cbn. apply Q1; [done..|]. by eapply ideal_step.
Qed.

Lemma wp_sync p Q l :
  exists_on (l_disk l) p = true -> Kept J (l_store l) ->
  (forall l', l_disk l' = l_disk l -> Kept J (l_store l') -> (ideal l -> ideal l') -> Q (Ok tt) l') ->
  (forall e l', l_disk l' = l_disk l -> Kept J (l_store l') -> ~ ideal l -> Q (Err e) l') ->
  wp (io (fs_sync p)) Q l.
Proof using Type*.
  intros Hex Hk Q1 Q2. eapply wp_ok_call; [by rewrite Hex|done|by inversion Hk|done..].
Qed.

(** A property of the current disk that emptying the directory [p] keeps. *)
Record Emptying (P : Disk DB -> Prop) p : Prop := {
  em_J d : P d -> J d;
  em_file d q : P d -> parent_of q = p -> P (drop_file q d);
  em_dir d : P d -> files_in p d = [] -> P (mkDisk (files d) (dirs d ∖ {[p]}))
}.

Lemma wp_remove_dir_all P p Q l :
  Emptying P p -> P (l_disk l) -> p ∈ dirs (l_disk l) -> Kept J (l_store l) ->
  (forall l', P (l_disk l') -> Kept J (l_store l') -> (ideal l -> ideal l') -> Q (Ok tt) l') ->
  (forall e l', P (l_disk l') -> Kept J (l_store l') -> ~ ideal l -> Q (Err e) l') ->
  wp (remove_dir_all p) Q l.
Proof using All.
  intros [HJ Hfile Hdir] HP Hp Hk Q1 Q2. unfold remove_dir_all. apply wp_bind.
  eapply wp_ok_call; [by rewrite bool_decide_eq_true_2|done|by apply HJ|done|..].
  2: { intros e l' Hd Hk' Hid. apply Q2; [by rewrite Hd|done..]. }
  intros l1 Hd1 Hk1 Hid1. rewrite <- Hd1 in *. apply wp_bind.
  eapply (wp_for_each _ (fun donel l2 => P (l_disk l2) /\ Kept J (l_store l2)
    /\ (ideal l -> ideal l2) /\ dirs (l_disk l2) = dirs (l_disk l1)
    /\ forall q, q ∈ files_in p (l_disk l2) <-> q ∈ files_in p (l_disk l1) /\ q ∉ donel)).
  - split_and!; [done..|]. intros q. set_solver.
  - intros donel q rest l2 Hl (HP2 & Hk2 & Hid2 & Hdirs2 & Hin2).
    assert (q ∈ files_in p (l_disk l2)) as [[c Hc] Hq]%elem_of_files_in.
    { apply Hin2. rewrite Hl. split; [set_solver|]. pose proof (NoDup_files_in p (l_disk l1)) as Hnd.
      rewrite Hl in Hnd. apply NoDup_app in Hnd as (_ & Hnd & _). intros Hd. by eapply Hnd; [|left]. }
    eapply wp_ok_call; [by rewrite Hc|done|by apply HJ, Hfile|apply fresh_drop|..].
    + intros l3 Hd3 Hk3 Hid3. split_and!; [rewrite Hd3; by apply Hfile|done|auto|by rewrite Hd3|].
      intros q'. rewrite elem_of_files_in, Hd3. cbn. rewrite lookup_delete_is_Some.
      rewrite elem_of_app, list_elem_of_singleton. specialize (Hin2 q').
      rewrite elem_of_files_in in Hin2. naive_solver.
    + intros e l3 Hd3 Hk3 Hid3. apply Q2; [by rewrite Hd3|done|tauto].
  - intros l2 (HP2 & Hk2 & Hid2 & Hdirs2 & Hin2).
    assert (files_in p (l_disk l2) = []) as Hempty.
    { destruct (files_in p (l_disk l2)) as [|q ?] eqn:Hf; [done|].
      assert (q ∈ files_in p (l_disk l2)) as Hq by (rewrite Hf; left). set_solver. }
    eapply wp_ok_call; [|done|by apply HJ, Hdir|done|..].
    + rewrite bool_decide_eq_true_2 by (by rewrite Hdirs2). cbn. by rewrite bool_decide_eq_true_2.
    + intros l3 Hd3 Hk3 Hid3. apply Q1; [rewrite Hd3; by apply Hdir|done|tauto].
    + intros e l3 Hd3 Hk3 Hid3. apply Q2; [by rewrite Hd3|done|tauto].
Qed.
End steps.

Section inv.
Variable f : string -> option (content DB).

Definition Inv g d : Prop := Shape d /\ Frame f d /\ Good g d.
Definition Undoing g j d : Prop :=
  Shape d /\ Frame f d /\ journal_at d j /\ phase j <> Committed /\ Undo g j d.

Lemma Undoing_Inv g j d : Undoing g j d -> Inv g d.
Proof.
  intros (? & ? & ? & ? & ?). split_and!; [done..|]. right. exists j. split; [done|].
  by rewrite decide_False.
Qed.

Lemma Frame_equiv d d' : d ≈ d' -> Frame f d -> Frame f d'.
Proof using Type*.
  intros [_ Hf] Hfr n Hn. rewrite <- Hf; [by apply Hfr|]. intros id Heq%dir_inj.
  injection Heq as ->. destruct Hn as [_ Hn]. by apply (Hn id).
Qed.

#[local] Instance Inv_stable g : Stable (Inv g).
Proof using Type*.
  assert (forall d d', d ≈ d' -> Inv g d -> Inv g d') as Himp.
  { intros d d' He (? & ? & ?). split_and!.
    - by eapply Shape_equiv.
    - by eapply Frame_equiv.
    - eapply Good_same; [by apply equiv_same_names|done]. }
  intros d d' He. split; apply Himp; [done|by symmetry].
Qed.

Lemma Undoing_equiv g j d d' : d ≈ d' -> Undoing g j d -> Undoing g j d'.
Proof using Type*.
  intros He (? & ? & ? & ? & ?). pose proof (equiv_same_names _ _ He) as Hs. split_and!.
  - by eapply Shape_equiv.
  - by eapply Frame_equiv.
  - by eapply journal_same.
  - done.
  - by eapply Undo_same.
Qed.

(** An active file may change while its backup decides. *)
Lemma Undoing_active g j d n present :
  Undoing g j d -> (n, present) ∈ zip FILES (old_present j) ->
  is_Some (saved j d n) \/ present = false ->
  (forall c, Undoing g j (put_file (dir ++ [n]) c d)) /\ Undoing g j (drop_file (dir ++ [n]) d).
Proof using Type*.
  intros (HS & HF & HJ & Hph & Hlen & Hu) Hin Hb.
  assert (n ∈ FILES) as Hn by (by eapply elem_zip_l). assert (own n) as Ho by (by left).
  assert (forall d', (forall q, q <> dir ++ [n] -> files d' !! q = files d !! q) ->
    Shape d' -> Frame f d' -> Undoing g j d') as Hgen.
  { intros d' Hd' HS' HF'. split_and!; [done..| |done|split; [done|]].
    - destruct HJ as (b & Hb' & Hrest). exists b. unfold active in *. rewrite Hd'; [done|].
      apply name_ne. by apply not_eq_sym, file_not_journal.
    - intros m pm Hm. destruct (Hu m pm Hm) as [Hr Hsv]. unfold rolled, saved, active in *.
      rewrite backup_path in *. rewrite Hd' by (apply not_eq_sym, deep_ne).
      split; [|done]. destruct (decide (m = n)) as [->|Hne].
      + rewrite (zip_files_unique _ _ _ _ Hm Hin) in *. destruct Hb as [[c Hc]| ->].
        * by case_match.
        * by destruct (files d !! _).
      + rewrite Hd'; [done|by apply name_ne]. }
  split; [intros c|]; apply Hgen; auto using Shape_put, Shape_drop, Frame_put, Frame_drop;
    intros q Hq; cbn; by rewrite ?lookup_insert_ne, ?lookup_delete_ne.
Qed.

Section recover.
Variables (g : string -> option (content DB)) (J : Disk DB -> Prop).
Hypothesis (Jstable : Stable J) (HJ : forall d, Inv g d -> J d).

(** Rolling one file back puts its generation in place and disturbs no other. *)
Lemma wp_restore_file j n present Q l :
  Undoing g j (l_disk l) -> Kept J (l_store l) -> (n, present) ∈ zip FILES (old_present j) ->
  (forall l', Undoing g j (l_disk l') -> active (l_disk l') n = g n ->
     (forall m, m ∈ FILES -> m <> n -> active (l_disk l') m = active (l_disk l) m) ->
     Kept J (l_store l') -> (ideal l -> ideal l') -> Q (Ok tt) l') ->
  (forall e l', Undoing g j (l_disk l') -> Kept J (l_store l') -> ~ ideal l -> Q (Err e) l') ->
  wp (restore_file dir (paths dir (transaction_id j)).2 j (n, present)) Q l.
Proof using All.
  intros HU Hk Hin Q1 Q2. pose proof (Undoing_active g j _ n present HU Hin) as Hact.
  assert (n ∈ FILES) as Hn by (by eapply elem_zip_l). assert (own n) as Ho by (by left).
  pose proof HU as (HS & _ & _ & _ & _ & Hu). destruct (Hu n present Hin) as [Hr Hsv]. clear Hu.
  unfold restore_file. apply wp_bind, wp_exists. rewrite exists_on_saved by done.
  case_bool_decide as Hsaved.
  - (* a backup: copy it back *)
    destruct Hact as [Hput _]; [by left|]. destruct Hsaved as [c Hc].
    unfold rolled in Hr. rewrite Hc in Hr. unfold saved in Hc.
    apply wp_bind. eapply (wp_ok_call J); [by rewrite Hc|done|by inversion Hk|done|..].
    2: { intros e l' Hd Hk' Hid. apply Q2; [by rewrite Hd|done..]. }
    intros l1 Hd1 Hk1 Hid1. rewrite <- Hd1 in *.
    apply (wp_atomic_write J); [done|by apply own_not_tmp_path|by apply own_absent_dirs
      |apply HS|by intros; apply tmp_absent_dirs|done|by eapply HJ, Undoing_Inv|..].
    + intros l2 He Hk2 Hid2. symmetry in He.
      assert (forall m, own m -> active (l_disk l2) m = active (put_file (dir ++ [n]) c (l_disk l1)) m) as Ha.
      { intros m Hm. symmetry. apply He. by apply own_not_tmp_path. }
      apply Q1; [by eapply Undoing_equiv|..|done|tauto].
      * rewrite Ha by done. unfold active. cbn. by rewrite lookup_insert_eq.
      * intros m Hm Hne. rewrite Ha by (by left). unfold active. cbn.
        by rewrite lookup_insert_ne by (by apply name_ne, not_eq_sym).
    + intros e l2 He Hk2 Hid2. apply Q2; [|done|tauto].
      destruct He as [He|He]; (eapply Undoing_equiv; [symmetry; exact He|done]).
  - assert (saved j (l_disk l) n = None) as Hnone by (by apply eq_None_not_Some).
    unfold rolled in Hr. rewrite Hnone in Hr. destruct present; cbn [negb].
    + (* not yet moved *)
      case_bool_decide as Hph; cbn [negb].
      * apply wp_ret. by apply Q1.
      * destruct Hsaved. by apply Hsv.
    + (* absent before: remove what came *)
      destruct Hact as [_ Hdrop]; [by right|].
      apply wp_bind, wp_exists. rewrite exists_on_own by done. case_bool_decide as Ha.
      * destruct Ha as [c Hc]. unfold active in Hc.
        eapply (wp_ok_call J); [by rewrite Hc|done|by eapply HJ, Undoing_Inv|apply fresh_drop|..].
        -- intros l1 Hd1 Hk1 Hid1. apply Q1; rewrite ?Hd1; [done|..|done|done].
           ++ unfold active. cbn. by rewrite lookup_delete_eq.
           ++ intros m Hm Hne. unfold active. cbn.
              by rewrite lookup_delete_ne by (by apply name_ne, not_eq_sym).
        -- intros e l1 Hd1 Hk1 Hid1. apply Q2; [by rewrite Hd1|done..].
      * apply wp_ret. apply Q1; [done| |done..]. by apply eq_None_not_Some in Ha as ->.
Qed.

(** The loop of the rollback. *)
Lemma wp_restore_all j Q l :
  Undoing g j (l_disk l) -> Kept J (l_store l) ->
  (forall l', Undoing g j (l_disk l') -> generation g (l_disk l') ->
     Kept J (l_store l') -> (ideal l -> ideal l') -> Q (Ok tt) l') ->
  (forall e l', Undoing g j (l_disk l') -> Kept J (l_store l') -> ~ ideal l -> Q (Err e) l') ->
  wp (for_each (restore_file dir (paths dir (transaction_id j)).2 j) (zip FILES (old_present j))) Q l.
Proof using All.
  intros HU Hk Q1 Q2.
  eapply (wp_for_each _ (fun donel l' => Undoing g j (l_disk l') /\ Kept J (l_store l')
    /\ (ideal l -> ideal l') /\ forall n, n ∈ donel.*1 -> active (l_disk l') n = g n)).
  - split_and!; [done..|]. intros n Hn. by apply elem_of_nil in Hn.
  - intros donel [n present] rest l1 Hl (HU1 & Hk1 & Hid1 & Hact).
    apply wp_restore_file; [done..| | |].
    + rewrite Hl. set_solver.
    + intros l2 HU2 Hn Hoth Hk2 Hid2. split_and!; [done..|auto|]. intros m Hm.
      rewrite fmap_app, elem_of_app in Hm. destruct (decide (m = n)) as [->|Hne]; [done|].
      destruct Hm as [Hm|Hm]; [|cbn in Hm; set_solver].
      rewrite Hoth; [by apply Hact| |done]. apply list_elem_of_fmap in Hm as ([m' b] & -> & Hm).
      eapply elem_zip_l. rewrite Hl. apply elem_of_app. by left.
    + intros e l2 HU2 Hk2 Hid2. apply Q2; [done..|tauto].
  - intros l1 (HU1 & Hk1 & Hid1 & Hact). apply Q1; [done| |done..].
    intros n Hn. apply Hact. destruct HU1 as (_ & _ & _ & _ & Hlen & _).
    rewrite fst_zip; [done|]. lia.
Qed.

(** After the journal is gone only its directories are left to remove. *)
Definition Done d : Prop := Shape d /\ Frame f d /\ settled g d.

Lemma Done_Inv d : Done d -> Inv g d.
Proof. intros (? & ? & ?). split_and!; [done..|]. by left. Qed.

Lemma Done_emptying id : Emptying J Done (dir ++ [id]).
Proof using All.
  split.
  - intros d Hd. by apply HJ, Done_Inv.
  - intros d q (HS & HF & HN & HG) Hq.
    assert (forall n, q <> dir ++ [n]) as Hne.
    { intros n ->. rewrite parent_of_name in Hq. assert (length dir = length (dir ++ [id])) as Hl
        by (by rewrite <- Hq). rewrite length_app in Hl. cbn in Hl. lia. }
    split_and!; [by apply Shape_drop| |split].
    + intros n Hn. cbn. rewrite lookup_delete_ne; [by apply HF|done].
    + unfold active. cbn. by rewrite lookup_delete_ne.
    + intros n Hn. unfold active. cbn. rewrite lookup_delete_ne; [by apply HG|done].
  - intros d (HS & HF & HN) Hempty. split_and!; [by apply Shape_rmdir|done..].
Qed.

Lemma wp_remove_if_present id Q l :
  (exists n, id = ".replace-" +:+ n \/ id = ".backup-" +:+ n) -> files (l_disk l) !! (dir ++ [id]) = None ->
  Done (l_disk l) -> Kept J (l_store l) ->
  (forall l', Done (l_disk l') -> Kept J (l_store l') -> (ideal l -> ideal l') -> Q (Ok tt) l') ->
  (forall e l', Done (l_disk l') -> Kept J (l_store l') -> ~ ideal l -> Q (Err e) l') ->
  wp (remove_if_present (dir ++ [id])) Q l.
Proof using All.
  intros Hid Hf HD Hk Q1 Q2. unfold remove_if_present. apply wp_bind, wp_exists.
  unfold exists_on. rewrite bool_decide_eq_false_2 by (rewrite Hf; by intros [? ?]). cbn [orb].
  case_bool_decide as Hin.
  - eapply wp_remove_dir_all; [apply Done_emptying|done..].
  - apply wp_ret. by apply Q1.
Qed.

Lemma drop_journal d :
  Shape d -> Frame f d -> generation g d -> Done (drop_file (dir ++ [JOURNAL]) d).
Proof using All.
  intros HS HF HG. assert (own JOURNAL) as Ho by (unfold own; tauto).
  split_and!; [by apply Shape_drop|by apply Frame_drop|split].
  - unfold active. cbn. apply lookup_delete_eq.
  - intros n Hn. unfold active. cbn. rewrite lookup_delete_ne; [by apply HG|].
    by apply name_ne, not_eq_sym, file_not_journal.
Qed.

(** The end of a recovery: the journal goes, then its directories. *)
Lemma wp_finish j Q l :
  journal_at (l_disk l) j -> Shape (l_disk l) -> Frame f (l_disk l) -> generation g (l_disk l) ->
  Inv g (l_disk l) -> Kept J (l_store l) ->
  (forall l', Done (l_disk l') -> Kept J (l_store l') -> (ideal l -> ideal l') -> Q (Ok tt) l') ->
  (forall e l', Inv g (l_disk l') -> Kept J (l_store l') -> ~ ideal l -> Q (Err e) l') ->
  wp (_ ← io (fs_remove_file (dir ++ [JOURNAL])); _ ← sync_dir dir;
      _ ← remove_if_present (paths dir (transaction_id j)).1;
      _ ← remove_if_present (paths dir (transaction_id j)).2; sync_dir dir) Q l.
Proof using All.
  intros (b & Hb & _ & _ & Hid) HS HF HG HI Hk Q1 Q2. pose proof (drop_journal _ HS HF HG) as HD.
  assert (forall l', Done (l_disk l') -> files (l_disk l') !! (paths dir (transaction_id j)).1 = None
    /\ files (l_disk l') !! (paths dir (transaction_id j)).2 = None) as Hfree.
  { intros l' (HS' & _). by apply (sh_ids _ HS'). }
  apply wp_bind. eapply (wp_ok_call J); [unfold active in Hb; by rewrite Hb|done|by apply HJ, Done_Inv
    |apply fresh_drop|..].
  2: { intros e l' Hd Hk' Hi. apply Q2; [by rewrite Hd|done..]. }
  intros l1 Hd1 Hk1 Hi1. rewrite <- Hd1 in HD. clear Hd1. apply wp_bind.
  eapply (wp_sync J); [apply exists_on_dir, HD|done|..].
  2: { intros e l' Hd Hk' Hi. apply Q2; [rewrite Hd; by apply Done_Inv|done|tauto]. }
  intros l2 Hd2 Hk2 Hi2. rewrite <- Hd2 in HD. clear Hd2. apply wp_bind.
  eapply wp_remove_if_present; [by eexists; left|by apply Hfree|done|done|..].
  2: { intros e l' HD' Hk' Hi. apply Q2; [by apply Done_Inv|done|tauto]. }
  intros l3 HD3 Hk3 Hi3. apply wp_bind.
  eapply wp_remove_if_present; [by eexists; right|by apply Hfree|done|done|..].
  2: { intros e l' HD' Hk' Hi. apply Q2; [by apply Done_Inv|done|tauto]. }
  intros l4 HD4 Hk4 Hi4. eapply (wp_sync J); [apply exists_on_dir, HD4|done|..].
  - intros l5 Hd5 Hk5 Hi5. apply Q1; [by rewrite Hd5|done|tauto].
  - intros e l5 Hd5 Hk5 Hi5. apply Q2; [rewrite Hd5; by apply Done_Inv|done|tauto].
Qed.

(** Recovery finishes with the generation the disk stands for, unless a call
    fails; then the disk still stands for it. *)
Lemma wp_recover Q l :
  Inv g (l_disk l) -> Kept J (l_store l) ->
  (forall l', Done (l_disk l') -> Kept J (l_store l') -> (ideal l -> ideal l') -> Q (Ok tt) l') ->
  (forall e l', Inv g (l_disk l') -> Kept J (l_store l') -> ~ ideal l -> Q (Err e) l') ->
  wp (recover dir) Q l.
Proof using All.
  intros HI Hk Q1 Q2. unfold recover. apply wp_bind. unfold fs_read.
  apply (wp_io_result _ J); [done|by inversion Hk|..].
  { intros msg l' Hd Hk' _ Hc. apply wp_throw. apply Q2; [by rewrite Hd|done|by intros [? _]]. }
  intros l1 Hd1 Hk1 Hs1. cbn [fst snd] in *.
  assert (ideal l -> ideal l1) as Hid1 by (by eapply ideal_step). rewrite <- Hd1 in HI |- *.
  destruct HI as (HS & HF & [[Hn HG]|(j & Hj & Hrest)]).
  { unfold active in Hn. rewrite Hn. apply wp_ret. by apply Q1. }
  pose proof Hj as (b & Hb & Hparse & Hver & Huuid). unfold active in Hb. rewrite Hb.
  cbn [bytes_of]. rewrite Hparse. apply wp_bind, wp_lift. cbn [result_map_err].
  rewrite Hver. cbn [N.eqb negb Pos.eqb]. destruct (paths dir (transaction_id j)) as [stage backup] eqn:Hpaths.
  assert (stage = (paths dir (transaction_id j)).1) as -> by (by rewrite Hpaths).
  assert (backup = (paths dir (transaction_id j)).2) as -> by (by rewrite Hpaths). clear Hpaths.
  apply wp_bind. destruct (decide (phase j = Committed)) as [Hph|Hph].
  - rewrite bool_decide_eq_true_2 by done. apply wp_ret. eapply wp_finish; [done|done|done|done| |done|..].
    + split_and!; [done..|]. right. exists j. split; [done|]. by rewrite decide_True.
    + intros l2 ? ? ?. apply Q1; tauto.
    + intros e l2 ? ? ?. apply Q2; tauto.
  - rewrite bool_decide_eq_false_2 by done. apply wp_bind.
    assert (Undoing g j (l_disk l1)) as HU by (by split_and!).
    eapply wp_restore_all; [done..| |].
    2: { intros e l2 HU2 Hk2 Hid2. apply Q2; [by eapply Undoing_Inv|done|tauto]. }
    intros l2 HU2 HG2 Hk2 Hid2. pose proof HU2 as (HS2 & HF2 & Hj2 & _).
    eapply (wp_sync J); [apply exists_on_dir, HS2|done|..].
    2: { intros e l3 Hd3 Hk3 Hid3. apply Q2; [rewrite Hd3; by eapply Undoing_Inv|done|tauto]. }
    intros l3 Hd3 Hk3 Hid3. rewrite <- Hd3 in *. eapply wp_finish; [done|done|done|done| |done|..].
    + by eapply Undoing_Inv.
    + intros l4 ? ? ?. apply Q1; tauto.
    + intros e l4 ? ? ?. apply Q2; tauto.
Qed.
End recover.

(** ** Clearing the session file *)

Section session.
Variables (J P : Disk DB -> Prop).
Abbreviation session := (dir ++ [".session"]).
Hypotheses (HPJ : forall d, P d -> J d) (HPput : forall d c, P d -> P (put_file session c d))
  (HPdrop : forall d, P d -> P (drop_file session d)) (HPshape : forall d, P d -> Shape d).

Lemma own_session : own ".session".
Proof. unfold own. tauto. Qed.

Lemma wp_wipe Q l :
  P (l_disk l) -> Kept J (l_store l) -> is_Some (files (l_disk l) !! session) ->
  (forall l', P (l_disk l') -> Kept J (l_store l') -> (ideal l -> ideal l') ->
     is_Some (files (l_disk l') !! session) -> Q (Ok tt) l') ->
  wp (wipe session) Q l.
Proof using All.
  intros HP Hk [c Hc] Q1. unfold wipe. apply wp_bind, wp_attempt.
  eapply (wp_ok_call J); [by rewrite Hc|done|by apply HPJ|done|..].
  2: { intros e l' Hd Hk' Hi. apply wp_ret. apply Q1; rewrite ?Hd; [done..|tauto|by exists c]. }
  intros l1 Hd1 Hk1 Hi1. destruct (0 <? _)%nat.
  2: { apply wp_ret. apply Q1; rewrite ?Hd1; [done..|by exists c]. }
  rewrite <- Hd1 in *. apply wp_bind, wp_attempt.
  eapply (wp_ok_call J); [by rewrite bool_decide_eq_true_2 by (rewrite Hc; eauto)|done|by apply HPJ|done|..].
  2: { intros e l' Hd Hk' Hi. apply wp_ret. apply Q1; rewrite ?Hd; [done..|tauto|by exists c]. }
  intros l2 Hd2 Hk2 Hi2. apply wp_ignore. rewrite <- Hd2 in *. unfold io, fs_write_all.
  apply (wp_io_call _ _ _ J); [done|by intros; apply HPJ, HPput|by apply HPJ, HPput|..].
  - intros e partial l3 Hd3 Hk3 _ Hcalm.
    apply Q1; [rewrite Hd3; by apply HPput|done| |rewrite Hd3; cbn; rewrite lookup_insert_eq; eauto].
    intros Hid. exfalso. apply Hcalm. apply Hi2, Hi1, Hid.
  - intros l3 Hd3 Hk3 Hs3. cbn in Hd3.
    apply Q1; [rewrite Hd3; by apply HPput|done| |rewrite Hd3; cbn; rewrite lookup_insert_eq; eauto].
    intros Hid. eapply ideal_step; [done|done| |by apply Hi2, Hi1].
    apply fresh_put, own_not_tmp_path, own_session.
Qed.

Lemma wp_clear Q l :
  P (l_disk l) -> Kept J (l_store l) ->
  (forall l', P (l_disk l') -> Kept J (l_store l') -> (ideal l -> ideal l') -> Q (Ok tt) l') ->
  (forall e l', P (l_disk l') -> Kept J (l_store l') -> ~ ideal l -> Q (Err e) l') ->
  wp (clear_session session) Q l.
Proof using All.
  intros HP Hk Q1 Q2. unfold clear_session. apply wp_bind, wp_exists.
  rewrite exists_on_own by (by auto using own_session). case_bool_decide as Hex.
  2: { apply wp_ret. by apply Q1. }
  apply wp_bind, wp_wipe; [done..|]. intros l1 HP1 Hk1 Hi1 [c Hc]. unfold io_as.
  change (wp (io_as (session_text "remove" session) (fs_remove_file session)) Q l1).
  unfold fs_remove_file. apply (wp_io_plain _ _ J); [done|rewrite Hc; by apply HPJ, HPdrop|..].
  - intros e l2 Hd2 Hk2 _ Hcalm. apply Q2; [by rewrite Hd2|done|]. intros Hid. by apply Hcalm, Hi1.
  - intros l2 Hd2 Hk2 Hs2. rewrite Hc in Hd2 |- *. cbn in Hd2 |- *.
    apply Q1; [rewrite Hd2; by apply HPdrop|done|].
    intros Hid. eapply ideal_step; [done|done| |by apply Hi1]. apply fresh_drop.
Qed.
End session.

(** ** Installing a staged generation *)

Section install.
Variables (old new : string -> option (content DB)) (staged : StagedVault).
Hypotheses (Hstage : sv_dir staged = (paths dir (sv_id staged)).1)
  (Huuid : is_uuid (sv_id staged) = true)
  (Hnew : forall n, n ∈ FILES -> n ∉ INSTALLED -> new n = None).

Abbreviation stage := (sv_dir staged).
Abbreviation backup := ((paths dir (sv_id staged)).2).
Abbreviation in_stage n := (dir ++ [".replace-" +:+ sv_id staged; n]).
Abbreviation in_backup n := (dir ++ [".backup-" +:+ sv_id staged; n]).

Definition was_present (n : string) : bool := bool_decide (is_Some (old n)).
Definition jr (ph : Phase) : Journal :=
  mkJournal 1 (sv_id staged) (sv_fingerprint staged) (was_present <$> FILES) ph.

(** Every disk is one that recovery takes to the old generation or the new. *)
Definition Either d : Prop := Inv old d \/ Inv new d.
#[local] Instance Either_stable : Stable Either.
Proof using Type*. intros d d' He. unfold Either. by rewrite He. Qed.

(** Where the files are: active [A], saved [S], staged [N]. *)
Record At (ph : option Phase) (A S N : string -> option (content DB)) d : Prop := {
  at_shape : Shape d;
  at_frame : Frame f d;
  at_journal : match ph with
               | Some ph => journal_at d (jr ph)
               | None => active d JOURNAL = None
               end;
  at_active n : n ∈ FILES -> active d n = A n;
  at_saved n : n ∈ FILES -> files d !! in_backup n = S n;
  at_staged n : n ∈ INSTALLED -> files d !! in_stage n = N n;
  at_stage : stage ∈ dirs d;
  at_backup : backup ∈ dirs d
}.

Lemma stage_path n : stage ++ [n] = in_stage n.
Proof using Hstage. rewrite Hstage. cbn. by rewrite <- app_assoc. Qed.

Lemma At_equiv ph A S N d d' : d ≈ d' -> At ph A S N d -> At ph A S N d'.
Proof using Type*.
  intros He [H1' H2' H3' H4' H5' H6' H7' H8']. pose proof (equiv_same_names _ _ He) as Hs.
  split.
  - by eapply Shape_equiv.
  - by eapply Frame_equiv.
  - destruct ph; [by eapply journal_same|]. by rewrite (proj1 Hs) by auto.
  - intros n Hn. rewrite (proj1 Hs) by auto. auto.
  - intros n Hn. rewrite <- H5' by done. symmetry. apply He, not_tmp_deep.
  - intros n Hn. rewrite <- H6' by done. symmetry. apply He, not_tmp_deep.
  - by rewrite <- (proj1 He).
  - by rewrite <- (proj1 He).
Qed.

Lemma At_ext ph A S N A' S' N' d :
  (forall n, n ∈ FILES -> A n = A' n /\ S n = S' n /\ N n = N' n) -> At ph A S N d -> At ph A' S' N' d.
Proof using Type*.
  intros Hext [H1' H2' H3' H4' H5' H6' H7' H8']. split; try done; intros n Hn.
  - rewrite H4' by done. by apply Hext.
  - rewrite H5' by done. by apply Hext.
  - rewrite H6' by done. by apply Hext, installed_files.
Qed.

Lemma zip_present n b : (n, b) ∈ zip FILES (was_present <$> FILES) -> b = was_present n.
Proof using Type*.
  generalize FILES as l. induction l as [|a l IH]; cbn; [by intros ?%elem_of_nil|].
  intros [[= -> ->]|Hin]%elem_of_cons; [done|by apply IH].
Qed.

(** Before the commit the old generation can be restored. *)
Lemma At_old ph A S N d :
  At (Some ph) A S N d -> ph <> Committed ->
  (forall n, n ∈ FILES -> S n = old n \/ (ph = Prepared /\ S n = None /\ A n = old n)) -> Inv old d.
Proof using Type*.
  intros [HS HF HJ HA HSv _ _ _] Hph Hwhere. apply (Undoing_Inv _ (jr ph)).
  split_and!; [done..|split; [done|]]. intros n b Hin. pose proof (elem_zip_l _ _ _ _ Hin) as Hn.
  rewrite (zip_present _ _ Hin). unfold rolled, saved. rewrite backup_path. cbn [transaction_id phase jr].
  rewrite HSv, HA by done. unfold was_present. destruct (Hwhere n Hn) as [->|(-> & -> & ->)].
  - destruct (old n) as [c|]; [|done]. split; [done|by eauto].
  - split; [|done]. by destruct (old n).
Qed.

(** After it the new one is in place. *)
Lemma At_new A S N d :
  At (Some Committed) A S N d -> (forall n, n ∈ FILES -> A n = new n) -> Inv new d.
Proof using Type*.
  intros [HS HF HJ HA _ _ _ _] Hwhere. split_and!; [done..|]. right. exists (jr Committed).
  split; [done|]. rewrite decide_True by done. intros n Hn. rewrite HA by done. by apply Hwhere.
Qed.

Ltac path_solve :=
  first [apply deep_ne | apply not_eq_sym, deep_ne
        | apply name_ne; first [done | by apply not_eq_sym | by apply file_not_journal
                                | by apply not_eq_sym, file_not_journal]
        | let E := fresh in intros E; apply dir_inj in E; first [discriminate E | congruence]].
Ltac look := unfold active; cbn; rewrite ?lookup_insert_ne, ?lookup_delete_ne by path_solve.

Lemma At_move_old ph A S N d n c :
  n ∈ FILES -> At ph A S N d ->
  At ph (upd n None A) (upd n (Some c) S) N (put_file (in_backup n) c (drop_file (dir ++ [n]) d)).
Proof using All.
  intros Hn [HS HF HJ HA HSv HN Hst Hbk]. split; [| | |intros m Hm..|done|done].
  - apply Shape_put_deep; [done|by apply Shape_drop].
  - intros m Hm. look. rewrite lookup_delete_ne; [by apply HF|].
    apply name_ne. intros <-. destruct Hm as [Hm _]. apply Hm. by left.
  - destruct ph; [|by look]. destruct HJ as (b & Hb & Hrest). exists b. split; [by look|done].
  - unfold upd. case_decide as Heq; [subst|].
    + look. apply lookup_delete_eq.
    + look. by apply HA.
  - unfold upd. case_decide as Heq; [subst|].
    + cbn. by rewrite lookup_insert_eq.
    + look. by apply HSv.
  - look. by apply HN.
Qed.

Lemma At_move_new ph A S N d n c :
  n ∈ FILES -> At ph A S N d ->
  At ph (upd n (Some c) A) S (upd n None N) (put_file (dir ++ [n]) c (drop_file (in_stage n) d)).
Proof using All.
  intros Hn [HS HF HJ HA HSv HN Hst Hbk]. split; [| | |intros m Hm..|done|done].
  - apply Shape_put; [by left|by apply Shape_drop].
  - apply Frame_put; [by left|]. intros m Hm. look. by apply HF.
  - destruct ph; [|by look]. destruct HJ as (b & Hb & Hrest). exists b. split; [by look|done].
  - unfold upd. case_decide as Heq; [subst|].
    + unfold active. cbn. by rewrite lookup_insert_eq.
    + look. by apply HA.
  - look. by apply HSv.
  - unfold upd. case_decide as Heq; [subst|].
    + look. apply lookup_delete_eq.
    + look. by apply HN.
Qed.

Lemma At_journal ph ph' A S N d b :
  At ph A S N d -> journal_to_vec (jr ph') = Ok b ->
  At (Some ph') A S N (put_file (dir ++ [JOURNAL]) (Bytes b) d).
Proof using All.
  intros [HS HF HJ HA HSv HN Hst Hbk] Hb. assert (own JOURNAL) as Ho by (unfold own; tauto).
  split; [by apply Shape_put|by apply Frame_put| |intros m Hm..|done|done].
  - exists b. unfold active. cbn. rewrite lookup_insert_eq. split_and!; [done| |done..].
    by apply journal_roundtrip.
  - look. by apply HA.
  - look. by apply HSv.
  - look. by apply HN.
Qed.

Section run.
Variable Q : result CliError unit -> Local (World DB) -> Prop.
Abbreviation hook := (fun _ : nat => Ok tt : Result unit CliError).

Lemma wp_write_journal ph ph' A S N l :
  At ph A S N (l_disk l) -> Kept Either (l_store l) ->
  (forall d, At (Some ph') A S N d -> Either d) ->
  (forall l', At (Some ph') A S N (l_disk l') -> Kept Either (l_store l') -> (ideal l -> ideal l') ->
     Q (Ok tt) l') ->
  (forall e l', Kept Either (l_store l') -> ~ ideal l -> Q (Err e) l') ->
  wp (write_journal dir (jr ph')) Q l.
Proof using All.
  intros HAt Hk HE Q1 Q2. destruct (journal_total (jr ph')) as [b Hb].
  assert (own JOURNAL) as Ho by (unfold own; tauto). pose proof (at_shape _ _ _ _ _ HAt) as HS.
  unfold write_journal. rewrite Hb. apply wp_bind, wp_lift. cbn [result_map_err].
  pose proof (At_journal _ ph' _ _ _ _ b HAt Hb) as HAt'.
  apply (wp_atomic_write Either); [apply _|by apply own_not_tmp_path|by apply own_absent_dirs|apply HS
    |by intros; apply tmp_absent_dirs|done|by apply HE|..].
  - intros l' He Hk' Hi. apply Q1; [|done..]. eapply At_equiv; [by symmetry|done].
  - intros e l' _ Hk' Hi. by apply Q2.
Qed.

Lemma wp_sync2 p q l :
  exists_on (l_disk l) p = true -> exists_on (l_disk l) q = true -> Kept Either (l_store l) ->
  (forall l', l_disk l' = l_disk l -> Kept Either (l_store l') -> (ideal l -> ideal l') -> Q (Ok tt) l') ->
  (forall e l', Kept Either (l_store l') -> ~ ideal l -> Q (Err e) l') ->
  wp (_ ← sync_dir p; _ ← sync_dir q; lift_result (Ok tt)) Q l.
Proof using All.
  intros Hp Hq Hk Q1 Q2. apply wp_bind. eapply (wp_sync Either); [done..| |].
  2: { intros e l' _ Hk' Hi. by apply Q2. }
  intros l1 Hd1 Hk1 Hi1. apply wp_bind. eapply (wp_sync Either); [by rewrite Hd1|done|..].
  2: { intros e l' _ Hk' Hi. apply Q2; [done|tauto]. }
  intros l2 Hd2 Hk2 Hi2. apply wp_lift. apply Q1; [congruence|done|tauto].
Qed.
End run.

Lemma Prepared_old names N d :
  At (Some Prepared) (moved names old) (arrived names old) N d -> Inv old d.
Proof using All.
  intros HAt. eapply At_old; [exact HAt|done|]. intros n Hn. unfold moved, arrived.
  case_decide; [by left|by right].
Qed.

(** The active files go to the backup. *)
Lemma wp_move_old i n names N Q l :
  n ∈ FILES -> n ∉ names ->
  At (Some Prepared) (moved names old) (arrived names old) N (l_disk l) -> Kept Either (l_store l) ->
  (forall l', At (Some Prepared) (moved (names ++ [n]) old) (arrived (names ++ [n]) old) N (l_disk l') ->
     Kept Either (l_store l') -> (ideal l -> ideal l') -> Q (Ok tt) l') ->
  (forall e l', Kept Either (l_store l') -> ~ ideal l -> Q (Err e) l') ->
  wp (move_old dir backup (fun _ => Ok tt) (i, (n, was_present n))) Q l.
Proof using All.
  intros Hn Hnames HAt Hk Q1 Q2. unfold move_old.
  assert (forall l1, At (Some Prepared) (moved (names ++ [n]) old) (arrived (names ++ [n]) old) N (l_disk l1) ->
    Kept Either (l_store l1) -> (ideal l -> ideal l1) ->
    wp (_ ← sync_dir backup; _ ← sync_dir dir; lift_result (Ok tt)) Q l1) as Hsync.
  { intros l1 HAt1 Hk1 Hi1. apply wp_sync2; [by apply exists_on_dir, HAt1|by apply exists_on_dir, HAt1|done|..].
    - intros l2 Hd2 Hk2 Hi2. apply Q1; [by rewrite Hd2|done|tauto].
    - intros e l2 Hk2 Hi2. apply Q2; [done|tauto]. }
  apply wp_bind. unfold was_present. case_bool_decide as Hp.
  - destruct Hp as [c Hc].
    assert (active (l_disk l) n = Some c) as Hact.
    { rewrite (at_active _ _ _ _ _ HAt) by done. unfold moved. by rewrite decide_False. }
    pose proof (At_move_old _ _ _ _ _ n c Hn HAt) as HAt'. rewrite <- Hc in HAt'.
    eapply At_ext in HAt'; [|intros m _; split_and!; [apply upd_moved|apply upd_arrived|done]].
    rewrite backup_path.
    eapply (wp_ok_call Either); [|done|left; by eapply Prepared_old| |..].
    + unfold active in Hact. rewrite Hact.
      rewrite bool_decide_eq_false_2 by (apply (sh_deep _ (at_shape _ _ _ _ _ HAt))).
      rewrite bool_decide_eq_true_2; [done|]. rewrite <- backup_path. unfold parent_of.
      rewrite removelast_last. apply HAt.
    + intros Hf. apply fresh_put; [apply not_tmp_deep|by apply fresh_drop].
    + intros l1 Hd1 Hk1 Hi1. apply Hsync; [by rewrite Hd1|done..].
    + intros e l1 Hd1 Hk1 Hi1. by apply Q2.
  - apply wp_ret. apply Hsync; [|done..]. eapply At_ext; [|exact HAt]. intros m Hm.
    assert (old n = None) as Hnone by (by apply eq_None_not_Some).
    rewrite <- upd_moved, <- upd_arrived. unfold upd. split_and!; [..|done]; case_decide; subst; try done.
    + unfold moved. by rewrite Hnone; case_decide.
    + unfold arrived. by rewrite Hnone; case_decide.
Qed.

Lemma wp_move_all_old N Q l :
  At (Some Prepared) old (fun _ => None) N (l_disk l) -> Kept Either (l_store l) ->
  (forall l', At (Some Prepared) (fun _ => None) old N (l_disk l') ->
     Kept Either (l_store l') -> (ideal l -> ideal l') -> Q (Ok tt) l') ->
  (forall e l', Kept Either (l_store l') -> ~ ideal l -> Q (Err e) l') ->
  wp (for_each (move_old dir backup (fun _ => Ok tt)) (imap pair (zip FILES (was_present <$> FILES)))) Q l.
Proof using All.
  intros HAt Hk Q1 Q2.
  assert ((imap pair (zip FILES (was_present <$> FILES))).*2.*1 = FILES) as Hnames.
  { rewrite imap_pair_snd. apply fst_zip. rewrite length_fmap. lia. }
  eapply (wp_for_each _ (fun donel l' =>
    At (Some Prepared) (moved donel.*2.*1 old) (arrived donel.*2.*1 old) N (l_disk l')
    /\ Kept Either (l_store l') /\ (ideal l -> ideal l'))).
  - split_and!; [|done..]. eapply At_ext; [|exact HAt]. intros n _. unfold moved, arrived. cbn.
    by destruct (decide (n ∈ [])) as [Hin|]; [apply elem_of_nil in Hin|].
  - intros donel [i [n b]] rest l1 Hl (HAt1 & Hk1 & Hi1).
    assert (FILES = donel.*2.*1 ++ n :: rest.*2.*1) as Hf by (by rewrite <- Hnames, Hl, !fmap_app).
    assert (b = was_present n) as ->.
    { apply zip_present. rewrite <- imap_pair_snd, Hl, fmap_app. apply elem_of_app. right. by left. }
    pose proof NoDup_FILES as Hnd. rewrite Hf in Hnd. apply NoDup_app in Hnd as (_ & Hnd & _).
    eapply wp_move_old; [rewrite Hf; apply elem_of_app; right; by left|
      intros Hin; by apply (Hnd n Hin); left|done|done|..].
    + intros l2 HAt2 Hk2 Hi2. rewrite !fmap_app. split_and!; [done..|tauto].
    + intros e l2 Hk2 Hi2. apply Q2; [done|tauto].
  - intros l1 (HAt1 & Hk1 & Hi1). apply Q1; [|done..]. rewrite Hnames in HAt1.
    eapply At_ext; [|exact HAt1]. intros n Hn. unfold moved, arrived.
    by destruct (decide (n ∈ FILES)).
Qed.

(** The staged files take their places; the old ones are all in the backup. *)
Hypothesis Hhas : forall n, n ∈ INSTALLED -> is_Some (new n).

Lemma OldMoved_old ph A N d :
  ph <> Committed -> At (Some ph) A old N d -> Inv old d.
Proof using All. intros Hph HAt. eapply At_old; [exact HAt|done|]. by left. Qed.

Lemma wp_move_new i n names Q l :
  n ∈ INSTALLED -> n ∉ names ->
  At (Some OldMoved) (arrived names new) old (moved names new) (l_disk l) -> Kept Either (l_store l) ->
  (forall l', At (Some OldMoved) (arrived (names ++ [n]) new) old (moved (names ++ [n]) new) (l_disk l') ->
     Kept Either (l_store l') -> (ideal l -> ideal l') -> Q (Ok tt) l') ->
  (forall e l', Kept Either (l_store l') -> ~ ideal l -> Q (Err e) l') ->
  wp (move_new dir staged (fun _ => Ok tt) (i, n)) Q l.
Proof using All.
  intros Hn Hnames HAt Hk Q1 Q2. unfold move_new. destruct (Hhas n Hn) as [c Hc].
  assert (files (l_disk l) !! in_stage n = Some c) as Hst.
  { rewrite (at_staged _ _ _ _ _ HAt) by done. unfold moved. by case_decide. }
  pose proof (At_move_new _ _ _ _ _ n c (installed_files n Hn) HAt) as HAt'. rewrite <- Hc in HAt'.
  eapply At_ext in HAt'; [|intros m _; split_and!; [apply upd_arrived|done|apply upd_moved]].
  pose proof (at_shape _ _ _ _ _ HAt) as HS. assert (own n) as Ho by (left; by apply installed_files).
  rewrite stage_path. apply wp_bind.
  eapply (wp_ok_call Either); [|done|left; by eapply (OldMoved_old OldMoved)| |..].
  - rewrite Hst, bool_decide_eq_false_2 by (by apply own_absent_dirs).
    rewrite bool_decide_eq_true_2; [done|]. rewrite parent_of_name. apply HS.
  - intros Hf. apply fresh_put; [by apply own_not_tmp_path|by apply fresh_drop].
  - intros l1 Hd1 Hk1 Hi1. rewrite <- Hd1 in HAt'.
    apply wp_sync2; [apply exists_on_dir, HAt'|apply exists_on_dir, HAt'|done|..].
    + intros l2 Hd2 Hk2 Hi2. apply Q1; [by rewrite Hd2|done|tauto].
    + intros e l2 Hk2 Hi2. apply Q2; [done|tauto].
  - intros e l1 Hd1 Hk1 Hi1. by apply Q2.
Qed.

Lemma wp_move_all_new Q l :
  At (Some OldMoved) (fun _ => None) old new (l_disk l) -> Kept Either (l_store l) ->
  (forall l', At (Some OldMoved) new old (fun _ => None) (l_disk l') ->
     Kept Either (l_store l') -> (ideal l -> ideal l') -> Q (Ok tt) l') ->
  (forall e l', Kept Either (l_store l') -> ~ ideal l -> Q (Err e) l') ->
  wp (for_each (move_new dir staged (fun _ => Ok tt)) (imap pair INSTALLED)) Q l.
Proof using All.
  intros HAt Hk Q1 Q2. pose proof (imap_pair_snd INSTALLED) as Hnames.
  eapply (wp_for_each _ (fun donel l' =>
    At (Some OldMoved) (arrived donel.*2 new) old (moved donel.*2 new) (l_disk l')
    /\ Kept Either (l_store l') /\ (ideal l -> ideal l'))).
  - split_and!; [|done..]. eapply At_ext; [|exact HAt]. intros n _. unfold moved, arrived. cbn.
    by destruct (decide (n ∈ [])) as [Hin|]; [apply elem_of_nil in Hin|].
  - intros donel [i n] rest l1 Hl (HAt1 & Hk1 & Hi1).
    assert (INSTALLED = donel.*2 ++ n :: rest.*2) as Hf by (by rewrite <- Hnames, Hl, !fmap_app).
    assert (NoDup INSTALLED) as Hnd by (by apply (bool_decide_unpack _)).
    rewrite Hf in Hnd. apply NoDup_app in Hnd as (_ & Hnd & _).
    eapply wp_move_new; [rewrite Hf; apply elem_of_app; right; by left|
      intros Hin; by apply (Hnd n Hin); left|done|done|..].
    + intros l2 HAt2 Hk2 Hi2. rewrite !fmap_app. split_and!; [done..|tauto].
    + intros e l2 Hk2 Hi2. apply Q2; [done|tauto].
  - intros l1 (HAt1 & Hk1 & Hi1). apply Q1; [|done..]. rewrite Hnames in HAt1.
    destruct HAt1 as [? ? ? HA ? HN ? ?]. split; try done; intros n Hn.
    + rewrite HA by done. unfold arrived. case_decide; [done|]. symmetry. by apply Hnew.
    + rewrite HN by done. unfold moved. by rewrite decide_True.
Qed.

(** The start: the old generation, nothing pending, a complete stage, no backup
    directory of that name. *)
Definition Start d : Prop :=
  Shape d /\ Frame f d /\ settled old d /\ stage ∈ dirs d
  /\ (forall n, n ∈ INSTALLED -> files d !! in_stage n = new n) /\ backup ∉ dirs d.

Lemma Start_Either d : Start d -> Either d.
Proof using All. intros (? & ? & ? & _). left. split_and!; [done..|]. by left. Qed.

Lemma Start_session d c :
  Start d -> Start (put_file (dir ++ [".session"]) c d) /\ Start (drop_file (dir ++ [".session"]) d).
Proof using All.
  intros (HS & HF & (HN & HG) & Hst & Hin & Hbk). pose proof own_session as Ho.
  assert (forall n, n ∈ FILES -> dir ++ [".session"] <> dir ++ [n]) as Hne.
  { intros n Hn. apply name_ne. intros <-. vm_compute in Hn. set_unfold in Hn. by destruct_or! Hn. }
  split; (split_and!; [auto using Shape_put, Shape_drop|auto using Frame_put, Frame_drop|split|done| |done]).
  1,4: unfold active; cbn; rewrite ?lookup_insert_ne, ?lookup_delete_ne by (by apply name_ne); done.
  1,3: intros n Hn; unfold active; cbn; rewrite ?lookup_insert_ne, ?lookup_delete_ne by auto; by apply HG.
  all: intros n Hn; cbn; rewrite ?lookup_insert_ne, ?lookup_delete_ne by apply deep_ne; by apply Hin.
Qed.

(** Making the backup directory. *)
Lemma Start_backup d :
  Start d -> At None old (fun _ => None) new (mkDisk (files d) ({[backup]} ∪ dirs d)).
Proof using All.
  intros (HS & HF & (HN & HG) & Hst & Hin & Hbk). pose proof HS as [S1 S2 S3 S4 S5].
  split; cbn; [|done|done|done| |done|apply elem_of_union; by right
    |apply elem_of_union; left; by apply elem_of_singleton].
  - split; cbn; [apply elem_of_union; by right|..|done].
    + intros n [Heq%elem_of_singleton|Hn]%elem_of_union; [|by apply S2]. apply dir_inj in Heq.
      injection Heq as ->. split; [intros Ho; by eapply own_no_backup|by intros id Hd].
    + intros n m [Heq%elem_of_singleton|Hn]%elem_of_union; [|by apply (S3 n m)].
      by apply dir_inj in Heq.
    + intros p c Hp Hc. apply elem_of_union. right. by eapply S4.
  - intros n Hn. apply eq_None_not_Some. intros [c Hc].
    apply Hbk. rewrite <- backup_path in Hc. apply S4 in Hc; [|rewrite backup_path; apply not_tmp_deep].
    unfold parent_of in Hc. by rewrite removelast_last in Hc.
Qed.

Lemma wp_recover_idle J Q l :
  active (l_disk l) JOURNAL = None -> Kept J (l_store l) ->
  (forall l', l_disk l' = l_disk l -> Kept J (l_store l') -> (ideal l -> ideal l') -> Q (Ok tt) l') ->
  (forall e l', l_disk l' = l_disk l -> Kept J (l_store l') -> ~ ideal l -> Q (Err e) l') ->
  wp (recover dir) Q l.
Proof using All.
  intros Hn Hk Q1 Q2. unfold recover. apply wp_bind. unfold fs_read.
  apply (wp_io_result _ J); [done|by inversion Hk|..].
  { intros msg l' Hd Hk' _ Hc. apply wp_throw. apply Q2; [done|done|by intros [? _]]. }
  intros l1 Hd1 Hk1 Hs1. cbn [fst snd] in *. unfold active in Hn. rewrite Hn. apply wp_ret.
  apply Q1; [done..|]. by eapply ideal_step.
Qed.

Lemma wp_sync_all J Q l :
  Kept J (l_store l) ->
  (forall l', l_disk l' = l_disk l -> Kept J (l_store l') -> (ideal l -> ideal l') -> Q (Ok tt) l') ->
  (forall e l', l_disk l' = l_disk l -> Kept J (l_store l') -> ~ ideal l -> Q (Err e) l') ->
  wp (for_each (fun name => sync_if_present (dir ++ [name])) FILES) Q l.
Proof using All.
  intros Hk Q1 Q2.
  eapply (wp_for_each _ (fun _ l' => l_disk l' = l_disk l /\ Kept J (l_store l') /\ (ideal l -> ideal l'))).
  - done.
  - intros _ n _ l1 _ (Hd1 & Hk1 & Hi1). unfold sync_if_present. apply wp_bind, wp_exists.
    destruct (exists_on _ _) eqn:Hex.
    + eapply (wp_sync J); [done..| |].
      * intros l2 Hd2 Hk2 Hi2. split_and!; [congruence|done|tauto].
      * intros e l2 Hd2 Hk2 Hi2. apply Q2; [congruence|done|tauto].
    + apply wp_ret. done.
  - intros l1 (Hd1 & Hk1 & Hi1). by apply Q1.
Qed.

Lemma At_presence A S N d : At None A S N d -> (forall n, n ∈ FILES -> A n = old n) ->
  (fun name => exists_on d (dir ++ [name])) <$> FILES = was_present <$> FILES.
Proof using All.
  intros HAt HA. apply list_fmap_ext. intros i n Hn. apply list_elem_of_lookup_2 in Hn.
  rewrite exists_on_own by (apply HAt || by left). by rewrite (at_active _ _ _ _ _ HAt), HA.
Qed.

(** From the first journal to the end of the last recovery. *)
Lemma wp_swap Q l :
  At None old (fun _ => None) new (l_disk l) -> Kept Either (l_store l) ->
  (forall l', Done new (l_disk l') -> Kept Either (l_store l') -> (ideal l -> ideal l') -> Q (Ok tt) l') ->
  (forall e l', Kept Either (l_store l') -> ~ ideal l -> Q (Err e) l') ->
  wp (_ ← write_journal dir (jr Prepared); _ ← lift_result (Ok tt);
      _ ← for_each (move_old dir backup (fun _ => Ok tt)) (imap pair (zip FILES (was_present <$> FILES)));
      _ ← write_journal dir (jr OldMoved); _ ← lift_result (Ok tt);
      _ ← for_each (move_new dir staged (fun _ => Ok tt)) (imap pair INSTALLED);
      _ ← write_journal dir (jr NewInstalled); _ ← lift_result (Ok tt);
      _ ← write_journal dir (jr Committed); _ ← lift_result (Ok tt);
      recover dir) Q l.
Proof using All.
  intros HAt Hk Q1 Q2. apply wp_bind. eapply wp_write_journal; [done..| | |].
  { intros d HAt'. left. eapply At_old; [exact HAt'|done|]. by right. }
  2: done.
  intros l1 HAt1 Hk1 Hi1. apply wp_bind, wp_lift, wp_bind. eapply wp_move_all_old; [done..| |].
  2: { intros e l' Hk' Hi. apply Q2; [done|tauto]. }
  intros l2 HAt2 Hk2 Hi2. apply wp_bind. eapply wp_write_journal; [done..| | |].
  { intros d HAt'. left. by eapply (OldMoved_old OldMoved). }
  2: { intros e l' Hk' Hi. apply Q2; [done|tauto]. }
  intros l3 HAt3 Hk3 Hi3. apply wp_bind, wp_lift, wp_bind. eapply wp_move_all_new; [done..| |].
  2: { intros e l' Hk' Hi. apply Q2; [done|tauto]. }
  intros l4 HAt4 Hk4 Hi4. apply wp_bind. eapply wp_write_journal; [done..| | |].
  { intros d HAt'. left. by eapply (OldMoved_old NewInstalled). }
  2: { intros e l' Hk' Hi. apply Q2; [done|tauto]. }
  intros l5 HAt5 Hk5 Hi5. apply wp_bind, wp_lift, wp_bind. eapply wp_write_journal; [done..| | |].
  { intros d HAt'. right. by eapply At_new. }
  2: { intros e l' Hk' Hi. apply Q2; [done|tauto]. }
  intros l6 HAt6 Hk6 Hi6. apply wp_bind, wp_lift.
  apply (wp_recover new Either); [apply _|by right|by eapply At_new|done|..].
  - intros l7 HD7 Hk7 Hi7. apply Q1; [done..|tauto].
  - intros e l7 _ Hk7 Hi7. apply Q2; [done|tauto].
Qed.

Lemma wp_install_body Q l :
  Start (l_disk l) -> Kept Either (l_store l) ->
  (forall l', Done new (l_disk l') -> Kept Either (l_store l') -> (ideal l -> ideal l') -> Q (Ok tt) l') ->
  (forall e l', Kept Either (l_store l') -> ~ ideal l -> Q (Err e) l') ->
  wp (install_body dir staged (fun _ => Ok tt)) Q l.
Proof using All.
  intros HSt Hk Q1 Q2. unfold install_body. apply wp_bind.
  eapply (wp_recover_idle Either); [apply HSt|done|..].
  2: { intros e l' _ Hk' Hi. by apply Q2. }
  intros l1 Hd1 Hk1 Hi1. rewrite <- Hd1 in HSt. apply wp_bind.
  apply (wp_clear Either Start); [exact Start_Either|by intros; apply Start_session
    |by intros d Hd; apply (Start_session d (Bytes "") Hd)|by intros d Hd; apply Hd|done|done|..].
  2: { intros e l' _ Hk' Hi. apply Q2; [done|tauto]. }
  clear Hd1 HSt. intros l2 HSt Hk2 Hi2. pose proof (Start_backup _ HSt) as HAt. apply wp_bind.
  eapply (wp_ok_call Either _ _ (mkDisk (files (l_disk l2)) ({[backup]} ∪ dirs (l_disk l2))));
    [|done| |done|..].
  { unfold fs_create_dir. destruct HSt as (HS & _ & _ & _ & _ & Hbk).
    assert (exists_on (l_disk l2) backup = false) as ->.
    { unfold exists_on. rewrite (proj2 (sh_ids _ HS _ Huuid)).
      rewrite (bool_decide_eq_false_2 (is_Some _)) by (by intros [? ?]).
      by rewrite bool_decide_eq_false_2. }
    rewrite bool_decide_eq_true_2; [done|]. cbn. rewrite parent_of_name. apply HS. }
  { left. destruct HAt as [HS HF HN HA _ _ _ _]. split_and!; [done..|]. left. by split. }
  2: { intros e l' _ Hk' Hi. apply Q2; [done|tauto]. }
  intros l3 Hd3 Hk3 Hi3. rewrite <- Hd3 in HAt. clear HSt Hd3. apply wp_bind.
  eapply (wp_sync Either); [apply exists_on_dir, HAt|done|..].
  2: { intros e l' _ Hk' Hi. apply Q2; [done|tauto]. }
  intros l4 Hd4 Hk4 Hi4. rewrite <- Hd4 in HAt. clear Hd4. apply wp_bind.
  apply (wp_sync_all Either); [done|..].
  2: { intros e l' _ Hk' Hi. apply Q2; [done|tauto]. }
  intros l5 Hd5 Hk5 Hi5. rewrite <- Hd5 in HAt. clear Hd5.
  assert (presence dir l5 = (Ok (was_present <$> FILES), l5)) as Hpres.
  { unfold presence. by rewrite (At_presence _ _ _ _ HAt) by done. }
  apply wp_bind. unfold wp at 1. rewrite Hpres. cbn [fst snd].
  apply wp_swap; [done..| |].
  - intros l6 HD6 Hk6 Hi6. apply Q1; [done..|tauto].
  - intros e l6 Hk6 Hi6. apply Q2; [done|tauto].
Qed.

(** Dropping the stage disturbs neither generation. *)
Lemma stage_not_used q n : parent_of q = stage -> q <> dir ++ [n] /\ forall id, q <> (paths dir id).2 ++ [n].
Proof using All.
  intros Hq. split.
  - intros ->. rewrite parent_of_name, Hstage in Hq. cbn in Hq.
    assert (length dir = length (dir ++ [".replace-" +:+ sv_id staged])) as Hl by (by rewrite <- Hq).
    rewrite length_app in Hl. cbn in Hl. lia.
  - intros id ->. unfold parent_of in Hq. rewrite removelast_last, Hstage in Hq.
    by apply dir_inj in Hq.
Qed.

Lemma Either_emptying : Emptying Either Either stage.
Proof using All.
  assert (forall g d q, Inv g d -> parent_of q = stage -> Inv g (drop_file q d)) as Hfile.
  { intros g d q (HS & HF & HG) Hq. split_and!.
    - by apply Shape_drop.
    - intros n Hn. cbn. rewrite lookup_delete_ne by (by apply stage_not_used). by apply HF.
    - eapply Good_same; [|done]. split.
      + intros n _. unfold active. cbn. rewrite lookup_delete_ne; [done|]. by apply stage_not_used.
      + intros id n _. cbn. rewrite lookup_delete_ne; [done|]. by apply (stage_not_used q n Hq). }
  assert (forall g d, Inv g d -> files_in stage d = [] -> Inv g (mkDisk (files d) (dirs d ∖ {[stage]}))) as Hdir.
  { intros g d (HS & HF & HG) He. split_and!; [|done|done].
    revert He. rewrite Hstage. intros He. exact (Shape_rmdir (".replace-" +:+ sv_id staged) d HS He). }
  split; [done|..].
  - intros d q [HI|HI] Hq; [left|right]; by apply Hfile.
  - intros d [HI|HI] He; [left|right]; by apply Hdir.
Qed.

Lemma wp_drop_staged P Q l :
  Emptying Either P stage -> P (l_disk l) -> Kept Either (l_store l) ->
  (forall l', P (l_disk l') -> Kept Either (l_store l') -> (ideal l -> ideal l') -> Q (Ok tt) l') ->
  wp (drop_staged staged) Q l.
Proof using All.
  intros HE HP Hk Q1. unfold drop_staged. apply wp_ignore.
  destruct (decide (stage ∈ dirs (l_disk l))) as [Hin|Hin].
  - eapply wp_remove_dir_all; [done..| |]; [by apply Q1|].
    intros e l' HP' Hk' Hi. apply Q1; [done..|tauto].
  - unfold remove_dir_all. apply wp_bind. unfold io, fs_read_dir.
    apply (wp_io_plain _ _ Either); [done|by inversion Hk|..].
    + intros e l' Hd Hk' _ Hc. apply Q1; [by rewrite Hd|done|by intros [? _]].
    + rewrite bool_decide_eq_false_2 by done. intros l' Hd Hk' Hs. cbn.
      apply Q1; [by rewrite Hd|done|]. by eapply ideal_step.
Qed.

(** The whole of [install] after the checkpoint. *)
Lemma wp_finish_install Q l :
  Start (l_disk l) -> Kept Either (l_store l) ->
  (forall l', Done new (l_disk l') -> Kept Either (l_store l') -> Q (Ok tt) l') ->
  (forall e l', Kept Either (l_store l') -> ~ ideal l -> Q (Err e) l') ->
  wp (finish_install dir staged) Q l.
Proof using All.
  intros HSt Hk Q1 Q2. unfold finish_install, install_with_hook.
  apply wp_bind, wp_attempt, wp_bind, wp_attempt. apply wp_install_body; [done..| |].
  - intros l1 HD1 Hk1 Hi1. apply wp_bind. apply (wp_drop_staged (Done new)); [|done..|].
    { rewrite Hstage. apply Done_emptying; [apply _|by right]. }
    intros l2 HD2 Hk2 Hi2. apply wp_lift. apply wp_bind. cbn [is_ok]. apply wp_ret, wp_lift.
    by apply Q1.
  - intros e l1 Hk1 Hi1. apply wp_bind.
    apply (wp_drop_staged Either); [apply Either_emptying|by inversion Hk1|done|].
    intros l2 HE2 Hk2 Hi2. apply wp_lift. apply wp_bind. cbn [is_ok].
    destruct HE2 as [HI|HI].
    + apply (wp_recover old Either); [apply _|by left|done..| |].
      * intros l3 _ Hk3 _. apply wp_lift. by apply Q2.
      * intros e' l3 _ Hk3 _. by apply Q2.
    + apply (wp_recover new Either); [apply _|by right|done..| |].
      * intros l3 _ Hk3 _. apply wp_lift. by apply Q2.
      * intros e' l3 _ Hk3 _. by apply Q2.
Qed.
End install.
End inv.
End facts.

(** ** Crashes *)

Section crash.
Context {DB : Type} `{!Env} `{CliLaws DB} `{JournalLaws}.
Implicit Types (d : Disk DB) (l : Local (World DB)).

(** A process that begins on the disk [d]: any clock, any identifiers, and any
    calls failing. *)
Definition begins d l : Prop := l_disk l = d /\ past (l_store l) = [].

(** The disks a process that runs [m] from [d] can leave when it dies. *)
Definition leaves (m : M (Local (World DB)) CliError unit) d d' : Prop :=
  exists l r l', begins d l /\ m l = (r, l') /\ d' ∈ l_disk l' :: past (l_store l').

(** A replacement about to start: the data directory holds the generation [old],
    nothing is pending, the stage is complete. *)
Record Replacement (dir : path) (f old new : string -> option (content DB))
    (staged : StagedVault) d : Prop := {
  rp_stage : sv_dir staged = (paths dir (sv_id staged)).1;
  rp_uuid : is_uuid (sv_id staged) = true;
  rp_new n : n ∈ FILES -> if bool_decide (n ∈ INSTALLED) then is_Some (new n) else new n = None;
  rp_start : Start dir f old new staged d
}.

Lemma begins_kept (I : Disk DB -> Prop) d l : begins d l -> I d -> Kept I (l_store l).
Proof. intros [<- Hp] HI. unfold Kept. rewrite Hp. by repeat constructor. Qed.

Lemma Kept_leaves (I : Disk DB -> Prop) l d' : Kept I (l_store l) -> d' ∈ l_disk l :: past (l_store l) -> I d'.
Proof. intros Hk. unfold Kept in Hk. rewrite Forall_forall in Hk. apply Hk. Qed.

(** Recovery, from any disk that stands for [g]. *)
Lemma recover_keeps dir f g d d' : Inv dir f g d -> leaves (recover dir) d d' -> Inv dir f g d'.
Proof using Type*.
  intros HI (l & r & l' & Hb & Hrun & Hin).
  eapply (Kept_leaves (Inv dir f g)); [|exact Hin]. revert Hrun. revert r l' Hin.
  enough (forall r l', recover dir l = (r, l') -> Kept (Inv dir f g) (l_store l')) by eauto.
  apply wp_elim. eapply (wp_recover dir f g (Inv dir f g)); [apply Inv_stable|done| | |done..].
  - by destruct Hb as [-> _].
  - by eapply begins_kept.
Qed.

Lemma recover_settles dir f g d l r l' :
  Inv dir f g d -> begins d l -> recover dir l = (r, l') ->
  (r = Ok tt -> settled dir g (l_disk l') /\ Frame dir f (l_disk l')) /\ (ideal dir l -> r = Ok tt).
Proof using Type*.
  intros HI Hb. revert r l'. apply wp_elim.
  eapply (wp_recover dir f g (Inv dir f g)); [apply Inv_stable|done| | | |].
  - by destruct Hb as [-> _].
  - by eapply begins_kept.
  - intros l1 (_ & HF & Hs) _ _. by split.
  - intros e l1 _ _ Hi. by split.
Qed.

(** C20. Replacing the vault survives crashes.  The process may die between any two
    file system calls of the replacement, calls may fail, and recovery may itself
    be interrupted or fail any number of times: there is one generation, the old
    or the new, such that every recovery that returns leaves exactly its files
    active, with no journal left and the session credentials and device files as
    they were; and recovery does return when no call fails.  A replacement that
    reports success has installed the new generation, and it succeeds when no
    call fails. *)
Theorem vault_replacement_crash_safe dir f old new staged d0 :
  Replacement dir f old new staged d0 ->
  (forall l r l', begins d0 l -> finish_install dir staged l = (r, l') ->
     (r = Ok tt -> settled dir new (l_disk l') /\ Frame dir f (l_disk l'))
     /\ (ideal dir l -> r = Ok tt))
  /\ forall d1 d2, leaves (finish_install dir staged) d0 d1 -> rtc (leaves (recover dir)) d1 d2 ->
       exists g, (g = old \/ g = new) /\
         forall l r l', begins d2 l -> recover dir l = (r, l') ->
           (r = Ok tt -> settled dir g (l_disk l') /\ Frame dir f (l_disk l'))
           /\ (ideal dir l -> r = Ok tt).
Proof using Type*.
  intros [Hst Hid Hnew Hstart].
  assert (forall n, n ∈ FILES -> n ∉ INSTALLED -> new n = None) as Hnone.
  { intros n Hn Hi. specialize (Hnew n Hn). by rewrite bool_decide_eq_false_2 in Hnew. }
  assert (forall n, n ∈ INSTALLED -> is_Some (new n)) as Hsome.
  { intros n Hi. specialize (Hnew n (installed_files n Hi)). by rewrite bool_decide_eq_true_2 in Hnew. }
  assert (Either dir f old new d0) as HE by (by eapply Start_Either).
  assert (forall l, begins d0 l -> wp (finish_install dir staged) (fun r l' =>
    Kept (Either dir f old new) (l_store l')
    /\ (r = Ok tt -> settled dir new (l_disk l') /\ Frame dir f (l_disk l'))
    /\ (ideal dir l -> r = Ok tt)) l) as Hwp.
  { intros l Hb. eapply (wp_finish_install dir f old new); [done..| | | |].
    - by destruct Hb as [-> _].
    - by eapply begins_kept.
    - intros l' (_ & HF & Hs) Hk. by split_and!.
    - intros e l' Hk Hi. by split_and!. }
  split.
  - intros l r l' Hb Hrun. by destruct (wp_run _ _ _ _ _ (Hwp l Hb) Hrun) as (_ & ? & ?).
  - intros d1 d2 (l & r & l' & Hb & Hrun & Hin) Hrtc.
    destruct (wp_run _ _ _ _ _ (Hwp l Hb) Hrun) as (Hk & _). apply (Kept_leaves _ _ _ Hk) in Hin.
    assert (exists g, (g = old \/ g = new) /\ Inv dir f g d1) as (g & Hg & HI).
    { destruct Hin; eauto. }
    exists g. split; [done|]. assert (Inv dir f g d2) as HI2.
    { clear - HI Hrtc H H0 H1 H2 H3. induction Hrtc; [done|]. eauto using recover_keeps. }
    intros l2 r2 l2'. by apply recover_settles.
Qed.
End crash.
