(* ===== verification/EditBuffer.v ===== *)
(** * Editing a note in an external editor ([apps/cli/src/edit.rs])

    The text a note is edited as, and reading it back.  Rust's string slices
    panic at an index inside a character; [Panicked] is that outcome.  Theorems:
    what is written is read back, for ASCII titles and tags; and a title with any
    other character makes reading back panic. *)

From stdpp Require Import options.
From S2P Require Import Prelude Protocol CoreErrors Time Text Diff3 Crypto Note.

Inductive Panic : Type := Panicked.

Record ParsedEdit : Type := mkParsedEdit {
  pe_title : string;
  pe_tags : list string;
  pe_body : string
}.

Definition fence : string := "---".
Definition nl : string := String newline "".
Definition cr : string := String carriage_return "".

Definition note_to_edit_buffer (title : string) (tags : list string) (body : string) : string :=
  let tags_formatted := if bool_decide (tags = []) then "[]" else "[" +:+ str_join ", " tags +:+ "]" in
  fence +:+ nl +:+ "title: " +:+ title +:+ nl +:+ "tags: " +:+ tags_formatted +:+ nl
    +:+ fence +:+ nl +:+ nl +:+ body +:+ nl.

(** [after.starts_with('\n') || after.starts_with("\r\n") || after.is_empty()] *)
Definition ends_line (after : string) : bool :=
  str_starts_with nl after || str_starts_with (cr +:+ nl) after || bool_decide (after = "").

(** The loop of [find_closing_fence]: [rest] is [s[pos..]], which panics when
    [pos] is inside a character.  The slice behind a matched fence starts after
    ASCII text, so it does not. *)
Fixpoint fence_from (pos : nat) (rest : string) : Result (option nat) Panic :=
  match rest with
  | EmptyString => Ok None
  | String c rest' =>
      if is_cont c then Err Panicked
      else if str_starts_with (nl +:+ fence) rest && ends_line (str_drop 4 rest) then Ok (Some (pos + 1))
      else if negb (str_starts_with (nl +:+ fence) rest)
              && str_starts_with (cr +:+ nl +:+ fence) rest && ends_line (str_drop 5 rest)
           then Ok (Some (pos + 2))
      else fence_from (S pos) rest'
  end.
Definition find_closing_fence (s : string) : Result (option nat) Panic := fence_from 0 s.

(** [str::lines] *)
Definition strip_cr (line : string) : string :=
  match strip_suffix cr line with Some l => l | None => line end.
Fixpoint terminated_lines (l : list string) : list string :=
  match l with
  | [] => []
  | [last] => if bool_decide (last = "") then [] else [last]
  | line :: more => strip_cr line :: terminated_lines more
  end.
Definition str_lines (s : string) : list string := terminated_lines (split_lines s).

Definition double_quote : ascii := "034".
Definition single_quote : ascii := "039".
Definition unquote (s : string) : string := trim_char single_quote (trim_char double_quote s).

Section parse.
Context `{NoteLib}.

Definition parse_tags (val : string) : list string :=
  let cleaned := trim_char "]" (trim_char "[" (str_trim val)) in
  List.filter (fun t => negb (bool_decide (t = "")))
    (map (fun t => to_lowercase (unquote (str_trim t))) (str_split "," cleaned)).

(** One line of the frontmatter. *)
Definition parse_line (acc : string * list string) (line : string) : string * list string :=
  let line_trim := str_trim line in
  match strip_prefix "title:" line_trim with
  | Some val =>
      let cleaned := unquote (str_trim val) in
      (if bool_decide (cleaned = "") then acc.1 else cleaned, acc.2)
  | None =>
      match strip_prefix "tags:" line_trim with
      | Some val => (acc.1, parse_tags val)
      | None => acc
      end
  end.

(** No valid frontmatter: a leading heading, or the defaults. *)
Definition parse_plain (content default_title : string) (default_tags : list string) : ParsedEdit :=
  match str_lines content with
  | first_line :: more =>
      match strip_prefix "# " (str_trim first_line) with
      | Some h1_title =>
          mkParsedEdit (str_trim h1_title) default_tags (str_trim (str_join nl more))
      | None => mkParsedEdit default_title default_tags (str_trim content)
      end
  | [] => mkParsedEdit default_title default_tags (str_trim content)
  end.

Definition parse_edit_buffer (content default_title : string) (default_tags : list string)
    : Result ParsedEdit Panic :=
  match strip_prefix fence (str_trim_start content) with
  | Some rest =>
      let after_opening :=
        match strip_prefix (cr +:+ nl) rest with
        | Some stripped => stripped
        | None => match strip_prefix nl rest with Some stripped => stripped | None => rest end
        end in
      found ← find_closing_fence after_opening;
      match found with
      | Some closing_pos =>
          let frontmatter := str_take closing_pos after_opening in
          let body := str_trim (str_drop (closing_pos + 3) after_opening) in
          let '(title, tags) := fold_left parse_line (str_lines frontmatter) (default_title, default_tags) in
          Ok (mkParsedEdit title tags body)
      | None => Ok (parse_plain content default_title default_tags)
      end
  | None => Ok (parse_plain content default_title default_tags)
  end.
End parse.

(** ** ASCII text *)

Definition is_ascii_byte (c : ascii) : bool := (byte c <? 128)%N.
Definition is_ascii (s : string) : bool := str_forallb is_ascii_byte s.

Lemma chars_ascii c s :
  is_ascii_byte c = true -> chars (String c s) = mkChar (byte c) (String c "") :: chars s.
Proof.
  unfold is_ascii_byte. intros Hc%N.ltb_lt. cbn [chars].
  assert ((192 <=? byte c)%N = false) as -> by (apply N.leb_gt; lia).
  assert ((224 <=? byte c)%N = false) as -> by (apply N.leb_gt; lia).
  assert ((240 <=? byte c)%N = false) as -> by (apply N.leb_gt; lia).
  by destruct s as [|? [|? [|? ?]]].
Qed.

Lemma chars_app a s : is_ascii a = true -> chars (a +:+ s) = chars a ++ chars s.
Proof.
  induction a as [|c a IH]; [done|]. cbn [is_ascii str_forallb]. intros [Hc Ha]%andb_prop.
  rewrite str_app_cons, !chars_ascii by done. cbn. by rewrite IH.
Qed.

Lemma ascii_not_cont c : is_ascii_byte c = true -> is_cont c = false.
Proof.
  unfold is_ascii_byte, is_cont, in_range. intros Hc%N.ltb_lt.
  by assert ((128 <=? byte c)%N = false) as -> by (apply N.leb_gt; lia).
Qed.

(** ** Trimming *)

Lemma char_bytes_pos s x : x ∈ chars s -> 0 < String.length (char_bytes x).
Proof.
  induction s as [s IH] using str_rev_ind.
  destruct s as [|a [|b [|c [|d r]]]]; cbn [chars]; repeat case_match; rewrite ?elem_of_cons, ?elem_of_nil;
    intros Hin; destruct_or? Hin; subst; cbn; try lia; try done;
    (eapply IH in Hin; [done|cbn; lia]).
Qed.

Abbreviation weight l := (String.length (of_chars l)).

Lemma weight_rev l : weight (rev l) = weight l.
Proof.
  induction l as [|x l IH]; [done|]. cbn. rewrite of_chars_app, !str_length_app, IH. cbn.
  rewrite str_app_nil_r. lia.
Qed.

Lemma drop_weight p l :
  (forall x, x ∈ l -> 0 < String.length (char_bytes x)) ->
  weight (drop_while p l) <= weight l /\ (weight (drop_while p l) = weight l -> drop_while p l = l).
Proof.
  induction l as [|x l IH]; [done|]. intros Hpos. cbn. destruct (p x); [|done].
  rewrite str_length_app. specialize (Hpos x (list_elem_of_here _ _)) as Hx.
  destruct IH as [Hle _]; [intros y Hy; apply Hpos; by right|]. split; lia.
Qed.

(** A trimmed text has no white space at either end. *)
Lemma trimmed_chars s :
  str_trim s = s ->
  drop_while is_whitespace (chars s) = chars s
  /\ drop_while is_whitespace (rev (chars s)) = rev (chars s).
Proof.
  intros Ht. pose proof (f_equal String.length Ht) as Hlen. unfold str_trim in Hlen.
  pose proof (char_bytes_pos s) as Hpos. rewrite <- (of_chars_chars s) in Hlen at 2.
  set (cs := chars s) in *. clearbody cs. rewrite weight_rev in Hlen.
  destruct (drop_weight is_whitespace cs Hpos) as [Hle1 Heq1].
  assert (forall x, x ∈ rev (drop_while is_whitespace cs) -> 0 < String.length (char_bytes x)) as Hpos'.
  { intros x Hx. apply Hpos. destruct (drop_while_suffix is_whitespace cs) as [k ->].
    apply elem_of_app. right. by apply list_elem_of_In, in_rev, list_elem_of_In. }
  destruct (drop_weight is_whitespace _ Hpos') as [Hle2 Heq2]. rewrite weight_rev in Hle2, Heq2.
  assert (drop_while is_whitespace cs = cs) as Hd by (apply Heq1; lia).
  split; [done|]. rewrite Hd in Heq2, Hlen. by apply Heq2.
Qed.

Lemma drop_while_app_r {A} (p : A -> bool) l k :
  drop_while p l = l -> l <> [] -> drop_while p (l ++ k) = l ++ k.
Proof.
  destruct l as [|x l]; [done|]. cbn. destruct (p x) eqn:Hp; [|done].
  intros Heq. pose proof (f_equal length Heq) as Hl. cbn in Hl.
  destruct (drop_while_suffix p l) as [k' Hk]. rewrite Hk in Hl at 2. rewrite length_app in Hl. lia.
Qed.

(** Splitting into characters commutes with appending to a valid text. *)
Lemma chars_app_valid a s : utf8_valid a = true -> chars (a +:+ s) = chars a ++ chars s.
Proof.
  induction a as [a IH] using str_rev_ind. destruct a as [|x a]; [done|].
  cbn [utf8_valid]. destruct (in_range 0 127 x) eqn:Hx.
  { intros Ha. assert (is_ascii_byte x = true) as Hasc.
    { unfold in_range, is_ascii_byte in *. apply andb_prop in Hx as [_ Hx%N.leb_le]. apply N.ltb_lt. lia. }
    rewrite str_app_cons, !chars_ascii by done. cbn. f_equal. apply IH; [cbn; lia|done]. }
  assert (128 <= byte x)%N as Hlo.
  { unfold in_range in Hx. destruct (N.leb_spec 0 (byte x)); [|lia]. cbn in Hx. apply N.leb_gt in Hx. lia. }
  destruct a as [|b a]; [done|]. unfold in_range.
  destruct ((194 <=? byte x)%N && (byte x <=? 223)%N) eqn:H2.
  { apply andb_prop in H2 as [?%N.leb_le ?%N.leb_le]. intros [_ Ha]%andb_prop.
    rewrite !str_app_cons. cbn [chars].
    assert (((192 <=? byte x) && (byte x <? 224))%N = true) as -> by (apply andb_true_iff; split; [apply N.leb_le|apply N.ltb_lt]; lia).
    cbn. f_equal. apply IH; [cbn; lia|done]. }
  destruct a as [|c a]; [done|].
  destruct ((224 <=? byte x)%N && (byte x <=? 239)%N) eqn:H3.
  { apply andb_prop in H3 as [?%N.leb_le ?%N.leb_le]. intros [_ Ha]%andb_prop.
    rewrite !str_app_cons. cbn [chars].
    assert (((192 <=? byte x) && (byte x <? 224))%N = false) as -> by (apply andb_false_iff; right; apply N.ltb_ge; lia).
    assert (((224 <=? byte x) && (byte x <? 240))%N = true) as -> by (apply andb_true_iff; split; [apply N.leb_le|apply N.ltb_lt]; lia).
    cbn. f_equal. apply IH; [cbn; lia|done]. }
  destruct a as [|d a]; [done|].
  intros [[[[[H4%N.leb_le _]%andb_prop _]%andb_prop _]%andb_prop _]%andb_prop Ha]%andb_prop.
  rewrite !str_app_cons. cbn [chars].
  assert (((192 <=? byte x) && (byte x <? 224))%N = false) as -> by (apply andb_false_iff; right; apply N.ltb_ge; lia).
  assert (((224 <=? byte x) && (byte x <? 240))%N = false) as -> by (apply andb_false_iff; right; apply N.ltb_ge; lia).
  assert ((240 <=? byte x)%N = true) as -> by (apply N.leb_le; lia).
  cbn. f_equal. apply IH; [cbn; lia|done].
Qed.

Lemma ascii_valid s : is_ascii s = true -> utf8_valid s = true.
Proof.
  induction s as [|c s IH]; [done|]. cbn [is_ascii str_forallb utf8_valid]. intros [Hc Hs]%andb_prop.
  unfold in_range, is_ascii_byte in *. apply N.ltb_lt in Hc.
  destruct (N.leb_spec 0 (byte c)); [|lia]. destruct (N.leb_spec (byte c) 127); [|lia]. cbn. auto.
Qed.

(** An ASCII character that is (not) white space. *)
Definition blank (c : ascii) : bool := is_ascii_byte c && is_whitespace (mkChar (byte c) (String c "")).
Definition inked (c : ascii) : bool := is_ascii_byte c && negb (is_whitespace (mkChar (byte c) (String c ""))).

Lemma trim_blank c s : blank c = true -> str_trim (String c s) = str_trim s.
Proof. intros [Hc Hw]%andb_prop. unfold str_trim. rewrite chars_ascii by done. cbn. by rewrite Hw. Qed.

Lemma drop_while_snoc {A} (p : A -> bool) l x :
  p x = true -> drop_while p (l ++ [x]) = match drop_while p l with [] => [] | _ => drop_while p l ++ [x] end.
Proof.
  intros Hx. induction l as [|y l IH]; cbn; [by rewrite Hx|]. destruct (p y); [done|done].
Qed.

Lemma trim_blank_end c s : utf8_valid s = true -> blank c = true -> str_trim (s +:+ String c "") = str_trim s.
Proof.
  intros Hs [Hc Hw]%andb_prop. unfold str_trim. rewrite chars_app_valid, chars_ascii by done. cbn [chars].
  rewrite drop_while_snoc by done. destruct (drop_while is_whitespace (chars s)) as [|y l]; [done|].
  rewrite rev_app_distr. cbn [rev app drop_while]. by rewrite Hw.
Qed.

(** Text with ink at the front and a trimmed text at the end is trimmed. *)
Lemma trim_prefixed c a s :
  inked c = true -> is_ascii a = true -> str_trim s = s -> s <> "" ->
  str_trim (String c a +:+ s) = String c a +:+ s.
Proof.
  intros [Hc Hw%negb_true_iff]%andb_prop Ha Hs Hne. destruct (trimmed_chars s Hs) as [_ Hend].
  assert (is_ascii (String c a) = true) as Hca by (cbn; by rewrite Hc).
  unfold str_trim. rewrite chars_app by done. rewrite (chars_ascii c) by done. cbn [app drop_while].
  rewrite Hw. change (?x :: ?l ++ ?k) with ((x :: l) ++ k). rewrite rev_app_distr.
  rewrite drop_while_app_r; [|done|].
  - rewrite <- rev_app_distr, rev_involutive, <- (chars_ascii c), <- chars_app by done.
    apply of_chars_chars.
  - intros Hnil. apply Hne. rewrite <- (of_chars_chars s), <- (rev_involutive (chars s)), Hnil. done.
Qed.

Lemma trim_self c d s :
  inked c = true -> is_ascii s = true -> inked d = true ->
  str_trim (String c (s +:+ String d "")) = String c (s +:+ String d "").
Proof.
  intros Hc Hs Hd. rewrite <- str_app_cons. apply trim_prefixed; [done..| |done].
  apply andb_prop in Hd as [Hd Hw%negb_true_iff]. unfold str_trim. rewrite chars_ascii by done.
  cbn [chars drop_while rev app]. rewrite Hw. cbn. by rewrite Hw.
Qed.

(** ** The fence *)

Definition not_char (c : ascii) (x : ascii) : bool := negb (bool_decide (x = c)).
Definition one_line (s : string) : bool :=
  str_forallb (not_char newline) s && str_forallb (not_char carriage_return) s.

Lemma starts_with_ne c p x s : x <> c -> str_starts_with (String c p) (String x s) = false.
Proof. intros Hne. cbn. by rewrite bool_decide_eq_false_2. Qed.

(** The search passes over a line of ASCII text. *)
Lemma fence_skip a pos rest :
  is_ascii a = true -> one_line a = true -> fence_from pos (a +:+ rest) = fence_from (String.length a + pos) rest.
Proof.
  unfold one_line. revert pos. induction a as [|c a IH]; intros pos; [done|].
  cbn [is_ascii str_forallb]. intros [Hc Ha]%andb_prop [[Hn Hn']%andb_prop [Hr Hr']%andb_prop]%andb_prop.
  apply negb_true_iff, bool_decide_eq_false in Hn, Hr.
  rewrite str_app_cons. cbn [fence_from]. rewrite ascii_not_cont by done.
  change (nl +:+ fence) with (String newline fence).
  change (cr +:+ String newline fence) with (String carriage_return (String newline fence)).
  rewrite !starts_with_ne by done. cbn [andb negb].
  rewrite IH; [|done|by rewrite Hn', Hr']. cbn [String.length]. by rewrite Nat.add_succ_r.
Qed.

Lemma fence_not_here pos c rest :
  c <> "-"%char -> fence_from pos (String newline (String c rest)) = fence_from (S pos) (String c rest).
Proof.
  intros Hc. cbn [fence_from]. change (nl +:+ fence) with (String newline (String "-" "--")).
  change (cr +:+ String newline ?p) with (String carriage_return (String newline p)).
  assert (str_starts_with (String newline (String "-" "--")) (String newline (String c rest)) = false) as ->.
  { cbn. rewrite (bool_decide_eq_false_2 ("-"%char = c)); [done|]. congruence. }
  by rewrite starts_with_ne.
Qed.

Lemma fence_here pos rest :
  fence_from pos (nl +:+ fence +:+ nl +:+ rest) = Ok (Some (pos + 1)).
Proof. done. Qed.

(** ** Lines *)

Lemma split_lines_app a b :
  str_forallb (not_char newline) a = true -> split_lines (a +:+ String newline b) = a :: split_lines b.
Proof.
  induction a as [|c a IH]; cbn [str_forallb].
  - intros _. rewrite str_app_nil_l. cbn. by rewrite bool_decide_eq_true_2.
  - intros [Hc%negb_true_iff Ha]%andb_prop. rewrite str_app_cons. cbn. by rewrite Hc, IH.
Qed.

Lemma str_forallb_drop (f : ascii -> bool) n s : str_forallb f s = true -> str_forallb f (str_drop n s) = true.
Proof.
  revert s. induction n as [|n IH]; intros [|c s]; [done..|]. cbn. intros [_ Hs]%andb_prop. by apply IH.
Qed.

Lemma strip_cr_none s : str_forallb (not_char carriage_return) s = true -> strip_cr s = s.
Proof.
  intros Hs. unfold strip_cr, strip_suffix.
  rewrite (bool_decide_eq_false_2 (str_drop _ s = cr)), andb_false_r; [done|].
  intros Heq. apply (str_forallb_drop _ (String.length s - String.length cr)) in Hs. rewrite Heq in Hs. done.
Qed.

Lemma two_lines a b :
  one_line a = true -> one_line b = true -> str_lines (a +:+ nl +:+ b +:+ nl) = [a; b].
Proof.
  intros [Ha Ha']%andb_prop [Hb Hb']%andb_prop. unfold str_lines, nl. rewrite !str_app_cons, str_app_nil_l.
  rewrite split_lines_app by done. rewrite split_lines_app by done. cbn [terminated_lines split_lines].
  by rewrite !strip_cr_none.
Qed.

Lemma forallb_line f a b :
  str_forallb f a = true -> str_forallb f b = true -> str_forallb f (a +:+ b) = true.
Proof. intros Ha Hb. by rewrite str_forallb_app, Ha, Hb. Qed.

Lemma one_line_app a b : one_line a = true -> one_line b = true -> one_line (a +:+ b) = true.
Proof.
  intros [Ha Ha']%andb_prop [Hb Hb']%andb_prop. unfold one_line. by rewrite !forallb_line.
Qed.

Lemma is_ascii_app a b : is_ascii a = true -> is_ascii b = true -> is_ascii (a +:+ b) = true.
Proof. apply forallb_line. Qed.

(** ** Quotes and brackets *)

Lemma trim_end_app c s d : d <> c -> trim_end_char c (s +:+ String d "") = s +:+ String d "".
Proof.
  intros Hne. induction s as [|a s IH].
  - rewrite str_app_nil_l. cbn. by rewrite bool_decide_eq_false_2.
  - rewrite str_app_cons. cbn. rewrite IH. by destruct s.
Qed.

Lemma trim_end_same c s : trim_end_char c (s +:+ String c "") = trim_end_char c s.
Proof.
  induction s as [|a s IH].
  - rewrite str_app_nil_l. cbn. by rewrite bool_decide_eq_true_2.
  - rewrite str_app_cons. cbn. by rewrite IH.
Qed.

Lemma trim_start_length c s : String.length (trim_start_char c s) <= String.length s.
Proof. induction s as [|a s IH]; cbn; [lia|]. case_bool_decide; cbn; lia. Qed.
Lemma trim_end_length c s : String.length (trim_end_char c s) <= String.length s.
Proof.
  induction s as [|a s IH]; cbn; [lia|]. destruct (trim_end_char c s); [case_bool_decide; cbn; lia|].
  cbn in *. lia.
Qed.

Lemma trim_char_id c s : trim_char c s = s -> trim_start_char c s = s /\ trim_end_char c s = s.
Proof.
  unfold trim_char. intros Heq.
  assert (trim_start_char c s = s) as Hs.
  { destruct s as [|a s]; [done|]. cbn in *. case_bool_decide; [|done].
    pose proof (f_equal String.length Heq) as Hl. pose proof (trim_end_length c (trim_start_char c s)).
    pose proof (trim_start_length c s). cbn in Hl. lia. }
  split; [done|]. by rewrite Hs in Heq.
Qed.

(** What keeps a tag, or a title, as it is through the editor. *)
Record plain_text (t : string) : Prop := {
  pt_ascii : is_ascii t = true;
  pt_line : one_line t = true;
  pt_trim : str_trim t = t;
  pt_quotes : unquote t = t;
  pt_some : t <> ""
}.

Section facts.
Context `{NoteLib}.

Record plain_tag (t : string) : Prop := {
  tag_plain : plain_text t;
  tag_lower : to_lowercase t = t;
  tag_comma : str_forallb (not_char ",") t = true;
  tag_open : trim_char "[" t = t;
  tag_close : trim_char "]" t = t
}.

Lemma trim_start_app c a b : a <> "" -> trim_start_char c a = a -> trim_start_char c (a +:+ b) = a +:+ b.
Proof.
  destruct a as [|x a]; [done|]. intros _ Ha. rewrite str_app_cons. cbn in *.
  case_bool_decide; [|done]. pose proof (trim_start_length c a) as Hl.
  apply (f_equal String.length) in Ha. cbn in Ha. lia.
Qed.
Lemma trim_end_prefix c a b : b <> "" -> trim_end_char c b = b -> trim_end_char c (a +:+ b) = a +:+ b.
Proof.
  intros Hb Heq. induction a as [|x a IH]; [done|]. rewrite str_app_cons. cbn. rewrite IH.
  destruct a; [|done]. rewrite str_app_nil_l. by destruct b.
Qed.

Abbreviation joined tags := (str_join ", " tags).

Lemma joined_cons t u r : joined (t :: u :: r) = t +:+ ", " +:+ joined (u :: r).
Proof. done. Qed.

Lemma joined_trim c t tags :
  (forall x, x ∈ t :: tags -> x <> "" /\ trim_char c x = x) ->
  joined (t :: tags) <> "" /\ trim_start_char c (joined (t :: tags)) = joined (t :: tags)
  /\ trim_end_char c (joined (t :: tags)) = joined (t :: tags).
Proof.
  revert t. induction tags as [|u tags IH]; intros t Hall.
  - destruct (Hall t (list_elem_of_here _ _)) as [? [? ?]%trim_char_id]. done.
  - destruct (Hall t (list_elem_of_here _ _)) as [Hne [Hs _]%trim_char_id].
    destruct (IH u) as (Hne' & _ & He'); [intros x Hx; apply Hall; by right|].
    rewrite joined_cons. split_and!.
    + by destruct t.
    + by apply trim_start_app.
    + apply (trim_end_prefix c t); [by destruct (joined (u :: tags))|].
      by apply (trim_end_prefix c ", ").
Qed.

Lemma split_joined sp t tags :
  sp = "" \/ sp = " " -> Forall plain_tag (t :: tags) ->
  map (fun x => to_lowercase (unquote (str_trim x))) (str_split "," (sp +:+ joined (t :: tags))) = t :: tags.
Proof.
  revert sp t. induction tags as [|u tags IH]; intros sp t Hsp Hall.
  - inversion Hall as [|? ? [Hp Hl Hc _ _] _]; subst. cbn [str_join].
    assert (str_forallb (fun x => negb (bool_decide (x = ","%char))) (sp +:+ t) = true) as Hno.
    { apply forallb_line; [by destruct Hsp; subst|exact Hc]. }
    rewrite str_split_none by exact Hno. cbn. assert (str_trim (sp +:+ t) = t) as ->.
    { destruct Hsp as [-> | ->]; [apply Hp|]. change (" " +:+ t) with (String " " t).
      rewrite trim_blank by done. apply Hp. }
    by rewrite (pt_quotes _ Hp), Hl.
  - inversion Hall as [|? ? [Hp Hl Hc _ _] Hrest]; subst. rewrite joined_cons.
    assert (str_forallb (fun x => negb (bool_decide (x = ","%char))) (sp +:+ t) = true) as Hno.
    { apply forallb_line; [by destruct Hsp; subst|exact Hc]. }
    change (t +:+ ", " +:+ joined (u :: tags)) with (t +:+ String "," (" " +:+ joined (u :: tags))).
    rewrite <- str_app_assoc, str_split_app by exact Hno. cbn [map]. rewrite IH by (auto).
    assert (str_trim (sp +:+ t) = t) as ->.
    { destruct Hsp as [-> | ->]; [apply Hp|]. change (" " +:+ t) with (String " " t).
      rewrite trim_blank by done. apply Hp. }
    by rewrite (pt_quotes _ Hp), Hl.
Qed.

Definition tags_text (tags : list string) : string :=
  if bool_decide (tags = []) then "[]" else "[" +:+ joined tags +:+ "]".

Lemma joined_forallb f tags :
  f ","%char = true -> f " "%char = true -> Forall (fun t => str_forallb f t = true) tags ->
  str_forallb f (joined tags) = true.
Proof.
  intros Hc Hs. induction tags as [|t [|u tags] IH]; intros Hall; [done|by inversion Hall|].
  inversion Hall; subst. rewrite joined_cons. apply forallb_line; [done|].
  apply forallb_line; [cbn; by rewrite Hc, Hs|]. by apply IH.
Qed.

Lemma parse_tags_text tags :
  to_lowercase "" = "" -> Forall plain_tag tags -> parse_tags (" " +:+ tags_text tags) = tags.
Proof.
  intros Hempty Hall. unfold parse_tags. change (" " +:+ ?x) with (String " " x). rewrite trim_blank by done.
  destruct tags as [|t tags].
  { assert (str_split "," (trim_char "]" (trim_char "[" (str_trim (tags_text [])))) = [""]) as -> by done.
    cbn [map]. assert (unquote (str_trim "") = "") as -> by done. by rewrite Hempty. }
  unfold tags_text. rewrite bool_decide_eq_false_2 by done.
  assert (is_ascii (joined (t :: tags)) = true) as Hasc.
  { apply joined_forallb; [done..|]. eapply Forall_impl; [exact Hall|]. intros x Hx. apply Hx. }
  change ("[" +:+ ?x) with (String "[" x). rewrite trim_self by done.
  assert (forall x, x ∈ t :: tags -> plain_tag x) as Hin by (by apply Forall_forall).
  destruct (joined_trim "[" t tags) as (Hne & Hs & _).
  { intros x Hx. destruct (Hin x Hx). split; [apply tag_plain0|done]. }
  destruct (joined_trim "]" t tags) as (_ & Hs' & He').
  { intros x Hx. destruct (Hin x Hx). split; [apply tag_plain0|done]. }
  assert (trim_char "[" (String "[" (joined (t :: tags) +:+ "]")) = joined (t :: tags) +:+ "]") as ->.
  { unfold trim_char. cbn [trim_start_char]. rewrite bool_decide_eq_true_2 by done.
    rewrite trim_start_app by done. by rewrite trim_end_app. }
  assert (trim_char "]" (joined (t :: tags) +:+ "]") = joined (t :: tags)) as ->.
  { unfold trim_char. rewrite trim_start_app by done. by rewrite trim_end_same. }
  pose proof (split_joined "" t tags (or_introl eq_refl) Hall) as Hsplit. rewrite str_app_nil_l in Hsplit.
  rewrite Hsplit. apply List.forallb_filter_id. apply List.forallb_forall. intros x Hx%list_elem_of_In.
  apply negb_true_iff, bool_decide_eq_false. apply (Hin x Hx).
Qed.

Lemma line_title acc title :
  plain_text title -> parse_line acc ("title: " +:+ title) = (title, acc.2).
Proof.
  intros Hp. unfold parse_line. change ("title: " +:+ title) with (String "t" "itle: " +:+ title).
  rewrite trim_prefixed by (done || apply Hp).
  change (String "t" "itle: " +:+ title) with ("title:" +:+ String " " title).
  rewrite strip_prefix_app, trim_blank by done. rewrite (pt_trim _ Hp), (pt_quotes _ Hp).
  rewrite bool_decide_eq_false_2; [done|apply Hp].
Qed.

Lemma tags_text_shape tags :
  Forall plain_tag tags ->
  exists mid, tags_text tags = String "[" (mid +:+ "]") /\ is_ascii mid = true /\ one_line (tags_text tags) = true.
Proof.
  intros Hall. unfold tags_text. case_bool_decide as Hnil; [by exists ""|].
  assert (forall f, f ","%char = true -> f " "%char = true ->
    (forall t, plain_tag t -> str_forallb f t = true) -> str_forallb f (joined tags) = true) as Hf.
  { intros f Hc Hs Ht. apply joined_forallb; [done..|]. eapply Forall_impl; [exact Hall|]. exact Ht. }
  exists (joined tags). split_and!; [done|..].
  - apply Hf; [done..|]. intros t Ht. apply Ht.
  - apply (one_line_app "["); [done|]. apply one_line_app; [|done]. unfold one_line.
    rewrite !Hf; [done|done|done| |done|done|]; intros t [[_ Hl _ _ _] _ _ _ _];
      by apply andb_prop in Hl as [? ?].
Qed.

Lemma line_tags acc tags :
  to_lowercase "" = "" -> Forall plain_tag tags -> parse_line acc ("tags: " +:+ tags_text tags) = (acc.1, tags).
Proof.
  intros Hempty Hall. destruct (tags_text_shape tags Hall) as (mid & Heq & Hmid & _).
  unfold parse_line. assert (str_trim ("tags: " +:+ tags_text tags) = "tags: " +:+ tags_text tags) as ->.
  { rewrite Heq. change ("tags: " +:+ String "[" (mid +:+ "]")) with (String "t" (("ags: [" +:+ mid) +:+ "]")).
    apply trim_self; [done| |done]. by apply is_ascii_app. }
  assert (strip_prefix "title:" ("tags: " +:+ tags_text tags) = None) as -> by done.
  change ("tags: " +:+ tags_text tags) with ("tags:" +:+ (" " +:+ tags_text tags)).
  rewrite strip_prefix_app. by rewrite parse_tags_text.
Qed.

Abbreviation header title tags := (("title: " +:+ title) +:+ nl +:+ ("tags: " +:+ tags_text tags) +:+ nl).

Lemma buffer_eq title tags body :
  note_to_edit_buffer title tags body
  = fence +:+ nl +:+ header title tags +:+ fence +:+ nl +:+ nl +:+ body +:+ nl.
Proof. unfold note_to_edit_buffer, tags_text. by rewrite !str_app_assoc. Qed.

(** What [parse_edit_buffer] does with the text behind the opening fence. *)
Lemma parse_opened rest dt dtags :
  parse_edit_buffer (fence +:+ nl +:+ rest) dt dtags =
  (found ← find_closing_fence rest;
   match found with
   | Some closing_pos =>
       let '(title, tags) := fold_left parse_line (str_lines (str_take closing_pos rest)) (dt, dtags) in
       Ok (mkParsedEdit title tags (str_trim (str_drop (closing_pos + 3) rest)))
   | None => Ok (parse_plain (fence +:+ nl +:+ rest) dt dtags)
   end).
Proof.
  unfold parse_edit_buffer.
  assert (str_trim_start (fence +:+ nl +:+ rest) = fence +:+ nl +:+ rest) as ->.
  { unfold str_trim_start. change (fence +:+ nl +:+ rest) with (String "-" ("--" +:+ nl +:+ rest)).
    rewrite chars_ascii by done. cbn [drop_while]. rewrite <- chars_ascii by done. apply of_chars_chars. }
  rewrite strip_prefix_app. assert (strip_prefix (cr +:+ nl) (nl +:+ rest) = None) as -> by done.
  by rewrite strip_prefix_app.
Qed.

Lemma title_line title : plain_text title -> is_ascii ("title: " +:+ title) = true /\ one_line ("title: " +:+ title) = true.
Proof. intros Hp. split; [apply is_ascii_app|apply one_line_app]; done || apply Hp. Qed.

(** What the editor is given is read back unchanged: for a title and tags of
    plain ASCII text on one line (no surrounding white space, quotes or brackets,
    no commas in tags, tags in lower case) and any trimmed body, whatever the
    defaults. *)
Lemma edit_buffer_roundtrip title tags body dt dtags :
  to_lowercase "" = "" -> plain_text title -> Forall plain_tag tags ->
  utf8_valid body = true -> str_trim body = body ->
  parse_edit_buffer (note_to_edit_buffer title tags body) dt dtags = Ok (mkParsedEdit title tags body).
Proof.
  intros Hempty Ht Htags Hvalid Htrim. rewrite buffer_eq, parse_opened.
  destruct (title_line title Ht) as [Ha1 Hl1]. destruct (tags_text_shape tags Htags) as (mid & Heq & Hmid & Hline).
  assert (is_ascii ("tags: " +:+ tags_text tags) = true) as Ha2.
  { rewrite Heq. by repeat apply is_ascii_app. }
  assert (one_line ("tags: " +:+ tags_text tags) = true) as Hl2 by (by apply one_line_app).
  set (tail := fence +:+ nl +:+ nl +:+ body +:+ nl).
  assert (find_closing_fence (header title tags +:+ tail)
    = Ok (Some (String.length (header title tags)))) as ->.
  { assert (header title tags +:+ tail
      = ("title: " +:+ title) +:+ String newline (("tags: " +:+ tags_text tags) +:+ nl +:+ tail)) as ->.
    { rewrite !str_app_assoc. unfold nl. by rewrite !str_app_cons, !str_app_nil_l. }
    unfold find_closing_fence. rewrite fence_skip by done.
    change (("tags: " +:+ tags_text tags) +:+ ?y) with (String "t" (("ags: " +:+ tags_text tags) +:+ y)) at 1.
    rewrite fence_not_here by done.
    change (String "t" (("ags: " +:+ tags_text tags) +:+ ?y)) with (("tags: " +:+ tags_text tags) +:+ y).
    rewrite fence_skip by done. unfold tail. rewrite fence_here. do 2 f_equal.
    rewrite !str_length_app. cbn. lia. }
  cbn [mbind Result_bind]. rewrite str_take_app by done. rewrite two_lines by done. cbn [fold_left].
  rewrite line_title, line_tags by done. cbn [fst snd]. do 2 f_equal.
  unfold tail. generalize (header title tags) as h. intros h.
  rewrite <- str_app_assoc, str_drop_app by (rewrite str_length_app; cbn; lia).
  unfold nl. rewrite !str_app_cons, !str_app_nil_l, !trim_blank by done. by rewrite trim_blank_end.
Qed.

(** A valid text that is not ASCII has, after ASCII text, a byte and a
    continuation byte. *)
Lemma first_wide s :
  utf8_valid s = true -> is_ascii s = false ->
  exists a b c r, s = a +:+ String b (String c r) /\ is_ascii a = true /\ is_ascii_byte b = false /\ is_cont c = true.
Proof.
  induction s as [|x s IH]; [done|]. cbn [utf8_valid is_ascii str_forallb]. destruct (in_range 0 127 x) eqn:Hx.
  - assert (is_ascii_byte x = true) as Hasc.
    { unfold in_range, is_ascii_byte in *. apply andb_prop in Hx as [_ Hx%N.leb_le]. apply N.ltb_lt. lia. }
    rewrite Hasc. cbn [andb]. intros Hv Hn. destruct (IH Hv Hn) as (a & b & c & r & -> & Ha & Hb & Hc).
    exists (String x a), b, c, r. split_and!; [done| |done..]. cbn. by rewrite Hasc.
  - assert (is_ascii_byte x = false) as Hasc.
    { unfold in_range, is_ascii_byte in *. apply andb_false_iff in Hx as [Hx|Hx]; apply N.leb_gt in Hx; [lia|].
      apply N.ltb_ge. lia. }
    intros Hv _. destruct s as [|b s]; [done|]. exists "", x, b, s. split_and!; [done..|].
    destruct (in_range 194 223 x); [by apply andb_prop in Hv as [? _]|]. destruct s as [|c s]; [done|].
    assert (forall lo hi, (128 <= lo)%N -> (hi <= 191)%N -> in_range lo hi b = true -> is_cont b = true) as Hr.
    { intros lo hi ? ? Hin. unfold is_cont, in_range in *. apply andb_prop in Hin as [?%N.leb_le ?%N.leb_le].
      apply andb_true_iff. split; apply N.leb_le; lia. }
    destruct (in_range 224 239 x).
    + apply andb_prop in Hv as [[Hv _]%andb_prop _]. repeat case_match; try done; (eapply Hr; [| |exact Hv]; lia).
    + destruct s as [|d s]; [done|]. apply andb_prop in Hv as [[[[_ Hv]%andb_prop _]%andb_prop _]%andb_prop _].
      repeat case_match; try done; (eapply Hr; [| |exact Hv]; lia).
Qed.

(** A title that is not ASCII cannot be edited: reading back the text written
    for the editor, unchanged, panics while looking for the closing fence, for
    every one-line title with a character outside ASCII. *)
Lemma non_ascii_title_panics title tags body dt dtags :
  utf8_valid title = true -> one_line title = true -> is_ascii title = false ->
  parse_edit_buffer (note_to_edit_buffer title tags body) dt dtags = Err Panicked.
Proof.
  intros Hv Hl Hn. destruct (first_wide title Hv Hn) as (a & b & c & r & -> & Ha & Hb & Hc).
  rewrite buffer_eq, parse_opened.
  assert (one_line a = true /\ one_line (String b "") = true) as [Hla Hlb].
  { unfold one_line in *. rewrite !str_forallb_app in Hl. cbn in *.
    repeat match goal with H : _ && _ = true |- _ => apply andb_prop in H as [? ?] end.
    split; repeat (apply andb_true_intro; split); done. }
  unfold find_closing_fence.
  assert (forall rest, fence_from 0 (("title: " +:+ a) +:+ String b (String c rest)) = Err Panicked) as Hpanic.
  { intros rest. rewrite fence_skip by (by apply is_ascii_app || by apply one_line_app).
    apply andb_prop in Hlb as [[Hbn _]%andb_prop [Hbr _]%andb_prop].
    apply negb_true_iff, bool_decide_eq_false in Hbn, Hbr. cbn [fence_from].
    destruct (is_cont b); [done|]. change (nl +:+ fence) with (String newline fence).
    change (cr +:+ nl +:+ fence) with (String carriage_return (String newline fence)).
    change (cr +:+ String newline fence) with (String carriage_return (String newline fence)).
    rewrite !starts_with_ne by done. cbn [andb negb]. by rewrite Hc. }
  assert (forall x, ("title: " +:+ a +:+ String b (String c r)) +:+ x
    = ("title: " +:+ a) +:+ String b (String c (r +:+ x))) as Happ.
  { intros x. by rewrite !str_app_assoc, !str_app_cons. }
  rewrite (str_app_assoc ("title: " +:+ a +:+ String b (String c r))), Happ, Hpanic. done.
Qed.
End facts.
