(* ===== verification/CliNotes.v ===== *)
(** * Client services on notes and conflicts ([apps/cli/src/client/notes.rs],
      [conflicts.rs], [vault.rs])

    What the command line and the terminal interface do with the local vault.  The
    parts that work on an open database are written over any storage backend; the
    whole services add recovery, the check that the vault exists and opening the
    database, over the file system of [Files.v]. *)

From stdpp Require Import options.
From stdpp Require Import gmap.
From S2P Require Import Prelude Sorting Protocol StorageModels Storage CoreErrors Time Env Queue Text Diff3 Crypto Note.
From S2P Require Import Vault Search Merge Conflict Files CliSession VaultFiles.

(** ** What the services answer *)

Record ClientNoteSummary : Type := mkNoteSummary {
  ns_id : string;
  ns_title : string;
  ns_tags : list string;
  ns_updated_at : string;
  ns_created_at : string;
  ns_revision : N;
  ns_is_deleted : bool
}.

Record ClientNoteDetail : Type := mkNoteDetail {
  nd_id : string;
  nd_title : string;
  nd_body : string;
  nd_tags : list string;
  nd_created_at : string;
  nd_updated_at : string;
  nd_revision : N;
  nd_is_deleted : bool
}.

Record ClientConflictSummary : Type := mkConflictSummary {
  cs_conflict_id : string;
  cs_object_id : string;
  cs_object_kind : N;
  cs_base_revision : N;
  cs_remote_revision : N;
  cs_resolved : bool;
  cs_remote_is_deleted : bool;
  cs_local_is_deleted : bool;
  cs_conflict_type : string;
  cs_created_at : string;
  cs_resolved_at : option string;
  cs_title : string
}.

Record ClientConflictDetail : Type := mkConflictDetail {
  cd_conflict_id : string;
  cd_object_id : string;
  cd_base_revision : N;
  cd_remote_revision : N;
  cd_resolved : bool;
  cd_remote_is_deleted : bool;
  cd_local_is_deleted : bool;
  cd_conflict_type : string;
  cd_local_note : option PlaintextNote;
  cd_remote_note : option PlaintextNote;
  cd_candidate_note : option PlaintextNote
}.

Inductive SyncStatus : Type :=
| SS_Offline
| SS_Blocked (e : LinkError)
| SS_Restoring
| SS_Idle
| SS_Syncing
| SS_Synced (accepted : nat)
| SS_Conflict (conflict_count : nat)
| SS_Error (msg : string).
#[export] Instance SyncStatus_eq_dec : EqDecision SyncStatus.
Proof. solve_decision. Defined.

Inductive ClientAuthState : Type :=
| LocalOnly
| Unverified (server_url account_id device_id : string) (session_id expires_at : option string)
| Authenticated (server_url account_id device_id : string) (session_id expires_at : option string)
| Offline (server_url account_id device_id : string) (session_id : option string) (error : string)
| Expired (server_url account_id device_id : string) (session_id : option string)
| Revoked (server_url account_id device_id : string) (session_id : option string)
| AuthStateError (server_url error : string).

Definition is_local_only (s : ClientAuthState) : bool :=
  match s with LocalOnly => true | _ => false end.
Definition is_unverified (s : ClientAuthState) : bool :=
  match s with Unverified _ _ _ _ _ => true | _ => false end.

Definition auth_server_url (s : ClientAuthState) : option string :=
  match s with
  | LocalOnly => None
  | Unverified u _ _ _ _ | Authenticated u _ _ _ _ | Offline u _ _ _ _ | Expired u _ _ _
  | Revoked u _ _ _ | AuthStateError u _ => Some u
  end.

Definition auth_account_id (s : ClientAuthState) : option string :=
  match s with
  | Unverified _ a _ _ _ | Authenticated _ a _ _ _ | Offline _ a _ _ _ | Expired _ a _ _
  | Revoked _ a _ _ => Some a
  | _ => None
  end.

Record StoredAuthSession : Type := mkStoredAuthSession {
  as_server_url : string;
  as_account_id : string;
  as_device_id : string;
  as_session_id : option string;
  as_token : string;
  as_expires_at : option string
}.

Record AgentIdentity : Type := mkAgentIdentity {
  ai_fingerprint : string;
  ai_comment : string
}.

(** [client/vault_link.rs] *)
Record VaultLink : Type := mkVaultLink {
  vl_format_version : N;
  vl_server_origin : string;
  vl_account_id : string;
  vl_vault_fingerprint : string
}.

Record UnsyncedCounts : Type := mkUnsyncedCounts {
  uc_pending : nat;
  uc_in_flight : nat;
  uc_failed : nat;
  uc_conflicts : nat;
  uc_unconfirmed_objects : nat
}.

Record ReplacePreflight : Type := mkReplacePreflight {
  rp_current_link : option VaultLink;
  rp_current_fingerprint : option string;
  rp_target_link : VaultLink;
  rp_counts : UnsyncedCounts;
  rp_bootstrap : VaultBootstrap;
  rp_auth : StoredAuthSession
}.

Record VaultInspection : Type := mkVaultInspection {
  vi_local_fingerprint : option string;
  vi_link : option VaultLink;
  vi_status : string;
  vi_remote_fingerprint : option string
}.

Inductive UnlockSecret : Type := Passphrase (p : string) | RecoveryKey (k : string).

(** [client/vault.rs] *)
Inductive VaultState : Type :=
| VS_Uninitialized
| VS_Locked
| VS_Unlocked (auto_lock_info : option SessionInfo).


(** [constants.rs] *)
Definition INITIAL_EXPECTED_REVISION : N := 0.
Definition INITIAL_OBJECT_REVISION : N := 1.
Definition INITIAL_SERVER_SEQ : N := 0.

(** ** On an open database *)

Section on_db.
Context {S : Type} `{LocalStorage S} `{!Env} `{CryptoLib} `{NoteLib} `{SearchLib}.
Abbreviation N_ A := (M (Local S) CliError A).
Abbreviation store op := (on_store Cli_Storage op).

Definition MIN_PREFIX : nat := 4.

(** The error of a prefix that several records share. *)
Definition ambiguous (what : string) (id : string) (n : nat) : CliError :=
  Io ("ambiguous " +:+ what +:+ " id prefix '" +:+ id +:+ "' matches " +:+ show_N (N.of_nat n) +:+ " " +:+ what +:+ "s").

Definition note_filter (include_deleted : bool) : ObjectFilter := mkObjectFilter (Some OBJECT_KIND_NOTE) include_deleted.

Definition refuse_deleted (include_deleted : bool) (obj : StoredEncryptedObject) : N_ StoredEncryptedObject :=
  if obj_is_deleted obj && negb include_deleted then throw (NoteAlreadyDeleted (obj_object_id obj)) else mret obj.

(** The search by prefix, after the exact identifier was not a note's. *)
Definition find_by_prefix (note_id : string) (include_deleted : bool) : N_ StoredEncryptedObject :=
  all ← store (list_objects (note_filter include_deleted));
  let matches := List.filter (fun o => str_starts_with note_id (obj_object_id o)) all in
  match matches with
  | [obj] => refuse_deleted include_deleted obj
  | _ :: _ :: _ => throw (ambiguous "note" note_id (length matches))
  | [] =>
      _ ← (if include_deleted then mret tt
           else
             all_deleted ← store (list_objects (note_filter true));
             match List.filter (fun o => str_starts_with note_id (obj_object_id o) && obj_is_deleted o)
                     all_deleted with
             | d :: _ => throw (NoteAlreadyDeleted (obj_object_id d))
             | [] => mret tt
             end);
      throw (NoteNotFound note_id)
  end.

Definition find_note_object (note_id : string) (include_deleted : bool) : N_ StoredEncryptedObject :=
  stored_opt ← store (get_object note_id);
  match stored_opt with
  | Some obj =>
      if (obj_object_kind obj =? OBJECT_KIND_NOTE)%N then refuse_deleted include_deleted obj
      else if (MIN_PREFIX <=? String.length note_id)%nat then find_by_prefix note_id include_deleted
      else throw (NoteNotFound note_id)
  | None =>
      if (MIN_PREFIX <=? String.length note_id)%nat then find_by_prefix note_id include_deleted
      else throw (NoteNotFound note_id)
  end.

(** The line of one object in a listing; [None] when the tag filter skips it. *)
Definition summary_of (vault_key : string) (tag_filter : option string) (obj : StoredEncryptedObject)
    : option ClientNoteSummary :=
  match decrypt (obj_envelope obj) vault_key with
  | Ok note =>
      let skipped :=
        match tag_filter with
        | Some target_tag => negb (existsb (fun t => bool_decide (t = to_lowercase (str_trim target_tag))) (n_tags note))
        | None => false
        end in
      if skipped then None
      else Some (mkNoteSummary (obj_object_id obj) (n_title note) (n_tags note) (n_updated_at note)
                   (n_created_at note) (obj_revision obj) (obj_is_deleted obj))
  | Err _ =>
      Some (mkNoteSummary (obj_object_id obj) "[Decryption failed: corrupted envelope or wrong key]" [] "" ""
              (obj_revision obj) (obj_is_deleted obj))
  end.

Definition newest_first (a b : ClientNoteSummary) : comparison :=
  String.compare (ns_updated_at b) (ns_updated_at a).

Definition list_notes_db (vault_key : string) (include_deleted : bool) (tag_filter : option string)
    : N_ (list ClientNoteSummary) :=
  stored_objects ← store (list_objects (note_filter include_deleted));
  mret (sort_by newest_first (omap (summary_of vault_key tag_filter) stored_objects)).

Definition get_plaintext_note_db (vault_key id_or_prefix : string) : N_ (StoredEncryptedObject * PlaintextNote) :=
  obj ← find_note_object id_or_prefix false;
  note ← lift_result (result_map_err cli_of_core (decrypt (obj_envelope obj) vault_key));
  mret (obj, note).

Definition detail_of (p : StoredEncryptedObject * PlaintextNote) : ClientNoteDetail :=
  let '(obj, note) := p in
  mkNoteDetail (obj_object_id obj) (n_title note) (n_body note) (n_tags note) (n_created_at note)
    (n_updated_at note) (obj_revision obj) (obj_is_deleted obj).

(** [NoteBuilder::new()..build()?] and [canonicalize()] *)
Definition build_note (title body : string) (tags : list string) (created_at : option string) : N_ PlaintextNote :=
  t ← now;
  note ← lift_result (result_map_err cli_of_validation
           (NoteBuilder_build t (mkNoteBuilder None title body tags created_at None [])));
  mret (canonicalize note).

Definition upsert_of (mutation_id object_id : string) (mutation_type : MutationType) (expected_revision : N)
    (envelope : EncryptedEnvelope) (now : string) : PendingMutation :=
  mkPendingMutation mutation_id object_id expected_revision OBJECT_KIND_NOTE mutation_type envelope now 0 Pending.

(** Between building the note and opening the database. *)
Definition seal_new_note (vault_key title body : string) (tags : list string)
    : N_ (string * EncryptedEnvelope * string) :=
  note ← build_note title body tags None;
  object_id ← new_uuid;
  envelope ← on_rng cli_of_core (encrypt note vault_key object_id);
  now ← now;
  mret (object_id, envelope, now).

Definition store_new_note (object_id : string) (envelope : EncryptedEnvelope) (now : string) : N_ string :=
  _ ← store (put_object (mkStoredObject object_id OBJECT_KIND_NOTE INITIAL_OBJECT_REVISION INITIAL_SERVER_SEQ
                           false envelope now));
  mutation_id ← new_uuid;
  _ ← store (enqueue_mutation (upsert_of mutation_id object_id Upsert INITIAL_EXPECTED_REVISION envelope now));
  mret object_id.

Definition update_note_db (vault_key id_or_prefix title body : string) (tags : list string) : N_ N :=
  stored ← find_note_object id_or_prefix false;
  prior_note ← lift_result (result_map_err cli_of_core (decrypt (obj_envelope stored) vault_key));
  note ← build_note title body tags (Some (n_created_at prior_note));
  _ ← store (put_base_version (obj_object_id stored) (obj_revision stored) (obj_envelope stored));
  let new_revision := u64_add (obj_revision stored) 1 in
  envelope ← on_rng cli_of_core (encrypt note vault_key (obj_object_id stored));
  now ← now;
  _ ← store (put_object (mkStoredObject (obj_object_id stored) OBJECT_KIND_NOTE new_revision
                           (obj_server_seq stored) false envelope now));
  mutation_id ← new_uuid;
  _ ← store (enqueue_mutation (upsert_of mutation_id (obj_object_id stored) Upsert (obj_revision stored) envelope now));
  mret new_revision.

Definition delete_note_db (id_or_prefix : string) (purge : bool) : N_ (string * N) :=
  stored ← find_note_object id_or_prefix purge;
  if purge then
    _ ← store (purge_object (obj_object_id stored));
    _ ← store (clear_base_versions (obj_object_id stored));
    mret (obj_object_id stored, obj_revision stored)
  else
    let prior_revision := obj_revision stored in
    let tombstone_revision := u64_add prior_revision 1 in
    now ← now;
    _ ← store (put_base_version (obj_object_id stored) prior_revision (obj_envelope stored));
    _ ← store (mark_deleted (obj_object_id stored) tombstone_revision (obj_envelope stored) now);
    mutation_id ← new_uuid;
    _ ← store (enqueue_mutation
                 (upsert_of mutation_id (obj_object_id stored) Delete prior_revision (obj_envelope stored) now));
    mret (obj_object_id stored, tombstone_revision).

Definition index_object (vault_key : string) (index : InMemorySearchIndex) (obj : StoredEncryptedObject)
    : InMemorySearchIndex :=
  match decrypt (obj_envelope obj) vault_key with
  | Ok note => Index.insert (obj_object_id obj) note index
  | Err _ => index
  end.

Definition search_notes_db (vault_key query : string) : N_ (list SearchResult) :=
  stored_objects ← store (list_objects (note_filter false));
  mret (Index.search query (fold_left (index_object vault_key) stored_objects [])).

(** *** Conflicts *)

Definition find_conflict_record (conflict_id : string) : N_ ConflictRecord :=
  exact ← store (get_conflict conflict_id);
  match exact with
  | Some record => mret record
  | None =>
      if (MIN_PREFIX <=? String.length conflict_id)%nat then
        all ← store (list_conflicts None);
        let matches := List.filter (fun c => str_starts_with conflict_id (cr_conflict_id c)) all in
        match matches with
        | [record] => mret record
        | _ :: _ :: _ => throw (ambiguous "conflict" conflict_id (length matches))
        | [] => throw (ConflictNotFound conflict_id)
        end
      else throw (ConflictNotFound conflict_id)
  end.

(** The version whose title a listing shows. *)
Definition shown_envelope (c : ConflictRecord) : EncryptedEnvelope :=
  if cr_remote_is_deleted c then cr_local_envelope c
  else if cr_local_is_deleted c then cr_remote_envelope c
  else default (cr_local_envelope c) (cr_candidate_envelope c).

Definition conflict_title (vault_key : option string) (c : ConflictRecord) : string :=
  match vault_key with
  | Some key => match decrypt (shown_envelope c) key with Ok n => n_title n | Err _ => "[decryption error]" end
  | None => "[locked]"
  end.

Definition conflict_summary (vault_key : option string) (c : ConflictRecord) : ClientConflictSummary :=
  mkConflictSummary (cr_conflict_id c) (cr_object_id c) (cr_object_kind c) (cr_base_revision c)
    (cr_remote_revision c) (cr_resolved c) (cr_remote_is_deleted c) (cr_local_is_deleted c)
    (conflict_type_str c) (cr_created_at c) (cr_resolved_at c) (conflict_title vault_key c).

Definition list_conflicts_db (vault_key : option string) (include_resolved : bool)
    : N_ (list ClientConflictSummary) :=
  raw_conflicts ← store (list_conflicts (if include_resolved then None else Some false));
  mret (conflict_summary vault_key <$> raw_conflicts).

(** [PlaintextNote::decrypt(env, key).ok()] *)
Definition opened (vault_key : string) (envelope : EncryptedEnvelope) : option PlaintextNote :=
  match decrypt envelope vault_key with Ok n => Some n | Err _ => None end.

Definition get_conflict_detail_db (vault_key conflict_id : string) : N_ ClientConflictDetail :=
  record ← find_conflict_record conflict_id;
  let local_note :=
    if cr_local_is_deleted record then None else opened vault_key (cr_local_envelope record) in
  let remote_note :=
    if cr_remote_is_deleted record then None else opened vault_key (cr_remote_envelope record) in
  candidate_note ←
    (if cr_remote_is_deleted record || cr_local_is_deleted record then mret None
     else match cr_candidate_envelope record with
          | Some cand_env => mret (opened vault_key cand_env)
          | None =>
              r ← attempt (Conflict.generate_merge_candidate (cr_base_envelope record)
                             (cr_local_envelope record) (cr_remote_envelope record) vault_key);
              mret (match r with Ok p => Some (mo_candidate p.1) | Err _ => None end)
          end);
  mret (mkConflictDetail (cr_conflict_id record) (cr_object_id record) (cr_base_revision record)
          (cr_remote_revision record) (cr_resolved record) (cr_remote_is_deleted record)
          (cr_local_is_deleted record) (conflict_type_str record) local_note remote_note candidate_note).

Definition resolve_conflict_item_db (vault_key conflict_id : string) (strategy : ConflictResolutionStrategy)
    : N_ ConflictResolutionResult :=
  conflict ← find_conflict_record conflict_id;
  if cr_resolved conflict then throw (ConflictAlreadyResolved (cr_conflict_id conflict))
  else map_err cli_of_queue (Conflict.resolve_conflict vault_key (cr_conflict_id conflict) strategy).
End on_db.

(** ** On the data directory *)

(** serde_json on [VaultBootstrap], and a database that was just created. *)
Class VaultFileLib (DB : Type) : Type := {
  bootstrap_from_slice : string -> Result VaultBootstrap string;
  bootstrap_to_vec : VaultBootstrap -> Result string string;
  new_db : DB
}.

Section on_disk.
Context {DB : Type} `{LocalStorage DB} `{!Env} `{CliLib DB} `{JournalLib} `{VaultFileLib DB}.
Context `{CryptoLib} `{NoteLib} `{SearchLib} `{KdfLib}.
Abbreviation Cli A := (M (Local (World DB)) CliError A).

(** [config.rs] *)
Definition vault_file (dir : path) : path := dir ++ ["vault.json"].
Definition db_file (dir : path) : path := dir ++ ["notes.db"].
Definition session_file (dir : path) : path := dir ++ [".session"].
Definition auth_session_file (dir : path) : path := dir ++ [".auth_session"].

(** [SqliteStorage::open]: the parent directory and a missing or empty database are
    created.  Its steps share one error text here. *)
Definition fs_open_db (p : path) : M (World DB) IoError unit :=
  plain (fun d =>
    match files d !! p with
    | Some (Database _) => (Ok tt, d)
    | Some (Bytes "") => (Ok tt, put_file p (Database new_db) d)
    | Some (Bytes _) => (Err (IoOther "file is not a database"), d)
    | None => (Ok tt, put_file p (Database new_db) (mkDisk (files d) ({[parent_of p]} ∪ dirs d)))
    end).

Definition open_db (dir : path) : Cli unit :=
  io_as (fun e => Cli_Storage (SE_Backend
           ("failed to open SQLite database at " +:+ path_display (db_file dir) +:+ ": " +:+ IoError_display e)))
    (fs_open_db (db_file dir)).

(** Work on the opened database; what it changes is in the file. *)
Definition in_db {A} (dir : path) (m : M (Local DB) CliError A) : Cli A :=
  fun l =>
    match files (l_disk l) !! db_file dir with
    | Some (Database db) =>
        let '(r, l1) := m (mkLocal db (l_uuids l) (l_clock l) (l_rng l)) in
        (r, mkLocal (now_disk (put_file (db_file dir) (Database (l_store l1)) (l_disk l)) (l_store l))
              (l_uuids l1) (l_clock l1) (l_rng l1))
    | _ => (Err (Cli_Storage (SE_Backend "no open database")), l)
    end.

(** What every service starts with: recovery, and that there is a vault. *)
Definition require_vault (dir : path) : Cli unit :=
  _ ← recover dir;
  present ← exists_path (vault_file dir);
  if (present : bool) then mret tt else throw VaultUninitialized.

(** The shape of most services. *)
Definition with_db {A} (dir : path) (m : M (Local DB) CliError A) : Cli A :=
  _ ← require_vault dir;
  _ ← open_db dir;
  in_db dir m.

Definition list_notes (dir : path) (vault_key : string) (include_deleted : bool) (tag_filter : option string)
    : Cli (list ClientNoteSummary) :=
  with_db dir (list_notes_db vault_key include_deleted tag_filter).

Definition get_plaintext_note (dir : path) (vault_key id_or_prefix : string)
    : Cli (StoredEncryptedObject * PlaintextNote) :=
  with_db dir (get_plaintext_note_db vault_key id_or_prefix).

Definition get_note (dir : path) (vault_key id_or_prefix : string) : Cli ClientNoteDetail :=
  p ← get_plaintext_note dir vault_key id_or_prefix;
  mret (detail_of p).

(** The note is built and sealed before the database is opened. *)
Definition create_note (dir : path) (vault_key title body : string) (tags : list string) : Cli string :=
  _ ← require_vault dir;
  sealed ← seal_new_note vault_key title body tags;
  _ ← open_db dir;
  in_db dir (store_new_note sealed.1.1 sealed.1.2 sealed.2).

Definition update_note (dir : path) (vault_key id_or_prefix title body : string) (tags : list string) : Cli N :=
  with_db dir (update_note_db vault_key id_or_prefix title body tags).

Definition delete_note (dir : path) (id_or_prefix : string) (purge : bool) : Cli (string * N) :=
  with_db dir (delete_note_db id_or_prefix purge).

Definition search_notes (dir : path) (vault_key query : string) : Cli (list SearchResult) :=
  with_db dir (search_notes_db vault_key query).

Definition list_conflicts (dir : path) (vault_key : option string) (include_resolved : bool)
    : Cli (list ClientConflictSummary) :=
  with_db dir (list_conflicts_db vault_key include_resolved).

Definition get_conflict_detail (dir : path) (vault_key conflict_id : string) : Cli ClientConflictDetail :=
  with_db dir (get_conflict_detail_db vault_key conflict_id).

Definition resolve_conflict_item (dir : path) (vault_key conflict_id : string)
    (strategy : ConflictResolutionStrategy) : Cli ConflictResolutionResult :=
  with_db dir (resolve_conflict_item_db vault_key conflict_id strategy).

(** *** vault.rs *)

Definition get_vault_status (dir : path) : Cli VaultState :=
  _ ← recover dir;
  present ← exists_path (vault_file dir);
  if negb present then mret VS_Uninitialized else
  active ← has_active_session (session_file dir);
  if negb active then mret VS_Locked else
  info ← attempt (get_session_info (session_file dir));
  let fallback :=
    r ← attempt (load_session_key (session_file dir));
    mret (if is_ok r then VS_Unlocked None else VS_Locked) in
  match info with
  | Ok (Some i) =>
      if is_active i then mret (VS_Unlocked (Some i))
      else if is_expired i then _ ← ignore (clear_session (session_file dir)); mret VS_Locked
      else fallback
  | _ => fallback
  end.

Definition session_timeout (timeout_mins : option N) : option N :=
  match timeout_mins with Some m => mins_to_secs m | None => resolve_default_timeout end.

(** Both ways to unlock differ in the key they try. *)
Definition unlock_by (try : VaultBootstrap -> Result string CoreError) (dir : path) (timeout_mins : option N)
    : Cli string :=
  _ ← require_vault dir;
  vault_bytes ← read_bytes (fun e => Io ("failed to read vault file " +:+ path_display (vault_file dir)
                                        +:+ ": " +:+ IoError_display e)) (vault_file dir);
  bootstrap ← lift_result (result_map_err (fun e => Io ("corrupted vault.json: " +:+ e))
                             (bootstrap_from_slice vault_bytes));
  vault_key ← lift_result (result_map_err cli_of_core (try bootstrap));
  _ ← save_session_key_with_timeout (session_file dir) vault_key (session_timeout timeout_mins);
  mret vault_key.

Definition unlock_vault (dir : path) (passphrase : string) (timeout_mins : option N) : Cli string :=
  unlock_by (fun b => unlock_with_passphrase b passphrase) dir timeout_mins.

Definition unlock_with_recovery_key (dir : path) (recovery_key : string) (timeout_mins : option N) : Cli string :=
  unlock_by (fun b => Vault.unlock_with_recovery_key b (str_trim recovery_key)) dir timeout_mins.

Definition lock_vault (dir : path) : Cli unit :=
  _ ← recover dir;
  clear_session (session_file dir).

Definition get_active_vault_key (dir : path) : Cli string :=
  _ ← recover dir;
  load_session_key (session_file dir).

Definition is_session_expired (dir : path) : Cli bool :=
  _ ← recover dir;
  present ← exists_path (session_file dir);
  if negb present then mret true else
  r ← attempt (load_session_key_and_touch (session_file dir) false);
  match r with
  | Ok _ => mret false
  | Err VaultLocked => mret true
  | Err e => throw e
  end.

Definition touch_session_activity (dir : path) : Cli unit :=
  _ ← recover dir;
  touch_session (session_file dir).
End on_disk.
