(* ===== verification/CliNotesFacts.v ===== *)
(** * Facts about the note services

    What creating, updating and deleting notes leaves in the store and in the
    queue, for every storage backend: the queued edits of an object form a chain of
    revisions, and what was written is what is read back. *)

From stdpp Require Import options.
From stdpp Require Import gmap list.
From S2P Require Import Prelude Sorting Protocol StorageModels Storage CoreErrors Time Env Queue Text Diff3 Crypto Note.
From S2P Require Import Vault Search Merge Conflict Files CliSession VaultFiles CliNotes.

Section notes.
Context {S : Type} `{StorageSpec S} `{!Env} `{CryptoLib} `{NoteLib}.
Implicit Types (l : Local S) (v : MemoryStorage) (o : StoredEncryptedObject).

(** Objects are stored under their own identifiers. *)
Definition keyed v : Prop := map_Forall (fun id o => obj_object_id o = id) (mem_objects v).

(** A stored note, live unless deleted ones are asked for. *)
Record NoteIn v (include_deleted : bool) o : Prop := {
  ni_stored : mem_objects v !! obj_object_id o = Some o;
  ni_kind : obj_object_kind o = OBJECT_KIND_NOTE;
  ni_live : obj_is_deleted o && negb include_deleted = false
}.

Lemma listed_in v f o : keyed v ->
  o ∈ merge_sort Memory.object_id_le (List.filter (Memory.passes_filter f) (map_to_list (mem_objects v)).*2) ->
  mem_objects v !! obj_object_id o = Some o /\ Memory.passes_filter f o = true.
Proof.
  intros Hv. rewrite merge_sort_Permutation, list_elem_of_In, filter_In, <- list_elem_of_In, elem_of_map_values.
  intros [[k Hk] Hp]. split; [|done]. by rewrite (Hv k o Hk).
Qed.

Lemma str_starts_with_refl s : str_starts_with s s = true.
Proof. induction s as [|c s IH]; [done|]. cbn. by rewrite bool_decide_true. Qed.

(** The one note with the prefix. *)
Lemma found_by_prefix v note_id include_deleted o : keyed v ->
  List.filter (fun o => str_starts_with note_id (obj_object_id o))
    (merge_sort Memory.object_id_le (List.filter (Memory.passes_filter (note_filter include_deleted))
       (map_to_list (mem_objects v)).*2)) = [o] ->
  NoteIn v include_deleted o /\ str_starts_with note_id (obj_object_id o) = true.
Proof.
  intros Hv Hf. assert (In o [o]) as Hin by (by left). rewrite <- Hf in Hin. apply filter_In in Hin as [Hin Hp].
  rewrite <- list_elem_of_In in Hin. apply listed_in in Hin as [Ho Hpass]; [|done]. split; [|done].
  unfold Memory.passes_filter in Hpass. cbn in Hpass. destruct (negb include_deleted && obj_is_deleted o) eqn:Hd; [done|].
  split; [done|by apply N.eqb_eq|]. by rewrite andb_comm.
Qed.

(** Whatever is looked up is a note of the store; the store is left alone. *)
Lemma wp_find_note note_id include_deleted Q l :
  keyed (l_view l) ->
  (forall o l', NoteIn (l_view l) include_deleted o -> str_starts_with note_id (obj_object_id o) = true ->
     l_view l' = l_view l -> l_uuids l' = l_uuids l -> l_clock l' = l_clock l -> l_rng l' = l_rng l ->
     Q (Ok o) l') ->
  (forall e l', l_view l' = l_view l -> l_uuids l' = l_uuids l -> l_clock l' = l_clock l -> l_rng l' = l_rng l ->
     Q (Err e) l') ->
  wp (find_note_object note_id include_deleted) Q l.
Proof.
  intros Hk Q1 Q2. unfold find_note_object, find_by_prefix, refuse_deleted.
  wp_steps.
  all: try (apply Q2; congruence).
  - apply Q1; try congruence; [split|]; cbn; [by rewrite (Hk _ _ Heqo)|by apply N.eqb_eq|done|].
    rewrite (Hk _ _ Heqo). apply str_starts_with_refl.
  - eapply found_by_prefix in Heql2 as [Hs Hp]; [|done]. apply Q1; congruence || done.
  - eapply found_by_prefix in Heql2 as [Hs Hp]; [|done]. apply Q1; congruence || done.
Qed.

(** A live note is found by its identifier unless the storage fails. *)
Lemma wp_find_exact o Q l :
  mem_objects (l_view l) !! obj_object_id o = Some o -> obj_object_kind o = OBJECT_KIND_NOTE -> obj_is_deleted o = false ->
  (forall l', Q (Ok o) l') -> (forall e l', Q (Err (Cli_Storage e)) l') ->
  wp (find_note_object (obj_object_id o) false) Q l.
Proof.
  intros Ho Hk Hd Q1 Q2. unfold find_note_object. apply wp_bind. wp_store; [|by apply Q2].
  rewrite Ho, Hk. unfold refuse_deleted. rewrite Hd. by apply wp_ret.
Qed.

(** ** One edit *)

Definition rev_of v (oid : string) : N := from_option obj_revision 0%N (mem_objects v !! oid).
(** The base revisions of the queued edits of an object. *)
Definition queued v (oid : string) : list N :=
  mut_expected_revision <$> List.filter (Memory.targets oid) (mem_mutations v).

(** The next revision of one object is stored and its edit queued. *)
Record Edited (oid : string) v v' : Prop := {
  ed_keyed : keyed v';
  ed_rev : rev_of v' oid = (rev_of v oid + 1)%N;
  ed_queued : queued v' oid ≡ₚ rev_of v oid :: queued v oid;
  ed_others id : id <> oid -> mem_objects v' !! id = mem_objects v !! id /\ queued v' id ≡ₚ queued v id
}.

(** Queueing where the backend puts it. *)
Definition enqueue (m : PendingMutation) : MemoryStorage -> MemoryStorage :=
  with_mutations (fun q => take (enqueue_position m q) q ++ m :: drop (enqueue_position m q) q).

Lemma queued_insert m oid v :
  queued (enqueue m v) oid
  ≡ₚ (if bool_decide (mut_object_id m = oid) then [mut_expected_revision m] else []) ++ queued v oid.
Proof.
  unfold queued, enqueue. cbn. set (q := mem_mutations v). set (n := enqueue_position m q).
  rewrite List.filter_app. cbn. rewrite <- (take_drop n q) at 4. rewrite List.filter_app, !fmap_app.
  unfold Memory.targets at 2, has_key.
  case_bool_decide; cbn; [by rewrite <- Permutation_middle|done].
Qed.

Lemma edited_store oid m o v base :
  keyed v -> obj_object_id o = oid -> mut_object_id m = oid -> mut_expected_revision m = rev_of v oid ->
  obj_revision o = (rev_of v oid + 1)%N ->
  Edited oid v (enqueue m (with_objects <[oid := o]> (with_base_versions base v))).
Proof.
  intros Hk Ho Hm He Hr. split.
  - intros id o' Hid. cbn in Hid. apply lookup_insert_Some in Hid as [[<- <-]|[_ Hid]]; [done|by apply Hk].
  - unfold rev_of at 1. cbn. by rewrite lookup_insert_eq.
  - rewrite queued_insert, bool_decide_true by done. by rewrite He.
  - intros id Hid. split.
    + cbn. by rewrite lookup_insert_ne.
    + rewrite queued_insert, bool_decide_false by congruence. done.
Qed.

(** ** What the services write *)

(** [r] is success, and then [P] holds. *)
Definition on_ok {A} (P : A -> Local S -> Prop) (r : Result A CliError) (l : Local S) : Prop :=
  match r with Ok a => P a l | Err _ => True end.

Definition new_object (oid : string) (env : EncryptedEnvelope) (t : string) : StoredEncryptedObject :=
  mkStoredObject oid OBJECT_KIND_NOTE INITIAL_OBJECT_REVISION INITIAL_SERVER_SEQ false env t.

Lemma wp_sealing {A E} (conv : E -> CliError) (m : M nat E A) Q l :
  (forall r l', r = result_map_err conv (m (l_rng l)).1 -> l_view l' = l_view l -> l_uuids l' = l_uuids l -> Q r l') ->
  wp (on_rng conv m) Q l.
Proof.
  intros HQ. unfold on_rng, map_err, zoom, wp. destruct (m (l_rng l)) as [[a|e] n] eqn:Hm; cbn; by apply HQ.
Qed.

(** Symbolic execution to the successful end. *)
Ltac writes := wp_steps; cbn [on_ok]; try exact I.

Lemma store_new_note_writes oid env t l :
  wp (store_new_note oid env t) (on_ok (fun id l' => id = oid
    /\ l_view l' = enqueue (upsert_of (uuid_v4 (l_uuids l)) oid Upsert 0 env t)
         (with_objects <[oid := new_object oid env t]> (l_view l))
    /\ l_uuids l' = Datatypes.S (l_uuids l))) l.
Proof.
  unfold store_new_note. writes.
  split_and!; [done| |congruence]. rewrite Hview1. replace (l_uuids l0) with (l_uuids l) by congruence. done.
Qed.

Lemma store_new_note_errors oid env t l :
  wp (store_new_note oid env t) (fun r _ => r = Ok oid \/ exists e, r = Err (Cli_Storage e)) l.
Proof using Type*. unfold store_new_note. wp_steps; eauto. Qed.

(** The note an update makes of what was stored. *)
Definition updated_note (prior : PlaintextNote) (title body : string) (tags : list string) (t : string)
    (note : PlaintextNote) : Prop :=
  exists built, NoteBuilder_build t (mkNoteBuilder None title body tags (Some (n_created_at prior)) None []) = Ok built
    /\ note = canonicalize built.

Lemma update_note_writes key id title body tags l :
  keyed (l_view l) ->
  wp (update_note_db key id title body tags) (on_ok (fun rev l' => exists o prior note env t t' i,
    NoteIn (l_view l) false o /\ str_starts_with id (obj_object_id o) = true /\ rev = u64_add (obj_revision o) 1
    /\ decrypt (obj_envelope o) key = Ok prior /\ updated_note prior title body tags t note
    /\ (encrypt note key (obj_object_id o) i).1 = Ok env
    /\ l_view l' = enqueue (upsert_of (uuid_v4 (l_uuids l)) (obj_object_id o) Upsert (obj_revision o) env t')
         (with_objects <[obj_object_id o := mkStoredObject (obj_object_id o) OBJECT_KIND_NOTE rev (obj_server_seq o) false env t']>
            (with_base_versions <[(obj_object_id o, obj_revision o) := obj_envelope o]> (l_view l)))
    /\ l_uuids l' = Datatypes.S (l_uuids l))) l.
Proof.
  intros Hk. unfold update_note_db. apply wp_bind, wp_find_note; [done| |intros; exact I].
  intros o l0 Ho Hp Hv0 Hu0 _ _. unfold build_note. wp_steps.
  destruct (decrypt (obj_envelope o) key) as [prior|] eqn:Hdec; [|exact I]. cbn [result_map_err].
  wp_steps. destruct (NoteBuilder_build _ _) as [built|] eqn:Hbuilt; [|exact I]. cbn [result_map_err].
  writes. apply wp_sealing. intros [env|e] l3 Henc Hv3 Hu3; [|exact I]. writes.
  exists o, prior, (canonicalize built), env, t, t0, (l_rng l1). split_and!; try done; try congruence.
  - by exists built.
  - by destruct (encrypt _ _ _ _).1; inversion Henc.
  - rewrite Hview4. by replace (l_uuids l2) with (l_uuids l) by congruence.
Qed.

Lemma delete_note_writes id l :
  keyed (l_view l) ->
  wp (delete_note_db id false) (on_ok (fun p l' => exists o t,
    NoteIn (l_view l) false o /\ str_starts_with id (obj_object_id o) = true
    /\ p = (obj_object_id o, u64_add (obj_revision o) 1)
    /\ l_view l' = enqueue (upsert_of (uuid_v4 (l_uuids l)) (obj_object_id o) Delete (obj_revision o) (obj_envelope o) t)
         (with_objects <[obj_object_id o := mkStoredObject (obj_object_id o) OBJECT_KIND_NOTE (u64_add (obj_revision o) 1)
                           (obj_server_seq o) true (obj_envelope o) t]>
            (with_base_versions <[(obj_object_id o, obj_revision o) := obj_envelope o]> (l_view l)))
    /\ l_uuids l' = Datatypes.S (l_uuids l))) l.
Proof.
  intros Hk. unfold delete_note_db. apply wp_bind, wp_find_note; [done| |intros; exact I].
  intros o l0 Hin Hp Hv0 Hu0 _ _. destruct (Hin) as [Ho Hkind Hlive]. writes.
  exists o, t. split_and!; try done; try congruence.
  assert (s = o) as -> by congruence.
  rewrite Hview3. replace (l_uuids l2) with (l_uuids l) by congruence. by rewrite Hkind.
Qed.
End notes.

(** ** Sealing a new note *)

(** The canonical note that a title, a body and tags make at time [t]. *)
Definition note_of `{NoteLib} (title body : string) (tags : list string) (t : string) (note : PlaintextNote) : Prop :=
  exists built, NoteBuilder_build t (mkNoteBuilder None title body tags None None []) = Ok built
    /\ note = canonicalize built.

Lemma wp_seal_new_note `{!Env} `{CryptoLib} `{NoteLib} {S} key title body tags Q (l : Local S) :
  (forall env note t t' i l', note_of title body tags t note -> (encrypt note key (uuid_v4 (l_uuids l)) i).1 = Ok env ->
     l_store l' = l_store l -> l_uuids l' = Datatypes.S (l_uuids l) -> Q (Ok (uuid_v4 (l_uuids l), env, t')) l') ->
  (forall e l', Q (Err e) l') ->
  wp (seal_new_note key title body tags) Q l.
Proof.
  intros Q1 Q2. unfold seal_new_note, build_note. apply wp_bind, wp_bind, wp_intro. intros r l1 [= <- <-].
  apply wp_bind, wp_lift. destruct (NoteBuilder_build _ _) as [built|e] eqn:Hb; [|apply Q2].
  cbn [result_map_err]. apply wp_ret. apply wp_bind, wp_intro. intros r l1 [= <- <-]. apply wp_bind, wp_intro.
  intros r l1. unfold on_rng, map_err, zoom. destruct (encrypt _ _ _ _) as [[env|e] n] eqn:He; intros [= <- <-]; [|apply Q2].
  apply wp_bind, wp_intro. intros r l1 [= <- <-]. apply wp_ret.
  eapply Q1; [by exists built|by rewrite He|done..].
Qed.

(** The three canonicalisations: in the builder, after it, and before encryption. *)
Definition fresh_note (title body : string) (tags : list string) (t : string) : PlaintextNote :=
  mkNote NOTE_SCHEMA_VERSION_V1 title body tags t t [].

Lemma wp_seal_valid `{NoteLib} `{!NoteLaws} `{CryptoLib} `{!Env} `{!CryptoLaws} {S} key title body tags s Q (l : Local S) :
  let t := now_utc_rfc3339 (system_time (l_clock l)) in
  let built := canonicalize (fresh_note title body tags t) in
  let shown := canonicalize (canonicalize built) in
  String.length key = KEY_LEN -> validate built = Ok tt -> validate shown = Ok tt ->
  note_to_json shown = Ok s -> (str_len s <= AEAD_MAX_LEN)%N ->
  (forall env t' l', decrypt env key = Ok shown -> l_store l' = l_store l -> Q (Ok (uuid_v4 (l_uuids l), env, t')) l') ->
  wp (seal_new_note key title body tags) Q l.
Proof.
  intros t built shown Hkey Hv1 Hv Hjson Hlen HQ. unfold seal_new_note, build_note.
  apply wp_bind, wp_bind, wp_intro. intros r l1 [= <- <-].
  assert (NoteBuilder_build t (mkNoteBuilder None title body tags None None []) = Ok built) as Hb.
  { change (match validate built with Ok _ => Ok built | Err e => Err e end = Ok built). by rewrite Hv1. }
  fold t. apply wp_bind, wp_lift. rewrite Hb. cbn [result_map_err]. apply wp_ret.
  apply wp_bind, wp_intro. intros r l1 [= <- <-]. apply wp_bind, wp_intro. intros r l1.
  destruct (encrypt_run (canonicalize built) key (uuid_v4 (l_uuids l)) (l_rng l) s) as (env & Henc & _ & Hdec); [done..|].
  unfold on_rng, map_err, zoom. cbn [l_rng l_uuids]. rewrite Henc. intros [= <- <-].
  apply wp_bind, wp_intro. intros r l1 [= <- <-]. by apply wp_ret, HQ.
Qed.

(** ** Whole services, over the data directory *)

Section services.
Context {DB : Type} `{StorageSpec DB} `{!Env} `{CliLib DB} `{JournalLib} `{VaultFileLib DB}.
Context `{CryptoLib} `{NoteLib} `{SearchLib} `{KdfLib}.
Implicit Types l : Local (World DB).

(** A database in place and no replacement under way. *)
Record Ready (dir : path) (db : DB) l : Prop := {
  rd_db : files (l_disk l) !! db_file dir = Some (Database db);
  rd_journal : files (l_disk l) !! (dir ++ [JOURNAL]) = None
}.

Lemma Ready_disk dir db l l' : l_disk l' = l_disk l -> Ready dir db l -> Ready dir db l'.
Proof. intros Hd [? ?]. split; by rewrite Hd. Qed.

Lemma db_not_journal dir : db_file dir <> dir ++ [JOURNAL].
Proof. unfold db_file. intros Heq%app_inv_head. done. Qed.

Lemma Kept_true (w : World DB) : Kept (fun _ => True) w.
Proof. unfold Kept. by apply Forall_true. Qed.
#[local] Hint Resolve Kept_true : core.

Lemma wp_require_vault dir db Q l :
  Ready dir db l ->
  (forall e l', Ready dir db l' -> same_counters l l' -> Q (Err e) l') ->
  (forall l', Ready dir db l' -> same_counters l l' -> Q (Ok tt) l') ->
  wp (require_vault dir) Q l.
Proof using Type*.
  intros Hr Q1 Q2. unfold require_vault, recover. apply wp_bind, wp_bind.
  apply (wp_io_result _ (fun _ => True)); [done|done| |].
  - intros msg l1 Hd1 _ Hc1 _. apply wp_throw, Q1; [by eapply Ready_disk|done].
  - intros l1 Hd1 _ Hc1. cbn in Hd1. rewrite (rd_journal _ _ _ Hr). cbn [fst]. apply wp_ret. apply wp_bind, wp_exists.
    assert (Ready dir db l1) by (by eapply Ready_disk).
    destruct (exists_on _ _); [by apply wp_ret, Q2|by apply wp_throw, Q1].
Qed.

Lemma wp_open_in_db {A} dir db (m : M (Local DB) CliError A) Q l :
  Ready dir db l ->
  (forall e l', Ready dir db l' -> same_counters l l' -> Q (Err e) l') ->
  wp m (fun r ld => forall l', Ready dir (l_store ld) l' -> l_uuids l' = l_uuids ld -> l_clock l' = l_clock ld ->
    l_rng l' = l_rng ld -> Q r l') (mkLocal db (l_uuids l) (l_clock l) (l_rng l)) ->
  wp (_ ← open_db dir; in_db dir m) Q l.
Proof using Type*.
  intros Hr Q1 Hm. unfold open_db, fs_open_db. apply wp_bind.
  apply (wp_io_plain _ _ (fun _ => True)); [done|done| |].
  - intros e l1 Hd1 _ Hc1 _. apply Q1; [by eapply Ready_disk|done].
  - intros l1 Hd1 _ (Hu & Hcl & Hg & _). rewrite (rd_db _ _ _ Hr) in *. cbn in *.
    assert (Ready dir db l1) as [Hdb Hj] by (by eapply Ready_disk).
    unfold wp, in_db in *. rewrite Hdb, Hu, Hcl, Hg.
    destruct (m _) as [r ld]. cbn in *. apply Hm; try done. split; unfold l_disk in *; cbn.
    + apply lookup_insert_eq.
    + rewrite lookup_insert_ne; [done|apply db_not_journal].
Qed.

Lemma wp_with_db {A} dir db (m : M (Local DB) CliError A) Q l :
  Ready dir db l ->
  (forall e l', Ready dir db l' -> same_counters l l' -> Q (Err e) l') ->
  wp m (fun r ld => forall l', Ready dir (l_store ld) l' -> l_uuids l' = l_uuids ld -> l_clock l' = l_clock ld ->
    l_rng l' = l_rng ld -> Q r l') (mkLocal db (l_uuids l) (l_clock l) (l_rng l)) ->
  wp (with_db dir m) Q l.
Proof using Type*.
  intros Hr Q1 Hm. unfold with_db. apply wp_bind. eapply wp_require_vault; [done|exact Q1|].
  intros l1 Hr1 Hc1. pose proof Hc1 as (Hu & Hcl & Hg & _). eapply wp_open_in_db; [done| |by rewrite Hu, Hcl, Hg].
  intros e l2 Hr2 Hc2. apply Q1; [done|by etrans].
Qed.

(** *** Without failures of the file system *)

(** Ready, with the vault in place and no failing call to come. *)
Record Steady (dir : path) (db : DB) l : Prop := {
  sd_ready : Ready dir db l;
  sd_vault : is_Some (files (l_disk l) !! vault_file dir);
  sd_calm : calm l
}.

Lemma vault_not_db dir : vault_file dir <> db_file dir.
Proof. unfold vault_file, db_file. intros Heq%app_inv_head. done. Qed.

Lemma Steady_disk dir db l l' : l_disk l' = l_disk l -> calm l' -> Steady dir db l -> Steady dir db l'.
Proof. intros Hd Hc [Hr Hv _]. split; [by eapply Ready_disk|by rewrite Hd|done]. Qed.

Lemma wp_require_vault_steady dir db Q l :
  Steady dir db l -> (forall l', Steady dir db l' -> same_counters l l' -> Q (Ok tt) l') -> wp (require_vault dir) Q l.
Proof using Type*.
  intros Hs HQ. destruct (Hs) as [Hr [c Hv] Hcalm]. unfold require_vault, recover. apply wp_bind, wp_bind.
  apply (wp_io_result _ (fun _ => True)); [done|done|done|].
  intros l1 Hd1 _ Hc1. cbn in Hd1. rewrite (rd_journal _ _ _ Hr). cbn [fst]. apply wp_ret. apply wp_bind, wp_exists.
  rewrite Hd1, (exists_on_file _ _ _ Hv). apply wp_ret, HQ; [|done]. eapply Steady_disk; [done|by apply Hc1|done].
Qed.

Lemma wp_open_in_db_steady {A} dir db (m : M (Local DB) CliError A) Q l :
  Steady dir db l ->
  wp m (fun r ld => forall l', Steady dir (l_store ld) l' -> l_uuids l' = l_uuids ld -> Q r l')
    (mkLocal db (l_uuids l) (l_clock l) (l_rng l)) ->
  wp (_ ← open_db dir; in_db dir m) Q l.
Proof using Type*.
  intros Hs Hm. destruct (Hs) as [Hr Hv Hcalm]. unfold open_db, fs_open_db. apply wp_bind. apply wp_io_calm; [done|].
  intros l1 Hd1 Hc1 (Hu & Hcl & Hg & _). rewrite (rd_db _ _ _ Hr) in *. cbn in Hd1 |- *.
  assert (Ready dir db l1) as [Hdb Hj] by (by eapply Ready_disk).
  unfold wp, in_db in *. rewrite Hdb, Hu, Hcl, Hg. destruct (m _) as [r ld]. cbn in *. apply Hm; [|done].
  split; [split| |exact Hc1]; unfold l_disk in *; cbn.
  - apply lookup_insert_eq.
  - rewrite lookup_insert_ne; [done|apply db_not_journal].
  - rewrite lookup_insert_ne; [by rewrite Hd1|]. intros Heq. by apply (vault_not_db dir).
Qed.

(** ** The chain of offline edits *)

Inductive edit_step (dir : path) : Local (World DB) -> Local (World DB) -> Prop :=
| es_create key title body tags id l l' :
    create_note dir key title body tags l = (Ok id, l') -> edit_step dir l l'
| es_update key id title body tags rev l l' :
    update_note dir key id title body tags l = (Ok rev, l') -> edit_step dir l l'
| es_delete id p l l' :
    delete_note dir id false l = (Ok p, l') -> edit_step dir l l'.

(** Identifiers still to be drawn name no object. *)
Definition unused (k : nat) v : Prop := forall j, k <= j -> mem_objects v !! uuid_v4 j = None.

(** What one edit did: which object, and how many identifiers were drawn. *)
Record one_edit (dir : path) (db : DB) l l' : Prop := {
  oe_db : exists db' oid, Ready dir db' l' /\ Edited oid (view db) (view db')
    /\ length (mem_mutations (view db')) = Datatypes.S (length (mem_mutations (view db)))
    /\ (oid = uuid_v4 (l_uuids l) \/ is_Some (mem_objects (view db) !! oid));
  oe_uuids : l_uuids l < l_uuids l'
}.

Lemma enqueue_length m v : length (mem_mutations (enqueue (S := DB) m v)) = Datatypes.S (length (mem_mutations v)).
Proof. cbn. by rewrite insert_at_perm. Qed.

Lemma with_base_versions_id v : with_base_versions id v = v.
Proof. by destruct v. Qed.

Lemma create_edits dir db key title body tags id l l' :
  Ready dir db l -> keyed (view db) -> unused (l_uuids l) (view db) ->
  create_note dir key title body tags l = (Ok id, l') -> one_edit dir db l l'.
Proof using Type*.
  intros Hr Hk Hf Hrun.
  cut (wp (create_note dir key title body tags)
    (fun r l' => match r with Ok _ => one_edit dir db l l' | Err _ => True end) l);
    [intros Hwp; exact (wp_run _ _ _ _ _ Hwp Hrun)|].
  clear Hrun. unfold create_note. apply wp_bind. eapply wp_require_vault; [done|done|].
  intros l1 Hr1 (Hu1 & _). apply wp_bind, wp_seal_new_note; [|done].
  intros env note t t' i l2 _ _ Hs2 Hu2. cbn [fst snd].
  assert (Ready dir db l2) as Hr2 by (eapply Ready_disk; [|exact Hr1]; unfold l_disk; by rewrite Hs2).
  eapply wp_open_in_db; [done|done|]. eapply wp_mono; [apply store_new_note_writes|].
  intros [id'|e] ld; [|done]. intros (-> & Hv & Hu) l3 Hr3 Hu3 _ _. cbn in Hv, Hu. split; [|lia].
  unfold l_view in Hv. cbn in Hv. rewrite Hu1 in *.
  exists (l_store ld), (uuid_v4 (l_uuids l)). rewrite Hv. split_and!; [done| |by rewrite enqueue_length|by left].
  rewrite <- (with_base_versions_id (view db)) at 2.
  assert (rev_of (view db) (uuid_v4 (l_uuids l)) = 0%N) as Hz by (unfold rev_of; by rewrite Hf).
  by apply edited_store; rewrite ?Hz.
Qed.

Lemma rev_of_stored v o : mem_objects v !! obj_object_id o = Some o -> rev_of v (obj_object_id o) = obj_revision o.
Proof. intros Ho. unfold rev_of. by rewrite Ho. Qed.

(** Room for another revision of every object. *)
Definition room (n : nat) v : Prop := forall oid, (rev_of v oid + N.of_nat n <= u64_max)%N.

(** What an update or a deletion writes is an edit of the object it found. *)
Lemma rewrite_edits dir db o o' m base l l' ld :
  NoteIn (view db) false o -> keyed (view db) -> room 1 (view db) ->
  obj_object_id o' = obj_object_id o -> mut_object_id m = obj_object_id o -> mut_expected_revision m = obj_revision o ->
  obj_revision o' = u64_add (obj_revision o) 1 ->
  view (l_store ld) = enqueue (S := DB) m (with_objects <[obj_object_id o := o']> (with_base_versions base (view db))) ->
  l_uuids ld = Datatypes.S (l_uuids l) -> Ready dir (l_store ld) l' -> l_uuids l' = l_uuids ld ->
  one_edit dir db l l'.
Proof using Type*.
  intros [Ho _ _] Hk Hroom Hoid Hmid Hme Hrev Hv Hu Hr' Hu'. split; [|lia].
  pose proof (rev_of_stored _ _ Ho) as Hro. specialize (Hroom (obj_object_id o)). rewrite Hro in Hroom.
  exists (l_store ld), (obj_object_id o). rewrite Hv. split_and!; [done| |by rewrite enqueue_length|by right].
  apply edited_store; [done..|congruence|]. rewrite Hrev, Hro. apply u64_add_small. exact Hroom.
Qed.

Lemma step_edits dir db l l' :
  Ready dir db l -> keyed (view db) -> unused (l_uuids l) (view db) -> room 1 (view db) ->
  edit_step dir l l' -> one_edit dir db l l'.
Proof using Type*.
  intros Hr Hk Hf Hroom Hstep. destruct Hstep as [key title body tags id l l' Hrun|key id title body tags rev l l' Hrun|id p l l' Hrun].
  - by eapply create_edits.
  - cut (wp (update_note dir key id title body tags)
      (fun r l' => match r with Ok _ => one_edit dir db l l' | Err _ => True end) l);
      [intros Hwp; exact (wp_run _ _ _ _ _ Hwp Hrun)|].
    eapply wp_with_db; [done|done|]. eapply wp_mono; [by apply update_note_writes|].
    intros [rev'|e] ld; [|done].
    intros (o & prior & note & env & t & t' & i & Hin & _ & -> & _ & _ & _ & Hv & Hu) l3 Hr3 Hu3 _ _.
    eapply rewrite_edits; [exact Hin|done|done| | | | |exact Hv|exact Hu|done|done]; reflexivity.
  - cut (wp (delete_note dir id false)
      (fun r l' => match r with Ok _ => one_edit dir db l l' | Err _ => True end) l);
      [intros Hwp; exact (wp_run _ _ _ _ _ Hwp Hrun)|].
    eapply wp_with_db; [done|done|]. eapply wp_mono; [by apply delete_note_writes|].
    intros [p'|e] ld; [|done]. intros (o & t & Hin & _ & -> & Hv & Hu) l3 Hr3 Hu3 _ _.
    eapply rewrite_edits; [exact Hin|done|done| | | | |exact Hv|exact Hu|done|done]; reflexivity.
Qed.

(** [n] consecutive revisions from [base]. *)
Definition revisions (base : N) (n : nat) : list N := (fun i => base + N.of_nat i)%N <$> seq 0 n.

Lemma revisions_app base n m : revisions base (n + m) = revisions base n ++ revisions (base + N.of_nat n) m.
Proof.
  unfold revisions. rewrite seq_app, fmap_app. f_equal. rewrite Nat.add_0_l.
  replace (seq n m) with (Nat.add n <$> seq 0 m) by (by rewrite fmap_add_seq, Nat.add_0_r). rewrite <- list_fmap_compose.
  apply list_fmap_ext. intros _ i _. cbn. lia.
Qed.

(** From [v] to [v'] by a chain of edits. *)
Record chained v v' : Prop := {
  ch_grows oid : (rev_of v oid <= rev_of v' oid)%N;
  ch_queue oid : queued v' oid ≡ₚ queued v oid ++ revisions (rev_of v oid) (N.to_nat (rev_of v' oid - rev_of v oid))
}.

Lemma chained_refl v : chained v v.
Proof. split; intros oid; [done|]. rewrite N.sub_diag. cbn. by rewrite app_nil_r. Qed.

Lemma chained_trans v v' v'' : chained v v' -> chained v' v'' -> chained v v''.
Proof.
  intros [Hg Hq] [Hg' Hq']. split; intros oid; specialize (Hg oid); specialize (Hg' oid); [lia|].
  rewrite Hq', Hq, <- app_assoc.
  replace (N.to_nat (rev_of v'' oid - rev_of v oid))
    with (N.to_nat (rev_of v' oid - rev_of v oid) + N.to_nat (rev_of v'' oid - rev_of v' oid)) by lia.
  rewrite revisions_app, N2Nat.id. by replace (rev_of v oid + (rev_of v' oid - rev_of v oid))%N with (rev_of v' oid) by lia.
Qed.

Lemma rev_of_other oid id v v' : Edited oid v v' -> id <> oid -> rev_of v' id = rev_of v id.
Proof. intros [_ _ _ Hoth] Hne. unfold rev_of. by destruct (Hoth id Hne) as [-> _]. Qed.

Lemma edited_chained oid v v' : Edited oid v v' -> chained v v'.
Proof.
  intros Hed. destruct (Hed) as [_ Hr He Hoth]. split; intros id; destruct (decide (id = oid)) as [->|Hne].
  - rewrite Hr. lia.
  - by rewrite (rev_of_other _ _ _ _ Hed Hne).
  - rewrite He, Hr. replace (N.to_nat _) with 1 by lia. cbn. rewrite N.add_0_r. by rewrite Permutation_app_comm.
  - rewrite (rev_of_other _ _ _ _ Hed Hne), N.sub_diag. cbn. rewrite app_nil_r. by apply Hoth.
Qed.

Lemma room_edited oid n v v' : room (Datatypes.S n) v -> Edited oid v v' -> room n v'.
Proof.
  intros Hroom Hed id. specialize (Hroom id). destruct (decide (id = oid)) as [->|Hne].
  - rewrite (ed_rev _ _ _ Hed). lia.
  - rewrite (rev_of_other _ _ _ _ Hed Hne). lia.
Qed.

Lemma unused_edited `{!Inj (=) (=) uuid_v4} k k' oid v v' :
  unused k v -> k < k' -> oid = uuid_v4 k \/ is_Some (mem_objects v !! oid) -> Edited oid v v' -> unused k' v'.
Proof.
  intros Hu Hlt Hoid [_ _ _ Hoth] j Hj. assert (uuid_v4 j <> oid) as Hne.
  { intros <-. destruct Hoid as [Heq%(inj uuid_v4)|[o Ho]]; [lia|]. rewrite Hu in Ho; [done|lia]. }
  destruct (Hoth _ Hne) as [-> _]. apply Hu. lia.
Qed.

(** C27. Editing offline builds a chain.  After any sequence of notes created, updated
    and deleted (each by its identifier or a prefix of it), every call having reported
    success over a storage backend and a file system that may fail, every edit is in
    the queue, and the edits queued for an object are made on consecutive revisions: from
    the revision it had before up to the one it has now, each exactly once.  So the
    server, which accepts an edit only on its current revision, can accept all of
    them in turn. *)
Theorem offline_edits_chain `{!Inj (=) (=) uuid_v4} dir db n l l' :
  nsteps (edit_step dir) n l l' ->
  Ready dir db l -> keyed (view db) -> unused (l_uuids l) (view db) -> room n (view db) ->
  exists db', Ready dir db' l' /\ chained (view db) (view db')
    /\ length (mem_mutations (view db')) = n + length (mem_mutations (view db)).
Proof using Type*.
  intros Hsteps. revert db. induction Hsteps as [l|n l l1 l' Hstep _ IH]; intros db Hr Hk Hf Hroom.
  { exists db. split_and!; [done|apply chained_refl|done]. }
  destruct (step_edits dir db l l1) as [(db1 & oid & Hr1 & Hed & Hlen & Hoid) Hlt]; try done.
  { intros id. specialize (Hroom id). lia. }
  destruct (IH db1) as (db' & Hr' & Hch & Hlen'); [done|apply Hed|by eapply unused_edited|by eapply room_edited|].
  exists db'. split_and!; [done|by eapply chained_trans; [eapply edited_chained|]|lia].
Qed.

(** ** What is written is what is read *)

(** The outcome [r] is [a], unless the storage backend failed. *)
Definition unless_storage {A} (a : A) (r : Result A CliError) : Prop :=
  r = Ok a \/ exists e, r = Err (Cli_Storage e).

Lemma get_note_reads dir db o key note l r l' :
  Steady dir db l -> mem_objects (view db) !! obj_object_id o = Some o -> obj_object_kind o = OBJECT_KIND_NOTE ->
  obj_is_deleted o = false -> decrypt (obj_envelope o) key = Ok note ->
  get_note dir key (obj_object_id o) l = (r, l') -> unless_storage (detail_of (o, note)) r.
Proof using Type*.
  intros Hs Ho Hk Hd Hdec. revert r l'. apply wp_elim. unfold get_note, get_plaintext_note, with_db.
  apply wp_bind, wp_bind. eapply wp_require_vault_steady; [done|]. intros l1 Hs1 _.
  eapply wp_open_in_db_steady; [done|]. unfold get_plaintext_note_db. apply wp_bind.
  apply wp_find_exact; [done|done|done| |].
  - intros l2. rewrite Hdec. cbn [result_map_err]. apply wp_bind, wp_lift. apply wp_ret. intros l3 _ _.
    apply wp_ret. by left.
  - intros e l2 l3 _ _. right. eauto.
Qed.

(** A note that was created is read back.  With a working file system and for a
    valid note, creating it reports its new identifier unless the storage fails, and
    from then on looking it up by that identifier shows the canonical form of the
    title, the body and the tags, at revision 1, unless the storage fails. *)
Lemma created_note_is_read `{!CryptoLaws} `{!NoteLaws} dir db key title body tags l r l1 s :
  let id := uuid_v4 (l_uuids l) in
  let built := canonicalize (fresh_note title body tags (now_utc_rfc3339 (system_time (l_clock l)))) in
  let shown := canonicalize (canonicalize built) in
  Steady dir db l -> String.length key = KEY_LEN -> validate built = Ok tt -> validate shown = Ok tt ->
  note_to_json shown = Ok s -> (str_len s <= AEAD_MAX_LEN)%N ->
  create_note dir key title body tags l = (r, l1) ->
  unless_storage id r
  /\ (r = Ok id -> forall r2 l2, get_note dir key id l1 = (r2, l2) ->
        unless_storage (mkNoteDetail id (n_title shown) (n_body shown) (n_tags shown)
          (n_created_at shown) (n_updated_at shown) 1 false) r2).
Proof using Type*.
  intros id built shown Hs Hkey Hval1 Hval Hjson Hlen. revert r l1. apply wp_elim.
  unfold create_note. apply wp_bind. eapply wp_require_vault_steady; [done|]. intros l1 Hs1 (Hu1 & Hc1 & _ & Hcalm).
  apply wp_bind. eapply wp_seal_valid; rewrite ?Hc1; [done..|]. intros env t' l2 Hdec Hst. rewrite Hu1. cbn [fst snd].
  assert (Steady dir db l2) as Hs2.
  { pose proof (sd_calm _ _ _ Hs1). eapply Steady_disk; [| |exact Hs1]; unfold l_disk, calm in *; by rewrite Hst. }
  eapply wp_open_in_db_steady; [done|]. fold id.
  eapply wp_mono; [apply wp_and; [apply store_new_note_writes|apply (store_new_note_errors id)]|].
  intros r ld [Hok Herr] l3 Hs3 _. split; [exact Herr|]. intros ->. destruct Hok as (_ & Hv & _). cbn in Hv.
  intros r2 l4 Hget. set (o := new_object id env t').
  eapply (get_note_reads dir (l_store ld) o key shown l3 r2 l4); try done.
  unfold l_view in Hv. rewrite Hv. cbn. apply lookup_insert_eq.
Qed.

(** ** Auto-lock *)

(** Nothing to recover: recovery looks for the journal and does nothing. *)
Lemma wp_recover_calm dir Q l :
  files (l_disk l) !! (dir ++ [JOURNAL]) = None -> calm l ->
  (forall l', l_disk l' = l_disk l -> calm l' -> same_counters l l' -> Q (Ok tt) l') -> wp (recover dir) Q l.
Proof using Type*.
  intros Hj Hc HQ. unfold recover. apply wp_bind. apply (wp_io_result _ (fun _ => True)); [done|done|done|].
  intros l1 Hd1 _ Hc1. cbn in Hd1. rewrite Hj. cbn [fst]. apply wp_ret, HQ; [done|by apply Hc1|done].
Qed.

(** C29. The session locks itself.  With a working file system, asking whether the
    session has expired answers yes exactly when it has been idle for its timeout;
    then the session file is gone, otherwise it is as it was, so that asking does not
    keep the session alive.  The key is handed out exactly when it has not expired,
    and only that renews it. *)
Theorem idle_session_locks `{!CliLaws DB} dir e l :
  files (l_disk l) !! (dir ++ [JOURNAL]) = None -> calm l -> Holds_session (session_file dir) e l ->
  session_file dir ∉ dirs (l_disk l) -> dir ∈ dirs (l_disk l) ->
  let expired := idle_expired e (clock_secs l) in
  (forall r l', is_session_expired dir l = (r, l') -> r = Ok expired
     /\ files (l_disk l') !! session_file dir = if expired then None else Some (Bytes (session_to_string e)))
  /\ (forall r l', get_active_vault_key dir l = (r, l') ->
     r = (if expired then Err VaultLocked else Ok (se_key e))
     /\ files (l_disk l') !! session_file dir
        = if expired then None else Some (Bytes (session_to_string (touched e (clock_secs l))))).
Proof using Type*.
  intros Hj Hcalm Hh Hnd Hdir expired.
  assert (forall l1, l_disk l1 = l_disk l -> same_counters l l1 ->
    Holds_session (session_file dir) e l1 /\ session_file dir ∉ dirs (l_disk l1)
    /\ parent_of (session_file dir) ∈ dirs (l_disk l1) /\ clock_secs l1 = clock_secs l) as Hkeep.
  { intros l1 Hd (_ & Hc & _). destruct Hh as [Hf Hl]. unfold Holds_session, clock_secs. rewrite Hd, Hc.
    unfold parent_of, session_file in *. by rewrite removelast_last. }
  split; apply wp_elim.
  - unfold is_session_expired. apply wp_bind, wp_recover_calm; [done..|]. intros l1 Hd1 Hc1 Hs1.
    destruct (Hkeep l1 Hd1 Hs1) as (Hh1 & Hnd1 & Hp1 & Hck). apply wp_bind, wp_exists.
    rewrite (exists_on_file _ _ _ (proj1 Hh1)). cbn [negb]. apply wp_bind, wp_attempt, wp_intro. intros r l2 Hrun.
    eapply load_session_calm in Hrun as [-> Hf]; [|done..]. rewrite Hck in *. unfold session_after in Hf. fold expired in Hf |- *.
    clearbody expired. destruct expired; by apply wp_ret.
  - unfold get_active_vault_key, load_session_key. apply wp_bind, wp_recover_calm; [done..|]. intros l1 Hd1 Hc1 Hs1.
    destruct (Hkeep l1 Hd1 Hs1) as (Hh1 & Hnd1 & Hp1 & Hck). apply wp_intro. intros r l2 Hrun.
    eapply load_session_calm in Hrun as [-> Hf]; [|done..]. rewrite Hck in *. unfold session_after in Hf. done.
Qed.
End services.
