(* ===== verification/Tui.v ===== *)
(** * The terminal interface ([apps/cli/src/tui/app.rs], [action.rs], [vault.rs],
      [mod.rs])

    The application state, its actions and keys, the results of background work
    and the event loop, over any implementation of the client services the
    interface calls.  Drawing is not modelled. *)

From stdpp Require Import options.
From S2P Require Import Prelude Protocol StorageModels Storage CoreErrors Time Env Queue Text Diff3 Crypto Note Merge Conflict.
From S2P Require Import Files CliSession VaultFiles CliNotes.

(** ** Updating one field of a record *)

Class Eta (R : Type) : Type := eta : R -> R.
Class Setter {R T : Type} (p : R -> T) : Type := set : (T -> T) -> R -> R.

Ltac setter :=
  lazymatch goal with
  | |- @Setter ?R ?T ?p =>
      let e := eval cbv delta [eta] in (@eta R _) in
      let e := (eval hnf in e) in
      lazymatch eval pattern p in e with
      | ?k _ => let t := eval cbv beta in (fun g : T -> T => k (fun r => g (p r))) in exact t
      end
  end.
#[export] Hint Extern 1 (Setter _) => setter : typeclass_instances.
Notation "r .[ p := v ]" := (@set _ _ p _ (fun _ => v) r) (at level 9, only parsing).

(** ** The services, over the state [W] of the rest of the client *)

Class ClientServices (W : Type) : Type := {
  str_dbg : string -> string;
  svc_list_notes : string -> M W CliError (list ClientNoteSummary);
  svc_get_note : string -> string -> M W CliError ClientNoteDetail;
  svc_create_note : string -> string -> string -> list string -> M W CliError string;
  svc_update_note : string -> string -> string -> string -> list string -> M W CliError N;
  svc_delete_note : string -> M W CliError unit;
  svc_search_notes : string -> string -> M W CliError (list string);
  svc_edit_external : string -> string -> M W CliError N;
  svc_list_conflicts : option string -> M W CliError (list ClientConflictSummary);
  svc_conflict_detail : string -> string -> M W CliError ClientConflictDetail;
  svc_resolve_conflict : string -> string -> ConflictResolutionStrategy -> M W CliError string;
  svc_new_uuid : W -> string * W;
  svc_vault_status : M W CliError VaultState;
  svc_active_key : M W CliError string;
  svc_unlock_vault : string -> M W CliError string;
  svc_lock_vault : M W CliError unit;
  svc_touch : M W CliError unit;
  svc_session_expired : M W CliError bool;
  svc_initial_sync_status : W -> SyncStatus * W;
  svc_perform_sync : option string -> M W CliError SyncStatus;
  svc_local_auth_state : M W CliError ClientAuthState;
  svc_check_online : M W CliError ClientAuthState;
  svc_sign_out : M W CliError unit;
  svc_ssh_login : string -> option string -> M W CliError StoredAuthSession;
  svc_authorize : string -> string -> M W CliError StoredAuthSession;
  svc_discover : M W CliError (list AgentIdentity);
  svc_inspect : M W CliError VaultInspection;
  svc_link : M W CliError VaultLink;
  svc_vault_present : W -> bool * W;
  svc_preflight : M W CliError ReplacePreflight;
  svc_stage : ReplacePreflight -> UnlockSecret -> bool -> bool -> M W CliError StagedVault;
  svc_install : StagedVault -> M W CliError unit
}.

(** ** app.rs: the state *)

Definition MIN_COLS : N := 80.
Definition MIN_ROWS : N := 24.

Inductive AppMode : Type :=
| Normal | SearchMode | Create | InlineEdit | DeleteConfirm | ConflictMode | Account | VaultMode
| Help | Locked | TerminalTooSmall.
#[export] Instance AppMode_eq_dec : EqDecision AppMode.
Proof. solve_decision. Defined.

Inductive Focus : Type := NotesList | NotePreview.
#[export] Instance Focus_eq_dec : EqDecision Focus.
Proof. solve_decision. Defined.

Inductive EditField : Type := TitleField | TagsField | BodyField.
Inductive AccountField : Type := ServerUrl | Token | ConnectButton | SshButton | SignOutButton.

Inductive AccountPendingAction : Type :=
| Connect (server_url token : string)
| DiscoverIdentities
| SignOut
| RefreshStatus
| StartupVerify.

(** [tui/vault.rs] *)
Inductive ModalPhase : Type := Menu | ReplaceConfirm | RestoreSecret | ReplaceSecret.
Inductive Pending : Type :=
| Inspect | Link | RestorePreflight | ReplacePreflight_ | StageRestore | StageReplace.
#[export] Instance Pending_eq_dec : EqDecision Pending.
Proof. solve_decision. Defined.

Record VaultModal : Type := mkVaultModal {
  vm_phase : ModalPhase;
  vm_pending : option Pending;
  vm_description : string;
  vm_preflight : option ReplacePreflight;
  vm_secret : string;
  vm_recovery : bool;
  vm_confirmation : string
}.
#[export] Instance VaultModal_eta : Eta VaultModal := fun m =>
  mkVaultModal (vm_phase m) (vm_pending m) (vm_description m) (vm_preflight m) (vm_secret m)
    (vm_recovery m) (vm_confirmation m).

Definition VaultModal_default : VaultModal := mkVaultModal Menu None "" None "" false "".

Record App : Type := mkApp {
  mode : AppMode;
  previous_mode : option AppMode;
  focus : Focus;
  vault_key : option string;
  notes : list ClientNoteSummary;
  selected_index : option nat;
  preview : option ClientNoteDetail;
  preview_scroll : N;
  search_query : string;
  search_results : list ClientNoteSummary;
  conflicts : list ClientConflictSummary;
  selected_conflict_index : option nat;
  conflict_detail : option ClientConflictDetail;
  edit_title : string;
  edit_tags : string;
  edit_body : string;
  edit_field : EditField;
  passphrase_input : string;
  unlock_error : option string;
  account_state : ClientAuthState;
  auth_op_generation : N;
  account_server_input : string;
  account_token_input : string;
  account_focus_field : AccountField;
  account_pending_action : option AccountPendingAction;
  account_ssh_identities : list AgentIdentity;
  account_ssh_selected : nat;
  vault_modal : VaultModal;
  sync_status : SyncStatus;
  status_message : option string;
  error_message : option string;
  terminal_width : N;
  terminal_height : N;
  should_quit : bool;
  request_external_editor : bool
}.
#[export] Instance App_eta : Eta App := fun a =>
  mkApp (mode a) (previous_mode a) (focus a) (vault_key a) (notes a) (selected_index a) (preview a)
    (preview_scroll a) (search_query a) (search_results a) (conflicts a) (selected_conflict_index a)
    (conflict_detail a) (edit_title a) (edit_tags a) (edit_body a) (edit_field a) (passphrase_input a)
    (unlock_error a) (account_state a) (auth_op_generation a) (account_server_input a)
    (account_token_input a) (account_focus_field a) (account_pending_action a)
    (account_ssh_identities a) (account_ssh_selected a) (vault_modal a) (sync_status a)
    (status_message a) (error_message a) (terminal_width a) (terminal_height a) (should_quit a)
    (request_external_editor a).

(** ** action.rs and keys *)

Inductive Action : Type :=
| MoveUp | MoveDown | JumpTop | JumpBottom | NextPane | PrevPane | ScrollPreviewUp
| ScrollPreviewDown | Select
| EnterSearch | SearchChar (c : Char) | SearchBackspace | ExitSearch
| EnterCreate | EnterInlineEdit | CancelEdit | SaveEdit | EditChar (c : Char) | EditBackspace
| EditNewline | EditNextField | EditPrevField | OpenExternalEditor
| AskDelete | ConfirmDelete | CancelDelete
| OpenConflicts | CloseConflicts | ConflictKeepLocal | ConflictAcceptRemote | ConflictMerge
| ConflictDuplicate | ConflictRestore
| LockVault | UnlockChar (c : Char) | UnlockBackspace | SubmitUnlock
| TriggerSync
| OpenAccount | CloseAccount | AccountServerChar (c : Char) | AccountServerBackspace
| AccountTokenChar (c : Char) | AccountTokenBackspace | AccountNextField | AccountPrevField
| AccountSubmit | AccountSshSubmit | AccountSshNext | AccountSshDiscover | AccountSignOut
| AccountRefresh
| ToggleHelp | CloseOverlay | Tick | Resize (w h : N) | Quit.

(** [impl Debug for Action].  The last arm formats the action itself, so [{other:?}]
    calls this function again on the same action; [None] is running out of stack. *)
Fixpoint Action_fmt (fuel : nat) (action : Action) : option string :=
  match fuel with
  | 0 => None
  | S fuel =>
      match action with
      | UnlockChar _ => Some "Action::UnlockChar([REDACTED])"
      | UnlockBackspace => Some "Action::UnlockBackspace"
      | SubmitUnlock => Some "Action::SubmitUnlock"
      | SearchChar _ => Some "Action::SearchChar([REDACTED])"
      | EditChar _ => Some "Action::EditChar([REDACTED])"
      | AccountTokenChar _ => Some "Action::AccountTokenChar([REDACTED])"
      | AccountTokenBackspace => Some "Action::AccountTokenBackspace"
      | AccountSshSubmit => Some "Action::AccountSshSubmit"
      | AccountSshNext => Some "Action::AccountSshNext"
      | AccountSshDiscover => Some "Action::AccountSshDiscover"
      | AccountSubmit => Some "Action::AccountSubmit"
      | other => String.append "Action::" <$> Action_fmt fuel other
      end
  end.

(** crossterm's [KeyCode], as far as the interface looks at it. *)
Inductive KeyCode : Type :=
| KChar (c : Char) | KEsc | KEnter | KTab | KBackTab | KBackspace | KUp | KDown | KLeft | KRight | KOther.
Record KeyEvent : Type := mkKey { key_code : KeyCode; key_ctrl : bool }.

Definition char_is (c : Char) (a : ascii) : bool := (code_point c =? N_of_ascii a)%N.
Definition key_is (k : KeyCode) (a : ascii) : bool :=
  match k with KChar c => char_is c a | _ => false end.

(** [String::push] and [String::pop] *)
Definition push (s : string) (c : Char) : string := s +:+ char_bytes c.
Definition pop (s : string) : string := of_chars (removelast (chars s)).

Section tui.
Context {W : Type} `{ClientServices W}.

Record Tui : Type := mkTui { app : App; world : W }.
Abbreviation T A := (M Tui Empty_set A).

Definition the_app : T App := fun t => (Ok (app t), t).
Definition modify (f : App -> App) : T unit := fun t => (Ok tt, mkTui (f (app t)) (world t)).

(** A call of a service, and one that cannot fail. *)
Definition svc {A} (m : M W CliError A) : T (Result A CliError) :=
  fun t => let '(r, w) := m (world t) in (Ok r, mkTui (app t) w).
Definition ask {A} (f : W -> A * W) : T A :=
  fun t => let '(a, w) := f (world t) in (Ok a, mkTui (app t) w).

Definition text (e : CliError) : string := CliError_display str_dbg e.

(** *** Reloading *)

Definition displayed_notes (a : App) : list ClientNoteSummary :=
  if bool_decide (mode a = SearchMode) || negb (bool_decide (search_query a = ""))
  then search_results a else notes a.

Definition no_preview (a : App) : App := a.[ preview := None ].[ preview_scroll := 0%N ].

Definition load_selected_preview : T unit :=
  a ← the_app;
  match selected_index a ≫= fun idx => displayed_notes a !! idx, vault_key a with
  | Some item, Some key =>
      r ← svc (svc_get_note key (ns_id item));
      match r with
      | Ok detail => modify (fun a => a.[ preview := Some detail ].[ preview_scroll := 0%N ])
      | Err _ => modify no_preview
      end
  | _, _ => modify no_preview
  end.

Definition default_index (o : option nat) : nat := match o with Some i => i | None => 0 end.

Definition reload_notes : T unit :=
  a ← the_app;
  match vault_key a with
  | Some key =>
      r ← svc (svc_list_notes key);
      match r with
      | Ok loaded =>
          _ ← modify (fun a => a.[ notes := loaded ]);
          if bool_decide (loaded = []) then
            modify (fun a => a.[ selected_index := None ].[ preview := None ])
          else
            _ ← modify (fun a =>
                  a.[ selected_index := Some (default_index (selected_index a) `min` (length loaded - 1)) ]);
            load_selected_preview
      | Err e => modify (fun a => a.[ error_message := Some ("Failed to load notes: " +:+ text e) ])
      end
  | None => mret tt
  end.

Definition load_selected_conflict_detail : T unit :=
  a ← the_app;
  match selected_conflict_index a ≫= fun idx => conflicts a !! idx, vault_key a with
  | Some item, Some key =>
      r ← svc (svc_conflict_detail key (cs_conflict_id item));
      match r with
      | Ok detail => modify (fun a => a.[ conflict_detail := Some detail ])
      | Err _ => modify (fun a => a.[ conflict_detail := None ])
      end
  | _, _ => modify (fun a => a.[ conflict_detail := None ])
  end.

Definition reload_conflicts : T unit :=
  a ← the_app;
  r ← svc (svc_list_conflicts (vault_key a));
  match r with
  | Ok loaded =>
      _ ← modify (fun a => a.[ conflicts := loaded ]);
      if (0 <? length loaded)%nat then
        _ ← modify (fun a =>
              a.[ selected_conflict_index :=
                    Some (default_index (selected_conflict_index a) `min` (length loaded - 1)) ]);
        load_selected_conflict_detail
      else modify (fun a => a.[ selected_conflict_index := None ].[ conflict_detail := None ])
  | Err e => modify (fun a => a.[ error_message := Some ("Failed to load conflicts: " +:+ text e) ])
  end.

(** *** Locking *)

(** The buffers that [lock_and_clear] empties before it touches the session file. *)
Definition cleared (a : App) : App :=
  a.[ vault_modal := VaultModal_default ].[ vault_key := None ].[ passphrase_input := "" ]
   .[ unlock_error := None ].[ notes := [] ].[ selected_index := None ].[ preview := None ]
   .[ preview_scroll := 0%N ].[ search_query := "" ].[ search_results := [] ].[ conflicts := [] ]
   .[ selected_conflict_index := None ].[ conflict_detail := None ].[ edit_title := "" ]
   .[ edit_tags := "" ].[ edit_body := "" ].[ account_token_input := "" ]
   .[ account_pending_action := None ].[ account_ssh_identities := [] ].[ account_ssh_selected := 0 ]
   .[ mode := Locked ].[ previous_mode := None ].

Definition lock_and_clear : T (Result unit CliError) :=
  _ ← modify cleared;
  r ← svc svc_lock_vault;
  _ ← modify (fun a =>
        match r with
        | Ok _ => a.[ status_message := Some "Vault locked." ].[ error_message := None ]
        | Err e =>
            a.[ status_message := None ]
             .[ error_message := Some ("Failed to invalidate session: " +:+ text e) ]
        end);
  mret r.

Definition record_user_activity : T unit :=
  a ← the_app;
  if negb (bool_decide (mode a = Locked)) && bool_decide (is_Some (vault_key a))
  then _ ← svc svc_touch; mret tt
  else mret tt.

Definition tick : T unit :=
  a ← the_app;
  if negb (bool_decide (mode a = Locked)) && bool_decide (is_Some (vault_key a)) then
    r ← svc svc_session_expired;
    match r with
    | Ok true =>
        lock_res ← lock_and_clear;
        if is_ok lock_res
        then modify (fun a =>
               a.[ status_message := Some "Vault locked due to inactivity auto-lock policy." ])
        else mret tt
    | Ok false => mret tt
    | Err e =>
        _ ← lock_and_clear;
        modify (fun a => a.[ error_message := Some ("Auto-lock session check failed: " +:+ text e) ])
    end
  else mret tt.

(** *** Searching, saving, resolving *)

Definition perform_incremental_search : T unit :=
  a ← the_app;
  _ ← (if bool_decide (str_trim (search_query a) = "") then modify (fun a => a.[ search_results := notes a ])
       else match vault_key a with
            | Some key =>
                r ← svc (svc_search_notes key (search_query a));
                match r with
                | Ok results =>
                    modify (fun a => a.[ search_results :=
                      omap (fun id => find_first (fun n => bool_decide (ns_id n = id)) (notes a)) results ])
                | Err e =>
                    modify (fun a => a.[ error_message := Some ("Search failed: " +:+ text e) ]
                                      .[ search_results := [] ])
                end
            | None => modify (fun a => a.[ search_results := [] ])
            end);
  _ ← modify (fun a => a.[ selected_index := if bool_decide (search_results a = []) then None else Some 0 ]);
  load_selected_preview.

(** [self.notes.iter().position(|n| n.id == id)] *)
Fixpoint position (id : string) (l : list ClientNoteSummary) : option nat :=
  match l with
  | [] => None
  | n :: l' => if bool_decide (ns_id n = id) then Some 0 else S <$> position id l'
  end.

Definition save_edit_form : T unit :=
  a ← the_app;
  match vault_key a with
  | None => mret tt
  | Some key =>
      let tags := List.filter (fun t => negb (bool_decide (t = "")))
                    (map str_trim (str_split "," (edit_tags a))) in
      let title := if bool_decide (str_trim (edit_title a) = "") then "Untitled Note"
                   else str_trim (edit_title a) in
      res ← match mode a with
            | Create => r ← svc (svc_create_note key title (edit_body a) tags); mret (Some r)
            | InlineEdit =>
                match preview a with
                | Some detail =>
                    r ← svc (svc_update_note key (nd_id detail) title (edit_body a) tags);
                    mret (Some (match r with Ok _ => Ok (nd_id detail) | Err e => Err e end))
                | None => mret (Some (Err (Io "no note selected")))
                end
            | _ => mret None
            end;
      match res with
      | None => mret tt
      | Some (Ok id) =>
          _ ← modify (fun a => a.[ status_message := Some "Note saved successfully." ].[ mode := Normal ]);
          _ ← reload_notes;
          a ← the_app;
          match position id (notes a) with
          | Some pos =>
              _ ← modify (fun a => a.[ selected_index := Some pos ]);
              load_selected_preview
          | None => mret tt
          end
      | Some (Err e) =>
          modify (fun a => a.[ error_message := Some ("Failed to save note: " +:+ text e) ])
      end
  end.

Definition resolve_current_conflict (strategy : ConflictResolutionStrategy) : T unit :=
  a ← the_app;
  match selected_conflict_index a ≫= fun idx => conflicts a !! idx, vault_key a with
  | Some conflict, Some key =>
      r ← svc (svc_resolve_conflict key (cs_conflict_id conflict) strategy);
      match r with
      | Ok object_id =>
          _ ← modify (fun a => a.[ status_message :=
                Some ("Conflict resolved for note " +:+ object_id +:+ ".") ]);
          _ ← reload_conflicts;
          reload_notes
      | Err e =>
          modify (fun a => a.[ error_message := Some ("Conflict resolution failed: " +:+ text e) ])
      end
  | _, _ => mret tt
  end.

(** *** update: one definition per group of actions *)

Definition take_previous (fallback : AppMode) (a : App) : App :=
  a.[ mode := default fallback (previous_mode a) ].[ previous_mode := None ].

Definition resize (w h : N) (a : App) : App :=
  let a := a.[ terminal_width := w ].[ terminal_height := h ] in
  if (w <? MIN_COLS)%N || (h <? MIN_ROWS)%N then
    if bool_decide (mode a = TerminalTooSmall) then a
    else a.[ previous_mode := Some (mode a) ].[ mode := TerminalTooSmall ]
  else if bool_decide (mode a = TerminalTooSmall) then take_previous Normal a
  else a.

Definition toggle_help (a : App) : App :=
  if bool_decide (mode a = Help) then take_previous Normal a
  else if bool_decide (mode a = TerminalTooSmall) || bool_decide (mode a = Locked) then a
  else a.[ previous_mode := Some (mode a) ].[ mode := Help ].

Definition close_overlay (a : App) : App :=
  match mode a with
  | Help | ConflictMode => take_previous Normal a
  | Account => take_previous Normal (a.[ account_token_input := "" ])
  | DeleteConfirm => a.[ mode := Normal ]
  | _ => a
  end.

Definition submit_unlock : T unit :=
  a ← the_app;
  if bool_decide (mode a = Locked) then
    r ← svc (svc_unlock_vault (passphrase_input a));
    match r with
    | Ok key =>
        _ ← modify (fun a => a.[ vault_key := Some key ].[ passphrase_input := "" ]
                              .[ unlock_error := None ].[ mode := Normal ]);
        _ ← reload_notes;
        _ ← reload_conflicts;
        modify (fun a => a.[ status_message := Some "Vault unlocked." ])
    | Err _ =>
        modify (fun a => a.[ passphrase_input := "" ]
          .[ unlock_error := Some "Unlock failed: incorrect passphrase or corrupted vault." ])
    end
  else mret tt.

(** Moves the selection of the list the mode shows, when that list is not empty. *)
Definition select_with (next : nat -> option nat -> nat) : T unit :=
  a ← the_app;
  match mode a with
  | Normal | SearchMode =>
      let total := length (displayed_notes a) in
      if (0 <? total)%nat then
        _ ← modify (fun a => a.[ selected_index := Some (next total (selected_index a)) ]);
        load_selected_preview
      else mret tt
  | ConflictMode =>
      let total := length (conflicts a) in
      if (0 <? total)%nat then
        _ ← modify (fun a =>
              a.[ selected_conflict_index := Some (next total (selected_conflict_index a)) ]);
        load_selected_conflict_detail
      else mret tt
  | _ => mret tt
  end.

Definition move_up : T unit := select_with (fun _ curr => default_index curr - 1).
Definition move_down : T unit :=
  select_with (fun total curr => (default_index curr + 1) `min` (total - 1)).
Definition jump_top : T unit := select_with (fun _ _ => 0).
Definition jump_bottom : T unit := select_with (fun total _ => total - 1).

Definition other_pane (a : App) : App :=
  if bool_decide (mode a = Normal) then
    a.[ focus := match focus a with NotesList => NotePreview | NotePreview => NotesList end ]
  else a.

Definition enter_search (a : App) : App :=
  if bool_decide (mode a = Normal)
  then a.[ mode := SearchMode ].[ search_query := "" ].[ search_results := notes a ] else a.

Definition search_edit (f : string -> string) : T unit :=
  a ← the_app;
  if bool_decide (mode a = SearchMode) then
    _ ← modify (fun a => a.[ search_query := f (search_query a) ]);
    perform_incremental_search
  else mret tt.

Definition exit_search : T unit :=
  a ← the_app;
  if bool_decide (mode a = SearchMode) then
    _ ← modify (fun a => a.[ search_query := "" ].[ search_results := [] ].[ mode := Normal ]
          .[ selected_index := if bool_decide (notes a = []) then None else Some 0 ]);
    load_selected_preview
  else mret tt.

Definition enter_create (a : App) : App :=
  if bool_decide (mode a = Normal)
  then a.[ mode := Create ].[ edit_title := "" ].[ edit_tags := "" ].[ edit_body := "" ]
        .[ edit_field := TitleField ]
  else a.

Definition enter_inline_edit (a : App) : App :=
  if bool_decide (mode a = Normal) then
    match preview a with
    | Some detail =>
        a.[ mode := InlineEdit ].[ edit_title := nd_title detail ]
         .[ edit_tags := str_join ", " (nd_tags detail) ].[ edit_body := nd_body detail ]
         .[ edit_field := TitleField ]
    | None => a
    end
  else a.

Definition cancel_edit (a : App) : App :=
  if bool_decide (mode a = Create) || bool_decide (mode a = InlineEdit)
  then a.[ edit_title := "" ].[ edit_tags := "" ].[ edit_body := "" ].[ mode := Normal ] else a.

(** Applies [f] to the buffer of the field being edited. *)
Definition edit_current (f : string -> string) (a : App) : App :=
  match edit_field a with
  | TitleField => a.[ edit_title := f (edit_title a) ]
  | TagsField => a.[ edit_tags := f (edit_tags a) ]
  | BodyField => a.[ edit_body := f (edit_body a) ]
  end.

Definition edit_newline (a : App) : App :=
  match edit_field a with
  | BodyField => a.[ edit_body := edit_body a +:+ String "010" "" ]
  | TitleField => a.[ edit_field := TagsField ]
  | TagsField => a.[ edit_field := BodyField ]
  end.

Definition next_edit_field (f : EditField) : EditField :=
  match f with TitleField => TagsField | TagsField => BodyField | BodyField => TitleField end.
Definition prev_edit_field (f : EditField) : EditField :=
  match f with TitleField => BodyField | TagsField => TitleField | BodyField => TagsField end.

Definition has_preview (a : App) : bool := bool_decide (is_Some (preview a)).

Definition confirm_delete : T unit :=
  a ← the_app;
  if bool_decide (mode a = DeleteConfirm) then
    match preview a with
    | Some detail =>
        r ← svc (svc_delete_note (nd_id detail));
        match r with
        | Ok _ =>
            _ ← modify (fun a => a.[ status_message := Some "Note deleted (tombstone created)." ]
                                  .[ mode := Normal ]);
            reload_notes
        | Err e =>
            modify (fun a => a.[ error_message := Some ("Delete failed: " +:+ text e) ]
                              .[ mode := Normal ])
        end
    | None => mret tt
    end
  else mret tt.

Definition open_conflicts : T unit :=
  a ← the_app;
  if bool_decide (mode a = Normal) then
    _ ← reload_conflicts;
    modify (fun a => a.[ previous_mode := Some Normal ].[ mode := ConflictMode ])
  else mret tt.

Definition conflict_merge : T unit :=
  a ← the_app;
  match conflict_detail a with
  | Some detail =>
      match cd_candidate_note detail with
      | Some cand => resolve_current_conflict (MergeWith cand)
      | None =>
          modify (fun a =>
            a.[ error_message := Some "No merge candidate available for this conflict." ])
      end
  | None => mret tt
  end.

Definition conflict_duplicate : T unit :=
  new_id ← ask svc_new_uuid;
  resolve_current_conflict (DuplicateAsSeparate new_id None).

(** *** The account dialogue *)

Definition invalidate_auth_ops (a : App) : App :=
  a.[ auth_op_generation := ((auth_op_generation a + 1) mod 2 ^ 64)%N ].

Definition in_account (f : App -> App) (a : App) : App :=
  if bool_decide (mode a = Account) then f a else a.

Definition open_account (a : App) : App :=
  if bool_decide (mode a = TerminalTooSmall) then a
  else a.[ previous_mode := Some (mode a) ].[ mode := Account ]
        .[ account_focus_field :=
             if bool_decide (account_server_input a = "") then ServerUrl else Token ].

Definition close_account (a : App) : App :=
  in_account (fun a =>
    take_previous Normal
      (a.[ account_token_input := "" ].[ account_pending_action := None ]
        .[ account_ssh_identities := [] ].[ account_ssh_selected := 0 ])) a.

Definition next_account_field (f : AccountField) : AccountField :=
  match f with
  | ServerUrl => Token
  | Token => ConnectButton
  | ConnectButton => SshButton
  | SshButton => SignOutButton
  | SignOutButton => ServerUrl
  end.
Definition prev_account_field (f : AccountField) : AccountField :=
  match f with
  | ServerUrl => SignOutButton
  | Token => ServerUrl
  | ConnectButton => Token
  | SignOutButton => SshButton
  | SshButton => ConnectButton
  end.

Definition account_submit (a : App) : App :=
  in_account (fun a =>
    let url := str_trim (account_server_input a) in
    let tok := str_trim (account_token_input a) in
    (invalidate_auth_ops a)
      .[ account_pending_action :=
           if bool_decide (tok = "") && bool_decide (account_ssh_identities a = [])
           then Some DiscoverIdentities else Some (Connect url tok) ]
      .[ account_token_input := "" ]
      .[ status_message := Some "SSH agent: select identity with Left/Right, then Enter; token login remains available." ]
      .[ error_message := None ]) a.

Definition account_ssh_next (a : App) : App :=
  in_account (fun a =>
    if bool_decide (account_ssh_identities a = []) then a
    else a.[ account_ssh_selected :=
               ((account_ssh_selected a + 1) mod length (account_ssh_identities a))%nat ]) a.

Definition account_request (action : AccountPendingAction) (message : string) (a : App) : App :=
  in_account (fun a =>
    (invalidate_auth_ops a).[ account_pending_action := Some action ]
      .[ status_message := Some message ].[ error_message := None ]) a.

Definition update (action : Action) : T unit :=
  match action with
  | Quit => modify (fun a => a.[ should_quit := true ])
  | Resize w h => modify (resize w h)
  | Tick => tick
  | ToggleHelp => modify toggle_help
  | CloseOverlay => modify close_overlay
  | LockVault => _ ← lock_and_clear; mret tt
  | UnlockChar c =>
      modify (fun a => if bool_decide (mode a = Locked)
                       then a.[ passphrase_input := push (passphrase_input a) c ].[ unlock_error := None ]
                       else a)
  | UnlockBackspace =>
      modify (fun a => if bool_decide (mode a = Locked)
                       then a.[ passphrase_input := pop (passphrase_input a) ].[ unlock_error := None ]
                       else a)
  | SubmitUnlock => submit_unlock
  | MoveUp => move_up
  | MoveDown => move_down
  | JumpTop => jump_top
  | JumpBottom => jump_bottom
  | NextPane | PrevPane => modify other_pane
  | ScrollPreviewUp => modify (fun a => a.[ preview_scroll := (preview_scroll a - 2)%N ])
  | ScrollPreviewDown =>
      modify (fun a => a.[ preview_scroll := N.min (preview_scroll a + 2) (2 ^ 16 - 1) ])
  | Select => modify (fun a => if bool_decide (mode a = Normal) then a.[ focus := NotePreview ] else a)
  | EnterSearch => modify enter_search
  | SearchChar c => search_edit (fun q => push q c)
  | SearchBackspace => search_edit pop
  | ExitSearch => exit_search
  | EnterCreate => modify enter_create
  | EnterInlineEdit => modify enter_inline_edit
  | CancelEdit => modify cancel_edit
  | SaveEdit => save_edit_form
  | EditChar c => modify (edit_current (fun s => push s c))
  | EditBackspace => modify (edit_current pop)
  | EditNewline => modify edit_newline
  | EditNextField => modify (fun a => a.[ edit_field := next_edit_field (edit_field a) ])
  | EditPrevField => modify (fun a => a.[ edit_field := prev_edit_field (edit_field a) ])
  | OpenExternalEditor =>
      modify (fun a => if bool_decide (mode a = Normal) && has_preview a
                       then a.[ request_external_editor := true ] else a)
  | AskDelete =>
      modify (fun a => if bool_decide (mode a = Normal) && has_preview a
                       then a.[ mode := DeleteConfirm ] else a)
  | ConfirmDelete => confirm_delete
  | CancelDelete =>
      modify (fun a => if bool_decide (mode a = DeleteConfirm) then a.[ mode := Normal ] else a)
  | OpenConflicts => open_conflicts
  | CloseConflicts =>
      modify (fun a => if bool_decide (mode a = ConflictMode) then a.[ mode := Normal ] else a)
  | ConflictKeepLocal => resolve_current_conflict KeepLocal
  | ConflictAcceptRemote => resolve_current_conflict KeepRemote
  | ConflictMerge => conflict_merge
  | ConflictDuplicate => conflict_duplicate
  | ConflictRestore => resolve_current_conflict RestoreResurrect
  | TriggerSync =>
      modify (fun a => a.[ status_message := Some "Sync triggered..." ].[ sync_status := SS_Syncing ])
  | OpenAccount => modify open_account
  | CloseAccount => modify close_account
  | AccountServerChar c =>
      modify (in_account (fun a => a.[ account_server_input := push (account_server_input a) c ]))
  | AccountServerBackspace =>
      modify (in_account (fun a => a.[ account_server_input := pop (account_server_input a) ]))
  | AccountTokenChar c =>
      modify (in_account (fun a => a.[ account_token_input := push (account_token_input a) c ]))
  | AccountTokenBackspace =>
      modify (in_account (fun a => a.[ account_token_input := pop (account_token_input a) ]))
  | AccountNextField =>
      modify (in_account (fun a => a.[ account_focus_field := next_account_field (account_focus_field a) ]))
  | AccountPrevField =>
      modify (in_account (fun a => a.[ account_focus_field := prev_account_field (account_focus_field a) ]))
  | AccountSubmit => modify account_submit
  | AccountSshSubmit =>
      modify (in_account (fun a => account_submit (a.[ account_token_input := "" ])))
  | AccountSshNext => modify account_ssh_next
  | AccountSshDiscover =>
      modify (in_account (fun a => a.[ account_pending_action := Some DiscoverIdentities ]))
  | AccountSignOut => modify (account_request SignOut "Revoking session with server...")
  | AccountRefresh => modify (account_request RefreshStatus "Checking server status...")
  end.

(** *** Sessions and background results *)

Definition apply_account_session (session : StoredAuthSession) (a : App) : App :=
  take_previous Normal
    (a.[ account_state := Authenticated (as_server_url session) (as_account_id session)
           (as_device_id session) (as_session_id session) (as_expires_at session) ]
      .[ account_server_input := as_server_url session ]
      .[ account_ssh_identities := [] ].[ account_ssh_selected := 0 ]
      .[ status_message := Some "Terminal device authorized successfully." ]
      .[ error_message := None ]).

(** Two identities conflict when both are known and differ. *)
Definition identity_conflict (curr new : option string) : bool :=
  match curr, new with Some c, Some n => negb (bool_decide (c = n)) | _, _ => false end.

(** An expectation fails when there is one and the current value is not it. *)
Definition unexpected (expected current : option string) : bool :=
  match expected with Some e => negb (bool_decide (current = Some e)) | None => false end.

(** The five guards. *)
Definition rejects (generation : N) (expected_account_id expected_server_url : option string)
    (result : Result ClientAuthState CliError) (a : App) : bool :=
  negb (bool_decide (generation = auth_op_generation a))
  || is_local_only (account_state a)
  || unexpected expected_account_id (auth_account_id (account_state a))
  || unexpected expected_server_url (auth_server_url (account_state a))
  || match result with
     | Ok st => identity_conflict (auth_account_id (account_state a)) (auth_account_id st)
                || identity_conflict (auth_server_url (account_state a)) (auth_server_url st)
     | Err _ => false
     end.

Definition apply_auth_worker_result (generation : N)
    (expected_account_id expected_server_url : option string)
    (result : Result ClientAuthState CliError) (is_refresh : bool) (a : App) : bool * App :=
  if rejects generation expected_account_id expected_server_url result a then (false, a)
  else
    (true,
     match result with
     | Ok st =>
         let a := a.[ account_state := st ] in
         if is_refresh
         then a.[ status_message := Some "Server status updated." ].[ error_message := None ] else a
     | Err e =>
         if is_refresh
         then a.[ error_message := Some ("Failed to refresh status: " +:+ text e) ]
               .[ status_message := None ]
         else a.[ account_state :=
                    AuthStateError (default "" (auth_server_url (account_state a))) (text e) ]
     end).

(** *** handle_key: one definition per mode *)

Definition VaultModal_handle_key (key : KeyEvent) (m : VaultModal) : VaultModal :=
  match vm_phase m with
  | Menu =>
      if key_is (key_code key) "l" then m.[ vm_pending := Some Link ]
      else if key_is (key_code key) "r" then m.[ vm_pending := Some RestorePreflight ]
      else if key_is (key_code key) "x" then m.[ vm_pending := Some ReplacePreflight_ ]
      else m
  | ReplaceConfirm =>
      match key_code key with
      | KChar c => m.[ vm_confirmation := push (vm_confirmation m) c ]
      | KBackspace => m.[ vm_confirmation := pop (vm_confirmation m) ]
      | KEnter =>
          if bool_decide (vm_confirmation m = "REPLACE LOCAL VAULT")
          then m.[ vm_phase := ReplaceSecret ].[ vm_confirmation := "" ] else m
      | _ => m
      end
  | RestoreSecret | ReplaceSecret =>
      match key_code key with
      | KTab => m.[ vm_secret := "" ].[ vm_recovery := negb (vm_recovery m) ]
      | KChar c => m.[ vm_secret := push (vm_secret m) c ]
      | KBackspace => m.[ vm_secret := pop (vm_secret m) ]
      | KEnter =>
          m.[ vm_pending := Some (match vm_phase m with ReplaceSecret => StageReplace
                                                      | _ => StageRestore end) ]
      | _ => m
      end
  end.

Definition vault_key_press (key : KeyEvent) (a : App) : App :=
  match key_code key with
  | KEsc => take_previous Locked (a.[ vault_modal := VaultModal_default ])
  | _ =>
      let a := a.[ vault_modal := VaultModal_handle_key key (vault_modal a) ] in
      match vm_pending (vault_modal a) with
      | Some StageRestore | Some StageReplace => a.[ sync_status := SS_Restoring ]
      | _ => a
      end
  end.

Definition locked_key (key : KeyEvent) : T unit :=
  a ← the_app;
  let quit := bool_decide (passphrase_input a = "") in
  match key_code key with
  | KEsc => if quit then update Quit else mret tt
  | KChar c => if char_is c "q" && quit then update Quit else update (UnlockChar c)
  | KBackspace => update UnlockBackspace
  | KEnter => update SubmitUnlock
  | _ => mret tt
  end.

Definition help_key (key : KeyEvent) : T unit :=
  match key_code key with
  | KEsc | KEnter => update CloseOverlay
  | KChar c => if char_is c "q" || char_is c "?" then update CloseOverlay else mret tt
  | _ => mret tt
  end.

Definition delete_key (key : KeyEvent) : T unit :=
  match key_code key with
  | KChar c =>
      if char_is c "y" || char_is c "Y" then update ConfirmDelete
      else if char_is c "n" || char_is c "N" then update CancelDelete
      else mret tt
  | KEsc => update CancelDelete
  | _ => mret tt
  end.

Definition conflict_key (key : KeyEvent) : T unit :=
  match key_code key with
  | KEsc => update CloseConflicts
  | KDown => update MoveDown
  | KUp => update MoveUp
  | KChar c =>
      if char_is c "q" then update CloseConflicts
      else if char_is c "j" then update MoveDown
      else if char_is c "k" then update MoveUp
      else if char_is c "1" || char_is c "l" then update ConflictKeepLocal
      else if char_is c "2" || char_is c "r" then update ConflictAcceptRemote
      else if char_is c "3" || char_is c "m" then update ConflictMerge
      else if char_is c "4" || char_is c "d" then update ConflictDuplicate
      else if char_is c "R" then update ConflictRestore
      else mret tt
  | _ => mret tt
  end.

Definition account_char (c : Char) (field : AccountField) : T unit :=
  match field with
  | ServerUrl => update (AccountServerChar c)
  | Token => update (AccountTokenChar c)
  | ConnectButton => if char_is c "c" || char_is c " " then update AccountSubmit else mret tt
  | SshButton =>
      if char_is c " " then update AccountSshSubmit
      else if char_is c "r" then update AccountSshDiscover else mret tt
  | SignOutButton => if char_is c "x" || char_is c " " then update AccountSignOut else mret tt
  end.

Definition account_key (key : KeyEvent) : T unit :=
  a ← the_app;
  match key_code key with
  | KEsc => update CloseAccount
  | KTab | KDown => update AccountNextField
  | KBackTab | KUp => update AccountPrevField
  | KChar c =>
      if char_is c "x" && key_ctrl key then update AccountSignOut
      else if char_is c "r" && key_ctrl key then update AccountRefresh
      else account_char c (account_focus_field a)
  | KEnter =>
      match account_focus_field a with
      | ServerUrl => update AccountNextField
      | Token | ConnectButton => update AccountSubmit
      | SshButton => update AccountSshSubmit
      | SignOutButton => update AccountSignOut
      end
  | KLeft | KRight =>
      match account_focus_field a with SshButton => update AccountSshNext | _ => mret tt end
  | KBackspace =>
      match account_focus_field a with
      | ServerUrl => update AccountServerBackspace
      | Token => update AccountTokenBackspace
      | _ => mret tt
      end
  | KOther => mret tt
  end.

Definition search_key (key : KeyEvent) : T unit :=
  match key_code key with
  | KEsc => update ExitSearch
  | KEnter => modify (fun a => a.[ mode := Normal ])
  | KBackspace => update SearchBackspace
  | KChar c => update (SearchChar c)
  | KDown => update MoveDown
  | KUp => update MoveUp
  | _ => mret tt
  end.

Definition edit_key (key : KeyEvent) : T unit :=
  a ← the_app;
  match key_code key with
  | KEsc => update CancelEdit
  | KTab => update EditNextField
  | KBackTab => update EditPrevField
  | KEnter => match edit_field a with BodyField => update EditNewline | _ => update EditNextField end
  | KBackspace => update EditBackspace
  | KChar c => if char_is c "s" && key_ctrl key then update SaveEdit else update (EditChar c)
  | _ => mret tt
  end.

(** Down and up act on the focused pane. *)
Definition normal_down : T unit :=
  a ← the_app; match focus a with NotesList => update MoveDown | NotePreview => update ScrollPreviewDown end.
Definition normal_up : T unit :=
  a ← the_app; match focus a with NotesList => update MoveUp | NotePreview => update ScrollPreviewUp end.

Definition normal_char (c : Char) : T unit :=
  if char_is c "q" then update Quit
  else if char_is c "?" then update ToggleHelp
  else if char_is c "l" then update LockVault
  else if char_is c "a" then update OpenAccount
  else if char_is c "/" then update EnterSearch
  else if char_is c "n" then update EnterCreate
  else if char_is c "e" then update EnterInlineEdit
  else if char_is c "E" then update OpenExternalEditor
  else if char_is c "d" then update AskDelete
  else if char_is c "c" then update OpenConflicts
  else if char_is c "s" then update TriggerSync
  else if char_is c "j" then normal_down
  else if char_is c "k" then normal_up
  else if char_is c "g" then update JumpTop
  else if char_is c "G" then update JumpBottom
  else mret tt.

Definition normal_key (key : KeyEvent) : T unit :=
  match key_code key with
  | KChar c => normal_char c
  | KDown => normal_down
  | KUp => normal_up
  | KTab => update NextPane
  | KBackTab => update PrevPane
  | KEnter => update Select
  | KEsc => modify (fun a => a.[ status_message := None ].[ error_message := None ])
  | _ => mret tt
  end.

Definition open_vault (a : App) : App :=
  a.[ passphrase_input := "" ].[ previous_mode := Some (mode a) ].[ mode := VaultMode ]
   .[ vault_modal := VaultModal_default.[ vm_pending := Some Inspect ] ].

Definition mode_key (key : KeyEvent) : T unit :=
  a ← the_app;
  match mode a with
  | VaultMode => modify (vault_key_press key)
  | TerminalTooSmall => if key_is (key_code key) "q" then update Quit else mret tt
  | Locked => locked_key key
  | Help => help_key key
  | DeleteConfirm => delete_key key
  | ConflictMode => conflict_key key
  | Account => account_key key
  | SearchMode => search_key key
  | Create | InlineEdit => edit_key key
  | Normal => normal_key key
  end.

Definition handle_key (key : KeyEvent) : T unit :=
  _ ← modify (fun a => a.[ error_message := None ]);
  a ← the_app;
  _ ← (if bool_decide (mode a = Locked) || bool_decide (mode a = TerminalTooSmall)
       then mret tt else record_user_activity);
  let front := (bool_decide (mode a = Normal) || bool_decide (mode a = Locked)) && key_ctrl key in
  if front && key_is (key_code key) "v" then modify open_vault
  else if front && key_is (key_code key) "a" then update OpenAccount
  else mode_key key.

(** *** process_pending ([tui/vault.rs]) *)

Definition ClientAuthState_display (s : ClientAuthState) : string :=
  match s with
  | LocalOnly => "Local vault only (not signed in)"
  | Unverified _ account_id _ _ _ => "Saved session (" +:+ account_id +:+ ") — unverified"
  | Authenticated _ account_id _ _ _ => "Signed in (" +:+ account_id +:+ ")"
  | Offline _ _ _ _ _ => "Offline — local vault available"
  | Expired _ _ _ _ => "Session expired — sign in again"
  | Revoked _ _ _ _ => "Session revoked — sign in again"
  | AuthStateError _ error => "Auth error: " +:+ error
  end.

(** The asynchronous block: a service call whose error ends it, and a step that cannot fail. *)
Abbreviation B A := (M Tui CliError A).
Definition call {A} (m : M W CliError A) : B A :=
  fun t => let '(r, w) := m (world t) in (r, mkTui (app t) w).
Definition lift {A} (m : T A) : B A :=
  fun t => match m t with (Ok a, t') => (Ok a, t') | (Err e, _) => match e return Result A CliError * Tui with end end.

Definition modal (f : VaultModal -> VaultModal) (a : App) : App := a.[ vault_modal := f (vault_modal a) ].

Definition inspection_text (a : App) (info : VaultInspection) : string :=
  let nl := String "010" "" in
  "Authentication: " +:+ ClientAuthState_display (account_state a) +:+ nl +:+ "Vault: " +:+ vi_status info +:+ nl +:+ "Local: " +:+ default "absent" (vi_local_fingerprint info) +:+ nl +:+ "Remote: " +:+ default "absent" (vi_remote_fingerprint info).

Definition preflight_text (p : ReplacePreflight) : string :=
  let nl := String "010" "" in
  let c := rp_counts p in
  let n x := show_N (N.of_nat x) in
  "Current local vault: " +:+ default "absent" (rp_current_fingerprint p) +:+ nl +:+ "Current account/server: " +:+ match rp_current_link p with
       | Some l => vl_account_id l +:+ " / " +:+ vl_server_origin l
       | None => "unlinked"
       end +:+ nl +:+ "Target: " +:+ vl_account_id (rp_target_link p) +:+ " / " +:+ vl_server_origin (rp_target_link p) +:+ nl +:+ "Target vault: " +:+ vl_vault_fingerprint (rp_target_link p) +:+ nl +:+ "Discard pending " +:+ n (uc_pending c) +:+ ", in-flight " +:+ n (uc_in_flight c) +:+ ", failed " +:+ n (uc_failed c) +:+ ", conflicts " +:+ n (uc_conflicts c) +:+ ", unconfirmed objects " +:+ n (uc_unconfirmed_objects c) +:+ "." +:+ nl +:+ "Nothing local will be uploaded. The server vault is unchanged.".

Definition refresh_sync_status : T unit :=
  st ← ask svc_initial_sync_status;
  modify (fun a => a.[ sync_status := st ]).

Definition run_preflight (pending : Pending) : B unit :=
  present ← lift (if bool_decide (pending = RestorePreflight) then ask svc_vault_present else mret false);
  if (present : bool) then throw VaultAlreadyInitialized else
  p ← call svc_preflight;
  lift (modify (modal (fun m =>
    m.[ vm_description := preflight_text p ].[ vm_preflight := Some p ]
     .[ vm_phase := if bool_decide (pending = ReplacePreflight_) then ReplaceConfirm else RestoreSecret ]
     .[ vm_secret := "" ].[ vm_confirmation := "" ]))).

Definition run_stage (pending : Pending) : B unit :=
  _ ← lift (modify (fun a => a.[ sync_status := SS_Restoring ]));
  a ← lift the_app;
  let secret := vm_secret (vault_modal a) in
  _ ← lift (modify (modal (fun m => m.[ vm_secret := "" ].[ vm_preflight := None ])));
  match vm_preflight (vault_modal a) with
  | None => throw (VaultLink_ ConfirmationRequired)
  | Some p =>
      let unlock := if vm_recovery (vault_modal a) then RecoveryKey secret else Passphrase secret in
      let replace := bool_decide (pending = StageReplace) in
      stage ← call (svc_stage p unlock replace replace);
      locked ← lift lock_and_clear;
      match locked with
      | Err e => throw e
      | Ok _ =>
          _ ← call (svc_install stage);
          _ ← lift (modify (fun a => a.[ vault_modal := VaultModal_default ]));
          _ ← lift refresh_sync_status;
          lift (modify (fun a => a.[ status_message := Some "Remote vault restored and linked. Unlock locally; server authentication preserved." ].[ mode := Locked ]))
      end
  end.

Definition run_pending (pending : Pending) : B unit :=
  match pending with
  | Inspect =>
      info ← call svc_inspect;
      lift (modify (fun a => modal (fun m => m.[ vm_description := inspection_text a info ]) a))
  | Link =>
      link ← call svc_link;
      _ ← lift (modify (modal (fun m =>
            m.[ vm_description := "Vault linked to " +:+ vl_server_origin link +:+ " / " +:+ vl_account_id link ])));
      lift refresh_sync_status
  | RestorePreflight | ReplacePreflight_ => run_preflight pending
  | StageRestore | StageReplace => run_stage pending
  end.

Definition process_pending : T unit :=
  a ← the_app;
  match vm_pending (vault_modal a) with
  | None => mret tt
  | Some pending =>
      _ ← modify (modal (fun m => m.[ vm_pending := None ]));
      result ← (fun t => let '(r, t') := run_pending pending t in (Ok r, t'));
      match result with
      | Ok _ => mret tt
      | Err e =>
          _ ← modify (fun a =>
                (modal (fun m => m.[ vm_secret := "" ].[ vm_preflight := None ].[ vm_confirmation := "" ]
                                  .[ vm_phase := Menu ]) a)
                .[ error_message := Some (text e) ]);
          refresh_sync_status
      end
  end.

(** *** App::new *)

Definition initial (m : AppMode) (key : option string) (auth : ClientAuthState) (st : SyncStatus)
    (width height : N) : App :=
  let small := (width <? MIN_COLS)%N || (height <? MIN_ROWS)%N in
  mkApp (if small then TerminalTooSmall else m) (if small then Some m else None) NotesList key
    [] None None 0%N "" [] [] None None "" "" "" TitleField "" None auth 1%N
    (default "http://127.0.0.1:8080" (auth_server_url auth)) "" ServerUrl
    (if is_unverified auth then Some StartupVerify else None) [] 0 VaultModal_default st
    None None width height false false.

(** The world after the constructor's calls, and the application it builds. *)
Definition App_new (width height : N) (w : W) : Tui :=
  let '(st, w) := svc_initial_sync_status w in
  let '(auth_res, w) := svc_local_auth_state w in
  let auth := match auth_res with Ok s => s | Err _ => LocalOnly end in
  let '(vault_res, w) := svc_vault_status w in
  let '(m, key, w) :=
    match vault_res with
    | Ok (VS_Unlocked _) =>
        let '(r, w) := svc_active_key w in
        match r with Ok k => (Normal, Some k, w) | Err _ => (Locked, None, w) end
    | _ => (Locked, None, w)
    end in
  let t := mkTui (initial m key auth st width height) w in
  match key with
  | Some _ => snd ((_ ← reload_notes; reload_conflicts) t)
  | None => t
  end.

(** *** The event loop ([tui/mod.rs]) *)

Inductive TuiEvent : Type :=
| EKey (key : KeyEvent)
| EResize (w h : N)
| ETick.

(** A background task that checks the session online, as it was spawned, and the
    message it sends. *)
Record Worker : Type := mkWorker {
  wk_generation : N;
  wk_expected_account_id : option string;
  wk_expected_server_url : option string;
  wk_refresh : bool
}.
Record AuthWorkerEvent : Type := mkAuthWorkerEvent {
  ae_worker : Worker;
  ae_result : Result ClientAuthState CliError
}.

Record Loop : Type := mkLoop {
  tui : Tui;
  running : list Worker;
  channel : list AuthWorkerEvent
}.

Definition receive (t : Tui) (e : AuthWorkerEvent) : Tui :=
  mkTui (snd (apply_auth_worker_result (wk_generation (ae_worker e)) (wk_expected_account_id (ae_worker e))
                (wk_expected_server_url (ae_worker e)) (ae_result e) (wk_refresh (ae_worker e)) (app t)))
    (world t).

(** An operation of the terminal: [Some e] is the I/O error that ends [run_tui]. *)
Definition terminal_op (what : string) (failure : option string) : B unit :=
  match failure with Some e => throw (Io (what +:+ ": " +:+ e)) | None => mret tt end.

(** The editor runs between [suspend] and [resume] of the terminal. *)
Definition external_editor (suspend resume : option string) : B unit :=
  _ ← lift (modify (fun a => a.[ request_external_editor := false ]));
  a ← lift the_app;
  match preview a, vault_key a with
  | Some detail, Some key =>
      _ ← terminal_op "failed to suspend terminal for editor" suspend;
      edit_result ← lift (svc (svc_edit_external key (nd_id detail)));
      _ ← terminal_op "failed to resume terminal after editor" resume;
      match edit_result with
      | Ok _ =>
          _ ← lift (modify (fun a => a.[ status_message := Some "Note updated via external editor." ]));
          lift reload_notes
      | Err e =>
          lift (modify (fun a => a.[ error_message := Some ("External editor error: " +:+ text e) ]))
      end
  | _, _ => mret tt
  end.

Definition run_sync : T unit :=
  a ← the_app;
  if bool_decide (sync_status a = SS_Syncing) then
    r ← svc (svc_perform_sync (vault_key a));
    match r with
    | Ok status =>
        _ ← modify (fun a => a.[ sync_status := status ]);
        _ ← reload_notes;
        reload_conflicts
    | Err (VaultLink_ e) => modify (fun a => a.[ sync_status := SS_Blocked e ])
    | Err e => modify (fun a => a.[ sync_status := SS_Error (text e) ])
    end
  else mret tt.

(** What a failed sign-in or sign-out does to the account state. *)
Definition recheck_online : T unit :=
  st ← svc svc_check_online;
  match st with
  | Ok s => modify (fun a => a.[ account_state := s ])
  | Err _ => mret tt
  end.

Definition discover_identities : T unit :=
  r ← svc svc_discover;
  match r with
  | Ok keys =>
      modify (fun a => a.[ account_ssh_identities := keys ].[ account_ssh_selected := 0 ]
        .[ account_focus_field := SshButton ]
        .[ status_message := Some "Choose SSH identity: Left/Right; Enter signs in; r reloads agent." ]
        .[ error_message := None ])
  | Err e => modify (fun a => a.[ error_message := Some (text e) ])
  end.

Definition connect (server_url token : string) : T unit :=
  a ← the_app;
  auth_res ← svc (if bool_decide (token = "")
                  then svc_ssh_login server_url
                         (ai_fingerprint <$> account_ssh_identities a !! account_ssh_selected a)
                  else svc_authorize server_url token);
  _ ← modify invalidate_auth_ops;
  match auth_res with
  | Ok session => modify (apply_account_session session)
  | Err e =>
      _ ← modify (fun a => a.[ error_message := Some ("Authentication failed: " +:+ text e) ]
                            .[ status_message := None ]);
      recheck_online
  end.

Definition sign_out : T unit :=
  sign_out_res ← svc svc_sign_out;
  _ ← modify invalidate_auth_ops;
  match sign_out_res with
  | Ok _ =>
      modify (fun a => take_previous Normal (a.[ account_state := LocalOnly ]
        .[ status_message := Some "Session revoked. Signed out successfully." ]
        .[ error_message := None ]))
  | Err e =>
      _ ← modify (fun a => a.[ error_message := Some ("Sign out failed: " +:+ text e) ]
        .[ status_message := Some "Credentials retained so you can retry when online." ]);
      recheck_online
  end.

(** The task a status check spawns. *)
Definition worker_of (refresh : bool) (a : App) : Worker :=
  mkWorker (auth_op_generation a) (auth_account_id (account_state a)) (auth_server_url (account_state a))
    refresh.

(** The account operation, and the task it spawned if it did. *)
Definition account_step : T (option Worker) :=
  a ← the_app;
  _ ← modify (fun a => a.[ account_pending_action := None ]);
  match account_pending_action a with
  | None => mret None
  | Some DiscoverIdentities => _ ← discover_identities; mret None
  | Some (Connect server_url token) => _ ← connect server_url token; mret None
  | Some SignOut => _ ← sign_out; mret None
  | Some RefreshStatus =>
      _ ← modify (fun a => a.[ status_message := Some "Checking server status..." ]);
      mret (Some (worker_of true a))
  | Some StartupVerify => mret (Some (worker_of false a))
  end.

Definition dispatch (event : TuiEvent) : T unit :=
  match event with
  | EKey key => handle_key key
  | EResize w h => update (Resize w h)
  | ETick => update Tick
  end.

(** What the terminal does in one iteration. *)
Record Terminal : Type := mkTerminal {
  draw : option string;
  suspend : option string;
  resume : option string;
  poll_event : Result TuiEvent string
}.

(** One iteration of [while !app.should_quit]; [Err] is the [?] that leaves [run_tui]. *)
Definition iterate (term : Terminal) (l : Loop) : Result unit CliError * Loop :=
  let t := fold_left receive (channel l) (tui l) in
  match draw term with
  | Some e => (Err (Io ("failed to render TUI frame: " +:+ e)), mkLoop t (running l) [])
  | None =>
      if request_external_editor (app t) then
        let '(r, t) := external_editor (suspend term) (resume term) t in
        (r, mkLoop t (running l) [])
      else
        let '(spawned, t) := lift (_ ← run_sync; _ ← process_pending; account_step) t in
        let running := running l ++ match spawned with Ok (Some w) => [w] | _ => [] end in
        match poll_event term with
        | Err e => (Err (Io ("failed to poll input events: " +:+ e)), mkLoop t running [])
        | Ok event =>
            let '(r, t) := lift (dispatch event) t in
            (r, mkLoop t running [])
        end
  end.

(** A background task finishes: it has checked the session online and sends the result. *)
Definition finish_worker (n : nat) (l : Loop) : Loop :=
  match running l !! n with
  | None => l
  | Some wk =>
      let '(r, w) := svc_check_online (world (tui l)) in
      mkLoop (mkTui (app (tui l)) w) (delete n (running l)) (channel l ++ [mkAuthWorkerEvent wk r])
  end.

Inductive turn : Loop -> Loop -> Prop :=
| turn_worker n l : turn l (finish_worker n l)
| turn_iterate term l :
    should_quit (app (tui l)) = false -> turn l (snd (iterate term l)).

Definition start (width height : N) (w : W) : Loop := mkLoop (App_new width height w) [] [].
Definition reachable (width height : N) (w : W) (l : Loop) : Prop := rtc turn (start width height w) l.
End tui.
Arguments Tui : clear implicits.
Arguments Loop : clear implicits.
