(* ===== verification/TuiFacts.v ===== *)
(** * Facts about the terminal interface

    What every operation preserves, whatever the services answer: plaintext is
    held only beside the key, a signed-out client stays signed out, and an idle
    session is locked.  *)

From stdpp Require Import options.
From S2P Require Import Prelude Protocol StorageModels Storage CoreErrors Time Env Queue Text Diff3 Crypto Note Merge Conflict.
From S2P Require Import Files CliSession VaultFiles CliNotes Tui.

Section facts.
Context {W : Type} `{ClientServices W}.

Lemma omap_none {A B} (f : A -> option B) (l : list A) : (forall x, f x = None) -> omap f l = [].
Proof. intros Hf. induction l as [|x l IH]; cbn; [done | by rewrite Hf]. Qed.

Lemma bind_app {A} (f : App -> M (Tui W) Empty_set A) t : (the_app ≫= f) t = f (app t) t.
Proof. done. Qed.
Lemma bind_modify {A} g (f : unit -> M (Tui W) Empty_set A) t :
  (modify g ≫= f) t = f tt (mkTui (g (app t)) (world t)).
Proof. done. Qed.
Lemma bind_svc {A A'} (m : M W CliError A) (f : _ -> M (Tui W) Empty_set A') t :
  (svc m ≫= f) t = f (m (world t)).1 (mkTui (app t) (m (world t)).2).
Proof. unfold svc, mbind, M_bind. by destruct (m (world t)). Qed.

(** ** Preservation of a property of the application *)

Definition holds {E A} (P : App -> Prop) (m : M (Tui W) E A) : Prop :=
  forall t, P (app t) -> P (app (m t).2).

Section holds.
Context (P : App -> Prop).

Lemma holds_ret {E A} (a : A) : holds P (mret a : M (Tui W) E A).
Proof. by intros t. Qed.
Lemma holds_throw {E A} (e : E) : holds P (throw e : M (Tui W) E A).
Proof. by intros t. Qed.
Lemma holds_bind {E A A'} (m : M (Tui W) E A) (f : A -> M (Tui W) E A') :
  holds P m -> (forall a, holds P (f a)) -> holds P (m ≫= f).
Proof.
  intros Hm Hf t Ht. unfold mbind, M_bind. specialize (Hm t Ht).
  destruct (m t) as [[a|e] t']; [by apply Hf | done].
Qed.
Lemma holds_app : holds P the_app.
Proof. by intros t. Qed.
Lemma holds_modify f : (forall a, P a -> P (f a)) -> holds P (modify f).
Proof. intros Hf t Ht. by apply Hf. Qed.
Lemma holds_svc {A} (m : M W CliError A) : holds P (svc m).
Proof. intros t Ht. unfold svc. by destruct (m (world t)). Qed.
Lemma holds_ask {A} (f : W -> A * W) : holds P (ask f).
Proof. intros t Ht. unfold ask. by destruct (f (world t)). Qed.
Lemma holds_call {A} (m : M W CliError A) : holds P (call m).
Proof. intros t Ht. unfold call. by destruct (m (world t)). Qed.
Lemma holds_lift {A} (m : M (Tui W) Empty_set A) : holds P m -> holds P (lift m).
Proof. intros Hm t Ht. specialize (Hm t Ht). unfold lift. by destruct (m t) as [[a|[]] t']. Qed.
Lemma holds_and {E A} Q (m : M (Tui W) E A) : holds P m -> holds Q m -> holds (fun a => P a /\ Q a) m.
Proof. intros HP HQ t []. split; auto. Qed.
Lemma holds_if {E A} (b : bool) (m n : M (Tui W) E A) : holds P m -> holds P n -> holds P (if b then m else n).
Proof. by destruct b. Qed.
End holds.

(** From a property before to one after. *)
Definition takes {E A} (P Q : App -> Prop) (m : M (Tui W) E A) : Prop :=
  forall t, P (app t) -> Q (app (m t).2).

Lemma takes_bind {E A A'} (P R Q : App -> Prop) (m : M (Tui W) E A) (f : A -> M (Tui W) E A') :
  takes P R m -> (forall a, R a -> Q a) -> (forall a, takes R Q (f a)) -> takes P Q (m ≫= f).
Proof.
  intros Hm HQ Hf t Ht. unfold mbind, M_bind. specialize (Hm t Ht).
  destruct (m t) as [[a|e] t']; [by apply Hf | by apply HQ].
Qed.
Lemma takes_seq {A A'} (P R Q : App -> Prop) (m : M (Tui W) Empty_set A) (f : A -> M (Tui W) Empty_set A') :
  takes P R m -> (forall a, takes R Q (f a)) -> takes P Q (m ≫= f).
Proof.
  intros Hm Hf t Ht. unfold mbind, M_bind. specialize (Hm t Ht).
  destruct (m t) as [[a|[]] t']. by apply Hf.
Qed.
Lemma takes_app {A} (P Q : App -> Prop) (f : App -> M (Tui W) Empty_set A) :
  (forall a0, takes (fun a => P a /\ a = a0) Q (f a0)) -> takes P Q (the_app ≫= f).
Proof. intros Hf t Ht. by apply (Hf (app t)). Qed.
Lemma takes_modify (P Q : App -> Prop) g : (forall a, P a -> Q (g a)) -> takes P Q (modify g).
Proof. intros Hg t. apply Hg. Qed.
Lemma takes_ret {E A} (P Q : App -> Prop) (a : A) : (forall a, P a -> Q a) -> takes P Q (mret a : M (Tui W) E A).
Proof. intros HPQ t. apply HPQ. Qed.
Lemma takes_lift {A} (P Q : App -> Prop) (m : M (Tui W) Empty_set A) : takes P Q m -> takes P Q (lift m).
Proof. intros Hm t Ht. specialize (Hm t Ht). unfold lift. by destruct (m t) as [[a|[]] t']. Qed.
(** The asynchronous block run for its result. *)
Lemma takes_attempt {A E} P Q (m : M (Tui W) E A) :
  takes P Q m -> takes P Q (fun t => let '(r, t') := m t in (Ok r, t') : Result _ Empty_set * _).
Proof. intros Hm t Ht. specialize (Hm t Ht). by destruct (m t). Qed.
Lemma takes_weaken {E A} (P P' Q Q' : App -> Prop) (m : M (Tui W) E A) :
  takes P Q m -> (forall a, P' a -> P a) -> (forall a, Q a -> Q' a) -> takes P' Q' m.
Proof. intros Hm HP HQ t Ht. auto. Qed.
Lemma takes_through {E A} (P R Q : App -> Prop) (m : M (Tui W) E A) :
  holds R m -> (forall a, P a -> R a) -> (forall a, R a -> Q a) -> takes P Q m.
Proof. intros Hm HP HQ t Ht. auto. Qed.
End facts.

Create HintDb tui.

(** Splits an operation down to its updates, which it leaves as goals. *)
Ltac holds_step :=
  lazymatch goal with
  | |- holds _ (mbind _ _) => apply holds_bind; [ | intros ? ]
  | |- holds _ (mret _) => apply holds_ret
  | |- holds _ (throw _) => apply holds_throw
  | |- holds _ the_app => apply holds_app
  | |- holds _ (modify _) => apply holds_modify; intros ? ?
  | |- holds _ (svc _) => apply holds_svc
  | |- holds _ (ask _) => apply holds_ask
  | |- holds _ (call _) => apply holds_call
  | |- holds _ (lift _) => apply holds_lift
  | |- holds _ (match ?x with _ => _ end) => destruct x
  | |- holds _ _ => solve [eauto 2 with tui]
  end.
Ltac holds_tac := repeat holds_step.

(** Follows a key down to the update it stands for. *)
Ltac takes_step :=
  lazymatch goal with
  | |- takes _ _ (the_app ≫= _) => eapply takes_seq; [apply holds_app | intros ?]
  | |- takes _ _ (modify _) => apply takes_modify; intros ? ?
  | |- takes _ _ (mret _) => apply takes_ret; intros ? ?
  | |- takes _ _ (match ?x with _ => _ end) => destruct x eqn:?
  | |- takes _ _ _ => solve [eauto 2 with tui]
  end.
Ltac takes_tac := repeat takes_step.

(** The keys of every mode. *)
Ltac unfold_keys :=
  unfold locked_key, help_key, delete_key, conflict_key, account_key, account_char, search_key,
    edit_key, normal_key, normal_char, normal_up, normal_down.

(** Case analysis on the conditions of an update. *)
Ltac by_cases :=
  repeat match goal with
  | |- context [match ?x with _ => _ end] =>
      lazymatch x with context [match _ with _ => _ end] => fail | _ => destruct x eqn:? end; cbn in *
  end.

(** The updates of the application that are definitions of their own. *)
Ltac unfold_updates :=
  unfold resize, toggle_help, close_overlay, other_pane, enter_search, enter_create, enter_inline_edit,
    cancel_edit, edit_current, edit_newline, open_account, close_account, account_submit, account_ssh_next,
    account_request, invalidate_auth_ops, apply_account_session, open_vault, vault_key_press, modal,
    no_preview, in_account, take_previous in *.

(** ** One key, from a property before to one after *)

Section key.
Context {W : Type} `{ClientServices W} (P Q : App -> Prop).
Context (Herror : forall a, P a -> P (a.[ error_message := None ])).
Context (Hfront : forall a, P a -> mode a = Normal \/ mode a = Locked -> Q (open_vault a) /\ Q (open_account a)).

Lemma key_takes key : takes (W := W) P Q (mode_key key) -> takes (W := W) P Q (handle_key key).
Proof using Herror Hfront.
  intros Hkey. unfold handle_key. apply (takes_seq _ P); [by apply takes_modify | intros _].
  apply takes_app; intros a0. apply (takes_seq _ (fun a => P a /\ a = a0)).
  { change (holds (W := W) (fun a => P a /\ a = a0)
      (if bool_decide (mode a0 = Locked) || bool_decide (mode a0 = TerminalTooSmall)
       then mret tt else record_user_activity)).
    unfold record_user_activity. holds_tac. }
  intros _ t [Ht <-].
  destruct (_ && key_ctrl key) eqn:Hm; cbn [andb]; [ | by apply Hkey].
  apply andb_prop in Hm as [[Hm%bool_decide_eq_true|Hm%bool_decide_eq_true]%orb_prop _].
  all: destruct (key_is _ "v"); [by apply Hfront; auto | ].
  all: destruct (key_is _ "a"); [by apply Hfront; auto | by apply Hkey].
Qed.
End key.

(** ** One iteration of the loop, from a property before to one after *)

Section iteration.
Context {W : Type} `{ClientServices W} (P Q R : App -> Prop).
Context (Hreceive : forall (t : Tui W) e, P (app t) -> P (app (receive t e))).
Context (Hdraw : forall a, P a -> R a).
Context (Heditor : forall s r, takes (W := W) P R (external_editor s r)).
Context (Hwork : takes (W := W) P Q (_ ← run_sync; _ ← process_pending; account_step)).
Context (Hpoll : forall a, Q a -> R a).
Context (Hdispatch : forall event, takes (W := W) Q R (dispatch event)).

Lemma receive_all es (t : Tui W) : P (app t) -> P (app (fold_left receive es t)).
Proof using Hreceive. revert t. induction es as [|e es IH]; cbn; auto. Qed.

Lemma iterate_takes term l : P (app (tui l)) -> R (app (tui (iterate term l).2)).
Proof using All.
  intros HP. apply (receive_all (channel l)) in HP. unfold iterate.
  destruct (draw term); [by apply Hdraw | ].
  destruct (request_external_editor _).
  - apply (Heditor (suspend term) (resume term)) in HP. by destruct (external_editor _ _ _).
  - apply (takes_lift _ _ _ Hwork) in HP. destruct (lift _ _) as [spawned t]; cbn in *.
    destruct (poll_event term) as [event|e]; [ | by apply Hpoll].
    pose proof (takes_lift _ _ _ (Hdispatch event) t HP) as Hd. by destruct (lift (dispatch event) t).
Qed.

(** A background task changes nothing the interface shows. *)
Lemma turn_takes l l' : turn l l' -> P (app (tui l)) -> R (app (tui l')).
Proof using All.
  destruct 1 as [n l|term l _]; [ | apply iterate_takes].
  unfold finish_worker. destruct (running l !! n); [ | apply Hdraw].
  destruct (svc_check_online _). apply Hdraw.
Qed.
End iteration.

(** ** What locking leaves *)

(** Nothing decrypted or drafted is left. *)
Definition Blank (a : App) : Prop :=
  notes a = [] /\ search_query a = "" /\ search_results a = [] /\ preview a = None
  /\ conflicts a = [] /\ conflict_detail a = None
  /\ edit_title a = "" /\ edit_tags a = "" /\ edit_body a = "".

(** The interface as [lock_and_clear] leaves it, until the next key. *)
Definition Shut (a : App) : Prop :=
  mode a = Locked /\ previous_mode a = None /\ vault_key a = None
  /\ account_pending_action a = None /\ Blank a.

(** No secret that was typed is left either. *)
Definition Wiped (a : App) : Prop :=
  Shut a /\ passphrase_input a = "" /\ account_token_input a = "" /\ vault_modal a = VaultModal_default.

Section locking.
Context {W : Type} `{ClientServices W}.

Lemma lock_and_clear_wipes (t : Tui W) : Wiped (app (lock_and_clear t).2).
Proof.
  unfold lock_and_clear. rewrite bind_modify, bind_svc; cbn.
  destruct (svc_lock_vault _) as [[]]; unfold Wiped, Shut, Blank; cbn; tauto.
Qed.
Lemma lock_shuts P : takes (W := W) P Shut lock_and_clear.
Proof. intros t _. apply lock_and_clear_wipes. Qed.

(** An unlocked interface whose session has run out of idle time, or whose
    session cannot be checked, is locked by the next tick: the key and every
    buffer are gone even when the session file cannot be removed. *)
Lemma tui_tick_locks (t : Tui W) :
  vault_key (app t) <> None -> mode (app t) <> Locked ->
  (svc_session_expired (world t)).1 <> Ok false ->
  Wiped (app (tick t).2).
Proof.
  intros Hkey Hmode Hexp. unfold tick. rewrite bind_app.
  rewrite bool_decide_false by done. rewrite bool_decide_true by (by apply not_eq_None_Some). cbn.
  rewrite bind_svc. destruct (svc_session_expired (world t)) as [r w]; cbn in *.
  pose proof (lock_and_clear_wipes (mkTui (app t) w)) as Hw.
  unfold mbind, M_bind.
  destruct r as [[]|e]; [ | done | ]; destruct (lock_and_clear _) as [[lr|[]] t']; cbn in *; [ | done].
  by destruct (is_ok lr).
Qed.

(** A property before [process_pending] and one after it: the vault dialogue changes
    only itself and the messages, until it locks the interface. *)
Section dialogue.
Context (P Q : App -> Prop) (HPQ : forall a, P a -> Q a) (Hshut : forall a, Shut a -> Q a).
Context (Hmodal : forall a f, P a -> P (modal f a)).
Context (Hsync : forall a s, P a -> P (a.[ sync_status := s ])).
Context (Hfail : forall a f e, Q a -> Q ((modal f a).[ error_message := e ])).
Context (Hsync' : forall a s, Q a -> Q (a.[ sync_status := s ])).

Ltac through R := apply (takes_through _ R); [ | auto | auto].

Lemma stage_takes pending : takes (W := W) P Q (run_stage pending).
Proof using HPQ Hmodal Hshut Hsync.
  unfold run_stage. do 3 (apply (takes_bind _ P); [through P; holds_tac; auto | auto | intros ?]).
  destruct (vm_preflight _); [ | through P; holds_tac].
  apply (takes_bind _ P); [through P; holds_tac | auto | intros ?].
  apply (takes_bind _ Shut); [apply takes_lift, lock_shuts | auto | intros ?].
  through Shut. unfold refresh_sync_status. holds_tac; unfold Shut, Blank in *; cbn; tauto.
Qed.

Lemma tick_takes : takes (W := W) P Q tick.
Proof using HPQ Hshut.
  unfold tick. apply (takes_seq _ P); [through P; holds_tac | intros a].
  destruct (_ && _); [ | by apply takes_ret].
  apply (takes_seq _ P); [through P; holds_tac | intros [[]|]]; [ | by apply takes_ret | ].
  all: apply (takes_seq _ Shut); [apply lock_shuts | intros ?].
  all: through Shut; holds_tac; unfold Shut, Blank in *; cbn; tauto.
Qed.

Lemma pending_takes : takes (W := W) P Q process_pending.
Proof using All.
  unfold process_pending. apply (takes_seq _ P); [through P; holds_tac | intros a].
  destruct (vm_pending _) as [pending|]; [ | through P; holds_tac].
  apply (takes_seq _ P); [through P; holds_tac; auto | intros ?].
  apply (takes_seq _ Q).
  - apply takes_attempt. destruct pending; try apply stage_takes.
    all: through P; unfold run_pending, run_preflight, refresh_sync_status; holds_tac; auto.
  - intros ?. through Q. unfold refresh_sync_status. holds_tac; auto.
Qed.
End dialogue.
End locking.
(** ** The account *)

Section account.
Context {W : Type} `{ClientServices W}.

Definition SignedOut (a : App) : Prop := account_state a = LocalOnly.

(** No sign-in and no sign-out is waiting to be run. *)
Definition quiet (a : App) : Prop :=
  match account_pending_action a with Some (Connect _ _) | Some SignOut => False | _ => True end.

Definition SignedOutQuiet (a : App) : Prop := SignedOut a /\ quiet a.

(** A property that only looks at the account, and at the pending action only to
    forbid some of them. *)
Definition OfAccount (P : App -> Prop) : Prop := forall a a',
  account_state a' = account_state a ->
  account_pending_action a' = account_pending_action a \/ account_pending_action a' = None ->
  P a -> P a'.

Lemma OfAccount_SignedOut : OfAccount SignedOut.
Proof. unfold OfAccount, SignedOut. congruence. Qed.
Lemma OfAccount_quiet : OfAccount quiet.
Proof. intros a a' _ [Hp|Hp]; unfold quiet; by rewrite Hp. Qed.
Lemma OfAccount_SignedOutQuiet : OfAccount SignedOutQuiet.
Proof. intros a a' Hs [Hp|Hp]; unfold SignedOutQuiet, SignedOut, quiet; rewrite Hs, Hp; tauto. Qed.

Section stable.
Context (P : App -> Prop) (HP : OfAccount P).

Ltac leaf := unfold_updates; by_cases; eapply HP; try eassumption; cbn; auto.

Lemma out_load_selected_preview : holds (W := W) P load_selected_preview.
Proof using HP. unfold load_selected_preview. holds_tac; leaf. Qed.
Hint Resolve out_load_selected_preview : tui.
Lemma out_conflict_detail : holds (W := W) P load_selected_conflict_detail.
Proof using HP. unfold load_selected_conflict_detail. holds_tac; leaf. Qed.
Hint Resolve out_conflict_detail : tui.
Lemma out_reload_notes : holds (W := W) P reload_notes.
Proof using HP. unfold reload_notes. holds_tac; leaf. Qed.
Lemma out_reload_conflicts : holds (W := W) P reload_conflicts.
Proof using HP. unfold reload_conflicts. holds_tac; leaf. Qed.
Lemma out_lock_and_clear : holds (W := W) P lock_and_clear.
Proof using HP. unfold lock_and_clear. holds_tac; leaf. Qed.
Hint Resolve out_reload_notes out_reload_conflicts out_lock_and_clear : tui.

Lemma out_run_sync : holds (W := W) P run_sync.
Proof using HP. unfold run_sync. holds_tac; leaf. Qed.
Lemma out_external_editor s r : holds (W := W) P (external_editor s r).
Proof using HP. unfold external_editor, terminal_op. holds_tac; leaf. Qed.

Lemma out_run_pending pending : holds (W := W) P (run_pending pending).
Proof using HP. unfold run_pending, run_preflight, run_stage, refresh_sync_status. holds_tac; leaf. Qed.

Lemma out_process_pending : holds (W := W) P process_pending.
Proof using HP.
  unfold process_pending. holds_step; [holds_tac | ]. destruct (vm_pending _); [ | holds_tac].
  holds_step; [holds_tac; leaf | ].
  apply holds_bind; [apply takes_attempt, out_run_pending | intros ?].
  unfold refresh_sync_status. holds_tac; leaf.
Qed.
End stable.

End account.

(** ** The turn that locks *)

Definition Keyed (a : App) : Prop := vault_key a <> None.

Section locked_turn.
Context {W : Type} `{ClientServices W}.

(** Nothing but [lock_and_clear] gives the key up. *)
Ltac leaf := unfold Keyed in *; unfold_updates; by_cases; cbn in *; auto.

Lemma keyed_load_selected_preview : holds (W := W) Keyed load_selected_preview.
Proof. unfold load_selected_preview. holds_tac; leaf. Qed.
Lemma keyed_conflict_detail : holds (W := W) Keyed load_selected_conflict_detail.
Proof. unfold load_selected_conflict_detail. holds_tac; leaf. Qed.
Hint Resolve keyed_load_selected_preview keyed_conflict_detail : tui.
Lemma keyed_reload_notes : holds (W := W) Keyed reload_notes.
Proof. unfold reload_notes. holds_tac; leaf. Qed.
Lemma keyed_reload_conflicts : holds (W := W) Keyed reload_conflicts.
Proof. unfold reload_conflicts. holds_tac; leaf. Qed.
Hint Resolve keyed_reload_notes keyed_reload_conflicts : tui.
Lemma keyed_run_sync : holds (W := W) Keyed run_sync.
Proof. unfold run_sync. holds_tac; leaf. Qed.
Lemma keyed_external_editor s r : holds (W := W) Keyed (external_editor s r).
Proof. unfold external_editor, terminal_op. holds_tac; leaf. Qed.
Lemma keyed_account_step : holds (W := W) Keyed account_step.
Proof. unfold account_step, discover_identities, connect, sign_out, recheck_online. holds_tac; leaf. Qed.

(** Still unlocked, or just locked. *)
Definition KeyedOrShut (a : App) : Prop := Keyed a \/ Shut a.
Definition KeyedOrBlank (a : App) : Prop := vault_key a = None -> Blank a.

Lemma Keyed_KeyedOrBlank a : Keyed a -> KeyedOrBlank a.
Proof. by intros ? ?. Qed.
Lemma KeyedOrShut_KeyedOrBlank a : KeyedOrShut a -> KeyedOrBlank a.
Proof. unfold KeyedOrShut, KeyedOrBlank, Keyed, Shut. tauto. Qed.
Hint Resolve Keyed_KeyedOrBlank KeyedOrShut_KeyedOrBlank : core.

Lemma keyed_process_pending : takes (W := W) Keyed KeyedOrShut process_pending.
Proof.
  apply pending_takes; unfold KeyedOrShut, Keyed, Shut, Blank; cbn; tauto.
Qed.

Lemma shut_account_step : takes (W := W) KeyedOrShut KeyedOrShut account_step.
Proof.
  intros t [Ht|Ht]; [left; by apply keyed_account_step | ].
  pose proof Ht as (_ & _ & _ & Hp & _). unfold account_step. rewrite bind_app, bind_modify, Hp.
  right. unfold Shut, Blank in *. cbn. tauto.
Qed.

(** The actions that may lock. *)
Definition locking (action : Action) : bool := match action with Tick | LockVault => true | _ => false end.

Lemma keyed_action action : locking action = false -> holds (W := W) Keyed (update action).
Proof.
  destruct action; intros [=]; cbn [update];
    unfold move_up, move_down, jump_top, jump_bottom, select_with, search_edit, perform_incremental_search,
      exit_search, submit_unlock, save_edit_form, confirm_delete, open_conflicts, conflict_merge,
      conflict_duplicate, resolve_current_conflict; holds_tac; leaf; by subst.
Qed.

Lemma keyed_update action : takes (W := W) Keyed KeyedOrBlank (update action).
Proof.
  assert (forall a, Shut a -> KeyedOrBlank a) as HQ by (unfold KeyedOrBlank, Shut; tauto).
  destruct (locking action) eqn:Hl; [ | eapply takes_through; [by apply keyed_action | auto | auto]].
  destruct action; try done; cbn [update]; [ | apply tick_takes; auto].
  apply (takes_seq _ Shut); [apply lock_shuts | intros ?]. by apply takes_ret.
Qed.
Hint Resolve keyed_update : tui.

Lemma keyed_mode_key key : takes (W := W) Keyed KeyedOrBlank (mode_key key).
Proof. unfold mode_key. unfold_keys. takes_tac; intros ?; leaf; done. Qed.

Lemma shut_submit_unlock : takes (W := W) Shut KeyedOrBlank submit_unlock.
Proof.
  assert (forall a, Shut a -> KeyedOrBlank a) as HQ by (unfold KeyedOrBlank, Shut; tauto).
  unfold submit_unlock. takes_step. destruct (bool_decide _); [ | by apply takes_ret].
  apply (takes_seq _ Shut); [apply holds_svc | intros [key|e]].
  - apply (takes_seq _ Keyed); [by apply takes_modify | intros _].
    apply (takes_through _ Keyed); [holds_tac; leaf | auto | auto].
  - apply takes_modify. intros ? (_ & _ & _ & _ & Hb) _. unfold Blank in *. cbn. tauto.
Qed.

(** On the lock screen nothing can be typed but the passphrase. *)
Lemma shut_mode_key key : takes (W := W) Shut KeyedOrBlank (mode_key key).
Proof.
  assert (takes (W := W) Shut KeyedOrBlank (locked_key key)) as Hlocked.
  { unfold locked_key. takes_tac; cbn [update]; try apply shut_submit_unlock; takes_tac.
    all: unfold KeyedOrBlank, Shut, Blank in *; by_cases; cbn; tauto. }
  intros t Ht. pose proof Ht as (Hm & _). unfold mode_key. rewrite bind_app, Hm. by apply Hlocked.
Qed.

Lemma shut_dispatch event : takes (W := W) KeyedOrShut KeyedOrBlank (dispatch event).
Proof.
  destruct event as [key|width height|]; cbn [dispatch].
  - apply key_takes.
    + unfold KeyedOrShut, Keyed, Shut, Blank. cbn. tauto.
    + unfold KeyedOrShut, KeyedOrBlank, Keyed, Shut, Blank. intros a Ha _. unfold_updates.
      by_cases; cbn; tauto.
    + intros t [Ht|Ht]; [by apply keyed_mode_key | by apply shut_mode_key].
  - intros t [Ht|Ht]; [by apply keyed_update | ]. unfold KeyedOrBlank, Shut, Blank in *. cbn.
    unfold_updates; by_cases; cbn; tauto.
  - intros t [Ht|Ht]; [by apply keyed_update | ].
    pose proof Ht as (_ & _ & Hk & _ & Hb). unfold update, tick. rewrite bind_app, Hk, andb_false_r. by intros _.
Qed.

(** The turn in which the interface gives the key up leaves nothing behind. *)
Lemma locking_turn (l l' : Loop W) :
  turn l l' -> Keyed (app (tui l)) -> KeyedOrBlank (app (tui l')).
Proof.
  apply (turn_takes Keyed KeyedOrShut KeyedOrBlank).
  - intros t e. unfold receive, apply_auth_worker_result. leaf.
  - auto.
  - intros s r. eapply takes_through; [apply keyed_external_editor | auto | auto].
  - apply (takes_seq _ Keyed); [apply keyed_run_sync | intros _].
    apply (takes_seq _ KeyedOrShut); [apply keyed_process_pending | intros _]. apply shut_account_step.
  - auto.
  - apply shut_dispatch.
Qed.
End locked_turn.

(** ** Plaintext is held only beside the key *)

Section sealed.
Context {W : Type} `{ClientServices W}.

(** A new note being typed. *)
Definition drafting (a : App) : Prop :=
  mode a = Create \/ mode a = TerminalTooSmall /\ previous_mode a = Some Create.
Definition no_draft (a : App) : Prop := edit_title a = "" /\ edit_tags a = "" /\ edit_body a = "".

(** No conflicts, or a list of them as the service gives it to a caller without a key. *)
Definition listed_locked (l : list ClientConflictSummary) : Prop :=
  l = [] \/ exists w : W, (svc_list_conflicts None w).1 = Ok l.

Definition Sealed (a : App) : Prop :=
  vault_key a = None ->
  notes a = [] /\ search_results a = [] /\ preview a = None /\ conflict_detail a = None
  /\ listed_locked (conflicts a) /\ (no_draft a \/ drafting a)
  /\ mode a <> InlineEdit /\ previous_mode a <> Some InlineEdit.

(** A sign-in or sign-out waits only in the account dialogue. *)
Definition Waiting (a : App) : Prop := quiet a \/ mode a = Account.

Lemma Keyed_Sealed a : Keyed a -> Sealed a.
Proof. by intros ? ?. Qed.
Lemma Shut_Sealed a : Shut a -> Sealed a.
Proof.
  intros (Hm & Hp & _ & _ & ? & ? & ? & ? & ? & ? & ? & ? & ?) _. rewrite Hm, Hp.
  unfold listed_locked, no_draft. tauto || (repeat split; auto; discriminate).
Qed.

Ltac modes := repeat match goal with
  | E : bool_decide _ = true |- _ => apply bool_decide_eq_true in E
  | E : bool_decide _ = false |- _ => apply bool_decide_eq_false in E
  | E : _ && _ = true |- _ => apply andb_prop in E; destruct E
  | E : bool_decide _ || bool_decide _ = true |- _ => apply orb_true_iff in E; destruct E
  | E : bool_decide _ || bool_decide _ = false |- _ => apply orb_false_iff in E; destruct E
  end.

(** An update is either made beside the key, or it touches nothing that counts. *)
Ltac leaf :=
  unfold_updates; unfold Sealed, no_draft, drafting in *; cbn in *; by_cases; cbn in *; modes;
  try match goal with |- context [default _ (previous_mode ?a)] => destruct (previous_mode a) eqn:?; cbn in * end;
  let Hk := fresh in intros Hk;
  repeat match goal with
  | Hs : vault_key ?a = None -> _ |- _ => specialize (Hs Hk)
  end;
  try (intuition (subst; cbn in *; try congruence); fail).

Lemma sealed_load_selected_preview : holds (W := W) Sealed load_selected_preview.
Proof.
  intros [a w] Ha. unfold load_selected_preview. rewrite bind_app; cbn.
  case_match; [ | leaf].
  destruct (vault_key a) as [key|] eqn:Hkey; [rewrite bind_svc | ]; leaf.
Qed.
Hint Resolve sealed_load_selected_preview : tui.

Lemma sealed_conflict_detail : holds (W := W) Sealed load_selected_conflict_detail.
Proof.
  intros [a w] Ha. unfold load_selected_conflict_detail. rewrite bind_app; cbn.
  case_match; [ | leaf].
  destruct (vault_key a) as [key|] eqn:Hkey; [rewrite bind_svc | ]; leaf.
Qed.
Hint Resolve sealed_conflict_detail : tui.

Lemma sealed_reload_conflicts : holds (W := W) Sealed reload_conflicts.
Proof.
  intros [a w] Ha. unfold reload_conflicts. rewrite bind_app, bind_svc; cbn.
  destruct (svc_list_conflicts _ w).1 as [loaded|e] eqn:Hl; cbn; [rewrite bind_modify; cbn | leaf].
  assert (vault_key a = None -> listed_locked loaded) as Hlocked.
  { intros Hk. rewrite Hk in Hl. right. eauto. }
  destruct loaded as [|c loaded]; cbn; [leaf | ].
  rewrite bind_modify. apply sealed_conflict_detail. leaf.
Qed.
Hint Resolve sealed_reload_conflicts : tui.

Lemma sealed_reload_notes : holds (W := W) Sealed reload_notes.
Proof.
  intros [a w] Ha. unfold reload_notes. rewrite bind_app; cbn.
  destruct (vault_key a) as [key|] eqn:Hkey; [rewrite bind_svc; cbn | done].
  destruct (svc_list_notes key w).1; cbn; [rewrite bind_modify; cbn | leaf].
  case_bool_decide; [leaf | ].
  rewrite bind_modify. apply sealed_load_selected_preview. leaf.
Qed.
Hint Resolve sealed_reload_notes : tui.

Lemma sealed_lock_and_clear : holds (W := W) Sealed lock_and_clear.
Proof. intros t Ht. eapply Shut_Sealed, (lock_shuts Sealed); eauto. Qed.
Lemma sealed_tick : holds (W := W) Sealed tick.
Proof. apply tick_takes; auto using Shut_Sealed. Qed.
Hint Resolve sealed_lock_and_clear sealed_tick : tui.

Lemma sealed_search : holds (W := W) Sealed perform_incremental_search.
Proof.
  unfold perform_incremental_search. holds_tac; leaf.
  match goal with Hs : _ /\ _ |- _ => destruct Hs as (E & Hs) end. rewrite E. intuition auto using omap_none.
Qed.
Lemma sealed_resolve strategy : holds (W := W) Sealed (resolve_current_conflict strategy).
Proof. unfold resolve_current_conflict. holds_tac; leaf. Qed.
Lemma sealed_submit_unlock : holds (W := W) Sealed submit_unlock.
Proof. unfold submit_unlock. holds_tac; leaf. Qed.
Lemma sealed_select_with next : holds (W := W) Sealed (select_with next).
Proof. unfold select_with. holds_tac; leaf. Qed.
Hint Resolve sealed_search sealed_resolve sealed_submit_unlock sealed_select_with : tui.

(** With the key in memory an action that does not lock is harmless. *)
Lemma sealed_without_key action :
  locking action = false ->
  (forall t : Tui W, vault_key (app t) = None -> Sealed (app t) -> Sealed (app (update action t).2)) ->
  holds (W := W) Sealed (update action).
Proof.
  intros Hl Hkeyless t Ht. destruct (vault_key (app t)) eqn:Hk; [ | by apply Hkeyless].
  apply Keyed_Sealed, keyed_action; [done | unfold Keyed; congruence].
Qed.

Lemma sealed_save_edit : holds (W := W) Sealed (update SaveEdit).
Proof.
  apply sealed_without_key; [done | ]. intros t Hk Ht. cbn [update]. unfold save_edit_form.
  by rewrite bind_app, Hk.
Qed.
Lemma sealed_exit_search : holds (W := W) Sealed (update ExitSearch).
Proof.
  apply sealed_without_key; [done | ]. intros t Hk Ht. cbn [update]. unfold exit_search. rewrite bind_app.
  case_bool_decide as Hm; [ | done]. rewrite bind_modify. apply sealed_load_selected_preview.
  leaf.
Qed.
Lemma sealed_confirm_delete : holds (W := W) Sealed (update ConfirmDelete).
Proof.
  apply sealed_without_key; [done | ]. intros t Hk Ht. cbn [update]. unfold confirm_delete. rewrite bind_app.
  destruct (Ht Hk) as (_ & _ & Hp & _). rewrite Hp. by case_bool_decide.
Qed.
Lemma mode_reload_conflicts m : holds (W := W) (fun a => mode a = m) reload_conflicts.
Proof. unfold reload_conflicts, load_selected_conflict_detail. holds_tac; cbn; auto. Qed.
Lemma sealed_open_conflicts : holds (W := W) Sealed (update OpenConflicts).
Proof.
  intros t Ht. cbn [update]. unfold open_conflicts. rewrite bind_app. case_bool_decide as Hm; [ | done].
  eapply (takes_seq (fun a => Sealed a /\ mode a = Normal) _ Sealed); [ | | by split].
  - apply holds_and; [apply sealed_reload_conflicts | apply mode_reload_conflicts].
  - intros _. apply takes_modify. intros a [Ha Hn]. leaf.
Qed.
Hint Resolve sealed_save_edit sealed_exit_search sealed_confirm_delete sealed_open_conflicts : tui.

(** The actions that act whatever the mode. *)
Definition unguarded (action : Action) : bool :=
  match action with EditChar _ | EditBackspace | EditNewline | ToggleHelp | OpenAccount => true | _ => false end.

Lemma sealed_update action : unguarded action = false -> holds (W := W) Sealed (update action).
Proof.
  destruct action; intros [=]; auto with tui; cbn [update];
    unfold move_up, move_down, jump_top, jump_bottom, search_edit,
      conflict_merge, conflict_duplicate; holds_tac; leaf.
Qed.

(** In the mode the key is read in, the other actions are harmless too. *)
Definition SealedIn (m : AppMode) (a : App) : Prop := Sealed a /\ mode a = m.

Lemma sealed_in m action : unguarded action = false -> takes (W := W) (SealedIn m) Sealed (update action).
Proof. intros Ha. eapply takes_through; [by apply sealed_update | by intros ? [] | done]. Qed.
Lemma sealed_in_ret m a : SealedIn m a -> Sealed a.
Proof. by intros []. Qed.
Hint Resolve sealed_in sealed_in_ret : tui.

Ltac in_mode := match goal with Ha : SealedIn _ _ |- _ => destruct Ha end; leaf.

Lemma sealed_toggle_help : takes (W := W) (SealedIn Normal) Sealed (update ToggleHelp).
Proof. apply takes_modify. intros a Ha. in_mode. Qed.
Lemma sealed_open_account : takes (W := W) (SealedIn Normal) Sealed (update OpenAccount).
Proof. apply takes_modify. intros a Ha. in_mode. Qed.
Hint Resolve sealed_toggle_help sealed_open_account : tui.

Lemma sealed_edit_action m action :
  unguarded action = true -> m = Create \/ m = InlineEdit -> action <> ToggleHelp -> action <> OpenAccount ->
  takes (W := W) (SealedIn m) Sealed (update action).
Proof.
  destruct action; intros [=] Hm ? ?; try done; apply takes_modify; intros a Ha; destruct Hm; subst; in_mode.
Qed.

Lemma sealed_mode_key key : holds (W := W) Sealed (mode_key key).
Proof.
  apply takes_app; intros a0. apply (takes_weaken (SealedIn (mode a0)) _ Sealed); [ | by intros a [? ->] | done].
  destruct (mode a0); unfold_keys; takes_tac.
  all: try (apply sealed_edit_action; auto; discriminate).
  all: in_mode.
Qed.

Lemma sealed_dispatch event : holds (W := W) Sealed (dispatch event).
Proof.
  destruct event as [key|w h|]; cbn [dispatch]; [ | by apply sealed_update | by apply sealed_update].
  apply key_takes; [ | | apply sealed_mode_key].
  - intros a Ha. leaf.
  - intros a Ha [Hm|Hm]; split; leaf.
Qed.

Lemma sealed_run_sync : holds (W := W) Sealed run_sync.
Proof. unfold run_sync. holds_tac; leaf. Qed.
Lemma sealed_external_editor s r : holds (W := W) Sealed (external_editor s r).
Proof. unfold external_editor, terminal_op. holds_tac; leaf. Qed.
Lemma sealed_process_pending : holds (W := W) Sealed process_pending.
Proof. apply pending_takes; auto using Shut_Sealed; intros; leaf. Qed.

(** *** Account operations wait only in their dialogue *)

Ltac wait := unfold Waiting, quiet in *; unfold_updates; cbn in *; assumption.

Lemma waiting_reload_notes : holds (W := W) Waiting reload_notes.
Proof. unfold reload_notes, load_selected_preview. holds_tac; wait. Qed.
Lemma waiting_reload_conflicts : holds (W := W) Waiting reload_conflicts.
Proof. unfold reload_conflicts, load_selected_conflict_detail. holds_tac; wait. Qed.
Hint Resolve waiting_reload_notes waiting_reload_conflicts : tui.
Lemma waiting_run_sync : holds (W := W) Waiting run_sync.
Proof. unfold run_sync. holds_tac; wait. Qed.
Lemma waiting_external_editor s r : holds (W := W) Waiting (external_editor s r).
Proof. unfold external_editor, terminal_op. holds_tac; wait. Qed.
Lemma waiting_process_pending : holds (W := W) Waiting process_pending.
Proof.
  apply pending_takes; auto; try (intros; wait).
  intros a (_ & _ & _ & Hp & _). left. unfold quiet. by rewrite Hp.
Qed.

Hint Resolve OfAccount_quiet out_reload_notes out_reload_conflicts out_lock_and_clear
  out_load_selected_preview out_conflict_detail : tui.
Ltac still := unfold_updates; by_cases;
  first [exact I | match goal with Ha : quiet _ |- _ => exact Ha end | eapply OfAccount_quiet; try eassumption; cbn; auto].

Lemma quiet_Waiting a : quiet a -> Waiting a.
Proof. by left. Qed.
Lemma quiet_in_account f : (forall a, mode (f a) = mode a) -> takes (W := W) quiet Waiting (modify (in_account f)).
Proof.
  intros Hf. apply takes_modify. intros a Ha. unfold in_account.
  case_bool_decide as Hm; [right; by rewrite Hf | by left].
Qed.
Hint Resolve quiet_Waiting quiet_in_account : tui.

(** From a state in which none waits, an action asks for one only in the dialogue. *)
Lemma quiet_update action : takes (W := W) quiet Waiting (update action).
Proof.
  destruct action; cbn [update]; auto with tui.
  all: try (apply quiet_in_account; intros a; unfold_updates; by_cases; done).
  all: apply (takes_through _ quiet); [ | done | by left].
  all: unfold move_up, move_down, jump_top, jump_bottom, select_with, search_edit, perform_incremental_search,
      exit_search, submit_unlock, save_edit_form, confirm_delete, open_conflicts, conflict_merge,
      conflict_duplicate, resolve_current_conflict, tick; holds_tac; still.
Qed.
Hint Resolve quiet_update : tui.

Lemma quiet_dispatch event : takes (W := W) quiet Waiting (dispatch event).
Proof.
  destruct event as [key|w h|]; cbn [dispatch]; auto with tui.
  apply key_takes; [by intros a Ha | intros a Ha _; split; left; still | ].
  unfold mode_key. unfold_keys. takes_tac; left; still.
Qed.

(** *** A turn *)

Lemma sealed_recheck_online : holds (W := W) Sealed recheck_online.
Proof. unfold recheck_online. holds_tac; leaf. Qed.
Lemma sealed_discover : holds (W := W) Sealed discover_identities.
Proof. unfold discover_identities. holds_tac; leaf. Qed.

(** The dialogue closes into the mode it was opened from. *)
Ltac dialogue :=
  apply (takes_seq _ (SealedIn Account)); [match goal with |- takes _ _ ?m => change (holds (W := W) (SealedIn Account) m) end;
    holds_tac; (split; [in_mode | by match goal with Ha : SealedIn _ _ |- _ => destruct Ha end]) | intros ?].

Lemma sealed_connect url token : takes (W := W) (SealedIn Account) Sealed (connect url token).
Proof.
  unfold connect. do 3 dialogue. match goal with r : Result StoredAuthSession CliError |- _ => destruct r end.
  - apply takes_modify. intros ? Ha. in_mode.
  - dialogue. eapply takes_through; [apply sealed_recheck_online | by intros ? [] | done].
Qed.
Lemma sealed_sign_out : takes (W := W) (SealedIn Account) Sealed sign_out.
Proof.
  unfold sign_out. do 2 dialogue. match goal with r : Result unit CliError |- _ => destruct r end.
  - apply takes_modify. intros ? Ha. in_mode.
  - dialogue. eapply takes_through; [apply sealed_recheck_online | by intros ? [] | done].
Qed.

Lemma quiet_account_step P : takes (W := W) P quiet account_step.
Proof.
  unfold account_step. apply (takes_seq _ P); [apply holds_app | intros a].
  apply (takes_seq _ quiet); [by apply takes_modify | intros _].
  match goal with |- takes _ _ ?m => change (holds (W := W) quiet m) end.
  unfold discover_identities, connect, sign_out, recheck_online. holds_tac; still.
Qed.

Lemma sealed_account_step :
  takes (W := W) (fun a => Sealed a /\ Waiting a) (fun a => Sealed a /\ quiet a) account_step.
Proof.
  intros t [Hs Hw]. split; [ | by apply (quiet_account_step Waiting)].
  unfold account_step. rewrite bind_app, bind_modify.
  set (t' := mkTui _ _). assert (Sealed (app t')) as Hs' by leaf.
  assert (quiet (app t) \/ SealedIn Account (app t')) as Hm by (destruct Hw; [by left | by right]).
  clearbody t'. clear Hw Hs. unfold quiet in Hm.
  assert (forall m : M (Tui W) Empty_set unit, takes (SealedIn Account) Sealed m ->
    SealedIn Account (app t') -> Sealed (app ((_ ← m; mret (@None Worker)) t').2)) as Hop.
  { intros m Hop Ht'. apply (takes_seq (SealedIn Account) Sealed Sealed); [done | | done].
    intros _. by apply takes_ret. }
  destruct (account_pending_action (app t)) as [[]|]; try done.
  - apply Hop; [apply sealed_connect | tauto].
  - apply (takes_seq Sealed Sealed Sealed); [apply sealed_discover | intros _; by apply takes_ret | done].
  - apply Hop; [apply sealed_sign_out | tauto].
Qed.

Definition Kept (a : App) : Prop := Sealed a /\ Waiting a.

Lemma kept_turn (l l' : Loop W) : turn l l' -> Kept (app (tui l)) -> Kept (app (tui l')).
Proof.
  apply (turn_takes Kept (fun a => Sealed a /\ quiet a) Kept).
  - intros t e [Hs Hw]. split; unfold receive, apply_auth_worker_result; [leaf | ].
    cbn. by_cases; done.
  - done.
  - intros s r. apply holds_and; [apply sealed_external_editor | apply waiting_external_editor].
  - apply (takes_seq _ Kept); [apply holds_and; [apply sealed_run_sync | apply waiting_run_sync] | intros _].
    apply (takes_seq _ Kept); [apply holds_and; [apply sealed_process_pending | apply waiting_process_pending] | ].
    intros _. apply sealed_account_step.
  - intros a []. split; [done | by left].
  - intros event t []. split; [by apply sealed_dispatch | by apply quiet_dispatch].
Qed.

Lemma kept_initial m key auth st width height :
  m = Normal \/ m = Locked -> Kept (initial m key auth st width height).
Proof.
  intros Hm. split; [ | left; unfold quiet, initial; cbn; by destruct (is_unverified auth)]. intros _.
  unfold initial; cbn. unfold listed_locked, no_draft; cbn. destruct Hm; subst; case_match; auto 20.
Qed.

Lemma kept_start width height (w : W) : Kept (app (tui (start width height w))).
Proof.
  unfold start, App_new; cbn. repeat case_match; simplify_eq; cbn; try (apply kept_initial; auto; fail).
  all: apply (takes_seq Kept Kept Kept); [ | intros _ | apply kept_initial; auto].
  all: apply holds_and; auto with tui.
Qed.

(** C31. Plaintext is held only beside the key, whatever the services answer and
    whatever the user, the terminal and the background tasks do.  (1) A reachable state
    without the vault key holds no notes, no search results, no preview and no conflict's
    contents; its conflict list is what the service lists for a caller without a key; no
    note is being edited; and the three edit buffers are empty, unless a new note is being
    typed into them (an interface that left the lock screen without a key lets the user do
    that).  (2) The turn of the event loop in which a reachable state gives the key up
    leaves the edit buffers, the search query, the conflict list and everything else
    decrypted empty. *)
Theorem tui_locked_holds_no_plaintext width height (w : W) l :
  reachable width height w l ->
  (vault_key (app (tui l)) = None ->
     notes (app (tui l)) = [] /\ search_results (app (tui l)) = [] /\ preview (app (tui l)) = None
     /\ conflict_detail (app (tui l)) = None /\ listed_locked (conflicts (app (tui l)))
     /\ (no_draft (app (tui l)) \/ drafting (app (tui l)))
     /\ mode (app (tui l)) <> InlineEdit /\ previous_mode (app (tui l)) <> Some InlineEdit)
  /\ (forall l', turn l l' -> vault_key (app (tui l)) <> None -> vault_key (app (tui l')) = None ->
     Blank (app (tui l'))).
Proof.
  intros Hl. split; [ | intros l' Hturn Hkey; by apply (locking_turn l)].
  enough (Kept (app (tui l))) as [Hs _] by exact Hs.
  revert Hl. unfold reachable. generalize (kept_start width height w). generalize (start width height w).
  intros l0 H0. induction 1; eauto using kept_turn.
Qed.
End sealed.

Section signed_out.
Context {W : Type} `{ClientServices W}.

(** ** Background results *)

Ltac leaf := unfold SignedOut in *; unfold_updates; by_cases; cbn in *; auto.

#[local] Hint Resolve OfAccount_SignedOut out_reload_notes out_reload_conflicts out_lock_and_clear
  out_load_selected_preview out_conflict_detail : tui.

Lemma out_update action : holds (W := W) SignedOut (update action).
Proof.
  destruct action; cbn [update];
    unfold move_up, move_down, jump_top, jump_bottom, select_with, search_edit, perform_incremental_search,
      exit_search, submit_unlock, save_edit_form, confirm_delete, open_conflicts, conflict_merge,
      conflict_duplicate, resolve_current_conflict, tick; holds_tac; leaf.
Qed.
#[local] Hint Resolve out_update : tui.

Lemma out_dispatch event : holds (W := W) SignedOut (dispatch event).
Proof.
  destruct event as [key| |]; cbn [dispatch]; auto with tui.
  unfold handle_key, mode_key, record_user_activity.
  holds_tac; unfold locked_key, help_key, delete_key, conflict_key, account_key, account_char, search_key,
    edit_key, normal_key, normal_char, normal_up, normal_down; holds_tac; leaf.
Qed.

Lemma out_receive (t : Tui W) e : SignedOutQuiet (app t) -> SignedOutQuiet (app (receive t e)).
Proof.
  intros [Hout Hq]. unfold receive, apply_auth_worker_result. cbn.
  assert (rejects (wk_generation (ae_worker e)) (wk_expected_account_id (ae_worker e))
            (wk_expected_server_url (ae_worker e)) (ae_result e) (app t) = true) as ->; [ | done].
  unfold rejects, SignedOut in *. rewrite Hout. cbn. by rewrite orb_true_r.
Qed.

Lemma out_account_step (t : Tui W) : SignedOutQuiet (app t) -> SignedOut (app (account_step t).2).
Proof.
  intros [Hout Hq]. unfold quiet in Hq. unfold account_step. rewrite bind_app, bind_modify.
  destruct (account_pending_action (app t)) as [[]|]; try done.
  assert (holds (W := W) SignedOut (_ ← discover_identities; mret (@None Worker))) as Hd.
  { unfold discover_identities. holds_tac; leaf. }
  by apply Hd.
Qed.

(** A signed-out client stays signed out until the user asks to sign in (or to
    sign out again): whatever keys are pressed and whatever late results the
    background checks deliver, no turn of the event loop changes the account
    state while neither operation is pending. *)
Lemma tui_signed_out_stays (l l' : Loop W) :
  rtc (fun l l' => turn l l' /\ quiet (app (tui l))) l l' ->
  account_state (app (tui l)) = LocalOnly -> account_state (app (tui l')) = LocalOnly.
Proof.
  induction 1 as [l|l l1 l' [Hturn Hq] _ IH]; [done | ]. intros Hout. apply IH. clear IH.
  assert (SignedOutQuiet (app (tui l))) as Hl by done. revert Hturn Hl. apply (turn_takes SignedOutQuiet SignedOut SignedOut).
  - apply out_receive.
  - by intros ? [].
  - intros s r t Ht. eapply out_external_editor in Ht as []; eauto using OfAccount_SignedOutQuiet.
  - apply (takes_seq _ SignedOutQuiet); [apply (out_run_sync _ OfAccount_SignedOutQuiet) | intros _].
    apply (takes_seq _ SignedOutQuiet); [apply (out_process_pending _ OfAccount_SignedOutQuiet) | intros _].
    intros t. apply out_account_step.
  - done.
  - apply out_dispatch.
Qed.
End signed_out.

Section findings.
Context {W : Type} `{ClientServices W}.

(** ** What the state machine allows and should not *)

(** Formatting an action that is not redacted never returns. *)
Lemma debug_of_action_diverges fuel w h :
  Action_fmt fuel Quit = None /\ Action_fmt fuel (Resize w h) = None /\ Action_fmt fuel LockVault = None.
Proof. induction fuel as [|fuel (IH1 & IH2 & IH3)]; cbn; [done | ]. by rewrite IH1, IH2, IH3. Qed.

(** [previous_mode] has room for one mode: a dialogue that was resized below the
    minimum and back forgets where it was opened from. *)
Lemma resize_forgets_origin w h w' h' a :
  (w <? MIN_COLS)%N = true -> (w' <? MIN_COLS)%N || (h' <? MIN_ROWS)%N = false ->
  mode a <> TerminalTooSmall ->
  mode (resize w' h' (resize w h a)) = mode a /\ previous_mode (resize w' h' (resize w h a)) = None
  /\ vault_key (resize w' h' (resize w h a)) = vault_key a.
Proof.
  intros Hsmall Hbig Hm. unfold resize, take_previous. rewrite Hsmall, Hbig. cbn.
  rewrite (bool_decide_false (mode a = _)) by done. cbn. by rewrite (bool_decide_true (TerminalTooSmall = _)).
Qed.

(** Closing the vault dialogue after that shows the lock screen with the key still in
    memory, and no tick locks it any more. *)
Lemma resized_vault_dialogue_disables_auto_lock w h w' h' esc a key (s : W) :
  (w <? MIN_COLS)%N = true -> (w' <? MIN_COLS)%N || (h' <? MIN_ROWS)%N = false ->
  vault_key a = Some key -> mode a = VaultMode -> key_code esc = KEsc ->
  let a' := vault_key_press esc (resize w' h' (resize w h a)) in
  mode a' = Locked /\ vault_key a' = Some key /\ tick (mkTui a' s) = (Ok tt, mkTui a' s).
Proof.
  intros Hsmall Hbig Hk Hm He.
  destruct (resize_forgets_origin w h w' h' a) as (_ & Hp & Hk'); [done | done | by rewrite Hm | ].
  unfold vault_key_press, take_previous. rewrite He. cbn. rewrite Hp, Hk', Hk. done.
Qed.

(** The account dialogue opened from the lock screen leaves, the same way, an interface
    in normal mode without a key. *)
Lemma resized_account_dialogue_leaves_lock_screen w h w' h' a :
  (w <? MIN_COLS)%N = true -> (w' <? MIN_COLS)%N || (h' <? MIN_ROWS)%N = false ->
  mode a = Account -> mode (close_account (resize w' h' (resize w h a))) = Normal.
Proof.
  intros Hsmall Hbig Hm.
  destruct (resize_forgets_origin w h w' h' a) as (Hm' & Hp & _); [done | done | by rewrite Hm | ].
  unfold close_account, in_account, take_previous. rewrite Hm', Hm, bool_decide_true by done. cbn. by rewrite Hp.
Qed.
End findings.
