(* ===== verification/WebAuthn.v ===== *)
(** * Passkey verification ([crates/zk-server-auth/src/lib.rs],
      [zk-protocol/src/webauthn.rs])

    The server's check of a WebAuthn registration and of a WebAuthn login.
    Base64url, SHA-256, CBOR ([ciborium]), JSON and P-256 are parameters; the
    order of the checks, the layout of the authenticator data, its flags and
    the signature counter are the code's. *)

From stdpp Require Import options.
From S2P Require Import Prelude Protocol ServerDb Text ServerAuth.

(** ** Wire records *)

Record WebAuthnRpInfo : Type := mkRpInfo { rp_name : string; rp_id : string }.
Record WebAuthnUserInfo : Type := mkUserInfo {
  wu_id : string;
  wu_name : string;
  wu_display_name : string
}.
Record WebAuthnRegisterStartRequest : Type := mkRegisterStartRequest {
  rsr_account_id : option string;
  rsr_username : option string;
  rsr_display_name : option string
}.
Record WebAuthnRegisterStartResponse : Type := mkRegisterStartResponse {
  rst_challenge_id : string;
  rst_challenge_b64 : string;
  rst_rp : WebAuthnRpInfo;
  rst_user : WebAuthnUserInfo
}.
Record WebAuthnRegisterFinishRequest : Type := mkRegisterFinishRequest {
  rf_challenge_id : string;
  rf_credential_id : string;
  rf_public_key : string;
  rf_attestation_object : option string;
  rf_client_data_json : option string;
  rf_display_name : option string;
  rf_device_id : option string
}.
Record WebAuthnLoginStartRequest : Type := mkLoginStartRequest { lsr_account_id : option string }.
Record WebAuthnLoginStartResponse : Type := mkLoginStartResponse {
  lst_challenge_id : string;
  lst_challenge_b64 : string;
  lst_rp_id : string
}.
Record WebAuthnLoginFinishRequest : Type := mkLoginFinishRequest {
  lf_challenge_id : string;
  lf_credential_id : string;
  lf_authenticator_data : option string;
  lf_client_data_json : option string;
  lf_signature : string;
  lf_device_id : option string
}.

Record ClientData : Type := mkClientData {
  cd_kind : string;
  cd_challenge : string;
  cd_origin : string;
  cd_cross_origin : bool
}.

(** ** Library code *)

Class WebAuthnLib : Type := {
  sha256 : string -> string;
  (** [serde_json::from_slice::<ClientData>] *)
  client_data_from_slice : string -> option ClientData;
  (** [ciborium::Value], its constructors and projections, and [==] *)
  Cbor : Type;
  CText : string -> Cbor;
  CInteger : Z -> Cbor;
  as_map : Cbor -> option (list (Cbor * Cbor));
  as_text : Cbor -> option string;
  as_bytes : Cbor -> option string;
  cbor_eqb : Cbor -> Cbor -> bool;
  (** [ciborium::de::from_reader]: the value and the position of the reader *)
  from_reader : string -> option (Cbor * nat);
  (** [p256::ecdsa] *)
  VerifyingKey : Type;
  from_sec1_bytes : string -> option VerifyingKey;
  EcdsaSignature : Type;
  from_der : string -> option EcdsaSignature;
  ecdsa_verify : VerifyingKey -> string -> EcdsaSignature -> bool
}.

Class WebAuthnLaws `{WebAuthnLib} : Prop := {
  sha256_length s : String.length (sha256 s) = 32%nat;
  (** a reader does not move past the end of its buffer *)
  from_reader_position s v n : from_reader s = Some (v, n) -> (n <= String.length s)%nat
}.

(** ** Buffers *)

(** [bytes[i]] *)
Definition byte_at (s : string) (i : nat) : N :=
  match String.get i s with Some c => byte c | None => 0%N end.

(** [bytes[a..b]], [a <= b <= bytes.len()] *)
Definition str_slice (a b : nat) (s : string) : string := str_take (b - a) (str_drop a s).

(** [bytes.get(a..b)], [bytes.get(a..)] *)
Definition get_range (a b : nat) (s : string) : option string :=
  if (a <=? b)%nat && (b <=? String.length s)%nat then Some (str_slice a b s) else None.
Definition get_from (a : nat) (s : string) : option string :=
  if (a <=? String.length s)%nat then Some (str_drop a s) else None.

(** ** Verification *)

Inductive VerificationError : Type := VerificationFailed.
Abbreviation Checked A := (Result A VerificationError).

(** [.ok_or(VerificationFailed)?] *)
Definition require {A} (o : option A) : Checked A :=
  match o with Some a => Ok a | None => Err VerificationFailed end.

Module WebAuthn.
Section webauthn.
Context `{AuthLib} `{WebAuthnLib}.

Definition decode (input : string) : Checked string :=
  if (32768 <? String.length input)%nat then Err VerificationFailed
  else require (base64url_decode input).

Definition client_data (encoded : option string) (challenge origin kind : string) : Checked string :=
  enc ← require encoded;
  bytes ← decode enc;
  data ← require (client_data_from_slice bytes);
  if bool_decide (cd_kind data <> kind) || bool_decide (cd_origin data <> origin)
     || cd_cross_origin data
  then Err VerificationFailed
  else
    c ← decode (cd_challenge data);
    if bool_decide (c <> challenge) then Err VerificationFailed else Ok bytes.

(** Bit [i] of the flags octet. *)
Definition flag (flags : N) (mask : N) : bool := negb (N.land flags mask =? 0)%N.

Definition auth_data (bytes rp : string) (registration : bool) : Checked N :=
  if (String.length bytes <? 37)%nat || bool_decide (str_take 32 bytes <> sha256 rp)
  then Err VerificationFailed
  else
    let flags := byte_at bytes 32 in
    if negb (N.land flags 5 =? 5)%N || flag flags 0x22
       || (flag flags 0x10 && negb (flag flags 8))
       || negb (Bool.eqb (flag flags 0x40) registration)
    then Err VerificationFailed
    else Ok (be_value (str_slice 33 37 bytes)).

Definition field (value key : Cbor) : Checked Cbor :=
  map ← require (as_map value);
  match List.filter (fun kv => cbor_eqb kv.1 key) map with
  | [] => Err VerificationFailed
  | [kv] => Ok kv.2
  | _ => Err VerificationFailed
  end.

Definition number (n : Z) : Cbor := CInteger n.

Definition parse_cbor (bytes : string) : Checked Cbor :=
  vp ← require (from_reader bytes);
  if negb (vp.2 =? String.length bytes)%nat then Err VerificationFailed else Ok vp.1.

Definition extensions (bytes : string) (flags : N) : Checked unit :=
  if flag flags 0x80 then
    value ← parse_cbor bytes;
    match as_map value with None => Err VerificationFailed | Some _ => Ok tt end
  else if negb (bool_decide (bytes = "")) then Err VerificationFailed
  else Ok tt.

(** The SEC1 encoding of a COSE ES256 key: a [04] octet and the coordinates. *)
Definition sec1_of_key (key : Cbor) : Checked string :=
  kty ← field key (number 1);
  if negb (cbor_eqb kty (number 2)) then Err VerificationFailed else
  alg ← field key (number 3);
  if negb (cbor_eqb alg (number (-7))) then Err VerificationFailed else
  crv ← field key (number (-1));
  if negb (cbor_eqb crv (number 1)) then Err VerificationFailed else
  xv ← field key (number (-2));
  x ← require (as_bytes xv);
  yv ← field key (number (-3));
  y ← require (as_bytes yv);
  if negb (String.length x =? 32)%nat || negb (String.length y =? 32)%nat
  then Err VerificationFailed
  else
    let sec1 := String (ascii_of_N 4) (x +:+ y) in
    match from_sec1_bytes sec1 with None => Err VerificationFailed | Some _ => Ok sec1 end.

(** The attested credential data behind the 37 octets every authenticator
    sends: its length and identifier, the key and the extensions. *)
Definition attested_key (data credential_id : string) : Checked string :=
  if (String.length data <? 55)%nat then Err VerificationFailed
  else
    let len := N.to_nat (be_value (str_slice 53 55 data)) in
    if (len =? 0)%nat || (1023 <? len)%nat then Err VerificationFailed
    else
      id ← require (get_range 55 (55 + len) data);
      wanted ← decode credential_id;
      if bool_decide (id <> wanted) then Err VerificationFailed
      else
        remaining ← require (get_from (55 + len) data);
        kp ← require (from_reader remaining);
        _ ← extensions (str_drop kp.2 remaining) (byte_at data 32);
        sec1_of_key kp.1.

Definition register (req : WebAuthnRegisterFinishRequest) (challenge rp origin : string)
    : Checked string :=
  _ ← client_data (rf_client_data_json req) challenge origin "webauthn.create";
  object ← require (rf_attestation_object req);
  object ← decode object;
  attestation ← parse_cbor object;
  fmt ← field attestation (CText "fmt");
  if bool_decide (as_text fmt <> Some "none") then Err VerificationFailed
  else
    stmt ← field attestation (CText "attStmt");
    stmt ← require (as_map stmt);
    if negb (length stmt =? 0)%nat then Err VerificationFailed
    else
      data ← field attestation (CText "authData");
      data ← require (as_bytes data);
      _ ← auth_data data rp true;
      attested_key data (rf_credential_id req).

Definition login (req : WebAuthnLoginFinishRequest) (challenge rp origin key : string) (old_count : N)
    : Checked N :=
  client ← client_data (lf_client_data_json req) challenge origin "webauthn.get";
  data ← require (lf_authenticator_data req);
  data ← decode data;
  count ← auth_data data rp false;
  _ ← extensions (str_drop 37 data) (byte_at data 32);
  if (negb (count =? 0)%N || negb (old_count =? 0)%N) && (count <=? old_count)%N
  then Err VerificationFailed
  else
    let message := data +:+ sha256 client in
    sig_bytes ← decode (lf_signature req);
    signature ← require (from_der sig_bytes);
    verifying_key ← require (from_sec1_bytes key);
    if ecdsa_verify verifying_key message signature then Ok count else Err VerificationFailed.
End webauthn.
End WebAuthn.

(** ** What a verified passkey proof establishes

    [login] and [register] accept exactly the evidence described by
    [AssertionOk] and [AttestationOk]: each is a list of independent facts
    about the request, the stored challenge, the relying party, the key and
    the counter. *)

Section facts.
Context `{AuthLib} `{WebAuthnLib}.
Import WebAuthn.

(** ** Running checks *)

Lemma checked_bind {A B} (m : Checked A) (f : A -> Checked B) b :
  m ≫= f = Ok b <-> exists a, m = Ok a /\ f a = Ok b.
Proof.
  unfold mbind, Result_bind. destruct m as [a|e]; split.
  - intros Hf. by exists a.
  - by intros (a' & [= ->] & Hf).
  - done.
  - by intros (a' & ? & _).
Qed.

Lemma require_ok {A} (o : option A) a : require o = Ok a <-> o = Some a.
Proof. destruct o; cbn; split; by intros [= ->]. Qed.

Lemma check_ok {A} (b : bool) (m : Checked A) a :
  (if b then Err VerificationFailed else m) = Ok a <-> b = false /\ m = Ok a.
Proof. destruct b; [split; [done | by intros [? _]] | by split; [|intros [_ ?]]]. Qed.

Ltac inv_checked :=
  repeat match goal with
  | H : _ ≫= _ = Ok _ |- _ => apply checked_bind in H as (? & ? & ?)
  | H : require _ = Ok _ |- _ => apply require_ok in H
  | H : (if _ then Err VerificationFailed else _) = Ok _ |- _ => apply check_ok in H as [? ?]
  end.

(** The converse: run the next check, which is known to pass. *)
Ltac run_check a := apply checked_bind; exists a; split; [try (apply require_ok); done|].

(** ** Client data *)

Record ClientDataOk (encoded : option string) (challenge origin kind bytes : string)
    (enc : string) (data : ClientData) : Prop := {
  cdo_present : encoded = Some enc;
  cdo_bytes : decode enc = Ok bytes;
  cdo_parsed : client_data_from_slice bytes = Some data;
  cdo_kind : cd_kind data = kind;
  cdo_origin : cd_origin data = origin;
  cdo_same_origin : cd_cross_origin data = false;
  cdo_challenge : decode (cd_challenge data) = Ok challenge
}.

Lemma client_data_ok encoded challenge origin kind bytes :
  client_data encoded challenge origin kind = Ok bytes
  <-> exists enc data, ClientDataOk encoded challenge origin kind bytes enc data.
Proof.
  unfold client_data. split.
  - intros Hrun. inv_checked. simplify_eq.
    repeat match goal with
    | Hb : _ || _ = false |- _ => apply orb_false_iff in Hb as [? ?]
    | Hb : bool_decide _ = false |- _ => apply bool_decide_eq_false, dec_stable in Hb
    end. subst. eexists _, _. by split.
  - intros (enc & data & [? ? ? Hk Ho Hx ?]). run_check enc. run_check bytes. run_check data.
    apply check_ok. rewrite Hx, !bool_decide_eq_false_2 by tauto. split; [done|].
    run_check challenge. apply check_ok. split; [apply bool_decide_eq_false_2; tauto | done].
Qed.

(** ** Authenticator data *)

(** Octet 32: user present, user verified, no reserved bit, backup state only
    with backup eligibility, attested data exactly on registration. *)
Record FlagsOk (flags : N) (registration : bool) : Prop := {
  fo_present : N.testbit flags 0 = true;
  fo_verified : N.testbit flags 2 = true;
  fo_reserved1 : N.testbit flags 1 = false;
  fo_reserved2 : N.testbit flags 5 = false;
  fo_backup : N.testbit flags 4 = true -> N.testbit flags 3 = true;
  fo_attested : N.testbit flags 6 = registration
}.

Record AuthDataOk (bytes rp : string) (registration : bool) (count : N) : Prop := {
  ado_length : (37 <= String.length bytes)%nat;
  ado_rp : str_take 32 bytes = sha256 rp;
  ado_flags : FlagsOk (byte_at bytes 32) registration;
  ado_count : count = be_value (str_slice 33 37 bytes)
}.

Lemma flags_checked flags registration :
  (flags < 256)%N ->
  negb (N.land flags 5 =? 5)%N || flag flags 0x22 || (flag flags 0x10 && negb (flag flags 8))
    || negb (Bool.eqb (flag flags 0x40) registration) = false
  <-> FlagsOk flags registration.
Proof using Type.
  intros Hlt. assert (exists c, flags = byte c) as [c ->].
  { exists (ascii_of_N flags). unfold byte. by rewrite N_ascii_embedding. }
  destruct c as [b0 b1 b2 b3 b4 b5 b6 b7], registration;
    destruct b0, b1, b2, b3, b4, b5, b6, b7; vm_compute; split;
    first [ by intros [=] | by intros [] | by intros [? ? ? ? Hb ?]; first [done | specialize (Hb eq_refl)]
          | intros _; by constructor ].
Qed.

Lemma byte_at_lt s i : (byte_at s i < 256)%N.
Proof using Type. unfold byte_at, byte. case_match; [apply N_ascii_bounded | lia]. Qed.

Lemma auth_data_ok bytes rp registration count :
  auth_data bytes rp registration = Ok count <-> AuthDataOk bytes rp registration count.
Proof.
  unfold auth_data. rewrite check_ok. cbv zeta. rewrite check_ok.
  rewrite (flags_checked _ _ (byte_at_lt bytes 32)).
  rewrite orb_false_iff, Nat.ltb_ge, bool_decide_eq_false. split.
  - intros ((Hl & Hrp) & Hf & [= <-]). split; try done. by apply dec_stable.
  - intros [? ? ? ->]. split; [split; [done | tauto] | done].
Qed.

(** The counter is a 32-bit value. *)
Lemma auth_data_count bytes rp registration count :
  auth_data bytes rp registration = Ok count -> (count <= u32_max)%N.
Proof.
  intros [_ _ _ ->]%auth_data_ok. pose proof (be_value_lt (str_slice 33 37 bytes)) as Hlt.
  assert (256 ^ N.of_nat (String.length (str_slice 33 37 bytes)) <= 256 ^ 4)%N as Hle.
  { apply N.pow_le_mono_r; [done|]. unfold str_slice.
    rewrite length_str_take. lia. }
  change (256 ^ 4)%N with (u32_max + 1)%N in Hle. lia.
Qed.

(** ** Assertions *)

Record AssertionOk (req : WebAuthnLoginFinishRequest) (challenge rp origin key : string)
    (old_count count : N) : Prop := {
  aso_client : exists client enc cd encoded data sig_bytes signature vk,
    ClientDataOk (lf_client_data_json req) challenge origin "webauthn.get" client enc cd
    /\ lf_authenticator_data req = Some encoded /\ decode encoded = Ok data
    /\ AuthDataOk data rp false count
    /\ extensions (str_drop 37 data) (byte_at data 32) = Ok tt
    /\ decode (lf_signature req) = Ok sig_bytes /\ from_der sig_bytes = Some signature
    /\ from_sec1_bytes key = Some vk
    /\ ecdsa_verify vk (data +:+ sha256 client) signature = true;
  aso_counter : (old_count < count)%N \/ (count = 0 /\ old_count = 0)%N
}.

Lemma counter_checked count old :
  (negb (count =? 0)%N || negb (old =? 0)%N) && (count <=? old)%N = false
  <-> (old < count)%N \/ (count = 0 /\ old = 0)%N.
Proof using Type.
  rewrite andb_false_iff, orb_false_iff, !negb_false_iff, !N.eqb_eq, N.leb_gt. lia.
Qed.

Lemma login_ok req challenge rp origin key old_count count :
  login req challenge rp origin key old_count = Ok count
  <-> AssertionOk req challenge rp origin key old_count count.
Proof.
  unfold login. split.
  - intros Hrun. inv_checked. match goal with Hv : (if ?v then Ok _ else _) = _ |- _ => destruct v eqn:?; [|done] end.
    simplify_eq. match goal with Hc : client_data _ _ _ _ = _ |- _ => apply client_data_ok in Hc as (? & ? & ?) end.
    match goal with Hx : extensions _ _ = Ok ?u |- _ => destruct u end.
    split; [|by apply counter_checked]. eexists _, _, _, _, _, _, _, _.
    repeat match goal with |- _ /\ _ => split end; try done. by apply auth_data_ok.
  - intros [(client & enc & cd & encoded & data & sb & sig & vk & Hcd & He & Hd & Ha & Hx & Hsb & Hsig & Hvk & Hv) Hn].
    apply checked_bind. exists client. split; [by apply client_data_ok; eauto|].
    run_check encoded. run_check data. apply auth_data_ok in Ha. run_check count. run_check tt.
    apply check_ok. split; [by apply counter_checked|]. run_check sb. run_check sig. run_check vk.
    by rewrite Hv.
Qed.
(** ** Registrations *)

(** The key a registration yields is the attested one: an uncompressed P-256
    point for the credential identifier of the request, attested to this
    relying party under this challenge. *)
Record AttestationOk (req : WebAuthnRegisterFinishRequest) (challenge rp origin sec1 : string) : Prop := {
  ato_client : exists client enc cd,
    ClientDataOk (rf_client_data_json req) challenge origin "webauthn.create" client enc cd;
  ato_data : exists encoded object attestation data count id,
    rf_attestation_object req = Some encoded /\ decode encoded = Ok object
    /\ from_reader object = Some (attestation, String.length object)
    /\ field attestation (CText "authData") ≫= (fun v => require (as_bytes v)) = Ok data
    /\ AuthDataOk data rp true count
    /\ decode (rf_credential_id req) = Ok id /\ (1 <= String.length id <= 1023)%nat
    /\ str_slice 55 (55 + String.length id) data = id
    /\ (exists key pos, from_reader (str_drop (55 + String.length id) data) = Some (key, pos)
          /\ sec1_of_key key = Ok sec1);
  ato_key : exists x y vk, sec1 = String (ascii_of_N 4) (x +:+ y) /\ String.length x = 32%nat
    /\ String.length y = 32%nat /\ from_sec1_bytes sec1 = Some vk
}.

Lemma sec1_of_key_ok key sec1 :
  sec1_of_key key = Ok sec1 ->
  exists x y vk, sec1 = String (ascii_of_N 4) (x +:+ y) /\ String.length x = 32%nat
    /\ String.length y = 32%nat /\ from_sec1_bytes sec1 = Some vk.
Proof.
  unfold sec1_of_key. intros Hrun. inv_checked. cbv zeta in *.
  match goal with Hb : _ || _ = false |- _ => apply orb_false_iff in Hb as [?%negb_false_iff ?%negb_false_iff] end.
  case_match eqn:Hk; simplify_eq. eexists _, _, _. repeat split; [..|exact Hk]; by apply Nat.eqb_eq.
Qed.

Lemma str_slice_length a b s : (b <= String.length s)%nat -> String.length (str_slice a b s) = (b - a)%nat.
Proof using Type.
  intros Hb. unfold str_slice. rewrite length_str_take, length_str_drop. lia.
Qed.

Lemma attested_key_ok data credential_id sec1 :
  attested_key data credential_id = Ok sec1 ->
  exists id key pos, decode credential_id = Ok id /\ (1 <= String.length id <= 1023)%nat
    /\ str_slice 55 (55 + String.length id) data = id
    /\ from_reader (str_drop (55 + String.length id) data) = Some (key, pos)
    /\ sec1_of_key key = Ok sec1.
Proof.
  unfold attested_key. intros Hrun. apply check_ok in Hrun as [Hlen Hrun]. cbv zeta in Hrun.
  set (len := N.to_nat (be_value (str_slice 53 55 data))) in *. inv_checked.
  match goal with Hb : _ || _ = false |- _ =>
    apply orb_false_iff in Hb as [?%Nat.eqb_neq ?%Nat.ltb_ge] end.
  match goal with Hb : bool_decide _ = false |- _ => apply bool_decide_eq_false, dec_stable in Hb; subst end.
  unfold get_range, get_from in *. repeat case_match; simplify_eq.
  match goal with Hb : (_ <=? String.length data)%nat = true |- _ => apply Nat.leb_le in Hb end.
  match goal with Hd : decode credential_id = Ok _ |- _ => pose proof Hd as Hid end.
  assert (String.length (str_slice 55 (55 + len) data) = len) as Hl
    by (rewrite str_slice_length by lia; lia).
  match goal with Hf : from_reader _ = Some ?kp |- _ => destruct kp as [key pos] end.
  exists (str_slice 55 (55 + len) data), key, pos. rewrite Hl.
  split; [exact Hid|]. split; [lia|]. by split.
Qed.

Lemma register_ok req challenge rp origin sec1 :
  register req challenge rp origin = Ok sec1 -> AttestationOk req challenge rp origin sec1.
Proof.
  unfold register. intros Hrun. inv_checked.
  match goal with Hc : client_data _ _ _ _ = _ |- _ => apply client_data_ok in Hc as (? & ? & ?) end.
  match goal with Hk : attested_key _ _ = _ |- _ => apply attested_key_ok in Hk as (id & key & pos & ? & ? & ? & ? & Hs) end.
  split; [by eauto| |by eapply sec1_of_key_ok].
  match goal with Hp : parse_cbor _ = _ |- _ => unfold parse_cbor in Hp end. inv_checked.
  match goal with Hb : negb (?vp.2 =? String.length _)%nat = false |- _ =>
    apply negb_false_iff, Nat.eqb_eq in Hb; destruct vp; cbn [fst snd] in *; subst end.
  match goal with Hok : Ok ?c = Ok ?d |- _ => injection Hok as Hok; subst d end.
  eexists _, _, _, _, _, id. split; [done|]. split; [done|]. split; [done|]. split.
  { apply checked_bind. eexists. split; [eassumption|]. by apply require_ok. }
  split; [by apply auth_data_ok|]. split; [done|]. split; [done|]. split; [done|]. eauto.
Qed.
End facts.
