(* ===== verification/Json.v ===== *)
(** * JSON values and the scan for secrets
      ([apps/server/src/routes/vault.rs], the wire records of [zk-protocol])

    [serde_json::Value], the recursive scan for forbidden field names that
    guards the server's endpoints, and the values the [Serialize] derivations
    of the wire records produce, field by field; then what the handlers share:
    the configuration, requests, responses and the application state. *)

From stdpp Require Import options.
From S2P Require Import Prelude Protocol Time ServerDb Text ServerAuth WebAuthn.

(** [serde_json::Value]; the numbers of the protocol are unsigned, any other
    literal is kept as its text. *)
Inductive Value : Type :=
| VNull
| VBool (b : bool)
| VNumber (n : N)
| VOtherNumber (literal : string)
| VString (s : string)
| VArray (l : list Value)
| VObject (m : list (string * Value)).

Section value_ind.
Context (P : Value -> Prop).
Context (Hnull : P VNull) (Hbool : forall b, P (VBool b)) (Hnum : forall n, P (VNumber n))
        (Hother : forall s, P (VOtherNumber s)) (Hstr : forall s, P (VString s)).
Context (Harr : forall l, Forall P l -> P (VArray l)).
Context (Hobj : forall m, Forall (fun kv => P kv.2) m -> P (VObject m)).

Fixpoint Value_nested_ind (v : Value) : P v :=
  match v with
  | VNull => Hnull
  | VBool b => Hbool b
  | VNumber n => Hnum n
  | VOtherNumber s => Hother s
  | VString s => Hstr s
  | VArray l => Harr l ((fix go l := match l return Forall P l with
                                     | [] => Forall_nil_2 _
                                     | x :: l' => Forall_cons_2 _ _ _ (Value_nested_ind x) (go l')
                                     end) l)
  | VObject m => Hobj m ((fix go m := match m return Forall (fun kv => P kv.2) m with
                                      | [] => Forall_nil_2 _
                                      | kv :: m' => Forall_cons_2 _ kv m' (Value_nested_ind kv.2) (go m')
                                      end) m)
  end.
End value_ind.

(** ** The scan *)

(** The names of [contains_forbidden_keys], matched in lower case. *)
Definition forbidden_names : list string :=
  ["passphrase"; "password"; "vault_passphrase"; "vault_key"; "plaintext"; "master_key"; "secret"].

Definition name_in (names : list string) (k : string) : bool :=
  bool_decide (to_ascii_lowercase k ∈ names).

Fixpoint contains_forbidden_keys (value : Value) : bool :=
  match value with
  | VObject map =>
      (fix scan (map : list (string * Value)) : bool :=
         match map with
         | [] => false
         | (k, v) :: rest =>
             if name_in forbidden_names k then true
             else if contains_forbidden_keys v then true
             else scan rest
         end) map
  | VArray list => existsb contains_forbidden_keys list
  | _ => false
  end.

(** A field name occurs in an object somewhere inside a value. *)
Inductive Occurs (k : string) : Value -> Prop :=
| occurs_here m v : (k, v) ∈ m -> Occurs k (VObject m)
| occurs_field m k' v : (k', v) ∈ m -> Occurs k v -> Occurs k (VObject m)
| occurs_item l v : v ∈ l -> Occurs k v -> Occurs k (VArray l).

Lemma scan_object m :
  contains_forbidden_keys (VObject m)
  = existsb (fun kv => name_in forbidden_names kv.1 || contains_forbidden_keys kv.2) m.
Proof.
  cbn [contains_forbidden_keys]. induction m as [|[k v] m IH]; [done|].
  cbn [existsb fst snd]. rewrite IH.
  by destruct (name_in forbidden_names k), (contains_forbidden_keys v).
Qed.

Lemma existsb_elem {A} (p : A -> bool) l : existsb p l = true <-> exists x, x ∈ l /\ p x = true.
Proof. rewrite existsb_exists. by setoid_rewrite list_elem_of_In. Qed.

(** The scan finds a forbidden name at any depth, in any letter case, and
    nothing else. *)
Lemma forbidden_keys_spec v :
  contains_forbidden_keys v = true
  <-> exists k, Occurs k v /\ to_ascii_lowercase k ∈ forbidden_names.
Proof.
  induction v as [| | | | |l IH|m IH] using Value_nested_ind;
    try (split; [done | intros (k & Ho & _); inversion Ho]).
  - cbn [contains_forbidden_keys]. rewrite existsb_elem. rewrite Forall_forall in IH. split.
    + intros (x & Hx & Hf). apply IH in Hf as (k & Ho & Hk); [|done].
      exists k. split; [by eapply occurs_item | done].
    + intros (k & Ho & Hk). inversion Ho as [| |l' x Hx Hin]; subst.
      exists x. split; [done|]. apply IH; [done|]. by exists k.
  - rewrite scan_object, existsb_elem. rewrite Forall_forall in IH. split.
    + intros ([k v] & Hin & [Hk|Hv]%orb_true_iff); cbn [fst snd] in *.
      * exists k. split; [by eapply occurs_here | by apply bool_decide_eq_true in Hk].
      * apply (IH _ Hin) in Hv as (k' & Ho & Hk). exists k'. split; [by eapply occurs_field | done].
    + intros (k & Ho & Hk). inversion Ho as [m' v Hin|m' k' v Hin Ho'|]; subst.
      * exists (k, v). split; [done|]. apply orb_true_iff. left. by apply bool_decide_eq_true.
      * exists (k', v). split; [done|]. apply orb_true_iff. right. apply (IH _ Hin). by exists k.
Qed.

(** ** What the wire records serialize to *)

Definition key_container_value (c : EncryptedKeyContainer) : Value :=
  VObject [("nonce", VString (key_nonce c)); ("ciphertext", VString (key_ciphertext c))].
Definition payload_container_value (c : EncryptedPayloadContainer) : Value :=
  VObject [("nonce", VString (payload_nonce c)); ("ciphertext", VString (payload_ciphertext c))].
Definition envelope_value (e : EncryptedEnvelope) : Value :=
  VObject [("envelope_version", VNumber (envelope_version e)); ("object_id", VString (env_object_id e));
           ("object_kind", VNumber (env_object_kind e));
           ("wrapped_key", key_container_value (wrapped_key e));
           ("payload", payload_container_value (payload e))].
Definition push_request_value (r : PushRequest) : Value :=
  VObject [("mutation_id", VString (req_mutation_id r)); ("object_id", VString (req_object_id r));
           ("expected_revision", VNumber (req_expected_revision r));
           ("object_kind", VNumber (req_object_kind r)); ("envelope", envelope_value (req_envelope r));
           ("is_deleted", VBool (req_is_deleted r))].
Definition kdf_params_value (p : KdfParams) : Value :=
  VObject [("algorithm", VString (kdf_algorithm p)); ("salt", VString (kdf_salt p));
           ("memory_kib", VNumber (memory_kib p)); ("iterations", VNumber (iterations p));
           ("parallelism", VNumber (parallelism p))].
Definition wrapped_vault_key_value (w : WrappedVaultKey) : Value :=
  VObject [("cipher_suite", VString (cipher_suite w)); ("nonce", VString (wvk_nonce w));
           ("ciphertext", VString (wvk_ciphertext w))].
Definition vault_bootstrap_value (b : VaultBootstrap) : Value :=
  VObject [("crypto_version", VNumber (crypto_version b)); ("kdf", kdf_params_value (kdf b));
           ("wrapped_vault_key", wrapped_vault_key_value (wrapped_vault_key b));
           ("recovery_wrapped_vault_key", wrapped_vault_key_value (recovery_wrapped_vault_key b))].

(** The scan never refuses a well-formed record: no field name of the protocol
    is forbidden, whatever the fields hold. *)
Lemma push_request_allowed r : contains_forbidden_keys (push_request_value r) = false.
Proof. by vm_compute. Qed.

Lemma vault_bootstrap_allowed b : contains_forbidden_keys (vault_bootstrap_value b) = false.
Proof. by vm_compute. Qed.

(** ** The server application's state, requests and responses
      ([apps/server/src/app.rs], [config.rs], [auth.rs])

    One SQLite database holds the tables of [ServerDb] and those of
    [ServerAuth]; they share the table of accounts.  [on_db] and [on_auth] run
    an operation of either on the whole state.  A handler either returns a
    response or returns early with one: both are responses. *)

(** ** Configuration *)

Inductive LogFormat : Type := LF_Json | LF_Text.

Record ServerConfig : Type := mkServerConfig {
  cfg_ssh_auth_origin : string;
  cfg_webauthn_rp_id : string;
  cfg_webauthn_origin : string;
  cfg_host : string;
  cfg_port : N;
  cfg_log_level : string;
  cfg_log_format : LogFormat;
  cfg_max_blob_size : N;
  cfg_account_blob_quota : N;
  cfg_db_path : option string
}.

Definition ServerConfig_default : ServerConfig :=
  mkServerConfig "http://127.0.0.1:8080" "localhost" "http://localhost:5173" "127.0.0.1" 8080
    "info" LF_Json (100 * 1024 * 1024) (1024 * 1024 * 1024) None.

(** ** Requests and responses *)

Inductive Method : Type := GET | POST | PUT | DELETE | PATCH | HEAD | OPTIONS.

#[export] Instance Method_eq_dec : EqDecision Method.
Proof. solve_decision. Defined.

(** [HeaderMap], with lower-case names; [get] returns the first value and
    [insert] replaces them all. *)
Abbreviation HeaderMap V := (list (string * V)).
Definition header_get {V} (name : string) (h : HeaderMap V) : option V :=
  snd <$> find_first (fun kv => bool_decide (kv.1 = name)) h.
Definition header_insert {V} (name : string) (v : V) (h : HeaderMap V) : HeaderMap V :=
  List.filter (fun kv => bool_decide (kv.1 <> name)) h ++ [(name, v)].

Record Request : Type := mkRequest {
  rq_method : Method;
  rq_path : string;
  rq_query : option string;
  rq_headers : HeaderMap HeaderValue;
  rq_body : string
}.

Record DeviceInfo : Type := mkDeviceInfo {
  di_device_id : string;
  di_account_id : string;
  di_display_name : option string;
  di_created_at : Z;
  di_last_seen : option Z;
  di_last_ack_server_seq : Z;
  di_revoked_at : option Z;
  di_is_revoked : bool
}.

Record DeviceAuthRequest : Type := mkDeviceAuthRequest {
  da_account_id : string;
  da_device_id : string;
  da_device_name : option string
}.

Record AddSshKeyRequest : Type := mkAddSshKeyRequest {
  ak_public_key : string;
  ak_label : option string
}.

(** The values the handlers answer with. *)
Inductive Body : Type :=
| BError (code message : string)
| BPlain (text : string)
| BEmpty
| BBytes (data : string)
| BPush (r : PushResponse)
| BConflict (c : ConflictResponse)
| BPull (r : PullChangesResponse)
| BBootstrap (b : VaultBootstrap)
| BBlobStored (blob_id : string) (size : N)
| BBlobDeleted (blob_id : string)
| BSshChallenge (c : SshChallenge)
| BSshCredential (c : SshCredential)
| BSshCredentials (l : list SshCredential)
| BSession (s : SessionResponse)
| BRegisterStart (r : WebAuthnRegisterStartResponse)
| BLoginStart (r : WebAuthnLoginStartResponse)
| BRevokeSession (status revoked_session_id : string)
| BSessionStatus (account_id : string) (session_id device_id : option string) (status : string)
| BDevices (l : list DeviceInfo)
| BRevokeDevice (device_id : string) (revoked : bool) (message : string)
| BHealth (status version : string) (protocol_version : N).

Record Response : Type := mkResponse {
  rs_status : N;
  rs_headers : HeaderMap HeaderValue;
  rs_body : Body
}.

(** [(status, Json(body)).into_response()] *)
Definition respond (status : N) (b : Body) : Response :=
  mkResponse status [("content-type", Some "application/json")] b.
(** [(status, Json(ErrorResponse { code, message })).into_response()] *)
Definition error_response (status : N) (code message : string) : Response :=
  respond status (BError code message).

(** [StatusCode::is_success], [is_server_error] *)
Definition is_success_status (n : N) : bool := (200 <=? n)%N && (n <? 300)%N.
Definition is_server_error (n : N) : bool := (500 <=? n)%N && (n <? 600)%N.

(** ** Application state *)

Record AppState : Type := mkAppState {
  st_config : ServerConfig;
  st_db : Db;
  st_auth : Auth
}.

Definition shared_accounts (st : AppState) : gmap string string := ad_accounts (au_db (st_auth st)).

Definition get_db (st : AppState) : Db := set_accounts (dom (shared_accounts st)) (st_db st).
Definition put_db (db : Db) (st : AppState) : AppState :=
  mkAppState (st_config st) db
    (set_db (up_accounts (fun m => m ∪ set_to_map (fun a => (a, "active")) (db_accounts db))
               (au_db (st_auth st))) (st_auth st)).
Definition put_auth (au : Auth) (st : AppState) : AppState :=
  mkAppState (st_config st) (st_db st) au.

Abbreviation App E A := (M AppState E A).
Definition on_db {A} (m : M Db DbError A) : App DbError A := zoom get_db put_db m.
Definition on_auth {E A} (m : M Auth E A) : App E A := zoom st_auth put_auth m.

(** ** Handlers *)

Abbreviation Handler := (App Response Response).

Definition run_handler (h : Handler) (st : AppState) : Response * AppState :=
  match h st with (Ok r, st') => (r, st') | (Err r, st') => (r, st') end.

(** [match m { Ok(a) => .., Err(e) => return on_err(e) }] *)
Definition or_return {E A} (on_err : E -> Response) (m : App E A) : App Response A :=
  map_err on_err m.
(** [if b { return r; }] *)
Definition return_if (b : bool) (r : Response) : App Response unit :=
  if b then throw r else mret tt.
Definition config : App Response ServerConfig := fun st => (Ok (st_config st), st).

Definition AuthError_message (e : AuthError) : string :=
  match e with
  | MissingHeader => "Authorization header is required"
  | InvalidScheme => "Authorization scheme must be Bearer"
  | InvalidToken => "Invalid or malformed authorization token"
  | ExpiredToken => "Authorization token has expired"
  | RevokedToken => "Authorization token has been revoked"
  | DeviceRevokedToken => "Associated device has been revoked"
  | ForbiddenAccountAccess => "Cross-account access denied"
  end.

(** [AuthError::into_response] *)
Definition auth_error_response (e : AuthError) : Response :=
  let r := AuthError_response e in error_response r.1 r.2 (AuthError_message e).

(** ** Library code *)

(** axum's limit on an extracted body, which the application does not change *)
Definition body_limit : N := 2097152.

(** A rejection of axum's own: a status and a plain text. *)
Definition rejection (status : N) (text : string) : Response :=
  mkResponse status [("content-type", Some "text/plain; charset=utf-8")] (BPlain text).

Class RouteLib : Type := {
  (** [serde_json::from_slice::<Value>] and [serde_json::from_value] *)
  json_from_slice : string -> Result Value string;
  push_request_from_value : Value -> Result PushRequest string;
  vault_bootstrap_from_value : Value -> Result VaultBootstrap string;
  register_finish_from_value : Value -> Result WebAuthnRegisterFinishRequest string;
  login_finish_from_value : Value -> Result WebAuthnLoginFinishRequest string;
  device_auth_from_value : Value -> Result DeviceAuthRequest string;
  (** [serde_json::from_slice] of the SSH requests *)
  ssh_start_from_slice : string -> option SshStartRequest;
  ssh_finish_from_slice : string -> option SshFinishRequest;
  ssh_add_from_slice : string -> option AddSshKeyRequest;
  (** axum's extractors: [Json<T>], [Bytes] and the decoding of a path segment *)
  json_register_start : Request -> Result WebAuthnRegisterStartRequest Response;
  json_login_start : Request -> Result WebAuthnLoginStartRequest Response;
  json_revoke_session : Request -> Result (option string) Response;
  json_revoke_device : Request -> Result string Response;
  bytes_of_request : Request -> Result string Response;
  percent_decode : string -> Result string Response;
  (** [uuid::Uuid] in a path segment *)
  uuid_path_rejection : string -> string -> Response;
  (** [env!("CARGO_PKG_VERSION")] *)
  pkg_version : string
}.
