(* ===== verification/Routes.v ===== *)
(** * The server's data endpoints ([apps/server/src/routes/sync.rs], [blob.rs],
      [vault.rs], [ssh.rs], [health.rs])

    Every handler is the code's function of the authenticated account, its
    extracted arguments and the application state; it answers with a response
    and the state afterwards. *)

From stdpp Require Import options.
From S2P Require Import Prelude Protocol Time ServerDb Text ServerAuth WebAuthn Json.

(** The two parts of [pair.splitn(2, '=')], the missing one empty. *)
Definition is_equals (c : ascii) : bool := bool_decide (c = "="%char).
Definition split_pair (p : string) : string * string :=
  match find_char is_equals p with Some kv => kv | None => (p, "") end.

Definition ERROR_INVALID_ENVELOPE : string := "INVALID_ENVELOPE".
Definition ERROR_CRYPTO_UNSUPPORTED_VERSION : string := "CRYPTO_UNSUPPORTED_VERSION".
Definition ERROR_OBJECT_NOT_FOUND : string := "OBJECT_NOT_FOUND".
Definition ERROR_SERVER_FAILURE : string := "SERVER_FAILURE".
Definition ERROR_BLOB_NOT_FOUND : string := "BLOB_NOT_FOUND".
Definition ERROR_PAYLOAD_TOO_LARGE : string := "PAYLOAD_TOO_LARGE".
Definition ERROR_QUOTA_EXCEEDED : string := "QUOTA_EXCEEDED".

Section routes.
Context `{ServerLib} `{AuthLib} `{RouteLib}.

(** ** Synchronization *)

Definition bad_envelope (message : string) : Response :=
  error_response 400 ERROR_INVALID_ENVELOPE message.

(** The JSON body of a request that must not carry secrets: parsed, scanned,
    and deserialized. *)
Definition scanned_body {A} (from_value : Value -> Result A string)
    (malformed : string -> Response) (forbidden : Response) (invalid : string -> Response)
    (body : string) : App Response A :=
  json_val ← or_return malformed (lift_result (json_from_slice body));
  _ ← return_if (contains_forbidden_keys json_val) forbidden;
  or_return invalid (lift_result (from_value json_val)).

Definition is_base64 (s : string) : bool := is_ok (base64_decode_vec s).

(** Steps 3 to 5 of the handler. *)
Definition validate_push (r : PushRequest) : App Response unit :=
  _ ← return_if (negb (is_ok (uuid_parse_str (req_mutation_id r))))
        (bad_envelope "mutation_id must be a valid UUID");
  _ ← return_if (negb (is_ok (uuid_parse_str (req_object_id r))))
        (bad_envelope "object_id must be a valid UUID");
  _ ← return_if (bool_decide (env_object_id (req_envelope r) <> req_object_id r))
        (bad_envelope "envelope.object_id does not match request object_id");
  _ ← return_if (negb (envelope_version (req_envelope r) =? ENVELOPE_VERSION_V1)%N)
        (error_response 400 ERROR_CRYPTO_UNSUPPORTED_VERSION
           ("Unsupported envelope_version '" +:+ show_N (envelope_version (req_envelope r))
            +:+ "', expected " +:+ show_N ENVELOPE_VERSION_V1));
  return_if (negb (is_base64 (key_nonce (wrapped_key (req_envelope r))))
             || negb (is_base64 (key_ciphertext (wrapped_key (req_envelope r))))
             || negb (is_base64 (payload_nonce (payload (req_envelope r))))
             || negb (is_base64 (payload_ciphertext (payload (req_envelope r)))))
    (bad_envelope "Envelope nonce and ciphertext fields must be valid standard Base64").

Definition push_outcome_response (o : PushOutcome) : Response :=
  match o with
  | Success resp => respond 200 (BPush resp)
  | Conflict conflict => respond 409 (BConflict conflict)
  | ObjectNotFound msg => error_response 404 ERROR_OBJECT_NOT_FOUND msg
  | ReplayMismatch msg => error_response 409 ERROR_MUTATION_REPLAY_MISMATCH msg
  end.

Definition push_mutation_handler (auth : AuthenticatedAccount) (body_bytes : string) : Handler :=
  push_req ← scanned_body push_request_from_value
    (fun e => bad_envelope ("Malformed JSON payload: " +:+ e))
    (bad_envelope "Plaintext note content and secrets MUST NOT be transmitted to the server (SEC-001/SEC-002)")
    (fun e => bad_envelope ("Invalid push request structure: " +:+ e)) body_bytes;
  _ ← validate_push push_req;
  outcome ← or_return
    (fun e => error_response 500 ERROR_SERVER_FAILURE
                ("Failed to process push mutation: " +:+ DbError_display e))
    (on_db (push_mutation (aa_account_id auth) push_req));
  mret (push_outcome_response outcome).

(** One [key=value] pair of the query: the cursor and the limit so far. *)
Definition clamp_limit (v : N) : nat :=
  if (v =? 0)%N then 50 else if (500 <? v)%N then 500 else N.to_nat v.

Definition pull_parameter (acc : N * nat) (p : string) : Result (N * nat) Response :=
  if bool_decide (p = "") then Ok acc
  else
    let kv := split_pair p in
    if bool_decide (kv.1 ∈ ["after"; "since"; "cursor"]) then
      v ← result_map_err (fun e => error_response 400 ERROR_SYNC_CURSOR_INVALID
                                     ("Invalid 'after' cursor parameter: " +:+ e))
            (parse_uint u64_max kv.2);
      Ok (v, acc.2)
    else if bool_decide (kv.1 = "limit") then
      v ← result_map_err (fun e => error_response 400 ERROR_SYNC_CURSOR_INVALID
                                     ("Invalid 'limit' parameter: " +:+ e))
            (parse_uint u32_max kv.2);
      Ok (acc.1, clamp_limit v)
    else Ok acc.

Fixpoint pull_parameters (acc : N * nat) (pairs : list string) : Result (N * nat) Response :=
  match pairs with
  | [] => Ok acc
  | p :: rest => acc' ← pull_parameter acc p; pull_parameters acc' rest
  end.

Definition pull_query (raw_query : option string) : Result (N * nat) Response :=
  match raw_query with
  | Some query_str => pull_parameters (0%N, 50) (str_split "&" query_str)
  | None => Ok (0%N, 50)
  end.

Definition pull_changes_handler (auth : AuthenticatedAccount) (raw_query : option string) : Handler :=
  params ← lift_result (pull_query raw_query);
  resp ← or_return
    (fun e => error_response 500 ERROR_SERVER_FAILURE
                ("Failed to pull changes: " +:+ DbError_display e))
    (on_db (pull_changes (aa_account_id auth) params.1 params.2));
  mret (respond 200 (BPull resp)).

(** ** Vault bootstrap *)

Definition bad_bootstrap (message : string) : Response :=
  error_response 400 "INVALID_VAULT_BOOTSTRAP" message.

Definition bootstrap_request_ok (b : VaultBootstrap) : App Response unit :=
  _ ← return_if (negb (crypto_version b =? PROTOCOL_VERSION_V1)%N)
        (error_response 400 ERROR_CRYPTO_UNSUPPORTED_VERSION
           ("Unsupported crypto_version '" +:+ show_N (crypto_version b)
            +:+ "', expected " +:+ show_N PROTOCOL_VERSION_V1));
  _ ← return_if (bool_decide (str_trim (kdf_algorithm (kdf b)) = "")
                 || (memory_kib (kdf b) =? 0)%N || (iterations (kdf b) =? 0)%N
                 || (parallelism (kdf b) =? 0)%N)
        (bad_bootstrap "KDF parameters cannot be zero or empty");
  return_if (negb (is_base64 (kdf_salt (kdf b))))
    (bad_bootstrap "KDF salt must be valid standard Base64").

Definition create_vault_bootstrap_handler (auth : AuthenticatedAccount) (body_bytes : string)
    : Handler :=
  bootstrap ← scanned_body vault_bootstrap_from_value
    (fun e => bad_bootstrap ("Malformed JSON payload: " +:+ e))
    (bad_bootstrap "Passphrase and plaintext secrets MUST NOT be transmitted to the server (SEC-001/SEC-002)")
    (fun e => bad_bootstrap ("Invalid vault bootstrap structure: " +:+ e)) body_bytes;
  _ ← bootstrap_request_ok bootstrap;
  _ ← or_return
    (fun e => match e with
              | DbE_VaultAlreadyExists _ =>
                  error_response 409 "VAULT_ALREADY_EXISTS"
                    "Vault has already been initialized for this account"
              | _ => error_response 500 ERROR_SERVER_FAILURE
                       ("Failed to store vault bootstrap: " +:+ DbError_display e)
              end)
    (on_db (create_vault_bootstrap (aa_account_id auth) bootstrap));
  mret (respond 201 (BBootstrap bootstrap)).

Definition get_vault_bootstrap_handler (auth : AuthenticatedAccount) : Handler :=
  found ← or_return
    (fun e => error_response 500 ERROR_SERVER_FAILURE
                ("Failed to retrieve vault bootstrap: " +:+ DbError_display e))
    (on_db (get_vault_bootstrap (aa_account_id auth)));
  match found with
  | Some bootstrap => mret (respond 200 (BBootstrap bootstrap))
  | None => mret (error_response 404 ERROR_OBJECT_NOT_FOUND "Vault bootstrap not found for this account")
  end.

(** ** Blobs *)

Definition is_ascii_alphanumeric (c : ascii) : bool :=
  let n := N_of_ascii c in
  ((48 <=? n) && (n <=? 57) || (65 <=? n) && (n <=? 90) || (97 <=? n) && (n <=? 122))%N.

(** Every octet of a character outside ASCII is refused with it. *)
Definition is_valid_blob_id (id : string) : bool :=
  negb (bool_decide (id = "")) && (String.length id <=? 128)%nat
  && str_forallb (fun c => is_ascii_alphanumeric c || bool_decide (c = "-"%char)
                           || bool_decide (c = "_"%char)) id.

Definition forbidden_header_names : list string :=
  ["x-filename"; "x-file-name"; "x-mime-type"; "x-mime"; "x-content-type-original"; "x-note-id";
   "x-note-title"; "x-tag"].
Definition contains_forbidden_plaintext_headers (headers : HeaderMap HeaderValue) : bool :=
  existsb (fun name => bool_decide (is_Some (header_get name headers))) forbidden_header_names.

Definition invalid_blob_id : Response :=
  error_response 400 "INVALID_BLOB_ID" "Blob ID must be 1-128 alphanumeric, hyphen, or underscore characters".

Definition put_blob_failure (e : DbError) : Response :=
  match e with
  | DbE_BlobSizeExceeded max actual =>
      error_response 413 ERROR_PAYLOAD_TOO_LARGE
        ("Blob size (" +:+ show_N actual +:+ " bytes) exceeds maximum limit (" +:+ show_N max +:+ " bytes)")
  | DbE_AccountQuotaExceeded quota requested =>
      error_response 413 ERROR_QUOTA_EXCEEDED
        ("Account storage quota exceeded: requested " +:+ show_N requested +:+ " bytes, quota "
         +:+ show_N quota +:+ " bytes")
  | _ => error_response 500 ERROR_SERVER_FAILURE "Failed to persist ciphertext blob"
  end.

Definition put_blob_handler (blob_id : string) (auth : AuthenticatedAccount)
    (headers : HeaderMap HeaderValue) (body : string) : Handler :=
  _ ← return_if (negb (is_valid_blob_id blob_id)) invalid_blob_id;
  _ ← return_if (contains_forbidden_plaintext_headers headers)
        (error_response 400 "PLAINTEXT_METADATA_FORBIDDEN"
           "Plaintext attachment metadata headers are strictly prohibited (SEC-001)");
  cfg ← config;
  _ ← return_if (cfg_max_blob_size cfg <? N.of_nat (String.length body))%N
        (error_response 413 ERROR_PAYLOAD_TOO_LARGE
           ("Blob size (" +:+ show_nat (String.length body)
            +:+ " bytes) exceeds maximum single blob size limit (" +:+ show_N (cfg_max_blob_size cfg)
            +:+ " bytes)"));
  size ← or_return put_blob_failure
    (on_db (put_blob (aa_account_id auth) blob_id body (cfg_account_blob_quota cfg)
              (N.to_nat (cfg_max_blob_size cfg))));
  mret (respond 201 (BBlobStored blob_id size)).

Definition blob_not_found : Response :=
  error_response 404 ERROR_BLOB_NOT_FOUND "Ciphertext blob not found".

Definition get_blob_handler (blob_id : string) (auth : AuthenticatedAccount) : Handler :=
  _ ← return_if (negb (is_valid_blob_id blob_id)) invalid_blob_id;
  found ← or_return (fun _ => error_response 500 ERROR_SERVER_FAILURE "Failed to retrieve ciphertext blob")
            (on_db (get_blob (aa_account_id auth) blob_id));
  match found with
  | Some data => mret (mkResponse 200 [("content-type", Some "application/octet-stream");
                                       ("content-length", Some (show_nat (String.length data)))] (BBytes data))
  | None => mret blob_not_found
  end.

Definition delete_blob_handler (blob_id : string) (auth : AuthenticatedAccount) : Handler :=
  _ ← return_if (negb (is_valid_blob_id blob_id)) invalid_blob_id;
  deleted ← or_return (fun _ => error_response 500 ERROR_SERVER_FAILURE "Failed to delete ciphertext blob")
              (on_db (delete_blob (aa_account_id auth) blob_id));
  mret (if (deleted : bool) then respond 200 (BBlobDeleted blob_id) else blob_not_found).

(** ** SSH *)

Definition ssh_failure (status : N) : Response :=
  error_response status "SSH_AUTH_FAILED" "SSH authentication operation failed".

Definition ssh_parse {A} (from_slice : string -> option A) (bytes : string) : App Response A :=
  ok_or (ssh_failure 400) (if (8192 <? String.length bytes)%nat then None else from_slice bytes).

Definition ssh_start_handler (bytes : string) : Handler :=
  req ← ssh_parse ssh_start_from_slice bytes;
  cfg ← config;
  challenge ← or_return (fun _ => ssh_failure 401)
                (on_auth (start_ssh_login req (cfg_ssh_auth_origin cfg)));
  mret (respond 200 (BSshChallenge challenge)).

Definition ssh_finish_handler (bytes : string) : Handler :=
  req ← ssh_parse ssh_finish_from_slice bytes;
  cfg ← config;
  session ← or_return (fun _ => ssh_failure 401)
              (on_auth (finish_ssh_login req (cfg_ssh_auth_origin cfg)));
  mret (respond 200 (BSession session)).

Definition ssh_list_handler (auth : AuthenticatedAccount) : Handler :=
  keys ← or_return (fun _ => ssh_failure 500) (on_auth (list_ssh_keys (aa_account_id auth)));
  mret (respond 200 (BSshCredentials keys)).

Definition ssh_add_handler (auth : AuthenticatedAccount) (bytes : string) : Handler :=
  req ← ssh_parse ssh_add_from_slice bytes;
  key ← or_return (fun _ => ssh_failure 400)
          (on_auth (add_ssh_key (aa_account_id auth) (ak_public_key req) (ak_label req) false));
  mret (respond 201 (BSshCredential key)).

Definition ssh_revoke_handler (auth : AuthenticatedAccount) (id : string) : Handler :=
  revoked ← or_return (fun _ => ssh_failure 500) (on_auth (revoke_ssh_key (aa_account_id auth) id));
  mret (if (revoked : bool) then mkResponse 204 [] BEmpty else ssh_failure 404).

(** ** Health *)

Definition health_handler : Handler :=
  mret (respond 200 (BHealth "ok" pkg_version PROTOCOL_VERSION_V1)).
End routes.

(** ** The query of a pull request

    The server reads back the cursor and the limit a client writes, and every
    query it accepts asks for between 1 and 500 changes. *)

(** ** Decimal numbers *)

Lemma pretty_digit d :
  (d < 10)%N -> is_ascii_digit (pretty_N_char d) = true /\ (N_of_ascii (pretty_N_char d) - 48 = d)%N.
Proof.
  intros Hd. assert (d = 0 \/ d = 1 \/ d = 2 \/ d = 3 \/ d = 4 \/ d = 5 \/ d = 6 \/ d = 7 \/ d = 8 \/ d = 9)%N
    as Hcases by lia.
  by destruct_or! Hcases; subst.
Qed.

Lemma dec_digits_go max x s : (x <= max)%N -> dec_digits max 0 (pretty_N_go x s) = dec_digits max x s.
Proof.
  revert s. induction (N.lt_wf_0 x) as [x _ IH]. intros s Hx.
  destruct (decide (x = 0)%N) as [->|Hne]; [done|].
  assert (x mod 10 < 10)%N as Hmod by (by apply N.mod_lt).
  pose proof (N.div_mod x 10 ltac:(done)) as Hdm.
  assert (x / 10 < x)%N as Hlt by (apply N.div_lt; lia).
  rewrite pretty_N_go_step by lia. rewrite IH; [|done|lia].
  destruct (pretty_digit _ Hmod) as [Hdig Hval]. cbn [dec_digits]. rewrite Hdig, Hval.
  assert (x / 10 * 10 + x mod 10 = x)%N as -> by lia. by rewrite (proj2 (N.leb_le _ _) Hx).
Qed.

Lemma pretty_N_go_digits x s : all_digits s = true -> all_digits (pretty_N_go x s) = true.
Proof.
  revert s. induction (N.lt_wf_0 x) as [x _ IH]. intros s Hs.
  destruct (decide (x = 0)%N) as [->|Hne]; [done|]. rewrite pretty_N_go_step by lia.
  apply IH; [apply N.div_lt; lia|]. unfold all_digits in *. cbn.
  by rewrite (proj1 (pretty_digit (x mod 10) ltac:(by apply N.mod_lt))), Hs.
Qed.

Lemma show_N_digits n : all_digits (show_N n) = true.
Proof. unfold show_N, pretty, pretty_N. case_decide; [done|]. by apply pretty_N_go_digits. Qed.

Lemma show_N_nonempty n : show_N n <> "".
Proof.
  intros He. assert (dec_digits n 0 (show_N n) = Ok n) as Hd.
  { unfold show_N, pretty, pretty_N. case_decide as Hz; [by subst|]. by rewrite dec_digits_go. }
  rewrite He in Hd. injection Hd as <-. discriminate He.
Qed.

(** [format!("{n}").parse()] *)
Lemma parse_show max n : (n <= max)%N -> parse_uint max (show_N n) = Ok n.
Proof.
  intros Hn. assert (dec_digits max 0 (show_N n) = Ok n) as Hd.
  { unfold show_N, pretty, pretty_N. case_decide as Hz; [subst; cbn; by destruct max|].
    by rewrite dec_digits_go. }
  pose proof (show_N_digits n) as Hdig. pose proof (show_N_nonempty n) as Hne.
  unfold parse_uint. destruct (show_N n) as [|c rest] eqn:Hs; [done|].
  unfold all_digits in Hdig. cbn in Hdig. apply andb_true_iff in Hdig as [Hc _].
  destruct c as [[] [] [] [] [] [] [] []]; try done.
Qed.

(** ** Queries *)

(** The query a client writes for a cursor and a limit. *)
Definition query_of (after : N) (limit : option N) : string :=
  "after=" +:+ show_N after +:+ match limit with Some lim => "&limit=" +:+ show_N lim | None => "" end.

Lemma digits_no_ampersand s :
  all_digits s = true -> str_forallb (fun x => negb (bool_decide (x = "&"%char))) s = true.
Proof. apply str_forallb_impl. intros c Hc. by rewrite digit_ne. Qed.

Section queries.

Lemma after_parameter acc n : (n <= u64_max)%N -> pull_parameter acc ("after=" +:+ show_N n) = Ok (n, acc.2).
Proof.
  intros Hn. unfold pull_parameter. rewrite bool_decide_eq_false_2 by done.
  assert (split_pair ("after=" +:+ show_N n) = ("after", show_N n)) as -> by done.
  cbn [fst snd]. rewrite bool_decide_eq_true_2 by set_solver. by rewrite parse_show.
Qed.

Lemma limit_parameter acc n : (n <= u32_max)%N -> pull_parameter acc ("limit=" +:+ show_N n) = Ok (acc.1, clamp_limit n).
Proof.
  intros Hn. unfold pull_parameter. rewrite bool_decide_eq_false_2 by done.
  assert (split_pair ("limit=" +:+ show_N n) = ("limit", show_N n)) as -> by done.
  cbn [fst snd]. rewrite bool_decide_eq_false_2 by set_solver. rewrite bool_decide_eq_true_2 by done.
  by rewrite parse_show.
Qed.

Lemma pull_query_roundtrip after limit :
  (after <= u64_max)%N -> (forall lim, limit = Some lim -> lim <= u32_max)%N ->
  pull_query (Some (query_of after limit))
  = Ok (after, match limit with Some lim => clamp_limit lim | None => 50 end).
Proof.
  intros Ha Hl. unfold pull_query, query_of. destruct limit as [lim|].
  - rewrite <- str_app_assoc. change ("&limit=" +:+ show_N lim) with (String "&" ("limit=" +:+ show_N lim)).
    rewrite str_split_app, str_split_none.
    + cbn [pull_parameters]. rewrite after_parameter by done. unfold mbind at 1, Result_bind at 1.
      rewrite limit_parameter by auto. done.
    + by rewrite str_forallb_app, (digits_no_ampersand (show_N _)) by apply show_N_digits.
    + by rewrite str_forallb_app, (digits_no_ampersand (show_N _)) by apply show_N_digits.
  - rewrite str_split_none.
    + cbn [pull_parameters].
      assert (show_N after +:+ "" = show_N after) as ->.
      { clear. induction (show_N after) as [|c s IH]; [done|]. rewrite str_app_cons. by rewrite IH. }
      by rewrite after_parameter.
    + by rewrite !str_forallb_app, (digits_no_ampersand (show_N _)) by apply show_N_digits.
Qed.

Lemma dec_digits_le max acc s n : (acc <= max)%N -> dec_digits max acc s = Ok n -> (n <= max)%N.
Proof.
  revert acc. induction s as [|c s IH]; intros acc Hacc; cbn; [by intros [= <-]|].
  destruct (is_ascii_digit c); [|done]. destruct (N.leb_spec (acc * 10 + (N_of_ascii c - 48)) max); [|done].
  by apply IH.
Qed.

Lemma parse_uint_le max s n : parse_uint max s = Ok n -> (n <= max)%N.
Proof.
  unfold parse_uint. intros Hp. repeat (case_match; try discriminate); by apply dec_digits_le in Hp; [|lia].
Qed.

Lemma clamp_limit_bounds n : 1 <= clamp_limit n <= 500.
Proof. unfold clamp_limit. destruct (N.eqb_spec n 0), (N.ltb_spec 500 n); lia. Qed.

Lemma pull_parameter_bounds acc p acc' :
  (acc.1 <= u64_max)%N /\ 1 <= acc.2 <= 500 -> pull_parameter acc p = Ok acc' ->
  (acc'.1 <= u64_max)%N /\ 1 <= acc'.2 <= 500.
Proof.
  intros [Ha Hl]. unfold pull_parameter. case_bool_decide; [by intros [= <-]|]. cbv zeta.
  case_bool_decide; [|case_bool_decide; [|by intros [= <-]]].
  - destruct (parse_uint u64_max _) as [v|] eqn:Hp; cbn; [|done]. intros [= <-]. by apply parse_uint_le in Hp.
  - destruct (parse_uint u32_max _) as [v|] eqn:Hp; cbn; [|done]. intros [= <-]. split; [done|apply clamp_limit_bounds].
Qed.

(** Every query the server accepts has a 64-bit cursor and a page of 1 to 500. *)
Lemma pull_query_bounds q params :
  pull_query q = Ok params -> (params.1 <= u64_max)%N /\ 1 <= params.2 <= 500.
Proof.
  unfold pull_query. destruct q as [q|]; [|intros [= <-]; cbn; lia].
  assert (forall pairs acc, (acc.1 <= u64_max)%N /\ 1 <= acc.2 <= 500 ->
    pull_parameters acc pairs = Ok params -> (params.1 <= u64_max)%N /\ 1 <= params.2 <= 500) as Hind.
  { induction pairs as [|p pairs IH]; intros acc Hacc; cbn; [by intros [= <-]|].
    destruct (pull_parameter acc p) as [acc'|] eqn:Hp; cbn; [|done]. apply IH. by eapply pull_parameter_bounds. }
  apply Hind. cbn. lia.
Qed.
End queries.
