(* ===== verification/RoutesAuth.v ===== *)
(** * The server's authentication endpoints ([apps/server/src/routes/auth.rs])

    Passkey registration and login, session and device management.  Every call
    of the database is one operation of [ServerAuth], in the order of the code;
    what was written before an early return stays written. *)

From stdpp Require Import options.
From S2P Require Import Prelude Text Protocol ServerDb ServerAuth WebAuthn Json Routes.

Definition ERROR_CRYPTO_AUTH_FAILED : string := "CRYPTO_AUTH_FAILED".
Definition ERROR_WEBAUTHN_CHALLENGE_EXPIRED : string := "WEBAUTHN_CHALLENGE_EXPIRED".
Definition ERROR_WEBAUTHN_CHALLENGE_NOT_FOUND : string := "WEBAUTHN_CHALLENGE_NOT_FOUND".
Definition ERROR_WEBAUTHN_VERIFICATION_FAILED : string := "WEBAUTHN_VERIFICATION_FAILED".
Definition ERROR_WEBAUTHN_CREDENTIAL_NOT_FOUND : string := "WEBAUTHN_CREDENTIAL_NOT_FOUND".
Definition ERROR_WEBAUTHN_CREDENTIAL_EXISTS : string := "WEBAUTHN_CREDENTIAL_EXISTS".
Definition ERROR_AUTH_REQUIRED : string := "AUTH_REQUIRED".
Definition ERROR_DEVICE_REVOKED : string := "DEVICE_REVOKED".

Definition verification_failure : Response :=
  error_response 400 ERROR_WEBAUTHN_VERIFICATION_FAILED "WebAuthn verification failed".
Definition database_error (message : string) : Response := error_response 500 "DATABASE_ERROR" message.

Section routes_auth.
Context `{ServerLib} `{AuthLib} `{WebAuthnLib} `{RouteLib}.

Definition decode_base64_flexible (input : string) : option string :=
  let trimmed := str_trim input in
  match base64url_decode trimmed with
  | Some bytes => Some bytes
  | None =>
      match base64_decode_vec trimmed with
      | Ok bytes => Some bytes
      | Err _ =>
          let padded := match String.length trimmed mod 4 with
                        | 2 => trimmed +:+ "=="
                        | 3 => trimmed +:+ "="
                        | _ => trimmed
                        end in
          ok (base64_decode_vec padded)
      end
  end.

(** [Uuid::new_v4()] in a handler. *)
Definition fresh_uuid : App Response string :=
  on_auth (fun s => (Ok (auth_uuid (au_uuids s)),
                     mkAuth (au_db s) (au_now s) (1 + au_uuids s) (au_rng s))).

(** The identifier of a challenge, its 32 octets and their base64url text. *)
Definition generate_secure_challenge : App Response (string * string * string) :=
  challenge_id ← fresh_uuid;
  c1 ← fresh_uuid;
  c2 ← fresh_uuid;
  let bytes := uuid_bytes c1 +:+ uuid_bytes c2 in
  mret (challenge_id, bytes, base64url_encode bytes).

(** ** Ownership of an account *)

Definition owner_identity (headers : HeaderMap HeaderValue) (account : string)
    : App AuthError AuthenticatedAccount :=
  token ← ok_or MissingHeader
            (v ← header_get "authorization" headers; s ← v; strip_prefix "Bearer " s);
  auth ← on_auth (authenticate_bearer_token token);
  if bool_decide (aa_account_id auth <> account) then throw ForbiddenAccountAccess else mret auth.

Definition require_owner (headers : HeaderMap HeaderValue) (account : string) : App AuthError unit :=
  _ ← owner_identity headers account; mret tt.

(** ** Passkey registration *)

Definition webauthn_register_start_handler (headers : HeaderMap HeaderValue)
    (req : WebAuthnRegisterStartRequest) : Handler :=
  user_id ← match rsr_account_id req with Some a => mret a | None => fresh_uuid end;
  _ ← match rsr_account_id req with
      | Some _ => or_return auth_error_response (require_owner headers user_id)
      | None => mret tt
      end;
  challenge ← generate_secure_challenge;
  let '(challenge_id, challenge_bytes, challenge_b64) := challenge in
  _ ← or_return (fun _ => database_error "Failed to create registration challenge")
        (on_auth (create_webauthn_challenge challenge_id challenge_bytes (Some user_id) "register" 300));
  cfg ← config;
  let username := default ("user_" +:+ str_take 8 user_id) (rsr_username req) in
  let display_name := default username (rsr_display_name req) in
  mret (respond 200 (BRegisterStart (mkRegisterStartResponse challenge_id challenge_b64
          (mkRpInfo "Zero-Knowledge Notes" (cfg_webauthn_rp_id cfg))
          (mkUserInfo user_id username display_name)))).

Definition webauthn_forbidden : Response :=
  error_response 400 ERROR_CRYPTO_AUTH_FAILED
    "Passphrase or vault key material must not be submitted to authentication endpoints".
Definition malformed_json (e : string) : Response :=
  error_response 400 "MALFORMED_JSON" ("Invalid JSON payload: " +:+ e).
Definition invalid_credential_id : Response :=
  error_response 400 "INVALID_CREDENTIAL_ID" "Credential ID is not valid base64/base64url".

Definition challenge_failure (kind found : string) (e : DbError) : Response :=
  match e with
  | DbE_ChallengeExpired =>
      error_response 400 ERROR_WEBAUTHN_CHALLENGE_EXPIRED
        ("WebAuthn " +:+ kind +:+ " challenge has expired")
  | _ => error_response 400 ERROR_WEBAUTHN_CHALLENGE_NOT_FOUND
           (found +:+ " challenge not found or already consumed")
  end.

(** [Ok(b) if !b.is_empty() => b, _ => return ..] *)
Definition credential_id_bytes (input : string) : App Response string :=
  ok_or invalid_credential_id
    (b ← decode_base64_flexible input; if bool_decide (b = "") then None else Some b).

Definition session_creation_failed : Response :=
  error_response 500 "SESSION_CREATION_FAILED" "Failed to provision session".

Definition webauthn_register_finish_handler (body_bytes : string) : Handler :=
  req ← scanned_body register_finish_from_value malformed_json webauthn_forbidden
    (fun e => error_response 400 "MALFORMED_REQUEST"
                ("Missing or invalid WebAuthn registration parameters: " +:+ e)) body_bytes;
  challenge_record ← or_return (challenge_failure "registration" "Registration")
    (on_auth (consume_webauthn_challenge (rf_challenge_id req) "register"));
  cred_id_bytes ← credential_id_bytes (rf_credential_id req);
  cfg ← config;
  pubkey_bytes ← or_return (fun _ => verification_failure)
    (lift_result (WebAuthn.register req (wc_challenge challenge_record) (cfg_webauthn_rp_id cfg)
                    (cfg_webauthn_origin cfg)));
  account_id ← match wc_account_id challenge_record with Some a => mret a | None => fresh_uuid end;
  _ ← or_return
    (fun e => match e with
              | DbE_CredentialAlreadyExists =>
                  error_response 409 ERROR_WEBAUTHN_CREDENTIAL_EXISTS
                    "This passkey credential is already registered"
              | _ => database_error "Failed to persist WebAuthn credential"
              end)
    (on_auth (register_webauthn_credential cred_id_bytes account_id pubkey_bytes (rf_device_id req)
                (rf_display_name req)));
  session ← or_return (fun _ => session_creation_failed)
    (on_auth (create_session account_id (rf_device_id req) (rf_display_name req) None));
  mret (respond 200 (BSession (mkSessionResponse session.2 (as_session_id session.1) account_id
          (rf_device_id req) (as_expires_at session.1)))).

(** ** Passkey login *)

Definition webauthn_login_start_handler (req : WebAuthnLoginStartRequest) : Handler :=
  challenge ← generate_secure_challenge;
  let '(challenge_id, challenge_bytes, challenge_b64) := challenge in
  _ ← or_return (fun _ => database_error "Failed to create login challenge")
        (on_auth (create_webauthn_challenge challenge_id challenge_bytes (lsr_account_id req) "login" 300));
  cfg ← config;
  mret (respond 200 (BLoginStart (mkLoginStartResponse challenge_id challenge_b64 (cfg_webauthn_rp_id cfg)))).

(** [credential.device_id.or(req.device_id)] *)
Definition or_else {A} (a b : option A) : option A := match a with Some _ => a | None => b end.

(** The enrolled device of the credential must not be revoked. *)
Definition enrolled_device_live (credential : WebAuthnCredentialRow) : App Response unit :=
  match cr_device_id credential with
  | Some device =>
      revoked ← attempt (on_auth (is_device_revoked (cr_account_id credential) device));
      return_if (negb (bool_decide (revoked = Ok false))) (auth_error_response DeviceRevokedToken)
  | None => mret tt
  end.

Definition webauthn_login_finish_handler (body_bytes : string) : Handler :=
  req ← scanned_body login_finish_from_value malformed_json webauthn_forbidden
    (fun e => error_response 400 "MALFORMED_REQUEST"
                ("Missing or invalid WebAuthn login parameters: " +:+ e)) body_bytes;
  challenge_record ← or_return (challenge_failure "login" "Login")
    (on_auth (consume_webauthn_challenge (lf_challenge_id req) "login"));
  cred_id_bytes ← credential_id_bytes (lf_credential_id req);
  _ ← return_if (bool_decide (decode_base64_flexible (lf_signature req) = None))
        (error_response 400 ERROR_WEBAUTHN_VERIFICATION_FAILED "Signature is not valid base64/base64url");
  found ← or_return (fun _ => database_error "Failed to look up credential")
    (on_auth (get_webauthn_credential cred_id_bytes));
  credential ← ok_or (error_response 401 ERROR_WEBAUTHN_CREDENTIAL_NOT_FOUND
                        "Passkey credential not recognized for this system") found;
  _ ← return_if (match wc_account_id challenge_record with
                 | Some target_acc => bool_decide (target_acc <> cr_account_id credential)
                 | None => false
                 end)
        (error_response 401 ERROR_AUTH_REQUIRED "Credential does not match requested account");
  cfg ← config;
  count ← or_return (fun _ => verification_failure)
    (lift_result (WebAuthn.login req (wc_challenge challenge_record) (cfg_webauthn_rp_id cfg)
                    (cfg_webauthn_origin cfg) (cr_public_key credential)
                    (Z.to_N (cr_sign_count credential))));
  _ ← enrolled_device_live credential;
  advanced ← attempt (on_auth (advance_webauthn_counter cred_id_bytes
                                 (Z.to_N (cr_sign_count credential)) count));
  _ ← return_if (negb (bool_decide (advanced = Ok true))) verification_failure;
  let device_id := or_else (cr_device_id credential) (lf_device_id req) in
  session ← or_return (fun _ => session_creation_failed)
    (on_auth (create_session (cr_account_id credential) device_id (cr_display_name credential) None));
  mret (respond 200 (BSession (mkSessionResponse session.2 (as_session_id session.1)
          (cr_account_id credential) device_id (as_expires_at session.1)))).

(** ** Sessions and devices *)

Definition revoke_session_handler (auth : AuthenticatedAccount) (session_id : option string) : Handler :=
  target_session ← ok_or (error_response 400 "NO_SESSION_IDENTIFIER"
                            "No session ID specified or present in auth token")
                     (or_else session_id (aa_session_id auth));
  revoked ← or_return (fun _ => respond 500 (BRevokeSession "error" target_session))
    (on_auth (revoke_session (aa_account_id auth) target_session));
  mret (if (revoked : bool) then respond 200 (BRevokeSession "revoked" target_session)
        else respond 404 (BRevokeSession "session_not_found_or_already_revoked" target_session)).

(** The session of a caller that enrolled through SSH hands its credential on. *)
Definition inherit_from (caller : AuthenticatedAccount) (account session_id : string)
    : App Response unit :=
  match aa_session_id caller with
  | Some source =>
      or_return (fun _ => verification_failure)
        (on_auth (inherit_ssh_credential account source session_id))
  | None => mret tt
  end.

Definition device_authorize_handler (headers : HeaderMap HeaderValue) (body_bytes : string) : Handler :=
  req ← scanned_body device_auth_from_value
    (fun e => error_response 400 "MALFORMED_JSON" ("Failed to parse request JSON: " +:+ e))
    (error_response 400 "FORBIDDEN_PLAINTEXT_PAYLOAD"
       "Authentication payload must not contain vault passphrases or keys")
    (fun e => error_response 422 "INVALID_REQUEST"
                ("Invalid device authorization request: " +:+ e)) body_bytes;
  caller ← or_return auth_error_response (owner_identity headers (da_account_id req));
  revoked ← or_return (fun _ => database_error "Failed to check device status")
    (on_auth (is_device_revoked (da_account_id req) (da_device_id req)));
  _ ← return_if revoked
        (error_response 403 ERROR_DEVICE_REVOKED "Associated device has been revoked");
  _ ← or_return (fun _ => database_error "Failed to register device")
    (on_auth (register_device (da_account_id req) (da_device_id req) (da_device_name req)));
  session ← or_return
    (fun _ => error_response 500 "SESSION_CREATION_FAILED" "Failed to provision device session")
    (on_auth (create_session (da_account_id req) (Some (da_device_id req)) (da_device_name req)
                (Some 2592000%Z)));
  _ ← inherit_from caller (da_account_id req) (as_session_id session.1);
  mret (respond 200 (BSession (mkSessionResponse session.2 (as_session_id session.1)
          (as_account_id session.1) (as_device_id session.1) (as_expires_at session.1)))).

Definition session_status_handler (auth : AuthenticatedAccount) : Handler :=
  mret (respond 200 (BSessionStatus (aa_account_id auth) (aa_session_id auth) (aa_device_id auth) "active")).

Definition device_info (account : string) (kv : string * DeviceRow) : DeviceInfo :=
  let r := kv.2 in
  mkDeviceInfo kv.1 account (dv_display_name r) (dv_created_at r) (dv_last_seen r)
    (dv_last_ack_server_seq r) (dv_revoked_at r) (bool_decide (dv_revoked_at r <> None)).

Definition list_devices_handler (auth : AuthenticatedAccount) : Handler :=
  rows ← or_return (fun _ => database_error "Failed to list devices")
           (on_auth (list_devices (aa_account_id auth)));
  mret (respond 200 (BDevices (device_info (aa_account_id auth) <$> rows))).

Definition revoke_device_handler (device_id : string) (auth : AuthenticatedAccount) : Handler :=
  _ ← or_return (fun _ => database_error "Failed to revoke device")
        (on_auth (revoke_device (aa_account_id auth) device_id));
  mret (respond 200 (BRevokeDevice device_id true "Device and associated sessions revoked successfully")).

Definition revoke_device_post_handler (auth : AuthenticatedAccount) (device_id : string) : Handler :=
  _ ← or_return (fun _ => database_error "Failed to revoke device")
        (on_auth (revoke_device (aa_account_id auth) device_id));
  mret (respond 200 (BRevokeDevice device_id true "Device and associated sessions revoked successfully")).
End routes_auth.
