(* ===== verification/App.v ===== *)
(** * The server application ([apps/server/src/app.rs]): routing table and
      middleware

    [handle] is the whole stack: the request identifier, the security headers,
    the routing table, bearer authentication in front of the protected routes,
    the extractors of each handler and the handler.  The redaction of logged
    headers ([logging.rs]) is at the end. *)

From stdpp Require Import options.
From S2P Require Import Prelude Protocol Time ServerDb Text ServerAuth WebAuthn Json Routes RoutesAuth.

(** ** Routing table *)

Inductive Endpoint : Type :=
(* public *)
| E_health | E_ssh_start | E_ssh_finish | E_device_authorize
| E_register_start | E_register_finish | E_login_start | E_login_finish
(* protected *)
| E_ssh_list | E_ssh_add | E_ssh_revoke
| E_get_bootstrap | E_create_bootstrap | E_push | E_pull
| E_revoke_session | E_session_status | E_list_devices | E_revoke_device | E_revoke_device_post
| E_get_blob | E_put_blob | E_delete_blob.

#[export] Instance Endpoint_eq_dec : EqDecision Endpoint.
Proof. solve_decision. Defined.

Abbreviation MethodRouter := (list (Method * Endpoint)).

Definition protected_static : list (string * MethodRouter) :=
  [ ("/v1/auth/ssh/keys", [(GET, E_ssh_list); (POST, E_ssh_add)]);
    ("/v1/vault/bootstrap", [(GET, E_get_bootstrap); (POST, E_create_bootstrap)]);
    ("/v1/sync/push", [(POST, E_push)]);
    ("/v1/sync/changes", [(GET, E_pull)]);
    ("/v1/sync/pull", [(GET, E_pull)]);
    ("/v1/auth/session/revoke", [(POST, E_revoke_session)]);
    ("/v1/auth/logout", [(POST, E_revoke_session)]);
    ("/v1/auth/session/status", [(GET, E_session_status)]);
    ("/v1/auth/whoami", [(GET, E_session_status)]);
    ("/v1/devices", [(GET, E_list_devices)]);
    ("/v1/devices/revoke", [(POST, E_revoke_device_post)]) ].

(** Routes that end in one parameter, by what precedes it. *)
Definition protected_param : list (string * MethodRouter) :=
  [ ("/v1/auth/ssh/keys/", [(DELETE, E_ssh_revoke)]);
    ("/v1/devices/", [(DELETE, E_revoke_device)]);
    ("/v1/blobs/", [(GET, E_get_blob); (PUT, E_put_blob); (DELETE, E_delete_blob)]) ].

Definition public_routes : list (string * MethodRouter) :=
  [ ("/health", [(GET, E_health)]);
    ("/v1/health", [(GET, E_health)]);
    ("/v1/auth/ssh/start", [(POST, E_ssh_start)]);
    ("/v1/auth/ssh/finish", [(POST, E_ssh_finish)]);
    ("/v1/auth/device/authorize", [(POST, E_device_authorize)]);
    ("/v1/auth/cli/login", [(POST, E_device_authorize)]);
    ("/v1/auth/webauthn/register/start", [(POST, E_register_start)]);
    ("/v1/auth/webauthn/register/finish", [(POST, E_register_finish)]);
    ("/v1/auth/webauthn/login/start", [(POST, E_login_start)]);
    ("/v1/auth/webauthn/login/finish", [(POST, E_login_finish)]) ].

Definition find_static (path : string) (routes : list (string * MethodRouter)) : option MethodRouter :=
  snd <$> find_first (fun r => bool_decide (r.1 = path)) routes.

(** A parameter matches one segment that is not empty. *)
Definition segment_after (prefix path : string) : option string :=
  seg ← strip_prefix prefix path;
  if bool_decide (seg = "") || negb (str_forallb (fun c => bool_decide (c <> "/"%char)) seg)
  then None else Some seg.
Fixpoint find_param (path : string) (routes : list (string * MethodRouter))
    : option (MethodRouter * string) :=
  match routes with
  | [] => None
  | (prefix, r) :: rest =>
      match segment_after prefix path with Some seg => Some (r, seg) | None => find_param path rest end
  end.

(** The route of a path: whether it is behind authentication, its methods, and
    the parameter.  A literal segment is matched before a parameter. *)
Definition route (path : string) : option (bool * MethodRouter * string) :=
  match find_static path public_routes with
  | Some r => Some (false, r, "")
  | None =>
      match find_static path protected_static with
      | Some r => Some (true, r, "")
      | None => (fun rp => (true, rp.1, rp.2)) <$> find_param path protected_param
      end
  end.

(** A [get] route answers [HEAD] as well. *)
Definition endpoint_of (m : Method) (r : MethodRouter) : option Endpoint :=
  let m := if bool_decide (m = HEAD) then GET else m in
  snd <$> find_first (fun me => bool_decide (me.1 = m)) r.

(** ** Middleware *)

Definition security_headers : list (string * string) :=
  [ ("content-security-policy", "default-src 'none'; script-src 'self' 'wasm-unsafe-eval'; style-src 'self' 'unsafe-inline'; connect-src 'self'; img-src 'self' data: blob:; font-src 'self'; object-src 'none'; base-uri 'self'; form-action 'self'; frame-ancestors 'none'; upgrade-insecure-requests;");
    ("x-frame-options", "DENY");
    ("x-content-type-options", "nosniff");
    ("referrer-policy", "no-referrer");
    ("cross-origin-opener-policy", "same-origin");
    ("cross-origin-embedder-policy", "require-corp");
    ("cross-origin-resource-policy", "same-origin");
    ("permissions-policy", "accelerometer=(), camera=(), geolocation=(), gyroscope=(), magnetometer=(), microphone=(), payment=(), usb=()");
    ("strict-transport-security", "max-age=63072000; includeSubDomains; preload") ].

Definition with_header (name : string) (v : HeaderValue) (r : Response) : Response :=
  mkResponse (rs_status r) (header_insert name v (rs_headers r)) (rs_body r).

Definition security_headers_middleware (next : AppState -> Response * AppState) (st : AppState)
    : Response * AppState :=
  let '(resp, st') := next st in
  (fold_left (fun r nv => with_header nv.1 (Some nv.2) r) security_headers resp, st').

Definition fallback_not_found : Response :=
  error_response 404 ERROR_OBJECT_NOT_FOUND "The requested resource was not found".

Section app.
Context `{ServerLib} `{AuthLib} `{WebAuthnLib} `{RouteLib}.

(** [FromRequestParts for AuthenticatedAccount]: the identity the middleware
    attached. *)
Definition authenticated (auth : option AuthenticatedAccount) : App Response AuthenticatedAccount :=
  ok_or (auth_error_response MissingHeader) auth.

Definition extract {A} (r : Result A Response) : App Response A := lift_result r.

(** [Path<Uuid>] *)
Definition path_uuid (seg : string) : Result string Response :=
  s ← percent_decode seg;
  match uuid_parse_str s with Ok u => Ok u | Err e => Err (uuid_path_rejection s e) end.

(** The extractors of a handler, in the order of its arguments, and its call. *)
Definition dispatch (e : Endpoint) (seg : string) (auth : option AuthenticatedAccount) (req : Request)
    : Handler :=
  match e with
  | E_health => health_handler
  | E_ssh_start => b ← extract (bytes_of_request req); ssh_start_handler b
  | E_ssh_finish => b ← extract (bytes_of_request req); ssh_finish_handler b
  | E_device_authorize =>
      b ← extract (bytes_of_request req); device_authorize_handler (rq_headers req) b
  | E_register_start =>
      j ← extract (json_register_start req); webauthn_register_start_handler (rq_headers req) j
  | E_register_finish => b ← extract (bytes_of_request req); webauthn_register_finish_handler b
  | E_login_start => j ← extract (json_login_start req); webauthn_login_start_handler j
  | E_login_finish => b ← extract (bytes_of_request req); webauthn_login_finish_handler b
  | E_ssh_list => a ← authenticated auth; ssh_list_handler a
  | E_ssh_add => a ← authenticated auth; b ← extract (bytes_of_request req); ssh_add_handler a b
  | E_ssh_revoke => a ← authenticated auth; id ← extract (path_uuid seg); ssh_revoke_handler a id
  | E_get_bootstrap => a ← authenticated auth; get_vault_bootstrap_handler a
  | E_create_bootstrap =>
      a ← authenticated auth; b ← extract (bytes_of_request req); create_vault_bootstrap_handler a b
  | E_push => a ← authenticated auth; b ← extract (bytes_of_request req); push_mutation_handler a b
  | E_pull => a ← authenticated auth; pull_changes_handler a (rq_query req)
  | E_revoke_session =>
      a ← authenticated auth; j ← extract (json_revoke_session req); revoke_session_handler a j
  | E_session_status => a ← authenticated auth; session_status_handler a
  | E_list_devices => a ← authenticated auth; list_devices_handler a
  | E_revoke_device => d ← extract (path_uuid seg); a ← authenticated auth; revoke_device_handler d a
  | E_revoke_device_post =>
      a ← authenticated auth; j ← extract (json_revoke_device req); revoke_device_post_handler a j
  | E_get_blob => id ← extract (percent_decode seg); a ← authenticated auth; get_blob_handler id a
  | E_put_blob =>
      id ← extract (percent_decode seg); a ← authenticated auth;
      b ← extract (bytes_of_request req); put_blob_handler id a (rq_headers req) b
  | E_delete_blob => id ← extract (percent_decode seg); a ← authenticated auth; delete_blob_handler id a
  end.

(** Bearer authentication in front of a protected route. *)
Definition authenticate (req : Request) : App Response AuthenticatedAccount :=
  or_return auth_error_response
    (on_auth (auth_middleware (header_get "authorization" (rq_headers req))
                (header_get "x-account-id" (rq_headers req))
                (header_get "x-device-id" (rq_headers req)))).

Definition serve (protected : bool) (e : Endpoint) (seg : string) (req : Request) : Handler :=
  if protected then a ← authenticate req; dispatch e seg (Some a) req
  else dispatch e seg None req.

(** The response to [HEAD] loses its body. *)
Definition strip_body (m : Method) (r : Response) : Response :=
  if bool_decide (m = HEAD) then mkResponse (rs_status r) (rs_headers r) BEmpty else r.

Definition method_not_allowed : Response := mkResponse 405 [] BEmpty.

Definition router (req : Request) (st : AppState) : Response * AppState :=
  match route (rq_path req) with
  | None => (fallback_not_found, st)
  | Some (protected, r, seg) =>
      match endpoint_of (rq_method req) r with
      | None => (method_not_allowed, st)
      | Some e =>
          let '(resp, st') := run_handler (serve protected e seg req) st in
          (strip_body (rq_method req) resp, st')
      end
  end.

(** The request identifier: the caller's, or a new one. *)
Definition request_id (req : Request) (st : AppState) : HeaderValue * AppState :=
  match header_get "x-request-id" (rq_headers req) with
  | Some v => (v, st)
  | None =>
      let au := st_auth st in
      (Some (auth_uuid (au_uuids au)),
       put_auth (mkAuth (au_db au) (au_now au) (1 + au_uuids au) (au_rng au)) st)
  end.

Definition request_id_middleware (next : Request -> AppState -> Response * AppState)
    (req : Request) (st : AppState) : Response * AppState :=
  let '(id, st1) := request_id req st in
  let req' := mkRequest (rq_method req) (rq_path req) (rq_query req)
                (header_insert "x-request-id" id (rq_headers req)) (rq_body req) in
  let '(resp, st') := next req' st1 in
  (with_header "x-request-id" id resp, st').

Definition handle : Request -> AppState -> Response * AppState :=
  request_id_middleware (fun req => security_headers_middleware (router req)).
End app.

(** ** Redaction of headers in the server's logs ([apps/server/src/logging.rs])

    Which headers are sensitive and what remains of their values in the log. *)

Definition REDACTED_PLACEHOLDER : string := "[REDACTED]".

Definition sensitive_names : list string :=
  ["authorization"; "proxy-authorization"; "cookie"; "set-cookie"; "x-auth-token"; "x-session-token";
   "x-api-key"; "x-recovery-key"; "x-vault-passphrase"; "x-encryption-key"; "x-signature"].

Definition is_sensitive_header (name : string) : bool := name_in sensitive_names name.

(** [a.eq_ignore_ascii_case(b)] *)
Definition eq_ignore_ascii_case (a b : string) : bool :=
  bool_decide (to_ascii_lowercase a = to_ascii_lowercase b).

(** [s.split_once(' ')] *)
Definition is_space (c : ascii) : bool := bool_decide (c = " "%char).
Definition split_once_space (s : string) : option (string * string) := find_char is_space s.

Definition redact_header_value (name value : string) : string :=
  if negb (is_sensitive_header name) then value
  else
    match (if eq_ignore_ascii_case name "authorization" then split_once_space (str_trim value) else None) with
    | Some (scheme, _) => scheme +:+ " " +:+ REDACTED_PLACEHOLDER
    | None => REDACTED_PLACEHOLDER
    end.

(** [value.to_str().unwrap_or("[BINARY]")] *)
Definition header_text (v : HeaderValue) : string := default "[BINARY]" v.

Definition sanitize_headers (headers : HeaderMap HeaderValue) : list (string * string) :=
  (fun kv => (kv.1, redact_header_value kv.1 (header_text kv.2))) <$> headers.

(** [redacted.parse::<HeaderValue>()] is a parameter; [insert] keeps the last
    value of a repeated name. *)
Definition sanitize_header_map (parses : string -> bool) (headers : HeaderMap HeaderValue)
    : HeaderMap HeaderValue :=
  fold_left (fun safe kv =>
    let redacted := redact_header_value kv.1 (header_text kv.2) in
    if parses redacted then header_insert kv.1 (Some redacted) safe else safe) headers [].

Definition redact_token_for_diagnostics (_ : string) : string := REDACTED_PLACEHOLDER.

(** ** What remains of a secret *)

(** Two values of a sensitive header with the same first word are logged alike:
    nothing behind it reaches the log. *)
Definition first_word (v : string) : option string := fst <$> split_once_space (str_trim v).

Lemma redaction_hides name v1 v2 :
  is_sensitive_header name = true -> first_word v1 = first_word v2 ->
  redact_header_value name v1 = redact_header_value name v2.
Proof.
  intros Hs Hw. unfold redact_header_value. rewrite Hs. cbn [negb]. unfold first_word in Hw.
  destruct (eq_ignore_ascii_case name "authorization"); [|done].
  destruct (split_once_space (str_trim v1)) as [[s1 r1]|], (split_once_space (str_trim v2)) as [[s2 r2]|];
    by simplify_eq/=.
Qed.

(** A sensitive header other than [Authorization] leaves nothing at all. *)
Lemma redaction_total name v :
  is_sensitive_header name = true -> to_ascii_lowercase name <> "authorization" ->
  redact_header_value name v = REDACTED_PLACEHOLDER.
Proof.
  intros Hs Hn. unfold redact_header_value, eq_ignore_ascii_case. rewrite Hs. cbn [negb].
  by rewrite bool_decide_eq_false_2.
Qed.

(** Every entry of a sanitized log line is redacted, in the order of the
    headers. *)
Lemma sanitize_headers_redacts headers i name v :
  sanitize_headers headers !! i = Some (name, v) -> is_sensitive_header name = true ->
  to_ascii_lowercase name <> "authorization" -> v = REDACTED_PLACEHOLDER.
Proof.
  unfold sanitize_headers. rewrite list_lookup_fmap. destruct (headers !! i) as [[k w]|]; [|done].
  cbn. intros [= <- <-]. by apply redaction_total.
Qed.

Example bearer_redacted : redact_header_value "Authorization" "Bearer zk_sess_abc" = "Bearer [REDACTED]".
Proof. reflexivity. Qed.

(** The first word is taken for the scheme even when there is none: a bare
    token followed by a space and anything else is logged. *)
Lemma bare_token_logged :
  redact_header_value "authorization" "zk_sess_secret extra" = "zk_sess_secret [REDACTED]".
Proof. reflexivity. Qed.
