(* ===== verification/AppFacts.v ===== *)
(** * Isolation of accounts behind the HTTP interface

    An authenticated request changes rows of its own account only, in the
    synchronization tables and in the authentication tables; a refused one
    changes nothing. *)

From stdpp Require Import options.
From S2P Require Import Prelude Text Time Protocol ServerDb ServerSpec ServerDbFacts ServerTables.
From S2P Require Import ServerAuth ServerAuthFacts ServerAuthInv WebAuthn Json Routes RoutesAuth App.

(** ** Handlers and relations on the state *)

Definition respects {E A} (R : AppState -> AppState -> Prop) (m : App E A) : Prop :=
  forall st, R st (m st).2.

Create HintDb respects.

Section respects.
Context (R : AppState -> AppState -> Prop) `{!PreOrder R}.

Lemma respects_bind {E A B} (m : App E A) (f : A -> App E B) :
  respects R m -> (forall a, respects R (f a)) -> respects R (m ≫= f).
Proof using Type*.
  intros Hm Hf st. unfold mbind, M_bind. specialize (Hm st). destruct (m st) as [[a|e] st']; [|done].
  cbn in Hm. etrans; [exact Hm|apply Hf].
Qed.
Lemma respects_pure {E A} (m : App E A) : (forall st, (m st).2 = st) -> respects R m.
Proof using Type*. intros Hm st. by rewrite Hm. Qed.
Lemma respects_or_return {E A} (f : E -> Response) (m : App E A) : respects R m -> respects R (or_return f m).
Proof using Type. intros Hm st. unfold or_return, map_err. specialize (Hm st). by destruct (m st) as [[]]. Qed.
Lemma respects_attempt {E E' A} (m : App E A) : respects R m -> respects R (attempt m : App E' _).
Proof using Type. intros Hm st. unfold attempt. specialize (Hm st). by destruct (m st). Qed.
Lemma respects_return_if b r : respects R (return_if b r).
Proof using Type*. apply respects_pure. by destruct b. Qed.
Lemma respects_ok_or {E A} (e : E) (o : option A) : respects R (ok_or e o : App E A).
Proof using Type*. apply respects_pure. by destruct o. Qed.
Lemma respects_scanned_body `{RouteLib} {A} (from_value : Value -> Result A string) e1 r e2 b :
  respects R (scanned_body from_value e1 r e2 b).
Proof using Type*.
  unfold scanned_body. apply respects_bind; [by apply respects_or_return, respects_pure|]. intros v.
  apply respects_bind; [apply respects_return_if|]. intros _. by apply respects_or_return, respects_pure.
Qed.

Lemma run_handler_respects (h : Handler) st r st' :
  respects R h -> run_handler h st = (r, st') -> R st st'.
Proof using Type.
  intros Hh Hrun. unfold run_handler in Hrun. specialize (Hh st).
  by destruct (h st) as [[]]; simplify_eq.
Qed.
End respects.

Ltac respect_step :=
  match goal with
  | |- respects _ (_ ≫= _) => apply respects_bind; [exact _| |intros ?]
  | |- respects _ (or_return _ _) => apply respects_or_return
  | |- respects _ (attempt _) => apply respects_attempt
  | |- respects _ (return_if _ _) => apply respects_return_if; exact _
  | |- respects _ (ok_or _ _) => apply respects_ok_or; exact _
  | |- respects _ (scanned_body _ _ _ _ _) => apply respects_scanned_body; exact _
  | |- respects _ (match ?x with _ => _ end) => destruct x
  | |- respects _ _ => first [solve [eauto with respects] | apply respects_pure; [exact _|done]]
  end.
Ltac respect := repeat respect_step.

(** ** Rows of an account in the authentication tables *)

Definition account_rows (b : string) (db : AuthDb) :=
  (filter (fun kv => ss_account_id kv.2 = b) (ad_sessions db),
   filter (fun kv => kv.1.1 = b) (ad_devices db),
   filter (fun kv => cr_account_id kv.2 = b) (ad_credentials db),
   filter (fun kv => sc_account_id kv.2 = b) (ad_ssh_credentials db),
   ad_accounts db !! b).

Lemma filter_update_where {K V} `{Countable K} (P : K * V -> Prop) `{!forall x, Decision (P x)}
    (p : K -> V -> bool) f (m : gmap K V) :
  (forall k v, p k v = true -> ~ P (k, v) /\ ~ P (k, f v)) ->
  filter P (update_where p f m) = filter P m.
Proof.
  intros Hp. apply map_eq. intros k. apply option_eq. intros v.
  rewrite !map_lookup_filter_Some, lookup_update_where. destruct (m !! k) as [w|] eqn:Hk; cbn; [|naive_solver].
  destruct (p k w) eqn:Hpw; [|naive_solver]. destruct (Hp _ _ Hpw).
  split; intros [[= <-] ?]; done.
Qed.

Lemma filter_insert_other {K V} `{Countable K} (P : K * V -> Prop) `{!forall x, Decision (P x)} k v (m : gmap K V) :
  m !! k = None -> ~ P (k, v) -> filter P (<[k := v]> m) = filter P m.
Proof.
  intros Hk Hn. rewrite map_filter_insert_not' by (done || by rewrite Hk). done.
Qed.

(** Statements that change rows of other accounts only. *)
Section statements.
Context (b : string).

Lemma rows_up_sessions p f :
  (forall k r, p k r = true -> ss_account_id r <> b) -> (forall r, ss_account_id (f r) = ss_account_id r) ->
  frames (account_rows b) (execute (up_sessions (update_where p f))).
Proof.
  intros Hp Hf. apply frames_execute. intros db. unfold account_rows. cbn. rewrite filter_update_where; [done|].
  intros k r Hr%Hp. cbn. by rewrite Hf.
Qed.
Lemma rows_up_devices p f :
  (forall k r, p k r = true -> k.1 <> b) ->
  frames (account_rows b) (execute (up_devices (update_where p f))).
Proof.
  intros Hp. apply frames_execute. intros db. unfold account_rows. cbn. rewrite filter_update_where; [done|].
  by intros k r Hr%Hp.
Qed.
Lemma rows_up_ssh_credentials p f :
  (forall k r, p k r = true -> sc_account_id r <> b) -> (forall r, sc_account_id (f r) = sc_account_id r) ->
  frames (account_rows b) (execute (up_ssh_credentials (update_where p f))).
Proof.
  intros Hp Hf. apply frames_execute. intros db. unfold account_rows. cbn. rewrite filter_update_where; [done|].
  intros k r Hr%Hp. cbn. by rewrite Hf.
Qed.
Lemma rows_insert_ssh_credential k r :
  sc_account_id r <> b -> frames (account_rows b) (insert_ssh_credential k r).
Proof.
  intros Hr s. unfold insert_ssh_credential. destruct (_ !! k) eqn:Hk; [done|].
  unfold account_rows. cbn. by rewrite filter_insert_other.
Qed.
Lemma rows_revoke_sessions p :
  (forall k r, p k r = true -> ss_account_id r <> b) -> frames (account_rows b) (revoke_sessions_where p).
Proof.
  intros Hp. unfold revoke_sessions_where. apply frames_bind; [by apply frames_pure|]. intros t.
  apply frames_bind; [by apply frames_pure|]. intros n. apply frames_bind; [|intros []; by apply frames_pure].
  by apply rows_up_sessions.
Qed.
End statements.

(** A condition on a row names its account first. *)
Ltac other_account :=
  intros; repeat match goal with
  | Hb : _ && _ = true |- _ => apply andb_true_iff in Hb as [? ?]
  | Hb : bool_decide _ = true |- _ => apply bool_decide_eq_true in Hb
  end; congruence.

Ltac rows_step :=
  match goal with
  | |- frames (account_rows _) (execute (up_sessions (update_where _ _))) =>
      apply rows_up_sessions; [other_account | done]
  | |- frames (account_rows _) (execute (up_devices (update_where _ _))) =>
      apply rows_up_devices; intros; repeat match goal with
        | Hb : _ && _ = true |- _ => apply andb_true_iff in Hb as [? ?]
        | Hb : bool_decide _ = true |- _ => apply bool_decide_eq_true in Hb
        end; subst; cbn in *; congruence
  | |- frames (account_rows _) (execute (up_ssh_credentials (update_where _ _))) =>
      apply rows_up_ssh_credentials; [other_account | done]
  | |- frames (account_rows _) (insert_ssh_credential _ _) => apply rows_insert_ssh_credential; cbn; congruence
  | |- frames (account_rows _) (revoke_sessions_where _) => apply rows_revoke_sessions; other_account
  | |- _ => frame_step
  end.

(** Reading a token reads only. *)
Section pure.
Context `{ServerLib} `{AuthLib}.

Definition reads {S E A} (m : M S E A) : Prop := forall s, (m s).2 = s.
Lemma reads_bind {S E A B} (m : M S E A) (f : A -> M S E B) :
  reads m -> (forall a, reads (f a)) -> reads (m ≫= f).
Proof.
  intros Hm Hf s. unfold mbind, M_bind. specialize (Hm s). destruct (m s) as [[a|e] s']; cbn in *; [|done].
  subst. apply Hf.
Qed.
Lemma validate_reads token : reads (validate_session_token token).
Proof.
  unfold validate_session_token, parse_stored_uuid, is_device_revoked. apply reads_bind; [done|]. intros t.
  apply reads_bind; [done|]. intros [[k row]|]; [|done]. apply reads_bind; [done|]. intros sid.
  apply reads_bind; [done|]. intros acc. apply reads_bind.
  { destruct (ss_device_id row); [|done]. by apply reads_bind. }
  intros dev. apply reads_bind; [by destruct dev|]. intros []; [done|]. by repeat case_match.
Qed.
Lemma authenticate_reads token : reads (authenticate_bearer_token token).
Proof.
  intros s. unfold authenticate_bearer_token. pose proof (validate_reads token s) as Hv.
  destruct (validate_session_token token s) as [r s']. cbn in Hv. subst. by repeat case_match.
Qed.
Lemma auth_middleware_reads h1 h2 h3 : reads (auth_middleware h1 h2 h3).
Proof.
  unfold auth_middleware. apply reads_bind; [by destruct h1 as [[]|]|]. intros v.
  apply reads_bind; [intros s; match goal with |- context [ok_or _ ?o] => by destruct o end|]. intros t. case_bool_decide; [done|].
  apply reads_bind; [apply authenticate_reads|]. intros x. by repeat case_match.
Qed.
End pure.

Section auth_operations.
Context `{ServerLib} `{AuthLib} (a b : string) (Hne : b <> a).

Lemma rows_revoke_session k : frames (account_rows b) (revoke_session a k).
Proof using Hne. unfold revoke_session. repeat rows_step. Qed.
Lemma rows_revoke_device d : frames (account_rows b) (revoke_device a d).
Proof using Hne.
  unfold revoke_device. repeat rows_step. apply rows_revoke_sessions. unfold device_session. other_account.
Qed.
Lemma rows_list_devices : frames (account_rows b) (list_devices a).
Proof using Type. by apply frames_pure. Qed.
Lemma rows_list_ssh_keys : frames (account_rows b) (list_ssh_keys a).
Proof using Type. unfold list_ssh_keys. repeat rows_step. Qed.
Lemma rows_add_ssh_key key label : frames (account_rows b) (add_ssh_key a key label false).
Proof using Hne. unfold add_ssh_key. repeat rows_step. Qed.
Lemma rows_revoke_ssh_key c : frames (account_rows b) (revoke_ssh_key a c).
Proof using Hne. unfold revoke_ssh_key. repeat rows_step. Qed.
Lemma rows_auth_middleware h1 h2 h3 : frames (account_rows b) (auth_middleware h1 h2 h3).
Proof using Type. apply frames_pure, auth_middleware_reads. Qed.
End auth_operations.

(** ** The combined state *)

(** Every row of the account is the same. *)
Record isolated (b : string) (st st' : AppState) : Prop := {
  is_rows : agree b (get_db st) (get_db st');
  is_auth : account_rows b (au_db (st_auth st')) = account_rows b (au_db (st_auth st))
}.

#[export] Instance isolated_preorder b : PreOrder (isolated b).
Proof.
  split; [done|]. intros x y z [R1 A1] [R2 A2]. split; [by etrans | by rewrite A2].
Qed.

(** Every table is the same. *)
Record same_tables (st st' : AppState) : Prop := {
  sm_db : get_db st' = get_db st;
  sm_auth : au_db (st_auth st') = au_db (st_auth st);
  sm_config : st_config st' = st_config st
}.

#[export] Instance same_tables_equiv : Equivalence same_tables.
Proof.
  split; [done| |].
  - intros x y []. by split.
  - intros x y z [] []. split; by etrans.
Qed.

Lemma lookup_set_active (X : gset string) (m : gmap string string) b :
  (b ∈ X -> is_Some (m !! b)) ->
  (m ∪ set_to_map (fun a => (a, "active")) X) !! b = m !! b.
Proof.
  intros Hin. destruct (m !! b) as [v|] eqn:Hb; [by apply lookup_union_Some_l|].
  rewrite lookup_union_r by done. apply eq_None_not_Some. intros [v Hv].
  apply lookup_set_to_map in Hv as (y & Hy & Heq); [|done]. injection Heq as -> _.
  apply Hin in Hy as [w Hw]. done.
Qed.

Lemma dom_set_active (X : gset string) (m : gmap string string) :
  dom (m ∪ set_to_map (fun a => (a, "active")) X) = dom m ∪ X.
Proof.
  rewrite dom_union_L. f_equal. apply set_eq. intros x. rewrite elem_of_dom. split.
  - intros [v Hv]. apply lookup_set_to_map in Hv as (y & Hy & Heq); [|done]. by injection Heq as -> _.
  - intros Hx. exists "active". apply lookup_set_to_map; [done|]. by exists x.
Qed.

Lemma get_put_db db st : get_db (put_db db st) = set_accounts (dom (shared_accounts st) ∪ db_accounts db) db.
Proof. unfold get_db, put_db, shared_accounts. cbn. by rewrite dom_set_active. Qed.

Lemma put_get_db st : same_tables st (put_db (get_db st) st).
Proof.
  assert (shared_accounts st ∪ set_to_map (fun a => (a, "active")) (dom (shared_accounts st))
          = shared_accounts st) as Hacc.
  { apply map_eq. intros b. apply lookup_set_active. by rewrite elem_of_dom. }
  split; [| |done].
  - rewrite get_put_db. unfold get_db. cbn. by rewrite union_idemp_L.
  - change (up_accounts (fun m => m ∪ set_to_map (fun a => (a, "active")) (dom (shared_accounts st)))
              (au_db (st_auth st)) = au_db (st_auth st)).
    unfold up_accounts. fold (shared_accounts st). rewrite Hacc. by destruct st as [? ? [[] ? ? ?]].
Qed.

(** ** Operations on the combined state *)

Lemma on_db_isolated {A} (m : M Db DbError A) a b :
  touches a m -> b <> a -> respects (isolated b) (on_db m).
Proof.
  intros Hm Hne st. unfold on_db, zoom. specialize (Hm b (get_db st) Hne).
  destruct (m (get_db st)) as [r db']. cbn in *. destruct Hm as [Hacc ? ? ? ? ? ?].
  assert (b ∈ db_accounts db' -> b ∈ dom (shared_accounts st)) as Hin by (intros Hb; by apply Hacc in Hb).
  split.
  - rewrite get_put_db. split; [cbn; set_solver|done..].
  - unfold account_rows. cbn. rewrite lookup_set_active; [done|]. intros Hb. apply elem_of_dom. auto.
Qed.

Lemma on_auth_isolated {E A} (m : M Auth E A) b :
  frames (account_rows b) m -> respects (isolated b) (on_auth m).
Proof.
  intros Hm st. unfold on_auth, zoom. specialize (Hm (st_auth st)).
  destruct (m (st_auth st)) as [r au']. cbn in *. split; [|done]. split; try done.
  unfold account_rows in Hm. injection Hm as _ _ _ _ Hacc.
  unfold get_db, shared_accounts. cbn. by rewrite !elem_of_dom, Hacc.
Qed.

Lemma on_db_same {A} (m : M Db DbError A) : reads m -> respects same_tables (on_db m).
Proof.
  intros Hm st. unfold on_db, zoom. specialize (Hm (get_db st)). destruct (m (get_db st)) as [r db'].
  cbn in *. subst. apply put_get_db.
Qed.

Lemma on_auth_same {E A} (m : M Auth E A) : frames id m -> respects same_tables (on_auth m).
Proof.
  intros Hm st. unfold on_auth, zoom. specialize (Hm (st_auth st)).
  destruct (m (st_auth st)) as [r au']. unfold id in Hm. cbn in *.
  split; [|done..]. unfold get_db, shared_accounts. cbn. by rewrite Hm.
Qed.

Lemma same_isolated b st st' : same_tables st st' -> isolated b st st'.
Proof. intros [Hdb Hau _]. split; [by rewrite Hdb | by rewrite Hau]. Qed.

(** ** Requests *)

Section requests.
Context `{ServerLib} `{AuthLib} `{WebAuthnLib} `{RouteLib}.

Section isolation.
Context (ident : AuthenticatedAccount) (b : string) (Hne : b <> aa_account_id ident).

Ltac isolate_handler :=
  repeat match goal with
  | |- respects _ (on_db _) => eapply on_db_isolated; [eauto with isolation | done]
  | |- respects _ (on_auth _) => apply on_auth_isolated
  | |- frames _ (list_ssh_keys _) => apply rows_list_ssh_keys
  | |- frames _ (add_ssh_key _ _ _ _) => by apply rows_add_ssh_key
  | |- frames _ (revoke_ssh_key _ _) => by apply rows_revoke_ssh_key
  | |- frames _ (revoke_session _ _) => by apply rows_revoke_session
  | |- frames _ (list_devices _) => apply rows_list_devices
  | |- frames _ (revoke_device _ _) => by apply rows_revoke_device
  | _ => respect_step
  end.

Lemma push_handler_isolated body : respects (isolated b) (push_mutation_handler ident body).
Proof using Hne. unfold push_mutation_handler, validate_push. isolate_handler. Qed.
Lemma pull_handler_isolated q : respects (isolated b) (pull_changes_handler ident q).
Proof using Hne. unfold pull_changes_handler. isolate_handler. Qed.
Lemma create_bootstrap_isolated body : respects (isolated b) (create_vault_bootstrap_handler ident body).
Proof using Hne. unfold create_vault_bootstrap_handler, bootstrap_request_ok. isolate_handler. Qed.
Lemma get_bootstrap_isolated : respects (isolated b) (get_vault_bootstrap_handler ident).
Proof using Hne. unfold get_vault_bootstrap_handler. isolate_handler. Qed.
Lemma put_blob_isolated id h body : respects (isolated b) (put_blob_handler id ident h body).
Proof using Hne. unfold put_blob_handler, config. isolate_handler. Qed.
Lemma get_blob_isolated id : respects (isolated b) (get_blob_handler id ident).
Proof using Hne. unfold get_blob_handler. isolate_handler. Qed.
Lemma delete_blob_isolated id : respects (isolated b) (delete_blob_handler id ident).
Proof using Hne. unfold delete_blob_handler. isolate_handler. Qed.
Lemma ssh_list_isolated : respects (isolated b) (ssh_list_handler ident).
Proof using Hne. unfold ssh_list_handler. isolate_handler. Qed.
Lemma ssh_add_isolated body : respects (isolated b) (ssh_add_handler ident body).
Proof using Hne. unfold ssh_add_handler, ssh_parse. isolate_handler. Qed.
Lemma ssh_revoke_isolated id : respects (isolated b) (ssh_revoke_handler ident id).
Proof using Hne. unfold ssh_revoke_handler. isolate_handler. Qed.
Lemma revoke_session_isolated j : respects (isolated b) (revoke_session_handler ident j).
Proof using Hne. unfold revoke_session_handler. isolate_handler. Qed.
Lemma list_devices_isolated : respects (isolated b) (list_devices_handler ident).
Proof using Hne. unfold list_devices_handler. isolate_handler. Qed.
Lemma revoke_device_isolated d : respects (isolated b) (revoke_device_handler d ident).
Proof using Hne. unfold revoke_device_handler. isolate_handler. Qed.
Lemma revoke_device_post_isolated d : respects (isolated b) (revoke_device_post_handler ident d).
Proof using Hne. unfold revoke_device_post_handler. isolate_handler. Qed.
Lemma session_status_isolated : respects (isolated b) (session_status_handler ident).
Proof using Type. by apply respects_pure; [exact _|]. Qed.
End isolation.

#[local] Hint Resolve push_handler_isolated pull_handler_isolated create_bootstrap_isolated
  get_bootstrap_isolated put_blob_isolated get_blob_isolated delete_blob_isolated ssh_list_isolated
  ssh_add_isolated ssh_revoke_isolated revoke_session_isolated list_devices_isolated
  revoke_device_isolated revoke_device_post_isolated session_status_isolated : respects.

Definition is_protected (e : Endpoint) : bool :=
  match e with
  | E_health | E_ssh_start | E_ssh_finish | E_device_authorize | E_register_start | E_register_finish
  | E_login_start | E_login_finish => false
  | _ => true
  end.

Lemma bind_authenticated {B} ident (f : AuthenticatedAccount -> App Response B) :
  authenticated (Some ident) ≫= f = f ident.
Proof. done. Qed.

Lemma respects_extract {A B} R `{!PreOrder R} (r : Result A Response) (f : A -> App Response B) :
  (forall a, respects R (f a)) -> respects R (extract r ≫= f).
Proof. intros Hf. apply respects_bind; [done| |done]. by apply respects_pure. Qed.

(** A protected endpoint changes rows of the account it runs for only. *)
Lemma dispatch_isolated e seg ident req b :
  b <> aa_account_id ident -> is_protected e = true ->
  respects (isolated b) (dispatch e seg (Some ident) req).
Proof.
  intros Hne. destruct e; intros [=]; cbn [dispatch];
    repeat lazymatch goal with
    | |- respects _ (authenticated _ ≫= _) => rewrite bind_authenticated
    | |- respects _ (extract _ ≫= _) => apply respects_extract; [exact _|intros ?]
    end; auto with respects.
Qed.

(** *** The routing table *)

Lemma find_first_elem {A} (p : A -> bool) l x : find_first p l = Some x -> x ∈ l /\ p x = true.
Proof.
  induction l as [|y l IH]; [done|]. cbn. destruct (p y) eqn:Hy.
  - intros [= ->]. split; [apply list_elem_of_here | done].
  - intros [? ?]%IH. split; [by apply list_elem_of_further | done].
Qed.

Definition router_ok (p : bool) (r : MethodRouter) : Prop := Forall (fun me => is_protected me.2 = p) r.

Lemma find_static_ok p path routes r :
  Forall (fun pr => router_ok p pr.2) routes -> find_static path routes = Some r -> router_ok p r.
Proof.
  unfold find_static. destruct (find_first _ routes) as [[k r']|] eqn:Hf; intros Hall [= <-].
  apply find_first_elem in Hf as [Hin _]. rewrite Forall_forall in Hall. by apply (Hall _ Hin).
Qed.

Lemma find_param_ok p path routes r seg :
  Forall (fun pr => router_ok p pr.2) routes -> find_param path routes = Some (r, seg) -> router_ok p r.
Proof.
  induction 1 as [|[k r'] routes Hr Hall IH]; [done|]. cbn. destruct (segment_after k path); [|done].
  by intros [= <- _].
Qed.

(** The routes behind authentication are exactly the protected endpoints. *)
Lemma route_protected path p r seg m e :
  route path = Some (p, r, seg) -> endpoint_of m r = Some e -> is_protected e = p.
Proof.
  intros Hroute He. assert (router_ok p r) as Hr.
  { unfold route in Hroute.
    destruct (find_static path public_routes) as [r'|] eqn:Hpub; [simplify_eq|].
    { eapply find_static_ok; [|exact Hpub]. by repeat constructor. }
    destruct (find_static path protected_static) as [r'|] eqn:Hst; [simplify_eq|].
    { eapply find_static_ok; [|exact Hst]. by repeat constructor. }
    destruct (find_param path protected_param) as [[r' seg']|] eqn:Hpar; [|done].
    cbn [fmap option_fmap option_map fst snd] in Hroute. injection Hroute as <- <- <-.
    eapply find_param_ok; [|exact Hpar]. by repeat constructor. }
  unfold endpoint_of in He. destruct (find_first _ r) as [[m' e']|] eqn:Hf; simplify_eq/=.
  apply find_first_elem in Hf as [Hin _]. unfold router_ok in Hr. rewrite Forall_forall in Hr. by apply (Hr _ Hin).
Qed.

(** *** Middleware *)

Lemma header_get_insert_ne {V} name name' (v : V) h :
  name <> name' -> header_get name' (header_insert name v h) = header_get name' h.
Proof.
  intros Hne. unfold header_get, header_insert. induction h as [|[k w] h IH]; cbn.
  - by rewrite bool_decide_eq_false_2.
  - destruct (decide (k = name)) as [->|Hk].
    + rewrite (bool_decide_eq_false_2 (name <> name)) by (by intros ?).
      rewrite (bool_decide_eq_false_2 (name = name')) by done. exact IH.
    + rewrite bool_decide_eq_true_2 by done. cbn. case_bool_decide; [done|exact IH].
Qed.

Lemma header_get_insert {V} name (v : V) h : header_get name (header_insert name v h) = Some v.
Proof.
  unfold header_get, header_insert. induction h as [|[k w] h IH]; cbn.
  - by rewrite bool_decide_eq_true_2.
  - case_bool_decide as Hk; [|exact IH]. cbn. by rewrite bool_decide_eq_false_2.
Qed.

Lemma request_id_same req st : same_tables st (request_id req st).2.
Proof. unfold request_id. by case_match. Qed.

Lemma authenticate_run req st :
  authenticate req st
  = let r := (auth_middleware (header_get "authorization" (rq_headers req))
                (header_get "x-account-id" (rq_headers req))
                (header_get "x-device-id" (rq_headers req)) (st_auth st)).1 in
    (result_map_err auth_error_response r, st).
Proof.
  unfold authenticate, or_return, map_err, on_auth, zoom.
  pose proof (auth_middleware_reads (header_get "authorization" (rq_headers req))
    (header_get "x-account-id" (rq_headers req)) (header_get "x-device-id" (rq_headers req)) (st_auth st)) as Hr.
  destruct (auth_middleware _ _ _ _) as [r s']. cbn in *. subst s'.
  assert (put_auth (st_auth st) st = st) as -> by (by destruct st). by destruct r.
Qed.

Lemma serve_protected e seg req st :
  run_handler (serve true e seg req) st
  = match (auth_middleware (header_get "authorization" (rq_headers req))
             (header_get "x-account-id" (rq_headers req))
             (header_get "x-device-id" (rq_headers req)) (st_auth st)).1 with
    | Ok ident => run_handler (dispatch e seg (Some ident) req) st
    | Err err => (auth_error_response err, st)
    end.
Proof.
  unfold serve, run_handler, mbind, M_bind. rewrite authenticate_run. cbv zeta.
  by destruct (auth_middleware _ _ _ _).1.
Qed.

(** The three headers of authentication are not the request identifier. *)
Definition with_request_id (id : HeaderValue) (req : Request) : Request :=
  mkRequest (rq_method req) (rq_path req) (rq_query req)
    (header_insert "x-request-id" id (rq_headers req)) (rq_body req).

(** What the middleware adds to the response, whatever the router answered. *)
Lemma handle_router req st :
  let id := (request_id req st).1 in
  exists hs, handle req st
    = (mkResponse (rs_status (router (with_request_id id req) (request_id req st).2).1) hs
         (rs_body (router (with_request_id id req) (request_id req st).2).1),
       (router (with_request_id id req) (request_id req st).2).2).
Proof.
  unfold handle, request_id_middleware, security_headers_middleware. destruct (request_id req st) as [id st1].
  cbn [fst snd]. unfold with_request_id. destruct (router _ st1) as [[status hs body] st'].
  cbn. eexists. reflexivity.
Qed.

(** C17. Requests stay inside the caller's account: a request to a protected
    path that fails authentication changes no table, and one that is
    authenticated leaves every row of every other account as it was, in the
    synchronization tables (vault, sequence counter, objects, history,
    processed mutations, blobs) and in the authentication tables (sessions,
    devices, passkeys, SSH keys, account status). *)
Theorem request_isolation req st resp st' r seg :
  handle req st = (resp, st') -> route (rq_path req) = Some (true, r, seg) ->
  match (auth_middleware (header_get "authorization" (rq_headers req))
           (header_get "x-account-id" (rq_headers req)) (header_get "x-device-id" (rq_headers req))
           (st_auth (request_id req st).2)).1 with
  | Ok ident => forall b, b <> aa_account_id ident -> isolated b st st'
  | Err e => same_tables st st'
             /\ (is_Some (endpoint_of (rq_method req) r) -> rs_status resp = (AuthError_response e).1)
  end.
Proof.
  intros Hrun Hroute. destruct (handle_router req st) as [hs Hh]. rewrite Hh in Hrun. clear Hh.
  pose proof (request_id_same req st) as Hid. destruct (request_id req st) as [id st1]. cbn [fst snd] in *.
  unfold router in Hrun. cbn [rq_path rq_method with_request_id] in Hrun. rewrite Hroute in Hrun.
  destruct (endpoint_of (rq_method req) r) as [e|] eqn:He; cycle 1.
  { simplify_eq/=. case_match; [intros b _; by apply same_isolated | split; [done|by intros [? ?]]]. }
  pose proof (route_protected _ _ _ _ _ _ Hroute He) as Hprot.
  rewrite serve_protected in Hrun. cbn [rq_headers with_request_id] in Hrun.
  rewrite !header_get_insert_ne in Hrun by done.
  destruct (auth_middleware _ _ _ (st_auth st1)).1 as [ident|err].
  - intros b Hne. destruct (run_handler (dispatch e seg (Some ident) _) st1) as [r2 st2] eqn:Hd.
    simplify_eq/=. etrans; [by apply same_isolated|]. eapply run_handler_respects; [|exact Hd].
    by apply dispatch_isolated.
  - simplify_eq/=. split; [done|]. intros _. unfold strip_body. by case_bool_decide.
Qed.

(** *** Secrets *)

(** The endpoints whose JSON body is scanned. *)
Definition scanned (e : Endpoint) : bool :=
  match e with
  | E_push | E_create_bootstrap | E_register_finish | E_login_finish | E_device_authorize => true
  | _ => false
  end.

Lemma scanned_body_refused {A B} (from_value : Value -> Result A string) e1 r e2 body v
    (f : A -> App Response B) st :
  json_from_slice body = Ok v -> contains_forbidden_keys v = true ->
  (scanned_body from_value e1 r e2 body ≫= f) st = (Err r, st).
Proof.
  intros Hv Hf. apply run_bind_err. unfold scanned_body.
  rewrite (run_bind_ok _ _ _ v st); [|by unfold or_return, map_err, lift_result; rewrite Hv].
  by rewrite Hf.
Qed.

Definition client_error (status : N) : Prop := (400 <= status < 500)%N.

Lemma dispatch_scanned e seg auth req body v st :
  scanned e = true -> bytes_of_request req = Ok body -> json_from_slice body = Ok v ->
  contains_forbidden_keys v = true -> (is_protected e = true -> is_Some auth) ->
  exists r, dispatch e seg auth req st = (Err r, st) /\ rs_status r = 400%N.
Proof.
  intros He Hb Hv Hf Hauth.
  assert (forall A (f : string -> App Response A), (extract (bytes_of_request req) ≫= f) st = f body st) as Hx
    by (intros; by unfold extract, lift_result, mbind, M_bind; rewrite Hb).
  destruct e; try discriminate He; cbn [dispatch];
    try (destruct (Hauth eq_refl) as [ident ->]; rewrite bind_authenticated); rewrite Hx;
    eexists; (split; [by eapply scanned_body_refused | done]).
Qed.

(** C19. Secrets are refused where the server looks for them: a request to one of
    the five endpoints that scan their body (sync push, vault bootstrap, passkey
    registration and login finish, device authorization) whose JSON body has a
    field named like a passphrase, a key or a plaintext, at any depth and in any
    letter case, is answered with a client error, and no table changes.  The
    other endpoints do not scan ([login_start_accepts_secret]). *)
Theorem secrets_refused req st resp st' p r seg e body v k :
  handle req st = (resp, st') -> route (rq_path req) = Some (p, r, seg) ->
  endpoint_of (rq_method req) r = Some e -> scanned e = true ->
  bytes_of_request (with_request_id (request_id req st).1 req) = Ok body -> json_from_slice body = Ok v ->
  Occurs k v -> to_ascii_lowercase k ∈ forbidden_names ->
  client_error (rs_status resp) /\ same_tables st st'.
Proof.
  intros Hrun Hroute He Hsc Hbody Hv Hk Hkf. destruct (handle_router req st) as [hs Hh].
  rewrite Hh in Hrun. clear Hh.
  assert (contains_forbidden_keys v = true) as Hf by (apply forbidden_keys_spec; by exists k).
  pose proof (request_id_same req st) as Hid. destruct (request_id req st) as [id st1]. cbn [fst snd] in *.
  unfold router in Hrun. cbn [rq_path rq_method with_request_id] in Hrun. rewrite Hroute, He in Hrun.
  pose proof (route_protected _ _ _ _ _ _ Hroute He) as Hprot.
  assert (exists resp1, run_handler (serve p e seg (with_request_id id req)) st1 = (resp1, st1)
            /\ client_error (rs_status resp1)) as (resp1 & Hserve & Hce).
  { destruct p.
    - rewrite serve_protected. destruct (auth_middleware _ _ _ (st_auth st1)).1 as [ident|err].
      + destruct (dispatch_scanned e seg (Some ident) (with_request_id id req) body v st1) as (r1 & Hd & Hr1);
          [done..|by exists ident|]. exists r1. unfold run_handler. rewrite Hd. split; [done|]. rewrite Hr1. done.
      + exists (auth_error_response err). split; [done|]. by destruct err.
    - destruct (dispatch_scanned e seg None (with_request_id id req) body v st1) as (r1 & Hd & Hr1);
        [done..|by rewrite Hprot|]. exists r1. unfold run_handler, serve. rewrite Hd. split; [done|]. rewrite Hr1. done. }
  unfold with_request_id in *. rewrite Hserve in Hrun. simplify_eq/=. split; [|done].
  unfold strip_body. by case_bool_decide.
Qed.

(** *** Response headers *)

Lemma fold_headers_keep l (r : Response) name v :
  name ∉ l.*1 -> header_get name (rs_headers r) = v ->
  header_get name (rs_headers (fold_left (fun r nv => with_header nv.1 (Some nv.2) r) l r)) = v.
Proof.
  revert r. induction l as [|[k w] l IH]; intros r Hn Hr; [done|]. cbn [fold_left].
  apply not_elem_of_cons in Hn as [Hk Hl]. apply IH; [done|]. cbn [fst snd with_header rs_headers]. by rewrite header_get_insert_ne.
Qed.

Lemma fold_headers_set l (r : Response) name v :
  NoDup l.*1 -> (name, v) ∈ l ->
  header_get name (rs_headers (fold_left (fun r nv => with_header nv.1 (Some nv.2) r) l r)) = Some (Some v).
Proof.
  revert r. induction l as [|[k w] l IH]; intros r Hnd Hin; [by apply elem_of_nil in Hin|].
  cbn [fold_left]. apply NoDup_cons in Hnd as [Hk Hnd]. apply elem_of_cons in Hin as [[= -> ->]|Hin].
  - apply fold_headers_keep; [done|]. apply header_get_insert.
  - by apply IH.
Qed.

(** Every response, whatever the route, the method and the outcome, carries
    each security header with its value and the request's identifier. *)
Lemma responses_hardened req st resp st' :
  handle req st = (resp, st') ->
  Forall (fun nv => header_get nv.1 (rs_headers resp) = Some (Some nv.2)) security_headers
  /\ header_get "x-request-id" (rs_headers resp) = Some (request_id req st).1.
Proof.
  unfold handle, request_id_middleware, security_headers_middleware. destruct (request_id req st) as [id st1].
  destruct (router _ st1) as [resp0 st2]. remember (fold_left _ security_headers resp0) as r1 eqn:Hr1.
  intros [= <- <-]. split; [|apply header_get_insert].
  apply Forall_forall. intros [name v] Hin. cbn [fst snd with_header rs_headers]. rewrite header_get_insert_ne.
  - subst r1. apply fold_headers_set; [|done]. apply (bool_decide_unpack _). by vm_compute.
  - intros <-. revert Hin. apply (bool_decide_unpack _). by vm_compute.
Qed.
End requests.
