(* ===== verification/AppLogin.v ===== *)
(** * Passkey login and registration, end to end

    What a successful answer of the passkey endpoints establishes about the
    tables before and after it. *)

From stdpp Require Import options.
From S2P Require Import Prelude Protocol Time ServerDb ServerSpec ServerDbFacts ServerTables Text ServerAuth ServerAuthFacts ServerAuthInv.
From S2P Require Import WebAuthn Json Routes RoutesAuth App AppFacts.

(** ** Early returns are refusals *)

Definition refuses {A} (m : App Response A) : Prop :=
  forall st r st', m st = (Err r, st') -> is_success_status (rs_status r) = false.

Section refuses.
Lemma refuses_bind {A B} (m : App Response A) (f : A -> App Response B) :
  refuses m -> (forall a, refuses (f a)) -> refuses (m ≫= f).
Proof.
  intros Hm Hf st r st' [He|(a & s1 & _ & He)]%bind_err_inv; [by eapply Hm | by eapply Hf].
Qed.
Lemma refuses_or_return {E A} (f : E -> Response) (m : App E A) :
  (forall e, is_success_status (rs_status (f e)) = false) -> refuses (or_return f m).
Proof. intros Hf st r st' (e & _ & ->)%map_err_err_inv. apply Hf. Qed.
Lemma refuses_return_if b r : is_success_status (rs_status r) = false -> refuses (return_if b r).
Proof. intros Hr st r' st'. destruct b; by intros [= <- <-]. Qed.
Lemma refuses_ok_or {A} r (o : option A) : is_success_status (rs_status r) = false -> refuses (ok_or r o).
Proof. intros Hr st r' st'. destruct o; by intros [= <- <-]. Qed.
Lemma refuses_total {A} (m : App Response A) : (forall st, exists a st', m st = (Ok a, st')) -> refuses m.
Proof. intros Hm st r st' He. destruct (Hm st) as (a & s & Ho). congruence. Qed.
Lemma refuses_attempt {E A} (m : App E A) : refuses (attempt m : App Response _).
Proof. apply refuses_total. intros st. unfold attempt. destruct (m st). by eexists _, _. Qed.
Lemma refuses_scanned_body `{RouteLib} {A} (from_value : Value -> Result A string) e1 r e2 b :
  (forall e, is_success_status (rs_status (e1 e)) = false) -> is_success_status (rs_status r) = false ->
  (forall e, is_success_status (rs_status (e2 e)) = false) -> refuses (scanned_body from_value e1 r e2 b).
Proof.
  intros H1 Hr H2. unfold scanned_body. apply refuses_bind; [by apply refuses_or_return|]. intros v.
  apply refuses_bind; [by apply refuses_return_if|]. intros _. by apply refuses_or_return.
Qed.

Lemma run_handler_success (h : Handler) st r st' :
  refuses h -> run_handler h st = (r, st') -> is_success_status (rs_status r) = true -> h st = (Ok r, st').
Proof.
  intros Hh Hrun Hs. unfold run_handler in Hrun. destruct (h st) as [[r0|r0] st0] eqn:He; simplify_eq; [done|].
  apply Hh in He. congruence.
Qed.
End refuses.

Ltac refuse_step :=
  lazymatch goal with
  | |- refuses (_ ≫= _) => apply refuses_bind; [|intros ?]
  | |- refuses (or_return _ _) => apply refuses_or_return; intros []; done
  | |- refuses (attempt _) => apply refuses_attempt
  | |- refuses (return_if _ _) => by apply refuses_return_if
  | |- refuses (ok_or _ _) => by apply refuses_ok_or
  | |- refuses (scanned_body _ _ _ _ _) => by apply refuses_scanned_body
  | |- refuses (match ?x with _ => _ end) => destruct x
  | |- refuses (let _ := _ in _) => cbv zeta
  | |- refuses _ => apply refuses_total; intros ?; by eexists _, _
  end.

(** ** Operations of the authentication tables *)

Lemma on_auth_ok {E A} (m : M Auth E A) st a st' :
  on_auth m st = (Ok a, st') -> exists au', m (st_auth st) = (Ok a, au') /\ st' = put_auth au' st.
Proof. unfold on_auth, zoom. destruct (m (st_auth st)) as [r au']. intros [= -> <-]. by exists au'. Qed.

Section operations.
Context `{ServerLib} `{AuthLib}.

Lemma return_if_ok b r st u st' : return_if b r st = (Ok u, st') -> b = false /\ st' = st.
Proof. destruct b; [done|]. by intros [= _ <-]. Qed.

Lemma attempt_true (m : App DbError bool) st r st' :
  attempt (E' := Response) m st = (Ok r, st') -> negb (bool_decide (r = Ok true)) = false -> m st = (Ok true, st').
Proof.
  unfold attempt. destruct (m st) as [r' s']. intros [= <- <-] Hb%negb_false_iff%bool_decide_eq_true. by subst.
Qed.

(** The optional identifier of a row, in canonical form. *)
Definition parsed (o o' : option string) : Prop :=
  match o with
  | Some x => exists y, uuid_parse_str x = Ok y /\ o' = Some y
  | None => o' = None
  end.

Lemma consume_ok id p s row s' :
  consume_webauthn_challenge id p s = (Ok row, s') ->
  exists stored, ad_challenges (au_db s) !! id = Some stored /\ wc_purpose stored = p
    /\ (au_now s < wc_expires_at stored)%Z /\ wc_challenge row = wc_challenge stored
    /\ parsed (wc_account_id stored) (wc_account_id row)
    /\ s' = set_db (up_challenges (delete id) (au_db s)) s.
Proof.
  unfold consume_webauthn_challenge, take_challenge, parse_stored_uuid. intros Hc. auth_inv.
  destruct (ad_challenges _ !! id) as [r|] eqn:Hr; [|by simplify_eq].
  case_bool_decide as Hp; simplify_eq; try discriminate.
  destruct (Z.leb _ _) eqn:Hle; [discriminate|]. apply Z.leb_gt in Hle.
  rewrite (bool_decide_eq_false_2 (_ <> _)) in * by auto.
  exists r. unfold parsed. destruct (wc_account_id r); auth_inv; cbn; split_and!; eauto.
Qed.

Lemma get_credential_ok id s found s' :
  get_webauthn_credential id s = (Ok (Some found), s') ->
  s' = s /\ exists stored, ad_credentials (au_db s) !! id = Some stored
    /\ uuid_parse_str (cr_account_id stored) = Ok (cr_account_id found)
    /\ cr_public_key found = cr_public_key stored
    /\ cr_sign_count found = Z.of_N (as_u64 (cr_sign_count stored))
    /\ parsed (cr_device_id stored) (cr_device_id found).
Proof.
  unfold get_webauthn_credential, parse_stored_uuid. intros Hg. auth_inv.
  destruct (ad_credentials _ !! id) as [r|] eqn:Hr; [|by auth_inv].
  unfold parsed. auth_inv. destruct (cr_device_id r) eqn:Hd; auth_inv; cbn; (split; [done|]);
    exists r; rewrite Hd; split_and!; cbn; eauto.
Qed.

Lemma count_where_one {V} (p : string -> V -> bool) (m : gmap string V) k0 :
  (forall k v, p k v = true -> k = k0) -> count_where p m = 1 -> exists v, m !! k0 = Some v /\ p k0 v = true.
Proof.
  intros Hp Hc. unfold count_where in Hc. destruct (List.filter _ _) as [|[k v] l] eqn:Hf; [done|].
  assert ((k, v) ∈ List.filter (fun kv : string * V => p kv.1 kv.2) (map_to_list m)) as Hin
    by (rewrite Hf; apply list_elem_of_here).
  apply list_elem_of_In, filter_In in Hin as [Hin Hpv]. cbn in Hpv. pose proof (Hp _ _ Hpv) as ->.
  exists v. split; [|done]. by apply elem_of_map_to_list, list_elem_of_In.
Qed.

Lemma advance_counter_ok id old new s s' :
  advance_webauthn_counter id old new s = (Ok true, s') ->
  exists r, ad_credentials (au_db s) !! id = Some r /\ cr_sign_count r = Z.of_N old
    /\ ad_credentials (au_db s') !! id = Some (used_at (au_now s) (Z.of_N new) r)
    /\ ad_sessions (au_db s') = ad_sessions (au_db s) /\ ad_challenges (au_db s') = ad_challenges (au_db s).
Proof.
  unfold advance_webauthn_counter. destruct (Z.ltb _ _); [discriminate|]. intros Ha. auth_inv.
  match goal with Hn : (count_where ?p _ =? 1)%nat = true |- _ =>
    apply Nat.eqb_eq, (count_where_one _ _ id) in Hn as (r & Hr & Hpr) end.
  - apply andb_true_iff in Hpr as [_ Hcount%Z.eqb_eq]. exists r. split_and!; try done.
    cbn. rewrite lookup_update_where, Hr. cbn.
    by rewrite bool_decide_eq_true_2, Hcount, Z.eqb_refl.
  - intros k v Hk. apply andb_true_iff in Hk as [Hk _]. by apply bool_decide_eq_true in Hk.
Qed.

Lemma register_credential_ok id a key d n s u s' :
  register_webauthn_credential id a key d n s = (Ok u, s') ->
  ad_credentials (au_db s) !! id = None
  /\ ad_credentials (au_db s') !! id = Some (mkCredentialRow a key 0 d n (au_now s) None)
  /\ ad_sessions (au_db s') = ad_sessions (au_db s) /\ ad_challenges (au_db s') = ad_challenges (au_db s).
Proof.
  unfold register_webauthn_credential, ensure_auth_account. intros Hr. auth_inv. cbn in *.
  case_bool_decide as Hk; [discriminate|]. auth_inv. cbn. rewrite lookup_insert_eq.
  split_and!; try done. by apply eq_None_not_Some.
Qed.

Lemma create_session_ok s a d n ttl sess tok s' :
  create_session a d n ttl s = (Ok (sess, tok), s') ->
  ad_sessions (au_db s') !! as_session_id sess = Some (session_row s a d n ttl tok)
  /\ ad_sessions (au_db s) !! as_session_id sess = None
  /\ ad_credentials (au_db s') = ad_credentials (au_db s)
  /\ ad_challenges (au_db s') = ad_challenges (au_db s)
  /\ (forall d0, d = Some d0 -> device_revoked (au_db s') a d0 = Some false)
  /\ as_expires_at sess = ss_expires_at (session_row s a d n ttl tok).
Proof.
  unfold create_session. intros Hc. auth_inv.
  match goal with Hx : ensure_auth_account _ _ = _ |- _ => unfold ensure_auth_account in Hx; auth_inv end.
  match goal with Hx : in_tx _ _ = _ |- _ => apply in_tx_ok in Hx; rename Hx into Hon end.
  assert (frames ad_credentials (create_session_on a d n ttl)) as Hcr
    by (unfold create_session_on, session_device, register_device_on; frame).
  assert (frames ad_challenges (create_session_on a d n ttl)) as Hch
    by (unfold create_session_on, session_device, register_device_on; frame).
  pose proof (run_frame _ _ _ _ _ Hcr Hon) as Hc1. pose proof (run_frame _ _ _ _ _ Hch Hon) as Hc2.
  apply create_session_on_ok in Hon as (Hs & Hk & _ & _ & Hd & _ & He). cbn in *.
  split_and!; try done. rewrite Hs. apply lookup_insert_eq.
Qed.
End operations.

(** ** Login *)

Section login.
Context `{ServerLib} `{AuthLib} `{WebAuthnLib} `{RouteLib}.

Lemma login_refuses body : refuses (webauthn_login_finish_handler body).
Proof.
  unfold webauthn_login_finish_handler, credential_id_bytes, enrolled_device_live, config.
  repeat refuse_step.
Qed.

(** What the tables held when a login succeeded, and what it wrote. *)
Record PasskeyLogin (req : WebAuthnLoginFinishRequest) (st st' : AppState) (resp : SessionResponse)
    (challenge : WebAuthnChallengeRow) (credential : WebAuthnCredentialRow) (id : string) (count : N)
    : Prop := {
  pl_challenge : ad_challenges (au_db (st_auth st)) !! lf_challenge_id req = Some challenge;
  pl_purpose : wc_purpose challenge = "login";
  pl_fresh : (au_now (st_auth st) < wc_expires_at challenge)%Z;
  pl_consumed : ad_challenges (au_db (st_auth st')) !! lf_challenge_id req = None;
  pl_id : decode_base64_flexible (lf_credential_id req) = Some id;
  pl_credential : ad_credentials (au_db (st_auth st)) !! id = Some credential;
  pl_account : uuid_parse_str (cr_account_id credential) = Ok (sp_account_id resp);
  pl_target a : wc_account_id challenge = Some a -> uuid_parse_str a = Ok (sp_account_id resp);
  pl_assertion : AssertionOk req (wc_challenge challenge) (cfg_webauthn_rp_id (st_config st))
    (cfg_webauthn_origin (st_config st)) (cr_public_key credential)
    (as_u64 (cr_sign_count credential)) count;
  pl_counter : exists credential', ad_credentials (au_db (st_auth st')) !! id = Some credential'
    /\ cr_sign_count credential' = Z.of_N count /\ cr_public_key credential' = cr_public_key credential;
  pl_device d : cr_device_id credential = Some d ->
    sp_device_id resp = ok (uuid_parse_str d)
    /\ (forall d', uuid_parse_str d = Ok d' ->
          default false (device_revoked (au_db (st_auth st)) (sp_account_id resp) d') = false);
  pl_session : exists row, ad_sessions (au_db (st_auth st')) !! sp_session_id resp = Some row
    /\ ss_account_id row = sp_account_id resp /\ ss_device_id row = sp_device_id resp
    /\ ss_token_hash row = blake2s256 (sp_token resp) /\ ss_revoked_at row = None
    /\ ad_sessions (au_db (st_auth st)) !! sp_session_id resp = None
}.

Lemma enrolled_device_ok credential st u st' :
  enrolled_device_live credential st = (Ok u, st') ->
  st' = st /\ (forall d, cr_device_id credential = Some d ->
    default false (device_revoked (au_db (st_auth st)) (cr_account_id credential) d) = false).
Proof.
  unfold enrolled_device_live. destruct (cr_device_id credential) as [d|]; [|by intros [= _ <-]].
  intros Hrun. apply bind_ok_inv in Hrun as (r & st1 & Hrun0 & Hrun).
  destruct st as [cfg db au]. cbn in Hrun0. unfold put_auth in Hrun0. cbn in Hrun0. injection Hrun0 as <- <-.
  unfold return_if in Hrun. case_bool_decide as Hb; cbn in Hrun; [|discriminate]. injection Hb as Hb.
  injection Hrun as _ <-. split; [done|]. by intros d0 [= <-].
Qed.

(** C18. A passkey login is sound: the server answers with a session only for
    a login challenge that it issued, that has not expired and that no longer
    exists afterwards; for a registered credential, of the account the
    challenge was bound to; with client data and authenticator data for this
    challenge, origin and relying party, user presence and verification
    included, signed by the credential's key; with a counter that advanced and
    is stored; on a device that is not revoked.  The session it returns is a
    new row of that account, found by the digest of the returned token. *)
Theorem passkey_login_sound body st resp st' :
  run_handler (webauthn_login_finish_handler body) st = (resp, st') ->
  is_success_status (rs_status resp) = true ->
  exists v req session challenge credential id count,
    json_from_slice body = Ok v /\ login_finish_from_value v = Ok req
    /\ rs_body resp = BSession session
    /\ PasskeyLogin req st st' session challenge credential id count.
Proof.
  intros Hrun Hs. pose proof (run_handler_success _ _ _ _ (login_refuses body) Hrun Hs) as Hok. clear Hrun Hs.
  unfold webauthn_login_finish_handler, scanned_body, credential_id_bytes, or_return, config in Hok. inv_run.
  repeat match goal with Hr : return_if _ _ _ = (Ok _, _) |- _ => apply return_if_ok in Hr as [? ?]; subst end.
  match goal with Hc : (Ok _, _) = (Ok _, _) |- _ => injection Hc as <- <- end.
  match goal with Hd : ?m = Some _ |- _ =>
    apply bind_Some in Hd as (cid & Hcid & Hd); destruct (bool_decide (cid = "")); [discriminate|];
    injection Hd as <- end.
  match goal with Hc : on_auth (consume_webauthn_challenge _ _) _ = _ |- _ =>
    apply on_auth_ok in Hc as (au1 & (ch & Hch & Hpur & Hfresh & Hbytes & Hacc & ->)%consume_ok & ->) end.
  match goal with Hc : on_auth (get_webauthn_credential _) _ = _ |- _ =>
    apply on_auth_ok in Hc as (au2 & (-> & cr & Hcr & Haccount & Hkey & Hcount & Hdev)%get_credential_ok & ->) end.
  match goal with Hc : enrolled_device_live _ _ = _ |- _ => apply enrolled_device_ok in Hc as [-> Hlive] end.
  match goal with Ha : attempt _ _ = _, Hb : negb _ = false |- _ =>
    apply (attempt_true _ _ _ _ Ha) in Hb; apply on_auth_ok in Hb as (au3 & Hadv & ->) end.
  match goal with Hc : on_auth (create_session _ _ _ _) _ = (Ok ?x, _) |- _ =>
    destruct x as [sess tok]; apply on_auth_ok in Hc as (au4 & Hsess & ->) end.
  apply advance_counter_ok in Hadv as (cr1 & Hcr1 & _ & Hcr1' & Hss & Hchs).
  apply create_session_ok in Hsess as (Hrow & Hnew & Hcreds & Hchs' & Hdevl & _).
  cbn [st_auth st_config put_auth set_db au_db up_challenges ad_credentials ad_challenges ad_sessions] in *.
  assert (cr1 = cr) as -> by congruence.
  eexists _, _, _, ch, cr, cid, _. split; [done|]. split; [done|]. split; [reflexivity|].
  split; cbn [sp_token sp_session_id sp_account_id sp_device_id as_session_id st_auth put_auth]; try done.
  - by rewrite Hchs', Hchs, lookup_delete_eq.
  - intros t Ht. unfold parsed in Hacc. rewrite Ht in Hacc. destruct Hacc as (y & Hy & Ha0).
    rewrite Ha0 in *. match goal with Hb : bool_decide _ = false |- _ =>
      apply bool_decide_eq_false, dec_stable in Hb; by subst end.
  - rewrite <- Hbytes, <- Hkey. apply login_ok. by rewrite <- (N2Z.id (as_u64 _)), <- Hcount.
  - rewrite Hcreds. eexists. by split_and!.
  - intros d Hd. unfold parsed in Hdev. rewrite Hd in Hdev. destruct Hdev as (y & Hy & Hdev).
    rewrite Hdev, Hy. split; [done|]. intros d' [= <-]. by apply Hlive.
  - eexists. split; [exact Hrow|]. split_and!; try done. by rewrite <- Hss.
Qed.

(** ** Registration *)

Lemma register_refuses body : refuses (webauthn_register_finish_handler body).
Proof. unfold webauthn_register_finish_handler, credential_id_bytes, config. repeat refuse_step. Qed.

(** A registration that succeeded consumed an unexpired challenge for
    registration and stored the attested key, under an identifier that was not
    taken, for the account the challenge was bound to; the key in the request
    plays no part. *)
Lemma passkey_registration_sound body st resp st' :
  run_handler (webauthn_register_finish_handler body) st = (resp, st') ->
  is_success_status (rs_status resp) = true ->
  exists v req session challenge id credential,
    json_from_slice body = Ok v /\ register_finish_from_value v = Ok req
    /\ rs_body resp = BSession session
    /\ ad_challenges (au_db (st_auth st)) !! rf_challenge_id req = Some challenge
    /\ wc_purpose challenge = "register" /\ (au_now (st_auth st) < wc_expires_at challenge)%Z
    /\ ad_challenges (au_db (st_auth st')) !! rf_challenge_id req = None
    /\ (forall a, wc_account_id challenge = Some a -> uuid_parse_str a = Ok (sp_account_id session))
    /\ decode_base64_flexible (rf_credential_id req) = Some id
    /\ ad_credentials (au_db (st_auth st)) !! id = None
    /\ ad_credentials (au_db (st_auth st')) !! id = Some credential
    /\ cr_account_id credential = sp_account_id session
    /\ AttestationOk req (wc_challenge challenge) (cfg_webauthn_rp_id (st_config st))
         (cfg_webauthn_origin (st_config st)) (cr_public_key credential)
    /\ (exists row, ad_sessions (au_db (st_auth st')) !! sp_session_id session = Some row
          /\ ss_account_id row = sp_account_id session
          /\ ss_token_hash row = blake2s256 (sp_token session)).
Proof.
  intros Hrun Hs. pose proof (run_handler_success _ _ _ _ (register_refuses body) Hrun Hs) as Hok. clear Hrun Hs.
  unfold webauthn_register_finish_handler, scanned_body, credential_id_bytes, or_return, config in Hok. inv_run.
  repeat match goal with Hr : return_if _ _ _ = (Ok _, _) |- _ => apply return_if_ok in Hr as [? ?]; subst end.
  match goal with Hc : (Ok _, _) = (Ok _, _) |- _ => injection Hc as <- <- end.
  match goal with Hd : ?m = Some _ |- _ =>
    apply bind_Some in Hd as (cid & Hcid & Hd); destruct (bool_decide (cid = "")); [discriminate|];
    injection Hd as <- end.
  match goal with Hc : on_auth (consume_webauthn_challenge _ _) _ = _ |- _ =>
    apply on_auth_ok in Hc as (au1 & (ch & Hch & Hpur & Hfresh & Hbytes & Hacc & ->)%consume_ok & ->) end.
  match goal with Hc : on_auth (register_webauthn_credential _ _ _ _ _) _ = _ |- _ =>
    apply on_auth_ok in Hc as (au2 & (Hfree & Hcr & Hss & Hchs)%register_credential_ok & ->) end.
  match goal with Hc : on_auth (create_session _ _ _ _) _ = (Ok ?x, _) |- _ =>
    destruct x as [sess tok]; apply on_auth_ok in Hc as (au4 & Hsess & ->) end.
  apply create_session_ok in Hsess as (Hrow & Hnew & Hcreds & Hchs' & Hdevl & _).
  match goal with Hu : match wc_account_id ?r with _ => _ end ?s = (Ok ?acc, ?s4) |- _ =>
    assert (au_db (st_auth s4) = au_db (st_auth s) /\ (forall x, wc_account_id r = Some x -> acc = x)) as [Hdb Hx]
      by (destruct (wc_account_id r); [injection Hu as <- <-; split; [done|]; by intros ? [= <-] |
          cbn in Hu; injection Hu as <- <-; done]) end.
  cbn [st_auth st_config put_auth set_db au_db up_challenges ad_credentials ad_challenges ad_sessions] in *.
  eexists _, _, _, ch, cid, _. split; [done|]. split; [done|]. split; [reflexivity|].
  cbn [sp_token sp_session_id sp_account_id st_auth put_auth as_session_id].
  split; [done|]. split; [done|]. split; [done|].
  split; [rewrite Hchs', Hchs, Hdb; cbn [ad_challenges up_challenges au_db set_db]; apply lookup_delete_eq|].
  split.
  { intros t Ht. unfold parsed in Hacc. rewrite Ht in Hacc. destruct Hacc as (y & Hy & Ha0). by rewrite (Hx y Ha0). }
  split; [done|]. split; [by rewrite Hdb in Hfree|]. split; [by rewrite Hcreds|]. split; [done|].
  split; [rewrite <- Hbytes; by apply register_ok|]. eexists. split; [exact Hrow|]. by split.
Qed.

(** ** Ownership *)

(** The headers carry a bearer token of the account. *)
Definition owns (headers : HeaderMap HeaderValue) (account : string) (s : Auth) : Prop :=
  exists h token d k, header_get "authorization" headers = Some (Some h)
    /\ strip_prefix "Bearer " h = Some token
    /\ (authenticate_bearer_token token s).1 = Ok (mkAuthenticatedAccount account d (Some k)).

Lemma authenticate_session token s ident s' :
  authenticate_bearer_token token s = (Ok ident, s') -> exists k, aa_session_id ident = Some k.
Proof.
  unfold authenticate_bearer_token. destruct (validate_session_token token s) as [[[[]|]|] ?];
    intros [= <- <-]; by eexists.
Qed.

Lemma owner_identity_ok headers account st ident st' :
  owner_identity headers account st = (Ok ident, st') ->
  st' = st /\ aa_account_id ident = account /\ owns headers account (st_auth st).
Proof.
  unfold owner_identity. intros Hrun. inv_run.
  match goal with Hd : ?m = Some _ |- _ =>
    apply bind_Some in Hd as (v & Hv & (h & Hh & Hd)%bind_Some) end.
  match goal with Hc : on_auth (authenticate_bearer_token ?t) ?s = _ |- _ =>
    apply on_auth_ok in Hc as (au' & Ha & ->); pose proof (authenticate_reads t (st_auth s)) as Hread;
    rewrite Ha in Hread; cbn in Hread; subst au';
    assert (put_auth (st_auth s) s = s) as Hst by (by destruct s); rewrite Hst in * end.
  case_bool_decide as Hne; inv_run. split; [done|]. split; [done|].
  destruct (authenticate_session _ _ _ _ Ha) as [k Hk]. exists h, a, (aa_device_id ident), k.
  split; [done|]. split; [done|]. rewrite Ha. cbn. destruct ident. cbn in *. by subst.
Qed.

(** A passkey is enrolled for an existing account by its owner only: the
    challenge that registration must consume is bound to the account whose
    bearer token the request carried. *)
Lemma register_start_owned headers req st resp st' account :
  run_handler (webauthn_register_start_handler headers req) st = (resp, st') ->
  is_success_status (rs_status resp) = true -> rsr_account_id req = Some account ->
  owns headers account (st_auth st)
  /\ exists id row, ad_challenges (au_db (st_auth st')) !! id = Some row
      /\ wc_account_id row = Some account /\ wc_purpose row = "register".
Proof.
  intros Hrun Hs Hacc.
  assert (refuses (webauthn_register_start_handler headers req)) as Href.
  { unfold webauthn_register_start_handler, generate_secure_challenge, config. repeat refuse_step.
    all: apply refuses_total; intros ?; by eexists _, _. }
  pose proof (run_handler_success _ _ _ _ Href Hrun Hs) as Hok. clear Hrun Hs Href.
  unfold webauthn_register_start_handler in Hok. rewrite Hacc in Hok.
  apply bind_ok_inv in Hok as (u & s1 & Hu & Hok). injection Hu as <- <-.
  apply bind_ok_inv in Hok as ([] & s2 & Hown & Hok). 
  unfold or_return, require_owner in Hown. apply map_err_ok_inv, bind_ok_inv in Hown as (i & s3 & Hi & Hown).
  injection Hown as ->. apply owner_identity_ok in Hi as (-> & _ & Howns). split; [exact Howns|].
  apply bind_ok_inv in Hok as ([[id bytes] b64] & s4 & Hgen & Hok).
  apply bind_ok_inv in Hok as ([] & s5 & Hcreate & Hok). injection Hok as _ <-.
  unfold or_return in Hcreate. apply map_err_ok_inv, on_auth_ok in Hcreate as (au & Hcreate & ->).
  unfold create_webauthn_challenge in Hcreate. auth_inv. case_match; [|discriminate]. auth_inv.
  case_match; [discriminate|].
  match goal with He : execute _ _ = (Ok _, _) |- _ => injection He as <- end. eexists id, _. split; [apply lookup_insert_eq | done].
Qed.

(** A device session is issued to the owner of the account only, and never to
    a revoked device. *)
Lemma device_authorize_sound headers body st resp st' :
  run_handler (device_authorize_handler headers body) st = (resp, st') ->
  is_success_status (rs_status resp) = true ->
  exists v req session, json_from_slice body = Ok v /\ device_auth_from_value v = Ok req
    /\ rs_body resp = BSession session
    /\ owns headers (da_account_id req) (st_auth st)
    /\ ~ is_revoked_device (st_auth st) (da_account_id req) (da_device_id req).
Proof.
  intros Hrun Hs.
  assert (refuses (device_authorize_handler headers body)) as Href.
  { unfold device_authorize_handler, inherit_from. repeat refuse_step. }
  pose proof (run_handler_success _ _ _ _ Href Hrun Hs) as Hok. clear Hrun Hs Href.
  unfold device_authorize_handler, scanned_body, or_return in Hok. inv_run.
  repeat match goal with Hr : return_if _ _ _ = (Ok _, _) |- _ => apply return_if_ok in Hr as [? ?]; subst end.
  match goal with Ho : owner_identity _ _ _ = _ |- _ => apply owner_identity_ok in Ho as (-> & _ & Howns) end.
  match goal with Hd : on_auth (is_device_revoked _ _) _ = _ |- _ => apply on_auth_ok in Hd as (au & Hd & ->) end.
  unfold is_device_revoked in *. auth_inv.
  eexists _, _, _. split; [done|]. split; [done|]. split; [reflexivity|]. split; [done|].
  unfold is_revoked_device. intros Hrev.
  match goal with Hd : default false _ = false |- _ => by rewrite Hrev in Hd end.
Qed.
End login.

(** ** Blobs over HTTP

    What the blob endpoints store is what they return, for the account that
    stored it, until it is deleted; and how the size limits of the endpoint
    and of the framework meet. *)

Section blobs.
Context `{ServerLib} `{AuthLib} `{WebAuthnLib} `{RouteLib}.

Lemma put_blob_ok a id data quota max db size db' :
  put_blob a id data quota max db = (Ok size, db') ->
  db_blobs db' !! (a, id) = Some (mkBlobRow (as_i64 (N.of_nat (String.length data))) data)
  /\ size = N.of_nat (String.length data).
Proof.
  unfold put_blob. destruct (Nat.ltb _ _); [discriminate|]. intros Hrun. inv_run.
  unfold Sql.stmt in *. destruct (N.ltb _ _); simplify_eq. cbn. by rewrite lookup_insert_eq.
Qed.

Lemma blobs_put_db db st : db_blobs (get_db (put_db db st)) = db_blobs db.
Proof. by rewrite get_put_db. Qed.

Lemma on_db_ok {A} (m : M Db DbError A) st a st' :
  on_db m st = (Ok a, st') -> exists db', m (get_db st) = (Ok a, db') /\ st' = put_db db' st.
Proof. unfold on_db, zoom. destruct (m (get_db st)) as [r db']. intros [= -> <-]. by exists db'. Qed.

Lemma put_refuses id ident h body : refuses (put_blob_handler id ident h body).
Proof. unfold put_blob_handler, config. repeat refuse_step. Qed.
Lemma delete_refuses id ident : refuses (delete_blob_handler id ident).
Proof. unfold delete_blob_handler. repeat refuse_step. Qed.

(** The blob an account sees. *)
Definition blob_of (st : AppState) (a id : string) : option string :=
  br_data <$> db_blobs (get_db st) !! (a, id).

Lemma get_blob_answer id ident st :
  is_valid_blob_id id = true ->
  exists st', run_handler (get_blob_handler id ident) st
    = (match blob_of st (aa_account_id ident) id with
       | Some data => mkResponse 200 [("content-type", Some "application/octet-stream");
                                      ("content-length", Some (show_nat (String.length data)))] (BBytes data)
       | None => blob_not_found
       end, st') /\ same_tables st st'.
Proof.
  intros Hid. exists (put_db (get_db st) st). unfold run_handler, get_blob_handler, blob_of. rewrite Hid.
  split; [|apply put_get_db]. unfold return_if, or_return, on_db, zoom, map_err, get_blob, Sql.select, mbind, M_bind.
  cbn. by destruct (db_blobs _ !! _).
Qed.

(** Blobs round trip over HTTP: an upload that the server accepts had a
    well-formed identifier, no header naming a file, a type or a note, and at
    most the configured size; a download by the same account then answers with
    exactly the uploaded octets and their length; and a delete then succeeds,
    after which the download is answered 404. *)
Lemma blob_http_roundtrip id ident headers body st resp st1 :
  run_handler (put_blob_handler id ident headers body) st = (resp, st1) ->
  is_success_status (rs_status resp) = true ->
  is_valid_blob_id id = true /\ contains_forbidden_plaintext_headers headers = false
  /\ (N.of_nat (String.length body) <= cfg_max_blob_size (st_config st))%N
  /\ rs_body resp = BBlobStored id (N.of_nat (String.length body))
  /\ (exists st2, run_handler (get_blob_handler id ident) st1
        = (mkResponse 200 [("content-type", Some "application/octet-stream");
                           ("content-length", Some (show_nat (String.length body)))] (BBytes body), st2))
  /\ (forall resp2 st2, run_handler (delete_blob_handler id ident) st1 = (resp2, st2) ->
        is_success_status (rs_status resp2) = true
        /\ exists st3, run_handler (get_blob_handler id ident) st2 = (blob_not_found, st3)).
Proof.
  intros Hrun Hs. pose proof (run_handler_success _ _ _ _ (put_refuses id ident headers body) Hrun Hs) as Hok.
  unfold put_blob_handler, or_return, config in Hok. inv_run.
  repeat match goal with Hr : return_if _ _ _ = (Ok _, _) |- _ => apply return_if_ok in Hr as [? ?]; subst end.
  match goal with Hc : (Ok _, _) = (Ok _, _) |- _ => injection Hc as <- <- end.
  match goal with Hp : on_db (put_blob _ _ _ _ _) _ = _ |- _ =>
    apply on_db_ok in Hp as (db' & (Hrow & ->)%put_blob_ok & ->) end.
  repeat match goal with
  | Hb : negb _ = false |- _ => apply negb_false_iff in Hb
  | Hb : (_ <? _)%N = false |- _ => apply N.ltb_ge in Hb end.
  split; [done|]. split; [done|]. split; [done|]. split; [done|].
  assert (blob_of (put_db db' st) (aa_account_id ident) id = Some body) as Hblob
    by (unfold blob_of; rewrite blobs_put_db, Hrow; done).
  split.
  - edestruct get_blob_answer as (st2 & Hget & _); [done|]. exists st2. rewrite Hget. by rewrite Hblob.
  - intros resp2 st2 Hdel. unfold run_handler, delete_blob_handler in Hdel.
    match goal with Hv : is_valid_blob_id id = true |- _ => rewrite Hv in Hdel end.
    unfold return_if, or_return, on_db, zoom, map_err, delete_blob, mbind, M_bind in Hdel. cbn in Hdel.
    rewrite bool_decide_eq_true_2 in Hdel by (rewrite Hrow; done).
    injection Hdel as <- <-. split; [done|].
    edestruct get_blob_answer as (st3 & Hget & _); [done|]. exists st3. rewrite Hget.
    unfold blob_of. rewrite blobs_put_db. cbn. by rewrite lookup_delete_eq.
Qed.

(** ** Limits *)

(** The documented behaviour of axum's [Bytes] extractor under its default
    limit. *)
Definition bytes_limited : Prop :=
  forall req, (body_limit < N.of_nat (String.length (rq_body req)))%N ->
  exists r, bytes_of_request req = Err r /\ rs_status r = 413%N.

(** An upload beyond the framework's limit is refused before the handler runs,
    whatever maximum blob size is configured; the default maximum lies far
    beyond that limit. *)
Lemma large_blob_refused ident seg req st :
  bytes_limited -> (body_limit < N.of_nat (String.length (rq_body req)))%N ->
  is_ok (percent_decode seg) = true ->
  (exists r, run_handler (dispatch E_put_blob seg (Some ident) req) st = (r, st) /\ rs_status r = 413%N)
  /\ (body_limit < cfg_max_blob_size ServerConfig_default)%N.
Proof.
  intros Hlim Hlen Hseg. split; [|done]. destruct (Hlim req Hlen) as (r & Hr & Hst). exists r. split; [|done].
  unfold run_handler. cbn [dispatch]. unfold extract, lift_result, mbind, M_bind, authenticated.
  destruct (percent_decode seg) as [id|]; [|done]. cbn. by rewrite Hr.
Qed.
End blobs.
