(* ===== verification/ServerStart.v ===== *)
(** * Starting the server ([apps/server/src/config.rs], [db/migrations.rs], [db/schema.rs],
      [main.rs])

    The configuration from environment variables, the schema migrations and their
    verification when a database is opened, and the operator's commands that
    provision accounts.  Binding the socket and the signals are not modelled. *)

From stdpp Require Import options.
From S2P Require Import Prelude StorageModels SqliteMigrations ServerDb Text ServerAuth Json Routes.

(** ** Migrations *)

Record Migration : Type := mkMigration {
  mg_version : Z;
  mg_name : string;
  mg_sql : list ddl
}.

Definition SCHEMA_MIGRATIONS : ddl := CreateTable "schema_migrations" ["version"; "name"; "applied_at"].

Definition MIGRATION_002_SQL : list ddl :=
  [SCHEMA_MIGRATIONS;
   CreateTable "accounts" ["id"; "created_at"; "status"];
   CreateTable "vaults"
     ["account_id"; "crypto_version"; "kdf_algorithm"; "kdf_params"; "kdf_salt"; "wrapped_vault_key";
      "recovery_wrapped_vault_key"; "created_at"; "updated_at"];
   CreateTable "encrypted_objects"
     ["account_id"; "object_id"; "object_kind"; "revision"; "server_seq"; "envelope_version"; "wrapped_key"; "payload";
      "is_deleted"; "created_at"; "updated_at"];
   NamedIndex true "encrypted_objects_account_seq_idx" "encrypted_objects" ["account_id"; "server_seq"];
   CreateTable "object_history"
     ["account_id"; "object_id"; "revision"; "server_seq"; "envelope_version"; "wrapped_key"; "payload"; "is_deleted"; "created_at"];
   NamedIndex true "idx_object_history_account_seq" "object_history" ["account_id"; "server_seq"];
   CreateTable "processed_mutations"
     ["account_id"; "mutation_id"; "object_id"; "resulting_revision"; "resulting_server_seq"; "response_body"; "created_at"];
   NamedIndex true "idx_processed_mutations_account_object" "processed_mutations" ["account_id"; "object_id"];
   CreateTable "devices"
     ["account_id"; "device_id"; "display_name"; "created_at"; "last_seen"; "last_ack_server_seq"; "revoked_at"];
   NamedIndex true "idx_devices_account_last_ack" "devices" ["account_id"; "last_ack_server_seq"];
   RecordServerVersion 2].
Definition MIGRATION_003_SQL : list ddl :=
  [CreateTable "account_sequences" ["account_id"; "current_seq"; "updated_at"];
   SeedRows "account_sequences" "encrypted_objects"; RecordServerVersion 3].
Definition MIGRATION_004_SQL : list ddl := [AddColumn "processed_mutations" "request_hash"; RecordServerVersion 4].
Definition MIGRATION_007_SQL : list ddl :=
  [CreateTable "sessions"
     ["session_id"; "account_id"; "device_id"; "token_hash"; "display_name"; "created_at"; "expires_at"; "revoked_at"];
   NamedIndex true "idx_sessions_account_id" "sessions" ["account_id"];
   NamedIndex true "idx_sessions_device_id" "sessions" ["account_id"; "device_id"];
   RecordServerVersion 7].
Definition MIGRATION_008_SQL : list ddl :=
  [CreateTable "webauthn_credentials"
     ["credential_id"; "account_id"; "public_key"; "sign_count"; "device_id"; "display_name"; "created_at"; "last_used_at"];
   NamedIndex true "idx_webauthn_account_id" "webauthn_credentials" ["account_id"];
   CreateTable "webauthn_challenges" ["challenge_id"; "challenge"; "account_id"; "purpose"; "created_at"; "expires_at"];
   NamedIndex true "idx_webauthn_challenges_expires" "webauthn_challenges" ["expires_at"];
   RecordServerVersion 8].
Definition MIGRATION_009_SQL : list ddl :=
  [CreateTable "blobs" ["account_id"; "blob_id"; "size"; "data"; "created_at"; "updated_at"];
   NamedIndex true "idx_blobs_account_id" "blobs" ["account_id"]].
Definition MIGRATION_010_SQL : list ddl :=
  [NewTable "ssh_credentials"
     ["credential_id"; "account_id"; "fingerprint"; "public_key"; "label"; "device_id"; "created_at"; "revoked_at"];
   NamedIndex false "ssh_credentials_owner" "ssh_credentials" ["account_id"];
   NewTable "ssh_challenges" ["challenge_id"; "purpose"; "credential_id"; "challenge_json"; "expires_at"];
   NamedIndex false "ssh_challenges_expiry" "ssh_challenges" ["expires_at"];
   AddColumn "sessions" "ssh_credential_id";
   NamedIndex false "sessions_ssh_credential" "sessions" ["ssh_credential_id"]].

Definition SERVER_MIGRATIONS : list Migration :=
  [mkMigration 2 "002_initial_server_schema" MIGRATION_002_SQL;
   mkMigration 3 "003_account_sequences" MIGRATION_003_SQL;
   mkMigration 4 "004_mutation_idempotency" MIGRATION_004_SQL;
   mkMigration 7 "007_server_sessions" MIGRATION_007_SQL;
   mkMigration 8 "008_webauthn_credentials" MIGRATION_008_SQL;
   mkMigration 9 "009_ciphertext_blobs" MIGRATION_009_SQL;
   mkMigration 10 "010_ssh_auth" MIGRATION_010_SQL].

Abbreviation Mig A := (M Schema DbError A).

(** [From<rusqlite::Error>] *)
Definition sql {A} (m : M Schema string A) : Mig A := map_err DbE_Sqlite m.

(** [SELECT version FROM schema_migrations ORDER BY version ASC] *)
Definition select_versions : M Schema string (list Z) :=
  fun s => match sc_tables s !! "schema_migrations" with
           | Some _ => (Ok (merge_sort Z.le (sc_versions s)), s)
           | None => (Err "no such table: schema_migrations", s)
           end.

Definition apply_migration (m : Migration) : Mig unit :=
  _ ← sql Migrations.call;
  Migrations.in_transaction (
    _ ← sql (Migrations.execute_batch (mg_sql m));
    _ ← sql (Migrations.execute (RecordServerVersion (mg_version m)));
    sql Migrations.call).

Fixpoint apply_pending (applied_versions : list Z) (migrations : list Migration) (newly_applied : list Z) : Mig (list Z) :=
  match migrations with
  | [] => mret newly_applied
  | m :: rest =>
      if bool_decide (mg_version m ∈ applied_versions) then apply_pending applied_versions rest newly_applied
      else
        _ ← apply_migration m;
        apply_pending applied_versions rest (newly_applied ++ [mg_version m])
  end.

Definition run_server_migrations : Mig (list Z) :=
  _ ← sql (Migrations.execute_batch [SCHEMA_MIGRATIONS]);
  applied_versions ← sql (_ ← Migrations.call; select_versions);
  apply_pending applied_versions SERVER_MIGRATIONS [].

(** ** Verification *)

Definition ALL_TABLES : list string :=
  ["schema_migrations"; "accounts"; "vaults"; "encrypted_objects"; "object_history"; "processed_mutations"; "devices";
   "account_sequences"; "sessions"; "webauthn_credentials"; "webauthn_challenges"; "blobs"; "ssh_credentials"; "ssh_challenges"].
Definition ALL_INDEXES : list string :=
  ["encrypted_objects_account_seq_idx"; "idx_object_history_account_seq"; "idx_processed_mutations_account_object";
   "idx_devices_account_last_ack"; "idx_sessions_account_id"; "idx_sessions_device_id"; "idx_webauthn_account_id";
   "idx_webauthn_challenges_expires"; "idx_blobs_account_id"; "ssh_credentials_owner"; "ssh_challenges_expiry";
   "sessions_ssh_credential"].

(** [SELECT count( * ) FROM sqlite_master WHERE type = .. AND name = ?1], and its check. *)
Definition counted (present : Schema -> bool) : Mig bool := fun s => (Ok (present s), s).
Definition require (what name : string) (present : Schema -> bool) : Mig unit :=
  _ ← sql Migrations.call;
  found ← counted present;
  if (found : bool) then mret tt
  else throw (DbE_SchemaVerificationFailed ("required " +:+ what +:+ " '" +:+ name +:+ "' is missing from database")).
Definition has_table (name : string) (s : Schema) : bool := bool_decide (is_Some (sc_tables s !! name)).
Definition has_index (name : string) (s : Schema) : bool := bool_decide (name ∈ sc_indexes s).

Definition verify_database_schema : Mig unit :=
  _ ← for_each (fun t => require "table" t (has_table t)) ALL_TABLES;
  for_each (fun i => require "index" i (has_index i)) ALL_INDEXES.

(** [ServerDb::open_file]: the connection, the pragma, the migrations, the check. *)
Definition open_file : Mig unit :=
  _ ← sql Migrations.call;
  _ ← sql Migrations.call;
  _ ← run_server_migrations;
  verify_database_schema.

(** [create_in_memory_db]: the same on a database of its own. *)
Definition create_in_memory_db : Mig Schema :=
  fun s => match open_file (with_faults (sc_faults s) Schema_new) with
           | (Ok _, db) => (Ok db, with_faults (sc_faults db) s)
           | (Err e, db) => (Err e, with_faults (sc_faults db) s)
           end.

(** ** Interrupted migrations *)

(** The schema before anything, and after the table of versions and the first [k]
    migrations. *)
Definition server_stage (k : nat) : Schema :=
  match k with
  | 0 => Schema_new
  | S k => fold_left (fun s m => after (mg_sql m ++ [RecordServerVersion (mg_version m)]) s) (take k SERVER_MIGRATIONS)
             (after [SCHEMA_MIGRATIONS] Schema_new)
  end.
Definition server_complete : Schema := server_stage 8.

Lemma stage_faults k l : sc_faults (with_faults l (server_stage k)) = l.
Proof. done. Qed.

(** What each migration finds and leaves, by evaluation. *)
Lemma stage_step p m : SERVER_MIGRATIONS !! p = Some m ->
  exists mid, Migrations.execute_batch (mg_sql m) (with_faults [] (server_stage (S p))) = (Ok tt, mid)
    /\ Migrations.effect (RecordServerVersion (mg_version m)) mid = (Ok tt, server_stage (S (S p))).
Proof.
  intros Hm. exists (Migrations.execute_batch (mg_sql m) (with_faults [] (server_stage (S p)))).2.
  do 7 (destruct p as [|p]; [injection Hm as <-; split; decide_it|]). discriminate Hm.
Qed.
Lemma stage_applied i p m : i <= 7 -> SERVER_MIGRATIONS !! p = Some m ->
  bool_decide (mg_version m ∈ merge_sort Z.le (sc_versions (server_stage (S i)))) = (p <? i)%nat.
Proof.
  intros Hi Hm.
  assert (p < 7) as Hp by (by apply lookup_lt_Some in Hm).
  do 8 (destruct i as [|i]; [do 7 (destruct p as [|p]; [injection Hm as <-; vm_compute; reflexivity|]); lia|]). lia.
Qed.
Lemma stage_first k : k <= 8 ->
  Migrations.effect SCHEMA_MIGRATIONS (server_stage k) = (Ok tt, server_stage (Nat.max 1 k)).
Proof. intros Hk. do 9 (destruct k as [|k]; [decide_it|]). lia. Qed.
Lemma stage_select k : 1 <= k <= 8 ->
  select_versions (server_stage k) = (Ok (merge_sort Z.le (sc_versions (server_stage k))), server_stage k).
Proof. intros Hk. destruct k as [|k]; [lia|]. do 8 (destruct k as [|k]; [decide_it|]). lia. Qed.

(** A run leaves a stage that is not before [k], and stops early only for a fault. *)
Definition reaches {A} (k : nat) (l : list (option string)) (r : Result A DbError) (s' : Schema) : Prop :=
  match r with
  | Ok _ => exists l', (l = [] -> l' = []) /\ s' = with_faults l' server_complete
  | Err _ => l <> [] /\ exists k' l', k <= k' <= 8 /\ s' = with_faults l' (server_stage k')
  end.

Lemma reaches_err {A} k l e k' l' : l <> [] -> k <= k' <= 8 -> reaches (A := A) k l (Err e) (with_faults l' (server_stage k')).
Proof. intros Hl Hk. split; [done|]. by exists k', l'. Qed.

Lemma wp_sql_call (Q : Result unit DbError -> Schema -> Prop) s l :
  (forall l', (l = [] -> l' = []) -> Q (Ok tt) (with_faults l' s)) ->
  (forall e l', l <> [] -> Q (Err e) (with_faults l' s)) ->
  wp (sql Migrations.call) Q (with_faults l s).
Proof. intros HQ HE. apply wp_map_err, wp_call; cbn; [apply HQ|intros e l'; apply HE]. Qed.

Lemma wp_statement d s s1 l (Q : Result unit string -> Schema -> Prop) :
  Migrations.effect d s = (Ok tt, s1) ->
  (forall l', (l = [] -> l' = []) -> Q (Ok tt) (with_faults l' s1)) ->
  (forall e l', l <> [] -> Q (Err e) (with_faults l' s)) ->
  wp (Migrations.execute d) Q (with_faults l s).
Proof.
  intros Hd HQ HE. apply wp_bind, wp_call; cbn; [|intros e l' Hl; by apply HE].
  intros l' Hl'. change (with_faults l' (with_faults l s)) with (with_faults l' s).
  unfold wp. rewrite effect_faults, Hd. by apply HQ.
Qed.

Lemma wp_apply_migration p m l Q :
  SERVER_MIGRATIONS !! p = Some m ->
  (forall l', (l = [] -> l' = []) -> Q (Ok tt) (with_faults l' (server_stage (S (S p))))) ->
  (forall e l', l <> [] -> Q (Err e) (with_faults l' (server_stage (S p)))) ->
  wp (apply_migration m) Q (with_faults l (server_stage (S p))).
Proof.
  intros Hm HQ HE. destruct (stage_step p m Hm) as (mid & Hbatch & Hrec).
  apply wp_bind, wp_sql_call; [|intros e l' Hl; by apply HE]. intros l1 Hl1.
  apply wp_in_transaction, wp_bind, wp_map_err. apply (wp_batch _ _ mid); [done| |].
  - intros l2 Hl2. apply wp_bind, wp_map_err, (wp_statement _ _ _ _ _ Hrec).
    + intros l3 Hl3. apply wp_sql_call; [intros l4 Hl4; apply HQ; auto 10|intros e l4 Hl4; apply HE; auto 10].
    + intros e l3 Hl3. apply HE. auto 10.
  - intros e s' Hl2. apply HE. auto.
Qed.

Lemma wp_apply_pending i p l newly : i <= 7 -> p <= 7 ->
  wp (apply_pending (merge_sort Z.le (sc_versions (server_stage (S i)))) (drop p SERVER_MIGRATIONS) newly)
     (fun r s' => reaches (S i) l r s' /\ (l = [] -> r = Ok (newly ++ (mg_version <$> drop (Nat.max i p) SERVER_MIGRATIONS))))
     (with_faults l (server_stage (S (Nat.max i p)))).
Proof.
  intros Hi Hp. remember (7 - p) as n eqn:Hn. revert p l newly Hp Hn. induction n as [|n IH]; intros p l newly Hp Hn.
  - assert (p = 7) as -> by lia. rewrite (Nat.max_r i 7) by lia. cbn [drop apply_pending SERVER_MIGRATIONS].
    apply wp_ret. split; [by exists l|]. intros _. cbn. by rewrite app_nil_r.
  - destruct (SERVER_MIGRATIONS !! p) as [m|] eqn:Hm; [|apply lookup_ge_None in Hm; cbn in Hm; lia].
    rewrite (drop_S _ _ _ Hm). cbn [apply_pending]. rewrite (stage_applied i p m Hi Hm).
    destruct (Nat.ltb_spec p i) as [Hlt|Hge].
    + replace (Nat.max i p) with (Nat.max i (S p)) by lia. apply IH; lia.
    + rewrite (Nat.max_r i p) by lia. apply wp_bind, (wp_apply_migration p m); [done| |].
      * intros l1 Hl1. replace (S (S p)) with (S (Nat.max i (S p))) by lia.
        eapply wp_mono; [apply IH; lia|]. intros r s' [Hr Hval]. split.
        -- destruct r as [a|e]; cbn in Hr |- *; [destruct Hr as (l' & ? & ->); eauto|]. destruct Hr as [Hne Hr]. auto.
        -- intros Hl. rewrite (Hval (Hl1 Hl)), (Nat.max_r i (S p)), (drop_S _ _ _ Hm) by lia.
           by rewrite <- app_assoc.
      * intros e l' Hl. split; [apply reaches_err; [done|lia]|]. by intros ->.
Qed.

(** A run of the migrations, from any stage. *)
Lemma wp_run_server k l : k <= 8 ->
  wp run_server_migrations
     (fun r s' => reaches k l r s' /\ (l = [] -> r = Ok (mg_version <$> drop (k - 1) SERVER_MIGRATIONS)))
     (with_faults l (server_stage k)).
Proof.
  intros Hk. apply wp_bind, wp_map_err, wp_bind, (wp_statement _ _ _ _ _ (stage_first k Hk)).
  2: { intros e l' Hl. split; [by apply reaches_err|by intros ->]. }
  intros l1 Hl1. apply wp_ret. apply wp_bind, wp_map_err, wp_bind, wp_call; cbn beta iota.
  2: { intros e l' Hl. split; [apply reaches_err; [auto|lia]|]. intros ->. by rewrite Hl1 in Hl. }
  intros l2 Hl2. change (with_faults l2 (with_faults l1 ?s)) with (with_faults l2 s).
  assert (select_versions (with_faults l2 (server_stage (Nat.max 1 k)))
    = (Ok (merge_sort Z.le (sc_versions (server_stage (Nat.max 1 k)))), with_faults l2 (server_stage (Nat.max 1 k)))) as Hsel.
  { pose proof (stage_select (Nat.max 1 k) ltac:(lia)) as Hs. unfold select_versions in *. cbn [sc_tables with_faults].
    destruct (sc_tables (server_stage (Nat.max 1 k)) !! _); [done|discriminate Hs]. }
  unfold wp at 1. rewrite Hsel. cbn [fst snd result_map_err].
  replace (Nat.max 1 k) with (S (k - 1)) by lia. replace (S (k - 1)) with (S (Nat.max (k - 1) 0)) at 2 by lia.
  eapply wp_mono; [apply (wp_apply_pending (k - 1) 0); lia|]. intros r s' [Hr Hval]. cbn in Hl2. split.
  - destruct r as [a|e]; cbn in Hr |- *; [destruct Hr as (l' & ? & ->); eauto 10|].
    destruct Hr as (Hne & k' & l' & Hk' & ->). split; [auto|]. exists k', l'. split; [lia|done].
  - intros Hl. rewrite (Hval (Hl2 (Hl1 Hl))). by rewrite Nat.max_0_r.
Qed.

(** Checking the complete schema changes nothing, and fails only for a fault. *)
Lemma wp_requires what (names : list string) (present : string -> Schema -> bool) (Q : Result unit DbError -> Schema -> Prop) s l :
  (forall n l, present n (with_faults l s) = present n s) -> forallb (fun n => present n s) names = true ->
  (forall l', (l = [] -> l' = []) -> Q (Ok tt) (with_faults l' s)) ->
  (forall e l', l <> [] -> Q (Err e) (with_faults l' s)) ->
  wp (for_each (fun n => require what n (present n)) names) Q (with_faults l s).
Proof.
  intros Hf. revert l. induction names as [|n names IH]; intros l Hall HQ HE; [by apply wp_ret, HQ|].
  cbn in Hall. apply andb_true_iff in Hall as [Hn Hall]. cbn [for_each]. apply wp_bind. unfold require.
  apply wp_bind, wp_sql_call; [|intros e l' Hl; by apply HE]. intros l1 Hl1. unfold wp at 1, counted, mbind, M_bind. rewrite Hf, Hn.
  apply IH; [done|intros l2 Hl2; apply HQ; auto|intros e l2 Hl2; apply HE; auto].
Qed.

Lemma wp_verify l :
  wp verify_database_schema (reaches 8 l) (with_faults l server_complete).
Proof.
  apply wp_bind, (wp_requires "table" _ has_table); [done|vm_compute; reflexivity| |].
  - intros l1 Hl1. apply (wp_requires "index" _ has_index); [done|vm_compute; reflexivity| |].
    + intros l2 Hl2. exists l2. auto.
    + intros e l2 Hl2. apply (reaches_err _ _ _ 8); [auto|lia].
  - intros e l1 Hl1. by apply (reaches_err _ _ _ 8).
Qed.

Lemma reaches_mono {A B} k k' l l1 (r : Result A DbError) (r' : Result B DbError) s :
  k <= k' -> (l = [] -> l1 = []) -> is_ok r = is_ok r' -> reaches k' l1 r s -> reaches k l r' s.
Proof.
  intros Hk Hl. destruct r as [a|e], r' as [b|e']; intros Heq; try discriminate Heq; cbn.
  - intros (l' & Hl' & ->). eauto.
  - intros (Hne & j & l' & Hj & ->). split; [auto|]. exists j, l'. split; [lia|done].
Qed.

Lemma wp_open_file k l : k <= 8 -> wp open_file (reaches k l) (with_faults l (server_stage k)).
Proof.
  intros Hk. unfold open_file. do 2 (apply wp_bind, wp_sql_call; [|intros ? ? ?; apply reaches_err; [auto|lia]]; intros ? ?).
  apply wp_bind. eapply wp_mono; [by apply wp_run_server|]. intros [v|e] s' [Hr _].
  - destruct Hr as (l3 & Hl3 & ->). eapply wp_mono; [apply wp_verify|]. intros r s'. apply reaches_mono; [lia|auto|done].
  - revert Hr. apply reaches_mono; [done|auto|done].
Qed.

(** Opening the database again and again, with what fails each time. *)
Definition openings (s : Schema) (runs : list (list (option string))) : Schema :=
  fold_left (fun s faults => (open_file (with_faults faults s)).2) runs s.

Lemma openings_stage runs : forall k l, k <= 8 ->
  exists k' l', k <= k' <= 8 /\ openings (with_faults l (server_stage k)) runs = with_faults l' (server_stage k').
Proof.
  induction runs as [|faults runs IH]; intros k l Hk; [by exists k, l|]. unfold openings in *. cbn [fold_left].
  change (with_faults faults (with_faults l (server_stage k))) with (with_faults faults (server_stage k)).
  pose proof (wp_open_file k faults Hk) as Hrun. unfold wp in Hrun. destruct (open_file _) as [[[]|e] s']; cbn [fst snd reaches] in Hrun |- *.
  - destruct Hrun as (l' & _ & ->). change server_complete with (server_stage 8). destruct (IH 8 l') as (k2 & l2 & Hk2 & ->); [lia|]. exists k2, l2. split; [lia|done].
  - destruct Hrun as (_ & k1 & l' & Hk1 & ->). destruct (IH k1 l') as (k2 & l2 & Hk2 & ->); [lia|]. exists k2, l2. split; [lia|done].
Qed.

(** The server's database survives interrupted migrations.  However often opening
    a new database failed, and at whatever statement, the next opening without a
    fault applies exactly the migrations that are missing, in order, passes the
    verification of every table and index, and leaves the complete schema.
    Opening a complete database changes nothing, whatever fails. *)
Lemma server_schema_resumes runs :
  let s := openings Schema_new runs in
  open_file (with_faults [] s) = (Ok tt, server_complete)
  /\ (exists k, (run_server_migrations (with_faults [] s)).1 = Ok (mg_version <$> drop k SERVER_MIGRATIONS))
  /\ forall faults, with_faults [] (open_file (with_faults faults server_complete)).2 = server_complete.
Proof.
  destruct (openings_stage runs 0 []) as (k & l & Hk & Heq); [lia|].
  change (openings (with_faults [] (server_stage 0)) runs) with (openings Schema_new runs) in Heq. cbv zeta. rewrite Heq.
  change (with_faults [] (with_faults l (server_stage k))) with (with_faults [] (server_stage k)). split_and!.
  - pose proof (wp_open_file k [] ltac:(lia)) as Hrun. unfold wp in Hrun.
    destruct (open_file _) as [[[]|e] s']; cbn [fst snd reaches] in Hrun; [|by destruct Hrun as [? _]].
    destruct Hrun as (l' & Hl' & ->). by rewrite Hl'.
  - exists (k - 1). by apply (proj2 (wp_run_server k [] ltac:(lia))).
  - intros faults. destruct (openings_stage [faults] 8 []) as (k' & l' & Hk' & H8); [lia|].
    assert (k' = 8) as -> by lia. unfold openings in H8. cbn [fold_left] in H8.
    change (with_faults faults (with_faults [] (server_stage 8))) with (with_faults faults server_complete) in H8. by rewrite H8.
Qed.

(** ** Configuration *)

Inductive ConfigError : Type :=
| InvalidPort (msg : string)
| InvalidHost (msg : string)
| InvalidSocketAddr (msg : string)
| InvalidLogFormat (msg : string).

Definition ConfigError_display (e : ConfigError) : string :=
  match e with
  | InvalidPort msg => "invalid port configuration: " +:+ msg
  | InvalidHost msg => "invalid host configuration: " +:+ msg
  | InvalidSocketAddr msg => "invalid socket address: " +:+ msg
  | InvalidLogFormat msg => "invalid log format: " +:+ msg
  end.

Definition LogFormat_from_str (s : string) : Result LogFormat ConfigError :=
  let other := to_ascii_lowercase (str_trim s) in
  if bool_decide (other = "json") then Ok LF_Json
  else if bool_decide (other = "text") || bool_decide (other = "pretty") || bool_decide (other = "compact") then Ok LF_Text
  else Err (InvalidLogFormat ("unsupported log format '" +:+ other +:+ "', expected 'json' or 'text'")).

(** What the code reads of a parsed [url::Url]; an IPv6 address is its number. *)
Inductive UrlHost : Type :=
| HostDomain (name : string)
| HostIpv4 (a b c d : N)
| HostIpv6 (address : N).
Record ServerUrl : Type := mkServerUrl {
  su_scheme : string;
  su_host : option UrlHost;
  su_username : string;
  su_password : option string;
  su_path : string;
  su_query : option string;
  su_fragment : option string;
  su_origin : string
}.

(** The crate [url], and the parser of [std::net::SocketAddr]. *)
Class StartLib : Type := {
  server_url_parse : string -> option ServerUrl;
  socket_addr_parse : string -> Result string string
}.

Section config.
Context `{StartLib}.

Definition host_loopback (h : option UrlHost) : bool :=
  match h with
  | Some (HostDomain name) => bool_decide (name = "localhost")
  | Some (HostIpv4 a _ _ _) => (a =? 127)%N
  | Some (HostIpv6 n) => (n =? 1)%N
  | None => false
  end.

Definition validate_ssh_origin (c : ServerConfig) : Result unit ConfigError :=
  match server_url_parse (cfg_ssh_auth_origin c) with
  | None => Err (InvalidHost "Invalid SSH authentication origin")
  | Some url =>
      if (bool_decide (su_scheme url <> "https") && negb (bool_decide (su_scheme url = "http") && host_loopback (su_host url)))
         || bool_decide (su_host url = None) || bool_decide (su_username url <> "") || bool_decide (is_Some (su_password url))
         || bool_decide (su_path url <> "/") || bool_decide (is_Some (su_query url)) || bool_decide (is_Some (su_fragment url))
         || bool_decide (su_origin url <> cfg_ssh_auth_origin c)
      then Err (InvalidHost "SSH authentication origin must be a canonical HTTPS origin (loopback HTTP allowed)")
      else Ok tt
  end.

Definition socket_addr (c : ServerConfig) : Result string ConfigError :=
  let addr_str := cfg_host c +:+ ":" +:+ show_N (cfg_port c) in
  result_map_err (fun e => InvalidSocketAddr ("invalid socket address '" +:+ addr_str +:+ "': " +:+ e)) (socket_addr_parse addr_str).

(** [lookup(a).or_else(|| lookup(b))] *)
Definition or_else (a b : option string) : option string := match a with Some v => Some v | None => b end.

(** [match .. { Some(raw) => raw.trim().parse()?, None => default }] *)
Definition number_or (max default : N) (error : string -> string -> ConfigError) (raw : option string) : Result N ConfigError :=
  match raw with
  | Some raw => result_map_err (error raw) (parse_uint max (str_trim raw))
  | None => Ok default
  end.

Definition from_lookup (lookup : string -> option string) : Result ServerConfig ConfigError :=
  let host := default "127.0.0.1" (or_else (lookup "ZK_SERVER_HOST") (lookup "HOST")) in
  if bool_decide (str_trim host = "") then Err (InvalidHost "host cannot be empty")
  else
    port ← number_or u16_max 8080 (fun raw e => InvalidPort ("failed to parse '" +:+ raw +:+ "' as port number: " +:+ e))
             (or_else (lookup "ZK_SERVER_PORT") (lookup "PORT"));
    _ ← (if (port =? 0)%N then Err (InvalidPort "port must be > 0") else Ok tt);
    let log_level := default "info" (or_else (lookup "ZK_SERVER_LOG_LEVEL") (lookup "RUST_LOG")) in
    log_format ← match or_else (lookup "ZK_SERVER_LOG_FORMAT") (lookup "LOG_FORMAT") with
                 | Some raw => LogFormat_from_str raw
                 | None => Ok LF_Json
                 end;
    max_blob_size ← number_or u64_max (100 * 1024 * 1024)
                      (fun raw e => InvalidHost ("failed to parse max_blob_size '" +:+ raw +:+ "': " +:+ e))
                      (or_else (lookup "ZK_SERVER_MAX_BLOB_SIZE") (lookup "MAX_BLOB_SIZE"));
    account_blob_quota ← number_or u64_max (1024 * 1024 * 1024)
                           (fun raw e => InvalidHost ("failed to parse account_blob_quota '" +:+ raw +:+ "': " +:+ e))
                           (or_else (lookup "ZK_SERVER_ACCOUNT_BLOB_QUOTA") (lookup "ACCOUNT_BLOB_QUOTA"));
    let db_path := s ← or_else (lookup "ZK_SERVER_DB_PATH") (or_else (lookup "DATABASE_PATH") (lookup "DATABASE_URL"));
                   if bool_decide (str_trim s = "") then None else Some (str_trim s) in
    let config := mkServerConfig (default "http://127.0.0.1:8080" (lookup "ZK_SSH_AUTH_ORIGIN"))
                    (default "localhost" (lookup "ZK_WEBAUTHN_RP_ID"))
                    (default "http://localhost:5173" (lookup "ZK_WEBAUTHN_ORIGIN"))
                    host port log_level log_format max_blob_size account_blob_quota db_path in
    _ ← validate_ssh_origin config;
    _ ← socket_addr config;
    Ok config.

(** [AppState::new]: the database of the state. *)
Definition opened_db : Mig Schema := fun s => (Ok s, s).
Definition AppState_new (config : ServerConfig) : Mig Schema :=
  _ ← lift_result (result_map_err (fun _ => DbE_SchemaVerificationFailed "Invalid SSH authentication origin")
                     (validate_ssh_origin config));
  match cfg_db_path config with
  | Some _ => _ ← open_file; opened_db
  | None => create_in_memory_db
  end.

Lemma number_or_le max d error raw n : (d <= max)%N -> number_or max d error raw = Ok n -> (n <= max)%N.
Proof using Type.
  intros Hd. destruct raw as [raw|]; cbn; [|by intros [= <-]].
  destruct (parse_uint max (str_trim raw)) eqn:Hp; [|done]. intros [= <-]. by eapply parse_uint_le.
Qed.

Lemma valid_ssh_origin c : validate_ssh_origin c = Ok tt ->
  exists url, server_url_parse (cfg_ssh_auth_origin c) = Some url /\ su_origin url = cfg_ssh_auth_origin c
    /\ (su_scheme url = "https" \/ su_scheme url = "http" /\ host_loopback (su_host url) = true)
    /\ su_username url = "" /\ su_password url = None /\ su_query url = None /\ su_fragment url = None /\ su_path url = "/".
Proof using Type.
  unfold validate_ssh_origin. destruct (server_url_parse _) as [url|]; [|done].
  destruct (_ || _ : bool) eqn:Hb; [done|]. intros _. exists url. split; [done|].
  repeat (apply orb_false_iff in Hb as [Hb ?]).
  repeat match goal with H : bool_decide _ = false |- _ => apply bool_decide_eq_false in H end.
  apply andb_false_iff in Hb as [Hs%bool_decide_eq_false|[Hs%bool_decide_eq_true Hl]%negb_false_iff%andb_true_iff].
  all: split_and!; try (by apply dec_stable); try (by apply eq_None_not_Some).
  - left. by apply dec_stable.
  - by right.
Qed.

(** A configuration that was loaded can be served: the host is not blank, the port
    is a port, the address parses, and the audience of SSH logins is its own
    canonical origin, over HTTPS unless it is this machine. *)
Lemma loaded_config_sound lookup c :
  from_lookup lookup = Ok c ->
  str_trim (cfg_host c) <> "" /\ (1 <= cfg_port c <= u16_max)%N
  /\ (cfg_max_blob_size c <= u64_max)%N /\ (cfg_account_blob_quota c <= u64_max)%N
  /\ (exists addr, socket_addr_parse (cfg_host c +:+ ":" +:+ show_N (cfg_port c)) = Ok addr)
  /\ exists url, server_url_parse (cfg_ssh_auth_origin c) = Some url /\ su_origin url = cfg_ssh_auth_origin c
       /\ (su_scheme url = "https" \/ su_scheme url = "http" /\ host_loopback (su_host url) = true)
       /\ su_username url = "" /\ su_password url = None /\ su_query url = None /\ su_fragment url = None /\ su_path url = "/".
Proof using Type.
  unfold from_lookup. cbv zeta. case_bool_decide as Hhost; [done|].
  intros Hc. repeat (match type of Hc with context [mbind _ ?r] => let E := fresh "E" in destruct r eqn:E; [|done]; cbn [mbind Result_bind] in Hc end).
  injection Hc as <-. cbn [cfg_host cfg_port cfg_max_blob_size cfg_account_blob_quota cfg_ssh_auth_origin].
  split_and!; [done|..].
  - destruct (N.eqb_spec a 0); [done|]. lia.
  - by apply number_or_le in E.
  - apply number_or_le in E2; [done|unfold u64_max; lia].
  - apply number_or_le in E3; [done|unfold u64_max; lia].
  - unfold socket_addr in E5. cbn in E5. destruct (socket_addr_parse _); [eauto|done].
  - destruct a4. by apply valid_ssh_origin in E4.
Qed.

End config.

(** ** Provisioning *)

(** A file: its extension and its bytes, if it can be opened. *)
Record KeyFile : Type := mkKeyFile {
  kf_extension : option string;
  kf_contents : option string
}.
Inductive AccountCommand : Type :=
| AC_Create (ssh_key : KeyFile) (label : option string)
| AC_AddSshKey (account_id : string) (ssh_key : KeyFile) (label : option string).

Record Operator : Type := mkOperator {
  op_schema : Schema;
  op_auth : Auth
}.

Section provisioning.
Context `{ServerLib} `{AuthLib}.
Abbreviation Op A := (M Operator string A).

Definition on_schema {A} (m : Mig A) : Op A :=
  map_err DbError_display (zoom op_schema (fun s o => mkOperator s (op_auth o)) m).
Definition on_auth_db {A} (conv : DbError -> string) (m : Auth_op A) : Op A :=
  map_err conv (zoom op_auth (fun a o => mkOperator (op_schema o) a) m).

(** [zk_server_auth::ssh::read_public_key_file] *)
Definition read_public_key_file (f : KeyFile) : option string :=
  if bool_decide (kf_extension f <> Some "pub") then None
  else
    contents ← kf_contents f;
    let input := str_take 4097 contents in
    if negb (utf8_valid input) then None else key ← parse_public_key input; Some key.1.2.

Definition line_end : string := String "010" "".
Definition provisioning_error (e : DbError) : string :=
  match e with
  | DbE_SshAccountNotFound => "Unknown or inactive account"
  | DbE_SshCredentialAlreadyExists => "SSH public credential already registered"
  | _ => "Public-key provisioning failed (expected a unique ssh-ed25519 public key and safe label)"
  end.

(** The [account] subcommands of [main]; the result is what is printed. *)
Definition provision (config : ServerConfig) (command : AccountCommand) : Op string :=
  _ ← ok_or "Set ZK_SERVER_DB_PATH for persistent provisioning" (cfg_db_path config);
  _ ← on_schema open_file;
  target ← match command with
           | AC_Create ssh_key label => account ← on_auth_db DbError_display new_uuid_v4; mret (account, ssh_key, label, true)
           | AC_AddSshKey account_id ssh_key label => mret (account_id, ssh_key, label, false)
           end;
  let '(account, key_path, label, create) := target in
  public_key ← ok_or "Expected a valid ssh-ed25519 PUBLIC .pub file (at most 4096 bytes)" (read_public_key_file key_path);
  credential ← on_auth_db provisioning_error (add_ssh_key account public_key label create);
  mret ("Account: " +:+ account +:+ line_end +:+ "Credential: " +:+ sk_credential_id credential +:+ line_end
        +:+ "Fingerprint: " +:+ sk_fingerprint credential).

Lemma wp_in_tx {A} (m : Auth_op A) (Q : Result A DbError -> Auth -> Prop) s :
  wp m (fun r s' => match r with Ok a => Q (Ok a) s' | Err e => Q (Err e) (set_db (au_db s) s') end) s -> wp (in_tx m) Q s.
Proof using Type. unfold wp, in_tx. by destruct (m s) as [[a|e] s']. Qed.

(** Adding a key: one new row of an active account, or nothing. *)
Definition key_added (account : string) (create : bool) (r : Result SshCredential DbError) (db db' : AuthDb) : Prop :=
  match r with
  | Ok c => exists row, sc_account_id row = account /\ sc_fingerprint row = sk_fingerprint c /\ sc_revoked_at row = None
      /\ ad_ssh_credentials db !! sk_credential_id c = None
      /\ ad_ssh_credentials db' = <[sk_credential_id c := row]> (ad_ssh_credentials db)
      /\ ad_accounts db' !! account = Some "active"
      /\ ad_accounts db !! account = (if create then None else Some "active")
      /\ ad_sessions db' = ad_sessions db
  | Err _ => db' = db
  end.

Lemma wp_add_ssh_key account key label create s :
  wp (add_ssh_key account key label create) (fun r s' => key_added account create r (au_db s) (au_db s')) s.
Proof using Type.
  unfold add_ssh_key. apply wp_bind, wp_ok_or; [|done]. intros k _. cbv zeta. destruct (match label with Some _ => _ | None => _ end); [done|].
  apply wp_bind, wp_intro. intros r s1 [= <- <-]. apply wp_in_tx.
  apply wp_bind. apply (wp_mono _ (fun r s2 => match r with
    | Ok _ => au_db s2 = (if create then up_accounts <[account := "active"]> (au_db s) else au_db s)
              /\ (create = true -> ad_accounts (au_db s) !! account = None)
    | Err _ => True end)).
  { destruct create; [|by apply wp_ret]. apply wp_bind, wp_intro. intros r s2 [= <- <-]. case_bool_decide as Hc; [done|].
    apply wp_intro. intros r s2 [= <- <-]. split; [done|]. intros _. by apply eq_None_not_Some. }
  intros [u|e] s2; [|done]. intros [Hdb Hnew]. apply wp_bind, wp_intro. intros r s3 [= <- <-].
  case_bool_decide as Hact; [done|]. apply wp_bind, wp_intro. intros r s3 [= <- <-].
  destruct (existsb _ _); [done|]. unfold insert_ssh_credential. apply wp_bind, wp_intro. intros r s3.
  destruct (ad_ssh_credentials (au_db s2) !! _) eqn:Hfree; intros [= <- <-]; [done|]. apply wp_ret.
  unfold account_active in Hact. apply fmap_Some in Hact as (st & Hst & Hact). symmetry in Hact. apply bool_decide_eq_true in Hact as ->.
  cbn. rewrite Hdb in *. exists (mkSshCredentialRow account k.2 k.1.2 label None None). split_and!; [done|done|done|..]; cbn [sk_credential_id]; destruct create; cbn in *; auto.
Qed.

(** Provisioning is all or nothing.  A command of the operator that fails leaves
    every account and key as they were; one that succeeds has added one key, not
    revoked, to an active account, which it created if it was asked to and which
    was there before otherwise, and no session. *)
Lemma provision_atomic config command o :
  wp (provision config command)
     (fun r o' => match r with
                  | Ok _ => exists account create c,
                      key_added account create (Ok c) (au_db (op_auth o)) (au_db (op_auth o'))
                      /\ match command with
                         | AC_Create _ _ => create = true
                         | AC_AddSshKey a _ _ => create = false /\ account = a
                         end
                  | Err _ => au_db (op_auth o') = au_db (op_auth o)
                  end) o.
Proof using Type.
  unfold provision. apply wp_bind, wp_ok_or; [intros p _|done]. apply wp_bind, wp_map_err, wp_zoom, wp_intro.
  intros [[]|e] sch _; [|done]. cbn [result_map_err].
  apply wp_bind. apply (wp_mono _ (fun r o1 => match r with
    | Ok (account, _, _, create) => au_db (op_auth o1) = au_db (op_auth o)
        /\ match command with AC_Create _ _ => create = true | AC_AddSshKey a _ _ => create = false /\ account = a end
    | Err _ => au_db (op_auth o1) = au_db (op_auth o) end)).
  { destruct command; [|by apply wp_ret]. apply wp_bind, wp_map_err, wp_zoom, wp_intro. intros r a [= <- <-]. by apply wp_ret. }
  intros [[[[account key] label] create]|e] o1; [|done]. intros [Hdb Hcmd]. apply wp_bind, wp_ok_or; [|done].
  intros pk _. apply wp_bind, wp_map_err, wp_zoom. eapply wp_mono; [apply wp_add_ssh_key|].
  intros [c|e] a Hadd; rewrite Hdb in Hadd; cbn [result_map_err op_auth]; [|done]. apply wp_ret. by exists account, create, c.
Qed.
End provisioning.

(** ** Concrete inputs *)

(** Origins of this machine, and addresses of IPv4. *)
#[local] Instance sample_start : StartLib := {
  server_url_parse s :=
    if str_starts_with "http://127.0.0.1" s then Some (mkServerUrl "http" (Some (HostIpv4 127 0 0 1)) "" None "/" None None s)
    else if str_starts_with "http://" s then Some (mkServerUrl "http" (Some (HostDomain (str_drop 7 s))) "" None "/" None None s)
    else None;
  socket_addr_parse s := if str_starts_with "127.0.0.1:" s then Ok s else Err "invalid socket address syntax"
}.

Example config_of_nothing : from_lookup (fun _ => None) = Ok ServerConfig_default.
Proof. vm_compute. reflexivity. Qed.

(** The server's own variable comes first, a port of zero and a remote origin
    without TLS are refused; the error of a size names the host. *)
Definition vars (l : list (string * string)) (key : string) : option string :=
  snd <$> find_first (fun kv => bool_decide (kv.1 = key)) l.
Example config_variables :
  cfg_port <$> ok (from_lookup (vars [("PORT", "80"); ("ZK_SERVER_PORT", " 9000 ")])) = Some 9000%N
  /\ from_lookup (vars [("PORT", "0")]) = Err (InvalidPort "port must be > 0")
  /\ is_ok (from_lookup (vars [("ZK_SSH_AUTH_ORIGIN", "http://notes.example")])) = false
  /\ from_lookup (vars [("MAX_BLOB_SIZE", "big")])
     = Err (InvalidHost "failed to parse max_blob_size 'big': invalid digit found in string").
Proof. vm_compute. done. Qed.

(** The disk was full in the third migration; the next start goes on from there. *)
Example interrupted_start :
  let s := (open_file (with_faults (repeat None 26 ++ [Some "disk full"]) Schema_new)).2 in
  sc_versions s = [2; 3]%Z /\ (run_server_migrations s).1 = Ok [4; 7; 8; 9; 10]%Z.
Proof. vm_compute. done. Qed.
