(* ===== verification/HttpAdapter.v ===== *)
(** * The client's HTTP adapter ([zk-sync/src/adapter.rs], [NativeHttpSyncAdapter])

    How the client builds its requests, scans what it sends for plaintext and
    maps the answers of the server to results.  The transport is a type class;
    [InProcess] is the transport that hands a request to the server's
    application directly. *)

From stdpp Require Import options.
From S2P Require Import Prelude Text Time Protocol ServerDb ServerAuth WebAuthn Json Routes RoutesAuth App.
From S2P Require Import StorageModels Storage CoreErrors Env Adapter.

(** ** Library code *)

(** A response as the transport delivers it: the body may fail to arrive. *)
Record WireResponse : Type := mkWireResponse {
  wr_status : N;
  wr_bytes : Result string string
}.

Class Transport (Srv : Type) : Type := {
  (** [RequestBuilder::send] *)
  send : Request -> M Srv string WireResponse
}.

Class HttpClientLib : Type := {
  (** [RequestBuilder::json] of a value *)
  json_to_vec : Value -> string;
  (** the path and the query of a URL *)
  url_target : string -> string * option string;
  (** [HeaderValue::from_str(_).is_ok()] *)
  header_value_ok : string -> bool;
  from_utf8_lossy : string -> string;
  (** [serde_json::from_slice] *)
  push_response_from_slice : string -> Result PushResponse string;
  pull_response_from_slice : string -> Result PullChangesResponse string;
  bootstrap_from_slice : string -> Result VaultBootstrap string;
  conflict_from_slice : string -> Result ConflictResponse string;
  any_json_from_slice : string -> Result Value string;
  (** [ServerErrorJson]: an optional code and an optional message *)
  server_error_from_slice : string -> Result (option string * option string) string
}.

(** ** The scan for plaintext *)

Definition plaintext_names : list string :=
  ["title"; "body"; "tags"; "plaintext"; "passphrase"; "password"; "vault_key"; "master_key"; "secret";
   "note_key"].

Fixpoint validate_no_plaintext_secrets (value : Value) : Result unit SyncNetworkError :=
  match value with
  | VObject map =>
      (fix scan (map : list (string * Value)) : Result unit SyncNetworkError :=
         match map with
         | [] => Ok tt
         | (k, v) :: rest =>
             if name_in plaintext_names k then
               Err (NE_ForbiddenPlaintext ("forbidden plaintext key '" +:+ k +:+ "' detected in outgoing payload"))
             else match validate_no_plaintext_secrets v with
                  | Ok _ => scan rest
                  | Err e => Err e
                  end
         end) map
  | VArray items =>
      (fix scan (items : list Value) : Result unit SyncNetworkError :=
         match items with
         | [] => Ok tt
         | item :: rest =>
             match validate_no_plaintext_secrets item with Ok _ => scan rest | Err e => Err e end
         end) items
  | _ => Ok tt
  end.

(** ** The adapter *)

Record NativeHttpSyncAdapter : Type := mkNativeAdapter {
  na_base_url : string;
  na_auth_token : option string
}.

(** [while url.ends_with('/') { url.pop(); }] *)
Fixpoint trim_slashes (s : string) : string :=
  match s with
  | EmptyString => ""
  | String c rest =>
      match trim_slashes rest with
      | EmptyString => if bool_decide (c = "/"%char) then "" else String c ""
      | String c' rest' => String c (String c' rest')
      end
  end.

Definition with_client (base_url : string) (auth_token : option string)
    : Result NativeHttpSyncAdapter SyncNetworkError :=
  let url := trim_slashes base_url in
  if bool_decide (url = "") then Err (NE_ConnectionFailed "base_url must not be empty")
  else Ok (mkNativeAdapter url auth_token).

Definition set_auth_token (token : option string) (a : NativeHttpSyncAdapter) : NativeHttpSyncAdapter :=
  mkNativeAdapter (na_base_url a) token.

Section adapter.
Context `{HttpClientLib}.

Definition auth_header_value (token : string) : string :=
  if str_starts_with "bearer " (to_ascii_lowercase token) then token else "Bearer " +:+ token.

Definition prepare_request (a : NativeHttpSyncAdapter) (method : Method) (path : string) (body : string)
    : Request :=
  let target := url_target (na_base_url a +:+ path) in
  let auth := match na_auth_token a with
              | Some token =>
                  let v := auth_header_value token in
                  if header_value_ok v then [("authorization", Some v)] else []
              | None => []
              end in
  mkRequest method target.1 target.2 (auth ++ [("content-type", Some "application/json")]) body.

Definition empty_conflict : ConflictResponse :=
  mkConflictResponse ERROR_REVISION_CONFLICT "" 0 0 0
    (mkEnvelope ENVELOPE_VERSION_V1 "" OBJECT_KIND_NOTE (mkKeyContainer "" "") (mkPayloadContainer "" ""))
    false.

(** The error a status and a body that is not a success stand for. *)
Definition error_of_response (status : N) (bytes : string) : SyncNetworkError :=
  let err_json := ok (server_error_from_slice bytes) in
  let code := e ← err_json; e.1 in
  let message := default (from_utf8_lossy bytes) (e ← err_json; e.2) in
  if (status =? 401)%N then NE_Unauthorized message
  else if (status =? 403)%N then NE_Forbidden message
  else if (status =? 404)%N then NE_NotFound message
  else if (status =? 409)%N then
    if bool_decide (code = Some ERROR_MUTATION_REPLAY_MISMATCH) then NE_ReplayMismatch message
    else match conflict_from_slice bytes with
         | Ok conflict => NE_Conflict conflict
         | Err _ => NE_Conflict empty_conflict
         end
  else if (status =? 400)%N then
    if bool_decide (code = Some ERROR_SYNC_CURSOR_INVALID) then NE_InvalidCursor message
    else NE_InvalidPayload message
  else NE_ServerError status message.

Definition handle_response {A} (from_slice : string -> Result A string) (resp : WireResponse)
    : Result A SyncNetworkError :=
  bytes ← result_map_err (fun e => NE_ConnectionFailed ("failed to read response body: " +:+ e)) (wr_bytes resp);
  if is_success_status (wr_status resp) then
    result_map_err (fun e => NE_Serialization ("failed to deserialize server response: " +:+ e))
      (from_slice bytes)
  else Err (error_of_response (wr_status resp) bytes).

(** ** Calls *)

Section calls.
Context {Srv : Type} `{Transport Srv}.

Record HttpNet : Type := mkHttpNet {
  hn_adapter : NativeHttpSyncAdapter;
  hn_server : Srv
}.
Abbreviation Call A := (M HttpNet SyncNetworkError A).

(** [req.send().await.map_err(ConnectionFailed)] *)
Definition call (method : Method) (path body : string) : Call WireResponse :=
  fun n =>
    let '(r, srv) := send (prepare_request (hn_adapter n) method path body) (hn_server n) in
    (result_map_err NE_ConnectionFailed r, mkHttpNet (hn_adapter n) srv).

Definition http_get_vault_bootstrap : Call (option VaultBootstrap) :=
  resp ← call GET "/v1/vault/bootstrap" "";
  if (wr_status resp =? 404)%N then mret None
  else
    bootstrap ← lift_result (handle_response bootstrap_from_slice resp);
    mret (Some bootstrap).

Definition http_post_vault_bootstrap (bootstrap : VaultBootstrap) : Call unit :=
  let json_val := vault_bootstrap_value bootstrap in
  _ ← lift_result (validate_no_plaintext_secrets json_val);
  resp ← call POST "/v1/vault/bootstrap" (json_to_vec json_val);
  _ ← lift_result (handle_response any_json_from_slice resp);
  mret tt.

Definition http_push_mutation (request : PushRequest) : Call PushResponse :=
  let json_val := push_request_value request in
  _ ← lift_result (validate_no_plaintext_secrets json_val);
  resp ← call POST "/v1/sync/push" (json_to_vec json_val);
  lift_result (handle_response push_response_from_slice resp).

Definition pull_path (after : N) (limit : option N) : string :=
  "/v1/sync/changes?after=" +:+ show_N after
    +:+ match limit with Some lim => "&limit=" +:+ show_N lim | None => "" end.

Definition http_pull_changes (after : N) (limit : option N) : Call PullChangesResponse :=
  resp ← call GET (pull_path after limit) "";
  lift_result (handle_response pull_response_from_slice resp).
End calls.
End adapter.

Arguments HttpNet : clear implicits.
Arguments mkHttpNet {Srv}.

#[export] Instance Http_SyncServerAdapter {Srv} `{HttpClientLib} `{Transport Srv}
    : SyncServerAdapter (HttpNet Srv) := {
  ad_get_vault_bootstrap := http_get_vault_bootstrap;
  ad_post_vault_bootstrap := http_post_vault_bootstrap;
  ad_push_mutation := http_push_mutation;
  ad_pull_changes := http_pull_changes
}.
