(* ===== verification/HttpEndToEnd.v ===== *)
(** * From the client's adapter to the server's database

    Over a transport that delivers, the client's HTTP adapter with a token the
    server accepts is the server's database itself: a push is [push_mutation]
    of the session's account and a pull is [pull_changes], with the outcomes
    mapped to the errors the synchronization engine distinguishes. *)

From stdpp Require Import options.
From S2P Require Import Prelude Text Time Protocol ServerDb ServerAuth ServerAuthFacts WebAuthn Json.
From S2P Require Import Routes RoutesAuth App AppFacts AppLogin.
From S2P Require Import StorageModels Storage CoreErrors Env Adapter HttpAdapter.

(** ** A result that depends on the tables and the clock only *)

Definition views {E A} (m : M Auth E A) : Prop :=
  forall s s2, au_db s = au_db s2 -> au_now s = au_now s2 -> (m s).1 = (m s2).1.

Section views.
Context `{ServerLib} `{AuthLib}.

Lemma views_bind {E A B} (m : M Auth E A) (f : A -> M Auth E B) :
  reads m -> views m -> (forall a, views (f a)) -> views (m ≫= f).
Proof.
  intros Hr Hm Hf s s2 Hdb Hnow. specialize (Hm s s2 Hdb Hnow). unfold mbind, M_bind.
  pose proof (Hr s) as R1. pose proof (Hr s2) as R2.
  destruct (m s) as [r t], (m s2) as [r2 t2]. cbn in *. subst. destruct r2; [by apply Hf | done].
Qed.
Lemma views_lift {E A} (r : Result A E) : views (lift_result r).
Proof. done. Qed.
Lemma views_validate token : views (validate_session_token token).
Proof.
  unfold validate_session_token, parse_stored_uuid, is_device_revoked.
  apply views_bind; [done|intros s s2 _ Hn; cbn; by rewrite Hn|]. intros t.
  apply views_bind; [done|intros s s2 Hd _; cbn; by rewrite Hd|]. intros [[k row]|]; [|done].
  apply views_bind; [done..|]. intros sid. apply views_bind; [done..|]. intros acc. apply views_bind.
  { destruct (ss_device_id row); [|done]. by apply reads_bind. }
  { destruct (ss_device_id row); [|done]. by apply views_bind. }
  intros dev. apply views_bind; [by destruct dev| |].
  { destruct dev; [|done]. intros t1 t2 Hd _. cbn. by rewrite Hd. }
  intros []; [done|]. by repeat case_match.
Qed.
Lemma views_authenticate token : views (authenticate_bearer_token token).
Proof.
  intros s s2 Hd Hn. unfold authenticate_bearer_token. pose proof (views_validate token s s2 Hd Hn) as Hv.
  destruct (validate_session_token token s) as [r t], (validate_session_token token s2) as [r2 t2].
  cbn in Hv. subst. by repeat case_match.
Qed.
Lemma views_auth_middleware h1 h2 h3 : views (auth_middleware h1 h2 h3).
Proof.
  unfold auth_middleware. apply views_bind; [by destruct h1 as [[]|]|by destruct h1 as [[]|]|]. intros v.
  apply views_bind.
  { intros s. match goal with |- context [ok_or _ ?o] => by destruct o end. }
  { intros s s2 _ _. match goal with |- context [ok_or _ ?o] => by destruct o end. }
  intros t. case_bool_decide; [done|]. apply views_bind; [apply authenticate_reads|apply views_authenticate|].
  intros x. by repeat case_match.
Qed.
End views.

(** ** The transport and its codecs *)

(** Serialization of the server's answers, and what the two ends' parsers make
    of it: documented behaviour of [serde_json], of axum's [Bytes] extractor
    and of the client's URL parser. *)
Class Wire `{RouteLib} `{HttpClientLib} : Type := {
  body_bytes : Body -> string
}.

(** What the types of the fields bound. *)
Record push_typed (r : PushRequest) : Prop := {
  pt_revision : (req_expected_revision r <= u64_max)%N;
  pt_kind : (req_object_kind r <= u16_max)%N;
  pt_env_kind : (env_object_kind (req_envelope r) <= u16_max)%N;
  pt_version : (envelope_version (req_envelope r) <= u32_max)%N
}.

Class WireLaws `{Wire} : Prop := {
  wire_json v : json_from_slice (json_to_vec v) = Ok v;
  wire_push r : push_typed r -> push_request_from_value (push_request_value r) = Ok r;
  wire_push_response r : push_response_from_slice (body_bytes (BPush r)) = Ok r;
  wire_pull_response r : pull_response_from_slice (body_bytes (BPull r)) = Ok r;
  wire_conflict c : conflict_from_slice (body_bytes (BConflict c)) = Ok c;
  wire_error code message : server_error_from_slice (body_bytes (BError code message)) = Ok (Some code, Some message);
  (** a conflict has neither a [code] nor a [message] *)
  wire_conflict_error c : server_error_from_slice (body_bytes (BConflict c)) = Ok (None, None);
  wire_body req : (N.of_nat (String.length (rq_body req)) <= body_limit)%N -> bytes_of_request req = Ok (rq_body req)
}.

(** A request handed to the application, its answer handed back. *)
#[export] Instance InProcess `{ServerLib} `{AuthLib} `{WebAuthnLib} `{Wire} : Transport AppState := {
  send req := fun st =>
    let '(r, st') := handle req st in
    (Ok (mkWireResponse (rs_status r) (Ok (body_bytes (rs_body r)))), st')
}.

(** The target of a request as the origin server sees it. *)
Definition is_question (c : ascii) : bool := bool_decide (c = "?"%char).
Definition split_target (path : string) : string * option string :=
  match find_char is_question path with Some (p, q) => (p, Some q) | None => (path, None) end.

Definition origin_url `{HttpClientLib} (base : string) : Prop :=
  forall path, url_target (base +:+ path) = split_target path.

(** ** Handlers on a request that passes their checks *)

Section passing.
Context `{ServerLib} `{RouteLib}.

Lemma scanned_body_ok {A} (from_value : Value -> Result A string) e1 r e2 body v a st :
  json_from_slice body = Ok v -> contains_forbidden_keys v = false -> from_value v = Ok a ->
  scanned_body from_value e1 r e2 body st = (Ok a, st).
Proof.
  intros Hv Hf Ha. unfold scanned_body.
  rewrite (run_bind_ok _ _ _ v st) by (by unfold or_return, map_err, lift_result; rewrite Hv).
  rewrite Hf. rewrite (run_bind_ok _ _ _ tt st) by done.
  unfold or_return, map_err, lift_result. by rewrite Ha.
Qed.

(** The checks of the push endpoint. *)
Record push_valid (r : PushRequest) : Prop := {
  pv_mutation : is_ok (uuid_parse_str (req_mutation_id r)) = true;
  pv_object : is_ok (uuid_parse_str (req_object_id r)) = true;
  pv_envelope : env_object_id (req_envelope r) = req_object_id r;
  pv_version : envelope_version (req_envelope r) = ENVELOPE_VERSION_V1;
  pv_key_nonce : is_base64 (key_nonce (wrapped_key (req_envelope r))) = true;
  pv_key_ciphertext : is_base64 (key_ciphertext (wrapped_key (req_envelope r))) = true;
  pv_nonce : is_base64 (payload_nonce (payload (req_envelope r))) = true;
  pv_ciphertext : is_base64 (payload_ciphertext (payload (req_envelope r))) = true
}.

Lemma validate_push_ok r st : push_valid r -> validate_push r st = (Ok tt, st).
Proof.
  intros [Hm Ho He Hv K1 K2 P1 P2]. unfold validate_push. rewrite Hm, Ho, Hv, K1, K2, P1, P2.
  rewrite bool_decide_eq_false_2 by tauto. done.
Qed.

(** A push that passes the checks is one database operation. *)
Lemma push_handler_ok auth body v r st :
  json_from_slice body = Ok v -> contains_forbidden_keys v = false ->
  push_request_from_value v = Ok r -> push_valid r ->
  run_handler (push_mutation_handler auth body) st
  = let '(out, db') := push_mutation (aa_account_id auth) r (get_db st) in
    (match out with
     | Ok o => push_outcome_response o
     | Err e => error_response 500 ERROR_SERVER_FAILURE
                  ("Failed to process push mutation: " +:+ DbError_display e)
     end, put_db db' st).
Proof.
  intros Hv Hf Hr Hvalid. unfold run_handler, push_mutation_handler.
  rewrite (run_bind_ok _ _ _ r st) by (by eapply scanned_body_ok).
  rewrite (run_bind_ok _ _ _ tt st) by (by apply validate_push_ok).
  unfold or_return, on_db, zoom, map_err, mbind, M_bind.
  by destruct (push_mutation _ _ _) as [[o|e] db'].
Qed.

Lemma pull_handler_ok auth q params st :
  pull_query q = Ok params ->
  run_handler (pull_changes_handler auth q) st
  = let '(out, db') := pull_changes (aa_account_id auth) params.1 params.2 (get_db st) in
    (match out with
     | Ok r => respond 200 (BPull r)
     | Err e => error_response 500 ERROR_SERVER_FAILURE ("Failed to pull changes: " +:+ DbError_display e)
     end, put_db db' st).
Proof.
  intros Hq. unfold run_handler, pull_changes_handler.
  rewrite (run_bind_ok _ _ _ params st) by (by unfold lift_result; rewrite Hq).
  unfold or_return, on_db, zoom, map_err, mbind, M_bind.
  by destruct (pull_changes _ _ _ _) as [[o|e] db'].
Qed.
End passing.

Section end_to_end.
Context `{ServerLib} `{AuthLib} `{WebAuthnLib} `{Wire} `{!WireLaws}.
Context (base token : string) (ident : AuthenticatedAccount).
Context (Hbase : origin_url base) (Hplain : str_starts_with "bearer " (to_ascii_lowercase token) = false)
        (Hvalue : header_value_ok ("Bearer " +:+ token) = true).

Definition adapter : NativeHttpSyncAdapter := mkNativeAdapter base (Some token).

(** The server takes the token for a session of [ident]. *)
Definition accepts (st : AppState) : Prop :=
  (auth_middleware (Some (Some ("Bearer " +:+ token))) None None (st_auth st)).1 = Ok ident.

Lemma prepared method path body :
  prepare_request adapter method path body
  = mkRequest method (split_target path).1 (split_target path).2
      [("authorization", Some ("Bearer " +:+ token)); ("content-type", Some "application/json")] body.
Proof using Hbase Hplain Hvalue.
  unfold prepare_request, auth_header_value. cbn [adapter na_base_url na_auth_token].
  rewrite Hplain, Hvalue, Hbase. done.
Qed.

(** The state behind the request identifier the server assigns. *)
Definition numbered (st : AppState) : AppState :=
  let au := st_auth st in put_auth (mkAuth (au_db au) (au_now au) (1 + au_uuids au) (au_rng au)) st.

(** A call of the adapter runs the handler of its endpoint for the session's
    account. *)
Lemma call_runs method path body r seg e st :
  accepts st -> route (split_target path).1 = Some (true, r, seg) -> endpoint_of method r = Some e ->
  method <> HEAD ->
  exists req, rq_query req = (split_target path).2 /\ rq_body req = body
    /\ let '(resp, st') := run_handler (dispatch e seg (Some ident) req) (numbered st) in
       call method path body (mkHttpNet adapter st)
       = (Ok (mkWireResponse (rs_status resp) (Ok (body_bytes (rs_body resp)))), mkHttpNet adapter st').
Proof using Hbase Hplain Hvalue.
  intros Hacc Hroute He Hm. pose proof (prepared method path body) as Hp.
  destruct (prepare_request adapter method path body) as [m0 p0 q0 h0 b0] eqn:Hreq.
  injection Hp as -> -> -> -> ->. set (req := mkRequest _ _ _ _ _) in *.
  exists (with_request_id (request_id req st).1 req). split; [done|]. split; [done|].
  assert (request_id req st = (Some (auth_uuid (au_uuids (st_auth st))), numbered st)) as Hid by done.
  destruct (handle_router req st) as [hs Hh]. rewrite Hid in *. cbn [fst snd] in *.
  assert (router (with_request_id (Some (auth_uuid (au_uuids (st_auth st)))) req) (numbered st)
    = run_handler (dispatch e seg (Some ident)
        (with_request_id (Some (auth_uuid (au_uuids (st_auth st)))) req)) (numbered st)) as Hr.
  { unfold router. cbn [rq_path rq_method with_request_id req]. rewrite Hroute, He, serve_protected.
    cbn [rq_headers with_request_id]. rewrite !header_get_insert_ne by done.
    assert ((auth_middleware (header_get "authorization" (rq_headers req))
      (header_get "x-account-id" (rq_headers req)) (header_get "x-device-id" (rq_headers req))
      (st_auth (numbered st))).1 = Ok ident) as ->.
    { rewrite <- Hacc. by apply views_auth_middleware. }
    destruct (run_handler _ _) as [resp st']. unfold strip_body. by rewrite bool_decide_eq_false_2. }
  rewrite Hr in Hh. destruct (run_handler _ _) as [resp st']. cbn [fst snd] in Hh.
  unfold call. cbn [hn_adapter hn_server]. rewrite Hreq. cbn [send InProcess]. rewrite Hh. done.
Qed.

(** The outcome of a push as the synchronization engine sees it. *)
Definition push_answer (out : Result PushOutcome DbError) : Result PushResponse SyncNetworkError :=
  match out with
  | Ok (Success resp) => Ok resp
  | Ok (Conflict conflict) => Err (NE_Conflict conflict)
  | Ok (ObjectNotFound msg) => Err (NE_NotFound msg)
  | Ok (ReplayMismatch msg) => Err (NE_ReplayMismatch msg)
  | Err e => Err (NE_ServerError 500 ("Failed to process push mutation: " +:+ DbError_display e))
  end.

Definition pull_answer (out : Result PullChangesResponse DbError)
    : Result PullChangesResponse SyncNetworkError :=
  result_map_err (fun e => NE_ServerError 500 ("Failed to pull changes: " +:+ DbError_display e)) out.

Lemma error_answer {A} (from_slice : string -> Result A string) status code message :
  is_success_status status = false ->
  handle_response from_slice (mkWireResponse status (Ok (body_bytes (BError code message))))
  = Err (error_of_response status (body_bytes (BError code message))).
Proof using Type. intros Hs. unfold handle_response, mbind, Result_bind. cbn. by rewrite Hs. Qed.

Lemma error_fields status code message :
  error_of_response status (body_bytes (BError code message))
  = if (status =? 401)%N then NE_Unauthorized message
    else if (status =? 403)%N then NE_Forbidden message
    else if (status =? 404)%N then NE_NotFound message
    else if (status =? 409)%N then
      if bool_decide (code = ERROR_MUTATION_REPLAY_MISMATCH) then NE_ReplayMismatch message
      else match conflict_from_slice (body_bytes (BError code message)) with
           | Ok conflict => NE_Conflict conflict
           | Err _ => NE_Conflict empty_conflict
           end
    else if (status =? 400)%N then
      if bool_decide (code = ERROR_SYNC_CURSOR_INVALID) then NE_InvalidCursor message
      else NE_InvalidPayload message
    else NE_ServerError status message.
Proof using Type*.
  unfold error_of_response. rewrite wire_error. cbn.
  rewrite (bool_decide_ext (Some code = Some ERROR_MUTATION_REPLAY_MISMATCH) (code = ERROR_MUTATION_REPLAY_MISMATCH)) by naive_solver.
  rewrite (bool_decide_ext (Some code = Some ERROR_SYNC_CURSOR_INVALID) (code = ERROR_SYNC_CURSOR_INVALID)) by naive_solver.
  done.
Qed.

Lemma push_response_answer out :
  let resp := match out with
              | Ok o => push_outcome_response o
              | Err e => error_response 500 ERROR_SERVER_FAILURE
                           ("Failed to process push mutation: " +:+ DbError_display e)
              end in
  handle_response push_response_from_slice (mkWireResponse (rs_status resp) (Ok (body_bytes (rs_body resp))))
  = push_answer out.
Proof using Type*.
  destruct out as [[resp|c|msg|msg]|e]; cbn [push_outcome_response push_answer respond error_response rs_status rs_body].
  - unfold handle_response, mbind, Result_bind. cbn. by rewrite wire_push_response.
  - unfold handle_response, mbind, Result_bind. cbn. unfold error_of_response.
    rewrite wire_conflict_error. cbn. by rewrite wire_conflict.
  - by rewrite error_answer, error_fields.
  - by rewrite error_answer, error_fields.
  - by rewrite error_answer, error_fields.
Qed.

(** C7. The HTTP stack is transparent: over a transport that delivers, with a
    token that the server takes for a session of an account, a push through
    the client's adapter, the routing table, bearer authentication and the
    push endpoint is the database's compare-and-swap for that account; the
    answer carries its outcome (accepted, conflict with the server's version,
    unknown object, replay with another payload, failure), and the server is
    left with the database the operation produced. *)
Theorem http_push_refines_db st request out db' :
  accepts st -> push_typed request -> push_valid request ->
  (N.of_nat (String.length (json_to_vec (push_request_value request))) <= body_limit)%N ->
  push_mutation (aa_account_id ident) request (get_db st) = (out, db') ->
  http_push_mutation request (mkHttpNet adapter st)
  = (push_answer out, mkHttpNet adapter (put_db db' (numbered st))).
Proof using All.
  intros Hacc Htyped Hvalid Hlen Hpush.
  destruct (call_runs POST "/v1/sync/push" (json_to_vec (push_request_value request)) [(POST, E_push)] "" E_push st)
    as (req & Hq & Hb & Hcall); [done..|].
  cbn [dispatch] in Hcall. rewrite bind_authenticated in Hcall.
  assert (run_handler (extract (bytes_of_request req) ≫= (fun b => push_mutation_handler ident b)) (numbered st)
          = run_handler (push_mutation_handler ident (rq_body req)) (numbered st)) as Hx.
  { unfold run_handler, extract, lift_result, mbind, M_bind. by rewrite wire_body by (by rewrite Hb). }
  rewrite Hx, Hb in Hcall.
  erewrite push_handler_ok in Hcall; [|apply wire_json|apply push_request_allowed|by apply wire_push|done].
  change (get_db (numbered st)) with (get_db st) in Hcall. rewrite Hpush in Hcall.
  unfold http_push_mutation. cbv zeta. rewrite (run_bind_ok _ _ _ tt (mkHttpNet adapter st)) by done.
  rewrite (run_bind_ok _ _ _ _ _ Hcall). unfold lift_result. by rewrite push_response_answer.
Qed.

(** The same for pulls: the cursor and the limit arrive as they were sent, the
    limit clamped to 1..500 and 50 when there is none. *)
Lemma http_pull_refines_db st after limit out db' :
  accepts st -> (after <= u64_max)%N -> (forall lim, limit = Some lim -> lim <= u32_max)%N ->
  pull_changes (aa_account_id ident) after
    (match limit with Some lim => clamp_limit lim | None => 50 end) (get_db st) = (out, db') ->
  http_pull_changes after limit (mkHttpNet adapter st)
  = (pull_answer out, mkHttpNet adapter (put_db db' (numbered st))).
Proof using All.
  intros Hacc Ha Hl Hpull.
  assert (split_target (pull_path after limit) = ("/v1/sync/changes", Some (query_of after limit))) as Ht by done.
  destruct (call_runs GET (pull_path after limit) "" [(GET, E_pull)] "" E_pull st)
    as (req & Hq & Hb & Hcall); [done|by rewrite Ht|done..|].
  cbn [dispatch] in Hcall. rewrite bind_authenticated in Hcall. rewrite Ht in Hq. cbn [snd] in Hq. rewrite Hq in Hcall.
  erewrite pull_handler_ok in Hcall by (by apply pull_query_roundtrip).
  change (get_db (numbered st)) with (get_db st) in Hcall. cbn [fst snd] in Hcall. rewrite Hpull in Hcall.
  unfold http_pull_changes. rewrite (run_bind_ok _ _ _ _ _ Hcall). unfold lift_result. f_equal.
  destruct out as [r|e]; cbn [pull_answer result_map_err respond error_response rs_status rs_body].
  - unfold handle_response, mbind, Result_bind. cbn. by rewrite wire_pull_response.
  - by rewrite error_answer, error_fields.
Qed.
End end_to_end.
