(* ===== verification/HttpSamples.v ===== *)
(** * The application on concrete requests

    An instance of the library code behind the HTTP interface (values are
    stored as the bits of an encoding, passkeys use a toy signature), with the
    laws of the wire, and the theorems about requests applied to it. *)

From stdpp Require Import options.
From stdpp Require Import countable.
From S2P Require Import Prelude Text Protocol StorageModels Storage CoreErrors Time Env Cursor.
From S2P Require Import ServerDb ServerSpec ServerDbFacts ServerFeed ServerTables ServerSamples.
From S2P Require Import ServerAuth ServerAuthFacts ServerAuthInv ServerAuthLogin ServerAuthSamples.
From S2P Require Import WebAuthn Json Routes RoutesAuth App AppFacts AppLogin.
From S2P Require Import Adapter HttpAdapter HttpEndToEnd.

#[local] Existing Instance auth_server_lib.
#[local] Existing Instance sample_auth_lib.

(** ** JSON as bits *)

Abbreviation Leaf := (nat * N * string)%type.

Fixpoint value_tree (v : Value) : gen_tree Leaf :=
  match v with
  | VNull => GenNode 0 []
  | VBool b => GenLeaf (0, if b then 1%N else 0%N, "")
  | VNumber n => GenLeaf (1, n, "")
  | VOtherNumber s => GenLeaf (2, 0%N, s)
  | VString s => GenLeaf (3, 0%N, s)
  | VArray l => GenNode 1 (map value_tree l)
  | VObject m => GenNode 2 (map (fun kv => GenNode 3 [GenLeaf (4, 0%N, kv.1); value_tree kv.2]) m)
  end.

Fixpoint tree_value (t : gen_tree Leaf) : Value :=
  match t with
  | GenLeaf (0, n, _) => VBool (negb (n =? 0)%N)
  | GenLeaf (1, n, _) => VNumber n
  | GenLeaf (2, _, s) => VOtherNumber s
  | GenLeaf (_, _, s) => VString s
  | GenNode 1 l => VArray (map tree_value l)
  | GenNode 2 l => VObject (map (fun t => match t with
                                          | GenNode _ [GenLeaf (_, _, k); v] => (k, tree_value v)
                                          | _ => ("", VNull)
                                          end) l)
  | _ => VNull
  end.

Lemma tree_value_tree v : tree_value (value_tree v) = v.
Proof.
  induction v as [| | | | |l IH|m IH] using Value_nested_ind; cbn; try done; [by destruct b|..]; f_equal.
  - induction IH as [|x l Hx _ IHl]; cbn; [done|]. by rewrite Hx, IHl.
  - induction IH as [|[k x] l Hx _ IHl]; cbn in *; [done|]. by rewrite Hx, IHl.
Qed.

Definition toy_json_to_vec (v : Value) : string := to_bits (value_tree v).
Definition toy_json_from_slice (s : string) : Result Value string :=
  match of_bits s with Ok t => Ok (tree_value t) | Err e => Err e end.

Lemma toy_json v : toy_json_from_slice (toy_json_to_vec v) = Ok v.
Proof. unfold toy_json_from_slice, toy_json_to_vec. by rewrite of_to_bits, tree_value_tree. Qed.

(** ** Answers as bits *)

#[local] Instance envelope_countable : Countable EncryptedEnvelope.
Proof.
  apply (inj_countable' (fun e => (envelope_version e, env_object_id e, env_object_kind e,
           (key_nonce (wrapped_key e), key_ciphertext (wrapped_key e)),
           (payload_nonce (payload e), payload_ciphertext (payload e))))
    (fun '(v, o, k, w, p) => mkEnvelope v o k (mkKeyContainer w.1 w.2) (mkPayloadContainer p.1 p.2))).
  by intros [? ? ? [] []].
Defined.
#[local] Instance conflict_countable : Countable ConflictResponse.
Proof.
  apply (inj_countable' (fun c => (conf_error c, conf_object_id c, conf_expected_revision c,
           conf_current_revision c, conf_current_server_seq c, conf_current_envelope c, conf_is_deleted c))
    (fun '(e, o, x, r, s, v, d) => mkConflictResponse e o x r s v d)). by intros [].
Defined.
#[local] Instance change_countable : Countable ObjectChange.
Proof.
  apply (inj_countable' (fun c => (ch_server_seq c, ch_object_id c, ch_revision c, ch_object_kind c,
           ch_is_deleted c, ch_envelope c))
    (fun '(s, o, r, k, d, e) => mkObjectChange s o r k d e)). by intros [].
Defined.
#[local] Instance push_response_countable : Countable PushResponse.
Proof.
  apply (inj_countable' (fun r => (resp_object_id r, resp_revision r, resp_server_seq r))
    (fun '(o, r, s) => mkPushResponse o r s)). by intros [].
Defined.

Definition toy_body_bytes (b : Body) : string :=
  match b with
  | BPush r => String "P"%char (to_bits r)
  | BPull r => String "L"%char (to_bits (pr_changes r, pr_next_cursor r, pr_has_more r))
  | BConflict c => String "C"%char (to_bits c)
  | BError code message => String "E"%char (to_bits (code, message))
  | _ => ""
  end.

(** The bits behind a tag. *)
Definition tagged {A} `{Countable A} (c : ascii) (s : string) : Result A string :=
  match s with
  | String c' rest => if bool_decide (c' = c) then of_bits rest else Err "unexpected tag"
  | EmptyString => Err "empty"
  end.

Definition toy_push_from_value (v : Value) : Result PushRequest string :=
  match v with
  | VObject [(_, VString m); (_, VString o); (_, VNumber e); (_, VNumber k);
             (_, VObject [(_, VNumber ev); (_, VString eo); (_, VNumber ek);
                          (_, VObject [(_, VString kn); (_, VString kc)]);
                          (_, VObject [(_, VString pn); (_, VString pc)])]);
             (_, VBool d)] =>
      Ok (mkPushRequest m o e k
            (mkEnvelope ev eo ek (mkKeyContainer kn kc) (mkPayloadContainer pn pc)) d)
  | _ => Err "invalid push request"
  end.

Definition toy_login_from_value (v : Value) : Result WebAuthnLoginFinishRequest string :=
  match v with
  | VObject [(_, VString ch); (_, VString cred); (_, VString ad); (_, VString cd); (_, VString sig)] =>
      Ok (mkLoginFinishRequest ch cred (Some ad) (Some cd) sig None)
  | _ => Err "invalid login request"
  end.

#[local] Instance sample_webauthn_lib : WebAuthnLib := {|
  sha256 s := pad 32 s;
  client_data_from_slice s :=
    match (of_bits s : Result (string * string * string * bool) string) with
    | Ok (k, c, o, x) => Some (mkClientData k c o x)
    | Err _ => None
    end;
  Cbor := string; CText s := s; CInteger z := pretty z;
  as_map _ := None; as_text s := Some s; as_bytes s := Some s; cbor_eqb a b := bool_decide (a = b);
  from_reader _ := None;
  VerifyingKey := string; from_sec1_bytes k := Some k;
  EcdsaSignature := string; from_der s := Some s;
  ecdsa_verify k m s := bool_decide (s = k +:+ m)
|}.

#[local] Instance sample_route_lib : RouteLib := {|
  json_from_slice := toy_json_from_slice;
  push_request_from_value := toy_push_from_value;
  vault_bootstrap_from_value _ := Err "unsupported";
  register_finish_from_value _ := Err "unsupported";
  login_finish_from_value := toy_login_from_value;
  device_auth_from_value _ := Err "unsupported";
  ssh_start_from_slice _ := None; ssh_finish_from_slice _ := None; ssh_add_from_slice _ := None;
  json_register_start _ := Err (rejection 415 "unsupported");
  json_login_start req :=
    match toy_json_from_slice (rq_body req) with
    | Ok (VObject _) => Ok (mkLoginStartRequest None)
    | _ => Err (rejection 400 "expected an object")
    end;
  json_revoke_session _ := Ok None;
  json_revoke_device _ := Err (rejection 415 "unsupported");
  bytes_of_request req :=
    if (body_limit <? N.of_nat (String.length (rq_body req)))%N then Err (rejection 413 "length limit exceeded")
    else Ok (rq_body req);
  percent_decode s := Ok s;
  uuid_path_rejection s e := rejection 400 e;
  pkg_version := "0.1.0"
|}.

Definition toy_url_target (url : string) : string * option string :=
  split_target (str_drop (String.length "https://notes.example") url).

#[local] Instance sample_client_lib : HttpClientLib := {|
  json_to_vec := toy_json_to_vec;
  url_target := toy_url_target;
  header_value_ok _ := true;
  from_utf8_lossy s := s;
  push_response_from_slice := tagged "P";
  pull_response_from_slice s :=
    match (tagged "L" s : Result (list ObjectChange * N * bool) string) with
    | Ok (l, n, b) => Ok (mkPullChangesResponse l n b)
    | Err e => Err e
    end;
  bootstrap_from_slice _ := Err "unsupported";
  conflict_from_slice := tagged "C";
  any_json_from_slice := toy_json_from_slice;
  server_error_from_slice s :=
    match (tagged "E" s : Result (string * string) string), (tagged "C" s : Result ConflictResponse string) with
    | Ok (c, m), _ => Ok (Some c, Some m)
    | _, Ok _ => Ok (None, None)
    | Err e, _ => Err e
    end
|}.

#[local] Instance sample_wire : Wire := {| body_bytes := toy_body_bytes |}.

Lemma tagged_to_bits {A} `{Countable A} c (x : A) : tagged c (String c (to_bits x)) = Ok x.
Proof. unfold tagged. rewrite bool_decide_eq_true_2 by done. apply of_to_bits. Qed.

#[local] Instance sample_wire_laws : WireLaws.
Proof.
  split; cbn -[to_bits tagged body_limit N.of_nat]; intros.
  - apply toy_json.
  - by destruct r as [? ? ? ? [? ? ? [] []] ?].
  - apply tagged_to_bits.
  - rewrite tagged_to_bits. by destruct r.
  - apply tagged_to_bits.
  - by rewrite tagged_to_bits.
  - assert (tagged (A := string * string) "E" (String "C" (to_bits c)) = Err "unexpected tag") as -> by done.
    by rewrite tagged_to_bits.
  - by rewrite (proj2 (N.ltb_ge _ _)).
Qed.

(** ** A running server *)

Definition sample_config : ServerConfig :=
  mkServerConfig origin "notes.example" origin "127.0.0.1" 8080 "info" LF_Json 1000 5000 None.
Definition token : string := sp_token sample_session.
Definition sample_state : AppState := mkAppState sample_config Db_empty logged_in.

Definition bearer (method : Method) (path : string) (body : string) : Request :=
  mkRequest method path None [("authorization", Some ("Bearer " +:+ token))] body.

Definition upload : Request := bearer PUT "/v1/blobs/blob-1" "ciphertext".

(** An upload behind the session of [acc] leaves the rows of another account. *)
Lemma request_isolation_witness :
  rs_status (handle upload sample_state).1 = 201%N
  /\ isolated "account-00000002" sample_state (handle upload sample_state).2.
Proof.
  split; [vm_compute; reflexivity|].
  pose proof (request_isolation upload sample_state (handle upload sample_state).1
    (handle upload sample_state).2 [(GET, E_get_blob); (PUT, E_put_blob); (DELETE, E_delete_blob)] "blob-1"
    (surjective_pairing _) eq_refl) as Hiso.
  assert ((auth_middleware (header_get "authorization" (rq_headers upload))
    (header_get "x-account-id" (rq_headers upload)) (header_get "x-device-id" (rq_headers upload))
    (st_auth (request_id upload sample_state).2)).1
    = Ok (mkAuthenticatedAccount acc (Some dev) (Some (sp_session_id sample_session)))) as Hauth
    by (vm_compute; reflexivity).
  rewrite Hauth in Hiso. apply Hiso. by vm_compute.
Defined.

(** A push with a passphrase buried in its envelope. *)
Definition leak : Value :=
  VObject [("mutation_id", VString "m1"); ("meta", VArray [VObject [("PassPhrase", VString "hunter2")]])].
Definition leaking : Request := bearer POST "/v1/sync/push" (toy_json_to_vec leak).

Lemma secrets_refused_witness :
  client_error (rs_status (handle leaking sample_state).1)
  /\ same_tables sample_state (handle leaking sample_state).2.
Proof.
  apply (secrets_refused leaking sample_state (handle leaking sample_state).1 (handle leaking sample_state).2
    true [(POST, E_push)] "" E_push (toy_json_to_vec leak) leak "PassPhrase").
  - apply surjective_pairing.
  - reflexivity.
  - reflexivity.
  - reflexivity.
  - vm_compute. reflexivity.
  - apply toy_json.
  - eapply (occurs_field _ _ "meta"); [by apply list_elem_of_further, list_elem_of_here|].
    eapply occurs_item; [apply list_elem_of_here|]. eapply occurs_here, list_elem_of_here.
  - apply (bool_decide_unpack _). by vm_compute.
Defined.

(** The endpoints that take their body through the JSON extractor do not scan it: a
    passphrase sent along when a passkey login is started is accepted. *)
Lemma login_start_accepts_secret :
  contains_forbidden_keys leak = true
  /\ rs_status (handle (mkRequest POST "/v1/auth/webauthn/login/start" None [] (toy_json_to_vec leak)) sample_state).1 = 200%N.
Proof. split; vm_compute; reflexivity. Qed.

(** ** A push over the whole stack *)

Definition wire_request : PushRequest :=
  mkPushRequest (pad 16 "mutation1") (pad 16 "object1") 0 OBJECT_KIND_NOTE
    (sample_envelope (pad 16 "object1") "v1") false.

Lemma sample_origin : origin_url "https://notes.example".
Proof. by intros path. Qed.

Lemma http_push_witness :
  exists srv, http_push_mutation wire_request (mkHttpNet (mkNativeAdapter "https://notes.example" (Some token)) sample_state)
    = (Ok (mkPushResponse (pad 16 "object1") 1 1), srv).
Proof.
  destruct (push_mutation acc wire_request (get_db sample_state)) as [out db'] eqn:Hpush.
  assert (out = Ok (Success (mkPushResponse (pad 16 "object1") 1 1))) as Hout.
  { change out with (out, db').1. rewrite <- Hpush. vm_compute. reflexivity. }
  exists (mkHttpNet (mkNativeAdapter "https://notes.example" (Some token)) (put_db db' (numbered sample_state))).
  rewrite (http_push_refines_db "https://notes.example" token
    (mkAuthenticatedAccount acc (Some dev) (Some (sp_session_id sample_session)))
    sample_origin eq_refl eq_refl sample_state wire_request out db').
  - by rewrite Hout.
  - vm_compute. reflexivity.
  - split; by vm_compute.
  - split; vm_compute; reflexivity.
  - by vm_compute.
  - exact Hpush.
Defined.

(** ** A passkey login *)

Definition credential_id : string := "credential-1".
Definition login_challenge : string := pad 32 "challenge".
Definition passkey_state : AppState :=
  mkAppState sample_config Db_empty
    (mkAuth (mkAuthDb {[acc := "active"]} ∅ ∅
               {[pad 16 "login1" := mkChallengeRow login_challenge (Some acc) "login" 900 1200]}
               {[credential_id := mkCredentialRow acc "key" 5 None None 800 None]} ∅ ∅) 1000 0 0).

Definition client_json : string := to_bits ("webauthn.get", toy_encode login_challenge, origin, false).
(** The relying party's digest, the flags (present and verified) and the counter 7. *)
Definition authenticator_data : string :=
  pad 32 "notes.example" +:+ String (ascii_of_N 5)
    (String (ascii_of_N 0) (String (ascii_of_N 0) (String (ascii_of_N 0) (String (ascii_of_N 7) "")))).
Definition login_body : string :=
  toy_json_to_vec (VObject
    [("challenge_id", VString (pad 16 "login1")); ("credential_id", VString (toy_encode credential_id));
     ("authenticator_data", VString (toy_encode authenticator_data));
     ("client_data_json", VString (toy_encode client_json));
     ("signature", VString (toy_encode ("key" +:+ authenticator_data +:+ pad 32 client_json)))]).

Lemma passkey_login_witness :
  exists resp st' req session challenge credential id count,
    run_handler (webauthn_login_finish_handler login_body) passkey_state = (resp, st')
    /\ rs_body resp = BSession session
    /\ PasskeyLogin req passkey_state st' session challenge credential id count.
Proof.
  assert (rs_status (run_handler (webauthn_login_finish_handler login_body) passkey_state).1 = 200%N) as Hs
    by (vm_compute; reflexivity).
  destruct (run_handler (webauthn_login_finish_handler login_body) passkey_state) as [resp st'] eqn:Hrun.
  cbn [fst] in Hs. exists resp, st'.
  destruct (passkey_login_sound login_body passkey_state resp st' Hrun)
    as (v & req & session & challenge & credential & id & count & _ & _ & Hbody & Hlogin).
  - rewrite Hs. reflexivity.
  - exists req, session, challenge, credential, id, count. exact (conj eq_refl (conj Hbody Hlogin)).
Defined.

(** ** A blob *)

Definition caller : AuthenticatedAccount := mkAuthenticatedAccount acc (Some dev) None.

Lemma blob_http_witness :
  exists st2, run_handler (get_blob_handler "blob-1" caller)
      (run_handler (put_blob_handler "blob-1" caller [] "ciphertext") sample_state).2
    = (mkResponse 200 [("content-type", Some "application/octet-stream"); ("content-length", Some "10")]
         (BBytes "ciphertext"), st2).
Proof.
  destruct (blob_http_roundtrip "blob-1" caller [] "ciphertext" sample_state
    (run_handler (put_blob_handler "blob-1" caller [] "ciphertext") sample_state).1
    (run_handler (put_blob_handler "blob-1" caller [] "ciphertext") sample_state).2)
    as (_ & _ & _ & _ & Hget & _).
  - apply surjective_pairing.
  - vm_compute. reflexivity.
  - exact Hget.
Defined.
