(* ===== verification/Push.v ===== *)
(** * Pushing the queue ([zk-sync/src/push.rs])

    [push_pending_changes], over any server and any storage backend. *)

From stdpp Require Import options.
From S2P Require Import Prelude Protocol StorageModels Storage CoreErrors Time Env Queue Text Diff3 Crypto.
From S2P Require Import Note Merge Conflict Adapter.

Record PushOptions : Type := mkPushOptions {
  po_max_mutations : option nat;
  po_stop_on_conflict : bool;
  po_conflict_policy : ConflictPolicy;
  po_vault_key : option string
}.

Record PushItemSuccess : Type := mkPushSuccess {
  ps_mutation_id : string;
  ps_object_id : string;
  ps_revision : N;
  ps_server_seq : N
}.

Record PushReport : Type := mkPushReport {
  prp_total_attempted : nat;
  prp_accepted : list PushItemSuccess;
  prp_conflicts : list PushItemConflict;
  prp_lww_resolved : list GuardedLwwOutcome;
  prp_transient_failures : nat
}.

Definition PushReport_default : PushReport := mkPushReport 0 [] [] [] 0.

Inductive PushError : Type :=
| PE_Network (e : SyncNetworkError)
| PE_Queue (e : QueueError)
| PE_Storage (e : StorageError).

Definition PushError_display (e : PushError) : string :=
  match e with
  | PE_Network err => "push network error: " +:+ SyncNetworkError_display err
  | PE_Queue err => "push queue error: " +:+ QueueError_display err
  | PE_Storage err => "push storage error: " +:+ StorageError_display err
  end.

Definition request_of (mutation : PendingMutation) : PushRequest :=
  mkPushRequest (mut_mutation_id mutation) (mut_object_id mutation) (mut_expected_revision mutation)
    (mut_object_kind mutation) (mut_envelope mutation) (is_delete mutation).

(** Ready for transmission: pending, or in flight from an earlier attempt. *)
Definition ready (mutation : PendingMutation) : bool :=
  bool_decide (mut_status mutation = Pending) || bool_decide (mut_status mutation = InFlight).

Definition attempted (r : PushReport) : PushReport :=
  mkPushReport (1 + prp_total_attempted r) (prp_accepted r) (prp_conflicts r) (prp_lww_resolved r)
    (prp_transient_failures r).
Definition add_accepted (i : PushItemSuccess) (r : PushReport) : PushReport :=
  mkPushReport (prp_total_attempted r) (prp_accepted r ++ [i]) (prp_conflicts r) (prp_lww_resolved r)
    (prp_transient_failures r).
Definition add_conflict (i : PushItemConflict) (r : PushReport) : PushReport :=
  mkPushReport (prp_total_attempted r) (prp_accepted r) (prp_conflicts r ++ [i]) (prp_lww_resolved r)
    (prp_transient_failures r).
Definition add_lww (i : GuardedLwwOutcome) (r : PushReport) : PushReport :=
  mkPushReport (prp_total_attempted r) (prp_accepted r) (prp_conflicts r) (prp_lww_resolved r ++ [i])
    (prp_transient_failures r).
Definition add_transient (r : PushReport) : PushReport :=
  mkPushReport (prp_total_attempted r) (prp_accepted r) (prp_conflicts r) (prp_lww_resolved r)
    (1 + prp_transient_failures r).

Module Push.
Section ops.
Context {Net S : Type} `{SyncServerAdapter Net} `{LocalStorage S} `{!Env} `{CryptoLib} `{NoteLib}.
Abbreviation P A := (M (World Net S) PushError A).
Abbreviation queue_op m := (on_local PE_Queue m).

(** The answer of the server to one mutation, and whether to go on. *)
Definition handle_answer (options : PushOptions) (mutation : PendingMutation)
    (answer : Result PushResponse SyncNetworkError) (report : PushReport) : P (PushReport * bool) :=
  let id := mut_mutation_id mutation in
  match answer with
  | Ok resp =>
      _ ← queue_op (Queue.acknowledge_accepted id (resp_revision resp) (resp_server_seq resp));
      mret (add_accepted (mkPushSuccess id (resp_object_id resp) (resp_revision resp)
                            (resp_server_seq resp)) report, true)
  | Err (NE_Conflict conflict) =>
      let is_del_conflict := conf_is_deleted conflict || is_delete mutation in
      if bool_decide (po_conflict_policy options = GuardedLww) && negb is_del_conflict then
        outcome ← queue_op (Conflict.evaluate_guarded_lww mutation conflict (po_vault_key options));
        mret (add_lww outcome report, true)
      else
        _ ← ignore (queue_op (Queue.mark_pending id));
        let push_conflict := mkPushConflict mutation conflict in
        _ ← on_local PE_Storage (Conflict.record_conflict push_conflict (po_vault_key options));
        mret (add_conflict push_conflict report, negb (po_stop_on_conflict options))
  | Err (NE_ConnectionFailed _) | Err (NE_ServerError _ _) =>
      _ ← ignore (queue_op (Queue.mark_pending id));
      mret (add_transient report, true)
  | Err fatal =>
      _ ← ignore (queue_op (Queue.mark_failed id));
      throw (PE_Network fatal)
  end.

Definition limit_reached (options : PushOptions) (report : PushReport) : bool :=
  match po_max_mutations options with
  | Some max => (max <=? prp_total_attempted report)%nat
  | None => false
  end.

(** The loop over the mutations that were pending at the start. *)
Fixpoint push_loop (options : PushOptions) (pending_mutations : list PendingMutation)
    (report : PushReport) : P PushReport :=
  match pending_mutations with
  | [] => mret report
  | mutation :: rest =>
      if limit_reached options report then mret report
      else if negb (ready mutation) then push_loop options rest report
      else
        let report := attempted report in
        _ ← queue_op (Queue.mark_in_flight (mut_mutation_id mutation));
        answer ← attempt (on_net (fun e => e) (ad_push_mutation (request_of mutation)));
        handled ← handle_answer options mutation answer report;
        if (handled.2 : bool) then push_loop options rest handled.1 else mret handled.1
  end.

Definition push_pending_changes (options : PushOptions) : P PushReport :=
  pending_mutations ← queue_op Queue.list_pending;
  push_loop options pending_mutations PushReport_default.
End ops.
End Push.

(** ** Pushing loses no edit

    For every server, whatever it answers, and every backend that meets
    [StorageSpec], whatever operation fails: a queued edit stays queued until
    the server accepted it, requests follow the queue, and every conflict the
    server reported is recorded.  Under Guarded last-write-wins a conflict also
    takes the object's queued edits out of the queue ([overridden]). *)

(** Statuses and retry counts changed, nothing else. *)
Record only_status (v v' : MemoryStorage) : Prop := {
  os_ids : queue_ids v' = queue_ids v;
  os_kept m : m ∈ mem_mutations v -> exists m', same_edit m m' /\ m' ∈ mem_mutations v';
  os_conflicts : mem_conflicts v' = mem_conflicts v;
  os_sync : mem_sync_state v' = mem_sync_state v
}.

Lemma only_status_refl v v' : v' = v -> only_status v v'.
Proof. intros ->. split; eauto with zk. Qed.

Lemma only_status_update id st n v v' :
  v' = with_mutations (update_first (Memory.by_mutation_id id) (Memory.set_status st n)) v ->
  only_status v v'.
Proof.
  intros ->. split; mem_simpl; [by rewrite fmap_update_first| |done..].
  intros m Hin. destruct (elem_of_update_first (Memory.by_mutation_id id) (Memory.set_status st n) _ m Hin).
  - eauto with zk.
  - eexists; split; [|done]. by exists st, n.
Qed.

Section rules.
Context {Net S : Type} `{SyncServerAdapter Net} `{StorageSpec S} `{!Env}.

Lemma wp_on_local {E E' A} (conv : E -> E') (m : M (Local S) E A) Q (w : World Net S) :
  wp m (fun r l' => Q (result_map_err conv r) (set_local l' w)) (w_local w) ->
  wp (on_local conv m) Q w.
Proof. intros HQ. unfold on_local. by apply wp_map_err, wp_zoom. Qed.

Lemma wp_marks id (upd : PendingMutation -> M S StorageError unit) (Q : _ -> Local S -> Prop) l :
  (forall m, exists st n, upd m = update_mutation_status id st n) ->
  (forall r l', only_status (l_view l) (l_view l') -> l_uuids l' = l_uuids l -> Q r l') ->
  wp (m ← Queue.find_mutation id; on_store QE_Storage (upd m)) Q l.
Proof.
  intros Hupd HQ. wp_step.
  unfold Queue.find_mutation. wp_step. wp_store; [|apply HQ; [by apply only_status_refl|congruence]].
  cbn beta iota. wp_step; [|apply HQ; [by apply only_status_refl|congruence]].
  match goal with |- context [upd ?m] => destruct (Hupd m) as (st & n & ->) end. wp_store; apply HQ.
  all: try congruence.
  all: first [by eapply only_status_update|by apply only_status_refl].
Qed.

Lemma wp_ack id rev seq (Q : _ -> Local S -> Prop) l :
  (forall o l', mem_mutations (l_view l') = remove_first (Memory.by_mutation_id id) (mem_mutations (l_view l)) ->
     mem_conflicts (l_view l') = mem_conflicts (l_view l) ->
     mem_sync_state (l_view l') = mem_sync_state (l_view l) -> l_uuids l' = l_uuids l -> Q (Ok o) l') ->
  (forall e l', only_status (l_view l) (l_view l') -> l_uuids l' = l_uuids l -> Q (Err e) l') ->
  wp (Queue.acknowledge_accepted id rev seq) Q l.
Proof.
  intros HQ HE. unfold Queue.acknowledge_accepted, Queue.find_mutation. wp_steps.
  all: try congruence.
  all: try (apply HQ; [by view_simpl|by view_simpl|by view_simpl|congruence]; fail).
  all: apply HE; [|congruence]; split; view_simpl; eauto with zk.
Qed.
End rules.

(** ** The invariant of the loop *)

Section push.
Context {Net S : Type} `{SyncServerAdapter Net} `{StorageSpec S} `{!Env} `{CryptoLib} `{NoteLib}.
Context `{!CryptoLaws} `{!NoteLaws} `{!Inj (=) (=) uuid_v4}.
Abbreviation W := (World (Logged Net) S).
Abbreviation Log := (list (PushRequest * Result PushResponse SyncNetworkError)).

Definition w_view (w : W) : MemoryStorage := l_view (w_local w).

(** The request that carries exactly this edit. *)
Definition carrying (m : PendingMutation) : PushRequest :=
  mkPushRequest (mut_mutation_id m) (mut_object_id m) (mut_expected_revision m) (mut_object_kind m)
    (mut_envelope m) (is_delete m).

Definition accepted_in (es : Log) (m : PendingMutation) : Prop :=
  exists resp, (carrying m, Ok resp) ∈ es.

(** Whether the policy settles the conflict by itself: Guarded last-write-wins
    does, unless one of the two sides is a deletion. *)
Definition settles (policy : ConflictPolicy) (req : PushRequest) (c : ConflictResponse) : bool :=
  bool_decide (policy = GuardedLww) && negb (conf_is_deleted c || req_is_deleted req).

(** A conflict about the edit's object was settled by the policy, which takes
    every queued edit of the object out of the queue. *)
Definition overridden (policy : ConflictPolicy) (es : Log) (m : PendingMutation) : Prop :=
  exists req c, (req, Err (NE_Conflict c)) ∈ es /\ req_object_id req = mut_object_id m
    /\ settles policy req c = true.

(** The edit is queued as it was, or was accepted, or overridden. *)
Definition accounted (policy : ConflictPolicy) (es : Log) (v : MemoryStorage) (m : PendingMutation) : Prop :=
  (exists m', same_edit m m' /\ m' ∈ mem_mutations v) \/ accepted_in es m \/ overridden policy es m.

(** A record with both versions, under an identifier drawn before; resolved if
    the policy settled the conflict, unresolved otherwise. *)
Definition conflict_kept (options : PushOptions) (l : Local S) (req : PushRequest) (c : ConflictResponse) : Prop :=
  exists n rec, n < l_uuids l /\ mem_conflicts (l_view l) !! uuid_v4 n = Some rec
    /\ cr_resolved rec = settles (po_conflict_policy options) req c
    /\ cr_object_id rec = req_object_id req /\ cr_local_envelope rec = req_envelope req
    /\ cr_remote_envelope rec = conf_current_envelope c
    /\ cr_remote_revision rec = conf_current_revision c.

Definition conflicts_kept (options : PushOptions) (es : Log) (l : Local S) : Prop :=
  forall req c, (req, Err (NE_Conflict c)) ∈ es -> conflict_kept options l req c.

(** [v]: the store at the start; [es]: the pushes since. *)
Record push_inv (options : PushOptions) (v : MemoryStorage) (es : Log) (l : Local S) : Prop := {
  pi_unique : NoDup (queue_ids (l_view l));
  pi_kept m : m ∈ mem_mutations v -> accounted (po_conflict_policy options) es (l_view l) m;
  pi_sync : mem_sync_state (l_view l) = mem_sync_state v
}.

(** Accepted mutations have left the queue.  (Under Guarded last-write-wins an
    edit is queued again under a new identifier.) *)
Definition accepted_gone (options : PushOptions) (v : MemoryStorage) (es : Log) (l : Local S) : Prop :=
  po_conflict_policy options = Manual -> forall m, m ∈ mem_mutations v -> accepted_in es m -> mut_mutation_id m ∉ queue_ids (l_view l).

Lemma push_inv_status options v es l l' :
  push_inv options v es l -> only_status (l_view l) (l_view l') -> push_inv options v es l'.
Proof using Type.
  intros [Hu Hk Hy] [Hi Hk' _ Hy']. split; [by rewrite Hi| |congruence]. intros m Hm.
  destruct (Hk m Hm) as [(m1 & Hs1 & Hin1)|?]; [|by right]. left.
  destruct (Hk' m1 Hin1) as (m2 & Hs2 & Hin2). eauto with zk.
Qed.

Lemma push_inv_log options v es l e : push_inv options v es l -> push_inv options v (es ++ [e]) l.
Proof using Type.
  intros [Hu Hk Hy]. split; [done| |done]. intros m Hm.
  destruct (Hk m Hm) as [?|[(r & ?)|(req & c & ? & ?)]]; [by left|right; left|right; right].
  - exists r. apply elem_of_app. auto.
  - exists req, c. split; [apply elem_of_app; auto|done].
Qed.

Lemma conflicts_kept_same options es l l' :
  mem_conflicts (l_view l') = mem_conflicts (l_view l) -> l_uuids l <= l_uuids l' ->
  conflicts_kept options es l -> conflicts_kept options es l'.
Proof using Type.
  intros Hc Hu Hk req c Hin. destruct (Hk req c Hin) as (n & rec & Hn & Hrec). exists n, rec.
  rewrite Hc. split; [lia|done].
Qed.

(** The answer to [m] was acceptance: it leaves the queue. *)
Lemma push_inv_accept options v es l l' m resp :
  NoDup (queue_ids v) -> m ∈ mem_mutations v -> push_inv options v es l -> (request_of m, Ok resp) ∈ es ->
  mem_mutations (l_view l') = remove_first (Memory.by_mutation_id (mut_mutation_id m)) (mem_mutations (l_view l)) ->
  mem_sync_state (l_view l') = mem_sync_state (l_view l) ->
  push_inv options v es l'.
Proof using Type.
  intros Hnd Hm [Hu Hk Hy] Hacc Hq Hy'. split; [rewrite Hq; by apply NoDup_remove_first| |congruence].
  intros m0 Hm0. destruct (Hk m0 Hm0) as [(m1 & Hs1 & Hin1)|?]; [|by right].
  destruct (decide (mut_mutation_id m0 = mut_mutation_id m)) as [Hid|Hne].
  - right; left. exists resp.
    pose proof (find_first_key_unique mut_mutation_id _ _ Hnd Hm0) as H1'.
    pose proof (find_first_key_unique mut_mutation_id _ _ Hnd Hm) as H2'. by replace m0 with m by congruence.
  - left. exists m1. split; [done|]. rewrite Hq. apply elem_of_remove_first_2; [done|].
    apply has_key_false. rewrite (same_edit_id _ _ Hs1). done.
Qed.

Lemma accepted_in_app es e m : accepted_in (es ++ [e]) m -> accepted_in es m \/ exists resp, e = (request_of m, Ok resp).
Proof using Type.
  intros (resp & Hin). apply elem_of_app in Hin as [?|Hin]; [left; by eexists|right].
  apply list_elem_of_singleton in Hin. by eexists.
Qed.

Lemma accepted_gone_ids options v es l l' :
  accepted_gone options v es l -> (forall id, id ∈ queue_ids (l_view l') -> id ∈ queue_ids (l_view l)) ->
  accepted_gone options v es l'.
Proof using Type. intros Hg Hids Hpol m Hm Hacc Hin. by eapply Hg; [..|apply Hids]. Qed.

Lemma accepted_gone_err options v es l req e :
  accepted_gone options v es l -> accepted_gone options v (es ++ [(req, Err e)]) l.
Proof using Type. intros Hg Hpol m Hm Hacc. apply accepted_in_app in Hacc as [Hacc|(? & [=])]. by apply Hg. Qed.

Lemma conflicts_kept_other options es l req r :
  (forall c, r <> Err (NE_Conflict c)) -> conflicts_kept options es l -> conflicts_kept options (es ++ [(req, r)]) l.
Proof using Type.
  intros Hr Hk req' c Hin. apply elem_of_app in Hin as [Hin|Hin]; [by apply Hk|].
  apply list_elem_of_singleton in Hin as [= -> Hc]. by destruct (Hr c).
Qed.

(** What holds between two turns of the loop. *)
Record turn (options : PushOptions) (v : MemoryStorage) (es : Log) (l : Local S) : Prop := {
  tn_inv : push_inv options v es l;
  tn_conflicts : conflicts_kept options es l;
  tn_gone : accepted_gone options v es l
}.

Lemma turn_status options v es l l' :
  turn options v es l -> only_status (l_view l) (l_view l') -> l_uuids l <= l_uuids l' -> turn options v es l'.
Proof using Type.
  intros [Hi Hc Hg] Hos Hu. split.
  - by eapply push_inv_status.
  - eapply conflicts_kept_same; [|done..]. apply Hos.
  - eapply accepted_gone_ids; [done|]. intros id. by rewrite (os_ids _ _ Hos).
Qed.

Lemma turn_err options v es l req e :
  (forall c, e <> NE_Conflict c) -> turn options v es l -> turn options v (es ++ [(req, Err e)]) l.
Proof using Type.
  intros He [Hi Hc Hg]. split; [by apply push_inv_log| |by apply accepted_gone_err].
  apply conflicts_kept_other; [|done]. intros c [= ->]. by apply (He c).
Qed.

Lemma turn_accepted options v es l l' m resp :
  NoDup (queue_ids v) -> m ∈ mem_mutations v -> turn options v es l ->
  mem_mutations (l_view l') = remove_first (Memory.by_mutation_id (mut_mutation_id m)) (mem_mutations (l_view l)) ->
  mem_conflicts (l_view l') = mem_conflicts (l_view l) ->
  mem_sync_state (l_view l') = mem_sync_state (l_view l) -> l_uuids l' = l_uuids l ->
  turn options v (es ++ [(request_of m, Ok resp)]) l'.
Proof using Type.
  intros Hnd Hm [Hi Hc Hg] Hq Hconf Hy Hu. split.
  - eapply push_inv_accept; [done|done|by apply push_inv_log| |done|done]. apply elem_of_app. right. left.
  - apply conflicts_kept_other; [done|]. eapply conflicts_kept_same; [done|lia|done].
  - intros Hpol m0 Hm0 Hacc. rewrite Hq. apply accepted_in_app in Hacc as [Hacc|(resp' & [= Hid _])].
    + intros Hin. apply (Hg Hpol m0 Hm0 Hacc). eapply list_elem_of_fmap in Hin as (x & -> & Hx).
      apply list_elem_of_fmap_2. by apply elem_of_remove_first in Hx.
    + rewrite <- Hid. apply (find_first_key_None mut_mutation_id).
      apply (find_first_remove_first mut_mutation_id), Hi.
Qed.

(** A conflict was recorded under the next identifier. *)
Lemma conflicts_kept_new options es l l' req c rec :
  conflicts_kept options es l -> mem_conflicts (l_view l') = <[uuid_v4 (l_uuids l) := rec]> (mem_conflicts (l_view l)) ->
  l_uuids l < l_uuids l' -> cr_resolved rec = settles (po_conflict_policy options) req c ->
  cr_object_id rec = req_object_id req -> cr_local_envelope rec = req_envelope req ->
  cr_remote_envelope rec = conf_current_envelope c -> cr_remote_revision rec = conf_current_revision c ->
  conflicts_kept options (es ++ [(req, Err (NE_Conflict c))]) l'.
Proof using Type*.
  intros Hk Hc Hu Hrec. intros. intros req' c' Hin. apply elem_of_app in Hin as [Hin|Hin].
  - destruct (Hk req' c' Hin) as (n & rec' & Hn & Hrec' & Hrest). exists n, rec'. split; [lia|].
    split; [|done]. rewrite Hc, lookup_insert_ne; [done|]. intros Heq%(inj uuid_v4). lia.
  - apply list_elem_of_singleton in Hin as [= -> ->]. exists (l_uuids l), rec. split; [lia|].
    by rewrite Hc, lookup_insert_eq.
Qed.

Lemma turn_conflict options v es l l' m c key rec outcome :
  settles (po_conflict_policy options) (request_of m) c = false ->
  turn options v es l -> recorded (mkPushConflict m c) key (l_view l) rec outcome (l_view l') ->
  cr_conflict_id rec = uuid_v4 (l_uuids l) -> l_uuids l' = Datatypes.S (l_uuids l) ->
  turn options v (es ++ [(request_of m, Err (NE_Conflict c))]) l'.
Proof using Type*.
  intros Hset [Hi Hc Hg] (Hv & Hoid & _ & Hrev & _ & Hl & Hr & _ & _ & Hres & _) Hid Hu. split.
  - destruct (push_inv_log options _ _ _ (request_of m, Err (NE_Conflict c)) Hi) as [Hq Hk Hy].
    split; by rewrite Hv.
  - eapply conflicts_kept_new; [exact Hc|by rewrite Hv, <- Hid|lia|by rewrite Hres|done..].
  - eapply accepted_gone_ids; [by apply accepted_gone_err|]. intros id. by rewrite Hv.
Qed.

(** The policy settled the conflict, or failed on the way. *)
Lemma push_inv_lww options v es l l' m c r :
  settles (po_conflict_policy options) (request_of m) c = true -> push_inv options v es l ->
  lww_frame m c (l_uuids l) (l_view l) r l' ->
  push_inv options v (es ++ [(request_of m, Err (NE_Conflict c))]) l'.
Proof using Type.
  intros Hset Hi [Hu Hoth Hy _]. destruct (push_inv_log _ _ _ _ (request_of m, Err (NE_Conflict c)) Hi) as [_ Hk Hy0].
  split; [done| |congruence]. intros m0 Hm0. destruct (Hk m0 Hm0) as [(m1 & Hs1 & Hin1)|?]; [|by right].
  destruct (decide (mut_object_id m1 = mut_object_id m)) as [Heq|Hne]; [right; right|left; eauto].
  exists (request_of m), c. split_and!; [apply elem_of_app; right; left| |done].
  destruct Hs1 as (? & ? & ->). done.
Qed.

Lemma turn_lww options v es l l' m c out :
  settles (po_conflict_policy options) (request_of m) c = true -> turn options v es l ->
  lww_frame m c (l_uuids l) (l_view l) (Ok out) l' ->
  turn options v (es ++ [(request_of m, Err (NE_Conflict c))]) l'.
Proof using Type*.
  intros Hset [Hi Hc Hg] Hf. split; [by eapply push_inv_lww| |].
  - destruct (lf_record _ _ _ _ _ _ Hf) as (Hu & rec & Hrec & Hres & Hoid & Hl & Hr & Hrev).
    eapply conflicts_kept_new; [exact Hc|exact Hrec|done|by rewrite Hres|done..].
  - intros Hpol. unfold settles in Hset. by rewrite Hpol in Hset.
Qed.

Lemma wp_mark_ignored {E} (mark : string -> M (Local S) QueueError unit) id
    (Q : Result unit E -> W -> Prop) (w : W) :
  mark = Queue.mark_pending \/ mark = Queue.mark_failed ->
  (forall l', only_status (l_view (w_local w)) (l_view l') -> l_uuids l' = l_uuids (w_local w) ->
     Q (Ok tt) (set_local l' w)) ->
  wp (ignore (on_local PE_Queue (mark id))) Q w.
Proof using Type.
  intros Hmark HQ. apply wp_ignore, wp_on_local.
  destruct Hmark as [-> | ->].
  - apply (wp_marks _ (fun m => update_mutation_status _ Pending _)); eauto.
  - apply (wp_marks _ (fun m => update_mutation_status _ Failed _)); eauto.
Qed.

Lemma wp_handle_conflict options m c report v es (w : W) :
  turn options v es (w_local w) ->
  wp (Push.handle_answer options m (Err (NE_Conflict c)) report)
    (fun r w' => w_net w' = w_net w /\ push_inv options v (es ++ [(request_of m, Err (NE_Conflict c))]) (w_local w')
       /\ match r with
          | Ok p => turn options v (es ++ [(request_of m, Err (NE_Conflict c))]) (w_local w')
              /\ (po_stop_on_conflict options = false -> p.2 = true)
              /\ prp_total_attempted p.1 = prp_total_attempted report
          | Err _ => True
          end) w.
Proof using Type*.
  intros Hturn. unfold Push.handle_answer. cbv zeta.
  change (bool_decide (po_conflict_policy options = GuardedLww) && negb (conf_is_deleted c || is_delete m))
    with (settles (po_conflict_policy options) (request_of m) c).
  destruct (settles (po_conflict_policy options) (request_of m) c) eqn:Hset.
  - wp_step. apply wp_on_local. eapply wp_mono; [apply wp_guarded_lww, Hturn|].
    intros [out|e] l' Hf; cbn [result_map_err].
    + pose proof (turn_lww _ _ _ _ _ _ _ _ Hset Hturn Hf) as Ht. wp_step. split_and!; [done|by apply tn_inv|done..].
    + split_and!; [done| |done]. eapply push_inv_lww; [done|apply Hturn|done].
  - wp_step. apply wp_mark_ignored; [auto|]. intros l' Hos Hu. cbn beta iota.
    wp_step. apply wp_on_local. assert (turn options v es l') as Hturn' by (eapply turn_status; [done..|lia]).
    apply wp_record_conflict; cbn [result_map_err w_local set_local].
    + intros rec outcome l2 Hrec Hid Hu2. wp_step.
      pose proof (turn_conflict _ _ _ _ _ _ _ _ _ _ Hset Hturn' Hrec Hid Hu2) as Ht.
      split_and!; [done|by apply tn_inv|done|by intros ->|done].
    + intros e l2 Hv2 Hu2. split_and!; [done| |done].
      destruct (push_inv_log _ _ _ _ (request_of m, Err (NE_Conflict c)) (tn_inv _ _ _ _ Hturn')) as [Hq Hk Hy].
      split; by rewrite Hv2.
Qed.

Lemma wp_handle_answer options m answer report v es (w : W) :
  NoDup (queue_ids v) -> m ∈ mem_mutations v -> turn options v es (w_local w) ->
  wp (Push.handle_answer options m answer report)
    (fun r w' => w_net w' = w_net w /\ push_inv options v (es ++ [(request_of m, answer)]) (w_local w')
       /\ match r with
          | Ok p => turn options v (es ++ [(request_of m, answer)]) (w_local w')
              /\ (po_stop_on_conflict options = false -> p.2 = true)
              /\ prp_total_attempted p.1 = prp_total_attempted report
          | Err _ => True
          end) w.
Proof using Type*.
  intros Hnd Hm Hturn. unfold Push.handle_answer.
  destruct answer as [resp|err].
  { wp_step. apply wp_on_local, wp_ack; cbn [result_map_err].
    - intros o l' Hq Hc Hy Hu. wp_step. pose proof (turn_accepted _ _ _ _ _ _ resp Hnd Hm Hturn Hq Hc Hy Hu).
      split_and!; [done|by apply tn_inv|done..].
    - intros e l' Hos Hu. split_and!; [done| |done].
      eapply push_inv_status; [|done]. apply push_inv_log, Hturn. }
  assert (forall l', only_status (l_view (w_local w)) (l_view l') -> l_uuids l' = l_uuids (w_local w) ->
    (forall c, err <> NE_Conflict c) -> turn options v (es ++ [(request_of m, Err err)]) l') as Hother.
  { intros l' Hos Hu Hne. apply turn_err; [done|]. eapply turn_status; [done..|lia]. }
  destruct err; cbv zeta.
  all: try (wp_step; (apply wp_mark_ignored; [auto|]); intros l' Hos Hu; cbn beta iota;
    wp_step; split_and!; [done|by apply tn_inv, Hother|try by apply Hother..|done|done]; fail).
  all: try (wp_step; (apply wp_mark_ignored; [auto|]); intros l' Hos Hu; cbn beta iota;
    wp_step; split_and!; [done|by apply tn_inv, Hother|done]; fail).
  by apply wp_handle_conflict.
Qed.

(** ** The loop *)

Definition all_sent (options : PushOptions) : Prop :=
  po_max_mutations options = None /\ po_stop_on_conflict options = false.

Lemma wp_logged_push {E} req (Q : Result (Result PushResponse SyncNetworkError) E -> W -> Prop) (w : W) :
  (forall r w', w_local w' = w_local w -> lg_pushes (w_net w') = lg_pushes (w_net w) ++ [(req, r)] -> Q (Ok r) w') ->
  wp (attempt (on_net (fun e => e) (ad_push_mutation req))) Q w.
Proof using Type.
  intros HQ. apply wp_attempt. unfold on_net. apply wp_map_err, wp_zoom. unfold wp. cbn. unfold logged_push.
  destruct (ad_push_mutation req (lg_net (w_net w))) as [r n]. cbn.
  replace (result_map_err (fun e => e) r) with r by (by destruct r). by apply HQ.
Qed.

Lemma wp_push_loop options v es rest : forall (w : W) log0 report,
  NoDup (queue_ids v) -> (forall m, m ∈ rest -> m ∈ mem_mutations v) ->
  lg_pushes (w_net w) = log0 ++ es -> turn options v es (w_local w) ->
  wp (Push.push_loop options rest report)
    (fun r w' => exists new, lg_pushes (w_net w') = log0 ++ es ++ new
       /\ sublist (map fst new) (map request_of (List.filter ready rest))
       /\ push_inv options v (es ++ new) (w_local w')
       /\ match r with
          | Ok report' => turn options v (es ++ new) (w_local w')
              /\ prp_total_attempted report' = prp_total_attempted report + length new
              /\ (all_sent options -> map fst new = map request_of (List.filter ready rest))
          | Err _ => True
          end) w.
Proof using Type*.
  revert es. induction rest as [|m rest IH]; intros es w log0 report Hnd Hrest Hlog Hturn; cbn [Push.push_loop].
  { wp_step. exists []. rewrite !app_nil_r. split_and!; [done..|by apply tn_inv|done|cbn; lia|done]. }
  cbn [List.filter]. destruct (Push.limit_reached options report) eqn:Hlim.
  { wp_step. exists []. rewrite !app_nil_r. split_and!; [done|apply sublist_nil_l|by apply tn_inv|done|cbn; lia|].
    intros [Hmax _]. unfold Push.limit_reached in Hlim. by rewrite Hmax in Hlim. }
  destruct (ready m) eqn:Hready; cbn [negb];
    [|apply IH; [done|intros; apply Hrest; by right|done|done]].
  wp_step. apply wp_on_local, (wp_marks _ (fun m => update_mutation_status _ InFlight _)); [eauto|].
  intros r l1 Hos Hu. assert (turn options v es l1) as Hturn1 by (eapply turn_status; [done..|lia]).
  destruct r as [[]|e]; cbn [result_map_err];
    [|exists []; rewrite !app_nil_r; split_and!; [done|apply sublist_nil_l|by apply tn_inv|done]].
  wp_step. apply wp_logged_push. intros answer w2 Hl2 Hlog2. cbn beta iota. cbn [set_local w_local w_net] in *.
  wp_step. eapply wp_mono; [apply (wp_handle_answer _ _ _ _ v es)|]; [done|apply Hrest; left|by rewrite Hl2|].
  intros r w3 (Hnet & Hinv & Hr). destruct r as [[report' go]|e].
  - destruct Hr as (Hturn3 & Hgo & Hatt). cbn [fst snd] in *.
    assert (lg_pushes (w_net w3) = log0 ++ es ++ [(request_of m, answer)]) as Hlog3
      by (by rewrite Hnet, Hlog2, Hlog, app_assoc).
    destruct go.
    + eapply wp_mono; [apply (IH (es ++ [(request_of m, answer)]) w3 log0 report')|];
        [done|intros; apply Hrest; by right|done|done|].
      intros r w4 (new & Hlog4 & Hsub & Hinv4 & Hr). exists ((request_of m, answer) :: new).
      rewrite <- !app_assoc in *. cbn in *. split_and!; [done|by apply sublist_skip|done|].
      destruct r as [report''|]; [|done]. destruct Hr as (Ht & Ha & Hall). split_and!; [done|lia|].
      intros Hs. by rewrite (Hall Hs).
    + wp_step. exists [(request_of m, answer)].
      split_and!; [done|cbn; apply sublist_skip, sublist_nil_l|done|done|cbn in *; lia|].
      intros [_ Hstop]. by specialize (Hgo Hstop).
  - exists [(request_of m, answer)]. rewrite Hnet, Hlog2, Hlog. split_and!; [by rewrite app_assoc| |done|done].
    cbn. apply sublist_skip, sublist_nil_l.
Qed.

(** What a push leaves: [es] are the requests sent and their answers. *)
Definition push_post (options : PushOptions) (w : W) (r : Result PushReport PushError) (w' : W) : Prop :=
  exists es, lg_pushes (w_net w') = lg_pushes (w_net w) ++ es
  /\ sublist (map fst es) (map carrying (List.filter ready (mem_mutations (w_view w))))
  /\ NoDup (queue_ids (w_view w')) /\ mem_sync_state (w_view w') = mem_sync_state (w_view w)
  /\ (forall m, m ∈ mem_mutations (w_view w) -> accounted (po_conflict_policy options) es (w_view w') m)
  /\ match r with
     | Ok report =>
         accepted_gone options (w_view w) es (w_local w') /\ conflicts_kept options es (w_local w')
         /\ prp_total_attempted report = length es
         /\ (all_sent options ->
             map fst es = map carrying (List.filter ready (mem_mutations (w_view w))))
     | Err _ => True
     end.

Lemma wp_push_pending options (w : W) :
  NoDup (queue_ids (w_view w)) -> wp (Push.push_pending_changes options) (push_post options w) w.
Proof using Type*.
  intros Hnd. unfold Push.push_pending_changes. wp_step. apply wp_on_local.
  unfold Queue.list_pending. wp_store; cbn [result_map_err w_local set_local].
  - eapply wp_mono; [apply (wp_push_loop options (w_view w) [] _ _ (lg_pushes (w_net w)))|].
    + done.
    + done.
    + by rewrite app_nil_r.
    + split; [split| |]; cbn [w_local set_local]; rewrite ?Hview; [done| |done|..].
      * intros m Hm. left. eauto with zk.
      * intros req c Hin. by apply elem_of_nil in Hin.
      * intros _ m Hm (resp & Hin). by apply elem_of_nil in Hin.
    + intros r1 w1 (es & Hlog & Hsub & [Hu Hk Hy] & Hr). exists es. split_and!; [done..|].
      destruct r1 as [report|]; [|done]. destruct Hr as ([_ Hc Hg] & Ha & Hall). done.
  - exists []. unfold w_view. cbn. rewrite app_nil_r, Hview.
    split_and!; [done|apply sublist_nil_l|done|done|intros m Hm; left; eauto with zk|done].
Qed.

(** C6. Pushing loses no edit.  Whatever the server answers and whichever storage
    operation fails: requests follow the queue, each mutation that is ready is
    sent at most once, with its own identifier, base revision and envelope;
    identifiers stay unique; the sync state is untouched; and every queued edit
    is still queued, or the server accepted it, or, only under Guarded
    last-write-wins, a conflict about its object without a deletion was answered,
    which the policy settles by dropping the object's queued edits.  If the push
    returns a report, every conflict the server reported has a record with both
    versions, resolved exactly when the policy settled it; without a limit every
    ready mutation was sent; and under the manual policy accepted mutations have
    left the queue. *)
Theorem push_loses_nothing options (w : W) r w' :
  NoDup (queue_ids (w_view w)) -> Push.push_pending_changes options w = (r, w') ->
  push_post options w r w'.
Proof using Type*. intros Hnd. as_wp. by apply wp_push_pending. Qed.
End push.
