(* ===== verification/Pull.v ===== *)
(** * Pulling remote changes ([zk-sync/src/pull.rs])

    [pull_remote_changes] over any server and any storage backend.  The loop
    over the pages carries fuel, [None] when it runs out; [pull_complete]
    gives the fuel that suffices against a server with a finite feed. *)

From stdpp Require Import options.
From S2P Require Import Prelude Protocol StorageModels Storage CoreErrors Time Env Cursor.
From S2P Require Import Text Diff3 Crypto Note Adapter.

Inductive LockedSyncBehavior : Type := StoreCiphertextDeferDecryption.

Record PullOptions : Type := mkPullOptions {
  plo_page_limit : option N;
  plo_max_pages : option nat;
  plo_locked_behavior : LockedSyncBehavior
}.

Definition PullOptions_default : PullOptions :=
  mkPullOptions (Some 50%N) None StoreCiphertextDeferDecryption.

Record DecryptedPullItem : Type := mkPullItem {
  dpi_object_id : string;
  dpi_revision : N;
  dpi_server_seq : N;
  dpi_is_deleted : bool;
  dpi_note : option PlaintextNote
}.

Record PullReport : Type := mkPullReport {
  plr_pages_fetched : nat;
  plr_total_changes : nat;
  plr_applied_changes : nat;
  plr_initial_cursor : N;
  plr_final_cursor : N;
  plr_was_unlocked : bool;
  plr_decrypted_items : list DecryptedPullItem
}.

Inductive PullError : Type :=
| PuE_Network (e : SyncNetworkError)
| PuE_Cursor (e : CursorError)
| PuE_Storage (e : StorageError)
| PuE_Core (e : CoreError).

Module Pull.
Section ops.
Context {Net S : Type} `{SyncServerAdapter Net} `{LocalStorage S} `{!Env} `{CryptoLib} `{NoteLib}.

(** The loop over one page: the cursor and the changes applied. *)
Fixpoint apply_page (changes : list ObjectChange) (current_seq : N) (all_applied : list ObjectChange)
    : M (Local S) CursorError (N * list ObjectChange) :=
  match changes with
  | [] => mret (current_seq, all_applied)
  | change :: rest =>
      if (ch_server_seq change <=? current_seq)%N && (0 <? current_seq)%N
      then apply_page rest current_seq all_applied
      else
        _ ← Cursor.apply_change change;
        apply_page rest (ch_server_seq change) (all_applied ++ [change])
  end.

Abbreviation P A := (M (World Net S) PullError A).

Definition page_limit_reached (options : PullOptions) (pages_fetched : nat) : bool :=
  match plo_max_pages options with
  | Some max_p => (max_p <=? pages_fetched)%nat
  | None => false
  end.

Fixpoint pull_loop (fuel : nat) (options : PullOptions) (current_seq : N) (pages_fetched : nat)
    (all_applied : list ObjectChange) : P (option (N * nat * list ObjectChange)) :=
  match fuel with
  | O => mret None
  | Datatypes.S fuel' =>
      if page_limit_reached options pages_fetched
      then mret (Some (current_seq, pages_fetched, all_applied))
      else
        resp ← on_net PuE_Network (ad_pull_changes current_seq (plo_page_limit options));
        let pages_fetched := (1 + pages_fetched)%nat in
        match pr_changes resp with
        | [] => mret (Some (current_seq, pages_fetched, all_applied))
        | changes =>
            page ← on_local PuE_Cursor (apply_page changes current_seq all_applied);
            if pr_has_more resp then pull_loop fuel' options page.1 pages_fetched page.2
            else mret (Some (page.1, pages_fetched, page.2))
        end
  end.

Definition decrypt_item (key : string) (change : ObjectChange) : Result DecryptedPullItem CoreError :=
  if ch_is_deleted change then
    Ok (mkPullItem (ch_object_id change) (ch_revision change) (ch_server_seq change) true None)
  else
    note ← decrypt (ch_envelope change) key;
    Ok (mkPullItem (ch_object_id change) (ch_revision change) (ch_server_seq change) false (Some note)).

Fixpoint decrypt_items (key : string) (changes : list ObjectChange)
    : Result (list DecryptedPullItem) CoreError :=
  match changes with
  | [] => Ok []
  | change :: rest =>
      item ← decrypt_item key change;
      items ← decrypt_items key rest;
      Ok (item :: items)
  end.

Definition decrypt_all (vault_key : option string) (changes : list ObjectChange)
    : Result (list DecryptedPullItem) CoreError :=
  match vault_key with Some key => decrypt_items key changes | None => Ok [] end.

Definition pull_remote_changes (fuel : nat) (vault_key : option string) (options : PullOptions)
    : P (option PullReport) :=
  initial_cursor ← on_local PuE_Cursor Cursor.current_cursor;
  looped ← pull_loop fuel options initial_cursor 0 [];
  match looped with
  | None => mret None
  | Some (current_seq, pages_fetched, all_applied) =>
      _ ← ignore (on_local PuE_Cursor Cursor.record_sync_success);
      decrypted_items ← lift_result (result_map_err PuE_Core (decrypt_all vault_key all_applied));
      mret (Some (mkPullReport pages_fetched (length all_applied) (length all_applied) initial_cursor
        current_seq (match vault_key with Some _ => true | None => false end) decrypted_items))
  end.
End ops.
End Pull.

(** ** Facts *)

Section facts.
Context {Net S : Type} `{SyncServerAdapter Net} `{StorageSpec S} `{!Env} `{CryptoLib} `{NoteLib}.
Implicit Types l : Local S.

Lemma progress_trans v pre v1 pre' v2 :
  progress v pre v1 -> progress v1 pre' v2 -> progress v (pre ++ pre') v2.
Proof.
  intros [Hc1 Hr1 Hb1 Ha1 Hk1] [Hc2 Hr2 Hb2 Ha2 Hk2]. rewrite Forall_forall in *. split.
  - lia.
  - setoid_rewrite elem_of_app. destruct Hr2 as [->|(c & ? & ?)]; [destruct Hr1 as [?|(c & ? & ?)]|]; eauto.
  - apply Forall_forall. intros c [Hin|Hin]%elem_of_app; [specialize (Hb1 _ Hin); lia|auto].
  - apply Forall_forall. intros c [Hin|Hin]%elem_of_app; [|auto].
    apply Hk2; [by apply Hb1|by apply Ha1].
  - intros c Hle Happ. apply Hk2; [lia|auto].
Qed.

(** Any page: progress, and the counter stays at the stored cursor. *)
Lemma wp_apply_page changes : forall v pre acc Q l,
  progress v pre (l_view l) ->
  (forall acc' pre' l', progress v pre' (l_view l') -> Q (Ok (cursor_of (l_view l'), acc')) l') ->
  (forall e pre' l', progress v pre' (l_view l') -> Q (Err e) l') ->
  wp (Pull.apply_page changes (cursor_of (l_view l)) acc) Q l.
Proof.
  induction changes as [|c changes IH]; intros v pre acc Q l Hpg HQ HE; cbn [Pull.apply_page].
  { apply wp_ret. by eapply HQ. }
  destruct (_ && _) eqn:Hskip; [by eapply IH|].
  wp_step. apply wp_apply_change.
  - intros l' Hlt (t & Hv). assert (cursor_of (l_view l') = ch_server_seq c) as Hcur by (by rewrite Hv).
    rewrite <- Hcur. eapply (IH v (pre ++ [c])); [|done|done]. rewrite Hv. by apply progress_advance.
  - intros l' Hle Hv. apply andb_false_iff in Hskip as [Hs%N.leb_gt|Hs%N.ltb_ge]; [lia|].
    replace (ch_server_seq c) with (cursor_of (l_view l')) by (rewrite Hv; lia).
    eapply IH; [by rewrite Hv|done|done].
  - intros e l' [Hv|[Hlt (t & Hv)]]; (eapply HE; rewrite Hv); [done|by apply progress_put].
Qed.

Lemma wp_on_net {E A} (conv : SyncNetworkError -> E) (m : M Net SyncNetworkError A) Q (w : World Net S) :
  (forall r n, m (w_net w) = (r, n) -> Q (result_map_err conv r) (set_net n w)) -> wp (on_net conv m) Q w.
Proof. intros HQ. unfold on_net. apply wp_map_err, wp_zoom, wp_intro. intros r n Hm. by apply HQ. Qed.

Lemma wp_to_local {E E' A} (conv : E -> E') (m : M (Local S) E A) Q (w : World Net S) :
  wp m (fun r l' => Q (result_map_err conv r) (set_local l' w)) (w_local w) ->
  wp (on_local conv m) Q w.
Proof. intros HQ. unfold on_local. by apply wp_map_err, wp_zoom. Qed.

Abbreviation wv w := (l_view (w_local w)).

Lemma wp_pull_loop fuel options : forall v pages acc pre (w : World Net S),
  progress v pre (wv w) ->
  wp (Pull.pull_loop fuel options (cursor_of (wv w)) pages acc)
    (fun r w' => exists pre', progress v pre' (wv w')
       /\ match r with Ok (Some p) => p.1.1 = cursor_of (wv w') | _ => True end) w.
Proof.
  induction fuel as [|fuel IH]; intros v pages acc pre w Hpg; cbn [Pull.pull_loop]; [wp_step; eauto|].
  destruct (Pull.page_limit_reached options pages); [wp_step; eauto|].
  wp_step. apply wp_on_net. intros [resp|e] n _; cbn [result_map_err]; [|eauto].
  destruct (pr_changes resp) as [|c changes] eqn:Hch; [wp_step; eauto|].
  wp_step. apply wp_to_local. eapply wp_apply_page; cbn [result_map_err w_local set_local set_net]; [exact Hpg| |eauto].
  intros acc' pre' l' Hpg'. cbn [fst snd].
  destruct (pr_has_more resp); [|wp_step; eauto]. by eapply (IH v _ _ pre' (set_local l' (set_net n w))).
Qed.

Lemma progress_state v pre v1 v2 :
  progress v pre v1 -> mem_objects v2 = mem_objects v1 -> cursor_of v2 = cursor_of v1 -> progress v pre v2.
Proof.
  intros [Hc Hr Hb Ha Hk] Ho Hcur.
  assert (forall c, applied v1 c -> applied v2 c) as Happ by (unfold applied; by rewrite Ho).
  split; rewrite ?Hcur; auto. eapply Forall_impl; [done|auto].
Qed.

Definition pull_post (w : World Net S) (r : Result (option PullReport) PullError) (w' : World Net S) : Prop :=
  exists pre, progress (wv w) pre (wv w')
    /\ match r with
       | Ok (Some report) => plr_initial_cursor report = cursor_of (wv w)
                             /\ plr_final_cursor report = cursor_of (wv w')
       | _ => True
       end.

Lemma wp_pull fuel key options (w : World Net S) :
  wp (Pull.pull_remote_changes fuel key options) (pull_post w) w.
Proof.
  unfold pull_post, Pull.pull_remote_changes. wp_step. apply wp_to_local, wp_current_cursor; cbn [result_map_err].
  - intros l1 Hv1. rewrite <- Hv1. wp_step. eapply wp_mono; [apply (wp_pull_loop _ _ (l_view l1) _ _ [] (set_local l1 w))|].
    { apply progress_refl. }
    intros [[[[cur pages] acc]|]|e] w1 (pre & Hpg & Hcur); cbn [w_local set_local fst] in *; [|wp_step; eauto|eauto].
    wp_step. apply wp_ignore, wp_to_local.
    apply (wp_mono _ (fun _ l2 => progress (l_view l1) pre (l_view l2) /\ cursor_of (l_view l2) = cur)).
    { unfold Cursor.record_sync_success.
      assert (forall l2, mem_objects (l_view l2) = mem_objects (wv w1) -> cursor_of (l_view l2) = cursor_of (wv w1) ->
        progress (l_view l1) pre (l_view l2) /\ cursor_of (l_view l2) = cur) as Hfin
        by (intros l2 Ho Hc; split; [by eapply progress_state|congruence]).
      wp_steps; apply Hfin; unfold cursor_of; by view_simpl. }
    intros _ l2 [Hpg2 Hcur2]. cbn beta iota. rewrite Hv1 in *. wp_step. wp_step.
    destruct (Pull.decrypt_all key acc); cbn; [|eauto]. apply wp_ret. eauto.
  - intros e l1 Hv1. exists []. cbn. rewrite Hv1. split; [apply progress_refl|done].
Qed.

(** Pulling touches objects and the sync state only. *)
Record only_objects (v v' : MemoryStorage) : Prop := {
  oo_mutations : mem_mutations v' = mem_mutations v;
  oo_bases : mem_base_versions v' = mem_base_versions v;
  oo_conflicts : mem_conflicts v' = mem_conflicts v
}.

Lemma wp_apply_page_objects changes : forall seq acc v l,
  only_objects v (l_view l) ->
  wp (Pull.apply_page changes seq acc) (fun _ l' => only_objects v (l_view l')) l.
Proof.
  induction changes as [|c changes IH]; intros seq acc v l Hoo; cbn [Pull.apply_page]; [by wp_step|].
  destruct (_ && _); [by apply IH|]. wp_step. apply wp_apply_change.
  - intros l' _ (t & Hv). apply IH. destruct Hoo. by split; rewrite Hv.
  - intros l' _ Hv. apply IH. by rewrite Hv.
  - intros e l' [Hv|[_ (t & Hv)]]; destruct Hoo; by split; rewrite Hv.
Qed.

Lemma wp_pull_objects fuel key options (w : World Net S) :
  wp (Pull.pull_remote_changes fuel key options) (fun _ w' => only_objects (wv w) (wv w')) w.
Proof.
  assert (forall fuel seq pages acc (w1 : World Net S), only_objects (wv w) (wv w1) ->
    wp (Pull.pull_loop fuel options seq pages acc) (fun _ w' => only_objects (wv w) (wv w')) w1) as Hloop.
  { clear fuel. induction fuel as [|fuel IH]; intros seq pages acc w1 Hoo; cbn [Pull.pull_loop]; [by wp_step|].
    destruct (Pull.page_limit_reached _ _); [by wp_step|]. wp_step. apply wp_on_net.
    intros [resp|e] n _; cbn [result_map_err]; [|done].
    destruct (pr_changes resp); [by wp_step|]. wp_step. apply wp_to_local.
    eapply wp_mono; [by apply wp_apply_page_objects|]. intros [p|e] l' Hoo'; cbn; [|done].
    destruct (pr_has_more resp); [by apply IH|by wp_step]. }
  unfold Pull.pull_remote_changes. wp_step. apply wp_to_local, wp_current_cursor; cbn [result_map_err].
  - intros l1 Hv1. wp_step. eapply wp_mono; [apply Hloop; by split; cbn; rewrite Hv1|].
    intros [[[[cur pages] acc]|]|e] w1 Hoo; [|by wp_step|done]. wp_step. apply wp_ignore, wp_to_local.
    apply (wp_mono _ (fun _ l2 => only_objects (wv w) (l_view l2))).
    { unfold Cursor.record_sync_success. destruct Hoo. wp_steps; split; by view_simpl. }
    intros _ l2 Hoo2. cbn beta iota. wp_step. wp_step. by destruct (Pull.decrypt_all key acc).
  - intros e l1 Hv1. by split; cbn; rewrite Hv1.
Qed.

(** A property of the network that every pull request keeps. *)
Lemma wp_pull_net (I : Net -> Prop) fuel key options (w : World Net S) :
  (forall after limit n r n', ad_pull_changes after limit n = (r, n') -> I n -> I n') -> I (w_net w) ->
  wp (Pull.pull_remote_changes fuel key options) (fun _ w' => I (w_net w')) w.
Proof.
  intros Hkeep HI.
  assert (forall {E E' A} (conv : E -> E') (m : M (Local S) E A) (w1 : World Net S), I (w_net w1) ->
    wp (on_local conv m) (fun _ w' => I (w_net w')) w1) as Hlocal.
  { intros E E' A conv m w1 HI1. apply wp_to_local. unfold wp. done. }
  assert (forall fuel seq pages acc (w1 : World Net S), I (w_net w1) ->
    wp (Pull.pull_loop fuel options seq pages acc) (fun _ w' => I (w_net w')) w1) as Hloop.
  { clear fuel. induction fuel as [|fuel IH]; intros seq pages acc w1 HI1; cbn [Pull.pull_loop]; [by wp_step|].
    destruct (Pull.page_limit_reached _ _); [by wp_step|]. wp_step. apply wp_on_net.
    intros [resp|e] n Hrun; cbn [result_map_err]; [|by eapply Hkeep].
    assert (I n) by (by eapply Hkeep).
    destruct (pr_changes resp); [by wp_step|]. wp_step. eapply wp_mono; [by apply Hlocal|].
    intros [p|e] w2 HI2; [|done]. destruct (pr_has_more resp); [by apply IH|by wp_step]. }
  unfold Pull.pull_remote_changes. wp_step. eapply wp_mono; [by apply Hlocal|].
  intros [cur0|e] w1 HI1; [|done]. wp_step. eapply wp_mono; [by apply Hloop|].
  intros [[[[cur pages] acc]|]|e] w2 HI2; [|by wp_step|done]. wp_step. apply wp_ignore.
  eapply wp_mono; [by apply Hlocal|]. intros r3 w3 HI3. wp_step. wp_step.
  by destruct (Pull.decrypt_all key acc).
Qed.

(** Pulling never skips a change, whatever the server sends and whichever
    storage operation fails: the cursor does not go back, it is where it was or
    at a change that was applied, every change applied up to it is in the
    object store, at that change or a later one, and what was applied before
    stays applied; a report gives the stored cursor. *)
Lemma pull_progress fuel key options (w : World Net S) r w' :
  Pull.pull_remote_changes fuel key options w = (r, w') ->
  exists pre, progress (wv w) pre (wv w')
    /\ match r with
       | Ok (Some report) => plr_initial_cursor report = cursor_of (wv w)
                             /\ plr_final_cursor report = cursor_of (wv w')
       | _ => True
       end.
Proof. as_wp. apply wp_pull. Qed.
End facts.

(** ** Completeness against a server with a fixed feed *)

(** The server answers with the next changes of the feed, at least one of
    them, and says truly whether there are more. *)
Definition serves {Net} `{SyncServerAdapter Net} (limit : option N) (n : Net) (feed : list ObjectChange) : Prop :=
  forall after, exists k next, (0 < k)%nat /\ ad_pull_changes after limit n
    = (Ok (mkPullChangesResponse (take k (feed_after feed after)) next
             (k <? length (feed_after feed after))%nat), n).

Lemma feed_after_after feed a b : (a <= b)%N -> feed_after (feed_after feed a) b = feed_after feed b.
Proof.
  intros Hle. unfold feed_after. induction feed as [|c feed IH]; [done|]. cbn.
  destruct (N.ltb_spec a (ch_server_seq c)) as [H1|H1]; cbn.
  - by rewrite IH.
  - rewrite IH. by destruct (N.ltb_spec b (ch_server_seq c)); [lia|].
Qed.

Lemma feed_after_last (l1 l2 : list ObjectChange) c :
  ascending (l1 ++ l2) -> last l1 = Some c -> feed_after (l1 ++ l2) (ch_server_seq c) = l2.
Proof.
  intros Hasc (pre & ->)%last_Some. apply StronglySorted_app in Hasc as (Hlt & Hasc1 & _).
  unfold feed_after. rewrite List.filter_app.
  replace (List.filter _ (pre ++ [c])) with (@nil ObjectChange).
  - cbn [app]. clear Hasc1. induction l2 as [|d l2 IH]; [done|]. cbn.
    rewrite (proj2 (N.ltb_lt _ _) (Hlt c d ltac:(set_solver) ltac:(left))). f_equal. apply IH. set_solver.
  - symmetry. apply StronglySorted_app in Hasc1 as (Hlt1 & _). rewrite List.filter_app. cbn.
    rewrite N.ltb_irrefl, app_nil_r. induction pre as [|d pre IH]; [done|]. cbn.
    rewrite (proj2 (N.ltb_ge _ _)); [apply IH; set_solver|].
    specialize (Hlt1 d c ltac:(left) ltac:(left)). lia.
Qed.

Section complete.
Context {Net : Type} `{SyncServerAdapter Net} `{!Env} `{CryptoLib} `{NoteLib}.
Implicit Types l : Local MemoryStorage.

Lemma apply_page_memory changes : forall acc l,
  ascending changes -> Forall (fun c => (cursor_of (l_view l) < ch_server_seq c)%N) changes ->
  exists l', Pull.apply_page changes (cursor_of (l_view l)) acc l = (Ok (cursor_of (l_view l'), acc ++ changes), l')
    /\ progress (l_view l) changes (l_view l') /\ stored_exactly (l_view l) changes (l_view l')
    /\ cursor_of (l_view l') = default (cursor_of (l_view l)) (ch_server_seq <$> last changes).
Proof using Type.
  induction changes as [|c changes IH]; intros acc l Hasc Hnew; cbn [Pull.apply_page].
  { exists l. rewrite app_nil_r. split_and!; [done|apply progress_refl|by apply stored_exactly_nil|done]. }
  apply Forall_cons in Hnew as [Hlt _]. apply StronglySorted_inv in Hasc as [Hasc Hrest].
  rewrite (proj2 (N.leb_gt _ _) Hlt). cbn [andb].
  destruct (apply_change_memory c l Hlt) as (l1 & Hrun & Hcur).
  assert (progress (l_view l) [c] (l_view l1) /\ stored_exactly (l_view l) [c] (l_view l1)) as [Hpg Hst].
  { assert (wp (Cursor.apply_change c) (fun r l' => r = Ok (ch_server_seq c) ->
      progress (l_view l) [c] (l_view l') /\ stored_exactly (l_view l) [c] (l_view l')) l) as Hwp.
    { apply wp_apply_change; [|lia|done]. intros l' _ (t & ->) _. split; [|apply stored_exactly_one].
      apply (progress_advance _ []); [apply progress_refl|done|done]. }
    by apply (wp_run _ _ _ _ _ Hwp Hrun). }
  rewrite (run_bind_ok _ _ _ _ _ Hrun), <- Hcur.
  destruct (IH (acc ++ [c]) l1) as (l' & Hrun' & Hpg' & Hst' & Hcur'); [done|by rewrite Hcur|].
  exists l'. rewrite Hrun', <- app_assoc. split_and!; [done|by apply (progress_trans _ [c] (l_view l1) changes)|by apply (stored_exactly_app _ [c] (l_view l1))|].
  rewrite Hcur', Hcur. rewrite last_cons. by destruct (last changes).
Qed.

Abbreviation wv w := (l_view (w_local w)).

Lemma pull_loop_memory limit feed n options fuel : forall l pages acc,
  serves limit n feed -> ascending feed -> plo_page_limit options = limit -> plo_max_pages options = None ->
  let rest := feed_after feed (cursor_of (l_view l)) in
  (length rest < fuel)%nat ->
  exists pages' l',
    Pull.pull_loop fuel options (cursor_of (l_view l)) pages acc (mkWorld n l)
      = (Ok (Some (cursor_of (l_view l'), pages', acc ++ rest)), mkWorld n l')
    /\ progress (l_view l) rest (l_view l') /\ stored_exactly (l_view l) rest (l_view l')
    /\ cursor_of (l_view l') = default (cursor_of (l_view l)) (ch_server_seq <$> last rest).
Proof using Type.
  induction fuel as [|fuel IH]; intros l pages acc Hserve Hasc Hlim Hmax rest Hfuel; [lia|].
  cbn [Pull.pull_loop]. unfold Pull.page_limit_reached. rewrite Hmax, Hlim.
  destruct (Hserve (cursor_of (l_view l))) as (k & next & Hk & Hpull). fold rest in Hpull.
  assert (on_net PuE_Network (ad_pull_changes (cursor_of (l_view l)) limit) (mkWorld n l)
    = (Ok (mkPullChangesResponse (take k rest) next (k <? length rest)%nat), mkWorld n l)) as Hnet
    by (unfold on_net, map_err, zoom; cbn [w_net]; by rewrite Hpull).
  rewrite (run_bind_ok _ _ _ _ _ Hnet). cbn [pr_changes pr_has_more]. cbv zeta.
  pose proof (feed_after_ascending feed (cursor_of (l_view l)) Hasc) as Hrasc. fold rest in Hrasc.
  assert (Forall (fun c => (cursor_of (l_view l) < ch_server_seq c)%N) rest) as Hrnew
    by (apply Forall_forall; by intros c [_ ?]%elem_of_feed_after).
  destruct (take k rest) as [|c page] eqn:Htake.
  { assert (rest = []) as Hnil by (destruct rest, k; done || lia).
    exists (1 + pages)%nat, l. rewrite Hnil, app_nil_r.
    split_and!; [done|apply progress_refl|by apply stored_exactly_nil|done]. }
  destruct (apply_page_memory (take k rest) acc l) as (l1 & Hrun & Hpg & Hst & Hcur);
    [by apply ascending_take|by apply Forall_take|]. rewrite Htake in Hrun, Hpg, Hst, Hcur.
  assert (on_local PuE_Cursor (Pull.apply_page (c :: page) (cursor_of (l_view l)) acc) (mkWorld n l)
    = (Ok (cursor_of (l_view l1), acc ++ c :: page), mkWorld n l1)) as Hloc
    by (unfold on_local, map_err, zoom; cbn [w_local]; by rewrite Hrun).
  rewrite (run_bind_ok _ _ _ _ _ Hloc). cbn [fst snd]. rewrite <- Htake in *.
  destruct (Nat.ltb_spec k (length rest)) as [Hmore|Hall].
  - destruct (last (take k rest)) as [d|] eqn:Hlast; [|apply last_None in Hlast; congruence].
    assert (feed_after feed (cursor_of (l_view l1)) = drop k rest) as Hnext.
    { rewrite <- (feed_after_after feed (cursor_of (l_view l))) by apply Hpg. fold rest. rewrite Hcur. cbn.
      rewrite <- (take_drop k rest) at 1. apply feed_after_last; [by rewrite take_drop|done]. }
    destruct (IH l1 (1 + pages)%nat (acc ++ take k rest)) as (pages' & l' & Hrun' & Hpg' & Hst' & Hcur');
      [done|done|done|done|rewrite Hnext, length_drop; lia|].
    rewrite Hnext in *. exists pages', l'. rewrite Hrun', <- app_assoc, take_drop. split_and!; [done| | |].
    + rewrite <- (take_drop k rest) at 1. by eapply progress_trans.
    + rewrite <- (take_drop k rest) at 1. by eapply stored_exactly_app.
    + rewrite Hcur'. rewrite <- (take_drop k rest) at 2. rewrite last_app.
      destruct (last (drop k rest)) eqn:Hld; [done|].
      apply last_None in Hld. apply (f_equal length) in Hld. rewrite length_drop in Hld. cbn in Hld. lia.
  - rewrite (take_ge rest k) in * by lia. exists (1 + pages)%nat, l1. done.
Qed.

Lemma pull_memory limit feed fuel key options n l :
  serves limit n feed -> ascending feed -> plo_page_limit options = limit -> plo_max_pages options = None ->
  let rest := feed_after feed (cursor_of (l_view l)) in
  (length rest < fuel)%nat ->
  exists l' pages, progress (l_view l) rest (l_view l') /\ stored_exactly (l_view l) rest (l_view l')
    /\ only_objects (l_view l) (l_view l')
    /\ cursor_of (l_view l') = default (cursor_of (l_view l)) (ch_server_seq <$> last rest)
    /\ Pull.pull_remote_changes fuel key options (mkWorld n l)
       = (match Pull.decrypt_all key rest with
          | Ok items => Ok (Some (mkPullReport pages (length rest) (length rest) (cursor_of (l_view l))
              (cursor_of (l_view l')) (match key with Some _ => true | None => false end) items))
          | Err e => Err (PuE_Core e)
          end, mkWorld n l').
Proof using Type.
  intros Hserve Hasc Hlim Hmax rest Hfuel.
  destruct (pull_loop_memory limit feed n options fuel l 0 [] Hserve Hasc Hlim Hmax Hfuel)
    as (pages & l1 & Hrun & Hpg & Hst & Hcur). fold rest in Hrun, Hpg, Hst, Hcur.
  assert (on_local (Net := Net) PuE_Cursor Cursor.current_cursor (mkWorld n l) = (Ok (cursor_of (l_view l)), mkWorld n l))
    as Hcc by (by destruct l).
  cbn [app] in Hrun.
  destruct (ignore (E' := PullError) (on_local (Net := Net) PuE_Cursor Cursor.record_sync_success) (mkWorld n l1))
    as [[[]|?] [n2 l2]] eqn:Hrec; [|done].
  assert (n2 = n /\ mem_objects (l_view l2) = mem_objects (l_view l1) /\ cursor_of (l_view l2) = cursor_of (l_view l1))
    as (-> & Ho & Hc) by (by injection Hrec as <- <-).
  assert (Pull.pull_remote_changes fuel key options (mkWorld n l)
       = (match Pull.decrypt_all key rest with
          | Ok items => Ok (Some (mkPullReport pages (length rest) (length rest) (cursor_of (l_view l))
              (cursor_of (l_view l2)) (match key with Some _ => true | None => false end) items))
          | Err e => Err (PuE_Core e)
          end, mkWorld n l2)) as Hall.
  { unfold Pull.pull_remote_changes.
    rewrite (run_bind_ok _ _ _ _ _ Hcc), (run_bind_ok _ _ _ _ _ Hrun), (run_bind_ok _ _ _ _ _ Hrec), Hc.
    by destruct (Pull.decrypt_all key rest). }
  exists l2, pages. split_and!; [by eapply progress_state|by eapply stored_exactly_same| |congruence|exact Hall].
  pose proof (wp_pull_objects fuel key options (mkWorld n l)) as Ho2. unfold wp in Ho2. by rewrite Hall in Ho2.
Qed.

(** C10. A pull against a server that answers from a feed is complete.  On the
    in-memory store (one whose operations do not fail) and without a page limit it
    ends after at most one page per change and one more.  Afterwards the store
    holds, of every object with a change in the feed beyond the cursor, exactly the
    last of these changes (its kind, revision, sequence, deletion flag and
    envelope), the other objects, the queue, the base versions and the conflicts
    are as they were, and the stored cursor is that of the last change.  It returns
    either the report, with the decrypted items if the vault is unlocked, or,
    everything stored, the error of the first item that does not decrypt. *)
Theorem pull_complete limit feed fuel key options n l :
  serves limit n feed -> ascending feed -> plo_page_limit options = limit -> plo_max_pages options = None ->
  let rest := feed_after feed (cursor_of (l_view l)) in
  (length rest < fuel)%nat ->
  exists l' pages, stored_exactly (l_view l) rest (l_view l') /\ only_objects (l_view l) (l_view l')
    /\ cursor_of (l_view l') = default (cursor_of (l_view l)) (ch_server_seq <$> last rest)
    /\ Pull.pull_remote_changes fuel key options (mkWorld n l)
       = (match Pull.decrypt_all key rest with
          | Ok items => Ok (Some (mkPullReport pages (length rest) (length rest) (cursor_of (l_view l))
              (cursor_of (l_view l')) (match key with Some _ => true | None => false end) items))
          | Err e => Err (PuE_Core e)
          end, mkWorld n l').
Proof using Type.
  intros Hs Ha Hl Hm rest Hf. destruct (pull_memory limit feed fuel key options n l Hs Ha Hl Hm Hf)
    as (l' & pages & _ & Hst & Hoo & Hrun). by exists l', pages.
Qed.
End complete.
