(* ===== verification/Orchestrator.v ===== *)
(** * The sync cycle ([zk-sync/src/orchestrator.rs])

    [run_sync_cycle]: crash recovery, pull, push, follow-up pull.  Safety for
    every server and every failing backend, by composing the theorems of the
    phases.  Then the variants of pull and cycle that keep the search index of an
    open session. *)

From stdpp Require Import options.
From S2P Require Import Prelude Protocol StorageModels Storage CoreErrors Time Env Queue Cursor Text Diff3 Crypto.
From S2P Require Import Note Search Session Merge Conflict Adapter Push Pull.

Record SyncCycleOptions : Type := mkCycleOptions {
  co_pull_options : PullOptions;
  co_push_options : PushOptions;
  co_always_followup_pull : bool
}.

Record SyncCycleReport : Type := mkCycleReport {
  cy_initial_pull : PullReport;
  cy_push : PushReport;
  cy_followup_pull : option PullReport;
  cy_initial_cursor : N;
  cy_final_cursor : N;
  cy_mutations_accepted : nat;
  cy_mutations_conflicted : nat;
  cy_mutations_remaining : nat
}.

Inductive SyncCycleError : Type :=
| SCE_Network (e : SyncNetworkError)
| SCE_Pull (e : PullError)
| SCE_Push (e : PushError)
| SCE_Queue (e : QueueError)
| SCE_Cursor (e : CursorError)
| SCE_Storage (e : StorageError).

(** [SyncCycleError::is_retryable] *)
Definition cycle_is_retryable (e : SyncCycleError) : bool :=
  match e with
  | SCE_Network net => is_retryable net
  | SCE_Pull (PuE_Network net) => is_retryable net
  | SCE_Push (PE_Network net) => is_retryable net
  | _ => false
  end.

Module Cycle.
Section ops.
Context {Net S : Type} `{SyncServerAdapter Net} `{LocalStorage S} `{!Env} `{CryptoLib} `{NoteLib}.
Abbreviation C A := (M (World Net S) SyncCycleError A).

(** The push phase uses the key of the cycle unless it has its own. *)
Definition with_key (vault_key : option string) (o : PushOptions) : PushOptions :=
  mkPushOptions (po_max_mutations o) (po_stop_on_conflict o) (po_conflict_policy o)
    (match po_vault_key o with Some k => Some k | None => vault_key end).

(** [None] when a pull runs out of fuel. *)
Definition run_sync_cycle (fuel : nat) (vault_key : option string) (options : SyncCycleOptions)
    : C (option SyncCycleReport) :=
  _ ← ignore (on_local SCE_Queue Queue.reset_in_flight);
  initial_cursor ← on_local SCE_Cursor Cursor.current_cursor;
  initial_pull ← map_err SCE_Pull (Pull.pull_remote_changes fuel vault_key (co_pull_options options));
  match initial_pull with
  | None => mret None
  | Some initial_pull =>
      push_report ← map_err SCE_Push
        (Push.push_pending_changes (with_key vault_key (co_push_options options)));
      let follow := negb (bool_decide (length (prp_accepted push_report) = 0))
                    || co_always_followup_pull options in
      followup ←
        (if follow : bool then
           p ← map_err SCE_Pull (Pull.pull_remote_changes fuel vault_key (co_pull_options options));
           mret (option_map Some p)
         else mret (Some None));
      match followup with
      | None => mret None
      | Some followup_pull =>
          final_cursor ← on_local SCE_Cursor Cursor.current_cursor;
          mutations_remaining ← on_local SCE_Queue Queue.pending_count;
          mret (Some (mkCycleReport initial_pull push_report followup_pull initial_cursor final_cursor
            (length (prp_accepted push_report)) (length (prp_conflicts push_report)) mutations_remaining))
      end
  end.
End ops.
End Cycle.

(** ** Safety *)

Section safety.
Context {Net S : Type} `{SyncServerAdapter Net} `{StorageSpec S} `{!Env} `{CryptoLib} `{NoteLib}.
Context `{!CryptoLaws} `{!NoteLaws} `{!Inj (=) (=) uuid_v4}.
Abbreviation W := (World (Logged Net) S).

(** Between two points of the cycle: the cursor has not gone back, [es] was
    sent, every edit is queued or was accepted, or overridden by the policy. *)
Record cycle_inv (policy : ConflictPolicy) (w w' : W) : Prop := {
  ci_unique : NoDup (queue_ids (w_view w'));
  ci_cursor : (cursor_of (w_view w) <= cursor_of (w_view w'))%N;
  ci_edits : exists es, lg_pushes (w_net w') = lg_pushes (w_net w) ++ es
    /\ forall m, m ∈ mem_mutations (w_view w) -> accounted policy es (w_view w') m
}.

Lemma cycle_inv_same policy (w w1 w' : W) :
  cycle_inv policy w w1 -> lg_pushes (w_net w') = lg_pushes (w_net w1) ->
  mem_mutations (w_view w') = mem_mutations (w_view w1) ->
  (cursor_of (w_view w1) <= cursor_of (w_view w'))%N -> cycle_inv policy w w'.
Proof using Type.
  intros [Hu Hc (es & Hl & He)] Hlog Hq Hcur. split; [by rewrite Hq|lia|].
  exists es. rewrite Hlog. split; [done|]. unfold accounted. by rewrite Hq.
Qed.

(** A queue operation that changes statuses only. *)
Lemma cycle_inv_status policy (w : W) l' :
  NoDup (queue_ids (w_view w)) -> only_status (w_view w) (l_view l') -> cycle_inv policy w (set_local l' w).
Proof using Type.
  intros Hnd [Hi Hk _ Hy]. split; unfold w_view; cbn; [by rewrite Hi|unfold cursor_of; rewrite Hy; done|].
  exists []. rewrite app_nil_r. split; [done|]. intros m Hm. left. by apply Hk.
Qed.

Lemma wp_pull_phase policy fuel key options (w w1 : W) :
  cycle_inv policy w w1 ->
  wp (map_err SCE_Pull (Pull.pull_remote_changes fuel key options)) (fun _ w' => cycle_inv policy w w') w1.
Proof using Type.
  intros Hinv. apply wp_map_err.
  pose proof (wp_pull fuel key options w1) as Hp.
  pose proof (wp_pull_objects fuel key options w1) as Ho.
  pose proof (wp_pull_net (fun n => lg_pushes n = lg_pushes (w_net w1)) fuel key options w1) as Hn.
  unfold wp in *. destruct (Pull.pull_remote_changes fuel key options w1) as [r w2]. cbn in *.
  destruct Hp as (pre & [Hcur _ _ _ _] & _). destruct Ho as [Hq _ _].
  eapply cycle_inv_same; [done| |done|done]. apply Hn; [|done].
  intros after limit n r0 n' Hrun <-. cbn in Hrun. unfold unlogged, zoom in Hrun.
  destruct (ad_pull_changes after limit (lg_net n)). by injection Hrun as <- <-.
Qed.

(** What one more phase sent. *)
Lemma accounted_app policy es es2 v v2 m :
  accounted policy es v m -> (forall m1, m1 ∈ mem_mutations v -> accounted policy es2 v2 m1) ->
  accounted policy (es ++ es2) v2 m.
Proof using Type.
  intros [(m1 & Hs1 & Hin1)|[(resp & Hacc)|(req & c & Hin & Ho)]] Hk.
  - destruct (Hk m1 Hin1) as [(m2 & Hs2 & Hin2)|[(resp & Hacc)|(req & c & Hin & Ho & Hset)]];
      [left; eauto with zk|right; left|right; right].
    + exists resp. apply elem_of_app. right. by destruct Hs1 as (? & ? & ->).
    + exists req, c. split_and!; [apply elem_of_app; by right| |done]. by destruct Hs1 as (? & ? & ->).
  - right; left. exists resp. apply elem_of_app. by left.
  - right; right. exists req, c. split; [apply elem_of_app; by left|done].
Qed.

Lemma wp_push_phase options (w w1 : W) :
  cycle_inv (po_conflict_policy options) w w1 ->
  wp (map_err SCE_Push (Push.push_pending_changes options)) (fun _ w' => cycle_inv (po_conflict_policy options) w w') w1.
Proof using Type*.
  intros [Hu Hc (es & Hlog & He)]. apply wp_map_err.
  eapply wp_mono; [by apply wp_push_pending|].
  intros r w2 (es2 & Hlog2 & _ & Hu2 & Hy & Hk & _). split; [done|unfold cursor_of in *; by rewrite Hy|].
  exists (es ++ es2). rewrite Hlog2, Hlog, app_assoc. split; [done|]. intros m Hm.
  by eapply accounted_app; [apply He|].
Qed.

Lemma wp_local_read {E E' A} policy (conv : E -> E') (m : M (Local S) E A) (w w1 : W) :
  (forall l, wp m (fun _ l' => l_view l' = l_view l) l) -> cycle_inv policy w w1 ->
  wp (on_local conv m) (fun _ w' => cycle_inv policy w w') w1.
Proof using Type.
  intros Hm Hinv. apply wp_to_local. eapply wp_mono; [apply Hm|]. intros r l' Hv.
  eapply cycle_inv_same; [done|done|..]; unfold w_view; cbn; by rewrite Hv.
Qed.

Lemma wp_reset_status l :
  NoDup (queue_ids (l_view l)) -> wp Queue.reset_in_flight (fun _ l' => only_status (l_view l) (l_view l')) l.
Proof using Type.
  intros Hnd.
  assert (forall pre rest l', mem_mutations (l_view l) = pre ++ rest ->
    l_view l' = with_mutations (fun _ => (reset_entry <$> pre) ++ rest) (l_view l) ->
    only_status (l_view l) (l_view l')) as H'.
  { intros pre rest l' Hq ->. split; mem_simpl; rewrite ?Hq; [by rewrite !fmap_app, reset_entry_id| |done..].
    intros m [Hin|Hin]%elem_of_app.
    - exists (reset_entry m). split; [|apply elem_of_app; left; by apply list_elem_of_fmap_2].
      unfold reset_entry. destruct (Queue.is_in_flight m); [by eexists _, _|auto with zk].
    - exists m. split; [auto with zk|]. apply elem_of_app; auto. }
  apply wp_reset_in_flight; [done| |by eauto].
  intros l' Hv. eapply (H' (mem_mutations (l_view l)) []); rewrite app_nil_r; done.
Qed.

(** C4. A sync cycle is safe.  Whatever the server answers, whichever storage
    operation fails and however the cycle ends: the cursor has not gone back,
    mutation identifiers are unique, and every edit that was queued is still
    queued with the same content, or a request that carried exactly this edit was
    accepted by the server during the cycle, or, only under Guarded
    last-write-wins (the manual policy is the default), the server answered a
    conflict without a deletion about the edit's object, which the policy settles
    by dropping the object's queued edits. *)
Theorem sync_cycle_safe fuel key options (w : W) r w' :
  NoDup (queue_ids (w_view w)) -> Cycle.run_sync_cycle fuel key options w = (r, w') ->
  cycle_inv (po_conflict_policy (co_push_options options)) w w'.
Proof using Type*.
  intros Hnd. as_wp.
  unfold Cycle.run_sync_cycle. wp_step. apply wp_ignore, wp_to_local.
  eapply wp_mono; [by apply wp_reset_status|]. intros r1 l1 Hos. cbn beta iota.
  pose proof (cycle_inv_status (po_conflict_policy (co_push_options options)) w l1 Hnd Hos) as Hinv. set (w1 := set_local l1 w) in *. clearbody w1.
  wp_step. eapply wp_mono; [apply wp_local_read; [|done]|].
  { intros l. by apply wp_current_cursor. }
  intros [cur|e] w2 Hinv2; [|done]. wp_step. eapply wp_mono; [by apply wp_pull_phase|].
  intros [[ip|]|e] w3 Hinv3; [|by wp_step|done]. wp_step.
  eapply wp_mono; [apply (wp_push_phase (Cycle.with_key key (co_push_options options)) w); exact Hinv3|].
  intros [pr|e] w4 Hinv4; [|done]. wp_step.
  apply (wp_mono _ (fun _ w' => cycle_inv (po_conflict_policy (co_push_options options)) w w')).
  { destruct (_ || _); [|by wp_step]. wp_step. eapply wp_mono; [by apply wp_pull_phase|].
    intros [p|e] w5 Hinv5; [by wp_step|done]. }
  intros [[fp|]|e] w5 Hinv5; [|by wp_step|done]. wp_step. eapply wp_mono; [apply wp_local_read; [|done]|].
  { intros l. by apply wp_current_cursor. }
  intros [fc|e] w6 Hinv6; [|done]. wp_step. eapply wp_mono; [apply wp_local_read; [|done]|].
  { intros l. unfold Queue.pending_count. by wp_store. }
  intros [n|e] w7 Hinv7; [by wp_step|done].
Qed.
End safety.

(** ** Syncing into an open session ([pull_with_session],
      [decrypt_stored_objects_on_unlock] of [zk-sync/src/pull.rs],
      [run_sync_cycle_with_session] of [orchestrator.rs])

    The state is the world and the session.  [index_synced] relates the index
    to the stored objects: it holds after the stored objects were decrypted on
    unlock and every successful pull keeps it. *)

Definition on_world {Net S E A} (m : M (World Net S) E A) : M (World Net S * VaultSession) E A :=
  zoom fst (fun w ws => (w, ws.2)) m.
Definition get_session {Net S E} : M (World Net S * VaultSession) E VaultSession :=
  fun ws => (Ok ws.2, ws).
Definition modify_session {Net S E} (f : VaultSession -> VaultSession) : M (World Net S * VaultSession) E unit :=
  fun ws => (Ok tt, (ws.1, f ws.2)).

(** The loop over [report.decrypted_items]. *)
Definition index_item (idx : InMemorySearchIndex) (item : DecryptedPullItem) : InMemorySearchIndex :=
  if dpi_is_deleted item then Index.remove (dpi_object_id item) idx
  else match dpi_note item with
       | Some note => Index.insert (dpi_object_id item) note idx
       | None => idx
       end.

Module SessionSync.
Section ops.
Context {Net S : Type} `{SyncServerAdapter Net} `{LocalStorage S} `{!Env} `{CryptoLib} `{NoteLib}.
Abbreviation W := (World Net S * VaultSession)%type.

Definition pull_with_session (fuel : nat) (options : PullOptions) : M W PullError (option PullReport) :=
  session ← get_session;
  let vault_key := ok (Session.active_key session) in
  report ← on_world (Pull.pull_remote_changes fuel vault_key options);
  match report with
  | None => mret None
  | Some report =>
      _ ← (if Session.is_unlocked session
           then modify_session (Session.update_index (fun idx => fold_left index_item (plr_decrypted_items report) idx))
           else mret tt);
      mret (Some report)
  end.

(** The loop of [decrypt_stored_objects_on_unlock]. *)
Fixpoint decrypt_objects (key : string) (objects : list StoredEncryptedObject) (acc : list DecryptedPullItem)
    : M W PullError (list DecryptedPullItem) :=
  match objects with
  | [] => mret acc
  | obj :: rest =>
      if obj_is_deleted obj then
        _ ← modify_session (Session.update_index (Index.remove (obj_object_id obj)));
        decrypt_objects key rest
          (acc ++ [mkPullItem (obj_object_id obj) (obj_revision obj) (obj_server_seq obj) true None])
      else
        note ← lift_result (result_map_err PuE_Core (decrypt (obj_envelope obj) key));
        _ ← modify_session (Session.update_index (Index.insert (obj_object_id obj) note));
        decrypt_objects key rest
          (acc ++ [mkPullItem (obj_object_id obj) (obj_revision obj) (obj_server_seq obj) false (Some note)])
  end.

Definition decrypt_stored_objects_on_unlock : M W PullError (list DecryptedPullItem) :=
  session ← get_session;
  key ← lift_result (result_map_err PuE_Core (Session.active_key session));
  objects ← on_world (on_local (Net := Net) (fun e => e) (on_store PuE_Storage (list_objects ObjectFilter_all)));
  decrypt_objects key objects [].

Definition run_sync_cycle_with_session (fuel : nat) (options : SyncCycleOptions)
    : M W SyncCycleError (option SyncCycleReport) :=
  _ ← ignore (on_world (on_local SCE_Queue Queue.reset_in_flight));
  initial_cursor ← on_world (on_local SCE_Cursor Cursor.current_cursor);
  initial_pull ← map_err SCE_Pull (pull_with_session fuel (co_pull_options options));
  match initial_pull with
  | None => mret None
  | Some initial_pull =>
      session ← get_session;
      push_report ← on_world (map_err SCE_Push (Push.push_pending_changes
        (Cycle.with_key (ok (Session.active_key session)) (co_push_options options))));
      let follow := negb (bool_decide (length (prp_accepted push_report) = 0))
                    || co_always_followup_pull options in
      followup ←
        (if follow : bool then
           p ← map_err SCE_Pull (pull_with_session fuel (co_pull_options options));
           mret (option_map Some p)
         else mret (Some None));
      match followup with
      | None => mret None
      | Some followup_pull =>
          final_cursor ← on_world (on_local SCE_Cursor Cursor.current_cursor);
          mutations_remaining ← on_world (on_local SCE_Queue Queue.pending_count);
          mret (Some (mkCycleReport initial_pull push_report followup_pull initial_cursor final_cursor
            (length (prp_accepted push_report)) (length (prp_conflicts push_report)) mutations_remaining))
      end
  end.
End ops.
End SessionSync.

(** ** The index follows the store *)

Section synced.
Context {Net S : Type} `{SyncServerAdapter Net} `{StorageSpec S} `{!Env} `{CryptoLib} `{NoteLib}.
Abbreviation W := (World Net S * VaultSession)%type.
Abbreviation sv ws := (l_view (w_local (fst ws))).

(** What the index should hold of a stored object. *)
Definition entry_of (key : string) (o : StoredEncryptedObject) : option IndexedNote :=
  if obj_is_deleted o then None
  else n ← ok (decrypt (obj_envelope o) key);
       Some (mkIndexed (obj_object_id o) (n_title n) (n_tags n) (n_body n) (n_updated_at n)).

(** Every object is stored under its identifier. *)
Definition store_keyed (v : MemoryStorage) : Prop :=
  forall id o, mem_objects v !! id = Some o -> obj_object_id o = id.

Record index_synced (key : string) (v : MemoryStorage) (idx : InMemorySearchIndex) : Prop := {
  is_unique : NoDup (index_ids idx);
  is_keyed : store_keyed v;
  is_entries id : index_map idx !! id = mem_objects v !! id ≫= entry_of key
}.

(** Storing one object and indexing it. *)
Lemma synced_put key v idx v' o :
  index_synced key v idx -> mem_objects v' = <[obj_object_id o := o]> (mem_objects v) ->
  forall idx', NoDup (index_ids idx') ->
  index_map idx' = partial_alter (fun _ => entry_of key o) (obj_object_id o) (index_map idx) ->
  index_synced key v' idx'.
Proof using Type.
  intros [Hu Hk He] Hv idx' Hu' Hm. split; [done| |].
  - intros id o'. rewrite Hv, lookup_insert_Some. intros [[<- <-]|[_ Ho]]; [done|by apply Hk].
  - intros id. rewrite Hm, Hv. destruct (decide (id = obj_object_id o)) as [->|Hne].
    + by rewrite lookup_partial_alter_eq, lookup_insert_eq.
    + rewrite lookup_partial_alter_ne, lookup_insert_ne by done. apply He.
Qed.








(** ** Decrypting the stored objects on unlock *)

Definition put_all (L : list StoredEncryptedObject) (m : gmap string StoredEncryptedObject)
    : gmap string StoredEncryptedObject := fold_left (fun m o => <[obj_object_id o := o]> m) L m.

(** Writing objects of a store, all of them, gives the store. *)
Lemma put_all_store (mem : gmap string StoredEncryptedObject) L : forall m,
  (forall o, o ∈ L -> mem !! obj_object_id o = Some o) -> m ⊆ mem ->
  put_all L m ⊆ mem /\ (m ⊆ put_all L m) /\ forall o, o ∈ L -> put_all L m !! obj_object_id o = Some o.
Proof using Type.
  induction L as [|o L IH]; intros m HL Hm; cbn; [split_and!; [done|done|set_solver]|].
  assert (mem !! obj_object_id o = Some o) as Ho by (apply HL; left).
  assert (<[obj_object_id o := o]> m ⊆ mem) as Hm' by (by apply insert_subseteq_l).
  destruct (IH (<[obj_object_id o := o]> m)) as (H1' & H2' & H3'); [intros; apply HL; by right|done|].
  split_and!; [done| |].
  - etrans; [|exact H2']. apply map_subseteq_spec. intros k x Hx.
    destruct (decide (k = obj_object_id o)) as [->|Hne]; [|by rewrite lookup_insert_ne].
    rewrite lookup_insert_eq. rewrite map_subseteq_spec in Hm. specialize (Hm _ _ Hx). congruence.
  - intros o' [->|Hin]%elem_of_cons; [|by apply H3'].
    rewrite map_subseteq_spec in H2'. apply H2'. by rewrite lookup_insert_eq.
Qed.

Definition objects_only (m : gmap string StoredEncryptedObject) : MemoryStorage :=
  mkMemoryStorage m [] ∅ (mkSyncState 0 None None) ∅.

(** Whether the loop gets past the object. *)
Definition decryptable (key : string) (o : StoredEncryptedObject) : bool :=
  obj_is_deleted o || is_ok (decrypt (obj_envelope o) key).

Lemma decrypt_objects_run key L : forall (w : World Net S) session idx m acc,
  vs_search_index session = Some idx -> index_synced key (objects_only m) idx ->
  let '(r, (w', session')) := SessionSync.decrypt_objects key L acc (w, session) in
  w' = w /\ vs_active_key session' = vs_active_key session
  /\ if forallb (decryptable key) L
     then is_ok r = true /\ exists idx', vs_search_index session' = Some idx'
            /\ index_synced key (objects_only (put_all L m)) idx'
     else exists e, r = Err (PuE_Core e).
Proof using Type.
  induction L as [|o L IH]; intros w session idx m acc Hidx Hsync; cbn [SessionSync.decrypt_objects forallb].
  { split_and!; [done..|by exists idx]. }
  assert (forall idx', NoDup (index_ids idx') ->
    index_map idx' = partial_alter (fun _ => entry_of key o) (obj_object_id o) (index_map idx) ->
    index_synced key (objects_only (<[obj_object_id o := o]> m)) idx') as Hput
    by (intros idx' Hu Hm; by eapply synced_put).
  unfold decryptable at 1. unfold entry_of in Hput. destruct (obj_is_deleted o) eqn:Hdel; cbn [orb].
  - unfold mbind, M_bind, modify_session. cbn [fst snd].
    apply (IH w (Session.update_index (Index.remove (obj_object_id o)) session) (Index.remove (obj_object_id o) idx));
      [cbn; by rewrite Hidx|].
    apply Hput; [by apply remove_ids, Hsync|by rewrite remove_map by apply Hsync].
  - unfold lift_result. destruct (decrypt (obj_envelope o) key) as [n|e] eqn:Hn; cbn [result_map_err is_ok].
    + unfold mbind, M_bind, modify_session. cbn [fst snd andb].
      apply (IH w (Session.update_index (Index.insert (obj_object_id o) n) session) (Index.insert (obj_object_id o) n idx));
        [cbn; by rewrite Hidx|].
      destruct (insert_raw_ok (obj_object_id o) (n_title n) (n_tags n) (n_body n) (n_updated_at n) idx) as [Hu Hm];
        [apply Hsync|]. by apply Hput.
    + unfold mbind, M_bind. split_and!; [done|done|by eexists].
Qed.
End synced.

Section unlock.
Context {Net : Type} `{SyncServerAdapter Net} `{!Env} `{CryptoLib} `{NoteLib}.
Implicit Types l : Local MemoryStorage.

(** Decrypting on unlock.  On a freshly unlocked session over a working store
    whose objects are under their identifiers, the scan succeeds exactly when
    every live object decrypts as a note, and then the index holds exactly the
    live notes of the store; otherwise it returns the error of an object that
    does not decrypt. *)
Lemma unlock_indexes_store (n : Net) l session key :
  store_keyed (l_view l) -> vs_active_key session = Some key -> vs_search_index session = Some [] ->
  let '(r, (w', session')) := SessionSync.decrypt_stored_objects_on_unlock (mkWorld n l, session) in
  w' = mkWorld n l
  /\ (is_ok r = true <-> forall id o, mem_objects (l_view l) !! id = Some o -> decryptable key o = true)
  /\ (is_ok r = true -> exists idx', vs_search_index session' = Some idx' /\ index_synced key (l_view l) idx')
  /\ (is_ok r = false -> exists e, r = Err (PuE_Core e)).
Proof using Type.
  intros Hk Hkey Hidx. unfold SessionSync.decrypt_stored_objects_on_unlock.
  rewrite (run_bind_ok _ _ _ session (mkWorld n l, session)) by done. unfold Session.active_key. rewrite Hkey.
  rewrite (run_bind_ok _ _ _ key (mkWorld n l, session)) by done.
  set (L := merge_sort Memory.object_id_le (List.filter (Memory.passes_filter ObjectFilter_all) (map_to_list (mem_objects (l_view l))).*2)).
  rewrite (run_bind_ok _ _ _ L (mkWorld n l, session)) by (by destruct l).
  assert (forall o, o ∈ L <-> mem_objects (l_view l) !! obj_object_id o = Some o) as HL.
  { intros o. unfold L. rewrite merge_sort_Permutation, list_elem_of_In, filter_In, <- list_elem_of_In, list_elem_of_fmap.
    split.
    - intros [([id o'] & -> & Hin%elem_of_map_to_list) _]. cbn. by rewrite (Hk _ _ Hin).
    - intros Ho. split; [exists (obj_object_id o, o); split; [done|by apply elem_of_map_to_list]|done]. }
  pose proof (decrypt_objects_run (Net := Net) (S := MemoryStorage) key L (mkWorld n l) session [] ∅ [] Hidx) as Hrun.
  destruct (SessionSync.decrypt_objects key L [] (mkWorld n l, session)) as [r [w' session']].
  destruct Hrun as (-> & _ & Hr); [split; [constructor|done|done]|]. split; [done|].
  assert (forallb (decryptable key) L = true
    <-> forall id o, mem_objects (l_view l) !! id = Some o -> decryptable key o = true) as Hall.
  { rewrite forallb_forall. setoid_rewrite <- list_elem_of_In. split.
    - intros Hd id o Ho. apply Hd, HL. by rewrite (Hk _ _ Ho).
    - intros Hd o Ho%HL. by eapply Hd. }
  destruct (forallb (decryptable key) L).
  - destruct Hr as (Hok & idx' & Hi & Hs). split_and!; [tauto| |by rewrite Hok]. intros _. exists idx'. split; [done|].
    destruct (put_all_store (mem_objects (l_view l)) L ∅) as (Hsub & _ & Hin); [intros o; apply HL|apply map_empty_subseteq|].
    assert (put_all L ∅ = mem_objects (l_view l)) as Hm.
    { apply (anti_symm (⊆)); [done|]. apply map_subseteq_spec. intros id o Ho.
      pose proof (Hk _ _ Ho) as <-. by apply Hin, HL. }
    rewrite Hm in Hs. destruct Hs as [Hu Hke He]. by split.
  - destruct Hr as (e & ->). split_and!; [|done|by eauto]. split; [done|]. intros Hd. apply Hall in Hd. done.
Qed.
(** ** Objects that are not notes *)

Definition foreign (c : ObjectChange) : Prop :=
  ch_is_deleted c = false /\ env_object_kind (ch_envelope c) <> OBJECT_KIND_NOTE.

Lemma decrypt_foreign key c : foreign c -> exists e, Pull.decrypt_item key c = Err e.
Proof using Type.
  intros [Hd Hk]. unfold Pull.decrypt_item, decrypt. rewrite Hd.
  destruct (negb (envelope_version (ch_envelope c) =? _)%N); [by eexists|].
  rewrite (proj2 (N.eqb_neq _ _) Hk). by eexists.
Qed.

Lemma decrypt_all_foreign key L : Exists foreign L -> exists e, Pull.decrypt_all (Some key) L = Err e.
Proof using Type.
  cbn. induction L as [|c L IH]; intros Hex; [by inversion Hex|]. cbn.
  destruct (Pull.decrypt_item key c) as [item|e] eqn:Hc; [|by eexists]. cbn.
  apply Exists_cons in Hex as [Hf|Hex]; [destruct (decrypt_foreign key c Hf) as [e He]; congruence|].
  destruct (IH Hex) as [e ->]. by eexists.
Qed.

(** An object that is not a note aborts the cycle of an unlocked client: when
    the feed beyond the cursor has a live attachment manifest (or any object of
    another kind), a cycle with the vault key stores the changes but ends with
    an error of the pull, and none of the queued edits is sent. *)
Lemma attachment_aborts_cycle limit feed fuel key options (n : Net) l :
  serves limit n feed -> ascending feed -> plo_page_limit (co_pull_options options) = limit ->
  plo_max_pages (co_pull_options options) = None -> NoDup (queue_ids (l_view l)) ->
  let rest := feed_after feed (cursor_of (l_view l)) in
  (length rest < fuel)%nat -> Exists foreign rest ->
  exists e l', Cycle.run_sync_cycle fuel (Some key) options (mkWorld n l)
      = (Err (SCE_Pull (PuE_Core e)), mkWorld n l')
    /\ Forall (applied (l_view l')) rest.
Proof using Type.
  intros Hserve Hasc Hlim Hmax Hnd rest Hfuel Hex.
  pose proof (wp_reset_status l Hnd) as Hos. unfold wp in Hos.
  destruct (Queue.reset_in_flight l) as [r0 l0] eqn:Hreset. cbn [fst snd] in Hos.
  assert (cursor_of (l_view l0) = cursor_of (l_view l)) as Hc0 by (unfold cursor_of; by rewrite (os_sync _ _ Hos)).
  destruct (pull_memory limit feed fuel (Some key) (co_pull_options options) n l0) as (l1 & pages & Hpg & _ & _ & _ & Hrun);
    [done|done|done|done|by rewrite Hc0|]. rewrite Hc0 in Hrun, Hpg. fold rest in Hrun, Hpg.
  destruct (decrypt_all_foreign key rest Hex) as [e He]. rewrite He in Hrun.
  exists e, l1. split; [|apply Hpg]. unfold Cycle.run_sync_cycle.
  erewrite run_bind_ok by (unfold ignore, on_local, map_err, zoom; cbn [w_local]; rewrite Hreset; reflexivity).
  erewrite (run_bind_ok _ _ _ (cursor_of (l_view l0)) (mkWorld n l0)); [|clear; by destruct r0, l0].
  erewrite run_bind_err; [reflexivity|]. unfold map_err. by rewrite Hrun.
Qed.
End unlock.
