(* ===== verification/SyncLive.v ===== *)
(** * A cycle delivers

    Against the in-memory server, with a working store, a sync cycle over
    edits made on the current revisions delivers all of them: the server has
    them, the queue is empty, and the client's store holds every change of the
    server beyond the old cursor.  The vault may be locked; if it is unlocked,
    everything has to decrypt as a note. *)

From stdpp Require Import options.
From stdpp Require Import sorting.
From S2P Require Import Prelude Protocol StorageModels Storage CoreErrors Time Env Queue Cursor.
From S2P Require Import Text Diff3 Crypto Note Merge Conflict Adapter Push Pull Orchestrator.

(** ** The in-memory server *)

(** Objects are under their identifiers and have distinct sequence numbers,
    up to the counter. *)
Record mock_ok (s : MockSyncAdapter) : Prop := {
  ms_key id c : mk_objects s !! id = Some c -> ch_object_id c = id;
  ms_seq id c : mk_objects s !! id = Some c -> (0 < ch_server_seq c <= mk_sequence_counter s)%N;
  ms_inj id id' c c' : mk_objects s !! id = Some c -> mk_objects s !! id' = Some c' ->
    ch_server_seq c = ch_server_seq c' -> id = id';
  ms_bound : (mk_sequence_counter s <= u64_max)%N
}.

Lemma mock_push_ok request s :
  mock_ok s -> (mk_sequence_counter s < u64_max)%N -> mock_ok (Mock.push_mutation request s).2.
Proof.
  intros [Hk Hs Hi Hb] Hlt. unfold Mock.push_mutation, mbind, M_bind, Mock.check_failure.
  destruct (mk_fail_next s); [by split|]. unfold Mock.locked.
  destruct (mk_processed s !! req_mutation_id request) as [[req resp]|].
  { destruct (Mock.same_request req request); by split. }
  destruct (negb _); [by split|]. cbn [snd]. rewrite !u64_add_small by lia.
  split; cbn; [..|lia].
  - intros id c. destruct (decide (id = req_object_id request)) as [->|Hne].
    + rewrite lookup_insert_eq. by intros [= <-].
    + rewrite lookup_insert_ne by done. apply Hk.
  - intros id c. destruct (decide (id = req_object_id request)) as [->|Hne].
    + rewrite lookup_insert_eq. intros [= <-]. cbn. lia.
    + rewrite lookup_insert_ne by done. intros Hc. specialize (Hs _ _ Hc). lia.
  - intros id id' c c'.
    destruct (decide (id = req_object_id request)) as [->|Hne], (decide (id' = req_object_id request)) as [->|Hne'];
      rewrite ?lookup_insert_eq, ?lookup_insert_ne by done; [done|..].
    + intros [= <-] Hc'. specialize (Hs _ _ Hc'). cbn. lia.
    + intros Hc [= <-]. specialize (Hs _ _ Hc). cbn. lia.
    + apply Hi.
Qed.

(** The in-memory server keeps its objects well-formed: under any request, and
    whether or not it is told to fail, the objects stay under their
    identifiers with distinct sequence numbers up to the counter, as long as
    the counter has not reached the end of its range. *)
Lemma mock_push_preserves request s :
  mock_ok s -> (mk_sequence_counter s < u64_max)%N -> mock_ok (Mock.push_mutation request s).2.
Proof. apply mock_push_ok. Qed.

Lemma filter_perm {A} (p : A -> bool) (l l' : list A) : l ≡ₚ l' -> List.filter p l ≡ₚ List.filter p l'.
Proof.
  induction 1 as [|x l l' _ IH|x y l|l1 l2 l3 _ IH1 _ IH2]; cbn; [done| | |by etrans].
  - destruct (p x); by rewrite IH.
  - destruct (p x), (p y); done || constructor.
Qed.

Lemma filter_sorted {A} (R : relation A) (p : A -> bool) (l : list A) :
  StronglySorted R l -> StronglySorted R (List.filter p l).
Proof.
  induction 1 as [|x l Hl IH Hx]; cbn; [constructor|]. destruct (p x); [|done]. constructor; [done|].
  rewrite Forall_forall in *. intros y Hy. apply Hx.
  by apply list_elem_of_In, filter_In, proj1, list_elem_of_In in Hy.
Qed.

Lemma strictly_ascending (l : list ObjectChange) :
  StronglySorted Mock.seq_le l -> NoDup (ch_server_seq <$> l) -> ascending l.
Proof.
  induction 1 as [|x l Hl IH Hx]; [constructor|]. rewrite fmap_cons, NoDup_cons. intros [Hnin Hnd].
  constructor; [by apply IH|]. rewrite Forall_forall in *. intros y Hy. specialize (Hx y Hy).
  unfold Mock.seq_le in Hx. assert (ch_server_seq x <> ch_server_seq y); [|lia].
  intros Heq. apply Hnin. rewrite Heq. by apply list_elem_of_fmap_2.
Qed.

#[local] Instance seq_le_trans : Transitive Mock.seq_le.
Proof. intros a b c. unfold Mock.seq_le. lia. Qed.
#[local] Instance seq_le_total : Total Mock.seq_le.
Proof. intros a b. unfold Mock.seq_le. lia. Qed.

(** The feed of the server: its objects by sequence number. *)
Definition feed (s : MockSyncAdapter) : list ObjectChange := Mock.matching 0 s.

Lemma elem_of_matching after s c :
  c ∈ Mock.matching after s <-> (exists id, mk_objects s !! id = Some c) /\ (after < ch_server_seq c)%N.
Proof.
  unfold Mock.matching. rewrite merge_sort_Permutation, list_elem_of_In, filter_In, N.ltb_lt, <- list_elem_of_In.
  apply and_iff_compat_r. rewrite list_elem_of_fmap. split.
  - intros ([id c'] & -> & Hin%elem_of_map_to_list). by exists id.
  - intros (id & Hid). exists (id, c). split; [done|]. by apply elem_of_map_to_list.
Qed.

Lemma matching_ascending after s : mock_ok s -> ascending (Mock.matching after s).
Proof.
  intros Hok. apply strictly_ascending; [apply StronglySorted_merge_sort; apply _|].
  unfold Mock.matching. rewrite merge_sort_Permutation.
  assert (NoDup (ch_server_seq <$> (map_to_list (mk_objects s)).*2)) as Hnd.
  { rewrite <- list_fmap_compose. apply NoDup_fmap_2_strong; [|apply NoDup_map_to_list].
    intros [id c] [id' c'] H1%elem_of_map_to_list H2%elem_of_map_to_list Heq. cbn in Heq.
    pose proof (ms_inj _ Hok _ _ _ _ H1 H2 Heq). subst. congruence. }
  revert Hnd. generalize ((map_to_list (mk_objects s)).*2). intros l.
  induction l as [|c l IH]; [done|]. rewrite fmap_cons, NoDup_cons. intros [Hnin Hnd]. cbn.
  destruct (_ <? _)%N; [|by apply IH]. rewrite fmap_cons, NoDup_cons. split; [|by apply IH].
  intros Hin. apply Hnin. apply list_elem_of_fmap in Hin as (c' & -> & Hc').
  apply list_elem_of_fmap_2. by apply list_elem_of_In, filter_In, proj1, list_elem_of_In in Hc'.
Qed.

Lemma feed_unique (l l' : list ObjectChange) :
  ascending l -> ascending l' -> l ≡ₚ l' -> l = l'.
Proof.
  intros H1 H2 Hp. apply (StronglySorted_unique_strong (fun a b => (ch_server_seq a < ch_server_seq b)%N)); [|done..].
  intros. lia.
Qed.

Lemma matching_feed after s : mock_ok s -> Mock.matching after s = feed_after (feed s) after.
Proof.
  intros Hok. apply feed_unique; [by apply matching_ascending|by apply feed_after_ascending, matching_ascending|].
  unfold feed, feed_after, Mock.matching. rewrite !merge_sort_Permutation.
  rewrite (filter_perm _ _ _ (merge_sort_Permutation Mock.seq_le _)).
  generalize ((map_to_list (mk_objects s)).*2). intros l. induction l as [|c l IH]; [done|]. cbn.
  destruct (N.ltb_spec 0 (ch_server_seq c)); cbn; destruct (N.ltb_spec after (ch_server_seq c)); try lia; by rewrite IH.
Qed.

Lemma mock_serves limit s :
  mock_ok s -> mk_fail_next s = None -> limit <> Some 0%N -> serves limit s (feed s).
Proof.
  intros Hok Hf Hl after. exists (N.to_nat (default 50%N limit)).
  eexists. split; [destruct limit as [[]|]; cbn; lia || done|].
  cbn. unfold Mock.pull_changes, mbind, M_bind, Mock.check_failure, Mock.locked. rewrite Hf.
  by rewrite (matching_feed after s Hok).
Qed.

(** ** Delivering the queue *)

Definition current_revision (s : MockSyncAdapter) (oid : string) : N :=
  from_option ch_revision 0%N (mk_objects s !! oid).

(** The server will accept the mutation. *)
Record acceptable (s : MockSyncAdapter) (m : PendingMutation) : Prop := {
  ac_ready : ready m = true;
  ac_new : mk_processed s !! mut_mutation_id m = None;
  ac_current : mut_expected_revision m = current_revision s (mut_object_id m)
}.

Record deliverable (s : MockSyncAdapter) (q : list PendingMutation) : Prop := {
  de_ids : NoDup (mut_mutation_id <$> q);
  de_objects : NoDup (mut_object_id <$> q);
  de_acceptable : Forall (acceptable s) q;
  de_working : mk_fail_next s = None;
  de_room : (mk_sequence_counter s + N.of_nat (length q) <= u64_max)%N
}.

(** What the push of [q] changed. *)
Record delivered (q : list PendingMutation) (s : MockSyncAdapter) (v : MemoryStorage)
    (s' : MockSyncAdapter) (v' : MemoryStorage) : Prop := {
  dl_queue : mem_mutations v' = [];
  dl_server m : m ∈ q -> exists c, mk_objects s' !! mut_object_id m = Some c
    /\ ch_envelope c = mut_envelope m /\ ch_revision c = u64_add (mut_expected_revision m) 1
    /\ ch_object_kind c = mut_object_kind m
    /\ ch_is_deleted c = is_delete m /\ (mk_sequence_counter s < ch_server_seq c)%N;
  dl_others id : id ∉ mut_object_id <$> q -> mk_objects s' !! id = mk_objects s !! id;
  dl_local id : id ∉ mut_object_id <$> q -> mem_objects v' !! id = mem_objects v !! id;
  dl_sync : mem_sync_state v' = mem_sync_state v;
  dl_ok : mock_ok s';
  dl_working : mk_fail_next s' = None;
  dl_size : (size (mk_objects s') <= size (mk_objects s) + length q)%nat
}.

Section deliver.
Context `{!Env} `{CryptoLib} `{NoteLib}.
Implicit Types (s : MockSyncAdapter) (l : Local MemoryStorage).

Lemma push_accepted s m :
  mk_fail_next s = None -> acceptable s m ->
  let seq := u64_add (mk_sequence_counter s) 1 in
  let rev := u64_add (mut_expected_revision m) 1 in
  Mock.push_mutation (request_of m) s
  = (Ok (mkPushResponse (mut_object_id m) rev seq),
     mkMock (mk_bootstrap s) (<[mut_object_id m := mkObjectChange seq (mut_object_id m) rev
       (mut_object_kind m) (is_delete m) (mut_envelope m)]> (mk_objects s)) seq (mk_fail_next s)
       (<[mut_mutation_id m := (request_of m, mkPushResponse (mut_object_id m) rev seq)]> (mk_processed s))).
Proof using Type.
  intros Hf [_ Hnew Hcur]. unfold Mock.push_mutation, mbind, M_bind, Mock.check_failure, Mock.locked.
  rewrite Hf. cbn [req_mutation_id request_of]. rewrite Hnew. cbn [req_object_id req_expected_revision request_of].
  unfold current_revision in Hcur. rewrite <- Hcur, N.eqb_refl. cbn. by rewrite Hf.
Qed.

Lemma find_head m rest : find_first (Memory.by_mutation_id (mut_mutation_id m)) (m :: rest) = Some m.
Proof using Type. cbn. unfold Memory.by_mutation_id, has_key. by rewrite bool_decide_eq_true_2. Qed.

Lemma mark_memory l m rest :
  mem_mutations (l_view l) = m :: rest ->
  exists n l', Queue.mark_in_flight (mut_mutation_id m) l = (Ok tt, l')
    /\ l_view l' = with_mutations (fun _ => Memory.set_status InFlight n m :: rest) (l_view l).
Proof using Type.
  intros Hq. change (mem_mutations (l_store l) = m :: rest) in Hq.
  unfold Queue.mark_in_flight, Queue.find_mutation.
  assert (on_store QE_Storage (Storage.get_mutation (mut_mutation_id m)) l = (Ok (Some m), l)) as Hget.
  { destruct l. cbn in *. unfold on_store, map_err, zoom, Memory.get_mutation. cbn. by rewrite Hq, find_head. }
  erewrite run_bind_ok by (rewrite (run_bind_ok _ _ _ _ _ Hget); reflexivity).
  unfold on_store, map_err, zoom. cbn. unfold Memory.update_mutation_status. rewrite Hq, find_head.
  eexists _, _. split; [done|]. unfold l_view. cbn. unfold with_mutations. rewrite Hq. f_equal. cbn.
  unfold Memory.by_mutation_id, has_key. by rewrite bool_decide_eq_true_2.
Qed.

Lemma ack_memory l m rest rev seq :
  mem_mutations (l_view l) = m :: rest ->
  exists o t l', Queue.acknowledge_accepted (mut_mutation_id m) rev seq l = (Ok o, l')
    /\ mem_mutations (l_view l') = rest /\ mem_sync_state (l_view l') = mem_sync_state (l_view l)
    /\ mem_objects (l_view l') = <[mut_object_id m := Queue.accepted_object m rev seq t]> (mem_objects (l_view l)).
Proof using Type.
  intros Hq. change (mem_mutations (l_store l) = m :: rest) in Hq.
  unfold Queue.acknowledge_accepted, Queue.find_mutation.
  assert (on_store QE_Storage (Storage.get_mutation (mut_mutation_id m)) l = (Ok (Some m), l)) as Hget.
  { destruct l. cbn in *. unfold on_store, map_err, zoom, Memory.get_mutation. cbn. by rewrite Hq, find_head. }
  erewrite run_bind_ok by (rewrite (run_bind_ok _ _ _ _ _ Hget); reflexivity).
  erewrite run_bind_ok by reflexivity. cbv zeta. erewrite run_bind_ok by reflexivity.
  erewrite run_bind_ok; [|unfold on_store, map_err, zoom; cbn; unfold Memory.remove_mutation; cbn; rewrite Hq, find_head; reflexivity].
  erewrite run_bind_ok by reflexivity. eexists _, _, _. split; [reflexivity|]. cbn. rewrite Hq. cbn.
  unfold Memory.by_mutation_id, has_key. by rewrite bool_decide_eq_true_2.
Qed.

(** One turn of the push loop. *)
Lemma push_turn options s l m rest report :
  po_max_mutations options = None -> mk_fail_next s = None -> acceptable s m ->
  mem_mutations (l_view l) = m :: rest ->
  let s' := (Mock.push_mutation (request_of m) s).2 in
  exists i t l', Push.push_loop options (m :: rest) report (mkWorld s l)
      = Push.push_loop options rest (add_accepted i (attempted report)) (mkWorld s' l')
    /\ mem_mutations (l_view l') = rest /\ mem_sync_state (l_view l') = mem_sync_state (l_view l)
    /\ mem_objects (l_view l') = <[mut_object_id m := Queue.accepted_object m
         (u64_add (mut_expected_revision m) 1) (u64_add (mk_sequence_counter s) 1) t]> (mem_objects (l_view l)).
Proof using Type.
  intros Hmax Hf Hacc Hq s'. pose proof (push_accepted s m Hf Hacc) as Hpush. cbv zeta in Hpush.
  destruct (mark_memory l m rest Hq) as (n & l1 & Hmark & Hv1).
  set (m1 := Memory.set_status InFlight n m) in *.
  destruct (ack_memory l1 m1 rest (u64_add (mut_expected_revision m) 1) (u64_add (mk_sequence_counter s) 1))
    as (o & t & l2 & Hack & Hq2 & Hy2 & Ho2); [by rewrite Hv1|].
  eexists _, t, l2. split_and!; [|done|by rewrite Hy2, Hv1|by rewrite Ho2, Hv1].
  cbn [Push.push_loop]. unfold Push.limit_reached. rewrite Hmax, (ac_ready _ _ Hacc). cbn [negb]. cbv zeta.
  erewrite run_bind_ok by (unfold on_local, map_err, zoom; cbn [w_local]; rewrite Hmark; reflexivity).
  erewrite run_bind_ok
    by (unfold attempt, on_net, map_err, zoom; cbn [w_net set_local ad_push_mutation Mock_SyncServerAdapter];
        rewrite Hpush; reflexivity).
  unfold Push.handle_answer. cbn [resp_revision resp_server_seq].
  erewrite run_bind_ok by (erewrite run_bind_ok
    by (unfold on_local, map_err, zoom; cbn [w_local set_net set_local]; change (mut_mutation_id m) with (mut_mutation_id m1);
        rewrite Hack; reflexivity); reflexivity).
  cbn [fst snd]. unfold s'. rewrite Hpush. reflexivity.
Qed.

Lemma acceptable_other s m m' :
  mk_fail_next s = None -> acceptable s m -> acceptable s m' ->
  mut_mutation_id m' <> mut_mutation_id m -> mut_object_id m' <> mut_object_id m ->
  acceptable (Mock.push_mutation (request_of m) s).2 m'.
Proof using Type.
  intros Hf Hacc [Hr Hn Hc] Hid Hoid. rewrite (push_accepted s m Hf Hacc). cbn [snd].
  split; [done|cbn; by rewrite lookup_insert_ne|].
  unfold current_revision in *. cbn. by rewrite lookup_insert_ne.
Qed.

Lemma push_all options : forall q s l report,
  po_max_mutations options = None -> mock_ok s -> deliverable s q -> mem_mutations (l_view l) = q ->
  exists report' s' l', Push.push_loop options q report (mkWorld s l) = (Ok report', mkWorld s' l')
    /\ delivered q s (l_view l) s' (l_view l')
    /\ length (prp_accepted report') = (length (prp_accepted report) + length q)%nat
    /\ prp_conflicts report' = prp_conflicts report.
Proof using Type.
  induction q as [|m q IH]; intros s l report Hmax Hok [Hids Hoids Hacc Hf Hroom] Hq.
  { exists report, s, l. split_and!; [done| |cbn; lia|done]. split; [done|set_solver|done..|cbn; lia]. }
  apply Forall_cons in Hacc as [Hm Hacc]. rewrite fmap_cons, NoDup_cons in Hids, Hoids.
  destruct Hids as [Hid Hids], Hoids as [Hoid Hoids]. cbn [length] in Hroom.
  destruct (push_turn options s l m q report Hmax Hf Hm Hq) as (i & t & l1 & Hrun & Hq1 & Hy1 & Ho1).
  pose proof (mock_push_ok (request_of m) s Hok ltac:(lia)) as Hok1.
  assert (Forall (acceptable (Mock.push_mutation (request_of m) s).2) q) as Hacc1.
  { rewrite Forall_forall in *. intros m' Hm'. apply acceptable_other; [done|done|by apply Hacc|..];
      intros Heq; [apply Hid|apply Hoid]; rewrite <- Heq; by apply list_elem_of_fmap_2. }
  pose proof (push_accepted s m Hf Hm) as Hp. cbv zeta in Hp. rewrite Hp in Hrun, Hok1, Hacc1. cbn [snd] in *.
  edestruct IH as (report' & s' & l' & Hrun' & [Dq Ds Do Dl Dy Dk Dw Dz] & Hlen & Hconf);
    [done|exact Hok1|split; [done|done|exact Hacc1|done|cbn; rewrite u64_add_small by lia; lia]|exact Hq1|].
  exists report', s', l'. rewrite Hrun, Hrun'. split_and!; [done| |cbn in Hlen |- *; rewrite length_app in Hlen; cbn in Hlen; lia|done].
  cbn in *. rewrite (u64_add_small (mk_sequence_counter s)) in * by lia.
  split; [done| | | |congruence|done|done|].
  - intros m' [->|Hm']%elem_of_cons.
    + rewrite Do by done. rewrite lookup_insert_eq. eexists. split; [done|]. cbn. split_and!; [done..|lia].
    + destruct (Ds m' Hm') as (c & Hc1 & Hc2 & Hc3 & Hc4 & Hc5 & Hc6). exists c. split_and!; [done..|lia].
  - intros id. rewrite fmap_cons, not_elem_of_cons. intros [Hne Hnin]. rewrite Do, lookup_insert_ne by done. done.
  - intros id. rewrite fmap_cons, not_elem_of_cons. intros [Hne Hnin].
    rewrite Dl, Ho1, lookup_insert_ne by done. done.
  - etrans; [exact Dz|]. rewrite map_size_insert. destruct (mk_objects s !! _); cbn; lia.
Qed.

(** ** The cycle *)

Lemma pull_size s after : (length (feed_after (feed s) after) <= size (mk_objects s))%nat.
Proof using Type.
  etrans; [apply List.filter_length_le|]. unfold feed, Mock.matching. rewrite merge_sort_Permutation.
  etrans; [apply List.filter_length_le|]. by rewrite length_fmap, length_map_to_list.
Qed.

(** The recovery keeps the edits and their readiness. *)
Lemma reset_partial l :
  NoDup (queue_ids (l_view l)) ->
  exists pre rest, mem_mutations (l_view l) = pre ++ rest
    /\ l_view (Queue.reset_in_flight l).2 = with_mutations (fun _ => (reset_entry <$> pre) ++ rest) (l_view l).
Proof using Type.
  intros Hnd. apply (wp_reset_in_flight (fun _ l' => exists pre rest, mem_mutations (l_view l) = pre ++ rest
    /\ l_view l' = with_mutations (fun _ => (reset_entry <$> pre) ++ rest) (l_view l))); [done| |by eauto].
  intros l' Hv. exists (mem_mutations (l_view l)), []. rewrite !app_nil_r. done.
Qed.

Lemma reset_entry_fields m :
  mut_mutation_id (reset_entry m) = mut_mutation_id m /\ mut_object_id (reset_entry m) = mut_object_id m
  /\ mut_expected_revision (reset_entry m) = mut_expected_revision m
  /\ mut_envelope (reset_entry m) = mut_envelope m /\ is_delete (reset_entry m) = is_delete m
  /\ mut_object_kind (reset_entry m) = mut_object_kind m
  /\ (ready m = true -> ready (reset_entry m) = true).
Proof using Type. unfold reset_entry. by destruct (Queue.is_in_flight m). Qed.

Lemma reset_fmap {B} (f : PendingMutation -> B) pre rest :
  (forall m, f (reset_entry m) = f m) -> f <$> (reset_entry <$> pre) ++ rest = f <$> pre ++ rest.
Proof using Type.
  intros Hf. rewrite !fmap_app, <- list_fmap_compose. f_equal. apply list_fmap_ext. intros i x _. apply Hf.
Qed.

Lemma deliverable_reset s pre rest :
  deliverable s (pre ++ rest) -> deliverable s ((reset_entry <$> pre) ++ rest).
Proof using Type.
  intros [Hids Hoids Hacc Hf Hroom]. split.
  - rewrite reset_fmap; [done|]. intros m. apply (reset_entry_fields m).
  - rewrite reset_fmap; [done|]. intros m. apply (reset_entry_fields m).
  - apply Forall_app in Hacc as [H1' H2']. apply Forall_app. split; [|done].
    apply Forall_fmap. eapply Forall_impl; [exact H1'|]. intros m [Hr Hn Hc].
    destruct (reset_entry_fields m) as (E1 & E2 & E3 & _ & _ & _ & E4). split; cbn; rewrite ?E1, ?E2, ?E3; auto.
  - done.
  - rewrite length_app, length_fmap, <- length_app. done.
Qed.

Lemma delivered_reset pre rest s v s' v' :
  delivered ((reset_entry <$> pre) ++ rest) s v s' v' -> delivered (pre ++ rest) s v s' v'.
Proof using Type.
  intros [Dq Ds Do Dl Dy Dk Dw Dz].
  assert (mut_object_id <$> (reset_entry <$> pre) ++ rest = mut_object_id <$> pre ++ rest) as Hoids
    by (apply reset_fmap; intros m; apply (reset_entry_fields m)).
  split; try done.
  - intros m [Hm|Hm]%elem_of_app; [|apply Ds, elem_of_app; by right].
    destruct (Ds (reset_entry m)) as (c & Hc); [apply elem_of_app; left; by apply list_elem_of_fmap_2|].
    exists c. destruct (reset_entry_fields m) as (_ & E2 & E3 & E4 & E5 & E6 & _). by rewrite E2, E3, E4, E5, E6 in Hc.
  - by rewrite <- Hoids.
  - by rewrite <- Hoids.
  - rewrite !length_app, ?length_fmap in *. done.
Qed.

(** *** What an unlocked client can read *)

(** With a key, the note has to decrypt unless it is deleted. *)
Definition readable (key : option string) (deleted : bool) (env : EncryptedEnvelope) : Prop :=
  match key with
  | Some k => deleted = false -> is_ok (decrypt env k) = true
  | None => True
  end.

Definition server_readable (key : option string) (s : MockSyncAdapter) : Prop :=
  forall id c, mk_objects s !! id = Some c -> readable key (ch_is_deleted c) (ch_envelope c).
Definition queue_readable (key : option string) (q : list PendingMutation) : Prop :=
  Forall (fun m => readable key (is_delete m) (mut_envelope m)) q.

Lemma decrypt_all_readable key changes :
  Forall (fun c => readable key (ch_is_deleted c) (ch_envelope c)) changes ->
  exists items, Pull.decrypt_all key changes = Ok items.
Proof using Type.
  destruct key as [k|]; cbn; [|by eexists]. induction 1 as [|c changes Hc _ IH]; cbn; [by eexists|].
  destruct IH as [items ->]. unfold Pull.decrypt_item. destruct (ch_is_deleted c); cbn; [by eexists|].
  destruct (decrypt (ch_envelope c) k) as [note|] eqn:Hd; [by eexists|]. by specialize (Hc eq_refl).
Qed.

Lemma feed_readable key s after :
  server_readable key s ->
  Forall (fun c => readable key (ch_is_deleted c) (ch_envelope c)) (feed_after (feed s) after).
Proof using Type.
  intros Hr. apply Forall_forall. intros c [Hin _]%elem_of_feed_after.
  apply elem_of_matching in Hin as [(id & Hid) _]. by apply (Hr id).
Qed.

Lemma queue_readable_reset key pre rest :
  queue_readable key (pre ++ rest) -> queue_readable key ((reset_entry <$> pre) ++ rest).
Proof using Type.
  unfold queue_readable. intros [Hp Hr]%Forall_app. apply Forall_app. split; [|done].
  apply Forall_fmap. eapply Forall_impl; [exact Hp|]. intros m. cbn.
  destruct (reset_entry_fields m) as (_ & _ & _ & -> & -> & _). done.
Qed.

(** The pushed edits are readable too. *)
Lemma delivered_readable key q s v s' v' :
  delivered q s v s' v' -> server_readable key s -> queue_readable key q -> server_readable key s'.
Proof using Type.
  intros D Hs Hq id c Hid. destruct (decide (id ∈ mut_object_id <$> q)) as [Hin|Hnin].
  - apply list_elem_of_fmap in Hin as (m & -> & Hm).
    destruct (dl_server _ _ _ _ _ D m Hm) as (c' & Hc' & He & _ & _ & Hd & _).
    rewrite Hid in Hc'. injection Hc' as <-. rewrite He, Hd.
    unfold queue_readable in Hq. rewrite Forall_forall in Hq. by apply Hq.
  - rewrite (dl_others _ _ _ _ _ D) in Hid by done. by apply (Hs id).
Qed.

(** A pull from the in-memory server. *)
Lemma pull_mock fuel key options s l :
  mock_ok s -> mk_fail_next s = None -> server_readable key s ->
  plo_page_limit options <> Some 0%N -> plo_max_pages options = None ->
  (size (mk_objects s) < fuel)%nat ->
  exists report l', Pull.pull_remote_changes fuel key options (mkWorld s l) = (Ok (Some report), mkWorld s l')
    /\ progress (l_view l) (feed_after (feed s) (cursor_of (l_view l))) (l_view l')
    /\ stored_exactly (l_view l) (feed_after (feed s) (cursor_of (l_view l))) (l_view l')
    /\ only_objects (l_view l) (l_view l').
Proof using Type.
  intros Hok Hf Hread Hlim Hmax Hfuel.
  destruct (pull_memory (plo_page_limit options) (feed s) fuel key options s l)
    as (l' & pages & Hpg & Hst & Hoo & _ & Hrun);
    [by apply mock_serves|by apply matching_ascending|done|done| |].
  { pose proof (pull_size s (cursor_of (l_view l))). lia. }
  destruct (decrypt_all_readable key _ (feed_readable key s (cursor_of (l_view l)) Hread)) as [items Hitems].
  rewrite Hitems in Hrun. by eexists _, l'.
Qed.

(** An object has one change on the server. *)
Lemma feed_object s c c' : mock_ok s -> c ∈ feed s -> c' ∈ feed s -> ch_object_id c' = ch_object_id c -> c' = c.
Proof using Type.
  intros Hok [(id & Hid) _]%elem_of_matching [(id' & Hid') _]%elem_of_matching Heq.
  rewrite (ms_key _ Hok _ _ Hid), (ms_key _ Hok _ _ Hid') in Heq. subst. congruence.
Qed.

Lemma pulled_holds s v v' cur c :
  mock_ok s -> stored_exactly v (feed_after (feed s) cur) v' -> c ∈ feed s -> (cur < ch_server_seq c)%N ->
  holds_change v' c.
Proof using Type.
  intros Hok Hst Hin Hlt. eapply stored_exactly_in; [exact Hst|by apply elem_of_feed_after|].
  intros c' [Hin' _]%elem_of_feed_after. by apply (feed_object s).
Qed.

(** A pull does not touch an object that has no change beyond the cursor. *)
Lemma pulled_keeps s v v' cur id :
  mock_ok s -> stored_exactly v (feed_after (feed s) cur) v' ->
  (forall c, mk_objects s !! id = Some c -> (ch_server_seq c <= cur)%N) ->
  mem_objects v' !! id = mem_objects v !! id.
Proof using Type.
  intros Hok Hst Hold. eapply stored_exactly_out; [exact Hst|].
  intros c [Hin Hlt]%elem_of_feed_after <-. apply elem_of_matching in Hin as [(id & Hid) _].
  rewrite <- (ms_key _ Hok _ _ Hid) in Hid. specialize (Hold _ Hid). lia.
Qed.

(** What the first pull stored is still stored after the push, unless the
    push itself changed the object. *)
Lemma held_through_push q s v v1 s' v2 c :
  mock_ok s -> progress v (feed_after (feed s) (cursor_of v)) v1 ->
  stored_exactly v (feed_after (feed s) (cursor_of v)) v1 -> delivered q s v1 s' v2 ->
  c ∈ feed s' -> (cursor_of v < ch_server_seq c <= cursor_of v1)%N -> holds_change v2 c.
Proof using Type.
  intros Hok [Hc Hr _ _ _] Hst D Hin [Hlo Hhi].
  assert (cursor_of v1 <= mk_sequence_counter s)%N as Hold.
  { destruct Hr as [|(d & [Hd _]%elem_of_feed_after & ->)]; [lia|].
    apply elem_of_matching in Hd as [(id & Hid) _]. apply (ms_seq _ Hok) in Hid. lia. }
  apply elem_of_matching in Hin as [(id & Hid) _]. pose proof (ms_key _ (dl_ok _ _ _ _ _ D) _ _ Hid) as Hkey.
  assert (id ∉ mut_object_id <$> q) as Hnew.
  { intros (m & -> & Hm)%list_elem_of_fmap. destruct (dl_server _ _ _ _ _ D m Hm) as (c' & Hc' & _ & _ & _ & _ & Hgt).
    rewrite Hc' in Hid. injection Hid as <-. lia. }
  rewrite (dl_others _ _ _ _ _ D) in Hid by done.
  assert (holds_change v1 c) as Hh.
  { eapply pulled_holds; [exact Hok|exact Hst| |done]. apply elem_of_matching. split; [by exists id|]. lia. }
  unfold holds_change in *. rewrite Hkey in *. by rewrite (dl_local _ _ _ _ _ D).
Qed.

(** Nothing pushed, nothing new on the server. *)
Lemma feed_idle s v s' v' c : delivered [] s v s' v' -> c ∈ feed s' -> c ∈ feed s.
Proof using Type.
  intros D. unfold feed. rewrite !elem_of_matching. intros [(id & Hid) Hlt]. split; [|done]. exists id.
  rewrite <- (dl_others _ _ _ _ _ D id); [done|]. set_solver.
Qed.

(** *** What the store holds at the end

    [v] before the cycle, [v1] after the first pull from [s], [v2] after the push
    that left the server at [s'], [v3] after the follow-up pull. *)

Lemma push_cursor q s v s' v' : delivered q s v s' v' -> cursor_of v' = cursor_of v.
Proof using Type. intros D. unfold cursor_of. by rewrite (dl_sync _ _ _ _ _ D). Qed.

Lemma followed_holds q s v v1 s' v2 v3 c :
  mock_ok s -> progress v (feed_after (feed s) (cursor_of v)) v1 ->
  stored_exactly v (feed_after (feed s) (cursor_of v)) v1 -> delivered q s v1 s' v2 ->
  stored_exactly v2 (feed_after (feed s') (cursor_of v2)) v3 ->
  c ∈ feed s' -> (cursor_of v < ch_server_seq c)%N -> holds_change v3 c.
Proof using Type.
  intros Hok Hpg Hst D Hst3 Hin Hlt. pose proof (dl_ok _ _ _ _ _ D) as Hok'. pose proof (push_cursor _ _ _ _ _ D) as Hc2.
  destruct (N.le_gt_cases (ch_server_seq c) (cursor_of v1)) as [Hle|Hgt];
    [|by eapply pulled_holds; [exact Hok'|exact Hst3|done|by rewrite Hc2]].
  pose proof (held_through_push _ _ _ _ _ _ _ Hok Hpg Hst D Hin (conj Hlt Hle)) as Hold. unfold holds_change in *.
  rewrite (pulled_keeps s' _ _ _ (ch_object_id c) Hok' Hst3); [done|].
  intros c' Hc'. replace c' with c; [by rewrite Hc2|].
  apply elem_of_matching in Hin as [(id & Hid) _]. rewrite (ms_key _ Hok' _ _ Hid) in Hc'. congruence.
Qed.

Lemma idle_holds s v v1 s' v2 c :
  mock_ok s -> progress v (feed_after (feed s) (cursor_of v)) v1 ->
  stored_exactly v (feed_after (feed s) (cursor_of v)) v1 -> delivered [] s v1 s' v2 ->
  c ∈ feed s' -> (cursor_of v < ch_server_seq c)%N -> holds_change v2 c.
Proof using Type.
  intros Hok Hpg Hst D Hin Hlt. eapply (held_through_push _ _ _ _ _ _ _ Hok Hpg Hst D Hin). split; [done|].
  apply (feed_idle _ _ _ _ _ D) in Hin. pose proof (pg_bound _ _ _ Hpg) as Hb. rewrite Forall_forall in Hb.
  by apply Hb, elem_of_feed_after.
Qed.

Lemma unedited_kept q s v v1 s' v2 id :
  mock_ok s -> stored_exactly v (feed_after (feed s) (cursor_of v)) v1 -> delivered q s v1 s' v2 ->
  id ∉ mut_object_id <$> q ->
  (forall c, mk_objects s' !! id = Some c -> (ch_server_seq c <= cursor_of v)%N) ->
  mem_objects v2 !! id = mem_objects v !! id.
Proof using Type.
  intros Hok Hst D Hid Hseq. rewrite (dl_local _ _ _ _ _ D) by done. apply (pulled_keeps s _ _ _ id Hok Hst).
  intros c Hc. apply Hseq. by rewrite (dl_others _ _ _ _ _ D).
Qed.

(** The push phase and the pull after it. *)
Lemma push_and_follow fuel key options s l :
  mock_ok s -> server_readable key s -> queue_readable key (mem_mutations (l_view l)) -> deliverable s (mem_mutations (l_view l)) ->
  plo_page_limit (co_pull_options options) <> Some 0%N -> plo_max_pages (co_pull_options options) = None ->
  po_max_mutations (co_push_options options) = None ->
  (size (mk_objects s) + length (mem_mutations (l_view l)) < fuel)%nat ->
  exists pr s' l1,
    Push.push_pending_changes (Cycle.with_key key (co_push_options options)) (mkWorld s l) = (Ok pr, mkWorld s' l1)
    /\ delivered (mem_mutations (l_view l)) s (l_view l) s' (l_view l1)
    /\ length (prp_accepted pr) = length (mem_mutations (l_view l))
    /\ prp_conflicts pr = []
    /\ exists report l2, Pull.pull_remote_changes fuel key (co_pull_options options) (mkWorld s' l1)
           = (Ok (Some report), mkWorld s' l2)
         /\ progress (l_view l1) (feed_after (feed s') (cursor_of (l_view l1))) (l_view l2)
         /\ stored_exactly (l_view l1) (feed_after (feed s') (cursor_of (l_view l1))) (l_view l2)
         /\ only_objects (l_view l1) (l_view l2).
Proof using Type.
  intros Hok Hread Hqread Hdel Hlim Hmax Hpm Hfuel.
  destruct (push_all (Cycle.with_key key (co_push_options options)) (mem_mutations (l_view l)) s l PushReport_default)
    as (pr & s' & l1 & Hrun & D & Hlen & Hconf); [done..|].
  exists pr, s', l1. split_and!; [|done|done|done|].
  - unfold Push.push_pending_changes. erewrite run_bind_ok; [exact Hrun|]. by destruct l.
  - apply pull_mock; [apply D|apply D|by eapply delivered_readable|done|done|]. pose proof (dl_size _ _ _ _ _ D). lia.
Qed.
(** The phases of a cycle composed. *)
Lemma cycle_run fuel key options s l r0 l0 ip l1 pr s' l2 fp l3 :
  let follow := negb (bool_decide (length (prp_accepted pr) = 0)) || co_always_followup_pull options in
  let l4 := if follow then l3 else l2 in
  Queue.reset_in_flight l = (r0, l0) ->
  Pull.pull_remote_changes fuel key (co_pull_options options) (mkWorld s l0) = (Ok (Some ip), mkWorld s l1) ->
  Push.push_pending_changes (Cycle.with_key key (co_push_options options)) (mkWorld s l1) = (Ok pr, mkWorld s' l2) ->
  Pull.pull_remote_changes fuel key (co_pull_options options) (mkWorld s' l2) = (Ok (Some fp), mkWorld s' l3) ->
  mem_mutations (l_view l4) = [] ->
  Cycle.run_sync_cycle fuel key options (mkWorld s l)
  = (Ok (Some (mkCycleReport ip pr (if follow then Some fp else None) (cursor_of (l_view l0)) (cursor_of (l_view l4))
       (length (prp_accepted pr)) (length (prp_conflicts pr)) 0)), mkWorld s' l4).
Proof using Type.
  intros follow l4 Hreset Hpull Hpush Hfollow Hempty. unfold Cycle.run_sync_cycle.
  erewrite run_bind_ok by (unfold ignore, on_local, map_err, zoom; cbn [w_local]; rewrite Hreset; reflexivity).
  erewrite (run_bind_ok _ _ _ (cursor_of (l_view l0)) (mkWorld s l0)); [|clear; by destruct r0, l0].
  erewrite run_bind_ok by (unfold map_err; cbn [w_net]; rewrite Hpull; reflexivity).
  cbv iota. erewrite run_bind_ok by (unfold map_err; rewrite Hpush; reflexivity). cbv zeta. fold follow.
  rewrite (run_bind_ok _ _ _ (Some (if follow then Some fp else None)) (mkWorld s' l4)).
  2:{ subst l4. destruct follow; [|done]. erewrite run_bind_ok by (unfold map_err; rewrite Hfollow; reflexivity). done. }
  rewrite (run_bind_ok _ _ _ (cursor_of (l_view l4)) (mkWorld s' l4)) by (clear; by destruct l4).
  rewrite (run_bind_ok _ _ _ 0%nat (mkWorld s' l4)); [reflexivity|].
  change (mem_mutations (l_store l4) = []) in Hempty.
  unfold on_local, map_err, zoom. cbn. rewrite Hempty. by destruct l4.
Qed.

(** C5. A sync cycle delivers.  Against the in-memory server, on the in-memory
    store (one whose operations do not fail), when every queued edit is ready, new
    to the server and made on the server's current revision of its object (one
    edit per object), no page or mutation limit is set, and the vault is locked or
    everything live on the server and in the queue decrypts as a note, the cycle
    ends with a report, in the fuel of one page per object: every edit was accepted
    and is on the server with its envelope, kind, deletion flag and the next
    revision; the queue is empty and the report says so; the client's store holds
    exactly every change of the server beyond the old cursor, those made by the
    cycle included; and an object that was not edited and has no such change is as
    it was. *)
Theorem sync_cycle_delivers fuel key options s l :
  mock_ok s -> deliverable s (mem_mutations (l_view l)) ->
  server_readable key s -> queue_readable key (mem_mutations (l_view l)) ->
  plo_page_limit (co_pull_options options) <> Some 0%N -> plo_max_pages (co_pull_options options) = None ->
  po_max_mutations (co_push_options options) = None ->
  (size (mk_objects s) + length (mem_mutations (l_view l)) < fuel)%nat ->
  exists report s' l',
    Cycle.run_sync_cycle fuel key options (mkWorld s l) = (Ok (Some report), mkWorld s' l')
    /\ cy_mutations_accepted report = length (mem_mutations (l_view l))
    /\ cy_mutations_conflicted report = 0%nat /\ cy_mutations_remaining report = 0%nat
    /\ mem_mutations (l_view l') = []
    /\ (forall m, m ∈ mem_mutations (l_view l) -> exists c, mk_objects s' !! mut_object_id m = Some c
          /\ ch_envelope c = mut_envelope m /\ ch_revision c = u64_add (mut_expected_revision m) 1
          /\ ch_object_kind c = mut_object_kind m /\ ch_is_deleted c = is_delete m)
    /\ (forall c, c ∈ feed s' -> (cursor_of (l_view l) < ch_server_seq c)%N -> holds_change (l_view l') c)
    /\ (forall id, id ∉ mut_object_id <$> mem_mutations (l_view l) ->
          (forall c, mk_objects s' !! id = Some c -> (ch_server_seq c <= cursor_of (l_view l))%N) ->
          mem_objects (l_view l') !! id = mem_objects (l_view l) !! id).
Proof using Type.
  intros Hok Hdel Hread Hqread Hlim Hmax Hpm Hfuel.
  destruct (reset_partial l (de_ids _ _ Hdel)) as (pre & rest & Hq & Hv0).
  destruct (Queue.reset_in_flight l) as [r0 l0] eqn:Hreset. cbn [snd] in Hv0.
  assert (mem_mutations (l_view l0) = (reset_entry <$> pre) ++ rest) as Hq0 by (by rewrite Hv0).
  assert (cursor_of (l_view l0) = cursor_of (l_view l)) as Hc0 by (by rewrite Hv0).
  destruct (pull_mock fuel key (co_pull_options options) s l0) as (ip & l1 & Hpull & Hpg1 & Hst1 & Hoo1);
    [done|apply Hdel|done|done|done|lia|]. rewrite Hq in *.
  assert (mem_mutations (l_view l1) = (reset_entry <$> pre) ++ rest) as Hq1 by (by rewrite (oo_mutations _ _ Hoo1)).
  destruct (push_and_follow fuel key options s l1)
    as (pr & s' & l2 & Hpush & D & Hacc & Hconf & fp & l3 & Hfollow & Hpg3 & Hst3 & Hoo3);
    [done|done|rewrite Hq1; by apply queue_readable_reset|rewrite Hq1; by apply deliverable_reset|done..| |].
  { rewrite Hq1, length_app, length_fmap, <- length_app. lia. }
  assert (length (mem_mutations (l_view l1)) = length (pre ++ rest)) as Hlen
    by (by rewrite Hq1, !length_app, length_fmap).
  pose proof (dl_ok _ _ _ _ _ D) as Hok'.
  set (follow := negb (bool_decide (length (prp_accepted pr) = 0)) || co_always_followup_pull options).
  set (l4 := if follow then l3 else l2).
  exists (mkCycleReport ip pr (if follow then Some fp else None) (cursor_of (l_view l0)) (cursor_of (l_view l4))
    (length (prp_accepted pr)) (length (prp_conflicts pr)) 0), s', l4.
  cbn [cy_mutations_accepted cy_mutations_conflicted cy_mutations_remaining].
  assert (mem_mutations (l_view l4) = []) as Hempty.
  { subst l4. destruct follow; [rewrite (oo_mutations _ _ Hoo3)|]; apply D. }
  rewrite <- Hc0.
  split_and!; [|by rewrite Hacc|by rewrite Hconf|done|done| | |].
  - by apply (cycle_run fuel key options s l r0 l0 ip l1 pr s' l2 fp l3).
  - rewrite Hq1 in D. apply delivered_reset in D. intros m Hm.
    destruct (dl_server _ _ _ _ _ D m Hm) as (c & ? & ? & ? & ? & ? & _). by exists c.
  - intros c Hin Hlt. subst l4. destruct follow eqn:Hfol.
    + by apply (followed_holds _ _ _ _ _ _ _ _ Hok Hpg1 Hst1 D Hst3).
    + subst follow. apply orb_false_iff in Hfol as [Hfol%negb_false_iff%bool_decide_eq_true _].
      rewrite Hacc in Hfol. apply nil_length_inv in Hfol. rewrite Hfol in D.
      by apply (idle_holds _ _ _ _ _ _ Hok Hpg1 Hst1 D).
  - intros id Hid Hseq. rewrite <- (reset_fmap mut_object_id), <- Hq1 in Hid
      by (intros m; apply (reset_entry_fields m)).
    assert (mem_objects (l_view l2) !! id = mem_objects (l_view l) !! id) as H2
      by (rewrite (unedited_kept _ _ _ _ _ _ _ Hok Hst1 D Hid Hseq); by rewrite Hv0).
    subst l4. destruct follow; [|done]. rewrite <- H2. apply (pulled_keeps s' _ _ _ id Hok' Hst3).
    intros c Hc. rewrite (push_cursor _ _ _ _ _ D). specialize (Hseq c Hc). pose proof (pg_cursor _ _ _ Hpg1). lia.
Qed.
End deliver.
