(* ===== verification/SyncSamples.v ===== *)
(** * A sync cycle on concrete inputs

    Witnesses of the theorems about pushing, pulling and the cycle: the sample
    store against an in-memory server, and on a disk that fails. *)

From stdpp Require Import options.
From S2P Require Import Prelude Protocol StorageModels Storage CoreErrors Time Env Queue Cursor Text.
From S2P Require Import Diff3 Crypto Note Merge NoteSamples Conflict Adapter Push Pull Orchestrator.
From S2P Require Import SyncLive.

#[export] Instance sample_uuid_inj : Inj (=) (=) uuid_v4.
Proof.
  intros a b Heq. change ("uuid-" +:+ show_nat a = "uuid-" +:+ show_nat b) in Heq.
  cbn in Heq. apply Nat2N.inj, (inj pretty). by injection Heq.
Qed.

Definition sample_change (seq : N) (oid : string) (rev : N) : ObjectChange :=
  mkObjectChange seq oid rev OBJECT_KIND_NOTE false (sample_envelope oid "server").

(** The server has the object the store is based on, and one the client has
    not seen. *)
Definition sample_server : MockSyncAdapter :=
  mkMock None {["a" := sample_change 4 "a" 1; "c" := sample_change 6 "c" 1]} 6 None ∅.

(** A server on which another client has changed the object. *)
Definition ahead_server : MockSyncAdapter :=
  mkMock None {["a" := sample_change 9 "a" 2]} 9 None ∅.

Definition sample_push_options : PushOptions := mkPushOptions None false Manual None.
Definition sample_cycle_options : SyncCycleOptions :=
  mkCycleOptions (mkPullOptions (Some 1%N) None StoreCiphertextDeferDecryption) sample_push_options false.

Definition logged_world (s : MockSyncAdapter) (script : list bool)
    : World (Logged MockSyncAdapter) FaultInjectableStorage :=
  mkWorld (mkLogged s []) (faulty_local script).

(** The stale edit is in conflict and kept; the other one is accepted. *)
Lemma push_loses_nothing_witness :
  exists es, (Push.push_pending_changes sample_push_options (logged_world ahead_server [])).2.(w_net).(lg_pushes) = es
  /\ conflicts_kept sample_push_options es (w_local (Push.push_pending_changes sample_push_options (logged_world ahead_server [])).2)
  /\ map fst es = map request_of (List.filter ready (mem_mutations sample_store)).
Proof.
  destruct (Push.push_pending_changes sample_push_options (logged_world ahead_server [])) as [r w'] eqn:Hrun.
  destruct (push_loses_nothing sample_push_options (logged_world ahead_server []) r w') as (es & Hlog & H);
    [decide_it|exact Hrun|].
  exists es. split; [exact Hlog|]. destruct r as [report|e].
  - destruct H as (_ & _ & _ & _ & _ & Hk & _ & Hall). split; [exact Hk|]. apply Hall. split; reflexivity.
  - exfalso. apply (f_equal (fun p => is_ok p.1)) in Hrun. vm_compute in Hrun. discriminate Hrun.
Defined.

(** The fourth disk operation fails, after the first change was written. *)
Lemma pull_progress_witness :
  (4 <= cursor_of (l_view (w_local (Pull.pull_remote_changes 5 None PullOptions_default
          (logged_world ahead_server [false; true])).2)))%N.
Proof.
  destruct (Pull.pull_remote_changes 5 None PullOptions_default (logged_world ahead_server [false; true]))
    as [r w'] eqn:Hrun.
  destruct (pull_progress 5 None PullOptions_default (logged_world ahead_server [false; true]) r w' Hrun)
    as (pre & Hpg & _).
  exact (pg_cursor _ _ _ Hpg).
Defined.

Lemma sample_server_ok : mock_ok sample_server.
Proof.
  split.
  - intros id c H. unfold sample_server in H. cbn [mk_objects] in H.
    apply lookup_insert_Some in H as [[<- <-]|[_ [<- <-]%lookup_singleton_Some]]; done.
  - intros id c H. unfold sample_server in H. cbn [mk_objects] in H.
    apply lookup_insert_Some in H as [[<- <-]|[_ [<- <-]%lookup_singleton_Some]]; done.
  - intros id id' c c' H H' Hs. unfold sample_server in H, H'. cbn [mk_objects] in H, H'.
    apply lookup_insert_Some in H as [[<- <-]|[_ [<- <-]%lookup_singleton_Some]];
      apply lookup_insert_Some in H' as [[<- <-]|[_ [<- <-]%lookup_singleton_Some]]; done.
  - done.
Qed.

Lemma pull_complete_witness :
  exists l' pages, (Pull.pull_remote_changes 3 None (co_pull_options sample_cycle_options)
      (mkWorld sample_server sample_local))
    = (Ok (Some (mkPullReport pages 1 1 4 (cursor_of (l_view l')) false [])), mkWorld sample_server l')
    /\ holds_change (l_view l') (sample_change 6 "c" 1).
Proof.
  destruct (pull_complete (Some 1%N) (feed sample_server) 3 None (co_pull_options sample_cycle_options)
    sample_server sample_local) as (l' & pages & Hst & _ & Hcur & Hrun).
  - apply mock_serves; [apply sample_server_ok|reflexivity|discriminate].
  - apply matching_ascending, sample_server_ok.
  - reflexivity.
  - reflexivity.
  - vm_compute. lia.
  - exists l', pages. split; [exact Hrun|].
    change (feed_after (feed sample_server) (cursor_of (l_view sample_local)))
      with [sample_change 6 "c" 1] in Hst. exact (Hst "c").
Defined.

(** A cycle on a disk whose fifth operation fails. *)
Lemma sync_cycle_safe_witness :
  NoDup (queue_ids (w_view (Cycle.run_sync_cycle 5 None sample_cycle_options
    (logged_world ahead_server [false; false; false; false; true])).2)).
Proof.
  set (w := logged_world ahead_server [false; false; false; false; true]).
  destruct (Cycle.run_sync_cycle 5 None sample_cycle_options w) as [r w'] eqn:Hrun.
  destruct (sync_cycle_safe 5 None sample_cycle_options w r w') as [Hu _ _];
    [decide_it|exact Hrun|exact Hu].
Defined.

Lemma mock_push_preserves_witness :
  mock_ok (Mock.push_mutation (request_of (sample_mutation "m1" "a" 1 Pending)) sample_server).2.
Proof. apply mock_push_preserves; [apply sample_server_ok|reflexivity]. Defined.

(** An unlocked client: a note on the server, which the client has not seen, and
    a queued edit of another one, both sealed under the vault key. *)
Definition sealed (oid title : string) : EncryptedEnvelope :=
  default (sample_envelope oid "") (ok (encrypt (titled title) sample_vault_key oid 0).1).
Definition sealed_server : MockSyncAdapter :=
  mkMock None {["c" := mkObjectChange 6 "c" 1 OBJECT_KIND_NOTE false (sealed "c" "remote")]} 6 None ∅.
Definition sealed_local : Local MemoryStorage :=
  mkLocal (mkMemoryStorage ∅ [mkPendingMutation "m1" "b" 0 OBJECT_KIND_NOTE Upsert (sealed "b" "local")
    "2024-01-01T00:00:00.000Z" 0 Pending] ∅ (mkSyncState 4 None None) ∅) 0 0 0.

Lemma sync_cycle_delivers_witness :
  exists report s' l', Cycle.run_sync_cycle 5 (Some sample_vault_key) sample_cycle_options (mkWorld sealed_server sealed_local)
      = (Ok (Some report), mkWorld s' l')
    /\ cy_mutations_accepted report = 1%nat /\ cy_mutations_remaining report = 0%nat
    /\ mem_mutations (l_view l') = [].
Proof.
  destruct (sync_cycle_delivers 5 (Some sample_vault_key) sample_cycle_options sealed_server sealed_local)
    as (report & s' & l' & Hrun & Hacc & _ & Hrem & Hq & _).
  - split; cbn [mk_objects sealed_server].
    + intros id c [<- <-]%lookup_singleton_Some. reflexivity.
    + intros id c [<- <-]%lookup_singleton_Some. done.
    + intros id id' c c' [<- <-]%lookup_singleton_Some [<- <-]%lookup_singleton_Some. done.
    + done.
  - split; [decide_it|decide_it| |reflexivity|discriminate].
    repeat constructor.
  - intros id c. cbn [mk_objects sealed_server]. intros [<- <-]%lookup_singleton_Some _. vm_compute. reflexivity.
  - constructor; [|constructor]. intros _. vm_compute. reflexivity.
  - discriminate.
  - reflexivity.
  - reflexivity.
  - vm_compute. lia.
  - exists report, s', l'. split; [exact Hrun|]. split; [exact Hacc|]. split; [exact Hrem|exact Hq].
Defined.

(** ** Conflicts on concrete inputs

    Witnesses of the theorems about conflicts, and what Guarded
    last-write-wins does to further queued edits of the object. *)

Definition sample_conflict : ConflictResponse :=
  mkConflictResponse "REVISION_CONFLICT" "a" 1 2 9 (sample_envelope "a" "remote") false.

Definition sample_record : ConflictRecord :=
  ConflictRecord_new "c1" "a" OBJECT_KIND_NOTE 1 2 (Some (sample_envelope "a" "base"))
    (sample_envelope "a" "m1") (sample_envelope "a" "remote") None "2024-01-01T00:00:00.000Z".

(** The sample store with a recorded conflict, on a disk that fails as the
    script says. *)
Definition conflicted_local (script : list bool) : Local FaultInjectableStorage :=
  mkLocal (mkFaulty (with_conflicts <["c1" := sample_record]> sample_store) script) 0 0 0.

(** Resolving on a disk whose fourth operation fails keeps the record; a
    repetition succeeds. *)
Lemma resolve_conflict_safe_witness :
  mem_conflicts (l_view (Conflict.resolve_conflict sample_vault_key "c1" KeepLocal
    (conflicted_local [false; false; false; true])).2) !! "c1" = Some sample_record.
Proof.
  set (l := conflicted_local [false; false; false; true]).
  destruct (Conflict.resolve_conflict sample_vault_key "c1" KeepLocal l) as [r l'] eqn:Hrun.
  assert (r = Err (QE_Storage (SE_Backend "simulated disk failure"))) as Hr.
  { apply (f_equal (fun p => p.1)) in Hrun. cbn [fst] in Hrun. rewrite <- Hrun. vm_compute. reflexivity. }
  pose proof (resolve_conflict_safe sample_vault_key "c1" KeepLocal l r l') as H. rewrite Hr in H.
  destruct H as [Hc _]; [|intros c _; exact I|rewrite <- Hr; exact Hrun|].
  - apply (bool_decide_unpack _). vm_compute. exact I.
  - cbn [snd]. rewrite Hc. vm_compute. reflexivity.
Defined.

Lemma record_conflict_preserves_witness :
  exists rec outcome, (Conflict.record_conflict
      (mkPushConflict (sample_mutation "m1" "a" 1 InFlight) sample_conflict) None sample_local).1 = Ok (rec, outcome)
    /\ cr_base_envelope rec = Some (sample_envelope "a" "base")
    /\ cr_local_envelope rec = sample_envelope "a" "m1"
    /\ cr_remote_envelope rec = sample_envelope "a" "remote".
Proof.
  set (pc := mkPushConflict (sample_mutation "m1" "a" 1 InFlight) sample_conflict).
  destruct (Conflict.record_conflict pc None sample_local) as [r l'] eqn:Hrun.
  pose proof (record_conflict_preserves pc None sample_local r l' Hrun) as H.
  destruct r as [[rec outcome]|e].
  - destruct H as (_ & _ & _ & _ & Hb & Hl & Hr & _). exists rec, outcome. split; [reflexivity|].
    rewrite Hb, Hl, Hr. split; [vm_compute; reflexivity|]. split; reflexivity.
  - exfalso. apply (f_equal (fun p => is_ok p.1)) in Hrun. vm_compute in Hrun. discriminate Hrun.
Defined.

Lemma guarded_lww_keeps_both_witness :
  (Conflict.evaluate_guarded_lww (sample_mutation "m1" "a" 1 InFlight)
     (mkConflictResponse "REVISION_CONFLICT" "a" 1 2 9 (sample_envelope "a" "remote") true) None
     sample_local).1 = Err Conflict.lww_refused
  /\ l_view (Conflict.evaluate_guarded_lww (sample_mutation "m1" "a" 1 InFlight)
     (mkConflictResponse "REVISION_CONFLICT" "a" 1 2 9 (sample_envelope "a" "remote") true) None
     sample_local).2 = l_view sample_local.
Proof.
  set (conf := mkConflictResponse "REVISION_CONFLICT" "a" 1 2 9 (sample_envelope "a" "remote") true).
  split; [vm_compute; reflexivity|].
  pose proof (guarded_lww_keeps_both (sample_mutation "m1" "a" 1 InFlight) conf None sample_local
    (Err Conflict.lww_refused) sample_local) as H.
  destruct H as (_ & _ & _ & H); [|reflexivity|].
  - apply (bool_decide_unpack _). vm_compute. exact I.
  - exact (H eq_refl).
Defined.

(** ** What happens to further queued edits *)

(** Whether the envelope is anywhere in the store. *)
Definition holds (v : MemoryStorage) (env : EncryptedEnvelope) : bool :=
  bool_decide (env ∈ (obj_envelope <$> (map_to_list (mem_objects v)).*2)
    ++ (mut_envelope <$> mem_mutations v) ++ (map_to_list (mem_base_versions v)).*2
    ++ mjoin ((fun c => cr_local_envelope c :: cr_remote_envelope c
         :: option_list (cr_base_envelope c) ++ option_list (cr_candidate_envelope c))
         <$> (map_to_list (mem_conflicts v)).*2)).

(** Two queued edits of one object, at its revision. *)
Definition two_edits : Local MemoryStorage :=
  mkLocal (with_mutations (fun _ => [sample_mutation "m1" "a" 1 InFlight; sample_mutation "m2" "a" 1 Pending])
    sample_store) 0 0 0.

(** Guarded last-write-wins drops the further queued edits of the object: with
    two edits queued, resolving the conflict of the first removes the second
    from the queue, and its content is then nowhere in the store. *)
Lemma lww_drops_queued_edits :
  let edit := sample_mutation "m2" "a" 1 Pending in
  let r := Conflict.evaluate_guarded_lww (sample_mutation "m1" "a" 1 InFlight) sample_conflict None two_edits in
  is_ok r.1 = true /\ holds (l_view two_edits) (mut_envelope edit) = true
  /\ holds (l_view r.2) (mut_envelope edit) = false.
Proof. vm_compute. repeat split. Qed.
