(* ===== verification/Attachment.v ===== *)
(** * Attachment chunks ([zk-protocol/src/attachment.rs],
      [zk-crypto/src/attachment.rs])

    The binary wire format of a chunk, its encryption, and the wrapping of
    attachment keys.  [Base64::decode] into a fixed buffer is library code:
    the class [ChunkLib]. *)

From stdpp Require Import options.
From S2P Require Import Prelude Protocol StorageModels Storage CoreErrors Time Env Text Crypto Note.

Definition ATTACHMENT_CHUNK_VERSION_V1 : N := 1.
Definition CHUNK_BINARY_MAGIC : string := "ZKCK".

(** [Base64::decode(src, &mut [0u8; n])]: the decoded bytes, at most [n]. *)
Class ChunkLib : Type := { b64_decode_to : nat -> string -> Result string string }.

Class ChunkLaws `{CryptoLib} `{ChunkLib} : Prop := {
  b64_decode_to_roundtrip n s : String.length s <= n -> b64_decode_to n (b64_encode s) = Ok s
}.

Inductive ChunkFormatError : Type :=
| Truncated (expected actual : nat)
| InvalidMagic
| InvalidUtf8
| ChunkInvalidEncoding (msg : string).

Definition ChunkFormatError_display (e : ChunkFormatError) : string :=
  match e with
  | Truncated expected actual =>
      "truncated chunk buffer: expected at least " +:+ show_nat expected +:+ " bytes, got " +:+ show_nat actual
  | InvalidMagic => "invalid binary chunk magic bytes (expected 'ZKCK')"
  | InvalidUtf8 => "attachment ID in binary chunk is not valid UTF-8"
  | ChunkInvalidEncoding msg => "invalid chunk encoding: " +:+ msg
  end.

Record EncryptedChunk : Type := mkChunk {
  ck_version : N;
  ck_attachment_id : string;
  ck_chunk_index : N;
  ck_total_chunks : N;
  ck_nonce : string;
  ck_ciphertext : string
}.

#[export] Instance EncryptedChunk_eq_dec : EqDecision EncryptedChunk.
Proof. solve_decision. Defined.

(** [EncryptedChunk::new] *)
Definition EncryptedChunk_new (attachment_id : string) (chunk_index total_chunks : N) (nonce ciphertext : string)
    : EncryptedChunk :=
  mkChunk ATTACHMENT_CHUNK_VERSION_V1 attachment_id chunk_index total_chunks nonce ciphertext.

(** [&bytes[offset..offset + len]] *)
Definition slice (offset len : nat) (bytes : string) : string := str_take len (str_drop offset bytes).

Module Chunk.
Section ops.
Context `{CryptoLib} `{Env} `{ChunkLib}.
Abbreviation R A := (M nat CryptoError A).

(** ** The wire format *)

Definition wire (version : N) (id : string) (chunk_index total_chunks : N) (nonce ct : string) : string :=
  CHUNK_BINARY_MAGIC +:+ be_bytes 4 version
  +:+ be_bytes 2 (N.of_nat (String.length id) mod 65536) +:+ id
  +:+ be_bytes 4 chunk_index +:+ be_bytes 4 total_chunks +:+ nonce
  +:+ be_bytes 4 (N.of_nat (String.length ct) mod 4294967296) +:+ ct.

Definition to_bytes (c : EncryptedChunk) : Result string ChunkFormatError :=
  decoded_nonce ← result_map_err (fun e => ChunkInvalidEncoding ("invalid nonce base64: " +:+ e))
                    (b64_decode_to 24 (ck_nonce c));
  ct_bytes ← result_map_err (fun e => ChunkInvalidEncoding ("invalid ciphertext base64: " +:+ e))
               (b64_decode (ck_ciphertext c));
  Ok (wire (ck_version c) (ck_attachment_id c) (ck_chunk_index c) (ck_total_chunks c) decoded_nonce ct_bytes).

Definition from_bytes (bytes : string) : Result EncryptedChunk ChunkFormatError :=
  let len := String.length bytes in
  if (len <? 46)%nat then Err (Truncated 46 len)
  else if negb (bool_decide (slice 0 4 bytes = CHUNK_BINARY_MAGIC)) then Err InvalidMagic
  else
    let version := be_value (slice 4 4 bytes) in
    let id_len := N.to_nat (be_value (slice 8 2 bytes)) in
    let offset := 10 in
    if (len <? offset + id_len + 8 + 24 + 4)%nat then Err (Truncated (offset + id_len + 36) len)
    else
      let attachment_id := slice offset id_len bytes in
      if negb (utf8_valid attachment_id) then Err InvalidUtf8
      else
        let offset := offset + id_len in
        let chunk_index := be_value (slice offset 4 bytes) in
        let offset := offset + 4 in
        let total_chunks := be_value (slice offset 4 bytes) in
        let offset := offset + 4 in
        let nonce := b64_encode (slice offset 24 bytes) in
        let offset := offset + 24 in
        let ct_len := N.to_nat (be_value (slice offset 4 bytes)) in
        let offset := offset + 4 in
        if (len <? offset + ct_len)%nat then Err (Truncated (offset + ct_len) len)
        else Ok (mkChunk version attachment_id chunk_index total_chunks nonce
                   (b64_encode (slice offset ct_len bytes))).

(** ** Encryption *)

Definition build_chunk_aad (version : N) (attachment_id : string) (chunk_index total_chunks : N) : string :=
  "zk-attachment-chunk-aad:" +:+ be_bytes 4 version +:+ ":" +:+ attachment_id +:+ ":"
  +:+ be_bytes 4 chunk_index +:+ ":" +:+ be_bytes 4 total_chunks.

Definition encrypt_chunk (plaintext attachment_key attachment_id : string) (chunk_index total_chunks : N)
    : R EncryptedChunk :=
  nonce_bytes ← fill_random NONCE_LEN;
  let aad := build_chunk_aad ATTACHMENT_CHUNK_VERSION_V1 attachment_id chunk_index total_chunks in
  ciphertext ← lift_result (result_map_err AeadFailure (aead_encrypt attachment_key nonce_bytes aad plaintext));
  mret (mkChunk ATTACHMENT_CHUNK_VERSION_V1 attachment_id chunk_index total_chunks
          (b64_encode nonce_bytes) (b64_encode ciphertext)).

(** The nonce into a buffer, the ciphertext, then the AEAD: the body shared by
    [decrypt_chunk] and [unwrap_attachment_key]. *)
Definition open_with (nonce ciphertext key aad : string) : Result string CryptoError :=
  decoded_nonce ← result_map_err (fun e => InvalidEncoding ("invalid nonce base64: " +:+ e))
                    (b64_decode_to NONCE_LEN nonce);
  if negb (String.length decoded_nonce =? NONCE_LEN)%nat
  then Err (InvalidKeyLength NONCE_LEN (String.length decoded_nonce))
  else
    ciphertext_bytes ← result_map_err (fun e => InvalidEncoding ("invalid ciphertext base64: " +:+ e))
                         (b64_decode ciphertext);
    match aead_decrypt key decoded_nonce aad ciphertext_bytes with
    | Some plaintext => Ok plaintext
    | None => Err DecryptionFailed
    end.

Definition decrypt_chunk (chunk : EncryptedChunk) (attachment_key : string) : Result string CryptoError :=
  if negb (ck_version chunk =? ATTACHMENT_CHUNK_VERSION_V1)%N then Err (UnsupportedVersion (ck_version chunk))
  else open_with (ck_nonce chunk) (ck_ciphertext chunk) attachment_key
         (build_chunk_aad (ck_version chunk) (ck_attachment_id chunk) (ck_chunk_index chunk) (ck_total_chunks chunk)).

Definition encrypt_chunk_binary (plaintext attachment_key attachment_id : string) (chunk_index total_chunks : N)
    : R string :=
  chunk ← encrypt_chunk plaintext attachment_key attachment_id chunk_index total_chunks;
  lift_result (result_map_err (fun e => match e with
    | ChunkInvalidEncoding msg => InvalidEncoding msg
    | other => InvalidEncoding (ChunkFormatError_display other)
    end) (to_bytes chunk)).

Definition decrypt_chunk_binary (bytes attachment_key : string) : Result (N * N * string) CryptoError :=
  chunk ← result_map_err (fun e => match e with
    | Truncated expected actual => InvalidKeyLength expected actual
    | other => InvalidEncoding (ChunkFormatError_display other)
    end) (from_bytes bytes);
  plaintext ← decrypt_chunk chunk attachment_key;
  Ok (ck_chunk_index chunk, ck_total_chunks chunk, plaintext).

Definition wrap_attachment_key (attachment_key vault_key : string) (envelope_version : N) (attachment_id : string)
    : R EncryptedKeyContainer :=
  p ← seal vault_key attachment_key envelope_version attachment_id OBJECT_KIND_ATTACHMENT_MANIFEST;
  mret (mkKeyContainer p.1 p.2).

Definition unwrap_attachment_key (container : EncryptedKeyContainer) (vault_key : string) (envelope_version : N)
    (attachment_id : string) : Result string CryptoError :=
  key_bytes ← open_with (key_nonce container) (key_ciphertext container) vault_key
                (build_aad envelope_version attachment_id OBJECT_KIND_ATTACHMENT_MANIFEST);
  key_from_bytes key_bytes.
End ops.
End Chunk.

(** ** Chunks: wire format and encryption round trips *)

(** ** Slices *)

Lemma slice_skip off len a b :
  String.length a <= off -> slice off len (a +:+ b) = slice (off - String.length a) len b.
Proof.
  intros Hle. unfold slice. f_equal. revert off Hle. induction a as [|c a IH]; intros off Hle; cbn in *.
  - by rewrite Nat.sub_0_r.
  - destruct off as [|off]; [lia|]. rewrite str_app_cons. cbn. apply IH. lia.
Qed.

Lemma slice_here len a b : String.length a = len -> slice 0 len (a +:+ b) = a.
Proof. intros Hlen. unfold slice. change (str_drop 0 (a +:+ b)) with (a +:+ b). by apply str_take_app. Qed.

Lemma slice_mid a b c off len :
  String.length a = off -> String.length b = len -> slice off len (a +:+ b +:+ c) = b.
Proof. intros <- Hb. rewrite slice_skip, Nat.sub_diag by done. by apply slice_here. Qed.

Lemma slice_split off len b :
  off + len <= String.length b -> str_drop off b = slice off len b +:+ str_drop (off + len) b.
Proof.
  intros _. unfold slice. rewrite <- (str_take_drop len (str_drop off b)) at 1. f_equal.
  revert b. induction off as [|off IH]; intros b; [done|]. destruct b as [|c b]; [by destruct len|]. cbn. apply IH.
Qed.

Lemma length_slice off len b : off + len <= String.length b -> String.length (slice off len b) = len.
Proof. intros Hle. unfold slice. rewrite length_str_take, length_str_drop. lia. Qed.

Section wire.
Context `{CryptoLib} `{Env} `{ChunkLib} `{!CryptoLaws} `{!ChunkLaws}.

(** A chunk that fits the format: fields of their width, a short identifier,
    canonical base64. *)
Record chunk_fits (c : EncryptedChunk) : Prop := {
  cf_version : (ck_version c <= u32_max)%N;
  cf_index : (ck_chunk_index c <= u32_max)%N;
  cf_total : (ck_total_chunks c <= u32_max)%N;
  cf_id : (N.of_nat (String.length (ck_attachment_id c)) <= u16_max)%N;
  cf_utf8 : utf8_valid (ck_attachment_id c) = true;
  cf_nonce : exists nb, ck_nonce c = b64_encode nb /\ String.length nb = 24;
  cf_ct : exists cb, ck_ciphertext c = b64_encode cb /\ (N.of_nat (String.length cb) <= u32_max)%N
}.

Lemma be_value_4 n : (n <= u32_max)%N -> be_value (be_bytes 4 n) = n.
Proof using Type. unfold u32_max. intros Hn. apply be_value_bytes. change (256 ^ N.of_nat 4)%N with 4294967296%N. lia. Qed.

(** The bytes of a chunk, and where its fields are. *)
Definition wire_bytes (v : N) (id : string) (i t : N) (nb cb extra : string) : string :=
  CHUNK_BINARY_MAGIC +:+ be_bytes 4 v +:+ be_bytes 2 (N.of_nat (String.length id)) +:+ id +:+ be_bytes 4 i
  +:+ be_bytes 4 t +:+ nb +:+ be_bytes 4 (N.of_nat (String.length cb)) +:+ cb +:+ extra.

Lemma wire_slices v id i t nb cb extra :
  String.length nb = 24 ->
  let bytes := wire_bytes v id i t nb cb extra in let n := String.length id in
  String.length bytes = 46 + n + String.length cb + String.length extra
  /\ slice 0 4 bytes = CHUNK_BINARY_MAGIC /\ slice 4 4 bytes = be_bytes 4 v
  /\ slice 8 2 bytes = be_bytes 2 (N.of_nat n) /\ slice 10 n bytes = id
  /\ slice (10 + n) 4 bytes = be_bytes 4 i /\ slice (10 + n + 4) 4 bytes = be_bytes 4 t
  /\ slice (10 + n + 4 + 4) 24 bytes = nb
  /\ slice (10 + n + 4 + 4 + 24) 4 bytes = be_bytes 4 (N.of_nat (String.length cb))
  /\ slice (10 + n + 4 + 4 + 24 + 4) (String.length cb) bytes = cb.
Proof using Type.
  intros Hnb bytes n.
  assert (String.length bytes = 46 + n + String.length cb + String.length extra) as Hlen.
  { unfold bytes, wire_bytes, n. rewrite !str_length_app, !length_be_bytes, Hnb. cbn. lia. }
  set (h := CHUNK_BINARY_MAGIC +:+ be_bytes 4 v +:+ be_bytes 2 (N.of_nat (String.length id)) +:+ id).
  assert (String.length h = 10 + String.length id) as Hh by (unfold h; rewrite !str_length_app, !length_be_bytes; cbn; lia).
  assert (slice 0 4 bytes = CHUNK_BINARY_MAGIC) as S1 by (unfold bytes, wire_bytes; by apply slice_here).
  assert (slice 4 4 bytes = be_bytes 4 v) as S2 by (unfold bytes, wire_bytes; apply (slice_mid CHUNK_BINARY_MAGIC); [done|by rewrite length_be_bytes]).
  assert (slice 8 2 bytes = be_bytes 2 (N.of_nat (String.length id))) as S3.
  { unfold bytes, wire_bytes, n. rewrite <- (str_app_assoc CHUNK_BINARY_MAGIC).
    by apply slice_mid; rewrite ?str_length_app, ?length_be_bytes. }
  assert (slice 10 (String.length id) bytes = id) as S4.
  { unfold bytes, wire_bytes, n. rewrite <- (str_app_assoc (be_bytes 4 v)), <- (str_app_assoc CHUNK_BINARY_MAGIC).
    by apply slice_mid; rewrite ?str_length_app, ?length_be_bytes. }
  assert (bytes = h +:+ be_bytes 4 i +:+ be_bytes 4 t +:+ nb +:+ be_bytes 4 (N.of_nat (String.length cb)) +:+ cb +:+ extra) as Hb
    by (unfold bytes, wire_bytes, h; by rewrite !str_app_assoc).
  assert (slice (10 + String.length id) 4 bytes = be_bytes 4 i) as S5
    by (rewrite Hb; apply slice_mid; [done|by rewrite length_be_bytes]).
  assert (slice (10 + String.length id + 4) 4 bytes = be_bytes 4 t) as S6.
  { rewrite Hb, <- (str_app_assoc h). apply slice_mid; rewrite ?str_length_app, ?length_be_bytes; lia. }
  assert (slice (10 + String.length id + 4 + 4) 24 bytes = nb) as S7.
  { rewrite Hb, <- (str_app_assoc (be_bytes 4 i)), <- (str_app_assoc h).
    apply slice_mid; rewrite ?str_length_app, ?length_be_bytes; lia. }
  assert (slice (10 + String.length id + 4 + 4 + 24) 4 bytes = be_bytes 4 (N.of_nat (String.length cb))) as S8.
  { rewrite Hb, <- (str_app_assoc (be_bytes 4 t)), <- (str_app_assoc (be_bytes 4 i)), <- (str_app_assoc h).
    apply slice_mid; rewrite ?str_length_app, ?length_be_bytes; lia. }
  assert (slice (10 + String.length id + 4 + 4 + 24 + 4) (String.length cb) bytes = cb) as S9.
  { rewrite Hb, <- (str_app_assoc nb), <- (str_app_assoc (be_bytes 4 t)), <- (str_app_assoc (be_bytes 4 i)), <- (str_app_assoc h).
    apply slice_mid; rewrite ?str_length_app, ?length_be_bytes; lia. }
  by split_and!.
Qed.

Lemma from_wire v id i t nb cb extra :
  (v <= u32_max)%N -> (i <= u32_max)%N -> (t <= u32_max)%N ->
  (N.of_nat (String.length id) <= u16_max)%N -> utf8_valid id = true ->
  String.length nb = 24 -> (N.of_nat (String.length cb) <= u32_max)%N ->
  Chunk.from_bytes (Chunk.wire v id i t nb cb +:+ extra)
  = Ok (mkChunk v id i t (b64_encode nb) (b64_encode cb)).
Proof using Type.
  intros Hv Hi Ht Hid Hutf Hnb Hcb. unfold u16_max in *.
  assert (Chunk.wire v id i t nb cb +:+ extra = wire_bytes v id i t nb cb extra) as ->.
  { unfold Chunk.wire, wire_bytes. rewrite !N.mod_small by (unfold u32_max in *; lia). by rewrite !str_app_assoc. }
  destruct (wire_slices v id i t nb cb extra Hnb) as (Hlen & S1 & S2 & S3 & S4 & S5 & S6 & S7 & S8 & S9).
  set (bytes := wire_bytes v id i t nb cb extra) in *.
  clearbody bytes. unfold Chunk.from_bytes. cbv zeta. rewrite Hlen, S1, S2, S3.
  rewrite be_value_bytes by (change (256 ^ N.of_nat 2)%N with 65536%N; lia). rewrite Nat2N.id, S4, S5, S6, S7, S8.
  rewrite !be_value_4, Nat2N.id, S9 by done. rewrite Hutf, bool_decide_eq_true_2 by done. cbn [negb].
  by rewrite !(proj2 (Nat.ltb_ge _ _)) by lia.
Qed.
(** What [from_bytes] accepted starts with the bytes of its result. *)
Lemma from_bytes_inv bytes c :
  Chunk.from_bytes bytes = Ok c ->
  exists nb cb extra, c = mkChunk (be_value (slice 4 4 bytes)) (ck_attachment_id c) (ck_chunk_index c)
      (ck_total_chunks c) (b64_encode nb) (b64_encode cb)
    /\ String.length nb = 24 /\ (N.of_nat (String.length cb) <= u32_max)%N
    /\ (ck_version c <= u32_max)%N /\ (ck_chunk_index c <= u32_max)%N /\ (ck_total_chunks c <= u32_max)%N
    /\ (N.of_nat (String.length (ck_attachment_id c)) <= u16_max)%N /\ utf8_valid (ck_attachment_id c) = true
    /\ bytes = wire_bytes (ck_version c) (ck_attachment_id c) (ck_chunk_index c) (ck_total_chunks c) nb cb extra.
Proof using Type.
  unfold Chunk.from_bytes. cbv zeta. set (id_len := N.to_nat (be_value (slice 8 2 bytes))).
  destruct (Nat.ltb_spec (String.length bytes) 46) as [|H1']; [done|].
  destruct (bool_decide_reflect (slice 0 4 bytes = CHUNK_BINARY_MAGIC)) as [Hmag|]; [|done]. cbn [negb].
  destruct (Nat.ltb_spec (String.length bytes) (10 + id_len + 8 + 24 + 4)) as [|H2']; [done|].
  destruct (utf8_valid (slice 10 id_len bytes)) eqn:Hutf; [|done]. cbn [negb].
  set (ct_len := N.to_nat (be_value (slice (10 + id_len + 4 + 4 + 24) 4 bytes))).
  destruct (Nat.ltb_spec (String.length bytes) (10 + id_len + 4 + 4 + 24 + 4 + ct_len)) as [|H3']; [done|].
  intros [= <-]. cbn [ck_version ck_attachment_id ck_chunk_index ck_total_chunks].
  assert (forall off, (off + 4 <= String.length bytes)%nat -> (be_value (slice off 4 bytes) <= u32_max)%N) as H4'.
  { intros off Hle. pose proof (be_value_lt (slice off 4 bytes)) as Hlt. rewrite length_slice in Hlt by done.
    change (256 ^ N.of_nat 4)%N with 4294967296%N in Hlt. unfold u32_max. lia. }
  assert (String.length (slice 10 id_len bytes) = id_len) as Hid by (apply length_slice; lia).
  pose proof (be_value_lt (slice 8 2 bytes)) as H2b. rewrite length_slice in H2b by lia.
  change (256 ^ N.of_nat 2)%N with 65536%N in H2b.
  eexists (slice (10 + id_len + 4 + 4) 24 bytes), (slice (10 + id_len + 4 + 4 + 24 + 4) ct_len bytes),
    (str_drop (10 + id_len + 4 + 4 + 24 + 4 + ct_len) bytes).
  assert (String.length (slice (10 + id_len + 4 + 4 + 24 + 4) ct_len bytes) = ct_len) as Hct by (by apply length_slice).
  split_and!; [done|apply length_slice; lia| |apply H4'; lia..| |done|].
  - rewrite Hct. unfold ct_len. rewrite N2Nat.id. apply H4'. lia.
  - rewrite Hid. unfold id_len, u16_max. rewrite N2Nat.id. lia.
  - unfold wire_bytes. rewrite Hid, Hct. unfold ct_len at 1. unfold id_len at 1. rewrite !N2Nat.id.
    assert (forall off len, off + len <= String.length bytes ->
      be_bytes len (be_value (slice off len bytes)) = slice off len bytes) as Hbe.
    { intros off len Hle. rewrite <- (length_slice off len bytes Hle) at 1. apply be_bytes_value. }
    rewrite !Hbe, <- Hmag by lia.
    transitivity (str_drop 0 bytes); [done|].
    rewrite (slice_split 0 4) by lia. f_equal. rewrite (slice_split (0 + 4) 4) by lia. f_equal.
    rewrite (slice_split (0 + 4 + 4) 2) by lia. f_equal. rewrite (slice_split (0 + 4 + 4 + 2) id_len) by lia. f_equal.
    change (0 + 4 + 4 + 2) with 10. rewrite (slice_split (10 + id_len) 4) by lia. f_equal.
    rewrite (slice_split (10 + id_len + 4) 4) by lia. f_equal. rewrite (slice_split (10 + id_len + 4 + 4) 24) by lia. f_equal.
    rewrite (slice_split (10 + id_len + 4 + 4 + 24) 4) by lia. f_equal. by rewrite (slice_split _ ct_len) by lia.
Qed.
Lemma to_bytes_wire c : chunk_fits c ->
  exists nb cb, ck_nonce c = b64_encode nb /\ ck_ciphertext c = b64_encode cb /\ String.length nb = 24
    /\ (N.of_nat (String.length cb) <= u32_max)%N
    /\ Chunk.to_bytes c = Ok (Chunk.wire (ck_version c) (ck_attachment_id c) (ck_chunk_index c) (ck_total_chunks c) nb cb).
Proof using Type*.
  intros [_ _ _ _ _ (nb & Hn & Hnb) (cb & Hc & Hcb)]. exists nb, cb. split_and!; [done..|].
  unfold Chunk.to_bytes. rewrite Hn, Hc, b64_decode_to_roundtrip, b64_roundtrip by lia. done.
Qed.

Lemma wire_extra v id i t nb cb extra :
  (N.of_nat (String.length id) <= u16_max)%N -> (N.of_nat (String.length cb) <= u32_max)%N ->
  wire_bytes v id i t nb cb extra = Chunk.wire v id i t nb cb +:+ extra.
Proof using Type.
  unfold wire_bytes, Chunk.wire, u16_max, u32_max. intros Hid Hcb. rewrite !N.mod_small by lia. by rewrite !str_app_assoc.
Qed.

(** The binary chunk format round-trips.  A chunk that fits the format is
    printed, and parsing the bytes, whatever follows them, gives it back.
    Conversely, what the parser accepts fits the format, and the input begins
    with exactly the printed form of the result. *)
Lemma chunk_wire_roundtrip c :
  (chunk_fits c -> exists b, Chunk.to_bytes c = Ok b /\ forall extra, Chunk.from_bytes (b +:+ extra) = Ok c)
  /\ forall bytes, Chunk.from_bytes bytes = Ok c ->
       chunk_fits c /\ exists b extra, Chunk.to_bytes c = Ok b /\ bytes = b +:+ extra.
Proof using Type*.
  split.
  - intros Hfit. destruct (to_bytes_wire c Hfit) as (nb & cb & Hn & Hc & Hnb & Hcb & Hto).
    eexists. split; [exact Hto|]. intros extra. destruct Hfit as [Hv Hi Ht Hid Hutf _ _].
    rewrite from_wire by done. destruct c. cbn in *. by rewrite Hn, Hc.
  - intros bytes Hfrom. apply from_bytes_inv in Hfrom as (nb & cb & extra & Hc & Hnb & Hcb & Hv & Hi & Ht & Hid & Hutf & Hb).
    assert (ck_nonce c = b64_encode nb) as Hn by (by rewrite Hc).
    assert (ck_ciphertext c = b64_encode cb) as Hct by (by rewrite Hc).
    assert (chunk_fits c) as Hfit by (split; eauto).
    split; [done|]. unfold Chunk.to_bytes. rewrite Hn, Hct, b64_decode_to_roundtrip, b64_roundtrip by lia. cbn. eexists _, extra. split; [done|].
    by rewrite Hb, wire_extra.
Qed.

(** ** Encryption *)

Lemma encrypt_chunk_run pt key id i t j :
  String.length key = KEY_LEN -> (N.of_nat (String.length pt) <= AEAD_MAX_LEN)%N ->
  exists c, Chunk.encrypt_chunk pt key id i t j = (Ok c, S j) /\ Chunk.decrypt_chunk c key = Ok pt
    /\ ck_version c = ATTACHMENT_CHUNK_VERSION_V1 /\ ck_attachment_id c = id /\ ck_chunk_index c = i
    /\ ck_total_chunks c = t
    /\ exists cb, ck_nonce c = b64_encode (random_bytes j NONCE_LEN) /\ ck_ciphertext c = b64_encode cb
         /\ String.length cb = String.length pt + TAG_LEN.
Proof using Type*.
  intros Hk Hpt. set (aad := Chunk.build_chunk_aad ATTACHMENT_CHUNK_VERSION_V1 id i t).
  destruct (aead_total key (random_bytes j NONCE_LEN) aad pt) as [ct Hct]; [done|apply random_bytes_length|done|].
  unfold Chunk.encrypt_chunk. rewrite (run_bind_ok _ _ _ _ _ (eq_refl : fill_random _ _ = (Ok _, S j))).
  fold aad. cbv zeta. unfold lift_result. rewrite Hct. eexists. split; [done|].
  unfold Chunk.decrypt_chunk, Chunk.open_with. cbn [ck_version ck_nonce ck_ciphertext ck_attachment_id ck_chunk_index ck_total_chunks].
  rewrite b64_decode_to_roundtrip, b64_roundtrip by (by rewrite random_bytes_length). fold aad. cbn.
  rewrite random_bytes_length. cbn. rewrite (aead_roundtrip _ _ _ _ _ Hct).
  split_and!; [done..|]. exists ct. split_and!; [done|done|by eapply aead_length].
Qed.

(** A chunk sent in binary form comes back: encrypting and printing succeeds, and
    parsing and decrypting the bytes gives its position, the number of chunks
    and the plaintext. *)
Lemma chunk_binary_roundtrip pt key id i t j :
  String.length key = KEY_LEN -> (N.of_nat (String.length pt) + 16 <= u32_max)%N ->
  (N.of_nat (String.length id) <= u16_max)%N -> utf8_valid id = true -> (i <= u32_max)%N -> (t <= u32_max)%N ->
  exists b, Chunk.encrypt_chunk_binary pt key id i t j = (Ok b, S j)
    /\ Chunk.decrypt_chunk_binary b key = Ok (i, t, pt).
Proof using Type*.
  intros Hk Hpt Hid Hutf Hi Ht.
  destruct (encrypt_chunk_run pt key id i t j) as (c & Hrun & Hdec & Hv & <- & <- & <- & cb & Hn & Hc & Hcb);
    [done|unfold u32_max, AEAD_MAX_LEN in *; lia|].
  assert (chunk_fits c) as Hfit.
  { split; [by rewrite Hv|done..| |]; [exists (random_bytes j NONCE_LEN)|exists cb]; split; [done| |done|].
    - apply random_bytes_length.
    - unfold TAG_LEN in Hcb. lia. }
  destruct (to_bytes_wire c Hfit) as (nb & cb' & Hn' & Hc' & Hnb & Hcb' & Hto).
  unfold Chunk.encrypt_chunk_binary. rewrite (run_bind_ok _ _ _ _ _ Hrun), Hto. eexists. split; [done|].
  unfold Chunk.decrypt_chunk_binary. rewrite <- (str_app_nil_r (Chunk.wire _ _ _ _ _ _)).
  rewrite from_wire by (rewrite ?Hv; done). cbn [result_map_err].
  replace (mkChunk _ _ _ _ _ _) with c by (destruct c; cbn in *; by rewrite Hn', Hc').
  cbn. by rewrite Hdec.
Qed.

(** The associated data of a chunk determines its version, attachment, position
    and the number of chunks, although the identifier is not framed: no chunk
    authenticates in another place. *)
Lemma chunk_aad_binding v1 id1 i1 t1 v2 id2 i2 t2 :
  (v1 <= u32_max)%N -> (v2 <= u32_max)%N -> (i1 <= u32_max)%N -> (i2 <= u32_max)%N ->
  (t1 <= u32_max)%N -> (t2 <= u32_max)%N ->
  Chunk.build_chunk_aad v1 id1 i1 t1 = Chunk.build_chunk_aad v2 id2 i2 t2 ->
  v1 = v2 /\ id1 = id2 /\ i1 = i2 /\ t1 = t2.
Proof using Type.
  intros Hv1 Hv2 Hi1 Hi2 Ht1 Ht2 Heq. unfold Chunk.build_chunk_aad in Heq.
  apply str_app_inj_len in Heq as [_ Heq]; [|done].
  apply str_app_inj_len in Heq as [Hv Heq]; [|by rewrite !length_be_bytes].
  apply str_app_inj_len in Heq as [_ Heq]; [|done].
  assert (String.length id1 = String.length id2) as Hlen.
  { apply (f_equal String.length) in Heq. rewrite !str_length_app, !length_be_bytes in Heq. lia. }
  apply str_app_inj_len in Heq as [-> Heq]; [|done].
  apply str_app_inj_len in Heq as [_ Heq]; [|done].
  apply str_app_inj_len in Heq as [Hi Heq]; [|by rewrite !length_be_bytes].
  apply str_app_inj_len in Heq as [_ Ht]; [|done].
  apply (f_equal be_value) in Hv, Hi, Ht. rewrite !be_value_4 in Hv, Hi, Ht by done. done.
Qed.
End wire.
