(* ===== verification/AttachmentStream.v ===== *)
(** * Attachment streams ([zk-core/src/attachment.rs],
      [object_validation.rs])

    Chunked encryption from a reader into a sink and decryption from chunks
    into a writer.  A reader is what its next reads return, which may be short
    or fail; the sink and the writer are state machines of their own.  A
    division by a chunk size of zero panics: [None]. *)

From stdpp Require Import options.
From S2P Require Import Prelude Protocol StorageModels Storage CoreErrors Time Env Text Diff3 Crypto Note Vault.
From S2P Require Import Attachment.

Definition MAX_ATTACHMENT_SIZE : N := 104857600.
Definition DEFAULT_CHUNK_SIZE : nat := N.to_nat 4194304.

(** [AttachmentManifest] of zk-protocol. *)
Record Manifest : Type := mkManifest {
  mf_attachment_id : string;
  mf_name : string;
  mf_mime : string;
  mf_size : N;
  mf_chunk_count : N;
  mf_chunk_size : N;
  mf_content_hash : option string
}.

Record AttachmentEncryptParams : Type := mkEncryptParams {
  ap_attachment_id : string;
  ap_name : string;
  ap_mime : string;
  ap_chunk_size : nat
}.

(** [AttachmentEncryptParams::new] and [with_chunk_size] *)
Definition EncryptParams_new (attachment_id name mime : string) : AttachmentEncryptParams :=
  mkEncryptParams attachment_id name mime DEFAULT_CHUNK_SIZE.
Definition with_chunk_size (chunk_size : nat) (p : AttachmentEncryptParams) : AttachmentEncryptParams :=
  mkEncryptParams (ap_attachment_id p) (ap_name p) (ap_mime p) chunk_size.

(** [serde_json] on manifests; errors carry their text. *)
Class ManifestLib : Type := {
  manifest_to_json : Manifest -> Result string string;
  manifest_from_json : string -> Result Manifest string
}.

(** What the reads return: data, at most the size of the buffer at once, or an
    error; nothing is the end of the file. *)
Inductive read_event : Type := ReadData (data : string) | ReadError (msg : string).
Definition Reader : Type := list read_event.

Definition read (n : nat) (r : Reader) : Result string string * Reader :=
  match r with
  | [] => (Ok "", [])
  | ReadError msg :: r' => (Err msg, r')
  | ReadData data :: r' =>
      if (String.length data <=? n)%nat then (Ok data, r')
      else (Ok (str_take n data), ReadData (str_drop n data) :: r')
  end.

(** [impl Write] *)
Class ByteWriter (W : Type) : Type := {
  write_all : string -> M W string unit;
  flush : M W string unit
}.

(** [Vec<u8>] *)
#[export] Instance vec_writer : ByteWriter string := {
  write_all data := fun w => (Ok tt, w +:+ data);
  flush := mret tt
}.

Record EncState (K : Type) : Type := mkEncState {
  es_rng : nat;
  es_reader : Reader;
  es_sink : K
}.
Arguments mkEncState {K}.
Arguments es_rng {K}.
Arguments es_reader {K}.
Arguments es_sink {K}.

Module Stream.
Section ops.
Context `{CryptoLib} `{Env} `{NoteLib} `{KdfLib} `{ChunkLib} `{ManifestLib}.

Definition calculate_chunk_count (size : N) (chunk_size : nat) : option N :=
  if (size =? 0)%N then Some 1%N
  else if (chunk_size =? 0)%nat then None
  else Some (((size + N.of_nat chunk_size - 1) / N.of_nat chunk_size) mod 4294967296)%N.

Definition compute_content_hash (bytes : string) : string := hex false (blake2b512 bytes).

(** ** Encryption *)

Section sink.
Context {K : Type} (on_chunk : EncryptedChunk -> M K CoreError unit).
Abbreviation E A := (M (EncState K) CoreError A).

Definition with_rng {A} (m : M nat CryptoError A) : E A :=
  map_err CE_Crypto (zoom es_rng (fun i s => mkEncState i (es_reader s) (es_sink s)) m).
Definition from_reader (n : nat) : E string :=
  map_err (fun e => CE_Attachment (Io e))
    (zoom es_reader (fun r s => mkEncState (es_rng s) r (es_sink s)) (read n)).
Definition to_sink (c : EncryptedChunk) : E unit :=
  zoom es_sink (fun k s => mkEncState (es_rng s) (es_reader s) k) (on_chunk c).

(** The inner loop: read until the buffer is full or nothing comes.  Every turn
    reads at least a byte, so [want] bounds the turns. *)
Fixpoint fill (fuel want : nat) (got : string) : E string :=
  match fuel, want with
  | S fuel', S _ =>
      data ← from_reader want;
      if (String.length data =? 0)%nat then mret got
      else fill fuel' (want - String.length data) (got +:+ data)
  | _, _ => mret got
  end.

(** The outer loop, [left] chunks to go; [hashed] is what the hasher was fed.
    Returns what was read. *)
Fixpoint encrypt_loop (left : nat) (params : AttachmentEncryptParams) (key : string) (chunk_count : N)
    (chunk_index : N) (hashed : string) : E string :=
  match left with
  | O => mret hashed
  | S left' =>
      chunk_slice ← fill (ap_chunk_size params) (ap_chunk_size params) "";
      if (String.length chunk_slice =? 0)%nat && (0 <? chunk_index)%N then mret hashed
      else
        let hashed := hashed +:+ chunk_slice in
        let bytes_read_total := N.of_nat (String.length hashed) in
        if (MAX_ATTACHMENT_SIZE <? bytes_read_total)%N
        then throw (CE_Attachment (FileTooLarge MAX_ATTACHMENT_SIZE bytes_read_total))
        else
          encrypted ← with_rng (Chunk.encrypt_chunk chunk_slice key (ap_attachment_id params) chunk_index chunk_count);
          _ ← to_sink encrypted;
          encrypt_loop left' params key chunk_count (chunk_index + 1)%N hashed
  end.

Definition manifest_of (params : AttachmentEncryptParams) (size chunk_count : N) (content : string) : Manifest :=
  mkManifest (ap_attachment_id params) (ap_name params) (ap_mime params) size chunk_count
    (N.of_nat (ap_chunk_size params) mod 4294967296)%N (Some (compute_content_hash content)).

Definition encrypt_attachment_stream_with_sink (total_size : N) (params : AttachmentEncryptParams) (key : string)
    : E (option Manifest) :=
  if (MAX_ATTACHMENT_SIZE <? total_size)%N
  then throw (CE_Attachment (FileTooLarge MAX_ATTACHMENT_SIZE total_size))
  else match calculate_chunk_count total_size (ap_chunk_size params) with
  | None => mret None
  | Some chunk_count =>
      if (total_size =? 0)%N then
        encrypted ← with_rng (Chunk.encrypt_chunk "" key (ap_attachment_id params) 0 1);
        _ ← to_sink encrypted;
        mret (Some (manifest_of params 0 1 ""))
      else
        hashed ← encrypt_loop (N.to_nat chunk_count) params key chunk_count 0 "";
        let bytes_read_total := N.of_nat (String.length hashed) in
        if negb (bytes_read_total =? total_size)%N
        then throw (CE_Attachment (SizeMismatch total_size bytes_read_total))
        else mret (Some (manifest_of params total_size chunk_count hashed))
  end.
End sink.

(** The sink of [encrypt_attachment_stream]: a vector. *)
Definition push_chunk (c : EncryptedChunk) : M (list EncryptedChunk) CoreError unit :=
  fun chunks => (Ok tt, chunks ++ [c]).

Definition encrypt_attachment_stream (reader : Reader) (total_size : N) (params : AttachmentEncryptParams)
    (key : string) : M nat CoreError (option (Manifest * list EncryptedChunk)) :=
  fun rng =>
    let '(r, s) := encrypt_attachment_stream_with_sink push_chunk total_size params key (mkEncState rng reader []) in
    (match r with
     | Ok (Some manifest) => Ok (Some (manifest, es_sink s))
     | Ok None => Ok None
     | Err e => Err e
     end, es_rng s).

(** ** Decryption *)

Section writer.
Context {W : Type} `{ByteWriter W}.
Abbreviation D A := (M W CoreError A).

Definition refuse_att (b : bool) (e : AttachmentError) : D unit :=
  if b then throw (CE_Attachment e) else mret tt.

(** The checks of one chunk before it is decrypted. *)
Definition check_chunk (manifest : option Manifest) (expected_chunk_index : N) (expected_total_chunks : option N)
    (chunk : EncryptedChunk) : D unit :=
  _ ← refuse_att (negb (ck_chunk_index chunk =? expected_chunk_index)%N)
        (ChunkOutOfOrder expected_chunk_index (ck_chunk_index chunk));
  _ ← match expected_total_chunks with
      | None => mret tt
      | Some expected => refuse_att (negb (ck_total_chunks chunk =? expected)%N)
                           (ChunkCountMismatch expected (ck_total_chunks chunk))
      end;
  match manifest with
  | None => mret tt
  | Some m =>
      _ ← refuse_att (negb (bool_decide (ck_attachment_id chunk = mf_attachment_id m)))
            (AttachmentIdMismatch (mf_attachment_id m) (ck_attachment_id chunk));
      refuse_att (negb (ck_total_chunks chunk =? mf_chunk_count m)%N)
        (ChunkCountMismatch (mf_chunk_count m) (ck_total_chunks chunk))
  end.

(** The loop over the chunks: the counters, and what the hasher was fed. *)
Fixpoint decrypt_loop (chunks : list EncryptedChunk) (key : string) (manifest : option Manifest)
    (expected_chunk_index : N) (expected_total_chunks : option N) (hashed : string) : D (N * option N * string) :=
  match chunks with
  | [] => mret (expected_chunk_index, expected_total_chunks, hashed)
  | chunk :: rest =>
      _ ← check_chunk manifest expected_chunk_index expected_total_chunks chunk;
      let expected_total_chunks :=
        match expected_total_chunks with None => Some (ck_total_chunks chunk) | t => t end in
      plaintext ← lift_result (result_map_err CE_Crypto (Chunk.decrypt_chunk chunk key));
      _ ← map_err (fun e => CE_Attachment (Io e)) (write_all plaintext);
      decrypt_loop rest key manifest (expected_chunk_index + 1)%N expected_total_chunks (hashed +:+ plaintext)
  end.

Definition verify_manifest (manifest : option Manifest) (hashed : string) : D unit :=
  match manifest with
  | None => mret tt
  | Some m =>
      let total_bytes_written := N.of_nat (String.length hashed) in
      _ ← refuse_att (negb (total_bytes_written =? mf_size m)%N) (SizeMismatch (mf_size m) total_bytes_written);
      match mf_content_hash m with
      | None => mret tt
      | Some expected_hash =>
          let computed_hash := compute_content_hash hashed in
          refuse_att (negb (bool_decide (computed_hash = expected_hash))) (HashMismatch expected_hash computed_hash)
      end
  end.

Definition decrypt_attachment_stream_with_source (chunks : list EncryptedChunk) (key : string)
    (manifest : option Manifest) : D N :=
  looped ← decrypt_loop chunks key manifest 0 None "";
  let '(expected_chunk_index, expected_total_chunks, hashed) := looped in
  _ ← match expected_total_chunks with
      | Some total => refuse_att (negb (expected_chunk_index =? total)%N) (ChunkCountMismatch total expected_chunk_index)
      | None => throw (CE_Attachment (ChunkCountMismatch 1 0))
      end;
  _ ← verify_manifest manifest hashed;
  _ ← map_err (fun e => CE_Attachment (Io e)) flush;
  mret (N.of_nat (String.length hashed)).
End writer.

(** ** Manifests *)

Abbreviation C A := (M nat CoreError A).
Abbreviation crypto m := (map_err CE_Crypto m).

Definition encrypt_attachment_manifest (manifest : Manifest) (attachment_key vault_key : string)
    : C EncryptedEnvelope :=
  manifest_json ← lift_result (result_map_err (fun e => CE_Validation (SerializationError e)) (manifest_to_json manifest));
  payload_container ← crypto (encrypt_object_payload manifest_json attachment_key ENVELOPE_VERSION_V1
    (mf_attachment_id manifest) OBJECT_KIND_ATTACHMENT_MANIFEST);
  wrapped_key ← crypto (Chunk.wrap_attachment_key attachment_key vault_key ENVELOPE_VERSION_V1 (mf_attachment_id manifest));
  mret (mkEnvelope ENVELOPE_VERSION_V1 (mf_attachment_id manifest) OBJECT_KIND_ATTACHMENT_MANIFEST
          wrapped_key payload_container).

Definition decrypt_attachment_manifest (envelope : EncryptedEnvelope) (vault_key : string)
    : Result (Manifest * string) CoreError :=
  if negb (envelope_version envelope =? ENVELOPE_VERSION_V1)%N
  then Err (CE_Crypto (UnsupportedVersion (envelope_version envelope)))
  else if negb (env_object_kind envelope =? OBJECT_KIND_ATTACHMENT_MANIFEST)%N
  then Err (CE_Validation (SerializationError ("expected object kind ATTACHMENT_MANIFEST ("
         +:+ show_N OBJECT_KIND_ATTACHMENT_MANIFEST +:+ "), got " +:+ show_N (env_object_kind envelope))))
  else
    attachment_key ← result_map_err CE_Crypto (Chunk.unwrap_attachment_key (wrapped_key envelope) vault_key
                       (envelope_version envelope) (env_object_id envelope));
    plaintext_bytes ← result_map_err CE_Crypto (decrypt_object_payload (payload envelope) attachment_key
                        (envelope_version envelope) (env_object_id envelope) (env_object_kind envelope));
    manifest ← result_map_err (fun e => CE_Validation (SerializationError e)) (manifest_from_json plaintext_bytes);
    if negb (bool_decide (mf_attachment_id manifest = env_object_id envelope))
    then Err (CE_Attachment (AttachmentIdMismatch (env_object_id envelope) (mf_attachment_id manifest)))
    else Ok (manifest, attachment_key).

(** ** Attachments of notes *)

Definition set_attachments (attachments : list string) (now : string) (n : PlaintextNote) : PlaintextNote :=
  mkNote (n_schema_version n) (n_title n) (n_body n) (n_tags n) (n_created_at n) now attachments.

Definition add_attachment_to_note (now : string) (note : PlaintextNote) (attachment_id : string)
    : Result PlaintextNote CoreError :=
  if bool_decide (attachment_id ∈ n_attachments note) then Ok note
  else if (MAX_ATTACHMENTS_COUNT <=? N.of_nat (length (n_attachments note)))%N
  then Err (CE_Validation (TooManyAttachments MAX_ATTACHMENTS_COUNT (N.of_nat (length (n_attachments note)) + 1)))
  else if bool_decide (attachment_id = "") || (MAX_ATTACHMENT_ID_LEN <? str_len attachment_id)%N
  then Err (CE_Validation (InvalidAttachmentId attachment_id))
  else Ok (set_attachments (n_attachments note ++ [attachment_id]) now note).

Definition remove_attachment_from_note (now : string) (note : PlaintextNote) (attachment_id : string)
    : PlaintextNote * bool :=
  let kept := List.filter (fun id => negb (bool_decide (id = attachment_id))) (n_attachments note) in
  if negb (length kept =? length (n_attachments note))%nat then (set_attachments kept now note, true)
  else (note, false).

Definition find_orphaned_attachments (notes : list PlaintextNote) (stored_attachment_ids : list string)
    : list string :=
  let referenced : gset string := list_to_set (mjoin (n_attachments <$> notes)) in
  List.filter (fun id => negb (bool_decide (id ∈ referenced))) stored_attachment_ids.

(** ** object_validation.rs *)

Inductive ObjectValidationError : Type := UnsupportedKind (kind : N) | InvalidEnvelope.

Definition validate_active_object (envelope : EncryptedEnvelope) (key : string)
    : Result unit ObjectValidationError :=
  if (env_object_kind envelope =? OBJECT_KIND_NOTE)%N then
    match decrypt envelope key with Ok _ => Ok tt | Err _ => Err InvalidEnvelope end
  else if (env_object_kind envelope =? OBJECT_KIND_ATTACHMENT_MANIFEST)%N then
    match decrypt_attachment_manifest envelope key with Ok _ => Ok tt | Err _ => Err InvalidEnvelope end
  else Err (UnsupportedKind (env_object_kind envelope)).
End ops.
End Stream.

(** ** Attachments come back whole *)

(** The reads return [data], in any portions, and then the end of the file. *)
Inductive delivers : Reader -> string -> Prop :=
| de_end : delivers [] ""
| de_data d r rest : d <> "" -> delivers r rest -> delivers (ReadData d :: r) (d +:+ rest).

Section stream.
Context `{CryptoLib} `{Env} `{NoteLib} `{KdfLib} `{ChunkLib} `{ManifestLib} `{!CryptoLaws} `{!ChunkLaws}.

Lemma read_delivers n r data :
  (0 < n)%nat -> delivers r data ->
  exists got r' rest, read n r = (Ok got, r') /\ delivers r' rest /\ data = got +:+ rest
    /\ (String.length got <= n)%nat /\ (data <> "" -> got <> "").
Proof using Type.
  intros Hn Hd. destruct Hd as [|d r rest Hne Hd]; cbn [read].
  { exists "", [], "". split_and!; [done|constructor|done|cbn; lia|done]. }
  destruct (Nat.leb_spec (String.length d) n) as [Hle|Hgt].
  - exists d, r, rest. split_and!; auto.
  - exists (str_take n d), (ReadData (str_drop n d) :: r), (str_drop n d +:+ rest). split_and!.
    + done.
    + constructor; [|done]. intros Heq. apply (f_equal String.length) in Heq. rewrite length_str_drop in Heq. cbn in Heq. lia.
    + by rewrite <- str_app_assoc, str_take_drop.
    + rewrite length_str_take. lia.
    + intros _ Heq. apply (f_equal String.length) in Heq. rewrite length_str_take in Heq. cbn in Heq. lia.
Qed.

Lemma fill_delivers {K} fuel : forall want got rng r (k : K) data,
  (want <= fuel)%nat -> delivers r data ->
  exists r', Stream.fill fuel want got (mkEncState rng r k) = (Ok (got +:+ str_take want data), mkEncState rng r' k)
    /\ delivers r' (str_drop want data).
Proof using Type.
  induction fuel as [|fuel IH]; intros want got rng r k data Hle Hd.
  { assert (want = 0) as -> by lia. exists r. cbn. by rewrite str_app_nil_r. }
  destruct want as [|want]; [exists r; cbn; by rewrite str_app_nil_r|].
  destruct (read_delivers (S want) r data) as (d & r1 & rest & Hread & Hd1 & -> & Hlen & Hne); [lia|done|].
  cbn [Stream.fill]. erewrite run_bind_ok
    by (unfold Stream.from_reader, map_err, zoom; cbn [es_reader]; rewrite Hread; reflexivity).
  cbn [es_rng es_sink]. destruct (Nat.eqb_spec (String.length d) 0) as [Hz|Hnz].
  - destruct d; [|done]. rewrite str_app_nil_l in *.
    assert (rest = "") as -> by (destruct rest; [done|exfalso; by apply Hne]).
    exists r1. cbn. by rewrite str_app_nil_r.
  - destruct (IH (S want - String.length d) (got +:+ d) rng r1 k rest) as (r' & Hrun & Hd'); [lia|done|].
    exists r'. rewrite Hrun.
    assert (forall n a b, (String.length a <= n)%nat ->
      str_take n (a +:+ b) = a +:+ str_take (n - String.length a) b
      /\ str_drop n (a +:+ b) = str_drop (n - String.length a) b) as Hsplit.
    { clear. intros n a. revert n. induction a as [|c a IH]; intros n b Hle; cbn in *; [by rewrite Nat.sub_0_r|].
      destruct n as [|n]; [lia|]. rewrite !str_app_cons. cbn. destruct (IH n b) as [-> ->]; [lia|done]. }
    destruct (Hsplit (S want) d rest Hlen) as [-> ->]. by rewrite <- str_app_assoc.
Qed.

(** The chunks of the blocks [bs], numbered from [i], of [t]. *)
Inductive chunks_of (key id : string) (t : N) : N -> list string -> list EncryptedChunk -> Prop :=
| co_nil i : chunks_of key id t i [] []
| co_cons i b bs c cs : Chunk.decrypt_chunk c key = Ok b -> ck_attachment_id c = id -> ck_chunk_index c = i ->
    ck_total_chunks c = t -> chunks_of key id t (i + 1)%N bs cs -> chunks_of key id t i (b :: bs) (c :: cs).

Lemma chunks_of_app key id t i bs cs bs' cs' :
  chunks_of key id t i bs cs -> chunks_of key id t (i + N.of_nat (length bs))%N bs' cs' ->
  chunks_of key id t i (bs ++ bs') (cs ++ cs').
Proof using Type.
  induction 1 as [i|i b bs c cs Hd Hid Hi Ht Hcs IH]; intros Hrest; cbn [app]; [by rewrite N.add_0_r in Hrest|].
  constructor; [done..|]. apply IH. cbn [length] in Hrest. by replace (i + 1 + N.of_nat (length bs))%N with (i + N.of_nat (S (length bs)))%N by lia.
Qed.

Definition ceil_div (n c : nat) : nat := (n + c - 1) / c.

Lemma ceil_div_0 c : (0 < c)%nat -> ceil_div 0 c = 0.
Proof using Type. intros Hc. unfold ceil_div. apply Nat.div_small. lia. Qed.

Lemma ceil_div_S n c : (0 < c)%nat -> (0 < n)%nat -> ceil_div n c = S (ceil_div (n - c) c).
Proof using Type.
  intros Hc Hn. unfold ceil_div. destruct (Nat.le_gt_cases c n) as [Hle|Hgt].
  - replace (n + c - 1) with ((n - c + c - 1) + 1 * c) by lia. rewrite Nat.div_add by lia. lia.
  - replace (n - c) with 0 by lia. rewrite (Nat.div_small (0 + c - 1)) by lia.
    replace (n + c - 1) with ((n - 1) + 1 * c) by lia. rewrite Nat.div_add, Nat.div_small by lia. done.
Qed.

Lemma drop_empty n s : (String.length s <= n)%nat -> str_drop n s = "".
Proof using Type.
  intros Hle. destruct (str_drop n s) eqn:Hd; [done|]. apply (f_equal String.length) in Hd.
  rewrite length_str_drop in Hd. cbn in Hd. lia.
Qed.

Lemma encrypt_loop_delivers params key t left : forall rng r k d i hashed,
  String.length key = KEY_LEN -> (0 < ap_chunk_size params)%nat ->
  delivers r d -> left = ceil_div (String.length d) (ap_chunk_size params) ->
  (N.of_nat (String.length hashed + String.length d) <= MAX_ATTACHMENT_SIZE)%N ->
  exists rng' bs cs,
    Stream.encrypt_loop Stream.push_chunk left params key t i hashed (mkEncState rng r k)
      = (Ok (hashed +:+ d), mkEncState rng' [] (k ++ cs))
    /\ chunks_of key (ap_attachment_id params) t i bs cs /\ str_concat bs = d /\ length bs = left.
Proof using Type*.
  induction left as [|left IH]; intros rng r k d i hashed Hk Hcs Hd Hleft Hmax.
  { assert (d = "") as ->.
    { destruct d; [done|]. rewrite ceil_div_S in Hleft by (cbn; lia). lia. }
    inversion Hd as [|d0 r0 rest Hne Hrest Hr Heq]; [|destruct d0; done].
    exists rng, [], []. cbn. rewrite str_app_nil_r, app_nil_r. split_and!; [done|constructor|done|done]. }
  assert (0 < String.length d)%nat as Hpos.
  { destruct d; [|cbn; lia]. cbn in Hleft. by rewrite ceil_div_0 in Hleft. }
  rewrite ceil_div_S in Hleft by done. injection Hleft as Hleft.
  set (cs := ap_chunk_size params) in *.
  destruct (fill_delivers (K := list EncryptedChunk) cs cs "" rng r k d (le_n _) Hd) as (r1 & Hfill & Hd1).
  rewrite str_app_nil_l in Hfill. cbn [Stream.encrypt_loop]. fold cs. rewrite (run_bind_ok _ _ _ _ _ Hfill).
  assert (String.length (str_take cs d) = Nat.min cs (String.length d)) as Hlen by apply length_str_take.
  rewrite (proj2 (Nat.eqb_neq (String.length (str_take cs d)) 0)) by lia. cbn [andb]. cbv zeta.
  rewrite (proj2 (N.ltb_ge _ _)) by (rewrite str_length_app; lia).
  destruct (encrypt_chunk_run (str_take cs d) key (ap_attachment_id params) i t rng)
    as (c & Hc & Hdec & _ & Hid & Hi & Ht & _); [done|unfold MAX_ATTACHMENT_SIZE, AEAD_MAX_LEN in *; lia|].
  erewrite run_bind_ok by (unfold Stream.with_rng, map_err, zoom; cbn [es_rng]; rewrite Hc; reflexivity).
  cbn [es_reader es_sink]. erewrite run_bind_ok by reflexivity. cbn [es_rng es_reader es_sink].
  destruct (IH (S rng) r1 (k ++ [c]) (str_drop cs d) (i + 1)%N (hashed +:+ str_take cs d))
    as (rng' & bs & cs' & Hrun & Hco & Hcat & Hl); [done|done|done|by rewrite length_str_drop| |].
  { rewrite str_length_app, length_str_drop. lia. }
  exists rng', (str_take cs d :: bs), (c :: cs'). rewrite Hrun, !str_app_assoc, str_take_drop, <- app_assoc.
  split_and!; [done|by constructor| |by cbn; rewrite Hl]. cbn. by rewrite Hcat, str_take_drop.
Qed.
Lemma chunk_count_ceil n c :
  (0 < c)%nat -> (0 < n)%nat -> (N.of_nat n <= MAX_ATTACHMENT_SIZE)%N ->
  Stream.calculate_chunk_count (N.of_nat n) c = Some (N.of_nat (ceil_div n c)).
Proof using Type.
  intros Hc Hn Hmax. unfold Stream.calculate_chunk_count. rewrite (proj2 (N.eqb_neq _ 0)) by lia.
  rewrite (proj2 (Nat.eqb_neq _ 0)) by lia.
  assert (N.of_nat (ceil_div n c) = (N.of_nat n + N.of_nat c - 1) / N.of_nat c)%N as Hdiv.
  { unfold ceil_div. rewrite Nat2N.inj_div, Nat2N.inj_sub, Nat2N.inj_add. done. }
  rewrite <- Hdiv, N.mod_small; [done|].
  assert (ceil_div n c <= n)%nat as Hle.
  { unfold ceil_div. apply Nat.Div0.div_le_upper_bound. nia. }
  unfold MAX_ATTACHMENT_SIZE in Hmax. lia.
Qed.

(** ** Decryption *)

Lemma decrypt_loop_chunks key id t m i bs cs : forall tot hashed w,
  chunks_of key id t i bs cs -> mf_attachment_id m = id -> mf_chunk_count m = t ->
  (tot = None \/ tot = Some t) ->
  Stream.decrypt_loop (W := string) cs key (Some m) i tot hashed w
  = (Ok (i + N.of_nat (length cs), match cs with [] => tot | _ => Some t end, hashed +:+ str_concat bs)%N,
     w +:+ str_concat bs).
Proof using Type.
  intros tot hashed w Hco Hid Ht. revert tot hashed w.
  induction Hco as [i|i b bs c cs Hd Hcid Hci Hct Hco IH]; intros tot hashed w Htot; cbn [Stream.decrypt_loop].
  { cbn. by rewrite !str_app_nil_r, N.add_0_r. }
  assert (Stream.check_chunk (W := string) (Some m) i tot c w = (Ok tt, w)) as Hcheck.
  { unfold Stream.check_chunk, Stream.refuse_att, mbind, M_bind. rewrite Hci, N.eqb_refl. cbn [negb].
    rewrite Hcid, Hct, Hid, Ht, N.eqb_refl, bool_decide_eq_true_2 by done.
    by destruct Htot as [->| ->]; cbn; rewrite ?N.eqb_refl. }
  rewrite (run_bind_ok _ _ _ _ _ Hcheck). cbv zeta. rewrite Hd.
  rewrite (run_bind_ok _ _ _ b w) by done. rewrite (run_bind_ok _ _ _ tt (w +:+ b)) by done.
  replace (match tot with None => Some (ck_total_chunks c) | Some _ => tot end) with (Some t)
    by (by destruct Htot as [->| ->]; rewrite ?Hct).
  rewrite IH by auto. cbn [length str_concat]. rewrite !str_app_assoc.
  replace (i + 1 + N.of_nat (length cs))%N with (i + N.of_nat (S (length cs)))%N by lia. by destruct cs.
Qed.

Lemma chunks_of_length key id t i bs cs : chunks_of key id t i bs cs -> length cs = length bs.
Proof using Type. induction 1; cbn; auto. Qed.

(** Chunks of a whole attachment decrypt to it. *)
Lemma decrypt_whole key id t m bs cs w :
  chunks_of key id t 0 bs cs -> cs <> [] -> t = N.of_nat (length cs) ->
  mf_attachment_id m = id -> mf_chunk_count m = t -> mf_size m = N.of_nat (String.length (str_concat bs)) ->
  mf_content_hash m = Some (Stream.compute_content_hash (str_concat bs)) ->
  Stream.decrypt_attachment_stream_with_source cs key (Some m) w
  = (Ok (N.of_nat (String.length (str_concat bs))), w +:+ str_concat bs).
Proof using Type.
  intros Hco Hne Hn Hid Ht Hsize Hhash. unfold Stream.decrypt_attachment_stream_with_source.
  rewrite (run_bind_ok _ _ _ _ _ (decrypt_loop_chunks key id t m 0 bs cs None "" w Hco Hid Ht (or_introl eq_refl))).
  rewrite str_app_nil_l, N.add_0_l.
  assert (match cs with [] => None | _ => Some t end = Some t) as -> by (by destruct cs).
  rewrite Hn. unfold Stream.refuse_att. rewrite N.eqb_refl. cbn [negb].
  rewrite (run_bind_ok _ _ _ tt (w +:+ str_concat bs)) by done.
  rewrite (run_bind_ok _ _ _ tt (w +:+ str_concat bs)); [done|].
  unfold Stream.verify_manifest, Stream.refuse_att. cbv zeta. rewrite Hsize, N.eqb_refl. cbn [negb].
  rewrite (run_bind_ok _ _ _ tt (w +:+ str_concat bs)) by done. by rewrite Hhash, bool_decide_eq_true_2.
Qed.

(** C37. An attachment comes back whole.  However the reads are cut, encrypting a file
    of at most 100 MiB in chunks succeeds; the manifest has its size, the
    number of chunks and its hash, and decrypting the chunks against the
    manifest writes exactly the file. *)
Theorem attachment_roundtrip reader data params key rng w :
  delivers reader data -> (N.of_nat (String.length data) <= MAX_ATTACHMENT_SIZE)%N ->
  (0 < ap_chunk_size params)%nat -> String.length key = KEY_LEN ->
  exists manifest chunks rng',
    Stream.encrypt_attachment_stream reader (N.of_nat (String.length data)) params key rng
      = (Ok (Some (manifest, chunks)), rng')
    /\ mf_size manifest = N.of_nat (String.length data) /\ mf_chunk_count manifest = N.of_nat (length chunks)
    /\ mf_content_hash manifest = Some (Stream.compute_content_hash data)
    /\ Stream.decrypt_attachment_stream_with_source chunks key (Some manifest) w
       = (Ok (N.of_nat (String.length data)), w +:+ data).
Proof using Type*.
  intros Hd Hmax Hcs Hk. unfold Stream.encrypt_attachment_stream, Stream.encrypt_attachment_stream_with_sink.
  rewrite (proj2 (N.ltb_ge _ _) Hmax). destruct (decide (data = "")) as [->|Hne].
  - change (N.of_nat (String.length "")) with 0%N.
    change (Stream.calculate_chunk_count 0 (ap_chunk_size params)) with (Some 1%N). change (0 =? 0)%N with true. cbv iota.
    destruct (encrypt_chunk_run "" key (ap_attachment_id params) 0 1 rng) as (c & Hc & Hdec & _ & Hid & Hi & Ht & _);
      [done|done|].
    erewrite run_bind_ok by (unfold Stream.with_rng, map_err, zoom; cbn [es_rng]; rewrite Hc; reflexivity).
    cbn -[Stream.manifest_of]. eexists _, _, _. split_and!; [done|done|done|done|].
    by apply (decrypt_whole key (ap_attachment_id params) 1 _ [""] [c] w); [repeat constructor|..].
  - assert (0 < String.length data)%nat as Hpos by (destruct data; cbn; [done|lia]).
    rewrite (chunk_count_ceil _ _ Hcs Hpos Hmax), (proj2 (N.eqb_neq (N.of_nat (String.length data)) 0)) by lia.
    set (t := N.of_nat (ceil_div (String.length data) (ap_chunk_size params))).
    destruct (encrypt_loop_delivers params key t (N.to_nat t) rng reader [] data 0 "") as (rng' & bs & cs & Hrun & Hco & Hcat & Hl);
      [done|done|done|unfold t; lia|done|].
    rewrite (run_bind_ok _ _ _ _ _ Hrun), str_app_nil_l, N.eqb_refl. cbn -[Stream.manifest_of].
    pose proof (chunks_of_length _ _ _ _ _ _ Hco) as Hlen.
    assert (t = N.of_nat (length cs)) as Ht by lia.
    eexists _, _, _. split_and!; [done|done|done|done|]. subst data.
    apply (decrypt_whole key (ap_attachment_id params) t _ bs cs w); try done.
    intros ->. unfold t in Ht. rewrite ceil_div_S in Ht by done. cbn in Ht. lia.
Qed.
(** ** What decryption accepts *)

Lemma refuse_att_inv {W} b e (w : W) r w' : Stream.refuse_att b e w = (Ok r, w') -> b = false /\ w' = w.
Proof using Type. unfold Stream.refuse_att. destruct b; [done|]. by intros [= <- <-]. Qed.

Lemma check_chunk_inv {W} m i tot c (w : W) r w' :
  Stream.check_chunk (Some m) i tot c w = (Ok r, w') ->
  w' = w /\ ck_chunk_index c = i /\ ck_attachment_id c = mf_attachment_id m /\ ck_total_chunks c = mf_chunk_count m
  /\ (tot = None \/ tot = Some (ck_total_chunks c)).
Proof using Type.
  unfold Stream.check_chunk. intros Hrun.
  apply bind_ok_inv in Hrun as (u1 & w1 & H1' & Hrun). apply refuse_att_inv in H1' as [Hi%negb_false_iff%N.eqb_eq ->].
  apply bind_ok_inv in Hrun as (u2 & w2 & H2' & Hrun).
  assert (w2 = w /\ (tot = None \/ tot = Some (ck_total_chunks c))) as [-> Htot].
  { destruct tot as [t|]; [|injection H2' as <- <-; auto].
    apply refuse_att_inv in H2' as [->%negb_false_iff%N.eqb_eq ->]. auto. }
  apply bind_ok_inv in Hrun as (u3 & w3 & H3' & Hrun).
  apply refuse_att_inv in H3' as [Hid%negb_false_iff%bool_decide_eq_true ->].
  apply refuse_att_inv in Hrun as [Ht%negb_false_iff%N.eqb_eq ->]. done.
Qed.

Lemma decrypt_loop_inv key m cs : forall i tot hashed w p w',
  Stream.decrypt_loop (W := string) cs key (Some m) i tot hashed w = (Ok p, w') ->
  (tot = None \/ tot = Some (mf_chunk_count m)) ->
  exists bs, chunks_of key (mf_attachment_id m) (mf_chunk_count m) i bs cs /\ w' = w +:+ str_concat bs
    /\ p = (i + N.of_nat (length cs), match cs with [] => tot | _ => Some (mf_chunk_count m) end, hashed +:+ str_concat bs)%N.
Proof using Type.
  induction cs as [|c cs IH]; intros i tot hashed w p w' Hrun Htot; cbn [Stream.decrypt_loop] in Hrun.
  { injection Hrun as <- <-. exists []. cbn. rewrite !str_app_nil_r, N.add_0_r. split_and!; [constructor|done|done]. }
  apply bind_ok_inv in Hrun as (u & w1 & Hcheck & Hrun).
  apply check_chunk_inv in Hcheck as (-> & Hi & Hid & Ht & _). cbv zeta in Hrun.
  apply bind_ok_inv in Hrun as (b & w2 & Hdec & Hrun).
  destruct (Chunk.decrypt_chunk c key) as [b'|] eqn:Hd; [|done]. injection Hdec as -> <-.
  apply bind_ok_inv in Hrun as (u' & w3 & Hw & Hrun). injection Hw as _ <-.
  assert (match tot with None => Some (ck_total_chunks c) | Some _ => tot end = Some (mf_chunk_count m)) as Htot'
    by (by destruct Htot as [->| ->]; rewrite ?Ht).
  rewrite Htot' in Hrun. apply IH in Hrun as (bs & Hco & -> & ->); [|by right].
  exists (b :: bs). cbn [str_concat length]. rewrite !str_app_assoc. split_and!; [by constructor|done|].
  replace (i + N.of_nat (S (length cs)))%N with (i + 1 + N.of_nat (length cs))%N by lia. by destruct cs.
Qed.

(** Decryption against a manifest accepts nothing else.  If it succeeds, the
    chunks are all the chunks of this attachment, numbered from zero in order,
    each authenticated in its place; what was written is exactly their
    contents, of the size of the manifest, and has the hash of the manifest. *)
Lemma attachment_decrypt_sound chunks key m w n w' :
  Stream.decrypt_attachment_stream_with_source chunks key (Some m) w = (Ok n, w') ->
  exists blocks, w' = w +:+ str_concat blocks /\ N.of_nat (length chunks) = mf_chunk_count m
    /\ chunks_of key (mf_attachment_id m) (mf_chunk_count m) 0 blocks chunks
    /\ n = mf_size m /\ n = N.of_nat (String.length (str_concat blocks))
    /\ forall h, mf_content_hash m = Some h -> Stream.compute_content_hash (str_concat blocks) = h.
Proof using Type.
  unfold Stream.decrypt_attachment_stream_with_source. intros Hrun.
  apply bind_ok_inv in Hrun as (p & w1 & Hloop & Hrun).
  apply decrypt_loop_inv in Hloop as (bs & Hco & -> & ->); [|by left]. rewrite str_app_nil_l, N.add_0_l in Hrun.
  destruct chunks as [|c cs]; [done|]. set (chunks := c :: cs) in *.
  apply bind_ok_inv in Hrun as (u1 & w2 & H1' & Hrun).
  apply refuse_att_inv in H1' as [Hn%negb_false_iff%N.eqb_eq ->].
  apply bind_ok_inv in Hrun as (u2 & w3 & H2' & Hrun).
  unfold Stream.verify_manifest in H2'. cbv zeta in H2'. apply bind_ok_inv in H2' as (u3 & w4 & H3' & H2').
  apply refuse_att_inv in H3' as [Hs%negb_false_iff%N.eqb_eq ->].
  apply bind_ok_inv in Hrun as (u4 & w5 & H4' & Hrun). injection H4' as _ <-. injection Hrun as <- <-.
  exists bs. destruct (mf_content_hash m) as [h|].
  - apply refuse_att_inv in H2' as [Hh%negb_false_iff%bool_decide_eq_true ->].
    split_and!; [done|done|done|by rewrite Hs|done|]. by intros h' [= <-].
  - injection H2' as _ <-. split_and!; [done|done|done|by rewrite Hs|done|done].
Qed.

(** ** Manifests *)

Class ManifestLaws : Prop := {
  manifest_json_roundtrip m s : manifest_to_json m = Ok s -> manifest_from_json s = Ok m
}.

Lemma seal_open_with key msg v oid kind i :
  String.length key = KEY_LEN -> (N.of_nat (String.length msg) <= AEAD_MAX_LEN)%N ->
  exists nc, seal key msg v oid kind i = (Ok nc, S i)
    /\ open nc.1 nc.2 key v oid kind = Ok msg
    /\ Chunk.open_with nc.1 nc.2 key (build_aad v oid kind) = Ok msg.
Proof using Type*.
  intros Hk Hm. destruct (aead_total key (random_bytes i NONCE_LEN) (build_aad v oid kind) msg) as [c Hc];
    [done|apply random_bytes_length|done|].
  assert (seal key msg v oid kind i = (Ok (b64_encode (random_bytes i NONCE_LEN), b64_encode c), S i)) as Hrun.
  { unfold seal. rewrite (run_bind_ok _ _ _ _ _ (eq_refl : fill_random _ _ = (Ok _, S i))). cbv zeta.
    unfold lift_result. by rewrite Hc. }
  eexists. split; [exact Hrun|]. split; [by eapply seal_open|]. unfold Chunk.open_with. cbn [fst snd].
  rewrite b64_decode_to_roundtrip, b64_roundtrip by (by rewrite random_bytes_length). cbn.
  rewrite random_bytes_length. cbn. by rewrite (aead_roundtrip _ _ _ _ _ Hc).
Qed.

(** A manifest and the attachment key survive: encrypting a manifest succeeds, the
    envelope is an attachment manifest for that attachment, decrypting it
    under the vault key gives back both, and it passes the validation of
    restored objects. *)
Lemma manifest_roundtrip `{!ManifestLaws} m json akey vk i :
  manifest_to_json m = Ok json -> (N.of_nat (String.length json) <= AEAD_MAX_LEN)%N ->
  String.length akey = KEY_LEN -> String.length vk = KEY_LEN ->
  exists env, Stream.encrypt_attachment_manifest m akey vk i = (Ok env, 2 + i)
    /\ env_object_id env = mf_attachment_id m /\ env_object_kind env = OBJECT_KIND_ATTACHMENT_MANIFEST
    /\ Stream.decrypt_attachment_manifest env vk = Ok (m, akey)
    /\ Stream.validate_active_object env vk = Ok tt.
Proof using Type*.
  intros Hjson Hlen Hak Hvk.
  destruct (seal_open_with akey json ENVELOPE_VERSION_V1 (mf_attachment_id m) OBJECT_KIND_ATTACHMENT_MANIFEST i)
    as (p & Hp & Hopen & _); [done|done|].
  destruct (seal_open_with vk akey ENVELOPE_VERSION_V1 (mf_attachment_id m) OBJECT_KIND_ATTACHMENT_MANIFEST (S i))
    as (q & Hq & _ & Hunwrap); [done|by rewrite Hak|].
  set (env := mkEnvelope ENVELOPE_VERSION_V1 (mf_attachment_id m) OBJECT_KIND_ATTACHMENT_MANIFEST
    (mkKeyContainer q.1 q.2) (mkPayloadContainer p.1 p.2)).
  assert (Stream.decrypt_attachment_manifest env vk = Ok (m, akey)) as Hdec.
  { unfold Stream.decrypt_attachment_manifest, Chunk.unwrap_attachment_key, decrypt_object_payload, key_from_bytes.
    cbn [env envelope_version env_object_kind env_object_id wrapped_key payload key_nonce key_ciphertext payload_nonce payload_ciphertext].
    rewrite Hunwrap. cbn. rewrite Hak. cbn. rewrite Hopen. cbn.
    rewrite (manifest_json_roundtrip _ _ Hjson). cbn. by rewrite bool_decide_eq_true_2. }
  exists env. split_and!; [|done|done|done|].
  - unfold Stream.encrypt_attachment_manifest, lift_result, encrypt_object_payload, Chunk.wrap_attachment_key, map_err, mbind, M_bind.
    rewrite Hjson. cbn [result_map_err]. rewrite Hp. cbn. by rewrite Hq.
  - unfold Stream.validate_active_object. cbn [env env_object_kind]. fold env. by rewrite Hdec.
Qed.

(** Orphaned attachments are exactly the stored ones that no note references: an
    attachment just added to a note is not reported, and detaching it reports
    the change and leaves no reference in the note. *)
Lemma orphans_exact notes stored id :
  (id ∈ Stream.find_orphaned_attachments notes stored
     <-> id ∈ stored /\ Forall (fun n => id ∉ n_attachments n) notes)
  /\ forall now note note', Stream.add_attachment_to_note now note id = Ok note' ->
       id ∉ Stream.find_orphaned_attachments (note' :: notes) stored
       /\ (Stream.remove_attachment_from_note now note' id).2 = true
       /\ id ∉ n_attachments (Stream.remove_attachment_from_note now note' id).1.
Proof using Type.
  assert (forall notes, id ∈ Stream.find_orphaned_attachments notes stored
     <-> id ∈ stored /\ Forall (fun n => id ∉ n_attachments n) notes) as Horphan.
  { clear notes. intros notes. unfold Stream.find_orphaned_attachments.
    rewrite list_elem_of_In, filter_In, <- list_elem_of_In, negb_true_iff, bool_decide_eq_false.
    apply and_iff_compat_l. rewrite elem_of_list_to_set, Forall_forall. split.
    - intros Hnin n Hn Hin. apply Hnin, list_elem_of_join. exists (n_attachments n).
      split; [done|by apply list_elem_of_fmap_2].
    - intros Hall (l & Hid & Hl)%list_elem_of_join. apply list_elem_of_fmap in Hl as (n & -> & Hn). by eapply Hall. }
  split; [apply Horphan|]. intros now note note' Hadd.
  assert (id ∈ n_attachments note') as Hin.
  { unfold Stream.add_attachment_to_note in Hadd. case_bool_decide as Hc; [by injection Hadd as <-|].
    destruct (_ <=? _)%N; [done|]. destruct (_ || _); [done|]. injection Hadd as <-. cbn. apply elem_of_app. right. left. }
  split; [rewrite Horphan, Forall_cons; tauto|].
  assert (id ∉ List.filter (fun i => negb (bool_decide (i = id))) (n_attachments note')) as Hgone.
  { rewrite list_elem_of_In, filter_In. intros [_ Hf]. by rewrite bool_decide_eq_true_2 in Hf. }
  unfold Stream.remove_attachment_from_note. cbv zeta.
  destruct (Nat.eqb_spec (length (List.filter (fun i => negb (bool_decide (i = id))) (n_attachments note')))
    (length (n_attachments note'))) as [Hlen|]; [|done].
  exfalso. apply Hgone. apply List.filter_length_forallb in Hlen. rewrite forallb_forall in Hlen.
  apply list_elem_of_In in Hin. specialize (Hlen _ Hin). by rewrite bool_decide_eq_true_2 in Hlen.
Qed.
End stream.
