(* ===== verification/AttachmentSamples.v ===== *)
(** * Sessions, synchronisation and attachments on concrete inputs *)

From stdpp Require Import options.
From S2P Require Import Prelude Protocol StorageModels Storage CoreErrors Time Env Queue Cursor Text.
From S2P Require Import Diff3 Crypto Note Vault VaultFacts Search Session Merge NoteSamples Conflict Adapter.
From S2P Require Import Push Pull Orchestrator SyncLive SyncSamples Attachment AttachmentStream.

(** ** Vaults, sessions and the search index on concrete inputs

    An instance of [KdfLib] that satisfies its laws, and witnesses of the
    theorems about the vault key, the index and sessions. *)

#[export] Instance sample_search : SearchLib := {
  is_alphanumeric c := let n := code_point c in
    ((48 <=? n) && (n <=? 57) || (65 <=? n) && (n <=? 90) || (97 <=? n) && (n <=? 122))%N
}.

#[export] Instance sample_kdf : KdfLib := {
  argon2_params m t p :=
    if ((1 <=? p) && (p <=? 16777215) && (8 * p <=? m) && (1 <=? t))%N then None else Some "invalid parameters";
  argon2_hash m t p pass salt :=
    Ok (sample_tag (be_bytes 4 m +:+ be_bytes 4 t +:+ be_bytes 4 p) +:+ sample_tag (salt +:+ pass));
  blake2b512 s := sample_tag s +:+ sample_tag s +:+ sample_tag s +:+ sample_tag s;
  blake2s256 s := sample_tag s +:+ sample_tag s
}.

#[export] Instance sample_kdf_laws : KdfLaws.
Proof.
  constructor; cbn [argon2_params argon2_hash blake2b512 blake2s256 sample_kdf].
  - intros m t p Hp Hm Ht.
    by rewrite (proj2 (N.leb_le 1 p)), (proj2 (N.leb_le p 16777215)), (proj2 (N.leb_le (8 * p) m)), (proj2 (N.leb_le 1 t)) by lia.
  - eauto.
  - intros m t p pass salt k [= <-]. by rewrite str_length_app, !length_sample_tag.
  - intros s. by rewrite !str_length_app, !length_sample_tag.
  - intros s. by rewrite !str_length_app, !length_sample_tag.
Qed.

Definition sample_params : KdfParams := mkKdfParams ARGON2ID_ALGORITHM (Time.zeros SALT_LEN) 1024 1 1.

Lemma sample_params_usable : kdf_usable sample_params.
Proof. split; [done|done|done|done|]. exists (Time.zeros SALT_LEN). split; [done|cbn; lia]. Qed.

Lemma vault_key_survives_witness :
  exists b code vk, init_vault "correct horse" sample_params 0 = (Ok (b, code, vk), 4)
    /\ unlock_with_passphrase b "correct horse" = Ok vk /\ unlock_with_recovery_key b code = Ok vk
    /\ exists b', set_new_passphrase b vk "correct horse" sample_params 0 = (Ok b', 1)
         /\ unlock_with_recovery_key b' code = Ok vk.
Proof.
  destruct (vault_key_survives "correct horse" sample_params 0) as [(b & code & vk & Hrun & Hlen & Hval & Hp & Hr) Hset];
    [exact sample_params_usable|vm_compute; discriminate|].
  exists b, code, vk. split; [exact Hrun|]. split; [exact Hp|]. split; [exact Hr|].
  destruct (Hset b code vk Hval Hlen Hr) as (b' & Hrun' & _ & _ & Hr' & _). exists b'. split; [exact Hrun'|exact Hr'].
Defined.

Lemma recovery_code_roundtrip_witness :
  parse_recovery_key (format_recovery_key sample_vault_key) = Ok sample_vault_key.
Proof. exact (proj1 (recovery_code_roundtrip sample_vault_key eq_refl)). Defined.

Definition low_key : string := String "007" (Time.zeros 31).

Lemma recovery_code_accepts_plus_witness :
  str_take 8 (format_recovery_key low_key) = "07303030"
  /\ parse_recovery_key (String "+" (str_drop 1 (format_recovery_key low_key))) = Ok low_key.
Proof.
  split; [vm_compute; reflexivity|].
  apply (recovery_code_accepts_plus "007" (Time.zeros 31)); [reflexivity|vm_compute; reflexivity].
Defined.

Definition sample_bootstrap : VaultBootstrap :=
  mkVaultBootstrap 1 sample_params (mkWrappedVaultKey "xchacha20poly1305" (Time.zeros 24) (Time.zeros 48))
    (mkWrappedVaultKey "xchacha20poly1305" (Time.zeros 24) (Time.zeros 48)).

Lemma fingerprint_binding_witness :
  let f := "blake2s-v1:" +:+ hex false (blake2s256 (fingerprint_input 1 "xchacha20poly1305" (Time.zeros 24) (Time.zeros 48))) in
  vault_fingerprint sample_bootstrap = Ok f
  /\ ((crypto_version sample_bootstrap = crypto_version sample_bootstrap /\ True)
      \/ exists x y, x <> y /\ blake2s256 x = blake2s256 y).
Proof.
  intros f. assert (vault_fingerprint sample_bootstrap = Ok f) as Hf by (vm_compute; reflexivity).
  split; [exact Hf|]. destruct (fingerprint_binding sample_bootstrap sample_bootstrap f Hf Hf) as [[H _]|H];
    [left; split; [exact H|exact I]|right; exact H].
Defined.

(** ** The index *)

Definition sample_index : InMemorySearchIndex :=
  Index.insert_raw "b" "Garden plan" ["home"] "dig the garden" "2024-01-02T00:00:00.000Z"
    (Index.insert_raw "a" "Plan" ["work"] "ship the release" "2024-01-01T00:00:00.000Z" []).

Example search_example :
  sr_id <$> Index.search "lan" sample_index = ["b"; "a"]
  /\ sr_id <$> Index.search "plan #home" sample_index = ["b"] /\ Index.search "  " sample_index = [].
Proof. vm_compute. done. Qed.

Lemma index_refines_map_witness :
  Index.get "a" (Index.remove "b" sample_index) = index_map (Index.remove "b" sample_index) !! "a"
  /\ index_map (Index.remove "b" sample_index) = delete "b" (index_map sample_index).
Proof.
  destruct (index_refines_map sample_index) as (_ & _ & _ & Hrem & _); [decide_it|].
  destruct (Hrem "b") as [Hnd Hdel]. split; [|exact Hdel].
  destruct (index_refines_map (Index.remove "b" sample_index) Hnd) as (Hget & _). apply Hget.
Defined.

(** ** Sessions *)

Lemma session_holds_nothing_locked_witness :
  session_empty (session_run (Session.check_idle_timeout 100 (session_run (Session.new 0)
    [SoUnlock sample_vault_key 1; SoTimeout (Some 60%N); SoInsert "a" (titled "plan")])).2 [SoTouch 101]).
Proof.
  destruct (session_holds_nothing_locked 0 [SoUnlock sample_vault_key 1; SoTimeout (Some 60%N); SoInsert "a" (titled "plan")])
    as (_ & _ & H).
  destruct (H 100%N 60%N [SoTouch 101]) as [He _]; [reflexivity|vm_compute; discriminate|reflexivity|exact He].
Defined.

Lemma expired_session_unlocked_witness :
  Session.is_unlocked (Session.with_idle_timeout sample_vault_key (Some 60%N) 0) = true.
Proof. destruct (expired_session_unlocked sample_vault_key 60 0 1000) as (H & _); [lia|lia|exact H]. Defined.


(** A note of the server, encrypted under the vault key. *)
Definition note_envelope (oid title : string) : EncryptedEnvelope :=
  match (encrypt (titled title) sample_vault_key oid 0).1 with
  | Ok env => env
  | Err _ => sample_envelope oid ""
  end.

Definition note_server : MockSyncAdapter :=
  mkMock None {["n" := mkObjectChange 3 "n" 1 OBJECT_KIND_NOTE false (note_envelope "n" "plan")]} 3 None ∅.

Definition empty_local : Local MemoryStorage :=
  mkLocal (mkMemoryStorage ∅ [] ∅ (mkSyncState 0 None None) ∅) 0 0 0.


Lemma unlock_indexes_store_witness :
  exists session' items,
    SessionSync.decrypt_stored_objects_on_unlock (mkWorld note_server empty_local, Session.from_key sample_vault_key 0)
      = (Ok items, (mkWorld note_server empty_local, session'))
    /\ exists idx', vs_search_index session' = Some idx' /\ index_synced sample_vault_key (l_view empty_local) idx'.
Proof.
  pose proof (unlock_indexes_store note_server empty_local (Session.from_key sample_vault_key 0) sample_vault_key) as H.
  destruct (SessionSync.decrypt_stored_objects_on_unlock (mkWorld note_server empty_local, Session.from_key sample_vault_key 0))
    as [[items|e] [w' session']] eqn:Hrun.
  - destruct H as (Hw & _ & Hok & _); [discriminate|reflexivity|reflexivity|]. rewrite Hw.
    exists session', items. split; [reflexivity|]. apply Hok. reflexivity.
  - exfalso. apply (f_equal (fun p => is_ok p.1)) in Hrun. vm_compute in Hrun. discriminate Hrun.
Defined.

(** An attachment manifest on the server. *)
Definition attachment_server : MockSyncAdapter :=
  mkMock None {["c" := mkObjectChange 6 "c" 1 OBJECT_KIND_ATTACHMENT_MANIFEST false
    (mkEnvelope 1 "c" OBJECT_KIND_ATTACHMENT_MANIFEST (mkKeyContainer "" "") (mkPayloadContainer "" ""))]} 6 None ∅.

Lemma attachment_server_ok : mock_ok attachment_server.
Proof.
  split; [| | |done]; unfold attachment_server; cbn [mk_objects mk_sequence_counter].
  - by intros id c [<- <-]%lookup_singleton_Some.
  - by intros id c [<- <-]%lookup_singleton_Some.
  - by intros id id' c c' [<- <-]%lookup_singleton_Some [<- <-]%lookup_singleton_Some.
Qed.

Lemma attachment_aborts_cycle_witness :
  exists e l', Cycle.run_sync_cycle 5 (Some sample_vault_key) sample_cycle_options (mkWorld attachment_server sample_local)
    = (Err (SCE_Pull (PuE_Core e)), mkWorld attachment_server l').
Proof.
  destruct (attachment_aborts_cycle (Some 1%N) (feed attachment_server) 5 sample_vault_key sample_cycle_options
    attachment_server sample_local) as (e & l' & Hrun & _).
  - apply mock_serves; [exact attachment_server_ok|reflexivity|discriminate].
  - apply matching_ascending, attachment_server_ok.
  - reflexivity.
  - reflexivity.
  - decide_it.
  - vm_compute. lia.
  - change (feed_after (feed attachment_server) (cursor_of (l_view sample_local)))
      with (map_to_list (mk_objects attachment_server)).*2. apply Exists_cons. left. split; [reflexivity|discriminate].
  - exists e, l'. exact Hrun.
Defined.

(** ** Attachments *)

#[export] Instance sample_chunks : ChunkLib := {
  b64_decode_to n s := if (String.length s <=? n)%nat then Ok s else Err "invalid Base64 length"
}.

#[export] Instance sample_chunk_laws : ChunkLaws.
Proof. constructor. cbn. intros n s Hle. by rewrite (proj2 (Nat.leb_le _ _) Hle). Qed.

(** A codec for manifests of small text files. *)
Definition text_manifest (id : string) : Manifest := mkManifest id "a.txt" "text/plain" 3 1 4 None.

#[export] Instance sample_manifests : ManifestLib := {
  manifest_to_json m :=
    if bool_decide (mf_name m = "a.txt" /\ mf_mime m = "text/plain" /\ mf_size m = 3%N /\ mf_chunk_count m = 1%N
                    /\ mf_chunk_size m = 4%N /\ mf_content_hash m = None)
    then Ok (mf_attachment_id m) else Err "unsupported manifest";
  manifest_from_json s := Ok (text_manifest s)
}.

#[export] Instance sample_manifest_laws : ManifestLaws.
Proof.
  constructor. intros m s. cbn. case_bool_decide as Hm; [|done]. intros [= <-]. destruct m. cbn in *.
  destruct Hm as (-> & -> & -> & -> & -> & ->). done.
Qed.

Definition sample_chunk : EncryptedChunk := mkChunk 1 "att" 0 1 (Time.zeros 24) "ciphertext".

Lemma chunk_wire_roundtrip_witness :
  exists b, Chunk.to_bytes sample_chunk = Ok b /\ Chunk.from_bytes (b +:+ "rest") = Ok sample_chunk.
Proof.
  destruct (chunk_wire_roundtrip sample_chunk) as [H _].
  destruct H as (b & Hto & Hfrom).
  - split; [discriminate|discriminate|discriminate|discriminate|reflexivity|..].
    + exists (Time.zeros 24). split; reflexivity.
    + exists "ciphertext". split; [reflexivity|discriminate].
  - exists b. split; [exact Hto|]. apply Hfrom.
Defined.

Lemma chunk_binary_roundtrip_witness :
  exists b, Chunk.encrypt_chunk_binary "abc" sample_vault_key "att" 0 1 0 = (Ok b, 1)
    /\ Chunk.decrypt_chunk_binary b sample_vault_key = Ok (0%N, 1%N, "abc").
Proof.
  apply chunk_binary_roundtrip; [reflexivity|discriminate|discriminate|reflexivity|discriminate|discriminate].
Defined.

Lemma chunk_aad_binding_witness : Chunk.build_chunk_aad 1 "att" 0 2 <> Chunk.build_chunk_aad 1 "att" 1 2.
Proof.
  intros Heq. destruct (chunk_aad_binding 1 "att" 0 2 1 "att" 1 2) as (_ & _ & Hi & _);
    [discriminate..|exact Heq|discriminate Hi].
Defined.

Definition sample_encrypt_params : AttachmentEncryptParams := mkEncryptParams "att" "a.txt" "text/plain" 4.

(** Ten bytes, read in portions of two and eight, in chunks of four. *)
Lemma attachment_roundtrip_witness :
  exists manifest chunks rng',
    Stream.encrypt_attachment_stream [ReadData "ab"; ReadData "cdefghij"] 10 sample_encrypt_params sample_vault_key 0
      = (Ok (Some (manifest, chunks)), rng')
    /\ Stream.decrypt_attachment_stream_with_source chunks sample_vault_key (Some manifest) "" = (Ok 10%N, "abcdefghij").
Proof.
  destruct (attachment_roundtrip [ReadData "ab"; ReadData "cdefghij"] "abcdefghij" sample_encrypt_params sample_vault_key 0 "")
    as (manifest & chunks & rng' & Hrun & _ & _ & _ & Hdec).
  - apply (de_data "ab"); [discriminate|]. apply (de_data "cdefghij" [] ""); [discriminate|constructor].
  - discriminate.
  - cbn. lia.
  - reflexivity.
  - exists manifest, chunks, rng'. split; [exact Hrun|exact Hdec].
Defined.

Example attachment_three_chunks :
  match (Stream.encrypt_attachment_stream [ReadData "ab"; ReadData "cdefghij"] 10 sample_encrypt_params sample_vault_key 0).1 with
  | Ok (Some (m, chunks)) => mf_chunk_count m = 3%N /\ ck_chunk_index <$> chunks = [0%N; 1%N; 2%N]
  | _ => False
  end.
Proof. vm_compute. done. Qed.

(** A chunk with its ciphertext in the clear, for the sample cipher. *)
Definition lone_chunk : EncryptedChunk :=
  match (Chunk.encrypt_chunk "abc" sample_vault_key "att" 0 1 0).1 with
  | Ok c => c
  | Err _ => sample_chunk
  end.

Lemma attachment_decrypt_sound_witness :
  exists blocks, "abc" = str_concat blocks
    /\ chunks_of sample_vault_key "att" 1 0 blocks [lone_chunk].
Proof.
  destruct (attachment_decrypt_sound [lone_chunk] sample_vault_key (text_manifest "att") "" 3 "abc")
    as (blocks & Hw & _ & Hco & _); [vm_compute; reflexivity|].
  exists blocks. split; [exact Hw|exact Hco].
Defined.

Lemma manifest_roundtrip_witness :
  exists env, Stream.encrypt_attachment_manifest (text_manifest "att") sample_vault_key sample_vault_key 0 = (Ok env, 2)
    /\ Stream.decrypt_attachment_manifest env sample_vault_key = Ok (text_manifest "att", sample_vault_key).
Proof.
  destruct (manifest_roundtrip (text_manifest "att") "att" sample_vault_key sample_vault_key 0)
    as (env & Hrun & _ & _ & Hdec & _); [vm_compute; reflexivity|discriminate|reflexivity|reflexivity|].
  exists env. split; [exact Hrun|exact Hdec].
Defined.

Lemma orphans_exact_witness :
  Stream.find_orphaned_attachments [titled "plan"] ["att"] = ["att"]
  /\ exists note', Stream.add_attachment_to_note "2024-01-01T00:00:00.000Z" (titled "plan") "att" = Ok note'
       /\ ~ "att" ∈ Stream.find_orphaned_attachments [note'] ["att"].
Proof.
  split; [vm_compute; reflexivity|]. eexists. split; [vm_compute; reflexivity|].
  destruct (orphans_exact [] ["att"] "att") as [_ H].
  destruct (H "2024-01-01T00:00:00.000Z" (titled "plan") _ ltac:(vm_compute; reflexivity)) as [Hno _]. exact Hno.
Defined.
