(* ===== verification/Wasm.v ===== *)
(** * The browser's client ([crates/zk-wasm/src/lib.rs])

    What JavaScript can call: the vault session that holds the key, the standalone
    functions, and the wrapper of the sync state machine.  An object that JavaScript
    holds is the store of the computations of its methods, beside the clock, the
    random bytes and the identifiers; an error reaches JavaScript as its text.
    [wasm_bindgen]'s glue and the panic hook are not modelled. *)

From Stdlib Require Import SpecFloat.
From stdpp Require Import options.
From S2P Require Import Prelude Text Time Protocol StorageModels Storage CoreErrors Env Crypto Note Vault Search Session Merge Conflict.
From S2P Require Import Queue StateMachine Adapter Attachment AttachmentStream.

(** ** Data *)

Inductive WasmError : Type :=
| WE_VaultLocked
| WE_Crypto (msg : string)
| WE_InvalidEnvelope (msg : string)
| WE_InvalidPayload (msg : string)
| WE_SessionAlreadyTaken.

Definition WasmError_display (e : WasmError) : string :=
  match e with
  | WE_VaultLocked => "vault is locked"
  | WE_Crypto msg => "cryptographic error: " +:+ msg
  | WE_InvalidEnvelope msg => "invalid envelope: " +:+ msg
  | WE_InvalidPayload msg => "invalid payload: " +:+ msg
  | WE_SessionAlreadyTaken => "session already taken"
  end.

Record WasmPlaintextNote : Type := mkWasmNote {
  wn_id : string;
  wn_title : string;
  wn_body : string;
  wn_tags : list string;
  wn_attachments : list string;
  wn_created_at : string;
  wn_updated_at : string
}.

(** An [f64] is a double of the standard. *)
Record WasmAttachmentManifest : Type := mkWasmManifest {
  wm_attachment_id : string;
  wm_name : string;
  wm_mime : string;
  wm_size : spec_float;
  wm_chunk_count : N;
  wm_chunk_size : N;
  wm_content_hash : option string
}.

Record WasmDecryptedManifest : Type := mkWasmDecrypted {
  wd_manifest : WasmAttachmentManifest;
  wd_attachment_key_base64 : string
}.

Record WasmSearchResult : Type := mkWasmResult {
  wr_note_id : string;
  wr_score : N;
  wr_matched_title : string;
  wr_snippet : string
}.

Record WasmRewrapResult : Type := mkWasmRewrap {
  ww_new_wrapped_vault_key : string;
  ww_new_kdf_params_json : string
}.

Record WasmVaultSession : Type := mkWasmSession {
  ws_inner : VaultSession;
  ws_search_index : InMemorySearchIndex
}.

Record WasmVaultInitResult : Type := mkWasmInit {
  wi_wrapped_vault_key : string;
  wi_kdf_params_json : string;
  wi_wrapped_recovery_key : string;
  wi_recovery_phrase : string;
  wi_session : option WasmVaultSession
}.

(** [n as f64], and [x as u64], which saturates and takes not-a-number to zero. *)
Definition f64_of_u64 (n : N) : spec_float := binary_normalize 53 1024 (Z.of_N n) 0 false.
Definition u64_of_f64 (x : spec_float) : N :=
  match x with
  | S754_zero _ | S754_nan => 0
  | S754_infinity s => if s then 0 else u64_max
  | S754_finite s m e => if s then 0 else N.min u64_max (Z.to_N (Z.shiftl (Zpos m) e))
  end.

(** [serde_json] *)
Class WasmLib : Type := {
  envelope_to_json : EncryptedEnvelope -> Result string string;
  envelope_from_json : string -> Result EncryptedEnvelope string;
  wrapped_to_json : WrappedVaultKey -> Result string string;
  wrapped_from_json : string -> Result WrappedVaultKey string;
  kdf_to_json : KdfParams -> Result string string;
  kdf_from_json : string -> Result KdfParams string;
  pending_from_json : string -> Result PendingMutation string;
  pendings_from_json : string -> Result (list PendingMutation) string;
  conflict_response_from_json : string -> Result ConflictResponse string;
  conflict_record_to_json : ConflictRecord -> Result string string;
  conflict_record_from_json : string -> Result ConflictRecord string;
  machine_options_from_json : string -> Result SyncStateMachineOptions string;
  pull_response_from_json : string -> Result PullChangesResponse string;
  push_response_from_json : string -> Result PushResponse string;
  phase_to_json : SyncPhase -> Result string string;
  actions_to_json : list SyncAction -> Result string string;
  report_to_json : StateMachineReport -> Result string string;
  wasm_note_to_json : WasmPlaintextNote -> Result string string;
  wasm_manifest_to_json : WasmAttachmentManifest -> Result string string
}.

(** What was serialised is read back. *)
Class WasmLaws `{WasmLib} : Prop := {
  envelope_json_total e : exists s, envelope_to_json e = Ok s;
  envelope_json_roundtrip e s : envelope_to_json e = Ok s -> envelope_from_json s = Ok e;
  wrapped_json_total w : exists s, wrapped_to_json w = Ok s;
  wrapped_json_roundtrip w s : wrapped_to_json w = Ok s -> wrapped_from_json s = Ok w;
  kdf_json_total p : exists s, kdf_to_json p = Ok s;
  kdf_json_roundtrip p s : kdf_to_json p = Ok s -> kdf_from_json s = Ok p
}.

Section wasm.
Context `{!Env} `{CryptoLib} `{NoteLib} `{SearchLib} `{KdfLib} `{ChunkLib} `{ManifestLib} `{WasmLib}.

(** Computations of functions, and of the methods of a session. *)
Abbreviation Js S A := (M (Local S) string A).
Abbreviation Wasm S A := (M (Local S) WasmError A).
Abbreviation Ses A := (M (Local WasmVaultSession) string A).

Definition core_text (e : CoreError) : string := CoreError_display str_debug e.
Definition to_js {S A} (m : Wasm S A) : Js S A := map_err WasmError_display m.
Definition of_json {S A} (r : Result A string) : Js S A := lift_result r.
(** [map_err(|e| to_js_error(WasmError::..(e.to_string())))] *)
Definition js_err {A E} (wrap : string -> WasmError) (text : E -> string) (r : Result A E) : Result A string :=
  result_map_err (fun e => WasmError_display (wrap (text e))) r.

(** [crate::time::now_epoch_secs()] *)
Definition epoch {S E} : M (Local S) E N :=
  fun l => (Ok (Z.to_N (system_time (l_clock l)).1), mkLocal (l_store l) (l_uuids l) (1 + l_clock l) (l_rng l)).

Definition session {E} : M (Local WasmVaultSession) E WasmVaultSession := fun l => (Ok (l_store l), l).
Definition set_session {E} (s : WasmVaultSession) : M (Local WasmVaultSession) E unit :=
  fun l => (Ok tt, set_store s l).
Definition set_inner {E} (i : VaultSession) : M (Local WasmVaultSession) E unit :=
  s ← session; set_session (mkWasmSession i (ws_search_index s)).

(** ** The session *)

Definition is_unlocked (s : WasmVaultSession) : bool := Session.is_unlocked (ws_inner s).

(** [self.inner.active_key().map_err(..)?] *)
Definition active_key : M (Local WasmVaultSession) WasmError string :=
  s ← session;
  lift_result (result_map_err (fun e => WE_Crypto (core_text e)) (Session.active_key (ws_inner s))).
Definition require_unlocked : M (Local WasmVaultSession) WasmError unit :=
  s ← session; if is_unlocked s then mret tt else throw WE_VaultLocked.

Definition lock : Ses unit :=
  s ← session;
  set_session (mkWasmSession (Session.lock (ws_inner s)) (Index.clear (ws_search_index s))).
(** [impl Drop for WasmVaultSession] *)
Definition WasmVaultSession_drop : Ses unit := lock.
Definition set_idle_timeout (timeout_secs : option N) : Ses unit :=
  s ← session; set_inner (Session.set_idle_timeout timeout_secs (ws_inner s)).
Definition idle_timeout (s : WasmVaultSession) : option N := vs_idle_timeout_secs (ws_inner s).
Definition touch : Ses unit :=
  t ← epoch; s ← session; set_inner (Session.touch t (ws_inner s)).
Definition check_idle_timeout : Ses bool :=
  t ← epoch;
  s ← session;
  let '(expired, inner) := Session.check_idle_timeout t (ws_inner s) in
  _ ← set_session (mkWasmSession inner (if expired then Index.clear (ws_search_index s) else ws_search_index s));
  mret expired.

(** *** Notes *)

Definition encrypt_note_impl (note_id title body : string) (tags attachments : list string)
    : M (Local WasmVaultSession) WasmError string :=
  key ← active_key;
  t ← now;
  note ← lift_result (result_map_err (fun e => WE_InvalidPayload (NoteValidationError_display str_debug e))
           (NoteBuilder_build t (mkNoteBuilder None title body tags None None attachments)));
  envelope ← on_rng (fun e => WE_Crypto (core_text e)) (encrypt (canonicalize note) key note_id);
  lift_result (result_map_err WE_InvalidPayload (envelope_to_json envelope)).
Definition encrypt_note (note_id title body : string) (tags : list string) : Ses string :=
  to_js (encrypt_note_impl note_id title body tags []).
Definition encrypt_note_with_attachments (note_id title body : string) (tags attachments : list string) : Ses string :=
  to_js (encrypt_note_impl note_id title body tags attachments).

Definition wasm_note (id : string) (n : PlaintextNote) : WasmPlaintextNote :=
  mkWasmNote id (n_title n) (n_body n) (n_tags n) (n_attachments n) (n_created_at n) (n_updated_at n).

Definition WasmPlaintextNote_to_json (n : WasmPlaintextNote) : Result string string := wasm_note_to_json n.

Definition decrypt_note_impl (envelope_json : string) : M (Local WasmVaultSession) WasmError WasmPlaintextNote :=
  key ← active_key;
  envelope ← lift_result (result_map_err WE_InvalidEnvelope (envelope_from_json envelope_json));
  note ← lift_result (result_map_err (fun e => WE_Crypto ("decryption failed: " +:+ core_text e)) (decrypt envelope key));
  mret (wasm_note (env_object_id envelope) note).
Definition decrypt_note (envelope_json : string) : Ses WasmPlaintextNote := to_js (decrypt_note_impl envelope_json).

Definition index_note_impl (note_id title body : string) (tags : list string) (updated_at : string)
    : M (Local WasmVaultSession) WasmError unit :=
  _ ← require_unlocked;
  s ← session;
  set_session (mkWasmSession (ws_inner s) (Index.insert_raw note_id title tags body updated_at (ws_search_index s))).
Definition index_note (note_id title body : string) (tags : list string) (updated_at : string) : Ses unit :=
  to_js (index_note_impl note_id title body tags updated_at).
Definition remove_from_index (note_id : string) : Ses unit :=
  _ ← to_js require_unlocked;
  s ← session;
  set_session (mkWasmSession (ws_inner s) (Index.remove note_id (ws_search_index s))).

Definition search_impl (query : string) : M (Local WasmVaultSession) WasmError (list WasmSearchResult) :=
  _ ← require_unlocked;
  s ← session;
  mret ((fun m => mkWasmResult (sr_id m) (sr_score m) (sr_title m) (sr_snippet m)) <$> Index.search query (ws_search_index s)).
Definition search (query : string) : Ses (list WasmSearchResult) := to_js (search_impl query).

(** *** The passphrase *)

Definition crypto_text (e : CryptoError) : WasmError := WE_Crypto (CryptoError_display e).

Definition rewrap_passphrase_impl (new_passphrase : string) (params : KdfParams)
    : M (Local WasmVaultSession) WasmError WasmRewrapResult :=
  key ← active_key;
  new_kek ← lift_result (result_map_err crypto_text (derive_kek new_passphrase params));
  new_wrapped ← on_rng crypto_text (wrap_vault_key key new_kek);
  new_wrapped_json ← lift_result (result_map_err WE_InvalidPayload (wrapped_to_json new_wrapped));
  new_params_json ← lift_result (result_map_err WE_InvalidPayload (kdf_to_json params));
  mret (mkWasmRewrap new_wrapped_json new_params_json).
Definition rewrap_passphrase (new_passphrase : string) : Ses WasmRewrapResult :=
  params ← on_rng CryptoError_display new_production;
  to_js (rewrap_passphrase_impl new_passphrase params).
Definition rewrap_passphrase_with_params (new_passphrase kdf_params_json : string) : Ses WasmRewrapResult :=
  params ← of_json (kdf_from_json kdf_params_json);
  to_js (rewrap_passphrase_impl new_passphrase params).

(** *** Attachments *)

Definition attachment_key_of (attachment_key_base64 : string) : Result string string :=
  key_bytes ← js_err WE_Crypto id (b64_decode attachment_key_base64);
  js_err WE_Crypto CryptoError_display (key_from_bytes key_bytes).

Definition encrypt_attachment_manifest (manifest_json attachment_key_base64 : string) : Ses string :=
  key ← to_js active_key;
  manifest ← of_json (js_err WE_InvalidPayload id (manifest_from_json manifest_json));
  attachment_key ← of_json (attachment_key_of attachment_key_base64);
  envelope ← on_rng (fun e => WasmError_display (WE_Crypto (core_text e)))
               (Stream.encrypt_attachment_manifest manifest attachment_key key);
  of_json (js_err WE_InvalidPayload id (envelope_to_json envelope)).

Definition wasm_manifest (m : Manifest) : WasmAttachmentManifest :=
  mkWasmManifest (mf_attachment_id m) (mf_name m) (mf_mime m) (f64_of_u64 (mf_size m)) (mf_chunk_count m)
    (mf_chunk_size m) (mf_content_hash m).

Definition WasmAttachmentManifest_new (attachment_id name mime : string) (size : spec_float) (chunk_count chunk_size : N)
    (content_hash : option string) : WasmAttachmentManifest :=
  mkWasmManifest attachment_id name mime size chunk_count chunk_size content_hash.
Definition WasmAttachmentManifest_to_json (m : WasmAttachmentManifest) : Result string string := wasm_manifest_to_json m.

Definition decrypt_attachment_manifest (envelope_json : string) : Ses WasmDecryptedManifest :=
  key ← to_js active_key;
  envelope ← of_json (js_err WE_InvalidEnvelope id (envelope_from_json envelope_json));
  opened ← of_json (js_err WE_Crypto (fun e => "manifest decryption failed: " +:+ core_text e)
                      (Stream.decrypt_attachment_manifest envelope key));
  mret (mkWasmDecrypted (wasm_manifest opened.1) (b64_encode opened.2)).

Definition encrypt_attachment_chunk (chunk_bytes attachment_id : string) (chunk_index total_chunks : N)
    (attachment_key_base64 : string) : Ses string :=
  _ ← to_js require_unlocked;
  attachment_key ← of_json (attachment_key_of attachment_key_base64);
  encrypted ← on_rng (fun e => WasmError_display (crypto_text e))
                (Chunk.encrypt_chunk chunk_bytes attachment_key attachment_id chunk_index total_chunks);
  of_json (js_err WE_Crypto ChunkFormatError_display (Chunk.to_bytes encrypted)).

Definition decrypt_attachment_chunk (chunk_binary attachment_key_base64 : string) : Ses string :=
  _ ← to_js require_unlocked;
  attachment_key ← of_json (attachment_key_of attachment_key_base64);
  chunk ← of_json (js_err WE_InvalidPayload ChunkFormatError_display (Chunk.from_bytes chunk_binary));
  of_json (js_err WE_Crypto (fun e => "chunk decryption failed: " +:+ CryptoError_display e)
             (Chunk.decrypt_chunk chunk attachment_key)).

(** *** Conflicts *)

(** An envelope that may be missing or blank. *)
Definition optional_envelope (json : option string) : Result (option EncryptedEnvelope) string :=
  match json with
  | Some json => if bool_decide (str_trim json = "") then Ok None else e ← envelope_from_json json; Ok (Some e)
  | None => Ok None
  end.

Definition generate_merge_candidate (base_envelope_json : option string) (local_envelope_json remote_envelope_json : string)
    : Ses string :=
  _ ← to_js require_unlocked;
  key ← to_js active_key;
  base_envelope ← of_json (optional_envelope base_envelope_json);
  local_envelope ← of_json (envelope_from_json local_envelope_json);
  remote_envelope ← of_json (envelope_from_json remote_envelope_json);
  candidate ← map_err (fun e => "failed to generate merge candidate: " +:+ StorageError_display e)
                (Conflict.generate_merge_candidate base_envelope local_envelope remote_envelope key);
  of_json (envelope_to_json candidate.2).

(** The record of a refused mutation. *)
Definition conflict_of {S} (mutation : PendingMutation) (conflict : ConflictResponse)
    (base_envelope candidate_envelope : option EncryptedEnvelope) : Js S string :=
  conflict_id ← new_uuid;
  t ← now;
  let record := ConflictRecord_new conflict_id (mut_object_id mutation) (mut_object_kind mutation)
                  (mut_expected_revision mutation) (conf_current_revision conflict) base_envelope (mut_envelope mutation)
                  (conf_current_envelope conflict) candidate_envelope t in
  of_json (conflict_record_to_json
             (with_deletion_flags record (bool_decide (mut_mutation_type mutation = Delete)) (conf_is_deleted conflict))).

Definition record_conflict (mutation_json conflict_json : string) (base_envelope_json : option string) : Ses string :=
  mutation ← of_json (pending_from_json mutation_json);
  conflict ← of_json (conflict_response_from_json conflict_json);
  base_envelope ← of_json (optional_envelope base_envelope_json);
  s ← session;
  candidate_envelope ←
    (if bool_decide (mut_mutation_type mutation = Delete) || conf_is_deleted conflict || negb (is_unlocked s)
     then mret None
     else
       key ← to_js active_key;
       candidate ← map_err (fun e => WasmError_display (WE_Crypto ("failed to generate merge candidate: "
                                                                   +:+ StorageError_display e)))
                     (Conflict.generate_merge_candidate base_envelope (mut_envelope mutation)
                        (conf_current_envelope conflict) key);
       mret (Some candidate.2));
  conflict_of mutation conflict base_envelope candidate_envelope.

(** [build_conflict_record], without a session *)
Definition build_conflict_record {S} (mutation_json conflict_json : string) (base_envelope_json : option string) : Js S string :=
  mutation ← of_json (pending_from_json mutation_json);
  conflict ← of_json (conflict_response_from_json conflict_json);
  base_envelope ← of_json (optional_envelope base_envelope_json);
  conflict_of mutation conflict base_envelope None.

(** ** Creating and unlocking *)

Definition new_session {S E} (vault_key : string) : M (Local S) E WasmVaultSession :=
  t ← epoch; mret (mkWasmSession (Session.from_key vault_key t) []).

Definition init_vault_impl {S} (passphrase : string) (params : KdfParams) : Wasm S WasmVaultInitResult :=
  vault_key ← on_rng crypto_text (fill_random KEY_LEN);
  recovery_key ← on_rng crypto_text (fill_random KEY_LEN);
  kek ← lift_result (result_map_err crypto_text (derive_kek passphrase params));
  wrapped_vault ← on_rng crypto_text (wrap_vault_key vault_key kek);
  wrapped_recovery ← on_rng crypto_text (wrap_vault_key_recovery vault_key recovery_key);
  wrapped_vault_json ← lift_result (result_map_err WE_InvalidPayload (wrapped_to_json wrapped_vault));
  params_json ← lift_result (result_map_err WE_InvalidPayload (kdf_to_json params));
  wrapped_rec_json ← lift_result (result_map_err WE_InvalidPayload (wrapped_to_json wrapped_recovery));
  s ← new_session vault_key;
  mret (mkWasmInit wrapped_vault_json params_json wrapped_rec_json (format_recovery_key recovery_key) (Some s)).
Definition init_vault {S} (passphrase : string) : Js S WasmVaultInitResult :=
  params ← on_rng CryptoError_display new_production;
  to_js (init_vault_impl passphrase params).
Definition init_vault_with_params {S} (passphrase kdf_params_json : string) : Js S WasmVaultInitResult :=
  params ← of_json (kdf_from_json kdf_params_json);
  to_js (init_vault_impl passphrase params).

Definition take_session : M (Local WasmVaultInitResult) string WasmVaultSession :=
  fun l =>
    let r := l_store l in
    match wi_session r with
    | Some s => (Ok s, set_store (mkWasmInit (wi_wrapped_vault_key r) (wi_kdf_params_json r) (wi_wrapped_recovery_key r)
                                    (wi_recovery_phrase r) None) l)
    | None => (Err (WasmError_display WE_SessionAlreadyTaken), l)
    end.

Definition unlock_vault_impl {S} (passphrase wrapped_vault_key_json kdf_params_json : string) : Wasm S WasmVaultSession :=
  params ← lift_result (result_map_err WE_InvalidPayload (kdf_from_json kdf_params_json));
  wrapped_key ← lift_result (result_map_err WE_InvalidEnvelope (wrapped_from_json wrapped_vault_key_json));
  kek ← lift_result (result_map_err crypto_text (derive_kek passphrase params));
  vault_key ← lift_result (result_map_err (fun e => WE_Crypto ("unlock failed: " +:+ CryptoError_display e))
                             (unwrap_vault_key wrapped_key kek));
  new_session vault_key.
Definition unlock_vault {S} (passphrase wrapped_vault_key_json kdf_params_json : string) : Js S WasmVaultSession :=
  to_js (unlock_vault_impl passphrase wrapped_vault_key_json kdf_params_json).

Definition unlock_with_recovery_key_impl {S} (recovery_phrase wrapped_recovery_key_json : string)
    : Wasm S WasmVaultSession :=
  recovery_key ← lift_result (result_map_err (fun e => WE_Crypto ("invalid recovery phrase: " +:+ CryptoError_display e))
                                (parse_recovery_key recovery_phrase));
  wrapped_key ← lift_result (result_map_err WE_InvalidEnvelope (wrapped_from_json wrapped_recovery_key_json));
  vault_key ← lift_result (result_map_err (fun e => WE_Crypto ("recovery unlock failed: " +:+ CryptoError_display e))
                             (unwrap_vault_key_recovery wrapped_key recovery_key));
  new_session vault_key.
Definition unlock_with_recovery_key {S} (recovery_phrase wrapped_recovery_key_json : string) : Js S WasmVaultSession :=
  to_js (unlock_with_recovery_key_impl recovery_phrase wrapped_recovery_key_json).

(** ** Standalone functions *)

Definition crypto_js {S A} (r : Result A CryptoError) : Js S A := lift_result (result_map_err CryptoError_display r).
(** A key of 32 bytes in base64. *)
Definition key_of_base64 {S} (key_base64 : string) : Js S string :=
  bytes ← of_json (b64_decode key_base64); crypto_js (key_from_bytes bytes).

Definition wasm_derive_kek {S} (passphrase kdf_params_json : string) : Js S string :=
  params ← of_json (kdf_from_json kdf_params_json);
  kek ← crypto_js (derive_kek passphrase params);
  mret (b64_encode kek).

Definition wasm_wrap_key {S} (kek_base64 key_to_wrap_base64 : string) : Js S string :=
  kek ← key_of_base64 kek_base64;
  vault_key ← key_of_base64 key_to_wrap_base64;
  wrapped ← on_rng CryptoError_display (wrap_vault_key vault_key kek);
  of_json (wrapped_to_json wrapped).

Definition wasm_unwrap_key {S} (kek_base64 wrapped_json : string) : Js S string :=
  kek ← key_of_base64 kek_base64;
  wrapped ← of_json (wrapped_from_json wrapped_json);
  unwrapped ← lift_result (result_map_err (fun e => "unwrap failed: " +:+ CryptoError_display e) (unwrap_vault_key wrapped kek));
  mret (b64_encode unwrapped).

Definition wasm_encrypt_envelope {S} (vault_key_base64 object_id title body : string) (tags : list string) : Js S string :=
  vault_key ← key_of_base64 vault_key_base64;
  t ← now;
  let n := PlaintextNote_new t title body in
  let note := canonicalize (mkNote (n_schema_version n) (n_title n) (n_body n) tags (n_created_at n) (n_updated_at n)
                              (n_attachments n)) in
  envelope ← on_rng core_text (encrypt note vault_key object_id);
  of_json (envelope_to_json envelope).

Definition wasm_decrypt_envelope {S} (vault_key_base64 envelope_json : string) : Js S WasmPlaintextNote :=
  vault_key ← key_of_base64 vault_key_base64;
  envelope ← of_json (envelope_from_json envelope_json);
  note ← lift_result (result_map_err (fun e => "decrypt failed: " +:+ core_text e) (decrypt envelope vault_key));
  mret (wasm_note (env_object_id envelope) note).

Definition wasm_wrap_recovery {S} (vault_key_base64 recovery_phrase : string) : Js S string :=
  vault_key ← key_of_base64 vault_key_base64;
  recovery_key ← crypto_js (parse_recovery_key recovery_phrase);
  wrapped ← on_rng CryptoError_display (wrap_vault_key_recovery vault_key recovery_key);
  of_json (wrapped_to_json wrapped).

Definition wasm_unwrap_recovery {S} (recovery_phrase wrapped_recovery_key_json : string) : Js S string :=
  recovery_key ← crypto_js (parse_recovery_key recovery_phrase);
  wrapped ← of_json (wrapped_from_json wrapped_recovery_key_json);
  unwrapped ← lift_result (result_map_err (fun e => "recovery unwrap failed: " +:+ CryptoError_display e)
                             (unwrap_vault_key_recovery wrapped recovery_key));
  mret (b64_encode unwrapped).

Definition wasm_encrypt_raw {S} (vault_key_base64 object_id : string) (object_kind : N) (plaintext : string) : Js S string :=
  vault_key ← key_of_base64 vault_key_base64;
  envelope ← on_rng CryptoError_display (encrypt_envelope plaintext vault_key object_id object_kind);
  of_json (envelope_to_json envelope).

Definition wasm_decrypt_raw {S} (vault_key_base64 envelope_json : string) : Js S string :=
  vault_key ← key_of_base64 vault_key_base64;
  envelope ← of_json (envelope_from_json envelope_json);
  lift_result (result_map_err (fun e => "decrypt failed: " +:+ CryptoError_display e) (decrypt_envelope envelope vault_key)).

Definition wasm_generate_attachment_key {S} : Js S string :=
  key ← on_rng CryptoError_display (fill_random KEY_LEN); mret (b64_encode key).
Definition wasm_compute_content_hash (bytes : string) : string := Stream.compute_content_hash bytes.
(** [None] is the panic of a division by zero. *)
Definition wasm_calculate_chunk_count (size : spec_float) (chunk_size : N) : option N :=
  Stream.calculate_chunk_count (u64_of_f64 size) (N.to_nat chunk_size).

(** ** The sync state machine *)

(** The store is the wrapped machine; a method that fails leaves it as it is. *)
Abbreviation Mac A := (M SyncStateMachine string A).

Definition payload_err {A} (what : string) (r : Result A string) : Result A string :=
  js_err WE_InvalidPayload (fun e => what +:+ ": " +:+ e) r.

Definition WasmSyncStateMachine_new (initial_cursor : N) (pending_mutations_json : string) (options_json : option string)
    : Result SyncStateMachine string :=
  mutations ← payload_err "invalid pending mutations" (pendings_from_json pending_mutations_json);
  options ← (match options_json with
             | Some json => if bool_decide (str_trim json = "") then Ok SyncStateMachineOptions_default
                            else payload_err "invalid options" (machine_options_from_json json)
             | None => Ok SyncStateMachineOptions_default
             end);
  Ok (SyncStateMachine_new initial_cursor mutations options).

Definition machine_phase (sm : SyncStateMachine) : string :=
  trim_char DoubleQuote (match phase_to_json (sm_phase sm) with Ok s => s | Err _ => "" end).
Definition machine_cursor (sm : SyncStateMachine) : N := sm_current_cursor sm.

(** The new machine is kept even when its actions cannot be serialised. *)
Definition answer (f : SyncStateMachine -> list SyncAction * SyncStateMachine) : Mac string :=
  fun sm => (actions_to_json (f sm).1, (f sm).2).
Definition answer_or (f : SyncStateMachine -> Result (list SyncAction * SyncStateMachine) string) : Mac string :=
  fun sm => match f sm with Ok p => (actions_to_json p.1, p.2) | Err e => (Err e, sm) end.

Definition machine_start : Mac string := answer Machine.start.
Definition machine_handle_pull_response (clock : nat -> string) (response_json : string) : Mac string :=
  resp ← lift_result (payload_err "invalid pull response" (pull_response_from_json response_json));
  answer (Machine.handle_pull_response clock resp).
Definition machine_handle_push_success (clock : nat -> string) (mutation_id response_json : string) : Mac string :=
  resp ← lift_result (payload_err "invalid push response" (push_response_from_json response_json));
  answer_or (Machine.handle_push_success clock mutation_id resp).
Definition machine_handle_push_conflict (clock : nat -> string) (mutation_id conflict_record_json : string) : Mac string :=
  record ← lift_result (payload_err "invalid conflict record" (conflict_record_from_json conflict_record_json));
  answer_or (Machine.handle_push_conflict clock mutation_id record).
Definition machine_handle_push_transient_error (mutation_id : string) : Mac string :=
  answer_or (Machine.handle_push_transient_error mutation_id).
Definition machine_handle_push_fatal_error (mutation_id error_message : string) : Mac string :=
  answer_or (Machine.handle_push_fatal_error mutation_id error_message).
Definition machine_get_report (sm : SyncStateMachine) : Result string string := report_to_json (Machine.get_report sm).
End wasm.
