(* ===== verification/WasmFacts.v ===== *)
(** * What the browser's client promises

    A session that JavaScript holds gives nothing out once it is locked; a note
    that the browser encrypted is read natively and the other way round; and a
    vault that the browser created opens under each of its secrets, there and
    natively. *)

From stdpp Require Import options.
From S2P Require Import Prelude Text Time Protocol StorageModels Storage CoreErrors Env Crypto Note Vault VaultFacts Search Session Merge Conflict.
From S2P Require Import Queue StateMachine Adapter Attachment AttachmentStream Wasm.

(** ** What a script may call *)

Inductive js_call : Type :=
| JLock
| JTimeout (timeout_secs : option N)
| JTouch
| JCheck
| JEncrypt (note_id title body : string) (tags : list string)
| JEncryptWith (note_id title body : string) (tags attachments : list string)
| JDecrypt (envelope_json : string)
| JIndex (note_id title body : string) (tags : list string) (updated_at : string)
| JRemove (note_id : string)
| JSearch (query : string)
| JRewrap (new_passphrase : string)
| JRewrapWith (new_passphrase kdf_params_json : string)
| JSealManifest (manifest_json attachment_key_base64 : string)
| JOpenManifest (envelope_json : string)
| JSealChunk (chunk_bytes attachment_id : string) (chunk_index total_chunks : N) (attachment_key_base64 : string)
| JOpenChunk (chunk_binary attachment_key_base64 : string)
| JMerge (base_envelope_json : option string) (local_envelope_json remote_envelope_json : string)
| JRecord (mutation_json conflict_json : string) (base_envelope_json : option string).

(** The calls that do nothing without the key. *)
Definition needs_key (c : js_call) : bool :=
  match c with
  | JLock | JTimeout _ | JTouch | JCheck | JRecord _ _ _ => false
  | _ => true
  end.

Section session.
Context `{!Env} `{CryptoLib} `{NoteLib} `{SearchLib} `{KdfLib} `{ChunkLib} `{ManifestLib} `{WasmLib}.

Abbreviation State := (Local WasmVaultSession).
Implicit Types l : State.

(** Whether a call succeeded; its value is of no interest here. *)
Definition called {A} (m : M State string A) : M State string unit := _ ← m; mret tt.

Definition exec (c : js_call) : M State string unit :=
  match c with
  | JLock => called lock
  | JTimeout t => called (set_idle_timeout t)
  | JTouch => called touch
  | JCheck => called check_idle_timeout
  | JEncrypt i t b tags => called (encrypt_note i t b tags)
  | JEncryptWith i t b tags atts => called (encrypt_note_with_attachments i t b tags atts)
  | JDecrypt e => called (decrypt_note e)
  | JIndex i t b tags u => called (index_note i t b tags u)
  | JRemove i => called (remove_from_index i)
  | JSearch q => called (search q)
  | JRewrap p => called (rewrap_passphrase p)
  | JRewrapWith p k => called (rewrap_passphrase_with_params p k)
  | JSealManifest m k => called (Wasm.encrypt_attachment_manifest m k)
  | JOpenManifest e => called (Wasm.decrypt_attachment_manifest e)
  | JSealChunk b i n total k => called (encrypt_attachment_chunk b i n total k)
  | JOpenChunk b k => called (decrypt_attachment_chunk b k)
  | JMerge b lo re => called (Wasm.generate_merge_candidate b lo re)
  | JRecord m c b => called (Wasm.record_conflict m c b)
  end.

Definition run_calls (calls : list js_call) (l : State) : State := fold_left (fun l c => (exec c l).2) calls l.

(** A session as [unlock_vault] hands it out. *)
Definition fresh_session (key : string) (t : N) : WasmVaultSession := mkWasmSession (Session.from_key key t) [].

(** Nothing is left in memory: no key and no plaintext in either index. *)
Definition blank (s : WasmVaultSession) : Prop := session_empty (ws_inner s) /\ ws_search_index s = [].

Record browser_wf (s : WasmVaultSession) : Prop := {
  bw_inner : session_wf (ws_inner s);
  bw_unique : NoDup (index_ids (ws_search_index s));
  bw_locked : is_unlocked s = false -> ws_search_index s = []
}.

(** ** Which computations leave the session alone *)

Definition leaves {E A} (m : M State E A) : Prop := forall l, l_store (m l).2 = l_store l.

Lemma leaves_bind {E A B} (m : M State E A) (f : A -> M State E B) :
  leaves m -> (forall a, leaves (f a)) -> leaves (m ≫= f).
Proof using Type.
  intros Hm Hf l. unfold mbind, M_bind. specialize (Hm l). destruct (m l) as [[a|e] l']; [|done].
  by rewrite Hf.
Qed.
Lemma leaves_map_err {E E' A} (g : E -> E') (m : M State E A) : leaves m -> leaves (map_err g m).
Proof using Type. intros Hm l. unfold map_err. specialize (Hm l). by destruct (m l) as [[] ?]. Qed.
Lemma leaves_on_rng {E E' A} (g : E -> E') (m : M nat E A) : leaves (on_rng g m).
Proof using Type. apply leaves_map_err. intros l. unfold zoom. by destruct (m (l_rng l)). Qed.
Lemma leaves_ret {E A} (a : A) : leaves (E := E) (mret a).
Proof using Type. done. Qed.
Lemma leaves_throw {E A} (e : E) : leaves (A := A) (throw e).
Proof using Type. done. Qed.
Lemma leaves_lift {E A} (r : Result A E) : leaves (lift_result r).
Proof using Type. done. Qed.
Lemma leaves_ok_or {E A} (e : E) (o : option A) : leaves (ok_or e o).
Proof using Type. by destruct o. Qed.
Lemma leaves_now {E} : leaves (E := E) now.
Proof using Type. done. Qed.
Lemma leaves_uuid {E} : leaves (E := E) new_uuid.
Proof using Type. done. Qed.
Lemma leaves_epoch {E} : leaves (E := E) epoch.
Proof using Type. done. Qed.
Lemma leaves_session {E} : leaves (E := E) session.
Proof using Type. done. Qed.
End session.

Create HintDb browser.
#[export] Hint Resolve leaves_map_err leaves_on_rng leaves_ret leaves_throw leaves_lift leaves_ok_or
  leaves_now leaves_uuid leaves_epoch leaves_session : browser.

(** Walk through a computation. *)
Ltac leaves :=
  repeat first
    [ solve [eauto with browser]
    | apply leaves_bind; [|intros ?]
    | apply leaves_map_err
    | match goal with |- leaves (match ?x with _ => _ end) => destruct x end
    | match goal with |- leaves (let '(_, _) := ?x in _) => destruct x end ].

Section closed.
Context `{!Env} `{CryptoLib} `{NoteLib} `{SearchLib} `{KdfLib} `{ChunkLib} `{ManifestLib} `{WasmLib}.
Abbreviation State := (Local WasmVaultSession).
Implicit Types l : State.

Lemma leaves_active_key : leaves active_key.
Proof using Type. unfold active_key. leaves. Qed.
Lemma leaves_require : leaves require_unlocked.
Proof using Type. unfold require_unlocked. leaves. Qed.
Lemma leaves_candidate b lo re k : leaves (Conflict.generate_merge_candidate b lo re k).
Proof using Type. unfold Conflict.generate_merge_candidate. leaves. Qed.
Hint Resolve leaves_active_key leaves_require leaves_candidate : browser.

(** ** One call *)

(** The calls that change the session. *)
Definition changes (c : js_call) : bool :=
  match c with
  | JLock | JTimeout _ | JTouch | JCheck | JIndex _ _ _ _ _ | JRemove _ => true
  | _ => false
  end.

Lemma exec_leaves c : changes c = false -> leaves (exec c).
Proof using Type.
  destruct c; intros Hc; try discriminate Hc; cbn [exec]; unfold called; leaves;
    unfold encrypt_note, encrypt_note_with_attachments, encrypt_note_impl, decrypt_note, decrypt_note_impl, search, search_impl,
      rewrap_passphrase, rewrap_passphrase_with_params, rewrap_passphrase_impl, Wasm.encrypt_attachment_manifest,
      Wasm.decrypt_attachment_manifest, encrypt_attachment_chunk, decrypt_attachment_chunk, Wasm.generate_merge_candidate,
      Wasm.record_conflict, conflict_of, to_js, of_json; leaves.
Qed.

Lemma locked_key s : is_unlocked s = false -> vs_active_key (ws_inner s) = None.
Proof using Type.
  unfold is_unlocked, Session.is_unlocked. intros Hk%bool_decide_eq_false. by apply eq_None_not_Some.
Qed.

Lemma blank_locked s : blank s -> is_unlocked s = false.
Proof using Type. intros [[Hk _] _]. apply bool_decide_eq_false_2. rewrite Hk. by intros []. Qed.

Lemma wf_blank s : browser_wf s -> is_unlocked s = false -> blank s.
Proof using Type.
  intros [[Hi _ _] _ Hl] Hu. pose proof (locked_key s Hu) as Hk. split; [|by apply Hl].
  split; [done|]. apply eq_None_not_Some. rewrite Hi, Hk. by intros [].
Qed.

Lemma fresh_browser_wf key t : browser_wf (fresh_session key t).
Proof using Type. split; [by apply fresh_wf|constructor|done]. Qed.

(** The clock that the next call reads. *)
Definition reading {S} (l : Local S) : N := Z.to_N (system_time (l_clock l)).1.

(** What a call does to the session, at the time [now]. *)
Definition after (now : N) (c : js_call) (s : WasmVaultSession) : WasmVaultSession :=
  let inner := ws_inner s in
  match c with
  | JLock => mkWasmSession (Session.lock inner) []
  | JTimeout t => mkWasmSession (Session.set_idle_timeout t inner) (ws_search_index s)
  | JTouch => mkWasmSession (Session.touch now inner) (ws_search_index s)
  | JCheck => let p := Session.check_idle_timeout now inner in
              mkWasmSession p.2 (if p.1 then [] else ws_search_index s)
  | JIndex i t b tags u =>
      if is_unlocked s then mkWasmSession inner (Index.insert_raw i t tags b u (ws_search_index s)) else s
  | JRemove i => if is_unlocked s then mkWasmSession inner (Index.remove i (ws_search_index s)) else s
  | _ => s
  end.

Lemma exec_after c l : l_store (exec c l).2 = after (reading l) c (l_store l).
Proof using Type.
  destruct (changes c) eqn:Hc; [|rewrite (exec_leaves c Hc); by destruct c].
  destruct c; try discriminate Hc; cbn [exec after]; try done.
  - cbv [called check_idle_timeout epoch session set_session mbind M_bind mret M_ret]. cbn [l_store l_clock]. fold (reading l).
    by destruct (Session.check_idle_timeout (reading l) (ws_inner (l_store l))).
  - cbv [called index_note to_js map_err index_note_impl require_unlocked session set_session mbind M_bind mret M_ret throw].
    by destruct (is_unlocked (l_store l)).
  - cbv [called remove_from_index to_js map_err require_unlocked session set_session mbind M_bind mret M_ret throw].
    by destruct (is_unlocked (l_store l)).
Qed.

Lemma after_wf now c s : browser_wf s -> browser_wf (after now c s).
Proof using Type.
  intros Hs. pose proof Hs as [Hi Hu Hl]. destruct c; cbn [after]; try done.
  - split; [by apply lock_wf|constructor|done].
  - split; [by apply (session_step_wf _ (SoTimeout timeout_secs))|done|done].
  - split; [by apply (session_step_wf _ (SoTouch now))|done|done].
  - pose proof (session_step_wf _ (SoCheck now) Hi) as Hi'. cbn [session_step] in Hi'. split; cbn [ws_inner ws_search_index].
    + done.
    + destruct (_.1); [constructor|done].
    + unfold is_unlocked in Hl |- *. cbn [ws_inner]. unfold Session.check_idle_timeout.
      destruct (negb _); [done|]. destruct (vs_idle_timeout_secs (ws_inner s)); [|done]. by destruct (_ <=? _)%N.
  - destruct (is_unlocked s) eqn:Hk; [|done]. split; [done|by apply insert_raw_ok|]. cbn. unfold is_unlocked in *. cbn. congruence.
  - destruct (is_unlocked s) eqn:Hk; [|done]. split; [done|by apply remove_ids|]. cbn. unfold is_unlocked in *. cbn. congruence.
Qed.

Lemma after_blank now c s : blank s -> blank (after now c s).
Proof using Type.
  intros Hs. pose proof (blank_locked s Hs) as Hk. pose proof Hs as [[Hkey Hidx] Hi].
  destruct c; cbn [after]; rewrite ?Hk; try done.
  unfold is_unlocked in Hk. unfold Session.check_idle_timeout. by rewrite Hk.
Qed.

Lemma run_wf calls : forall l, browser_wf (l_store l) -> browser_wf (l_store (run_calls calls l)).
Proof using Type.
  induction calls as [|c calls IH]; intros l Hl; [done|]. cbn. apply IH. rewrite exec_after. by apply after_wf.
Qed.
Lemma run_blank calls : forall l, blank (l_store l) -> blank (l_store (run_calls calls l)).
Proof using Type.
  induction calls as [|c calls IH]; intros l Hl; [done|]. cbn. apply IH. rewrite exec_after. by apply after_blank.
Qed.

(** ** A locked session refuses *)

Definition shut {E A} (m : M State E A) : Prop :=
  forall l, is_unlocked (l_store l) = false -> exists e, (m l).1 = Err e.

Lemma shut_bind {E A B} (m : M State E A) (f : A -> M State E B) : shut m -> shut (m ≫= f).
Proof using Type.
  intros Hm l Hl. destruct (Hm l Hl) as [e He]. unfold mbind, M_bind. destruct (m l) as [[] ?]; cbn in *; [done|eauto].
Qed.
Lemma shut_after {E A B} (m : M State E A) (f : A -> M State E B) :
  leaves m -> (forall a, shut (f a)) -> shut (m ≫= f).
Proof using Type.
  intros Hm Hf l Hl. unfold mbind, M_bind. specialize (Hm l). destruct (m l) as [[a|e] l'] eqn:Hr; cbn in *; [|eauto].
  apply Hf. by rewrite Hm.
Qed.
Lemma shut_map_err {E E' A} (g : E -> E') (m : M State E A) : shut m -> shut (map_err g m).
Proof using Type.
  intros Hm l Hl. destruct (Hm l Hl) as [e He]. unfold map_err. destruct (m l) as [[] ?]; cbn in *; [done|eauto].
Qed.
Lemma shut_active_key : shut active_key.
Proof using Type.
  intros l Hl. unfold active_key, mbind, M_bind, session, lift_result, Session.active_key.
  rewrite (locked_key _ Hl). cbn. eauto.
Qed.
Lemma shut_require : shut require_unlocked.
Proof using Type. intros l Hl. unfold require_unlocked, mbind, M_bind, session. rewrite Hl. cbn. eauto. Qed.
Hint Resolve shut_active_key shut_require shut_map_err : browser.

Lemma exec_shut c : needs_key c = true -> shut (exec c).
Proof using Type.
  destruct c; intros Hc; try discriminate Hc; cbn [exec]; unfold called; apply shut_bind;
    unfold encrypt_note, encrypt_note_with_attachments, encrypt_note_impl, decrypt_note, decrypt_note_impl,
      index_note, index_note_impl, remove_from_index, search, search_impl,
      rewrap_passphrase, rewrap_passphrase_with_params, rewrap_passphrase_impl, Wasm.encrypt_attachment_manifest,
      Wasm.decrypt_attachment_manifest, encrypt_attachment_chunk, decrypt_attachment_chunk, Wasm.generate_merge_candidate, to_js, of_json;
    first [ solve [auto using shut_bind with browser] | apply shut_after; [leaves|intros ?]; auto using shut_bind with browser ].
Qed.

(** C30. A session of the browser fails closed.  Whatever calls a script makes on a session that
    it got, with whatever arguments: there is at most one entry per note in the
    search index, and when the session is locked, it holds no key and no
    plaintext, it stays so whatever is called, and every call that needs the key
    is refused.  It is locked after [lock], and after [check_idle_timeout] when
    the idle time is over. *)
Theorem browser_session_fails_closed key t l0 calls :
  l_store l0 = fresh_session key t ->
  let l := run_calls calls l0 in
  let s := l_store l in
  browser_wf s
  /\ (is_unlocked s = false -> forall rest, blank (l_store (run_calls rest l))
        /\ forall c, needs_key c = true -> exists e, (exec c (run_calls rest l)).1 = Err e)
  /\ is_unlocked (l_store (exec JLock l).2) = false
  /\ forall timeout, vs_idle_timeout_secs (ws_inner s) = Some timeout ->
       (timeout <= reading l - vs_last_active_secs (ws_inner s))%N ->
       is_unlocked (l_store (exec JCheck l).2) = false.
Proof using Type.
  intros Hl0 l s. assert (browser_wf s) as Hs by (apply run_wf; rewrite Hl0; apply fresh_browser_wf).
  split_and!; [done| |by rewrite exec_after|].
  - intros Hlocked rest. assert (blank (l_store (run_calls rest l))) as Hb by (by apply run_blank, wf_blank).
    split; [done|]. intros c Hc. by apply (exec_shut c Hc), blank_locked.
  - intros timeout Ht Hover. rewrite exec_after. fold s. unfold is_unlocked. cbn [after ws_inner].
    unfold Session.check_idle_timeout. destruct (Session.is_unlocked (ws_inner s)) eqn:Hk; [|done]. cbn [negb].
    by rewrite Ht, (proj2 (N.leb_le _ _) Hover).
Qed.
End closed.

(** ** Notes *)

Section notes.
Context `{!Env} `{CryptoLib} `{NoteLib} `{SearchLib} `{KdfLib} `{WasmLib} `{CLaws : !CryptoLaws} `{NLaws : !NoteLaws} `{WLaws : !WasmLaws}.
Implicit Types l : Local WasmVaultSession.

Lemma active_key_run l key : vs_active_key (ws_inner (l_store l)) = Some key -> active_key l = (Ok key, l).
Proof using Type.
  intros Hk. unfold active_key, mbind, M_bind, session, lift_result, Session.active_key. by rewrite Hk.
Qed.

Lemma key_of_base64_run {S} (l : Local S) key : String.length key = KEY_LEN -> key_of_base64 (b64_encode key) l = (Ok key, l).
Proof using CLaws.
  intros Hk. unfold key_of_base64, of_json, crypto_js, mbind, M_bind, lift_result. rewrite b64_roundtrip.
  unfold key_from_bytes. by rewrite Hk.
Qed.

Lemma decrypt_note_run l key json env n :
  vs_active_key (ws_inner (l_store l)) = Some key ->
  envelope_from_json json = Ok env -> decrypt env key = Ok n -> decrypt_note json l = (Ok (wasm_note (env_object_id env) n), l).
Proof using Type.
  intros Hk Hj Hd. unfold decrypt_note, to_js, map_err, decrypt_note_impl. rewrite (run_bind_ok _ _ _ _ _ (active_key_run l key Hk)).
  unfold mbind, M_bind, lift_result. rewrite Hj. cbn [result_map_err]. by rewrite Hd.
Qed.

Lemma wasm_decrypt_envelope_run {S} (l : Local S) key json env n :
  String.length key = KEY_LEN ->
  envelope_from_json json = Ok env -> decrypt env key = Ok n ->
  wasm_decrypt_envelope (b64_encode key) json l = (Ok (wasm_note (env_object_id env) n), l).
Proof using CLaws.
  intros Hk Hj Hd. unfold wasm_decrypt_envelope. rewrite (run_bind_ok _ _ _ _ _ (key_of_base64_run l key Hk)).
  unfold of_json, mbind, M_bind, lift_result. rewrite Hj, Hd. done.
Qed.

Lemma encrypt_note_run l key id title body tags attachments note s :
  vs_active_key (ws_inner (l_store l)) = Some key -> String.length key = KEY_LEN ->
  NoteBuilder_build (now_utc_rfc3339 (system_time (l_clock l))) (mkNoteBuilder None title body tags None None attachments) = Ok note ->
  let n := canonicalize (canonicalize note) in
  validate n = Ok tt -> note_to_json n = Ok s -> (str_len s <= AEAD_MAX_LEN)%N ->
  exists json env l', encrypt_note_with_attachments id title body tags attachments l = (Ok json, l')
    /\ l_store l' = l_store l /\ envelope_from_json json = Ok env /\ env_object_id env = id /\ decrypt env key = Ok n.
Proof using CLaws NLaws WLaws.
  intros Hk Hlen Hb n Hv Hs Hmax.
  destruct (encrypt_run (canonicalize note) key id (l_rng l) s) as (env & Henc & Hid & Hdec); [done..|].
  destruct (envelope_json_total env) as [json Hjson].
  exists json, env, (mkLocal (l_store l) (l_uuids l) (1 + l_clock l) (3 + l_rng l)).
  split_and!; [|done|by apply envelope_json_roundtrip|done|done].
  unfold encrypt_note_with_attachments, to_js, map_err, encrypt_note_impl.
  rewrite (run_bind_ok _ _ _ _ _ (active_key_run l key Hk)). unfold now. unfold mbind at 1, M_bind at 1.
  unfold mbind at 1, M_bind at 1, lift_result at 1. rewrite Hb. cbn [result_map_err].
  unfold mbind at 1, M_bind at 1, on_rng, map_err, zoom. cbn [l_rng set_rng]. rewrite Henc.
  unfold lift_result. by rewrite Hjson.
Qed.

(** C35. The browser and the native clients read each other's notes.  With the vault
    key in the session: a note that passes the checks is encrypted by the
    browser into JSON that a native client reads as an envelope of that object
    and decrypts to the canonical note; the browser reads it back, in the session
    and with the exported key, as that note.  A note that a native client
    encrypted is read by the browser as its canonical form.  Whatever the browser
    reads is what a native client reads from the same envelope. *)
Theorem browser_native_interop l key :
  vs_active_key (ws_inner (l_store l)) = Some key -> String.length key = KEY_LEN ->
  (forall id title body tags attachments note s,
     NoteBuilder_build (now_utc_rfc3339 (system_time (l_clock l))) (mkNoteBuilder None title body tags None None attachments)
       = Ok note ->
     let n := canonicalize (canonicalize note) in
     validate n = Ok tt -> note_to_json n = Ok s -> (str_len s <= AEAD_MAX_LEN)%N ->
     exists json env l', encrypt_note_with_attachments id title body tags attachments l = (Ok json, l')
       /\ envelope_from_json json = Ok env /\ env_object_id env = id /\ decrypt env key = Ok n
       /\ decrypt_note json l' = (Ok (wasm_note id n), l')
       /\ wasm_decrypt_envelope (b64_encode key) json l' = (Ok (wasm_note id n), l'))
  /\ (forall n oid i env j, encrypt n key oid i = (Ok env, j) ->
        exists json, envelope_to_json env = Ok json /\ decrypt_note json l = (Ok (wasm_note oid (canonicalize n)), l))
  /\ (forall json w l', decrypt_note json l = (Ok w, l') ->
        exists env n, envelope_from_json json = Ok env /\ decrypt env key = Ok n /\ w = wasm_note (env_object_id env) n).
Proof using CLaws NLaws WLaws.
  intros Hk Hlen. split_and!.
  - intros id title body tags attachments note s Hb n Hv Hs Hmax.
    destruct (encrypt_note_run l key id title body tags attachments note s) as (json & env & l' & Hrun & Hst & Hj & <- & Hd); [done..|].
    exists json, env, l'. split_and!; [done..| |by apply wasm_decrypt_envelope_run].
    apply (decrypt_note_run _ key); [by rewrite Hst|done..].
  - intros n oid i env j Henc. destruct (encrypt_decrypt _ _ _ _ _ _ Henc) as [Hd <-].
    destruct (envelope_json_total env) as [json Hj]. exists json. split; [done|].
    by apply (decrypt_note_run _ key); [|apply envelope_json_roundtrip|].
  - intros json w l' Hrun. unfold decrypt_note, to_js in Hrun. apply map_err_ok_inv in Hrun.
    unfold decrypt_note_impl in Hrun. rewrite (run_bind_ok _ _ _ _ _ (active_key_run l key Hk)) in Hrun.
    unfold mbind, M_bind, lift_result in Hrun.
    destruct (envelope_from_json json) as [env|] eqn:Hj; [|done]. cbn [result_map_err] in Hrun.
    destruct (decrypt env key) as [n|] eqn:Hd; [|done]. cbn in Hrun. injection Hrun as <- _. eauto.
Qed.
End notes.

(** ** Vaults *)

Section vaults.
Context `{!Env} `{CryptoLib} `{NoteLib} `{KdfLib} `{WasmLib} `{CLaws : !CryptoLaws} `{KLaws : !KdfLaws} `{WLaws : !WasmLaws}.

Lemma production_usable i : exists p, new_production i = (Ok p, S i) /\ kdf_usable p.
Proof using CLaws.
  eexists. split; [done|]. split; cbn; try done. exists (random_bytes i SALT_LEN). rewrite random_bytes_length.
  split; [apply b64_roundtrip|unfold SALT_LEN; lia].
Qed.

(** [init_vault] is [init_vault_with_params] at parameters it draws. *)
Lemma init_vault_chooses {S} pass (l : Local S) :
  exists p json, kdf_from_json json = Ok p /\ kdf_usable p
    /\ init_vault pass l = init_vault_with_params pass json (set_rng (1 + l_rng l) l).
Proof using CLaws WLaws.
  destruct (production_usable (l_rng l)) as (p & Hp & Hu). destruct (kdf_json_total p) as [json Hj].
  pose proof (kdf_json_roundtrip p json Hj) as Hj'. exists p, json. split_and!; [done..|].
  unfold init_vault, init_vault_with_params, on_rng, of_json, map_err, zoom, lift_result.
  unfold mbind at 1, M_bind at 1. rewrite Hp. unfold mbind at 1, M_bind at 1. by rewrite Hj'.
Qed.

(** The call gives a session with the key [vk], wherever it is made. *)
Definition unlocks (m : forall S, M (Local S) string WasmVaultSession) (vk : string) : Prop :=
  forall S (l : Local S), exists l', m S l = (Ok (fresh_session vk (reading l)), l').

Lemma unlock_vault_run pass p w kek vk wj pj :
  String.length vk = KEY_LEN -> derive_kek pass p = Ok kek -> unwrap_key_bytes w kek = Ok vk ->
  kdf_from_json pj = Ok p -> wrapped_from_json wj = Ok w ->
  unlocks (fun S => Wasm.unlock_vault (S := S) pass wj pj) vk.
Proof using Type.
  intros Hvk Hd Hu Hp Hw S l. eexists. unfold Wasm.unlock_vault, to_js, map_err, unlock_vault_impl, mbind, M_bind, lift_result.
  rewrite Hp, Hw. cbn [result_map_err]. rewrite Hd. cbn [result_map_err]. by rewrite (unwrap_key _ _ _ Hvk Hu).
Qed.

Lemma unlock_recovery_run phrase rk w vk wj :
  String.length vk = KEY_LEN -> parse_recovery_key phrase = Ok rk -> unwrap_key_bytes w rk = Ok vk -> wrapped_from_json wj = Ok w ->
  unlocks (fun S => Wasm.unlock_with_recovery_key (S := S) phrase wj) vk.
Proof using Type.
  intros Hvk Hp Hu Hw S l. eexists.
  unfold Wasm.unlock_with_recovery_key, to_js, map_err, unlock_with_recovery_key_impl, mbind, M_bind, lift_result.
  rewrite Hp, Hw. cbn [result_map_err]. unfold unwrap_vault_key_recovery. fold (unwrap_vault_key w rk). by rewrite (unwrap_key _ _ _ Hvk Hu).
Qed.

Lemma wrap_on_rng {S E} (conv : CryptoError -> E) key wk w (l : Local S) j :
  wrap_key_bytes key wk (l_rng l) = (Ok w, j) -> on_rng conv (wrap_key_bytes key wk) l = (Ok w, set_rng j l).
Proof using Type. intros Hw. unfold on_rng, map_err, zoom. by rewrite Hw. Qed.

Lemma rewrap_run new json p vk (l : Local WasmVaultSession) :
  kdf_from_json json = Ok p -> kdf_usable p -> typable new -> String.length vk = KEY_LEN ->
  vs_active_key (ws_inner (l_store l)) = Some vk ->
  exists w l', rewrap_passphrase_with_params new json l = (Ok w, l') /\ l_store l' = l_store l
    /\ unlocks (fun S => Wasm.unlock_vault (S := S) new (ww_new_wrapped_vault_key w) (ww_new_kdf_params_json w)) vk.
Proof using CLaws KLaws WLaws.
  intros Hj Hp Hnew Hvk Hk. destruct (derive_kek_run new p Hp Hnew) as (kek & Hd & Hkek).
  destruct (wrap_run vk kek (l_rng l) Hvk Hkek) as (w & Hw & Hu & _).
  destruct (wrapped_json_total w) as [wj Hwj], (kdf_json_total p) as [pj Hpj].
  exists (mkWasmRewrap wj pj), (set_rng (S (l_rng l)) l). split_and!; [|done|].
  - unfold rewrap_passphrase_with_params, of_json, lift_result. unfold mbind at 1, M_bind at 1. rewrite Hj.
    unfold to_js, map_err at 1, rewrap_passphrase_impl. rewrite (run_bind_ok _ _ _ _ _ (active_key_run l vk Hk)).
    unfold mbind at 1, M_bind at 1, lift_result at 1. rewrite Hd. cbn [result_map_err].
    rewrite (run_bind_ok _ _ _ _ _ (wrap_on_rng _ _ _ _ _ _ Hw)).
    unfold mbind, M_bind, lift_result. by rewrite Hwj, Hpj.
  - eapply unlock_vault_run; [done|exact Hd|exact Hu|by apply kdf_json_roundtrip|by apply wrapped_json_roundtrip].
Qed.

Lemma init_vault_run {S} (l : Local S) pass json p kek w w' wj rj pj :
  let vk := random_bytes (l_rng l) KEY_LEN in let rk := random_bytes (1 + l_rng l) KEY_LEN in
  kdf_from_json json = Ok p -> derive_kek pass p = Ok kek ->
  wrap_key_bytes vk kek (2 + l_rng l) = (Ok w, 3 + l_rng l) ->
  wrap_key_bytes vk rk (3 + l_rng l) = (Ok w', 4 + l_rng l) ->
  wrapped_to_json w = Ok wj -> wrapped_to_json w' = Ok rj -> kdf_to_json p = Ok pj ->
  init_vault_with_params pass json l
  = (Ok (mkWasmInit wj pj rj (format_recovery_key rk) (Some (fresh_session vk (reading l)))),
     mkLocal (l_store l) (l_uuids l) (1 + l_clock l) (4 + l_rng l)).
Proof using Type.
  intros vk rk Hj Hd Hw Hw' Hwj Hrj Hpj.
  unfold init_vault_with_params, of_json, lift_result. unfold mbind at 1, M_bind at 1. rewrite Hj.
  unfold to_js, map_err at 1, init_vault_impl, fill_random.
  do 2 (unfold mbind at 1, M_bind at 1, on_rng at 1, map_err at 1, zoom at 1; cbn [l_rng set_rng]).
  fold vk. change (random_bytes (Datatypes.S (l_rng l)) KEY_LEN) with rk.
  unfold mbind at 1, M_bind at 1, lift_result at 1. rewrite Hd. cbn [result_map_err].
  unfold wrap_vault_key, wrap_vault_key_recovery.
  erewrite run_bind_ok by (apply wrap_on_rng; exact Hw). erewrite run_bind_ok by (apply wrap_on_rng; exact Hw').
  unfold mbind, M_bind, lift_result. by rewrite Hwj, Hpj, Hrj.
Qed.

(** What a client stores of a new vault, read as a bootstrap. *)
Definition reads_as (r : WasmVaultInitResult) (b : VaultBootstrap) : Prop :=
  wrapped_from_json (wi_wrapped_vault_key r) = Ok (wrapped_vault_key b)
  /\ kdf_from_json (wi_kdf_params_json r) = Ok (kdf b)
  /\ wrapped_from_json (wi_wrapped_recovery_key r) = Ok (recovery_wrapped_vault_key b).

(** C36. A vault made in the browser opens everywhere.  With parameters in bounds, and so
    with those that [init_vault] chooses, creating a vault succeeds.  What it
    returns reads as a bootstrap that native clients accept and open, by the
    passphrase and by the recovery phrase, to the key of the returned session;
    so does the browser.  Wrapping the key under a new passphrase, in any session
    that holds it, gives a wrapper that the new passphrase opens to that key. *)
Theorem browser_vault_roundtrip {S} (l : Local S) pass json p :
  kdf_from_json json = Ok p -> kdf_usable p -> typable pass ->
  (exists p' json', kdf_from_json json' = Ok p' /\ kdf_usable p'
     /\ init_vault pass l = init_vault_with_params pass json' (set_rng (1 + l_rng l) l))
  /\ exists r l' b vk s,
       init_vault_with_params pass json l = (Ok r, l') /\ reads_as r b /\ validate_bootstrap b = Ok tt
       /\ wi_session r = Some s /\ vs_active_key (ws_inner s) = Some vk
       /\ unlock_with_passphrase b pass = Ok vk /\ Vault.unlock_with_recovery_key b (wi_recovery_phrase r) = Ok vk
       /\ unlocks (fun S => Wasm.unlock_vault (S := S) pass (wi_wrapped_vault_key r) (wi_kdf_params_json r)) vk
       /\ unlocks (fun S => Wasm.unlock_with_recovery_key (S := S) (wi_recovery_phrase r) (wi_wrapped_recovery_key r)) vk
       /\ forall new json' p' (x : Local WasmVaultSession),
            kdf_from_json json' = Ok p' -> kdf_usable p' -> typable new -> vs_active_key (ws_inner (l_store x)) = Some vk ->
            exists w x', rewrap_passphrase_with_params new json' x = (Ok w, x')
              /\ unlocks (fun S => Wasm.unlock_vault (S := S) new (ww_new_wrapped_vault_key w) (ww_new_kdf_params_json w)) vk.
Proof using CLaws KLaws WLaws.
  intros Hj Hp Hpass. split; [apply init_vault_chooses|].
  destruct (derive_kek_run pass p Hp Hpass) as (kek & Hd & Hkek).
  set (vk := random_bytes (l_rng l) KEY_LEN). set (rk := random_bytes (1 + l_rng l) KEY_LEN).
  assert (String.length vk = KEY_LEN) as Hvk by apply random_bytes_length.
  assert (String.length rk = KEY_LEN) as Hrk by apply random_bytes_length.
  destruct (wrap_run vk kek (2 + l_rng l)) as (w & Hw & Hu & Hv); [done..|].
  destruct (wrap_run vk rk (3 + l_rng l)) as (w' & Hw' & Hu' & Hv'); [done..|].
  destruct (wrapped_json_total w) as [wj Hwj], (wrapped_json_total w') as [rj Hrj], (kdf_json_total p) as [pj Hpj].
  assert (parse_recovery_key (format_recovery_key rk) = Ok rk) as Hphrase by (by apply parse_spelled, spells_format).
  eexists (mkWasmInit wj pj rj (format_recovery_key rk) (Some (fresh_session vk (reading l)))), _,
    (mkVaultBootstrap PROTOCOL_VERSION_V1 p w w'), vk, _. split_and!; [| | |done|done|..].
  - by eapply init_vault_run.
  - by split_and!; [apply wrapped_json_roundtrip|apply kdf_json_roundtrip|apply wrapped_json_roundtrip].
  - by apply validate_usable.
  - by eapply unlock_passphrase_wrapped.
  - unfold Vault.unlock_with_recovery_key. cbn [wi_recovery_phrase]. rewrite Hphrase. cbn.
    unfold unwrap_vault_key_recovery. fold (unwrap_vault_key w' rk). by rewrite (unwrap_key _ _ _ Hvk Hu').
  - eapply unlock_vault_run; [done|exact Hd|exact Hu|by apply kdf_json_roundtrip|by apply wrapped_json_roundtrip].
  - eapply unlock_recovery_run; [done|exact Hphrase|exact Hu'|by apply wrapped_json_roundtrip].
  - intros new json' p' x Hj' Hp' Hnew Hx. destruct (rewrap_run new json' p' vk x) as (w0 & x' & Hrun & _ & Hun); [done..|].
    eauto.
Qed.
End vaults.
