(* ===== verification/CliAuth.v ===== *)
(** * The account of the client ([apps/cli/src/auth.rs], [client/auth.rs], [ssh.rs])

    The saved server session, the calls of the authentication endpoints, the
    checks of a server URL, signing in by a token or by an SSH agent, and signing
    out.  The client's disk is that of [Files.v]; everything outside the process,
    servers and agent, is a state [Net] with the classes [Internet] and
    [SshAgent]. *)

From stdpp Require Import options.
From stdpp Require Import gmap.
From S2P Require Import Prelude Sorting Text Time Protocol ServerDb ServerAuth WebAuthn Json HttpAdapter Adapter.
From S2P Require Import StorageModels Storage CoreErrors Env Queue Crypto Note Vault Search Files CliSession VaultFiles CliNotes.

(** ** Wire records *)

(** [SessionResponse], as it is read from JSON. *)
Record SessionResponse : Type := mkSessionResponse {
  sp_token : string;
  sp_session_id : string;
  sp_account_id : string;
  sp_device_id : option string;
  sp_expires_at : option string
}.

Record SessionStatusResponse : Type := mkSessionStatusResponse {
  ssr_account_id : string;
  ssr_session_id : option string;
  ssr_device_id : option string;
  ssr_status : string
}.

(** [DeviceInfo], as it is read from JSON. *)
Record DeviceInfo : Type := mkDeviceInfo {
  dl_device_id : string;
  dl_account_id : string;
  dl_display_name : option string;
  dl_created_at : string;
  dl_last_seen : option string;
  dl_last_ack_server_seq : Z;
  dl_revoked_at : option string;
  dl_is_revoked : bool
}.

Record RevokeDeviceResponse : Type := mkRevokeDeviceResponse {
  rdr_device_id : string;
  rdr_revoked : bool;
  rdr_message : string
}.

#[export] Instance StoredAuthSession_eq_dec : EqDecision StoredAuthSession.
Proof. solve_decision. Defined.

Definition ERROR_AUTH_REQUIRED : string := "AUTH_REQUIRED".
Definition ERROR_AUTH_FORBIDDEN : string := "AUTH_FORBIDDEN".
Definition ERROR_AUTH_EXPIRED : string := "AUTH_EXPIRED".
Definition ERROR_AUTH_REVOKED : string := "AUTH_REVOKED".
Definition ERROR_DEVICE_REVOKED : string := "DEVICE_REVOKED".
Definition ERROR_RATE_LIMITED : string := "RATE_LIMITED".
Definition ERROR_OBJECT_NOT_FOUND : string := "OBJECT_NOT_FOUND".
Definition ERROR_SERVER_FAILURE : string := "SERVER_FAILURE".

(** ** Library code *)

(** What the code reads of a parsed [reqwest::Url]. *)
Record Url : Type := mkUrl {
  url_scheme : string;
  url_username : string;
  url_password : option string;
  url_query : option string;
  url_fragment : option string;
  url_path : string;
  url_host_str : option string;
  url_origin_ascii : string
}.

(** The network: a request to the server at a base URL. *)
Class Internet (Net : Type) : Type := {
  send_to : string -> Request -> M Net string WireResponse
}.

Class AuthClientLib : Type := {
  url_parse : string -> Result Url string;
  (** [parse::<IpAddr>()] and [is_loopback()] *)
  ip_is_loopback : string -> option bool;
  (** [Client::builder()..build()] with a connect and a request timeout in milliseconds *)
  http_client_build : N -> N -> Result unit string;
  (** [Client::builder().build()] *)
  http_client_default : Result unit string;
  (** the [Display] of a [StatusCode] *)
  status_display : N -> string;
  (** the text of a request whose headers are not valid *)
  builder_error : string;
  (** serde_json *)
  auth_session_to_string : StoredAuthSession -> Result string string;
  auth_session_from_slice : string -> Result StoredAuthSession string;
  device_identity_to_string : string -> Result string string;
  device_identity_from_slice : string -> Result string string;
  device_auth_response_from_slice : string -> Result SessionResponse string;
  session_status_from_slice : string -> Result SessionStatusResponse string;
  device_list_from_slice : string -> Result (list DeviceInfo) string;
  revoke_device_from_slice : string -> Result RevokeDeviceResponse string
}.

(** ** Checks and texts *)

Definition is_safe_error_code (code : string) : bool :=
  negb (bool_decide (code = "")) && (String.length code <=? 32)%nat
  && str_forallb (fun c => in_range 65 90 c || is_ascii_digit c || bool_decide (c = "_"%char)) code.

(** [str::replace] of a pattern that is not empty; [skip] bytes of it have been
    taken already. *)
Fixpoint replace_from (skip : nat) (pat by_ s : string) : string :=
  match s with
  | EmptyString => ""
  | String c rest =>
      match skip with
      | S skip => replace_from skip pat by_ rest
      | O =>
          if str_starts_with pat s then by_ +:+ replace_from (String.length pat - 1) pat by_ rest
          else String c (replace_from 0 pat by_ rest)
      end
  end.
Definition str_replace (pat by_ s : string) : string := replace_from 0 pat by_ s.

(** [val.get("code").and_then(as_str)] *)
Definition code_of_value (v : Value) : option string :=
  match v with
  | VObject m =>
      match find_first (fun kv => bool_decide (kv.1 = "code")) m with
      | Some (_, VString s) => Some s
      | _ => None
      end
  | _ => None
  end.

Definition clean_server_url (server : string) : string := trim_end_char "/" (str_trim server).

(** The patterns of the [match] on the code, which compare the texts as they are. *)
Definition code_in (codes : list string) (code : string) : bool := bool_decide (code ∈ codes).

Section texts.
Context `{HttpClientLib} `{AuthClientLib}.

Definition error_of_code (status : N) (code : string) : CliError :=
  if code_in [ERROR_DEVICE_REVOKED; ERROR_AUTH_REVOKED] code then SessionRevoked
  else if code_in [ERROR_AUTH_EXPIRED] code then SessionExpired
  else if code_in [ERROR_AUTH_REQUIRED; "AUTH_INVALID"; "INVALID_TOKEN"; "INVALID_CREDENTIALS"; "UNAUTHORIZED"] code
  then AuthError "Authentication failed: invalid token or credentials"
  else if code_in [ERROR_AUTH_FORBIDDEN; "FORBIDDEN"; "ACCESS_DENIED"] code
  then AuthError "Access denied by server"
  else if code_in [ERROR_RATE_LIMITED; "TOO_MANY_REQUESTS"] code
  then AuthError "Rate limit exceeded. Please try again later."
  else if code_in [ERROR_OBJECT_NOT_FOUND; "NOT_FOUND"; "DEVICE_NOT_FOUND"; "SESSION_NOT_FOUND"] code
  then AuthError "Requested authentication resource not found"
  else if code_in [ERROR_SERVER_FAILURE; "INTERNAL_ERROR"; "SERVER_ERROR"] code
  then AuthError ("Server error (HTTP " +:+ status_display status +:+ ")")
  else AuthError ("Authentication request rejected: " +:+ code +:+ " (HTTP " +:+ status_display status +:+ ")").

Definition parse_safe_auth_error (status : N) (body_bytes : string) : CliError :=
  let parsed_code := v ← ok (any_json_from_slice body_bytes); code_of_value v in
  match parsed_code with
  | Some c =>
      if is_safe_error_code c then error_of_code status c
      else AuthError ("Server returned HTTP " +:+ status_display status)
  | None => AuthError ("Server returned HTTP " +:+ status_display status)
  end.

Definition parse_safe_auth_error_with_redaction (status : N) (body_bytes : string)
    (sensitive_secret : option string) : CliError :=
  let err := parse_safe_auth_error status body_bytes in
  match sensitive_secret with
  | Some secret =>
      if bool_decide (secret = "") then err
      else match err with
           | AuthError msg => AuthError (str_replace secret "[REDACTED]" msg)
           | _ => err
           end
  | None => err
  end.

(** *** The server URL *)

Definition is_loopback_host (url : Url) : bool :=
  match url_host_str url with
  | Some host_str =>
      if bool_decide (to_ascii_lowercase host_str = "localhost") then true
      else
        let bare_host := trim_end_char "]" (trim_start_char "[" host_str) in
        default false (ip_is_loopback bare_host)
  | None => false
  end.

Definition with_scheme (trimmed : string) : string :=
  if str_contains "://" trimmed then trimmed
  else
    let is_local := str_starts_with "localhost" trimmed || str_starts_with "127." trimmed
                    || str_starts_with "[::1]" trimmed || str_starts_with "::1" trimmed in
    if is_local then "http://" +:+ trimmed else "https://" +:+ trimmed.

Definition validate_and_normalize_server_url (raw : string) : Result string CliError :=
  let trimmed := str_trim raw in
  if bool_decide (trimmed = "") then Err (AuthError "Server URL cannot be empty")
  else
    parsed ← result_map_err (fun e => AuthError ("Invalid server URL '" +:+ trimmed +:+ "': " +:+ e))
               (url_parse (with_scheme trimmed));
    let scheme := url_scheme parsed in
    if negb (bool_decide (scheme = "http")) && negb (bool_decide (scheme = "https")) then
      Err (AuthError ("Unsupported server URL scheme '" +:+ scheme +:+ "'. Only HTTP and HTTPS are supported."))
    else if negb (bool_decide (url_username parsed = "")) || bool_decide (is_Some (url_password parsed)) then
      Err (AuthError "Server URL must not contain credentials (username or password).")
    else if bool_decide (is_Some (url_query parsed)) then
      Err (AuthError "Server URL must not contain query parameters.")
    else if bool_decide (is_Some (url_fragment parsed)) then
      Err (AuthError "Server URL must not contain URL fragments.")
    else if negb (bool_decide (url_path parsed = "")) && negb (bool_decide (url_path parsed = "/")) then
      Err (AuthError "Server URL must be an origin without a path component.")
    else if negb (bool_decide (is_Some (url_host_str parsed))) then
      Err (AuthError "Server URL must specify a valid host.")
    else if bool_decide (scheme = "http") && negb (is_loopback_host parsed) then
      Err (AuthError "HTTPS is required for remote servers. Insecure HTTP is only permitted for local loopback development (localhost, 127.0.0.1, [::1]).")
    else if bool_decide (url_origin_ascii parsed = "null") then
      Err (AuthError "Server URL produced an opaque origin.")
    else Ok (url_origin_ascii parsed).
End texts.

(** ** The saved session *)

Section saved.
Context {DB : Type} `{!Env} `{CliLib DB} `{AuthClientLib}.
Abbreviation Cli A := (M (Local (Files.World DB)) CliError A).

(** [config::device_file] *)
Definition device_file (dir : path) : path := dir ++ ["device.json"].

(** [std::fs::write] *)
Definition fs_write (p : path) (c : content DB) : Cli unit :=
  _ ← io (fs_create p); io (fs_write_all p c).

(** The identifier in the device file, if it can be read. *)
Definition saved_device_id (dev_path : path) : Cli (option string) :=
  present ← exists_path dev_path;
  if negb present then mret None
  else
    bytes ← attempt (read_bytes cli_of_io dev_path);
    mret (bytes ← ok bytes; ok (device_identity_from_slice bytes)).

Definition get_or_create_device_id (dir : path) (explicit_id : option string) : Cli string :=
  match explicit_id with
  | Some id => mret id
  | None =>
      saved ← saved_device_id (device_file dir);
      match saved with
      | Some id => mret id
      | None =>
          new_id ← new_uuid;
          _ ← (match device_identity_to_string new_id with
               | Ok json => ignore (fs_write (device_file dir) (Bytes json))
               | Err _ => mret tt
               end);
          mret new_id
      end
  end.

Definition auth_tmp_name (id : string) : string := ".auth_session-" +:+ id +:+ ".tmp".

Definition save_auth_session (p : path) (session : StoredAuthSession) : Cli unit :=
  json ← lift_result (result_map_err (fun _ => Io "Failed to serialize auth session")
                        (auth_session_to_string session));
  id ← new_uuid;
  let temporary := parent_of p ++ [auth_tmp_name id] in
  result ← attempt
    (_ ← io_as (fun _ => Io "Failed to create restricted auth session file") (fs_create_new temporary);
     _ ← io_as (fun _ => Io "Failed to write auth session") (fs_write_all temporary (Bytes json));
     _ ← io_as (fun _ => Io "Failed to flush auth session") (fs_sync temporary);
     io_as (fun _ => Io "Failed to replace auth session") (fs_rename temporary p));
  _ ← (if is_ok result then mret tt else ignore (io (fs_remove_file temporary)));
  lift_result result.

(** [exists()] and [symlink_metadata()] agree on a disk without symbolic links. *)
Definition has_auth_session (p : path) : Cli bool := exists_path p.

Definition load_auth_session (p : path) : Cli StoredAuthSession :=
  present ← exists_path p;
  if negb present then throw NotLoggedIn
  else
    bytes ← read_bytes (fun e => Io ("failed to read auth session file " +:+ path_display p +:+ ": "
                                    +:+ IoError_display e)) p;
    lift_result (result_map_err (fun e => CorruptedSession ("invalid auth session JSON: " +:+ e))
                   (auth_session_from_slice bytes)).

(** [symlink_metadata]: whether it is a file, and its length. *)
Definition fs_metadata (p : path) : M (Files.World DB) IoError (bool * nat) :=
  plain (fun d => (match files d !! p with
                   | Some c => Ok (true, String.length (bytes_of c))
                   | None => if bool_decide (p ∈ dirs d) then Ok (false, 0) else Err IoNotFound
                   end, d)).

Definition auth_text (before after : string) (p : path) (e : IoError) : CliError :=
  Io ("failed to " +:+ before +:+ " auth session file " +:+ path_display p +:+ after +:+ ": " +:+ IoError_display e).

Definition overwrite (p : path) (is_file : bool) (len : nat) : Cli unit :=
  if is_file && (0 <? len)%nat then
    _ ← io_as (auth_text "open" " for zeroization" p) (fs_open_write p);
    io_as (auth_text "overwrite" " with zeroes" p) (fs_write_all p (Bytes (zeroes len)))
  else mret tt.

(** [file.flush()] of a [File] has nothing to do. *)
Definition clear_auth_session (p : path) : Cli unit :=
  metadata ← io_result (fs_metadata p);
  match metadata with
  | Ok (is_file, len) =>
      _ ← overwrite p is_file len;
      _ ← io_as (auth_text "remove" "" p) (fs_remove_file p);
      still ← exists_path p;
      if (still : bool)
      then throw (Io ("auth session file " +:+ path_display p +:+ " still exists after removal attempt"))
      else mret tt
  | Err IoNotFound => mret tt
  | Err e => throw (auth_text "inspect" "" p e)
  end.

(** [fs::create_dir_all] *)
Fixpoint prefixes (p : path) : list path :=
  match p with [] => [[]] | x :: p => [] :: (cons x <$> prefixes p) end.
Definition fs_create_dir_all (p : path) : M (Files.World DB) IoError unit :=
  plain (fun d =>
    if existsb (fun q => bool_decide (is_Some (files d !! q))) (prefixes p) then (Err IoAlreadyExists, d)
    else (Ok tt, mkDisk (files d) (list_to_set (prefixes p) ∪ dirs d))).

(** *** The timeouts of the requests *)

Definition DEFAULT_AUTH_TIMEOUT : N := 5000.
Definition DEFAULT_AUTH_CONNECT_TIMEOUT : N := 3000.

Definition millis_var (name : string) (default_ms : N) : N :=
  match env_var name with
  | Some ms_str => match parse_uint u64_max ms_str with Ok ms => ms | Err _ => default_ms end
  | None => default_ms
  end.
Definition resolve_auth_timeout : N := millis_var "ZK_AUTH_TIMEOUT_MS" DEFAULT_AUTH_TIMEOUT.
Definition resolve_auth_connect_timeout : N :=
  millis_var "ZK_AUTH_CONNECT_TIMEOUT_MS" DEFAULT_AUTH_CONNECT_TIMEOUT.

Definition auth_http_client : Result unit CliError :=
  result_map_err (fun e => Network ("failed to initialize HTTP client: " +:+ e))
    (http_client_build resolve_auth_connect_timeout resolve_auth_timeout).
End saved.

(** ** The authentication endpoints *)

(** [serde] of the request bodies *)
Definition optional_value (o : option string) : Value :=
  match o with Some s => VString s | None => VNull end.
Definition device_auth_request_value (r : DeviceAuthRequest) : Value :=
  VObject [("account_id", VString (da_account_id r)); ("device_id", VString (da_device_id r));
           ("device_name", optional_value (da_device_name r))].
Definition revoke_session_value (session_id : option string) : Value :=
  VObject [("session_id", optional_value session_id)].

Section api.
Context {Net DB : Type} `{Internet Net} `{!Env} `{CliLib DB} `{HttpClientLib} `{AuthClientLib}.
Abbreviation Cli A := (M (Local (Files.World DB)) CliError A).
Abbreviation Out A := (M (Adapter.World Net (Files.World DB)) CliError A).

(** The client's own work, and a request. *)
Definition here {A} (m : Cli A) : Out A := on_local id m.
Definition request_to (base : string) (text : string -> CliError) (req : Request) : Out WireResponse :=
  map_err text (zoom w_net set_net (send_to base req)).

Definition unreachable (clean_url : string) (e : string) : CliError :=
  Network ("failed to connect to server at " +:+ clean_url +:+ ": " +:+ e).

(** A request to [base]/[suffix] with an [Authorization] header. *)
Definition bearer_request (base : string) (method : Method) (suffix token : string) (body : option Value) : Request :=
  let target := url_target (base +:+ suffix) in
  mkRequest method target.1 target.2
    (("authorization", Some ("Bearer " +:+ token))
     :: match body with Some _ => [("content-type", Some "application/json")] | None => [] end)
    (match body with Some v => json_to_vec v | None => "" end).

(** [HeaderValue::from_str(&auth_header)?] and [send] *)
Definition call_with_token (clean_url token : string) (method : Method) (suffix : string) (body : option Value)
    : Out WireResponse :=
  _ ← lift_result (auth_http_client (DB := DB));
  if negb (header_value_ok ("Bearer " +:+ token)) then throw (AuthError "invalid token string")
  else request_to clean_url (unreachable clean_url) (bearer_request clean_url method suffix token body).

(** The body of a success, or the error of a refusal. *)
Definition answer_of {A} (what secret : string) (from_slice : string -> Result A string) (resp : WireResponse)
    : Result A CliError :=
  body_bytes ← result_map_err (fun e => Network ("failed to read response body: " +:+ e)) (wr_bytes resp);
  if negb (is_success_status (wr_status resp))
  then Err (parse_safe_auth_error_with_redaction (wr_status resp) body_bytes (Some secret))
  else result_map_err (fun e => CorruptedSession ("invalid " +:+ what +:+ " response: " +:+ e)) (from_slice body_bytes).

(** [bearer_auth] reports a token that is not a header value when it sends. *)
Definition api_device_authorize (server_url authorizing_token account_id device_id : string)
    (device_name : option string) : Out StoredAuthSession :=
  let clean_url := clean_server_url server_url in
  let body := device_auth_request_value (mkDeviceAuthRequest account_id device_id device_name) in
  _ ← lift_result (auth_http_client (DB := DB));
  resp ← (if header_value_ok ("Bearer " +:+ authorizing_token)
          then request_to clean_url (unreachable clean_url)
                 (bearer_request clean_url POST "/v1/auth/device/authorize" authorizing_token (Some body))
          else throw (unreachable clean_url builder_error));
  session ← lift_result (answer_of "device authorization" authorizing_token device_auth_response_from_slice resp);
  mret (mkStoredAuthSession clean_url (sp_account_id session) (default device_id (sp_device_id session))
          (Some (sp_session_id session)) (sp_token session) (sp_expires_at session)).

Definition api_verify_token (server_url token device_id : string) : Out StoredAuthSession :=
  let clean_url := clean_server_url server_url in
  resp ← call_with_token clean_url token GET "/v1/auth/session/status" None;
  status_resp ← lift_result (answer_of "session status" token session_status_from_slice resp);
  mret (mkStoredAuthSession clean_url (ssr_account_id status_resp) (default device_id (ssr_device_id status_resp))
          (ssr_session_id status_resp) token None).

(** The answers that end a session: it is gone from the server. *)
Definition session_ended (status : N) : bool :=
  is_success_status status || (status =? 401)%N || (status =? 404)%N.

Definition api_revoke_session (session : StoredAuthSession) : Out unit :=
  let clean_url := clean_server_url (as_server_url session) in
  resp ← call_with_token clean_url (as_token session) POST "/v1/auth/session/revoke"
           (Some (revoke_session_value (as_session_id session)));
  if session_ended (wr_status resp) then mret tt
  else throw (parse_safe_auth_error_with_redaction (wr_status resp)
                (match wr_bytes resp with Ok b => b | Err _ => "" end) (Some (as_token session))).

Definition api_query_status (session : StoredAuthSession) : Out SessionStatusResponse :=
  let clean_url := clean_server_url (as_server_url session) in
  resp ← call_with_token clean_url (as_token session) GET "/v1/auth/session/status" None;
  lift_result (answer_of "session status" (as_token session) session_status_from_slice resp).

Definition api_list_devices (session : StoredAuthSession) : Out (list DeviceInfo) :=
  let clean_url := clean_server_url (as_server_url session) in
  resp ← call_with_token clean_url (as_token session) GET "/v1/devices" None;
  lift_result (answer_of "device list" (as_token session) device_list_from_slice resp).

Definition api_revoke_device (session : StoredAuthSession) (device_id : string) : Out RevokeDeviceResponse :=
  let clean_url := clean_server_url (as_server_url session) in
  resp ← call_with_token clean_url (as_token session) DELETE ("/v1/devices/" +:+ device_id) None;
  lift_result (answer_of "revoke device" (as_token session) revoke_device_from_slice resp).

(** ** [client/auth.rs] *)

Definition get_local_auth_state (dir : path) : Cli ClientAuthState :=
  let auth_path := auth_session_file dir in
  present ← has_auth_session auth_path;
  if negb present then mret LocalOnly
  else
    s ← load_auth_session auth_path;
    mret (Unverified (as_server_url s) (as_account_id s) (as_device_id s) (as_session_id s) (as_expires_at s)).

Definition revoked_state (s : StoredAuthSession) : ClientAuthState :=
  Revoked (as_server_url s) (as_account_id s) (as_device_id s) (as_session_id s).
Definition expired_state (s : StoredAuthSession) : ClientAuthState :=
  Expired (as_server_url s) (as_account_id s) (as_device_id s) (as_session_id s).

(** The state an answer of the server stands for. *)
Definition state_of_status (debug : string -> string) (s : StoredAuthSession)
    (r : Result SessionStatusResponse CliError) : ClientAuthState :=
  match r with
  | Ok status =>
      if bool_decide (ssr_status status = "active") then
        Authenticated (as_server_url s) (ssr_account_id status) (default (as_device_id s) (ssr_device_id status))
          (match ssr_session_id status with Some i => Some i | None => as_session_id s end) (as_expires_at s)
      else if bool_decide (ssr_status status = "revoked") then revoked_state s
      else if bool_decide (ssr_status status = "expired") then expired_state s
      else AuthStateError (as_server_url s) ("unrecognized session status '" +:+ ssr_status status +:+ "'")
  | Err SessionRevoked => revoked_state s
  | Err SessionExpired => expired_state s
  | Err (Network msg) => Offline (as_server_url s) (as_account_id s) (as_device_id s) (as_session_id s) msg
  | Err e => AuthStateError (as_server_url s) (CliError_display debug e)
  end.

Definition check_auth_state_online (debug : string -> string) (dir : path) : Out ClientAuthState :=
  let auth_path := auth_session_file dir in
  present ← here (has_auth_session auth_path);
  if negb present then mret LocalOnly
  else
    session ← here (load_auth_session auth_path);
    status_res ← attempt (api_query_status session);
    mret (state_of_status debug session status_res).

Definition authorize_terminal_device (dir : path) (server_url_raw authorizing_token : string)
    (account_id_opt device_name_opt device_id_opt : option string) : Out StoredAuthSession :=
  clean_url ← lift_result (validate_and_normalize_server_url server_url_raw);
  let token_trimmed := str_trim authorizing_token in
  if bool_decide (token_trimmed = "")
  then throw (AuthError "An existing session token is required to authorize this device.")
  else
    _ ← here (io (fs_create_dir_all dir));
    device_id ← here (get_or_create_device_id dir device_id_opt);
    verified ← api_verify_token clean_url token_trimmed device_id;
    if match account_id_opt with Some expected => negb (bool_decide (expected = as_account_id verified)) | None => false end
    then throw (AuthError "Session token does not authorize the requested account ID")
    else
      auth_session ← api_device_authorize clean_url token_trimmed (as_account_id verified) device_id device_name_opt;
      _ ← here (save_auth_session (auth_session_file dir) auth_session);
      mret auth_session.

(** The check both ways out end with. *)
Definition verify_absent (when : string) (auth_path : path) : Cli unit :=
  still ← has_auth_session auth_path;
  if (still : bool)
  then throw (Io ("auth session file " +:+ path_display auth_path +:+ " still exists after " +:+ when))
  else mret tt.

Definition sign_out (dir : path) : Out unit :=
  let auth_path := auth_session_file dir in
  present ← here (has_auth_session auth_path);
  if negb present then mret tt
  else
    session ← here (load_auth_session auth_path);
    _ ← api_revoke_session session;
    _ ← here (clear_auth_session auth_path);
    here (verify_absent "sign-out cleanup" auth_path).

Definition force_clear_session (dir : path) : Cli unit :=
  let auth_path := auth_session_file dir in
  _ ← clear_auth_session auth_path;
  verify_absent "force cleanup" auth_path.
End api.

(** ** Signing in with an SSH agent ([ssh.rs]) *)

(** What an agent offers: keys, or certificates that are not used. *)
Inductive Identity `{AuthLib} : Type :=
| Id_PublicKey (k : PublicKey)
| Id_Certificate.

(** The agent behind a socket, and what the [ssh_key] crate says of a key. *)
Class SshAgent (Net : Type) `{AuthLib} : Type := {
  agent_connect : string -> M Net unit unit;
  agent_identities : M Net unit (list Identity);
  (** the signature in its binary form *)
  agent_sign : PublicKey -> string -> M Net unit string;
  key_comment : PublicKey -> string;
  same_key_data : PublicKey -> PublicKey -> bool;
  ssh_challenge_from_slice : string -> Result SshChallenge string;
  session_response_from_slice : string -> Result SessionResponse string
}.

Definition ssh_start_value (r : SshStartRequest) : Value :=
  VObject [("version", VNumber (sr_version r)); ("fingerprint", VString (sr_fingerprint r));
           ("audience", VString (sr_audience r)); ("account_id", optional_value (sr_account_id r));
           ("device_id", VString (sr_device_id r))].
Definition ssh_challenge_value (c : SshChallenge) : Value :=
  VObject [("request", ssh_start_value (sch_request c)); ("challenge_id", VString (sch_challenge_id c));
           ("nonce", VString (sch_nonce c)); ("expires_at", VNumber (sch_expires_at c))].
Definition ssh_finish_value (r : SshFinishRequest) : Value :=
  VObject [("challenge", ssh_challenge_value (sf_challenge r)); ("signature", VString (sf_signature r))].

Definition auth_error : CliError := AuthError "SSH authentication failed".
Definition agent_error : CliError :=
  AuthError "SSH agent unavailable or refused signing; load an Ed25519 key with ssh-add".

(** [Vec::dedup_by]: each element is compared with the last one kept. *)
Fixpoint dedup_after {A} (same : A -> A -> bool) (last : A) (l : list A) : list A :=
  match l with
  | [] => []
  | x :: l => if same x last then dedup_after same last l else x :: dedup_after same x l
  end.
Definition dedup_by {A} (same : A -> A -> bool) (l : list A) : list A :=
  match l with [] => [] | x :: l => x :: dedup_after same x l end.

Section ssh.
Context {Net DB : Type} `{Internet Net} `{SshAgent Net} `{!Env} `{CliLib DB} `{HttpClientLib} `{AuthClientLib}.
Abbreviation Cli A := (M (Local (Files.World DB)) CliError A).
Abbreviation Out A := (M (Adapter.World Net (Files.World DB)) CliError A).

(** A call of the agent. *)
Definition with_agent {A} (m : M Net unit A) : Out A := map_err (fun _ => agent_error) (zoom w_net set_net m).

Definition connect_agent (socket : string) : Out unit := with_agent (agent_connect socket).

Definition ed25519_key (i : Identity) : option PublicKey :=
  match i with
  | Id_PublicKey k => if key_is_ed25519 k then Some k else None
  | Id_Certificate => None
  end.

Definition available_keys : Out (list PublicKey) :=
  identities ← with_agent agent_identities;
  let keys := sort_by (fun a b => String.compare (key_fingerprint a) (key_fingerprint b)) (omap ed25519_key identities) in
  mret (dedup_by same_key_data keys).

Definition select_key (selector : option string) : Out PublicKey :=
  keys ← available_keys;
  let keys := match selector with
              | Some fingerprint => List.filter (fun k => bool_decide (key_fingerprint k = fingerprint)) keys
              | None => keys
              end in
  match keys with
  | [] => throw (AuthError "No supported matching ssh-ed25519 agent identity; load a key with ssh-add")
  | [key] => mret key
  | _ => throw (AuthError "Multiple SSH agent identities; choose --identity SHA256:... or select a key in the Account modal")
  end.

(** The comment without control characters, at most 80 characters of it. *)
Definition shown_comment (comment : string) : string :=
  of_chars (take 80 (List.filter (fun c => negb (is_control c)) (chars comment))).

Definition discover_identities : Out (list AgentIdentity) :=
  match env_var "SSH_AUTH_SOCK" with
  | None => throw agent_error
  | Some socket =>
      _ ← connect_agent socket;
      keys ← available_keys;
      if bool_decide (length keys = 0)
      then throw (AuthError "No supported ssh-ed25519 agent identity; load a key with ssh-add")
      else mret ((fun k => mkAgentIdentity (key_fingerprint k) (shown_comment (key_comment k))) <$> keys)
  end.

(** The checks of a challenge at the time [now]. *)
Definition challenge_ok (challenge : SshChallenge) (request : SshStartRequest) (now : N) : bool :=
  (String.length (sch_nonce challenge) =? 43)%nat
  && match base64url_decode (sch_nonce challenge) with
     | Some nonce =>
         bool_decide (sch_request challenge = request)
         && negb (uuid_is_nil (sch_challenge_id challenge))
         && (String.length nonce =? 32)%nat
         && (now <? sch_expires_at challenge)%N
         && (sch_expires_at challenge <=? u64_add now 180)%N
     | None => false
     end.
Definition validate_challenge (challenge : SshChallenge) (request : SshStartRequest) : Cli unit :=
  now ← now_secs;
  if challenge_ok challenge request now then mret tt else throw auth_error.

(** [bounded_json]: at most 8192 bytes of a body. *)
Definition bounded_json {A} (from_slice : string -> Result A string) (resp : WireResponse) : Result A CliError :=
  bytes ← result_map_err (fun _ => auth_error) (wr_bytes resp);
  if (8192 <? String.length bytes)%nat then Err auth_error
  else result_map_err (fun _ => auth_error) (from_slice bytes).

(** [client.post(..).json(&body).send()], and a success status. *)
Definition ssh_post (server_url suffix : string) (body : Value) : Out WireResponse :=
  let target := url_target (server_url +:+ suffix) in
  response ← request_to server_url (fun _ => auth_error)
    (mkRequest POST target.1 target.2 [("content-type", Some "application/json")] (json_to_vec body));
  if is_success_status (wr_status response) then mret response else throw auth_error.

(** Connecting again, and the signature in base64url. *)
Definition signature_of (socket : string) (key : PublicKey) (bytes : string) : Out string :=
  _ ← connect_agent socket;
  sig ← with_agent (agent_sign key bytes);
  mret (base64url_encode sig).

Definition start_request (server_url : string) (key : PublicKey) (account : option string) (device_id : string)
    : SshStartRequest :=
  mkSshStartRequest SSH_AUTH_VERSION (key_fingerprint key) server_url account device_id.

(** The session that is stored, when it is for this device and account. *)
Definition accept_session (server_url : string) (account : option string) (device_id : string)
    (session : SessionResponse) : Result StoredAuthSession CliError :=
  if negb (bool_decide (sp_device_id session = Some device_id))
     || match account with Some a => negb (bool_decide (a = sp_account_id session)) | None => false end
     || bool_decide (sp_token session = "")
  then Err auth_error
  else Ok (mkStoredAuthSession server_url (sp_account_id session) device_id (Some (sp_session_id session))
             (sp_token session) (sp_expires_at session)).

Definition login_with_agent (dir : path) (server : string) (account device selector : option string)
    (agent_path : string) : Out StoredAuthSession :=
  server_url ← lift_result (validate_and_normalize_server_url server);
  _ ← here (io (fs_create_dir_all dir));
  device_id ← here (get_or_create_device_id dir device);
  _ ← connect_agent agent_path;
  key ← select_key selector;
  let request := start_request server_url key account device_id in
  _ ← lift_result (auth_http_client (DB := DB));
  response ← ssh_post server_url "/v1/auth/ssh/start" (ssh_start_value request);
  challenge ← lift_result (bounded_json ssh_challenge_from_slice response);
  _ ← here (validate_challenge challenge request);
  bytes ← ok_or auth_error (signing_bytes challenge);
  signature ← signature_of agent_path key bytes;
  response ← ssh_post server_url "/v1/auth/ssh/finish" (ssh_finish_value (mkSshFinishRequest challenge signature));
  session ← lift_result (bounded_json session_response_from_slice response);
  stored ← lift_result (accept_session server_url account device_id session);
  _ ← here (save_auth_session (auth_session_file dir) stored);
  mret stored.

Definition login (dir : path) (server : string) (account device selector : option string) : Out StoredAuthSession :=
  match env_var "SSH_AUTH_SOCK" with
  | None => throw agent_error
  | Some agent_path => login_with_agent dir server account device selector agent_path
  end.
End ssh.
