(* ===== verification/CliAuthFacts.v ===== *)
(** * Facts of the client's account services

    Signing in replaces the saved session completely or not at all; signing out
    removes it only after the server has ended it; and the SSH agent is asked to
    sign only challenges that name the server the user asked for.  The services
    are proved over any network, any agent and a file system in which any call
    may fail. *)

From stdpp Require Import options.
From stdpp Require Import gmap.
From S2P Require Import Prelude Text Time Protocol ServerDb ServerAuth ServerAuthLogin Json HttpAdapter Adapter.
From S2P Require Import StorageModels Storage CoreErrors Env Queue Crypto Note Vault Search Files CliSession VaultFiles CliNotes CliAuth.

(** ** Computations that keep a property *)

Definition keeps {S E A} (P : S -> Prop) (m : M S E A) : Prop := forall s, P s -> wp m (fun _ s' => P s') s.

Create HintDb keeps.

Section keeps.
Context {S E : Type} (P : S -> Prop).

Lemma keeps_ret {A} (a : A) : keeps (E := E) P (mret a).
Proof. by intros s. Qed.
Lemma keeps_throw {A} (e : E) : keeps (A := A) P (throw e).
Proof. by intros s. Qed.
Lemma keeps_lift {A} (r : Result A E) : keeps P (lift_result r).
Proof. by intros s. Qed.
Lemma keeps_option {A} (e : E) (o : option A) : keeps P (ok_or e o).
Proof. by destruct o; intros s. Qed.
Lemma keeps_then {A B} (m : M S E A) (f : A -> M S E B) : keeps P m -> (forall a, keeps P (f a)) -> keeps P (m ≫= f).
Proof.
  intros Hm Hf s Hs. apply wp_bind. eapply wp_mono; [by apply Hm|]. intros [a|e] s' Hs'; [by apply Hf|done].
Qed.
Lemma keeps_attempt {E' A} (m : M S E A) : keeps P m -> keeps P (attempt (E' := E') m).
Proof. intros Hm s Hs. apply wp_attempt. eapply wp_mono; [by apply Hm|done]. Qed.
Lemma keeps_ignore {E' A} (m : M S E A) : keeps P m -> keeps P (ignore (E' := E') m).
Proof. intros Hm s Hs. apply wp_ignore. eapply wp_mono; [by apply Hm|done]. Qed.
Lemma keeps_map_err {E' A} (g : E -> E') (m : M S E A) : keeps P m -> keeps P (map_err g m).
Proof. intros Hm s Hs. apply wp_map_err. eapply wp_mono; [by apply Hm|done]. Qed.
Lemma keeps_if {A} (b : bool) (m m' : M S E A) : keeps P m -> keeps P m' -> keeps P (if b then m else m').
Proof. by destruct b. Qed.

(** The first step of a computation, when it keeps the property. *)
Lemma wp_keep {A B} (m : M S E A) (f : A -> M S E B) Q s :
  keeps P m -> P s -> (forall e s', P s' -> Q (Err e) s') -> (forall a s', P s' -> wp (f a) Q s') -> wp (m ≫= f) Q s.
Proof.
  intros Hm Hs He Hf. apply wp_bind. eapply wp_mono; [by apply Hm|]. intros [a|e] s' Hs'; [by apply Hf|by apply He].
Qed.
End keeps.

#[export] Hint Resolve keeps_ret keeps_throw keeps_lift keeps_option keeps_then keeps_attempt keeps_ignore keeps_map_err
  keeps_if : keeps.

(** Run the steps that keep [P]; what they return is introduced. *)
Ltac keep_step P := apply (wp_keep P); [solve [eauto with keeps]|done|done|intros ? ? ?].
Ltac keep_steps P := repeat keep_step P.

(** ** The disk *)

Section disk.
Context {DB : Type} `{!Env} `{CliLib DB} `{HttpClientLib} `{AuthClientLib}.
Implicit Types (d : Disk DB) (l : Local (Files.World DB)) (p : path) (v : option (content DB)).

(** Every disk of the process satisfies [I]. *)
Definition disks (I : Disk DB -> Prop) l : Prop := Kept I (l_store l).

Definition Held p v d : Prop := files d !! p = v.

Lemma keeps_call (I : Disk DB -> Prop) {A} (text : IoError -> CliError) broken (ok : Disk DB -> Result A IoError * Disk DB) :
  (forall partial d, I d -> I (broken partial d)) -> (forall d, I d -> I (ok d).2) ->
  keeps (disks I) (io_as text (Files.call broken ok)).
Proof.
  intros Hb Hok l Hl. assert (I (l_disk l)) by (by inversion Hl).
  apply (wp_io_call _ _ _ I); [done|auto|auto|done|done].
Qed.

Lemma keeps_plain (I : Disk DB -> Prop) {A} (text : IoError -> CliError) (ok : Disk DB -> Result A IoError * Disk DB) :
  (forall d, I d -> I (ok d).2) -> keeps (disks I) (io_as text (plain ok)).
Proof. intros Hok. by apply keeps_call. Qed.

Lemma keeps_exists (I : Disk DB -> Prop) p : keeps (disks I) (exists_path p).
Proof. intros l Hl. by apply wp_exists. Qed.

Lemma keeps_uuid (I : Disk DB -> Prop) : keeps (disks I) (new_uuid (E := CliError)).
Proof. by intros l. Qed.
Lemma keeps_now_secs (I : Disk DB -> Prop) : keeps (disks I) now_secs.
Proof. by intros l. Qed.

Lemma keeps_read (I : Disk DB -> Prop) text p : keeps (disks I) (read_bytes text p).
Proof. apply keeps_then; [by apply keeps_plain|eauto with keeps]. Qed.

Lemma keeps_create_dir p v q : keeps (disks (Held p v)) (io (fs_create_dir_all (DB := DB) q)).
Proof. apply keeps_plain. intros d Hd. by destruct (existsb _ _). Qed.

Lemma keeps_write p v q c : q <> p -> keeps (disks (Held p v)) (fs_write q c).
Proof.
  intros Hne. apply keeps_then; [apply keeps_plain|intros []; apply keeps_call].
  - intros d Hd. repeat case_bool_decide; [done| |done]. unfold Held. cbn. by rewrite lookup_insert_ne.
  - intros b d Hd. unfold Held. cbn. by rewrite lookup_insert_ne.
  - intros d Hd. unfold Held. cbn. by rewrite lookup_insert_ne.
Qed.

Lemma last_ne (dir : path) (a b : string) : a <> b -> dir ++ [a] <> dir ++ [b].
Proof. intros Hne [= Heq]%app_inv_head. done. Qed.

Lemma keeps_device_id dir v o : keeps (disks (Held (auth_session_file dir) v)) (get_or_create_device_id dir o).
Proof.
  destruct o as [id|]; cbn [get_or_create_device_id]; [eauto with keeps|].
  apply keeps_then.
  { unfold saved_device_id. apply keeps_then; [apply keeps_exists|]. intros []; cbn [negb]; [|eauto with keeps].
    apply keeps_then; [apply keeps_attempt, keeps_read|eauto with keeps]. }
  intros [id|]; [eauto with keeps|]. apply keeps_then; [apply keeps_uuid|]. intros id.
  apply keeps_then; [|eauto with keeps]. destruct (device_identity_to_string id); [|eauto with keeps].
  apply keeps_ignore, keeps_write. by apply last_ne.
Qed.

Lemma keeps_load (I : Disk DB -> Prop) p : keeps (disks I) (load_auth_session p).
Proof.
  apply keeps_then; [apply keeps_exists|]. intros []; cbn [negb]; [|eauto with keeps].
  apply keeps_then; [apply keeps_read|eauto with keeps].
Qed.

(** What [load_auth_session] returned is what the file holds. *)
Lemma wp_load p Q l v :
  disks (Held p v) l ->
  (forall c s l', v = Some c -> auth_session_from_slice (bytes_of c) = Ok s -> disks (Held p v) l' -> Q (Ok s) l') ->
  (forall e l', disks (Held p v) l' -> Q (Err e) l') ->
  wp (load_auth_session p) Q l.
Proof.
  intros Hl Q1 Q2. assert (Held p v (l_disk l)) as Hv by (by inversion Hl). unfold load_auth_session.
  apply wp_bind, wp_exists. destruct (exists_on _ _); cbn [negb]; [|by apply wp_throw, Q2].
  apply wp_bind. unfold read_bytes. apply wp_bind.
  apply (wp_io_plain _ _ (Held p v)); [done|done|intros; by apply Q2|].
  intros l1 Hd1 Hk1 _. unfold Held in Hv. cbn [fst]. rewrite Hv. destruct v as [c|]; cbn; [|by apply Q2].
  apply wp_lift. destruct (auth_session_from_slice (bytes_of c)) eqn:Hs; cbn; [by eapply Q1|by apply Q2].
Qed.

(** Saving a session is atomic: the file holds the old one until it holds the new
    one, and a failed save leaves the old one. *)
Definition old_or p v json d : Prop := Held p v d \/ Held p (Some (Bytes json)) d.

Lemma auth_tmp_ne dir id : dir ++ [auth_tmp_name id] <> auth_session_file dir.
Proof. by apply last_ne. Qed.
Lemma parent_of_auth dir : parent_of (auth_session_file dir) = dir.
Proof. unfold parent_of, auth_session_file. apply removelast_last. Qed.

(** The last step of a replacement: up to it every disk satisfies [I]. *)
Lemma wp_io_last {A} (text : IoError -> CliError) (ok : Disk DB -> Result A IoError * Disk DB)
    (I J : Disk DB -> Prop) (Q : result CliError A -> Local (Files.World DB) -> Prop) l :
  disks I l -> (forall d, I d -> J d) -> J (ok (l_disk l)).2 ->
  (forall e l', disks I l' -> Q (Err e) l') ->
  (forall l', l_disk l' = (ok (l_disk l)).2 -> disks J l' -> (I (ok (l_disk l)).2 -> disks I l') ->
     Q (result_map_err text (ok (l_disk l)).1) l') ->
  wp (io_as text (plain ok)) Q l.
Proof.
  unfold disks, l_disk. intros Hl HIJ HJ Q1 Q2. unfold io_as, plain. apply wp_map_err, wp_zoom. unfold wp, Files.call.
  destruct (ok (disk (l_store l))) as [r d'] eqn:Hrun. cbn in *.
  assert (Kept J (l_store l)) as HlJ by (eapply Forall_impl; [exact Hl|auto]).
  destruct (verdicts (l_store l)) as [|[|msg partial] vs] eqn:Hv; cbn.
  1,2: refine (_ (Q2 (set_store _ l) _ _ _)); [by destruct r|done|by constructor|by constructor].
  apply Q1. constructor; [by inversion Hl|done].
Qed.

(** The temporary file takes the place of the session file, at the very end. *)
Lemma wp_swap_session p tmp json v Q l :
  tmp <> p -> disks (Held p v) l ->
  (forall l', disks (old_or p v json) l' -> Held p (Some (Bytes json)) (l_disk l') -> Q (Ok tt) l') ->
  (forall e l', disks (Held p v) l' -> Q (Err e) l') ->
  wp (_ ← io_as (fun _ => Io "Failed to create restricted auth session file") (fs_create_new tmp);
      _ ← io_as (fun _ => Io "Failed to write auth session") (fs_write_all tmp (Bytes json));
      _ ← io_as (fun _ => Io "Failed to flush auth session") (fs_sync tmp);
      io_as (fun _ => Io "Failed to replace auth session") (fs_rename tmp p)) Q l.
Proof.
  intros Hne Hl Q1 Q2.
  assert (forall c d, Held p v d -> Held p v (put_file tmp c d)) as Hput
    by (intros c d Hd; unfold Held; cbn; by rewrite lookup_insert_ne).
  apply (wp_keep (disks (Held p v))); [|done|done|].
  { apply keeps_plain. intros d Hd. destruct (exists_on d tmp); [done|]. case_bool_decide; [by apply Hput|done]. }
  intros [] l1 Hl1. assert (Held p v (l_disk l1)) by (by inversion Hl1). apply wp_bind.
  apply (wp_io_call _ _ _ (Held p v)); [done|intros; by apply Hput|by apply Hput|intros; by apply Q2|].
  intros l2 Hd2 Hk2 _. cbn [fst snd result_map_err] in *. apply wp_bind.
  apply (wp_io_plain _ _ (Held p v)); [done|by inversion Hk2|intros; by apply Q2|].
  intros l3 Hd3 Hk3 _. cbn [fst snd] in *. destruct (exists_on _ _); cbn [result_map_err]; [|by apply Q2].
  assert (files (l_disk l3) !! tmp = Some (Bytes json)) as Hf by (rewrite Hd3, Hd2; apply lookup_insert_eq).
  assert (Held p v (l_disk l3)) by (by inversion Hk3).
  apply (wp_io_last _ _ (Held p v) (old_or p v json)); [done|by left|..].
  - rewrite Hf. repeat case_bool_decide; [by left|right|by left]. apply lookup_insert_eq.
  - done.
  - rewrite Hf. repeat case_bool_decide; intros l4 Hd4 Hk4 HI4; cbn in *; [by apply Q2, HI4| |by apply Q2, HI4].
    apply Q1; [done|]. rewrite Hd4. apply lookup_insert_eq.
Qed.

Lemma wp_save dir session v Q l :
  let p := auth_session_file dir in
  disks (Held p v) l ->
  (forall json l', auth_session_to_string session = Ok json -> disks (old_or p v json) l' ->
     Held p (Some (Bytes json)) (l_disk l') -> Q (Ok tt) l') ->
  (forall e l', disks (Held p v) l' -> Q (Err e) l') ->
  wp (save_auth_session p session) Q l.
Proof.
  intros p Hl Q1 Q2. unfold save_auth_session. apply wp_bind, wp_lift.
  destruct (auth_session_to_string session) as [json|] eqn:Hj; cbn [result_map_err]; [|by apply Q2].
  apply (wp_keep (disks (Held p v))); [apply keeps_uuid|done|done|]. intros id l1 Hl1.
  set (tmp := parent_of p ++ [auth_tmp_name id]).
  assert (tmp <> p) as Htmp by (unfold tmp, p; rewrite parent_of_auth; apply auth_tmp_ne).
  apply wp_bind, wp_attempt, (wp_swap_session p tmp json v); [done..| |].
  - intros l2 Hl2 Hf. cbn [is_ok]. apply wp_bind, wp_ret, wp_lift. by eapply Q1.
  - intros e l2 Hl2. cbn [is_ok]. apply (wp_keep (disks (Held p v))); [|done|done|].
    + apply keeps_ignore, keeps_plain. intros d Hd. destruct (files d !! tmp); [|done].
      unfold Held. cbn. by rewrite lookup_delete_ne.
    + intros [] l3 Hl3. apply wp_lift. by apply Q2.
Qed.
End disk.

#[export] Hint Resolve keeps_exists keeps_uuid keeps_now_secs keeps_read keeps_create_dir keeps_device_id keeps_load : keeps.

(** ** With the network *)

Section services.
Context {Net DB : Type} `{Internet Net} `{!Env} `{CliLib DB} `{HttpClientLib} `{AuthClientLib}.
Abbreviation W := (Adapter.World Net (Files.World DB)).
Abbreviation Cli A := (M (Local (Files.World DB)) CliError A).
Implicit Types (w : W) (p : path) (v : option (content DB)).

Definition w_disk w : Disk DB := l_disk (w_local w).
Definition w_disks (I : Disk DB -> Prop) w : Prop := disks I (w_local w).

Lemma wp_here {A} (m : Cli A) Q w :
  wp m (fun r l' => Q r (set_local l' w)) (w_local w) -> wp (here (Net := Net) m) Q w.
Proof.
  intros Hm. unfold here, on_local. apply wp_map_err, wp_zoom. eapply wp_mono; [done|]. by intros [a|e] l'.
Qed.

Lemma keeps_here I {A} (m : Cli A) : keeps (disks I) m -> keeps (w_disks I) (here (Net := Net) m).
Proof. intros Hm w Hw. apply wp_here. eapply wp_mono; [by apply Hm|]. by intros r l'. Qed.

Lemma keeps_net I {E A} (m : M Net E A) : keeps (E := E) (w_disks I) (zoom w_net set_net m).
Proof. intros w Hw. apply wp_zoom. by apply wp_intro. Qed.

Lemma keeps_request I base text req : keeps (w_disks I) (request_to base text req).
Proof. apply keeps_map_err, keeps_net. Qed.

Lemma keeps_token_call I url token method suffix body :
  keeps (w_disks I) (call_with_token url token method suffix body).
Proof. apply keeps_then; [eauto with keeps|]. intros _. apply keeps_if; [eauto with keeps|apply keeps_request]. Qed.

Lemma keeps_verify I url token device : keeps (w_disks I) (api_verify_token url token device).
Proof. apply keeps_then; [apply keeps_token_call|eauto with keeps]. Qed.

Lemma keeps_authorize I url token account device name :
  keeps (w_disks I) (api_device_authorize url token account device name).
Proof.
  apply keeps_then; [eauto with keeps|]. intros _. apply keeps_then; [|eauto with keeps].
  apply keeps_if; [apply keeps_request|eauto with keeps].
Qed.

#[local] Hint Resolve keeps_here keeps_verify keeps_authorize : keeps.

Lemma wp_save_w dir session v Q w :
  let p := auth_session_file dir in
  w_disks (Held p v) w ->
  (forall json w', auth_session_to_string session = Ok json -> w_disks (old_or p v json) w' ->
     Held p (Some (Bytes json)) (w_disk w') -> Q (Ok tt) w') ->
  (forall e w', w_disks (Held p v) w' -> Q (Err e) w') ->
  wp (here (save_auth_session p session)) Q w.
Proof.
  intros p Hw Q1 Q2. apply wp_here. apply (wp_save dir session v); [done|..].
  - intros json l' Hj Hl' Hf. by eapply Q1.
  - intros e l' Hl'. by apply Q2.
Qed.

(** What a sign-in leaves: the new session, complete, or the old file untouched at
    every moment. *)
Definition signed_in (p : path) v (r : Result StoredAuthSession CliError) w' : Prop :=
  match r with
  | Ok s => exists json, auth_session_to_string s = Ok json /\ w_disks (old_or p v json) w'
                         /\ Held p (Some (Bytes json)) (w_disk w')
  | Err _ => w_disks (Held p v) w'
  end.

Lemma authorize_keeps dir url token account name device v w :
  let p := auth_session_file dir in
  w_disks (Held p v) w ->
  wp (authorize_terminal_device dir url token account name device) (signed_in p v) w.
Proof.
  intros p Hw. unfold authorize_terminal_device. keep_steps (w_disks (Held p v)).
  case_bool_decide; [by apply wp_throw|]. keep_steps (w_disks (Held p v)).
  destruct (match account with Some _ => _ | None => _ end); [by apply wp_throw|]. keep_steps (w_disks (Held p v)).
  eapply wp_bind, (wp_save_w dir _ v); [done| |done]. intros json w' Hj Hw' Hf. apply wp_ret. by exists json.
Qed.

(** *** Signing out *)

Definition at_first w : Prop := past (l_store (w_local w)) = [].

Lemma disks_start p w : at_first w -> w_disks (Held p (files (w_disk w) !! p)) w.
Proof. unfold at_first, w_disks, disks, Kept. intros ->. by repeat constructor. Qed.

(** The server ended the session: it answered the request that revokes it. *)
Definition session_revoked (s : StoredAuthSession) (n : Net) : Prop :=
  exists resp n', send_to (clean_server_url (as_server_url s))
      (bearer_request (clean_server_url (as_server_url s)) POST "/v1/auth/session/revoke" (as_token s)
         (Some (revoke_session_value (as_session_id s)))) n = (Ok resp, n')
    /\ session_ended (wr_status resp) = true.

Lemma wp_revoke s Q w :
  (forall w', w_local w' = w_local w -> session_revoked s (w_net w) -> Q (Ok tt) w') ->
  (forall e w', w_local w' = w_local w -> Q (Err e) w') ->
  wp (api_revoke_session s) Q w.
Proof.
  intros Q1 Q2. unfold api_revoke_session, call_with_token. apply wp_bind, wp_bind, wp_lift.
  destruct auth_http_client as [[]|]; [|by apply Q2]. destruct (header_value_ok _); cbn [negb]; [|by apply wp_throw, Q2].
  unfold request_to. apply wp_map_err, wp_zoom, wp_intro. intros [resp|e] n Hsend; cbn [result_map_err]; [|by apply Q2].
  destruct (session_ended _) eqn:Hend; [apply wp_ret, Q1; [done|]; by exists resp, n|by apply wp_throw, Q2].
Qed.

Lemma wp_verify_absent when_ p (Q : result CliError unit -> Local (Files.World DB) -> Prop) l :
  (exists_on (l_disk l) p = false -> Q (Ok tt) l) -> (forall e, Q (Err e) l) -> wp (verify_absent when_ p) Q l.
Proof.
  intros Q1 Q2. unfold verify_absent. apply wp_bind, wp_exists.
  destruct (exists_on _ _); [by apply wp_throw|by apply wp_ret, Q1].
Qed.

(** C26. Signing out is truthful.  Whatever the network and the file system do, it
    reports success only when no session file is left, and a saved session was
    ended by its server first: the server answered the request to revoke it, with
    success or by not knowing the session any more.  And until the server has
    answered so, no disk the process leaves, at any moment, has lost or changed the
    saved session, so that signing out can be tried again. *)
Theorem sign_out_truthful dir w r w' :
  let p := auth_session_file dir in
  at_first w -> sign_out dir w = (r, w') ->
  (r = Ok tt -> exists_on (w_disk w') p = false)
  /\ (exists_on (w_disk w) p = false /\ r = Ok tt /\ w' = w
      \/ (exists c s, files (w_disk w) !! p = Some c /\ auth_session_from_slice (bytes_of c) = Ok s
            /\ session_revoked s (w_net w))
      \/ (exists e, r = Err e) /\ w_disks (Held p (files (w_disk w) !! p)) w').
Proof using Type*.
  intros p Hfirst. pose proof (disks_start p w Hfirst) as Hd. as_wp. unfold sign_out.
  apply wp_bind, wp_here, wp_exists. fold p. change (l_disk (w_local w)) with (w_disk w).
  assert (set_local (w_local w) w = w) as -> by (by destruct w).
  destruct (exists_on (w_disk w) p) eqn:Hex; cbn [negb].
  2: { apply wp_ret. split; [done|]. by left. }
  apply wp_bind, wp_here, (wp_load p _ _ (files (w_disk w) !! p)); [done| |].
  2: { intros e l' Hl'. split; [done|]. right; right. by split; [eauto|]. }
  intros c s l1 Hc Hs Hl1. apply wp_bind, wp_revoke.
  2: { intros e w2 Hw2. split; [done|]. right; right. split; [eauto|]. unfold w_disks. by rewrite Hw2. }
  intros w2 Hw2 Hrev. cbn [w_net set_local] in Hrev.
  assert (exists c s, files (w_disk w) !! p = Some c /\ auth_session_from_slice (bytes_of c) = Ok s
            /\ session_revoked s (w_net w)) as Hdone by eauto.
  apply wp_bind, wp_here, wp_intro. intros [[]|e] l3 _; [|by split; [done|right; left]].
  apply wp_here, wp_verify_absent; [|by split; [done|right; left]]. intros Hgone. split; [done|by right; left].
Qed.
End services.

(** ** Signing in with the agent *)

(** The JSON of a session is read back. *)
Class AuthSessionLaws `{AuthClientLib} : Prop := {
  auth_session_roundtrip s json : auth_session_to_string s = Ok json -> auth_session_from_slice json = Ok s
}.

Section agent.
Context {Net DB : Type} `{Internet Net} `{SshAgent Net} `{!Env} `{CliLib DB} `{HttpClientLib} `{AuthClientLib}.
Abbreviation W := (Adapter.World Net (Files.World DB)).
Implicit Types (w : W) (p : path) (v : option (content DB)).

Lemma keeps_ssh_post I url suffix body : keeps (w_disks I) (ssh_post (Net := Net) (DB := DB) url suffix body).
Proof.
  apply keeps_then; [apply keeps_map_err, keeps_net|]. intros resp. apply keeps_if; eauto with keeps.
Qed.

Lemma keeps_agent I {A} (m : M Net unit A) : keeps (w_disks I) (with_agent (DB := DB) m).
Proof. apply keeps_map_err, keeps_net. Qed.

Lemma keeps_select I selector : keeps (w_disks I) (select_key (Net := Net) (DB := DB) selector).
Proof.
  apply keeps_then; [apply keeps_then; [apply keeps_agent|eauto with keeps]|]. intros keys.
  destruct (match selector with Some _ => _ | None => _ end) as [|? [|]]; cbn beta zeta iota; eauto with keeps.
Qed.

Lemma keeps_signature I socket key bytes : keeps (w_disks I) (signature_of (Net := Net) (DB := DB) socket key bytes).
Proof.
  apply keeps_then; [apply keeps_agent|]. intros _. apply keeps_then; [apply keeps_agent|eauto with keeps].
Qed.

Lemma keeps_challenge I challenge request : keeps (disks I) (validate_challenge (DB := DB) challenge request).
Proof. apply keeps_then; [apply keeps_now_secs|]. intros t. apply keeps_if; eauto with keeps. Qed.

#[local] Hint Resolve keeps_here keeps_ssh_post keeps_agent keeps_select keeps_signature keeps_challenge : keeps.

Lemma login_keeps dir server account device selector socket v w :
  let p := auth_session_file dir in
  w_disks (Held p v) w ->
  wp (login_with_agent dir server account device selector socket) (signed_in p v) w.
Proof.
  intros p Hw. unfold login_with_agent. keep_steps (w_disks (Net := Net) (Held p v)).
  eapply wp_bind, (wp_save_w dir _ v); [done| |done]. intros json w' Hj Hw' Hf. apply wp_ret. by exists json.
Qed.

(** The two ways to sign in. *)
Inductive sign_in (dir : path) : M W CliError StoredAuthSession -> Prop :=
| by_token url token account name device :
    sign_in dir (authorize_terminal_device dir url token account name device)
| by_ssh server account device selector : sign_in dir (login dir server account device selector).

(** C25. Signing in is atomic.  By a token or by the SSH agent, whatever the servers,
    the agent and the file system do: when it fails, no disk the process leaves at
    any moment differs from the first in the saved session; when it succeeds, the
    session file is the new session, which reads back as the one that is reported,
    and at every moment before it was the old one or the new one. *)
Theorem sign_in_atomic `{!AuthSessionLaws} dir m w r w' :
  let p := auth_session_file dir in
  let before := files (w_disk w) !! p in
  sign_in dir m -> at_first w -> m w = (r, w') ->
  match r with
  | Ok s => exists json, auth_session_from_slice json = Ok s /\ w_disks (old_or p before json) w'
                         /\ Held p (Some (Bytes json)) (w_disk w')
  | Err _ => w_disks (Held p before) w'
  end.
Proof using Type*.
  intros p before Hm Hfirst Hrun. pose proof (disks_start p w Hfirst) as Hd. fold before in Hd.
  assert (signed_in p before r w') as Hs.
  { revert Hrun. as_wp. destruct Hm; [by apply authorize_keeps|]. unfold login.
    destruct (env_var _); [by apply login_keeps|by apply wp_throw]. }
  destruct r as [s|e]; [|done]. destruct Hs as (json & Hj & Hw & Hf). exists json. split_and!; [|done..].
  by apply auth_session_roundtrip.
Qed.

(** *** What the agent signs *)

(** Only a challenge of the server at [url] and for [key] has these bytes. *)
Definition signed_for (url : string) (key : PublicKey) (bytes : string) : Prop :=
  forall c, signing_bytes c = Some bytes ->
    sr_audience (sch_request c) = url /\ sr_fingerprint (sch_request c) = key_fingerprint key.

Lemma signing_bytes_audience c c' b :
  signing_bytes c = Some b -> signing_bytes c' = Some b ->
  sr_audience (sch_request c') = sr_audience (sch_request c)
  /\ sr_fingerprint (sch_request c') = sr_fingerprint (sch_request c).
Proof.
  intros (n1 & -> & _ & _ & _ & A1 & F1)%signing_bytes_Some (n2 & Heq & _ & _ & _ & A2 & F2)%signing_bytes_Some.
  apply append_string_inj in Heq as [_ Heq]; [|vm_compute; lia..].
  apply str_app_inj_len in Heq as [_ Heq]; [|by rewrite !length_be_bytes].
  apply append_string_inj in Heq as [Haud Heq]; [|done..].
  by apply append_string_inj in Heq as [Hfp _]; [|lia..].
Qed.

(** A property of the outside that every call keeps, except that the agent must
    not be asked to sign anything but what is for the server at [url]. *)
Record watched (url : string) (I : Net -> Prop) : Prop := {
  watch_send base req n : I n -> I (send_to base req n).2;
  watch_connect socket n : I n -> I (agent_connect socket n).2;
  watch_identities n : I n -> I (agent_identities n).2;
  watch_sign key bytes n : signed_for url key bytes -> I n -> I (agent_sign key bytes n).2
}.

Section watching.
Context (url : string) (I : Net -> Prop) (Hwatch : watched url I).

Definition outside w : Prop := I (w_net w).

Lemma outside_here {A} (m : M (Local (Files.World DB)) CliError A) : keeps outside (here m).
Proof. intros w Hw. apply wp_here, wp_intro. done. Qed.

Lemma outside_zoom {E E' A} (g : E -> E') (m : M Net E A) :
  (forall n, I n -> I (m n).2) -> keeps outside (map_err g (zoom w_net set_net m)).
Proof.
  intros Hm w Hw. apply wp_map_err, wp_zoom, wp_intro. intros r n Hrun. specialize (Hm _ Hw). by rewrite Hrun in Hm.
Qed.

Lemma outside_post suffix body base : keeps outside (ssh_post (Net := Net) (DB := DB) base suffix body).
Proof using Hwatch.
  apply keeps_then; [apply outside_zoom, Hwatch|]. intros resp. apply keeps_if; eauto with keeps.
Qed.

Lemma outside_select selector : keeps outside (select_key (Net := Net) (DB := DB) selector).
Proof using Hwatch.
  apply keeps_then; [apply keeps_then; [apply outside_zoom, Hwatch|eauto with keeps]|]. intros keys.
  destruct (match selector with Some _ => _ | None => _ end) as [|? [|]]; cbn beta zeta iota; eauto with keeps.
Qed.

Lemma outside_connect socket : keeps outside (connect_agent (Net := Net) (DB := DB) socket).
Proof using Hwatch. apply outside_zoom, Hwatch. Qed.

Lemma outside_sign socket key bytes :
  signed_for url key bytes -> keeps outside (signature_of (Net := Net) (DB := DB) socket key bytes).
Proof using Hwatch.
  intros Hb. apply keeps_then; [apply outside_zoom, Hwatch|]. intros _.
  apply keeps_then; [apply outside_zoom; intros n; by apply Hwatch|eauto with keeps].
Qed.

Lemma wp_challenge challenge request Q w :
  outside w -> (forall e w', outside w' -> Q (Err e) w') ->
  (forall w', outside w' -> sch_request challenge = request -> Q (Ok tt) w') ->
  wp (here (validate_challenge challenge request)) Q w.
Proof.
  intros Hw Q1 Q2. apply wp_here. unfold validate_challenge. apply wp_bind, wp_intro. intros [t|e] l1 _; [|by apply Q1].
  unfold challenge_ok. destruct (_ =? _)%nat; cbn [andb]; [|by apply wp_throw, Q1].
  destruct (base64url_decode _); [|by apply wp_throw, Q1].
  case_bool_decide; cbn [andb]; [|by apply wp_throw, Q1].
  destruct (negb _ && _ && _ && _); [by apply wp_ret, Q2|by apply wp_throw, Q1].
Qed.
End watching.

(** C24. The agent's signature is for the server that was asked for.  Signing in at a
    server makes the agent sign nothing but messages that are the signing bytes of no
    challenge for another server or another key: a server that passes on the
    challenge of a different one gets no signature that the other would accept. *)
Theorem agent_signs_for_server (I : Net -> Prop) dir server url account device selector w r w' :
  validate_and_normalize_server_url server = Ok url -> watched url I -> I (w_net w) ->
  login dir server account device selector w = (r, w') -> I (w_net w').
Proof using Type*.
  intros Hurl HI Hw. as_wp. unfold login. destruct (env_var _) as [socket|]; [|by apply wp_throw].
  unfold login_with_agent. rewrite Hurl. apply wp_bind, wp_lift.
  change (wp ?m ?Q w) with (wp m (fun _ w' => outside I w') w).
  pose proof (@outside_here I). pose proof (fun s b => outside_post url I HI s b url).
  pose proof (outside_select url I HI). pose proof (outside_connect url I HI).
  do 7 keep_step (outside I). apply wp_bind, (wp_challenge I); [done..|]. intros w9 Hw9 Hreq.
  apply wp_bind, wp_ok_or; [|done]. intros bytes Hb.
  apply (wp_keep (outside I)); [eapply outside_sign; [done|]|done|done|].
  { intros c Hc. destruct (signing_bytes_audience _ _ _ Hb Hc) as [-> ->]. by rewrite Hreq. }
  intros signature wa Hwa. keep_steps (outside I). by apply wp_ret.
Qed.
End agent.

(** ** Errors do not show the token *)

Lemma str_contains_cons p c s : str_contains p (String c s) = str_starts_with p (String c s) || str_contains p s.
Proof.
  unfold str_contains. cbn [str_find]. destruct (str_starts_with p (String c s)); [done|]. by destruct (str_find p s).
Qed.

Definition is_bracket (c : ascii) : bool := bool_decide (c = "["%char) || bool_decide (c = "]"%char).
Definition bracket_free (s : string) : bool := str_forallb (fun c => negb (is_bracket c)) s.

(** Text without brackets at the start of the result was there before. *)
Lemma prefix_copied pat q s :
  bracket_free q = true -> str_starts_with q (replace_from 0 pat "[REDACTED]" s) = true -> str_starts_with q s = true.
Proof.
  revert s. induction q as [|d q IH]; intros s Hq Hp; [done|].
  destruct s as [|e s]; [done|]. cbn [replace_from] in Hp. cbn in Hq. apply andb_true_iff in Hq as [Hd Hq].
  destruct (str_starts_with pat (String e s)).
  - rewrite str_app_cons in Hp. cbn in Hp. apply andb_true_iff in Hp as [->%bool_decide_eq_true _]. done.
  - cbn in Hp |- *. apply andb_true_iff in Hp as [-> Hp]. by apply IH.
Qed.

(** A text without brackets that is long enough to reach one does not match. *)
Lemma reaches_bracket pre c q out :
  bracket_free q = true -> (String.length pre < String.length q)%nat -> is_bracket c = true ->
  str_starts_with q (pre +:+ String c out) = false.
Proof.
  intros Hq Hk Hc. revert q Hq Hk. induction pre as [|a pre IH]; intros q Hq Hk;
    (destruct q as [|d q]; [cbn in Hk; lia|]); cbn in Hq; apply andb_true_iff in Hq as [Hd Hq].
  - rewrite str_app_nil_l. cbn. case_bool_decide; [|done]. subst. by rewrite Hc in Hd.
  - rewrite str_app_cons. cbn. rewrite IH; [by rewrite andb_false_r|done|cbn in *; lia].
Qed.

(** So it does not start within the mark. *)
Lemma marked pat out :
  bracket_free pat = true -> (8 < String.length pat)%nat -> str_contains pat ("[REDACTED]" +:+ out) = str_contains pat out.
Proof.
  intros Hb Hl. pose proof (fun pre c o Hk Hc => reaches_bracket pre c pat o Hb Hk Hc) as Hno.
  pose proof (fun o => Hno "" "["%char o ltac:(cbn; lia) eq_refl) as Hopen.
  pose proof (fun pre Hk => Hno pre "]"%char out Hk eq_refl) as Hclose.
  pose proof (Hclose "REDACTED" ltac:(cbn; lia)) as H8. pose proof (Hclose "EDACTED" ltac:(cbn; lia)) as H7.
  pose proof (Hclose "DACTED" ltac:(cbn; lia)) as H6. pose proof (Hclose "ACTED" ltac:(cbn; lia)) as H5.
  pose proof (Hclose "CTED" ltac:(cbn; lia)) as H4. pose proof (Hclose "TED" ltac:(cbn; lia)) as H3.
  pose proof (Hclose "ED" ltac:(cbn; lia)) as H2. pose proof (Hclose "D" ltac:(cbn; lia)) as H1.
  pose proof (Hclose "" ltac:(cbn; lia)) as H0. setoid_rewrite str_app_nil_l in Hopen.
  rewrite ?str_app_cons, str_app_nil_l in *. rewrite !str_contains_cons.
  by rewrite Hopen, H8, H7, H6, H5, H4, H3, H2, H1, H0.
Qed.

Lemma replace_hides pat s : forall skip,
  bracket_free pat = true -> (8 < String.length pat)%nat -> str_contains pat (replace_from skip pat "[REDACTED]" s) = false.
Proof.
  induction s as [|c s IH]; intros skip Hb Hl; cbn [replace_from].
  - unfold str_contains. destruct pat; [cbn in Hl; lia|done].
  - destruct skip as [|skip]; [|by apply IH]. destruct (str_starts_with pat (String c s)) eqn:Hp.
    + rewrite marked by done. by apply IH.
    + rewrite str_contains_cons, IH by done. rewrite orb_false_r. destruct pat as [|d pat]; [cbn in Hl; lia|].
      cbn in Hp |- *. destruct (bool_decide (d = c)); [|done]. cbn in *. apply andb_true_iff in Hb as [_ Hb].
      destruct (str_starts_with pat (replace_from 0 _ _ s)) eqn:Hq; [|done].
      by rewrite (prefix_copied _ _ _ Hb Hq) in Hp.
Qed.

(** The codes of the server are told apart as they are written: a revoked device or
    session and an expired session have errors of their own, the other known codes a
    fixed text, and a code in small letters is not known. *)
Lemma error_codes `{HttpClientLib} `{AuthClientLib} status :
  error_of_code status "DEVICE_REVOKED" = SessionRevoked
  /\ error_of_code status "AUTH_REVOKED" = SessionRevoked
  /\ error_of_code status "AUTH_EXPIRED" = SessionExpired
  /\ error_of_code status "AUTH_REQUIRED" = AuthError "Authentication failed: invalid token or credentials"
  /\ error_of_code status "ACCESS_DENIED" = AuthError "Access denied by server"
  /\ error_of_code status "TOO_MANY_REQUESTS" = AuthError "Rate limit exceeded. Please try again later."
  /\ error_of_code status "SESSION_NOT_FOUND" = AuthError "Requested authentication resource not found"
  /\ error_of_code status "INTERNAL_ERROR" = AuthError ("Server error (HTTP " +:+ status_display status +:+ ")")
  /\ error_of_code status "device_revoked"
     = AuthError ("Authentication request rejected: device_revoked (HTTP " +:+ status_display status +:+ ")").
Proof. by split_and!. Qed.

(** A refusal does not show the token.  Whatever a server answers to a request
    that carries a token, the error of a refusal has one of the fixed texts or a text
    in which the token does not occur, for tokens that are longer than eight bytes
    and have no brackets, as those of the server are. *)
Lemma refusal_hides_token `{HttpClientLib} `{AuthClientLib} status body token :
  bracket_free token = true -> (8 < String.length token)%nat ->
  match parse_safe_auth_error_with_redaction status body (Some token) with
  | SessionRevoked | SessionExpired => True
  | AuthError msg => str_contains token msg = false
  | _ => False
  end.
Proof.
  intros Hb Hl. unfold parse_safe_auth_error_with_redaction. rewrite bool_decide_eq_false_2 by (intros ->; cbn in Hl; lia).
  assert (match parse_safe_auth_error status body with SessionRevoked | SessionExpired | AuthError _ => True | _ => False end)
    as Hkind.
  { unfold parse_safe_auth_error. destruct (mbind _ _) as [c|]; [|done]. destruct (is_safe_error_code c); [|done].
    unfold error_of_code. by repeat destruct (code_in _ c). }
  destruct (parse_safe_auth_error status body); try done. by apply replace_hides.
Qed.
