(* ===== verification/CliLink.v ===== *)
(** * Linking a vault to an account, and guarded sync ([client/vault_link.rs], [client/sync.rs])

    A vault is linked to one account at one server by [vault-link.json], which holds
    the fingerprint of the vault.  Sync runs only when the link, the saved session,
    the local vault and the vault of the server agree; a vault of the server is
    restored into a staging directory first.  Services that take an adapter are
    written over any [SyncServerAdapter]; the whole services reach the server
    through the HTTP adapter over the network of [CliAuth.v]. *)

From stdpp Require Import options.
From stdpp Require Import gmap.
From S2P Require Import Prelude Sorting Text Time Protocol ServerDb ServerAuth Json HttpAdapter Adapter.
From S2P Require Import StorageModels Storage CoreErrors Env Queue Cursor Diff3 Crypto Note Vault Search Session Merge Conflict Push Pull Orchestrator.
From S2P Require Import Attachment AttachmentStream Files CliSession VaultFiles CliNotes CliAuth.

(** serde_json on [VaultLink], and the write-ahead log of SQLite. *)
Class LinkLib (DB : Type) : Type := {
  link_to_vec : VaultLink -> Result string string;
  link_from_slice : string -> Result VaultLink string;
  db_checkpoint : M DB StorageError unit
}.

#[export] Instance VaultLink_eq_dec : EqDecision VaultLink.
Proof. solve_decision. Defined.

Definition link_err (e : LinkError) : CliError := VaultLink_ e.

(** [Default] of the options *)
Definition PushOptions_default : PushOptions := mkPushOptions None false Manual None.
Definition SyncCycleOptions_default : SyncCycleOptions := mkCycleOptions PullOptions_default PushOptions_default false.

(** ** The link *)

Section link.
Context {DB : Type} `{!Env} `{CliLib DB} `{JournalLib} `{!VaultFileLib DB} `{!LinkLib DB}.
Context `{HttpClientLib} `{AuthClientLib} `{CryptoLib} `{KdfLib}.
Abbreviation Cli A := (M (Local (Files.World DB)) CliError A).

Definition link_file (dir : path) : path := dir ++ ["vault-link.json"].

Definition VaultLink_new (auth : StoredAuthSession) (fingerprint : string) : Result VaultLink CliError :=
  server_origin ← validate_and_normalize_server_url (as_server_url auth);
  Ok (mkVaultLink 1 server_origin (as_account_id auth) fingerprint).

Definition is_hex_digit (c : ascii) : bool := is_ascii_digit c || in_range 97 102 c.

Definition link_ok (link : VaultLink) : bool :=
  (vl_format_version link =? 1)%N
  && bool_decide (ok (validate_and_normalize_server_url (vl_server_origin link)) = Some (vl_server_origin link))
  && str_starts_with "blake2s-v1:" (vl_vault_fingerprint link)
  && (String.length (vl_vault_fingerprint link) =? 75)%nat
  && str_forallb is_hex_digit (str_drop 11 (vl_vault_fingerprint link)).
Definition VaultLink_validate (link : VaultLink) : Result unit CliError :=
  if link_ok link then Ok tt else Err (link_err CorruptLink).

Definition VaultLink_save (dir : path) (link : VaultLink) : Cli unit :=
  _ ← lift_result (VaultLink_validate link);
  bytes ← lift_result (result_map_err (fun _ => link_err CorruptLink) (link_to_vec link));
  atomic_write (link_file dir) (Bytes bytes).

Definition load_link (dir : path) : Cli VaultLink :=
  c ← io_as (fun e => match e with IoNotFound => link_err MissingLink | _ => link_err CorruptLink end)
        (fs_read (link_file dir));
  link ← lift_result (result_map_err (fun _ => link_err CorruptLink) (link_from_slice (bytes_of c)));
  _ ← lift_result (VaultLink_validate link);
  mret link.

Definition fingerprint (b : VaultBootstrap) : Result string CliError :=
  result_map_err (fun _ => link_err LE_InvalidBootstrap) (vault_fingerprint b).

Definition local_bootstrap (dir : path) : Cli VaultBootstrap :=
  bytes ← read_bytes cli_of_io (vault_file dir);
  b ← lift_result (result_map_err (fun _ => link_err LE_InvalidBootstrap) (CliNotes.bootstrap_from_slice bytes));
  _ ← lift_result (result_map_err (fun _ => link_err LE_InvalidBootstrap) (validate_bootstrap b));
  mret b.

Definition local_fingerprint (dir : path) : Cli string :=
  b ← local_bootstrap dir;
  lift_result (fingerprint b).

Definition validate_local_link (dir : path) (auth : StoredAuthSession) : Cli VaultLink :=
  _ ← recover dir;
  link ← load_link dir;
  if negb (bool_decide (vl_account_id link = as_account_id auth)) then throw (link_err WrongAccount)
  else
    origin ← lift_result (validate_and_normalize_server_url (as_server_url auth));
    if negb (bool_decide (vl_server_origin link = origin)) then throw (link_err WrongServer)
    else
      local ← local_fingerprint dir;
      if negb (bool_decide (vl_vault_fingerprint link = local)) then throw (link_err LocalVaultMismatch)
      else mret link.

(** [SqliteStorage::open_read_only] *)
Definition fs_open_read_only (p : path) : M (Files.World DB) IoError DB :=
  plain (fun d => (match files d !! p with
                   | Some (Database db) => Ok db
                   | Some (Bytes _) => Err (IoOther "file is not a database")
                   | None => Err IoNotFound
                   end, d)).
Definition open_read_only (dir : path) : Cli DB :=
  wal ← io_result (fs_metadata (dir ++ ["notes.db-wal"]));
  _ ← lift_result (match wal with
        | Ok (_, len) =>
            if (len =? 0)%nat then Ok tt
            else Err (Cli_Storage (SE_Backend "uncheckpointed cache WAL; open/close the local cache normally before replacement preflight"))
        | Err IoNotFound => Ok tt
        | Err e => Err (Cli_Storage (SE_Backend ("cannot inspect cache WAL: " +:+ IoError_display e)))
        end);
  io_as (fun e => Cli_Storage (SE_Backend ("read-only cache path failed: " +:+ IoError_display e)))
    (fs_open_read_only (db_file dir)).

(** Reading a database that was opened read-only. *)
Definition read_db {A} (db : DB) (m : M DB StorageError A) : Cli A :=
  lift_result (result_map_err Cli_Storage (m db).1).

Definition count_status (status : MutationStatus) (l : list PendingMutation) : nat :=
  length (List.filter (fun m => bool_decide (mut_status m = status)) l).

Definition unsynced_counts `{!LocalStorage DB} (dir : path) : Cli UnsyncedCounts :=
  present ← exists_path (db_file dir);
  if negb present then mret (mkUnsyncedCounts 0 0 0 0 0)
  else
    db ← open_read_only dir;
    pending ← read_db db list_pending_mutations;
    conflicts ← read_db db (Storage.list_conflicts (Some false));
    objects ← read_db db (list_objects ObjectFilter_all);
    mret (mkUnsyncedCounts (count_status Pending pending) (count_status InFlight pending) (count_status Failed pending)
            (length conflicts) (length (List.filter (fun o => (obj_server_seq o =? 0)%N) objects))).
End link.

(** ** With an adapter *)

Section with_adapter.
Context {Net DB : Type} `{SyncServerAdapter Net} `{!LocalStorage DB} `{!Env} `{CliLib DB} `{JournalLib} `{!VaultFileLib DB} `{!LinkLib DB}.
Context `{HttpClientLib} `{AuthClientLib} `{CryptoLib} `{NoteLib} `{SearchLib} `{KdfLib} `{ChunkLib} `{ManifestLib}.
Abbreviation Cli A := (M (Local (Files.World DB)) CliError A).
Abbreviation Out A := (M (Adapter.World Net (Files.World DB)) CliError A).

Definition remote_bootstrap (what : string) : Out (option VaultBootstrap) :=
  on_net (fun _ => Network ("cannot " +:+ what)) ad_get_vault_bootstrap.

Definition validate_remote_link (link : VaultLink) : Out unit :=
  found ← remote_bootstrap "verify remote vault";
  b ← ok_or (link_err RemoteVaultMissing) found;
  remote ← lift_result (fingerprint b);
  if negb (bool_decide (remote = vl_vault_fingerprint link)) then throw (link_err RemoteVaultMismatch)
  else mret tt.

(** An existing association never silently changes. *)
Definition check_association (dir : path) (auth : StoredAuthSession) : Cli unit :=
  existing ← attempt (load_link dir);
  match existing with
  | Ok _ => _ ← validate_local_link dir auth; mret tt
  | Err (VaultLink_ MissingLink) => mret tt
  | Err e => throw e
  end.

Definition link_with_adapter (dir : path) (auth : StoredAuthSession) : Out VaultLink :=
  b ← here (local_bootstrap dir);
  fp ← lift_result (fingerprint b);
  link ← lift_result (VaultLink_new auth fp);
  _ ← here (check_association dir auth);
  remote ← remote_bootstrap "inspect remote vault";
  _ ← match remote with
      | Some remote =>
          remote_fp ← lift_result (fingerprint remote);
          if negb (bool_decide (remote_fp = vl_vault_fingerprint link)) then throw (link_err RemoteVaultMismatch)
          else mret tt
      | None =>
          on_net (fun _ => Network "remote bootstrap creation failed; local vault remains unlinked")
            (ad_post_vault_bootstrap b)
      end;
  _ ← validate_remote_link link;
  _ ← here (VaultLink_save dir link);
  mret link.

(** Work on an opened database that also talks to the server. *)
Definition in_db_net {E A} (closed : E) (dir : path) (m : M (Adapter.World Net DB) E A)
    : M (Adapter.World Net (Files.World DB)) E A :=
  fun w =>
    let l := w_local w in
    match files (l_disk l) !! db_file dir with
    | Some (Database db) =>
        let '(r, w1) := m (Adapter.mkWorld (w_net w) (mkLocal db (l_uuids l) (l_clock l) (l_rng l))) in
        let l1 := w_local w1 in
        (r, Adapter.mkWorld (w_net w1)
              (mkLocal (now_disk (put_file (db_file dir) (Database (l_store l1)) (l_disk l)) (l_store l))
                 (l_uuids l1) (l_clock l1) (l_rng l1)))
    | _ => (Err closed, w)
    end.

(** *** Staging *)

Definition object_ok (key : string) (o : StoredEncryptedObject) : Result unit CliError :=
  if negb (bool_decide (obj_object_id o = env_object_id (obj_envelope o)))
     || negb (obj_object_kind o =? env_object_kind (obj_envelope o))%N
  then Err (Network "staged object identity mismatch; active vault unchanged")
  else if obj_is_deleted o then Ok tt
  else result_map_err (fun _ => Network "staged object validation failed; active vault unchanged")
         (Stream.validate_active_object (obj_envelope o) key).

(** The staged database: empty, filled by a pull, every object checked.  [None]
    when the pull did not end within the fuel. *)
Definition fill_staged_db (fuel : nat) (key : string) : M (Adapter.World Net DB) CliError (option PullReport) :=
  c ← on_local (fun _ : CursorError => Io "staged cursor unavailable") Cursor.current_cursor;
  n ← (if (c =? 0)%N then on_local id (on_store Cli_Storage pending_mutation_count) else mret 0%nat);
  if negb (c =? 0)%N || negb (n =? 0)%nat then throw (Io "staging database is not empty")
  else
    report ← map_err (fun _ => Network "remote pull failed; active vault unchanged")
               (Pull.pull_remote_changes fuel None PullOptions_default);
    match report with
    | None => mret None
    | Some report =>
        objects ← on_local id (on_store Cli_Storage (list_objects ObjectFilter_all));
        _ ← for_each (fun o => lift_result (object_ok key o)) objects;
        mret (Some report)
    end.

Definition verify_staged_cursor (report : PullReport) : M (Local DB) CliError unit :=
  state ← on_store Cli_Storage Storage.get_sync_state;
  n ← (if (sync_cursor state =? plr_final_cursor report)%N then on_store Cli_Storage pending_mutation_count
       else mret 0%nat);
  if negb (sync_cursor state =? plr_final_cursor report)%N || negb (n =? 0)%nat
  then throw (Io "staged cursor verification failed")
  else mret tt.

Definition checkpoint : M (Local DB) CliError unit := on_store Cli_Storage db_checkpoint.

(** The write-ahead log of a closed database is removed. *)
Definition remove_sidecar (stage : path) (name : string) : Cli unit :=
  present ← exists_path (stage ++ [name]);
  if (present : bool) then io (fs_remove_file (stage ++ [name])) else mret tt.

Definition unlock_with (b : VaultBootstrap) (secret : UnlockSecret) : Result string CliError :=
  result_map_err cli_of_core
    (match secret with
     | Passphrase p => unlock_with_passphrase b p
     | RecoveryKey k => Vault.unlock_with_recovery_key b k
     end).

(** Before the database is filled, and after. *)
Definition stage_bootstrap (preflight : ReplacePreflight) (secret : UnlockSecret) (stage : StagedVault)
    (hook : nat -> path -> Result unit CliError) : Cli string :=
  let dir := sv_dir stage in
  _ ← lift_result (hook 0 dir);
  bytes ← lift_result (result_map_err (fun _ => link_err LE_InvalidBootstrap) (bootstrap_to_vec (rp_bootstrap preflight)));
  _ ← atomic_write (vault_file dir) (Bytes bytes);
  _ ← lift_result (hook 1 dir);
  key ← lift_result (unlock_with (rp_bootstrap preflight) secret);
  _ ← lift_result (hook 2 dir);
  _ ← open_db dir;
  _ ← lift_result (hook 3 dir);
  mret key.

Definition seal_stage (preflight : ReplacePreflight) (stage : StagedVault) (report : PullReport)
    (hook : nat -> path -> Result unit CliError) : Cli unit :=
  let dir := sv_dir stage in
  _ ← lift_result (hook 4 dir);
  _ ← in_db dir (verify_staged_cursor report);
  _ ← lift_result (hook 5 dir);
  _ ← in_db dir checkpoint;
  _ ← lift_result (hook 6 dir);
  _ ← open_db dir;
  _ ← in_db dir checkpoint;
  _ ← lift_result (hook 7 dir);
  _ ← for_each (remove_sidecar dir) ["notes.db-wal"; "notes.db-shm"];
  _ ← io (fs_sync (db_file dir));
  _ ← lift_result (hook 8 dir);
  local ← local_fingerprint dir;
  if negb (bool_decide (local = sv_fingerprint stage)) then throw (link_err LocalVaultMismatch)
  else
    _ ← VaultLink_save dir (rp_target_link preflight);
    _ ← lift_result (hook 9 dir);
    _ ← sync_dir dir;
    lift_result (hook 10 dir).

Definition stage_body (fuel : nat) (preflight : ReplacePreflight) (secret : UnlockSecret) (stage : StagedVault)
    (hook : nat -> path -> Result unit CliError) : Out bool :=
  key ← here (stage_bootstrap preflight secret stage hook);
  filled ← in_db_net (Cli_Storage (SE_Backend "no open database")) (sv_dir stage) (fill_staged_db fuel key);
  match filled with
  | None => mret false
  | Some report =>
      _ ← here (seal_stage preflight stage report hook);
      _ ← validate_remote_link (rp_target_link preflight);
      _ ← lift_result (hook 11 (sv_dir stage));
      mret true
  end.

(** A stage that is not returned is dropped, which removes its directory.  [None]
    when the pull did not end within the fuel. *)
Definition stage_with_hook (fuel : nat) (dir : path) (preflight : ReplacePreflight) (secret : UnlockSecret)
    (hook : nat -> path -> Result unit CliError) : Out (option StagedVault) :=
  _ ← lift_result (result_map_err (fun _ => link_err LE_InvalidBootstrap) (validate_bootstrap (rp_bootstrap preflight)));
  stage ← here (StagedVault_create dir (vl_vault_fingerprint (rp_target_link preflight)));
  result ← attempt (stage_body fuel preflight secret stage hook);
  match result with
  | Ok true => mret (Some stage)
  | Ok false => mret None
  | Err e => _ ← here (drop_staged stage); throw e
  end.

Definition stage_with_adapter (fuel : nat) (dir : path) (preflight : ReplacePreflight) (secret : UnlockSecret)
    : Out (option StagedVault) :=
  stage_with_hook fuel dir preflight secret (fun _ _ => Ok tt).

(** *** The sync cycle of [perform_sync], with a session made from the key *)

(** [now_epoch_secs()] *)
Definition epoch_secs : M (Local DB) SyncCycleError N :=
  fun l => (Ok (Z.to_N (system_time (l_clock l)).1), mkLocal (l_store l) (l_uuids l) (1 + l_clock l) (l_rng l)).

Definition cycle_with_key (fuel : nat) (key : string) (t : N)
    : M (Adapter.World Net DB) SyncCycleError (option SyncCycleReport) :=
  fun w => let p := SessionSync.run_sync_cycle_with_session (Net := Net) (S := DB) fuel SyncCycleOptions_default
                      (w, Session.from_key key t) in (p.1, p.2.1).

Definition run_cycle (fuel : nat) (vault_key : option string)
    : M (Adapter.World Net DB) SyncCycleError (option SyncCycleReport) :=
  match vault_key with
  | Some key =>
      t ← on_local (fun e => e) epoch_secs;
      cycle_with_key fuel key t
  | None => Cycle.run_sync_cycle fuel None SyncCycleOptions_default
  end.

(** The status a cycle ends with. *)
Definition sync_and_report (fuel : nat) (vault_key : option string)
    : M (Adapter.World Net DB) CliError (option SyncStatus) :=
  report_result ← attempt (run_cycle fuel vault_key);
  match report_result with
  | Err _ => mret (Some (SS_Error "guarded sync failed; check connection/session and retry"))
  | Ok None => mret None
  | Ok (Some report) =>
      conflicts ← attempt (on_local id (on_store Cli_Storage (Storage.list_conflicts (Some false))));
      let active_conflicts := match conflicts with Ok c => length c | Err _ => 0%nat end in
      mret (Some (if (0 <? active_conflicts)%nat then SS_Conflict active_conflicts
                  else SS_Synced (cy_mutations_accepted report)))
  end.

Definition guarded_sync (fuel : nat) (dir : path) (link : VaultLink) (vault_key : option string)
    : Out (option SyncStatus) :=
  _ ← validate_remote_link link;
  _ ← here (open_db dir);
  in_db_net (Cli_Storage (SE_Backend "no open database")) dir (sync_and_report fuel vault_key).
End with_adapter.

(** ** Over the network *)

(** The server at a base URL, as the transport of the HTTP adapter. *)
Record Host (Net : Type) : Type := mkHost {
  h_base : string;
  h_net : Net
}.
Arguments mkHost {Net}.
Arguments h_base {Net}.
Arguments h_net {Net}.

#[export] Instance Host_Transport {Net} `{Internet Net} : Transport (Host Net) := {
  send req := fun h => let '(r, n) := send_to (h_base h) req (h_net h) in (r, mkHost (h_base h) n)
}.

Section services.
Context {Net DB : Type} `{Internet Net} `{!LocalStorage DB} `{!Env} `{CliLib DB} `{JournalLib} `{!VaultFileLib DB} `{!LinkLib DB}.
Context `{HttpClientLib} `{AuthClientLib} `{CryptoLib} `{NoteLib} `{SearchLib} `{KdfLib} `{ChunkLib} `{ManifestLib}.
Abbreviation Cli A := (M (Local (Files.World DB)) CliError A).
Abbreviation Out A := (M (Adapter.World Net (Files.World DB)) CliError A).

(** A computation over the HTTP adapter [a]. *)
Definition via {E A} (a : NativeHttpSyncAdapter) (m : M (Adapter.World (HttpNet (Host Net)) (Files.World DB)) E A)
    : M (Adapter.World Net (Files.World DB)) E A :=
  fun w =>
    let '(r, w1) := m (Adapter.mkWorld (mkHttpNet a (mkHost (na_base_url a) (w_net w))) (w_local w)) in
    (r, Adapter.mkWorld (h_net (hn_server (w_net w1))) (w_local w1)).

Definition adapter (auth : StoredAuthSession) : Result NativeHttpSyncAdapter CliError :=
  url ← validate_and_normalize_server_url (as_server_url auth);
  _ ← auth_http_client (DB := DB);
  result_map_err (fun _ => Network "cannot initialize vault transport") (with_client url (Some (as_token auth))).

Definition same_identity (status : SessionStatusResponse) (auth : StoredAuthSession) : bool :=
  bool_decide (ssr_status status = "active") && bool_decide (ssr_account_id status = as_account_id auth)
  && bool_decide (ssr_device_id status = Some (as_device_id auth))
  && bool_decide (ssr_session_id status = as_session_id auth).

Definition verified_auth (dir : path) : Out StoredAuthSession :=
  _ ← here (recover dir);
  saved ← here (load_auth_session (auth_session_file dir));
  url ← lift_result (validate_and_normalize_server_url (as_server_url saved));
  let auth := mkStoredAuthSession url (as_account_id saved) (as_device_id saved) (as_session_id saved)
                (as_token saved) (as_expires_at saved) in
  status ← api_query_status auth;
  if negb (same_identity status auth)
  then throw (AuthError "server session identity does not match saved authentication")
  else mret auth.

(** The fingerprint of the vault on disk, if there is one. *)
Definition present_fingerprint (dir : path) : Cli (option string) :=
  present ← exists_path (vault_file dir);
  if (present : bool) then fp ← local_fingerprint dir; mret (Some fp) else mret None.

(** What the server says of the link, and what that makes of the status. *)
Definition inspect_remote (debug : string -> string) (dir : path) (local : option string) (link : option VaultLink)
    (status : string) (auth : StoredAuthSession) : Out (string * option string) :=
  status ← match local with
           | Some _ =>
               r ← attempt (here (validate_local_link dir auth));
               mret (match r with Ok _ => status | Err e => CliError_display debug e end)
           | None => mret status
           end;
  a ← lift_result (adapter auth);
  b ← via a (remote_bootstrap "inspect remote vault");
  remote ← (match b with
            | Some b => fp ← lift_result (fingerprint b); mret (Some fp)
            | None => mret None
            end);
  status ← match link with
           | Some l =>
               if bool_decide (remote = None) then mret (LinkError_display RemoteVaultMissing)
               else if negb (bool_decide (remote = Some (vl_vault_fingerprint l)))
               then mret (LinkError_display RemoteVaultMismatch)
               else
                 r ← attempt (here (validate_local_link dir auth));
                 mret (if is_ok r then "Linked (verified remote vault identity)" else status)
           | None => mret status
           end;
  mret (status, remote).

Definition inspect_vault_link (debug : string -> string) (dir : path) : Out VaultInspection :=
  _ ← here (recover dir);
  local ← here (present_fingerprint dir);
  link_result ← attempt (here (load_link dir));
  let status := match link_result with
                | Ok _ => "Linked (remote not verified)"
                | Err e => CliError_display debug e
                end in
  let link := ok link_result in
  auth ← attempt (here (load_auth_session (auth_session_file dir)));
  p ← match auth with
      | Ok auth => inspect_remote debug dir local link status auth
      | Err _ => mret (status, None)
      end;
  mret (mkVaultInspection local link p.1 p.2).

Definition link_local_vault_to_server (dir : path) : Out VaultLink :=
  auth ← verified_auth dir;
  a ← lift_result (adapter auth);
  via a (link_with_adapter dir auth).

Definition replacement_preflight (dir : path) : Out ReplacePreflight :=
  auth ← verified_auth dir;
  a ← lift_result (adapter auth);
  found ← via a (remote_bootstrap "fetch remote bootstrap");
  b ← ok_or (link_err RemoteVaultMissing) found;
  fp ← lift_result (fingerprint b);
  target_link ← lift_result (VaultLink_new auth fp);
  current_link ← attempt (here (load_link dir));
  current_fingerprint ← here (present_fingerprint dir);
  counts ← here (unsynced_counts dir);
  mret (mkReplacePreflight (ok current_link) current_fingerprint target_link counts b auth).

Definition already_initialized (dir : path) : Cli bool :=
  v ← exists_path (vault_file dir);
  if (v : bool) then mret true else
  d ← exists_path (db_file dir);
  if (d : bool) then mret true else exists_path (link_file dir).

Definition stage_remote_vault (fuel : nat) (dir : path) (preflight : ReplacePreflight) (secret : UnlockSecret)
    (replace discard_confirmed : bool) : Out (option StagedVault) :=
  if replace && negb discard_confirmed then throw (link_err ConfirmationRequired)
  else
    occupied ← (if replace then mret false else here (already_initialized dir));
    if (occupied : bool) then throw VaultAlreadyInitialized
    else
      current ← verified_auth dir;
      if negb (bool_decide (current = rp_auth preflight))
      then throw (AuthError "authentication changed after preflight")
      else
        a ← lift_result (adapter current);
        _ ← via a (validate_remote_link (rp_target_link preflight));
        via a (stage_with_adapter fuel dir preflight secret).

(** ** [client/sync.rs] *)

(** A database that cannot be opened or read counts as one without conflicts. *)
Definition open_conflicts (dir : path) : Cli nat :=
  r ← attempt (_ ← open_db dir; in_db dir (on_store Cli_Storage (Storage.list_conflicts (Some false))));
  mret (match r with Ok c => length c | Err _ => 0%nat end).

Definition get_initial_sync_status (debug : string -> string) (dir : path) : Cli SyncStatus :=
  present ← has_auth_session (auth_session_file dir);
  if negb present then mret SS_Offline
  else
    recovered ← attempt (recover dir);
    match recovered with
    | Err e => mret (SS_Error (CliError_display debug e))
    | Ok _ =>
        linked ← attempt (auth ← load_auth_session (auth_session_file dir); validate_local_link dir auth);
        match linked with
        | Err (VaultLink_ e) => mret (SS_Blocked e)
        | Err e => mret (SS_Error (CliError_display debug e))
        | Ok _ =>
            has_db ← exists_path (db_file dir);
            if negb has_db then mret SS_Idle
            else
              n ← open_conflicts dir;
              mret (if (n =? 0)%nat then SS_Idle else SS_Conflict n)
        end
    end.

(** [NativeHttpSyncAdapter::new] *)
Definition NativeHttpSyncAdapter_new (base_url : string) (auth_token : option string)
    : Result NativeHttpSyncAdapter SyncNetworkError :=
  _ ← result_map_err (fun e => NE_ConnectionFailed ("failed to init client: " +:+ e)) http_client_default;
  with_client base_url auth_token.

Definition sync_adapter (link : VaultLink) (auth : StoredAuthSession) : Result NativeHttpSyncAdapter CliError :=
  result_map_err (fun _ => Network "cannot initialize sync transport")
    (NativeHttpSyncAdapter_new (vl_server_origin link) (Some (as_token auth))).

Definition perform_sync (fuel : nat) (dir : path) (vault_key : option string) : Out (option SyncStatus) :=
  _ ← here (require_vault dir);
  present ← here (has_auth_session (auth_session_file dir));
  if negb present then mret (Some SS_Offline)
  else
    auth_session ← here (load_auth_session (auth_session_file dir));
    link ← here (validate_local_link dir auth_session);
    a ← lift_result (sync_adapter link auth_session);
    via a (guarded_sync fuel dir link vault_key).
End services.
