(* ===== verification/CliLinkFacts.v ===== *)
(** * Facts of linking, guarded sync and staging

    Sync touches neither the database nor the server unless the saved session, the
    link, the local vault and the vault of the server agree; staging a vault of the
    server leaves every file outside the staging directory as it was, at every
    moment, and a stage that is returned is complete and ready to be installed. *)

From stdpp Require Import options.
From stdpp Require Import gmap.
From S2P Require Import Prelude Sorting Protocol StorageModels Storage CoreErrors Time Env Queue Cursor ServerDb Text.
From S2P Require Import ServerAuth Diff3 Crypto Note Vault Search Session Merge Conflict Adapter Files CliSession.
From S2P Require Import VaultFiles VaultFilesFacts CliNotes CliNotesFacts Json HttpAdapter Push Pull Orchestrator Attachment.
From S2P Require Import AttachmentStream CliAuth CliAuthFacts CliLink.

(** ** Calls that leave the disk alone *)

Section same_disk.
Context {DB : Type} `{!Env} `{CliLib DB} `{JournalLib} `{!VaultFileLib DB} `{!LinkLib DB}.
Context `{HttpClientLib} `{AuthClientLib} `{CryptoLib} `{KdfLib}.
Abbreviation Cli A := (M (Local (Files.World DB)) CliError A).
Implicit Types (l : Local (Files.World DB)) (d : Disk DB).

Definition disk_is d l : Prop := l_disk l = d.

(** What a computation that leaves the disk alone returns, as a function of it. *)
Definition reads {A} (m : Cli A) (P : A -> Disk DB -> Prop) : Prop :=
  forall l, wp m (fun r l' => l_disk l' = l_disk l /\ match r with Ok a => P a (l_disk l) | Err _ => True end) l.

Lemma reads_wp {A} (m : Cli A) P (Q : result CliError A -> Local (Files.World DB) -> Prop) l :
  reads m P -> (forall e l', l_disk l' = l_disk l -> Q (Err e) l') ->
  (forall a l', l_disk l' = l_disk l -> P a (l_disk l) -> Q (Ok a) l') -> wp m Q l.
Proof. intros Hm Q1 Q2. eapply wp_mono; [apply Hm|]. intros [a|e] l' [Hd Ha]; [by apply Q2|by apply Q1]. Qed.

Lemma reads_ret {A} (a : A) : reads (mret a) (fun a' _ => a' = a).
Proof. by intros l. Qed.
Lemma reads_throw {A} (e : CliError) : reads (A := A) (throw e) (fun _ _ => False).
Proof. by intros l. Qed.
Lemma reads_lift {A} (r : Result A CliError) : reads (lift_result r) (fun a _ => r = Ok a).
Proof. intros l. unfold wp, lift_result. cbn. by destruct r. Qed.
Lemma reads_then {A B} (m : Cli A) (f : A -> Cli B) P R :
  reads m P -> (forall a, reads (f a) (R a)) -> reads (m ≫= f) (fun b d => exists a, P a d /\ R a b d).
Proof.
  intros Hm Hf l. apply wp_bind. apply (reads_wp _ _ _ _ Hm); [done|]. intros a l1 Hd Ha.
  apply (reads_wp _ _ _ _ (Hf a)); [intros; split; [congruence|done]|]. intros b l2 Hd2 Hb.
  split; [congruence|]. rewrite Hd in Hb. eauto.
Qed.
Lemma reads_if {A} (b : bool) (m m' : Cli A) P : reads m P -> reads m' P -> reads (if b then m else m') P.
Proof. by destruct b. Qed.
Lemma reads_mono {A} (m : Cli A) (P P' : A -> Disk DB -> Prop) :
  reads m P -> (forall a d, P a d -> P' a d) -> reads m P'.
Proof. intros Hm HP l. eapply wp_mono; [apply Hm|]. intros [a|e] l' [Hd Ha]; split; auto. Qed.

Lemma reads_plain {A} (text : IoError -> CliError) (ok : Disk DB -> Result A IoError * Disk DB) :
  (forall d, (ok d).2 = d) -> reads (io_as text (plain ok)) (fun a d => (ok d).1 = Ok a).
Proof.
  intros Hok l. apply (wp_io_plain _ _ (fun _ => True)); [apply Kept_true|done| |].
  - intros e l' Hd _ _ _. done.
  - intros l' Hd _ _. rewrite Hok in Hd. split; [done|]. by destruct (ok (l_disk l)).1.
Qed.
Lemma reads_exists p : reads (exists_path p) (fun b d => b = exists_on d p).
Proof. intros l. by apply wp_exists. Qed.

Lemma reads_bytes text p : reads (read_bytes text p) (fun b d => exists c, files d !! p = Some c /\ b = bytes_of c).
Proof.
  eapply reads_mono; [apply reads_then; [by apply reads_plain|intros c; apply reads_ret]|].
  intros b d (c & Hc & ->). exists c. split; [|done]. cbn in Hc. destruct (files d !! p); congruence.
Qed.

(** No journal: recovery only looks. *)
Definition no_journal dir d : Prop := files d !! (dir ++ [JOURNAL]) = None.

Lemma wp_recover_none dir (Q : result CliError unit -> Local (Files.World DB) -> Prop) l :
  no_journal dir (l_disk l) ->
  (forall e l', l_disk l' = l_disk l -> Q (Err e) l') -> (forall l', l_disk l' = l_disk l -> Q (Ok tt) l') ->
  wp (recover dir) Q l.
Proof.
  intros Hj Q1 Q2. unfold recover. apply wp_bind.
  apply (wp_io_result _ (fun _ => True)); [apply Kept_true|done| |].
  - intros msg l1 Hd _ _ _. apply wp_throw. by apply Q1.
  - intros l1 Hd _ _. cbn in Hd |- *. rewrite Hj. apply wp_ret. by apply Q2.
Qed.

(** The identities that must agree before sync: the link file, the saved session
    and the vault on the disk. *)
Record bound dir (auth : StoredAuthSession) (link : VaultLink) d : Prop := {
  bd_link : exists c, files d !! link_file dir = Some c /\ link_from_slice (bytes_of c) = Ok link;
  bd_valid : link_ok link = true;
  bd_account : vl_account_id link = as_account_id auth;
  bd_origin : validate_and_normalize_server_url (as_server_url auth) = Ok (vl_server_origin link);
  bd_vault : exists c b, files d !! vault_file dir = Some c /\ CliNotes.bootstrap_from_slice (bytes_of c) = Ok b
               /\ fingerprint b = Ok (vl_vault_fingerprint link)
}.

Lemma reads_link dir : reads (load_link dir) (fun link d =>
  link_ok link = true /\ exists c, files d !! link_file dir = Some c /\ link_from_slice (bytes_of c) = Ok link).
Proof.
  eapply reads_mono.
  { apply reads_then; [by apply reads_plain|]. intros c. apply reads_then; [apply reads_lift|]. intros link.
    apply reads_then; [apply reads_lift|]. intros u. apply reads_ret. }
  intros link d (c & Hc & link' & Hl & u & Hv & Heq). cbn in Hc, Heq. subst link'. split.
  - unfold VaultLink_validate in Hv. by destruct (link_ok link).
  - exists c. split; [by destruct (files d !! _); congruence|]. by destruct (link_from_slice _); [injection Hl as ->|].
Qed.

Lemma reads_fingerprint dir : reads (local_fingerprint dir) (fun fp d =>
  exists c b, files d !! vault_file dir = Some c /\ CliNotes.bootstrap_from_slice (bytes_of c) = Ok b /\ fingerprint b = Ok fp).
Proof.
  eapply reads_mono.
  { apply reads_then; [|intros b; apply reads_lift]. apply reads_then; [apply reads_bytes|]. intros s.
    apply reads_then; [apply reads_lift|]. intros b. apply reads_then; [apply reads_lift|]. intros u. apply reads_ret. }
  intros fp d (b & (s & (c & Hc & ->) & b' & Hb & u & _ & ->) & Hf). exists c, b'. split_and!; [done| |done].
  by destruct (CliNotes.bootstrap_from_slice _); [injection Hb as ->|].
Qed.

Lemma reads_session p : reads (load_auth_session p) (fun s d =>
  exists c, files d !! p = Some c /\ auth_session_from_slice (bytes_of c) = Ok s).
Proof.
  eapply reads_mono.
  { apply reads_then; [apply reads_exists|]. intros b. apply (reads_if (negb b)).
    - intros l. by apply wp_throw.
    - apply reads_then; [apply reads_bytes|]. intros s. apply reads_lift. }
  intros s d (b & _ & t & (c & Hc & ->) & Hs). exists c. split; [done|].
  by destruct (auth_session_from_slice _); [injection Hs as ->|].
Qed.

Lemma wp_local_link dir auth (Q : result CliError VaultLink -> Local (Files.World DB) -> Prop) l :
  no_journal dir (l_disk l) ->
  (forall e l', l_disk l' = l_disk l -> Q (Err e) l') ->
  (forall link l', l_disk l' = l_disk l -> bound dir auth link (l_disk l) -> Q (Ok link) l') ->
  wp (validate_local_link dir auth) Q l.
Proof.
  intros Hj Q1 Q2. unfold validate_local_link. apply wp_bind, wp_recover_none; [done|done|]. intros l1 Hd1.
  apply wp_bind, (reads_wp _ _ _ _ (reads_link dir)); [intros; apply Q1; congruence|].
  intros link l2 Hd2 [Hok Hlink]. case_bool_decide as Hacc; cbn [negb]; [|apply wp_throw, Q1; congruence].
  apply wp_bind, wp_lift. destruct (validate_and_normalize_server_url _) as [origin|] eqn:Hurl; [|apply Q1; congruence].
  case_bool_decide as Horg; cbn [negb]; [|apply wp_throw, Q1; congruence].
  apply wp_bind, (reads_wp _ _ _ _ (reads_fingerprint dir)); [intros; apply Q1; congruence|].
  intros fp l3 Hd3 Hfp. case_bool_decide as Hv; cbn [negb]; [|apply wp_throw, Q1; congruence].
  apply wp_ret, Q2; [congruence|]. rewrite <- Hd1. split; [done|done|done|by subst|]. rewrite Hv, <- Hd2. done.
Qed.
End same_disk.

(** ** Who is talked to *)

(** A property of the network that every call of the adapter keeps is kept by the
    whole sync cycle. *)
Section net.
Context {Net DB : Type} `{SyncServerAdapter Net} `{StorageSpec DB} `{!Env} `{CryptoLib} `{NoteLib}.
Context (J : Net -> Prop).
Hypothesis J_push : forall r n, J n -> J (ad_push_mutation r n).2.
Hypothesis J_pull : forall after limit n, J n -> J (ad_pull_changes after limit n).2.
Implicit Types (w : Adapter.World Net DB).

Definition net_is {S} (w : Adapter.World Net S) : Prop := J (w_net w).

Lemma net_local {S E E' A} (conv : E -> E') (m : M (Local S) E A) : keeps net_is (on_local (Net := Net) conv m).
Proof. intros w Hw. unfold on_local. apply wp_map_err, wp_zoom. by apply wp_intro. Qed.

Lemma net_call {S E A} (conv : SyncNetworkError -> E) (m : M Net SyncNetworkError A) :
  (forall n, J n -> J (m n).2) -> keeps net_is (on_net (S := S) conv m).
Proof.
  intros Hm w Hw. unfold on_net. apply wp_map_err, wp_zoom, wp_intro. intros r n Hrun.
  specialize (Hm _ Hw). by rewrite Hrun in Hm.
Qed.
#[local] Hint Resolve net_local : keeps.

Lemma net_answer options mutation answer report :
  keeps net_is (Push.handle_answer (Net := Net) (S := DB) options mutation answer report).
Proof.
  unfold Push.handle_answer. destruct answer as [resp|[]]; eauto 8 with keeps.
Qed.

Lemma net_push options : keeps net_is (Push.push_pending_changes (Net := Net) (S := DB) options).
Proof using J_push.
  apply keeps_then; [apply net_local|]. intros l. generalize PushReport_default.
  induction l as [|m l IH]; intros report; cbn [Push.push_loop]; [eauto with keeps|].
  destruct (Push.limit_reached _ _); [eauto with keeps|]. destruct (negb _); [apply IH|].
  apply keeps_then; [apply net_local|]. intros _.
  apply keeps_then; [apply keeps_attempt, net_call; by apply J_push|]. intros answer.
  apply keeps_then; [apply net_answer|]. intros [rep go]. cbn. destruct go; [apply IH|eauto with keeps].
Qed.

Lemma net_pull fuel key options : keeps net_is (Pull.pull_remote_changes (Net := Net) (S := DB) fuel key options).
Proof using J_pull.
  intros w Hw. apply (wp_pull_net J); [|done]. intros after limit n r n' Hrun Hn.
  specialize (J_pull after limit n Hn). by rewrite Hrun in J_pull.
Qed.
#[local] Hint Resolve net_push net_pull : keeps.

Lemma net_cycle fuel options : keeps net_is (Cycle.run_sync_cycle (Net := Net) (S := DB) fuel None options).
Proof using J_push J_pull.
  unfold Cycle.run_sync_cycle. apply keeps_then; [eauto with keeps|]. intros _.
  apply keeps_then; [eauto with keeps|]. intros c0. apply keeps_then; [eauto with keeps|]. intros [report|]; [|eauto with keeps].
  apply keeps_then; [eauto with keeps|]. intros push. apply keeps_then; [apply keeps_if; eauto with keeps|].
  intros [followup|]; eauto 8 with keeps.
Qed.

(** The same with a session beside the world. *)
Definition net_is_too {S} (p : Adapter.World Net S * VaultSession) : Prop := net_is p.1.

Lemma net_on_world {S E A} (m : M (Adapter.World Net S) E A) : keeps net_is m -> keeps net_is_too (on_world m).
Proof. intros Hm [w s] Hw. apply wp_zoom. eapply wp_mono; [by apply Hm|]. by intros r w'. Qed.
Lemma net_session {S E A} (m : M (Adapter.World Net S * VaultSession) E A) :
  (forall p, (m p).2.1 = p.1) -> keeps net_is_too m.
Proof. intros Hm p Hp. unfold wp, net_is_too. by rewrite Hm. Qed.

Lemma net_session_pull fuel options : keeps net_is_too (SessionSync.pull_with_session (Net := Net) (S := DB) fuel options).
Proof using J_pull.
  unfold SessionSync.pull_with_session. apply keeps_then; [by apply net_session|]. intros session.
  apply keeps_then; [by apply net_on_world, net_pull|]. intros [report|]; [|eauto with keeps].
  apply keeps_then; [|eauto with keeps]. apply keeps_if; [by apply net_session|eauto with keeps].
Qed.

Lemma net_session_cycle fuel options :
  keeps net_is_too (SessionSync.run_sync_cycle_with_session (Net := Net) (S := DB) fuel options).
Proof using J_push J_pull.
  pose proof net_session_pull as Hpull. pose proof (@net_on_world DB) as Hworld. unfold SessionSync.run_sync_cycle_with_session.
  apply keeps_then; [eauto with keeps|]. intros _. apply keeps_then; [eauto with keeps|]. intros c0.
  apply keeps_then; [eauto with keeps|]. intros [report|]; [|eauto with keeps].
  apply keeps_then; [by apply net_session|]. intros session. apply keeps_then; [eauto with keeps|]. intros push.
  apply keeps_then; [apply keeps_if; eauto with keeps|]. intros [followup|]; [|eauto with keeps].
  apply keeps_then; [eauto with keeps|]. intros c1. apply keeps_then; eauto with keeps.
Qed.

Lemma net_sync fuel key : keeps net_is (sync_and_report (Net := Net) (DB := DB) fuel key).
Proof using J_push J_pull.
  apply keeps_then.
  - apply keeps_attempt. destruct key as [key|]; cbn [run_cycle]; [|apply net_cycle].
    apply keeps_then; [eauto with keeps|]. intros t w Hw. unfold cycle_with_key, wp. cbn.
    apply (net_session_cycle fuel SyncCycleOptions_default (w, Session.from_key key t)). exact Hw.
  - intros [[report|]|e]; [|eauto with keeps..]. apply keeps_then; eauto with keeps.
Qed.
End net.

(** ** Sync is guarded *)

Section guarded.
Context {Net DB : Type} `{Internet Net} `{StorageSpec DB} `{!Env} `{CliLib DB} `{JournalLib} `{!VaultFileLib DB} `{!LinkLib DB}.
Context `{HttpClientLib} `{AuthClientLib} `{CryptoLib} `{NoteLib} `{SearchLib} `{KdfLib}.
Abbreviation W := (Adapter.World Net (Files.World DB)).
Implicit Types (w : W).

(** Asking the server behind [a] for its vault. *)
Definition ask (a : NativeHttpSyncAdapter) (n : Net) : Result (option VaultBootstrap) SyncNetworkError * Net :=
  let p := http_get_vault_bootstrap (mkHttpNet a (mkHost (na_base_url a) n)) in (p.1, h_net (hn_server p.2)).

Lemma wp_via {E A} a (m : M (Adapter.World (HttpNet (Host Net)) (Files.World DB)) E A) Q w :
  wp m (fun r x => Q r (Adapter.mkWorld (h_net (hn_server (w_net x))) (w_local x)))
    (Adapter.mkWorld (mkHttpNet a (mkHost (na_base_url a) (w_net w))) (w_local w)) ->
  wp (via a m) Q w.
Proof. unfold wp, via. by destruct (m _) as [r x]. Qed.

(** The vault of the server is the linked one. *)
Definition remote_linked (a : NativeHttpSyncAdapter) (link : VaultLink) (n : Net) : Prop :=
  exists b, (ask a n).1 = Ok (Some b) /\ fingerprint b = Ok (vl_vault_fingerprint link).

Lemma wp_remote_link a link (Q : result CliError unit -> Adapter.World (HttpNet (Host Net)) (Files.World DB) -> Prop) n l :
  let x := Adapter.mkWorld (mkHttpNet a (mkHost (na_base_url a) n)) l in
  (forall e x', w_local x' = l -> h_net (hn_server (w_net x')) = (ask a n).2 -> Q (Err e) x') ->
  (forall x', w_local x' = l -> remote_linked a link n -> Q (Ok tt) x') ->
  wp (validate_remote_link link) Q x.
Proof.
  intros x Q1 Q2. unfold validate_remote_link, remote_bootstrap. apply wp_bind. unfold on_net.
  apply wp_map_err, wp_zoom, wp_intro. intros r hn Hrun. cbn [x w_net] in Hrun.
  assert (ask a n = (r, h_net (hn_server hn))) as Hask.
  { unfold ask. change http_get_vault_bootstrap with (ad_get_vault_bootstrap (Net := HttpNet (Host Net))). by rewrite Hrun. }
  destruct r as [[b|]|e]; cbn [result_map_err]; [|apply wp_bind; cbn; by apply Q1; [|rewrite Hask]|by apply Q1; [|rewrite Hask]].
  apply wp_bind, wp_ret, wp_bind, wp_lift.
  destruct (fingerprint b) as [fp|e] eqn:Hfp; [|by apply Q1; [|rewrite Hask]].
  case_bool_decide as Heq; cbn [negb]; [|by apply wp_throw, Q1; [|rewrite Hask]].
  apply wp_ret, Q2; [done|]. exists b. rewrite Hask, Hfp. by subst.
Qed.

(** *** Nothing is sent to another server *)

Section one_server.
Context (a : NativeHttpSyncAdapter) (I : Net -> Prop).
Hypothesis I_send : forall req n, I n -> I (send_to (na_base_url a) req n).2.

Definition speaks (h : HttpNet (Host Net)) : Prop :=
  h_base (hn_server h) = na_base_url (hn_adapter h) /\ hn_adapter h = a /\ I (h_net (hn_server h)).

Lemma speaks_call method path body : keeps speaks (HttpAdapter.call (Srv := Host Net) method path body).
Proof using I_send.
  intros [ad [base n]] (Hbase & Had & Hn). cbn in *. subst. unfold wp, HttpAdapter.call, send, Host_Transport. cbn.
  specialize (I_send (prepare_request a method path body) n Hn). by destruct (send_to _ _ n) as [r n'].
Qed.
#[local] Hint Resolve speaks_call : keeps.

Lemma speaks_get : keeps speaks (http_get_vault_bootstrap (Srv := Host Net)).
Proof using I_send. apply keeps_then; [eauto with keeps|]. intros resp. apply keeps_if; eauto with keeps. Qed.
Lemma speaks_push r : keeps speaks (http_push_mutation (Srv := Host Net) r).
Proof using I_send. apply keeps_then; [eauto with keeps|]. intros _. apply keeps_then; eauto with keeps. Qed.
Lemma speaks_pull after limit : keeps speaks (http_pull_changes (Srv := Host Net) after limit).
Proof using I_send. apply keeps_then; eauto with keeps. Qed.

Lemma speaks_sync fuel dir link key : keeps (net_is speaks) (guarded_sync (DB := DB) fuel dir link key).
Proof using I_send.
  unfold guarded_sync. apply keeps_then.
  - unfold validate_remote_link. apply keeps_then; [apply net_call; intros h; apply speaks_get|]. intros found.
    apply keeps_then; [eauto with keeps|]. intros b. apply keeps_then; [eauto with keeps|]. intros fp.
    apply keeps_if; eauto with keeps.
  - intros _. apply keeps_then; [apply net_local|]. intros _ x Hx. unfold wp, in_db_net.
    destruct (files _ !! _) as [[]|]; try done.
    assert (net_is speaks (sync_and_report fuel key (Adapter.mkWorld (w_net x)
      (mkLocal d (l_uuids (w_local x)) (l_clock (w_local x)) (l_rng (w_local x))))).2) as Hnet.
    { apply (net_sync speaks); [intros r h; apply speaks_push|intros aft lim h; apply speaks_pull|done]. }
    by destruct (sync_and_report _ _ _) as [r x1].
Qed.
End one_server.

(** C22. Sync is guarded.  With no replacement pending, whatever fails: a sync either
    finds that the saved session, the link, the vault on the disk and the vault of
    the server name one account, one server and one vault, or it has left the disk
    as it was, the database included, and has asked the linked server for its
    vault's bootstrap at most once and sent nothing else.  And in any case nothing is
    sent to a server other than the linked one: a property of the outside that
    requests to that server keep is kept. *)
Theorem sync_guarded fuel dir key w r w' :
  no_journal dir (w_disk w) -> perform_sync fuel dir key w = (r, w') ->
  ((exists c auth link a,
      files (w_disk w) !! auth_session_file dir = Some c /\ auth_session_from_slice (bytes_of c) = Ok auth
      /\ bound dir auth link (w_disk w) /\ sync_adapter link auth = Ok a /\ remote_linked a link (w_net w))
   \/ w_disk w' = w_disk w
      /\ (w_net w' = w_net w
          \/ exists auth link a, bound dir auth link (w_disk w) /\ sync_adapter link auth = Ok a
               /\ w_net w' = (ask a (w_net w)).2))
  /\ forall I : Net -> Prop,
       (forall auth link a req n, bound dir auth link (w_disk w) -> sync_adapter link auth = Ok a ->
          I n -> I (send_to (na_base_url a) req n).2) ->
       I (w_net w) -> I (w_net w').
Proof using Type*.
  intros Hj. as_wp. unfold perform_sync.
  match goal with |- wp _ ?P _ =>
    assert (forall l, l_disk l = w_disk w -> P (Ok None) (set_local l w)) as Hleft
      by (intros l Hl; split; [right; split; [done|by left]|by intros I HI Hw])
  end.
  apply wp_bind, wp_here. unfold require_vault. apply wp_bind, wp_recover_none; [done|by intros; apply Hleft|].
  intros l1 Hd1. change (l_disk (w_local w)) with (w_disk w) in Hd1.
  apply wp_bind, wp_exists. destruct (exists_on _ _); [|by apply wp_throw, Hleft]. apply wp_ret.
  apply wp_bind, wp_here, wp_exists. cbn [w_local set_local].
  destruct (exists_on _ _); cbn [negb]; [|by apply wp_ret, Hleft].
  apply wp_bind, wp_here, (reads_wp _ _ _ _ (reads_session _)); cbn [w_local set_local];
    [intros e l2 Hd2; apply Hleft; congruence|].
  intros auth l2 Hd2 (c & Hc & Hauth). rewrite Hd1 in Hc.
  assert (l_disk l2 = w_disk w) as Hd2' by congruence.
  apply wp_bind, wp_here, wp_local_link; cbn [w_local set_local]; [by rewrite Hd2'|intros e l3 Hd3; apply Hleft; congruence|].
  intros link l3 Hd3 Hb. rewrite Hd2' in Hb. assert (l_disk l3 = w_disk w) as Hd3' by congruence.
  apply wp_bind, wp_lift. destruct (sync_adapter link auth) as [a|] eqn:Ha; [|by apply Hleft].
  apply wp_via. cbn [w_net w_local set_local]. apply wp_and.
  - unfold guarded_sync. apply wp_bind, wp_remote_link.
    + intros e x Hl Hn. right. cbn. rewrite Hn. unfold w_disk. cbn. rewrite Hl. split; [done|]. right. by exists auth, link, a.
    + intros x Hl Hrem. apply wp_intro. intros r x' _. left. exists c, auth, link, a. done.
  - apply wp_intro. intros r x Hrun I HI Hw.
    assert (net_is (speaks a I) x) as (_ & _ & Hx); [|done].
    eapply (wp_run _ (fun _ x => net_is (speaks a I) x)); [|exact Hrun].
    apply speaks_sync; [intros req n; by eapply HI|done].
Qed.
End guarded.

(** ** Facts of staging a vault of the server ([client/vault_link.rs])

    Staging writes below the staging directory only, at every moment; a stage that
    is returned holds the bootstrap, the link and a database whose objects all open
    under the unlocked key, and satisfies what the crash-safe replacement of
    [VaultFilesFacts.v] asks of a stage. *)

(** ** Computations below the stage *)

Section below.
Context {DB : Type} `{!LocalStorage DB} `{!Env} `{CliLaws DB} `{JournalLaws} `{!VaultFileLib DB} `{!LinkLib DB}.
Context `{HttpClientLib} `{AuthClientLib} `{CryptoLib} `{KdfLib}.
Abbreviation Cli A := (M (Local (Files.World DB)) CliError A).
Implicit Types (l : Local (Files.World DB)) (d : Disk DB) (n : string) (c : content DB).

(** The stage, and the disk before it was made. *)
Variables (stage : path) (d0 : Disk DB).
Hypothesis Hdeep : forall n, stage ++ [n] ∉ dirs d0.
Hypothesis Hnew : stage ∉ dirs d0.

(** Outside the stage the disk is as before. *)
Definition Core d : Prop :=
  (forall q, parent_of q <> stage -> files d !! q = files d0 !! q)
  /\ (dirs d = dirs d0 \/ dirs d = {[stage]} ∪ dirs d0).

(** The stage holds these files. *)
Record Stg (X : list (string * content DB)) d : Prop := {
  stg_core : Core d;
  stg_open : dirs d = {[stage]} ∪ dirs d0;
  stg_files : Forall (fun p => files d !! (stage ++ [p.1]) = Some p.2) X
}.

Definition plain_name n : Prop := forall id, n <> write_tmp_name id.

Lemma parent_stage n : parent_of (stage ++ [n]) = stage.
Proof. unfold parent_of. apply removelast_last. Qed.

Lemma Core_put n c d : Core d -> Core (put_file (stage ++ [n]) c d).
Proof.
  intros [Hf Hd]. split; [|done]. intros q Hq. cbn. rewrite lookup_insert_ne; [by apply Hf|].
  intros <-. by rewrite parent_stage in Hq.
Qed.
Lemma Core_drop q d : parent_of q = stage -> Core d -> Core (drop_file q d).
Proof.
  intros Hq [Hf Hd]. split; [|done]. intros q' Hq'. cbn. rewrite lookup_delete_ne; [by apply Hf|]. by intros <-.
Qed.

Lemma Stg_put X n c d : n ∉ X.*1 -> Stg X d -> Stg ((n, c) :: X) (put_file (stage ++ [n]) c d).
Proof.
  intros Hn [Hc Ho Hf]. split; [by apply Core_put|done|]. constructor; [apply lookup_insert_eq|].
  rewrite Forall_forall in Hf |- *. intros [m b] Hin. cbn. rewrite lookup_insert_ne; [by apply (Hf (m, b))|].
  apply last_ne. intros ->. apply Hn, list_elem_of_fmap. by exists (m, b).
Qed.
Lemma Stg_drop X n d : n ∉ X.*1 -> Stg X d -> Stg X (drop_file (stage ++ [n]) d).
Proof.
  intros Hn [Hc Ho Hf]. split; [by apply Core_drop; [apply parent_stage|]|done|].
  rewrite Forall_forall in Hf |- *. intros [m b] Hin. cbn. rewrite lookup_delete_ne; [by apply (Hf (m, b))|].
  apply last_ne. intros ->. apply Hn, list_elem_of_fmap. by exists (m, b).
Qed.

Lemma Stg_equiv X d d' : Forall plain_name X.*1 -> disk_equiv stage d' d -> Stg X d -> Stg X d'.
Proof.
  intros HX [Hd Hf] [[Hc Hcd] Ho HF]. split; [split|by rewrite Hd|].
  - intros q Hq. rewrite Hf; [by apply Hc|]. intros id ->. by rewrite (parent_of_tmp stage) in Hq.
  - by rewrite Hd.
  - pose proof (proj1 (Forall_forall _ _) HX) as HX'. rewrite Forall_forall in HF |- *. intros [m b] Hin. cbn. rewrite Hf; [by apply (HF (m, b))|].
    intros id Heq%app_inv_head. injection Heq as ->. eapply HX'; [|done]. apply list_elem_of_fmap. by exists (write_tmp_name id, b).
Qed.

#[local] Instance Core_stable : Proper (disk_equiv stage ==> iff) Core.
Proof.
  assert (forall d d', disk_equiv stage d d' -> Core d -> Core d') as Himp.
  { intros d d' [Hd Hf] [Hc Hcd]. split; [|by rewrite <- Hd]. intros q Hq. rewrite <- Hf; [by apply Hc|].
    intros id ->. by rewrite (parent_of_tmp stage) in Hq. }
  intros d d' [Hd Hf]. split; apply Himp; [done|]. split; [done|]. intros q Hq. symmetry. by apply Hf.
Qed.

(** [m], run where every disk satisfies [Core] and the current one [P], keeps that
    and ends with [Q]. *)
Definition does (P : Disk DB -> Prop) {A} (m : Cli A) (Q : A -> Disk DB -> Prop) : Prop :=
  forall l, disks Core l -> P (l_disk l) ->
    wp m (fun r l' => disks Core l' /\ match r with Ok a => Q a (l_disk l') | Err _ => True end) l.

Lemma does_bind P {A B} (m : Cli A) (f : A -> Cli B) Q R :
  does P m Q -> (forall a, does (Q a) (f a) R) -> does P (m ≫= f) R.
Proof.
  intros Hm Hf l Hl HP. apply wp_bind. eapply wp_mono; [by apply Hm|].
  intros [a|e] l' [Hl' HQ]; [by apply Hf|done].
Qed.
Lemma does_ret P {A} (a : A) : does P (mret a) (fun a' d => a' = a /\ P d).
Proof. intros l Hl HP. by apply wp_ret. Qed.
Lemma does_throw P {A} e Q : does P (throw (A := A) e) Q.
Proof. intros l Hl HP. by apply wp_throw. Qed.
Lemma does_lift P {A} (r : Result A CliError) : does P (lift_result r) (fun a d => r = Ok a /\ P d).
Proof. intros l Hl HP. apply wp_lift. split; [done|]. by destruct r. Qed.
Lemma does_mono P P' {A} (m : Cli A) (Q Q' : A -> Disk DB -> Prop) :
  does P m Q -> (forall d, P' d -> P d) -> (forall a d, Q a d -> Q' a d) -> does P' m Q'.
Proof.
  intros Hm HP HQ l Hl HP'. eapply wp_mono; [apply Hm; auto|]. intros [a|e] l' [Hl' Ha]; split; auto.
Qed.
Lemma does_reads P {A} (m : Cli A) R : keeps (disks Core) m -> reads m R -> does P m (fun a d => R a d /\ P d).
Proof.
  intros Hk Hr l Hl HP. eapply wp_mono; [apply wp_and; [by apply Hk|apply Hr]|].
  intros [a|e] l' [Hl' [Hd Ha]]; (split; [done|]); [|done]. by rewrite Hd.
Qed.
Lemma does_look P {A} (m : Cli A) R : keeps (disks Core) m -> reads m R -> does P m (fun _ => P).
Proof. intros Hk Hr. eapply does_mono; [by apply does_reads|done|]. by intros a d [_ HP]. Qed.
(** A fact that does not depend on the disk. *)
Lemma does_pure (p : Prop) P {A} (m : Cli A) Q : (p -> does P m Q) -> does (fun d => p /\ P d) m Q.
Proof. intros Hm l Hl [Hp HP]. by apply Hm. Qed.
Lemma does_ex {B} (P : B -> Disk DB -> Prop) {A} (m : Cli A) Q :
  (forall b, does (P b) m Q) -> does (fun d => exists b, P b d) m Q.
Proof. intros Hm l Hl [b HP]. by apply (Hm b). Qed.

(** *** The calls *)

Lemma does_write X n c :
  plain_name n -> n ∉ X.*1 -> Forall plain_name X.*1 ->
  does (Stg X) (atomic_write (stage ++ [n]) c) (fun _ => Stg ((n, c) :: X)).
Proof using All.
  intros Hn HX Hnames l Hl HS. pose proof (stg_core _ _ HS) as HC. pose proof (stg_open _ _ HS) as HO.
  assert (forall m, stage ++ [m] ∉ dirs (l_disk l)) as Hnodir.
  { intros m. rewrite HO. intros [Hin%elem_of_singleton|Hin]%elem_of_union; [|by apply (Hdeep m)].
    assert (length (stage ++ [m]) = length stage) as Hlen by (by rewrite Hin). rewrite length_app in Hlen. cbn in Hlen. lia. }
  apply (wp_atomic_write stage Core n c); [apply Core_stable|..].
  - intros id Heq%app_inv_head. injection Heq as ->. by eapply Hn.
  - apply Hnodir.
  - rewrite HO. set_solver.
  - intros id. apply Hnodir.
  - done.
  - by apply Core_put.
  - intros l' Hd Hk _. split; [done|]. apply (Stg_equiv _ (put_file (stage ++ [n]) c (l_disk l)));
      [by constructor|done|by apply Stg_put].
  - done.
Qed.

Lemma does_plain X {A} (text : IoError -> CliError) (ok : Disk DB -> Result A IoError * Disk DB) Q :
  (forall d, Stg X d -> Core (ok d).2 /\ forall a, (ok d).1 = Ok a -> Q a (ok d).2) ->
  does (Stg X) (io_as text (plain ok)) Q.
Proof.
  intros Hok l Hl HS. destruct (Hok _ HS) as [HC HQ]. apply (wp_io_plain _ _ Core); [done..| |].
  - intros e l' Hd Hk _ _. done.
  - intros l' Hd Hk _. split; [done|]. destruct (ok (l_disk l)).1 as [a|e]; cbn; [|done]. rewrite Hd. by apply HQ.
Qed.

Abbreviation db := "notes.db".

Lemma does_open X : db ∉ X.*1 ->
  does (Stg X) (open_db stage) (fun _ d => exists b, Stg ((db, Database b) :: X) d).
Proof using All.
  intros Hdb. apply does_plain. intros d HS. pose proof (stg_open _ _ HS) as HO.
  assert (mkDisk (files d) ({[parent_of (db_file stage)]} ∪ dirs d) = d) as Hsame.
  { destruct d as [f dd]. cbn in *. unfold db_file. rewrite parent_stage, HO. f_equal. set_solver. }
  destruct (files d !! db_file stage) as [[[|ch b]|b]|] eqn:Hf; cbn [fst snd].
  - split; [apply Core_put, HS|]. intros _ _. eexists. by apply Stg_put.
  - split; [apply HS|done].
  - split; [apply HS|]. intros _ _. exists b. destruct HS as [HC _ HF]. split; [done..|]. by constructor.
  - rewrite Hsame. split; [apply Core_put, HS|]. intros _ _. eexists. by apply Stg_put.
Qed.

Lemma Stg_db X b d : Stg ((db, Database b) :: X) d -> files d !! db_file stage = Some (Database b).
Proof. intros [_ _ HF]. by inversion HF. Qed.

Lemma does_reopen X b :
  does (Stg ((db, Database b) :: X)) (open_db stage) (fun _ => Stg ((db, Database b) :: X)).
Proof. apply does_plain. intros d HS. rewrite (Stg_db _ _ _ HS). by split; [apply HS|]. Qed.

(** Replacing the database that is there. *)
Lemma Stg_replace X b b' d : db ∉ X.*1 ->
  Stg ((db, Database b) :: X) d -> Stg ((db, Database b') :: X) (put_file (db_file stage) (Database b') d).
Proof. intros Hdb [HC HO HF]. apply Stg_put; [done|]. split; [done..|]. by inversion HF. Qed.

Lemma does_in_db X b {A} (m : M (Local DB) CliError A) (R : A -> DB -> Prop) : db ∉ X.*1 ->
  (forall u k g, wp m (fun r x => match r with Ok a => R a (l_store x) | Err _ => True end) (mkLocal b u k g)) ->
  does (Stg ((db, Database b) :: X)) (in_db stage m)
    (fun a d => exists b', R a b' /\ Stg ((db, Database b') :: X) d).
Proof.
  intros Hdb Hm l Hl HS. unfold wp, in_db. rewrite (Stg_db _ _ _ HS).
  specialize (Hm (l_uuids l) (l_clock l) (l_rng l)). unfold wp in Hm.
  destruct (m _) as [r l1]. cbn in *. split.
  - unfold disks, Kept, now_disk. cbn. constructor; [by eapply Core_put, HS|exact Hl].
  - destruct r as [a|e]; [|done]. exists (l_store l1). split; [done|]. unfold l_disk at 1. cbn. by eapply Stg_replace.
Qed.

Lemma does_sidecar X n : n ∉ X.*1 -> does (Stg X) (remove_sidecar stage n) (fun _ => Stg X).
Proof.
  intros Hn. unfold remove_sidecar. eapply does_bind; [eapply does_look; [apply keeps_exists|apply reads_exists]|].
  intros [|]; cbn beta.
  - apply does_plain. intros d HS. destruct (files d !! (stage ++ [n])); (split; [|intros ? ?]); try done;
      [by apply Core_drop; [apply parent_stage|apply HS]|by apply Stg_drop|apply HS].
  - eapply does_mono; [apply does_ret|done|]. by intros a d [_ HS].
Qed.

Lemma does_sync X p : does (Stg X) (io (fs_sync p)) (fun _ => Stg X).
Proof. apply does_plain. intros d HS. by split; [apply HS|]. Qed.

Lemma does_fingerprint X : does (Stg X) (local_fingerprint stage) (fun fp d =>
  (exists c b, files d !! vault_file stage = Some c /\ CliNotes.bootstrap_from_slice (bytes_of c) = Ok b
     /\ fingerprint b = Ok fp) /\ Stg X d).
Proof.
  apply does_reads; [|apply reads_fingerprint]. apply keeps_then; [|eauto with keeps].
  apply keeps_then; [eauto with keeps|]. intros s. eauto with keeps.
Qed.
End below.

(** ** The staged database *)

Class LinkLaws (DB : Type) `{StorageSpec DB} `{!LinkLib DB} : Prop := {
  (** a checkpoint moves pages, it changes no row *)
  checkpoint_keeps s : view (db_checkpoint s).2 = view s
}.

Section database.
Context {Net DB : Type} `{SyncServerAdapter Net} `{StorageSpec DB} `{!Env} `{!LinkLib DB} `{!LinkLaws DB}.
Context `{CryptoLib} `{NoteLib} `{KdfLib} `{ChunkLib} `{ManifestLib}.
Implicit Types (v : MemoryStorage).

(** Every object is what its envelope says, and opens under the key unless deleted. *)
Definition objects_checked (key : string) v : Prop :=
  forall id o, mem_objects v !! id = Some o -> object_ok key o = Ok tt.

Lemma wp_check_all key (objects : list StoredEncryptedObject) (w : Adapter.World Net DB) :
  wp (for_each (fun o => lift_result (object_ok key o)) objects)
    (fun r w' => w' = w /\ match r with Ok _ => Forall (fun o => object_ok key o = Ok tt) objects | Err _ => True end) w.
Proof.
  apply (wp_for_each _ (fun done w' => w' = w /\ Forall (fun o => object_ok key o = Ok tt) done)).
  - by split.
  - intros done_ o rest w1 _ [-> Hdone]. apply wp_lift. destruct (object_ok key o) as [[]|] eqn:Ho; [|done].
    split; [done|]. apply Forall_app. by repeat constructor.
  - by intros w1 [-> ?].
Qed.

Lemma fill_checks fuel key (w : Adapter.World Net DB) :
  wp (fill_staged_db fuel key) (fun r w' => match r with
    | Ok (Some report) => objects_checked key (l_view (w_local w'))
    | _ => True
    end) w.
Proof.
  unfold fill_staged_db. apply wp_bind, wp_intro. intros [c|] w1 _; [|done]. apply wp_bind, wp_intro. intros [n|] w2 _; [|done].
  destruct (_ || _); [by apply wp_throw|]. apply wp_bind, wp_intro. intros [[report|]|] w3 _; [|by apply wp_ret|done].
  apply wp_bind. unfold on_local at 1. apply wp_map_err, wp_zoom. wp_step; cbn [result_map_err]; [|done].
  apply wp_bind. eapply wp_mono; [apply wp_check_all|]. intros [[]|] w4 [-> Hall]; [|done]. apply wp_ret.
  cbn [w_local set_local]. intros id o Ho. rewrite Forall_forall in Hall. apply Hall. rewrite Hview in Ho.
  rewrite merge_sort_Permutation, list_elem_of_In, filter_In, <- list_elem_of_In, elem_of_map_values.
  split; [eauto|]. done.
Qed.

Lemma verify_reads report b u k g :
  wp (verify_staged_cursor report) (fun r x => match r with
    | Ok _ => view (l_store x) = view b /\ mem_mutations (view b) = []
    | Err _ => True
    end) (mkLocal b u k g).
Proof.
  unfold verify_staged_cursor. wp_steps; try done.
  split; [exact Hview0|]. cbn [negb orb] in *. by destruct (mem_mutations (view b)) eqn:Hm; [|unfold l_view in *; cbn in *; rewrite Hm in *].
Qed.

Lemma checkpoint_reads b u k g :
  wp checkpoint (fun r x => match r with Ok _ => view (l_store x) = view b | Err _ => True end) (mkLocal b u k g).
Proof using Type*.
  unfold checkpoint, on_store. apply wp_map_err, wp_zoom, wp_intro. intros [[]|e] b' Hrun; cbn in *; [|done].
  pose proof (checkpoint_keeps b) as Hv. by rewrite Hrun in Hv.
Qed.
End database.

(** ** The whole of staging *)

Section staging.
Context {Net DB : Type} `{SyncServerAdapter Net} `{StorageSpec DB} `{!Env} `{CliLaws DB} `{JournalLaws} `{!VaultFileLib DB} `{!LinkLib DB}.
Context `{!LinkLaws DB} `{HttpClientLib} `{AuthClientLib} `{CryptoLib} `{NoteLib} `{SearchLib} `{KdfLib} `{ChunkLib} `{ManifestLib}.
Variables (stage : path) (d0 : Disk DB).
Hypothesis Hdeep : forall n, stage ++ [n] ∉ dirs d0.
Hypothesis Hnew : stage ∉ dirs d0.
Implicit Types (hook : nat -> path -> Result unit CliError).

Abbreviation db := "notes.db".
Abbreviation does := (does stage d0).
Abbreviation Stg := (Stg stage d0).

(** A name that is not among concrete names. *)
Ltac new_name := cbn [fmap list_fmap fst]; apply (bool_decide_unpack _); by vm_compute.

Lemma does_hook P {A} (r : Result unit CliError) (m : M (Local (Files.World DB)) CliError A) Q :
  does P m Q -> does P (_ ← lift_result r; m) Q.
Proof. intros Hm. eapply does_bind; [apply does_lift|]. intros []. apply does_pure. intros _. exact Hm. Qed.

Definition bootstrapped preflight secret (key : string) (d : Disk DB) : Prop :=
  exists bb, bootstrap_to_vec (rp_bootstrap preflight) = Ok bb /\ unlock_with (rp_bootstrap preflight) secret = Ok key
    /\ exists b, Stg [(db, Database b); ("vault.json", Bytes bb)] d.

Lemma does_bootstrap preflight secret staged hook :
  sv_dir staged = stage ->
  does (Stg []) (stage_bootstrap preflight secret staged hook) (bootstrapped preflight secret).
Proof using All.
  intros Hst. unfold stage_bootstrap. rewrite Hst. apply does_hook.
  eapply does_bind; [apply does_lift|]. intros bb. apply does_pure. intros Hbb.
  eapply does_bind; [apply does_write; [done|done|by intros id|new_name|constructor]|]. intros [].
  apply does_hook. eapply does_bind; [apply does_lift|]. intros key. apply does_pure. intros Hkey. apply does_hook.
  eapply does_bind; [apply does_open; [done|done|new_name]|].
  intros []. apply does_hook. eapply does_mono; [apply does_ret|intros d HP; exact HP|].
  intros k d [-> Hd]. exists bb. split_and!; [|done|done]. by destruct (bootstrap_to_vec _); [injection Hbb as ->|].
Qed.
Lemma does_views X b v {A} (m : M (Local DB) CliError A) :
  db ∉ X.*1 -> view b = v ->
  (forall u k g, wp m (fun r x => match r with Ok _ => view (l_store x) = view b | Err _ => True end) (mkLocal b u k g)) ->
  does (Stg ((db, Database b) :: X)) (in_db stage m) (fun _ d => exists b', view b' = v /\ Stg ((db, Database b') :: X) d).
Proof.
  intros Hdb <- Hm. eapply does_mono; [by eapply (does_in_db _ _ _ _ _ (fun _ b' => view b' = view b))|done|].
  intros a d (b' & Hb' & Hd). eauto.
Qed.

Lemma does_sidecars X :
  "notes.db-wal" ∉ X.*1 -> "notes.db-shm" ∉ X.*1 ->
  does (Stg X) (for_each (remove_sidecar stage) ["notes.db-wal"; "notes.db-shm"]) (fun _ => Stg X).
Proof.
  intros H1' H2'. cbn [for_each]. eapply does_bind; [by apply does_sidecar|]. intros [].
  eapply does_bind; [by apply does_sidecar|]. intros []. eapply does_mono; [apply does_ret|intros d HP; exact HP|].
  by intros a d [_ HP].
Qed.

Lemma does_save_link X link :
  "vault-link.json" ∉ X.*1 -> Forall plain_name X.*1 ->
  does (Stg X) (VaultLink_save stage link) (fun _ d =>
    exists jb, (link_ok link = true /\ link_to_vec link = Ok jb) /\ Stg (("vault-link.json", Bytes jb) :: X) d).
Proof using All.
  intros Hn HX. unfold VaultLink_save, VaultLink_validate. eapply does_bind; [apply does_lift|]. intros [].
  apply does_pure. intros Hok. eapply does_bind; [apply does_lift|]. intros jb. apply does_pure. intros Hjb.
  eapply does_mono; [apply does_write; [done|done|by intros id|done|done]|intros d HP; exact HP|].
  intros [] d HS. exists jb. split; [|done]. split; [by destruct (link_ok link)|].
  by destruct (link_to_vec link); [injection Hjb as ->|].
Qed.

(** What sealing leaves: the link beside the rest, and a database without edits. *)
Definition sealed (target : VaultLink) (fp : string) (bb : string) (v : MemoryStorage) (d : Disk DB) : Prop :=
  exists jb, link_to_vec target = Ok jb /\ link_ok target = true /\ mem_mutations v = []
    /\ (exists x, CliNotes.bootstrap_from_slice bb = Ok x /\ fingerprint x = Ok fp)
    /\ exists b, view b = v /\ Stg [("vault-link.json", Bytes jb); (db, Database b); ("vault.json", Bytes bb)] d.

Lemma does_seal preflight staged report hook b bb :
  sv_dir staged = stage ->
  does (Stg [(db, Database b); ("vault.json", Bytes bb)]) (seal_stage preflight staged report hook)
    (fun _ => sealed (rp_target_link preflight) (sv_fingerprint staged) bb (view b)).
Proof using All.
  intros Hst. unfold seal_stage. rewrite Hst.
  apply does_hook. eapply does_bind.
  { apply (does_in_db _ _ _ _ _ (fun _ b' => view b' = view b /\ mem_mutations (view b) = [])); [new_name|].
    intros u k g. apply verify_reads. }
  intros []. apply does_ex. intros b1. apply does_pure. intros [Hv1 Hmut]. apply does_hook.
  eapply does_bind; [apply (does_views _ _ (view b)); [new_name|done|intros; apply checkpoint_reads]|]. intros [].
  apply does_ex. intros b2. apply does_pure. intros Hv2. apply does_hook.
  eapply does_bind; [apply does_reopen|]. intros [].
  eapply does_bind; [apply (does_views _ _ (view b)); [new_name|done|intros; apply checkpoint_reads]|]. intros [].
  apply does_ex. intros b3. apply does_pure. intros Hv3. apply does_hook.
  eapply does_bind; [apply does_sidecars; new_name|]. intros []. eapply does_bind; [apply does_sync|]. intros [].
  apply does_hook. eapply does_bind; [apply does_fingerprint|]. intros fp.
  case_bool_decide as Hfp; cbn [negb]; [|apply does_throw].
  eapply (does_mono _ _ (fun d => (exists x, CliNotes.bootstrap_from_slice bb = Ok x /\ fingerprint x = Ok (sv_fingerprint staged))
    /\ Stg [(db, Database b3); ("vault.json", Bytes bb)] d)); [apply does_pure; intros Hboot| |intros a d HP; exact HP].
  2: { intros d ((c & x & Hc & Hx & Hfx) & HS). split; [|done]. exists x. subst fp. split; [|done].
    destruct HS as [_ _ HF]. inversion_clear HF as [|? ? _ HF']. inversion_clear HF' as [|? ? Hv _]. cbn in Hv.
    unfold vault_file in Hc. rewrite Hv in Hc. by injection Hc as <-. }
  eapply does_bind; [apply does_save_link; [new_name|by repeat constructor]|]. intros []. apply does_ex. intros jb. apply does_pure. intros [Hok Hjb].
  apply does_hook. eapply does_bind; [apply does_sync|]. intros []. eapply does_mono; [apply does_lift|intros d HP; exact HP|].
  intros [] d [_ HS]. exists jb. split_and!; [done..|]. eauto.
Qed.
(** *** With the server *)

Abbreviation W := (Adapter.World Net (Files.World DB)).
Implicit Types w : W.

Definition staged_ok preflight secret staged (ok : bool) (d : Disk DB) : Prop :=
  ok = true -> exists key bb v,
    bootstrap_to_vec (rp_bootstrap preflight) = Ok bb /\ unlock_with (rp_bootstrap preflight) secret = Ok key
    /\ objects_checked key v /\ sealed (rp_target_link preflight) (sv_fingerprint staged) bb v d.

Lemma wp_does {A} P (m : M (Local (Files.World DB)) CliError A) Q (R : result CliError A -> W -> Prop) w :
  does P m Q -> w_disks (Core stage d0) w -> P (w_disk w) ->
  (forall e w', w_disks (Core stage d0) w' -> R (Err e) w') ->
  (forall a w', w_disks (Core stage d0) w' -> Q a (w_disk w') -> R (Ok a) w') ->
  wp (here m) R w.
Proof.
  intros Hm Hw HP R1 R2. apply wp_here. eapply wp_mono; [by apply Hm|]. intros [a|e] l' [Hl' HQ]; [by apply R2|by apply R1].
Qed.

Lemma wp_in_db_net {E A} X b (closed : E) (m : M (Adapter.World Net DB) E A) (R : A -> DB -> Prop)
    (Q : result E A -> W -> Prop) w :
  db ∉ X.*1 -> w_disks (Core stage d0) w -> Stg ((db, Database b) :: X) (w_disk w) ->
  (forall n u k g, wp m (fun r x => match r with Ok a => R a (l_store (w_local x)) | Err _ => True end)
     (Adapter.mkWorld n (mkLocal b u k g))) ->
  (forall e w', w_disks (Core stage d0) w' -> Q (Err e) w') ->
  (forall a b' w', w_disks (Core stage d0) w' -> R a b' -> Stg ((db, Database b') :: X) (w_disk w') -> Q (Ok a) w') ->
  wp (in_db_net closed stage m) Q w.
Proof.
  intros Hdb Hw HS Hm Q1 Q2. unfold wp, in_db_net. unfold w_disk in HS. rewrite (Stg_db _ _ _ _ _ HS).
  specialize (Hm (w_net w) (l_uuids (w_local w)) (l_clock (w_local w)) (l_rng (w_local w))). unfold wp in Hm.
  destruct (m _) as [r x]. cbn in *.
  assert (forall c : content DB, Core stage d0 (put_file (db_file stage) c (l_disk (w_local w)))) as Hput
    by (intros c; apply Core_put, HS).
  destruct r as [a|e]; [apply (Q2 _ (l_store (w_local x)))|apply Q1]; unfold w_disks, disks, Kept; cbn;
    [by constructor|done|by eapply Stg_replace|by constructor].
Qed.

Lemma stage_body_stages fuel preflight secret staged hook w :
  sv_dir staged = stage -> w_disks (Core stage d0) w -> Stg [] (w_disk w) ->
  wp (stage_body fuel preflight secret staged hook) (fun r w' => w_disks (Core stage d0) w'
    /\ match r with Ok ok => staged_ok preflight secret staged ok (w_disk w') | Err _ => True end) w.
Proof using All.
  intros Hst Hw HS. unfold stage_body. apply wp_bind.
  eapply wp_does; [by apply does_bootstrap|done|done|done|]. intros key w1 Hw1 (bb & Hbb & Hkey & b & HS1).
  apply wp_bind. rewrite Hst.
  eapply (wp_in_db_net _ _ _ _ (fun r b' => r <> None -> objects_checked key (view b'))); [|done|exact HS1|..].
  { new_name. }
  { intros n u k g. eapply wp_mono; [apply fill_checks|]. by intros [[report|]|] x Hx. }
  { done. }
  intros [report|] b1 w2 Hw2 Hobj HS2; [|apply wp_ret; by split]. apply wp_bind.
  eapply wp_does; [by apply does_seal|done|exact HS2|done|]. intros [] w3 Hw3 Hsealed. apply wp_bind.
  apply wp_intro. intros r w4 Hrun.
  assert (w_local w4 = w_local w3) as Hl.
  { revert Hrun. as_wp. unfold validate_remote_link. apply wp_bind. unfold remote_bootstrap, on_net.
    apply wp_map_err, wp_zoom, wp_intro. intros [found|] n _; cbn; [|done]. apply wp_bind, wp_ok_or; [|done].
    intros x _. apply wp_bind, wp_lift. destruct (fingerprint x); [|done]. by case_bool_decide. }
  assert (w_disks (Core stage d0) w4 /\ w_disk w4 = w_disk w3) as [Hw4 Hd4].
  { unfold w_disks, w_disk. by rewrite Hl. }
  destruct r as [[]|]; [|done]. apply wp_bind, wp_lift. destruct (hook _ _) as [[]|]; [|done]. apply wp_ret.
  split; [done|]. intros _. rewrite Hd4. exists key, bb, (view b1). split_and!; [done..|by apply Hobj|done].
Qed.
End staging.

(** ** A stage is ready to be installed *)

Section ready.
Context {DB : Type} `{!Env} `{CliLaws DB} `{JournalLaws}.
Implicit Types (d : Disk DB).

(** Removing the stage touches nothing else. *)
Lemma keeps_drop stage d0 staged :
  stage ∉ dirs d0 -> sv_dir staged = stage -> keeps (disks (Core stage d0)) (drop_staged staged).
Proof using All.
  intros Hnew Hst. unfold drop_staged, remove_dir_all. rewrite Hst. apply keeps_ignore. intros l Hl.
  apply wp_bind. unfold io, fs_read_dir. apply (wp_io_plain _ _ (Core stage d0)); [done|by inversion Hl|done|].
  intros l1 Hd1 Hk1 _. cbn [fst snd] in *. case_bool_decide; cbn [result_map_err]; [|done].
  revert Hk1. change (Kept (Core stage d0) (l_store l1)) with (disks (Core stage d0) l1). revert l1 Hd1.
  enough (keeps (disks (Core stage d0)) (_ ← for_each (fun q => io (fs_remove_file q)) (files_in stage (l_disk l));
    io (fs_remove_dir stage))) as Hk by (intros l1 _ Hl1; by apply Hk).
  apply keeps_then.
  - assert (Forall (fun q => parent_of q = stage) (files_in stage (l_disk l))) as Hall.
    { apply Forall_forall. intros q Hq. by apply elem_of_files_in in Hq as [_ ?]. }
    induction Hall as [|q qs Hq _ IH]; cbn [for_each]; [eauto with keeps|]. apply keeps_then; [|intros []; exact IH].
    apply keeps_plain. intros d Hd. destruct (files d !! q); [by apply Core_drop|done].
  - intros []. apply keeps_plain. intros d [Hf Hdirs]. case_bool_decide as Hin; cbn [negb]; [|done].
    case_bool_decide; [|done]. split; [done|]. left. cbn. destruct Hdirs as [->| ->]; [|set_solver].
    apply leibniz_equiv. set_solver.
Qed.

Lemma Core_first {Net} stage d0 (w : Adapter.World Net (Files.World DB)) : w_disk w = d0 -> at_first w -> w_disks (Core stage d0) w.
Proof.
  unfold at_first, w_disks, disks, Kept, w_disk, l_disk. intros <- ->. repeat constructor.
Qed.

(** The names of the stage and of the backup. *)
Lemma paths_ne dir id : (paths dir id).2 <> (paths dir id).1.
Proof. cbn. by intros Heq%app_inv_head. Qed.

(** The generation in a stage. *)
Definition staged_files dir id d (n : string) : option (content DB) :=
  if bool_decide (n ∈ INSTALLED) then files d !! (dir ++ [".replace-" +:+ id; n]) else None.

(** A complete stage beside an untouched data directory. *)
Lemma Stg_Start dir f old staged id X d0 d :
  let stage := (paths dir id).1 in
  sv_dir staged = stage -> sv_id staged = id -> is_uuid id = true ->
  Shape dir d0 -> Frame dir f d0 -> settled dir old d0 -> (paths dir id).2 ∉ dirs d0 ->
  Stg stage d0 X d ->
  Start dir f old (staged_files dir id d) staged d.
Proof using All.
  intros stage Hst Hid Hu [S1 S2 S3 S4 S5] HF [HJ HG] Hbk [[Hf _] Ho _].
  assert (forall n, files d !! (dir ++ [n]) = files d0 !! (dir ++ [n])) as Hsame.
  { intros n. apply Hf. rewrite parent_of_name. unfold stage. cbn. intros Heq.
    assert (length dir = length (dir ++ [".replace-" +:+ id])) as Hl by (by rewrite <- Heq). rewrite length_app in Hl. cbn in Hl. lia. }
  assert (dir ++ [".replace-" +:+ id] = stage) as Hpath by done.
  split_and!.
  - split; rewrite ?Ho.
    + set_solver.
    + intros n [Heq%elem_of_singleton|Hin]%elem_of_union; [|by apply S2]. rewrite <- Hpath in Heq.
      apply app_inv_head in Heq. injection Heq as ->. split; [|by intros id'].
      intros Hown. by eapply own_no_stage.
    + intros n m [Heq%elem_of_singleton|Hin]%elem_of_union; [|by apply (S3 n m)]. rewrite <- Hpath in Heq.
      by apply app_inv_head in Heq.
    + intros p c Hp Hc. destruct (decide (parent_of p = stage)) as [->|Hne]; [set_solver|].
      rewrite Hf in Hc by done. apply elem_of_union. right. by eapply S4.
    + intros id' Hid'. destruct (S5 id' Hid') as [? ?]. cbn [paths fst snd] in *. by rewrite !Hsame.
  - intros n Hn. rewrite Hsame. by apply HF.
  - split; [unfold active; rewrite Hsame; exact HJ|]. intros n Hn. unfold active. rewrite Hsame. by apply HG.
  - rewrite Hst, Ho. set_solver.
  - intros n Hn. unfold staged_files. by rewrite Hid, bool_decide_eq_true_2.
  - rewrite Hid, Ho. intros [Heq%elem_of_singleton|Hin]%elem_of_union; [by eapply paths_ne|done].
Qed.
End ready.

Section main.
Context {Net DB : Type} `{SyncServerAdapter Net} `{StorageSpec DB} `{!Env} `{CliLaws DB} `{JournalLaws} `{!VaultFileLib DB} `{!LinkLib DB}.
Context `{!LinkLaws DB} `{HttpClientLib} `{AuthClientLib} `{CryptoLib} `{NoteLib} `{SearchLib} `{KdfLib} `{ChunkLib} `{ManifestLib}.
Abbreviation W := (Adapter.World Net (Files.World DB)).
Implicit Types (w : W).

Lemma wp_create dir fp (Q : result CliError StagedVault -> W -> Prop) w :
  let id := uuid_v4 (l_uuids (w_local w)) in
  let stage := (paths dir id).1 in
  let d0 := w_disk w in
  at_first w ->
  (forall e w', w_disks (Core stage d0) w' -> Q (Err e) w') ->
  (forall w', stage ∉ dirs d0 -> w_disks (Core stage d0) w' -> Stg stage d0 [] (w_disk w') ->
     Q (Ok (mkStagedVault stage id fp)) w') ->
  wp (here (StagedVault_create dir fp)) Q w.
Proof.
  intros id stage d0 Hfirst Q1 Q2. pose proof (Core_first stage d0 w eq_refl Hfirst) as Hw. apply wp_here.
  unfold StagedVault_create. apply wp_bind, wp_intro. intros r l1 [= <- <-]. fold id. fold stage.
  assert (Core stage d0 (w_disk w)) as HC by (by inversion Hw).
  apply wp_bind. unfold io, fs_create_dir. apply (wp_io_plain _ _ (Core stage d0)); [done|..].
  { destruct (exists_on _ _); [done|]. case_bool_decide; [|done]. split; [by intros|]. by right. }
  { intros e l2 Hd2 Hk2 _ _. by apply Q1. }
  intros l2 Hd2 Hk2 _. change (l_disk (mkLocal _ _ _ _)) with d0 in *.
  destruct (exists_on d0 stage) eqn:Hex; cbn [fst snd result_map_err] in *; [by apply Q1|].
  assert (stage ∉ dirs d0) as Hnew.
  { intros Hin. by rewrite (exists_on_dir _ _ Hin) in Hex. }
  case_bool_decide; cbn [fst snd result_map_err] in *; [|by apply Q1].
  apply wp_bind. unfold sync_dir, io, fs_sync. apply (wp_io_plain _ _ (Core stage d0)); [done|by inversion Hk2| |].
  { intros e l3 Hd3 Hk3 _ _. by apply Q1. }
  intros l3 Hd3 Hk3 _. cbn [fst snd] in *. destruct (exists_on _ dir); cbn [result_map_err]; [|by apply Q1].
  apply wp_ret, Q2; [done|done|]. unfold w_disk. cbn. split; [by inversion Hk3| |constructor]. by rewrite Hd3, Hd2.
Qed.

(** C23. Staging is safe.  Restoring a vault of the server into a stage, with any
    server and any calls, checks and hooks failing, leaves every file outside the
    stage as it was, on every disk the process passes through.  A stage that is
    returned holds the server's bootstrap with the fingerprint of the link, the
    link, and a database without queued edits in which every object is the one its
    envelope names and opens under the unlocked key unless it is deleted; and it is
    what the crash-safe replacement of the vault starts from. *)
Theorem staging_safe fuel dir f old preflight secret hook w r w' :
  let id := uuid_v4 (l_uuids (w_local w)) in
  let stage := (paths dir id).1 in
  let target := rp_target_link preflight in
  at_first w -> is_uuid id = true -> (paths dir id).2 ∉ dirs (w_disk w) ->
  Shape dir (w_disk w) -> Frame dir f (w_disk w) -> settled dir old (w_disk w) ->
  stage_with_hook fuel dir preflight secret hook w = (r, w') ->
  w_disks (fun d => forall q, parent_of q <> stage -> files d !! q = files (w_disk w) !! q) w'
  /\ (forall staged, r = Ok (Some staged) -> exists new key bb jb b x,
        Replacement dir f old new staged (w_disk w')
        /\ new "vault.json" = Some (Bytes bb) /\ new "notes.db" = Some (Database b)
        /\ new "vault-link.json" = Some (Bytes jb)
        /\ CliNotes.bootstrap_from_slice bb = Ok x /\ fingerprint x = Ok (vl_vault_fingerprint target)
        /\ link_to_vec target = Ok jb /\ link_ok target = true
        /\ unlock_with (rp_bootstrap preflight) secret = Ok key
        /\ objects_checked key (view b) /\ mem_mutations (view b) = []).
Proof using All.
  intros id stage target Hfirst Hu Hbk HSh HFr Hset.
  assert (forall n, stage ++ [n] ∉ dirs (w_disk w)) as Hdeep.
  { intros n. unfold stage. cbn. rewrite <- app_assoc. apply (sh_deep _ _ HSh). }
  assert (forall w1 : W, w_disks (Core stage (w_disk w)) w1 ->
    w_disks (fun d => forall q, parent_of q <> stage -> files d !! q = files (w_disk w) !! q) w1) as Hout.
  { intros w1 Hw1. eapply Forall_impl; [exact Hw1|]. by intros d [Hf _]. }
  as_wp. unfold stage_with_hook. apply wp_bind, wp_lift.
  destruct (validate_bootstrap _) as [[]|]; cbn [result_map_err]; [|split; [by apply Hout, Core_first|done]].
  apply wp_bind, wp_create; [done|intros e w1 Hw1; split; [by apply Hout|done]|]. fold id. fold stage.
  intros w1 Hnew Hw1 HS1. apply wp_bind, wp_attempt.
  eapply wp_mono; [by apply (stage_body_stages stage (w_disk w))|]. intros [[|]|e] w2 [Hw2 Hok].
  - apply wp_ret. split; [by apply Hout|]. intros staged [= <-]. destruct (Hok eq_refl) as (key & bb & v & Hbb & Hkey & Hobj & Hsl).
    destruct Hsl as (jb & Hjb & Hlk & Hmut & (x & Hx & Hfx) & b & <- & HS2).
    pose proof (Stg_Start dir f old (mkStagedVault stage id (vl_vault_fingerprint target)) id _ _ _
      eq_refl eq_refl Hu HSh HFr Hset Hbk HS2) as Hstart.
    destruct HS2 as [_ _ HF2]. rewrite !Forall_cons in HF2. destruct HF2 as (Hf1 & Hf2 & Hf3 & _). cbn [fst snd] in *.
    unfold stage in Hf1, Hf2, Hf3. cbn in Hf1, Hf2, Hf3. rewrite <- app_assoc in Hf1, Hf2, Hf3. cbn in Hf1, Hf2, Hf3.
    exists (staged_files dir id (w_disk w2)), key, bb, jb, b, x. split; [|by split_and!].
    split; [done|done| |done]. intros n Hn. unfold staged_files. case_bool_decide as Hin; [|done].
    unfold INSTALLED in Hin. rewrite !elem_of_cons in Hin. destruct Hin as [->|[->|[->|Hin%elem_of_nil]]]; [eauto..|done].
  - apply wp_ret. by split; [apply Hout|].
  - eapply wp_bind, wp_mono; [apply keeps_here; [by eapply keeps_drop|exact Hw2]|]. intros [[]|e'] w3 Hw3;
      [apply wp_throw|]; (split; [by apply Hout|done]).
Qed.
End main.
