(* ===== verification/CliEditor.v ===== *)
(** * Editing in an external editor ([apps/cli/src/edit.rs], [client/editor.rs])

    The restricted temporary file a note is edited in, the editor process, and the
    service around them.  The temporary file is on the disk of [Files.v]; what an
    editor does to the disk is a parameter.  A computation of this file can also
    panic ([EditBuffer.v]), which unwinds and drops the guard as an error does. *)

From stdpp Require Import options.
From stdpp Require Import gmap.
From S2P Require Import Prelude Text Time Protocol StorageModels Storage CoreErrors Env Queue Crypto Note Vault Search Conflict.
From S2P Require Import Files CliSession VaultFiles EditBuffer CliNotes CliNotesFacts CliAuth CliAuthFacts CliLink CliLinkFacts.

(** How a command can end early. *)
Inductive Abort : Type :=
| Fails (e : CliError)
| Panics.

Record TempFileGuard : Type := mkTempFileGuard {
  tg_path : path;
  tg_is_ram_backed : bool
}.

(** [std::env::temp_dir()], [PathBuf::from] of a directory name, and the process
    [sh -c '<command> "$@"' -- <file>]: what it leaves on the disk, and whether it
    exits with success, with its status as text, or cannot be started. *)
Class EditorLib (DB : Type) : Type := {
  env_temp_dir : path;
  path_of : string -> path;
  editor_process : string -> path -> Disk DB -> Result (bool * string) string * Disk DB
}.

Section editor.
Context {DB : Type} `{LocalStorage DB} `{!Env} `{CliLib DB} `{JournalLib} `{!VaultFileLib DB} `{!EditorLib DB}.
Context `{CryptoLib} `{NoteLib} `{SearchLib} `{KdfLib}.
Abbreviation Cli A := (M (Local (World DB)) CliError A).
Abbreviation Run A := (M (Local (World DB)) Abort A).

Definition cli {A} (m : Cli A) : Run A := map_err Fails m.

(** ** The temporary file *)

Definition EDITS : string := "zk-note-edits".
Definition SHM : path := ["dev"; "shm"].

Definition resolve_temp_directory : Cli (path * bool) :=
  shm ← is_dir SHM;
  if (shm : bool) then mret (SHM ++ [EDITS], true)
  else
    match env_var "XDG_RUNTIME_DIR" with
    | Some runtime_dir =>
        let p := path_of runtime_dir in
        d ← is_dir p;
        mret (if (d : bool) then (p ++ [EDITS], true) else (env_temp_dir ++ [EDITS], false))
    | None => mret (env_temp_dir ++ [EDITS], false)
    end.

Definition temp_text (what : string) (p : path) (e : IoError) : CliError :=
  Io ("failed to " +:+ what +:+ " " +:+ path_display p +:+ ": " +:+ IoError_display e).

Definition temp_name (prefix id : string) : string := prefix +:+ "-" +:+ id +:+ ".md".

Definition TempFileGuard_create (prefix initial_content : string) : Cli TempFileGuard :=
  place ← resolve_temp_directory;
  let '(temp_dir, is_ram_backed) := place in
  _ ← io_as (temp_text "create temp directory" temp_dir) (fs_create_dir_all temp_dir);
  id ← new_uuid;
  let file_path := temp_dir ++ [temp_name prefix id] in
  _ ← io_as (temp_text "create secure temp file" file_path) (fs_create_new file_path);
  _ ← io_as (temp_text "write initial temp content to" file_path) (fs_write_all file_path (Bytes initial_content));
  _ ← io_as (temp_text "flush temp content to" file_path) (fs_sync file_path);
  mret (mkTempFileGuard file_path is_ram_backed).

(** Opening an existing file, and reading it to its end. *)
Definition guard_read_bytes (guard : TempFileGuard) : Cli string :=
  _ ← io_as (temp_text "open temp file" (tg_path guard)) (fs_open_write (tg_path guard));
  read_bytes (temp_text "read temp file" (tg_path guard)) (tg_path guard).

(** The zeroes go out in portions of 4096 bytes; a failed write leaves any part. *)
Definition overwrite_with_zeroes (p : path) : Cli unit :=
  len ← attempt (io (fs_len p));
  match len with
  | Ok len =>
      if (0 <? len)%nat then
        opened ← attempt (io (fs_open_write p));
        match opened with
        | Ok _ =>
            _ ← ignore (io (fs_write_all p (Bytes (zeroes len))));
            ignore (io (fs_sync p))
        | Err _ => mret tt
        end
      else mret tt
  | Err _ => mret tt
  end.
Definition secure_wipe_and_remove (p : path) : Cli unit :=
  present ← exists_path p;
  if negb present then mret tt
  else
    _ ← overwrite_with_zeroes p;
    ignore (io (fs_remove_file p)).

(** A guard and the work under it: it is wiped when the work is done, by
    [cleanup], or when the work fails or panics, by [drop]. *)
Definition with_temp_file {A} (prefix content : string) (work : TempFileGuard -> Run A) : Run A :=
  guard ← cli (TempFileGuard_create prefix content);
  r ← attempt (work guard);
  _ ← cli (secure_wipe_and_remove (tg_path guard));
  lift_result r.

(** ** The editor *)

(** [$VISUAL], then [$EDITOR], unless one is given. *)
Definition editor_command (custom : option string) : string :=
  match custom with
  | Some e => e
  | None =>
      match env_var "VISUAL" with
      | Some e => e
      | None => match env_var "EDITOR" with Some e => e | None => "nano" end
      end
  end.

Definition launch (editor_cmd : string) (p : path) : Cli (Result (bool * string) string) :=
  fun l => let '(r, d) := editor_process editor_cmd p (l_disk l) in (Ok r, set_store (now_disk d (l_store l)) l).

Definition run_editor (editor_cmd : string) (file_path : path) : Cli unit :=
  if bool_decide (str_trim editor_cmd = "") then throw (Io "editor command cannot be empty")
  else
    status ← launch editor_cmd file_path;
    match status with
    | Err e => throw (Io ("failed to launch editor '" +:+ editor_cmd +:+ "' for " +:+ path_display file_path +:+ ": " +:+ e))
    | Ok (true, _) => mret tt
    | Ok (false, status) => throw (Io ("editor '" +:+ editor_cmd +:+ "' exited with non-zero status: " +:+ status))
    end.

Definition edited_bytes (editor_cmd : string) (guard : TempFileGuard) : Cli string :=
  _ ← run_editor editor_cmd (tg_path guard);
  guard_read_bytes guard.

(** [String::from_utf8] and [parse_edit_buffer] *)
Definition parse_edited (what bytes title : string) (tags : list string) : Run ParsedEdit :=
  if negb (utf8_valid bytes) then throw (Fails (Io ("invalid UTF-8 in edited " +:+ what +:+ ": " +:+ utf8_error bytes)))
  else lift_result (result_map_err (fun _ => Panics) (parse_edit_buffer bytes title tags)).

Definition edit_note_external (dir : path) (vault_key note_id_or_prefix : string) (custom_editor : option string)
    : Run N :=
  present ← cli (exists_path (vault_file dir));
  if negb present then throw (Fails VaultUninitialized)
  else
    _ ← cli (open_db dir);
    found ← cli (in_db dir (get_plaintext_note_db vault_key note_id_or_prefix));
    let '(stored, note) := found in
    parsed ← with_temp_file "zk-note-edit" (note_to_edit_buffer (n_title note) (n_tags note) (n_body note))
      (fun guard =>
         bytes ← cli (edited_bytes (editor_command custom_editor) guard);
         parse_edited "note" bytes (n_title note) (n_tags note));
    cli (update_note dir vault_key (obj_object_id stored) (pe_title parsed) (pe_body parsed) (pe_tags parsed)).
End editor.

(** ** No plaintext is left behind *)

Section wiped.
Context {DB : Type} `{LocalStorage DB} `{!Env} `{CliLib DB} `{JournalLib} `{!VaultFileLib DB} `{!EditorLib DB}.
Context `{CryptoLib} `{NoteLib} `{SearchLib} `{KdfLib}.
Abbreviation Cli A := (M (Local (World DB)) CliError A).
Abbreviation Run A := (M (Local (World DB)) Abort A).
Implicit Types (l : Local (World DB)) (d : Disk DB) (X : list path) (q : path) (C : Prop).

(** Only the files [X] differ from those of [d0]; if [C], no call fails from here on. *)
Definition only C X d0 l : Prop := (C -> calm l) /\ forall q, q ∉ X -> files (l_disk l) !! q = files d0 !! q.

Lemma only_call C X d0 {A} (text : IoError -> CliError) broken (ok : Disk DB -> Result A IoError * Disk DB) :
  (forall part d q, q ∉ X -> files (broken part d) !! q = files d !! q) ->
  (forall d q, q ∉ X -> files (ok d).2 !! q = files d !! q) -> keeps (only C X d0) (io_as text (Files.call broken ok)).
Proof.
  intros Hbr Hok l [Hc Hl]. apply (wp_io_call _ _ _ (fun _ => True)); [apply Kept_true|done|done|..].
  - intros e part l' Hd _ (_ & _ & _ & Hk) _. split; [auto|]. intros q Hq. rewrite Hd, Hbr by done. by apply Hl.
  - intros l' Hd _ (_ & _ & _ & Hk). split; [auto|]. intros q Hq. rewrite Hd, Hok by done. by apply Hl.
Qed.
Lemma only_plain C X d0 {A} (text : IoError -> CliError) (ok : Disk DB -> Result A IoError * Disk DB) :
  (forall d q, q ∉ X -> files (ok d).2 !! q = files d !! q) -> keeps (only C X d0) (io_as text (plain ok)).
Proof. by apply only_call. Qed.

Lemma only_local C X d0 {A} (m : M (Local (World DB)) CliError A) :
  (forall l, l_store (m l).2 = l_store l) -> keeps (only C X d0) m.
Proof. intros Hm l [Hc Hl]. unfold wp, only, calm, l_disk. by rewrite Hm. Qed.

Lemma only_exists C X d0 p : keeps (only C X d0) (exists_path p).
Proof. intros l Hl. by apply wp_exists. Qed.
Lemma only_is_dir C X d0 p : keeps (only C X d0) (is_dir p).
Proof. apply only_local. by intros []. Qed.
Lemma only_uuid C X d0 : keeps (only C X d0) (new_uuid (E := CliError)).
Proof. by apply only_local. Qed.
Lemma only_write C X d0 text p c : p ∈ X -> keeps (only C X d0) (io_as text (fs_write_all p c)).
Proof. intros Hp. apply only_call; intros; cbn; (rewrite lookup_insert_ne; [done|]); by intros <-. Qed.
Lemma only_open_db dir C X d0 : db_file dir ∈ X -> keeps (only C X d0) (open_db dir).
Proof.
  intros Hp. apply only_plain. intros d q Hq. assert (db_file dir <> q) by (by intros <-).
  destruct (files d !! db_file dir) as [[[]|]|]; cbn; by rewrite ?lookup_insert_ne.
Qed.
Lemma only_in_db dir C X d0 {A} (m : M (Local DB) CliError A) : db_file dir ∈ X -> keeps (only C X d0) (in_db dir m).
Proof.
  intros Hp l [Hc Hl]. unfold wp, in_db. destruct (files (l_disk l) !! db_file dir) as [[|db]|]; [done| |done].
  destruct (m _) as [r l1]. split; [done|]. intros q Hq. cbn. rewrite lookup_insert_ne; [by apply Hl|]. by intros <-.
Qed.
Lemma only_read C X d0 text p : keeps (only C X d0) (read_bytes text p).
Proof. apply keeps_then; [by apply only_plain|eauto with keeps]. Qed.
Lemma only_recover dir C X d0 : dir ++ [JOURNAL] ∉ X -> no_journal dir d0 -> keeps (only C X d0) (recover dir).
Proof.
  intros HX Hj l [Hc Hl]. unfold recover. apply wp_bind.
  apply (wp_io_result _ (fun _ => True)); [apply Kept_true|done|..].
  - intros msg l1 Hd _ (_ & _ & _ & Hc1) _. apply wp_throw. split; [auto|]. intros q Hq. rewrite Hd. by apply Hl.
  - intros l1 Hd _ (_ & _ & _ & Hc1). cbn in Hd |- *.
    rewrite Hl, Hj by done. apply wp_ret. split; [auto|]. intros q Hq. rewrite Hd. by apply Hl.
Qed.
End wiped.

#[export] Hint Resolve only_exists only_is_dir only_uuid only_write only_open_db only_in_db only_read only_recover : keeps.

Section wipes.
Context {DB : Type} `{LocalStorage DB} `{!Env} `{CliLib DB} `{JournalLib} `{!VaultFileLib DB} `{!EditorLib DB}.
Context `{CryptoLib} `{NoteLib} `{SearchLib} `{KdfLib}.
Abbreviation Cli A := (M (Local (World DB)) CliError A).
Abbreviation Run A := (M (Local (World DB)) Abort A).
Implicit Types (l : Local (World DB)) (d : Disk DB) (X : list path) (q : path) (C : Prop).

(** Overwriting reports no error. *)
Definition never_fails {S E A} (m : M S E A) : Prop := forall s, wp m (fun r _ => is_ok r = true) s.
Lemma never_fails_then {S E A B} (m : M S E A) (f : A -> M S E B) :
  never_fails m -> (forall a, never_fails (f a)) -> never_fails (m ≫= f).
Proof. intros Hm Hf s. apply wp_bind. eapply wp_mono; [apply Hm|]. intros [a|e] s' Hok; [apply Hf|done]. Qed.
Lemma never_fails_attempt {S E E' A} (m : M S E A) : never_fails (attempt (E' := E') m).
Proof. intros s. apply wp_attempt. by apply wp_intro. Qed.
Lemma never_fails_ignore {S E E' A} (m : M S E A) : never_fails (ignore (E' := E') m).
Proof. intros s. apply wp_ignore. by apply wp_intro. Qed.

Lemma never_fails_overwrite p : never_fails (overwrite_with_zeroes p).
Proof.
  apply never_fails_then; [apply never_fails_attempt|]. intros [len|e]; [|done]. destruct (0 <? len)%nat; [|done].
  apply never_fails_then; [apply never_fails_attempt|]. intros [[]|e]; [|done].
  apply never_fails_then; [apply never_fails_ignore|]. intros _. apply never_fails_ignore.
Qed.

Lemma only_overwrite C X d0 p : p ∈ X -> keeps (only C X d0) (overwrite_with_zeroes p).
Proof.
  intros Hin. unfold overwrite_with_zeroes.
  apply keeps_then; [by apply keeps_attempt, only_plain|]. intros [len|e]; [|eauto with keeps]. apply keeps_if; [|eauto with keeps].
  apply keeps_then; [by apply keeps_attempt, only_plain|]. intros [[]|e]; [|eauto with keeps].
  apply keeps_then; [apply keeps_ignore; eauto with keeps|]. intros _. by apply keeps_ignore, only_plain.
Qed.

(** Wiping touches the file only, and it is gone unless a call fails. *)
Lemma wp_wiped C X base tmp (Q : result CliError unit -> Local (World DB) -> Prop) l :
  only C (tmp :: X) base l ->
  (forall l', only C (tmp :: X) base l' -> (C -> files (l_disk l') !! tmp = None) -> Q (Ok tt) l') ->
  wp (secure_wipe_and_remove tmp) Q l.
Proof.
  intros Hl HQ. unfold secure_wipe_and_remove. apply wp_bind, wp_exists.
  destruct (exists_on (l_disk l) tmp) eqn:Hex; cbn [negb].
  2: { apply wp_ret, HQ; [done|]. intros _. apply eq_None_not_Some. intros [c Hc]. by rewrite (exists_on_file _ _ _ Hc) in Hex. }
  apply wp_bind. eapply wp_mono; [apply wp_and; [apply never_fails_overwrite|apply (only_overwrite C (tmp :: X) base); [by constructor|done]]|].
  intros [[]|e] l1 [Hok [Hc1 Hf1]]; [|done]. apply wp_ignore.
  apply (wp_io_plain _ _ (fun _ => True)); [apply Kept_true|done|..].
  - intros e l2 Hd2 _ (_ & _ & _ & Hk) Hnc. apply HQ; [split; [auto|]; by rewrite Hd2|]. intros HC. by destruct (Hnc (Hc1 HC)).
  - intros l2 Hd2 _ (_ & _ & _ & Hk). destruct (files (l_disk l1) !! tmp) as [c|] eqn:Hc; cbn in Hd2; apply HQ.
    + split; [auto|]. intros q Hq. rewrite Hd2. cbn.
      rewrite lookup_delete_ne by (intros <-; by apply Hq, list_elem_of_here). by apply Hf1.
    + intros _. rewrite Hd2. apply lookup_delete_eq.
    + split; [auto|]. by rewrite Hd2.
    + intros _. by rewrite Hd2.
Qed.

(** A temporary file: it has the name of one and was not there before. *)
Definition temporary prefix d0 (tmp : path) : Prop :=
  (exists dir id, tmp = dir ++ [temp_name prefix id]) /\ files d0 !! tmp = None.

(** Creating the file: nothing has changed, or it is new; it stays behind an error
    only when a call fails. *)
Lemma wp_created C X d0 prefix content (Q : result CliError TempFileGuard -> Local (World DB) -> Prop) l :
  (forall dir id, dir ++ [temp_name prefix id] ∉ X) -> only C X d0 l ->
  (forall e l', only C X d0 l' -> Q (Err e) l') ->
  (forall e tmp l', temporary prefix d0 tmp -> only C (tmp :: X) d0 l' -> ~ C -> Q (Err e) l') ->
  (forall tmp ram l', temporary prefix d0 tmp -> only C (tmp :: X) d0 l' -> Q (Ok (mkTempFileGuard tmp ram)) l') ->
  wp (TempFileGuard_create prefix content) Q l.
Proof.
  intros HX Hl Q1 Q2 Q3. unfold TempFileGuard_create. apply (wp_keep (only C X d0)); [|done|done|].
  { unfold resolve_temp_directory. apply keeps_then; [eauto with keeps|]. intros shm. apply keeps_if; [eauto with keeps|].
    destruct (env_var _); [|eauto with keeps]. apply keeps_then; [eauto with keeps|]. intros []; eauto with keeps. }
  intros [dir ram] l1 Hl1. apply (wp_keep (only C X d0)); [|done|done|].
  { apply only_plain. intros d q _. by destruct (existsb _ _). }
  intros [] l2 Hl2. apply (wp_keep (only C X d0)); [eauto with keeps|done|done|]. intros id l3 Hl3.
  set (tmp := dir ++ [temp_name prefix id]). destruct Hl3 as [Hc3 Hf3].
  apply wp_bind, (wp_io_plain _ _ (fun _ => True)); [apply Kept_true|done|..].
  { intros e l4 Hd4 _ (_ & _ & _ & Hk4) _. apply Q1. split; [auto|]. by rewrite Hd4. }
  intros l4 Hd4 _ (_ & _ & _ & Hk4).
  destruct (exists_on (l_disk l3) tmp) eqn:Hex; cbn [fst snd result_map_err] in *.
  { apply Q1. split; [auto|]. by rewrite Hd4. }
  case_bool_decide; cbn [fst snd result_map_err] in *; [|apply Q1; split; [auto|by rewrite Hd4]].
  assert (only C (tmp :: X) d0 l4) as Hl4.
  { split; [auto|]. intros q Hq. rewrite Hd4. cbn.
    rewrite lookup_insert_ne by (intros <-; by apply Hq, list_elem_of_here). apply Hf3. set_solver. }
  assert (temporary prefix d0 tmp) as Hnew.
  { split; [by exists dir, id|]. rewrite <- Hf3 by apply HX.
    apply eq_None_not_Some. intros [c Hc]. by rewrite (exists_on_file _ _ _ Hc) in Hex. }
  apply wp_bind, (wp_io_call _ _ _ (fun _ => True)); [apply Kept_true|done|done|..].
  { intros e part l5 Hd5 _ (_ & _ & _ & Hk5) Hnc. apply (Q2 _ tmp); [done| |intros HC; by apply Hnc, Hl4].
    split; [intros HC; by apply Hk5, Hl4|]. intros q Hq. rewrite Hd5. cbn.
    rewrite lookup_insert_ne by (intros <-; by apply Hq, list_elem_of_here). by apply Hl4. }
  intros l5 Hd5 _ (_ & _ & _ & Hk5). cbn [fst snd result_map_err] in *.
  assert (only C (tmp :: X) d0 l5) as Hl5.
  { split; [intros HC; by apply Hk5, Hl4|]. intros q Hq. rewrite Hd5. cbn.
    rewrite lookup_insert_ne by (intros <-; by apply Hq, list_elem_of_here). by apply Hl4. }
  apply wp_bind, (wp_io_plain _ _ (fun _ => True)); [apply Kept_true|done|..].
  { intros e l6 Hd6 _ (_ & _ & _ & Hk6) Hnc. apply (Q2 _ tmp); [done| |intros HC; by apply Hnc, Hl5].
    split; [intros HC; by apply Hk6, Hl5|]. intros q Hq. rewrite Hd6. by apply Hl5. }
  intros l6 Hd6 _ (_ & _ & _ & Hk6). cbn [fst snd] in *.
  assert (exists_on (l_disk l5) tmp = true) as -> by (eapply exists_on_file; rewrite Hd5; apply lookup_insert_eq).
  apply wp_ret, Q3; [done|]. split; [intros HC; by apply Hk6, Hl5|]. intros q Hq. rewrite Hd6. by apply Hl5.
Qed.

(** Where the files come from: those of before, until the editor is started on the
    temporary file; then those the editor left, which are its own affair. *)
Inductive course (cmd : string) X d0 : option path -> Disk DB -> Prop :=
| course_none : course cmd X d0 None d0
| course_created tmp : temporary "zk-note-edit" d0 tmp -> course cmd X d0 (Some tmp) d0
| course_edited tmp d1 : temporary "zk-note-edit" d0 tmp ->
    (forall q, q ∉ tmp :: X -> files d1 !! q = files d0 !! q) ->
    course cmd X d0 (Some tmp) (editor_process cmd tmp d1).2.

(** The temporary file is as new. *)
Lemma wp_edited C X d0 cmd what title tags tmp ram l :
  temporary "zk-note-edit" d0 tmp -> only C (tmp :: X) d0 l ->
  wp (bytes ← cli (edited_bytes cmd (mkTempFileGuard tmp ram)); parse_edited what bytes title tags)
    (fun _ l' => exists base, course cmd X d0 (Some tmp) base /\ only C (tmp :: X) base l') l.
Proof.
  intros Hnew Hl. unfold edited_bytes, run_editor, cli. cbn [tg_path].
  apply wp_bind, wp_map_err, wp_bind. case_bool_decide.
  { apply wp_throw. exists d0. split; [by constructor|done]. }
  apply wp_bind. unfold launch at 1, wp at 1. set (base := (editor_process cmd tmp (l_disk l)).2).
  destruct (editor_process cmd tmp (l_disk l)) as [r d] eqn:Hed. cbn [fst snd]. cbn in base.
  assert (course cmd X d0 (Some tmp) d) as Hcourse.
  { pose proof (course_edited cmd X d0 tmp (l_disk l) Hnew (proj2 Hl)) as Hc. by rewrite Hed in Hc. }
  assert (only C (tmp :: X) d (set_store (now_disk d (l_store l)) l)) as Hl1 by (split; [apply Hl|done]).
  generalize dependent (set_store (now_disk d (l_store l)) l). intros l1 Hl1.
  assert (keeps (only C (tmp :: X) d) (guard_read_bytes (mkTempFileGuard tmp ram))) as Hread.
  { apply keeps_then; [by apply only_plain|]. eauto with keeps. }
  destruct r as [[[] status]|e]; [apply wp_ret|apply wp_throw; by exists d..].
  eapply wp_mono; [by apply Hread|]. intros [bytes|e] l2 Hl2; [|by exists d].
  assert (keeps (E := Abort) (only C (tmp :: X) d) (parse_edited what bytes title tags)) as Hparse
    by (unfold parse_edited; apply keeps_if; eauto with keeps).
  eapply wp_mono; [by apply Hparse|]. intros r l3 Hl3. by exists d.
Qed.

Lemma temp_name_ne dir dir' prefix id n : n <> temp_name prefix id -> dir ++ [temp_name prefix id] <> dir' ++ [n].
Proof. intros Hne Heq. apply app_inj_tail in Heq as [_ Heq]. by apply Hne. Qed.

(** What an edit leaves of the files other than the database. *)
Definition edit_left C cmd (dir : path) d0 l : Prop :=
  exists t base, course cmd [db_file dir] d0 t base /\
    (no_journal dir base ->
       (forall q, q <> db_file dir -> Some q <> t -> files (l_disk l) !! q = files base !! q)
       /\ (C -> forall tmp, t = Some tmp -> files (l_disk l) !! tmp = None)).

Lemma edit_left_none C cmd dir d0 l : only C [db_file dir] d0 l -> edit_left C cmd dir d0 l.
Proof.
  intros [_ Hf]. exists None, d0. split; [constructor|]. intros _. split; [|done].
  intros q Hq _. apply Hf. set_solver.
Qed.

Lemma edit_left_some C cmd dir d0 tmp base l :
  course cmd [db_file dir] d0 (Some tmp) base -> only C [tmp; db_file dir] base l ->
  (C -> files (l_disk l) !! tmp = None) -> edit_left C cmd dir d0 l.
Proof.
  intros Hc [_ Hf] Hgone. exists (Some tmp), base. split; [done|]. intros _. split; [|intros HC ? [= <-]; auto].
  intros q Hq Ht. apply Hf. rewrite !not_elem_of_cons. split_and!; [congruence|done|apply not_elem_of_nil].
Qed.

(** Storing the edit writes the database only. *)
Lemma keeps_update C dir d0 vault_key id title body tags :
  no_journal dir d0 -> keeps (only C [db_file dir] d0) (update_note dir vault_key id title body tags).
Proof.
  intros Hj. assert (db_file dir ∈ [db_file dir]) as Hin by (by constructor).
  assert (dir ++ [JOURNAL] ∉ [db_file dir]) as HjX
    by (rewrite list_elem_of_singleton; intros Heq; by eapply db_not_journal).
  unfold update_note, with_db, require_vault. apply keeps_then; [|intros []].
  - apply keeps_then; [eauto with keeps|]. intros []. apply keeps_then; [eauto with keeps|]. intros []; eauto with keeps.
  - apply keeps_then; [eauto with keeps|]. intros []. eauto with keeps.
Qed.

(** C28. Editing leaves no plaintext behind.  However the edit of a note in an
    external editor ends, by an error of the editor or of the file system, by text
    that is no note, a panic or success, starting without an unfinished vault
    replacement: at most one temporary file was made, which was not there before.
    Every other file but the database is as it was before or, if the editor was
    started, as the editor left it, and the editor found every file but those two
    as it was before (this leaves aside an editor that itself writes the vault's
    recovery journal).  If no file system call fails, the temporary file, in which
    the note was in the clear, is gone at the end; when a call fails it can stay. *)
Theorem edit_leaves_no_plaintext dir vault_key note_id editor l r l' :
  no_journal dir (l_disk l) -> edit_note_external dir vault_key note_id editor l = (r, l') ->
  exists t base, course (editor_command editor) [db_file dir] (l_disk l) t base
    /\ (no_journal dir base ->
          (forall q, q <> db_file dir -> Some q <> t -> files (l_disk l') !! q = files base !! q)
          /\ (calm l -> forall tmp, t = Some tmp -> files (l_disk l') !! tmp = None)).
Proof.
  intros Hj. as_wp. set (C := calm l). set (d0 := l_disk l) in *.
  change (wp (edit_note_external dir vault_key note_id editor)
    (fun _ l' => edit_left C (editor_command editor) dir d0 l') l).
  assert (only C [db_file dir] d0 l) as Hl by (by split). clearbody C d0.
  assert (forall dir' id, dir' ++ [temp_name "zk-note-edit" id] ∉ [db_file dir]) as HX
    by (intros dir' id; rewrite list_elem_of_singleton; by apply temp_name_ne).
  assert (db_file dir ∈ [db_file dir]) as Hin by (by constructor).
  unfold edit_note_external, cli.
  apply (wp_keep (only C [db_file dir] d0)); [eauto with keeps|done|intros; by apply edit_left_none|].
  intros present l1 Hl1. destruct (negb present); [by apply wp_throw, edit_left_none|].
  apply (wp_keep (only C [db_file dir] d0)); [eauto with keeps|done|intros; by apply edit_left_none|]. intros [] l2 Hl2.
  apply (wp_keep (only C [db_file dir] d0)); [eauto with keeps|done|intros; by apply edit_left_none|].
  intros [stored note] l3 Hl3. unfold with_temp_file, cli. apply wp_bind, wp_bind, wp_map_err, (wp_created C [db_file dir] d0);
    [done|done|intros; by apply edit_left_none| |].
  { intros e tmp l4 Hnew Hl4 HnC. by eapply edit_left_some; [by apply course_created|exact Hl4|intros HC; destruct (HnC HC)]. }
  intros tmp ram l4 Hnew Hl4. apply wp_bind, wp_attempt. eapply wp_mono; [by apply wp_edited|].
  intros r1 l5 (base & Hcourse & Hl5). apply wp_bind, wp_map_err, (wp_wiped C [db_file dir] base); [done|]. cbn [result_map_err].
  intros l6 Hl6 Hgone. apply wp_lift. destruct r1 as [parsed|e]; [|by eapply edit_left_some].
  apply wp_map_err. destruct (files base !! (dir ++ [JOURNAL])) as [c|] eqn:Hjb.
  { apply wp_intro. intros r2 l7 _. exists (Some tmp), base. split; [done|]. intros Hj'. unfold no_journal in Hj'. congruence. }
  destruct Hnew as [(dir' & id & ->) Hd0].
  assert (no_journal dir (l_disk l6)) as Hj6.
  { unfold no_journal. rewrite (proj2 Hl6); [done|]. rewrite !not_elem_of_cons. split_and!; [| |apply not_elem_of_nil].
    - intros Heq. by eapply temp_name_ne; [|symmetry; exact Heq].
    - intros Heq. by eapply db_not_journal. }
  eapply wp_mono; [apply (keeps_update C dir (l_disk l6)); [done|split; [apply Hl6|done]]|].
  intros r2 l7 [Hc7 Hf7]. eapply edit_left_some; [exact Hcourse| |].
  - split; [done|]. intros q Hq. rewrite Hf7 by set_solver. by apply Hl6.
  - intros HC. rewrite Hf7 by apply HX. by apply Hgone.
Qed.
End wipes.
