(* ===== verification/CliCommands.v ===== *)
(** * The commands ([apps/cli/src/commands.rs])

    Each subcommand of [zk-note] as a computation on the data directory and, where
    it needs one, the network.  A command returns the values it prints; the tables
    and reports that are computed from them are written out as lines, the fixed
    sentences around them are left out, and what is printed before a command fails
    is not modelled.  The terminal is a class: an answer for each prompt, of which a
    command asks each at most once. *)

From stdpp Require Import options.
From stdpp Require Import gmap.
From S2P Require Import Prelude Sorting Text Time Protocol StorageModels Storage CoreErrors Env Queue Crypto Note Vault Search Merge Conflict.
From S2P Require Import ServerDb ServerAuth Json HttpAdapter Adapter Attachment AttachmentStream.
From S2P Require Import Files CliSession VaultFiles EditBuffer CliNotes CliAuth CliLink CliEditor.

(** Standard input and the process: [rpassword::prompt_password], a line read after
    a prompt (with the flush before it), and everything that is piped in. *)
Class Console : Type := {
  is_terminal : bool;
  prompt_password : string -> Result string string;
  read_line : string -> Result string string;
  read_to_string : Result string string;
  process_id : string
}.

Record NoteHistoryItem : Type := mkHistoryItem {
  hi_revision : N;
  hi_title : string;
  hi_tags : list string;
  hi_body : string;
  hi_updated_at : string;
  hi_is_deleted : bool
}.

(** [serde_json::to_string_pretty] of what is printed with [--json], and
    [Uuid::parse_str]. *)
Class CommandLib : Type := {
  bootstrap_to_string_pretty : VaultBootstrap -> Result string string;
  uuid_parse : string -> Result string string;
  note_pretty : PlaintextNote -> Result string string;
  results_pretty : list SearchResult -> Result string string;
  notes_pretty : list ClientNoteSummary -> Result string string;
  history_item_pretty : NoteHistoryItem -> Result string string;
  history_pretty : list NoteHistoryItem -> Result string string;
  conflicts_pretty : list ClientConflictSummary -> Result string string;
  info_pretty : SessionInfo -> Result string string;
  manifests_pretty : list Manifest -> Result string string;
  devices_pretty : list DeviceInfo -> Result string string;
  revoked_pretty : RevokeDeviceResponse -> Result string string
}.

(** ** Formatting *)

Fixpoint repeat_char (n : nat) (c : ascii) : string :=
  match n with O => "" | S n => String c (repeat_char n c) end.

Definition quoted (s : string) : string := String double_quote (s +:+ String double_quote "").

(** [{:<n}] *)
Definition pad_to (n : nat) (s : string) : string := s +:+ repeat_char (n - length (chars s)) " ".

(** [&s[..n]] *)
Definition slice_to (n : nat) (s : string) : Result string Abort :=
  match str_drop n s with
  | String c _ => if is_cont c then Err Panics else Ok (str_take n s)
  | EmptyString => if (String.length s =? n)%nat then Ok s else Err Panics
  end.

Definition tags_text (tags : list string) : string :=
  if bool_decide (tags = []) then "-" else "[" +:+ str_join ", " tags +:+ "]".

(** The column of the tags: cut after 17 bytes when it is longer than 20. *)
Definition tags_column (tags : list string) : Result string Abort :=
  let tags_str := tags_text tags in
  if (20 <? String.length tags_str)%nat
  then s ← slice_to 17 tags_str; Ok (s +:+ "...")
  else Ok tags_str.

Definition note_row (id updated_at tags_str title : string) : string :=
  pad_to 36 id +:+ "  " +:+ pad_to 24 updated_at +:+ "  " +:+ pad_to 20 tags_str +:+ "  " +:+ title.
Definition note_table_head : list string := [note_row "ID" "UPDATED" "TAGS" "TITLE"; repeat_char 95 "-"].

(** The lines of a list of records, each of which may panic. *)
Fixpoint lines_of {A} (f : A -> Result (list string) Abort) (l : list A) : Result (list string) Abort :=
  match l with
  | [] => Ok []
  | x :: l => a ← f x; b ← lines_of f l; Ok (a ++ b)
  end.

Definition search_lines (query : string) (results : list SearchResult) : Result (list string) Abort :=
  if bool_decide (length results = 0) then Ok ["No notes matched query: " +:+ quoted query]
  else
    rows ← lines_of (fun r =>
             tags_str ← tags_column (sr_tags r);
             Ok (note_row (sr_id r) (sr_updated_at r) tags_str (sr_title r)
                 :: if bool_decide (sr_snippet r = "") then [] else ["    snippet: " +:+ sr_snippet r])) results;
    Ok (("Found " +:+ show_nat (length results) +:+ " matching note(s) for " +:+ quoted query +:+ ":")
        :: note_table_head ++ rows).

Definition list_lines (notes : list ClientNoteSummary) : Result (list string) Abort :=
  if bool_decide (length notes = 0) then Ok ["No notes found."]
  else
    rows ← lines_of (fun n =>
             let title_display := if ns_is_deleted n then "[DELETED] " +:+ ns_title n else ns_title n in
             tags_str ← tags_column (ns_tags n);
             Ok [note_row (ns_id n) (ns_updated_at n) tags_str title_display]) notes;
    Ok (note_table_head ++ rows).

Definition rule : string := repeat_char 80 "=".

Definition show_lines (stored : StoredEncryptedObject) (note : PlaintextNote) : list string :=
  [rule; "ID:       " +:+ obj_object_id stored; "Title:    " +:+ n_title note]
  ++ (if bool_decide (n_tags note = []) then [] else ["Tags:     " +:+ str_join ", " (n_tags note)])
  ++ (if bool_decide (n_attachments note = []) then [] else ["Attachments: " +:+ str_join ", " (n_attachments note)])
  ++ ["Updated:  " +:+ n_updated_at note; "Created:  " +:+ n_created_at note;
      "Revision: " +:+ show_N (obj_revision stored); rule; ""; n_body note].

Definition history_item_lines (object_id : string) (item : NoteHistoryItem) : list string :=
  [rule; "ID:       " +:+ object_id; "Title:    " +:+ hi_title item]
  ++ (if bool_decide (hi_tags item = []) then [] else ["Tags:     " +:+ str_join ", " (hi_tags item)])
  ++ ["Revision: " +:+ show_N (hi_revision item) +:+ (if hi_is_deleted item then " (tombstone)" else "");
      "Updated:  " +:+ hi_updated_at item; rule; ""; hi_body item].

Definition history_row (revision updated status title : string) : string :=
  pad_to 10 revision +:+ "  " +:+ pad_to 24 updated +:+ "  " +:+ pad_to 10 status +:+ "  " +:+ title.
Definition history_lines (object_id : string) (history : list NoteHistoryItem) : list string :=
  if bool_decide (length history = 0) then ["No history found for note: " +:+ object_id]
  else
    ("History for note: " +:+ object_id) :: history_row "REVISION" "UPDATED" "STATUS" "TITLE" :: repeat_char 75 "-"
    :: map (fun h => history_row (show_N (hi_revision h)) (hi_updated_at h)
              (if hi_is_deleted h then "Deleted" else "Active") (hi_title h)) history.

Definition conflict_row (id note base remote status title : string) : string :=
  pad_to 36 id +:+ "  " +:+ pad_to 36 note +:+ "  " +:+ pad_to 6 base +:+ "  " +:+ pad_to 6 remote +:+ "  "
  +:+ pad_to 28 status +:+ "  " +:+ title.
(** [is_delete_vs_edit] and [is_edit_vs_delete] of a summary *)
Definition conflict_status (item : ClientConflictSummary) : string :=
  if cs_resolved item then "Resolved"
  else if cs_remote_is_deleted item && negb (cs_local_is_deleted item) then "Unresolved (Delete-vs-Edit)"
  else if cs_local_is_deleted item && negb (cs_remote_is_deleted item) then "Unresolved (Edit-vs-Delete)"
  else "Unresolved".
Definition conflict_lines (include_resolved : bool) (items : list ClientConflictSummary) : list string :=
  if bool_decide (length items = 0)
  then [if include_resolved then "No conflict records found." else "No active conflicts."]
  else
    conflict_row "CONFLICT ID" "NOTE ID" "BASE" "REMOTE" "STATUS" "TITLE" :: repeat_char 125 "-"
    :: map (fun i => conflict_row (cs_conflict_id i) (cs_object_id i) (show_N (cs_base_revision i))
              (show_N (cs_remote_revision i)) (conflict_status i) (cs_title i)) items.

(** How a conflict was resolved. *)
Definition resolve_line (remote_is_deleted : bool) (remote_revision : N) (r : ConflictResolutionResult) : string :=
  "Conflict '" +:+ res_conflict_id r +:+ "' resolved" +:+
  match res_duplicated_object_id r, res_retry_mutation r with
  | Some dup_id, _ =>
      ". Local changes preserved as new note '" +:+ dup_id +:+ "'. Original note '" +:+ res_object_id r
      +:+ "' updated to remote revision " +:+ show_N remote_revision +:+ "."
  | None, Some m =>
      " for note '" +:+ res_object_id r +:+ "'. "
      +:+ (if remote_is_deleted then "Note restored/resurrected and mutation" else "Mutation")
      +:+ " enqueued with expected revision " +:+ show_N (mut_expected_revision m) +:+ " for sync retry."
  | None, None =>
      " for note '" +:+ res_object_id r +:+ "'. "
      +:+ (if remote_is_deleted then "Remote deletion accepted; note marked deleted locally." else "Remote version accepted.")
  end.

(** The auto-lock policy in [status] and in [autolock]. *)
Definition remaining (info : SessionInfo) : N := default 0%N (remaining_secs info).
Definition auto_lock_line (auto_lock_info : option SessionInfo) : string :=
  match auto_lock_info with
  | Some info =>
      match si_idle_timeout_secs info with
      | Some timeout =>
          "Auto-lock:    Active (timeout: " +:+ show_N (timeout / 60) +:+ "m, idle: " +:+ show_N (idle_secs info)
          +:+ "s, remaining: " +:+ show_N (remaining info / 60) +:+ "m " +:+ show_N (remaining info mod 60) +:+ "s)"
      | None => "Auto-lock:    Disabled (never expires)"
      end
  | None => "Auto-lock:    Disabled (never expires)"
  end.
Definition status_lines (dir_text : string) (state : VaultState) : list string :=
  match state with
  | VS_Uninitialized =>
      ["Vault status: UNINITIALIZED"; "Path: " +:+ dir_text; "Run 'zk-note init' to create a new vault."]
  | VS_Locked => ["Vault status: LOCKED"; "Path: " +:+ dir_text; "Run 'zk-note unlock' to unlock the vault."]
  | VS_Unlocked info => ["Vault status: UNLOCKED"; "Path: " +:+ dir_text; auto_lock_line info]
  end.
Definition autolock_lines (info : SessionInfo) : list string :=
  match si_idle_timeout_secs info with
  | Some timeout =>
      ["Auto-lock: Active"; "Timeout:   " +:+ show_N (timeout / 60) +:+ " minute(s) (" +:+ show_N timeout +:+ "s)";
       "Idle:      " +:+ show_N (idle_secs info) +:+ "s";
       "Remaining: " +:+ show_N (remaining info / 60) +:+ "m " +:+ show_N (remaining info mod 60) +:+ "s"]
  | None => ["Auto-lock: Disabled (never expires)"]
  end.

(** ** Commands on the data directory *)

Section local.
Context {DB : Type} `{LocalStorage DB} `{!Env} `{CliLib DB} `{JournalLib} `{!VaultFileLib DB} `{!EditorLib DB}.
Context `{HttpClientLib} `{AuthClientLib} `{Console} `{CommandLib}.
Context `{CryptoLib} `{NoteLib} `{SearchLib} `{KdfLib} `{ChunkLib} `{ManifestLib}.
Abbreviation Cli A := (M (Local (World DB)) CliError A).
Abbreviation Run A := (M (Local (World DB)) Abort A).

(** A secret that is typed in, and [std::fs::write] with its own error text. *)
Definition ask_secret (prompt what : string) : Cli string :=
  lift_result (result_map_err (fun e => Io ("failed to read " +:+ what +:+ ": " +:+ e)) (prompt_password prompt)).
Definition fs_write_as (text : IoError -> CliError) (p : path) (c : content DB) : Cli unit :=
  _ ← io_as text (fs_create p); io_as text (fs_write_all p c).

(** Printed with [--json], or as lines. *)
Definition json_line (what : string) (json : Result string string) : Result (list string) CliError :=
  j ← result_map_err (fun e => Io ("serialize " +:+ what +:+ ": " +:+ e)) json; Ok [j].

(** *** The vault *)

Definition init_passphrase (explicit_passphrase : option string) : Cli string :=
  match explicit_passphrase with
  | Some pass => mret pass
  | None =>
      p1 ← ask_secret "Enter new vault passphrase: " "passphrase";
      p2 ← ask_secret "Confirm vault passphrase: " "confirmation";
      if negb (bool_decide (p1 = p2)) then throw PassphraseMismatch
      else if bool_decide (p1 = "") then throw (Io "passphrase cannot be empty")
      else mret p1
  end.

Definition kdf_params (test_kdf : bool) : Cli KdfParams :=
  on_rng (fun e => cli_of_core (CE_Crypto e)) (if test_kdf then new_test else new_production).

(** The recovery key, which is printed last. *)
Definition cmd_init (dir : path) (explicit_passphrase : option string) (test_kdf : bool) : Cli string :=
  _ ← recover dir;
  present ← exists_path (vault_file dir);
  if (present : bool) then throw VaultAlreadyInitialized
  else
    passphrase ← init_passphrase explicit_passphrase;
    params ← kdf_params test_kdf;
    vault ← on_rng cli_of_core (init_vault passphrase params);
    let '(bootstrap, recovery_key_str, vault_key) := vault in
    _ ← io_as (fun e => Io ("failed to create directory " +:+ path_display dir +:+ ": " +:+ IoError_display e))
          (fs_create_dir_all dir);
    bootstrap_json ← lift_result (result_map_err (fun e => Io ("serialize vault bootstrap: " +:+ e))
                                    (bootstrap_to_string_pretty bootstrap));
    _ ← fs_write_as (fun e => Io ("failed to write vault file " +:+ path_display (vault_file dir) +:+ ": "
                                 +:+ IoError_display e)) (vault_file dir) (Bytes bootstrap_json);
    _ ← open_db dir;
    _ ← save_session_key (session_file dir) vault_key;
    mret recovery_key_str.

Definition read_vault (dir : path) : Cli VaultBootstrap :=
  vault_bytes ← read_bytes (fun e => Io ("failed to read vault file " +:+ path_display (vault_file dir)
                                        +:+ ": " +:+ IoError_display e)) (vault_file dir);
  lift_result (result_map_err (fun e => Io ("corrupted vault.json: " +:+ e)) (CliNotes.bootstrap_from_slice vault_bytes)).

Definition too_short (pass : string) : bool := (String.length pass <? 8)%nat.
Definition short_error : CliError := Io "new passphrase must be at least 8 characters long".

Definition vault_tmp (dir : path) : path := dir ++ ["vault.json.tmp." +:+ process_id].

(** Writing the new [vault.json] beside the old one, and renaming it. *)
Definition replace_vault (dir : path) (b : VaultBootstrap) : Cli unit :=
  updated_json ← lift_result (result_map_err (fun e => Io ("serialize vault bootstrap: " +:+ e))
                                (bootstrap_to_string_pretty b));
  _ ← fs_write_as (fun e => Io ("failed to write temporary vault file: " +:+ IoError_display e))
        (vault_tmp dir) (Bytes updated_json);
  io_as (fun e => Io ("failed to atomically update vault.json: " +:+ IoError_display e))
    (fs_rename (vault_tmp dir) (vault_file dir)).

(** The vault key under a new passphrase. *)
Definition rewrap (dir : path) (bootstrap : VaultBootstrap) (vault_key new_pass : string) (test_kdf : bool) : Cli unit :=
  params ← kdf_params (test_kdf || (memory_kib (kdf bootstrap) =? TEST_MEMORY_KIB)%N);
  updated ← on_rng cli_of_core (set_new_passphrase bootstrap vault_key new_pass params);
  replace_vault dir updated.

(** The timeout that is set, or [None] when the vault was unlocked already. *)
Definition cmd_unlock (dir : path) (explicit_passphrase explicit_recovery_key new_passphrase : option string)
    (idle_timeout_mins : option N) : Cli (option (option N)) :=
  _ ← require_vault dir;
  active ← has_active_session (session_file dir);
  if active && negb (bool_decide (is_Some new_passphrase)) then mret None
  else
    bootstrap ← read_vault dir;
    vault_key ← (match explicit_recovery_key with
                 | Some rec_key => lift_result (result_map_err cli_of_core (Vault.unlock_with_recovery_key bootstrap rec_key))
                 | None =>
                     pass ← (match explicit_passphrase with
                             | Some p => mret p
                             | None => ask_secret "Enter vault passphrase: " "passphrase"
                             end);
                     lift_result (result_map_err cli_of_core (unlock_with_passphrase bootstrap pass))
                 end);
    _ ← (match new_passphrase with
         | Some new_pass => if too_short new_pass then throw short_error else rewrap dir bootstrap vault_key new_pass false
         | None => mret tt
         end);
    let timeout_secs := session_timeout idle_timeout_mins in
    _ ← save_session_key_with_timeout (session_file dir) vault_key timeout_secs;
    mret (Some timeout_secs).

Definition passwd_new_passphrase (explicit_new_passphrase : option string) : Cli string :=
  match explicit_new_passphrase with
  | Some p => if too_short p then throw short_error else mret p
  | None =>
      p1 ← ask_secret "Enter new vault passphrase: " "new passphrase";
      if too_short p1 then throw short_error
      else
        p2 ← ask_secret "Confirm new vault passphrase: " "confirmation";
        if negb (bool_decide (p1 = p2)) then throw PassphraseMismatch else mret p1
  end.

Definition cmd_passwd (dir : path) (explicit_old_passphrase explicit_new_passphrase : option string) (test_kdf : bool)
    : Cli unit :=
  _ ← require_vault dir;
  bootstrap ← read_vault dir;
  old_pass ← (match explicit_old_passphrase with
              | Some p => mret p
              | None => ask_secret "Enter current vault passphrase: " "current passphrase"
              end);
  if bool_decide (old_pass = "") then throw (Io "current passphrase cannot be empty")
  else
    vault_key ← lift_result (result_map_err cli_of_core (unlock_with_passphrase bootstrap old_pass));
    new_pass ← passwd_new_passphrase explicit_new_passphrase;
    _ ← rewrap dir bootstrap vault_key new_pass test_kdf;
    active ← has_active_session (session_file dir);
    if (active : bool) then save_session_key (session_file dir) vault_key else mret tt.

Definition recovery_key_of (explicit_recovery_key : option string) : Cli string :=
  match explicit_recovery_key with
  | Some k => mret k
  | None =>
      if is_terminal then ask_secret "Enter your 288-bit recovery key: " "recovery key"
      else throw (Io "recovery key must be provided via --recovery-key in non-interactive mode")
  end.

(** The new passphrase, if one is set. *)
Definition recover_new_passphrase (interactive : bool) (explicit_new_passphrase : option string) : Cli (option string) :=
  match explicit_new_passphrase with
  | Some p => if too_short p then throw short_error else mret (Some p)
  | None =>
      if interactive && is_terminal then
        p1 ← ask_secret "Enter new vault passphrase (minimum 8 characters, or leave blank to skip): " "passphrase";
        if bool_decide (p1 = "") then mret None
        else if too_short p1 then throw short_error
        else
          p2 ← ask_secret "Confirm new vault passphrase: " "confirmation";
          if negb (bool_decide (p1 = p2)) then throw PassphraseMismatch else mret (Some p1)
      else mret None
  end.

Definition receipt (dir : path) (passphrase_reset : bool) : string :=
  str_join nl
    ["ZERO-KNOWLEDGE VAULT RECOVERY RECEIPT"; "====================================="; "Data directory: " +:+ path_display dir;
     "Status: Access restored successfully"; "Passphrase reset: " +:+ (if passphrase_reset then "YES" else "NO");
     "Note: Server stores only ciphertext. Server decryption capability: ZERO."; ""].

Definition cmd_recover (dir : path) (explicit_recovery_key explicit_new_passphrase : option string)
    (export_receipt : option path) (test_kdf : bool) : Cli unit :=
  _ ← require_vault dir;
  bootstrap ← read_vault dir;
  rec_key ← recovery_key_of explicit_recovery_key;
  vault_key ← lift_result (result_map_err cli_of_core (Vault.unlock_with_recovery_key bootstrap (str_trim rec_key)));
  new_pass ← recover_new_passphrase (negb (bool_decide (is_Some explicit_recovery_key))) explicit_new_passphrase;
  _ ← (match new_pass with Some pass => rewrap dir bootstrap vault_key pass test_kdf | None => mret tt end);
  _ ← save_session_key (session_file dir) vault_key;
  match export_receipt with
  | Some export_path =>
      fs_write_as (fun e => Io ("failed to write recovery receipt to " +:+ path_display export_path +:+ ": "
                               +:+ IoError_display e))
        export_path (Bytes (receipt dir (bool_decide (is_Some new_pass))))
  | None => mret tt
  end.

Definition cmd_lock (dir : path) : Cli unit := lock_vault dir.

Definition auth_line (dir : path) : Cli string :=
  present ← has_auth_session (auth_session_file dir);
  if negb present then mret "Server auth:  Not logged in (run 'zk-note login' to connect)"
  else
    auth ← attempt (load_auth_session (auth_session_file dir));
    mret (match auth with
          | Ok auth => "Server auth:  Logged in as account " +:+ as_account_id auth +:+ " (device " +:+ as_device_id auth
                       +:+ ") at " +:+ as_server_url auth
          | Err _ => "Server auth:  Logged in (corrupted .auth_session file)"
          end).

Definition cmd_status (dir : path) : Cli (list string) :=
  _ ← recover dir;
  state ← get_vault_status dir;
  line ← auth_line dir;
  mret (status_lines (path_display dir) state ++ [line]).

Definition cmd_autolock (dir : path) (timeout_mins : option N) (json_output : bool) : Cli (list string) :=
  _ ← recover dir;
  present ← exists_path (session_file dir);
  if negb present then throw VaultLocked
  else
    match timeout_mins with
    | Some mins =>
        info ← update_session_timeout (session_file dir) (mins_to_secs mins);
        if json_output then lift_result (json_line "autolock info" (info_pretty info))
        else if (mins =? 0)%N then mret ["Auto-lock disabled for active session (never expires)."]
        else mret ["Auto-lock idle timeout set to " +:+ show_N mins +:+ " minute(s)."]
    | None =>
        info ← get_session_info (session_file dir);
        match info with
        | Some info =>
            if json_output then lift_result (json_line "autolock info" (info_pretty info))
            else mret (autolock_lines info)
        | None => throw VaultLocked
        end
    end.

(** *** Notes *)

Definition new_title (title_opt : option string) : Cli string :=
  match title_opt with
  | Some t => mret t
  | None =>
      if is_terminal then
        line ← lift_result (result_map_err Io (read_line "Enter note title: "));
        let trimmed := str_trim line in
        if bool_decide (trimmed = "") then throw (Io "note title cannot be empty") else mret trimmed
      else throw (Io "note title is required (provide via --title or interactive prompt)")
  end.
Definition new_body (body_opt : option string) : Cli string :=
  match body_opt with
  | Some b => mret b
  | None => if is_terminal then mret "" else lift_result (result_map_err Io read_to_string)
  end.

(** The identifier, and the note as it is shown. *)
Definition cmd_new (dir : path) (title_opt body_opt : option string) (tags : list string) : Cli (string * PlaintextNote) :=
  _ ← require_vault dir;
  vault_key ← load_session_key (session_file dir);
  title ← new_title title_opt;
  body ← new_body body_opt;
  note_id ← create_note dir vault_key title body tags;
  found ← get_plaintext_note dir vault_key note_id;
  mret (note_id, found.2).

Definition cmd_show (dir : path) (note_id : string) (json_output : bool) : Cli (PlaintextNote * list string) :=
  _ ← recover dir;
  vault_key ← load_session_key (session_file dir);
  found ← get_plaintext_note dir vault_key note_id;
  let '(stored, note) := found in
  lines ← (if json_output then lift_result (json_line "note json" (note_pretty note)) else mret (show_lines stored note));
  mret (note, lines).

Definition cmd_search (dir : path) (query : string) (json_output : bool) : Run (list SearchResult * list string) :=
  results ← cli (_ ← recover dir;
                 vault_key ← load_session_key (session_file dir);
                 search_notes dir vault_key query);
  lines ← (if json_output then cli (lift_result (json_line "search json" (results_pretty results)))
           else lift_result (search_lines query results));
  mret (results, lines).

Definition cmd_list (dir : path) (tag_filter : option string) (include_deleted json_output : bool)
    : Run (list ClientNoteSummary * list string) :=
  notes ← cli (_ ← recover dir;
               vault_key ← load_session_key (session_file dir);
               list_notes dir vault_key include_deleted tag_filter);
  lines ← (if json_output then cli (lift_result (json_line "list json" (notes_pretty notes)))
           else lift_result (list_lines notes));
  mret (notes, lines).

(** The title, tags and body after the edit; [None] when the buffer came back as it
    was. *)
Definition interactive_edit (editor_override : option string) (note : PlaintextNote)
    : Run (option (string * list string * string)) :=
  let initial_text := note_to_edit_buffer (n_title note) (n_tags note) (n_body note) in
  with_temp_file "zk-note-edit" initial_text (fun guard =>
    bytes ← cli (edited_bytes (editor_command editor_override) guard);
    if bool_decide (bytes = initial_text) then mret None
    else
      parsed ← parse_edited "note" bytes (n_title note) (n_tags note);
      mret (Some (pe_title parsed, pe_tags parsed, pe_body parsed))).

Definition given {A} (o : option A) : bool := bool_decide (is_Some o).

Definition edit_values (editor_override title_override body_override : option string)
    (tag_override : option (list string)) (note : PlaintextNote) : Run (option (string * list string * string)) :=
  if given title_override || given body_override || given tag_override
  then mret (Some (default (n_title note) title_override, default (n_tags note) tag_override,
                   default (n_body note) body_override))
  else interactive_edit editor_override note.

Definition cmd_edit (dir : path) (note_id : string) (editor_override title_override body_override : option string)
    (tag_override : option (list string)) : Run PlaintextNote :=
  found ← cli (_ ← require_vault dir;
               vault_key ← load_session_key (session_file dir);
               found ← get_plaintext_note dir vault_key note_id;
               mret (vault_key, found));
  let '(vault_key, (stored, current_note)) := found in
  values ← edit_values editor_override title_override body_override tag_override current_note;
  match values with
  | None => mret current_note
  | Some (title, tags, body) =>
      if bool_decide (title = n_title current_note) && bool_decide (tags = n_tags current_note)
         && bool_decide (body = n_body current_note)
      then mret current_note
      else
        _ ← cli (update_note dir vault_key (obj_object_id stored) title body tags);
        cli (build_note title body tags (Some (n_created_at current_note)))
  end.

Definition cmd_delete (dir : path) (note_id : string) (purge : bool) : Cli N :=
  _ ← recover dir;
  vault_key ← load_session_key (session_file dir);
  if purge then
    deleted ← delete_note dir note_id true;
    mret deleted.2
  else
    found ← get_plaintext_note dir vault_key note_id;
    deleted ← delete_note dir (obj_object_id found.1) false;
    mret deleted.2.

(** *** History *)

Definition history_item (revision : N) (note : PlaintextNote) (updated_at : string) (is_deleted : bool) : NoteHistoryItem :=
  mkHistoryItem revision (n_title note) (n_tags note) (n_body note) updated_at is_deleted.

Fixpoint open_versions (vault_key : string) (l : list (N * EncryptedEnvelope)) : Result (list NoteHistoryItem) CoreError :=
  match l with
  | [] => Ok []
  | (rev, env) :: l =>
      note ← decrypt env vault_key;
      items ← open_versions vault_key l;
      Ok (history_item rev note (n_updated_at note) false :: items)
  end.

Definition by_revision (a b : NoteHistoryItem) : comparison := N.compare (hi_revision a) (hi_revision b).

Definition history_db (vault_key note_id : string) : M (Local DB) CliError (StoredEncryptedObject * list NoteHistoryItem) :=
  stored ← find_note_object note_id true;
  base_versions ← on_store Cli_Storage (list_base_versions (obj_object_id stored));
  history ← lift_result (result_map_err cli_of_core (open_versions vault_key base_versions));
  history ← (if existsb (fun h => (hi_revision h =? obj_revision stored)%N) history then mret history
             else
               current_note ← lift_result (result_map_err cli_of_core (decrypt (obj_envelope stored) vault_key));
               mret (history ++ [history_item (obj_revision stored) current_note (obj_updated_at stored)
                                   (obj_is_deleted stored)]));
  mret (stored, sort_by by_revision history).

Definition cmd_history (dir : path) (note_id : string) (revision_opt : option N) (json_output : bool)
    : Cli (list NoteHistoryItem * list string) :=
  _ ← require_vault dir;
  vault_key ← load_session_key (session_file dir);
  _ ← open_db dir;
  found ← in_db dir (history_db vault_key note_id);
  let '(stored, history) := found in
  match revision_opt with
  | Some target_rev =>
      item ← ok_or (RevisionNotFound (obj_object_id stored) target_rev)
               (find_first (fun h => (hi_revision h =? target_rev)%N) history);
      lines ← (if json_output then lift_result (json_line "history item json" (history_item_pretty item))
               else mret (history_item_lines (obj_object_id stored) item));
      mret ([item], lines)
  | None =>
      lines ← (if json_output then lift_result (json_line "history json" (history_pretty history))
               else mret (history_lines (obj_object_id stored) history));
      mret (history, lines)
  end.

(** *** Conflicts *)

Definition cmd_conflicts (dir : path) (include_resolved json_output : bool)
    : Cli (list ClientConflictSummary * list string) :=
  _ ← recover dir;
  key ← attempt (load_session_key (session_file dir));
  items ← list_conflicts dir (ok key) include_resolved;
  lines ← (if json_output then lift_result (json_line "conflicts json" (conflicts_pretty items))
           else mret (conflict_lines include_resolved items));
  mret (items, lines).

Record ResolveFlags : Type := mkResolveFlags {
  choose_local : bool;
  choose_remote : bool;
  choose_merge : bool;
  choose_duplicate : bool;
  choose_restore : bool;
  duplicate_title : option string;
  editor_override : option string;
  title_override : option string;
  body_override : option string;
  tag_override : option (list string)
}.

Definition flags_count (f : ResolveFlags) : nat :=
  length (List.filter (fun b : bool => b) [choose_local f; choose_remote f; choose_merge f; choose_duplicate f; choose_restore f]).

Definition candidate_note (vault_key : string) (conflict : ConflictRecord) : Cli PlaintextNote :=
  match cr_candidate_envelope conflict with
  | Some cand_env => lift_result (result_map_err cli_of_core (decrypt cand_env vault_key))
  | None =>
      p ← map_err Cli_Storage (Conflict.generate_merge_candidate (cr_base_envelope conflict) (cr_local_envelope conflict)
                                 (cr_remote_envelope conflict) vault_key);
      mret (mo_candidate p.1)
  end.

(** [NoteBuilder::new().title(..).body(..).tags(..).build()?] *)
Definition merged_note (title body : string) (tags : list string) : Cli PlaintextNote :=
  t ← now;
  lift_result (result_map_err cli_of_validation (NoteBuilder_build t (mkNoteBuilder None title body tags None None []))).

(** The candidate, edited. *)
Definition edited_merge (vault_key : string) (conflict : ConflictRecord) (f : ResolveFlags)
    : Run ConflictResolutionStrategy :=
  note ← cli (candidate_note vault_key conflict);
  parsed ← with_temp_file "zk-note-resolve-merge" (note_to_edit_buffer (n_title note) (n_tags note) (n_body note))
    (fun guard =>
       bytes ← cli (edited_bytes (editor_command (editor_override f)) guard);
       parse_edited "merge note" bytes (n_title note) (n_tags note));
  merged ← cli (merged_note (pe_title parsed) (pe_body parsed) (pe_tags parsed));
  mret (MergeWith merged).

Definition merge_strategy (vault_key : string) (conflict : ConflictRecord) (f : ResolveFlags)
    : Run ConflictResolutionStrategy :=
  if given (title_override f) || given (body_override f) || given (tag_override f) then
    note ← cli (candidate_note vault_key conflict);
    merged ← cli (merged_note (default (n_title note) (title_override f)) (default (n_body note) (body_override f))
                    (default (n_tags note) (tag_override f)));
    mret (MergeWith merged)
  else if given (editor_override f) || is_terminal then edited_merge vault_key conflict f
  else
    note ← cli (candidate_note vault_key conflict);
    mret (MergeWith note).

(** The answer to a prompt, and the ways to leave a menu. *)
Definition ask_line (prompt : string) : Run string := lift_result (result_map_err (fun e => Fails (Io e)) (read_line prompt)).
Definition leave {A} (choice : string) : Run A :=
  if bool_decide (choice = "q") || bool_decide (choice = "Q") then throw (Fails (Io "resolution aborted by user"))
  else throw (Fails (Io ("invalid option: '" +:+ choice +:+ "'"))).

(** The copy under a title that is asked for. *)
Definition duplicate_as (prompt default_title : string) : Run ConflictResolutionStrategy :=
  title_input ← ask_line (prompt +:+ " [default: " +:+ quoted default_title +:+ "]: ");
  let trimmed_title := str_trim title_input in
  new_object_id ← cli new_uuid;
  mret (DuplicateAsSeparate new_object_id
          (Some (if bool_decide (trimmed_title = "") then default_title else trimmed_title))).

Definition opened_note (vault_key : string) (env : EncryptedEnvelope) : Run PlaintextNote :=
  lift_result (result_map_err (fun e => Fails (cli_of_core e)) (decrypt env vault_key)).

Definition delete_vs_edit_menu (vault_key : string) (conflict : ConflictRecord) : Run ConflictResolutionStrategy :=
  local_note ← opened_note vault_key (cr_local_envelope conflict);
  input ← ask_line "Select an option [1-3, q]: ";
  let choice := str_trim input in
  if bool_decide (choice = "1") then mret RestoreResurrect
  else if bool_decide (choice = "2") then mret KeepRemote
  else if bool_decide (choice = "3") then duplicate_as "Enter title for new note" (n_title local_note +:+ " (Restored)")
  else leave choice.

Definition edit_vs_delete_menu (vault_key : string) (conflict : ConflictRecord) : Run ConflictResolutionStrategy :=
  _ ← opened_note vault_key (cr_remote_envelope conflict);
  input ← ask_line "Select an option [1-2, q]: ";
  let choice := str_trim input in
  if bool_decide (choice = "1") then mret KeepLocal
  else if bool_decide (choice = "2") then mret KeepRemote
  else leave choice.

Definition edit_vs_edit_menu (vault_key : string) (conflict : ConflictRecord) (f : ResolveFlags)
    : Run ConflictResolutionStrategy :=
  local_note ← opened_note vault_key (cr_local_envelope conflict);
  _ ← opened_note vault_key (cr_remote_envelope conflict);
  input ← ask_line "Select an option [1-4, q]: ";
  let choice := str_trim input in
  if bool_decide (choice = "1") then mret KeepLocal
  else if bool_decide (choice = "2") then mret KeepRemote
  else if bool_decide (choice = "3") then edited_merge vault_key conflict f
  else if bool_decide (choice = "4") then duplicate_as "Enter title for duplicate note" (n_title local_note +:+ " (Local Copy)")
  else leave choice.

Definition choose_strategy (vault_key : string) (conflict : ConflictRecord) (f : ResolveFlags)
    : Run ConflictResolutionStrategy :=
  if choose_restore f then mret RestoreResurrect
  else if choose_local f then mret KeepLocal
  else if choose_remote f then mret KeepRemote
  else if choose_duplicate f then
    new_object_id ← cli new_uuid;
    mret (DuplicateAsSeparate new_object_id (duplicate_title f))
  else if choose_merge f then merge_strategy vault_key conflict f
  else if negb is_terminal then
    throw (Fails (Io "no resolution strategy specified; use --local, --remote, --merge, --duplicate, or --restore"))
  else if cr_remote_is_deleted conflict then delete_vs_edit_menu vault_key conflict
  else if cr_local_is_deleted conflict then edit_vs_delete_menu vault_key conflict
  else edit_vs_edit_menu vault_key conflict f.

(** The checks before a strategy is chosen. *)
Definition check_flags (conflict : ConflictRecord) (f : ResolveFlags) : Result unit CliError :=
  if (1 <? flags_count f)%nat then
    Err (Io "only one of --local, --remote, --merge, --duplicate, or --restore can be specified")
  else if choose_merge f && (cr_remote_is_deleted conflict || cr_local_is_deleted conflict) then
    Err (Io "cannot merge a delete conflict; use --restore to resurrect as current revision, --duplicate to restore as a new note, or --remote to accept deletion")
  else Ok tt.

Definition cmd_resolve (dir : path) (conflict_id : string) (f : ResolveFlags)
    : Run (ConflictResolutionResult * string) :=
  found ← cli (_ ← require_vault dir;
               vault_key ← load_session_key (session_file dir);
               _ ← open_db dir;
               conflict ← in_db dir (find_conflict_record conflict_id);
               mret (vault_key, conflict));
  let '(vault_key, conflict) := found in
  if cr_resolved conflict then throw (Fails (ConflictAlreadyResolved (cr_conflict_id conflict)))
  else
    _ ← cli (lift_result (check_flags conflict f));
    strategy ← choose_strategy vault_key conflict f;
    result ← cli (resolve_conflict_item dir vault_key (cr_conflict_id conflict) strategy);
    mret (result, resolve_line (cr_remote_is_deleted conflict) (cr_remote_revision conflict) result).

(** *** Attachments *)

(** [Path::is_file] *)
Definition is_file (p : path) : Cli bool := io (fun w => (Ok (bool_decide (is_Some (files (disk w) !! p))), w)).

(** [zk_core::attachment::encrypt_attachment_file]: the file is opened for its size,
    and read by the stream.  [None] is the panic of a division by a chunk size of zero. *)
Definition encrypt_attachment_file (source_path : path) (attachment_id key : string) (name mime : option string)
    (chunk_size : option nat) : Cli (option (Manifest * list EncryptedChunk)) :=
  let io_error e := cli_of_core (CE_Attachment (CoreErrors.Io (IoError_display e))) in
  c ← io_as io_error (fs_read source_path);
  let total_size := N.of_nat (String.length (bytes_of c)) in
  content ← io_result (fs_read source_path);
  let reader := match content with
                | Ok c => [ReadData (bytes_of c)]
                | Err e => [ReadError (IoError_display e)]
                end in
  let resolved_name := default (default "attachment.bin" (last source_path)) name in
  let params := with_chunk_size (default DEFAULT_CHUNK_SIZE chunk_size)
                  (EncryptParams_new attachment_id resolved_name (default "application/octet-stream" mime)) in
  on_rng cli_of_core (Stream.encrypt_attachment_stream reader total_size params key).

Definition manifest_mutation (mutation_id attachment_id : string) (mutation_type : MutationType) (expected_revision : N)
    (envelope : EncryptedEnvelope) (now : string) : PendingMutation :=
  mkPendingMutation mutation_id attachment_id expected_revision OBJECT_KIND_ATTACHMENT_MANIFEST mutation_type envelope now
    0 Pending.

Abbreviation Db A := (M (Local DB) CliError A).
Abbreviation store op := (on_store Cli_Storage op).

(** The next revision of a note, stored and queued. *)
Definition store_note (stored : StoredEncryptedObject) (envelope : EncryptedEnvelope) (now : string) : Db unit :=
  _ ← store (put_object (mkStoredObject (obj_object_id stored) OBJECT_KIND_NOTE (u64_add (obj_revision stored) 1)
                           (obj_server_seq stored) false envelope now));
  mutation_id ← new_uuid;
  store (enqueue_mutation (upsert_of mutation_id (obj_object_id stored) Upsert (obj_revision stored) envelope now)).

(** After the file is encrypted. *)
Definition attach_db (vault_key : string) (stored : StoredEncryptedObject) (note : PlaintextNote)
    (attachment_key : string) (manifest : Manifest) (attachment_id : string) : Db unit :=
  manifest_envelope ← on_rng cli_of_core (Stream.encrypt_attachment_manifest manifest attachment_key vault_key);
  t ← now;
  _ ← store (put_object (mkStoredObject attachment_id OBJECT_KIND_ATTACHMENT_MANIFEST INITIAL_OBJECT_REVISION
                           INITIAL_SERVER_SEQ false manifest_envelope t));
  mutation_id ← new_uuid;
  _ ← store (enqueue_mutation (manifest_mutation mutation_id attachment_id Upsert INITIAL_EXPECTED_REVISION
                                 manifest_envelope t));
  t' ← now;
  note ← lift_result (result_map_err cli_of_core (Stream.add_attachment_to_note t' note attachment_id));
  envelope ← on_rng cli_of_core (encrypt note vault_key (obj_object_id stored));
  store_note stored envelope t.

(** The note and the encrypted file; [None] is the panic of a division by a chunk size of zero. *)
Definition attach_prepare (dir : path) (note_id : string) (file_path : path) (custom_name custom_mime : option string)
    : Cli (option (string * StoredEncryptedObject * PlaintextNote * string * Manifest)) :=
  _ ← require_vault dir;
  regular ← is_file file_path;
  if negb regular
  then throw (Io ("attachment file '" +:+ path_display file_path +:+ "' does not exist or is not a regular file"))
  else
    vault_key ← load_session_key (session_file dir);
    _ ← open_db dir;
    stored ← in_db dir (find_note_object note_id false);
    note ← lift_result (result_map_err cli_of_core (decrypt (obj_envelope stored) vault_key));
    attachment_id ← new_uuid;
    attachment_key ← on_rng (fun e => cli_of_core (CE_Crypto e)) (fill_random KEY_LEN);
    encrypted ← encrypt_attachment_file file_path attachment_id attachment_key custom_name custom_mime None;
    mret (p ← encrypted; Some (vault_key, stored, note, attachment_key, p.1)).

(** The manifest, which names the attachment.  The chunks are dropped. *)
Definition cmd_attach (dir : path) (note_id : string) (file_path : path) (custom_name custom_mime : option string)
    : Run Manifest :=
  prepared ← cli (attach_prepare dir note_id file_path custom_name custom_mime);
  match prepared with
  | None => throw Panics
  | Some (vault_key, stored, note, attachment_key, manifest) =>
      _ ← cli (in_db dir (attach_db vault_key stored note attachment_key manifest (mf_attachment_id manifest)));
      mret manifest
  end.

(** The manifest of a detached attachment becomes a tombstone. *)
Definition bury_manifest (attachment_id t : string) : Db unit :=
  found ← attempt (store (get_object attachment_id));
  match found with
  | Ok (Some manifest_obj) =>
      _ ← store (put_object (mkStoredObject attachment_id OBJECT_KIND_ATTACHMENT_MANIFEST
                               (u64_add (obj_revision manifest_obj) 1) (obj_server_seq manifest_obj) true
                               (obj_envelope manifest_obj) t));
      mutation_id ← new_uuid;
      store (enqueue_mutation (manifest_mutation mutation_id attachment_id Delete (obj_revision manifest_obj)
                                 (obj_envelope manifest_obj) t))
  | _ => mret tt
  end.

Definition detach_db (vault_key note_id attachment_id : string) : Db unit :=
  stored ← find_note_object note_id false;
  note ← lift_result (result_map_err cli_of_core (decrypt (obj_envelope stored) vault_key));
  if negb (Stream.remove_attachment_from_note "" note attachment_id).2
  then throw (Io ("attachment '" +:+ attachment_id +:+ "' not found on note '" +:+ obj_object_id stored +:+ "'"))
  else
    removed_at ← now;
    let note := (Stream.remove_attachment_from_note removed_at note attachment_id).1 in
    t ← now;
    envelope ← on_rng cli_of_core (encrypt note vault_key (obj_object_id stored));
    _ ← store_note stored envelope t;
    bury_manifest attachment_id t.

Definition cmd_detach (dir : path) (note_id attachment_id : string) : Cli unit :=
  _ ← require_vault dir;
  vault_key ← load_session_key (session_file dir);
  _ ← open_db dir;
  in_db dir (detach_db vault_key note_id attachment_id).

(** The manifests of a note that are stored, alive and open. *)
Fixpoint open_manifests (vault_key : string) (ids : list string) : Db (list Manifest) :=
  match ids with
  | [] => mret []
  | att_id :: ids =>
      found ← attempt (store (get_object att_id));
      rest ← open_manifests vault_key ids;
      mret (match found with
            | Ok (Some obj) =>
                if obj_is_deleted obj then rest
                else match Stream.decrypt_attachment_manifest (obj_envelope obj) vault_key with
                     | Ok (manifest, _) => manifest :: rest
                     | Err _ => rest
                     end
            | _ => rest
            end)
  end.

Definition attachments_db (vault_key note_id : string) : Db (StoredEncryptedObject * list Manifest) :=
  stored ← find_note_object note_id false;
  note ← lift_result (result_map_err cli_of_core (decrypt (obj_envelope stored) vault_key));
  manifests ← open_manifests vault_key (n_attachments note);
  mret (stored, manifests).

Definition attachments_lines (object_id : string) (manifests : list Manifest) : list string :=
  ("Attachments for note '" +:+ object_id +:+ "':")
  :: match manifests with
     | [] => ["  (no attachments)"]
     | _ => mjoin (map (fun m => ["- ID:     " +:+ mf_attachment_id m; "  Name:   " +:+ mf_name m;
                                  "  Size:   " +:+ show_N (mf_size m) +:+ " bytes"; "  Chunks: " +:+ show_N (mf_chunk_count m);
                                  "  MIME:   " +:+ mf_mime m]) manifests)
     end.

Definition cmd_attachments (dir : path) (note_id : string) (json_output : bool) : Cli (list Manifest * list string) :=
  _ ← require_vault dir;
  vault_key ← load_session_key (session_file dir);
  _ ← open_db dir;
  found ← in_db dir (attachments_db vault_key note_id);
  let '(stored, manifests) := found in
  lines ← (if json_output then lift_result (json_line "manifests json" (manifests_pretty manifests))
           else mret (attachments_lines (obj_object_id stored) manifests));
  mret (manifests, lines).
End local.
