(* ===== verification/CliMain.v ===== *)
(** * The commands over the network, and the program ([apps/cli/src/commands.rs],
      [ssh.rs], [main.rs], [config.rs])

    The account, device, key and vault subcommands of [zk-note], and the dispatch of
    the parsed command line to them and to the commands of [CliCommands.v].  Parsing
    the arguments is [clap]'s work; the terminal interface is an argument.
    Then the theorem on changing the passphrase. *)

From stdpp Require Import options.
From stdpp Require Import gmap.
From S2P Require Import Prelude Sorting Protocol StorageModels Storage Sqlite CoreErrors Time Env Queue ServerDb Text.
From S2P Require Import ServerAuth Crypto Note Vault VaultFacts Search Merge Conflict Adapter Files CliSession VaultFiles.
From S2P Require Import VaultFilesFacts EditBuffer CliNotes CliNotesFacts Json HttpAdapter Push Pull Orchestrator Attachment AttachmentStream CliAuth.
From S2P Require Import CliAuthFacts CliLink CliLinkFacts CliEditor CliCommands.

(** ** The command line ([main.rs]) *)

Inductive KeyCommand : Type :=
| KC_List
| KC_Add (public_key : path) (label : option string)
| KC_Revoke (credential_id : string).

Inductive DeviceCommands : Type :=
| DC_List (json : bool)
| DC_Revoke (device_id : string) (json : bool).

Inductive VaultCommands : Type :=
| VC_Status
| VC_Link
| VC_Restore (passphrase recovery_key : option string)
| VC_ReplaceFromServer (discard_local : bool) (passphrase recovery_key : option string).

(** [impl Debug]: the secrets are left out. *)
Definition VaultCommands_debug (c : VaultCommands) : string :=
  match c with
  | VC_Status => "VaultStatus"
  | VC_Link => "VaultLink"
  | VC_Restore _ _ => "VaultRestore([REDACTED])"
  | VC_ReplaceFromServer _ _ _ => "VaultReplaceFromServer([REDACTED])"
  end.

Inductive Commands : Type :=
| Cmd_Vault (command : VaultCommands)
| Cmd_Init (passphrase : option string) (test_kdf : bool)
| Cmd_Unlock (passphrase recovery_key new_passphrase : option string) (timeout : option N)
| Cmd_Recover (recovery_key new_passphrase : option string) (export_receipt : option path) (test_kdf : bool)
| Cmd_Passwd (old_passphrase new_passphrase : option string) (test_kdf : bool)
| Cmd_Lock
| Cmd_Autolock (timeout : option N) (json : bool)
| Cmd_Status
| Cmd_Login (server account_id device_name device_id token identity : option string)
| Cmd_SshKey (command : KeyCommand)
| Cmd_Logout
| Cmd_Whoami (json : bool)
| Cmd_Device (subcommand : DeviceCommands)
| Cmd_New (title body : option string) (tag : list string)
| Cmd_Edit (note_id : string) (editor title body : option string) (tag : option (list string))
| Cmd_Show (note_id : string) (json : bool)
| Cmd_Search (query : string) (json : bool)
| Cmd_Delete (note_id : string) (purge : bool)
| Cmd_History (note_id : string) (revision : option N) (json : bool)
| Cmd_List (tag : option string) (include_deleted json : bool)
| Cmd_Conflicts (all json : bool)
| Cmd_Attach (note_id : string) (file : path) (name mime : option string)
| Cmd_Detach (note_id attachment_id : string)
| Cmd_Attachments (note_id : string) (json : bool)
| Cmd_Resolve (conflict_id : string) (flags : ResolveFlags)
| Cmd_Tui.

Record CommandLine : Type := mkCommandLine {
  cl_data_dir : option path;
  cl_command : Commands
}.

(** ** What is printed *)

(** The identity of a state, and what it is called. *)
Definition whoami_json (s : ClientAuthState) : Value :=
  let who server_url account_id device_id :=
    [("server_url", VString server_url); ("account_id", VString account_id); ("device_id", VString device_id)] in
  match s with
  | Authenticated u a d sid _ =>
      VObject (("authenticated", VBool true) :: who u a d
               ++ [("session_id", optional_value sid); ("status", VString "active")])
  | Offline u a d _ error => VObject (("authenticated", VBool false) :: who u a d ++ [("error", VString error)])
  | Revoked u a d _ => VObject (("authenticated", VBool false) :: who u a d ++ [("error", VString "SessionRevoked")])
  | Expired u a d _ => VObject (("authenticated", VBool false) :: who u a d ++ [("error", VString "SessionExpired")])
  | AuthStateError u error =>
      VObject [("authenticated", VBool false); ("server_url", VString u); ("error", VString error)]
  | Unverified u a d sid _ =>
      VObject (("authenticated", VBool false) :: who u a d
               ++ [("session_id", optional_value sid); ("status", VString "unverified")])
  | LocalOnly => VObject [("authenticated", VBool false)]
  end.

Definition identity_lines (u a d : string) (sid : option string) : list string :=
  ["Server:     " +:+ u; "Account ID: " +:+ a; "Device ID:  " +:+ d]
  ++ match sid with Some sid => ["Session ID: " +:+ sid] | None => [] end.
Definition login_again : string := "Run 'zk-note login' to re-authenticate.".
Definition not_logged_in : string := "Not logged in. Run 'zk-note login' to authenticate.".

Definition whoami_lines (s : ClientAuthState) : list string :=
  match s with
  | Authenticated u a d sid _ => identity_lines u a d sid ++ ["Status:     Active (active)"]
  | Revoked u a d sid =>
      identity_lines u a d sid ++ ["Status:     REVOKED (session or device revoked on server)"; login_again]
  | Expired u a d sid => identity_lines u a d sid ++ ["Status:     EXPIRED (session token expired)"; login_again]
  | Offline u a d sid error => identity_lines u a d sid ++ ["Status:     UNREACHABLE / ERROR (" +:+ error +:+ ")"]
  | AuthStateError u error => ["Server:     " +:+ u; "Status:     UNREACHABLE / ERROR (" +:+ error +:+ ")"]
  | Unverified u a d sid _ =>
      identity_lines u a d sid ++ ["Status:     UNVERIFIED (local session not yet verified online)"]
  | LocalOnly => [not_logged_in]
  end.

Definition device_row (id name status last_seen : string) : string :=
  pad_to 38 id +:+ " " +:+ pad_to 24 name +:+ " " +:+ pad_to 10 status +:+ " " +:+ pad_to 24 last_seen.
Definition device_lines (session : StoredAuthSession) (devices : list DeviceInfo) : list string :=
  device_row "DEVICE ID" "NAME" "STATUS" "LAST SEEN" :: repeat_char 98 "-"
  :: map (fun dev =>
            device_row (dl_device_id dev)
              (default "<unnamed>" (dl_display_name dev)
               +:+ (if bool_decide (dl_device_id dev = as_device_id session) then " (current)" else ""))
              (if dl_is_revoked dev then "REVOKED" else "ACTIVE") (default "-" (dl_last_seen dev))) devices.

Definition inspection_lines (s : VaultInspection) : list string :=
  [("Vault: " +:+ vi_status s); "Local: " +:+ default "absent" (vi_local_fingerprint s)]
  ++ match vi_link s with
     | Some link => ["Linked account: " +:+ vl_account_id link; "Server: " +:+ vl_server_origin link]
     | None => []
     end
  ++ ["Remote: " +:+ default "absent" (vi_remote_fingerprint s)].

Definition link_triple (link : VaultLink) : string :=
  vl_server_origin link +:+ " / " +:+ vl_account_id link +:+ " / " +:+ vl_vault_fingerprint link.
Definition preflight_lines (p : ReplacePreflight) : list string :=
  let c := rp_counts p in
  ["Replace LOCAL vault from server; nothing local will be uploaded."]
  ++ match rp_current_link p with Some link => ["Current: " +:+ link_triple link] | None => [] end
  ++ ["Target: " +:+ link_triple (rp_target_link p);
      "Discard: pending " +:+ show_nat (uc_pending c) +:+ ", in-flight " +:+ show_nat (uc_in_flight c)
      +:+ ", failed " +:+ show_nat (uc_failed c) +:+ ", conflicts " +:+ show_nat (uc_conflicts c)
      +:+ ", unconfirmed objects " +:+ show_nat (uc_unconfirmed_objects c)].

Definition credential_line (key : SshCredential) : string :=
  sk_credential_id key +:+ " " +:+ sk_fingerprint key +:+ " " +:+ (if sk_revoked key then "revoked" else "active").

(** [serde] *)
Definition add_ssh_key_value (r : AddSshKeyRequest) : Value :=
  VObject [("public_key", VString (ak_public_key r)); ("label", optional_value (ak_label r))].

(** [str::trim_end] *)
Definition str_trim_end (s : string) : string := of_chars (rev (drop_while is_whitespace (rev (chars s)))).

(** ** Library code *)

(** [serde_json] on the answers to key requests, and whether another process holds
    the lock on a directory. *)
Class MainLib : Type := {
  ssh_credential_from_slice : string -> Result SshCredential string;
  ssh_credentials_from_slice : string -> Result (list SshCredential) string;
  locked_elsewhere : path -> bool
}.

Section network.
Context {Net DB : Type} `{Internet Net} `{SshAgent Net} `{!LocalStorage DB} `{!Env} `{CliLib DB} `{JournalLib} `{!VaultFileLib DB} `{!LinkLib DB} `{!EditorLib DB}.
Context `{HttpClientLib} `{AuthClientLib} `{Console} `{CommandLib} `{MainLib}.
Context `{CryptoLib} `{NoteLib} `{SearchLib} `{KdfLib} `{ChunkLib} `{ManifestLib}.
Context (debug : string -> string).
Abbreviation Cli A := (M (Local (Files.World DB)) CliError A).
Abbreviation Out A := (M (Adapter.World Net (Files.World DB)) CliError A).

(** ** The account *)

Definition DEFAULT_SERVER : string := "http://127.0.0.1:8080".

(** A server that cannot be read from the terminal is the default one. *)
Definition server_raw (server_opt : option string) : string :=
  match server_opt with
  | Some s => s
  | None =>
      match env_var "ZK_SERVER_URL" with
      | Some env_s => env_s
      | None =>
          if is_terminal then
            let trimmed := str_trim (default "" (ok (read_line "Enter server URL [http://127.0.0.1:8080]: "))) in
            if bool_decide (trimmed = "") then DEFAULT_SERVER else trimmed
          else DEFAULT_SERVER
      end
  end.

Definition parse_uuid_opt (text : string -> CliError) (o : option string) : Result (option string) CliError :=
  match o with
  | Some s => id ← result_map_err text (uuid_parse s); Ok (Some id)
  | None => Ok None
  end.

Definition login_token (token_opt : option string) : Result string CliError :=
  match token_opt with
  | Some token => Ok token
  | None =>
      if is_terminal then result_map_err Io (prompt_password "Existing session token to authorize this device: ")
      else Err (AuthError "An existing session token is required; use --token or interactive login")
  end.

Definition cmd_login (dir : path) (server_opt account_id_opt device_name_opt device_id_opt token_opt : option string)
    : Out StoredAuthSession :=
  server_url ← lift_result (validate_and_normalize_server_url (server_raw server_opt));
  explicit_dev_id ← lift_result (parse_uuid_opt (fun e => AuthError ("invalid device-id UUID: " +:+ e)) device_id_opt);
  parsed_account_id ← lift_result (parse_uuid_opt (fun _ => AuthError "Invalid account ID") account_id_opt);
  token_raw ← lift_result (login_token token_opt);
  authorize_terminal_device dir server_url token_raw parsed_account_id device_name_opt explicit_dev_id.

(** Whether there was a session to end. *)
Definition cmd_logout (dir : path) : Out bool :=
  _ ← here (recover dir);
  present ← here (has_auth_session (auth_session_file dir));
  if negb present then mret false
  else
    _ ← attempt (E' := CliError) (here (load_auth_session (auth_session_file dir)));
    _ ← sign_out dir;
    mret true.

Definition cmd_whoami (dir : path) (json_output : bool) : Out (list string) :=
  _ ← here (recover dir);
  present ← here (has_auth_session (auth_session_file dir));
  if negb present
  then mret [if json_output then json_to_vec (VObject [("authenticated", VBool false)]) else not_logged_in]
  else
    auth_state ← check_auth_state_online debug dir;
    mret (if json_output then [json_to_vec (whoami_json auth_state)] else whoami_lines auth_state).

Definition cmd_device_list (dir : path) (json_output : bool) : Out (list string) :=
  _ ← here (recover dir);
  present ← here (has_auth_session (auth_session_file dir));
  if negb present then throw NotLoggedIn
  else
    session ← here (load_auth_session (auth_session_file dir));
    devices ← api_list_devices session;
    if json_output then lift_result (json_line "device list" (devices_pretty devices))
    else mret (device_lines session devices).

Definition cmd_device_revoke (dir : path) (device_id_str : string) (json_output : bool) : Out (list string) :=
  _ ← here (recover dir);
  present ← here (has_auth_session (auth_session_file dir));
  if negb present then throw NotLoggedIn
  else
    target_device_id ← lift_result (result_map_err (fun e => Io ("invalid device UUID '" +:+ device_id_str +:+ "': " +:+ e))
                                      (uuid_parse device_id_str));
    session ← here (load_auth_session (auth_session_file dir));
    resp ← api_revoke_device session target_device_id;
    let was_current := bool_decide (target_device_id = as_device_id session) in
    _ ← (if was_current then here (clear_auth_session (auth_session_file dir)) else mret tt);
    if json_output then lift_result (json_line "revoke device response" (revoked_pretty resp))
    else mret (("Device " +:+ rdr_device_id resp +:+ " successfully revoked.")
               :: if was_current then ["Current device was revoked. Local session cleared."] else []).

(** ** SSH keys *)

(** Noninteractive calls never guess among keys. *)
Definition interactive_selector (selector : option string) : Out (option string) :=
  match selector with
  | Some _ => mret selector
  | None =>
      identities ← discover_identities;
      match identities with
      | [key] => mret (Some (ai_fingerprint key))
      | _ =>
          if negb is_terminal
          then throw (AuthError "Multiple SSH identities; noninteractive login requires --identity SHA256:...")
          else
            input ← lift_result (result_map_err (fun _ => auth_error)
                                   (read_line ("Select identity [1-" +:+ show_nat (length identities) +:+ "]: ")));
            n ← lift_result (result_map_err (fun _ => auth_error) (parse_uint u64_max (str_trim input)));
            if (n =? 0)%N then throw auth_error
            else
              key ← ok_or auth_error (identities !! N.to_nat (n - 1));
              mret (Some (ai_fingerprint key))
      end
  end.

(** [extension() == Some("pub")] *)
Definition is_pub_file (p : path) : bool :=
  match last p with
  | Some name => match strip_suffix ".pub" name with Some stem => negb (bool_decide (stem = "")) | None => false end
  | None => false
  end.

(** The key in a public key file of at most 4096 bytes, without its comment. *)
Definition read_public_key (p : path) : Cli string :=
  if negb (is_pub_file p) then throw (AuthError "Expected a public .pub file")
  else
    c ← io_as (fun _ => auth_error) (fs_read p);
    let input := str_take 4097 (bytes_of c) in
    if negb (utf8_valid input) then throw auth_error
    else if (4096 <? String.length input)%nat || existsb is_control (chars (str_trim input)) then throw auth_error
    else
      key ← ok_or auth_error (from_openssh input);
      if negb (key_is_ed25519 key) then throw auth_error
      else ok_or auth_error (to_openssh (set_comment "" key)).

Definition key_request (command : KeyCommand) : Cli (Method * string * option Value) :=
  let endpoint := "/v1/auth/ssh/keys" in
  match command with
  | KC_List => mret (GET, endpoint, None)
  | KC_Add public_key label =>
      public_key ← read_public_key public_key;
      mret (POST, endpoint, Some (add_ssh_key_value (mkAddSshKeyRequest public_key label)))
  | KC_Revoke credential_id => mret (DELETE, endpoint +:+ "/" +:+ credential_id, None)
  end.

(** [response.json()] *)
Definition json_answer {A} (from_slice : string -> Result A string) (resp : WireResponse) : Result A CliError :=
  bytes ← result_map_err (fun _ => auth_error) (wr_bytes resp);
  result_map_err (fun _ => auth_error) (from_slice bytes).

Definition manage_keys (dir : path) (command : KeyCommand) : Out (list string) :=
  session ← here (load_auth_session (auth_session_file dir));
  origin ← lift_result (validate_and_normalize_server_url (as_server_url session));
  _ ← lift_result (auth_http_client (DB := DB));
  request ← here (key_request command);
  let '(method, suffix, body) := request in
  response ← (if header_value_ok ("Bearer " +:+ as_token session)
              then request_to origin (fun _ => auth_error) (bearer_request origin method suffix (as_token session) body)
              else throw auth_error);
  if negb (is_success_status (wr_status response)) then throw auth_error
  else if (wr_status response =? 204)%N then mret ["SSH credential revoked."]
  else if (wr_status response =? 201)%N then
    key ← lift_result (json_answer ssh_credential_from_slice response);
    mret [sk_credential_id key +:+ " " +:+ sk_fingerprint key]
  else
    keys ← lift_result (json_answer ssh_credentials_from_slice response);
    mret (credential_line <$> keys).

(** ** The vault *)

Definition DISCARD_PHRASE : string := "REPLACE LOCAL VAULT".

(** The confirmation of a replacement, typed or given. *)
Definition confirm_discard (confirmed : bool) : Result unit CliError :=
  if confirmed then Ok tt
  else
    input ← result_map_err Io (read_line "Type REPLACE LOCAL VAULT to discard this machine's local changes:");
    if bool_decide (str_trim_end input = DISCARD_PHRASE) then Ok tt else Err (link_err ConfirmationRequired).

(** An empty recovery key is asked for. *)
Definition remote_secret (passphrase recovery : option string) : Result UnlockSecret CliError :=
  match recovery, passphrase with
  | Some recovery, _ =>
      if bool_decide (recovery = "")
      then prompt ← result_map_err Io (prompt_password "Remote vault recovery key (local unlock): "); Ok (RecoveryKey prompt)
      else Ok (RecoveryKey recovery)
  | None, Some passphrase => Ok (Passphrase passphrase)
  | None, None =>
      prompt ← result_map_err Io (prompt_password "Remote vault passphrase (local unlock): "); Ok (Passphrase prompt)
  end.

(** The checkpoint of the old database before a replacement. *)
Definition checkpoint_old (dir : path) (_ : path) : Cli unit :=
  _ ← open_db dir;
  in_db dir checkpoint.

(** [vault restore] and [vault replace-from-server]; [None] when the fuel of the
    download runs out. *)
Definition replace_from_server (fuel : nat) (dir : path) (replace confirmed : bool) (passphrase recovery : option string)
    : Out (option (list string)) :=
  if replace && negb confirmed && negb is_terminal then throw (link_err ConfirmationRequired)
  else
    occupied ← (if replace then mret false else here (already_initialized dir));
    if (occupied : bool) then throw VaultAlreadyInitialized
    else
      preflight ← replacement_preflight dir;
      _ ← (if replace then lift_result (confirm_discard confirmed) else mret tt);
      secret ← lift_result (remote_secret passphrase recovery);
      staged ← stage_remote_vault fuel dir preflight secret replace (confirmed || replace);
      match staged with
      | None => mret None
      | Some staged =>
          _ ← here (install (checkpoint_old dir) dir staged);
          mret (Some (if replace then preflight_lines preflight else []))
      end.

Definition cmd_vault (fuel : nat) (dir : path) (command : VaultCommands) : Out (option (list string)) :=
  _ ← here (recover dir);
  match command with
  | VC_Status => status ← inspect_vault_link debug dir; mret (Some (inspection_lines status))
  | VC_Link =>
      link ← link_local_vault_to_server dir;
      mret (Some ["Vault explicitly linked to " +:+ vl_server_origin link +:+ " / " +:+ vl_account_id link])
  | VC_Restore passphrase recovery_key => replace_from_server fuel dir false false passphrase recovery_key
  | VC_ReplaceFromServer discard_local passphrase recovery_key =>
      replace_from_server fuel dir true discard_local passphrase recovery_key
  end.

(** ** The program *)

Definition resolve_data_dir (custom : option path) : path :=
  match custom with
  | Some p => p
  | None =>
      match env_var "ZK_NOTE_DIR" with
      | Some env_dir => path_of env_dir
      | None => path_of (default "." (env_var "HOME")) ++ [".zk-notes"]
      end
  end.

(** [File::open] of a directory *)
Definition fs_open_dir (p : path) : M (Files.World DB) IoError unit :=
  plain (fun d => (if bool_decide (p ∈ dirs d) then Ok tt else Err IoNotFound, d)).

(** [NativeDataGuard::acquire], which opens the directory and locks it. *)
Definition NativeDataGuard_acquire (dir : path) : Cli unit :=
  _ ← io (fs_create_dir_all dir);
  _ ← io (fs_open_dir dir);
  if locked_elsewhere dir then throw (Io "native data directory is in use by another process")
  else
    _ ← recover dir;
    clean_orphans dir.

(** [Commands::Login] without a token. *)
Definition login_ssh (dir : path) (server account_id device_id identity : option string) : Out StoredAuthSession :=
  let server := default DEFAULT_SERVER (match server with Some s => Some s | None => env_var "ZK_SERVER_URL" end) in
  account ← lift_result (parse_uuid_opt (fun _ => AuthError "Invalid account ID") account_id);
  device ← lift_result (parse_uuid_opt (fun _ => AuthError "Invalid device ID") device_id);
  _ ← lift_result (validate_and_normalize_server_url server);
  identity ← interactive_selector identity;
  login dir server account device identity.

Definition is_replacement (c : Commands) : bool :=
  match c with Cmd_Vault (VC_ReplaceFromServer _ _ _) => true | _ => false end.
Definition is_unconfirmed_replacement (c : Commands) : bool :=
  match c with Cmd_Vault (VC_ReplaceFromServer false _ _) => true | _ => false end.

Abbreviation Prog A := (M (Adapter.World Net (Files.World DB)) Abort A).

(** A command that prints and returns nothing more; [None] when fuel ran out. *)
Definition ends {A} (m : Out A) : Prog (option unit) := _ ← map_err Fails m; mret (Some tt).
Definition ends_here {A} (m : Cli A) : Prog (option unit) := ends (here m).
Definition runs_here {A} (m : M (Local (Files.World DB)) Abort A) : Prog (option unit) := _ ← on_local id m; mret (Some tt).

Definition dispatch (run_tui : path -> Out unit) (fuel : nat) (dir : path) (command : Commands) : Prog (option unit) :=
  match command with
  | Cmd_Vault command => r ← map_err Fails (cmd_vault fuel dir command); mret (_ ← r; Some tt)
  | Cmd_Init passphrase test_kdf => ends_here (cmd_init dir passphrase test_kdf)
  | Cmd_Unlock passphrase recovery_key new_passphrase timeout =>
      ends_here (cmd_unlock dir passphrase recovery_key new_passphrase timeout)
  | Cmd_Recover recovery_key new_passphrase export_receipt test_kdf =>
      ends_here (cmd_recover dir recovery_key new_passphrase export_receipt test_kdf)
  | Cmd_Passwd old_passphrase new_passphrase test_kdf => ends_here (cmd_passwd dir old_passphrase new_passphrase test_kdf)
  | Cmd_Lock => ends_here (cmd_lock dir)
  | Cmd_Autolock timeout json => ends_here (cmd_autolock dir timeout json)
  | Cmd_Status => ends_here (cmd_status dir)
  | Cmd_Login server account_id device_name device_id token identity =>
      ends (if given token then cmd_login dir server account_id device_name device_id token
            else login_ssh dir server account_id device_id identity)
  | Cmd_SshKey command => ends (manage_keys dir command)
  | Cmd_Logout => ends (cmd_logout dir)
  | Cmd_Whoami json => ends (cmd_whoami dir json)
  | Cmd_Device (DC_List json) => ends (cmd_device_list dir json)
  | Cmd_Device (DC_Revoke device_id json) => ends (cmd_device_revoke dir device_id json)
  | Cmd_New title body tag => ends_here (cmd_new dir title body tag)
  | Cmd_Edit note_id editor title body tag => runs_here (cmd_edit dir note_id editor title body tag)
  | Cmd_Show note_id json => ends_here (cmd_show dir note_id json)
  | Cmd_Search query json => runs_here (cmd_search dir query json)
  | Cmd_Delete note_id purge => ends_here (cmd_delete dir note_id purge)
  | Cmd_History note_id revision json => ends_here (cmd_history dir note_id revision json)
  | Cmd_List tag include_deleted json => runs_here (cmd_list dir tag include_deleted json)
  | Cmd_Conflicts all json => ends_here (cmd_conflicts dir all json)
  | Cmd_Attach note_id file name mime => runs_here (cmd_attach dir note_id file name mime)
  | Cmd_Detach note_id attachment_id => ends_here (cmd_detach dir note_id attachment_id)
  | Cmd_Attachments note_id json => ends_here (cmd_attachments dir note_id json)
  | Cmd_Resolve conflict_id flags => runs_here (cmd_resolve dir conflict_id flags)
  | Cmd_Tui => ends (run_tui dir)
  end.

Definition run (run_tui : path -> Out unit) (fuel : nat) (cli : CommandLine) : Prog (option unit) :=
  if is_unconfirmed_replacement (cl_command cli) && negb is_terminal
  then throw (Fails (link_err ConfirmationRequired))
  else
    let resolved := resolve_data_dir (cl_data_dir cli) in
    present ← map_err Fails (here (exists_path resolved));
    if is_replacement (cl_command cli) && negb present then throw (Fails NotLoggedIn)
    else
      _ ← map_err Fails (here (NativeDataGuard_acquire resolved));
      dispatch run_tui fuel resolved (cl_command cli).
End network.

(** ** Facts of the commands

    Changing the passphrase replaces [vault.json] completely or not at all, by a
    vault with the same key, recovery code and identity, and never touches the
    notes.  The commands are run as the program runs them, on a file system in which
    any call may fail and the process may die between any two. *)

(** [serde_json]: a pretty-printed bootstrap is read back. *)
Class CommandLaws (DB : Type) `{CommandLib} `{!VaultFileLib DB} : Prop := {
  pretty_roundtrip b json : bootstrap_to_string_pretty b = Ok json -> CliNotes.bootstrap_from_slice json = Ok b
}.

(** ** A new passphrase on a bootstrap *)

Section rewrapped.
Context `{CryptoLib} `{!Env} `{NoteLib} `{KdfLib} `{!CryptoLaws} `{!KdfLaws}.

Lemma key_from_bytes_length s k : key_from_bytes s = Ok k -> String.length k = KEY_LEN.
Proof. unfold key_from_bytes. destruct (Nat.eqb_spec (String.length s) KEY_LEN) as [Hl|]; [|done]. by intros [= <-]. Qed.

Lemma unwrapped_length w kek k : unwrap_vault_key w kek = Ok k -> String.length k = KEY_LEN.
Proof. unfold unwrap_vault_key. destruct (unwrap_key_bytes w kek); [|done]. apply key_from_bytes_length. Qed.

(** What opens a vault, and the key it gives. *)
Inductive opens (b : VaultBootstrap) (key : string) : Prop :=
| opens_passphrase pass : unlock_with_passphrase b pass = Ok key -> opens b key
| opens_recovery code : Vault.unlock_with_recovery_key b code = Ok key -> opens b key.

Lemma opens_length b key : opens b key -> String.length key = KEY_LEN.
Proof.
  intros [pass Hu|code Hu]; unfold unlock_with_passphrase, Vault.unlock_with_recovery_key in Hu.
  - destruct (derive_kek _ _) as [kek|]; [|done]. cbn in Hu.
    destruct (unwrap_vault_key _ _) eqn:Hw; [|done]. injection Hu as <-. by eapply unwrapped_length.
  - destruct (parse_recovery_key _) as [rk|]; [|done]. cbn in Hu.
    destruct (unwrap_vault_key_recovery _ _) eqn:Hw; [|done]. injection Hu as <-. by eapply unwrapped_length.
Qed.

(** [b'] is [b] with the passphrase [new]: the same key, opened by the same recovery
    codes, and the same vault to the server. *)
Record rekeyed (b b' : VaultBootstrap) (new : string) : Prop := {
  rk_opens : exists key, opens b key /\ unlock_with_passphrase b' new = Ok key;
  rk_recovery code : Vault.unlock_with_recovery_key b' code = Vault.unlock_with_recovery_key b code;
  rk_identity : validate_bootstrap b = Ok tt -> validate_bootstrap b' = Ok tt /\ vault_fingerprint b' = vault_fingerprint b;
  rk_length : (8 <= String.length new)%nat
}.

Lemma derived_length pass p kek : derive_kek pass p = Ok kek -> String.length kek = KEY_LEN.
Proof using Type*.
  unfold derive_kek. destruct (negb _); [done|]. destruct (raw_salt p) as [salt|]; [|done]. cbn -[Nat.ltb].
  destruct (_ <? _)%nat; [done|]. destruct (argon2_params _ _ _); [done|].
  destruct (argon2_hash _ _ _ _ _) as [k|] eqn:Hk; [|done]. intros [= <-]. by eapply argon2_length.
Qed.

Lemma set_new_passphrase_rekeys b b' key new p i j :
  opens b key -> kdf_usable p -> (8 <= String.length new)%nat -> set_new_passphrase b key new p i = (Ok b', j) -> rekeyed b b' new.
Proof using Type*.
  intros Hkey Hp Hnew. unfold set_new_passphrase, wrap_vault_key, map_err, lift_result.
  destruct (derive_kek new p) as [kek|] eqn:Hd; [|done]. unfold mbind, M_bind.
  destruct (wrap_run key kek i) as (w & Hw & Hu & Hv); [by eapply opens_length|by eapply derived_length|].
  rewrite Hw. intros [= <- <-]. split; [|done| |done].
  - exists key. split; [done|]. eapply unlock_passphrase_wrapped; [by eapply opens_length|done..].
  - intros Hb. destruct (validate_bootstrap_inv b Hb) as [Hver Hrec].
    assert (validate_bootstrap (mkVaultBootstrap (crypto_version b) p w (recovery_wrapped_vault_key b)) = Ok tt) as Hb'
      by (by apply validate_usable).
    split; [done|]. by apply fingerprint_same.
Qed.

Lemma new_kdf_usable (test : bool) i p j : (if test then new_test else new_production) i = (Ok p, j) -> kdf_usable p.
Proof using Type*.
  intros Hrun. assert (exists salt, b64_decode (kdf_salt p) = Ok salt /\ (8 <= String.length salt <= 64)%nat) as Hsalt.
  { exists (random_bytes i SALT_LEN). split; [|rewrite random_bytes_length; unfold SALT_LEN; lia].
    destruct test; injection Hrun as <- <-; apply b64_roundtrip. }
  destruct test; injection Hrun as <- <-; by split.
Qed.
End rewrapped.

(** ** The commands *)

Section commands.
Context {Net DB : Type} `{Internet Net} `{SshAgent Net} `{!LocalStorage DB} `{!Env} `{CliLib DB} `{JournalLib} `{!VaultFileLib DB} `{!LinkLib DB} `{!EditorLib DB}.
Context `{HttpClientLib} `{AuthClientLib} `{Console} `{CommandLib} `{MainLib}.
Context `{CryptoLib} `{NoteLib} `{SearchLib} `{KdfLib} `{ChunkLib} `{ManifestLib}.
Context `{!CryptoLaws} `{!KdfLaws} `{!CommandLaws DB}.
Abbreviation Cli A := (M (Local (Files.World DB)) CliError A).
Context (dir : path) (c0 : content DB) (dbv : option (content DB)).
Implicit Types (d : Disk DB) (l : Local (Files.World DB)) (P : option (content DB) -> Prop).

(** The vault file satisfies [P], and the database is what it was. *)
Definition Safe P d : Prop := P (files d !! vault_file dir) /\ files d !! db_file dir = dbv.
Definition Old : Disk DB -> Prop := Safe (eq (Some c0)).
Definition Renewed (b : VaultBootstrap) (new : string) (v : option (content DB)) : Prop :=
  exists json b', v = Some (Bytes json) /\ CliNotes.bootstrap_from_slice json = Ok b' /\ rekeyed b b' new.
Definition Turned (b : VaultBootstrap) : Disk DB -> Prop := Safe (fun v => v = Some c0 \/ exists new, Renewed b new v).

Definition apart (q : path) : Prop := q <> vault_file dir /\ q <> db_file dir.

Lemma apart_name n : n <> "vault.json" -> n <> "notes.db" -> apart (dir ++ [n]).
Proof. intros Hn1 Hn2. split; by apply last_ne. Qed.

Lemma Safe_put P q c d : apart q -> Safe P d -> Safe P (put_file q c d).
Proof. intros [Hv Hd] Hs. unfold Safe. cbn. by rewrite !lookup_insert_ne. Qed.

Lemma keeps_write_apart P text text' q c : apart q ->
  keeps (disks (Safe P)) (_ ← io_as text (fs_create q); io_as text' (fs_write_all q c)).
Proof.
  intros Hq. apply keeps_then; [apply keeps_plain|intros []; apply keeps_call].
  - intros d Hd. repeat case_bool_decide; [done|by apply Safe_put|done].
  - intros b d. by apply Safe_put.
  - intros d. by apply Safe_put.
Qed.
Lemma keeps_session P p key timeout : apart p -> keeps (disks (Safe P)) (save_session_key_with_timeout p key timeout).
Proof. intros Hp. apply keeps_then; [apply keeps_now_secs|]. intros t. by apply keeps_write_apart. Qed.

Lemma keeps_rng (I : Disk DB -> Prop) {E E' A} (conv : E -> E') (m : M nat E A) : keeps (disks I) (on_rng conv m).
Proof. intros l Hl. apply wp_map_err, wp_zoom. by apply wp_intro. Qed.

#[local] Hint Resolve keeps_rng keeps_session keeps_write_apart : keeps.

Lemma keeps_ask I prompt what : keeps (disks I) (ask_secret (DB := DB) prompt what).
Proof. apply keeps_lift. Qed.
#[local] Hint Resolve keeps_ask : keeps.

(** [vault.json] is replaced by the new text, or stays as it is. *)
Lemma wp_replace_vault b' (Q : result CliError unit -> Local (Files.World DB) -> Prop) l :
  disks Old l ->
  (forall e l', disks Old l' -> Q (Err e) l') ->
  (forall json l', bootstrap_to_string_pretty b' = Ok json ->
     disks (Safe (fun v => v = Some c0 \/ v = Some (Bytes json))) l' -> files (l_disk l') !! vault_file dir = Some (Bytes json) ->
     Q (Ok tt) l') ->
  wp (replace_vault dir b') Q l.
Proof using Type*.
  intros Hl Q1 Q2. unfold replace_vault. apply wp_bind, wp_lift.
  destruct (bootstrap_to_string_pretty b') as [json|e] eqn:Hj; cbn [result_map_err]; [|by apply Q1].
  assert (apart (vault_tmp dir)) as Htmp by (by apply apart_name). unfold fs_write_as.
  apply wp_bind. apply wp_bind.
  apply (wp_io_plain _ _ Old); [done| |by intros; apply Q1|].
  { assert (Old (l_disk l)) by (by inversion Hl). repeat case_bool_decide; [done|by apply Safe_put|done]. }
  intros l1 Hd1 Hl1 _. assert (Old (l_disk l1)) as Ho1 by (by inversion Hl1).
  repeat case_bool_decide; cbn [fst snd result_map_err] in *; [by apply Q1| |by apply Q1].
  apply (wp_io_call _ _ _ Old); [done|intros; by apply Safe_put|by apply Safe_put|by intros; apply Q1|].
  intros l2 Hd2 Hl2 _. cbn [fst snd result_map_err] in *.
  assert (Old (l_disk l2)) as Ho2 by (by inversion Hl2).
  assert (files (l_disk l2) !! vault_tmp dir = Some (Bytes json)) as Hf by (rewrite Hd2; apply lookup_insert_eq).
  assert (forall d, Old d -> Safe (fun v => v = Some c0 \/ v = Some (Bytes json)) d) as Himp by (intros d [Hv Hdb]; split; auto).
  apply (wp_io_last _ _ Old (Safe (fun v => v = Some c0 \/ v = Some (Bytes json)))); [done|done| |by intros; apply Q1|].
  - rewrite Hf. repeat case_bool_decide; [by apply Himp| |by apply Himp]. split; cbn.
    + right. apply lookup_insert_eq.
    + destruct Htmp. rewrite lookup_insert_ne by (by apply last_ne). rewrite lookup_delete_ne by done. apply Ho2.
  - rewrite Hf. repeat case_bool_decide; intros l3 Hd3 Hl3 HI3; cbn in *; [by apply Q1, HI3| |by apply Q1, HI3].
    apply (Q2 json); [done|done|]. rewrite Hd3. apply lookup_insert_eq.
Qed.

Lemma wp_rng (I : Disk DB -> Prop) {E E' A} (conv : E -> E') (m : M nat E A) (Q : result E' A -> Local (Files.World DB) -> Prop) l :
  disks I l -> (forall r i l', m (l_rng l) = (r, i) -> disks I l' -> Q (result_map_err conv r) l') -> wp (on_rng conv m) Q l.
Proof using Type.
  intros Hl HQ. apply wp_map_err, wp_zoom. unfold wp. destruct (m (l_rng l)) as [r i] eqn:Hm. by eapply HQ.
Qed.

Lemma wp_rewrap b key new test (Q : result CliError unit -> Local (Files.World DB) -> Prop) l :
  opens b key -> (8 <= String.length new)%nat -> disks Old l ->
  (forall e l', disks Old l' -> Q (Err e) l') ->
  (forall l', disks (Turned b) l' -> Renewed b new (files (l_disk l') !! vault_file dir) -> Q (Ok tt) l') ->
  wp (rewrap dir b key new test) Q l.
Proof using Type*.
  intros Hkey Hnew Hl Q1 Q2. unfold rewrap, kdf_params. apply wp_bind, (wp_rng Old); [done|].
  intros [params|e] i l1 Hkdf Hl1; cbn [result_map_err]; [|by apply Q1]. apply wp_bind, (wp_rng Old); [done|].
  intros [b'|e] j l2 Hset Hl2; cbn [result_map_err]; [|by apply Q1].
  assert (rekeyed b b' new) as Hb' by (eapply set_new_passphrase_rekeys; [done|by eapply new_kdf_usable|done|done]).
  apply wp_replace_vault; [done|done|]. intros json l3 Hjson Hl3 Hf.
  assert (Renewed b new (Some (Bytes json))) as Hr by (exists json, b'; split_and!; [done|by apply pretty_roundtrip|done]).
  apply Q2; [|by rewrite Hf]. eapply Forall_impl; [exact Hl3|]. intros d [[Hv|Hv] Hdb]; split; [by left|done| |done].
  right. exists new. by rewrite Hv.
Qed.

(** Work beside the vault file leaves it alone. *)
Definition beside {A} (m : Cli A) : Prop :=
  forall l, wp m (fun _ l' => files (l_disk l') !! vault_file dir = files (l_disk l) !! vault_file dir) l.

Lemma beside_then {A B} (m : Cli A) (f : A -> Cli B) : beside m -> (forall a, beside (f a)) -> beside (m ≫= f).
Proof using Type.
  intros Hm Hf l. apply wp_bind. eapply wp_mono; [apply Hm|]. intros [a|e] l1 Heq; [|done].
  eapply wp_mono; [apply Hf|]. intros _ l2 ->. done.
Qed.
Lemma beside_call {A} (text : IoError -> CliError) broken (ok : Disk DB -> Result A IoError * Disk DB) :
  (forall partial d, files (broken partial d) !! vault_file dir = files d !! vault_file dir) ->
  (forall d, files (ok d).2 !! vault_file dir = files d !! vault_file dir) -> beside (io_as text (Files.call broken ok)).
Proof using Type.
  intros Hb Hok l. apply (wp_io_call _ _ _ (fun _ => True)); [apply Kept_true|done|done|..].
  - intros e partial l' -> _ _ _. by apply Hb.
  - intros l' -> _ _. by apply Hok.
Qed.
Lemma beside_write text text' q c : q <> vault_file dir ->
  beside (_ ← io_as text (fs_create q); io_as text' (fs_write_all q c)).
Proof using Type.
  intros Hq. apply beside_then; [apply beside_call|intros []; apply beside_call]; intros; cbn; repeat case_bool_decide; cbn;
    by rewrite ?lookup_insert_ne.
Qed.
Lemma beside_session p key timeout : p <> vault_file dir -> beside (save_session_key_with_timeout p key timeout).
Proof using Type. intros Hp. apply beside_then; [by intros l|]. intros t. by apply beside_write. Qed.

(** A command that may change the passphrase, and what it leaves. *)
Definition leaves_vault {A} (b : VaultBootstrap) (asked : option string) (r : result CliError A) l : Prop :=
  disks (Turned b) l /\ forall new, asked = Some new -> is_ok r = true -> Renewed b new (files (l_disk l) !! vault_file dir).

Lemma old_turned b l : disks Old l -> disks (Turned b) l.
Proof using Type. intros Hl. eapply Forall_impl; [exact Hl|]. intros d [Hv Hd]. split; [by left|done]. Qed.

Lemma leaves_old {A} b asked e l : disks Old l -> leaves_vault (A := A) b asked (Err e) l.
Proof using Type. intros Hl. split; [by apply old_turned|done]. Qed.

(** The rest of a command, after the vault file has been replaced. *)
Lemma wp_after {A} b asked (m : Cli A) l :
  disks (Turned b) l -> (forall new, asked = Some new -> Renewed b new (files (l_disk l) !! vault_file dir)) ->
  keeps (disks (Turned b)) m -> beside m -> wp m (leaves_vault b asked) l.
Proof using Type.
  intros Hl Hr Hk Hb. eapply wp_mono; [apply wp_and; [by apply Hk|apply Hb]|]. intros r l' [Hl' Heq]. split; [done|].
  intros new Hnew _. rewrite Heq. by apply Hr.
Qed.

Lemma session_apart : apart (session_file dir).
Proof using Type. by apply apart_name. Qed.

(** Reading the vault before anything is written. *)
Lemma wp_vault_read {A} b (f : VaultBootstrap -> Cli A) asked l :
  CliNotes.bootstrap_from_slice (bytes_of c0) = Ok b -> disks Old l ->
  (forall l', disks Old l' -> wp (f b) (leaves_vault b asked) l') -> wp (b ← read_vault dir; f b) (leaves_vault b asked) l.
Proof using Type.
  intros Hb Hl Hf. unfold read_vault, read_bytes. assert (Old (l_disk l)) as Ho by (by inversion Hl).
  apply wp_bind, wp_bind, wp_bind. apply (wp_io_plain _ _ Old); [done|done|by intros; apply leaves_old|].
  intros l1 Hd1 Hl1 _. cbn [fst snd]. destruct Ho as [<- _]. cbn [result_map_err]. apply wp_ret, wp_lift. rewrite Hb. cbn.
  by apply Hf.
Qed.

Lemma wp_vault_there {A} b (m : Cli A) asked l :
  disks Old l -> no_journal dir (l_disk l) -> (forall l', disks Old l' -> wp m (leaves_vault b asked) l') ->
  wp (_ ← require_vault dir; m) (leaves_vault b asked) l.
Proof using Type.
  intros Hl Hj Hm. unfold require_vault, recover. assert (Old (l_disk l)) as Ho by (by inversion Hl).
  apply wp_bind, wp_bind, wp_bind. apply (wp_io_result _ Old); [done|done|intros; by apply wp_throw, leaves_old|].
  intros l1 Hd1 Hl1 _. cbn [fst snd] in *. rewrite Hj. apply wp_ret, wp_bind, wp_exists.
  destruct (exists_on _ _); [by apply wp_ret, Hm|]. by apply wp_throw, leaves_old.
Qed.

Lemma wp_old {A B} b (m : Cli A) (f : A -> Cli B) asked l :
  keeps (disks Old) m -> disks Old l -> (forall a l', disks Old l' -> wp (f a) (leaves_vault b asked) l') ->
  wp (m ≫= f) (leaves_vault b asked) l.
Proof using Type. intros Hm Hl Hf. by apply (wp_keep (disks Old)); [|by auto..|intros; apply leaves_old|]. Qed.

Lemma wp_renew {A} b key new test (m : Cli A) asked l :
  opens b key -> too_short new = false -> disks Old l -> asked = Some new \/ asked = None ->
  keeps (disks (Turned b)) m -> beside m -> wp (_ ← rewrap dir b key new test; m) (leaves_vault b asked) l.
Proof using Type*.
  intros Hkey Hnew Hl Hasked Hk Hb. apply wp_bind, (wp_rewrap b key).
  - done.
  - unfold too_short in Hnew. by apply Nat.ltb_ge in Hnew.
  - done.
  - intros. by apply leaves_old.
  - intros l' Hl' Hr. apply wp_after; [done| |done|done]. intros new' Hnew'. destruct Hasked; congruence.
Qed.

(** The new passphrase is long enough, and the one that was given if one was. *)
Lemma wp_passwd_new {A} b (f : string -> Cli A) explicit l :
  disks Old l ->
  (forall new l', disks Old l' -> too_short new = false -> explicit = Some new \/ explicit = None ->
     wp (f new) (leaves_vault b explicit) l') ->
  wp (passwd_new_passphrase explicit ≫= f) (leaves_vault b explicit) l.
Proof using Type.
  intros Hl Hf. apply wp_bind. destruct explicit as [p|]; cbn [passwd_new_passphrase].
  - destruct (too_short p) eqn:Hs; [by apply wp_throw, leaves_old|]. apply wp_ret. by apply Hf; [..|left].
  - apply wp_bind, wp_lift. destruct (prompt_password "Enter new vault passphrase: ") as [p1|e]; cbn [result_map_err]; [|by apply leaves_old].
    destruct (too_short p1) eqn:Hs; [by apply wp_throw, leaves_old|]. apply wp_bind, wp_lift.
    destruct (prompt_password "Confirm new vault passphrase: ") as [p2|e]; cbn [result_map_err]; [|by apply leaves_old].
    case_bool_decide; cbn [negb]; [apply wp_ret; apply Hf; by auto|by apply wp_throw, leaves_old].
Qed.

Lemma wp_recover_new {A} b (f : option string -> Cli A) interactive explicit l :
  disks Old l ->
  (forall new l', disks Old l' -> (forall p, new = Some p -> too_short p = false) -> new = explicit \/ explicit = None ->
     wp (f new) (leaves_vault b explicit) l') ->
  wp (recover_new_passphrase interactive explicit ≫= f) (leaves_vault b explicit) l.
Proof using Type.
  intros Hl Hf. apply wp_bind. destruct explicit as [p|]; cbn [recover_new_passphrase].
  - destruct (too_short p) eqn:Hs; [by apply wp_throw, leaves_old|]. apply wp_ret. apply Hf; [done| |by left]. by intros ? [= <-].
  - destruct (interactive && is_terminal); [|apply wp_ret; by apply Hf; [..|left]].
    apply wp_bind, wp_lift. destruct (prompt_password _) as [p1|e]; cbn [result_map_err]; [|by apply leaves_old].
    case_bool_decide; [apply wp_ret; by apply Hf; [..|left]|].
    destruct (too_short p1) eqn:Hs; [by apply wp_throw, leaves_old|]. apply wp_bind, wp_lift.
    destruct (prompt_password "Confirm new vault passphrase: ") as [p2|e]; cbn [result_map_err]; [|by apply leaves_old].
    case_bool_decide; cbn [negb]; [|by apply wp_throw, leaves_old]. apply wp_ret. apply Hf; [done| |by right]. by intros ? [= <-].
Qed.

Lemma wp_opened {A} b asked (r : Result string CoreError) (f : string -> Cli A) l :
  disks Old l -> (forall key l', r = Ok key -> disks Old l' -> wp (f key) (leaves_vault b asked) l') ->
  wp (lift_result (result_map_err cli_of_core r) ≫= f) (leaves_vault b asked) l.
Proof using Type. intros Hl Hf. apply wp_bind, wp_lift. destruct r; cbn; [by apply Hf|by apply leaves_old]. Qed.

Lemma keeps_ask_if P (o : option string) prompt what :
  keeps (disks (Safe P)) (match o with Some p => mret p | None => ask_secret prompt what end).
Proof using Type. destruct o; eauto with keeps. Qed.
#[local] Hint Resolve keeps_ask_if session_apart : keeps.

Lemma passwd_leaves b old new test l :
  CliNotes.bootstrap_from_slice (bytes_of c0) = Ok b -> disks Old l -> no_journal dir (l_disk l) ->
  wp (cmd_passwd dir old new test) (leaves_vault b new) l.
Proof using Type*.
  intros Hb Hl Hj. unfold cmd_passwd. apply wp_vault_there; [done|done|]. clear l Hl Hj. intros l Hl.
  apply wp_vault_read; [done|done|]. clear l Hl. intros l Hl. apply wp_old; [apply keeps_ask_if|done|].
  clear l Hl. intros old_pass l Hl. case_bool_decide; [by apply wp_throw, leaves_old|].
  apply wp_opened; [done|]. clear l Hl. intros key l Hkey Hl. apply wp_passwd_new; [done|]. clear l Hl.
  intros new_pass l Hl Hshort Hnew. apply (wp_renew b key new_pass); [by econstructor|done|done|done|..].
  - apply keeps_then; [apply keeps_exists|]. intros []; eauto with keeps.
  - apply beside_then; [intros l1; by apply wp_exists|]. intros []; [|by intros l1].
    by apply beside_session, last_ne.
Qed.

Lemma recover_leaves b code new receipt_path test l :
  CliNotes.bootstrap_from_slice (bytes_of c0) = Ok b -> disks Old l -> no_journal dir (l_disk l) ->
  (forall q, receipt_path = Some q -> apart q) ->
  wp (cmd_recover dir code new receipt_path test) (leaves_vault b new) l.
Proof using Type*.
  intros Hb Hl Hj Hrec. unfold cmd_recover. apply wp_vault_there; [done|done|]. clear l Hl Hj. intros l Hl.
  apply wp_vault_read; [done|done|]. clear l Hl. intros l Hl. apply wp_old; [|done|].
  { unfold recovery_key_of. destruct code; [eauto with keeps|]. destruct is_terminal; eauto with keeps. }
  clear l Hl. intros rec_key l Hl. apply wp_opened; [done|]. clear l Hl. intros key l Hkey Hl.
  apply wp_recover_new; [done|]. clear l Hl. intros new_pass l Hl Hshort Hnew.
  set (rest := _ ← save_session_key _ _; _).
  assert (forall P, keeps (disks (Safe P)) rest) as Hrest.
  { intros P. apply keeps_then; [eauto with keeps|]. intros []. destruct receipt_path as [q|]; [|eauto with keeps].
    apply keeps_write_apart. by apply Hrec. }
  assert (beside rest) as Hbeside.
  { apply beside_then; [by apply beside_session, last_ne|]. intros []. destruct receipt_path as [q|]; [|by intros l1].
    apply beside_write. by apply Hrec. }
  destruct new_pass as [p|].
  - apply (wp_renew b key p); [by eapply opens_recovery|by apply Hshort|done|destruct Hnew; auto|apply Hrest|done].
  - apply wp_bind, wp_ret. apply wp_after; [by apply old_turned| |apply Hrest|done]. intros p Hp. destruct Hnew; congruence.
Qed.

(** The key that [unlock] obtains. *)
Lemma wp_unlock_key {A} b pass code asked (f : string -> Cli A) l :
  disks Old l -> (forall key l', opens b key -> disks Old l' -> wp (f key) (leaves_vault b asked) l') ->
  wp (key ← (match code with
             | Some rec_key => lift_result (result_map_err cli_of_core (Vault.unlock_with_recovery_key b rec_key))
             | None =>
                 pass ← (match pass with Some p => mret p | None => ask_secret "Enter vault passphrase: " "passphrase" end);
                 lift_result (result_map_err cli_of_core (unlock_with_passphrase b pass))
             end); f key) (leaves_vault b asked) l.
Proof using Type.
  intros Hl Hf. destruct code as [code|].
  - apply wp_opened; [done|]. intros key l1 Hkey. apply Hf. by eapply opens_recovery.
  - apply wp_bind, wp_bind. eapply wp_mono; [by apply keeps_ask_if|]. intros [p|e] l1 Hl1; [|by apply leaves_old].
    apply wp_lift. destruct (unlock_with_passphrase b p) eqn:Hkey; cbn [result_map_err]; [|by apply leaves_old].
    apply Hf; [by econstructor|done].
Qed.

Lemma unlock_leaves b pass code new timeout l :
  CliNotes.bootstrap_from_slice (bytes_of c0) = Ok b -> disks Old l -> no_journal dir (l_disk l) ->
  wp (cmd_unlock dir pass code new timeout) (leaves_vault b new) l.
Proof using Type*.
  intros Hb Hl Hj. unfold cmd_unlock. apply wp_vault_there; [done|done|]. clear l Hl Hj. intros l Hl.
  apply wp_old; [apply keeps_exists|done|]. clear l Hl. intros active l Hl.
  destruct (active && _) eqn:Hactive.
  { apply wp_ret. split; [by apply old_turned|]. intros p ->. by rewrite bool_decide_eq_true_2, andb_false_r in Hactive. }
  apply wp_vault_read; [done|done|]. clear l Hl Hactive. intros l Hl. apply wp_unlock_key; [done|]. clear l Hl.
  intros key l Hkey Hl. set (rest := _ ← save_session_key_with_timeout _ _ _; _).
  assert (forall P, keeps (disks (Safe P)) rest) as Hrest by (intros P; apply keeps_then; eauto with keeps).
  assert (beside rest) as Hbeside by (apply beside_then; [by apply beside_session, last_ne|by intros ? l1]).
  destruct new as [p|].
  - destruct (too_short p) eqn:Hs; [by apply wp_bind, wp_throw, leaves_old|].
    apply (wp_renew b key p); [done..|by left|apply Hrest|done].
  - apply wp_bind, wp_ret, wp_after; [by apply old_turned|done|apply Hrest|done].
Qed.
End commands.

(** ** The program *)

(** The commands that can set a passphrase, the one they are given, and where they
    write a receipt. *)
Definition sets_passphrase (c : Commands) : bool :=
  match c with Cmd_Unlock _ _ _ _ | Cmd_Recover _ _ _ _ | Cmd_Passwd _ _ _ => true | _ => false end.
Definition passphrase_asked (c : Commands) : option string :=
  match c with Cmd_Unlock _ _ new _ | Cmd_Recover _ new _ _ | Cmd_Passwd _ new _ => new | _ => None end.
Definition receipt_asked (c : Commands) : option path :=
  match c with Cmd_Recover _ _ receipt _ => receipt | _ => None end.

Section program.
Context {Net DB : Type} `{Internet Net} `{SshAgent Net} `{!LocalStorage DB} `{!Env} `{CliLib DB} `{JournalLib} `{!VaultFileLib DB} `{!LinkLib DB} `{!EditorLib DB}.
Context `{HttpClientLib} `{AuthClientLib} `{Console} `{CommandLib} `{MainLib}.
Context `{CryptoLib} `{NoteLib} `{SearchLib} `{KdfLib} `{ChunkLib} `{ManifestLib}.
Context `{!CryptoLaws} `{!KdfLaws} `{!CommandLaws DB}.
Abbreviation W := (Adapter.World Net (Files.World DB)).
Implicit Types (w : W).

Lemma leaves_ends dir c0 dbv b asked {A} (m : M (Local (Files.World DB)) CliError A) w :
  wp m (leaves_vault dir c0 dbv b asked) (w_local w) ->
  wp (ends_here (Net := Net) m) (fun r w' => leaves_vault dir c0 dbv b asked (result_map_err (fun _ => VaultLocked) r) (w_local w')) w.
Proof using Type.
  intros Hm. unfold ends_here, ends. apply wp_bind, wp_map_err, wp_here. eapply wp_mono; [exact Hm|].
  intros [a|e] l [H1' H2']; (split; [done|]); [|done]. intros new Hnew _. by apply H2'.
Qed.

(** C21. Changing the passphrase is safe.  Run [unlock], [recover] or [passwd] with any
    arguments and answers, with calls that fail anywhere: at every moment, and so
    after a crash at any moment, the vault file is the old one or a complete new
    one, whose passphrase gives the key that the old file was opened with, which
    the same recovery codes open, and which is the same vault to the server; the
    database is untouched.  When the command reports success the passphrase it
    was given is the vault's. *)
Theorem passphrase_change_atomic debug run_tui fuel dir c c0 b w r w' :
  sets_passphrase c = true -> (forall q, receipt_asked c = Some q -> apart dir q) ->
  files (w_disk w) !! vault_file dir = Some c0 -> CliNotes.bootstrap_from_slice (bytes_of c0) = Ok b ->
  no_journal dir (w_disk w) -> at_first w -> dispatch debug run_tui fuel dir c w = (r, w') ->
  let renewed new d := exists json b', files d !! vault_file dir = Some (Bytes json)
                         /\ CliNotes.bootstrap_from_slice json = Ok b' /\ rekeyed b b' new in
  w_disks (fun d => (files d !! vault_file dir = Some c0 \/ exists new, renewed new d)
                    /\ files d !! db_file dir = files (w_disk w) !! db_file dir) w'
  /\ forall new, passphrase_asked c = Some new -> is_ok r = true -> renewed new (w_disk w').
Proof using Type*.
  intros Hc Hrec Hf Hb Hj Hfirst Hrun renewed. set (dbv := files (w_disk w) !! db_file dir).
  assert (disks (Old dir c0 dbv) (w_local w)) as Hl.
  { unfold disks, Kept. rewrite Hfirst. constructor; [|done]. by split. }
  enough (leaves_vault dir c0 dbv b (passphrase_asked c) (result_map_err (fun _ => VaultLocked) r) (w_local w')) as [HT HR].
  { split; [exact HT|]. intros new Hnew Hok. apply HR; [done|]. by destruct r. }
  revert Hrun. as_wp. destruct c; try done; cbn [dispatch passphrase_asked]; apply leaves_ends.
  - by apply unlock_leaves.
  - by apply recover_leaves.
  - by apply passwd_leaves.
Qed.
End program.
