(* ===== verification/CliSamples.v ===== *)
(** * The client's theorems at concrete inputs

    Instances of [CliLib], [JournalLib] and [ClientServices] that satisfy their
    laws, and each claim about the client applied to a small state. *)

From stdpp Require Import options.
From stdpp Require Import gmap countable strings.
From S2P Require Import Prelude Protocol StorageModels Storage CoreErrors Time Env Queue Text Diff3 Crypto Note Merge NoteSamples Conflict.
From S2P Require Import Vault Search Files CliSession VaultFiles VaultFilesFacts EditBuffer CliNotes CliNotesFacts Tui TuiFacts SyncSamples.

(** ** Records as text: the bits of a countable value *)

Fixpoint bits (p : Pos.t) : string :=
  match p with xH => "" | xO p => String "0" (bits p) | xI p => String "1" (bits p) end.
Fixpoint of_bits (s : string) : Pos.t :=
  match s with
  | EmptyString => xH
  | String c s => if bool_decide (c = "0"%char) then xO (of_bits s) else xI (of_bits s)
  end.
Lemma of_bits_bits p : of_bits (bits p) = p.
Proof. induction p as [p IH|p IH|]; cbn; by rewrite ?IH. Qed.

(** Text that is longer than a key. *)
Definition pad : string := Time.zeros 40.
Definition to_text {A} `{Countable A} (a : A) : string := pad +:+ bits (encode a).
Definition of_text {A} `{Countable A} (s : string) : Result A string :=
  match strip_prefix pad s ≫= fun s => decode (of_bits s) with Some a => Ok a | None => Err "syntax" end.
Lemma of_text_to_text {A} `{Countable A} (a : A) : of_text (to_text a) = Ok a.
Proof. unfold of_text, to_text. rewrite strip_prefix_app. cbn. by rewrite of_bits_bits, decode_encode. Qed.

#[export] Instance SessionEnvelope_eq_dec : EqDecision SessionEnvelope.
Proof. solve_decision. Defined.
#[export] Instance SessionEnvelope_countable : Countable SessionEnvelope :=
  inj_countable' (fun e => (se_key e, se_created_at e, se_last_active_at e, se_idle_timeout_secs e))
    (fun '(k, c, l, t) => mkSessionEnvelope k c l t) ltac:(by intros []).

#[export] Instance Phase_countable : Countable Phase :=
  inj_countable' (fun p => match p with Prepared => 0 | OldMoved => 1 | NewInstalled => 2 | Committed => 3 end)
    (fun n => match n with 0 => Prepared | 1 => OldMoved | 2 => NewInstalled | _ => Committed end)
    ltac:(by intros []).
#[export] Instance Journal_eq_dec : EqDecision Journal.
Proof. solve_decision. Defined.
#[export] Instance Journal_countable : Countable Journal :=
  inj_countable'
    (fun j => (format_version j, transaction_id j, target_fingerprint j, old_present j, phase j))
    (fun '(v, t, f, o, p) => mkJournal v t f o p) ltac:(by intros []).

#[export] Instance sample_cli : CliLib MemoryStorage := {
  session_to_string := to_text;
  session_from_slice s :=
    match of_text (A := SessionEnvelope) s with
    | Ok e => if decide (String.length (se_key e) = KEY_LEN) then Ok e else Err "invalid length"
    | Err e => Err e
    end;
  db_image _ := "SQLite format 3";
  env_var _ := None;
  path_display p := str_join "/" p
}.

#[export] Instance sample_cli_laws : CliLaws MemoryStorage.
Proof.
  constructor; cbn.
  - intros e He. rewrite of_text_to_text. by rewrite decide_True.
  - intros s e. destruct (of_text s); [|done]. case_decide; [by intros [= <-]|done].
  - intros e. unfold to_text. rewrite str_length_app. unfold pad. rewrite length_zeros. unfold KEY_LEN. lia.
Qed.

#[export] Instance sample_journals : JournalLib := {
  journal_to_vec j := Ok (to_text j);
  journal_from_slice := of_text;
  is_uuid s := bool_decide (String.length s = 36)
}.
#[export] Instance sample_journal_laws : JournalLaws.
Proof.
  constructor; cbn; [eauto| |done]. intros j b [= <-]. apply of_text_to_text.
Qed.

(** ** The editor's buffer *)

Ltac by_eval :=
  lazymatch goal with
  | |- plain_text _ => constructor; by_eval
  | |- plain_tag _ => constructor; by_eval
  | |- _ => vm_compute; first [reflexivity | discriminate]
  end.

Lemma edit_buffer_roundtrip_witness :
  parse_edit_buffer (note_to_edit_buffer "Shopping list" ["home"; "food"] "milk") "old" []
  = Ok (mkParsedEdit "Shopping list" ["home"; "food"] "milk").
Proof.
  apply (edit_buffer_roundtrip "Shopping list" ["home"; "food"] "milk" "old" []);
    [reflexivity|by_eval|repeat apply Forall_cons_2; [..|apply Forall_nil_2]; by_eval|reflexivity..].
Defined.

(** The title of [ü], of two bytes. *)
Lemma non_ascii_title_panics_witness :
  parse_edit_buffer (note_to_edit_buffer "Müsli" [] "milk") "Müsli" [] = Err Panicked.
Proof. apply (non_ascii_title_panics "Müsli" [] "milk" "Müsli" []); vm_compute; reflexivity. Defined.

(** ** Replacing a vault *)

Definition sample_id : string := Time.zeros 36.
Definition sample_stage : StagedVault := mkStagedVault (paths ["data"] sample_id).1 sample_id "blake2s-v1:0".

Definition sample_disk : Disk MemoryStorage :=
  mkDisk
    (<[["data"; "vault.json"] := Bytes "old vault"]>
    (<[["data"; "notes.db"] := Database sample_store]>
    (<[["data"; ".auth.json"] := Bytes "token"]>
    (<[["data"; ".replace-" +:+ sample_id; "vault.json"] := Bytes "new vault"]>
    (<[["data"; ".replace-" +:+ sample_id; "notes.db"] := Database MemoryStorage_new]>
    {[["data"; ".replace-" +:+ sample_id; "vault-link.json"] := Bytes "new link"]})))))
    {[ ["data"]; ["data"; ".replace-" +:+ sample_id] ]}.

Definition sample_old (n : string) : option (content MemoryStorage) := files sample_disk !! ["data"; n].
Definition sample_new (n : string) : option (content MemoryStorage) :=
  if bool_decide (n ∈ INSTALLED) then files sample_disk !! ["data"; ".replace-" +:+ sample_id; n] else None.

Lemma sample_files p c : files sample_disk !! p = Some c ->
  p ∈ [["data"; "vault.json"]; ["data"; "notes.db"]; ["data"; ".auth.json"];
       ["data"; ".replace-" +:+ sample_id; "vault.json"]; ["data"; ".replace-" +:+ sample_id; "notes.db"];
       ["data"; ".replace-" +:+ sample_id; "vault-link.json"]].
Proof.
  unfold sample_disk. cbn. rewrite !lookup_insert_Some, lookup_singleton_Some. set_unfold. naive_solver.
Qed.

Lemma sample_shape : Shape ["data"] sample_disk.
Proof.
  constructor.
  - set_solver.
  - intros n Hn. assert (n = ".replace-" +:+ sample_id) as -> by set_solver. split; [|done].
    intros Ho. apply (own_no_stage _ sample_id Ho); reflexivity.
  - set_solver.
  - intros p c _ Hp%sample_files. set_unfold in Hp. destruct_or! Hp; subst; set_solver.
  - intros id _. split; apply eq_None_not_Some; intros [c Hc%sample_files]; set_unfold in Hc; destruct_or! Hc; done.
Qed.

Lemma sample_replacement : Replacement ["data"] sample_old sample_old sample_new sample_stage sample_disk.
Proof.
  constructor.
  - reflexivity.
  - reflexivity.
  - intros n Hn. unfold FILES in Hn. set_unfold in Hn. destruct_or! Hn; subst; vm_compute; eauto.
  - split; [apply sample_shape|]. split; [intros n _; reflexivity|].
    split; [split; [reflexivity|intros n _; reflexivity]|]. split; [set_solver|]. split.
    + intros n Hn. unfold sample_new. by rewrite bool_decide_true.
    + set_solver.
Qed.

Lemma vault_replacement_crash_safe_witness :
  exists l', finish_install ["data"] sample_stage (mkLocal (mkWorld sample_disk [] []) 0 0 0) = (Ok tt, l')
    /\ settled ["data"] sample_new (l_disk l').
Proof.
  set (l := mkLocal (mkWorld sample_disk [] []) 0 0 0).
  destruct (finish_install ["data"] sample_stage l) as [r l'] eqn:Hrun.
  destruct (vault_replacement_crash_safe ["data"] sample_old sample_old sample_new sample_stage sample_disk
    sample_replacement) as [Hfin _].
  destruct (Hfin l r l') as [Hnew Hok]; [by split|exact Hrun|].
  assert (r = Ok tt) as ->.
  { apply Hok. split; [done|]. intros k. apply eq_None_not_Some.
    intros [c Hc%sample_files]; set_unfold in Hc; destruct_or! Hc; done. }
  exists l'. split; [done|]. by apply Hnew.
Defined.

(** ** The terminal interface *)

Definition sample_summary : ClientNoteSummary := mkNoteSummary "a" "plan" [] "" "" 1 false.

(** A client with one note, the passphrase [pass], a signed-in account and a session
    that has run out. *)
#[export] Instance sample_services : ClientServices unit := {
  str_dbg s := s;
  svc_list_notes _ w := (Ok [sample_summary], w);
  svc_get_note _ id w := (Ok (mkNoteDetail id "plan" "body" [] "" "" 1 false), w);
  svc_create_note _ _ _ _ w := (Ok "b", w);
  svc_update_note _ _ _ _ _ w := (Ok 2%N, w);
  svc_delete_note _ w := (Ok tt, w);
  svc_search_notes _ _ w := (Ok ["a"], w);
  svc_edit_external _ _ w := (Ok 2%N, w);
  svc_list_conflicts _ w := (Ok [], w);
  svc_conflict_detail _ id w := (Err (ConflictNotFound id), w);
  svc_resolve_conflict _ id _ w := (Err (ConflictNotFound id), w);
  svc_new_uuid w := ("c", w);
  svc_vault_status w := (Ok VS_Locked, w);
  svc_active_key w := (Err VaultLocked, w);
  svc_unlock_vault p w := (if bool_decide (p = "pass") then Ok "key" else Err AuthenticationFailed, w);
  svc_lock_vault w := (Err (Io "read-only file system"), w);
  svc_touch w := (Ok tt, w);
  svc_session_expired w := (Ok true, w);
  svc_initial_sync_status w := (SS_Offline, w);
  svc_perform_sync _ w := (Ok SS_Offline, w);
  svc_local_auth_state w := (Ok (Unverified "https://s" "acct" "dev" None None), w);
  svc_check_online w := (Ok (Authenticated "https://s" "acct" "dev" None None), w);
  svc_sign_out w := (Ok tt, w);
  svc_ssh_login _ _ w := (Err NotLoggedIn, w);
  svc_authorize _ _ w := (Err NotLoggedIn, w);
  svc_discover w := (Ok [], w);
  svc_inspect w := (Err NotLoggedIn, w);
  svc_link w := (Err NotLoggedIn, w);
  svc_vault_present w := (true, w);
  svc_preflight w := (Err NotLoggedIn, w);
  svc_stage _ _ _ _ w := (Err NotLoggedIn, w);
  svc_install _ w := (Ok tt, w)
}.

Definition press (c : ascii) : Terminal :=
  mkTerminal None None None (Ok (EKey (mkKey (KChar (mkChar (N_of_ascii c) (String c ""))) false))).
Definition press_key (k : KeyCode) (ctrl : bool) : Terminal :=
  mkTerminal None None None (Ok (EKey (mkKey k ctrl))).
Definition press_ctrl (c : ascii) : Terminal := press_key (KChar (mkChar (N_of_ascii c) (String c ""))) true.
Definition idle : Terminal := mkTerminal None None None (Ok ETick).

Definition run_loop (terms : list Terminal) (l : Loop unit) : Loop unit :=
  fold_left (fun l term => (iterate term l).2) terms l.

(** Unlocked by its passphrase; a tick later it is locked again. *)
Definition unlocking : list Terminal := [press "p"; press "a"; press "s"; press "s"; press_key KEnter false].
Definition sample_unlocked : Loop unit := run_loop unlocking (start 80 24 tt).

Example unlocked_shows_notes :
  let a := app (tui sample_unlocked) in
  mode a = Normal /\ vault_key a = Some "key" /\ notes a = [sample_summary] /\ is_Some (preview a).
Proof. vm_compute. eauto. Qed.

(** No iteration of the run comes after the user has quit. *)
Fixpoint goes_on (terms : list Terminal) (l : Loop unit) : bool :=
  match terms with
  | [] => true
  | term :: terms => negb (should_quit (app (tui l))) && goes_on terms (iterate term l).2
  end.

Lemma run_reachable terms l : goes_on terms l = true -> rtc turn l (run_loop terms l).
Proof.
  revert l. induction terms as [|term terms IH]; intros l; cbn; [done|].
  intros [Hq%negb_true_iff Hrest]%andb_prop. eapply rtc_l; [by apply turn_iterate|]. by apply IH.
Qed.

(** A note is open in the editor when the session runs out. *)
Definition sample_editing : Loop unit := run_loop (unlocking ++ [press "e"]) (start 80 24 tt).
Definition sample_locked : Loop unit := (iterate idle sample_editing).2.

Lemma tui_locked_holds_no_plaintext_witness :
  edit_body (app (tui sample_editing)) <> "" /\ Blank (app (tui sample_locked))
  /\ no_draft (app (tui sample_locked)).
Proof.
  assert (reachable 80 24 tt sample_editing) as He by (apply run_reachable; vm_compute; reflexivity).
  assert (turn sample_editing sample_locked) as Ht by (apply turn_iterate; vm_compute; reflexivity).
  split; [vm_compute; discriminate|].
  destruct (tui_locked_holds_no_plaintext 80 24 tt sample_editing He) as [_ Hturn].
  destruct (tui_locked_holds_no_plaintext 80 24 tt sample_locked) as [Hlocked _];
    [by eapply rtc_r|].
  split; [apply (Hturn _ Ht); vm_compute; [discriminate|reflexivity]|].
  destruct Hlocked as (_ & _ & _ & _ & _ & [Hd|[Hd|[Hd _]]] & _); [vm_compute; reflexivity|exact Hd| |];
    vm_compute in Hd; discriminate Hd.
Defined.

(** The session file cannot be removed, and the buffers are gone all the same. *)
Lemma tui_tick_locks_witness : Wiped (app (tick (tui sample_unlocked)).2).
Proof. apply (tui_tick_locks (tui sample_unlocked)); vm_compute; discriminate. Defined.

(** Signed out while the check of the session that starts with the interface is still
    running: its result arrives and changes nothing. *)
Definition signing_out : list Terminal :=
  [idle; press_ctrl "a"; press_key KTab false; press_key KTab false; press_key KTab false; press " "; idle].
Definition sample_signed_out : Loop unit := run_loop signing_out (start 80 24 tt).

Lemma tui_signed_out_stays_witness :
  running sample_signed_out <> [] /\
  account_state (app (tui (iterate idle (finish_worker 0 sample_signed_out)).2)) = LocalOnly.
Proof.
  split; [vm_compute; discriminate|].
  apply (tui_signed_out_stays sample_signed_out); [|vm_compute; reflexivity].
  eapply rtc_l; [split; [apply (turn_worker 0)|vm_compute; exact I]|].
  eapply rtc_l; [split; [apply (turn_iterate idle); vm_compute; reflexivity|vm_compute; exact I]|].
  apply rtc_refl.
Defined.

(** ** Notes *)

(** Framed strings: each byte as a mark and its eight bits, then an end mark. *)
Definition bit (b : bool) : ascii := if b then "1"%char else "0"%char.
Definition of_bit (c : ascii) : bool := bool_decide (c = "1"%char).
Definition byte_text (c : ascii) (rest : string) : string :=
  let '(Ascii b0 b1 b2 b3 b4 b5 b6 b7) := c in
  String "1" (String (bit b0) (String (bit b1) (String (bit b2) (String (bit b3)
    (String (bit b4) (String (bit b5) (String (bit b6) (String (bit b7) rest)))))))).
Fixpoint frame (s rest : string) : string :=
  match s with EmptyString => String "0" rest | String c s => byte_text c (frame s rest) end.
Fixpoint unframe (s : string) : option (string * string) :=
  match s with
  | String "0" rest => Some ("", rest)
  | String _ (String a (String b (String c (String d (String e (String f (String g (String h rest)))))))) =>
      '(t, r) ← unframe rest;
      Some (String (Ascii (of_bit a) (of_bit b) (of_bit c) (of_bit d) (of_bit e) (of_bit f) (of_bit g) (of_bit h)) t, r)
  | _ => None
  end.
Lemma unframe_frame s rest : unframe (frame s rest) = Some (s, rest).
Proof.
  induction s as [|c s IH]; [done|]. destruct c as [b0 b1 b2 b3 b4 b5 b6 b7]. cbn [frame byte_text unframe].
  rewrite IH. cbn. by destruct b0, b1, b2, b3, b4, b5, b6, b7.
Qed.

Fixpoint frames (l : list string) (rest : string) : string :=
  match l with [] => String "0" rest | s :: l => String "1" (frame s (frames l rest)) end.
Fixpoint unframes (fuel : nat) (s : string) : option (list string * string) :=
  match fuel, s with
  | S fuel, String "1" s => '(x, r) ← unframe s; '(l, r) ← unframes fuel r; Some (x :: l, r)
  | S _, String _ rest => Some ([], rest)
  | _, _ => None
  end.
Lemma unframes_frames l rest fuel : length l < fuel -> unframes fuel (frames l rest) = Some (l, rest).
Proof.
  revert fuel. induction l as [|s l IH]; intros [|fuel] Hf; cbn in *; try lia; [done|].
  rewrite unframe_frame. cbn. rewrite IH by lia. done.
Qed.

Lemma ascii_frame s rest : is_ascii rest = true -> is_ascii (frame s rest) = true.
Proof. intros Hr. induction s as [|c s IH]; [exact Hr|]. by destruct c as [[] [] [] [] [] [] [] []]. Qed.
Lemma ascii_frames l rest : is_ascii rest = true -> is_ascii (frames l rest) = true.
Proof. intros Hr. induction l as [|s l IH]; [exact Hr|]. by apply (ascii_frame s (frames l rest)) in IH. Qed.
Lemma frame_length s rest : String.length rest < String.length (frame s rest).
Proof. induction s as [|[] s IH]; cbn in *; lia. Qed.
Lemma frames_length l rest : length l < String.length (frames l rest).
Proof. induction l as [|s l IH]; cbn; [lia|]. pose proof (frame_length s (frames l rest)). lia. Qed.

(** Every note of the first schema version as text. *)
Definition note_text (n : PlaintextNote) : string :=
  frames [n_title n; n_body n; n_created_at n; n_updated_at n] (frames (n_tags n) (frames (n_attachments n) "")).
Definition note_of_text (s : string) : Result PlaintextNote string :=
  match '(h, r) ← unframes (String.length s) s;
        '(tags, r) ← unframes (String.length r) r;
        '(att, _) ← unframes (String.length r) r;
        match h with [t; b; c; u] => Some (mkNote NOTE_SCHEMA_VERSION_V1 t b tags c u att) | _ => None end with
  | Some n => Ok n
  | None => Err "syntax"
  end.

Lemma note_of_text_text n : n_schema_version n = NOTE_SCHEMA_VERSION_V1 -> note_of_text (note_text n) = Ok n.
Proof.
  intros Hv. unfold note_of_text, note_text.
  rewrite unframes_frames by apply frames_length. cbn [mbind option_bind].
  rewrite unframes_frames by apply frames_length. cbn [mbind option_bind].
  rewrite unframes_frames by apply frames_length. cbn. destruct n. cbn in *. by subst.
Qed.

Lemma note_text_ascii n : is_ascii (note_text n) = true.
Proof. unfold note_text. do 3 apply ascii_frames. reflexivity. Qed.

Definition text_notes : NoteLib := {|
  to_lowercase s := s;
  note_to_json n := if (n_schema_version n =? NOTE_SCHEMA_VERSION_V1)%N then Ok (note_text n) else Err "unsupported";
  note_from_json := note_of_text;
  utf8_error s := "invalid utf-8 sequence";
  str_debug s := s
|}.
#[local] Existing Instance text_notes.
#[local] Instance text_notes_laws : NoteLaws.
Proof.
  constructor; cbn; intros n s; destruct (n_schema_version n =? _)%N eqn:Hv; try done; intros [= <-].
  - apply note_of_text_text. by apply N.eqb_eq.
  - apply ascii_valid, note_text_ascii.
Qed.

#[local] Instance plain_search : SearchLib := { is_alphanumeric c := (code_point c <? 128)%N }.
#[local] Instance plain_kdf : KdfLib := {
  argon2_params _ _ _ := None;
  argon2_hash _ _ _ pass salt := Ok (sample_tag pass +:+ sample_tag salt);
  blake2b512 s := s;
  blake2s256 s := s
}.
#[local] Instance sample_vault_files : VaultFileLib MemoryStorage := {
  bootstrap_from_slice _ := Err "syntax";
  bootstrap_to_vec _ := Err "unsupported";
  new_db := MemoryStorage_new
}.

(** The data directory of an old vault, with nothing to fail. *)
Definition sample_client : Local (World MemoryStorage) := mkLocal (mkWorld sample_disk [] []) 0 0 0.

Lemma sample_steady : Steady ["data"] sample_store sample_client.
Proof. split; [split|eexists|]; vm_compute; reflexivity. Qed.

Lemma sample_keyed : keyed sample_store.
Proof. intros id o Ho. cbn in Ho. apply lookup_singleton_Some in Ho as [<- <-]. reflexivity. Qed.

Lemma sample_unused : unused 0 sample_store.
Proof. intros j _. reflexivity. Qed.

(** A note is created, updated and deleted: three edits are queued. *)
Lemma run_pair {S E A} (m : M S E A) s a : (m s).1 = Ok a -> m s = (Ok a, (m s).2).
Proof. destruct (m s). by cbn; intros ->. Qed.

Definition client_1 := (create_note ["data"] sample_vault_key "plan" "body" ["work"] sample_client).2.
Definition client_2 := (update_note ["data"] sample_vault_key "uuid-0" "plan" "more" [] client_1).2.
Definition client_3 := (delete_note ["data"] "uuid-0" false client_2).2.

Lemma client_1_run : create_note ["data"] sample_vault_key "plan" "body" ["work"] sample_client = (Ok "uuid-0", client_1).
Proof. refine (run_pair _ _ _ _). vm_compute. reflexivity. Qed.
Lemma client_2_run : update_note ["data"] sample_vault_key "uuid-0" "plan" "more" [] client_1 = (Ok 2%N, client_2).
Proof. refine (run_pair _ _ _ _). vm_compute. reflexivity. Qed.
Lemma client_3_run : delete_note ["data"] "uuid-0" false client_2 = (Ok ("uuid-0", 3%N), client_3).
Proof. refine (run_pair _ _ _ _). vm_compute. reflexivity. Qed.

Lemma offline_edits_chain_witness :
  exists db, Ready ["data"] db client_3 /\ chained (view sample_store) (view db)
    /\ length (mem_mutations (view db)) = 3 + length (mem_mutations (view sample_store)).
Proof.
  apply (offline_edits_chain ["data"] sample_store 3 sample_client client_3).
  - eapply nsteps_l; [exact (es_create _ _ _ _ _ _ _ _ client_1_run)|].
    eapply nsteps_l; [exact (es_update _ _ _ _ _ _ _ _ _ client_2_run)|].
    eapply nsteps_l; [exact (es_delete _ _ _ _ _ client_3_run)|].
    apply nsteps_O.
  - apply sample_steady.
  - apply sample_keyed.
  - apply sample_unused.
  - intros oid. unfold rev_of. cbn. destruct (decide (oid = "a")) as [->|Hne]; [vm_compute; discriminate|].
    rewrite lookup_singleton_ne by done. vm_compute. discriminate.
Defined.

Lemma created_note_is_read_witness :
  exists l, get_note ["data"] sample_vault_key "uuid-0" client_1
    = (Ok (mkNoteDetail "uuid-0" "plan" "body" ["work"] "2023-11-14T22:13:20.000Z" "2023-11-14T22:13:20.000Z" 1 false), l).
Proof.
  destruct (get_note ["data"] sample_vault_key "uuid-0" client_1) as [r l] eqn:Hrun. exists l.
  assert (r = (get_note ["data"] sample_vault_key "uuid-0" client_1).1) as Hr by (rewrite Hrun; reflexivity).
  destruct (created_note_is_read ["data"] sample_store sample_vault_key "plan" "body" ["work"] sample_client
    (Ok "uuid-0") client_1
    (note_text (canonicalize (canonicalize (canonicalize (fresh_note "plan" "body" ["work"] "2023-11-14T22:13:20.000Z"))))))
    as [_ Hread]; [apply sample_steady|vm_compute; reflexivity..|vm_compute; discriminate|apply client_1_run|].
  destruct (Hread eq_refl r l Hrun) as [->|[e ->]]; [vm_compute; reflexivity|].
  exfalso. revert Hr. vm_compute. discriminate.
Defined.

(** *** The session *)

Ltac by_decide := match goal with |- ?P => refine (bool_decide_unpack P _); vm_compute; exact I end.

Definition sample_session : SessionEnvelope := mkSessionEnvelope sample_vault_key 1699999000 1699999000 (Some 900%N).
Definition session_disk (e : SessionEnvelope) : Disk MemoryStorage :=
  put_file ["data"; ".session"] (Bytes (session_to_string e)) sample_disk.

(** Idle for a thousand seconds with a timeout of nine hundred. *)
Lemma idle_session_locks_witness :
  exists l', is_session_expired ["data"] (mkLocal (mkWorld (session_disk sample_session) [] []) 0 0 0) = (Ok true, l')
    /\ files (l_disk l') !! ["data"; ".session"] = None.
Proof.
  set (l := mkLocal (mkWorld (session_disk sample_session) [] []) 0 0 0).
  destruct (is_session_expired ["data"] l) as [r l'] eqn:Hrun.
  destruct (idle_session_locks ["data"] sample_session l) as [Hexp _];
    [vm_compute; reflexivity|reflexivity|split; vm_compute; reflexivity|by_decide..|].
  destruct (Hexp r l' Hrun) as [-> Hf]. exists l'. split; [reflexivity|exact Hf].
Defined.

(** ** An edit that is stored but not queued *)

(** The note is written before its mutation is queued; when queueing fails the update
    reports an error, the new version stays in the store without a queued edit, and the
    next edit is made on a revision the server has never seen. *)
Definition half_update (script : list bool) :=
  update_note_db sample_vault_key "uuid-0" "plan" "more" []
    (mkLocal (mkFaulty (match files (l_disk client_1) !! ["data"; "notes.db"] with Some (Database d) => d | _ => sample_store end)
                script) 5 0 0).

Lemma update_not_queued :
  (let '(r, l) := half_update [false; false; false; true] in
   (r, rev_of (fi_inner (l_store l)) "uuid-0", queued (fi_inner (l_store l)) "uuid-0"))
  = (Err (Cli_Storage (SE_Backend "simulated disk failure")), 2%N, [0%N]).
Proof. vm_compute. reflexivity. Qed.
