(* ===== verification/CliAccountSamples.v ===== *)
(** * The account and link services on concrete inputs

    A network that gives scripted answers, an agent with one key that records what
    it signs, and the claims about signing in and out, linking, guarded sync and
    staging applied to them. *)

From stdpp Require Import options.
From stdpp Require Import gmap countable strings.
From S2P Require Import Prelude Protocol StorageModels Storage CoreErrors Time Env Queue Cursor Text Diff3 Crypto Note Merge NoteSamples Conflict.
From S2P Require Import Vault VaultFacts Search Session Json ServerDb ServerAuth ServerAuthSamples Adapter HttpAdapter Push Pull Orchestrator SyncSamples.
From S2P Require Import Attachment AttachmentStream AttachmentSamples Files CliSession VaultFiles VaultFilesFacts CliNotes CliAuth CliAuthFacts CliLink CliLinkFacts CliSamples.

#[local] Existing Instance sample_auth_lib.

(** ** The outside *)

Record Script : Type := mkScript {
  answers : list (N * string);
  signed : list string
}.

#[local] Instance script_internet : Internet Script := {
  send_to _ _ n :=
    match answers n with
    | [] => (Err "connection refused", n)
    | (status, body) :: rest => (Ok (mkWireResponse status (Ok body)), mkScript rest (signed n))
    end
}.

#[local] Instance StoredAuthSession_countable : Countable StoredAuthSession :=
  inj_countable' (fun s => (as_server_url s, as_account_id s, as_device_id s, as_session_id s, as_token s, as_expires_at s))
    (fun '(u, a, d, i, t, e) => mkStoredAuthSession u a d i t e) ltac:(by intros []).
#[local] Instance SessionResponse_eq_dec : EqDecision CliAuth.SessionResponse.
Proof. solve_decision. Defined.
#[local] Instance SessionResponse_countable : Countable CliAuth.SessionResponse :=
  inj_countable' (fun s => (CliAuth.sp_token s, CliAuth.sp_session_id s, CliAuth.sp_account_id s, CliAuth.sp_device_id s, CliAuth.sp_expires_at s))
    (fun '(t, i, a, d, e) => CliAuth.mkSessionResponse t i a d e) ltac:(by intros []).

(** Origins of the form [https://host]. *)
#[local] Instance sample_auth_client : AuthClientLib := {
  url_parse s :=
    if str_starts_with "https://" s then Ok (mkUrl "https" "" None None None "/" (Some (str_drop 8 s)) s)
    else Err "relative URL without a base";
  ip_is_loopback _ := None;
  http_client_build _ _ := Ok tt;
  http_client_default := Ok tt;
  status_display n := if (n =? 401)%N then "401 Unauthorized" else "200 OK";
  builder_error := "builder error";
  auth_session_to_string s := Ok (to_text s);
  auth_session_from_slice := of_text;
  device_identity_to_string := Ok;
  device_identity_from_slice := Ok;
  device_auth_response_from_slice := of_text;
  session_status_from_slice s := Err ("invalid type: string " +:+ s +:+ ", expected struct SessionStatusResponse");
  device_list_from_slice _ := Err "syntax";
  revoke_device_from_slice _ := Err "syntax"
}.
#[local] Instance sample_auth_session_laws : AuthSessionLaws.
Proof. constructor. intros s json [= <-]. apply of_text_to_text. Qed.

(** A vault with the passphrase [correct horse], and its key. *)
Definition sample_vault : VaultBootstrap * string :=
  match (init_vault "correct horse" sample_params 0).1 with
  | Ok (b, _, key) => (b, key)
  | Err _ => (sample_bootstrap, "")
  end.
Definition sample_fingerprint : string := match vault_fingerprint sample_vault.1 with Ok f => f | Err _ => "" end.

#[local] Instance sample_http_client : HttpClientLib := {
  json_to_vec _ := "{}";
  url_target s := (s, None);
  header_value_ok _ := true;
  from_utf8_lossy s := s;
  push_response_from_slice _ := Err "syntax";
  pull_response_from_slice _ := Ok (mkPullChangesResponse [] 4 false);
  bootstrap_from_slice s := if bool_decide (s = "bootstrap") then Ok sample_vault.1 else Err "syntax";
  conflict_from_slice _ := Err "syntax";
  any_json_from_slice s := Ok (VObject [("code", VString s)]);
  server_error_from_slice s := Ok (Some s, None)
}.

Definition sample_token : string := "zk_sess_" +:+ Time.zeros 43.

(** The challenge of a server for a login of [dev] by [key1], and the session it issues. *)
Definition challenge_for (server : string) : SshChallenge :=
  mkSshChallenge (start_request server ("key1" : PublicKey) (Some acc) dev) (ServerAuthSamples.pad 16 "uuid1")
    (toy_encode (ServerAuthSamples.pad 32 "rnd0")) 1700000100.
Definition issued : CliAuth.SessionResponse :=
  CliAuth.mkSessionResponse sample_token "session-1" acc (Some dev) None.

(** An agent with one key, that signs what it is asked to. *)
#[local] Instance sample_agent : SshAgent Script := {
  agent_connect _ n := (Ok tt, n);
  agent_identities n := (Ok [Id_Certificate; Id_PublicKey ("key1" : PublicKey)], n);
  agent_sign k bytes n := (Ok (k +:+ bytes), mkScript (answers n) (bytes :: signed n));
  key_comment _ := "laptop";
  same_key_data a b := bool_decide (a = b :> string);
  ssh_challenge_from_slice s := Ok (challenge_for s);
  session_response_from_slice _ := Ok issued
}.

(** The client's environment, with an agent. *)
#[local] Instance agent_cli : CliLib MemoryStorage := {
  session_to_string := session_to_string (CliLib := sample_cli);
  session_from_slice := session_from_slice (CliLib := sample_cli);
  db_image _ := "SQLite format 3";
  env_var n := if bool_decide (n = "SSH_AUTH_SOCK") then Some "/run/agent" else None;
  path_display p := str_join "/" p
}.
#[local] Instance agent_cli_laws : CliLaws MemoryStorage.
Proof. destruct sample_cli_laws as [A B C]. constructor; [exact A|exact B|exact C]. Qed.

(** ** Signing in and out *)

Definition account_disk (saved : list (path * content MemoryStorage)) : Disk MemoryStorage :=
  mkDisk (list_to_map saved ∪ files sample_disk) (dirs sample_disk).
Definition with_network (answers : list (N * string)) (d : Disk MemoryStorage)
    : Adapter.World Script (Files.World MemoryStorage) :=
  Adapter.mkWorld (mkScript answers []) (mkLocal (mkWorld d [] []) 0 0 0).

Definition sample_account : StoredAuthSession :=
  mkStoredAuthSession origin acc dev (Some "session-1") sample_token None.
Definition signed_in_disk : Disk MemoryStorage :=
  account_disk [(["data"; ".auth_session"], Bytes (to_text sample_account))].

(** The server ends the session and the file goes; a server that fails leaves it. *)
Lemma sign_out_truthful_witness :
  (exists w', sign_out ["data"] (with_network [(200%N, "")] signed_in_disk) = (Ok tt, w')
     /\ exists_on (w_disk w') ["data"; ".auth_session"] = false)
  /\ exists e w', sign_out ["data"] (with_network [(503%N, "down")] signed_in_disk) = (Err e, w')
     /\ files (w_disk w') !! ["data"; ".auth_session"] = Some (Bytes (to_text sample_account)).
Proof.
  split.
  - destruct (sign_out ["data"] (with_network [(200%N, "")] signed_in_disk)) as [r w'] eqn:Hrun. exists w'.
    pose proof (f_equal fst Hrun) as Hr. cbn [fst] in Hr.
    destruct (sign_out_truthful ["data"] (with_network [(200%N, "")] signed_in_disk) r w') as [Hok _];
      [reflexivity|exact Hrun|].
    assert (r = Ok tt) as -> by (rewrite <- Hr; vm_compute; reflexivity). split; [reflexivity|by apply Hok].
  - destruct (sign_out ["data"] (with_network [(503%N, "down")] signed_in_disk)) as [r w'] eqn:Hrun.
    pose proof (f_equal fst Hrun) as Hr. cbn [fst] in Hr.
    destruct (sign_out_truthful ["data"] (with_network [(503%N, "down")] signed_in_disk) r w')
      as [_ [(Hex & _)|[(c & s & Hc & Hs & resp & n & Hsend & Hend)|((e & ->) & Hheld)]]];
      [reflexivity|exact Hrun|vm_compute in Hex; discriminate Hex| |].
    + injection Hsend as <- <-. vm_compute in Hend. discriminate Hend.
    + exists e, w'. split; [reflexivity|]. by inversion Hheld.
Defined.

Definition login_answers : list (N * string) :=
  [(200%N, origin); (200%N, "{}")].
Definition sign_in_run := login ["data"] origin (Some acc) (Some dev) None
  (with_network login_answers (account_disk [])).

Lemma sign_in_run_ok : sign_in_run.1 = Ok sample_account.
Proof. vm_compute. reflexivity. Qed.

Lemma sign_in_atomic_witness :
  exists w' json, sign_in_run = (Ok sample_account, w') /\ auth_session_from_slice json = Ok sample_account
    /\ files (w_disk w') !! ["data"; ".auth_session"] = Some (Bytes json).
Proof.
  destruct sign_in_run as [r w'] eqn:Hrun.
  assert (r = Ok sample_account) as -> by (rewrite <- sign_in_run_ok, Hrun; reflexivity).
  destruct (sign_in_atomic ["data"] _ (with_network login_answers (account_disk [])) (Ok sample_account) w'
    (by_ssh ["data"] origin (Some acc) (Some dev) None)) as (json & Hjson & _ & Hf); [reflexivity|exact Hrun|].
  exists w', json. split; [reflexivity|]. split; [exact Hjson|exact Hf].
Defined.

(** Everything the agent has signed is for [origin]; it has signed one message. *)
Definition signed_here (n : Script) : Prop :=
  Forall (fun bytes => exists key : PublicKey, signed_for origin key bytes) (signed n).

Lemma signed_here_watched : watched origin signed_here.
Proof.
  constructor; unfold signed_here; cbn.
  - intros base req n Hn. by destruct (answers n) as [|[status body] rest].
  - done.
  - done.
  - intros key bytes n Hb Hn. by constructor; [exists key|].
Qed.

Lemma agent_signs_for_server_witness :
  exists bytes, signed (w_net sign_in_run.2) = [bytes] /\ exists key : PublicKey, signed_for origin key bytes.
Proof.
  destruct sign_in_run as [r w'] eqn:Hrun.
  assert (signed_here (w_net w')) as Hs.
  { apply (agent_signs_for_server signed_here ["data"] origin origin (Some acc) (Some dev) None
      (with_network login_answers (account_disk [])) r w');
      [vm_compute; reflexivity|exact signed_here_watched|constructor|exact Hrun]. }
  assert (exists b, signed (w_net w') = [b]) as [b Hb].
  { assert (signed (w_net w') = signed (w_net sign_in_run.2)) as -> by (rewrite Hrun; reflexivity).
    eexists. vm_compute. reflexivity. }
  exists b. split; [exact Hb|]. unfold signed_here in Hs. rewrite Hb in Hs. by inversion Hs.
Defined.

(** A server that sends the challenge of another one gets no signature. *)
Example relayed_challenge_refused :
  let run := login ["data"] origin (Some acc) (Some dev) None
    (with_network [(200%N, "https://other.example"); (200%N, "{}")] (account_disk [])) in
  run.1 = Err auth_error /\ signed (w_net run.2) = [].
Proof. vm_compute. by split. Qed.

(** A server that answers with the token as the code of the error. *)
Definition upper_token : string := "SECRET_TOKEN_0001".
Lemma refusal_hides_token_witness :
  exists msg, parse_safe_auth_error_with_redaction 401 upper_token (Some upper_token) = AuthError msg
    /\ str_contains upper_token msg = false.
Proof.
  pose proof (refusal_hides_token 401 upper_token upper_token ltac:(vm_compute; reflexivity)
    ltac:(vm_compute; lia)) as H.
  exists "Authentication request rejected: [REDACTED] (HTTP 401 Unauthorized)".
  assert (parse_safe_auth_error_with_redaction 401 upper_token (Some upper_token)
    = AuthError "Authentication request rejected: [REDACTED] (HTTP 401 Unauthorized)") as Hp by (vm_compute; reflexivity).
  rewrite Hp in H. split; [exact Hp|exact H].
Defined.

(** A success whose body is the token as a JSON string: the parser's message, with
    the token in it, becomes the error that is shown. *)
Lemma success_body_reflected :
  exists msg, (api_verify_token origin sample_token dev (with_network [(200%N, sample_token)] signed_in_disk)).1
    = Err (CorruptedSession msg) /\ str_contains sample_token msg = true.
Proof. eexists. vm_compute. by split. Qed.

(** ** Linking and sync *)

#[local] Instance VaultLink_countable : Countable VaultLink :=
  inj_countable' (fun l => (vl_format_version l, vl_server_origin l, vl_account_id l, vl_vault_fingerprint l))
    (fun '(v, o, a, f) => mkVaultLink v o a f) ltac:(by intros []).

#[local] Instance sample_vault_codec : VaultFileLib MemoryStorage := {
  bootstrap_from_slice s := if bool_decide (s = "bootstrap") then Ok sample_vault.1 else Err "syntax";
  bootstrap_to_vec b := if bool_decide (b = sample_vault.1) then Ok "bootstrap" else Err "unsupported";
  new_db := MemoryStorage_new
}.
#[local] Instance sample_links : LinkLib MemoryStorage := {
  link_to_vec l := Ok (to_text l);
  link_from_slice := of_text;
  db_checkpoint := mret tt
}.
#[local] Instance sample_link_laws : LinkLaws MemoryStorage.
Proof. constructor. done. Qed.

Definition sample_link : VaultLink := mkVaultLink 1 origin acc sample_fingerprint.
Definition linked_disk : Disk MemoryStorage :=
  account_disk [(["data"; ".auth_session"], Bytes (to_text sample_account));
                (["data"; "vault-link.json"], Bytes (to_text sample_link));
                (["data"; "vault.json"], Bytes "bootstrap");
                (["data"; "notes.db"], Database MemoryStorage_new)].
Definition sync_run := perform_sync 5 ["data"] None (with_network [(200%N, "bootstrap"); (200%N, "{}")] linked_disk).

Lemma sync_run_ok : sync_run.1 = Ok (Some (SS_Synced 0)).
Proof. vm_compute. reflexivity. Qed.

(** The guard let the sync through, so the vault of the server is the linked one. *)
Lemma sync_guarded_witness :
  exists w', sync_run = (Ok (Some (SS_Synced 0)), w')
    /\ exists auth link a, bound ["data"] auth link linked_disk /\ sync_adapter link auth = Ok a
         /\ remote_linked a link (mkScript [(200%N, "bootstrap"); (200%N, "{}")] []).
Proof.
  destruct sync_run as [r w'] eqn:Hrun. exists w'.
  assert (r = Ok (Some (SS_Synced 0))) as -> by (rewrite <- sync_run_ok, Hrun; reflexivity).
  split; [reflexivity|].
  destruct (sync_guarded 5 ["data"] None (with_network [(200%N, "bootstrap"); (200%N, "{}")] linked_disk)
    (Ok (Some (SS_Synced 0))) w') as [[(c & auth & link & a & _ & _ & Hb & Ha & Hr)|[_ Hn]] _];
    [vm_compute; reflexivity|exact Hrun|exists auth, link, a; exact (conj Hb (conj Ha Hr))|].
  exfalso. assert (answers (w_net w') = []) as Hw.
  { assert (answers (w_net w') = answers (w_net sync_run.2)) as -> by (rewrite Hrun; reflexivity).
    vm_compute. reflexivity. }
  destruct Hn as [Hn|(auth & link & a & _ & _ & Hn)]; rewrite Hn in Hw; [discriminate Hw|].
  destruct a as [url token]. vm_compute in Hw. discriminate Hw.
Defined.

(** ** Restoring a vault of the server *)

#[local] Instance long_env : Env := {
  uuid_v4 n := "uuid-" +:+ Time.zeros 30 +:+ show_nat n;
  system_time n := system_time (Env := sample_env) n;
  random_bytes n len := random_bytes (Env := sample_env) n len
}.

Definition vault_server : MockSyncAdapter :=
  mkMock (Some sample_vault.1)
    {["n" := mkObjectChange 3 "n" 1 OBJECT_KIND_NOTE false
               (match (encrypt (titled "plan") sample_vault.2 "n" 0).1 with Ok e => e | Err _ => sample_envelope "n" "" end)]}
    3 None ∅.
Definition sample_preflight : ReplacePreflight :=
  mkReplacePreflight None None sample_link (mkUnsyncedCounts 0 0 0 0 0) sample_vault.1 sample_account.
Definition stage_run := stage_with_hook 5 ["data"] sample_preflight (Passphrase "correct horse") (fun _ _ => Ok tt)
  (Adapter.mkWorld vault_server (mkLocal (mkWorld sample_disk [] []) 0 0 0)).
Definition restored : StagedVault :=
  mkStagedVault (paths ["data"] (uuid_v4 0)).1 (uuid_v4 0) sample_fingerprint.

Lemma stage_run_ok : stage_run.1 = Ok (Some restored).
Proof. vm_compute. reflexivity. Qed.

(** The vault of the server, restored beside the old one: it can replace it, and its
    only note opens. *)
Lemma staging_safe_witness :
  exists w' new key b, stage_run = (Ok (Some restored), w')
    /\ Replacement ["data"] sample_old sample_old new restored (w_disk w')
    /\ new "notes.db" = Some (Database b) /\ objects_checked key b
    /\ unlock_with sample_vault.1 (Passphrase "correct horse") = Ok key.
Proof.
  destruct stage_run as [r w'] eqn:Hrun. exists w'.
  assert (r = Ok (Some restored)) as -> by (rewrite <- stage_run_ok, Hrun; reflexivity).
  destruct (staging_safe 5 ["data"] sample_old sample_old sample_preflight (Passphrase "correct horse") (fun _ _ => Ok tt)
    (Adapter.mkWorld vault_server (mkLocal (mkWorld sample_disk [] []) 0 0 0)) (Ok (Some restored)) w')
    as [_ Hst]; [reflexivity|vm_compute; reflexivity|by_decide|apply sample_shape|intros n _; reflexivity
      |split; [reflexivity|intros n _; reflexivity]|exact Hrun|].
  destruct (Hst restored eq_refl) as (new & key & bb & jb & b & x & Hrep & _ & Hdb & _ & _ & _ & _ & _ & Hkey & Hobj & _).
  exists new, key, b. split; [reflexivity|]. split; [exact Hrep|]. split; [exact Hdb|]. split; [exact Hobj|exact Hkey].
Defined.
