(* ===== verification/CliMainSamples.v ===== *)
(** * The commands on concrete inputs

    The claims about the editor and the passphrase commands applied to a small data
    directory, and runs that show where commands do less than they say. *)

From stdpp Require Import options.
From stdpp Require Import gmap countable strings.
From S2P Require Import Prelude Protocol StorageModels Storage CoreErrors Time Env Queue Text Diff3 Crypto Note Merge NoteSamples Conflict.
From S2P Require Import Vault VaultFacts Search Json ServerDb ServerAuth ServerAuthSamples Adapter HttpAdapter SyncSamples Attachment AttachmentStream AttachmentSamples.
From S2P Require Import Files CliSession VaultFiles VaultFilesFacts EditBuffer CliNotes CliAuth CliAuthFacts CliLink CliLinkFacts CliEditor CliCommands CliMain CliSamples CliAccountSamples.

#[local] Existing Instance sample_auth_lib.
#[local] Existing Instance script_internet.
#[local] Existing Instance sample_auth_client.
#[local] Existing Instance sample_http_client.
#[local] Existing Instance sample_agent.
#[local] Existing Instance sample_links.
#[local] Existing Instance text_notes.

(** ** Library code *)

#[local] Instance KdfParams_countable : Countable KdfParams :=
  inj_countable' (fun p => (kdf_algorithm p, kdf_salt p, memory_kib p, iterations p, parallelism p))
    (fun '(a, s, m, i, p) => mkKdfParams a s m i p) ltac:(by intros []).
#[local] Instance WrappedVaultKey_countable : Countable WrappedVaultKey :=
  inj_countable' (fun w => (cipher_suite w, wvk_nonce w, wvk_ciphertext w)) (fun '(c, n, t) => mkWrappedVaultKey c n t) ltac:(by intros []).
#[local] Instance VaultBootstrap_countable : Countable VaultBootstrap :=
  inj_countable' (fun b => (crypto_version b, kdf b, wrapped_vault_key b, recovery_wrapped_vault_key b))
    (fun '(v, k, w, r) => mkVaultBootstrap v k w r) ltac:(by intros []).

#[local] Instance text_vaults : VaultFileLib MemoryStorage := {
  bootstrap_from_slice := of_text;
  bootstrap_to_vec b := Ok (to_text b);
  new_db := MemoryStorage_new
}.

(** A process whose input is no terminal. *)
#[local] Instance piped : Console := {
  is_terminal := false;
  prompt_password _ := Err "no terminal";
  read_line _ := Ok "";
  read_to_string := Ok "";
  process_id := "17"
}.
#[local] Instance sample_commands : CommandLib := {
  bootstrap_to_string_pretty b := Ok (to_text b);
  uuid_parse s := Ok s;
  note_pretty _ := Err "unsupported";
  results_pretty _ := Err "unsupported";
  notes_pretty _ := Err "unsupported";
  history_item_pretty _ := Err "unsupported";
  history_pretty _ := Err "unsupported";
  conflicts_pretty _ := Err "unsupported";
  info_pretty _ := Err "unsupported";
  manifests_pretty _ := Err "unsupported";
  devices_pretty _ := Err "unsupported";
  revoked_pretty _ := Err "unsupported"
}.
#[local] Instance sample_command_laws : CommandLaws MemoryStorage.
Proof. constructor. intros b json [= <-]. apply of_text_to_text. Qed.
#[local] Instance sample_main : MainLib := {
  ssh_credential_from_slice _ := Err "syntax";
  ssh_credentials_from_slice _ := Err "syntax";
  locked_elsewhere _ := false
}.

#[local] Instance Manifest_eq_dec : EqDecision Manifest.
Proof. solve_decision. Defined.
#[local] Instance Manifest_countable : Countable Manifest :=
  inj_countable' (fun m => (mf_attachment_id m, mf_name m, mf_mime m, mf_size m, mf_chunk_count m, mf_chunk_size m, mf_content_hash m))
    (fun '(i, n, t, s, c, k, h) => mkManifest i n t s c k h) ltac:(by intros []).
#[local] Instance text_manifests : ManifestLib := {
  manifest_to_json m := Ok (to_text m);
  manifest_from_json := of_text
}.

(** An editor that saves a new text and leaves a copy of the old one next to it. *)
Definition new_text : string := note_to_edit_buffer "plan" ["work"] "edited".
#[local] Instance sample_editor : EditorLib MemoryStorage := {
  env_temp_dir := ["tmp"];
  path_of s := [s];
  editor_process _ p d :=
    (Ok (true, "exit status: 0"),
     match files d !! p with
     | Some old => put_file ["home"; "backup.md"] old (put_file p (Bytes new_text) d)
     | None => d
     end)
}.

(** ** Changing the passphrase *)

Definition vault_disk : Disk MemoryStorage := account_disk [(["data"; "vault.json"], Bytes (to_text sample_vault.1))].
Definition passwd_run :=
  dispatch (fun s => s) (fun _ => throw NotLoggedIn) 5 ["data"] (Cmd_Passwd (Some "correct horse") (Some "battery staple") true)
    (with_network [] vault_disk).

Lemma passwd_run_ok : passwd_run.1 = Ok (Some tt).
Proof. vm_compute. reflexivity. Qed.

(** The new vault opens with the new passphrase, to the key the old one gave. *)
Lemma passphrase_change_atomic_witness :
  exists w' json b', passwd_run = (Ok (Some tt), w') /\ files (w_disk w') !! ["data"; "vault.json"] = Some (Bytes json)
    /\ bootstrap_from_slice json = Ok b' /\ rekeyed sample_vault.1 b' "battery staple".
Proof.
  destruct passwd_run as [r w'] eqn:Hrun. exists w'.
  assert (r = Ok (Some tt)) as -> by (rewrite <- passwd_run_ok, Hrun; reflexivity).
  destruct (passphrase_change_atomic (fun s => s) (fun _ => throw NotLoggedIn) 5 ["data"]
    (Cmd_Passwd (Some "correct horse") (Some "battery staple") true) (Bytes (to_text sample_vault.1)) sample_vault.1
    (with_network [] vault_disk) (Ok (Some tt)) w') as [_ Hnew];
    [reflexivity|discriminate|vm_compute; reflexivity|exact (of_text_to_text sample_vault.1)|vm_compute; reflexivity|reflexivity|exact Hrun|].
  destruct (Hnew "battery staple" eq_refl eq_refl) as (json & b' & Hf & Hb & Hr).
  exists json, b'. split; [reflexivity|]. split; [exact Hf|]. split; [exact Hb|exact Hr].
Defined.

(** ** The editor *)

Definition shm_disk : Disk MemoryStorage := mkDisk (files sample_disk) ({[["dev"]]} ∪ ({[["dev"; "shm"]]} ∪ dirs sample_disk)).
Definition with_note : Local (Files.World MemoryStorage) :=
  (create_note ["data"] sample_vault_key "plan" "body" ["work"] (mkLocal (mkWorld shm_disk [] []) 0 0 0)).2.
Definition edit_run := edit_note_external ["data"] sample_vault_key "uuid-0" None with_note.

Lemma edit_run_ok : edit_run.1 = Ok 2%N.
Proof. vm_compute. reflexivity. Qed.

(** The edit is stored, the temporary file is gone, and the rest is as the editor
    left it. *)
Lemma edit_leaves_no_plaintext_witness :
  edit_run.1 = Ok 2%N
  /\ exists t base, course (editor_command None) [db_file ["data"]] (l_disk with_note) t base
    /\ files (l_disk edit_run.2) !! ["data"; "vault.json"] = files base !! ["data"; "vault.json"]
    /\ forall tmp, t = Some tmp -> files (l_disk edit_run.2) !! tmp = None.
Proof.
  split; [exact edit_run_ok|]. destruct edit_run as [r l'] eqn:Hrun. cbn [fst snd].
  destruct (edit_leaves_no_plaintext ["data"] sample_vault_key "uuid-0" None with_note r l') as (t & base & Hc & Hleft);
    [vm_compute; reflexivity|exact Hrun|]. exists t, base. split; [exact Hc|].
  assert (no_journal ["data"] base /\ Some ["data"; "vault.json"] <> t) as [Hj Ht].
  { assert (no_journal ["data"] (l_disk with_note)) as H0 by (vm_compute; reflexivity).
    assert (forall dir id n, n <> temp_name "zk-note-edit" id -> dir ++ [temp_name "zk-note-edit" id] <> ["data"] ++ [n]) as Hne
      by (intros; by apply temp_name_ne).
    destruct Hc as [|tmp [(dir & id & ->) _]|tmp d1 [(dir & id & ->) _] Hd1].
    - split; [exact H0|discriminate].
    - split; [exact H0|]. intros [= Heq]. by apply (Hne dir id "vault.json").
    - split; [|intros [= Heq]; by apply (Hne dir id "vault.json")].
      assert (files d1 !! (["data"] ++ [JOURNAL]) = None) as H1.
      { rewrite Hd1; [exact H0|]. rewrite !not_elem_of_cons. split_and!; [|discriminate|apply not_elem_of_nil].
        intros Heq. by apply (Hne dir id JOURNAL). }
      cbn. destruct (files d1 !! (dir ++ _)) as [old|]; [|exact H1]. unfold no_journal. cbn.
      rewrite lookup_insert_ne by discriminate. rewrite lookup_insert_ne by (by apply (Hne dir id JOURNAL)). exact H1. }
  destruct (Hleft Hj) as [Hq Hgone]. split; [by apply Hq|]. apply Hgone. vm_compute. reflexivity.
Defined.

(** ** Where commands do less than they say *)

(** A write that fails leaves the temporary file, with what was written of the note. *)
Definition broken_create :=
  TempFileGuard_create (DB := MemoryStorage) "zk-note-edit" "secret"
    (mkLocal (mkWorld shm_disk [] [Works; Works; Breaks "No space left on device (os error 28)" "sec"]) 0 0 0).
Lemma broken_create_leaves_plaintext :
  is_ok broken_create.1 = false
  /\ files (l_disk broken_create.2) !! ["dev"; "shm"; "zk-note-edits"; "zk-note-edit-uuid-0.md"] = Some (Bytes "sec").
Proof. vm_compute. by split. Qed.

(** The tags of a note in the table are cut in the middle of a character. *)
Lemma long_tags_panic : tags_column ["quartalsberichtübersicht"] = Err Panics.
Proof. vm_compute. reflexivity. Qed.

(** An edited note loses its attachments. *)
Definition attached_disk : Disk MemoryStorage :=
  mkDisk (<[["home"; "a.txt"] := Bytes "report"]> (files shm_disk)) (dirs shm_disk).
Definition attach_world : Local (Files.World MemoryStorage) :=
  ((_ ← create_note ["data"] sample_vault_key "plan" "body" ["work"];
    save_session_key (session_file ["data"]) sample_vault_key) (mkLocal (mkWorld attached_disk [] []) 0 0 0)).2.
Definition attach_run := cmd_attach ["data"] "uuid-0" ["home"; "a.txt"] None None attach_world.
Definition retitle_run := cmd_edit ["data"] "uuid-0" None (Some "the plan") None None attach_run.2.
Definition attachments_in (l : Local (Files.World MemoryStorage)) : option (list string) :=
  match (get_plaintext_note ["data"] sample_vault_key "uuid-0" l).1 with Ok (_, note) => Some (n_attachments note) | Err _ => None end.

Lemma edit_drops_attachments :
  is_ok attach_run.1 = true /\ attachments_in attach_run.2 = Some ["uuid-2"]
  /\ is_ok retitle_run.1 = true /\ attachments_in retitle_run.2 = Some [].
Proof. vm_compute. by repeat split. Qed.

(** When the session cannot be saved, [init] fails with the vault in place: its
    recovery key is not shown, and a second [init] refuses. *)
Definition fresh_disk : Disk MemoryStorage := mkDisk ∅ {[ ["data"] ]}.
Definition init_run := cmd_init ["data"] (Some "correct horse") true
  (mkLocal (mkWorld fresh_disk [] (repeat Works 5 ++ [Breaks "Permission denied (os error 13)" ""])) 0 0 0).
Definition init_again := cmd_init ["data"] (Some "correct horse") true init_run.2.

Lemma failed_init_keeps_vault :
  is_ok init_run.1 = false /\ bool_decide (is_Some (files (l_disk init_run.2) !! ["data"; "vault.json"])) = true
  /\ init_again.1 = Err VaultAlreadyInitialized.
Proof. vm_compute. by repeat split. Qed.

(** Without a memory-backed directory the plaintext goes to the temporary directory of
    the system. *)
Lemma plaintext_on_disk :
  exists guard l', TempFileGuard_create "zk-note-edit" "secret"
      (mkLocal (mkWorld (mkDisk (DB := MemoryStorage) ∅ {[ ["tmp"] ]}) [] []) 0 0 0) = (Ok guard, l')
    /\ tg_is_ram_backed guard = false
    /\ files (l_disk l') !! ["tmp"; "zk-note-edits"; "zk-note-edit-uuid-0.md"] = Some (Bytes "secret").
Proof. do 2 eexists. vm_compute. by repeat split. Qed.
