(* ===== verification/WasmSamples.v ===== *)
(** * The browser's client on concrete inputs

    Codecs that satisfy the laws of [WasmLib], and the claims about sessions, notes
    and vaults of the browser applied to them. *)

From stdpp Require Import options.
From stdpp Require Import gmap countable strings.
From S2P Require Import Prelude Protocol StorageModels Storage CoreErrors Time Env Queue Text Diff3 Crypto Note Merge NoteSamples Conflict.
From S2P Require Import Vault VaultFacts Search Session StateMachine Adapter Attachment AttachmentStream AttachmentSamples CliSamples Wasm WasmFacts.

#[local] Existing Instance text_notes.
#[local] Existing Instance text_notes_laws.

(** ** Library code *)

#[local] Instance browser_envelope_countable : Countable EncryptedEnvelope :=
  inj_countable' (fun e => (envelope_version e, env_object_id e, env_object_kind e, key_nonce (wrapped_key e),
                            key_ciphertext (wrapped_key e), payload_nonce (payload e), payload_ciphertext (payload e)))
    (fun '(v, o, k, n, c, pn, pc) => mkEnvelope v o k (mkKeyContainer n c) (mkPayloadContainer pn pc)) ltac:(by intros [? ? ? [] []]).
#[local] Instance browser_kdf_countable : Countable KdfParams :=
  inj_countable' (fun p => (kdf_algorithm p, kdf_salt p, memory_kib p, iterations p, parallelism p))
    (fun '(a, s, m, i, p) => mkKdfParams a s m i p) ltac:(by intros []).
#[local] Instance browser_wrapper_countable : Countable WrappedVaultKey :=
  inj_countable' (fun w => (cipher_suite w, wvk_nonce w, wvk_ciphertext w)) (fun '(c, n, t) => mkWrappedVaultKey c n t) ltac:(by intros []).

#[local] Instance sample_wasm : WasmLib := {
  envelope_to_json e := Ok (to_text e);
  envelope_from_json := of_text;
  wrapped_to_json w := Ok (to_text w);
  wrapped_from_json := of_text;
  kdf_to_json p := Ok (to_text p);
  kdf_from_json := of_text;
  pending_from_json _ := Err "syntax";
  pendings_from_json _ := Ok [];
  conflict_response_from_json _ := Err "syntax";
  conflict_record_to_json _ := Err "unsupported";
  conflict_record_from_json _ := Err "syntax";
  machine_options_from_json _ := Err "syntax";
  pull_response_from_json _ := Ok (mkPullChangesResponse [] 4 false);
  push_response_from_json _ := Err "syntax";
  phase_to_json p := Ok (String DoubleQuote ((if bool_decide (p = Initial) then "initial" else "busy") +:+ String DoubleQuote ""));
  actions_to_json l := Ok (show_nat (length l));
  report_to_json _ := Ok "{}";
  wasm_note_to_json n := Ok (wn_title n);
  wasm_manifest_to_json m := Ok (wm_name m)
}.
#[local] Instance sample_wasm_laws : WasmLaws.
Proof.
  constructor; cbn; [eauto| |eauto| |eauto|]; intros x s [= <-]; apply of_text_to_text.
Qed.

(** ** A script *)

Definition opened : Local WasmVaultSession := mkLocal (fresh_session sample_vault_key 1700000000) 0 0 0.
Definition script : list js_call :=
  [JTimeout (Some 60%N); JIndex "a" "plan" "ship it" ["work"] "2024-01-01T00:00:00.000Z"; JSearch "ship"; JLock].

(** The script finds its note, and after [lock] nothing does. *)
Example script_locks :
  option_map (map wr_note_id) (ok (search "ship" (run_calls (take 3 script) opened)).1) = Some ["a"]
  /\ (search "ship" (run_calls script opened)).1 = Err "vault is locked".
Proof. vm_compute. done. Qed.

Lemma browser_session_fails_closed_witness :
  blank (l_store (run_calls script opened))
  /\ exists e, (exec (JEncrypt "a" "t" "b" []) (run_calls script opened)).1 = Err e.
Proof.
  destruct (browser_session_fails_closed sample_vault_key 1700000000 opened script eq_refl) as (_ & Hl & _).
  destruct (Hl ltac:(vm_compute; reflexivity) []) as [Hb Hr]. split; [exact Hb|].
  exact (Hr (JEncrypt "a" "t" "b" []) eq_refl).
Defined.

(** ** A note *)

Definition browser_built : PlaintextNote :=
  mkNote NOTE_SCHEMA_VERSION_V1 "plan" "ship it" ["work"] (now_utc_rfc3339 (system_time 0)) (now_utc_rfc3339 (system_time 0)) ["att"].

Lemma browser_native_interop_witness :
  exists json env l', encrypt_note_with_attachments "n1" "plan" "ship it" [" work"] ["att"] opened = (Ok json, l')
    /\ envelope_from_json json = Ok env /\ decrypt env sample_vault_key = Ok browser_built
    /\ decrypt_note json l' = (Ok (wasm_note "n1" browser_built), l').
Proof.
  destruct (browser_native_interop opened sample_vault_key eq_refl eq_refl) as [H _].
  destruct (H "n1" "plan" "ship it" [" work"] ["att"] browser_built (note_text browser_built)) as (json & env & l' & Hrun & Hj & _ & Hd & Hr & _);
    [vm_compute; reflexivity|vm_compute; reflexivity|vm_compute; reflexivity|vm_compute; discriminate|].
  exists json, env, l'. split; [exact Hrun|]. split; [exact Hj|]. split; [exact Hd|exact Hr].
Defined.

(** ** A vault *)

Lemma browser_vault_roundtrip_witness :
  exists r l' vk, init_vault_with_params "correct horse" (to_text sample_params) opened = (Ok r, l')
    /\ unlocks (fun S => Wasm.unlock_vault (S := S) "correct horse" (wi_wrapped_vault_key r) (wi_kdf_params_json r)) vk
    /\ unlocks (fun S => Wasm.unlock_with_recovery_key (S := S) (wi_recovery_phrase r) (wi_wrapped_recovery_key r)) vk.
Proof.
  destruct (browser_vault_roundtrip opened "correct horse" (to_text sample_params) sample_params)
    as [_ (r & l' & b & vk & s & Hrun & _ & _ & _ & _ & _ & _ & Hp & Hr & _)];
    [exact (of_text_to_text sample_params)|exact sample_params_usable|vm_compute; discriminate|].
  exists r, l', vk. split; [exact Hrun|]. split; [exact Hp|exact Hr].
Defined.

(** The phrase is groups of hexadecimal digits, not words. *)
Example recovery_phrase_not_words :
  str_take 17 (match (init_vault_with_params "correct horse" (to_text sample_params) opened).1 with
               | Ok r => wi_recovery_phrase r | Err _ => "" end) = "30303030-30303030".
Proof. vm_compute. reflexivity. Qed.

(** ** The state machine *)

Example machine_over_json :
  match WasmSyncStateMachine_new 0 "[]" None with
  | Ok sm => let '(r, sm1) := machine_start sm in
             (r, machine_phase sm, let '(r2, sm2) := machine_handle_pull_response (fun _ => "now") "{}" sm1 in (r2, machine_cursor sm2))
             = (Ok "2", "initial", (Ok "1", 0%N))
  | Err _ => False
  end.
Proof. vm_compute. reflexivity. Qed.
